(* ===== verification/_CoqProject ===== *)
-Q . S2P
Prelude.v
Chain.v
Kmath.v
Ring.v
Bitmap.v
Pmm.v
Mmap.v
RingBuf.v
KString.v
Bytes.v
Heap.v
KStdlib.v
KPrintf.v
HashMap.v
Slab.v
Path.v
Sync.v
Ipc.v
Signal.v
Shm.v
Checksum.v
Net.v
Vmm.v
Vfs.v
FileData.v
FsClient.v
FdTable.v
Sched.v
Elf.v
Proc.v
NetUtil.v
Rtc.v
Console.v
Sys.v
SysFile.v
Initrd.v
Boot.v
SysTable.v
CLib.v
TextBuffer.v
TextLines.v
TextEdit.v
TextClient.v
TextClaims.v
Vt100.v
Vt100Screen.v
Vt100Feed.v
Vt100Claims.v
ImageBmp.v
ImageBmpRows.v
ImageBmpFile.v
ImageBmpClaims.v
ImageBmpRle.v
Libc.v
ImagePpm.v
ImagePpmClaims.v
ImagePpmCodec.v
Rects.v
DamageClaims.v
ClipClaims.v
ShellParser.v
ShellSafe.v
ShellLex.v
ShellClaims.v
Draw.v
DrawPaint.v
DrawLine.v
DrawClaims.v
LibcString.v
LibcStringClaims.v
LibcPrintf.v
LibcPrintfClaims.v
LibcEnv.v
ShellExpand.v
ShellExpandClaims.v
Compositor.v
CompositorPaint.v
CompositorOps.v
