(* ===== verification/Prelude.v ===== *)
(** Verification of the nv0ken operating system.

    The program is a small x86_64 kernel written in C (src/kernel) with a display
    server, applications and user space on top of it.  This library models the kernel's
    own logic: memory management, the kernel library, synchronisation and inter-process
    communication, the file system, processes, the system calls, the boot formats and the
    network stack; and of the programs on top of it those that handle untrusted or
    intricate data: the buffer of the text editor, the terminal emulator, the image
    decoders, the drawing library with its clip stack, the damage tracker and the compositor
    of the display server, the expansion and the parser of the shell, and the strings,
    formatted output and environment of the C library.  Each C function is a Rocq function of the same name, each struct a record with the same fields, each group of
    static variables a record that the functions of its file take and return.

    * Conventions (this file)

    A function that can go wrong returns [outcome]: [Ok a], [Undef] where the C code has
    undefined behaviour (an access outside an object, division by zero, signed overflow)
    and [OutOfFuel] where a loop was cut off.  [m ⇓ Q] says that [m] ends in [Ok] with a
    result that satisfies [Q]: termination and absence of undefined behaviour are part of
    every such statement.  Integers are [Z] with the wrap-around of their width written
    out ([u8] to [u64], [i32], [i64]); arrays and buffers are lists indexed by [Z] with a
    bounds check ([zget], [zset]); a pointer to one object that may be NULL is an
    [option]; a pointer into the heap is its address.  [loop] runs a body with fuel;
    [for_loop] and [for_each] are counted loops and need none.

    * Files

    - Kmath: the alignment helpers of lib/math.h.
    - Bitmap, Pmm: lib/bitmap.c and the frame allocator mm/pmm.c, with the interface
      [FrameAllocator] that virtual memory is proved against.
    - Mmap: the boot memory map mm/mmap.c and the part of main.c that fills the frame
      allocator from it.
    - Ring, RingBuf: rings in an array; lib/ring_buf.c and the kernel log lib/klog.c.
    - KString, KStdlib, KPrintf: lib/string.c, lib/stdlib.c, lib/kprintf.c, lib/log.c and
      lib/panic.c.
    - Heap: mm/heap.c, with the interfaces [Allocator] and [Reallocator] that every
      client of the heap is proved against.
    - HashMap: lib/hashmap.c.  Slab: mm/slab.c over any [Allocator].
    - Sync: lib/spinlock.c, ipc/mutex.c, ipc/semaphore.c and ipc/condvar.c; the atomic
      accesses of several threads are the steps of a transition relation.
    - Ipc: ipc/pipe.c and ipc/msgqueue.c.  Signal: ipc/signal.c.  Shm: ipc/shm.c.
    - Checksum, Net: net/checksum.c and the stack netdev.c, ethernet.c, arp.c, ipv4.c,
      icmp.c, udp.c, dhcp.c, tcp.c; what a driver or a bound handler does is a parameter.
    - Vmm: mm/vmm.c with arch/x86_64/paging.c over memory, CR3 and a TLB (module [Vmm]),
      mm/addr_space.c (module [AddrSpace]) and mm/cow.c (module [Cow]).
    - Path, Vfs, FileData, FsClient: fs/path.c, fs/vfs.c, fs/tmpfs.c and fs/pipe_fs.c; the
      tree of nodes, the bytes of files, and sequences of calls from the mounted root.
    - FdTable: fs/fd_table.c.
    - Chain: linked lists through the [next] fields of objects in a store, which nodes,
      threads, processes and free objects share.  Bytes: integers in a byte image.
    - Sched: proc/thread.c and proc/scheduler.c.  Elf: proc/elf_loader.c.
    - Proc: proc/process.c, proc/wait.c and proc/exec.c.
    - NetUtil: net/socket.c (module [Socket]), net/dns.c ([Dns]), net/net_buf.c
      ([NetBuf]) and the control block of net/tcp.c ([Tcp]).
    - Rtc: drivers/rtc.c (module [Rtc]) and drivers/timer.c ([Timer]).  Console:
      drivers/keyboard.c with keyboard_map.h ([Keyboard]) and drivers/console.c
      ([Console]).  What the ports answer is a parameter.
    - Sys: the handlers of proc/syscall_handlers.c over a record of the states they reach;
      SysFile: what the calls on files promise together.  SysTable: registration and
      dispatch (arch/x86_64/syscall.c, proc/syscall_table.c).
    - Initrd: fs/initrd.c and init_filesystems of main.c, over a heap that notes whether
      a request was refused, and archives as maps from paths.  Boot: boot/multiboot2.c.
    - CLib: [int] arithmetic, memory functions and an allocator that may refuse a request,
      for the user-space programs.  Libc: character classes and number parsing of
      userland/libc/src; LibcString: string.c; LibcPrintf: the formatted output of stdio.c;
      LibcEnv: the environment of stdlib.c; LibcStringClaims, and LibcPrintfClaims with
      the text that the C standard gives a format.
    - TextBuffer: apps/text_editor/buffer.c.  TextLines (modules [TextStore]
      and [TextLines]), TextEdit, TextClient: the gap buffer, the line cache, the edits, and
      documents as the specification of a buffer; TextClaims (with [TextReplace] and
      [TextFiles]): the claims.
    - Vt100: apps/terminal/vt100.c; Vt100Screen, Vt100Feed: cells, scrolling and the
      parser of control sequences; Vt100Claims.
    - ImageBmp: apps/image_viewer/decode_bmp.c; ImageBmpRows, ImageBmpFile: the
      file format (module [ImageBmpSpec]), rows and headers; ImageBmpClaims, ImageBmpRle.
    - ImagePpm: apps/image_viewer/decode_ppm.c; ImagePpmClaims, ImagePpmCodec:
      bounds, and the files the format allows with their images.
    - Rects: graphics/server/damage.c (module [Damage]) and graphics/draw/clip.c ([Clip]);
      DamageClaims, ClipClaims.
    - ShellParser: userland/shell/parser.c; ShellSafe: any input; ShellLex: the
      language, its spellings and trees (module [ShellGrammar]), and with ShellClaims
      reading it back.
    - ShellExpand: userland/shell/expand.c and the first half of execute in main.c;
      ShellExpandClaims, in which module [ShellLine] takes a line from expansion to its tree.
    - Draw: graphics/draw/color.h and draw.c; DrawPaint: what painting a set of pixels
      means, shapes and blits (modules [DrawShapes] and [DrawBlit]); DrawLine, DrawClaims.
    - Compositor: graphics/server/compositor.c, with its insertion sort (module [ZSort]);
      CompositorPaint: what a composition shows; CompositorOps: each operation and
      sequences of them (module [CompositorClaims]).

    * What the theorems show

    - Refinement of an abstract specification: the heap's blocks, the page map, the file
      tree as a function from paths, the hash table as a finite map, ring buffer, pipe
      and message queue as queues, the descriptor table as a map, the run queue as a
      round robin, the process list as a table of pids, console input as a queue of
      lines, an unpacked archive as a map from paths, the editor's buffer as a document
      with a history, the clip stack as an intersection of rectangles.
    - Invariants over every sequence of operations: the frame counters against the
      bitmap, the node tree and its storage, shared memory and slab ownership, semaphore
      counts and mutual exclusion over every interleaving, the terminal's screens and
      scrollback, the damaged pixels of a surface.
    - Functional behaviour on every branch, errors included: first fit, coalescing,
      reallocation, sorting, number parsing, formatted output, path normalisation,
      checksums, signal delivery.
    - Round trips: map and translate, write and read (through the file system and through
      the system calls), print and parse, archive and unpack, DNS names, undo and redo,
      save and load, image files and their pixels, command lines and their trees.
    - Exact effect of drawing: shapes, lines and blits change the pixels they should and
      no others, no drawing command leaves the surface, and the screen shows the surfaces
      of the compositor.
    - What the code gets wrong, as theorems about the same definitions: a 32-bit rounding
      mask in kmalloc, a mutex that excludes nobody, a loop in tmpfs_write that never ends,
      a translation that misreads large pages, an undo stack that frees uninitialised
      pointers, palettes read behind their end, a shell that drops commands, and others.

    * Fuel

    Loops over linked structures use the number of objects in the store (plus one) as
    fuel, so they run out only on a cyclic list, which the invariants exclude; loops that
    walk text, digits or pixels use their number or 64; the recursion of the shell's parser
    uses the length of the input, every call of it consumes a token.  Every claim proves that the fuel is
    enough, or, for the loops of waiting threads, takes the number of steps as given.

    * Not modelled

    The probe of ext2 (it reads three fields); the remaining drivers and architecture code
    (port I/O and assembly); boot order and the debug monitor; fonts, widgets, window
    manager and desktop, the event loop and the cursor of the display server, the browser, calculator and file manager, and the event loops of
    the other applications; execution of commands in the shell, the streams of the C library, init, the utilities and
    libnv0; drawing with floating-point numbers.  Blocking on the console is modelled with
    the number of polls as fuel, so a call that waits for input for ever is outside the
    claims on system calls. *)
From Stdlib Require Export ZArith Lia.
From stdpp Require Export base tactics numbers option list gmap relations.

#[export] Set Default Goal Selector "!".
#[global] Open Scope Z_scope.

(** * Outcomes of running C code

    [Ok a]: the code returned [a].  [Undef]: the code did something the C
    standard leaves undefined (read or wrote outside an object, followed a NULL
    pointer, divided by zero).  [OutOfFuel]: the iteration bound given to a
    loop was reached before the loop ended. *)
Inductive outcome (A : Type) : Type :=
  | Ok (a : A)
  | Undef
  | OutOfFuel.
Arguments Ok {A} a.
Arguments Undef {A}.
Arguments OutOfFuel {A}.

#[global] Instance outcome_ret : MRet outcome := λ A a, Ok a.
#[global] Instance outcome_bind : MBind outcome := λ A B f m,
  match m with
  | Ok a => f a
  | Undef => Undef
  | OutOfFuel => OutOfFuel
  end.

(** Total correctness: the computation returns, and its result satisfies [Q]. *)
Definition wp {A} (m : outcome A) (Q : A → Prop) : Prop := ∃ a, m = Ok a ∧ Q a.

Declare Scope kernel_scope.
Delimit Scope kernel_scope with kernel.
Notation "m ⇓ Q" := (wp m Q) (at level 70) : kernel_scope.
#[global] Open Scope kernel_scope.

Lemma bind_ok {A B} (a : A) (f : A → outcome B) : Ok a ≫= f = f a.
Proof. done. Qed.

Lemma bind_inv {A B} (m : outcome A) (f : A → outcome B) b : m ≫= f = Ok b → ∃ a, m = Ok a ∧ f a = Ok b.
Proof. destruct m as [a| |]; [by exists a|done..]. Qed.

Lemma wp_ok {A} (a : A) (Q : A → Prop) : Q a → Ok a ⇓ Q.
Proof. intros; by exists a. Qed.

Lemma wp_bind {A B} (m : outcome A) (f : A → outcome B) Q :
  m ⇓ (λ a, f a ⇓ Q) → m ≫= f ⇓ Q.
Proof. by intros (a & -> & Ha). Qed.

Lemma wp_mono {A} (m : outcome A) (P Q : A → Prop) :
  m ⇓ P → (∀ a, P a → Q a) → m ⇓ Q.
Proof. intros (a & -> & Ha) HPQ; exists a; eauto. Qed.

Lemma wp_det {A} (m : outcome A) (P Q : A → Prop) :
  m ⇓ P → m ⇓ Q → m ⇓ (λ a, P a ∧ Q a).
Proof. intros (a & -> & Ha) (b & ? & Hb); simplify_eq; by exists b. Qed.

Lemma wp_ok_inv {A} (a : A) (Q : A → Prop) : Ok a ⇓ Q → Q a.
Proof. by intros (b & [= <-] & H). Qed.

(** * Loops

    [loop fuel body s] runs [body] from [s]: [inl s'] goes round again with
    [s'], [inr r] leaves the loop with [r]. *)
Fixpoint loop {S R} (fuel : nat) (body : S → outcome (S + R)) (s : S) : outcome R :=
  match fuel with
  | O => OutOfFuel
  | Datatypes.S n => x ← body s; match x with inl s' => loop n body s' | inr r => Ok r end
  end.

(** The total-correctness rule: an invariant and a measure that decreases. *)
Lemma wp_loop {S R} (I : S → Prop) (m : S → nat) (body : S → outcome (S + R)) (Q : R → Prop) :
  (∀ s, I s → body s ⇓ (λ x, match x with
                            | inl s' => I s' ∧ (m s' < m s)%nat
                            | inr r => Q r
                            end)) →
  ∀ fuel s, I s → (m s < fuel)%nat → loop fuel body s ⇓ Q.
Proof.
  intros Hbody fuel; induction fuel as [|n IH]; intros s HI Hm; [lia|].
  simpl. apply wp_bind. destruct (Hbody s HI) as ([s'|r] & -> & Hx); apply wp_ok.
  - destruct Hx. apply IH; [done|lia].
  - by apply wp_ok.
Qed.

(** The same with the bound on the remaining iterations inside the invariant. *)
Lemma wp_loop_bound {S R} (I : nat → S → Prop) (body : S → outcome (S + R)) (Q : R → Prop) :
  (∀ k s, I k s → body s ⇓ (λ x, match x with
                            | inl s' => ∃ k', (k' < k)%nat ∧ I k' s'
                            | inr r => Q r
                            end)) →
  ∀ fuel k s, I k s → (k < fuel)%nat → loop fuel body s ⇓ Q.
Proof.
  intros Hbody fuel; induction fuel as [|n IH]; intros k s HI Hk; [lia|].
  simpl. apply wp_bind. destruct (Hbody k s HI) as ([s'|r] & -> & Hx); apply wp_ok.
  - destruct Hx as (k' & Hk' & HI'). apply (IH k'); [done|lia].
  - by apply wp_ok.
Qed.

(** [for_loop lo hi body s] is [for (i = lo; i < hi; ++i)] where the body
    cannot change the bound: [inl s'] goes on with [s'], [inr r] returns [r]
    from inside the loop. *)
Fixpoint for_nat {S R} (k : nat) (i : Z) (body : Z → S → outcome (S + R)) (s : S)
  : outcome (S + R) :=
  match k with
  | O => Ok (inl s)
  | Datatypes.S k' =>
      x ← body i s;
      match x with inl s' => for_nat k' (i + 1) body s' | inr r => Ok (inr r) end
  end.
Definition for_loop {S R} (lo hi : Z) (body : Z → S → outcome (S + R)) (s : S)
  : outcome (S + R) := for_nat (Z.to_nat (hi - lo)) lo body s.

Lemma wp_for {S R} (I : Z → S → Prop) lo hi (body : Z → S → outcome (S + R)) s (Q : S + R → Prop) :
  lo ≤ hi → I lo s →
  (∀ i s, lo ≤ i < hi → I i s →
     body i s ⇓ (λ x, match x with inl s' => I (i + 1) s' | inr r => Q (inr r) end)) →
  (∀ s, I hi s → Q (inl s)) →
  for_loop lo hi body s ⇓ Q.
Proof.
  intros Hle HI Hbody Hend. unfold for_loop.
  remember (Z.to_nat (hi - lo)) as k eqn:Hk.
  assert (lo = hi - Z.of_nat k) as Hlo by lia.
  assert (∀ k' i s, (k' ≤ k)%nat → i = hi - Z.of_nat k' → I i s → for_nat k' i body s ⇓ Q) as H.
  { clear s HI. intros k'; induction k' as [|k' IH]; intros i s Hk' -> HI; simpl.
    - apply wp_ok, Hend. by rewrite Z.sub_0_r in HI.
    - apply wp_bind. destruct (Hbody (hi - Z.of_nat (Datatypes.S k')) s) as ([s'|r] & -> & Hx);
        [lia|done| |]; apply wp_ok; [|by apply wp_ok].
      apply IH; [lia|lia|done]. }
  by apply (H k lo s).
Qed.

(** A loop of the same kind that never returns from inside. *)
Definition for_each {S} (lo hi : Z) (body : Z → S → outcome S) (s : S) : outcome S :=
  r ← for_loop (R := Empty_set) lo hi (λ i s, s' ← body i s; Ok (inl s')) s;
  match r with
  | inl s' => Ok s'
  | inr e => match (e : Empty_set) return outcome S with end
  end.

Lemma wp_for_each {S} (I : Z → S → Prop) lo hi (body : Z → S → outcome S) s (Q : S → Prop) :
  lo ≤ hi → I lo s →
  (∀ i s, lo ≤ i < hi → I i s → body i s ⇓ I (i + 1)) →
  (∀ s, I hi s → Q s) →
  for_each lo hi body s ⇓ Q.
Proof.
  intros Hle HI Hbody Hend. unfold for_each.
  apply wp_bind, (wp_for I); [done..| |].
  - intros i s' Hi Hs'. apply wp_bind. eapply wp_mono; [by apply Hbody|].
    intros s'' Hs''. by apply wp_ok.
  - intros s' Hs'. apply wp_ok. auto.
Qed.

(** Membership in a list built with [++] and [::]. *)
Ltac in_list := repeat rewrite ?elem_of_app, ?elem_of_cons; tauto.

(** * State machines *)

(** What every step preserves holds in every reachable state. *)
Lemma rtc_inv {A} (R : A → A → Prop) (I : A → Prop) :
  (∀ x y, I x → R x y → I y) → ∀ x y, I x → rtc R x y → I y.
Proof. intros Hstep x y Hx Hr. induction Hr; eauto. Qed.

(** * Machine integers *)
Definition u8 (x : Z) : Z := x mod 2 ^ 8.
Definition u16 (x : Z) : Z := x mod 2 ^ 16.
Definition u32 (x : Z) : Z := x mod 2 ^ 32.
Definition u64 (x : Z) : Z := x mod 2 ^ 64.
(** Conversion to a signed type of width [w], two's complement. *)
Definition sint (w : Z) (x : Z) : Z := (x + 2 ^ (w - 1)) mod 2 ^ w - 2 ^ (w - 1).
Definition i8 (x : Z) : Z := sint 8 x.
Definition i32 (x : Z) : Z := sint 32 x.
Definition i64 (x : Z) : Z := sint 64 x.

Lemma u8_range x : 0 ≤ u8 x < 256.
Proof. unfold u8. pose proof (Z.mod_pos_bound x (2 ^ 8)). lia. Qed.
Lemma u16_range x : 0 ≤ u16 x < 65536.
Proof. unfold u16. pose proof (Z.mod_pos_bound x (2 ^ 16)). lia. Qed.
Lemma u32_range x : 0 ≤ u32 x < 4294967296.
Proof. unfold u32. pose proof (Z.mod_pos_bound x (2 ^ 32)). lia. Qed.
Lemma u64_range x : 0 ≤ u64 x < 18446744073709551616.
Proof. unfold u64. pose proof (Z.mod_pos_bound x (2 ^ 64)). lia. Qed.
Lemma u8_small x : 0 ≤ x < 256 → u8 x = x.
Proof. intros. unfold u8. apply Z.mod_small. lia. Qed.
Lemma u16_small x : 0 ≤ x < 65536 → u16 x = x.
Proof. intros. unfold u16. apply Z.mod_small. lia. Qed.
Lemma u32_small x : 0 ≤ x < 4294967296 → u32 x = x.
Proof. intros. unfold u32. apply Z.mod_small. lia. Qed.
Lemma u64_small x : 0 ≤ x < 18446744073709551616 → u64 x = x.
Proof. intros. unfold u64. apply Z.mod_small. lia. Qed.
Lemma i32_small x : -2147483648 ≤ x < 2147483648 → i32 x = x.
Proof. intros. unfold i32, sint. rewrite Z.mod_small; lia. Qed.
Lemma i64_small x : -9223372036854775808 ≤ x < 9223372036854775808 → i64 x = x.
Proof. intros. unfold i64, sint. rewrite Z.mod_small; lia. Qed.

(** Turns a bound on machine integers into the equation that removes the wrap. *)
Ltac nowrap :=
  repeat first
    [ rewrite u64_small by lia | rewrite u32_small by lia
    | rewrite u16_small by lia | rewrite u8_small by lia
    | rewrite i32_small by lia | rewrite i64_small by lia ].

(** [lia] after replacing divisions and remainders by their defining equations. *)
Ltac zlia := Z.div_mod_to_equations; lia.
Ltac znia := Z.div_mod_to_equations; nia.

Lemma testbit_u64 x k : 0 ≤ k → Z.testbit (u64 x) k = (k <? 64) && Z.testbit x k.
Proof.
  intros. unfold u64. destruct (Z.ltb_spec k 64); simpl.
  - by rewrite Z.mod_pow2_bits_low by lia.
  - by rewrite Z.mod_pow2_bits_high by lia.
Qed.

Lemma testbit_u32 x k : 0 ≤ k → Z.testbit (u32 x) k = (k <? 32) && Z.testbit x k.
Proof.
  intros. unfold u32. destruct (Z.ltb_spec k 32); simpl.
  - by rewrite Z.mod_pow2_bits_low by lia.
  - by rewrite Z.mod_pow2_bits_high by lia.
Qed.

Lemma testbit_one_shiftl k j : 0 ≤ k → 0 ≤ j → Z.testbit (Z.shiftl 1 k) j = (j =? k).
Proof.
  intros. rewrite Z.shiftl_spec by lia. destruct (Z.eqb_spec j k) as [->|].
  - by rewrite Z.sub_diag.
  - destruct (decide (j < k)).
    + by rewrite Z.testbit_neg_r by lia.
    + apply Z.bits_above_log2; simpl; lia.
Qed.

(** [x & (1 << k)] is non-zero exactly when bit [k] of [x] is set. *)
Lemma land_bit_nonzero x k :
  0 ≤ k → (Z.land x (Z.shiftl 1 k) =? 0) = negb (Z.testbit x k).
Proof.
  intros. destruct (Z.testbit x k) eqn:E; simpl.
  - apply Z.eqb_neq. intros Hz.
    assert (Z.testbit (Z.land x (Z.shiftl 1 k)) k = true) as Ht.
    { by rewrite Z.land_spec, E, testbit_one_shiftl, Z.eqb_refl by lia. }
    by rewrite Hz, Z.bits_0 in Ht.
  - apply Z.eqb_eq, Z.bits_inj'; intros j Hj.
    rewrite Z.land_spec, testbit_one_shiftl, Z.bits_0 by lia.
    destruct (Z.eqb_spec j k) as [->|]; [by rewrite E|apply andb_false_r].
Qed.

Lemma bounded_by_bits w : 0 ≤ w → (∀ j, 64 ≤ j → Z.testbit w j = false) → 0 ≤ w < 2 ^ 64.
Proof.
  intros Hpos Hb. split; [done|].
  destruct (decide (w < 2 ^ 64)) as [|Hge]; [done|exfalso].
  assert (64 ≤ Z.log2 w) by (apply Z.log2_le_pow2; lia).
  specialize (Hb (Z.log2 w) ltac:(lia)). by rewrite Z.bit_log2 in Hb by lia.
Qed.

Lemma high_bits w j : 0 ≤ w < 2 ^ 64 → 64 ≤ j → Z.testbit w j = false.
Proof.
  intros Hw Hj. rewrite <-(Z.mod_small w (2 ^ 64)) by done.
  apply Z.mod_pow2_bits_high. lia.
Qed.

(** * Arrays

    A C array is a list; an access outside of it is undefined. *)
Definition zlen {A} (l : list A) : Z := Z.of_nat (length l).
Definition zget {A} (l : list A) (i : Z) : outcome A :=
  if decide (0 ≤ i)
  then match l !! Z.to_nat i with Some a => Ok a | None => Undef end
  else Undef.
Definition zset {A} (l : list A) (i : Z) (v : A) : outcome (list A) :=
  if decide (0 ≤ i < zlen l) then Ok (<[Z.to_nat i := v]> l) else Undef.

(** Writes [v] to the first [n] elements, as [memset] does. *)
Definition zfill {A} (l : list A) (n : Z) (v : A) : outcome (list A) :=
  if decide (0 ≤ n ≤ zlen l)
  then Ok (replicate (Z.to_nat n) v ++ drop (Z.to_nat n) l) else Undef.

Lemma zlen_app {A} (l k : list A) : zlen (l ++ k) = zlen l + zlen k.
Proof. unfold zlen. rewrite length_app. lia. Qed.

Lemma zlen_cons {A} (x : A) l : zlen (x :: l) = zlen l + 1.
Proof. unfold zlen. simpl. lia. Qed.

Lemma zlen_insert {A} (l : list A) i v : zlen (<[i := v]> l) = zlen l.
Proof. unfold zlen. by rewrite length_insert. Qed.

Lemma zget_in {A} (l : list A) i : 0 ≤ i < zlen l → ∃ a, l !! Z.to_nat i = Some a.
Proof. unfold zlen. intros. apply lookup_lt_is_Some. lia. Qed.

Lemma zget_ok {A} (l : list A) i a : 0 ≤ i → l !! Z.to_nat i = Some a → zget l i = Ok a.
Proof. intros ? Hl. unfold zget. by rewrite decide_True, Hl by done. Qed.

Lemma zset_ok {A} (l : list A) i v :
  0 ≤ i < zlen l → zset l i v = Ok (<[Z.to_nat i := v]> l).
Proof. intros. unfold zset. by rewrite decide_True. Qed.

Lemma wp_zget {A} (l : list A) i (Q : A → Prop) :
  0 ≤ i < zlen l → (∀ a, l !! Z.to_nat i = Some a → Q a) → zget l i ⇓ Q.
Proof.
  intros Hi HQ. destruct (zget_in l i Hi) as [a Ha].
  exists a; split; [apply zget_ok; [lia|done]|auto].
Qed.

Lemma wp_zset {A} (l : list A) i v (Q : list A → Prop) :
  0 ≤ i < zlen l → Q (<[Z.to_nat i := v]> l) → zset l i v ⇓ Q.
Proof. intros. eexists; split; [by apply zset_ok|done]. Qed.

(** Counting the elements with a property after one of them was replaced. *)
Lemma length_filter_insert {A} (P : A → Prop) `{∀ x, Decision (P x)} l i x y :
  l !! i = Some y →
  (length (filter P (<[i := x]> l)) + (if decide (P y) then 1 else 0) =
   length (filter P l) + (if decide (P x) then 1 else 0))%nat.
Proof.
  revert i. induction l as [|z l IH]; intros [|i] Hl; simplify_eq/=.
  - rewrite !filter_cons. repeat case_decide; simpl; lia.
  - specialize (IH i Hl). rewrite !filter_cons. repeat case_decide; simpl; lia.
Qed.

Lemma filter_all {A} (P : A → Prop) `{∀ x, Decision (P x)} l : Forall P l → filter P l = l.
Proof. induction 1 as [|x l Hx _ IH]; [done|]. by rewrite filter_cons_True, IH. Qed.

Lemma filter_iff_in {A} (P Q : A → Prop) `{∀ x, Decision (P x), ∀ x, Decision (Q x)} (l : list A) :
  (∀ x, x ∈ l → P x ↔ Q x) → filter P l = filter Q l.
Proof.
  induction l as [|x l IH]; intros HPQ; [done|]. rewrite !filter_cons.
  rewrite IH by (intros y Hy; apply HPQ; by right). pose proof (HPQ x ltac:(left)).
  repeat case_decide; done || (exfalso; tauto).
Qed.

(** Unsigned remainder and quotient: a zero divisor is undefined. *)
Definition umod (a b : Z) : outcome Z := if b =? 0 then Undef else Ok (a mod b).
Definition udiv (a b : Z) : outcome Z := if b =? 0 then Undef else Ok (a / b).

Lemma umod_ok a b : b ≠ 0 → umod a b = Ok (a mod b).
Proof. intros. unfold umod. by rewrite (proj2 (Z.eqb_neq b 0)). Qed.
Lemma udiv_ok a b : b ≠ 0 → udiv a b = Ok (a / b).
Proof. intros. unfold udiv. by rewrite (proj2 (Z.eqb_neq b 0)). Qed.

(** * Pointers to structures

    A parameter of type [T *] which the code compares with NULL is an
    [option]: [None] is NULL.  [by_ref x f] passes the address of [x] to [f]
    and reads [x] back afterwards. *)
Definition by_ref {A R} (x : A) (f : option A → outcome (R * option A)) : outcome (R * A) :=
  '(r, p) ← f (Some x); match p with Some y => Ok (r, y) | None => Undef end.

(** * Automation *)
Create HintDb kernel.
Create Rewrite HintDb kernel_len.
#[export] Hint Resolve u8_range u16_range u32_range u64_range : kernel.
#[export] Hint Rewrite @zlen_insert @length_insert @zlen_app @zlen_cons : kernel_len.

(** One step of symbolic execution of the goal [m ⇓ Q]. *)
Ltac wp_step :=
  lazymatch goal with
  | |- wp (Ok _) _ => apply wp_ok
  | |- wp (mret _) _ => apply wp_ok
  | |- wp (_ ≫= _) _ => apply wp_bind
  | |- wp (if ?b then _ else _) _ => let E := fresh "E" in destruct b eqn:E
  | |- wp (let '(_, _) := ?p in _) _ => let E := fresh "E" in destruct p eqn:E
  end.
