(* ===== verification/Chain.v ===== *)
(** Singly linked lists in a store of objects addressed by pointer: the free list of a
    slab cache, the children of a directory, the run queue and the process list all have
    this shape.  [nx] reads the link of an object; address 0 ends the list. *)
From S2P Require Import Prelude.

(** An element that does not come earlier splits a list in one way. *)
Lemma split_unique {A} (p : A) l1 l2 r1 r2 :
  l1 ++ p :: l2 = r1 ++ p :: r2 → (p ∉ l1) → (p ∉ r1) → l1 = r1 ∧ l2 = r2.
Proof.
  intros E Hl Hr. apply app_eq_app in E as [k [[-> E]|[-> E]]]; destruct k as [|x k]; simpl in E; simplify_eq;
    rewrite ?app_nil_r in *; try done; exfalso; [apply Hl|apply Hr]; in_list.
Qed.

Section Chain.
Context {N : Type} {nx : N → Z}.

(** The list that starts at [a] is [l]. *)
Fixpoint chain (x : gmap Z N) (a : Z) (l : list Z) : Prop :=
  match l with
  | [] => a = 0
  | c :: l => a = c ∧ c ≠ 0 ∧ ∃ n, x !! c = Some n ∧ chain x (nx n) l
  end.

Lemma chain_unique x a l1 l2 : chain x a l1 → chain x a l2 → l1 = l2.
Proof.
  revert a l2. induction l1 as [|c l1 IH]; intros a [|d l2]; simpl; try done.
  - intros -> (? & ? & _). congruence.
  - intros (? & ? & _) ?. congruence.
  - intros (-> & _ & n & Hn & H1) (-> & _ & n' & Hn' & H2). f_equal.
    rewrite Hn in Hn'. injection Hn' as <-. by eapply IH.
Qed.

Lemma chain_split x a l1 c l2 : chain x a (l1 ++ c :: l2) → chain x c (c :: l2).
Proof.
  revert a. induction l1 as [|d l1 IH]; intros a; simpl.
  - intros (-> & ? & ?). done.
  - intros (_ & _ & n & _ & Hr). by eapply IH.
Qed.

Lemma chain_NoDup x a l : chain x a l → NoDup l.
Proof.
  revert a. induction l as [|c l IH]; intros a Hc; [constructor|]. pose proof Hc as (_ & _ & n & _ & Hl).
  constructor; [|by eapply IH]. intros Hin. apply list_elem_of_split in Hin as (l1 & l2 & ->).
  pose proof (chain_split x a [] c _ Hc) as H1. pose proof (chain_split x a (c :: l1) c l2 Hc) as H2.
  pose proof (chain_unique _ _ _ _ H1 H2) as E. apply (f_equal length) in E. simpl in E.
  rewrite length_app in E. simpl in E. lia.
Qed.

Lemma chain_elem x a l c : chain x a l → c ∈ l → c ≠ 0 ∧ is_Some (x !! c).
Proof.
  intros Hc Hin. apply list_elem_of_split in Hin as (l1 & l2 & ->).
  apply chain_split in Hc as (_ & ? & n & ? & _). by eauto.
Qed.

Lemma chain_length x a l : chain x a l → (length l ≤ base.size x)%nat.
Proof.
  intros Hc. rewrite <-size_dom. rewrite <-(size_list_to_set (C := gset Z)) by (by eapply chain_NoDup).
  apply subseteq_size. intros c Hin. apply elem_of_list_to_set in Hin.
  apply elem_of_dom. by eapply chain_elem.
Qed.

(** A change of the nodes that keeps the [nx] fields of the chain keeps the chain. *)
Lemma chain_agree x y a l :
  (∀ c n, c ∈ l → x !! c = Some n → ∃ n', y !! c = Some n' ∧ nx n' = nx n) →
  chain x a l → chain y a l.
Proof.
  revert a. induction l as [|c l IH]; intros a Hag; simpl; [done|].
  intros (-> & H0 & n & Hn & Hl). split; [done|]. split; [done|].
  destruct (Hag c n ltac:(left) Hn) as (n' & Hn' & Hnx). exists n'. split; [done|]. rewrite Hnx.
  apply IH; [|done]. intros d m Hd. apply Hag. by right.
Qed.

Lemma chain_remove x x' l1 c l2 a n :
  chain x a (l1 ++ c :: l2) → x !! c = Some n →
  (∀ q m, q ∈ l1 ++ l2 → x !! q = Some m →
     ∃ m', x' !! q = Some m' ∧ nx m' = if decide (last l1 = Some q) then nx n else nx m) →
  chain x' (if decide (l1 = []) then nx n else a) (l1 ++ l2).
Proof.
  revert a. induction l1 as [|d l1 IH]; intros a Hch Hn Hx'.
  - destruct Hch as (-> & _ & n' & Hn' & Hch). rewrite Hn in Hn'. injection Hn' as <-. simpl.
    eapply chain_agree; [|done]. intros q m Hq Hm. by destruct (Hx' q m Hq Hm) as (m' & ? & ?); eauto.
  - pose proof (chain_NoDup _ _ _ Hch) as Hnd. destruct Hch as (-> & H0 & m & Hm & Hch).
    cbn [app] in Hnd. apply NoDup_cons in Hnd as [Hd Hnd]. cbn [app chain].
    destruct (Hx' d m) as (m' & Hm' & Hnx); [by left|done|]. rewrite decide_False by done.
    split; [done|]. split; [done|]. exists m'. split; [done|]. rewrite Hnx.
    assert (∀ q m, q ∈ l1 ++ l2 → x !! q = Some m → ∃ m', x' !! q = Some m' ∧
      nx m' = if decide (last l1 = Some q) then nx n else nx m) as Hx2.
    { intros q k Hq Hk. destruct (Hx' q k) as (k' & Hk' & Hkn); [by right|done|]. exists k'. split; [done|].
      rewrite Hkn. destruct l1 as [|e l1]; [|done]. rewrite !decide_False; [done|done|].
      intros [= ->]. apply Hd. simpl in *. by right. }
    specialize (IH _ Hch Hn Hx2). destruct l1 as [|e l1].
    + simpl in *. by rewrite decide_True by done.
    + rewrite decide_False in IH by done. rewrite decide_False; [done|].
      intros E. apply Hd. rewrite last_cons_cons in E. apply elem_of_app. left. by apply last_Some_elem_of.
Qed.


(** Adding an object in front. *)
Lemma chain_push x a l p n :
  chain x a l → x !! p = None → p ≠ 0 → nx n = a → chain (<[p := n]> x) p (p :: l).
Proof.
  intros Hc Hp H0 Hn. split; [done|]. split; [done|]. exists n. split; [apply lookup_insert_eq|]. rewrite Hn.
  eapply chain_agree; [|done]. intros c m Hin Hm. exists m. split; [|done]. rewrite lookup_insert_ne; congruence.
Qed.

(** Storing something outside the list, or an object with the same link. *)
Lemma chain_store x a l p n :
  chain x a l → (p ∈ l → ∃ m, x !! p = Some m ∧ nx n = nx m) → chain (<[p := n]> x) a l.
Proof.
  intros Hc Hp. eapply chain_agree; [|done]. intros c m Hin Hm. destruct (decide (c = p)) as [->|].
  - destruct (Hp Hin) as (m' & Hm' & E). rewrite Hm in Hm'. injection Hm' as <-. exists n. by rewrite lookup_insert_eq.
  - exists m. by rewrite lookup_insert_ne.
Qed.

(** Adding an object behind the last one. *)
Lemma chain_snoc x a pre z t nz nt :
  chain x a (pre ++ [z]) → (t ∉ pre ++ [z]) → t ≠ 0 → nx nt = 0 → nx nz = t →
  chain (<[z := nz]> (<[t := nt]> x)) a ((pre ++ [z]) ++ [t]).
Proof.
  intros Hc Ht H0 Hnt Hnz. pose proof (chain_NoDup _ _ _ Hc) as Hnd. revert a Hc.
  induction pre as [|d pre IH]; intros a Hc.
  - destruct Hc as (-> & Hz & _). cbn [app chain]. split; [done|]. split; [done|]. exists nz.
    rewrite lookup_insert_eq. split; [done|]. split; [done|]. split; [done|]. exists nt.
    rewrite lookup_insert_ne, lookup_insert_eq; [done|]. intros ->. apply Ht. in_list.
  - destruct Hc as (-> & Hd & n & Hn & Hc). cbn [app] in Hnd |- *. apply NoDup_cons in Hnd as [Hdn Hnd].
    cbn [chain]. split; [done|]. split; [done|]. exists n. split.
    + rewrite !lookup_insert_ne; [done| |]; intros ->; [apply Ht; in_list|apply Hdn; in_list].
    + apply IH; [|done..]. intros Hin. apply Ht. cbn [app]. by right.
Qed.

(** What an element links to. *)
Lemma chain_next x a pre p post n :
  chain x a (pre ++ p :: post) → x !! p = Some n → nx n = default 0 (head post).
Proof.
  intros Hc Hn. apply chain_split in Hc as (_ & _ & n' & Hn' & Hc). rewrite Hn in Hn'. injection Hn' as <-.
  destruct post; [done|]. by destruct Hc as (-> & _).
Qed.

(** The rule for a loop that walks the list: [J pre c s] holds when the elements [pre] are
    behind, the walk is at address [c] and the loop is in state [s]. *)
Lemma wp_walk {S R} x (J : list Z → Z → S → Prop) (body : S → outcome (S + R)) (Q : R → Prop) fuel a l s :
  chain x a l → (length l < fuel)%nat → J [] a s →
  (∀ pre p n post s, l = pre ++ p :: post → p ≠ 0 → x !! p = Some n → J pre p s →
     body s ⇓ λ r, match r with inl s' => J (pre ++ [p]) (nx n) s' | inr v => Q v end) →
  (∀ s, J l 0 s → body s ⇓ λ r, match r with inl _ => False | inr v => Q v end) →
  loop fuel body s ⇓ Q.
Proof.
  intros Hc Hf HJ Hstep Hend.
  apply (wp_loop_bound (λ k s, ∃ pre post c, l = pre ++ post ∧ k = length post ∧ chain x c post ∧ J pre c s))
    with (k := length l); [|by exists [], l, a|done].
  intros k s1 (pre & post & c & -> & -> & Hp & HJ1). destruct post as [|p post].
  - simpl in Hp. subst c. rewrite app_nil_r in Hend. eapply wp_mono; [by apply Hend|]. by intros [?|?].
  - destruct Hp as (-> & H0 & n & Hn & Hp). eapply wp_mono; [by eapply Hstep|]. intros [s2|v] Hr; [|done].
    exists (length post). split; [simpl; lia|]. exists (pre ++ [p]), post, (nx n). by rewrite <-app_assoc.
Qed.

End Chain.

Arguments chain {N} nx x a l.
