(* ===== verification/Kmath.v ===== *)
(** The kernel's integer helpers (kernel/lib/math.h) on 64-bit values. *)
From S2P Require Import Prelude.

Module Kmath.

Definition align_down_u64 (value alignment : Z) : Z :=
  Z.land value (u64 (Z.lnot (u64 (alignment - 1)))).

Definition align_up_u64 (value alignment : Z) : Z :=
  align_down_u64 (u64 (value + alignment - 1)) alignment.

Definition is_power_of_two_u64 (value : Z) : Z :=
  if negb (value =? 0) && (Z.land value (u64 (value - 1)) =? 0) then 1 else 0.

Definition div_round_up_u64 (value divisor : Z) : outcome Z :=
  if divisor =? 0 then Undef else Ok (u64 (value + divisor - 1) / divisor).

(** ** Alignment to a power of two *)

Lemma u64_lnot x : 0 ≤ x < 2 ^ 64 → u64 (Z.lnot x) = 2 ^ 64 - 1 - x.
Proof.
  intros. unfold u64. rewrite <-(Z.mod_small (2 ^ 64 - 1 - x) (2 ^ 64)) by lia.
  unfold Z.lnot. rewrite <-(Z.mod_add (Z.pred (- x)) 1 (2 ^ 64)) by lia. f_equal. lia.
Qed.

(** Masking with [~(2^k - 1)] clears the low [k] bits. *)
Lemma align_down_pow2 v k :
  0 ≤ k < 64 → 0 ≤ v < 2 ^ 64 → align_down_u64 v (2 ^ k) = v - v mod 2 ^ k.
Proof.
  intros Hk Hv. unfold align_down_u64.
  assert (0 < 2 ^ k) by (apply Z.pow_pos_nonneg; lia).
  assert (2 ^ k ≤ 2 ^ 63) by (apply Z.pow_le_mono_r; lia).
  rewrite (u64_small (2 ^ k - 1)) by lia.
  assert (v - v mod 2 ^ k = Z.shiftl (Z.shiftr v k) k) as ->.
  { rewrite Z.shiftl_mul_pow2, Z.shiftr_div_pow2 by lia.
    pose proof (Z.div_mod v (2 ^ k)). lia. }
  apply Z.bits_inj'; intros j Hj.
  rewrite Z.land_spec, testbit_u64, Z.lnot_spec by lia.
  replace (2 ^ k - 1) with (Z.ones k) by (rewrite Z.ones_equiv; lia).
  rewrite Z.shiftl_spec by lia.
  destruct (decide (j < k)).
  - by rewrite (Z.testbit_neg_r _ (j - k)), Z.ones_spec_low, andb_false_r, andb_false_r by lia.
  - rewrite Z.shiftr_spec, Z.ones_spec_high by lia. replace (j - k + k) with j by lia.
    destruct (Z.ltb_spec j 64); simpl; [apply andb_true_r|].
    by rewrite high_bits by lia.
Qed.

Lemma align_up_pow2 v k :
  0 ≤ k < 64 → 0 ≤ v → v + 2 ^ k - 1 < 2 ^ 64 →
  align_up_u64 v (2 ^ k) = (v + 2 ^ k - 1) - (v + 2 ^ k - 1) mod 2 ^ k.
Proof.
  intros. unfold align_up_u64. assert (0 < 2 ^ k) by (apply Z.pow_pos_nonneg; lia).
  rewrite u64_small by lia. by apply align_down_pow2; lia.
Qed.

(** A value is a power of two exactly when [is_power_of_two_u64] says so. *)
Lemma is_power_of_two_spec v :
  0 ≤ v < 2 ^ 64 → is_power_of_two_u64 v = 1 ↔ ∃ k, 0 ≤ k < 64 ∧ v = 2 ^ k.
Proof.
  intros Hv. unfold is_power_of_two_u64. destruct (Z.eqb_spec v 0) as [->|Hnz]; simpl.
  { split; [done|]. intros (k & Hk & He). pose proof (Z.pow_pos_nonneg 2 k). lia. }
  rewrite (u64_small (v - 1)) by lia.
  destruct (Z.eqb_spec (Z.land v (v - 1)) 0) as [Hz|Hz]; simpl.
  - split; [|done]. intros _. exists (Z.log2 v).
    pose proof (Z.log2_spec v) as Hlog. split.
    { split; [apply Z.log2_nonneg|]. apply Z.log2_lt_pow2; lia. }
    pose proof (Z.log2_nonneg v).
    destruct (decide (v = 2 ^ Z.log2 v)) as [|Hne]; [done|exfalso].
    assert (Z.log2 (v - 1) = Z.log2 v) as Hl.
    { apply Z.log2_unique; lia. }
    assert (Z.testbit (Z.land v (v - 1)) (Z.log2 v) = true) as Ht.
    { rewrite Z.land_spec, Z.bit_log2 by lia. simpl. rewrite <-Hl. apply Z.bit_log2. lia. }
    by rewrite Hz, Z.bits_0 in Ht.
  - split; [done|]. intros (k & Hk & ->). exfalso. apply Hz.
    apply Z.bits_inj'; intros j Hj. rewrite Z.land_spec, Z.bits_0.
    replace (2 ^ k - 1) with (Z.ones k) by (rewrite Z.ones_equiv; lia).
    destruct (decide (j = k)) as [->|].
    + by rewrite Z.ones_spec_high, andb_false_r by lia.
    + by rewrite Z.pow2_bits_false by lia.
Qed.

End Kmath.
