(* ===== verification/Ring.v ===== *)
(** Circular storage, as the ring buffer, the kernel log, pipes and message
    queues use it: [holds l cap start q] says that the [cap]-slot array [l] read
    from slot [start], wrapping round, contains the sequence [q]. *)
From S2P Require Import Prelude.

Module Ring.
Section Ring.
Context {A : Type}.
Implicit Types (l : list A) (q : list A).

Definition slot (cap start i : Z) : nat := Z.to_nat ((start + i) mod cap).

Definition holds (l : list A) (cap start : Z) (q : list A) : Prop :=
  0 < cap ≤ zlen l ∧ 0 ≤ start < cap ∧ zlen q ≤ cap ∧
  ∀ i x, q !! i = Some x → l !! slot cap start (Z.of_nat i) = Some x.

(** The contents as a function of the array. *)
Fixpoint contents (l : list A) (cap start : Z) (n : nat) : list A :=
  match n with
  | O => []
  | S n => match l !! Z.to_nat (start mod cap) with
           | Some x => x :: contents l cap (start + 1) n
           | None => []
           end
  end.

Lemma slot_inj cap start i j :
  0 < cap → 0 ≤ i < cap → 0 ≤ j < cap → slot cap start i = slot cap start j → i = j.
Proof.
  unfold slot. intros Hc Hi Hj Heq.
  pose proof (Z.mod_pos_bound (start + i) cap). pose proof (Z.mod_pos_bound (start + j) cap).
  assert ((start + i) mod cap = (start + j) mod cap) as Hm by lia.
  pose proof (Z.div_mod (start + i) cap). pose proof (Z.div_mod (start + j) cap).
  assert ((start + i) / cap = (start + j) / cap) by nia. nia.
Qed.

Lemma holds_nil l cap start : 0 < cap ≤ zlen l → 0 ≤ start < cap → holds l cap start [].
Proof. intros. split_and!; [lia|lia|lia|lia|unfold zlen; simpl; lia|done]. Qed.

(** Writing the slot after the last element appends it. *)
Lemma holds_push l cap start q x :
  holds l cap start q → zlen q < cap →
  holds (<[slot cap start (zlen q) := x]> l) cap start (q ++ [x]).
Proof.
  intros (Hc & Hs & Hq & Hh) Hroom.
  assert (slot cap start (zlen q) < length l)%nat as Hslot.
  { unfold slot, zlen in *. pose proof (Z.mod_pos_bound (start + zlen q) cap).
    unfold zlen in *. lia. }
  split; [by rewrite zlen_insert|]. split; [done|].
  split; [unfold zlen in *; rewrite length_app; simpl; lia|].
  intros i y Hi. apply lookup_app_Some in Hi as [Hi|[Hge Hi]].
  - rewrite list_lookup_insert_ne; [by apply Hh|].
    intros He%slot_inj; [|unfold zlen in *; apply lookup_lt_Some in Hi; lia..].
    unfold zlen in He. apply lookup_lt_Some in Hi. lia.
  - apply list_lookup_singleton_Some in Hi as [Hi ->].
    replace (Z.of_nat i) with (zlen q) by (unfold zlen; lia).
    by apply list_lookup_insert_eq.
Qed.

(** Moving the start over the first element removes it. *)
Lemma holds_pop l cap start x q :
  holds l cap start (x :: q) →
  l !! Z.to_nat start = Some x ∧ holds l cap ((start + 1) mod cap) q.
Proof.
  intros (Hc & Hs & Hq & Hh). split.
  - rewrite <-(Hh 0%nat x) by done. unfold slot.
    by rewrite Z.add_0_r, Z.mod_small by lia.
  - pose proof (Z.mod_pos_bound (start + 1) cap).
    split; [done|]. split; [lia|]. split; [unfold zlen in *; simpl in *; lia|].
    intros i y Hi. rewrite <-(Hh (S i) y) by done. unfold slot. do 2 f_equal.
    rewrite Zplus_mod_idemp_l. f_equal. lia.
Qed.

(** Forgetting the elements at the end. *)
Lemma holds_app_l l cap start q q' : holds l cap start (q ++ q') → holds l cap start q.
Proof.
  intros (Hc & Hs & Hq & Hh). split; [done|]. split; [done|]. split; [unfold zlen in *; rewrite length_app in Hq; lia|].
  intros i x Hi. apply Hh. by apply lookup_app_l_Some.
Qed.

(** Overwriting the oldest element of a full array and moving the start. *)
Lemma holds_rotate l cap start x q y :
  holds l cap start (x :: q) → zlen (x :: q) = cap →
  holds (<[Z.to_nat start := y]> l) cap ((start + 1) mod cap) (q ++ [y]).
Proof.
  intros Hh Hfull. pose proof Hh as (Hc & Hs & _).
  apply holds_pop in Hh as [_ Hh].
  assert (Z.to_nat start = slot cap ((start + 1) mod cap) (zlen q)) as ->.
  { unfold slot. rewrite Zplus_mod_idemp_l. unfold zlen in *. simpl in Hfull.
    replace (start + 1 + Z.of_nat (length q)) with (start + 1 * cap) by lia.
    by rewrite Z.mod_add, Z.mod_small by lia. }
  apply holds_push; [done|]. unfold zlen in *; simpl in *. lia.
Qed.

Lemma holds_lookup l cap start q (i : nat) :
  holds l cap start q → (i < length q)%nat →
  l !! slot cap start (Z.of_nat i) = q !! i.
Proof.
  intros (_ & _ & _ & Hh) Hi. destruct (lookup_lt_is_Some_2 q i Hi) as [x Hx].
  rewrite Hx. by apply Hh.
Qed.

(** The sequence is determined by the array. *)
Lemma holds_contents l cap start q :
  holds l cap start q → contents l cap start (length q) = q.
Proof.
  intros (Hc & Hs & _ & Hh).
  assert (∀ (n : nat) q' s',
            (∀ i x, q' !! i = Some x → l !! Z.to_nat ((s' + Z.of_nat i) mod cap) = Some x) →
            length q' = n → contents l cap s' n = q') as H.
  { clear. intros n; induction n as [|n IH]; intros [|x q'] s' Hq' Hn;
      simplify_eq/=; [done|].
    pose proof (Hq' 0%nat x eq_refl) as H0. rewrite Z.add_0_r in H0. rewrite H0. f_equal.
    apply IH; [|done]. intros i y Hi. rewrite <-(Hq' (S i) y) by done. do 3 f_equal. lia. }
  by apply (H (length q) q start).
Qed.

End Ring.
End Ring.
