(* ===== verification/Bitmap.v ===== *)
(** The kernel's bitmap (kernel/lib/bitmap.c): an array of 64-bit words in
    which each bit records whether something is in use.

    [bits] reads a bitmap as the list of its bits.  The theorems relate every
    operation to the same operation on that list, so that clients (the physical
    memory manager) reason about lists of booleans only. *)
From S2P Require Import Prelude.

Module Bitmap.

Definition BITS_PER_WORD : Z := 64.
Definition UINT64_MAX : Z := 2 ^ 64 - 1.

Record bitmap_t := { words : option (list Z); bit_count : Z }.

Definition bitmap_storage_words (bit_count : Z) : Z :=
  u64 (bit_count + BITS_PER_WORD - 1) / BITS_PER_WORD.

Definition bitmap_init (bitmap : option bitmap_t) (storage : option (list Z)) (n : Z)
  : option bitmap_t :=
  match bitmap with
  | None => None
  | Some _ => Some {| words := storage; bit_count := n |}
  end.

Definition bitmap_clear_all (bitmap : option bitmap_t) : outcome (option bitmap_t) :=
  match bitmap with
  | Some {| words := Some ws; bit_count := n |} =>
      ws' ← zfill ws (u64 (bitmap_storage_words n * 8) / 8) 0;
      Ok (Some {| words := Some ws'; bit_count := n |})
  | _ => Ok bitmap
  end.

Definition bitmap_set_all (bitmap : option bitmap_t) : outcome (option bitmap_t) :=
  match bitmap with
  | Some {| words := Some ws; bit_count := n |} =>
      ws' ← for_each 0 (bitmap_storage_words n) (λ i ws, zset ws i UINT64_MAX) ws;
      Ok (Some {| words := Some ws'; bit_count := n |})
  | _ => Ok bitmap
  end.

(** Bit [k] of a word as a mask: [1ull << (bit % BITS_PER_WORD)]. *)
Definition bit_mask (bit : Z) : Z := u64 (Z.shiftl 1 (bit mod BITS_PER_WORD)).

Definition bitmap_set (bitmap : option bitmap_t) (bit : Z) : outcome (option bitmap_t) :=
  match bitmap with
  | Some {| words := Some ws; bit_count := n |} =>
      if n <=? bit then Ok bitmap
      else
        w ← zget ws (bit / BITS_PER_WORD);
        ws' ← zset ws (bit / BITS_PER_WORD) (Z.lor w (bit_mask bit));
        Ok (Some {| words := Some ws'; bit_count := n |})
  | _ => Ok bitmap
  end.

Definition bitmap_clear (bitmap : option bitmap_t) (bit : Z) : outcome (option bitmap_t) :=
  match bitmap with
  | Some {| words := Some ws; bit_count := n |} =>
      if n <=? bit then Ok bitmap
      else
        w ← zget ws (bit / BITS_PER_WORD);
        ws' ← zset ws (bit / BITS_PER_WORD) (Z.land w (u64 (Z.lnot (bit_mask bit))));
        Ok (Some {| words := Some ws'; bit_count := n |})
  | _ => Ok bitmap
  end.

Definition bitmap_test (bitmap : option bitmap_t) (bit : Z) : outcome Z :=
  match bitmap with
  | Some {| words := Some ws; bit_count := n |} =>
      if n <=? bit then Ok 0
      else
        w ← zget ws (bit / BITS_PER_WORD);
        Ok (if Z.land w (bit_mask bit) =? 0 then 0 else 1)
  | _ => Ok 0
  end.

Definition bitmap_find_clear (bitmap : option bitmap_t) : outcome Z :=
  match bitmap with
  | Some {| words := Some ws; bit_count := n |} =>
      r ← for_loop 0 n
            (λ bit (_ : unit),
               t ← bitmap_test bitmap bit;
               if t =? 0 then Ok (inr (i64 bit)) else Ok (inl tt)) tt;
      match r with inr bit => Ok bit | inl _ => Ok (-1) end
  | _ => Ok (-1)
  end.

Definition bitmap_find_clear_range (bitmap : option bitmap_t) (count : Z) : outcome Z :=
  match bitmap with
  | Some {| words := Some ws; bit_count := n |} =>
      if (count =? 0) || (n <? count) then Ok (-1)
      else
        r ← for_loop 0 n
              (λ bit '(run_start, run_length),
                 t ← bitmap_test bitmap bit;
                 if t =? 0 then
                   let run_start := if run_length =? 0 then bit else run_start in
                   let run_length := u64 (run_length + 1) in
                   if run_length =? count then Ok (inr (i64 run_start))
                   else Ok (inl (run_start, run_length))
                 else Ok (inl (run_start, 0))) (0, 0);
        match r with inr start => Ok start | inl _ => Ok (-1) end
  | _ => Ok (-1)
  end.

Definition bitmap_count_set (bitmap : option bitmap_t) : outcome Z :=
  match bitmap with
  | Some {| words := Some ws; bit_count := n |} =>
      for_each 0 n
        (λ bit count,
           t ← bitmap_test bitmap bit;
           Ok (u64 (count + (if t =? 0 then 0 else 1)))) 0
  | _ => Ok 0
  end.

(** ** The bits of a bitmap *)

Definition word_bit (ws : list Z) (i : Z) : bool :=
  match ws !! Z.to_nat (i / 64) with Some w => Z.testbit w (i mod 64) | None => false end.

Definition bits (b : bitmap_t) : list bool :=
  match words b with
  | Some ws => (λ i : nat, word_bit ws (Z.of_nat i)) <$> seq 0 (Z.to_nat (bit_count b))
  | None => []
  end.

(** The storage is there and large enough for the bits, and its words are
    64-bit words. *)
Definition wf (b : bitmap_t) : Prop :=
  ∃ ws, words b = Some ws ∧ 0 ≤ bit_count b < 2 ^ 62 ∧
        bitmap_storage_words (bit_count b) ≤ zlen ws ∧
        Forall (λ w, 0 ≤ w < 2 ^ 64) ws.

Definition count_true (l : list bool) : Z := zlen (filter (λ b, b = true) l).
Definition count_false (l : list bool) : Z := zlen (filter (λ b, b = false) l).

(** [count] consecutive clear bits start at [i]. *)
Definition clear_run (l : list bool) (i count : nat) : Prop :=
  ∀ j, (i ≤ j < i + count)%nat → l !! j = Some false.

(** ** Words and bits *)

Lemma storage_words_small n :
  0 ≤ n < 2 ^ 62 → bitmap_storage_words n = (n + 63) / 64.
Proof. intros. unfold bitmap_storage_words, BITS_PER_WORD. nowrap. f_equal; lia. Qed.

Lemma bit_mask_eq i : 0 ≤ i → bit_mask i = Z.shiftl 1 (i mod 64).
Proof.
  intros. unfold bit_mask, BITS_PER_WORD. apply u64_small.
  pose proof (Z.mod_pos_bound i 64). rewrite Z.shiftl_mul_pow2, Z.mul_1_l by lia.
  pose proof (Z.pow_pos_nonneg 2 (i mod 64)).
  pose proof (Z.pow_le_mono_r 2 (i mod 64) 63). lia.
Qed.

Lemma length_bits b : wf b → length (bits b) = Z.to_nat (bit_count b).
Proof. intros (ws & Hw & _). unfold bits. by rewrite Hw, length_fmap, length_seq. Qed.

Lemma zlen_bits b : wf b → zlen (bits b) = bit_count b.
Proof. intros H. unfold zlen. rewrite length_bits by done. destruct H as (?&?&?&?). lia. Qed.

Lemma lookup_bits b ws i :
  words b = Some ws → (i < Z.to_nat (bit_count b))%nat →
  bits b !! i = Some (word_bit ws (Z.of_nat i)).
Proof.
  intros Hw Hi. unfold bits. rewrite Hw, list_lookup_fmap, lookup_seq_lt by done. done.
Qed.

(** Two bitmaps of the same size with the same bits are read alike. *)
Lemma bits_eq b l :
  wf b → length l = Z.to_nat (bit_count b) →
  (∀ i ws, words b = Some ws → (i < Z.to_nat (bit_count b))%nat →
           l !! i = Some (word_bit ws (Z.of_nat i))) →
  bits b = l.
Proof.
  intros Hwf Hlen Hl. destruct Hwf as (ws & Hw & Hrest).
  apply list_eq; intros i. destruct (decide (i < Z.to_nat (bit_count b))%nat) as [Hi|Hi].
  - by rewrite (lookup_bits b ws), (Hl i ws).
  - rewrite !(proj2 (lookup_ge_None _ _)); [done| |].
    + lia.
    + unfold bits. rewrite Hw, length_fmap, length_seq. lia.
Qed.

Lemma word_bit_insert ws k w i :
  0 ≤ i → 0 ≤ k < zlen ws →
  word_bit (<[Z.to_nat k := w]> ws) i =
  if decide (i / 64 = k) then Z.testbit w (i mod 64) else word_bit ws i.
Proof.
  intros Hi Hk. unfold word_bit, zlen in *. pose proof (Z.div_pos i 64).
  case_decide as Hd.
  - subst k. by rewrite list_lookup_insert_eq by lia.
  - by rewrite list_lookup_insert_ne by lia.
Qed.

Lemma word_index b ws bit :
  wf b → words b = Some ws → 0 ≤ bit < bit_count b → 0 ≤ bit / 64 < zlen ws.
Proof.
  intros (ws' & Hw & Hn & Hsw & _) Hw' Hb. assert (ws' = ws) as -> by congruence.
  rewrite storage_words_small in Hsw by done. zlia.
Qed.

(** Replacing a word by one that differs from it in one bit changes that bit
    of the bitmap and no other. *)
Lemma update_bit b ws bit w w' v :
  wf b → words b = Some ws → 0 ≤ bit < bit_count b →
  ws !! Z.to_nat (bit / 64) = Some w →
  0 ≤ w' < 2 ^ 64 →
  (∀ j, 0 ≤ j < 64 → Z.testbit w' j = if decide (j = bit mod 64) then v else Z.testbit w j) →
  let b' := {| words := Some (<[Z.to_nat (bit / 64) := w']> ws); bit_count := bit_count b |} in
  wf b' ∧ bits b' = <[Z.to_nat bit := v]> (bits b).
Proof.
  intros Hwf Hw Hb Hlook Hw' Hbits b'.
  pose proof (word_index b ws bit Hwf Hw Hb) as Hidx.
  assert (wf b') as Hwf'.
  { destruct Hwf as (ws' & Hws' & Hn & Hsw & Hall). assert (ws' = ws) as -> by congruence.
    exists (<[Z.to_nat (bit / 64) := w']> ws). rewrite zlen_insert.
    do 3 (split; [done|]). by apply Forall_insert. }
  split; [done|]. apply bits_eq; [done| |].
  { rewrite length_insert, length_bits by done. done. }
  intros i ws' [= <-] Hi. subst b'. cbn [bit_count] in Hi.
  rewrite word_bit_insert by lia.
  destruct (decide (i = Z.to_nat bit)) as [->|Hne].
  - rewrite list_lookup_insert_eq by (rewrite length_bits by done; lia).
    rewrite Z2Nat.id by lia. rewrite decide_True by done. f_equal.
    rewrite Hbits by (apply Z.mod_pos_bound; lia). by rewrite decide_True.
  - rewrite list_lookup_insert_ne by done. rewrite (lookup_bits b ws) by done.
    f_equal. case_decide as Hd; [|done]. unfold word_bit. rewrite Hd, Hlook.
    rewrite Hbits by (apply Z.mod_pos_bound; lia). rewrite decide_False; [done|].
    intros Hm. apply Hne. zlia.
Qed.

Lemma wf_word b ws k w :
  wf b → words b = Some ws → ws !! k = Some w → 0 ≤ w < 2 ^ 64.
Proof.
  intros (ws' & Hw & _ & _ & Hall) Hw' Hk. assert (ws' = ws) as -> by congruence.
  by apply (Forall_lookup_1 _ _ _ _ Hall Hk).
Qed.

(** ** What the operations do to the bits *)

Lemma bitmap_set_spec b bit :
  wf b → 0 ≤ bit →
  bitmap_set (Some b) bit ⇓ λ p, ∃ b', p = Some b' ∧ wf b' ∧
    bit_count b' = bit_count b ∧ bits b' = <[Z.to_nat bit := true]> (bits b).
Proof.
  intros Hwf Hb. pose proof Hwf as (ws & Hw & _). destruct b as [wo n]. simpl in Hw. subst wo.
  unfold bitmap_set. destruct (Z.leb_spec n bit).
  - apply wp_ok. eexists; split_and!; [done..|].
    rewrite list_insert_ge; [done|]. rewrite length_bits by done. simpl; lia.
  - pose proof (word_index _ _ bit Hwf eq_refl ltac:(simpl; lia)) as Hidx.
    unfold BITS_PER_WORD. apply wp_bind, wp_zget; [done|]. intros w Hlk.
    apply wp_bind, wp_zset; [done|]. apply wp_ok. eexists; split; [done|].
    pose proof (wf_word _ _ _ _ Hwf eq_refl Hlk) as Hwr.
    edestruct (update_bit _ _ bit w (Z.lor w (bit_mask bit)) true Hwf eq_refl) as [Hwf' Hbits'];
      [simpl; lia|done| | |split_and!; [exact Hwf'|done|exact Hbits']];
      rewrite bit_mask_eq by lia; pose proof (Z.mod_pos_bound bit 64).
    + apply bounded_by_bits.
      { apply Z.lor_nonneg. split; [lia|]. apply Z.shiftl_nonneg; lia. }
      intros j Hj. rewrite Z.lor_spec, high_bits, testbit_one_shiftl by lia.
      apply Z.eqb_neq. lia.
    + intros j Hj. rewrite Z.lor_spec, testbit_one_shiftl by lia.
      case_decide as Hd; [subst; by rewrite Z.eqb_refl, orb_true_r|].
      apply Z.eqb_neq in Hd. by rewrite Hd, orb_false_r.
Qed.

Lemma bitmap_clear_spec b bit :
  wf b → 0 ≤ bit →
  bitmap_clear (Some b) bit ⇓ λ p, ∃ b', p = Some b' ∧ wf b' ∧
    bit_count b' = bit_count b ∧ bits b' = <[Z.to_nat bit := false]> (bits b).
Proof.
  intros Hwf Hb. pose proof Hwf as (ws & Hw & _). destruct b as [wo n]. simpl in Hw. subst wo.
  unfold bitmap_clear. destruct (Z.leb_spec n bit).
  - apply wp_ok. eexists; split_and!; [done..|].
    rewrite list_insert_ge; [done|]. rewrite length_bits by done. simpl; lia.
  - pose proof (word_index _ _ bit Hwf eq_refl ltac:(simpl; lia)) as Hidx.
    unfold BITS_PER_WORD. apply wp_bind, wp_zget; [done|]. intros w Hlk.
    apply wp_bind, wp_zset; [done|]. apply wp_ok. eexists; split; [done|].
    pose proof (wf_word _ _ _ _ Hwf eq_refl Hlk) as Hwr.
    edestruct (update_bit _ _ bit w (Z.land w (u64 (Z.lnot (bit_mask bit)))) false Hwf eq_refl)
      as [Hwf' Hbits'];
      [simpl; lia|done| | |split_and!; [exact Hwf'|done|exact Hbits']];
      rewrite bit_mask_eq by lia; pose proof (Z.mod_pos_bound bit 64).
    + apply bounded_by_bits; [apply Z.land_nonneg; lia|].
      intros j Hj. by rewrite Z.land_spec, high_bits by lia.
    + intros j Hj. rewrite Z.land_spec, testbit_u64, Z.lnot_spec, testbit_one_shiftl by lia.
      rewrite (proj2 (Z.ltb_lt j 64)) by lia.
      case_decide as Hd; [subst; by rewrite Z.eqb_refl, andb_false_r|].
      apply Z.eqb_neq in Hd. by rewrite Hd, andb_true_r.
Qed.

Lemma bitmap_test_spec b bit :
  wf b → 0 ≤ bit →
  bitmap_test (Some b) bit =
    Ok (match bits b !! Z.to_nat bit with Some true => 1 | _ => 0 end).
Proof.
  intros Hwf Hb. pose proof Hwf as (ws & Hw & _). destruct b as [wo n]. simpl in Hw. subst wo.
  unfold bitmap_test. destruct (Z.leb_spec n bit).
  - rewrite (proj2 (lookup_ge_None _ _)); [done|].
    rewrite length_bits by done. simpl; lia.
  - pose proof (word_index _ _ bit Hwf eq_refl ltac:(simpl; lia)) as Hidx.
    destruct (zget_in ws (bit / 64) Hidx) as [w Hlk].
    unfold BITS_PER_WORD. rewrite (zget_ok _ _ w), bind_ok by (done || lia).
    rewrite (lookup_bits _ ws) by (done || simpl; lia).
    rewrite Z2Nat.id by lia. unfold word_bit. rewrite Hlk, bit_mask_eq, land_bit_nonzero
      by (try apply Z.mod_pos_bound; lia).
    by destruct (Z.testbit w (bit mod 64)).
Qed.

Lemma bitmap_test_clear b bit (x : bool) :
  wf b → 0 ≤ bit → bits b !! Z.to_nat bit = Some x →
  bitmap_test (Some b) bit = Ok (if x then 1 else 0).
Proof. intros Hwf Hb Hx. rewrite bitmap_test_spec, Hx by done. by destruct x. Qed.

Lemma bitmap_set_all_spec ws n :
  0 ≤ n < 2 ^ 62 → (n + 63) / 64 ≤ zlen ws → Forall (λ w, 0 ≤ w < 2 ^ 64) ws →
  bitmap_set_all (Some {| words := Some ws; bit_count := n |}) ⇓ λ p, ∃ b', p = Some b' ∧
    wf b' ∧ bit_count b' = n ∧ bits b' = replicate (Z.to_nat n) true.
Proof.
  intros Hn Hlen Hall. unfold bitmap_set_all. apply wp_bind.
  rewrite storage_words_small by done.
  apply (wp_for_each (λ i ws', zlen ws' = zlen ws ∧ Forall (λ w, 0 ≤ w < 2 ^ 64) ws' ∧
           ∀ k, 0 ≤ k < i → ws' !! Z.to_nat k = Some UINT64_MAX)).
  - zlia.
  - split_and!; [done..|]. intros; lia.
  - intros i ws' Hi (Hl & Ha & Hk). apply wp_zset; [lia|]. rewrite zlen_insert.
    split_and!; [done| |].
    + apply Forall_insert; [done|]. unfold UINT64_MAX. lia.
    + intros k Hk'. destruct (decide (k = i)) as [->|].
      * rewrite list_lookup_insert_eq; [done|]. unfold zlen in *. lia.
      * rewrite list_lookup_insert_ne by lia. apply Hk. lia.
  - intros ws' (Hl & Ha & Hk). apply wp_ok. eexists; split; [done|].
    assert (wf {| words := Some ws'; bit_count := n |}) as Hwf'.
    { exists ws'. split; [done|]. split; [done|]. split; [|done].
      rewrite storage_words_small by done. simpl. lia. }
    split; [done|]. split; [done|]. apply bits_eq; [done|by rewrite length_replicate|].
    intros i ws'' [= <-] Hi. simpl in Hi. rewrite lookup_replicate_2 by lia. f_equal.
    unfold word_bit. rewrite Hk by zlia. symmetry. unfold UINT64_MAX.
    pose proof (Z.mod_pos_bound (Z.of_nat i) 64).
    apply (Z.ones_spec_low 64). lia.
Qed.

Lemma bitmap_find_clear_spec b :
  wf b →
  bitmap_find_clear (Some b) ⇓ λ r,
    (r = -1 ∧ ∀ i, bits b !! i ≠ Some false) ∨
    (0 ≤ r < bit_count b ∧ bits b !! Z.to_nat r = Some false ∧
     ∀ i, (i < Z.to_nat r)%nat → bits b !! i = Some true).
Proof.
  intros Hwf. pose proof Hwf as (ws & Hw & Hn & _). destruct b as [wo n].
  simpl in Hw, Hn. subst wo.
  unfold bitmap_find_clear. apply wp_bind.
  set (b := {| words := Some ws; bit_count := n |}) in *.
  apply (wp_for (λ i _, ∀ j, 0 ≤ j < i → bits b !! Z.to_nat j = Some true)).
  - lia.
  - intros; lia.
  - intros i [] Hi HI. apply wp_bind.
    assert (is_Some (bits b !! Z.to_nat i)) as [x Hx].
    { apply lookup_lt_is_Some. rewrite length_bits by done. simpl. lia. }
    rewrite (bitmap_test_clear b i x) by (done || lia). apply wp_ok.
    destruct x; simpl; apply wp_ok.
    + intros j Hj. destruct (decide (j = i)) as [->|]; [done|]. apply HI. lia.
    + apply wp_ok. right. rewrite i64_small by lia. split_and!; [simpl; lia..|done|].
      intros k Hk. replace k with (Z.to_nat (Z.of_nat k)) by lia. apply HI. lia.
  - intros [] HI. apply wp_ok. left. split; [done|].
    intros i Hi. assert (i < Z.to_nat n)%nat as Hlt.
    { apply lookup_lt_Some in Hi. by rewrite length_bits in Hi. }
    specialize (HI (Z.of_nat i) ltac:(lia)). rewrite Nat2Z.id in HI. congruence.
Qed.

(** Loop invariant of [bitmap_find_clear_range]: before [bit] no run of [count]
    clear bits has ended, and [run_length] clear bits precede [bit]. *)
Definition range_inv (l : list bool) (count : nat) (bit run_start run_length : Z) : Prop :=
  0 ≤ run_length < Z.of_nat count ∧
  (0 < run_length → run_start = bit - run_length) ∧
  run_length ≤ bit ∧
  clear_run l (Z.to_nat (bit - run_length)) (Z.to_nat run_length) ∧
  (run_length < bit → l !! Z.to_nat (bit - run_length - 1) = Some true) ∧
  (∀ i, (i + count ≤ Z.to_nat bit)%nat → ¬ clear_run l i count).

Lemma range_inv_clear l count bit run_start run_length :
  (0 < count)%nat → 0 ≤ bit → l !! Z.to_nat bit = Some false →
  range_inv l count bit run_start run_length →
  run_length + 1 ≠ Z.of_nat count →
  range_inv l count (bit + 1) (if run_length =? 0 then bit else run_start) (run_length + 1).
Proof.
  intros Hc Hb Hl (Hr & Hs & Hle & Hrun & Hprev & Hno) Hne.
  split_and!; [lia|lia| |lia| | |].
  - intros _. destruct (Z.eqb_spec run_length 0); lia.
  - intros j Hj. destruct (decide (j = Z.to_nat bit)) as [->|]; [done|]. apply Hrun. lia.
  - intros Hlt. replace (bit + 1 - (run_length + 1) - 1) with (bit - run_length - 1) by lia.
    apply Hprev. lia.
  - intros i Hi Hcl. destruct (decide (i + count ≤ Z.to_nat bit)%nat); [by eapply Hno|].
    assert (run_length < bit) as Hlt by lia. specialize (Hprev Hlt).
    rewrite (Hcl (Z.to_nat (bit - run_length - 1))) in Hprev by lia. done.
Qed.

Lemma range_inv_set l count bit run_start run_length :
  (0 < count)%nat → 0 ≤ bit → l !! Z.to_nat bit = Some true →
  range_inv l count bit run_start run_length →
  range_inv l count (bit + 1) run_start 0.
Proof.
  intros Hc Hb Hl (Hr & Hs & Hle & Hrun & Hprev & Hno).
  split_and!; [lia|lia|lia|lia| | |].
  - intros j Hj. lia.
  - intros _. by replace (bit + 1 - 0 - 1) with bit by lia.
  - intros i Hi Hcl. destruct (decide (i + count ≤ Z.to_nat bit)%nat); [by eapply Hno|].
    rewrite (Hcl (Z.to_nat bit)) in Hl by lia. done.
Qed.

(** [bitmap_find_clear_range] finds the first run of [count] clear bits. *)
Lemma bitmap_find_clear_range_spec b count :
  wf b → 0 ≤ count →
  bitmap_find_clear_range (Some b) count ⇓ λ r,
    (r = -1 ∧ (count = 0 ∨ ∀ i, ¬ clear_run (bits b) i (Z.to_nat count))) ∨
    (0 < count ∧ 0 ≤ r ∧ r + count ≤ bit_count b ∧
     clear_run (bits b) (Z.to_nat r) (Z.to_nat count) ∧
     ∀ i, (i < Z.to_nat r)%nat → ¬ clear_run (bits b) i (Z.to_nat count)).
Proof.
  intros Hwf Hc0. pose proof Hwf as (ws & Hw & Hn & _). destruct b as [wo n].
  simpl in Hw, Hn. subst wo. unfold bitmap_find_clear_range.
  set (b := {| words := Some ws; bit_count := n |}) in *.
  pose proof (length_bits b Hwf) as Hlen. change (bit_count b) with n in *.
  destruct (Z.eqb_spec count 0) as [->|Hc]; cbn [orb]; [apply wp_ok; left; eauto|].
  destruct (Z.ltb_spec n count) as [Hnc|Hnc].
  { apply wp_ok. left. split; [done|]. right. intros i Hcl.
    assert (bits b !! (i + Z.to_nat count - 1)%nat = Some false) as Hl%lookup_lt_Some
      by (apply Hcl; lia). lia. }
  apply wp_bind.
  apply (wp_for (λ bit '(run_start, run_length),
                 range_inv (bits b) (Z.to_nat count) bit run_start run_length)).
  - lia.
  - split_and!; try lia; intros j Hj; lia.
  - intros bit [rs rl] Hbit HI. apply wp_bind.
    assert (is_Some (bits b !! Z.to_nat bit)) as [x Hx] by (apply lookup_lt_is_Some; lia).
    rewrite (bitmap_test_clear b bit x) by (done || lia). apply wp_ok.
    pose proof HI as (Hr & Hs & Hle & Hrun & Hprev & Hno).
    destruct x; simpl; [apply wp_ok; eapply range_inv_set; eauto; lia|].
    rewrite (u64_small (rl + 1)) by lia.
    destruct (Z.eqb_spec (rl + 1) count) as [Heq|Hne]; apply wp_ok;
      [|apply range_inv_clear; (done || lia)].
    assert ((if rl =? 0 then bit else rs) = bit - rl) as -> by (destruct (Z.eqb_spec rl 0); lia).
    rewrite i64_small by lia. apply wp_ok. right. split_and!; [lia|lia|simpl; lia| |].
    + intros j Hj. destruct (decide (j = Z.to_nat bit)) as [->|]; [done|]. apply Hrun. lia.
    + intros i Hi. apply Hno. lia.
  - intros [rs rl] HI. apply wp_ok. left. split; [done|]. right.
    destruct HI as (Hr & Hs & Hle & Hrun & Hprev & Hno). intros i Hcl.
    assert (bits b !! (i + Z.to_nat count - 1)%nat = Some false) as Hl%lookup_lt_Some
      by (apply Hcl; lia).
    apply (Hno i); [lia|done].
Qed.

Lemma count_true_take_S l i (x : bool) :
  l !! i = Some x → count_true (take (S i) l) = count_true (take i l) + (if x then 1 else 0).
Proof.
  intros Hx. rewrite (take_S_r _ _ x) by done. unfold count_true, zlen.
  rewrite list.filter_app, length_app, Nat2Z.inj_add. by destruct x.
Qed.

Lemma bitmap_count_set_spec b :
  wf b → bitmap_count_set (Some b) = Ok (count_true (bits b)).
Proof.
  intros Hwf. pose proof Hwf as (ws & Hw & Hn & _). destruct b as [wo n].
  simpl in Hw, Hn. subst wo.
  set (b := {| words := Some ws; bit_count := n |}) in *.
  pose proof (length_bits b Hwf) as Hlen. change (bit_count b) with n in *.
  assert (bitmap_count_set (Some b) ⇓ λ c, c = count_true (bits b)) as (c & -> & ->); [|done].
  apply (wp_for_each (λ i c, c = count_true (take (Z.to_nat i) (bits b)))).
  - lia.
  - done.
  - intros i c Hi ->. apply wp_bind.
    assert (is_Some (bits b !! Z.to_nat i)) as [x Hx] by (apply lookup_lt_is_Some; lia).
    rewrite (bitmap_test_clear b i x) by (done || lia). apply wp_ok.
    assert (0 ≤ count_true (take (Z.to_nat i) (bits b)) ≤ i).
    { unfold count_true, zlen. pose proof (length_filter (λ b, b = true) (take (Z.to_nat i) (bits b))).
      rewrite length_take in *. lia. }
    rewrite u64_small by (destruct x; simpl; lia).
    replace (Z.to_nat (i + 1)) with (S (Z.to_nat i)) by lia.
    rewrite (count_true_take_S _ _ x) by done. apply wp_ok. by destruct x.
  - intros c ->. by rewrite take_ge by lia.
Qed.

(** Counting: a bit list has as many clear as not-set bits, and an update moves
    one bit from one count to the other. *)
Lemma count_true_false l : count_true l + count_false l = zlen l.
Proof.
  unfold count_true, count_false, zlen.
  induction l as [|[] l IH]; [done|rewrite !filter_cons; simpl; lia..].
Qed.

Lemma count_true_insert l i (old new : bool) :
  l !! i = Some old →
  count_true (<[i := new]> l) =
  count_true l - (if old then 1 else 0) + (if new then 1 else 0).
Proof.
  unfold count_true, zlen.
  revert i. induction l as [|x l IH]; intros [|i] Hi; simplify_eq/=; rewrite !filter_cons.
  - destruct old, new; simpl; lia.
  - specialize (IH i Hi). destruct x; simpl; lia.
Qed.

End Bitmap.
