(* ===== verification/Pmm.v ===== *)
(** The physical memory manager (kernel/mm/pmm.c): one bit per 4 KiB frame in
    a bitmap, and a running count of the free frames.

    The manager's file-scope variables are the record [pmm_t].  [used] reads it
    as the list of "in use" flags of the frames; [inv] ties the counter to that
    list.  The theorems give the effect of every entry point on [used], and
    [FrameAllocator] states what the paging code may rely on. *)
From S2P Require Import Prelude Kmath Bitmap.
Import Kmath Bitmap.

Module Pmm.

Definition PMM_FRAME_SIZE : Z := 4096.
Definition PMM_MAX_FRAMES : Z := 1024 * 1024.

(** [frame_storage] is the array behind [frame_map]: once [pmm_init] has run,
    the words of [frame_map] are its contents. *)
Record pmm_t := {
  frame_storage : list Z;
  frame_map : bitmap_t;
  total_frames : Z;
  free_frames : Z
}.

(** The variables as the loader leaves them: zero. *)
Definition pmm_boot : pmm_t :=
  {| frame_storage := replicate (Z.to_nat (PMM_MAX_FRAMES / 64)) 0;
     frame_map := {| words := None; bit_count := 0 |};
     total_frames := 0; free_frames := 0 |}.

Definition frame_index (addr : Z) : Z := addr / PMM_FRAME_SIZE.

(** The storage array's current contents: what the bitmap wrote to it. *)
Definition current_storage (s : pmm_t) : list Z :=
  match words (frame_map s) with Some ws => ws | None => frame_storage s end.

(** [*bitmap] after a call that was given the address of [frame_map]. *)
Definition with_map (s : pmm_t) (m : outcome (option bitmap_t)) (free : Z) : outcome pmm_t :=
  p ← m;
  match p with
  | Some b => Ok {| frame_storage := frame_storage s; frame_map := b;
                    total_frames := total_frames s; free_frames := free |}
  | None => Undef
  end.

Definition pmm_init (s : pmm_t) (memory_top : Z) : outcome pmm_t :=
  let total := Z.min (memory_top / PMM_FRAME_SIZE) PMM_MAX_FRAMES in
  let map := bitmap_init (Some (frame_map s)) (Some (current_storage s)) total in
  with_map {| frame_storage := frame_storage s; frame_map := frame_map s;
              total_frames := total; free_frames := free_frames s |}
           (bitmap_set_all map) 0.

(** The frame [index] becomes free if it is managed and in use (the loop body
    of [pmm_mark_usable] and [pmm_free_frames]). *)
Definition free_index (s : pmm_t) (index : Z) : outcome pmm_t :=
  in_use ← (if index <? total_frames s
            then t ← bitmap_test (Some (frame_map s)) index; Ok (negb (t =? 0))
            else Ok false);
  if in_use : bool
  then with_map s (bitmap_clear (Some (frame_map s)) index) (u64 (free_frames s + 1))
  else Ok s.

(** The frame [index] becomes used if it is managed and free (the loop body of
    [pmm_mark_reserved]). *)
Definition reserve_index (s : pmm_t) (index : Z) : outcome pmm_t :=
  is_free ← (if index <? total_frames s
             then t ← bitmap_test (Some (frame_map s)) index; Ok (t =? 0)
             else Ok false);
  if is_free : bool
  then with_map s (bitmap_set (Some (frame_map s)) index) (u64 (free_frames s - 1))
  else Ok s.

(** Iterations of [for (addr = start; addr < end; addr += PMM_FRAME_SIZE)]. *)
Definition range_fuel (start end_ : Z) : nat := S (Z.to_nat ((end_ - start) / PMM_FRAME_SIZE)).

Definition pmm_mark_usable (s : pmm_t) (base length : Z) : outcome pmm_t :=
  let start := align_up_u64 base PMM_FRAME_SIZE in
  let end_ := align_down_u64 (u64 (base + length)) PMM_FRAME_SIZE in
  loop (range_fuel start end_)
    (λ '(addr, s),
       if addr <? end_ then
         s' ← free_index s (frame_index addr);
         Ok (inl (u64 (addr + PMM_FRAME_SIZE), s'))
       else Ok (inr s)) (start, s).

Definition pmm_mark_reserved (s : pmm_t) (base length : Z) : outcome pmm_t :=
  let start := align_down_u64 base PMM_FRAME_SIZE in
  let end_ := align_up_u64 (u64 (base + length)) PMM_FRAME_SIZE in
  loop (range_fuel start end_)
    (λ '(addr, s),
       if addr <? end_ then
         s' ← reserve_index s (frame_index addr);
         Ok (inl (u64 (addr + PMM_FRAME_SIZE), s'))
       else Ok (inr s)) (start, s).

Definition pmm_alloc_frame (s : pmm_t) : outcome (Z * pmm_t) :=
  index ← bitmap_find_clear (Some (frame_map s));
  if index <? 0 then Ok (0, s)
  else
    s' ← with_map s (bitmap_set (Some (frame_map s)) (u64 index)) (u64 (free_frames s - 1));
    Ok (u64 (u64 index * PMM_FRAME_SIZE), s').

Definition pmm_alloc_frames (s : pmm_t) (count : Z) : outcome (Z * pmm_t) :=
  index ← bitmap_find_clear_range (Some (frame_map s)) count;
  if index <? 0 then Ok (0, s)
  else
    s1 ← for_each 0 count
           (λ i s, with_map s (bitmap_set (Some (frame_map s)) (u64 (u64 index + i)))
                            (free_frames s)) s;
    Ok (u64 (u64 index * PMM_FRAME_SIZE),
        {| frame_storage := frame_storage s1; frame_map := frame_map s1;
           total_frames := total_frames s1; free_frames := u64 (free_frames s1 - count) |}).

Definition pmm_free_frames (s : pmm_t) (frame count : Z) : outcome pmm_t :=
  let start := frame_index frame in
  for_each 0 count (λ i s, free_index s (u64 (start + i))) s.

Definition pmm_free_frame (s : pmm_t) (frame : Z) : outcome pmm_t := pmm_free_frames s frame 1.

Definition pmm_total_frames (s : pmm_t) : Z := total_frames s.
Definition pmm_free_count (s : pmm_t) : Z := free_frames s.
Definition pmm_used_count (s : pmm_t) : Z := u64 (total_frames s - free_frames s).

(** ** The abstract view *)

Definition used (s : pmm_t) : list bool := bits (frame_map s).

Definition inv (s : pmm_t) : Prop :=
  wf (frame_map s) ∧ bit_count (frame_map s) = total_frames s ∧
  0 ≤ total_frames s ≤ PMM_MAX_FRAMES ∧ free_frames s = count_false (used s).

(** What [pmm_init] needs of the array: it has its declared size and holds
    64-bit words.  It holds at boot and is kept by every operation. *)
Definition storage_ok (s : pmm_t) : Prop :=
  zlen (current_storage s) = PMM_MAX_FRAMES / 64 ∧
  Forall (λ w, 0 ≤ w < 2 ^ 64) (current_storage s).

(** The in-use flag of the frames [lo <= i < hi] becomes [v]. *)
Definition set_range (l : list bool) (lo hi : Z) (v : bool) : list bool :=
  imap (λ i b, if bool_decide (lo ≤ Z.of_nat i < hi) then v else b) l.

(** ** Lemmas on ranges of flags *)

Lemma length_set_range l lo hi v : length (set_range l lo hi v) = length l.
Proof. apply length_imap. Qed.

Lemma lookup_set_range l lo hi v i :
  set_range l lo hi v !! i =
  (λ b, if bool_decide (lo ≤ Z.of_nat i < hi) then v else b) <$> l !! i.
Proof. apply list_lookup_imap. Qed.

Lemma set_range_empty l lo hi v : hi ≤ lo → set_range l lo hi v = l.
Proof.
  intros. apply list_eq; intros i. rewrite lookup_set_range.
  rewrite bool_decide_eq_false_2 by lia. by destruct (l !! i).
Qed.

(** Growing a range by one frame is one update (which does nothing past the end). *)
Lemma set_range_S l lo hi v :
  0 ≤ lo ≤ hi → set_range l lo (hi + 1) v = <[Z.to_nat hi := v]> (set_range l lo hi v).
Proof.
  intros. apply list_eq; intros i.
  destruct (decide (i = Z.to_nat hi)) as [->|Hne].
  - destruct (decide (Z.to_nat hi < length l)%nat) as [Hlt|Hge].
    + rewrite list_lookup_insert_eq by (by rewrite length_set_range).
      destruct (lookup_lt_is_Some_2 l _ Hlt) as [b Hb].
      rewrite lookup_set_range, Hb. simpl. by rewrite bool_decide_eq_true_2 by lia.
    + rewrite list_insert_ge by (rewrite length_set_range; lia).
      rewrite !(proj2 (lookup_ge_None _ _)); [done|rewrite length_set_range; lia..].
  - rewrite list_lookup_insert_ne by done. rewrite !lookup_set_range.
    destruct (l !! i); simpl; [|done]. f_equal. by rewrite (bool_decide_ext (lo ≤ Z.of_nat i < hi + 1) (lo ≤ Z.of_nat i < hi)) by lia.
Qed.

Lemma count_false_insert l i (old new : bool) :
  l !! i = Some old →
  count_false (<[i := new]> l) =
  count_false l + (if old then 1 else 0) - (if new then 1 else 0).
Proof.
  intros Hi. pose proof (count_true_insert l i old new Hi).
  pose proof (count_true_false l). pose proof (count_true_false (<[i := new]> l)).
  rewrite zlen_insert in *. lia.
Qed.

Lemma count_false_bounds l : 0 ≤ count_false l ≤ zlen l.
Proof.
  pose proof (count_true_false l). unfold count_true, count_false, zlen in *. lia.
Qed.

Lemma inv_free_bounds s : inv s → 0 ≤ free_frames s ≤ total_frames s.
Proof.
  intros (Hwf & Hbc & Ht & ->). pose proof (count_false_bounds (used s)).
  unfold used in *. rewrite zlen_bits in * by done. lia.
Qed.

Lemma length_used s : inv s → length (used s) = Z.to_nat (total_frames s).
Proof. intros (Hwf & Hbc & _). unfold used. by rewrite length_bits, Hbc. Qed.

(** ** One frame *)

(** Setting the flag of one frame and adjusting the counter keeps the invariant. *)
Lemma inv_update s b' i (old new : bool) :
  inv s → wf b' → bit_count b' = bit_count (frame_map s) →
  used s !! i = Some old → bits b' = <[i := new]> (used s) →
  inv {| frame_storage := frame_storage s; frame_map := b'; total_frames := total_frames s;
         free_frames := free_frames s + (if old then 1 else 0) - (if new then 1 else 0) |}.
Proof.
  intros (Hwf & Hbc & Ht & Hf) Hwf' Hbc' Hold Hb'.
  split; [done|]. split; [simpl; congruence|]. split; [done|].
  unfold used at 1; simpl. rewrite Hb', (count_false_insert _ _ old), Hf by done. done.
Qed.

Lemma used_lookup_ge s i : inv s → total_frames s ≤ i → used s !! Z.to_nat i = None.
Proof. intros Hinv Hi. apply lookup_ge_None. rewrite length_used by done. lia. Qed.

Lemma free_one s i :
  inv s → 0 ≤ i →
  free_index s i ⇓ λ s', inv s' ∧ total_frames s' = total_frames s ∧
          used s' = <[Z.to_nat i := false]> (used s).
Proof.
  intros Hinv Hi. pose proof (inv_free_bounds s Hinv) as Hfb.
  pose proof Hinv as (Hwf & Hbc & Ht & Hf).
  unfold free_index. apply wp_bind. destruct (Z.ltb_spec i (total_frames s)) as [Hlt|Hge].
  - assert (is_Some (used s !! Z.to_nat i)) as [x Hx].
    { apply lookup_lt_is_Some. rewrite length_used by done. lia. }
    rewrite (bitmap_test_clear _ _ x), bind_ok by done. apply wp_ok. destruct x; simpl.
    + unfold with_map. apply wp_bind. eapply wp_mono; [by apply bitmap_clear_spec|].
      intros p (b' & -> & Hwf' & Hbc' & Hb'). apply wp_ok.
      unfold PMM_MAX_FRAMES in *. rewrite u64_small by lia.
      split; [|done]. replace (free_frames s + 1) with (free_frames s + 1 - 0) by lia.
      by apply (inv_update s b' (Z.to_nat i) true false).
    + apply wp_ok. split_and!; [done..|]. by rewrite list_insert_id.
  - do 2 apply wp_ok. split_and!; [done..|]. rewrite list_insert_ge; [done|].
    rewrite length_used by done. lia.
Qed.

Lemma reserve_one s i :
  inv s → 0 ≤ i →
  reserve_index s i ⇓ λ s', inv s' ∧ total_frames s' = total_frames s ∧
          used s' = <[Z.to_nat i := true]> (used s).
Proof.
  intros Hinv Hi. pose proof (inv_free_bounds s Hinv) as Hfb.
  pose proof Hinv as (Hwf & Hbc & Ht & Hf).
  unfold reserve_index. apply wp_bind. destruct (Z.ltb_spec i (total_frames s)) as [Hlt|Hge].
  - assert (is_Some (used s !! Z.to_nat i)) as [x Hx].
    { apply lookup_lt_is_Some. rewrite length_used by done. lia. }
    rewrite (bitmap_test_clear _ _ x), bind_ok by done. apply wp_ok. destruct x; simpl.
    + apply wp_ok. split_and!; [done..|]. by rewrite list_insert_id.
    + unfold with_map. apply wp_bind. eapply wp_mono; [by apply bitmap_set_spec|].
      intros p (b' & -> & Hwf' & Hbc' & Hb'). apply wp_ok.
      pose proof (inv_update s b' (Z.to_nat i) false true Hinv Hwf' Hbc' Hx Hb') as Hinv'.
      pose proof (inv_free_bounds _ Hinv') as Hfb'. simpl in Hfb'.
      unfold PMM_MAX_FRAMES in *. rewrite u64_small by lia.
      split; [|done]. by replace (free_frames s - 1) with (free_frames s + 0 - 1) by lia.
  - do 2 apply wp_ok. split_and!; [done..|]. rewrite list_insert_ge; [done|].
    rewrite length_used by done. lia.
Qed.

(** ** Initialisation *)

Lemma pmm_init_ok s top :
  storage_ok s → 0 ≤ top < 2 ^ 64 →
  pmm_init s top ⇓ λ s', inv s' ∧
    total_frames s' = Z.min (top / 4096) PMM_MAX_FRAMES ∧
    used s' = replicate (Z.to_nat (total_frames s')) true.
Proof.
  intros (Hlen & Hall) Htop. unfold pmm_init, PMM_FRAME_SIZE. simpl.
  set (total := Z.min (top / 4096) PMM_MAX_FRAMES).
  assert (0 ≤ total ≤ PMM_MAX_FRAMES) as Htot by (unfold total, PMM_MAX_FRAMES; zlia).
  unfold with_map. apply wp_bind. eapply wp_mono.
  { apply bitmap_set_all_spec; [unfold PMM_MAX_FRAMES in *; lia| |done].
    rewrite Hlen. unfold PMM_MAX_FRAMES in *. zlia. }
  intros p (b' & -> & Hwf' & Hbc' & Hb'). apply wp_ok. simpl.
  split; [|split; [done|]]; unfold inv, used; simpl; [|done].
  do 3 (split; [done|]). rewrite Hb'. unfold count_false.
  clear. by induction (Z.to_nat total).
Qed.

(** ** Ranges of frames *)

(** A loop over the frame addresses in [start, end) whose body sets the flag of
    the frame to [v]. *)
Lemma range_loop (body : Z → pmm_t → outcome pmm_t) v s start end_ :
  (∀ s i, inv s → 0 ≤ i → body i s ⇓ λ s', inv s' ∧ total_frames s' = total_frames s ∧
            used s' = <[Z.to_nat i := v]> (used s)) →
  inv s → 0 ≤ start → start mod 4096 = 0 → 0 ≤ end_ < 2 ^ 64 → end_ mod 4096 = 0 →
  loop (range_fuel start end_)
    (λ '(addr, s),
       if addr <? end_ then
         s' ← body (frame_index addr) s;
         Ok (inl (u64 (addr + PMM_FRAME_SIZE), s'))
       else Ok (inr s)) (start, s)
  ⇓ λ s', inv s' ∧ total_frames s' = total_frames s ∧
          used s' = set_range (used s) (start / 4096) (end_ / 4096) v.
Proof.
  intros Hbody Hinv Hs0 Hsm He Hem.
  apply (wp_loop
    (λ '(addr, s'), inv s' ∧ total_frames s' = total_frames s ∧ start ≤ addr ∧
       (addr ≤ end_ ∨ addr = start) ∧ addr mod 4096 = 0 ∧
       used s' = set_range (used s) (start / 4096) (addr / 4096) v)
    (λ '(addr, _), Z.to_nat ((end_ - addr) / 4096))).
  - intros [addr s'] (Hinv' & Ht & Hsa & Hae & Ham & Hu).
    destruct (Z.ltb_spec addr end_) as [Hlt|Hge].
    + apply wp_bind. unfold frame_index, PMM_FRAME_SIZE.
      eapply wp_mono; [apply Hbody; [done|zlia]|].
      intros s'' (Hinv'' & Ht' & Hu'). apply wp_ok. rewrite u64_small by zlia.
      split; [|zlia]. split_and!; [done|congruence|lia|left; zlia|zlia|].
      replace ((addr + 4096) / 4096) with (addr / 4096 + 1) by zlia.
      rewrite set_range_S by zlia. by rewrite Hu', Hu.
    + apply wp_ok. split_and!; [done..|]. rewrite Hu.
      destruct Hae as [?| ->]; [by replace addr with end_ by lia|].
      rewrite !set_range_empty; [done|zlia|lia].
  - split_and!; [done..|lia|by right|done|]. by rewrite set_range_empty by lia.
  - unfold range_fuel, PMM_FRAME_SIZE. lia.
Qed.

Lemma align_4096_down v : 0 ≤ v < 2 ^ 64 → align_down_u64 v 4096 = v - v mod 4096.
Proof. intros. by apply (align_down_pow2 v 12). Qed.

Lemma align_4096_up v :
  0 ≤ v ≤ 2 ^ 64 - 4096 → align_up_u64 v 4096 = (v + 4095) - (v + 4095) mod 4096.
Proof.
  intros. replace (v + 4095) with (v + 2 ^ 12 - 1) by lia.
  apply (align_up_pow2 v 12); lia.
Qed.

(** Alignment always gives a multiple of the frame size, even when adding
    [PMM_FRAME_SIZE - 1] wrapped around. *)
Lemma align_up_4096_mod v : align_up_u64 v 4096 mod 4096 = 0 ∧ 0 ≤ align_up_u64 v 4096 < 2 ^ 64.
Proof.
  unfold align_up_u64. pose proof (u64_range (v + 4096 - 1)).
  rewrite align_4096_down by lia. split; zlia.
Qed.

Lemma align_down_4096_mod v :
  0 ≤ v < 2 ^ 64 → align_down_u64 v 4096 mod 4096 = 0 ∧ 0 ≤ align_down_u64 v 4096 < 2 ^ 64.
Proof. intros. rewrite align_4096_down by done. split; zlia. Qed.

(** ** The entry points *)

Lemma pmm_mark_usable_ok s base len :
  inv s → 0 ≤ base → 0 ≤ len →
  pmm_mark_usable s base len ⇓ λ s', inv s' ∧ total_frames s' = total_frames s ∧
    used s' = set_range (used s) (align_up_u64 base 4096 / 4096)
                        (align_down_u64 (u64 (base + len)) 4096 / 4096) false.
Proof.
  intros Hinv Hb Hl. pose proof (align_up_4096_mod base) as [? ?].
  pose proof (align_down_4096_mod (u64 (base + len)) (u64_range _)) as [? ?].
  apply (range_loop (λ i s, free_index s i)); [by intros; apply free_one|done|lia..].
Qed.

Lemma pmm_mark_reserved_ok s base len :
  inv s → 0 ≤ base < 2 ^ 64 → 0 ≤ len →
  pmm_mark_reserved s base len ⇓ λ s', inv s' ∧ total_frames s' = total_frames s ∧
    used s' = set_range (used s) (align_down_u64 base 4096 / 4096)
                        (align_up_u64 (u64 (base + len)) 4096 / 4096) true.
Proof.
  intros Hinv Hb Hl. pose proof (align_up_4096_mod (u64 (base + len))) as [? ?].
  pose proof (align_down_4096_mod base Hb) as [? ?].
  apply (range_loop (λ i s, reserve_index s i)); [by intros; apply reserve_one|done|lia..].
Qed.

Lemma pmm_free_frames_ok s frame count :
  inv s → 0 ≤ frame < 2 ^ 64 → 0 ≤ count < 2 ^ 63 →
  pmm_free_frames s frame count ⇓ λ s', inv s' ∧ total_frames s' = total_frames s ∧
    used s' = set_range (used s) (frame / 4096) (frame / 4096 + count) false.
Proof.
  intros Hinv Hf Hc. unfold pmm_free_frames, frame_index, PMM_FRAME_SIZE.
  apply (wp_for_each (λ i s', inv s' ∧ total_frames s' = total_frames s ∧
           used s' = set_range (used s) (frame / 4096) (frame / 4096 + i) false)).
  - lia.
  - split_and!; [done..|]. by rewrite set_range_empty by lia.
  - intros i s' Hi (Hinv' & Ht & Hu). rewrite u64_small by zlia.
    eapply wp_mono; [apply free_one; [done|zlia]|].
    intros s'' (Hinv'' & Ht' & Hu'). split_and!; [done|congruence|].
    rewrite Z.add_assoc, set_range_S by zlia. by rewrite Hu', Hu.
  - done.
Qed.

Lemma pmm_alloc_frame_ok s :
  inv s →
  pmm_alloc_frame s ⇓ λ '(frame, s'), inv s' ∧ total_frames s' = total_frames s ∧
    ((frame = 0 ∧ s' = s ∧ ∀ i, used s !! i ≠ Some false) ∨
     (∃ i, frame = Z.of_nat i * 4096 ∧ used s !! i = Some false ∧
           (∀ j, (j < i)%nat → used s !! j = Some true) ∧
           used s' = <[i := true]> (used s) ∧ free_frames s' = free_frames s - 1)).
Proof.
  intros Hinv. pose proof (inv_free_bounds s Hinv) as Hfb.
  pose proof Hinv as (Hwf & Hbc & Ht & Hf). unfold PMM_MAX_FRAMES in *.
  unfold pmm_alloc_frame. apply wp_bind. eapply wp_mono; [by apply bitmap_find_clear_spec|].
  intros r [(-> & Hno)|(Hr & Hfree & Hfirst)].
  { simpl. apply wp_ok. split_and!; [done..|]. left. by split_and!. }
  rewrite (proj2 (Z.ltb_ge r 0)) by lia. rewrite (u64_small r) by lia.
  unfold PMM_FRAME_SIZE, with_map. do 2 apply wp_bind.
  eapply wp_mono; [apply bitmap_set_spec; [done|lia]|].
  intros p (b' & -> & Hwf' & Hbc' & Hb'). do 2 apply wp_ok.
  pose proof (inv_update s b' (Z.to_nat r) false true Hinv Hwf' Hbc' Hfree Hb') as Hinv'.
  pose proof (inv_free_bounds _ Hinv') as Hfb'. simpl in Hfb'.
  rewrite !u64_small by lia.
  split; [by replace (free_frames s - 1) with (free_frames s + 0 - 1) by lia|].
  split; [done|]. right. exists (Z.to_nat r). split_and!; [lia|done..].
Qed.

(** Marking [k] frames of a clear run one by one. *)
Lemma reserve_run s (i k count : nat) :
  inv s → (k ≤ count)%nat → clear_run (used s) i count →
  count_false (set_range (used s) (Z.of_nat i) (Z.of_nat i + Z.of_nat k) true) =
  count_false (used s) - Z.of_nat k.
Proof.
  intros Hinv. induction k as [|k IH]; intros Hk Hrun.
  - rewrite set_range_empty by lia. lia.
  - rewrite Nat2Z.inj_succ. unfold Z.succ. rewrite Z.add_assoc, set_range_S by lia.
    rewrite (count_false_insert _ _ false true); [rewrite IH by (done || lia); lia|].
    rewrite lookup_set_range, Hrun by lia. simpl. by rewrite bool_decide_eq_false_2 by lia.
Qed.

Lemma pmm_alloc_frames_ok s count :
  inv s → 0 ≤ count →
  pmm_alloc_frames s count ⇓ λ '(frame, s'), inv s' ∧ total_frames s' = total_frames s ∧
    ((frame = 0 ∧ s' = s ∧ (count = 0 ∨ ∀ i, ¬ clear_run (used s) i (Z.to_nat count))) ∨
     (∃ i, frame = Z.of_nat i * 4096 ∧ clear_run (used s) i (Z.to_nat count) ∧
           (∀ j, (j < i)%nat → ¬ clear_run (used s) j (Z.to_nat count)) ∧
           used s' = set_range (used s) (Z.of_nat i) (Z.of_nat i + count) true ∧
           free_frames s' = free_frames s - count)).
Proof.
  intros Hinv Hc. pose proof Hinv as (Hwf & Hbc & Ht & Hf). unfold PMM_MAX_FRAMES in *.
  unfold pmm_alloc_frames. apply wp_bind.
  eapply wp_mono; [by apply bitmap_find_clear_range_spec|].
  intros r [(-> & Hno)|(Hpos & Hr & Hrc & Hrun & Hfirst)].
  { simpl. apply wp_ok. split_and!; [done..|]. left. by split_and!. }
  rewrite (proj2 (Z.ltb_ge r 0)) by lia. rewrite (u64_small r) by lia.
  unfold PMM_FRAME_SIZE. apply wp_bind.
  apply (wp_for_each (λ k s1, wf (frame_map s1) ∧ bit_count (frame_map s1) = total_frames s ∧
           total_frames s1 = total_frames s ∧ free_frames s1 = free_frames s ∧
           used s1 = set_range (used s) r (r + k) true)).
  - lia.
  - split_and!; [done..|]. by rewrite set_range_empty by lia.
  - intros k s1 Hk (Hwf1 & Hbc1 & Ht1 & Hf1 & Hu1). rewrite u64_small by lia.
    unfold with_map. apply wp_bind. eapply wp_mono; [apply bitmap_set_spec; [done|lia]|].
    intros p (b' & -> & Hwf' & Hbc' & Hb'). apply wp_ok.
    split_and!; simpl; [done|congruence|done..|].
    unfold used at 1; simpl. rewrite Hb'. fold (used s1). rewrite Hu1.
    rewrite Z.add_assoc, set_range_S by lia. done.
  - intros s1 (Hwf1 & Hbc1 & Ht1 & Hf1 & Hu1). apply wp_ok.
    pose proof (reserve_run s (Z.to_nat r) (Z.to_nat count) (Z.to_nat count) Hinv
                  ltac:(lia) Hrun) as Hcnt. rewrite !Z2Nat.id in Hcnt by lia.
    pose proof (count_false_bounds (used s1)) as Hcb. rewrite Hu1 in Hcb.
    pose proof (inv_free_bounds s Hinv). rewrite Hf1, !u64_small by lia.
    split; [split; [done|split; [simpl; congruence|split; [simpl; rewrite Ht1; exact Ht|]]]
           |split; [done|]].
    + unfold used; simpl. fold (used s1). rewrite Hu1, Hcnt. lia.
    + right. exists (Z.to_nat r). rewrite !Z2Nat.id by lia. by split_and!.
Qed.

(** ** Operations as steps *)

(** The manager's entry points, as the rest of the kernel calls them. *)
Inductive op :=
  | MarkUsable (base len : Z)
  | MarkReserved (base len : Z)
  | AllocFrame
  | AllocFrames (count : Z)
  | FreeFrames (frame count : Z).

(** Arguments are 64-bit; a count of frames fits a signed 64-bit integer. *)
Definition op_args (o : op) : Prop :=
  match o with
  | MarkUsable b l | MarkReserved b l => 0 ≤ b < 2 ^ 64 ∧ 0 ≤ l < 2 ^ 64
  | AllocFrame => True
  | AllocFrames c => 0 ≤ c < 2 ^ 63
  | FreeFrames f c => 0 ≤ f < 2 ^ 64 ∧ 0 ≤ c < 2 ^ 63
  end.

Definition exec (o : op) (s : pmm_t) : outcome pmm_t :=
  match o with
  | MarkUsable b l => pmm_mark_usable s b l
  | MarkReserved b l => pmm_mark_reserved s b l
  | AllocFrame => '(_, s') ← pmm_alloc_frame s; Ok s'
  | AllocFrames c => '(_, s') ← pmm_alloc_frames s c; Ok s'
  | FreeFrames f c => pmm_free_frames s f c
  end.

Fixpoint run (os : list op) (s : pmm_t) : outcome pmm_t :=
  match os with [] => Ok s | o :: os => s' ← exec o s; run os s' end.

Lemma exec_inv o s :
  inv s → op_args o → exec o s ⇓ λ s', inv s' ∧ total_frames s' = total_frames s.
Proof.
  intros Hinv Ho. destruct o; simpl in *.
  - eapply wp_mono; [apply pmm_mark_usable_ok; (done || lia)|by intros ? (? & ? & _)].
  - eapply wp_mono; [apply pmm_mark_reserved_ok; (done || lia)|by intros ? (? & ? & _)].
  - apply wp_bind. eapply wp_mono; [by apply pmm_alloc_frame_ok|].
    intros [f s'] (? & ? & _). by apply wp_ok.
  - apply wp_bind. eapply wp_mono; [apply pmm_alloc_frames_ok; (done || lia)|].
    intros [f s'] (? & ? & _). by apply wp_ok.
  - eapply wp_mono; [apply pmm_free_frames_ok; (done || lia)|by intros ? (? & ? & _)].
Qed.

(** ** What the paging code may rely on *)

(** A source of physical frames: [fa_busy s f] says that the frame at address
    [f] is handed out.  An allocation that succeeds (returns non-zero) hands out
    a page-aligned frame that was not handed out, and changes nothing else. *)
Class FrameAllocator (S : Type) := {
  fa_alloc : S → outcome (Z * S);
  fa_free : S → Z → outcome S;
  fa_inv : S → Prop;
  fa_busy : S → Z → Prop;
  fa_alloc_spec : ∀ s, fa_inv s →
    fa_alloc s ⇓ λ '(f, s'), fa_inv s' ∧
      (f ≠ 0 → f mod 4096 = 0 ∧ 0 < f < 2 ^ 32 ∧ ¬ fa_busy s f ∧ fa_busy s' f) ∧
      (∀ g, g ≠ f → fa_busy s' g ↔ fa_busy s g);
  fa_free_spec : ∀ s f, fa_inv s → 0 ≤ f < 2 ^ 64 →
    fa_free s f ⇓ λ s', fa_inv s'
}.

(** Frames outside the managed range count as handed out: the manager never
    gives them to anyone. *)
Definition frame_busy (s : pmm_t) (f : Z) : Prop :=
  f mod 4096 = 0 ∧ 0 ≤ f ∧ used s !! Z.to_nat (f / 4096) ≠ Some false.

Lemma frame_busy_alloc s s' i g :
  used s !! i = Some false → used s' = <[i := true]> (used s) → g ≠ Z.of_nat i * 4096 →
  frame_busy s' g ↔ frame_busy s g.
Proof.
  intros Hi Hu Hg. unfold frame_busy. rewrite Hu.
  split; intros (Hm & Hp & Hl); (split; [done|split; [done|]]);
    rewrite list_lookup_insert_ne in * by (intros ->; apply Hg; zlia); done.
Qed.

#[global] Program Instance pmm_frame_allocator : FrameAllocator pmm_t := {|
  fa_alloc := pmm_alloc_frame;
  fa_free := pmm_free_frame;
  fa_inv := inv;
  fa_busy := frame_busy
|}.
Next Obligation.
  intros s Hinv. pose proof Hinv as (_ & _ & Ht & _). unfold PMM_MAX_FRAMES in Ht.
  eapply wp_mono; [by apply pmm_alloc_frame_ok|].
  intros [f s'] (Hinv' & Ht' & [(-> & -> & _)|(i & -> & Hi & _ & Hu & _)]); [done|].
  split; [done|]. split; [|intros; by eapply frame_busy_alloc].
  assert (i < length (used s))%nat as Hlt by (by eapply lookup_lt_Some).
  rewrite length_used in Hlt by done. intros Hnz.
  assert (Z.of_nat i * 4096 / 4096 = Z.of_nat i) as Hdiv by (apply Z.div_mul; lia).
  split; [apply Z.mod_mul; lia|]. split; [lia|]. unfold frame_busy.
  rewrite Hdiv, Nat2Z.id, Hu. split; [by intros (_ & _ & [])|].
  split; [apply Z.mod_mul; lia|]. split; [lia|].
  by rewrite list_lookup_insert_eq by (rewrite length_used by done; lia).
Qed.
Next Obligation.
  intros s f Hinv Hf. eapply wp_mono; [apply pmm_free_frames_ok; (done || lia)|by intros ? (? & ? & _)].
Qed.

(** ** Correctness of the manager *)

Lemma run_inv os s :
  inv s → Forall op_args os → run os s ⇓ λ s', inv s' ∧ total_frames s' = total_frames s.
Proof.
  intros Hinv Hos. revert s Hinv. induction Hos as [|o os Ho Hos IH]; intros s Hinv; simpl.
  - by apply wp_ok.
  - apply wp_bind. eapply wp_mono; [by apply exec_inv|]. intros s' [Hinv' Ht'].
    eapply wp_mono; [by apply IH|]. intros s'' [? ?]. split; [done|congruence].
Qed.

Lemma boot_storage_ok : storage_ok pmm_boot.
Proof.
  split; [|apply Forall_replicate; simpl; lia]. cbn [current_storage pmm_boot frame_map words frame_storage].
  unfold zlen. rewrite length_replicate. apply Z2Nat.id. by vm_compute.
Qed.

(** C39: After pmm_init and any sequence of the allocator's operations, pmm_free_count and
    pmm_used_count are the numbers of clear and set bits of the frame bitmap, they add up to
    pmm_total_frames, and the total is the initial one: the counters never drift from the bitmap
    and never wrap. *)
Theorem pmm_count_invariant top os :
  0 ≤ top < 2 ^ 64 → Forall op_args os →
  (s ← pmm_init pmm_boot top; run os s) ⇓ λ s,
    pmm_free_count s = count_false (used s) ∧
    pmm_used_count s = count_true (used s) ∧
    pmm_free_count s + pmm_used_count s = pmm_total_frames s ∧
    pmm_total_frames s = Z.min (top / PMM_FRAME_SIZE) PMM_MAX_FRAMES.
Proof.
  intros Htop Hos. apply wp_bind. eapply wp_mono; [apply pmm_init_ok; [apply boot_storage_ok|done]|].
  intros s (Hinv & Ht & _). eapply wp_mono; [by apply run_inv|].
  intros s' [Hinv' Ht']. pose proof (inv_free_bounds s' Hinv').
  pose proof (count_true_false (used s')) as Hc. destruct Hinv' as (Hwf & Hbc & Hb & Hf).
  unfold used in Hc. rewrite zlen_bits in Hc by done. fold (used s') in Hc.
  unfold pmm_free_count, pmm_used_count, pmm_total_frames, PMM_MAX_FRAMES in *.
  rewrite u64_small by lia. unfold PMM_FRAME_SIZE. split_and!; lia.
Qed.

Lemma pmm_count_invariant_witness :
  (s ← pmm_init pmm_boot 65536;
   run [MarkUsable 0 65536; MarkReserved 0 5000; AllocFrames 3; AllocFrame; FreeFrames 12288 1] s)
  ⇓ λ s, pmm_free_count s = count_false (used s) ∧ pmm_used_count s = count_true (used s) ∧
         pmm_free_count s + pmm_used_count s = pmm_total_frames s ∧
         pmm_total_frames s = Z.min (65536 / PMM_FRAME_SIZE) PMM_MAX_FRAMES.
Proof. apply pmm_count_invariant; [lia|]. repeat constructor; simpl; lia. Defined.

(** What marking a region does to each frame, in terms of addresses. *)
Lemma mark_usable_exact s base len :
  inv s → 0 ≤ base ≤ 2 ^ 64 - 4096 → 0 ≤ len → base + len ≤ 2 ^ 64 - 4096 →
  pmm_mark_usable s base len ⇓ λ s', inv s' ∧ total_frames s' = total_frames s ∧
    ∀ i : nat, used s' !! i = Some false ↔
      used s !! i = Some false ∨
      (Z.of_nat i < total_frames s ∧
       base ≤ Z.of_nat i * 4096 ∧ (Z.of_nat i + 1) * 4096 ≤ base + len).
Proof.
  intros Hinv Hb Hl Hbl. eapply wp_mono; [apply pmm_mark_usable_ok; (done || lia)|].
  intros s' (Hinv' & Ht & ->). do 2 (split; [done|]). intros i.
  rewrite lookup_set_range, u64_small, align_4096_up, align_4096_down by lia.
  destruct (used s !! i) as [x|] eqn:Hi; simpl.
  - apply lookup_lt_Some in Hi. rewrite length_used in Hi by done.
    case_bool_decide as Hd; split; intros HH; try (by left); try (right; zlia); try done.
    destruct HH as [|HH]; [done|]. exfalso. apply Hd. zlia.
  - apply lookup_ge_None in Hi. rewrite length_used in Hi by done.
    split; [done|]. intros [|(? & _)]; [done|]. destruct Hinv as (_ & _ & ? & _). lia.
Qed.

Lemma mark_reserved_exact s base len :
  inv s → 0 ≤ base ≤ 2 ^ 64 - 4096 → 0 < len → base + len ≤ 2 ^ 64 - 4096 →
  pmm_mark_reserved s base len ⇓ λ s', inv s' ∧ total_frames s' = total_frames s ∧
    ∀ i : nat, used s' !! i = Some false ↔
      used s !! i = Some false ∧
      ¬ (Z.of_nat i * 4096 < base + len ∧ base < (Z.of_nat i + 1) * 4096).
Proof.
  intros Hinv Hb Hl Hbl. eapply wp_mono; [apply pmm_mark_reserved_ok; (done || lia)|].
  intros s' (Hinv' & Ht & ->). do 2 (split; [done|]). intros i.
  rewrite lookup_set_range, u64_small, align_4096_up, align_4096_down by lia.
  destruct (used s !! i) as [x|] eqn:Hi; simpl; [|by split; [|intros [? _]]].
  case_bool_decide as Hd; split; try done.
  - intros [_ Hno]. exfalso. apply Hno. zlia.
  - intros ->. split; [done|]. intros HH. apply Hd. zlia.
  - by intros [? _].
Qed.

(** pmm_mark_usable frees exactly the frames that lie wholly inside the region and
    pmm_mark_reserved reserves exactly the frames that meet it, for every base and length that
    does not reach the last page of the address space. *)
Theorem pmm_regions_exact s base len :
  inv s → 0 ≤ base ≤ 2 ^ 64 - 4096 → 0 < len → base + len ≤ 2 ^ 64 - 4096 →
  (pmm_mark_usable s base len ⇓ λ s', inv s' ∧
     ∀ i : nat, used s' !! i = Some false ↔
       used s !! i = Some false ∨
       (Z.of_nat i < total_frames s ∧ base ≤ Z.of_nat i * PMM_FRAME_SIZE ∧
        (Z.of_nat i + 1) * PMM_FRAME_SIZE ≤ base + len)) ∧
  (pmm_mark_reserved s base len ⇓ λ s', inv s' ∧
     ∀ i : nat, used s' !! i = Some false ↔
       used s !! i = Some false ∧
       ¬ (Z.of_nat i * PMM_FRAME_SIZE < base + len ∧ base < (Z.of_nat i + 1) * PMM_FRAME_SIZE)).
Proof.
  intros. split.
  - eapply wp_mono; [apply mark_usable_exact; (done || lia)|]. by intros s' (? & _ & ?).
  - eapply wp_mono; [by apply mark_reserved_exact|]. by intros s' (? & _ & ?).
Qed.

(** Sixteen frames, all in use: what [pmm_init] gives for 64 KiB of memory. *)
Definition sixteen_frames : pmm_t :=
  {| frame_storage := [UINT64_MAX];
     frame_map := {| words := Some [UINT64_MAX]; bit_count := 16 |};
     total_frames := 16; free_frames := 0 |}.

Lemma sixteen_frames_inv : inv sixteen_frames.
Proof.
  split; [|split; [done|split; [by compute|by vm_compute]]].
  exists [UINT64_MAX]. split; [done|]. split; [by compute|]. split; [by compute|].
  constructor; [by compute|constructor].
Defined.

Lemma pmm_regions_exact_witness :
  pmm_mark_usable sixteen_frames 5000 20000 ⇓ λ s', used s' !! 2%nat = Some false.
Proof.
  destruct (pmm_regions_exact sixteen_frames 5000 20000) as [H _];
    [apply sixteen_frames_inv|lia..|].
  eapply wp_mono; [exact H|]. intros s' [_ Hs']. apply Hs'. right.
  unfold PMM_FRAME_SIZE. simpl. lia.
Defined.

(** pmm_alloc_frame takes the lowest free frame; it returns 0 with the state unchanged when none
    is free. *)
Theorem pmm_alloc_frame_correct s :
  inv s →
  pmm_alloc_frame s ⇓ λ '(frame, s'), inv s' ∧
    ((frame = 0 ∧ s' = s ∧ pmm_free_count s = 0) ∨
     (∃ i : nat, frame = Z.of_nat i * PMM_FRAME_SIZE ∧ used s !! i = Some false ∧
           (∀ j, (j < i)%nat → used s !! j = Some true) ∧
           used s' = <[i := true]> (used s) ∧ pmm_free_count s' = pmm_free_count s - 1)).
Proof.
  intros Hinv. eapply wp_mono; [by apply pmm_alloc_frame_ok|].
  intros [f s'] (Hinv' & _ & [(-> & -> & Hno)|(i & -> & Hi & Hj & Hu & Hf)]); (split; [done|]).
  - left. split_and!; [done..|]. destruct Hinv as (_ & _ & _ & Hf).
    unfold pmm_free_count. rewrite Hf. unfold count_false, zlen.
    destruct (filter _ _) as [|x l] eqn:Hfl; [done|exfalso].
    assert (x ∈ filter (λ b, b = false) (used s)) as [-> [i Hi]%list_elem_of_lookup]%list_elem_of_filter
      by (rewrite Hfl; left).
    by eapply Hno.
  - right. exists i. by split_and!.
Qed.

Lemma pmm_alloc_frame_correct_witness :
  (s ← pmm_mark_usable sixteen_frames 8192 8192; pmm_alloc_frame s) ⇓ λ '(frame, s'),
    frame = 8192 ∧ used s' !! 2%nat = Some true.
Proof.
  assert (pmm_mark_usable sixteen_frames 8192 8192 ⇓ λ s', inv s' ∧
            used s' !! 2%nat = Some false ∧ used s' !! 0%nat = Some true ∧
            used s' !! 1%nat = Some true) as H.
  { eapply wp_mono; [apply pmm_mark_usable_ok; [apply sixteen_frames_inv|lia|lia]|].
    intros s' (Hi & _ & ->). split; [done|]. by vm_compute. }
  apply wp_bind. eapply wp_mono; [exact H|]. intros s (Hinv & H2 & H0 & H1).
  eapply wp_mono; [apply (pmm_alloc_frame_correct s Hinv)|].
  intros [f s'] (Hi' & [(-> & -> & Hz)|(i & -> & Hi & Hlt & Hu & _)]).
  - exfalso. destruct Hinv as (_ & _ & _ & Hf). unfold pmm_free_count in Hz. rewrite Hz in Hf.
    pose proof (count_false_insert (used s) 2 false true H2) as Hc. cbn iota in Hc.
    pose proof (count_false_bounds (<[2%nat := true]> (used s))). lia.
  - assert (i = 2%nat) as ->.
    { destruct (decide (2 < i)%nat) as [Hgt|]; [by rewrite Hlt in H2|].
      destruct i as [|[|[|i]]]; [congruence..|done|lia]. }
    split; [done|]. rewrite Hu. apply list_lookup_insert_eq. by eapply lookup_lt_Some.
Defined.

(** pmm_alloc_frames takes the lowest run of count free frames, marks exactly those frames used
    and subtracts count; it returns 0 with the state unchanged if there is no such run; and
    freeing the run restores the bitmap and the counter. *)
Theorem pmm_alloc_frames_correct s count :
  inv s → 0 < count →
  pmm_alloc_frames s count ⇓ λ '(frame, s'), inv s' ∧
    ((frame = 0 ∧ s' = s ∧ ∀ i, ¬ clear_run (used s) i (Z.to_nat count)) ∨
     (∃ i : nat, frame = Z.of_nat i * PMM_FRAME_SIZE ∧
           clear_run (used s) i (Z.to_nat count) ∧
           (∀ j, (j < i)%nat → ¬ clear_run (used s) j (Z.to_nat count)) ∧
           used s' = set_range (used s) (Z.of_nat i) (Z.of_nat i + count) true ∧
           pmm_free_count s' = pmm_free_count s - count ∧
           (pmm_free_frames s' frame count ⇓ λ s'',
              used s'' = used s ∧ pmm_free_count s'' = pmm_free_count s))).
Proof.
  intros Hinv Hc. eapply wp_mono; [apply pmm_alloc_frames_ok; (done || lia)|].
  intros [f s'] (Hinv' & Ht' & [(-> & -> & [?|Hno])|(i & -> & Hrun & Hfirst & Hu & Hf)]);
    [lia|split; [done|by left]|split; [done|right]].
  exists i. do 5 (split; [done|]).
  assert (i + Z.to_nat count ≤ length (used s))%nat as Hle.
  { assert (used s !! (i + Z.to_nat count - 1)%nat = Some false) as Hl%lookup_lt_Some
      by (apply Hrun; lia). lia. }
  rewrite length_used in Hle by done. pose proof Hinv as (_ & _ & Htot & _).
  unfold PMM_MAX_FRAMES in Htot. unfold PMM_FRAME_SIZE.
  eapply wp_mono; [apply pmm_free_frames_ok; (done || lia)|].
  intros s'' (Hinv'' & _ & Hu''). rewrite Z.div_mul, Hu in Hu'' by lia.
  assert (used s'' = used s) as Heq.
  { rewrite Hu''. apply list_eq; intros j. rewrite !lookup_set_range.
    destruct (used s !! j) as [x|] eqn:Hj; simpl; [|done].
    case_bool_decide as Hd; [|done]. by rewrite Hrun in Hj by lia. }
  split; [done|]. unfold pmm_free_count.
  destruct Hinv as (_ & _ & _ & ->), Hinv'' as (_ & _ & _ & ->). by rewrite Heq.
Qed.

Lemma pmm_alloc_frames_correct_witness :
  inv sixteen_frames ∧
  pmm_alloc_frames sixteen_frames 3 ⇓ λ '(frame, s'), frame = 0 ∧ s' = sixteen_frames.
Proof.
  split; [apply sixteen_frames_inv|].
  eapply wp_mono; [apply (pmm_alloc_frames_correct sixteen_frames 3);
                   [apply sixteen_frames_inv|lia]|].
  intros [f s'] (_ & [(-> & -> & _)|(i & _ & Hrun & _)]); [done|exfalso].
  assert (used sixteen_frames = replicate 16 true) as Hu by reflexivity.
  assert (used sixteen_frames !! i = Some false) as Hx by (apply Hrun; lia).
  rewrite Hu in Hx. by apply lookup_replicate in Hx as [? _].
Defined.

End Pmm.
