(* ===== verification/Mmap.v ===== *)
(** The boot memory map (kernel/mm/mmap.c) and the part of [init_memory]
    (kernel/main.c) that hands it to the physical memory manager. *)
From S2P Require Import Prelude Kmath Bitmap Pmm.
Import Kmath Bitmap Pmm.

Module Mmap.

Definition MMAP_MAX_REGIONS : Z := 128.

Inductive mmap_region_type_t :=
  | MMAP_REGION_USABLE
  | MMAP_REGION_RESERVED
  | MMAP_REGION_ACPI
  | MMAP_REGION_BOOTLOADER
  | MMAP_REGION_KERNEL
  | MMAP_REGION_FRAMEBUFFER
  | MMAP_REGION_BAD.

#[global] Instance mmap_region_type_eq_dec : EqDecision mmap_region_type_t.
Proof. solve_decision. Defined.

Record mmap_region_t := { base : Z; length_ : Z; type : mmap_region_type_t }.

Record mmap_t := { regions : list mmap_region_t; region_count : Z }.

(** A zeroed region: [MMAP_REGION_USABLE] is the enumerator with value 0. *)
Definition zero_region : mmap_region_t :=
  {| base := 0; length_ := 0; type := MMAP_REGION_USABLE |}.

Definition mmap_reset : mmap_t :=
  {| regions := replicate (Z.to_nat MMAP_MAX_REGIONS) zero_region; region_count := 0 |}.

Definition mmap_add_region (m : mmap_t) (b l : Z) (t : mmap_region_type_t)
  : outcome (bool * mmap_t) :=
  if (l =? 0) || (MMAP_MAX_REGIONS <=? region_count m) then Ok (false, m)
  else
    rs ← zset (regions m) (region_count m) {| base := b; length_ := l; type := t |};
    Ok (true, {| regions := rs; region_count := u64 (region_count m + 1) |}).

(** The constants of boot/limine.h. *)
Definition LIMINE_MEMMAP_USABLE : Z := 0.
Definition LIMINE_MEMMAP_ACPI_RECLAIMABLE : Z := 2.
Definition LIMINE_MEMMAP_ACPI_NVS : Z := 3.
Definition LIMINE_MEMMAP_BAD_MEMORY : Z := 4.
Definition LIMINE_MEMMAP_BOOTLOADER_RECLAIMABLE : Z := 5.
Definition LIMINE_MEMMAP_KERNEL_AND_MODULES : Z := 6.
Definition LIMINE_MEMMAP_FRAMEBUFFER : Z := 7.

Definition mmap_type_from_limine (limine_type : Z) : mmap_region_type_t :=
  if limine_type =? LIMINE_MEMMAP_USABLE then MMAP_REGION_USABLE
  else if (limine_type =? LIMINE_MEMMAP_ACPI_RECLAIMABLE) || (limine_type =? LIMINE_MEMMAP_ACPI_NVS)
       then MMAP_REGION_ACPI
  else if limine_type =? LIMINE_MEMMAP_BOOTLOADER_RECLAIMABLE then MMAP_REGION_BOOTLOADER
  else if limine_type =? LIMINE_MEMMAP_KERNEL_AND_MODULES then MMAP_REGION_KERNEL
  else if limine_type =? LIMINE_MEMMAP_FRAMEBUFFER then MMAP_REGION_FRAMEBUFFER
  else if limine_type =? LIMINE_MEMMAP_BAD_MEMORY then MMAP_REGION_BAD
  else MMAP_REGION_RESERVED.

(** struct limine_memmap_entry. *)
Record limine_memmap_entry := { e_base : Z; e_length : Z; e_type : Z }.

(** [response->entries] is an array of pointers, some of which may be NULL. *)
Definition mmap_init_from_limine (response : option (list (option limine_memmap_entry)))
  : outcome mmap_t :=
  match response with
  | None => Ok mmap_reset
  | Some entries =>
      loop (S (length entries))
        (λ '(i, m),
           if (i <? zlen entries) && (region_count m <? MMAP_MAX_REGIONS) then
             entry ← zget entries i;
             m' ← match entry with
                  | None => Ok m
                  | Some e =>
                      if e_length e =? 0 then Ok m
                      else '(_, m') ← mmap_add_region m (e_base e) (e_length e)
                                        (mmap_type_from_limine (e_type e));
                           Ok m'
                  end;
             Ok (inl (i + 1, m'))
           else Ok (inr m)) (0, mmap_reset)
  end.

Definition mmap_region_count (m : mmap_t) : Z := region_count m.

Definition mmap_region_at (m : mmap_t) (index : Z) : outcome (option mmap_region_t) :=
  if index <? region_count m then r ← zget (regions m) index; Ok (Some r) else Ok None.

Definition mmap_total_usable (m : mmap_t) : outcome Z :=
  for_each 0 (region_count m)
    (λ i total,
       r ← zget (regions m) i;
       if bool_decide (type r = MMAP_REGION_USABLE) || bool_decide (type r = MMAP_REGION_BOOTLOADER)
       then Ok (u64 (total + length_ r)) else Ok total) 0.

Definition mmap_highest_addr (m : mmap_t) : outcome Z :=
  for_each 0 (region_count m)
    (λ i highest,
       r ← zget (regions m) i;
       let end_ := u64 (base r + length_ r) in
       Ok (if highest <? end_ then end_ else highest)) 0.

(** ** [init_memory]: handing the map to the frame allocator

    [kernel_virtual_end] is the linker symbol [__kernel_virtual_end], and
    [module0] what [multiboot2_module(0, ...)] found. *)
Definition init_frames (m : mmap_t) (kernel_virtual_end : Z) (module0 : option (Z * Z))
    (s : pmm_t) : outcome pmm_t :=
  if 0 <? mmap_region_count m then
    top ← mmap_highest_addr m;
    s ← pmm_init s top;
    s ← for_each 0 (mmap_region_count m)
          (λ index s,
             region ← mmap_region_at m index;
             match region with
             | None => Undef
             | Some r =>
                 if bool_decide (type r = MMAP_REGION_USABLE)
                 then pmm_mark_usable s (base r) (length_ r)
                 else pmm_mark_reserved s (base r) (length_ r)
             end) s;
    let kernel_start := 0x100000 in
    let kernel_end := u64 (kernel_virtual_end - 0xffffffff80000000) in
    s ← pmm_mark_reserved s 0 0x100000;
    s ← pmm_mark_reserved s kernel_start (u64 (kernel_end - kernel_start));
    match module0 with
    | Some (module_address, module_size) => pmm_mark_reserved s module_address module_size
    | None => Ok s
    end
  else pmm_init s 0.

(** ** Well-formed maps *)

(** The regions recorded so far are non-empty 64-bit ranges that end below the
    last page of the address space. *)
Definition region_ok (r : mmap_region_t) : Prop :=
  0 ≤ base r ∧ 0 < length_ r ∧ base r + length_ r ≤ 2 ^ 64 - 4096.

Definition mmap_inv (m : mmap_t) : Prop :=
  zlen (regions m) = MMAP_MAX_REGIONS ∧ 0 ≤ region_count m ≤ MMAP_MAX_REGIONS ∧
  ∀ i r, (i < Z.to_nat (region_count m))%nat → regions m !! i = Some r → region_ok r.

(** The recorded regions, in order. *)
Definition recorded (m : mmap_t) : list mmap_region_t := take (Z.to_nat (region_count m)) (regions m).

Definition entry_ok (e : limine_memmap_entry) : Prop :=
  0 ≤ e_base e ∧ 0 ≤ e_length e ∧ e_base e + e_length e ≤ 2 ^ 64 - 4096.

(** The regions a limine response describes: its non-empty entries. *)
Definition entry_regions (es : list (option limine_memmap_entry)) : list mmap_region_t :=
  omap (λ e, e ← e; if e_length e =? 0 then None
             else Some {| base := e_base e; length_ := e_length e;
                          type := mmap_type_from_limine (e_type e) |}) es.

Lemma mmap_reset_inv : mmap_inv mmap_reset.
Proof. split; [done|]. split; [by compute|]. simpl. intros; lia. Qed.

Lemma recorded_add m r rs :
  mmap_inv m → region_count m < MMAP_MAX_REGIONS →
  rs = <[Z.to_nat (region_count m) := r]> (regions m) → region_ok r →
  let m' := {| regions := rs; region_count := region_count m + 1 |} in
  mmap_inv m' ∧ recorded m' = recorded m ++ [r].
Proof.
  intros (Hl & Hc & Hr) Hlt -> Hok. unfold MMAP_MAX_REGIONS, zlen in *. split.
  - split; [simpl; by rewrite zlen_insert|]. split; [unfold MMAP_MAX_REGIONS; simpl; lia|].
    intros i r' Hi Hlk; simpl in *.
    destruct (decide (i = Z.to_nat (region_count m))) as [->|].
    + rewrite list_lookup_insert_eq in Hlk by lia. by simplify_eq.
    + rewrite list_lookup_insert_ne in Hlk by done. apply (Hr i); [lia|done].
  - unfold recorded; simpl.
    replace (Z.to_nat (region_count m + 1)) with (S (Z.to_nat (region_count m))) by lia.
    rewrite (take_S_r _ _ r) by (apply list_lookup_insert_eq; lia).
    by rewrite take_insert_ge by lia.
Qed.

Lemma length_recorded m : mmap_inv m → length (recorded m) = Z.to_nat (region_count m).
Proof. intros (Hl & Hc & _). unfold recorded, zlen in *. rewrite length_take. lia. Qed.

(** mmap_init_from_limine records the non-empty entries in order, with their types, up to the
    limit of 128. *)
Theorem mmap_init_from_limine_correct es :
  Forall (λ e, from_option entry_ok True e) es →
  mmap_init_from_limine (Some es) ⇓ λ m,
    mmap_inv m ∧ recorded m = take (Z.to_nat MMAP_MAX_REGIONS) (entry_regions es).
Proof.
  intros Hes. unfold mmap_init_from_limine.
  apply (wp_loop
    (λ '(i, m), 0 ≤ i ≤ zlen es ∧ mmap_inv m ∧
                recorded m = entry_regions (take (Z.to_nat i) es))
    (λ '(i, _), Z.to_nat (zlen es - i))).
  - intros [i m] (Hi & Hinv & Hrec). pose proof (length_recorded m Hinv) as Hlen.
    pose proof Hinv as (Hl & Hc & Hok).
    destruct (Z.ltb_spec i (zlen es)) as [Hlt|Hge]; simpl.
    + destruct (Z.ltb_spec (region_count m) MMAP_MAX_REGIONS) as [Hroom|Hfull].
      * apply wp_bind, wp_zget; [lia|]. intros e He. apply wp_bind.
        assert (entry_regions (take (Z.to_nat (i + 1)) es) =
                entry_regions (take (Z.to_nat i) es) ++ entry_regions [e]) as Hstep.
        { replace (Z.to_nat (i + 1)) with (S (Z.to_nat i)) by lia.
          rewrite (take_S_r _ _ e) by done. apply omap_app. }
        pose proof (Forall_lookup_1 _ _ _ _ Hes He) as Hee.
        destruct e as [e|]; simpl in Hee.
        -- unfold entry_regions in Hstep at 3; simpl in Hstep.
           destruct (Z.eqb_spec (e_length e) 0) as [Hz|Hnz].
           ++ do 2 apply wp_ok. split; [|lia]. split; [lia|]. split; [done|].
              by rewrite Hstep, app_nil_r.
           ++ unfold mmap_add_region. rewrite (proj2 (Z.eqb_neq _ _) Hnz).
              rewrite (proj2 (Z.leb_gt _ _) Hroom). simpl. do 2 apply wp_bind.
              apply wp_zset; [unfold zlen in *; lia|]. do 3 apply wp_ok.
              unfold MMAP_MAX_REGIONS in *. rewrite u64_small by lia.
              destruct Hee as (? & ? & ?).
              edestruct (recorded_add m {| base := e_base e; length_ := e_length e;
                  type := mmap_type_from_limine (e_type e) |}) as [Hinv' Hrec'];
                [done|done|reflexivity|split_and!; simpl; lia|].
              split; [|lia]. split; [lia|]. split; [exact Hinv'|].
              by rewrite Hrec', Hstep, Hrec.
        -- do 2 apply wp_ok. split; [|lia]. split; [lia|]. split; [done|].
           by rewrite Hstep, app_nil_r.
      * apply wp_ok. split; [done|]. rewrite Hrec.
        assert (es = take (Z.to_nat i) es ++ drop (Z.to_nat i) es) as Hsp by (by rewrite take_drop).
        rewrite Hsp at 2. unfold entry_regions. rewrite omap_app.
        fold (entry_regions (take (Z.to_nat i) es)). rewrite <-Hrec, take_app_length'; [done|].
        unfold MMAP_MAX_REGIONS in *. lia.
    + apply wp_ok. split; [done|]. rewrite Hrec. rewrite (take_ge es) by (unfold zlen in *; lia).
      rewrite take_ge; [done|]. rewrite <-(take_ge es (Z.to_nat i)) by (unfold zlen in *; lia).
      rewrite <-Hrec, Hlen. unfold MMAP_MAX_REGIONS in *. lia.
  - split; [unfold zlen; lia|]. split; [apply mmap_reset_inv|done].
  - unfold zlen. lia.
Qed.

Lemma mmap_init_from_limine_correct_witness :
  let es := [Some {| e_base := 0; e_length := 0x80000; e_type := 0 |}; None;
             Some {| e_base := 0x100000; e_length := 0; e_type := 1 |};
             Some {| e_base := 0x200000; e_length := 0x1000; e_type := 5 |}] in
  mmap_init_from_limine (Some es) ⇓ λ m, mmap_inv m ∧ region_count m = 2.
Proof.
  intros es. eapply wp_mono.
  { apply (mmap_init_from_limine_correct es).
    repeat constructor; unfold entry_ok; simpl; lia. }
  intros m [Hinv Hrec]. split; [done|]. pose proof (length_recorded m Hinv) as Hl.
  rewrite Hrec in Hl. change (2%nat = Z.to_nat (region_count m)) in Hl. lia.
Defined.

(** ** Which frames boot makes available *)

(** The byte range [lo, hi) and frame [i] share an address. *)
Definition overlaps (i : nat) (lo hi : Z) : Prop :=
  Z.of_nat i * PMM_FRAME_SIZE < hi ∧ lo < (Z.of_nat i + 1) * PMM_FRAME_SIZE.

(** Frame [i] lies inside a recorded usable region. *)
Definition in_usable (m : mmap_t) (i : nat) : Prop :=
  ∃ r, r ∈ recorded m ∧ type r = MMAP_REGION_USABLE ∧
       base r ≤ Z.of_nat i * PMM_FRAME_SIZE ∧
       (Z.of_nat i + 1) * PMM_FRAME_SIZE ≤ base r + length_ r.

Definition only_usable (m : mmap_t) (s : pmm_t) : Prop :=
  ∀ i, used s !! i = Some false → in_usable m i.

Lemma mmap_highest_addr_ok m :
  mmap_inv m → mmap_highest_addr m ⇓ λ top, 0 ≤ top < 2 ^ 64 ∧
    ∀ r, r ∈ recorded m → base r + length_ r ≤ top.
Proof.
  intros Hinv. pose proof Hinv as (Hl & Hc & Hok). unfold mmap_highest_addr.
  unfold MMAP_MAX_REGIONS, zlen in *.
  apply (wp_for_each (λ i top, 0 ≤ top < 2 ^ 64 ∧
           ∀ r, r ∈ take (Z.to_nat i) (regions m) → base r + length_ r ≤ top)).
  - lia.
  - split; [lia|]. intros r Hr. by apply not_elem_of_nil in Hr.
  - intros i top Hi (Ht & Hall). apply wp_bind, wp_zget; [unfold zlen; lia|].
    intros r Hr. destruct (Hok (Z.to_nat i) r) as (? & ? & ?); [lia|done|].
    apply wp_ok. rewrite u64_small by lia.
    replace (Z.to_nat (i + 1)) with (S (Z.to_nat i)) by lia.
    rewrite (take_S_r _ _ r) by done.
    destruct (Z.ltb_spec top (base r + length_ r)); (split; [lia|]);
      intros r' [Hr'| ->%list_elem_of_singleton]%elem_of_app; try lia;
      specialize (Hall r' Hr'); lia.
  - done.
Qed.

(** Marking one recorded region keeps the free frames inside usable regions. *)
Lemma mark_region_ok m r s :
  mmap_inv m → r ∈ recorded m → region_ok r → inv s → only_usable m s →
  (if bool_decide (type r = MMAP_REGION_USABLE)
   then pmm_mark_usable s (base r) (length_ r)
   else pmm_mark_reserved s (base r) (length_ r)) ⇓ λ s', inv s' ∧ only_usable m s'.
Proof.
  intros Hm Hr (Hb & Hl & He) Hinv Hou. case_bool_decide as Ht.
  - eapply wp_mono; [apply mark_usable_exact; (done || lia)|].
    intros s' (Hinv' & _ & Hiff). split; [done|]. intros i [Hi|(_ & H1 & H2)]%Hiff; [by apply Hou|].
    by exists r.
  - eapply wp_mono; [apply mark_reserved_exact; (done || lia)|].
    intros s' (Hinv' & _ & Hiff). split; [done|]. intros i [Hi _]%Hiff. by apply Hou.
Qed.

(** Reserving a range keeps the guarantees so far and adds one more. *)
Lemma reserve_more m s (P : nat → Prop) b l :
  inv s → only_usable m s → (∀ i, used s !! i = Some false → P i) →
  0 ≤ b ≤ 2 ^ 64 - 4096 → 0 < l → b + l ≤ 2 ^ 64 - 4096 →
  pmm_mark_reserved s b l ⇓ λ s', inv s' ∧ only_usable m s' ∧
    (∀ i, used s' !! i = Some false → P i ∧ ¬ overlaps i b (b + l)).
Proof.
  intros Hinv Hou HP Hb Hl Hbl. eapply wp_mono; [by apply mark_reserved_exact|].
  intros s' (Hinv' & _ & Hiff). split; [done|]. split.
  - intros i [Hi _]%Hiff. by apply Hou.
  - intros i [Hi Hno]%Hiff. split; [by apply HP|done].
Qed.

(** After the boot code builds the frame allocator from the memory map, a frame is free only if
    it lies in a usable region and meets neither the first megabyte, nor the kernel image, nor
    the boot module. *)
Theorem init_frames_safe m kernel_virtual_end module0 s :
  mmap_inv m → 0 < region_count m → storage_ok s →
  0xffffffff80000000 + 0x100000 < kernel_virtual_end < 2 ^ 64 →
  (∀ a n, module0 = Some (a, n) → 0 ≤ a ∧ 0 < n ∧ a + n ≤ 2 ^ 64 - 4096) →
  init_frames m kernel_virtual_end module0 s ⇓ λ s', inv s' ∧
    ∀ i, used s' !! i = Some false →
      in_usable m i ∧ ¬ overlaps i 0 0x100000 ∧
      ¬ overlaps i 0x100000 (kernel_virtual_end - 0xffffffff80000000) ∧
      (∀ a n, module0 = Some (a, n) → ¬ overlaps i a (a + n)).
Proof.
  intros Hm Hpos Hst Hkve Hmod. unfold init_frames, mmap_region_count.
  rewrite (proj2 (Z.ltb_lt _ _) Hpos). apply wp_bind.
  eapply wp_mono; [by apply mmap_highest_addr_ok|]. intros top [Htop _].
  apply wp_bind. eapply wp_mono; [by apply pmm_init_ok|]. intros s0 (Hinv0 & _ & Hu0).
  apply wp_bind. pose proof Hm as (Hl & Hc & Hok). unfold MMAP_MAX_REGIONS, zlen in *.
  apply (wp_for_each (λ _ s, inv s ∧ only_usable m s)); [lia| | |].
  { split; [done|]. intros i Hi. rewrite Hu0 in Hi. by apply lookup_replicate in Hi as [? _]. }
  { intros k s1 Hk [Hinv1 Hou1]. unfold mmap_region_at. rewrite (proj2 (Z.ltb_lt k _)) by lia.
    do 2 apply wp_bind. apply wp_zget; [unfold zlen; lia|]. intros r Hr. apply wp_ok.
    apply mark_region_ok; [done| |by eapply Hok; [|done]; lia|done..].
    apply list_elem_of_lookup. exists (Z.to_nat k). unfold recorded.
    by rewrite lookup_take_lt by lia. }
  intros s1 [Hinv1 Hou1]. apply wp_bind.
  eapply wp_mono; [apply (reserve_more m s1 (λ _, True)); (done || lia)|].
  intros s2 (Hinv2 & Hou2 & HP2). rewrite (u64_small (kernel_virtual_end - _)) by lia.
  rewrite (u64_small (_ - 0x100000)) by lia. apply wp_bind.
  eapply wp_mono; [apply (reserve_more m s2 _ _ _ Hinv2 Hou2 HP2); lia|].
  intros s3 (Hinv3 & Hou3 & HP3).
  replace (0x100000 + (kernel_virtual_end - 0xffffffff80000000 - 0x100000))
    with (kernel_virtual_end - 0xffffffff80000000) in HP3 by lia.
  destruct module0 as [[a n]|].
  - destruct (Hmod a n eq_refl) as (? & ? & ?).
    eapply wp_mono; [apply (reserve_more m s3 _ _ _ Hinv3 Hou3 HP3); lia|].
    intros s4 (Hinv4 & Hou4 & HP4). split; [done|]. intros i Hi.
    destruct (HP4 i Hi) as [[[_ ?] ?] ?]. split_and!; [by apply Hou4|done..|].
    intros a' n' [= <- <-]. done.
  - apply wp_ok. split; [done|]. intros i Hi. destruct (HP3 i Hi) as [[_ ?] ?].
    split_and!; [by apply Hou3|done..].
Qed.

Lemma init_frames_safe_witness :
  let r := {| base := 0; length_ := 0x400000; type := MMAP_REGION_USABLE |} in
  let m := {| regions := r :: replicate 127 zero_region; region_count := 1 |} in
  init_frames m 0xffffffff80180000 (Some (0x200000, 5000)) pmm_boot ⇓ λ s,
    inv s ∧ used s !! 0%nat ≠ Some false ∧ used s !! 0x201%nat ≠ Some false.
Proof.
  intros r m. eapply wp_mono.
  { apply (init_frames_safe m 0xffffffff80180000 (Some (0x200000, 5000)) pmm_boot).
    - split; [done|]. split; [by compute|]. intros [|i] r' Hi Hr; [|simpl in Hi; lia].
      simplify_eq/=. split_and!; simpl; lia.
    - simpl; lia.
    - apply boot_storage_ok.
    - lia.
    - intros a n [= <- <-]. lia. }
  intros s [Hinv Hall]. split; [done|]. split.
  - intros H. destruct (Hall _ H) as (_ & Hn & _). apply Hn. unfold overlaps, PMM_FRAME_SIZE. lia.
  - intros H. destruct (Hall _ H) as (_ & _ & _ & Hn). apply (Hn _ _ eq_refl).
    unfold overlaps, PMM_FRAME_SIZE. lia.
Defined.

End Mmap.
