(* ===== verification/RingBuf.v ===== *)
(** Byte rings: the generic ring buffer (kernel/lib/ring_buf.c) and the kernel
    log (kernel/lib/klog.c).

    [Fifo] is what they promise: a queue of bytes.  [RingBuf.repr] and
    [Klog.repr] relate the C structures to it. *)
From S2P Require Import Prelude Ring.

Module RingBuf.

Record ring_buf_t := {
  data : option (list Z); capacity : Z; head : Z; tail : Z; count : Z
}.

Definition ring_buf_init (ring : option ring_buf_t) (storage : option (list Z)) (cap : Z)
  : option ring_buf_t :=
  match ring with
  | None => None
  | Some _ => Some {| data := storage; capacity := cap; head := 0; tail := 0; count := 0 |}
  end.

Definition ring_buf_reset (ring : option ring_buf_t) : option ring_buf_t :=
  match ring with
  | None => None
  | Some r => Some {| data := data r; capacity := capacity r; head := 0; tail := 0; count := 0 |}
  end.

Definition ring_buf_capacity (ring : option ring_buf_t) : Z :=
  match ring with Some r => capacity r | None => 0 end.

Definition ring_buf_size (ring : option ring_buf_t) : Z :=
  match ring with Some r => count r | None => 0 end.

Definition ring_buf_space (ring : option ring_buf_t) : Z :=
  match ring with Some r => u64 (capacity r - count r) | None => 0 end.

Definition ring_buf_empty (ring : option ring_buf_t) : bool :=
  match ring with Some r => count r =? 0 | None => true end.

Definition ring_buf_full (ring : option ring_buf_t) : bool :=
  match ring with Some r => (0 <? capacity r) && (count r =? capacity r) | None => false end.

Definition ring_buf_push (ring : option ring_buf_t) (value : Z)
  : outcome (Z * option ring_buf_t) :=
  match ring with
  | Some {| data := Some d; capacity := cap; head := h; tail := t; count := n |} =>
      if ring_buf_full ring then Ok (-1, ring)
      else
        d' ← zset d h value;
        h' ← umod (u64 (h + 1)) cap;
        Ok (0, Some {| data := Some d'; capacity := cap; head := h'; tail := t;
                       count := u64 (n + 1) |})
  | _ => Ok (-1, ring)
  end.

(** [out] is the byte stored through the pointer, if the pointer is not NULL. *)
Definition ring_buf_pop (ring : option ring_buf_t) (out : option Z)
  : outcome (Z * option Z * option ring_buf_t) :=
  match ring with
  | Some {| data := Some d; capacity := cap; head := h; tail := t; count := n |} =>
      if ring_buf_empty ring then Ok (-1, out, ring)
      else
        out' ← match out with None => Ok None | Some _ => b ← zget d t; Ok (Some b) end;
        t' ← umod (u64 (t + 1)) cap;
        Ok (0, out', Some {| data := Some d; capacity := cap; head := h; tail := t';
                             count := u64 (n - 1) |})
  | _ => Ok (-1, out, ring)
  end.

Definition ring_buf_write (ring : option ring_buf_t) (bytes : list Z) (length : Z)
  : outcome (Z * option ring_buf_t) :=
  loop (S (Z.to_nat length))
    (λ '(written, ring),
       if written <? length then
         b ← zget bytes written;
         '(r, ring') ← ring_buf_push ring b;
         if r =? 0 then Ok (inl (u64 (written + 1), ring')) else Ok (inr (written, ring'))
       else Ok (inr (written, ring))) (0, ring).

Definition ring_buf_read (ring : option ring_buf_t) (bytes : list Z) (length : Z)
  : outcome (Z * list Z * option ring_buf_t) :=
  loop (S (Z.to_nat length))
    (λ '(read, bytes, ring),
       if read <? length then
         old ← zget bytes read;
         '(r, out, ring') ← ring_buf_pop ring (Some old);
         match out with
         | None => Undef
         | Some b =>
             bytes' ← zset bytes read b;
             if r =? 0 then Ok (inl (u64 (read + 1), bytes', ring'))
             else Ok (inr (read, bytes', ring'))
         end
       else Ok (inr (read, bytes, ring))) (0, bytes, ring).

(** The ring's contents, oldest byte first. *)
Definition repr (r : ring_buf_t) (q : list Z) : Prop :=
  ∃ d, data r = Some d ∧ Ring.holds d (capacity r) (tail r) q ∧
       count r = zlen q ∧ head r = (tail r + count r) mod capacity r ∧
       zlen d < 2 ^ 63.

Lemma repr_full r q : repr r q → ring_buf_full (Some r) = bool_decide (zlen q = capacity r).
Proof.
  intros (d & Hd & (Hc & _) & Hn & _). unfold ring_buf_full.
  rewrite (proj2 (Z.ltb_lt 0 _)) by lia. simpl. rewrite Hn.
  by destruct (Z.eqb_spec (zlen q) (capacity r)); case_bool_decide.
Qed.

Lemma push_ok r q v :
  repr r q → zlen q < capacity r →
  ring_buf_push (Some r) v ⇓ λ '(st, p), st = 0 ∧ ∃ r', p = Some r' ∧
    repr r' (q ++ [v]) ∧ capacity r' = capacity r.
Proof.
  intros Hr Hlt. pose proof (repr_full r q Hr) as Hfull.
  rewrite bool_decide_eq_false_2 in Hfull by lia.
  destruct Hr as (d & Hd & Hh & Hn & Hhead & Hsz). pose proof Hh as (Hc & Ht & Hq & _).
  destruct r as [dd cap h t n]; simpl in *. subst dd n.
  unfold ring_buf_push. simpl in Hfull. simpl ring_buf_full. rewrite Hfull.
  pose proof (Z.mod_pos_bound (t + zlen q) cap) as Hb.
  assert (0 ≤ zlen q) by (unfold zlen; lia).
  apply wp_bind, wp_zset; [lia|]. rewrite !u64_small by lia. rewrite umod_ok, bind_ok by lia.
  apply wp_ok. split; [done|]. eexists; split; [done|]. simpl.
  split; [|done]. eexists; simpl; split; [done|].
  assert (Z.to_nat h = Ring.slot cap t (zlen q)) as -> by (subst; done).
  split; [by apply Ring.holds_push|].
  split; [unfold zlen; rewrite length_app; simpl; lia|].
  split; [|by rewrite zlen_insert].
  subst h. rewrite Zplus_mod_idemp_l. f_equal. lia.
Qed.

Lemma pop_ok r x q o :
  repr r (x :: q) →
  ring_buf_pop (Some r) (Some o) ⇓ λ '(st, out, p), st = 0 ∧ out = Some x ∧
    ∃ r', p = Some r' ∧ repr r' q ∧ capacity r' = capacity r.
Proof.
  intros (d & Hd & Hh & Hn & Hhead & Hsz). pose proof Hh as (Hc & Ht & Hq & _).
  destruct r as [dd cap h t n]; simpl in *. subst dd.
  apply Ring.holds_pop in Hh as [Hx Hh]. unfold zlen in Hn, Hq; simpl in Hn, Hq.
  unfold ring_buf_pop. simpl ring_buf_empty. rewrite (proj2 (Z.eqb_neq n 0)) by lia.
  do 2 apply wp_bind. apply wp_zget; [lia|]. intros y Hy. simplify_eq.
  apply wp_ok. rewrite (u64_small (t + 1)) by lia. rewrite umod_ok, bind_ok by lia.
  apply wp_ok. do 2 (split; [done|]). eexists; split; [done|]. rewrite u64_small by lia.
  split; [|done]. exists d; simpl. do 2 (split; [done|]).
  split; [unfold zlen; lia|]. split; [|done].
  rewrite Zplus_mod_idemp_l. f_equal. lia.
Qed.

Lemma pop_empty r o :
  repr r [] → ring_buf_pop (Some r) (Some o) = Ok (-1, Some o, Some r).
Proof.
  intros (d & Hd & _ & Hn & _). destruct r as [dd cap h t n]; simpl in *. subst dd.
  unfold ring_buf_pop; simpl. by rewrite Hn.
Qed.

Lemma push_full r q v :
  repr r q → zlen q = capacity r → ring_buf_push (Some r) v = Ok (-1, Some r).
Proof.
  intros Hr He. pose proof (repr_full r q Hr) as Hf. rewrite bool_decide_eq_true_2 in Hf by done.
  destruct Hr as (d & Hd & _). destruct r as [dd cap h t n]; simpl in *. subst dd.
  unfold ring_buf_push; simpl. by rewrite Hf.
Qed.

Lemma write_ok r q bytes len :
  repr r q → 0 ≤ len ≤ zlen bytes → len < 2 ^ 63 →
  let k := Z.min len (capacity r - zlen q) in
  ring_buf_write (Some r) bytes len ⇓ λ '(written, p), written = k ∧
    ∃ r', p = Some r' ∧ repr r' (q ++ take (Z.to_nat k) bytes) ∧ capacity r' = capacity r.
Proof.
  intros Hr Hlen Hmax k. unfold ring_buf_write.
  assert (zlen q ≤ capacity r) as Hq by (destruct Hr as (d & _ & (_ & _ & ? & _) & _); done).
  assert (0 ≤ zlen q) by (unfold zlen; lia).
  apply (wp_loop
    (λ '(w, p), 0 ≤ w ≤ k ∧ ∃ r', p = Some r' ∧ repr r' (q ++ take (Z.to_nat w) bytes) ∧
                capacity r' = capacity r)
    (λ '(w, _), Z.to_nat (len - w))).
  - intros [w p] (Hw & r' & -> & Hr' & Hcap). unfold zlen in Hlen.
    assert (zlen (q ++ take (Z.to_nat w) bytes) = zlen q + w) as Hl.
    { unfold zlen. rewrite length_app, length_take. lia. }
    destruct (Z.ltb_spec w len) as [Hlt|Hge].
    + apply wp_bind, wp_zget; [unfold zlen; lia|]. intros b Hb. apply wp_bind.
      destruct (decide (zlen q + w < capacity r)) as [Hroom|Hfull].
      * eapply wp_mono; [apply push_ok; [done|lia]|].
        intros [st p] (-> & r'' & -> & Hr'' & Hcap''). simpl. apply wp_ok.
        rewrite u64_small by lia. split; [|lia]. split; [lia|]. exists r''. split; [done|].
        replace (Z.to_nat (w + 1)) with (S (Z.to_nat w)) by lia.
        rewrite (take_S_r _ _ b), app_assoc by done. split; [done|congruence].
      * rewrite (push_full r' _ b Hr') by lia. apply wp_ok. simpl. apply wp_ok.
        split; [lia|]. assert (w = k) as -> by lia. eauto.
    + apply wp_ok. split; [lia|]. assert (w = k) as -> by lia. eauto.
  - split; [lia|]. exists r. split; [done|]. by rewrite app_nil_r.
  - lia.
Qed.

Lemma read_ok r q bytes len :
  repr r q → 0 ≤ len ≤ zlen bytes → len < 2 ^ 63 →
  let k := Z.min len (zlen q) in
  ring_buf_read (Some r) bytes len ⇓ λ '(read, out, p), read = k ∧
    out = take (Z.to_nat k) q ++ drop (Z.to_nat k) bytes ∧
    ∃ r', p = Some r' ∧ repr r' (drop (Z.to_nat k) q) ∧ capacity r' = capacity r.
Proof.
  intros Hr Hlen Hmax k. unfold ring_buf_read. assert (0 ≤ zlen q) by (unfold zlen; lia).
  apply (wp_loop
    (λ '(w, out, p), 0 ≤ w ≤ k ∧ out = take (Z.to_nat w) q ++ drop (Z.to_nat w) bytes ∧
       ∃ r', p = Some r' ∧ repr r' (drop (Z.to_nat w) q) ∧ capacity r' = capacity r)
    (λ '(w, _, _), Z.to_nat (len - w))).
  - intros [[w out] p] (Hw & -> & r' & -> & Hr' & Hcap). unfold zlen in *.
    assert (length (take (Z.to_nat w) q) = Z.to_nat w) as Hlt by (rewrite length_take; lia).
    destruct (Z.ltb_spec w len) as [Hwl|Hge].
    + apply wp_bind, wp_zget.
      { unfold zlen. rewrite length_app, Hlt, length_drop. lia. }
      intros old Hold. apply wp_bind.
      destruct (drop (Z.to_nat w) q) as [|x q'] eqn:Hd.
      * rewrite pop_empty by done. apply wp_ok, wp_bind. rewrite zset_ok.
        2:{ unfold zlen. rewrite length_app, Hlt, length_drop. lia. }
        apply wp_ok. simpl. apply wp_ok.
        assert (w = k) as ->.
        { apply (f_equal length) in Hd. rewrite length_drop in Hd. simpl in Hd. lia. }
        rewrite list_insert_id by done. split_and!; [done..|]. exists r'. by rewrite Hd.
      * eapply wp_mono; [by apply pop_ok|].
        intros [[st out'] p'] (-> & -> & r'' & -> & Hr'' & Hcap'').
        apply wp_bind, wp_zset.
        { unfold zlen. rewrite length_app, Hlt, length_drop. lia. }
        simpl. apply wp_ok. rewrite u64_small by lia.
        assert (q !! Z.to_nat w = Some x) as Hqx.
        { rewrite <-(Nat.add_0_r (Z.to_nat w)), <-lookup_drop, Hd. done. }
        assert (Z.to_nat w < length q)%nat by (by eapply lookup_lt_Some).
        replace (Z.to_nat (w + 1)) with (S (Z.to_nat w)) by lia.
        split; [|lia]. split; [lia|]. split; [|exists r''; split; [done|split; [|congruence]]].
        -- rewrite (take_S_r _ _ x) by done.
           rewrite insert_app_r_alt by lia. rewrite Hlt, Nat.sub_diag.
           destruct (drop (Z.to_nat w) bytes) as [|b bs] eqn:Hb.
           { apply (f_equal length) in Hb. rewrite length_drop in Hb. simpl in Hb. lia. }
           simpl. rewrite <-app_assoc. simpl. do 2 f_equal.
           rewrite <-Nat.add_1_r, <-drop_drop, Hb. done.
        -- rewrite <-Nat.add_1_r, <-drop_drop, Hd. done.
    + apply wp_ok. assert (w = k) as -> by lia. split_and!; [done..|]. eauto.
  - split; [unfold zlen; lia|]. split; [done|]. eauto.
  - lia.
Qed.

Lemma init_repr storage cap r0 :
  0 < cap ≤ zlen storage → zlen storage < 2 ^ 63 →
  ∃ r, ring_buf_init (Some r0) (Some storage) cap = Some r ∧ repr r [] ∧ capacity r = cap.
Proof.
  intros Hc Hs. eexists; split; [done|]. split; [|done]. exists storage; simpl.
  split; [done|]. split; [by apply Ring.holds_nil; lia|]. split_and!; [done| |done].
  by rewrite Z.mod_0_l by lia.
Qed.

(** ** The abstract queue *)

(** Calls a client makes, and what it sees of them. *)
Inductive call := Write (bytes : list Z) | Read (n : nat) | Reset | Size | Space.
Inductive seen := Written (n : Z) | Got (bytes : list Z) | Done | Value (n : Z).

(** A queue of at most [cap] bytes. *)
Definition fifo_call (cap : Z) (c : call) (q : list Z) : seen * list Z :=
  match c with
  | Write bytes =>
      let k := Z.min (zlen bytes) (cap - zlen q) in
      (Written k, q ++ take (Z.to_nat k) bytes)
  | Read n => (Got (take n q), drop n q)
  | Reset => (Done, [])
  | Size => (Value (zlen q), q)
  | Space => (Value (cap - zlen q), q)
  end.

Fixpoint fifo_calls (cap : Z) (cs : list call) (q : list Z) : list seen :=
  match cs with
  | [] => []
  | c :: cs => let '(o, q') := fifo_call cap c q in o :: fifo_calls cap cs q'
  end.

(** The same calls made on a ring: [Read n] reads into a buffer of [n] bytes. *)
Definition ring_call (c : call) (ring : option ring_buf_t)
  : outcome (seen * option ring_buf_t) :=
  match c with
  | Write bytes => '(k, ring') ← ring_buf_write ring bytes (zlen bytes); Ok (Written k, ring')
  | Read n => '(k, out, ring') ← ring_buf_read ring (replicate n 0) (Z.of_nat n);
              Ok (Got (take (Z.to_nat k) out), ring')
  | Reset => Ok (Done, ring_buf_reset ring)
  | Size => Ok (Value (ring_buf_size ring), ring)
  | Space => Ok (Value (ring_buf_space ring), ring)
  end.

Fixpoint ring_calls (cs : list call) (ring : option ring_buf_t) : outcome (list seen) :=
  match cs with
  | [] => Ok []
  | c :: cs => '(o, ring') ← ring_call c ring; os ← ring_calls cs ring'; Ok (o :: os)
  end.

Definition call_ok (c : call) : Prop :=
  match c with
  | Write bytes => zlen bytes < 2 ^ 63
  | Read n => Z.of_nat n < 2 ^ 63
  | _ => True
  end.

Lemma ring_call_refines c r q :
  repr r q → call_ok c →
  ring_call c (Some r) ⇓ λ '(o, p), ∃ r', p = Some r' ∧ capacity r' = capacity r ∧
    fifo_call (capacity r) c q = (o, (fifo_call (capacity r) c q).2) ∧
    repr r' (fifo_call (capacity r) c q).2.
Proof.
  intros Hr Hc. pose proof Hr as (d & Hd & Hh & Hn & Hhd & Hsz). pose proof Hh as (Hcap & Ht & Hq & _).
  assert (0 ≤ zlen q) by (unfold zlen; lia).
  destruct c as [bytes|n| | |]; simpl in *.
  - apply wp_bind. eapply wp_mono; [apply write_ok; [done|unfold zlen; lia|done]|].
    intros [k p] (-> & r' & -> & Hr' & Hcap'). apply wp_ok. eauto.
  - apply wp_bind. eapply wp_mono.
    { apply read_ok; [done|unfold zlen; rewrite length_replicate; lia|done]. }
    intros [[k out] p] (-> & -> & r' & -> & Hr' & Hcap'). apply wp_ok. exists r'.
    do 2 (split; [done|]). unfold zlen in *.
    assert (take (Z.to_nat (Z.min (Z.of_nat n) (Z.of_nat (length q)))) q = take n q) as Htk.
    { rewrite Z2Nat.inj_min, !Nat2Z.id. destruct (decide (n ≤ length q)%nat).
      - by rewrite Nat.min_l.
      - by rewrite Nat.min_r, !take_ge by lia. }
    assert (drop (Z.to_nat (Z.min (Z.of_nat n) (Z.of_nat (length q)))) q = drop n q) as Hdr.
    { rewrite Z2Nat.inj_min, !Nat2Z.id. destruct (decide (n ≤ length q)%nat).
      - by rewrite Nat.min_l.
      - by rewrite Nat.min_r, !drop_ge by lia. }
    rewrite take_app_length' by (rewrite length_take; lia). rewrite Htk. split; [done|].
    by rewrite <-Hdr.
  - apply wp_ok. eexists; split; [done|]. do 2 (split; [done|]). exists d; simpl.
    split; [done|]. split; [by apply Ring.holds_nil; lia|]. split_and!; [done| |done].
    by rewrite Z.mod_0_l by lia.
  - apply wp_ok. exists r. by rewrite Hn.
  - apply wp_ok. exists r. rewrite Hn, u64_small by lia. done.
Qed.

(** Every sequence of write, read, reset, size and space calls on an initialised ring buffer of
    non-zero capacity gives the results of a bounded FIFO of bytes. *)
Theorem ring_buf_refines_fifo r0 storage cap cs :
  0 < cap ≤ zlen storage → zlen storage < 2 ^ 63 → Forall call_ok cs →
  ring_calls cs (ring_buf_init (Some r0) (Some storage) cap) = Ok (fifo_calls cap cs []).
Proof.
  intros Hc Hs Hcs. destruct (init_repr storage cap r0 Hc Hs) as (r & -> & Hr & Hcap).
  clear r0 Hc Hs storage. revert r Hr Hcap. generalize (@nil Z) as q.
  induction Hcs as [|c cs Hok Hcs IH]; intros q r Hr Hcap; simpl; [done|].
  destruct (ring_call_refines c r q Hr Hok) as ([o p] & -> & r' & -> & Hcap' & Ho & Hr').
  rewrite bind_ok. rewrite Hcap in *. rewrite Ho. by rewrite (IH _ r') by (done || congruence).
Qed.

Definition blank : ring_buf_t :=
  {| data := None; capacity := 0; head := 0; tail := 0; count := 0 |}.

Lemma ring_buf_refines_fifo_witness :
  ring_calls [Write [1; 2; 3]; Read 2; Write [4; 5; 6; 7]; Size; Read 9]
             (ring_buf_init (Some blank) (Some [0; 0; 0; 0]) 4)
  = Ok [Written 3; Got [1; 2]; Written 3; Value 4; Got [3; 4; 5; 6]].
Proof.
  apply (ring_buf_refines_fifo blank [0; 0; 0; 0] 4
           [Write [1; 2; 3]; Read 2; Write [4; 5; 6; 7]; Size; Read 9]).
  - by compute.
  - by compute.
  - repeat constructor; by compute.
Defined.

(** A ring buffer initialised with capacity 0 makes the first push divide by zero. *)
Theorem ring_buf_zero_capacity_undefined r0 storage v :
  ring_buf_push (ring_buf_init (Some r0) (Some storage) 0) v = Undef.
Proof. simpl. unfold zset. by case_decide. Qed.

End RingBuf.

(** The kernel log: a byte ring that forgets its oldest byte when full. *)
Module Klog.

Definition KLOG_CAPACITY : Z := 16 * 1024.

Record klog_t := { storage : list Z; start : Z; length_ : Z }.

Definition klog_clear (k : klog_t) : klog_t :=
  {| storage := storage k; start := 0; length_ := 0 |}.

Definition klog_putc (k : klog_t) (ch : Z) : outcome klog_t :=
  if length_ k <? KLOG_CAPACITY then
    s ← zset (storage k) (u64 (start k + length_ k) mod KLOG_CAPACITY) ch;
    Ok {| storage := s; start := start k; length_ := u64 (length_ k + 1) |}
  else
    s ← zset (storage k) (start k) ch;
    Ok {| storage := s; start := u64 (start k + 1) mod KLOG_CAPACITY; length_ := length_ k |}.

(** [out] is the caller's buffer; the result pairs the count with the buffer. *)
Definition klog_read (k : klog_t) (offset : Z) (out : option (list Z)) (count : Z)
  : outcome (Z * option (list Z)) :=
  match out with
  | None => Ok (0, None)
  | Some buf =>
      if length_ k <=? offset then Ok (0, out)
      else
        let count := if u64 (length_ k - offset) <? count then u64 (length_ k - offset) else count in
        buf' ← for_each 0 count
                 (λ index buf,
                    c ← zget (storage k) (u64 (start k + offset + index) mod KLOG_CAPACITY);
                    zset buf index c) buf;
        Ok (count, Some buf')
  end.

Definition klog_size (k : klog_t) : Z := length_ k.

(** The log holds [q], oldest byte first. *)
Definition repr (k : klog_t) (q : list Z) : Prop :=
  zlen (storage k) = KLOG_CAPACITY ∧ length_ k = zlen q ∧
  Ring.holds (storage k) KLOG_CAPACITY (start k) q.

Fixpoint klog_puts (k : klog_t) (text : list Z) : outcome klog_t :=
  match text with [] => Ok k | c :: text => k' ← klog_putc k c; klog_puts k' text end.

(** The last [KLOG_CAPACITY] elements. *)
Definition recent (q : list Z) : list Z := drop (length q - Z.to_nat KLOG_CAPACITY) q.

Lemma klog_putc_ok k q c :
  repr k q → klog_putc k c ⇓ λ k', repr k' (recent (q ++ [c])).
Proof.
  intros (Hs & Hl & Hh). pose proof Hh as (Hc & Hst & Hq & _).
  assert (0 ≤ zlen q) by (unfold zlen; lia).
  assert (KLOG_CAPACITY = 16384) as HK by done.
  unfold klog_putc. destruct (Z.ltb_spec (length_ k) KLOG_CAPACITY) as [Hlt|Hge].
  - rewrite u64_small by lia.
    apply wp_bind, wp_zset; [rewrite Hs; apply Z.mod_pos_bound; lia|].
    apply wp_ok. rewrite u64_small by lia.
    assert (recent (q ++ [c]) = q ++ [c]) as ->.
    { unfold recent. replace (_ - _)%nat with 0%nat; [done|].
      rewrite length_app. unfold zlen in *. simpl. lia. }
    split; [simpl; by rewrite zlen_insert|]. rewrite Hl in Hlt |- *.
    split; [unfold zlen; rewrite length_app; simpl; lia|]. by apply Ring.holds_push.
  - apply wp_bind, wp_zset; [lia|]. apply wp_ok. rewrite u64_small by lia.
    destruct q as [|x q]; [unfold zlen in *; simpl in *; lia|].
    assert (recent ((x :: q) ++ [c]) = q ++ [c]) as ->.
    { unfold recent. replace (_ - _)%nat with 1%nat; [done|].
      rewrite length_app. unfold zlen in *. simpl in *. lia. }
    split; [simpl; by rewrite zlen_insert|].
    split; [rewrite Hl; unfold zlen; rewrite length_app; simpl; lia|].
    apply (Ring.holds_rotate _ _ _ x); [done|]. lia.
Qed.

Lemma recent_app q q' : recent (recent q ++ q') = recent (q ++ q').
Proof.
  unfold recent. rewrite !length_app, length_drop.
  set (K := Z.to_nat KLOG_CAPACITY). clearbody K.
  destruct (decide (length q ≤ K)%nat) as [Hle|Hgt].
  - replace (length q - K)%nat with 0%nat by lia. by rewrite drop_0, Nat.sub_0_r.
  - rewrite !drop_app, drop_drop, length_drop. f_equal; f_equal; lia.
Qed.

Lemma klog_puts_ok text k q :
  repr k (recent q) → klog_puts k text ⇓ λ k', repr k' (recent (q ++ text)).
Proof.
  revert k q. induction text as [|c text IH]; intros k q Hr; simpl.
  - apply wp_ok. by rewrite app_nil_r.
  - apply wp_bind. eapply wp_mono; [by apply klog_putc_ok|]. intros k' Hk'.
    rewrite recent_app in Hk'. eapply wp_mono; [by apply IH|].
    intros k'' Hk''. by rewrite <-app_assoc in Hk''.
Qed.

Lemma klog_read_ok k q offset buf count :
  repr k q → 0 ≤ offset < 2 ^ 63 → 0 ≤ count ≤ zlen buf →
  let n := Z.min count (zlen q - offset) in
  klog_read k offset (Some buf) count ⇓ λ '(r, out), r = Z.max 0 n ∧
    out = Some (take (Z.to_nat n) (drop (Z.to_nat offset) q) ++ drop (Z.to_nat n) buf).
Proof.
  intros (Hs & Hl & Hh) Ho Hc n. pose proof Hh as (Hcap & Hst & Hq & _).
  assert (0 ≤ zlen q) by (unfold zlen; lia).
  assert (KLOG_CAPACITY = 16384) as HK by done. unfold klog_read.
  destruct (Z.leb_spec (length_ k) offset) as [Hge|Hlt].
  { apply wp_ok. split; [lia|]. by replace (Z.to_nat n) with 0%nat by lia. }
  rewrite (u64_small (length_ k - offset)) by lia.
  assert ((if length_ k - offset <? count then length_ k - offset else count) = n) as ->.
  { destruct (Z.ltb_spec (length_ k - offset) count); lia. }
  apply wp_bind.
  apply (wp_for_each (λ i out, 0 ≤ i ≤ n ∧
           out = take (Z.to_nat i) (drop (Z.to_nat offset) q) ++ drop (Z.to_nat i) buf)).
  - lia.
  - split; [lia|done].
  - intros i out Hi (_ & ->). rewrite u64_small by lia. unfold zlen in *.
    apply wp_bind, wp_zget; [unfold zlen; rewrite Hs; apply Z.mod_pos_bound; lia|].
    intros c Hcl.
    assert (q !! (Z.to_nat offset + Z.to_nat i)%nat = Some c) as Hqc.
    { rewrite <-Hcl, <-(Ring.holds_lookup _ _ _ _ _ Hh) by lia. unfold Ring.slot.
      do 3 f_equal. lia. }
    assert (length (take (Z.to_nat i) (drop (Z.to_nat offset) q)) = Z.to_nat i) as Hlt'.
    { rewrite length_take, length_drop. lia. }
    apply wp_zset; [unfold zlen; rewrite length_app, Hlt', length_drop; lia|].
    split; [lia|]. replace (Z.to_nat (i + 1)) with (S (Z.to_nat i)) by lia.
    rewrite (take_S_r _ _ c) by (by rewrite lookup_drop).
    rewrite insert_app_r_alt by lia. rewrite Hlt', Nat.sub_diag.
    destruct (drop (Z.to_nat i) buf) as [|b bs] eqn:Hb.
    { apply (f_equal length) in Hb. rewrite length_drop in Hb. simpl in Hb. lia. }
    simpl. rewrite <-app_assoc. simpl. do 2 f_equal.
    rewrite <-Nat.add_1_r, <-drop_drop, Hb. done.
  - intros out (_ & ->). apply wp_ok. split; [lia|done].
Qed.

(** Reading the kernel log after any text was written gives the requested part of the last 16
    KiB of that text. *)
Theorem klog_keeps_recent k text offset buf count :
  zlen (storage k) = KLOG_CAPACITY → 0 ≤ offset < 2 ^ 63 → 0 ≤ count ≤ zlen buf →
  (k' ← klog_puts (klog_clear k) text; klog_read k' offset (Some buf) count) ⇓ λ '(r, out),
    let n := Z.max 0 (Z.min count (zlen (recent text) - offset)) in
    r = n ∧ out = Some (take (Z.to_nat n) (drop (Z.to_nat offset) (recent text))
                        ++ drop (Z.to_nat n) buf).
Proof.
  intros Hk Ho Hc. apply wp_bind. eapply wp_mono.
  { apply (klog_puts_ok text _ []). split; [done|]. split; [done|].
    apply Ring.holds_nil; simpl; unfold KLOG_CAPACITY in *; lia. }
  intros k' Hk'. simpl in Hk'. eapply wp_mono; [by apply klog_read_ok|].
  intros [r out] [-> ->]. split; [done|]. do 3 f_equal; lia.
Qed.

Lemma klog_keeps_recent_witness :
  let k := {| storage := replicate (Z.to_nat KLOG_CAPACITY) 0; start := 5; length_ := 9 |} in
  (k' ← klog_puts (klog_clear k) [104; 105; 33]; klog_read k' 1 (Some [0; 0; 0; 7]) 4) ⇓ λ '(r, out),
    r = 2 ∧ out = Some [105; 33; 0; 7].
Proof.
  intros k. eapply wp_mono.
  { apply (klog_keeps_recent k [104; 105; 33] 1 [0; 0; 0; 7] 4); [by vm_compute|lia|by compute]. }
  intros [r out] [-> ->]. by vm_compute.
Defined.

End Klog.
