(* ===== verification/KString.v ===== *)
(** Memory and string routines (kernel/lib/string.c).

    Memory is a list of bytes and a pointer an offset into it.  [memcpy] copies
    between distinct objects; [memmove] works inside one object, where source
    and destination may overlap.  A [char *] argument is the list of bytes from
    the pointer to the end of its object; the string it denotes is [is_cstr]. *)
From S2P Require Import Prelude.

Module KString.

Definition memset (mem : list Z) (dest value count : Z) : outcome (list Z) :=
  for_each 0 count (λ i mem, zset mem (dest + i) (u8 value)) mem.

Definition memcpy (dst : list Z) (dest : Z) (src_mem : list Z) (src count : Z)
  : outcome (list Z) :=
  for_each 0 count (λ i dst, b ← zget src_mem (src + i); zset dst (dest + i) b) dst.

Definition memmove (mem : list Z) (dest src count : Z) : outcome (list Z) :=
  if dest <? src then
    for_each 0 count (λ i mem, b ← zget mem (src + i); zset mem (dest + i) b) mem
  else if src <? dest then
    for_each 0 count
      (λ i mem, b ← zget mem (src + count - 1 - i); zset mem (dest + count - 1 - i) b) mem
  else Ok mem.

Definition memcmp (lhs rhs : list Z) (count : Z) : outcome Z :=
  r ← for_loop 0 count
        (λ i (_ : unit),
           a ← zget lhs i; b ← zget rhs i;
           if a =? b then Ok (inl tt) else Ok (inr (a - b))) tt;
  match r with inl _ => Ok 0 | inr d => Ok d end.

Definition strlen (text : option (list Z)) : outcome Z :=
  match text with
  | None => Ok 0
  | Some t =>
      loop (S (length t))
        (λ n, c ← zget t n; if c =? 0 then Ok (inr n) else Ok (inl (u64 (n + 1)))) 0
  end.

Definition strcmp (lhs rhs : list Z) : outcome Z :=
  loop (S (length lhs))
    (λ i, a ← zget lhs i; b ← zget rhs i;
          if negb (a =? 0) && (a =? b) then Ok (inl (i + 1)) else Ok (inr (u8 a - u8 b))) 0.

Definition strcpy (dest src : list Z) : outcome (list Z) :=
  loop (S (length src))
    (λ '(i, dest), c ← zget src i; dest' ← zset dest i c;
                   if c =? 0 then Ok (inr dest') else Ok (inl (i + 1, dest'))) (0, dest).

(** ** Reference descriptions *)

(** [n] bytes of [l] from offset [off]. *)
Definition slice (l : list Z) (off n : Z) : list Z := take (Z.to_nat n) (drop (Z.to_nat off) l).

(** [l] with the bytes from offset [off] replaced by [bs]. *)
Definition splice (l : list Z) (off : Z) (bs : list Z) : list Z :=
  take (Z.to_nat off) l ++ bs ++ drop (Z.to_nat off + length bs) l.

(** The bytes at [buf] are the string [s]: no byte of [s] is NUL, and a NUL ends it. *)
Definition is_cstr (buf s : list Z) : Prop :=
  Forall (λ c, 0 < c < 256) s ∧ ∃ rest, buf = s ++ 0 :: rest.

(** A string as a fresh object. *)
Definition cstr (s : list Z) : list Z := s ++ [0].

Lemma lookup_slice l off n i :
  (i < Z.to_nat n)%nat → slice l off n !! i = l !! (Z.to_nat off + i)%nat.
Proof. intros. unfold slice. by rewrite lookup_take_lt, lookup_drop by done. Qed.

Lemma length_slice l off n :
  0 ≤ off → 0 ≤ n → off + n ≤ zlen l → length (slice l off n) = Z.to_nat n.
Proof. unfold slice, zlen. intros. rewrite length_take, length_drop. lia. Qed.

Lemma length_splice l off bs :
  0 ≤ off → off + zlen bs ≤ zlen l → length (splice l off bs) = length l.
Proof.
  unfold splice, zlen. intros. rewrite !length_app, length_take, length_drop. lia.
Qed.

Lemma lookup_splice l off bs i :
  0 ≤ off → off + zlen bs ≤ zlen l →
  splice l off bs !! i =
  if decide (off ≤ Z.of_nat i < off + zlen bs) then bs !! (i - Z.to_nat off)%nat else l !! i.
Proof.
  unfold splice, zlen. intros Ho Hl. case_decide as Hd.
  - rewrite lookup_app_r by (rewrite length_take; lia). rewrite length_take.
    rewrite Nat.min_l by lia. rewrite lookup_app_l by lia. done.
  - destruct (decide (i < Z.to_nat off)%nat).
    + rewrite lookup_app_l by (rewrite length_take; lia). by rewrite lookup_take_lt.
    + rewrite lookup_app_r by (rewrite length_take; lia). rewrite length_take.
      rewrite lookup_app_r by lia. rewrite lookup_drop. f_equal. lia.
Qed.

(** Storing the byte after those already copied. *)
Lemma splice_snoc l bs k c :
  zlen bs = k → k < zlen l → <[Z.to_nat k := c]> (splice l 0 bs) = splice l 0 (bs ++ [c]).
Proof.
  unfold splice, zlen. intros Hk Hl. simpl. rewrite length_app. simpl.
  destruct (lookup_lt_is_Some_2 l (length bs)) as [x Hx]; [lia|]. rewrite (drop_S l x) by done.
  rewrite insert_app_r_alt by lia. replace (Z.to_nat k - length bs)%nat with 0%nat by lia.
  cbn [insert list_insert]. rewrite <-app_assoc. do 2 f_equal. simpl. f_equal. lia.
Qed.

(** A list that agrees with the copied bytes inside the range and with the old
    bytes outside of it is the splice. *)
Lemma splice_intro l l' off bs :
  0 ≤ off → off + zlen bs ≤ zlen l → length l' = length l →
  (∀ i, (off ≤ Z.of_nat i < off + zlen bs) → l' !! i = bs !! (i - Z.to_nat off)%nat) →
  (∀ i, ¬ (off ≤ Z.of_nat i < off + zlen bs) → l' !! i = l !! i) →
  l' = splice l off bs.
Proof.
  intros Ho Hl Hlen Hin Hout. apply list_eq; intros i.
  rewrite lookup_splice by done. case_decide; auto.
Qed.

(** Copying byte by byte: the state after [i] steps, where step [k] writes the
    byte at offset [dest + k] and reads it from a place not yet overwritten. *)
Lemma copy_loop (step : Z → list Z → outcome (list Z)) (order : Z → Z) mem dest bs :
  0 ≤ dest → dest + zlen bs ≤ zlen mem →
  (∀ i, 0 ≤ i < zlen bs → 0 ≤ order i < zlen bs) →
  (∀ k, 0 ≤ k < zlen bs → ∃ i, 0 ≤ i < zlen bs ∧ order i = k) →
  (∀ i m, 0 ≤ i < zlen bs → length m = length mem →
     (∀ j : nat, (∀ k, 0 ≤ k < i → j ≠ Z.to_nat (dest + order k)) → m !! j = mem !! j) →
     ∃ b, bs !! Z.to_nat (order i) = Some b ∧ step i m = zset m (dest + order i) b) →
  for_each 0 (zlen bs) step mem = Ok (splice mem dest bs).
Proof.
  intros Hd Hl Hord Hsurj Hstep.
  assert (for_each 0 (zlen bs) step mem ⇓ λ m, m = splice mem dest bs) as (m & -> & ->); [|done].
  apply (wp_for_each (λ i m, length m = length mem ∧
    (∀ j : nat, (∀ k, 0 ≤ k < i → j ≠ Z.to_nat (dest + order k)) → m !! j = mem !! j) ∧
    (∀ k, 0 ≤ k < i → m !! Z.to_nat (dest + order k) = bs !! Z.to_nat (order k)))).
  - unfold zlen; lia.
  - split; [done|]. split; [done|]. intros; lia.
  - intros i m Hi (Hlen & Hold & Hnew). destruct (Hstep i m Hi Hlen Hold) as (b & Hb & ->).
    pose proof (Hord i Hi). apply wp_zset; [unfold zlen in *; lia|].
    split; [by rewrite length_insert|]. split.
    + intros j Hj. rewrite list_lookup_insert_ne; [apply Hold|].
      * intros k Hk. apply Hj. lia.
      * intros Heq. by apply (Hj i); [lia|].
    + intros k Hk. destruct (decide (order k = order i)) as [->|Hne].
      * rewrite Hb. apply list_lookup_insert_eq. unfold zlen in *. lia.
      * assert (k ≠ i) by (by intros ->). pose proof (Hord k ltac:(lia)).
        rewrite list_lookup_insert_ne by lia. apply Hnew. lia.
  - intros m (Hlen & Hold & Hnew). apply splice_intro; [done..| |].
    + intros i Hi. destruct (Hsurj (Z.of_nat i - dest)) as (k & Hk & Hok); [lia|].
      specialize (Hnew k ltac:(lia)). rewrite Hok in Hnew.
      replace (Z.to_nat (dest + (Z.of_nat i - dest))) with i in Hnew by lia.
      rewrite Hnew. f_equal. lia.
    + intros i Hi. apply Hold. intros k Hk ->. pose proof (Hord k ltac:(lia)). lia.
Qed.

Lemma memcpy_ok dst dest src_mem src count :
  0 ≤ dest → 0 ≤ src → 0 ≤ count → dest + count ≤ zlen dst → src + count ≤ zlen src_mem →
  memcpy dst dest src_mem src count = Ok (splice dst dest (slice src_mem src count)).
Proof.
  intros Hd Hs Hc Hdl Hsl. pose proof (length_slice src_mem src count) as Hls.
  assert (zlen (slice src_mem src count) = count) as Hz by (unfold zlen in *; lia).
  unfold memcpy. rewrite <-Hz at 1. apply (copy_loop _ (λ i, i)); rewrite ?Hz; [done..|eauto|].
  intros i m Hi Hlen Hold. rewrite lookup_slice by lia.
  destruct (zget_in src_mem (src + i)) as [b Hb]; [lia|]. exists b. split.
  - rewrite <-Hb. f_equal. lia.
  - by rewrite (zget_ok _ _ b) by (done || lia).
Qed.

Lemma memset_ok mem dest value count :
  0 ≤ dest → 0 ≤ count → dest + count ≤ zlen mem →
  memset mem dest value count = Ok (splice mem dest (replicate (Z.to_nat count) (u8 value))).
Proof.
  intros Hd Hc Hl. set (bs := replicate (Z.to_nat count) (u8 value)).
  assert (zlen bs = count) as Hz by (unfold zlen, bs; rewrite length_replicate; lia).
  unfold memset. rewrite <-Hz at 1. apply (copy_loop _ (λ i, i)); rewrite ?Hz; [done..|eauto|].
  intros i m Hi Hlen Hold. exists (u8 value). split; [|done].
  apply lookup_replicate_2. lia.
Qed.

(** memmove within one buffer, with any overlap, equals cutting the source out first and
    pasting it at the destination. *)
Lemma memmove_ok mem dest src count :
  0 ≤ dest → 0 ≤ src → 0 ≤ count → dest + count ≤ zlen mem → src + count ≤ zlen mem →
  memmove mem dest src count = Ok (splice mem dest (slice mem src count)).
Proof.
  intros Hd Hs Hc Hdl Hsl. pose proof (length_slice mem src count) as Hls.
  assert (zlen (slice mem src count) = count) as Hz by (unfold zlen in *; lia).
  unfold memmove. destruct (Z.ltb_spec dest src) as [Hlt|Hge].
  - rewrite <-Hz at 1. apply (copy_loop _ (λ i, i)); rewrite ?Hz; [done..|eauto|].
    intros i m Hi Hlen Hold. rewrite lookup_slice by lia.
    destruct (zget_in mem (src + i)) as [b Hb]; [lia|]. exists b. split.
    + rewrite <-Hb. f_equal. lia.
    + rewrite (zget_ok _ _ b); [done|lia|]. rewrite Hold; [done|]. intros; lia.
  - destruct (Z.ltb_spec src dest) as [Hlt'|Hge'].
    + rewrite <-Hz at 1.
      apply (copy_loop _ (λ i, count - 1 - i)); rewrite ?Hz; [done..|lia| |].
      { intros k Hk. exists (count - 1 - k). lia. }
      intros i m Hi Hlen Hold. rewrite lookup_slice by lia.
      destruct (zget_in mem (src + (count - 1 - i))) as [b Hb]; [lia|]. exists b. split.
      * rewrite <-Hb. f_equal. lia.
      * replace (src + count - 1 - i) with (src + (count - 1 - i)) by lia.
        replace (dest + count - 1 - i) with (dest + (count - 1 - i)) by lia.
        rewrite (zget_ok _ _ b); [done|lia|]. rewrite Hold; [done|]. intros; lia.
    + assert (src = dest) as -> by lia. f_equal. apply splice_intro; rewrite ?Hz; [done..| |done].
      intros i Hi. rewrite lookup_slice by lia. f_equal. lia.
Qed.

(** ** Strings *)

Lemma is_cstr_cstr s : Forall (λ c, 0 < c < 256) s → is_cstr (cstr s) s.
Proof. intros. split; [done|]. by exists []. Qed.

Lemma is_cstr_lookup buf s i :
  is_cstr buf s → (i ≤ length s)%nat →
  buf !! i = Some (default 0 (s !! i)) ∧ (default 0 (s !! i) = 0 ↔ i = length s).
Proof.
  intros [Hs [rest ->]] Hi. destruct (decide (i < length s)%nat) as [Hlt|Hge].
  - destruct (lookup_lt_is_Some_2 s i Hlt) as [c Hc].
    rewrite lookup_app_l, Hc by done. split; [done|]. simpl.
    pose proof (Forall_lookup_1 _ _ _ _ Hs Hc). simpl in *. lia.
  - assert (i = length s) as -> by lia. rewrite (lookup_ge_None_2 s) by lia. simpl.
    by rewrite lookup_app_r, Nat.sub_diag by lia.
Qed.

Lemma is_cstr_zget buf s i :
  is_cstr buf s → 0 ≤ i ≤ zlen s →
  zget buf i = Ok (default 0 (s !! Z.to_nat i)) ∧
  (default 0 (s !! Z.to_nat i) = 0 ↔ i = zlen s).
Proof.
  intros Hc Hi. unfold zlen in *.
  destruct (is_cstr_lookup buf s (Z.to_nat i) Hc ltac:(lia)) as [H1 H2].
  split; [apply zget_ok; [lia|done]|]. rewrite H2. lia.
Qed.

Lemma is_cstr_length buf s : is_cstr buf s → (length s < length buf)%nat.
Proof. intros [_ [rest ->]]. rewrite length_app. simpl. lia. Qed.

(** A buffer holds one string. *)
Lemma is_cstr_unique buf s1 s2 : is_cstr buf s1 → is_cstr buf s2 → s1 = s2.
Proof.
  intros [H1 [r1 ->]] [H2 [r2 Heq]]. revert s2 H2 Heq.
  induction H1 as [|c s1 Hc _ IH]; intros [|d s2] H2 Heq; simpl in *; simplify_eq; [done|..].
  - apply Forall_cons in H2 as [? _]. lia.
  - lia.
  - f_equal. apply Forall_cons in H2 as [_ ?]. by apply IH.
Qed.

Lemma strlen_ok buf s :
  is_cstr buf s → zlen s < 2 ^ 63 → strlen (Some buf) = Ok (zlen s).
Proof.
  intros Hc Hmax. pose proof (is_cstr_length _ _ Hc) as Hlen.
  assert (strlen (Some buf) ⇓ λ n, n = zlen s) as (n & -> & ->); [|done].
  apply (wp_loop (λ n, 0 ≤ n ≤ zlen s) (λ n, Z.to_nat (zlen s - n))).
  - intros n Hn. destruct (is_cstr_zget buf s n Hc Hn) as [-> Hz].
    apply wp_bind, wp_ok. destruct (Z.eqb_spec (default 0 (s !! Z.to_nat n)) 0) as [He|Hne].
    + apply wp_ok. by apply Hz.
    + apply wp_ok. assert (n ≠ zlen s) by tauto. rewrite u64_small by lia. lia.
  - unfold zlen; lia.
  - unfold zlen; lia.
Qed.

(** [strcmp] decides equality of the strings. *)
Lemma strcmp_ok b1 s1 b2 s2 :
  is_cstr b1 s1 → is_cstr b2 s2 → strcmp b1 b2 ⇓ λ r, r = 0 ↔ s1 = s2.
Proof.
  intros H1 H2. pose proof (is_cstr_length _ _ H1).
  apply (wp_loop (λ i, 0 ≤ i ≤ zlen s1 ∧ i ≤ zlen s2 ∧
                       take (Z.to_nat i) s1 = take (Z.to_nat i) s2)
                 (λ i, Z.to_nat (zlen s1 - i))).
  - intros i (Hi1 & Hi2 & Heq).
    destruct (is_cstr_zget b1 s1 i H1 Hi1) as [-> Hz1].
    destruct (is_cstr_zget b2 s2 i H2 ltac:(lia)) as [-> Hz2].
    rewrite !bind_ok. unfold zlen in *.
    destruct (s1 !! Z.to_nat i) as [a|] eqn:Ha; simpl in *.
    + pose proof (lookup_lt_Some _ _ _ Ha).
      destruct H1 as [Hf1 _]. pose proof (Forall_lookup_1 _ _ _ _ Hf1 Ha) as Har. simpl in Har.
      rewrite (proj2 (Z.eqb_neq a 0)) by lia. simpl.
      destruct (s2 !! Z.to_nat i) as [b|] eqn:Hb; simpl in *.
      * pose proof (lookup_lt_Some _ _ _ Hb).
        destruct H2 as [Hf2 _]. pose proof (Forall_lookup_1 _ _ _ _ Hf2 Hb) as Hbr. simpl in Hbr.
        destruct (Z.eqb_spec a b) as [->|Hne]; apply wp_ok.
        -- replace (Z.to_nat (i + 1)) with (S (Z.to_nat i)) by lia.
           rewrite (take_S_r _ _ b Ha), (take_S_r _ _ b Hb), Heq. split; [|lia]. split; [lia|].
           split; [lia|done].
        -- nowrap. split; [lia|]. intros ->. congruence.
      * rewrite (proj2 (Z.eqb_neq a 0)) by lia. apply wp_ok. nowrap.
        split; [lia|]. intros ->. congruence.
    + assert (i = Z.of_nat (length s1)) as -> by tauto. simpl. apply wp_ok.
      rewrite Nat2Z.id in *. rewrite take_ge in Heq by lia.
      destruct (s2 !! length s1) as [b|] eqn:Hb; simpl in *.
      * pose proof (lookup_lt_Some _ _ _ Hb).
        destruct H2 as [Hf2 _]. pose proof (Forall_lookup_1 _ _ _ _ Hf2 Hb) as Hbr. simpl in Hbr.
        nowrap. split; [lia|]. intros ->. by apply lookup_lt_Some in Hb; lia.
      * split; [|done]. intros _. rewrite take_ge in Heq; [done|]. by apply lookup_ge_None in Hb.
  - split_and!; unfold zlen; try lia. done.
  - unfold zlen in *. lia.
Qed.

(** [strcpy] copies the string and its NUL and nothing else. *)
Lemma strcpy_ok dest src s :
  is_cstr src s → zlen s < zlen dest → strcpy dest src = Ok (splice dest 0 (s ++ [0])).
Proof.
  intros Hc Hroom. pose proof (is_cstr_length _ _ Hc) as Hlen.
  assert (zlen (s ++ [0]) = zlen s + 1) as Hz by (unfold zlen; rewrite length_app; simpl; lia).
  assert (strcpy dest src ⇓ λ d, d = splice dest 0 (s ++ [0])) as (d & -> & ->); [|done].
  apply (wp_loop (λ '(i, d), 0 ≤ i ≤ zlen s ∧ d = splice dest 0 (take (Z.to_nat i) s))
                 (λ '(i, _), Z.to_nat (zlen s - i))).
  - intros [i d] (Hi & ->). destruct (is_cstr_zget src s i Hc Hi) as [-> Hzero].
    unfold zlen in *.
    assert (length (take (Z.to_nat i) s) = Z.to_nat i) as Hti by (rewrite length_take; lia).
    assert (length (splice dest 0 (take (Z.to_nat i) s)) = length dest) as Hls.
    { apply length_splice; [lia|]. unfold zlen. rewrite Hti. lia. }
    rewrite bind_ok. apply wp_bind, wp_zset; [unfold zlen; lia|].
    assert (∀ c, <[Z.to_nat i := c]> (splice dest 0 (take (Z.to_nat i) s)) =
                 splice dest 0 (take (Z.to_nat i) s ++ [c])) as Hins.
    { intros c. unfold splice. rewrite !take_0, !app_nil_l, length_app, Hti. simpl.
      rewrite insert_app_r_alt by lia. rewrite Hti, Nat.sub_diag, <-app_assoc. f_equal.
      destruct (drop (Z.to_nat i) dest) as [|x xs] eqn:Hd.
      { apply (f_equal length) in Hd. rewrite length_drop in Hd. simpl in Hd. lia. }
      simpl. f_equal. by rewrite <-drop_drop, Hd. }
    rewrite Hins. destruct (s !! Z.to_nat i) as [c|] eqn:Hsc; simpl in *.
    + pose proof (lookup_lt_Some _ _ _ Hsc).
      rewrite (proj2 (Z.eqb_neq c 0)) by (intros ->; destruct Hzero as [Hzz _]; specialize (Hzz eq_refl); lia).
      apply wp_ok. replace (Z.to_nat (i + 1)) with (S (Z.to_nat i)) by lia.
      rewrite (take_S_r _ _ c) by done. split; [|lia]. split; [lia|done].
    + apply wp_ok. assert (i = Z.of_nat (length s)) as -> by tauto.
      by rewrite take_ge by lia.
  - split; [unfold zlen; lia|]. unfold splice. done.
  - unfold zlen in *. lia.
Qed.

End KString.
