(* ===== verification/Bytes.v ===== *)
(** Reading integers out of a byte image: a member of a struct that is laid over a buffer
    is stored least significant byte first, as on x86_64. *)
From S2P Require Import Prelude KString.

Module Bytes.
Import KString.

(** An [n]-byte unsigned member at offset [off]. *)
Fixpoint load_le (n : nat) (p : list Z) (off : Z) : outcome Z :=
  match n with
  | O => Ok 0
  | S n => b ← zget p off; r ← load_le n p (off + 1); Ok (b + 256 * r)
  end.

Fixpoint le_val (bs : list Z) : Z :=
  match bs with [] => 0 | b :: bs => b + 256 * le_val bs end.

(** The value at [off] as a pure function; it is what [load_le] reads in range. *)
Definition field (n : nat) (p : list Z) (off : Z) : Z := le_val (slice p off (Z.of_nat n)).

Lemma load_le_ok n p off : 0 ≤ off → off + Z.of_nat n ≤ zlen p → load_le n p off = Ok (field n p off).
Proof.
  revert off. induction n as [|n IH]; intros off Ho Hl; [done|]. cbn [load_le].
  destruct (zget_in p off) as [b Hb]; [lia|]. rewrite (zget_ok p off b), bind_ok by done.
  rewrite IH, bind_ok by lia. f_equal. unfold field, slice. rewrite !Nat2Z.id.
  rewrite (drop_S _ b (Z.to_nat off)) by done. cbn [take le_val]. do 3 f_equal.
  replace (Z.to_nat (off + 1)) with (S (Z.to_nat off)) by lia. done.
Qed.

Lemma le_val_range bs : Forall (λ b, 0 ≤ b < 256) bs → 0 ≤ le_val bs < 256 ^ Z.of_nat (length bs).
Proof.
  induction 1 as [|b bs Hb _ IH]; cbn [le_val length]; [lia|].
  rewrite Nat2Z.inj_succ, Z.pow_succ_r by lia. lia.
Qed.

Lemma field_range n p off : Forall (λ b, 0 ≤ b < 256) p → 0 ≤ field n p off < 256 ^ Z.of_nat n.
Proof.
  intros Hp. unfold field. assert (Forall (λ b, 0 ≤ b < 256) (slice p off (Z.of_nat n))) as Hs.
  { unfold slice. by apply Forall_take, Forall_drop. }
  pose proof (le_val_range _ Hs) as Hr. assert (length (slice p off (Z.of_nat n)) ≤ n)%nat.
  { unfold slice. rewrite length_take. lia. }
  pose proof (Z.pow_le_mono_r 256 (Z.of_nat (length (slice p off (Z.of_nat n)))) (Z.of_nat n)). lia.
Qed.

(** ** Parts of a concatenation *)

Lemma slice_middle (a b c : list Z) off n : off = zlen a → n = zlen b → slice (a ++ b ++ c) off n = b.
Proof. intros -> ->. unfold slice, zlen. by rewrite !Nat2Z.id, drop_app_length, take_app_length. Qed.

Lemma slice_skip (a b : list Z) off n : zlen a ≤ off → slice (a ++ b) off n = slice b (off - zlen a) n.
Proof. intros. unfold slice, zlen in *. rewrite drop_app_ge by lia. do 2 f_equal. lia. Qed.

Lemma slice_here (b c : list Z) off n : off = 0 → n = zlen b → slice (b ++ c) off n = b.
Proof. intros -> ->. by apply (slice_middle [] b c). Qed.

(** An [n]-byte unsigned value, least significant byte first. *)
Fixpoint le_bytes (n : nat) (v : Z) : list Z :=
  match n with O => [] | S n => v mod 256 :: le_bytes n (v / 256) end.

Lemma length_le_bytes n v : length (le_bytes n v) = n.
Proof. revert v. induction n as [|n IH]; intros v; [done|]. simpl. by rewrite IH. Qed.

Lemma le_val_bytes n v : 0 ≤ v < 256 ^ Z.of_nat n → le_val (le_bytes n v) = v.
Proof.
  revert v. induction n as [|n IH]; intros v Hv; [simpl in *; lia|]. cbn [le_bytes le_val].
  rewrite Nat2Z.inj_succ, Z.pow_succ_r in Hv by lia. rewrite IH by (pose proof (Z.div_mod v 256 ltac:(lia)); pose proof (Z.mod_pos_bound v 256 ltac:(lia)); lia).
  pose proof (Z.div_mod v 256 ltac:(lia)). lia.
Qed.

Lemma load_le_bytes n (a c : list Z) off v : off = zlen a → 0 ≤ v < 256 ^ Z.of_nat n → load_le n (a ++ le_bytes n v ++ c) off = Ok v.
Proof.
  intros -> Hv. pose proof (length_le_bytes n v) as Hl. rewrite load_le_ok by (unfold zlen; rewrite ?length_app, ?Hl; lia).
  unfold field. rewrite slice_middle by (unfold zlen; (done || by rewrite Hl)). by rewrite le_val_bytes.
Qed.

End Bytes.
