(* ===== verification/Heap.v ===== *)
(** The kernel heap (kernel/mm/heap.c): a doubly linked list of block headers
    laid out back to back in one region, first fit, with splitting on
    allocation and coalescing on release.

    [heap_t] is the memory the allocator works on: [hdrs] maps an address to the
    [block_header_t] stored there (headers of merged blocks stay in memory, as
    in the code), [bytes] holds what callers stored in the payloads, and the
    other fields are the file-scope variables.  Pointers are addresses, 0 is
    NULL.  [layout] relates the headers to the list of blocks; the theorems
    describe every operation on that list. *)
From S2P Require Import Prelude.

Module Heap.

Record block_header_t := { size : Z; free : bool; next : Z; prev : Z }.

(** sizeof(block_header_t) on x86_64. *)
Definition HDR : Z := 32.

Record heap_t := {
  hdrs : gmap Z block_header_t;
  bytes : gmap Z Z;
  head : Z;
  total_size : Z;
  used_size : Z
}.

Definition get_hdr (h : heap_t) (p : Z) : outcome block_header_t :=
  match hdrs h !! p with Some b => Ok b | None => Undef end.

Definition set_hdr (h : heap_t) (p : Z) (b : block_header_t) : heap_t :=
  {| hdrs := <[p := b]> (hdrs h); bytes := bytes h; head := head h;
     total_size := total_size h; used_size := used_size h |}.

Definition set_used (h : heap_t) (u : Z) : heap_t :=
  {| hdrs := hdrs h; bytes := bytes h; head := head h;
     total_size := total_size h; used_size := u |}.

Definition set_bytes (h : heap_t) (bs : gmap Z Z) : heap_t :=
  {| hdrs := hdrs h; bytes := bs; head := head h;
     total_size := total_size h; used_size := used_size h |}.

Definition set_prev (b : block_header_t) (p : Z) : block_header_t :=
  {| size := size b; free := free b; next := next b; prev := p |}.
Definition set_free (b : block_header_t) (f : bool) : block_header_t :=
  {| size := size b; free := f; next := next b; prev := prev b |}.

(** [(size + 15u) & ~15u]: the mask is an [unsigned int], so it is the 32-bit
    value 0xfffffff0 widened with zeros. *)
Definition align_size (size : Z) : Z := Z.land (u64 (size + 15)) (u32 (Z.lnot 15)).

Definition heap_init (h : heap_t) (base size : Z) : heap_t :=
  if (base =? 0) || (size <=? HDR)
  then {| hdrs := hdrs h; bytes := bytes h; head := 0; total_size := 0; used_size := 0 |}
  else {| hdrs := <[base := {| size := size - HDR; free := true; next := 0; prev := 0 |}]> (hdrs h);
          bytes := bytes h; head := base; total_size := size - HDR; used_size := 0 |}.

Definition split_block (h : heap_t) (block size_ : Z) : outcome heap_t :=
  b ← get_hdr h block;
  if size b <? u64 (size_ + HDR + 16) then Ok h
  else
    let nxt := u64 (block + HDR + size_) in
    let n := {| size := u64 (size b - size_ - HDR); free := true; next := next b; prev := block |} in
    let h := set_hdr h nxt n in
    h ← (if next n =? 0 then Ok h
         else nn ← get_hdr h (next n); Ok (set_hdr h (next n) (set_prev nn nxt)));
    b ← get_hdr h block;
    Ok (set_hdr h block {| size := size_; free := free b; next := nxt; prev := prev b |}).

(** Loops over the block list visit each header at most once. *)
Definition list_fuel (h : heap_t) : nat := S (S (base.size (hdrs h))).

Definition kmalloc (h : heap_t) (size_ : Z) : outcome (Z * heap_t) :=
  if (size_ =? 0) || (2 ^ 64 - 16 <? size_) then Ok (0, h)
  else
    let size_ := align_size size_ in
    loop (list_fuel h)
      (λ block,
         if block =? 0 then Ok (inr (0, h))
         else
           b ← get_hdr h block;
           if free b && (size_ <=? size b) then
             h ← split_block h block size_;
             b ← get_hdr h block;
             let h := set_hdr h block (set_free b false) in
             Ok (inr (u64 (block + HDR), set_used h (u64 (used_size h + size b))))
           else Ok (inl (next b))) (head h).

(** The [n] bytes at [p] are the payload of a block in use, or its first part:
    an access to other bytes is undefined. *)
Definition in_block (h : heap_t) (p n : Z) : bool :=
  match hdrs h !! (p - HDR) with Some b => negb (free b) && (n <=? size b) | None => false end.

(** [memset(ptr, 0, n)] *)
Definition zero_bytes (h : heap_t) (p n : Z) : outcome heap_t :=
  if in_block h p n
  then bs ← for_each 0 n (λ i bs, Ok (<[p + i := 0]> bs)) (bytes h); Ok (set_bytes h bs)
  else Undef.

(** [memcpy(dst, src, n)]; a byte that was never written stays so. *)
Definition copy_bytes (h : heap_t) (dst src n : Z) : outcome heap_t :=
  if in_block h dst n && in_block h src n
  then bs ← for_each 0 n (λ i bs, Ok (partial_alter (λ _, bs !! (src + i)) (dst + i) bs)) (bytes h);
       Ok (set_bytes h bs)
  else Undef.

Definition kcalloc (h : heap_t) (count size_ : Z) : outcome (Z * heap_t) :=
  if negb (count =? 0) && ((2 ^ 64 - 1) / count <? size_) then Ok (0, h)
  else
    let total := u64 (count * size_) in
    '(ptr, h) ← kmalloc h total;
    if ptr =? 0 then Ok (0, h)
    else h ← zero_bytes h ptr total; Ok (ptr, h).

(** The first half of [coalesce]: a free successor is merged into the block. *)
Definition absorb_next (h : heap_t) (block : Z) : outcome heap_t :=
  b ← get_hdr h block;
  if next b =? 0 then Ok h
  else
    nb ← get_hdr h (next b);
    if free nb then
      let b' := {| size := u64 (size b + (HDR + size nb)); free := free b;
                   next := next nb; prev := prev b |} in
      let h := set_hdr h block b' in
      if next b' =? 0 then Ok h
      else nn ← get_hdr h (next b'); Ok (set_hdr h (next b') (set_prev nn block))
    else Ok h.

Fixpoint coalesce (fuel : nat) (h : heap_t) (block : Z) : outcome heap_t :=
  match fuel with
  | O => OutOfFuel
  | S fuel =>
      h ← absorb_next h block;
      b ← get_hdr h block;
      if prev b =? 0 then Ok h
      else
        pb ← get_hdr h (prev b);
        if free pb then coalesce fuel h (prev b) else Ok h
  end.

(** [block] lies outside the heap region. *)
Definition outside (h : heap_t) (block : Z) : bool :=
  (block <? head h) || (head h + total_size h + HDR <=? block).

Definition kfree (h : heap_t) (ptr : Z) : outcome heap_t :=
  if ptr =? 0 then Ok h
  else
    let block := u64 (ptr - HDR) in
    if outside h block then Ok h
    else
      b ← get_hdr h block;
      let h := if free b then h else set_used h (u64 (used_size h - size b)) in
      let h := set_hdr h block (set_free b true) in
      coalesce (list_fuel h) h block.

Definition krealloc (h : heap_t) (ptr size_ : Z) : outcome (Z * heap_t) :=
  if ptr =? 0 then kmalloc h size_
  else if size_ =? 0 then h ← kfree h ptr; Ok (0, h)
  else
    let block := u64 (ptr - HDR) in
    if outside h block then Ok (0, h)
    else
      b ← get_hdr h block;
      if free b then Ok (0, h)
      else if size_ <=? size b then Ok (ptr, h)
      else
        '(new_ptr, h) ← kmalloc h size_;
        if new_ptr =? 0 then Ok (0, h)
        else
          b ← get_hdr h block;
          h ← copy_bytes h new_ptr ptr (size b);
          h ← kfree h ptr;
          Ok (new_ptr, h).

Definition heap_bytes_used (h : heap_t) : Z := used_size h.
Definition heap_bytes_free (h : heap_t) : Z :=
  if used_size h <? total_size h then total_size h - used_size h else 0.

(** ** The list of blocks *)

(** A block: payload size and whether it is free.  Blocks follow each other in
    memory, so a list of blocks and the address of the first give them all. *)
Abbreviation block := (Z * bool)%type.

Definition extent (bl : list block) : Z := foldr (λ (b : block) n, HDR + b.1 + n) 0 bl.
Definition in_use (bl : list block) : Z :=
  foldr (λ (b : block) n, (if b.2 then 0 else b.1) + n) 0 bl.

Arguments extent : simpl never.
Arguments in_use : simpl never.

(** Address of the block that follows, as the [next] field stores it. *)
Definition next_addr (a : Z) (b : block) (rest : list block) : Z :=
  match rest with [] => 0 | _ :: _ => a + HDR + b.1 end.

(** The headers from address [a] on, with [p] before them, are those of [bl],
    and the blocks of [after] come next. *)
Fixpoint layout_then (hd : gmap Z block_header_t) (a p : Z) (bl after : list block) : Prop :=
  match bl with
  | [] => True
  | b :: rest =>
      hd !! a = Some {| size := b.1; free := b.2; next := next_addr a b (rest ++ after); prev := p |} ∧
      layout_then hd (a + HDR + b.1) a rest after
  end.
Abbreviation layout hd a p bl := (layout_then hd a p bl []).

(** Address of the last block of [bl] when its first is at [a]; [p] if there is none. *)
Fixpoint last_addr (a p : Z) (bl : list block) : Z :=
  match bl with [] => p | b :: rest => last_addr (a + HDR + b.1) a rest end.

(** No two neighbouring blocks are free. *)
Definition pair_ok (o1 o2 : option block) : Prop :=
  match o1, o2 with Some (_, true), Some (_, true) => False | _, _ => True end.
Fixpoint coalesced (bl : list block) : Prop :=
  match bl with b :: rest => pair_ok (Some b) (list.head rest) ∧ coalesced rest | [] => True end.

Definition blocks_ok (bl : list block) : Prop := Forall (λ b : block, 0 ≤ b.1 ∧ b.1 mod 16 = 0) bl.

(** The heap's headers are those of the blocks [bl]. *)
Definition shape (h : heap_t) (bl : list block) : Prop :=
  0 < head h ∧ head h mod 16 = 0 ∧ head h + extent bl < 2 ^ 63 ∧
  layout (hdrs h) (head h) 0 bl ∧ blocks_ok bl ∧ total_size h = extent bl - HDR.

Definition repr (h : heap_t) (bl : list block) : Prop :=
  shape h bl ∧ bl ≠ [] ∧ coalesced bl ∧ used_size h = in_use bl.

(** What placing [n] bytes in a free block of [sz] bytes leaves: the whole block
    in use, or [n] bytes in use and the rest as a new free block. *)
Definition place (n sz : Z) : list block :=
  if sz <? n + HDR + 16 then [(sz, false)] else [(n, false); (sz - n - HDR, true)].

(** Releasing a block of [sz] bytes between [pre] and [post] merges it with its
    free neighbours. *)
Definition merge_right (sz : Z) (post : list block) : Z * list block :=
  match post with (s2, true) :: post' => (sz + HDR + s2, post') | _ => (sz, post) end.
Definition release (pre : list block) (sz : Z) (post : list block) : list block :=
  let '(sz', post') := merge_right sz post in
  match reverse pre with
  | (s0, true) :: rpre => reverse rpre ++ (s0 + HDR + sz', true) :: post'
  | _ => pre ++ (sz', true) :: post'
  end.

(** ** Lemmas on headers and block lists *)

Lemma get_hdr_ok h p b : hdrs h !! p = Some b → get_hdr h p = Ok b.
Proof. unfold get_hdr. by intros ->. Qed.
Lemma get_set_eq h p b : get_hdr (set_hdr h p b) p = Ok b.
Proof. apply get_hdr_ok, lookup_insert_eq. Qed.
Lemma get_set_ne h p q b : p ≠ q → get_hdr (set_hdr h p b) q = get_hdr h q.
Proof. intros. unfold get_hdr. simpl. by rewrite lookup_insert_ne. Qed.

Lemma extent_app l1 l2 : extent (l1 ++ l2) = extent l1 + extent l2.
Proof. induction l1 as [|b l1 IH]; [done|]. unfold extent in *. simpl. rewrite IH. lia. Qed.
Lemma in_use_app l1 l2 : in_use (l1 ++ l2) = in_use l1 + in_use l2.
Proof. induction l1 as [|b l1 IH]; [done|]. unfold in_use in *. simpl. rewrite IH. lia. Qed.
Lemma extent_cons b l : extent (b :: l) = HDR + b.1 + extent l.
Proof. done. Qed.
Lemma in_use_cons b l : in_use (b :: l) = (if b.2 then 0 else b.1) + in_use l.
Proof. done. Qed.

Lemma extent_nonneg bl : blocks_ok bl → 0 ≤ extent bl.
Proof.
  induction 1 as [|b bl Hb _ IH]; [done|]. rewrite extent_cons. unfold HDR in *. lia.
Qed.

Lemma in_use_bounds bl : blocks_ok bl → 0 ≤ in_use bl ≤ extent bl.
Proof.
  induction 1 as [|b bl Hb _ IH]; [done|]. rewrite extent_cons, in_use_cons. unfold HDR in *.
  destruct b.2; lia.
Qed.

Lemma extent_mod bl : blocks_ok bl → extent bl mod 16 = 0.
Proof.
  induction 1 as [|b bl Hb _ IH]; [done|]. rewrite extent_cons. unfold HDR in *. zlia.
Qed.

Lemma layout_app hd a p l1 l2 after :
  layout_then hd a p (l1 ++ l2) after ↔
  layout_then hd a p l1 (l2 ++ after) ∧
  layout_then hd (a + extent l1) (last_addr a p l1) l2 after.
Proof.
  revert a p. induction l1 as [|b l1 IH]; intros a p; simpl.
  - change (extent []) with 0. rewrite Z.add_0_r. tauto.
  - rewrite IH, app_assoc, extent_cons.
    replace (a + (HDR + b.1 + extent l1)) with (a + HDR + b.1 + extent l1) by lia. tauto.
Qed.

(** Only whether more blocks follow matters to the headers before them. *)
Lemma layout_after hd a p bl x xs y ys :
  layout_then hd a p bl (x :: xs) → layout_then hd a p bl (y :: ys).
Proof.
  revert a p. induction bl as [|b bl IH]; intros a p; simpl; [done|].
  intros [Hb Hl]. split; [|by apply IH]. rewrite Hb. by destruct bl.
Qed.

Lemma layout_frame hd hd' a p bl after :
  blocks_ok bl → (∀ x, a ≤ x < a + extent bl → hd' !! x = hd !! x) →
  layout_then hd a p bl after → layout_then hd' a p bl after.
Proof.
  intros Hok. revert a p. induction Hok as [|b bl Hb Hok IH]; intros a p Hx; simpl; [done|].
  rewrite extent_cons in Hx. pose proof (extent_nonneg bl Hok). unfold HDR in *.
  intros [Hl Hr]. split; [rewrite Hx by lia; done|]. apply IH; [|done].
  intros x Hxr. apply Hx. lia.
Qed.

Lemma last_addr_snoc a p bl b : last_addr a p (bl ++ [b]) = a + extent bl.
Proof.
  revert a p. induction bl as [|c bl IH]; intros a p; simpl; [by rewrite Z.add_0_r|].
  rewrite IH, extent_cons. lia.
Qed.

Lemma coalesced_app l1 l2 :
  coalesced (l1 ++ l2) ↔ coalesced l1 ∧ coalesced l2 ∧ pair_ok (last l1) (list.head l2).
Proof.
  induction l1 as [|b l1 IH]; simpl; [tauto|].
  rewrite IH. destruct l1 as [|c l1]; simpl; [|tauto]. by destruct b as [? []], l2 as [|[? []] l2]; simpl; tauto.
Qed.

Lemma blocks_ok_app l1 l2 : blocks_ok (l1 ++ l2) ↔ blocks_ok l1 ∧ blocks_ok l2.
Proof. apply Forall_app. Qed.

(** The header of the block after [pre]. *)
Lemma layout_block hd a p pre b post :
  layout hd a p (pre ++ b :: post) →
  hd !! (a + extent pre) = Some {| size := b.1; free := b.2;
    next := next_addr (a + extent pre) b post; prev := last_addr a p pre |}.
Proof.
  rewrite layout_app. simpl. intros (_ & H & _). by rewrite app_nil_r in H.
Qed.

(** Rewriting the [prev] field of the first header of a list. *)
Lemma layout_relink hd a p p' b rest after :
  blocks_ok (b :: rest) →
  layout_then hd a p (b :: rest) after →
  ∃ hb, hd !! a = Some hb ∧ layout_then (<[a := set_prev hb p']> hd) a p' (b :: rest) after.
Proof.
  intros Hok [Hb Hrest]. eexists; split; [exact Hb|]. simpl. split.
  - by rewrite lookup_insert_eq.
  - inversion Hok as [|? ? Hb' Hok']; subst. unfold HDR in *.
    eapply layout_frame; [exact Hok'| |exact Hrest].
    intros x Hx. rewrite lookup_insert_ne; [done|lia].
Qed.

(** Addresses of the blocks are distinct, so there are no more blocks than
    headers in memory. *)
Lemma layout_size hd a p bl after :
  blocks_ok bl → layout_then hd a p bl after → (length bl ≤ base.size hd)%nat.
Proof.
  intros Hok Hl.
  assert (∃ s : gset Z, base.size s = length bl ∧ s ⊆ dom hd ∧ ∀ x, x ∈ s → a ≤ x) as (s & <- & Hs & _).
  { revert a p Hl. induction Hok as [|b bl Hb Hok IH]; intros a p; simpl.
    - intros _. exists ∅. split; [apply size_empty|]. set_solver.
    - intros [Hh Hl]. destruct (IH _ _ Hl) as (s & Hlen & Hsub & Hge). exists ({[a]} ∪ s).
      unfold HDR in *. split; [|split].
      + rewrite size_union, size_singleton, Hlen; [done|].
        intros x ->%elem_of_singleton Hx. specialize (Hge _ Hx). lia.
      + apply union_subseteq. split; [|done].
        apply singleton_subseteq_l, elem_of_dom. by rewrite Hh.
      + intros x [->%elem_of_singleton|Hx]%elem_of_union; [lia|]. specialize (Hge _ Hx). lia. }
  rewrite <-size_dom. by apply subseteq_size.
Qed.

(** Replacing the blocks [mid] by [mid'], which fill the same space: the new
    headers must lay out [mid'], the header after it must point back to its last
    block, and all others stay. *)
Lemma layout_replace hd hd' a pre mid mid' post :
  blocks_ok pre → blocks_ok mid → blocks_ok post → mid ≠ [] → mid' ≠ [] →
  extent mid' = extent mid →
  layout hd a 0 (pre ++ mid ++ post) →
  (∀ x, x < a + extent pre → hd' !! x = hd !! x) →
  layout_then hd' (a + extent pre) (last_addr a 0 pre) mid' post →
  layout hd' (a + extent pre + extent mid) (last_addr (a + extent pre) 0 mid') post →
  layout hd' a 0 (pre ++ mid' ++ post).
Proof.
  intros Hpre Hmid Hpost Hne Hne' Hext Hl Hbefore Hm' Hp'.
  rewrite layout_app in Hl. destruct Hl as [Hl1 _].
  rewrite layout_app. split.
  - destruct mid as [|m mid]; [done|]. destruct mid' as [|m' mid']; [done|].
    simpl in *. eapply layout_after. eapply layout_frame; [done| |exact Hl1].
    intros x Hx. apply Hbefore. lia.
  - rewrite layout_app, Hext. rewrite app_nil_r. split; [done|].
    destruct mid' as [|m' mid']; [done|]. exact Hp'.
Qed.

Lemma shape_get h pre b post :
  shape h (pre ++ b :: post) →
  get_hdr h (head h + extent pre) = Ok {| size := b.1; free := b.2;
    next := next_addr (head h + extent pre) b post; prev := last_addr (head h) 0 pre |}.
Proof.
  intros (_ & _ & _ & Hl & _). unfold get_hdr. by rewrite (layout_block _ _ _ _ _ _ Hl).
Qed.

(** Bounds that the arithmetic on addresses needs. *)
Lemma shape_bounds h pre b post :
  shape h (pre ++ b :: post) →
  0 < head h ∧ 0 ≤ extent pre ∧ 0 ≤ b.1 ∧ b.1 mod 16 = 0 ∧ 0 ≤ extent post ∧
  head h + extent pre + HDR + b.1 + extent post < 2 ^ 63 ∧
  blocks_ok pre ∧ blocks_ok post.
Proof.
  intros (Hp & _ & He & _ & Hok & _). rewrite extent_app, extent_cons in He.
  apply blocks_ok_app in Hok as [Hok1 Hok2]. inversion Hok2 as [|? ? Hb Hok3]; subst.
  pose proof (extent_nonneg _ Hok1). pose proof (extent_nonneg _ Hok3).
  split_and!; try done; lia.
Qed.

(** The rest of [shape] only depends on the space the blocks take. *)
Lemma shape_update h h' bl bl' :
  shape h bl → head h' = head h → total_size h' = total_size h →
  extent bl' = extent bl → blocks_ok bl' → layout (hdrs h') (head h) 0 bl' →
  shape h' bl'.
Proof.
  intros (Hp & Hm & He & _ & _ & Ht) Hh' Ht' Hext Hok Hl. unfold shape.
  rewrite Hh', Ht', Hext. by split_and!.
Qed.

(** Changing the flag of one block in place. *)
Lemma shape_set_free h pre sz f f' post :
  shape h (pre ++ (sz, f) :: post) →
  ∃ b, get_hdr h (head h + extent pre) = Ok b ∧ size b = sz ∧ free b = f ∧
    shape (set_hdr h (head h + extent pre) (set_free b f')) (pre ++ (sz, f') :: post).
Proof.
  intros Hs. pose proof (shape_bounds _ _ _ _ Hs) as (H1 & H2 & H3 & H3' & H4 & H5 & Hok1 & Hok2).
  simpl in *. unfold HDR in *.
  eexists; split; [by apply shape_get|]. do 2 (split; [done|]).
  pose proof Hs as (_ & _ & _ & Hl & Hok & _).
  eapply shape_update; [done..| | |].
  - by rewrite !extent_app, !extent_cons.
  - apply blocks_ok_app. split; [done|]. by constructor.
  - eapply (layout_replace (hdrs h) _ _ pre [(sz, f)] [(sz, f')] post);
      try done; [by repeat constructor|..]; simpl.
    + intros x Hx. rewrite lookup_insert_ne; [done|lia].
    + by rewrite lookup_insert_eq.
    + rewrite layout_app in Hl. destruct Hl as [_ Hl]. simpl in Hl. destruct Hl as [_ Hl].
      rewrite !extent_cons in *. change (extent []) with 0.
      replace (head h + extent pre + (HDR + (sz, f).1 + 0))
        with (head h + extent pre + HDR + sz) by (simpl; lia).
      eapply layout_frame; [done| |exact Hl].
      intros x Hx. rewrite lookup_insert_ne; [done|]. unfold HDR in *. lia.
Qed.

(** [split_block] cuts a large block in two and leaves a small one whole. *)
Lemma split_block_ok h pre sz post n :
  shape h (pre ++ (sz, true) :: post) → 0 ≤ n ≤ sz → n mod 16 = 0 →
  split_block h (head h + extent pre) n ⇓ λ h',
    shape h' (pre ++ (if sz <? n + HDR + 16 then [(sz, true)]
                      else [(n, true); (sz - n - HDR, true)]) ++ post) ∧
    head h' = head h ∧ used_size h' = used_size h ∧ bytes h' = bytes h ∧
    total_size h' = total_size h.
Proof.
  intros Hs Hn Hmod. pose proof (shape_bounds _ _ _ _ Hs) as (H1 & H2 & H3 & H3' & H4 & H5 & Hok1 & Hok2).
  simpl in *. unfold HDR in *. pose proof Hs as (_ & _ & _ & Hl & _ & _).
  unfold split_block. rewrite (shape_get _ _ _ _ Hs), bind_ok. simpl.
  unfold HDR in *. rewrite (u64_small (n + 32 + 16)) by lia.
  destruct (Z.ltb_spec sz (n + 32 + 16)) as [Hsmall|Hbig].
  { apply wp_ok. by split_and!. }
  rewrite (u64_small (head h + extent pre + 32 + n)) by lia.
  rewrite (u64_small (sz - n - 32)) by lia.
  set (A := head h + extent pre) in *.
  assert (layout (hdrs h) (A + 32 + sz) A post) as Hlp.
  { rewrite layout_app in Hl. destruct Hl as [_ Hl]. by destruct Hl as [_ Hl]. }
  pose proof (layout_block _ _ _ _ _ _ Hl) as HA. fold A in HA. simpl in HA.
  assert (∀ hd' : gmap Z block_header_t,
    (∀ x, x < A → hd' !! x = hdrs h !! x) →
    hd' !! A = Some {| size := n; free := true; next := A + 32 + n; prev := last_addr (head h) 0 pre |} →
    hd' !! (A + 32 + n) = Some {| size := sz - n - 32; free := true;
                                  next := next_addr A (sz, true) post; prev := A |} →
    layout hd' (A + 32 + sz) (A + 32 + n) post →
    layout hd' (head h) 0 (pre ++ [(n, true); (sz - n - 32, true)] ++ post)) as Hfin.
  { intros hd' Hb' HA' HB' Hp'.
    apply (layout_replace (hdrs h) hd' (head h) pre [(sz, true)]); try done.
    - repeat constructor; done.
    - rewrite !extent_cons. change (extent []) with 0. unfold HDR. simpl. lia.
    - fold A. simpl. unfold HDR. rewrite HA'. split; [done|]. split; [|done].
      rewrite HB'. do 2 f_equal. unfold next_addr. destruct post; simpl; [done|].
      unfold HDR. lia.
    - fold A. rewrite extent_cons. change (extent []) with 0. unfold HDR. simpl. unfold HDR.
      by replace (A + (32 + sz + 0)) with (A + 32 + sz) by lia. }
  assert (blocks_ok (pre ++ [(n, true); (sz - n - 32, true)] ++ post)) as Hok'.
  { apply blocks_ok_app. split; [done|]. constructor; [simpl; lia|]. constructor; [|done].
    simpl. split; [lia|]. zlia. }
  assert (extent (pre ++ [(n, true); (sz - n - 32, true)] ++ post) =
          extent (pre ++ (sz, true) :: post)) as Hext'.
  { rewrite !extent_app, !extent_cons. change (extent []) with 0. unfold HDR. simpl. lia. }
  destruct post as [|c post].
  - simpl. rewrite get_set_ne, (get_hdr_ok _ _ _ HA), bind_ok by lia. apply wp_ok.
    split; [|by split_and!].
    eapply shape_update; [done..|]. apply Hfin; cbn [set_hdr hdrs].
    + intros x Hx. rewrite !lookup_insert_ne by lia. done.
    + by rewrite lookup_insert_eq.
    + by rewrite lookup_insert_ne, lookup_insert_eq by lia.
    + done.
  - simpl next_addr. unfold HDR. rewrite (proj2 (Z.eqb_neq (A + 32 + sz) 0)) by lia.
    destruct (layout_relink _ _ _ (A + 32 + n) _ _ _ Hok2 Hlp) as (hc & Hhc & Hlp').
    simpl. rewrite get_set_ne, (get_hdr_ok _ _ _ Hhc), !bind_ok by lia.
    rewrite !get_set_ne, (get_hdr_ok _ _ _ HA), bind_ok by lia. apply wp_ok.
    split; [|by split_and!].
    eapply shape_update; [done..|]. apply Hfin; cbn [set_hdr hdrs].
    + intros x Hx. rewrite !lookup_insert_ne by lia. done.
    + by rewrite lookup_insert_eq.
    + by rewrite !lookup_insert_ne, lookup_insert_eq by lia.
    + eapply layout_frame; [done| |exact Hlp']. intros x Hx. rewrite lookup_insert_ne by lia.
      destruct (decide (x = A + 32 + sz)) as [->|]; [by rewrite !lookup_insert_eq|].
      by rewrite !lookup_insert_ne by lia.
Qed.

(** ** Rounding of sizes *)

Lemma align_size_eq s : align_size s = (u64 (s + 15) / 16) mod 2 ^ 28 * 16.
Proof.
  unfold align_size. change (u32 (Z.lnot 15)) with (Z.shiftl (Z.ones 28) 4).
  set (x := u64 (s + 15)).
  assert (Z.land x (Z.shiftl (Z.ones 28) 4) = Z.shiftl (Z.land (Z.shiftr x 4) (Z.ones 28)) 4) as ->.
  { apply Z.bits_inj'; intros j Hj.
    rewrite Z.land_spec, !Z.shiftl_spec, Z.land_spec by lia.
    destruct (decide (j < 4)).
    - by rewrite !(Z.testbit_neg_r _ (j - 4)), andb_false_r by lia.
    - rewrite Z.shiftr_spec by lia. do 2 f_equal. lia. }
  rewrite Z.land_ones, Z.shiftl_mul_pow2, Z.shiftr_div_pow2 by lia. done.
Qed.

Lemma align_size_mod s : 0 ≤ align_size s < 2 ^ 32 ∧ align_size s mod 16 = 0.
Proof.
  rewrite align_size_eq. pose proof (Z.mod_pos_bound (u64 (s + 15) / 16) (2 ^ 28)).
  split; [lia|]. apply Z.mod_mul. lia.
Qed.

(** Below 4 GiB the rounding is what the name says. *)
Lemma align_size_small s : 0 ≤ s ≤ 2 ^ 32 - 16 → s ≤ align_size s < s + 16.
Proof.
  intros. rewrite align_size_eq, u64_small by lia. rewrite Z.mod_small by zlia. zlia.
Qed.

(** ** Allocation *)

(** No block of the list is free and large enough. *)
Definition no_fit (n : Z) (bl : list block) : Prop := Forall (λ b : block, b.2 = true → b.1 < n) bl.

Lemma pair_ok_place pre n sz post :
  coalesced (pre ++ (sz, true) :: post) → coalesced (pre ++ place n sz ++ post).
Proof.
  rewrite !coalesced_app. simpl. intros (Hp & (Hh & Hq) & Hj).
  unfold place. destruct (Z.ltb sz (n + HDR + 16)); simpl.
  - split; [done|]. split; [done|]. by destruct (last pre) as [[? []]|].
  - split; [done|]. split; [done|]. by destruct (last pre) as [[? []]|].
Qed.

Lemma place_sizes n sz :
  0 ≤ n ≤ sz → n mod 16 = 0 → sz mod 16 = 0 →
  ∃ s1 rest, place n sz = (s1, false) :: rest ∧ n ≤ s1 ≤ sz ∧
    in_use (place n sz) = s1 ∧ extent (place n sz) = HDR + sz.
Proof.
  intros Hn Hm Hm'. unfold place. unfold HDR in *.
  destruct (Z.ltb_spec sz (n + 32 + 16)); eexists _, _; (split; [done|]);
    unfold in_use, extent, HDR; simpl; lia.
Qed.

Lemma kmalloc_ok h bl s :
  repr h bl → 0 < s ≤ 2 ^ 64 - 16 →
  kmalloc h s ⇓ λ '(p, h'),
    (p = 0 ∧ h' = h ∧ no_fit (align_size s) bl) ∨
    (∃ pre sz post, bl = pre ++ (sz, true) :: post ∧ align_size s ≤ sz ∧
       no_fit (align_size s) pre ∧ p = head h + extent pre + HDR ∧
       repr h' (pre ++ place (align_size s) sz ++ post) ∧
       head h' = head h ∧ bytes h' = bytes h).
Proof.
  intros (Hs & Hne & Hco & Hu) Hsz. unfold kmalloc.
  rewrite (proj2 (Z.eqb_neq s 0)), (proj2 (Z.ltb_ge (2 ^ 64 - 16) s)) by lia. cbn [orb].
  pose proof (align_size_mod s) as [Hn Hnm]. set (n := align_size s) in *.
  pose proof Hs as (Hp & _ & Hext & Hl & Hok & _).
  pose proof (layout_size _ _ _ _ _ Hok Hl) as Hlen.
  apply (wp_loop_bound (λ k block, ∃ pre post, bl = pre ++ post ∧ no_fit n pre ∧
       k = length post ∧ block = match post with [] => 0 | _ => head h + extent pre end))
    with (k := length bl).
  - intros k block (pre & post & Hbl & Hno & -> & ->).
    destruct post as [|[sz f] post].
    { apply wp_ok. left. rewrite app_nil_r in Hbl. by subst. }
    assert (shape h (pre ++ (sz, f) :: post)) as Hs' by (by rewrite <-Hbl).
    pose proof (shape_bounds _ _ _ _ Hs') as (_ & Hb2 & Hb3 & Hb4 & Hb5 & Hb6 & _).
    rewrite (proj2 (Z.eqb_neq _ 0)) by lia.
    rewrite (shape_get _ _ _ _ Hs'), bind_ok. cbn [free size next fst snd].
    destruct f; cbn [andb]; [destruct (Z.leb_spec n sz) as [Hfit|Hsmall]|].
    + apply wp_bind. eapply wp_mono; [apply split_block_ok; (done || lia)|].
      intros h1 (Hs1 & Hh1 & Hu1 & Hby1 & Ht1).
      destruct (place_sizes n sz) as (s1 & rest & Hpl & Hs1b & Hin & Hex); [lia|done|done|].
      assert (shape h1 (pre ++ (s1, true) :: rest ++ post)) as Hs1'.
      { revert Hs1 Hpl. unfold place.
        destruct (Z.ltb sz (n + HDR + 16)); intros ? [= <- <-]; done. }
      destruct (shape_set_free _ _ _ _ false _ Hs1') as (b & Hget & Hsb & _ & Hs2).
      rewrite Hh1 in Hget, Hs2. rewrite Hget, bind_ok. apply wp_ok. right.
      exists pre, sz, post. unfold HDR in *. rewrite (u64_small (head h + _ + _)) by lia.
      rewrite (u64_small (used_size _ + _)).
      2:{ simpl. rewrite Hu1, Hu, Hsb. pose proof (in_use_bounds bl Hok).
          rewrite Hbl, extent_app, extent_cons in *. unfold HDR in *. simpl in *. lia. }
      split_and!; [done..| |done|done].
      rewrite Hpl. split; [exact Hs2|]. split; [by destruct pre|].
      split; [rewrite <-Hpl; apply pair_ok_place; by rewrite <-Hbl|].
      simpl. rewrite Hu1, Hu, Hsb, Hbl, !in_use_app, !in_use_cons, in_use_app. simpl.
      rewrite Hpl, in_use_cons in Hin. simpl in Hin. lia.
    + apply wp_ok. exists (length post). split; [simpl; lia|].
      exists (pre ++ [(sz, true)]), post. rewrite <-app_assoc. split_and!; [done| |done|].
      * apply Forall_app. split; [done|]. constructor; [|done]. done.
      * rewrite extent_app, extent_cons. change (extent []) with 0. unfold next_addr.
        destruct post; [done|]. simpl. lia.
    + apply wp_ok. exists (length post). split; [simpl; lia|].
      exists (pre ++ [(sz, false)]), post. rewrite <-app_assoc. split_and!; [done| |done|].
      * apply Forall_app. split; [done|]. by repeat constructor.
      * rewrite extent_app, extent_cons. change (extent []) with 0. unfold next_addr.
        destruct post; [done|]. simpl. lia.
  - exists [], bl. split_and!; [done|constructor|done|]. destruct bl; [done|].
    change (extent []) with 0. lia.
  - unfold list_fuel. lia.
Qed.

(** ** Release *)

(** The list that results from merging the block after [pre] with its successor. *)
Lemma merge_layout h hd' pre sz f s2 post :
  shape h (pre ++ (sz, f) :: (s2, true) :: post) →
  let A := head h + extent pre in
  (∀ x, x < A → hd' !! x = hdrs h !! x) →
  hd' !! A = Some {| size := sz + HDR + s2; free := f;
                     next := next_addr (A + HDR + sz) (s2, true) post;
                     prev := last_addr (head h) 0 pre |} →
  layout hd' (A + HDR + sz + HDR + s2) A post →
  layout hd' (head h) 0 (pre ++ (sz + HDR + s2, f) :: post).
Proof.
  intros Hs A Hbefore HA Hpost.
  pose proof (shape_bounds _ _ _ _ Hs) as (_ & _ & Hsz & Hszm & _ & _ & Hok1 & Hok2).
  inversion Hok2 as [|? ? Hs2 Hok3]; subst. simpl in *.
  pose proof Hs as (_ & _ & _ & Hl & _).
  apply (layout_replace (hdrs h) hd' (head h) pre [(sz, f); (s2, true)] [(sz + HDR + s2, f)]);
    try done; fold A.
  - apply Forall_cons; split; [done|]. by apply Forall_singleton.
  - rewrite !extent_cons. change (extent []) with 0. simpl. lia.
  - simpl. rewrite HA. split; [|done]. do 2 f_equal. unfold next_addr. destruct post; [done|].
    simpl. lia.
  - rewrite !extent_cons. change (extent []) with 0. simpl.
    by replace (A + (HDR + sz + (HDR + s2 + 0))) with (A + HDR + sz + HDR + s2) by lia.
Qed.

Lemma absorb_next_ok h pre sz f post :
  shape h (pre ++ (sz, f) :: post) →
  absorb_next h (head h + extent pre) ⇓ λ h',
    shape h' (pre ++ ((merge_right sz post).1, f) :: (merge_right sz post).2) ∧
    head h' = head h ∧ used_size h' = used_size h ∧ bytes h' = bytes h.
Proof.
  intros Hs. pose proof (shape_bounds _ _ _ _ Hs) as (H1 & H2 & H3 & H3' & H4 & H5 & Hok1 & Hok2).
  simpl in H3, H3', H5. unfold absorb_next. rewrite (shape_get _ _ _ _ Hs), bind_ok.
  cbn [next size free prev fst snd].
  destruct post as [|[s2 f2] post]; [by apply wp_ok; split_and!|].
  cbn [next_addr fst]. rewrite (proj2 (Z.eqb_neq _ 0)) by (unfold HDR in *; lia).
  assert (shape h ((pre ++ [(sz, f)]) ++ (s2, f2) :: post)) as Hs' by (by rewrite <-app_assoc).
  assert (head h + extent (pre ++ [(sz, f)]) = head h + extent pre + HDR + sz) as Hadr.
  { rewrite extent_app, extent_cons. change (extent []) with 0. simpl. lia. }
  pose proof (shape_get _ _ _ _ Hs') as Hget. rewrite Hadr in Hget. rewrite Hget, bind_ok.
  cbn [next size free prev fst snd].
  destruct f2; [|by apply wp_ok; split_and!]. cbn [merge_right fst snd].
  rewrite extent_cons in H5. inversion Hok2 as [|? ? Hs2 Hok3]; subst. simpl in Hs2, H5.
  pose proof (extent_nonneg _ Hok3). unfold HDR in *.
  rewrite (u64_small (sz + (32 + s2))) by lia.
  assert (blocks_ok (pre ++ (sz + 32 + s2, f) :: post)) as Hok'.
  { apply blocks_ok_app. split; [done|]. constructor; [simpl; zlia|done]. }
  assert (extent (pre ++ (sz + 32 + s2, f) :: post) =
          extent (pre ++ (sz, f) :: (s2, true) :: post)) as Hext'.
  { rewrite !extent_app, !extent_cons. unfold HDR. simpl. lia. }
  replace (sz + (32 + s2)) with (sz + 32 + s2) by lia.
  set (A := head h + extent pre) in *.
  destruct post as [|c post].
  - cbn [next_addr]. rewrite Z.eqb_refl. apply wp_ok. split; [|by split_and!].
    apply (shape_update _ _ _ _ Hs); [done..|]. apply merge_layout; [done|..]; cbn [set_hdr hdrs]; fold A.
    + intros x Hx. by rewrite lookup_insert_ne by lia.
    + by rewrite lookup_insert_eq.
    + done.
  - cbn [next_addr fst]. unfold HDR. rewrite (proj2 (Z.eqb_neq _ 0)) by lia.
    assert (layout (hdrs h) (A + 32 + sz + 32 + s2) (A + 32 + sz) (c :: post)) as Hlc.
    { pose proof Hs as (_ & _ & _ & Hl & _). rewrite layout_app in Hl.
      destruct Hl as [_ (_ & _ & Hl)]. done. }
    destruct (layout_relink _ _ _ A _ _ _ Hok3 Hlc) as (hc & Hhc & Hlc').
    rewrite get_set_ne, (get_hdr_ok _ _ _ Hhc), bind_ok by lia. apply wp_ok.
    split; [|by split_and!]. apply (shape_update _ _ _ _ Hs); [done..|].
    apply merge_layout; [done|..]; cbn [set_hdr hdrs]; fold A; unfold HDR.
    + intros x Hx. by rewrite !lookup_insert_ne by lia.
    + by rewrite lookup_insert_ne, lookup_insert_eq by lia.
    + eapply layout_frame; [done| |exact Hlc']. intros x Hx.
      destruct (decide (x = A + 32 + sz + 32 + s2)) as [->|]; [by rewrite !lookup_insert_eq|].
      by rewrite !lookup_insert_ne by lia.
Qed.

(** Merging a free block with its right neighbour leaves no free one after it. *)
Lemma merge_right_head sz post :
  coalesced post → pair_ok (Some ((merge_right sz post).1, true)) (list.head (merge_right sz post).2).
Proof. destruct post as [|[s2 []] [|[s3 []] post]]; simpl; tauto. Qed.

Lemma merge_right_tail sz post : coalesced post → coalesced (merge_right sz post).2.
Proof. destruct post as [|[s2 []] post]; simpl; tauto. Qed.

Lemma release_snoc pre s0 sz post :
  release (pre ++ [(s0, true)]) sz post =
  pre ++ (s0 + HDR + (merge_right sz post).1, true) :: (merge_right sz post).2.
Proof.
  unfold release. destruct (merge_right sz post) as [sz' post']. rewrite reverse_snoc.
  by rewrite reverse_involutive.
Qed.

Lemma release_keep pre sz post :
  pair_ok (last pre) (Some (sz, true)) →
  release pre sz post = pre ++ ((merge_right sz post).1, true) :: (merge_right sz post).2.
Proof.
  intros Hp. unfold release. destruct (merge_right sz post) as [sz' post'].
  destruct pre as [|[s0 []] pre _] using rev_ind; [done| |].
  - by rewrite last_snoc in Hp.
  - by rewrite reverse_snoc.
Qed.

Lemma coalesce_ok fuel h pre sz post :
  shape h (pre ++ (sz, true) :: post) → coalesced pre → coalesced post → (2 ≤ fuel)%nat →
  coalesce fuel h (head h + extent pre) ⇓ λ h',
    shape h' (release pre sz post) ∧ coalesced (release pre sz post) ∧
    head h' = head h ∧ used_size h' = used_size h ∧ bytes h' = bytes h.
Proof.
  intros Hs Hcp Hcq Hfuel. destruct fuel as [|[|fuel]]; [lia..|]. simpl.
  apply wp_bind. eapply wp_mono; [by apply absorb_next_ok|].
  intros h1 (Hs1 & Hh1 & Hu1 & Hb1). rewrite <-Hh1.
  set (sz1 := (merge_right sz post).1) in *. set (post1 := (merge_right sz post).2) in *.
  pose proof (merge_right_head sz post Hcq) as Hhd. pose proof (merge_right_tail sz post Hcq) as Htl.
  rewrite (shape_get _ _ _ _ Hs1), bind_ok. cbn [prev].
  destruct pre as [|[s0 f0] pre _] using rev_ind.
  { simpl. rewrite release_keep by done. apply wp_ok. by split_and!. }
  rewrite last_addr_snoc. rewrite <-app_assoc in Hs1. simpl in Hs1.
  pose proof (shape_bounds _ _ _ _ Hs1) as (H1 & H2 & H3 & _).
  rewrite (proj2 (Z.eqb_neq _ 0)) by lia.
  rewrite (shape_get _ _ _ _ Hs1), bind_ok. cbn [free snd].
  apply coalesced_app in Hcp as (Hcp & _ & Hlast). simpl in Hlast.
  destruct f0.
  - apply wp_bind. eapply wp_mono; [by apply absorb_next_ok|].
    intros h2 (Hs2 & Hh2 & Hu2 & Hb2). simpl in Hs2. rewrite <-Hh2.
    rewrite (shape_get _ _ _ _ Hs2), bind_ok. cbn [prev]. rewrite release_snoc.
    fold sz1 post1.
    assert (coalesced (pre ++ (s0 + HDR + sz1, true) :: post1)) as Hco.
    { apply coalesced_app. simpl. split; [done|]. split; [by split|].
      by destruct (last pre) as [[? []]|]. }
    destruct pre as [|[s' f'] pre _] using rev_ind.
    { simpl. apply wp_ok. split_and!; [done..|congruence|congruence|congruence]. }
    rewrite last_addr_snoc. rewrite <-app_assoc in Hs2. simpl in Hs2.
    pose proof (shape_bounds _ _ _ _ Hs2) as (H1' & H2' & _).
    rewrite (proj2 (Z.eqb_neq _ 0)) by lia.
    rewrite (shape_get _ _ _ _ Hs2), bind_ok. cbn [free snd].
    rewrite last_snoc in Hlast. destruct f'; [done|]. apply wp_ok.
    rewrite <-app_assoc. split_and!; [done| |congruence|congruence|congruence].
    by rewrite <-app_assoc in Hco.
  - rewrite release_keep by (by rewrite last_snoc). apply wp_ok. fold sz1 post1.
    rewrite <-app_assoc. split_and!; [done| |done..].
    apply coalesced_app. simpl. split; [done|]. split; [|done]. by split_and!.
Qed.

Lemma in_use_merge sz post : in_use (merge_right sz post).2 = in_use post.
Proof. destruct post as [|[s2 []] post]; done. Qed.

Lemma in_use_release pre sz post : in_use (release pre sz post) = in_use pre + in_use post.
Proof.
  destruct pre as [|[s0 []] pre _] using rev_ind.
  - rewrite release_keep by done. simpl. rewrite in_use_cons, in_use_merge. done.
  - rewrite release_snoc, !in_use_app, !in_use_cons, in_use_merge. change (in_use []) with 0. simpl. lia.
  - rewrite release_keep by (by rewrite last_snoc).
    rewrite !in_use_app, !in_use_cons, in_use_merge. change (in_use []) with 0. simpl. lia.
Qed.

Lemma release_nonempty pre sz post : release pre sz post ≠ [].
Proof.
  unfold release. destruct (merge_right sz post), (reverse pre) as [|[? []] ?];
    by intros [_ ?]%app_eq_nil.
Qed.

Lemma inside_outside h pre b post :
  shape h (pre ++ b :: post) → outside h (head h + extent pre) = false.
Proof.
  intros Hs. pose proof (shape_bounds _ _ _ _ Hs) as (H1 & H2 & H3 & _ & H4 & _).
  destruct Hs as (_ & _ & _ & _ & _ & Ht). unfold outside. rewrite Ht, extent_app, extent_cons.
  unfold HDR. destruct (Z.ltb_spec (head h + extent pre) (head h)); [lia|]. simpl.
  apply Z.leb_gt. lia.
Qed.

Lemma kfree_ok h pre sz post :
  repr h (pre ++ (sz, false) :: post) →
  kfree h (head h + extent pre + HDR) ⇓ λ h',
    repr h' (release pre sz post) ∧ head h' = head h ∧ bytes h' = bytes h.
Proof.
  intros (Hs & Hne & Hco & Hu). pose proof (shape_bounds _ _ _ _ Hs) as (H1 & H2 & H3 & H3' & H4 & H5 & Hok1 & Hok2).
  simpl in *. unfold kfree. rewrite (proj2 (Z.eqb_neq _ 0)) by (unfold HDR; lia).
  rewrite u64_small by (unfold HDR in *; lia).
  replace (head h + extent pre + HDR - HDR) with (head h + extent pre) by lia.
  rewrite (inside_outside _ _ _ _ Hs).
  destruct (shape_set_free _ _ _ _ true _ Hs) as (b & Hget & Hsb & Hfb & Hs').
  rewrite Hget, bind_ok, Hfb. rewrite (u64_small (used_size h - size b)).
  2:{ rewrite Hu, Hsb. pose proof (in_use_bounds pre Hok1). pose proof (in_use_bounds post Hok2).
      rewrite in_use_app, in_use_cons. unfold HDR in *. simpl. lia. }
  apply coalesced_app in Hco as (Hcp & [_ Hcq] & _).
  eapply wp_mono; [apply (coalesce_ok _ (set_hdr (set_used h _) _ _) pre sz post)|].
  - exact Hs'.
  - done.
  - done.
  - unfold list_fuel. lia.
  - intros h' (Hs'' & Hco' & Hh' & Hu' & Hb'). split; [|done].
    split; [done|]. split; [apply release_nonempty|]. split; [done|].
    rewrite Hu', in_use_release. simpl. rewrite Hu, Hsb, in_use_app, in_use_cons. simpl. lia.
Qed.

(** ** Live allocations *)

(** Payload address and size of the blocks in use, the first block being at [a]. *)
Fixpoint live_from (a : Z) (bl : list block) : list (Z * Z) :=
  match bl with
  | [] => []
  | (sz, f) :: rest => (if f : bool then [] else [(a + HDR, sz)]) ++ live_from (a + HDR + sz) rest
  end.

Lemma live_app a l1 l2 : live_from a (l1 ++ l2) = live_from a l1 ++ live_from (a + extent l1) l2.
Proof.
  revert a. induction l1 as [|[sz f] l1 IH]; intros a; simpl.
  - change (extent []) with 0. by rewrite Z.add_0_r.
  - rewrite IH, extent_cons, app_assoc. simpl.
    by replace (a + (HDR + sz + extent l1)) with (a + HDR + sz + extent l1) by lia.
Qed.

Lemma live_place a n sz :
  live_from a (place n sz) = [(a + HDR, if sz <? n + HDR + 16 then sz else n)].
Proof. unfold place. by destruct (Z.ltb sz (n + HDR + 16)). Qed.

Lemma live_merge a sz post :
  live_from (a + HDR + (merge_right sz post).1) (merge_right sz post).2 =
  live_from (a + HDR + sz) post.
Proof.
  destruct post as [|[s2 []] post]; simpl; [done| |done]. f_equal. lia.
Qed.

Lemma live_release a pre sz post :
  live_from a (release pre sz post) = live_from a pre ++ live_from (a + extent pre + HDR + sz) post.
Proof.
  destruct pre as [|[s0 []] pre _] using rev_ind.
  - rewrite release_keep by done. simpl. rewrite live_merge. change (extent []) with 0.
    by rewrite Z.add_0_r.
  - rewrite release_snoc, !live_app, extent_app, extent_cons. change (extent []) with 0.
    simpl. rewrite app_nil_r. f_equal.
    replace (a + extent pre + HDR + (s0 + HDR + (merge_right sz post).1))
      with ((a + extent pre + HDR + s0) + HDR + (merge_right sz post).1) by lia.
    rewrite live_merge. f_equal. lia.
  - rewrite release_keep by (by rewrite last_snoc). rewrite !live_app. simpl. f_equal.
    apply live_merge.
Qed.

(** A live block's payload lies inside the list's space. *)
Lemma live_range a bl p sz :
  blocks_ok bl → (p, sz) ∈ live_from a bl →
  a + HDR ≤ p ∧ 0 ≤ sz ∧ p + sz ≤ a + extent bl ∧ (p - a) mod 16 = 0.
Proof.
  intros Hok. revert a. induction Hok as [|[s f] bl Hb Hok IH]; intros a; simpl.
  - by intros ?%not_elem_of_nil.
  - rewrite extent_cons. pose proof (extent_nonneg bl Hok). simpl in *. unfold HDR in *.
    intros [Hin|Hin]%elem_of_app.
    + destruct f; [by apply not_elem_of_nil in Hin|].
      apply list_elem_of_singleton in Hin as [= -> ->]. split_and!; try lia. zlia.
    + destruct (IH _ Hin) as (? & ? & ? & Hm). split_and!; try lia. zlia.
Qed.

(** Live payloads are separated by at least a header. *)
Lemma live_disjoint a bl i j p sz q tz :
  blocks_ok bl → live_from a bl !! i = Some (p, sz) → live_from a bl !! j = Some (q, tz) →
  (i < j)%nat → p + sz + HDR ≤ q.
Proof.
  intros Hok. revert a i j. induction Hok as [|[s f] bl Hb Hok IH]; intros a i j; simpl; [done|].
  destruct f; simpl; [apply IH|].
  destruct i as [|i], j as [|j]; simpl; intros Hi Hj Hij; [lia| |lia|].
  - simplify_eq. assert ((q, tz) ∈ live_from (a + HDR + sz) bl) as Hin
      by (apply list_elem_of_lookup; eauto).
    destruct (live_range _ _ _ _ Hok Hin) as (? & _). lia.
  - eapply IH; eauto. lia.
Qed.

(** A block in use can be found in the list from its payload address. *)
Lemma live_split a bl p sz :
  (p, sz) ∈ live_from a bl →
  ∃ pre post, bl = pre ++ (sz, false) :: post ∧ p = a + extent pre + HDR.
Proof.
  revert a. induction bl as [|[s f] bl IH]; intros a; simpl; [by intros ?%not_elem_of_nil|].
  intros [Hin|Hin]%elem_of_app.
  - destruct f; [by apply not_elem_of_nil in Hin|].
    apply list_elem_of_singleton in Hin as [= -> ->]. exists [], bl. split; [done|].
    change (extent []) with 0. lia.
  - destruct (IH _ Hin) as (pre & post & -> & ->). exists ((s, f) :: pre), post.
    split; [done|]. rewrite extent_cons. simpl. lia.
Qed.

(** ** What the rest of the kernel may rely on *)

(** A state [h] in which exactly the (address, size) pairs [l] are allocated. *)
Class Allocator (H : Type) := {
  al_repr : H → list (Z * Z) → Prop;
  al_malloc : H → Z → outcome (Z * H);
  al_calloc : H → Z → Z → outcome (Z * H);
  al_free : H → Z → outcome H;
  al_repr_perm : ∀ h l l', l ≡ₚ l' → al_repr h l → al_repr h l';
  al_repr_range : ∀ h l p sz, al_repr h l → (p, sz) ∈ l → 0 < p ∧ 0 ≤ sz ∧ p + sz < 2 ^ 63;
  al_repr_disjoint : ∀ h p sz q tz l,
    al_repr h ((p, sz) :: (q, tz) :: l) → p + sz ≤ q ∨ q + tz ≤ p;
  al_malloc_spec : ∀ h l n, al_repr h l → 0 < n ≤ 2 ^ 32 - 16 →
    al_malloc h n ⇓ λ '(p, h'),
      (p = 0 ∧ al_repr h' l) ∨
      (∃ sz, 0 < p ∧ n ≤ sz ∧ (∀ q tz, (q, tz) ∈ l → p + sz ≤ q ∨ q + tz ≤ p) ∧
             (p ∉ l.*1) ∧ al_repr h' ((p, sz) :: l));
  al_calloc_spec : ∀ h l c n, al_repr h l → 0 < c → 0 < n → c * n ≤ 2 ^ 32 - 16 →
    al_calloc h c n ⇓ λ '(p, h'),
      (p = 0 ∧ al_repr h' l) ∨
      (∃ sz, 0 < p ∧ c * n ≤ sz ∧ (∀ q tz, (q, tz) ∈ l → p + sz ≤ q ∨ q + tz ≤ p) ∧
             (p ∉ l.*1) ∧ al_repr h' ((p, sz) :: l));
  al_free_spec : ∀ h l p sz, al_repr h ((p, sz) :: l) → al_free h p ⇓ λ h', al_repr h' l;
  al_free_null : ∀ h, al_free h 0 = Ok h
}.

Definition allocated (h : heap_t) (l : list (Z * Z)) : Prop :=
  ∃ bl, repr h bl ∧ l ≡ₚ live_from (head h) bl.

(** The new block is apart from every block of the list around it. *)
Lemma place_apart a pre sz n post q tz :
  blocks_ok (pre ++ (sz, true) :: post) → 0 ≤ n ≤ sz →
  (q, tz) ∈ live_from a (pre ++ (sz, true) :: post) →
  let s1 := if sz <? n + HDR + 16 then sz else n in
  let p := a + extent pre + HDR in
  (p + s1 ≤ q ∨ q + tz ≤ p) ∧ p ≠ q.
Proof.
  intros Hok Hn Hin s1 p. apply blocks_ok_app in Hok as [Hok1 Hok2].
  apply Forall_cons in Hok2 as [Hb Hok2]. simpl in Hb.
  assert (n ≤ s1 ≤ sz) by (unfold s1; destruct (Z.ltb_spec sz (n + HDR + 16)); lia).
  rewrite live_app in Hin. unfold HDR in *. apply elem_of_app in Hin as [Hin|Hin].
  - destruct (live_range _ _ _ _ Hok1 Hin) as (? & ? & ? & _). unfold HDR in *. lia.
  - simpl in Hin. destruct (live_range _ _ _ _ Hok2 Hin) as (? & ? & ? & _). unfold HDR in *. lia.
Qed.

(** Where the heap lies. *)
Definition region (h : heap_t) : Z * Z := (head h, total_size h).

Lemma repr_region h h' bl bl' :
  repr h bl → repr h' bl' → head h' = head h → extent bl' = extent bl → region h' = region h.
Proof.
  intros (Hs & _) (Hs' & _) Hh He. unfold region. destruct Hs as (_ & _ & _ & _ & _ & ->).
  destruct Hs' as (_ & _ & _ & _ & _ & ->). by rewrite Hh, He.
Qed.

Lemma extent_place n sz : extent (place n sz) = HDR + sz.
Proof.
  unfold place. destruct (sz <? n + HDR + 16); rewrite !extent_cons; change (extent []) with 0;
    simpl; lia.
Qed.

Lemma extent_release pre sz post : extent (release pre sz post) = extent (pre ++ (sz, false) :: post).
Proof.
  assert (HDR + (merge_right sz post).1 + extent (merge_right sz post).2 = HDR + sz + extent post) as Hm.
  { destruct post as [|[s2 []] post]; simpl; rewrite ?extent_cons; simpl; lia. }
  rewrite extent_app, extent_cons. destruct pre as [|[s0 []] pre _] using rev_ind.
  - rewrite release_keep by done. simpl. rewrite extent_cons. change (extent []) with 0. simpl. lia.
  - rewrite release_snoc, !extent_app, !extent_cons. change (extent []) with 0. simpl. lia.
  - rewrite release_keep by (by rewrite last_snoc). rewrite !extent_app, !extent_cons. simpl. lia.
Qed.

Lemma kmalloc_allocated h l n :
  allocated h l → 0 < n ≤ 2 ^ 32 - 16 →
  kmalloc h n ⇓ λ '(p, h'), bytes h' = bytes h ∧ region h' = region h ∧
    ((p = 0 ∧ allocated h' l) ∨
     (∃ sz, 0 < p ∧ p mod 16 = 0 ∧ n ≤ sz ∧
            (∀ q tz, (q, tz) ∈ l → p + sz ≤ q ∨ q + tz ≤ p) ∧
            (p ∉ l.*1) ∧ allocated h' ((p, sz) :: l))).
Proof.
  intros (bl & Hr & Hp) Hn. pose proof Hr as (Hs & _). pose proof Hs as (Hh & Hhm & _ & _ & Hok & _).
  pose proof (align_size_small n ltac:(lia)) as Hal. pose proof (align_size_mod n) as [Hal2 Halm].
  eapply wp_mono; [apply kmalloc_ok; [done|lia]|].
  intros [p h'] [(-> & -> & _)|(pre & sz & post & -> & Hfit & _ & -> & Hr' & Hh' & Hby)].
  { do 2 (split; [done|]). left. split; [done|]. by exists bl. }
  split; [done|]. split.
  { apply (repr_region _ _ _ _ Hr Hr' Hh'). by rewrite !extent_app, extent_place, extent_cons. }
  right. set (m := align_size n) in *.
  apply blocks_ok_app in Hok as Hok'. destruct Hok' as [Hok1 _]. pose proof (extent_nonneg _ Hok1).
  pose proof (extent_mod _ Hok1).
  exists (if sz <? m + HDR + 16 then sz else m). unfold HDR in *.
  split; [lia|]. split; [zlia|]. split; [destruct (Z.ltb_spec sz (m + 32 + 16)); lia|].
  split; [|split].
  - intros q tz Hin. rewrite Hp in Hin.
    by destruct (place_apart _ _ _ m _ _ _ Hok ltac:(lia) Hin).
  - intros [[q tz] [Heq Hin]]%list_elem_of_fmap. simpl in Heq. rewrite Hp in Hin.
    by destruct (place_apart _ _ _ m _ _ _ Hok ltac:(lia) Hin).
  - exists (pre ++ place m sz ++ post). split; [done|]. rewrite Hh', Hp.
    rewrite !live_app, live_place. destruct (place_sizes m sz) as (s1 & rest & _ & _ & _ & Hex);
      [lia|done| |].
    { apply Forall_app in Hok as [_ Hok]. apply Forall_cons in Hok as [Hb _]. apply Hb. }
    rewrite Hex. simpl. unfold HDR. rewrite Z.add_assoc. apply Permutation_middle.
Qed.

Lemma kfree_allocated h l p sz :
  allocated h ((p, sz) :: l) → kfree h p ⇓ λ h', allocated h' l ∧ bytes h' = bytes h ∧ region h' = region h.
Proof.
  intros (bl & Hr & Hp).
  assert ((p, sz) ∈ live_from (head h) bl) as Hin by (rewrite <-Hp; left).
  destruct (live_split _ _ _ _ Hin) as (pre & post & -> & ->).
  eapply wp_mono; [by apply kfree_ok|]. intros h' (Hr' & Hh' & Hb').
  pose proof (repr_region _ _ _ _ Hr Hr' Hh' (extent_release _ _ _)). split; [|done].
  exists (release pre sz post). split; [done|]. rewrite Hh', live_release.
  rewrite live_app in Hp. simpl in Hp. apply (Permutation_cons_inv (a := (head h + extent pre + HDR, sz))).
  rewrite Hp. symmetry. apply Permutation_middle.
Qed.

Lemma allocated_range h l p sz :
  allocated h l → (p, sz) ∈ l → 0 < p ∧ 0 ≤ sz ∧ p + sz < 2 ^ 63.
Proof.
  intros (bl & (Hs & _) & Hp) Hin. destruct Hs as (Hh & _ & He & _ & Hok & _).
  rewrite Hp in Hin. destruct (live_range _ _ _ _ Hok Hin) as (? & ? & ? & _).
  unfold HDR in *. lia.
Qed.

Lemma allocated_disjoint h p sz q tz l :
  allocated h ((p, sz) :: (q, tz) :: l) → p + sz + HDR ≤ q ∨ q + tz + HDR ≤ p.
Proof.
  intros (bl & (Hs & _) & Hp). destruct Hs as (_ & _ & _ & _ & Hok & _).
  apply Permutation_inj in Hp as [_ (f & Hinj & Hf)].
  pose proof (Hf 0%nat) as H0. pose proof (Hf 1%nat) as H1. simpl in H0, H1.
  assert (f 0%nat ≠ f 1%nat) by (by intros ?%Hinj).
  destruct (decide (f 0 < f 1)%nat).
  - left. by eapply live_disjoint; [exact Hok|symmetry; exact H0|symmetry; exact H1|].
  - right. eapply live_disjoint; [exact Hok|symmetry; exact H1|symmetry; exact H0|lia].
Qed.

Lemma allocated_same h h' l :
  hdrs h' = hdrs h → head h' = head h → total_size h' = total_size h → used_size h' = used_size h →
  allocated h l → allocated h' l.
Proof.
  intros H1 H2 H3 H4 (bl & (Hs & Hrest) & Hp). exists bl. rewrite H2. split; [|done].
  unfold repr, shape in *. by rewrite H1, H2, H3, H4.
Qed.

Lemma allocated_hdr h l p sz :
  allocated h ((p, sz) :: l) →
  u64 (p - HDR) = p - HDR ∧ outside h (p - HDR) = false ∧
  ∃ b, get_hdr h (p - HDR) = Ok b ∧ size b = sz ∧ free b = false.
Proof.
  intros (bl & (Hs & _) & Hp).
  assert ((p, sz) ∈ live_from (head h) bl) as Hin by (rewrite <-Hp; left).
  destruct (live_split _ _ _ _ Hin) as (pre & post & -> & ->).
  pose proof (shape_bounds _ _ _ _ Hs) as (H1 & H2 & H3 & H3' & H4 & H5 & _).
  simpl in *. replace (head h + extent pre + HDR - HDR) with (head h + extent pre) by lia.
  split; [apply u64_small; unfold HDR in *; lia|]. split; [by eapply inside_outside|].
  eexists; split; [by apply shape_get|done].
Qed.

Lemma allocated_in_block h l p sz n : allocated h ((p, sz) :: l) → n ≤ sz → in_block h p n = true.
Proof.
  intros Ha Hn. destruct (allocated_hdr _ _ _ _ Ha) as (_ & _ & b & Hb & <- & Hf). unfold in_block, get_hdr in *.
  destruct (hdrs h !! (p - HDR)); simplify_eq. by rewrite Hf, (proj2 (Z.leb_le _ _)).
Qed.

(** Only the bytes of the heap change. *)
Definition rewrites (h : heap_t) (f : Z → option Z) (h' : heap_t) : Prop :=
  ∃ bs, h' = set_bytes h bs ∧ ∀ x, bs !! x = f x.

Lemma zero_bytes_ok h p n :
  0 ≤ n → in_block h p n = true →
  zero_bytes h p n ⇓ rewrites h (λ x, if decide (p ≤ x < p + n) then Some 0 else bytes h !! x).
Proof.
  intros Hn Hi. unfold zero_bytes. rewrite Hi. apply wp_bind. apply (wp_for_each (λ i bs', ∀ x, bs' !! x =
    if decide (p ≤ x < p + i) then Some 0 else bytes h !! x)); [lia| | |].
  - intros x. rewrite decide_False by lia. done.
  - intros i bs' Hi' Hx. apply wp_ok. intros x. rewrite lookup_insert, Hx.
    repeat case_decide; try done; lia.
  - intros bs Hbs. apply wp_ok. by exists bs.
Qed.

Lemma kcalloc_allocated h l c n :
  allocated h l → 0 < c → 0 < n → c * n ≤ 2 ^ 32 - 16 →
  kcalloc h c n ⇓ λ '(p, h'), region h' = region h ∧
    ((p = 0 ∧ allocated h' l ∧ bytes h' = bytes h) ∨
     ∃ sz, 0 < p ∧ c * n ≤ sz ∧ (∀ q tz, (q, tz) ∈ l → p + sz ≤ q ∨ q + tz ≤ p) ∧
           (p ∉ l.*1) ∧ allocated h' ((p, sz) :: l) ∧
           ∀ x, bytes h' !! x = if decide (p ≤ x < p + c * n) then Some 0 else bytes h !! x).
Proof.
  intros Ha Hc Hn Hcn. unfold kcalloc.
  assert (n ≤ (2 ^ 64 - 1) / c) as Hov by (apply Z.div_le_lower_bound; lia).
  rewrite (proj2 (Z.ltb_ge _ _) Hov), andb_false_r. rewrite u64_small by nia.
  apply wp_bind. eapply wp_mono; [apply kmalloc_allocated; [done|nia]|].
  intros [p h1] (Hb & Hre & [(-> & Ha1)|(sz & Hp & _ & Hsz & Hd & Hf & Ha1)]).
  { apply wp_ok. split; [done|]. by left. }
  rewrite (proj2 (Z.eqb_neq p 0)) by lia. apply wp_bind.
  eapply wp_mono; [apply zero_bytes_ok; [nia|by apply (allocated_in_block _ l p sz)]|].
  intros h2 (bs & -> & Hbs). apply wp_ok.
  split; [done|]. right. exists sz.
  do 4 (split; [done|]). split; [by eapply allocated_same; [..|exact Ha1]|].
  intros x. simpl. by rewrite Hbs, Hb.
Qed.

#[global] Program Instance heap_allocator : Allocator heap_t := {|
  al_repr := allocated;
  al_malloc := kmalloc;
  al_calloc := kcalloc;
  al_free := kfree
|}.
Next Obligation. intros h l l' Hp (bl & Hr & Hl). exists bl. split; [done|]. by rewrite <-Hp. Qed.
Next Obligation. intros. by eapply allocated_range. Qed.
Next Obligation. intros h p sz q tz l Ha%allocated_disjoint. unfold HDR in Ha. lia. Qed.
Next Obligation.
  intros h l n Ha Hn. eapply wp_mono; [by apply kmalloc_allocated|].
  intros [p h'] (_ & _ & [?|(sz & ? & _ & ? & ? & ? & ?)]); [by left|right; eauto 10].
Qed.
Next Obligation.
  intros h l c n Ha Hc Hn Hcn. eapply wp_mono; [by apply kcalloc_allocated|].
  intros [p h'] (_ & [(? & ? & _)|(sz & ? & ? & ? & ? & ? & _)]); [by left|right; eauto 10].
Qed.
Next Obligation.
  intros h l p sz Ha. eapply wp_mono; [by apply (kfree_allocated h l p sz)|]. by intros h' (? & _).
Qed.
Next Obligation. done. Qed.

Lemma copy_bytes_ok h dst src n :
  0 ≤ n → dst + n ≤ src ∨ src + n ≤ dst → in_block h dst n = true → in_block h src n = true →
  copy_bytes h dst src n ⇓
    rewrites h (λ x, if decide (dst ≤ x < dst + n) then bytes h !! (src + (x - dst)) else bytes h !! x).
Proof.
  intros Hn Hd H1 H2. unfold copy_bytes. rewrite H1, H2. apply wp_bind. apply (wp_for_each (λ i bs', ∀ x, bs' !! x =
    if decide (dst ≤ x < dst + i) then bytes h !! (src + (x - dst)) else bytes h !! x)); [lia| | |].
  - intros x. by rewrite decide_False by lia.
  - intros i bs' Hi Hx. apply wp_ok. intros x. destruct (decide (x = dst + i)) as [->|Hne].
    + rewrite lookup_partial_alter_eq, Hx, decide_False, decide_True by lia. f_equal. lia.
    + rewrite lookup_partial_alter_ne, Hx by done. repeat case_decide; try done; lia.
  - intros bs Hbs. apply wp_ok. by exists bs.
Qed.

Lemma krealloc_allocated h l p sz n :
  allocated h ((p, sz) :: l) → 0 < n ≤ 2 ^ 32 - 16 →
  krealloc h p n ⇓ λ '(q, h'), region h' = region h ∧
    ((q = 0 ∧ allocated h' ((p, sz) :: l) ∧ bytes h' = bytes h) ∨
     ∃ sz', 0 < q ∧ n ≤ sz' ∧ allocated h' ((q, sz') :: l) ∧
       (∀ i, 0 ≤ i < sz → bytes h' !! (q + i) = bytes h !! (p + i)) ∧
       (∀ a tz x, (a, tz) ∈ l → a ≤ x < a + tz → bytes h' !! x = bytes h !! x)).
Proof.
  intros Ha Hn. destruct (allocated_range _ _ _ _ Ha (list_elem_of_here _ _)) as (Hp & Hsz & _).
  destruct (allocated_hdr _ _ _ _ Ha) as (Hu & Ho & b & Hb & Hsb & Hfb).
  unfold krealloc. rewrite (proj2 (Z.eqb_neq p 0)), (proj2 (Z.eqb_neq n 0)), Hu, Ho by lia.
  rewrite Hb, bind_ok, Hfb, Hsb. destruct (Z.leb_spec n sz) as [Hle|Hgt].
  { apply wp_ok. split; [done|]. right. by exists sz. }
  apply wp_bind. eapply wp_mono; [by apply kmalloc_allocated|].
  intros [q h1] (Hb1 & Hre & [(-> & Ha1)|(sz' & Hq & _ & Hsz' & Hd & Hf & Ha1)]).
  { apply wp_ok. split; [done|]. by left. }
  rewrite (proj2 (Z.eqb_neq q 0)) by lia.
  assert (allocated h1 ((p, sz) :: (q, sz') :: l)) as Ha1'.
  { destruct Ha1 as (bl & Hr & Hl). exists bl. split; [done|]. rewrite <-Hl. constructor. }
  destruct (allocated_hdr _ _ _ _ Ha1') as (_ & _ & b1 & -> & Hsb1 & _). rewrite bind_ok, Hsb1.
  pose proof (Hd p sz (list_elem_of_here _ _)) as Hdp.
  apply wp_bind. eapply wp_mono; [apply copy_bytes_ok; [lia|lia| |]|].
  { by apply (allocated_in_block _ ((p, sz) :: l) q sz'); [|lia]. }
  { by apply (allocated_in_block _ ((q, sz') :: l) p sz). }
  intros h2 (bs & -> & Hbs).
  apply wp_bind. eapply wp_mono.
  { apply (kfree_allocated _ ((q, sz') :: l) p sz). by eapply allocated_same; [..|exact Ha1']. }
  intros h3 (Ha2 & Hb2 & Hre2). apply wp_ok. split; [by rewrite Hre2|]. right. exists sz'.
  do 3 (split; [done|]). rewrite Hb2. simpl. split.
  - intros i Hi. rewrite Hbs, decide_True, Hb1 by lia. f_equal. lia.
  - intros a tz x Hin Hx. destruct (Hd a tz (list_elem_of_further _ _ _ Hin));
      rewrite Hbs, decide_False, Hb1 by lia; done.
Qed.

Lemma allocated_distinct h p sz l : allocated h ((p, sz) :: l) → (p ∉ l.*1).
Proof.
  intros (bl & Hr & Hl) Hin. apply list_elem_of_fmap in Hin as ([q tz] & Heq & Hin). simpl in Heq. subst q.
  apply list_elem_of_split in Hin as (l1 & l2 & ->).
  assert (allocated h ((p, sz) :: (p, tz) :: l1 ++ l2)) as Hd.
  { exists bl. split; [done|]. rewrite <-Hl. constructor. by rewrite Permutation_middle. }
  pose proof (allocated_range _ _ p sz Hd ltac:(left)) as (_ & ? & _).
  pose proof (allocated_range _ _ p tz Hd ltac:(right; left)) as (_ & ? & _).
  apply allocated_disjoint in Hd. unfold HDR in Hd. lia.
Qed.

(** An allocator that can also resize a block.  The contents move with the block:
    [krealloc_allocated] is the heap's statement of that. *)
Class Reallocator (H : Type) `{AL : Allocator H} := {
  al_realloc : H → Z → Z → outcome (Z * H);
  al_realloc_null : ∀ h n, al_realloc h 0 n = al_malloc h n;
  al_realloc_spec : ∀ h l p sz n, al_repr h ((p, sz) :: l) → 0 < n ≤ 2 ^ 32 - 16 →
    al_realloc h p n ⇓ λ '(q, h'),
      (q = 0 ∧ al_repr h' ((p, sz) :: l)) ∨
      (∃ tz, 0 < q ∧ n ≤ tz ∧ (q ∉ l.*1) ∧ al_repr h' ((q, tz) :: l))
}.

#[global] Program Instance heap_reallocator : Reallocator heap_t := {| al_realloc := krealloc |}.
Next Obligation. done. Qed.
Next Obligation.
  intros h l p sz n Ha Hn. eapply wp_mono; [by apply krealloc_allocated|].
  intros [q h'] (_ & [(? & ? & _)|(tz & ? & ? & Ha' & _)]); [by left|right].
  exists tz. by eauto using allocated_distinct.
Qed.

Lemma allocated_aligned h p sz l : allocated h ((p, sz) :: l) →
  p mod 16 = 0 ∧ head h + HDR ≤ p ∧ p + sz ≤ head h + HDR + total_size h.
Proof.
  intros (bl & (Hs & _) & Hp). destruct Hs as (_ & Hh & _ & _ & Hok & Ht).
  assert ((p, sz) ∈ live_from (head h) bl) as Hin by (rewrite <-Hp; left).
  destruct (live_range _ _ _ _ Hok Hin) as (? & ? & ? & ?). rewrite Ht. unfold HDR in *.
  split; [zlia|lia].
Qed.

Lemma heap_init_repr h base sz :
  0 < base → base mod 16 = 0 → HDR < sz → sz mod 16 = 0 → base + sz < 2 ^ 63 →
  repr (heap_init h base sz) [(sz - HDR, true)] ∧ region (heap_init h base sz) = (base, sz - HDR).
Proof.
  intros Hb Hm Hs Hsm He. unfold heap_init, HDR in *.
  rewrite (proj2 (Z.eqb_neq base 0)), (proj2 (Z.leb_gt sz 32)) by lia. simpl.
  split; [|done]. split; [|split; [done|split; [by split|done]]].
  unfold shape. rewrite extent_cons. change (extent []) with 0. unfold HDR in *. simpl.
  split_and!; try done; try lia; [by rewrite lookup_insert_eq|].
  apply Forall_singleton. simpl. split; [lia|zlia].
Qed.

(** With nothing allocated, the whole region is one free block again. *)
Lemma allocated_nil h : allocated h [] → repr h [(total_size h, true)].
Proof.
  intros (bl & Hr & Hp). apply Permutation_nil_l in Hp. pose proof Hr as (Hs & Hne & Hco & _).
  destruct Hs as (_ & _ & _ & _ & _ & Ht).
  destruct bl as [|[s1 []] [|[s2 []] bl]]; simpl in *; try done.
  - rewrite Ht. rewrite extent_cons. change (extent []) with 0. simpl.
    by replace (HDR + s1 + 0 - HDR) with s1 by lia.
  - by destruct Hco.
Qed.

(** ** Clients *)

(** A client keeps the pointers it obtained in numbered slots, with the size it
    asked for.  An operation on a slot that does not fit does nothing. *)
Inductive heap_op :=
  | OMalloc (k : nat) (n : Z)
  | OCalloc (k : nat) (c n : Z)
  | ORealloc (k : nat) (n : Z)
  | OFree (k : nat).

Abbreviation slots := (gmap nat (Z * Z)).

Definition store (k : nat) (n p : Z) (m : slots) : slots := if p =? 0 then m else <[k := (p, n)]> m.

Definition run_op (h : heap_t) (m : slots) (o : heap_op) : outcome (heap_t * slots) :=
  match o with
  | OMalloc k n =>
      match m !! k with
      | None => '(p, h) ← kmalloc h n; Ok (h, store k n p m)
      | Some _ => Ok (h, m)
      end
  | OCalloc k c n =>
      match m !! k with
      | None => '(p, h) ← kcalloc h c n; Ok (h, store k (c * n) p m)
      | Some _ => Ok (h, m)
      end
  | ORealloc k n =>
      match m !! k with
      | Some (p, _) => '(q, h) ← krealloc h p n; Ok (h, store k n q m)
      | None => Ok (h, m)
      end
  | OFree k =>
      match m !! k with
      | Some (p, _) => h ← kfree h p; Ok (h, delete k m)
      | None => Ok (h, m)
      end
  end.

Fixpoint run_ops (h : heap_t) (m : slots) (os : list heap_op) : outcome (heap_t * slots) :=
  match os with
  | [] => Ok (h, m)
  | o :: os => '(h, m) ← run_op h m o; run_ops h m os
  end.

(** Requests of at most 4 GiB less one alignment unit. *)
Definition op_ok (o : heap_op) : Prop :=
  match o with
  | OMalloc _ n | ORealloc _ n => 0 < n ≤ 2 ^ 32 - 16
  | OCalloc _ c n => 0 < c ∧ 0 < n ∧ c * n ≤ 2 ^ 32 - 16
  | OFree _ => True
  end.

(** The slots are exactly the allocated blocks; [g] also knows their real sizes. *)
Definition owns (h : heap_t) (m : slots) : Prop :=
  ∃ g : gmap nat ((Z * Z) * Z), m = fst <$> g ∧
    allocated h ((λ x, (x.2.1.1, x.2.2)) <$> map_to_list g) ∧
    ∀ k p n sz, g !! k = Some ((p, n), sz) → 0 < n ≤ sz.

Lemma owns_store h (g : gmap nat ((Z * Z) * Z)) k p n sz :
  g !! k = None → 0 < n ≤ sz → p ≠ 0 →
  allocated h ((p, sz) :: ((λ x, (x.2.1.1, x.2.2)) <$> map_to_list g)) →
  (∀ k p n sz, g !! k = Some ((p, n), sz) → 0 < n ≤ sz) →
  owns h (store k n p (fst <$> g)).
Proof.
  intros Hk Hn Hp (bl & Hr & Hl) Hg. unfold store. rewrite (proj2 (Z.eqb_neq p 0)) by done.
  exists (<[k := ((p, n), sz)]> g). split; [by rewrite fmap_insert|]. split.
  - exists bl. split; [done|]. rewrite <-Hl. by rewrite (map_to_list_insert g) by done.
  - intros k' p' n' sz'. rewrite lookup_insert_Some. intros [[_ [= <- <- <-]]|[_ ?]]; eauto.
Qed.

Lemma owns_delete h (g : gmap nat ((Z * Z) * Z)) k p n sz :
  g !! k = Some ((p, n), sz) →
  allocated h ((λ x, (x.2.1.1, x.2.2)) <$> map_to_list g) →
  allocated h ((p, sz) :: ((λ x, (x.2.1.1, x.2.2)) <$> map_to_list (delete k g))).
Proof.
  intros Hk (bl & Hr & Hl). exists bl. split; [done|]. rewrite <-Hl.
  by rewrite <-(map_to_list_delete g k) by done.
Qed.

Lemma run_op_owns h m o :
  owns h m → op_ok o → run_op h m o ⇓ λ '(h', m'), owns h' m' ∧ region h' = region h.
Proof.
  intros (g & -> & Ha & Hg) Ho. destruct o as [k n|k c n|k n|k]; simpl in *;
    rewrite lookup_fmap; destruct (g !! k) as [[[p n0] sz]|] eqn:Hk; simpl;
    try (apply wp_ok; split; [by exists g|done]); apply wp_bind.
  - eapply wp_mono; [by apply kmalloc_allocated|].
    intros [p h'] (_ & Hre & [(-> & Ha')|(sz & ? & _ & ? & _ & _ & ?)]); apply wp_ok;
      (split; [|done]); [by exists g|]. by eapply (owns_store _ g k p n sz); [|lia..| |].
  - destruct Ho as (Hc & Hn & Hcn). eapply wp_mono; [by apply kcalloc_allocated|].
    intros [p h'] (Hre & [(-> & Ha' & _)|(sz & ? & ? & _ & _ & ? & _)]); apply wp_ok;
      (split; [|done]); [by exists g|]. by eapply (owns_store _ g k p _ sz); [|nia..| |].
  - pose proof (owns_delete _ _ _ _ _ _ Hk Ha) as Ha1.
    eapply wp_mono; [by apply (krealloc_allocated _ _ _ _ _ Ha1)|].
    intros [q h'] (Hre & [(-> & Ha' & _)|(sz' & ? & ? & ? & _)]); apply wp_ok; (split; [|done]).
    + exists g. split; [done|]. split; [|done]. destruct Ha' as (bl & Hr & Hl).
      exists bl. split; [done|]. rewrite <-Hl. by rewrite <-(map_to_list_delete g k) by done.
    + unfold store. rewrite (proj2 (Z.eqb_neq q 0)) by lia.
      rewrite <-(insert_delete_eq (fst <$> g)), <-fmap_delete.
      pose proof (owns_store h' (delete k g) k q n sz') as Hs. unfold store in Hs.
      rewrite (proj2 (Z.eqb_neq q 0)) in Hs by lia.
      apply Hs; [apply lookup_delete_eq|lia|lia|done|].
      intros k' p' n' s'. rewrite lookup_delete_Some. intros [_ ?]; eauto.
  - eapply wp_mono; [by apply (kfree_allocated _ _ _ _ (owns_delete _ _ _ _ _ _ Hk Ha))|].
    intros h' (Ha' & _ & Hre). apply wp_ok. split; [|done]. exists (delete k g).
    split; [by rewrite fmap_delete|]. split; [done|].
    intros k' p' n' s'. rewrite lookup_delete_Some. intros [_ ?]; eauto.
Qed.

Lemma run_ops_owns h m os :
  owns h m → Forall op_ok os → run_ops h m os ⇓ λ '(h', m'), owns h' m' ∧ region h' = region h.
Proof.
  intros Hm Hos. revert h m Hm. induction Hos as [|o os Ho _ IH]; intros h m Hm; simpl.
  - by apply wp_ok.
  - apply wp_bind. eapply wp_mono; [by apply run_op_owns|]. intros [h1 m1] [H1 Hr1].
    eapply wp_mono; [by apply IH|]. intros [h2 m2] [H2 Hr2]. split; [done|]. by rewrite Hr2.
Qed.

Lemma owns_two h m k1 k2 p n q t :
  owns h m → m !! k1 = Some (p, n) → m !! k2 = Some (q, t) → k1 ≠ k2 →
  p + n ≤ q ∨ q + t ≤ p.
Proof.
  intros (g & -> & Ha & Hg). rewrite !lookup_fmap, !fmap_Some.
  intros ([[p1 n1] s1] & H1 & [= <- <-]) ([[p2 n2] s2] & H2 & [= <- <-]) Hne.
  pose proof (Hg _ _ _ _ H1). pose proof (Hg _ _ _ _ H2).
  assert (allocated h ((p, s1) :: (q, s2) ::
    ((λ x, (x.2.1.1, x.2.2)) <$> map_to_list (delete k2 (delete k1 g))))) as Ha2.
  { destruct Ha as (bl & Hr & Hl). exists bl. split; [done|]. rewrite <-Hl.
    rewrite <-(map_to_list_delete g k1) by done. simpl. constructor.
    by rewrite <-(map_to_list_delete (delete k1 g) k2 ((q, t), s2)) by (by rewrite lookup_delete_ne). }
  apply allocated_disjoint in Ha2. unfold HDR in Ha2. lia.
Qed.

(** C1: On a heap made by heap_init (base positive and 16-byte aligned, size a multiple of 16
    above one header, the region below 2^63), any sequence of kmalloc, kcalloc, krealloc and
    kfree by a client that asks for 1 to 2^32 - 16 bytes at a time (for kcalloc the product) and
    gives back or resizes only blocks it holds runs without undefined behaviour, the memset of
    kcalloc and the memcpy of krealloc inside their blocks included; every block the client then
    holds is 16-byte aligned, lies inside the heap behind a header and overlaps no other held
    block, and when nothing is held the heap is again one free block of the initial size. *)
Theorem heap_client_safe h0 base sz os :
  0 < base → base mod 16 = 0 → HDR < sz → sz mod 16 = 0 → base + sz < 2 ^ 63 →
  Forall op_ok os →
  run_ops (heap_init h0 base sz) ∅ os ⇓ λ '(h, m),
    (∀ k p n, m !! k = Some (p, n) →
       p mod 16 = 0 ∧ base + HDR ≤ p ∧ p + n ≤ base + sz) ∧
    (∀ k1 k2 p n q t, m !! k1 = Some (p, n) → m !! k2 = Some (q, t) → k1 ≠ k2 →
       p + n ≤ q ∨ q + t ≤ p) ∧
    (m = ∅ → repr h [(sz - HDR, true)]).
Proof.
  intros Hb Hm Hs Hsm He Hos. destruct (heap_init_repr h0 base sz) as [Hr Hre]; [done..|].
  eapply wp_mono.
  { apply run_ops_owns; [|done]. exists ∅. split; [by rewrite fmap_empty|]. split.
    - eexists; split; [exact Hr|done].
    - intros ? ? ? ?. by rewrite lookup_empty. }
  intros [h m] [Ho Hre']. rewrite Hre in Hre'. injection Hre' as Hh Ht. split; [|split].
  - intros k p n Hk. destruct Ho as (g & -> & Ha & Hg).
    rewrite lookup_fmap, fmap_Some in Hk. destruct Hk as ([[p' n'] s] & Hk & [= <- <-]).
    pose proof (Hg _ _ _ _ Hk). apply (owns_delete _ _ _ _ _ _ Hk), allocated_aligned in Ha.
    lia.
  - by intros; eapply owns_two.
  - intros ->. destruct Ho as (g & Hg & Ha & _). symmetry in Hg. apply fmap_empty_inv in Hg as ->.
    rewrite <-Ht. by apply allocated_nil.
Qed.

Definition empty_heap : heap_t :=
  {| hdrs := ∅; bytes := ∅; head := 0; total_size := 0; used_size := 0 |}.

Lemma heap_client_safe_witness :
  run_ops (heap_init empty_heap 4096 1024) ∅ [OMalloc 0 100; OCalloc 1 4 8; OFree 0; ORealloc 1 300; OFree 1]
    ⇓ λ '(h, m), m = ∅ → repr h [(992, true)].
Proof.
  eapply wp_mono; [apply (heap_client_safe empty_heap 4096 1024); try (unfold HDR; lia); try done|].
  - repeat constructor; simpl; lia.
  - by intros [h m] (_ & _ & ?).
Defined.

(** kmalloc of up to 2^32-16 bytes returns 0 with the heap unchanged exactly when no free block
    holds the rounded size; otherwise it takes the first free block that does, splits it when
    the rest can hold a block, returns its 16-byte aligned payload address and counts its bytes
    as used. *)
Theorem kmalloc_first_fit h bl n :
  repr h bl → 0 < n ≤ 2 ^ 32 - 16 →
  kmalloc h n ⇓ λ '(p, h'),
    (p = 0 ∧ h' = h ∧ no_fit (align_size n) bl) ∨
    (∃ pre sz post, bl = pre ++ (sz, true) :: post ∧ n ≤ align_size n ≤ sz ∧
       no_fit (align_size n) pre ∧ p = head h + extent pre + HDR ∧ p mod 16 = 0 ∧
       repr h' (pre ++ place (align_size n) sz ++ post) ∧
       heap_bytes_used h' = heap_bytes_used h + in_use (place (align_size n) sz) ∧
       bytes h' = bytes h).
Proof.
  intros Hr Hn. eapply wp_mono; [apply kmalloc_ok; [done|lia]|].
  intros [p h'] [?|(pre & sz & post & -> & Hfit & Hno & -> & Hr' & Hh' & Hby)]; [by left|].
  right. exists pre, sz, post. pose proof (align_size_small n ltac:(lia)).
  destruct Hr as ((_ & Hm & _ & _ & Hok & _) & _ & _ & Hu). apply blocks_ok_app in Hok as [Hok _].
  pose proof (extent_mod _ Hok). split_and!; try done; try lia; [unfold HDR; zlia|].
  destruct Hr' as (_ & _ & _ & Hu'). unfold heap_bytes_used.
  rewrite Hu, Hu', !in_use_app, in_use_cons. simpl. lia.
Qed.

Lemma kmalloc_first_fit_witness :
  kmalloc (heap_init empty_heap 4096 1024) 100 ⇓ λ '(p, _), p = 0 ∨ p mod 16 = 0.
Proof.
  eapply wp_mono; [apply (kmalloc_first_fit _ [(992, true)]); [|lia]|].
  - apply (heap_init_repr empty_heap 4096 1024); unfold HDR; try lia; done.
  - intros [p h'] [(-> & _)|(pre & sz & post & _ & _ & _ & _ & ? & _)]; auto.
Defined.

(** kfree of a live block merges it with the free neighbours on both sides, so that no two free
    blocks are adjacent, takes its size off the used count and leaves every other live block and
    all bytes in place. *)
Theorem kfree_coalesces h pre sz post :
  repr h (pre ++ (sz, false) :: post) →
  kfree h (head h + extent pre + HDR) ⇓ λ h',
    repr h' (release pre sz post) ∧ bytes h' = bytes h ∧
    heap_bytes_used h' = heap_bytes_used h - sz ∧
    live_from (head h) (release pre sz post) =
      live_from (head h) pre ++ live_from (head h + extent pre + HDR + sz) post.
Proof.
  intros Hr. eapply wp_mono; [by apply kfree_ok|]. intros h' (Hr' & Hh' & Hb).
  destruct Hr as (_ & _ & _ & Hu). pose proof Hr' as (_ & _ & _ & Hu').
  split_and!; try done; [|apply live_release].
  unfold heap_bytes_used. rewrite Hu, Hu', in_use_release, in_use_app, in_use_cons. simpl. lia.
Qed.

Definition sample_heap : heap_t :=
  Eval vm_compute in match kmalloc (heap_init empty_heap 4096 1024) 112 with
                     | Ok (_, h) => h | _ => empty_heap end.

Lemma sample_heap_repr : repr sample_heap [(112, false); (848, true)].
Proof.
  split; [|by vm_compute].
  unfold shape. split_and!; try by vm_compute.
  repeat (apply Forall_cons; split; [vm_compute; by split|]). constructor.
Qed.

Lemma kfree_coalesces_witness : kfree sample_heap 4128 ⇓ λ h', repr h' [(992, true)].
Proof.
  eapply wp_mono; [apply (kfree_coalesces sample_heap [] 112 [(848, true)]), sample_heap_repr|].
  by intros h' [? _].
Defined.

(** krealloc of a live block either fails, returning 0 with the heap contents and all live
    blocks unchanged, or returns a block of at least the requested size whose first bytes are
    those of the old block, with every other live block and its bytes unchanged. *)
Theorem krealloc_preserves h l p sz n :
  allocated h ((p, sz) :: l) → 0 < n ≤ 2 ^ 32 - 16 →
  krealloc h p n ⇓ λ '(q, h'),
    (q = 0 ∧ allocated h' ((p, sz) :: l) ∧ bytes h' = bytes h) ∨
    (∃ sz', 0 < q ∧ n ≤ sz' ∧ allocated h' ((q, sz') :: l) ∧
       (∀ i, 0 ≤ i < sz → bytes h' !! (q + i) = bytes h !! (p + i)) ∧
       (∀ a tz x, (a, tz) ∈ l → a ≤ x < a + tz → bytes h' !! x = bytes h !! x)).
Proof.
  intros Ha Hn. eapply wp_mono; [by apply krealloc_allocated|].
  intros [q h'] (_ & [?|(sz' & ? & ? & ? & ? & ?)]); [by left|right; by exists sz'].
Qed.

Lemma krealloc_preserves_witness :
  krealloc sample_heap 4128 200 ⇓ λ '(q, h'), q = 0 ∨ 0 < q.
Proof.
  eapply wp_mono; [apply (krealloc_preserves _ [] 4128 112 200)|].
  - eexists. split; [apply sample_heap_repr|done].
  - lia.
  - intros [q h'] [(-> & _)|(? & ? & _)]; auto.
Defined.

(** kmalloc of 2^32+16 bytes succeeds on a heap of one kilobyte and returns a block of 16 bytes,
    because the rounding mask is 32 bits wide. *)
Theorem kmalloc_huge_request_short_block :
  kmalloc (heap_init empty_heap 4096 1024) (2 ^ 32 + 16) ⇓ λ '(p, h),
    p = 4128 ∧ allocated h [(4128, 16)].
Proof.
  eexists. split; [by vm_compute|]. split; [done|].
  exists [(16, false); (944, true)]. split; [|done]. split; [|by vm_compute].
  unfold shape. split_and!; try by vm_compute.
  repeat (apply Forall_cons; split; [vm_compute; by split|]). constructor.
Qed.

End Heap.
