(* ===== verification/KStdlib.v ===== *)
(** Number parsing and sorting (kernel/lib/stdlib.c).

    A [const char *] that only moves forward is the list of bytes from the
    pointer to the end of its object: [*p] is the first element and [++p] the
    tail, and reading at the end of the object is undefined. *)
From stdpp Require Import sorting.
From S2P Require Import Prelude KString.

Module KStdlib.
Import KString.

(** ** Numbers *)

Definition digit_value (ch : Z) : Z :=
  if (48 <=? ch) && (ch <=? 57) then ch - 48
  else if (97 <=? ch) && (ch <=? 122) then ch - 97 + 10
  else if (65 <=? ch) && (ch <=? 90) then ch - 65 + 10
  else -1.

(** [*p] *)
Definition deref (p : list Z) : outcome Z := match p with c :: _ => Ok c | [] => Undef end.

Definition is_space (c : Z) : bool :=
  (c =? 32) || (c =? 9) || (c =? 10) || (c =? 13) || (c =? 11) || (c =? 12).

Fixpoint skip_space (text : list Z) : outcome (list Z) :=
  match text with
  | [] => Undef
  | c :: rest => if is_space c then skip_space rest else Ok text
  end.

(** The digit loop of [strtoul]: the value so far and the pointer after it. *)
Fixpoint strtoul_digits (base value : Z) (p : list Z) : outcome (Z * list Z) :=
  match p with
  | [] => Undef
  | c :: rest =>
      let digit := digit_value c in
      if (digit <? 0) || (base <=? digit) then Ok (value, p)
      else strtoul_digits base (u64 (u64 (value * u64 base) + digit)) rest
  end.

Definition is_x (c : Z) : bool := (c =? 120) || (c =? 88).

(** The base and the pointer after the prefix. *)
Definition strtoul_prefix (base : Z) (p : list Z) : outcome (Z * list Z) :=
  if base =? 0 then
    c ← deref p;
    if c =? 48 then
      d ← deref (drop 1 p);
      Ok (if is_x d then (16, drop 2 p) else (8, p))
    else Ok (10, p)
  else if base =? 16 then
    c ← deref p;
    if c =? 48 then
      d ← deref (drop 1 p);
      Ok (if is_x d then (16, drop 2 p) else (16, p))
    else Ok (16, p)
  else Ok (base, p).

(** The second result is what is stored in [*endptr] when [endptr] is not NULL;
    [None] is the NULL pointer, which it is when [text] is NULL. *)
Definition strtoul (text : option (list Z)) (base : Z) : outcome (Z * option (list Z)) :=
  p ← skip_space (default [0] text);
  '(base, start) ← strtoul_prefix base p;
  '(value, p) ← strtoul_digits base 0 start;
  Ok (value, if (length p =? length start)%nat then text else Some p).

Definition strtol (text : option (list Z)) (base : Z) : outcome (Z * option (list Z)) :=
  p ← skip_space (default [0] text);
  c ← deref p;
  let negative := c =? 45 in
  let p := if (c =? 43) || (c =? 45) then drop 1 p else p in
  '(value, endptr) ← strtoul (Some p) base;
  let endptr :=
    match endptr with
    | Some e => if (length e =? length p)%nat then text else Some e
    | None => None
    end in
  if negative
  then if i64 value =? - 2 ^ 63 then Undef else Ok (- i64 value, endptr)
  else Ok (i64 value, endptr).

Definition atoi (text : option (list Z)) : outcome Z := '(v, _) ← strtol text 10; Ok (i32 v).
Definition atol (text : option (list Z)) : outcome Z := '(v, _) ← strtol text 10; Ok v.

(** The number a digit string denotes. *)
Definition digits_number (base : Z) (ds : list Z) : Z :=
  foldl (λ v c, v * base + digit_value c) 0 ds.

Definition is_digit (base c : Z) : Prop := 0 ≤ digit_value c < base.

Lemma digit_value_range c : -1 ≤ digit_value c < 36.
Proof.
  unfold digit_value.
  repeat match goal with |- context [if ?b then _ else _] => destruct b eqn:? end; lia.
Qed.

(** The digit loop computes the number modulo 2^64. *)
Lemma strtoul_digits_ok base v ds stop rest :
  0 < base ≤ 36 → Forall (is_digit base) ds → ¬ is_digit base stop →
  strtoul_digits base (u64 v) (ds ++ stop :: rest) =
  Ok (u64 (foldl (λ v c, v * base + digit_value c) v ds), stop :: rest).
Proof.
  intros Hb Hds Hstop. revert v. induction Hds as [|c ds Hc Hds IH]; intros v; simpl.
  - pose proof (digit_value_range stop). unfold is_digit in Hstop.
    destruct (Z.ltb_spec (digit_value stop) 0), (Z.leb_spec base (digit_value stop)); simpl; try done; lia.
  - unfold is_digit in Hc. rewrite (proj2 (Z.ltb_ge (digit_value c) 0)),
      (proj2 (Z.leb_gt base (digit_value c))) by lia. simpl.
    rewrite <-IH. f_equal. rewrite (u64_small base) by lia. unfold u64.
    rewrite Zplus_mod_idemp_l, <-Zplus_mod_idemp_l, Zmult_mod_idemp_l, Zplus_mod_idemp_l. done.
Qed.

Lemma skip_space_ok sp rest :
  Forall (λ c, is_space c = true) sp → (∀ c, head rest = Some c → is_space c = false) → rest ≠ [] →
  skip_space (sp ++ rest) = Ok rest.
Proof.
  intros Hsp Hr Hne. induction Hsp as [|c sp Hc _ IH]; simpl.
  - destruct rest as [|c rest]; [done|]. simpl. by rewrite (Hr c).
  - by rewrite Hc.
Qed.

Lemma digit_not_space base c : is_digit base c → is_space c = false.
Proof.
  unfold is_digit, digit_value, is_space. intros Hd.
  repeat match goal with |- context [?a =? ?b] => destruct (Z.eqb_spec a b); subst; simpl in *; try lia end.
Qed.

Lemma digit10 base c : base ≤ 10 → is_digit base c ↔ 48 ≤ c < 48 + base.
Proof.
  intros Hb. unfold is_digit, digit_value.
  destruct (Z.leb_spec 48 c), (Z.leb_spec c 57), (Z.leb_spec 97 c), (Z.leb_spec c 122),
    (Z.leb_spec 65 c), (Z.leb_spec c 90); simpl; lia.
Qed.

(** Without a prefix to strip, [strtoul] reads the digits after the blanks. *)
Lemma strtoul_ok base sp ds stop rest :
  0 < base ≤ 36 → (base = 16 → take 1 ds = [48] → is_x (default stop (ds !! 1%nat)) = false) →
  Forall (λ c, is_space c = true) sp → Forall (is_digit base) ds → ds ≠ [] → ¬ is_digit base stop →
  strtoul (Some (sp ++ ds ++ stop :: rest)) base = Ok (u64 (digits_number base ds), Some (stop :: rest)).
Proof.
  intros Hb Hx Hsp Hds Hne Hstop. unfold strtoul. simpl.
  rewrite (skip_space_ok sp (ds ++ stop :: rest)); [|done| |by destruct ds].
  2:{ destruct ds as [|c ds]; [done|]. apply Forall_cons in Hds as [Hc _].
      intros c' [= <-]. by eapply digit_not_space. }
  rewrite bind_ok.
  assert (strtoul_prefix base (ds ++ stop :: rest) = Ok (base, ds ++ stop :: rest)) as ->.
  { unfold strtoul_prefix. rewrite (proj2 (Z.eqb_neq base 0)) by lia.
    destruct (Z.eqb_spec base 16) as [->|]; [|done].
    destruct ds as [|c ds]; [done|]. simpl. destruct (Z.eqb_spec c 48) as [->|]; [|done].
    specialize (Hx eq_refl eq_refl). simpl in Hx.
    destruct ds as [|d ds]; simpl in *; by rewrite Hx. }
  rewrite bind_ok. rewrite (strtoul_digits_ok base 0 ds) by done. rewrite bind_ok.
  rewrite length_app. destruct ds as [|c ds]; [done|]. simpl length.
  rewrite (proj2 (Nat.eqb_neq _ _)) by lia. done.
Qed.

(** The sign characters are neither blanks nor digits. *)
Definition sign_text (neg : option bool) : list Z :=
  match neg with None => [] | Some false => [43] | Some true => [45] end.

Lemma digit_not_sign base c : is_digit base c → (c =? 43) = false ∧ (c =? 45) = false.
Proof. unfold is_digit, digit_value. intros Hd. split; apply Z.eqb_neq; intros ->; simpl in Hd; lia. Qed.

(** strtol on white space, an optional sign and digits of the base returns the signed number,
    provided it fits, and the end pointer at the first character that is not a digit. *)
Theorem strtol_correct base sp neg ds stop rest :
  0 < base ≤ 36 → base ≠ 16 →
  Forall (λ c, is_space c = true) sp → Forall (is_digit base) ds → ds ≠ [] → ¬ is_digit base stop →
  0 ≤ digits_number base ds < 2 ^ 63 →
  strtol (Some (sp ++ sign_text neg ++ ds ++ stop :: rest)) base =
    Ok ((if default false neg then - digits_number base ds else digits_number base ds),
        Some (stop :: rest)).
Proof.
  intros Hb Hb16 Hsp Hds Hne Hstop Hr. unfold strtol. simpl.
  assert (∃ d ds', ds = d :: ds') as (d & ds' & Eds) by (destruct ds; eauto; done).
  assert (is_digit base d) as Hd by (subst ds; by inversion Hds).
  pose proof (digit_not_space _ _ Hd) as Hdsp. destruct (digit_not_sign _ _ Hd) as [Hp Hm].
  rewrite (skip_space_ok sp); [|done| |by destruct neg as [[]|], ds].
  2:{ intros c. rewrite Eds. by destruct neg as [[]|]; intros [= <-]. }
  pose proof (strtoul_ok base [] ds stop rest Hb ltac:(done) ltac:(done) Hds Hne Hstop) as Hu.
  simpl in Hu. assert ((length (stop :: rest) =? length (ds ++ stop :: rest))%nat = false) as Hlen.
  { rewrite length_app. destruct ds; [done|]. apply Nat.eqb_neq. simpl. lia. }
  rewrite bind_ok. destruct neg as [[]|]; cbn [sign_text app deref].
  - rewrite bind_ok. cbn [Z.eqb Pos.eqb orb drop]. rewrite drop_0, Hu, bind_ok, Hlen.
    rewrite u64_small, i64_small by lia. rewrite (proj2 (Z.eqb_neq _ _)) by lia. done.
  - rewrite bind_ok. cbn [Z.eqb Pos.eqb orb drop]. rewrite drop_0, Hu, bind_ok, Hlen. by rewrite u64_small, i64_small by lia.
  - rewrite Eds at 1. cbn [app deref]. rewrite bind_ok, Hp, Hm. cbn [orb].
    rewrite Hu, bind_ok, Hlen. by rewrite u64_small, i64_small by lia.
Qed.

(** " -12;" *)
Lemma strtol_correct_witness : strtol (Some [32; 45; 49; 50; 59]) 10 = Ok (-12, Some [59]).
Proof.
  apply (strtol_correct 10 [32] (Some true) [49; 50] 59 []); try done.
  - repeat constructor.
  - repeat constructor; vm_compute; done.
  - intros [? ?]. by vm_compute in H.
Defined.

(** ** Sorting *)

Definition swap_bytes (mem : list Z) (left right size : Z) : outcome (list Z) :=
  for_each 0 size
    (λ i mem, tmp ← zget mem (left + i); r ← zget mem (right + i);
              mem ← zset mem (left + i) r; zset mem (right + i) tmp) mem.

(** The element at offset [off], as the comparison function sees it. *)
Definition element (mem : list Z) (off size : Z) : outcome (list Z) :=
  if decide (0 ≤ off ∧ 0 ≤ size ∧ off + size ≤ zlen mem) then Ok (slice mem off size) else Undef.

(** Moving element [i] down to its place.  [compar] is the caller's function. *)
Definition qsort_insert (size : Z) (compar : list Z → list Z → Z) (i : Z) (mem : list Z)
  : outcome (list Z) :=
  loop (S (Z.to_nat i))
    (λ '(j, mem),
       if j <=? 0 then Ok (inr mem)
       else
         let a := u64 (u64 (j - 1) * size) in
         let b := u64 (j * size) in
         ea ← element mem a size; eb ← element mem b size;
         if compar ea eb <=? 0 then Ok (inr mem)
         else mem ← swap_bytes mem a b size; Ok (inl (u64 (j - 1), mem))) (i, mem).

(** [base] is [None] for NULL, and so is [compar]. *)
Definition qsort (base : option (list Z)) (count size : Z)
    (compar : option (list Z → list Z → Z)) : outcome (option (list Z)) :=
  match base, compar with
  | Some mem, Some cmp =>
      if (count <? 2) || (size =? 0) then Ok base
      else mem ← for_each 1 count (qsort_insert size cmp) mem; Ok (Some mem)
  | _, _ => Ok base
  end.

(** An array of [size]-byte elements. *)
Definition elements (size : Z) (els : list (list Z)) : Prop := Forall (λ e, zlen e = size) els.

Lemma concat_length size els : elements size els → zlen (concat els) = size * zlen els.
Proof.
  induction 1 as [|e els He _ IH]; [unfold zlen; simpl; lia|].
  unfold zlen in *. simpl. rewrite length_app. lia.
Qed.

Lemma elements_app size l1 l2 : elements size (l1 ++ l2) ↔ elements size l1 ∧ elements size l2.
Proof. apply Forall_app. Qed.

Lemma element_ok size l1 e l2 off :
  0 ≤ size → elements size l1 → zlen e = size → off = size * zlen l1 →
  element (concat (l1 ++ e :: l2)) off size = Ok e.
Proof.
  intros Hs Hl1 He ->. pose proof (concat_length _ _ Hl1) as Hc.
  unfold element. rewrite concat_app. simpl. unfold zlen in *.
  rewrite decide_True by (rewrite !length_app; nia). f_equal. unfold slice.
  rewrite drop_app_ge by lia. replace (Z.to_nat (size * Z.of_nat (length l1)) - length (concat l1))%nat
    with 0%nat by lia.
  rewrite drop_0, take_app_le by lia. apply take_ge. lia.
Qed.

(** Exchanging two neighbouring elements byte by byte. *)
Lemma swap_bytes_ok pre a b post size :
  zlen a = size → zlen b = size →
  swap_bytes (pre ++ a ++ b ++ post) (zlen pre) (zlen pre + size) size = Ok (pre ++ b ++ a ++ post).
Proof.
  intros Ha Hb. unfold zlen in Ha, Hb.
  assert (swap_bytes (pre ++ a ++ b ++ post) (zlen pre) (zlen pre + size) size
    ⇓ λ m, m = pre ++ b ++ a ++ post) as (m & -> & ->); [|done].
  apply (wp_for_each (λ i m, m = pre ++ (take (Z.to_nat i) b ++ drop (Z.to_nat i) a) ++
    (take (Z.to_nat i) a ++ drop (Z.to_nat i) b) ++ post)); [lia|done| |].
  2:{ intros m ->. rewrite !take_ge, !drop_ge, !app_nil_r by lia. done. }
  intros i m Hi ->. set (k := Z.to_nat i).
  destruct (lookup_lt_is_Some_2 a k) as [x Hx]; [lia|].
  destruct (lookup_lt_is_Some_2 b k) as [y Hy]; [lia|].
  rewrite (drop_S a x k), (drop_S b y k) by done.
  assert (length (take k b) = k ∧ length (take k a) = k) as [Hlb Hla] by (rewrite !length_take; lia).
  assert (Z.to_nat (i + 1) = S k) as -> by lia.
  rewrite (take_S_r a k x), (take_S_r b k y) by done.
  pose proof (length_drop a (S k)) as Hda. pose proof (length_drop b (S k)) as Hdb.
  set (m := pre ++ (take k b ++ x :: drop (S k) a) ++ (take k a ++ y :: drop (S k) b) ++ post).
  assert (m !! Z.to_nat (zlen pre + i) = Some x) as Hmx.
  { unfold m, zlen. rewrite lookup_app_r by lia. rewrite lookup_app_l by (rewrite length_app; simpl; lia).
    rewrite lookup_app_r by lia. by replace (Z.to_nat (Z.of_nat (length pre) + i) - length pre -
      length (take k b))%nat with 0%nat by lia. }
  assert (m !! Z.to_nat (zlen pre + size + i) = Some y) as Hmy.
  { unfold m, zlen. rewrite lookup_app_r by lia. rewrite lookup_app_r by (rewrite length_app; simpl; lia).
    rewrite length_app. simpl length. rewrite lookup_app_l by (rewrite length_app; simpl; lia).
    rewrite lookup_app_r by lia. by replace (Z.to_nat (Z.of_nat (length pre) + size + i) - length pre -
      (length (take k b) + S (length (drop (S k) a))) - length (take k a))%nat with 0%nat by lia. }
  apply lookup_lt_Some in Hmx as Hlx. apply lookup_lt_Some in Hmy as Hly.
  assert (0 ≤ zlen pre + i) as Hxp by (unfold zlen; lia).
  assert (0 ≤ zlen pre + size + i) as Hyp by (unfold zlen; lia).
  rewrite (zget_ok m _ x Hxp Hmx), bind_ok.
  rewrite (zget_ok m _ y Hyp Hmy), bind_ok.
  rewrite zset_ok, bind_ok by (unfold zlen in *; lia).
  rewrite zset_ok by (rewrite zlen_insert; unfold zlen in *; lia). apply wp_ok.
  unfold m, zlen in *.
  replace (Z.to_nat (Z.of_nat (length pre) + i)) with (length pre + (length (take k b) + 0))%nat by lia.
  replace (Z.to_nat (Z.of_nat (length pre) + size + i)) with
    (length pre + (length (take k b ++ y :: drop (S k) a) + (length (take k a) + 0)))%nat
    by (rewrite length_app; simpl; lia).
  rewrite insert_app_r. rewrite (insert_app_l (take k b ++ _)) by (rewrite length_app; simpl; lia).
  rewrite insert_app_r. cbn [insert list_insert].
  rewrite insert_app_r, insert_app_r.
  rewrite (insert_app_l (take k a ++ _)) by (rewrite length_app; simpl; lia).
  rewrite insert_app_r. cbn [insert list_insert]. by rewrite <-!app_assoc.
Qed.

Section Sorting.
Context (size : Z) (cmp : list Z → list Z → Z) (Hsize : 0 < size).

(** The order the comparison function stands for. *)
Definition cmp_le (a b : list Z) : Prop := cmp a b ≤ 0.

(** What a comparison function must satisfy to denote an order. *)
Definition cmp_order : Prop :=
  (∀ a b, cmp_le a b ∨ cmp_le b a) ∧ (∀ a b c, cmp_le a b → cmp_le b c → cmp_le a c).

Lemma sorted_insert l1 x l2 :
  cmp_order → StronglySorted cmp_le (l1 ++ l2) →
  Forall (λ y, 0 < cmp y x) l2 → (∀ y, last l1 = Some y → cmp_le y x) →
  StronglySorted cmp_le (l1 ++ x :: l2).
Proof.
  intros [Htot Htr] Hs Hl2 Hl1. apply StronglySorted_app in Hs as (H12 & H1 & H2).
  apply StronglySorted_app. split; [|split; [done|]].
  - intros a b Ha [->|Hb]%elem_of_cons; [|by apply H12].
    destruct l1 as [|y l1 _] using rev_ind; [by apply not_elem_of_nil in Ha|].
    specialize (Hl1 y (last_snoc _ _)). apply elem_of_app in Ha as [Ha|Ha].
    + apply StronglySorted_app in H1 as (H1 & _ & _).
      eapply Htr; [apply H1; [done|by apply list_elem_of_singleton]|done].
    + by apply list_elem_of_singleton in Ha as ->.
  - constructor; [done|]. eapply Forall_impl; [done|]. intros y Hy. destruct (Htot x y); [done|].
    unfold cmp_le in *. lia.
Qed.

Lemma qsort_insert_ok l1 x rest :
  cmp_order → elements size (l1 ++ x :: rest) → StronglySorted cmp_le l1 →
  size * zlen (l1 ++ x :: rest) < 2 ^ 63 →
  qsort_insert size cmp (zlen l1) (concat (l1 ++ x :: rest)) ⇓ λ m, ∃ l,
    m = concat (l ++ rest) ∧ StronglySorted cmp_le l ∧ l ≡ₚ l1 ++ [x].
Proof.
  intros Hord Hel Hs Hmax.
  assert (zlen (l1 ++ x :: rest) = zlen l1 + 1 + zlen rest) as Hlen
    by (unfold zlen; rewrite length_app; simpl; lia). rewrite Hlen in Hmax.
  apply elements_app in Hel as [Hel1 Hel2]. apply Forall_cons in Hel2 as [Hx Hrest].
  apply (wp_loop (λ '(j, m), ∃ la lb, j = zlen la ∧ m = concat (la ++ x :: lb ++ rest) ∧
    l1 = la ++ lb ∧ Forall (λ y, 0 < cmp y x) lb) (λ '(j, _), Z.to_nat j)).
  2:{ exists l1, []. by rewrite app_nil_r. }
  2:{ unfold zlen. lia. }
  intros [j m] (la & lb & -> & -> & -> & Hlb).
  destruct la as [|y la _] using rev_ind.
  { apply wp_ok. exists (x :: lb). split; [done|]. split.
    - by apply (sorted_insert [] x lb).
    - simpl. apply Permutation_cons_append. }
  apply elements_app in Hel1 as [Hela Helb]. apply elements_app in Hela as [Hela Hely].
  apply Forall_cons in Hely as [Hely _].
  assert (zlen (la ++ [y]) = zlen la + 1) as Hl by (unfold zlen; rewrite length_app; simpl; lia).
  assert (0 ≤ zlen la ∧ 0 ≤ zlen lb ∧ 0 ≤ zlen rest) as (Hz1 & Hz2 & Hz3) by (unfold zlen; lia).
  assert (zlen ((la ++ [y]) ++ lb) = zlen la + 1 + zlen lb) as Hl'
    by (unfold zlen; rewrite !length_app; simpl; lia). rewrite Hl' in Hmax. rewrite Hl.
  rewrite (proj2 (Z.leb_gt _ _)) by lia.
  assert (size * (zlen la + 1) < 2 ^ 63) as Hb1 by nia.
  assert (zlen la + 1 ≤ size * (zlen la + 1)) as Hb2 by nia.
  rewrite (u64_small (zlen la + 1 - 1)), (u64_small ((zlen la + 1 - 1) * size)),
    (u64_small ((zlen la + 1) * size)) by (rewrite ?Z.add_simpl_r, ?(Z.mul_comm _ size); nia).
  rewrite <-app_assoc. cbn [app].
  rewrite (element_ok size la y (x :: lb ++ rest) ((zlen la + 1 - 1) * size) ltac:(lia) Hela Hely).
  2:{ rewrite Z.add_simpl_r. apply Z.mul_comm. }
  rewrite bind_ok.
  rewrite (cons_middle y la), app_assoc.
  rewrite (element_ok size (la ++ [y]) x), bind_ok.
  2:{ lia. } 2:{ apply elements_app. split; [done|]. by apply Forall_singleton. } 2:{ done. }
  2:{ rewrite Hl. lia. }
  destruct (Z.leb_spec (cmp y x) 0) as [Hle|Hgt].
  - apply wp_ok. exists ((la ++ [y]) ++ x :: lb). split; [by rewrite <-!app_assoc|]. split.
    + apply sorted_insert; [done..|]. intros y'. rewrite last_snoc. by intros [= <-].
    + rewrite <-!app_assoc. do 2 f_equiv. apply Permutation_cons_append.
  - rewrite !concat_app. simpl. rewrite app_nil_r, <-app_assoc.
    pose proof (concat_length _ _ Hela) as Hc.
    replace ((zlen la + 1 - 1) * size) with (zlen (concat la)) by (rewrite Hc; lia).
    replace ((zlen la + 1) * size) with (zlen (concat la) + size) by (rewrite Hc; lia).
    rewrite (swap_bytes_ok _ y x _ size Hely Hx), bind_ok. apply wp_ok. split.
    + exists la, (y :: lb). rewrite Z.add_simpl_r. split; [done|].
      split; [rewrite !concat_app; simpl; by rewrite concat_app|].
      split; [by rewrite <-app_assoc|]. by constructor.
    + unfold zlen. lia.
Qed.

(** C38: qsort with a comparison function that is a total preorder terminates and leaves in the
    array a permutation of its elements that is sorted by the comparison. *)
Theorem qsort_correct els :
  cmp_order → elements size els → size * zlen els < 2 ^ 63 →
  qsort (Some (concat els)) (zlen els) size (Some cmp) ⇓ λ r, ∃ els',
    r = Some (concat els') ∧ els' ≡ₚ els ∧ StronglySorted cmp_le els'.
Proof.
  intros Hord Hel Hmax. unfold qsort. rewrite (proj2 (Z.eqb_neq size 0)), orb_false_r by lia.
  destruct (Z.ltb_spec (zlen els) 2) as [Hlt|Hge].
  { apply wp_ok. exists els. split; [done|]. split; [done|].
    unfold zlen in Hlt. destruct els as [|x [|y els]]; [repeat constructor..|].
    simpl in Hlt. lia. }
  apply wp_bind. apply (wp_for_each (λ i m, ∃ l rest, m = concat (l ++ rest) ∧ zlen l = i ∧
    l ++ rest ≡ₚ els ∧ StronglySorted cmp_le l)); [lia| | |].
  - destruct els as [|x els]; [done|]. exists [x], els. split_and!; [done..|repeat constructor].
  - intros i m Hi (l & rest & -> & Hl & Hp & Hs).
    assert (zlen (l ++ rest) = zlen els) as Hlen by (unfold zlen; by rewrite Hp).
    destruct rest as [|x rest]; [rewrite app_nil_r in Hlen; lia|].
    rewrite <-Hl. eapply wp_mono; [apply qsort_insert_ok; try done|].
    + unfold elements. by rewrite Hp.
    + by rewrite Hlen.
    + intros m (l' & -> & Hs' & Hp'). exists l', rest. split; [done|]. split.
      * unfold zlen in *. rewrite Hp', length_app. simpl. lia.
      * split; [|done]. by rewrite <-Hp, Hp', <-app_assoc.
  - intros m (l & rest & -> & Hl & Hp & Hs). apply wp_ok.
    assert (rest = []) as ->.
    { assert (zlen (l ++ rest) = zlen els) as Hlen by (unfold zlen; by rewrite Hp).
      unfold zlen in *. rewrite length_app in Hlen. destruct rest; [done|simpl in Hlen; lia]. }
    rewrite app_nil_r in *. by exists l.
Qed.

End Sorting.

(** Sorting two-byte elements by their first byte. *)
Lemma qsort_correct_witness :
  qsort (Some [3; 0; 1; 1; 2; 2]) 3 2 (Some (λ a b, default 0 (head a) - default 0 (head b)))
    ⇓ λ r, ∃ els', r = Some (concat els') ∧ els' ≡ₚ [[3; 0]; [1; 1]; [2; 2]].
Proof.
  eapply wp_mono.
  - apply (qsort_correct 2 (λ a b, default 0 (head a) - default 0 (head b)) ltac:(lia)
             [[3; 0]; [1; 1]; [2; 2]]).
    + unfold cmp_order, cmp_le. split; lia.
    + repeat constructor.
    + vm_compute. done.
  - intros r (els' & ? & ? & _). by exists els'.
Defined.

End KStdlib.
