(* ===== verification/KPrintf.v ===== *)
(** Formatted output (kernel/lib/kprintf.c) and the log front end
    (kernel/lib/log.c).

    The output functions are written over an arbitrary character sink
    [putc : S → Z → outcome S], which stands for [kputchar]; [Console] gives
    [kputchar] itself, where the serial line and the frame buffer are device
    drivers and so parameters.  A format pointer is the list of bytes from the
    pointer to the end of the format object, as in KStdlib; the variable
    arguments are a list of [varg]. *)
From S2P Require Import Prelude KString RingBuf KStdlib.

Module KPrintf.
Import KString KStdlib.

(** An argument slot: 64 bits read at the type the conversion names, or a
    [const char *]. *)
Inductive varg :=
  | VWord (w : Z)
  | VStr (text : option (list Z)).

Definition va_word (args : list varg) : outcome (Z * list varg) :=
  match args with VWord w :: rest => Ok (w, rest) | _ => Undef end.
Definition va_str (args : list varg) : outcome (option (list Z) * list varg) :=
  match args with VStr t :: rest => Ok (t, rest) | _ => Undef end.

Inductive length_t := LENGTH_DEFAULT | LENGTH_LONG | LENGTH_LONG_LONG | LENGTH_SIZE.

(** The argument slot read at the type the length modifier names. *)
Definition int_arg (len : length_t) (w : Z) : Z :=
  match len with LENGTH_DEFAULT => i32 w | _ => i64 w end.
Definition uint_arg (len : length_t) (w : Z) : Z :=
  match len with LENGTH_DEFAULT => u32 w | _ => u64 w end.

(** [count + n] in [int]. *)
Definition add_int (count n : Z) : outcome Z :=
  if count + n <? 2 ^ 31 then Ok (count + n) else Undef.

Definition null_text : list Z := [40; 110; 117; 108; 108; 41; 0].

Definition digit_table (uppercase : bool) : list Z :=
  [48; 49; 50; 51; 52; 53; 54; 55; 56; 57] ++
  (if uppercase then [65; 66; 67; 68; 69; 70] else [97; 98; 99; 100; 101; 102]) ++ [0].

Section Output.
Context {S : Type} (putc : S → Z → outcome S).

Fixpoint puts_from (st : S) (text : list Z) : outcome S :=
  match text with
  | [] => Undef
  | c :: rest => if c =? 0 then Ok st else st ← putc st c; puts_from st rest
  end.
Definition kputs (st : S) (text : option (list Z)) : outcome S := puts_from st (default null_text text).

Fixpoint emit_string_from (st : S) (text : list Z) (count : Z) : outcome (Z * S) :=
  match text with
  | [] => Undef
  | c :: rest =>
      if c =? 0 then Ok (count, st)
      else st ← putc st c; count ← add_int count 1; emit_string_from st rest count
  end.
Definition emit_string (st : S) (text : option (list Z)) : outcome (Z * S) :=
  emit_string_from st (default null_text text) 0.

(** The digits of [value], last first, in the 32-byte buffer. *)
Definition fill_digits (digits : list Z) (value base : Z) : outcome (Z * list Z) :=
  loop 65
    (λ '(value, pos, buffer),
       if value <=? 0 then Ok (inr (pos, buffer))
       else
         d ← umod value base; c ← zget digits d;
         buffer ← zset buffer pos c;
         value ← udiv value base;
         Ok (inl (value, pos + 1, buffer))) (value, 0, replicate 32 0).

(** [while (pos > 0) { kputchar(buffer[--pos]); ++count; }] *)
Fixpoint emit_buffer (st : S) (buffer : list Z) (pos : nat) (count : Z) : outcome (Z * S) :=
  match pos with
  | O => Ok (count, st)
  | Datatypes.S p =>
      c ← zget buffer (Z.of_nat p); st ← putc st c;
      emit_buffer st buffer p (count + 1)
  end.

Definition emit_unsigned (st : S) (value base : Z) (uppercase : bool) : outcome (Z * S) :=
  let digits := digit_table uppercase in
  if value =? 0 then st ← putc st 48; Ok (1, st)
  else
    '(pos, buffer) ← fill_digits digits value base;
    emit_buffer st buffer (Z.to_nat pos) 0.

(** [-value] overflows for the least [int64_t]. *)
Definition emit_signed (st : S) (value : Z) : outcome (Z * S) :=
  if value <? 0 then
    st ← putc st 45;
    if value =? - 2 ^ 63 then Undef
    else '(n, st) ← emit_unsigned st (u64 (- value)) 10 false; Ok (1 + n, st)
  else emit_unsigned st (u64 value) 10 false.

(** The argument of an integer conversion, at the width the length names. *)
Definition va_signed (length : length_t) (args : list varg) : outcome (Z * list varg) :=
  '(w, args) ← va_word args; Ok (int_arg length w, args).
Definition va_unsigned (length : length_t) (args : list varg) : outcome (Z * list varg) :=
  '(w, args) ← va_word args; Ok (uint_arg length w, args).

(** One conversion: the characters printed, the sink and the remaining arguments. *)
Definition convert (length : length_t) (specifier : Z) (st : S) (args : list varg)
  : outcome (Z * S * list varg) :=
  if specifier =? 37 (* % *) then st ← putc st 37; Ok (1, st, args)
  else if specifier =? 99 (* c *) then
    '(w, args) ← va_word args; st ← putc st (u8 w); Ok (1, st, args)
  else if specifier =? 115 (* s *) then
    '(t, args) ← va_str args; '(n, st) ← emit_string st t; Ok (n, st, args)
  else if (specifier =? 100) || (specifier =? 105) (* d, i *) then
    '(v, args) ← va_signed length args; '(n, st) ← emit_signed st v; Ok (n, st, args)
  else if specifier =? 117 (* u *) then
    '(v, args) ← va_unsigned length args; '(n, st) ← emit_unsigned st v 10 false; Ok (n, st, args)
  else if specifier =? 120 (* x *) then
    '(v, args) ← va_unsigned length args; '(n, st) ← emit_unsigned st v 16 false; Ok (n, st, args)
  else if specifier =? 88 (* X *) then
    '(v, args) ← va_unsigned length args; '(n, st) ← emit_unsigned st v 16 true; Ok (n, st, args)
  else if specifier =? 112 (* p *) then
    '(n1, st) ← emit_string st (Some [48; 120; 0]);
    '(w, args) ← va_word args;
    '(n, st) ← emit_unsigned st (u64 w) 16 false; Ok (n1 + n, st, args)
  else st ← putc st 63; Ok (1, st, args).

(** The length modifier after [%], and the pointer after it. *)
Definition length_modifier (fmt : list Z) : outcome (length_t * list Z) :=
  match fmt with
  | [] => Undef
  | c :: rest =>
      if c =? 122 then Ok (LENGTH_SIZE, rest)
      else if c =? 108 then
        match rest with
        | [] => Undef
        | c2 :: rest2 => Ok (if c2 =? 108 then (LENGTH_LONG_LONG, rest2) else (LENGTH_LONG, rest))
        end
      else Ok (LENGTH_DEFAULT, fmt)
  end.

(** The loop of [kvprintf]; every turn consumes at least one byte of the format. *)
Fixpoint kvprintf_loop (fuel : nat) (st : S) (fmt : list Z) (args : list varg) (count : Z)
  : outcome (Z * S) :=
  match fuel with
  | O => OutOfFuel
  | Datatypes.S fuel =>
      match fmt with
      | [] => Undef
      | c :: rest =>
          if c =? 0 then Ok (count, st)
          else if negb (c =? 37) then
            st ← putc st c; count ← add_int count 1; kvprintf_loop fuel st rest args count
          else
            '(length, p) ← length_modifier rest;
            specifier ← deref p;
            '(n, st, args) ← convert length specifier st args;
            count ← add_int count n;
            kvprintf_loop fuel st (drop 1 p) args count
      end
  end.

Definition kvprintf (st : S) (fmt : option (list Z)) (args : list varg) : outcome (Z * S) :=
  match fmt with
  | None => Ok (0, st)
  | Some f => kvprintf_loop (Datatypes.S (length f)) st f args 0
  end.

Definition kprintf (st : S) (fmt : option (list Z)) (args : list varg) : outcome (Z * S) :=
  kvprintf st fmt args.

(** ** Reference rendering *)

Fixpoint put_all (st : S) (s : list Z) : outcome S :=
  match s with [] => Ok st | c :: s => st ← putc st c; put_all st s end.

Lemma put_all_app st s1 s2 : put_all st (s1 ++ s2) = (st ← put_all st s1; put_all st s2).
Proof.
  revert st. induction s1 as [|c s1 IH]; intros st; simpl; [done|].
  destruct (putc st c); [apply IH|done..].
Qed.

End Output.

Definition digit_char (uppercase : bool) (d : Z) : Z :=
  if d <? 10 then 48 + d else if uppercase then 55 + d else 87 + d.

Fixpoint to_digits (n : nat) (base v : Z) : list Z :=
  match n with
  | O => []
  | Datatypes.S n => if v =? 0 then [] else to_digits n base (v / base) ++ [v mod base]
  end.

(** The text of a 64-bit number. *)
Definition unsigned_text (base : Z) (uppercase : bool) (v : Z) : list Z :=
  if v =? 0 then [48] else digit_char uppercase <$> to_digits 64 base v.
Definition signed_text (v : Z) : list Z :=
  if v <? 0 then 45 :: unsigned_text 10 false (- v) else unsigned_text 10 false v.

Lemma digit_table_lookup up d :
  0 ≤ d < 16 → digit_table up !! Z.to_nat d = Some (digit_char up d).
Proof.
  intros Hd. assert (Forall (λ d, digit_table up !! Z.to_nat d = Some (digit_char up d)) (seqZ 0 16)) as Hf
    by (destruct up; vm_compute; repeat constructor).
  apply (proj1 (Forall_forall _ _) Hf), elem_of_seqZ. lia.
Qed.

Lemma digit_value_char up d : 0 ≤ d < 16 → digit_value (digit_char up d) = d.
Proof.
  intros Hd. assert (Forall (λ d, digit_value (digit_char up d) = d) (seqZ 0 16)) as Hf
    by (destruct up; vm_compute; repeat constructor).
  apply (proj1 (Forall_forall _ _) Hf), elem_of_seqZ. lia.
Qed.

Lemma to_digits_range n base v : 0 < base → Forall (λ d, 0 ≤ d < base) (to_digits n base v).
Proof.
  intros Hb. revert v. induction n as [|n IH]; intros v; simpl; [constructor|].
  destruct (v =? 0); [constructor|]. apply Forall_app. split; [done|].
  apply Forall_singleton. apply Z.mod_pos_bound. lia.
Qed.

Lemma to_digits_number n base v :
  2 ≤ base → 0 ≤ v < 2 ^ Z.of_nat n → foldl (λ a d, a * base + d) 0 (to_digits n base v) = v.
Proof.
  intros Hb. revert v. induction n as [|n IH]; intros v Hv; simpl to_digits.
  - simpl in *. lia.
  - destruct (Z.eqb_spec v 0) as [->|Hne]; [done|]. rewrite foldl_app. simpl.
    rewrite IH; [pose proof (Z.div_mod v base); lia|].
    replace (Z.of_nat (S n)) with (Z.succ (Z.of_nat n)) in Hv by lia. rewrite Z.pow_succ_r in Hv by lia.
    split; [apply Z.div_pos; lia|]. apply Z.div_lt_upper_bound; [lia|]. nia.
Qed.

(** Appending to the buffer. *)
Lemma take_insert_next {A} (l : list A) (k : nat) c :
  (k < length l)%nat → take (S k) (<[k := c]> l) = take k l ++ [c].
Proof.
  intros. rewrite (take_S_r _ _ c) by (by rewrite list_lookup_insert_eq).
  by rewrite take_insert_ge by lia.
Qed.

Lemma fill_digits_ok up v base :
  10 ≤ base ≤ 16 → 0 < v < 2 ^ 64 →
  fill_digits (digit_table up) v base ⇓ λ '(pos, buffer),
    0 ≤ pos ≤ 32 ∧ length buffer = 32%nat ∧
    reverse (take (Z.to_nat pos) buffer) = unsigned_text base up v.
Proof.
  intros Hb Hv. unfold unsigned_text. rewrite (proj2 (Z.eqb_neq v 0)) by lia.
  apply (wp_loop_bound (λ k '(x, pos, buf), ∃ p : nat, pos = Z.of_nat p ∧ (p + k = 64)%nat ∧
    length buf = 32%nat ∧ 0 ≤ x ∧ x * 10 ^ pos < 2 ^ 64 ∧ (0 < x ∨ pos ≤ 32) ∧
    digit_char up <$> to_digits 64 base v =
    (digit_char up <$> to_digits k base x) ++ reverse (take p buf))) with (k := 64%nat).
  - intros k [[x pos] buf] (p & -> & Hk & Hlen & Hx & Hpow & Hpos & Heq).
    destruct (Z.leb_spec x 0) as [Hx0|Hx0].
    { assert (x = 0) as -> by lia. apply wp_ok. split; [lia|]. split; [done|].
      rewrite Nat2Z.id, Heq. by destruct k. }
    assert (p < 20)%nat as Hp20.
    { destruct (decide (p < 20)%nat); [done|exfalso].
      assert (10 ^ 20 ≤ 10 ^ Z.of_nat p) by (apply Z.pow_le_mono_r; lia). nia. }
    assert (0 ≤ x mod base < base) by (apply Z.mod_pos_bound; lia).
    rewrite umod_ok, bind_ok by lia.
    rewrite (zget_ok _ _ (digit_char up (x mod base))), bind_ok by
      (lia || (apply digit_table_lookup; lia)).
    rewrite zset_ok, bind_ok by (unfold zlen; lia). rewrite udiv_ok, bind_ok by lia.
    apply wp_ok. exists (k - 1)%nat. split; [lia|]. exists (S p).
    split; [lia|]. split; [lia|]. split; [by rewrite length_insert|].
    split; [apply Z.div_pos; lia|]. split; [|split].
    + rewrite Z.pow_add_r by lia. change (10 ^ 1) with 10.
      assert (x / base * 10 ≤ x).
      { pose proof (Z.mul_div_le x base). assert (0 ≤ x / base) by (apply Z.div_pos; lia). nia. }
      assert (0 < 10 ^ Z.of_nat p) by (apply Z.pow_pos_nonneg; lia). nia.
    + right. lia.
    + rewrite Nat2Z.id, take_insert_next, reverse_snoc by lia. rewrite Heq.
      destruct k as [|k]; [lia|]. simpl to_digits. rewrite (proj2 (Z.eqb_neq x 0)) by lia.
      rewrite Nat.sub_0_r, fmap_app, <-app_assoc. done.
  - exists 0%nat. split_and!; try done; try lia. by rewrite app_nil_r.
  - lia.
Qed.

(** ** Formats as data *)

Inductive conv :=
  | CPercent | CChar | CStr | CDec (letter_i : bool) | CUnsigned | CHex (uppercase : bool) | CPtr.
Inductive fmt_item :=
  | Lit (c : Z)
  | Conv (len : length_t) (cv : conv).

Definition spec_char (cv : conv) : Z :=
  match cv with
  | CPercent => 37 | CChar => 99 | CStr => 115
  | CDec i => if i then 105 else 100
  | CUnsigned => 117 | CHex up => if up then 88 else 120 | CPtr => 112
  end.
Definition len_text (len : length_t) : list Z :=
  match len with
  | LENGTH_DEFAULT => [] | LENGTH_LONG => [108] | LENGTH_LONG_LONG => [108; 108]
  | LENGTH_SIZE => [122]
  end.
Definition item_text (it : fmt_item) : list Z :=
  match it with Lit c => [c] | Conv len cv => 37 :: len_text len ++ [spec_char cv] end.
Definition fmt_text (items : list fmt_item) : list Z := concat (item_text <$> items).

Definition item_ok (it : fmt_item) : Prop :=
  match it with Lit c => c ≠ 0 ∧ c ≠ 37 | Conv _ _ => True end.

(** The string a buffer holds, if a NUL ends it. *)
Fixpoint c_text (buf : list Z) : option (list Z) :=
  match buf with
  | [] => None
  | c :: rest => if c =? 0 then Some [] else cons c <$> c_text rest
  end.

(** What a conversion prints, and the arguments it leaves; [None] when the
    argument does not have the type the conversion wants, the string is not
    terminated or the number is the least [int64_t]. *)
Definition conv_text (len : length_t) (cv : conv) (args : list varg)
  : option (list Z * list varg) :=
  match cv, args with
  | CPercent, _ => Some ([37], args)
  | CChar, VWord w :: args => Some ([u8 w], args)
  | CStr, VStr t :: args => (λ s, (s, args)) <$> c_text (default null_text t)
  | CDec _, VWord w :: args =>
      let v := int_arg len w in
      if v =? - 2 ^ 63 then None else Some (signed_text v, args)
  | CUnsigned, VWord w :: args => Some (unsigned_text 10 false (uint_arg len w), args)
  | CHex up, VWord w :: args => Some (unsigned_text 16 up (uint_arg len w), args)
  | CPtr, VWord w :: args => Some (48 :: 120 :: unsigned_text 16 false (u64 w), args)
  | _, _ => None
  end.

Fixpoint render (items : list fmt_item) (args : list varg) : option (list Z) :=
  match items with
  | [] => Some []
  | Lit c :: items => cons c <$> render items args
  | Conv len cv :: items => '(s, args) ← conv_text len cv args; app s <$> render items args
  end.

Lemma sint_range w x : 0 < w → - 2 ^ (w - 1) ≤ sint w x < 2 ^ (w - 1).
Proof.
  intros. unfold sint. assert (2 ^ w = 2 * 2 ^ (w - 1)) as Hw
    by (rewrite <-Z.pow_succ_r by lia; f_equal; lia).
  assert (0 < 2 ^ (w - 1)) by (apply Z.pow_pos_nonneg; lia). rewrite Hw.
  pose proof (Z.mod_pos_bound (x + 2 ^ (w - 1)) (2 * 2 ^ (w - 1))). lia.
Qed.

Lemma int_arg_range len w : - 2 ^ 63 ≤ int_arg len w < 2 ^ 63.
Proof.
  pose proof (sint_range 32 w ltac:(lia)). pose proof (sint_range 64 w ltac:(lia)).
  destruct len; unfold int_arg, i32, i64; simpl in *; lia.
Qed.

Lemma uint_arg_range len w : 0 ≤ uint_arg len w < 2 ^ 64.
Proof.
  pose proof (u32_range w). pose proof (u64_range w). destruct len; simpl; lia.
Qed.

Lemma fmt_text_length items : (length items ≤ length (fmt_text items))%nat.
Proof.
  induction items as [|it items IH]; [done|].
  change (fmt_text (it :: items)) with (item_text it ++ fmt_text items). rewrite length_app.
  assert (1 ≤ length (item_text it))%nat by (destruct it; simpl; lia). simpl. lia.
Qed.

Section Rendering.
Context {S : Type} (putc : S → Z → outcome S).

Lemma emit_buffer_ok buffer pos st count :
  (pos ≤ length buffer)%nat →
  emit_buffer putc st buffer pos count =
  (st ← put_all putc st (reverse (take pos buffer)); Ok (count + Z.of_nat pos, st)).
Proof.
  revert st count. induction pos as [|p IH]; intros st count Hp.
  - simpl. by rewrite Z.add_0_r.
  - destruct (lookup_lt_is_Some_2 buffer p) as [c Hc]; [lia|].
    rewrite (take_S_r _ _ c), reverse_snoc by done. cbn [emit_buffer put_all].
    rewrite (zget_ok _ _ c), bind_ok by (lia || by rewrite Nat2Z.id).
    destruct (putc st c) as [st'| |]; [|done..]. rewrite !bind_ok, IH by lia.
    destruct (put_all putc st' _); [|done..]. rewrite !bind_ok. do 2 f_equal. lia.
Qed.

Lemma emit_unsigned_ok st v base up :
  10 ≤ base ≤ 16 → 0 ≤ v < 2 ^ 64 →
  emit_unsigned putc st v base up =
  (st ← put_all putc st (unsigned_text base up v); Ok (zlen (unsigned_text base up v), st)).
Proof.
  intros Hb Hv. unfold emit_unsigned. destruct (Z.eqb_spec v 0) as [->|Hne].
  - unfold unsigned_text. simpl. by destruct (putc st 48).
  - destruct (fill_digits_ok up v base) as ([pos buffer] & -> & Hpos & Hlen & Ht); [done|lia|].
    rewrite bind_ok, emit_buffer_ok, Ht by lia. destruct (put_all putc st _); [|done..].
    rewrite !bind_ok. do 2 f_equal. rewrite <-Ht. unfold zlen. rewrite length_reverse, length_take. lia.
Qed.

Lemma emit_signed_ok st v :
  - 2 ^ 63 < v < 2 ^ 63 →
  emit_signed putc st v =
  (st ← put_all putc st (signed_text v); Ok (zlen (signed_text v), st)).
Proof.
  intros Hv. unfold emit_signed, signed_text. destruct (Z.ltb_spec v 0).
  - cbn [put_all]. destruct (putc st 45) as [st'| |]; [|done..]. rewrite !bind_ok.
    rewrite (proj2 (Z.eqb_neq _ _)) by lia. rewrite u64_small, emit_unsigned_ok by lia.
    destruct (put_all putc st' _); [|done..]. rewrite !bind_ok. do 2 f_equal. unfold zlen. simpl. lia.
  - by rewrite u64_small, emit_unsigned_ok by lia.
Qed.

Lemma emit_string_from_ok st text s count :
  c_text text = Some s → 0 ≤ count → count + zlen s < 2 ^ 31 →
  emit_string_from putc st text count = (st ← put_all putc st s; Ok (count + zlen s, st)).
Proof.
  revert st s count. induction text as [|c text IH]; intros st s count Ht Hc0 Hmax; simpl in *; [done|].
  destruct (Z.eqb_spec c 0) as [->|Hne].
  - simplify_eq. unfold zlen. simpl. by rewrite Z.add_0_r.
  - apply fmap_Some in Ht as (s' & Ht & ->). unfold zlen in *. simpl in Hmax. cbn [put_all].
    destruct (putc st c) as [st'| |]; [|done..]. rewrite !bind_ok. unfold add_int.
    rewrite (proj2 (Z.ltb_lt _ _)) by lia. rewrite bind_ok, (IH _ s') by (done || lia).
    destruct (put_all putc st' s'); [|done..]. rewrite !bind_ok. do 2 f_equal. simpl. lia.
Qed.

(** Closes the goals of [convert_ok] once the emission lemma has been applied. *)
Ltac finish_convert st :=
  match goal with |- context [put_all putc st ?s] => destruct (put_all putc st s); done end.

Lemma convert_ok len cv st args s args' :
  conv_text len cv args = Some (s, args') → zlen s < 2 ^ 31 →
  convert putc len (spec_char cv) st args = (st ← put_all putc st s; Ok (zlen s, st, args')).
Proof.
  intros Ht Hmax. unfold convert.
  destruct cv as [| | |i| |up|]; simpl in Ht.
  - simplify_eq. simpl. by destruct (putc st 37).
  - destruct args as [|[w|] args]; simplify_eq. simpl. by destruct (putc st (u8 w)).
  - destruct args as [|[|t] args]; simplify_eq. cbn [spec_char Z.eqb Pos.eqb orb va_str mbind outcome_bind].
    apply fmap_Some in Ht as (s' & Hs & [= <- <-]). unfold emit_string.
    rewrite (emit_string_from_ok _ _ s 0 Hs) by lia. finish_convert st.
  - destruct args as [|[w|] args]; simplify_eq.
    destruct (Z.eqb_spec (int_arg len w) (- 2 ^ 63)) as [|Hv]; simplify_eq.
    pose proof (int_arg_range len w).
    destruct i; cbn [spec_char Z.eqb Pos.eqb orb va_signed va_word mbind outcome_bind];
      rewrite emit_signed_ok by lia; finish_convert st.
  - destruct args as [|[w|] args]; simplify_eq. pose proof (uint_arg_range len w).
    cbn [spec_char Z.eqb Pos.eqb orb va_unsigned va_word mbind outcome_bind].
    rewrite emit_unsigned_ok by lia. finish_convert st.
  - destruct args as [|[w|] args]; simplify_eq. pose proof (uint_arg_range len w).
    destruct up; cbn [spec_char Z.eqb Pos.eqb orb va_unsigned va_word mbind outcome_bind];
      rewrite emit_unsigned_ok by lia; finish_convert st.
  - destruct args as [|[w|] args]; simplify_eq. pose proof (u64_range w).
    cbn [spec_char Z.eqb Pos.eqb orb]. unfold emit_string.
    rewrite (emit_string_from_ok _ _ [48; 120] 0) by (done || (unfold zlen; simpl; lia)).
    change (48 :: 120 :: unsigned_text 16 false (u64 w)) with
      ([48; 120] ++ unsigned_text 16 false (u64 w)). rewrite put_all_app.
    destruct (put_all putc st [48; 120]) as [st'| |]; [|done..]. rewrite !bind_ok. simpl va_word.
    rewrite bind_ok, emit_unsigned_ok by lia.
    destruct (put_all putc st' _); [|done..]. rewrite !bind_ok. unfold zlen. rewrite length_app.
    do 3 f_equal. simpl. lia.
Qed.

Lemma length_modifier_ok len cv rest :
  length_modifier (len_text len ++ spec_char cv :: rest) = Ok (len, spec_char cv :: rest).
Proof. by destruct len, cv as [| | |[]| |[]|]. Qed.

Lemma kvprintf_loop_ok fuel items args s st count tail :
  Forall item_ok items → render items args = Some s → 0 ≤ count → count + zlen s < 2 ^ 31 →
  (length items < fuel)%nat →
  kvprintf_loop putc fuel st (fmt_text items ++ 0 :: tail) args count =
  (st ← put_all putc st s; Ok (count + zlen s, st)).
Proof.
  intros Hi. revert fuel args s st count. induction Hi as [|it items Hit Hi IH];
    intros fuel args s st count Hr Hc Hmax Hf; (destruct fuel as [|fuel]; [simpl in Hf; lia|]).
  { simpl in *. simplify_eq. unfold zlen. simpl. by rewrite Z.add_0_r. }
  destruct it as [c|len cv]; simpl in Hr.
  - apply fmap_Some in Hr as (s' & Hr & ->). destruct Hit as [Hc0 Hc37].
    cbn [fmt_text concat fmap list_fmap item_text app kvprintf_loop].
    rewrite (proj2 (Z.eqb_neq c 0)), (proj2 (Z.eqb_neq c 37)) by done. cbn [negb put_all].
    unfold zlen in *. simpl in Hmax, Hf. destruct (putc st c) as [st'| |]; [|done..].
    rewrite !bind_ok. unfold add_int. rewrite (proj2 (Z.ltb_lt _ _)) by lia.
    rewrite bind_ok. rewrite (IH fuel args s') by (done || lia).
    destruct (put_all putc st' s'); [|done..]. rewrite !bind_ok. do 2 f_equal. simpl. lia.
  - destruct (conv_text len cv args) as [[s1 args1]|] eqn:Hcv; [|done]. simpl in Hr.
    apply fmap_Some in Hr as (s2 & Hr & ->).
    assert (zlen (s1 ++ s2) = zlen s1 + zlen s2) as Hl by (unfold zlen; rewrite length_app; lia).
    assert (0 ≤ zlen s1 ∧ 0 ≤ zlen s2) as [? ?] by (unfold zlen; lia).
    cbn [fmt_text concat fmap list_fmap item_text app kvprintf_loop].
    rewrite <-app_assoc. change (37 =? 0) with false. change (negb (37 =? 37)) with false. cbv iota.
    rewrite <-app_assoc. cbn [app]. rewrite length_modifier_ok, bind_ok. cbn [deref]. rewrite bind_ok.
    rewrite (convert_ok _ _ _ _ s1 args1) by (done || lia). rewrite put_all_app.
    destruct (put_all putc st s1) as [st'| |]; [|done..]. rewrite !bind_ok. unfold add_int.
    rewrite (proj2 (Z.ltb_lt _ _)) by lia. rewrite bind_ok. cbn [drop]. rewrite drop_0.
    simpl in Hf. rewrite (IH fuel args1 s2) by (done || lia).
    destruct (put_all putc st' s2); [|done..]. rewrite !bind_ok. do 2 f_equal. lia.
Qed.

Lemma kvprintf_ok items args s st :
  Forall item_ok items → render items args = Some s → zlen s < 2 ^ 31 →
  kvprintf putc st (Some (cstr (fmt_text items))) args =
  (st ← put_all putc st s; Ok (zlen s, st)).
Proof.
  intros Hi Hr Hmax. unfold kvprintf, cstr. rewrite (kvprintf_loop_ok _ _ _ s) by
    (done || lia || (rewrite length_app; simpl; pose proof (fmt_text_length items); lia)).
  by destruct (put_all putc st s).
Qed.

(** kvprintf on any format built from text and the supported conversions, with arguments of the
    right kinds, sends to kputchar exactly the characters of the reference rendering, in order,
    and returns their number. *)
Theorem kvprintf_renders items args s st :
  Forall item_ok items → render items args = Some s → zlen s < 2 ^ 31 →
  kvprintf putc st (Some (cstr (fmt_text items))) args =
  (st ← put_all putc st s; Ok (zlen s, st)).
Proof. apply kvprintf_ok. Qed.

End Rendering.

(** A sink that collects what is printed. *)
Definition list_sink (out : list Z) (c : Z) : outcome (list Z) := Ok (out ++ [c]).

Lemma put_all_list out s : put_all list_sink out s = Ok (out ++ s).
Proof.
  revert out. induction s as [|c s IH]; intros out; simpl; [by rewrite app_nil_r|].
  by rewrite IH, <-app_assoc.
Qed.

(** "n=%u\n" with 42. *)
Lemma kvprintf_renders_witness :
  kvprintf list_sink [] (Some [110; 61; 37; 117; 10; 0]) [VWord 42] = Ok (5, [110; 61; 52; 50; 10]).
Proof.
  rewrite (kvprintf_renders list_sink [Lit 110; Lit 61; Conv LENGTH_DEFAULT CUnsigned; Lit 10]
             [VWord 42] [110; 61; 52; 50; 10]).
  - done.
  - repeat constructor; simpl; lia.
  - by vm_compute.
  - by vm_compute.
Defined.

(** A format that ends in a percent sign makes kvprintf read behind its terminator. *)
Theorem kvprintf_trailing_percent_overread c :
  c ≠ 0 → c ≠ 37 → kvprintf list_sink [] (Some (cstr [c; 37])) [] = Undef.
Proof.
  intros H0 H37. unfold kvprintf, cstr. cbn [app length kvprintf_loop].
  rewrite (proj2 (Z.eqb_neq c 0)), (proj2 (Z.eqb_neq c 37)) by done. reflexivity.
Qed.

Lemma kvprintf_trailing_percent_overread_witness :
  kvprintf list_sink [] (Some (cstr [65; 37])) [] = Undef.
Proof. apply kvprintf_trailing_percent_overread; lia. Defined.

(** ** Printing and parsing *)

Lemma digit_char_digit base up d : 10 ≤ base ≤ 16 → 0 ≤ d < base → is_digit base (digit_char up d).
Proof. intros Hb Hd. unfold is_digit. rewrite digit_value_char by lia. lia. Qed.

Lemma unsigned_text_digits base up v :
  10 ≤ base ≤ 16 → 0 ≤ v < 2 ^ 64 →
  Forall (is_digit base) (unsigned_text base up v) ∧ unsigned_text base up v ≠ [] ∧
  digits_number base (unsigned_text base up v) = v.
Proof.
  intros Hb Hv. unfold unsigned_text. destruct (Z.eqb_spec v 0) as [->|Hne].
  - split; [|done]. apply Forall_singleton. unfold is_digit. change (digit_value 48) with 0. lia.
  - assert (digits_number base (digit_char up <$> to_digits 64 base v) = v) as Hn.
    { rewrite <-(to_digits_number 64 base v) at 2 by (simpl; lia). unfold digits_number.
      pose proof (to_digits_range 64 base v ltac:(lia)) as Hr. generalize 0 as a.
      induction Hr as [|d ds Hd _ IH]; intros a; cbn [fmap list_fmap foldl]; [done|].
      rewrite IH, digit_value_char by lia. done. }
    split; [|split; [|done]].
    + apply Forall_fmap. eapply Forall_impl; [apply to_digits_range; lia|].
      intros d Hd. by apply digit_char_digit.
    + intros He. rewrite He in Hn. by vm_compute in Hn.
Qed.

Lemma digit_not_x base c : base ≤ 16 → is_digit base c → is_x c = false.
Proof.
  intros Hb [Hlo Hhi]. unfold is_x. apply orb_false_intro; apply Z.eqb_neq; intros ->;
    [change (digit_value 120) with 33 in Hhi|change (digit_value 88) with 33 in Hhi]; lia.
Qed.

(** The digits emit_unsigned prints for a 64-bit value in base 10 or 16 are read back by strtoul
    as the same value, with the whole text consumed. *)
Theorem print_parse_roundtrip base up v :
  base = 10 ∨ base = 16 → 0 ≤ v < 2 ^ 64 →
  emit_unsigned list_sink [] v base up ⇓ λ '(n, out),
    n = zlen out ∧ strtoul (Some (cstr out)) base = Ok (v, Some [0]).
Proof.
  intros Hb Hv. assert (10 ≤ base ≤ 16) as Hb' by lia.
  rewrite emit_unsigned_ok, put_all_list by done. apply wp_ok. split; [done|].
  destruct (unsigned_text_digits base up v Hb' Hv) as (Hd & Hne & Hn).
  unfold cstr. simpl. pose proof (strtoul_ok base [] (unsigned_text base up v) 0 []) as Hs.
  rewrite Hn, u64_small in Hs by lia. apply Hs; try done; try lia.
  - intros _ _. destruct (unsigned_text base up v !! 1%nat) as [c|] eqn:Hc; [|done].
    simpl. eapply digit_not_x; [|by eapply Forall_lookup_1]. lia.
  - intros [H _]. change (digit_value 0) with (-1) in H. lia.
Qed.

Lemma print_parse_roundtrip_witness :
  emit_unsigned list_sink [] 48879 16 true ⇓ λ '(n, out),
    n = zlen out ∧ strtoul (Some (cstr out)) 16 = Ok (48879, Some [0]).
Proof. apply print_parse_roundtrip; lia. Defined.

(** ** The kernel console *)

Section Console.
Context {D : Type} (serial_write_char framebuffer_putc : D → Z → outcome D).

Record console := { log : Klog.klog_t; devices : D }.

Definition kputchar (st : console) (ch : Z) : outcome console :=
  k ← Klog.klog_putc (log st) ch;
  d ← serial_write_char (devices st) ch;
  d ← framebuffer_putc d ch;
  Ok {| log := k; devices := d |}.

(** [panic] prints and then halts for ever: the state in which it stops. *)
Definition panic (st : console) (fmt : option (list Z)) (args : list varg) : outcome console :=
  st ← kputs kputchar st
         (Some [107; 101; 114; 110; 101; 108; 32; 112; 97; 110; 105; 99; 58; 32; 0]);
  '(_, st) ← kvprintf kputchar st fmt args;
  kputchar st 10.

End Console.

(** ** The log front end (log.c) *)

Inductive log_level_t := LOG_TRACE | LOG_DEBUG | LOG_INFO | LOG_WARN | LOG_ERROR | LOG_FATAL.

Definition level_num (l : log_level_t) : Z :=
  match l with
  | LOG_TRACE => 0 | LOG_DEBUG => 1 | LOG_INFO => 2 | LOG_WARN => 3 | LOG_ERROR => 4 | LOG_FATAL => 5
  end.

Definition level_name (l : log_level_t) : list Z :=
  match l with
  | LOG_TRACE => [116; 114; 97; 99; 101]
  | LOG_DEBUG => [100; 101; 98; 117; 103]
  | LOG_INFO => [105; 110; 102; 111]
  | LOG_WARN => [119; 97; 114; 110]
  | LOG_ERROR => [101; 114; 114; 111; 114]
  | LOG_FATAL => [102; 97; 116; 97; 108]
  end.

(** [log_set_level] and [log_get_level] write and read [current_level], which
    is passed to [log_write] here. *)
Definition log_set_level (_current level : log_level_t) : log_level_t := level.
Definition log_get_level (current : log_level_t) : log_level_t := current.

Section Log.
Context {S : Type} (putc : S → Z → outcome S).

Definition log_write (current : log_level_t) (st : S) (level : log_level_t)
    (subsystem fmt : option (list Z)) (args : list varg) : outcome S :=
  if level_num level <? level_num current then Ok st
  else
    '(_, st) ← kprintf putc st (Some [91; 37; 115; 0]) [VStr (Some (cstr (level_name level)))];
    st ← match subsystem with
         | None => Ok st
         | Some sub =>
             c ← deref sub;
             if c =? 0 then Ok st
             else '(_, st) ← kprintf putc st (Some [58; 37; 115; 0]) [VStr subsystem]; Ok st
         end;
    '(_, st) ← kprintf putc st (Some [93; 32; 0]) [];
    '(_, st) ← kvprintf putc st fmt args;
    '(_, st) ← kprintf putc st (Some [10; 0]) [];
    Ok st.

(** The tag of a line: "[level]" or "[level:subsystem]", and a blank. *)
Definition log_tag (level : log_level_t) (sub : list Z) : list Z :=
  [91] ++ level_name level ++ (if decide (sub = []) then [] else 58 :: sub) ++ [93; 32].

Lemma c_text_cstr buf s : is_cstr buf s → c_text buf = Some s.
Proof.
  intros [Hs [rest ->]]. induction Hs as [|c s Hc _ IH]; simpl; [done|].
  by rewrite (proj2 (Z.eqb_neq c 0)), IH by lia.
Qed.

(** A message at or above the current level is printed as one tagged line. *)
Lemma log_write_ok current st level buf sub items args s :
  level_num current ≤ level_num level → is_cstr buf sub → zlen sub < 2 ^ 30 →
  Forall item_ok items → render items args = Some s → zlen s < 2 ^ 31 →
  log_write current st level (Some buf) (Some (cstr (fmt_text items))) args =
  put_all putc st (log_tag level sub ++ s ++ [10]).
Proof.
  intros Hl Hsub Hmax Hi Hr Hs. unfold log_write, kprintf.
  rewrite (proj2 (Z.ltb_ge _ _)) by done.
  rewrite (kvprintf_ok putc [Lit 91; Conv LENGTH_DEFAULT CStr] _ ([91] ++ level_name level)).
  2:{ repeat constructor; lia. } 2:{ by destruct level. } 2:{ by destruct level; vm_compute. }
  unfold log_tag. rewrite <-!app_assoc. rewrite (app_assoc [91]).
  rewrite (put_all_app putc st ([91] ++ level_name level)).
  destruct (put_all putc st ([91] ++ level_name level)) as [st1| |]; [|done..]. rewrite !bind_ok.
  assert (∀ st2, ('(_, st) ← kvprintf putc st2 (Some [93; 32; 0]) [];
      '(_, st0) ← kvprintf putc st (Some (cstr (fmt_text items))) args;
      '(_, st3) ← kvprintf putc st0 (Some [10; 0]) []; Ok st3) =
      put_all putc st2 ([93; 32] ++ s ++ [10])) as Htail.
  { intros st2. rewrite (kvprintf_ok putc [Lit 93; Lit 32] [] [93; 32]) by
      (done || (repeat constructor; lia)). rewrite put_all_app.
    destruct (put_all putc st2 [93; 32]) as [st3| |]; [|done..]. rewrite !bind_ok.
    rewrite (kvprintf_ok putc items args s) by done. rewrite put_all_app.
    destruct (put_all putc st3 s) as [st4| |]; [|done..]. rewrite !bind_ok.
    rewrite (kvprintf_ok putc [Lit 10] [] [10]) by (done || (repeat constructor; lia)).
    by destruct (put_all putc st4 [10]). }
  pose proof (c_text_cstr _ _ Hsub) as Hct. pose proof Hsub as [Hsb [rest Hbuf]].
  destruct sub as [|c sub]; subst buf; cbn [app deref].
  - rewrite bind_ok. simpl (if decide _ then _ else _). apply Htail.
  - apply Forall_cons in Hsb as [Hc _]. rewrite bind_ok, (proj2 (Z.eqb_neq c 0)) by lia.
    rewrite decide_False by done.
    rewrite (kvprintf_ok putc [Lit 58; Conv LENGTH_DEFAULT CStr] _ (58 :: c :: sub)).
    2:{ repeat constructor; lia. } 2:{ cbn [app] in Hct. cbn [render conv_text default from_option id]. rewrite Hct. simpl.
        by rewrite app_nil_r. }
    2:{ unfold zlen in *. simpl in *. lia. }
    rewrite put_all_app. destruct (put_all putc st1 (58 :: c :: sub)) as [st2| |]; [|done..].
    rewrite !bind_ok. apply Htail.
Qed.

End Log.

End KPrintf.
