(* ===== verification/HashMap.v ===== *)
(** The chained hash map (kernel/lib/hashmap.c) over caller-supplied arrays of
    buckets and entries.

    An entry pointer is an index into the entry array ([None] is NULL), a key is
    the object its pointer points to, and a value pointer is its address.  The
    table keeps the caller's pointer to a key and does not copy the key: the model
    is of callers that leave a key as it is while the table holds it.  The
    refinement theorem says that, whatever the collisions, the map behaves like
    a finite map from strings with room for [entry_capacity] keys. *)
From S2P Require Import Prelude KString.

Module HashMap.
Import KString.

Record hashmap_entry_t := {
  key : option (list Z);
  value : Z;
  hash : Z;
  next : option nat
}.

Record hashmap_t := {
  buckets : option (list (option nat));
  bucket_count : Z;
  entries : option (list hashmap_entry_t);
  entry_capacity : Z;
  entry_count : Z
}.

Definition empty_entry : hashmap_entry_t := {| key := None; value := 0; hash := 0; next := None |}.

Definition hash_init : Z := 1469598103934665603.
Definition hash_step (hash c : Z) : Z := u64 (Z.lxor hash (u8 c) * 1099511628211).

(** [key] moves forward to the terminator. *)
Fixpoint hash_from (h : Z) (key : list Z) : outcome Z :=
  match key with
  | [] => Undef
  | c :: rest => if c =? 0 then Ok h else hash_from (hash_step h c) rest
  end.
Definition hashmap_hash_string (key : option (list Z)) : outcome Z :=
  match key with None => Ok hash_init | Some k => hash_from hash_init k end.

Definition with_arrays (map : hashmap_t) (bs : list (option nat)) (es : list hashmap_entry_t)
    (count : Z) : hashmap_t :=
  {| buckets := Some bs; bucket_count := bucket_count map; entries := Some es;
     entry_capacity := entry_capacity map; entry_count := count |}.

Definition hashmap_clear (map : option hashmap_t) : outcome (option hashmap_t) :=
  match map with
  | Some m =>
      match buckets m with
      | None => Ok map
      | Some bs =>
          bs ← for_each 0 (bucket_count m) (λ i bs, zset bs i None) bs;
          es ← match entries m with
               | None => Ok None
               | Some es =>
                   es ← for_each 0 (entry_capacity m) (λ i es, zset es i empty_entry) es;
                   Ok (Some es)
               end;
          Ok (Some {| buckets := Some bs; bucket_count := bucket_count m; entries := es;
                      entry_capacity := entry_capacity m; entry_count := 0 |})
      end
  | None => Ok None
  end.

Definition hashmap_init (map : option hashmap_t) (bs : option (list (option nat))) (bcount : Z)
    (es : option (list hashmap_entry_t)) (ecap : Z) : outcome (option hashmap_t) :=
  match map with
  | None => Ok None
  | Some _ =>
      hashmap_clear (Some {| buckets := bs; bucket_count := bcount; entries := es;
                             entry_capacity := ecap; entry_count := 0 |})
  end.

Definition key_equals (entry : hashmap_entry_t) (k : list Z) (h : Z) : outcome bool :=
  match key entry with
  | None => Ok false
  | Some ek => if hash entry =? h then r ← strcmp ek k; Ok (r =? 0) else Ok false
  end.

(** The index of the entry taken, and the map with its count increased. *)
Definition alloc_entry (map : hashmap_t) : outcome (option nat * hashmap_t) :=
  match entries map with
  | None => Ok (None, map)
  | Some es =>
      if entry_capacity map <=? entry_count map then Ok (None, map)
      else
        r ← for_loop 0 (entry_capacity map)
              (λ i (_ : unit),
                 e ← zget es i;
                 match key e with None => Ok (inr i) | Some _ => Ok (inl tt) end) tt;
        match r with
        | inr i =>
            Ok (Some (Z.to_nat i),
                {| buckets := buckets map; bucket_count := bucket_count map;
                   entries := entries map; entry_capacity := entry_capacity map;
                   entry_count := u64 (entry_count map + 1) |})
        | inl _ => Ok (None, map)
        end
  end.

(** Follows a chain to the entry for [k]: the entry before it and its index, or
    [None] at the end of the chain. *)
Definition find_in_chain (es : list hashmap_entry_t) (k : list Z) (h : Z) (start : option nat)
  : outcome (option (option nat * nat)) :=
  loop (S (S (length es)))
    (λ '(prev, entry),
       match entry with
       | None => Ok (inr None)
       | Some i =>
           e ← zget es (Z.of_nat i);
           eq ← key_equals e k h;
           if (eq : bool) then Ok (inr (Some (prev, i))) else Ok (inl (Some i, next e))
       end) (None, start).

(** The guards shared by the three operations. *)
Definition usable (map : option hashmap_t) (key : option (list Z))
  : option (hashmap_t * list (option nat) * list Z) :=
  match map, key with
  | Some m, Some k =>
      match buckets m with
      | Some bs => if bucket_count m =? 0 then None else Some (m, bs, k)
      | None => None
      end
  | _, _ => None
  end.

(** The entry array that a chain runs through: reached only when the chain has
    an entry, so a NULL array is never followed. *)
Definition entry_array (map : hashmap_t) : list hashmap_entry_t := default [] (entries map).

Definition hashmap_put (map : option hashmap_t) (key : option (list Z)) (val : Z)
  : outcome (Z * option hashmap_t) :=
  match usable map key with
  | None => Ok (-1, map)
  | Some (m, bs, k) =>
      h ← hashmap_hash_string key;
      bucket ← umod h (bucket_count m);
      start ← zget bs bucket;
      r ← find_in_chain (entry_array m) k h start;
      match r with
      | Some (_, i) =>
          e ← zget (entry_array m) (Z.of_nat i);
          es ← zset (entry_array m) (Z.of_nat i)
                 {| key := HashMap.key e; value := val; hash := hash e; next := next e |};
          Ok (0, Some (with_arrays m bs es (entry_count m)))
      | None =>
          '(slot, m) ← alloc_entry m;
          match slot with
          | None => Ok (-1, Some m)
          | Some i =>
              first ← zget bs bucket;
              es ← zset (entry_array m) (Z.of_nat i)
                     {| key := Some k; value := val; hash := h; next := first |};
              bs ← zset bs bucket (Some i);
              Ok (0, Some (with_arrays m bs es (entry_count m)))
          end
      end
  end.

Definition hashmap_get (map : option hashmap_t) (key : option (list Z)) : outcome Z :=
  match usable map key with
  | None => Ok 0
  | Some (m, bs, k) =>
      h ← hashmap_hash_string key;
      bucket ← umod h (bucket_count m);
      start ← zget bs bucket;
      r ← find_in_chain (entry_array m) k h start;
      match r with
      | Some (_, i) => e ← zget (entry_array m) (Z.of_nat i); Ok (value e)
      | None => Ok 0
      end
  end.

Definition set_next (e : hashmap_entry_t) (n : option nat) : hashmap_entry_t :=
  {| key := key e; value := value e; hash := hash e; next := n |}.

Definition hashmap_remove (map : option hashmap_t) (key : option (list Z))
  : outcome (Z * option hashmap_t) :=
  match usable map key with
  | None => Ok (-1, map)
  | Some (m, bs, k) =>
      h ← hashmap_hash_string key;
      bucket ← umod h (bucket_count m);
      start ← zget bs bucket;
      r ← find_in_chain (entry_array m) k h start;
      match r with
      | None => Ok (-1, map)
      | Some (prev, i) =>
          e ← zget (entry_array m) (Z.of_nat i);
          '(bs, es) ← match prev with
                      | Some p =>
                          pe ← zget (entry_array m) (Z.of_nat p);
                          es ← zset (entry_array m) (Z.of_nat p) (set_next pe (next e));
                          Ok (bs, es)
                      | None => bs ← zset bs bucket (next e); Ok (bs, entry_array m)
                      end;
          es ← zset es (Z.of_nat i) empty_entry;
          Ok (0, Some (with_arrays m bs es (u64 (entry_count m - 1))))
      end
  end.

Definition hashmap_size (map : option hashmap_t) : Z :=
  match map with Some m => entry_count m | None => 0 end.

(** ** Representation *)

(** The entries that a chain starting at [start] runs through are [c]. *)
Fixpoint linked (es : list hashmap_entry_t) (start : option nat) (c : list nat) : Prop :=
  match c with
  | [] => start = None
  | i :: c => start = Some i ∧ ∃ e, es !! i = Some e ∧ linked es (next e) c
  end.

Definition string_hash (s : list Z) : Z := foldl hash_step hash_init s.

Definition entry_for (e : hashmap_entry_t) (s : list Z) : Prop :=
  ∃ k, key e = Some k ∧ is_cstr k s ∧ hash e = string_hash s.

Definition bucket_of (n : Z) (s : list Z) : nat := Z.to_nat (string_hash s mod n).

(** [cs] lists the chains, one for each bucket. *)
Record chains_ok (es : list hashmap_entry_t) (bs : list (option nat)) (cs : list (list nat)) : Prop := {
  ch_len : length cs = length bs;
  ch_linked : ∀ b st c, bs !! b = Some st → cs !! b = Some c → linked es st c;
  ch_nodup : ∀ b c, cs !! b = Some c → NoDup c;
  ch_key : ∀ b c i, cs !! b = Some c → i ∈ c →
             ∃ e s, es !! i = Some e ∧ entry_for e s ∧ bucket_of (zlen bs) s = b;
  ch_used : ∀ i e, es !! i = Some e →
             key e = None ∨ ∃ s c, entry_for e s ∧ cs !! bucket_of (zlen bs) s = Some c ∧ i ∈ c;
  ch_inj : ∀ i j e1 e2 s, es !! i = Some e1 → es !! j = Some e2 →
             entry_for e1 s → entry_for e2 s → i = j
}.

Definition used (es : list hashmap_entry_t) : list hashmap_entry_t := filter (λ e, key e ≠ None) es.

Definition repr (map : hashmap_t) (m : gmap (list Z) Z) : Prop :=
  ∃ bs es cs, buckets map = Some bs ∧ bucket_count map = zlen bs ∧ 0 < zlen bs ∧
    entries map = Some es ∧ entry_capacity map = zlen es ∧ zlen es < 2 ^ 63 ∧
    entry_count map = zlen (used es) ∧ chains_ok es bs cs ∧
    (∀ s v, m !! s = Some v ↔ ∃ i e, es !! i = Some e ∧ entry_for e s ∧ value e = v) ∧
    size m = length (used es).

(** ** Keys *)

Lemma entry_for_inj e s1 s2 : entry_for e s1 → entry_for e s2 → s1 = s2.
Proof.
  intros (k1 & Hk1 & H1 & _) (k2 & Hk2 & H2 & _). rewrite Hk1 in Hk2. simplify_eq.
  by eapply is_cstr_unique.
Qed.

Lemma entry_for_key e s : entry_for e s → key e ≠ None.
Proof. intros (k & -> & _). done. Qed.

Lemma hash_string_ok k s : is_cstr k s → hashmap_hash_string (Some k) = Ok (string_hash s).
Proof.
  intros [Hs [rest ->]]. unfold hashmap_hash_string, string_hash. generalize hash_init as h.
  induction Hs as [|c s Hc _ IH]; intros h; simpl; [done|].
  rewrite (proj2 (Z.eqb_neq c 0)) by lia. apply IH.
Qed.

Lemma string_hash_range s : 0 ≤ string_hash s < 2 ^ 64.
Proof.
  unfold string_hash. destruct s as [|c s _] using rev_ind; [by vm_compute|].
  rewrite foldl_app. apply u64_range.
Qed.

Lemma key_equals_ok e k s :
  is_cstr k s → (∃ s', entry_for e s') →
  key_equals e k (string_hash s) ⇓ λ b, b = true ↔ entry_for e s.
Proof.
  intros Hk (s' & ek & Hek & Hcs & Hh). unfold key_equals. rewrite Hek.
  destruct (Z.eqb_spec (hash e) (string_hash s)) as [Heq|Hne].
  - apply wp_bind. eapply wp_mono; [by apply (strcmp_ok ek s' k s)|]. intros r Hr. apply wp_ok.
    rewrite Z.eqb_eq, Hr. split.
    + intros <-. by exists ek.
    + intros Hf. eapply entry_for_inj; [|done]. by exists ek.
  - apply wp_ok. split; [done|]. intros (k' & Hk' & _ & ?). congruence.
Qed.

(** ** Chains *)

Lemma linked_frame es es' start c :
  (∀ i, i ∈ c → next <$> es' !! i = next <$> es !! i) → linked es start c → linked es' start c.
Proof.
  revert start. induction c as [|i c IH]; intros start Hn; simpl; [done|].
  intros (-> & e & He & Hl). split; [done|]. pose proof (Hn i ltac:(left)) as Hi.
  rewrite He in Hi. simpl in Hi. destruct (es' !! i) as [e'|]; [|done].
  simpl in Hi. injection Hi as Hi. exists e'. split; [done|]. rewrite Hi. apply IH; [|done]. intros j Hj. apply Hn. by right.
Qed.

Lemma linked_app es start c1 i c2 :
  linked es start (c1 ++ i :: c2) → ∃ e, es !! i = Some e ∧ linked es (next e) c2.
Proof.
  revert start. induction c1 as [|j c1 IH]; intros start; simpl.
  - intros (_ & e & He & Hl). eauto.
  - intros (_ & e & _ & Hl). eauto.
Qed.

Lemma nodup_bound (c : list nat) n : NoDup c → (∀ i, i ∈ c → (i < n)%nat) → (length c ≤ n)%nat.
Proof.
  intros Hn Hb. rewrite <-(length_seq n 0). apply NoDup_incl_length; [by apply NoDup_ListNoDup|].
  intros i Hi. apply in_seq. rewrite <-list_elem_of_In in Hi. specialize (Hb i Hi). lia.
Qed.

Lemma find_ok es k s start c :
  is_cstr k s → linked es start c → NoDup c →
  (∀ i, i ∈ c → ∃ e s', es !! i = Some e ∧ entry_for e s') →
  find_in_chain es k (string_hash s) start ⇓ λ r,
    match r with
    | None => ∀ i e, i ∈ c → es !! i = Some e → ¬ entry_for e s
    | Some (prev, i) => ∃ c1 c2 e, c = c1 ++ i :: c2 ∧ prev = last c1 ∧
                          es !! i = Some e ∧ entry_for e s ∧ linked es (next e) c2
    end.
Proof.
  intros Hk Hl Hnd Hkeys.
  assert (length c ≤ length es)%nat as Hlen.
  { apply nodup_bound; [done|]. intros i (e & s' & He & _)%Hkeys. by eapply lookup_lt_Some. }
  apply (wp_loop_bound (λ n '(prev, entry), ∃ c1 c2, c = c1 ++ c2 ∧ prev = last c1 ∧
    linked es entry c2 ∧ n = length c2 ∧ ∀ i e, i ∈ c1 → es !! i = Some e → ¬ entry_for e s))
    with (k := length c).
  - intros n [prev entry] (c1 & c2 & -> & -> & Hl2 & -> & Hno).
    destruct c2 as [|i c2]; simpl in Hl2.
    { subst entry. apply wp_ok. by rewrite app_nil_r. }
    destruct Hl2 as (-> & e & He & Hl2).
    destruct (Hkeys i) as (e' & s' & He' & Hs'); [apply elem_of_app; right; left|].
    assert (e' = e) as -> by congruence.
    rewrite (zget_ok _ _ e), bind_ok by (lia || by rewrite Nat2Z.id). apply wp_bind.
    eapply wp_mono; [apply key_equals_ok; eauto|]. intros b Hb. destruct b; apply wp_ok.
    + exists c1, c2, e. split_and!; try done. by apply Hb.
    + exists (length c2). split; [simpl; lia|]. exists (c1 ++ [i]), c2.
      rewrite <-app_assoc, last_snoc. split_and!; try done.
      intros j ej [Hj|Hj]%elem_of_app Hej; [eauto|].
      apply list_elem_of_singleton in Hj as ->. simplify_eq. intros ?%Hb. done.
  - exists [], c. split_and!; try done. intros i e ?%not_elem_of_nil. done.
  - lia.
Qed.

Lemma linked_cut es st c0 p i c2 e pe :
  linked es st (c0 ++ p :: i :: c2) → NoDup (c0 ++ p :: i :: c2) →
  es !! i = Some e → es !! p = Some pe →
  linked (<[p := set_next pe (next e)]> es) st (c0 ++ p :: c2).
Proof.
  intros Hl Hnd He Hpe. revert st Hl Hnd.
  induction c0 as [|j c0 IH]; intros st Hl Hnd; simpl in *.
  - destruct Hl as (-> & pe' & Hpe' & Hl). destruct Hl as (Hn & e' & He' & Hl). simplify_eq.
    split; [done|]. eexists. split; [by rewrite list_lookup_insert_eq by (by eapply lookup_lt_Some)|].
    simpl. eapply linked_frame; [|exact Hl]. intros j Hj.
    apply NoDup_cons in Hnd as [Hp _]. rewrite list_lookup_insert_ne; [done|].
    intros ->. apply Hp. by right.
  - destruct Hl as (-> & ej & Hej & Hl). split; [done|]. apply NoDup_cons in Hnd as [Hj Hnd].
    exists ej. split; [|by apply IH]. rewrite list_lookup_insert_ne; [done|].
    intros ->. apply Hj. apply elem_of_app. right. left.
Qed.

(** ** What the operations do to the chains *)

Definition same_key (e e' : hashmap_entry_t) : Prop := key e' = key e ∧ hash e' = hash e.

Lemma same_key_for e e' s : same_key e e' → entry_for e s → entry_for e' s.
Proof. intros [Hk Hh] (k & ? & ? & ?). exists k. by rewrite Hk, Hh. Qed.

Lemma chains_update es bs cs i e e' :
  chains_ok es bs cs → es !! i = Some e → same_key e e' → next e' = next e →
  chains_ok (<[i := e']> es) bs cs.
Proof.
  intros [H1 H2 H3 H4 H5 H6] He Hsk Hn.
  assert (same_key e' e) as Hks by (destruct Hsk; split; congruence).
  assert (∀ j ej, <[i := e']> es !! j = Some ej → ∃ ej', es !! j = Some ej' ∧ same_key ej ej') as Hback.
  { intros j ej. rewrite list_lookup_insert_Some. intros [(<- & <- & _)|(_ & ?)]; [by eauto|].
    exists ej. by split. }
  split; [done| |done| | |].
  - intros b st c Hb Hc. eapply linked_frame; [|by eapply H2]. intros j _.
    destruct (decide (i = j)) as [<-|]; [|by rewrite list_lookup_insert_ne].
    rewrite list_lookup_insert_eq by (by eapply lookup_lt_Some). rewrite He. simpl. by rewrite Hn.
  - intros b c j Hc Hj. destruct (H4 b c j Hc Hj) as (ej & s & Hej & Hs & Hb).
    destruct (decide (i = j)) as [<-|].
    + simplify_eq. exists e', s. rewrite list_lookup_insert_eq by (by eapply lookup_lt_Some).
      split; [done|]. split; [by eapply same_key_for|done].
    + exists ej, s. by rewrite list_lookup_insert_ne.
  - intros j ej Hej. destruct (Hback j ej Hej) as (ej' & Hej' & [Hkk Hhh]).
    destruct (H5 j ej' Hej') as [Hnone|(s & c & Hs & Hc & Hin)]; [left; congruence|].
    right. exists s, c. split; [|done]. eapply same_key_for; [|exact Hs]. split; congruence.
  - intros j1 j2 e1 e2 s Hj1 Hj2 Hs1 Hs2.
    destruct (Hback _ _ Hj1) as (e1' & ? & ?). destruct (Hback _ _ Hj2) as (e2' & ? & ?).
    eapply H6; eauto using same_key_for.
Qed.

Lemma chain_not_in es bs cs b c i e :
  chains_ok es bs cs → cs !! b = Some c → es !! i = Some e → key e = None → i ∉ c.
Proof.
  intros Hch Hc He Hk Hin. destruct (ch_key _ _ _ Hch b c i Hc Hin) as (e' & s & He' & Hs & _).
  simplify_eq. by apply entry_for_key in Hs.
Qed.

Lemma chains_push es bs cs i e e' s st c :
  let b := bucket_of (zlen bs) s in
  chains_ok es bs cs → es !! i = Some e → key e = None → bs !! b = Some st → cs !! b = Some c →
  entry_for e' s → next e' = st → (∀ j ej, es !! j = Some ej → ¬ entry_for ej s) →
  chains_ok (<[i := e']> es) (<[b := Some i]> bs) (<[b := i :: c]> cs).
Proof.
  intros b Hch He Hk Hb Hc Hs Hst Hno. pose proof Hch as [H1 H2 H3 H4 H5 H6].
  assert (i < length es)%nat as Hi by (by eapply lookup_lt_Some).
  assert (∀ b' c', cs !! b' = Some c' → i ∉ c') as Hni by (intros; by eapply chain_not_in).
  assert (∀ b' c' st', bs !! b' = Some st' → cs !! b' = Some c' → linked (<[i := e']> es) st' c') as Hfr.
  { intros b' c' st' Hb' Hc'. eapply linked_frame; [|by eapply H2]. intros j Hj.
    rewrite list_lookup_insert_ne; [done|]. intros ->. by eapply Hni. }
  split.
  - by rewrite !length_insert.
  - intros b' st' c'. rewrite !list_lookup_insert_Some.
    intros [(<- & <- & _)|(? & Hb')] [(? & <- & _)|(? & Hc')]; try done; [|by eapply Hfr].
    split; [done|]. exists e'. rewrite list_lookup_insert_eq by done. split; [done|].
    rewrite Hst. by eapply Hfr.
  - intros b' c'. rewrite list_lookup_insert_Some. intros [(_ & <- & _)|(_ & ?)]; [|eauto].
    constructor; [by eapply Hni|eauto].
  - intros b' c' j. rewrite zlen_insert, list_lookup_insert_Some.
    assert (∀ b' c', cs !! b' = Some c' → j ∈ c' → ∃ e0 s0, <[i := e']> es !! j = Some e0 ∧
      entry_for e0 s0 ∧ bucket_of (zlen bs) s0 = b') as Hold.
    { intros b0 c0 Hc0 Hj. destruct (H4 b0 c0 j Hc0 Hj) as (ej & sj & ? & ? & ?). exists ej, sj.
      rewrite list_lookup_insert_ne; [done|]. intros ->. by eapply Hni. }
    intros [(<- & <- & _)|(_ & Hc')] Hj; [|eauto]. apply elem_of_cons in Hj as [->|Hj]; [|eauto].
    exists e', s. by rewrite list_lookup_insert_eq.
  - intros j ej. rewrite zlen_insert, list_lookup_insert_Some.
    intros [(<- & <- & _)|(Hne & Hej)].
    { right. exists s, (i :: c). rewrite list_lookup_insert_eq by (by eapply lookup_lt_Some).
      split; [done|]. split; [done|left]. }
    destruct (H5 j ej Hej) as [?|(sj & cj & Hsj & Hcj & Hin)]; [by left|right].
    destruct (decide (b = bucket_of (zlen bs) sj)) as [Heq|Hneq].
    + exists sj, (i :: c). rewrite <-Heq in *. rewrite list_lookup_insert_eq by (by eapply lookup_lt_Some).
      simplify_eq. split; [done|]. split; [done|]. by right.
    + exists sj, cj. by rewrite list_lookup_insert_ne.
  - intros j1 j2 e1 e2 s'. rewrite !list_lookup_insert_Some.
    intros [(<- & <- & _)|(? & Hj1)] [(<- & <- & _)|(? & Hj2)] Hs1 Hs2; [done|..].
    + rewrite (entry_for_inj _ _ _ Hs1 Hs) in Hs2. by destruct (Hno _ _ Hj2).
    + rewrite (entry_for_inj _ _ _ Hs2 Hs) in Hs1. by destruct (Hno _ _ Hj1).
    + by eapply H6.
Qed.

Lemma chains_remove es bs cs es' bs' b c1 i c2 :
  chains_ok es bs cs → cs !! b = Some (c1 ++ i :: c2) → length bs' = length bs →
  (∀ b', b' ≠ b → bs' !! b' = bs !! b') →
  (∀ j ej, j ≠ i → es' !! j = Some ej → ∃ ej', es !! j = Some ej' ∧ same_key ej' ej) →
  (∀ j ej, j ≠ i → es !! j = Some ej → ∃ ej', es' !! j = Some ej' ∧ same_key ej ej') →
  (∀ j, j ∉ c1 ++ i :: c2 → next <$> es' !! j = next <$> es !! j) →
  es' !! i = Some empty_entry →
  (∀ st, bs' !! b = Some st → linked es' st (c1 ++ c2)) →
  chains_ok es' bs' (<[b := c1 ++ c2]> cs).
Proof.
  intros [H1 H2 H3 H4 H5 H6] Hc Hlen Hbs Hback Hfwd Hnext Hi Hlink.
  assert (zlen bs' = zlen bs) as Hz by (unfold zlen; congruence).
  assert ((i ∉ c1 ++ c2) ∧ NoDup (c1 ++ c2)) as [Hni Hnd].
  { specialize (H3 _ _ Hc). rewrite <-(Permutation_middle c1 c2 i) in H3. by apply NoDup_cons in H3. }
  assert (∀ j, j ∈ c1 ++ c2 → j ∈ c1 ++ i :: c2) as Hsub.
  { intros j. rewrite !elem_of_app, elem_of_cons. tauto. }
  split.
  - by rewrite length_insert, Hlen.
  - intros b' st c' Hb'. rewrite list_lookup_insert_Some.
    intros [(<- & <- & _)|(Hne & Hc')]; [by apply Hlink|].
    rewrite Hbs in Hb' by done. eapply linked_frame; [|by eapply H2]. intros j Hj. apply Hnext.
    intros Hj'. destruct (H4 _ _ _ Hc Hj') as (? & ? & He & Hs & ?).
    destruct (H4 _ _ _ Hc' Hj) as (? & ? & He' & Hs' & ?). simplify_eq.
    by rewrite (entry_for_inj _ _ _ Hs Hs') in Hne.
  - intros b' c'. rewrite list_lookup_insert_Some. intros [(_ & <- & _)|(_ & ?)]; eauto.
  - intros b' c' j. rewrite Hz, list_lookup_insert_Some. intros Hcase Hj.
    assert (∃ c0, cs !! b' = Some c0 ∧ j ∈ c0 ∧ j ≠ i) as (c0 & Hc0 & Hj0 & Hji).
    { destruct Hcase as [(<- & <- & _)|(Hne & Hc')].
      - exists (c1 ++ i :: c2). split; [done|]. split; [by apply Hsub|]. by intros ->.
      - exists c'. split; [done|]. split; [done|]. intros ->.
        destruct (H4 _ _ _ Hc' Hj) as (? & ? & He' & Hs' & ?).
        destruct (H4 b _ i Hc) as (? & ? & He & Hs & ?); [apply elem_of_app; right; left|].
        simplify_eq. by rewrite (entry_for_inj _ _ _ Hs Hs') in Hne. }
    destruct (H4 _ _ _ Hc0 Hj0) as (e & s & He & Hs & Hb'). destruct (Hfwd _ _ Hji He) as (e' & ? & ?).
    exists e', s. split; [done|]. split; [by eapply same_key_for|done].
  - intros j ej Hej. destruct (decide (j = i)) as [->|Hji]; [left; by simplify_eq|].
    destruct (Hback _ _ Hji Hej) as (ej' & Hej' & [Hk Hh]).
    destruct (H5 _ _ Hej') as [?|(s & c & Hs & Hcs & Hin)]; [left; congruence|right].
    rewrite Hz. destruct (decide (b = bucket_of (zlen bs) s)) as [Heq|Hneq].
    + exists s, (c1 ++ c2). rewrite <-Heq in *. rewrite list_lookup_insert_eq by (by eapply lookup_lt_Some).
      split; [by eapply same_key_for|]. split; [done|]. simplify_eq.
      rewrite elem_of_app, elem_of_cons in Hin. rewrite elem_of_app. tauto.
    + exists s, c. rewrite list_lookup_insert_ne by done. split; [by eapply same_key_for|done].
  - intros j1 j2 e1 e2 s Hj1 Hj2 Hs1 Hs2.
    assert (∀ j e, es' !! j = Some e → entry_for e s → j ≠ i) as Hne.
    { intros j e Hj Hs ->. rewrite Hi in Hj. simplify_eq. by destruct Hs as (? & ? & _). }
    destruct (Hback _ _ (Hne _ _ Hj1 Hs1) Hj1) as (e1' & ? & [? ?]).
    destruct (Hback _ _ (Hne _ _ Hj2 Hs2) Hj2) as (e2' & ? & [? ?]).
    eapply H6; [done|done|eapply same_key_for; [|exact Hs1]|eapply same_key_for; [|exact Hs2]];
      split; congruence.
Qed.

(** ** The operations *)

Lemma search_ok bs es cs k s :
  chains_ok es bs cs → 0 < zlen bs → is_cstr k s →
  let b := bucket_of (zlen bs) s in
  ∃ st c, zget bs (string_hash s mod zlen bs) = Ok st ∧ bs !! b = Some st ∧ cs !! b = Some c ∧
    linked es st c ∧
    find_in_chain es k (string_hash s) st ⇓ λ r,
      match r with
      | None => ∀ j ej, es !! j = Some ej → ¬ entry_for ej s
      | Some (prev, i) => ∃ c1 c2 e, c = c1 ++ i :: c2 ∧ prev = last c1 ∧
                            es !! i = Some e ∧ entry_for e s ∧ linked es (next e) c2
      end.
Proof.
  intros Hch Hn Hk b. pose proof (string_hash_range s).
  assert (0 ≤ string_hash s mod zlen bs < zlen bs) as Hb by (apply Z.mod_pos_bound; lia).
  destruct (zget_in bs _ Hb) as [st Hst]. fold (bucket_of (zlen bs) s) in Hst. fold b in Hst.
  destruct (lookup_lt_is_Some_2 cs b) as [c Hc].
  { rewrite (ch_len _ _ _ Hch). by eapply lookup_lt_Some. }
  pose proof (ch_linked _ _ _ Hch _ _ _ Hst Hc) as Hl. exists st, c. split; [by apply zget_ok; [lia|]|].
  do 3 (split; [done|]).
  eapply wp_mono; [apply (find_ok es k s st c Hk Hl); [by eapply ch_nodup|]|].
  - intros i Hi. destruct (ch_key _ _ _ Hch _ _ _ Hc Hi) as (e & s' & ? & ? & _). eauto.
  - intros [[prev i]|]; [done|]. intros Hno j ej Hej Hs.
    destruct (ch_used _ _ _ Hch _ _ Hej) as [Hnone|(s' & c' & Hs' & Hc' & Hin)].
    + by apply entry_for_key in Hs.
    + rewrite (entry_for_inj _ _ _ Hs' Hs) in Hc'. fold b in Hc'. simplify_eq. by eapply Hno.
Qed.

Lemma repr_usable map m k :
  repr map m → ∃ bs, buckets map = Some bs ∧ usable (Some map) (Some k) = Some (map, bs, k).
Proof.
  intros (bs & es & cs & Hbs & Hn & Hpos & _). exists bs. split; [done|]. unfold usable.
  by rewrite Hbs, Hn, (proj2 (Z.eqb_neq (zlen bs) 0)) by lia.
Qed.

Lemma hashmap_get_ok map m k s :
  repr map m → is_cstr k s → hashmap_get (Some map) (Some k) = Ok (default 0 (m !! s)).
Proof.
  intros Hr Hk. destruct (repr_usable _ _ k Hr) as (bs & Hbs & Hu).
  destruct Hr as (bs' & es & cs & Hbs' & Hn & Hpos & Hes & Hcap & _ & _ & Hch & Hm & _). simplify_eq.
  destruct (search_ok bs' es cs k s Hch Hpos Hk) as (st & c & Hz & _ & _ & _ & r & Hf & Hr).
  unfold hashmap_get, entry_array. rewrite Hu, (hash_string_ok k s), bind_ok by done.
  rewrite Hn, umod_ok, bind_ok, Hz, bind_ok, Hes by lia. cbn [default from_option id]. rewrite Hf, bind_ok.
  destruct r as [[prev i]|].
  - destruct Hr as (c1 & c2 & e & _ & _ & He & Hs & _).
    rewrite (zget_ok _ _ e), bind_ok by (lia || by rewrite Nat2Z.id).
    by rewrite (proj2 (Hm s (value e))) by eauto.
  - destruct (m !! s) as [v|] eqn:Hv; [|done]. apply Hm in Hv as (i & e & He & Hs & _).
    by destruct (Hr i e He).
Qed.

Lemma alloc_entry_ok map m es bs cs :
  entries map = Some es → entry_capacity map = zlen es → zlen es < 2 ^ 63 →
  entry_count map = zlen (used es) → chains_ok es bs cs → size m = length (used es) →
  alloc_entry map ⇓ λ '(slot, map'),
    match slot with
    | None => map' = map ∧ (zlen es ≤ Z.of_nat (size (m : gmap (list Z) Z)))
    | Some i => (∃ e, es !! i = Some e ∧ key e = None) ∧ entries map' = Some es ∧
                bucket_count map' = bucket_count map ∧ entry_capacity map' = zlen es ∧
                entry_count map' = zlen (used es) + 1 ∧ Z.of_nat (size m) < zlen es
    end.
Proof.
  intros Hes Hcap Hmax Hcnt Hch Hsz. unfold alloc_entry. rewrite Hes, Hcap, Hcnt.
  destruct (Z.leb_spec (zlen es) (zlen (used es))) as [Hle|Hlt].
  { apply wp_ok. split; [done|]. unfold zlen in *. lia. }
  apply wp_bind. apply (wp_for (λ i _, ∀ j e, (j < Z.to_nat i)%nat → es !! j = Some e → key e ≠ None)).
  - unfold zlen. lia.
  - intros j e Hj. lia.
  - intros i _ Hi Hall. apply wp_bind, wp_zget; [lia|]. intros e He.
    destruct (key e) eqn:Hke; apply wp_ok.
    + intros j e' Hj He'. destruct (decide (j = Z.to_nat i)) as [->|]; [congruence|].
      apply (Hall j); [lia|done].
    + apply wp_ok. split; [eauto|]. simpl.
      split_and!; try done; [apply u64_small; unfold zlen in *; lia|unfold zlen in *; lia].
  - intros _ Hall. exfalso. assert (used es = es) as Heq; [|rewrite Heq in Hlt; lia].
    unfold used. apply filter_all. apply Forall_lookup. intros j e He.
    apply (Hall j); [apply lookup_lt_Some in He; unfold zlen; lia|done].
Qed.

(** A new value for one key, and the map it gives. *)
Lemma map_update (es es' : list hashmap_entry_t) (m : gmap (list Z) Z) (s : list Z) (v : Z) (i : nat)
    (e' : hashmap_entry_t) :
  (∀ s v, m !! s = Some v ↔ ∃ i e, es !! i = Some e ∧ entry_for e s ∧ value e = v) →
  (i < length es)%nat → es' = <[i := e']> es → entry_for e' s → value e' = v →
  (∀ j ej, es !! j = Some ej → j ≠ i → ¬ entry_for ej s) →
  (∀ e, es !! i = Some e → key e = None ∨ entry_for e s) →
  ∀ s' v', <[s := v]> m !! s' = Some v' ↔ ∃ i e, es' !! i = Some e ∧ entry_for e s' ∧ value e = v'.
Proof.
  intros Hm Hi -> He' Hv Hno Hold s' v'. rewrite lookup_insert_Some, Hm. split.
  - intros [(<- & <-)|(Hne & j & ej & Hj & Hs & Hvj)].
    + exists i, e'. by rewrite list_lookup_insert_eq.
    + exists j, ej. rewrite list_lookup_insert_ne; [done|]. intros ->.
      destruct (Hold _ Hj) as [Hk|Hs']; [by apply entry_for_key in Hs|].
      apply Hne. by eapply entry_for_inj.
  - intros (j & ej & Hj & Hs & Hvj). apply list_lookup_insert_Some in Hj as [(<- & <- & _)|(Hne & Hj)].
    + left. split; [by eapply entry_for_inj|congruence].
    + right. split; [|eauto]. intros <-. by destruct (Hno j ej Hj).
Qed.

Section Update.
Context (map : hashmap_t) (m : gmap (list Z) Z).
Context (bs : list (option nat)) (es : list hashmap_entry_t) (cs : list (list nat)).
Context (Hn : bucket_count map = zlen bs) (Hpos : 0 < zlen bs).
Context (Hcap : entry_capacity map = zlen es) (Hmax : zlen es < 2 ^ 63) (Hch : chains_ok es bs cs).
Context (Hm : ∀ s v, m !! s = Some v ↔ ∃ i e, es !! i = Some e ∧ entry_for e s ∧ value e = v).
Context (Hsz : size m = length (used es)).

(** Replacing the value of an entry. *)
Lemma repr_update s v i e :
  es !! i = Some e → entry_for e s →
  repr (with_arrays map bs
          (<[i := {| key := key e; value := v; hash := hash e; next := next e |}]> es)
          (zlen (used es))) (<[s := v]> m).
Proof.
  intros He Hs. set (e' := {| key := key e; value := v; hash := hash e; next := next e |}).
  assert (length (used (<[i := e']> es)) = length (used es)) as Hlen.
  { pose proof (length_filter_insert (λ e, key e ≠ None) es i e' e He).
    simpl in *. unfold used. repeat case_decide; lia || done. }
  exists bs, (<[i := e']> es), cs. simpl. rewrite zlen_insert. split_and!; try done.
  - unfold zlen. by rewrite Hlen.
  - by eapply chains_update.
  - eapply (map_update es _ m s v i e'); try done.
    + by eapply lookup_lt_Some.
    + intros j ej Hej Hne Hs'. by apply Hne, (ch_inj _ _ _ Hch j i ej e s).
    + intros e0 He0. right. congruence.
  - rewrite map_size_insert_Some; [by rewrite Hsz, Hlen|]. exists (value e). apply Hm. eauto.
Qed.

(** Filling a free entry and linking it in front of its chain. *)
Lemma repr_push map' k s v i e st c :
  is_cstr k s → es !! i = Some e → key e = None → m !! s = None →
  bs !! bucket_of (zlen bs) s = Some st → cs !! bucket_of (zlen bs) s = Some c →
  bucket_count map' = zlen bs → entry_capacity map' = zlen es →
  repr (with_arrays map' (<[bucket_of (zlen bs) s := Some i]> bs)
          (<[i := {| key := Some k; value := v; hash := string_hash s; next := st |}]> es)
          (zlen (used es) + 1)) (<[s := v]> m).
Proof.
  intros Hk He Hke Hms Hst Hc Hn' Hcap'.
  set (e' := {| key := Some k; value := v; hash := string_hash s; next := st |}).
  assert (entry_for e' s) as He' by (by exists k).
  assert (∀ j ej, es !! j = Some ej → ¬ entry_for ej s) as Hno.
  { intros j ej Hej Hs. assert (m !! s = Some (value ej)) by (apply Hm; eauto). congruence. }
  assert (length (used (<[i := e']> es)) = S (length (used es))) as Hlen.
  { pose proof (length_filter_insert (λ e, key e ≠ None) es i e' e He).
    simpl in *. unfold used. rewrite Hke in *. repeat case_decide; try done; lia. }
  exists (<[bucket_of (zlen bs) s := Some i]> bs), (<[i := e']> es),
    (<[bucket_of (zlen bs) s := i :: c]> cs). simpl. rewrite !zlen_insert.
  split_and!; try done.
  - unfold zlen. rewrite Hlen. lia.
  - by eapply chains_push.
  - eapply (map_update es _ m s v i e'); try done.
    + by eapply lookup_lt_Some.
    + eauto.
    + intros e0 He0. left. congruence.
  - rewrite map_size_insert_None by done. by rewrite Hsz, Hlen.
Qed.

End Update.

Lemma hashmap_put_ok map m k s v :
  repr map m → is_cstr k s →
  hashmap_put (Some map) (Some k) v ⇓ λ '(r, map'), ∃ m'', map' = Some m'' ∧
    entry_capacity m'' = entry_capacity map ∧
    if decide (m !! s ≠ None ∨ Z.of_nat (size m) < entry_capacity map)
    then r = 0 ∧ repr m'' (<[s := v]> m) else r = -1 ∧ repr m'' m.
Proof.
  intros Hr Hk. pose proof Hr as Hr0. destruct (repr_usable _ _ k Hr) as (bs & Hbs & Hu).
  destruct Hr as (bs' & es & cs & Hbs' & Hn & Hpos & Hes & Hcap & Hmax & Hcnt & Hch & Hm & Hsz).
  assert (bs' = bs) as -> by congruence. clear Hbs'.
  destruct (search_ok bs es cs k s Hch Hpos Hk) as (st & c & Hz & Hst & Hc & _ & r & Hf & Hr).
  unfold hashmap_put, entry_array. rewrite Hu, (hash_string_ok k s), bind_ok by done.
  rewrite Hn, umod_ok, bind_ok, Hz, bind_ok, Hes by lia. cbn [default from_option id]. rewrite Hf, bind_ok.
  destruct r as [[prev i]|].
  - destruct Hr as (c1 & c2 & e & _ & _ & He & Hs & _).
    rewrite (zget_ok _ _ e), bind_ok by (lia || by rewrite Nat2Z.id).
    pose proof (lookup_lt_Some _ _ _ He) as Hi.
    rewrite zset_ok, bind_ok, Nat2Z.id by (unfold zlen; lia). apply wp_ok.
    eexists. split; [done|]. split; [done|].
    assert (m !! s = Some (value e)) as Hms by (apply Hm; eauto).
    rewrite decide_True by (left; by rewrite Hms). split; [done|].
    rewrite Hcnt. by eapply repr_update.
  - assert (m !! s = None) as Hms.
    { destruct (m !! s) as [v0|] eqn:Hv; [|done]. apply Hm in Hv as (j & ej & Hej & Hs & _).
      by destruct (Hr j ej Hej). }
    apply wp_bind. eapply wp_mono; [by apply (alloc_entry_ok map m es bs cs)|].
    intros [[i|] map1].
    2:{ intros [-> Hfull]. apply wp_ok. exists map. split; [done|]. split; [done|].
        rewrite decide_False; [done|]. rewrite Hms, Hcap. intros [?|?]; [done|lia]. }
    intros ((e & He & Hke) & Hes1 & Hn1 & Hcap1 & Hcnt1 & Hroom).
    rewrite bind_ok, Hes1. cbn [default from_option id]. pose proof (lookup_lt_Some _ _ _ He) as Hi.
    rewrite (zset_ok es), bind_ok, Nat2Z.id by (unfold zlen; lia).
    rewrite zset_ok, bind_ok by (apply Z.mod_pos_bound; lia). apply wp_ok.
    eexists. split; [done|]. simpl. split; [by rewrite Hcap1, Hcap|].
    rewrite decide_True by (right; by rewrite Hcap). split; [done|].
    rewrite Hcnt1. eapply repr_push; try done. by rewrite Hn1.
Qed.

(** Taking an entry out of the map. *)
Lemma map_remove (es es' : list hashmap_entry_t) (m : gmap (list Z) Z) (s : list Z) (i : nat)
    (e : hashmap_entry_t) :
  (∀ s v, m !! s = Some v ↔ ∃ i e, es !! i = Some e ∧ entry_for e s ∧ value e = v) →
  es !! i = Some e → entry_for e s → es' !! i = Some empty_entry →
  (∀ j ej, j ≠ i → es !! j = Some ej → ¬ entry_for ej s) →
  (∀ j, j ≠ i → (λ e, (key e, hash e, value e)) <$> es' !! j =
                (λ e, (key e, hash e, value e)) <$> es !! j) →
  ∀ s' v', delete s m !! s' = Some v' ↔ ∃ i e, es' !! i = Some e ∧ entry_for e s' ∧ value e = v'.
Proof.
  intros Hm He Hs Hi Hno Hsame s' v'. rewrite lookup_delete_Some, Hm.
  assert (∀ (l1 l2 : list hashmap_entry_t) j ej, (λ e, (key e, hash e, value e)) <$> l1 !! j =
    (λ e, (key e, hash e, value e)) <$> l2 !! j → l1 !! j = Some ej → entry_for ej s' → value ej = v' →
    ∃ e2, l2 !! j = Some e2 ∧ entry_for e2 s' ∧ value e2 = v') as Hmove.
  { intros l1 l2 j ej Heq Hej Hsj Hv. rewrite Hej in Heq. destruct (l2 !! j) as [e2|]; [|done].
    simpl in Heq. injection Heq as Hk Hh Hvv. exists e2. split; [done|]. split; [|congruence].
    eapply same_key_for; [|exact Hsj]. split; congruence. }
  split.
  - intros (Hne & j & ej & Hj & Hsj & Hv). exists j.
    assert (j ≠ i) as Hji.
    { intros ->. simplify_eq. apply Hne. by eapply entry_for_inj. }
    eapply (Hmove es es'); eauto. by rewrite Hsame.
  - intros (j & ej & Hj & Hsj & Hv). assert (j ≠ i) as Hji.
    { intros ->. simplify_eq. by destruct Hsj as (? & ? & _). }
    destruct (Hmove es' es j ej (Hsame j Hji) Hj Hsj Hv) as (e2 & He2 & Hs2 & Hv2).
    split; [|by eauto]. intros <-. by destruct (Hno j e2 Hji He2).
Qed.

Lemma relink_key (es : list hashmap_entry_t) (p : nat) pe n j ej :
  es !! p = Some pe → <[p := set_next pe n]> es !! j = Some ej →
  ∃ ej', es !! j = Some ej' ∧ same_key ej' ej.
Proof.
  intros Hp. rewrite list_lookup_insert_Some.
  intros [(<- & <- & _)|(_ & ?)]; [exists pe|exists ej]; by split.
Qed.

Lemma relink_key' (es : list hashmap_entry_t) (p : nat) pe n j ej :
  es !! p = Some pe → es !! j = Some ej →
  ∃ ej', <[p := set_next pe n]> es !! j = Some ej' ∧ same_key ej ej'.
Proof.
  intros Hp Hj. destruct (decide (j = p)) as [->|].
  - simplify_eq. eexists. rewrite list_lookup_insert_eq by (by eapply lookup_lt_Some). by split.
  - exists ej. rewrite list_lookup_insert_ne by done. by split.
Qed.

(** The arrays after an entry was unlinked: [(bs', es')] before it is cleared. *)
Lemma unlink_ok es bs cs b st c1 i c2 e :
  chains_ok es bs cs → bs !! b = Some st → cs !! b = Some (c1 ++ i :: c2) → es !! i = Some e →
  ∃ bs1 es1,
    match last c1 with
    | Some p => pe ← zget es (Z.of_nat p); es1 ← zset es (Z.of_nat p) (set_next pe (next e)); Ok (bs, es1)
    | None => bs1 ← zset bs (Z.of_nat b) (next e); Ok (bs1, es)
    end = Ok (bs1, es1) ∧ length es1 = length es ∧ length bs1 = length bs ∧
    chains_ok (<[i := empty_entry]> es1) bs1 (<[b := c1 ++ c2]> cs) ∧
    (∀ j, j ≠ i → (λ e, (key e, hash e, value e)) <$> es1 !! j =
                  (λ e, (key e, hash e, value e)) <$> es !! j) ∧
    (∃ e1, es1 !! i = Some e1 ∧ key e1 = key e) ∧ length (used es1) = length (used es).
Proof.
  intros Hch Hst Hc He. pose proof (ch_linked _ _ _ Hch _ _ _ Hst Hc) as Hl.
  pose proof (ch_nodup _ _ _ Hch _ _ Hc) as Hnd.
  assert (i < length es)%nat as Hi by (by eapply lookup_lt_Some).
  destruct c1 as [|p c0 _] using rev_ind; simpl last.
  - pose proof (lookup_lt_Some _ _ _ Hst). rewrite zset_ok by (unfold zlen; lia).
    rewrite bind_ok, Nat2Z.id. exists (<[b := next e]> bs), es.
    split; [done|]. split; [done|]. split; [by rewrite length_insert|].
    split; [|split; [done|split; [by eauto|done]]].
    destruct Hl as (-> & e' & He' & Hl). simplify_eq. apply NoDup_cons in Hnd as [Hni Hnd].
    eapply (chains_remove es bs cs _ _ b [] i c2); try done; try by rewrite length_insert.
    + intros b' Hb'. by rewrite list_lookup_insert_ne.
    + intros j ej Hj. rewrite list_lookup_insert_ne by done. intros ?. exists ej. by split.
    + intros j ej Hj Hej. exists ej. rewrite list_lookup_insert_ne by done. by split.
    + intros j Hj. rewrite list_lookup_insert_ne; [done|]. intros ->. apply Hj. left.
    + by rewrite list_lookup_insert_eq.
    + intros st'. rewrite list_lookup_insert_eq by done. intros [= <-].
      eapply linked_frame; [|exact Hl]. intros j Hj. rewrite list_lookup_insert_ne; [done|]. by intros ->.
  - rewrite last_snoc. rewrite <-app_assoc in Hl, Hnd, Hc. cbn [app] in Hl, Hnd, Hc.
    destruct (linked_app es st c0 p (i :: c2) Hl) as (pe & Hpe & _).
    pose proof (lookup_lt_Some _ _ _ Hpe) as Hp.
    rewrite (zget_ok _ _ pe), bind_ok by (lia || by rewrite Nat2Z.id).
    rewrite zset_ok, bind_ok, Nat2Z.id by (unfold zlen; lia).
    exists bs, (<[p := set_next pe (next e)]> es). split; [done|]. split; [by rewrite length_insert|].
    split; [done|]. pose proof (linked_cut es st c0 p i c2 e pe Hl Hnd He Hpe) as Hcut.
    assert (p ≠ i ∧ (i ∉ c0 ++ p :: c2)) as [Hpi Hni].
    { rewrite (cons_middle p c0), app_assoc in Hnd. apply NoDup_app in Hnd as (_ & Hdis & Hnd2).
      apply NoDup_cons in Hnd2 as [Hi2 _]. split.
      - intros ->. apply (Hdis i); [apply elem_of_app; right|]; left.
      - rewrite (cons_middle p c0), app_assoc. intros [Hin|Hin]%elem_of_app; [|done].
        apply (Hdis _ Hin). left. }
    split; [|split; [|split]].
    + eapply (chains_remove es bs cs _ _ b (c0 ++ [p]) i c2); try done.
      * by rewrite <-app_assoc.
      * intros j ej Hj. rewrite list_lookup_insert_ne by done. apply relink_key. done.
      * intros j ej Hj Hej. rewrite list_lookup_insert_ne by done. by apply relink_key'.
      * intros j. rewrite <-app_assoc. intros Hj. cbn [app] in Hj.
        rewrite !list_lookup_insert_ne; [done|..]; intros ->; apply Hj, elem_of_app; right;
          [left|right; left].
      * by rewrite list_lookup_insert_eq by (by rewrite length_insert).
      * intros st' Hst'. simplify_eq. rewrite <-app_assoc. eapply linked_frame; [|exact Hcut].
        intros j Hj. rewrite list_lookup_insert_ne; [done|]. by intros ->.
    + intros j _. destruct (decide (j = p)) as [->|]; [|by rewrite list_lookup_insert_ne].
      by rewrite list_lookup_insert_eq, Hpe.
    + exists e. by rewrite list_lookup_insert_ne.
    + pose proof (length_filter_insert (λ e, key e ≠ None) es p (set_next pe (next e)) pe Hpe).
      unfold used. simpl in *. repeat case_decide; lia || done.
Qed.

Lemma hashmap_remove_ok map m k s :
  repr map m → is_cstr k s →
  hashmap_remove (Some map) (Some k) ⇓ λ '(r, map'), ∃ m'', map' = Some m'' ∧
    entry_capacity m'' = entry_capacity map ∧
    r = (if decide (m !! s = None) then -1 else 0) ∧ repr m'' (delete s m).
Proof.
  intros Hr Hk. pose proof Hr as Hr0. destruct (repr_usable _ _ k Hr) as (bs & Hbs & Hu).
  destruct Hr as (bs' & es & cs & Hbs' & Hn & Hpos & Hes & Hcap & Hmax & Hcnt & Hch & Hm & Hsz).
  assert (bs' = bs) as -> by congruence. clear Hbs'.
  destruct (search_ok bs es cs k s Hch Hpos Hk) as (st & c & Hz & Hst & Hc & _ & r & Hf & Hr).
  unfold hashmap_remove, entry_array. rewrite Hu, (hash_string_ok k s), bind_ok by done.
  rewrite Hn, umod_ok, bind_ok, Hz, bind_ok, Hes by lia. cbn [default from_option id].
  rewrite Hf, bind_ok. destruct r as [[prev i]|].
  - destruct Hr as (c1 & c2 & e & -> & -> & He & Hs & _).
    destruct (unlink_ok _ _ _ _ _ _ _ _ _ Hch Hst Hc He)
      as (bs1 & es1 & Hun & Hl1 & Hlb1 & Hch1 & Hsame & (e1 & He1 & Hk1) & Hused).
    rewrite (zget_ok _ _ e), bind_ok by (lia || by rewrite Nat2Z.id).
    pose proof (string_hash_range s).
    assert (Z.of_nat (bucket_of (zlen bs) s) = string_hash s mod zlen bs) as Hbz.
    { unfold bucket_of. rewrite Z2Nat.id; [done|]. apply Z.mod_pos_bound. lia. }
    rewrite Hbz in Hun. rewrite Hun, bind_ok.
    pose proof (lookup_lt_Some _ _ _ He1). rewrite zset_ok, bind_ok, Nat2Z.id by (unfold zlen; lia).
    apply wp_ok. eexists. split; [done|]. split; [done|].
    assert (m !! s = Some (value e)) as Hms by (apply Hm; eauto).
    rewrite decide_False by (by rewrite Hms). split; [done|].
    assert (S (length (used (<[i := empty_entry]> es1))) = length (used es)) as Hlen.
    { pose proof (length_filter_insert (λ e, key e ≠ None) es1 i empty_entry e1 He1) as Hc1.
      pose proof (entry_for_key _ _ Hs). rewrite <-Hused. unfold used in *. simpl in *.
      rewrite Hk1 in Hc1. repeat case_decide; try done; lia. }
    eexists bs1, _, _. split; [done|]. simpl. assert (zlen bs1 = zlen bs) as -> by (unfold zlen; congruence).
    do 2 (split; [done|]). split; [done|]. rewrite zlen_insert.
    assert (zlen es1 = zlen es) as -> by (unfold zlen; congruence).
    do 2 (split; [done|]). pose proof (length_filter (λ e, key e ≠ None) es). split; [rewrite Hcnt, u64_small; unfold zlen, used in *; lia|].
    split; [exact Hch1|]. split.
    + eapply (map_remove es _ m s i e); try done.
      * by rewrite list_lookup_insert_eq.
      * intros j ej Hj Hej Hs'. by apply Hj, (ch_inj _ _ _ Hch j i ej e s).
      * intros j Hj. rewrite list_lookup_insert_ne by done. by apply Hsame.
    + rewrite map_size_delete, Hms, Hsz. lia.
  - apply wp_ok. exists map. do 2 (split; [done|]).
    assert (m !! s = None) as Hms.
    { destruct (m !! s) as [v0|] eqn:Hv; [|done]. apply Hm in Hv as (j & ej & Hej & Hs & _).
      by destruct (Hr j ej Hej). }
    rewrite decide_True by done. split; [done|]. by rewrite delete_id.
Qed.

Lemma for_each_fill {A} (l : list A) (v : A) :
  for_each 0 (zlen l) (λ i l, zset l i v) l = Ok (replicate (length l) v).
Proof.
  assert (for_each 0 (zlen l) (λ i l, zset l i v) l ⇓ λ l', l' = replicate (length l) v)
    as (l' & -> & ->); [|done].
  apply (wp_for_each (λ i l', l' = replicate (Z.to_nat i) v ++ drop (Z.to_nat i) l)); unfold zlen.
  - lia.
  - done.
  - intros i l' Hi ->. apply wp_zset.
    { unfold zlen. rewrite length_app, length_replicate, length_drop. lia. }
    destruct (lookup_lt_is_Some_2 l (Z.to_nat i)) as [x Hx]; [lia|].
    rewrite (drop_S l x) by done. replace (Z.to_nat (i + 1)) with (S (Z.to_nat i)) by lia.
    rewrite insert_app_r_alt by (by rewrite length_replicate). rewrite length_replicate, Nat.sub_diag.
    cbn [insert list_insert]. rewrite replicate_S_end, <-app_assoc. done.
  - intros l' ->. rewrite Nat2Z.id, drop_all. apply app_nil_r.
Qed.

Lemma hashmap_init_ok map bs es :
  0 < zlen bs → zlen es < 2 ^ 63 →
  hashmap_init (Some map) (Some bs) (zlen bs) (Some es) (zlen es) ⇓ λ map',
    ∃ m'', map' = Some m'' ∧ entry_capacity m'' = zlen es ∧ repr m'' ∅.
Proof.
  intros Hpos Hmax. unfold hashmap_init, hashmap_clear. simpl.
  rewrite for_each_fill, bind_ok, for_each_fill, !bind_ok. apply wp_ok.
  eexists. split; [done|]. split; [done|].
  assert (∀ n, used (replicate n empty_entry) = []) as Hused.
  { intros n. induction n as [|n IH]; [done|]. by unfold used in *; simpl. }
  assert (∀ i e, replicate (length es) empty_entry !! i = Some e → key e = None) as Hkey.
  { intros i e [-> _]%lookup_replicate. done. }
  exists (replicate (length bs) None), (replicate (length es) empty_entry), (replicate (length bs) []).
  simpl. unfold zlen in *. rewrite !length_replicate, Hused. split_and!; try done.
  - split.
    + by rewrite !length_replicate.
    + intros b st c [-> _]%lookup_replicate [-> _]%lookup_replicate. done.
    + intros b c [-> _]%lookup_replicate. constructor.
    + intros b c i [-> _]%lookup_replicate ?%not_elem_of_nil. done.
    + intros i e He. left. by eapply Hkey.
    + intros i j e1 e2 s He1%Hkey He2 (k & Hk & _). congruence.
  - intros s v. rewrite lookup_empty. split; [done|]. intros (i & e & He%Hkey & (k & Hk & _) & _).
    congruence.
Qed.

(** ** Refinement *)

Inductive call := CPut (k : list Z) (v : Z) | CGet (k : list Z) | CRemove (k : list Z) | CSize.

(** The calls on the map, keys given as strings. *)
Definition hash_call (map : option hashmap_t) (c : call) : outcome (Z * option hashmap_t) :=
  match c with
  | CPut k v => hashmap_put map (Some (cstr k)) v
  | CGet k => v ← hashmap_get map (Some (cstr k)); Ok (v, map)
  | CRemove k => hashmap_remove map (Some (cstr k))
  | CSize => Ok (hashmap_size map, map)
  end.

(** The calls on a finite map with room for [cap] keys. *)
Definition map_call (cap : Z) (m : gmap (list Z) Z) (c : call) : Z * gmap (list Z) Z :=
  match c with
  | CPut k v =>
      if decide (m !! k ≠ None ∨ Z.of_nat (size m) < cap) then (0, <[k := v]> m) else (-1, m)
  | CGet k => (default 0 (m !! k), m)
  | CRemove k => (if decide (m !! k = None) then -1 else 0, delete k m)
  | CSize => (Z.of_nat (size m), m)
  end.

Fixpoint hash_calls (map : option hashmap_t) (cs : list call) : outcome (list Z) :=
  match cs with
  | [] => Ok []
  | c :: cs => '(r, map) ← hash_call map c; rs ← hash_calls map cs; Ok (r :: rs)
  end.
Fixpoint map_calls (cap : Z) (m : gmap (list Z) Z) (cs : list call) : list Z :=
  match cs with
  | [] => []
  | c :: cs => let '(r, m) := map_call cap m c in r :: map_calls cap m cs
  end.

Definition call_ok (c : call) : Prop :=
  match c with
  | CPut k _ | CGet k | CRemove k => Forall (λ b, 0 < b < 256) k
  | CSize => True
  end.

Lemma hash_call_ok map m c :
  repr map m → call_ok c →
  hash_call (Some map) c ⇓ λ '(r, map'), ∃ m'', map' = Some m'' ∧
    entry_capacity m'' = entry_capacity map ∧
    r = (map_call (entry_capacity map) m c).1 ∧ repr m'' (map_call (entry_capacity map) m c).2.
Proof.
  intros Hr Hc. destruct c as [k v|k|k|]; simpl in *.
  - eapply wp_mono; [by apply hashmap_put_ok; [|apply is_cstr_cstr]|].
    intros [r map'] (m'' & -> & Hcap & H). exists m''. case_decide; destruct H; done.
  - rewrite (hashmap_get_ok map m _ k) by (done || by apply is_cstr_cstr).
    apply wp_ok. by exists map.
  - eapply wp_mono; [by apply hashmap_remove_ok; [|apply is_cstr_cstr]|].
    intros [r map'] (m'' & -> & Hcap & -> & H). by exists m''.
  - apply wp_ok. exists map. do 2 (split; [done|]). split; [|done].
    destruct Hr as (? & ? & ? & _ & _ & _ & _ & _ & _ & -> & _ & _ & Hsz). by rewrite Hsz.
Qed.

(** C6: Every sequence of hashmap_put, hashmap_get, hashmap_remove and hashmap_size calls on a
    fresh hash table, by a caller that leaves the keys it put unchanged, returns the results of
    the same calls on a finite map from strings to values whose only limit is the entry
    capacity. *)
Theorem hashmap_refines_map map bs es cs :
  0 < zlen bs → zlen es < 2 ^ 63 → Forall call_ok cs →
  (map ← hashmap_init (Some map) (Some bs) (zlen bs) (Some es) (zlen es); hash_calls map cs) =
  Ok (map_calls (zlen es) ∅ cs).
Proof.
  intros Hpos Hmax Hcs. destruct (hashmap_init_ok map bs es Hpos Hmax) as (map' & -> & m0 & -> & Hcap & Hr).
  rewrite bind_ok. rewrite <-Hcap. clear Hcap Hpos Hmax. generalize dependent m0. generalize (∅ : gmap (list Z) Z) as m.
  induction Hcs as [|c cs Hc _ IH]; intros m m0 Hr; cbn [hash_calls map_calls]; [done|].
  destruct (hash_call_ok m0 m c Hr Hc) as ([r map'] & -> & m1 & -> & Hcap & -> & Hr1).
  rewrite bind_ok. rewrite (IH _ m1 Hr1), bind_ok, Hcap. by destruct (map_call (entry_capacity m0) m c).
Qed.

Definition blank : hashmap_t :=
  {| buckets := None; bucket_count := 0; entries := None; entry_capacity := 0; entry_count := 0 |}.

(** One bucket, two entries: every key collides, and the third key does not fit. *)
Lemma hashmap_refines_map_witness :
  (map ← hashmap_init (Some blank) (Some [None]) 1 (Some [empty_entry; empty_entry]) 2;
   hash_calls map [CPut [97] 5; CPut [98] 6; CPut [99] 7; CRemove [97]; CPut [99] 7; CGet [98]; CGet [97]; CSize])
  = Ok [0; 0; -1; 0; 0; 6; 0; 2].
Proof.
  etrans; [apply (hashmap_refines_map blank [None] [empty_entry; empty_entry]); try done|by vm_compute].
  repeat constructor; simpl; lia.
Defined.

End HashMap.
