(* ===== verification/Slab.v ===== *)
(** Object caches (kernel/mm/slab.c): fixed-size objects from the kernel heap,
    recycled through a free list threaded through the free objects themselves.

    The heap is anything that satisfies [Allocator]; [links] is the first word
    of each free object, where the code keeps the [next] pointer. *)
From S2P Require Import Prelude Chain Heap.

Module Slab.
Import Heap.

Section Slab.
Context {H : Type} `{AL : Allocator H}.

Record slab_cache_t := {
  name : Z;
  object_size : Z;
  free_list : Z;
  allocated_ : Z;
  freed : Z
}.

(** The memory the cache works on: the heap and the words inside free objects. *)
Record mem := { heap : H; links : gmap Z Z }.

Definition slab_cache_init (cache : option slab_cache_t) (name_ object_size_ : Z) : option slab_cache_t :=
  match cache with
  | None => None
  | Some _ => Some {| name := name_; object_size := Z.max object_size_ 8; free_list := 0;
                      allocated_ := 0; freed := 0 |}
  end.

Definition slab_alloc (m : mem) (cache : option slab_cache_t)
  : outcome (Z * mem * option slab_cache_t) :=
  match cache with
  | None => Ok (0, m, None)
  | Some c =>
      if negb (free_list c =? 0) then
        let node := free_list c in
        match links m !! node with
        | None => Undef
        | Some nxt =>
            Ok (node, m, Some {| name := name c; object_size := object_size c; free_list := nxt;
                                 allocated_ := u64 (allocated_ c + 1); freed := freed c |})
        end
      else
        '(object, h) ← al_malloc (heap m) (object_size c);
        let m := {| heap := h; links := links m |} in
        if object =? 0 then Ok (object, m, cache)
        else Ok (object, m, Some {| name := name c; object_size := object_size c;
                                    free_list := free_list c;
                                    allocated_ := u64 (allocated_ c + 1); freed := freed c |})
  end.

Definition slab_free (m : mem) (cache : option slab_cache_t) (object : Z)
  : mem * option slab_cache_t :=
  match cache with
  | Some c =>
      if object =? 0 then (m, cache)
      else ({| heap := heap m; links := <[object := free_list c]> (links m) |},
            Some {| name := name c; object_size := object_size c; free_list := object;
                    allocated_ := allocated_ c; freed := u64 (freed c + 1) |})
  | None => (m, None)
  end.

Definition slab_live_count (cache : option slab_cache_t) : Z :=
  match cache with Some c => u64 (allocated_ c - freed c) | None => 0 end.

(** ** Correctness *)

(** [live] are the objects handed out and [other] the blocks the rest of the
    kernel has on the same heap. *)
Definition repr (m : mem) (c : slab_cache_t) (live : list Z) (other : list (Z * Z)) : Prop :=
  ∃ fl blocks, chain id (links m) (free_list c) fl ∧
    blocks.*1 = live ++ fl ∧ Forall (λ b : Z * Z, object_size c ≤ b.2) blocks ∧
    NoDup (live ++ fl) ∧ al_repr (heap m) (blocks ++ other) ∧
    8 ≤ object_size c ≤ 2 ^ 32 - 16 ∧
    allocated_ c = u64 (freed c + zlen live).

Lemma live_count_ok m c live other :
  repr m c live other → zlen live < 2 ^ 64 → slab_live_count (Some c) = zlen live.
Proof.
  intros (fl & bl & _ & _ & _ & _ & _ & _ & Ha) Hmax. simpl. rewrite Ha. unfold u64.
  rewrite Zminus_mod_idemp_l. replace (freed c + zlen live - freed c) with (zlen live) by lia.
  apply Z.mod_small. unfold zlen in *. lia.
Qed.

(** An object of [size] bytes at [p] overlaps neither the live objects nor the
    rest of the heap. *)
Definition apart (size p : Z) (live : list Z) (other : list (Z * Z)) : Prop :=
  (∀ q, q ∈ live → p + size ≤ q ∨ q + size ≤ p) ∧
  (∀ q tz, (q, tz) ∈ other → p + size ≤ q ∨ q + tz ≤ p).

Lemma apart_from m c (p sz : Z) bl other live :
  al_repr (heap m) ((p, sz) :: bl ++ other) → object_size c ≤ sz →
  Forall (λ b : Z * Z, object_size c ≤ b.2) bl → (∀ q, q ∈ live → q ∈ bl.*1) →
  apart (object_size c) p live other.
Proof.
  intros Ha Hsz Hbl Hl.
  assert (∀ q tz, (q, tz) ∈ bl ++ other → p + sz ≤ q ∨ q + tz ≤ p) as Hd.
  { intros q tz Hin. apply list_elem_of_split in Hin as (l1 & l2 & Heq). rewrite Heq in Ha.
    apply (al_repr_disjoint (heap m) p sz q tz (l1 ++ l2)). eapply al_repr_perm; [|exact Ha].
    constructor. symmetry. apply Permutation_middle. }
  split.
  - intros q [[q' tz] [-> Hin]]%Hl%list_elem_of_fmap. simpl.
    pose proof (proj1 (Forall_forall _ _) Hbl _ Hin). simpl in *.
    destruct (Hd q' tz); [by apply elem_of_app; left|lia..].
  - intros q tz Hin. destruct (Hd q tz); [by apply elem_of_app; right|lia..].
Qed.

Lemma slab_alloc_ok m c live other :
  repr m c live other →
  slab_alloc m (Some c) ⇓ λ '(p, m', c'), ∃ c'', c' = Some c'' ∧ object_size c'' = object_size c ∧
    ((p = 0 ∧ repr m' c'' live other) ∨
     (0 < p ∧ (p ∉ live) ∧ apart (object_size c) p live other ∧ repr m' c'' (p :: live) other)).
Proof.
  intros (fl & bl & Hch & Hbl & Hsz & Hnd & Ha & Hos & Hal). unfold slab_alloc.
  destruct (Z.eqb_spec (free_list c) 0) as [H0|H0]; simpl.
  - assert (fl = []) as -> by (destruct fl as [|p fl]; [done|destruct Hch as (? & ? & _); congruence]).
    apply wp_bind. eapply wp_mono; [apply (al_malloc_spec _ (bl ++ other)); [done|lia]|].
    intros [p h] [(-> & Ha')|(sz & Hp & Hsz' & Hd & Hf & Ha')].
    { apply wp_ok. exists c. do 2 (split; [done|]). left. split; [done|]. by exists [], bl. }
    rewrite (proj2 (Z.eqb_neq p 0)) by lia. apply wp_ok. eexists. split; [done|]. split; [done|].
    right. assert (p ∉ live) as Hpl.
    { intros Hin. apply Hf. rewrite fmap_app, Hbl, app_nil_r. apply elem_of_app. by left. }
    do 2 (split; [done|]). split.
    + eapply (apart_from {| heap := h; links := links m |} c p sz bl); try done.
      intros q Hq. rewrite Hbl. apply elem_of_app. by left.
    + rewrite app_nil_r in Hbl, Hnd. exists [], ((p, sz) :: bl). rewrite fmap_cons, app_nil_r, Hbl. cbn [fst].
      split_and!; first [done|simpl; lia|by constructor|simpl].
      rewrite Hal. unfold u64, zlen. rewrite Zplus_mod_idemp_l. f_equal. simpl. lia.
  - destruct fl as [|p fl]; [done|]. destruct Hch as (Hfp & Hp & nxt & Hn & Hch).
    rewrite Hfp, Hn. apply wp_ok. eexists. split; [done|]. split; [done|]. right.
    assert (∃ sz bl', bl ≡ₚ (p, sz) :: bl' ∧ bl'.*1 = live ++ fl) as (sz & bl' & Hperm & Hbl').
    { apply fmap_app_inv in Hbl as (b1 & b2 & Hb1 & Hb2 & ->).
      destruct b2 as [|[p' sz] b2]; [done|]. simpl in Hb2. injection Hb2 as -> ->.
      exists sz, (b1 ++ b2). split; [symmetry; apply Permutation_middle|]. by rewrite fmap_app, <-Hb1. }
    assert (al_repr (heap m) ((p, sz) :: bl' ++ other)) as Ha'.
    { eapply al_repr_perm; [|exact Ha]. by rewrite Hperm. }
    rewrite Hperm in Hsz. apply Forall_cons in Hsz as [Hps Hsz]. simpl in Hps.
    rewrite <-Permutation_middle in Hnd. apply NoDup_cons in Hnd as [Hpn Hnd].
    destruct (al_repr_range _ _ p sz Ha' (list_elem_of_here _ _)) as [? _].
    split; [done|]. split; [intros ?; apply Hpn, elem_of_app; by left|]. split.
    + eapply apart_from; try done. intros q Hq. rewrite Hbl'. apply elem_of_app. by left.
    + exists fl, ((p, sz) :: bl'). rewrite fmap_cons, Hbl'. cbn [fst]. split_and!; first [done|simpl; lia|by constructor|simpl].
      rewrite Hal. unfold u64, zlen. rewrite Zplus_mod_idemp_l. f_equal. simpl. lia.
Qed.

Lemma slab_free_ok m c l1 p l2 other :
  repr m c (l1 ++ p :: l2) other →
  let '(m', c') := slab_free m (Some c) p in
  ∃ c'', c' = Some c'' ∧ object_size c'' = object_size c ∧ repr m' c'' (l1 ++ l2) other ∧
    slab_alloc m' c' ⇓ λ '(q, _, _), q = p.
Proof.
  intros (fl & bl & Hch & Hbl & Hsz & Hnd & Ha & Hos & Hal).
  assert (p ∈ bl.*1) as Hin.
  { rewrite Hbl. apply elem_of_app. left. apply elem_of_app. right. left. }
  apply list_elem_of_fmap in Hin as ([p' sz] & Heq & Hin). simpl in Heq. subst p'.
  destruct (al_repr_range _ _ p sz Ha) as (Hp & _); [apply elem_of_app; by left|].
  unfold slab_free. rewrite (proj2 (Z.eqb_neq p 0)) by lia. eexists. split; [done|]. split; [done|].
  assert (Permutation ((l1 ++ p :: l2) ++ fl) ((l1 ++ l2) ++ p :: fl)) as Hperm.
  { rewrite <-!app_assoc. f_equiv. simpl. apply Permutation_middle. }
  assert (∃ bl', bl ≡ₚ bl' ∧ bl'.*1 = (l1 ++ l2) ++ p :: fl) as (bl' & Hbb & Hbl').
  { rewrite <-Hbl in Hperm. apply Permutation_sym in Hperm.
    destruct (Permutation_map_inv fst bl Hperm) as (bl' & Heq & Hpm). exists bl'. by split. }
  split.
  - exists (p :: fl), bl'. rewrite Hperm in Hnd. split_and!; first [done|simpl; lia|idtac].
    + simpl. split; [done|]. split; [lia|]. eexists. rewrite lookup_insert_eq. split; [done|]. apply chain_store; [done|]. intros ?.
      rewrite <-Permutation_middle in Hnd. apply NoDup_cons in Hnd as [Hnp _]. destruct Hnp. apply elem_of_app. by right.
    + by rewrite <-Hbb.
    + eapply al_repr_perm; [|exact Ha]. by rewrite Hbb.
    + simpl. rewrite Hal. unfold u64, zlen. rewrite Zplus_mod_idemp_l. f_equal. rewrite !length_app. simpl. lia.
  - unfold slab_alloc. simpl. rewrite (proj2 (Z.eqb_neq p 0)), lookup_insert_eq by lia. simpl.
    by apply wp_ok.
Qed.

(** ** Clients of a cache *)

Inductive slab_op := SAlloc | SFree (i : nat).

(** A client keeps the objects it got in a list; freeing position [i] when there
    is none does nothing. *)
Definition run_op (m : mem) (c : option slab_cache_t) (live : list Z) (o : slab_op)
  : outcome (mem * option slab_cache_t * list Z) :=
  match o with
  | SAlloc => '(p, m, c) ← slab_alloc m c; Ok (m, c, if p =? 0 then live else p :: live)
  | SFree i =>
      match live !! i with
      | None => Ok (m, c, live)
      | Some p => let '(m, c) := slab_free m c p in Ok (m, c, delete i live)
      end
  end.

Fixpoint run_ops (m : mem) (c : option slab_cache_t) (live : list Z) (os : list slab_op)
  : outcome (mem * option slab_cache_t * list Z) :=
  match os with
  | [] => Ok (m, c, live)
  | o :: os => '(m, c, live) ← run_op m c live o; run_ops m c live os
  end.

Lemma run_op_ok m c live other o :
  repr m c live other →
  run_op m (Some c) live o ⇓ λ '(m', c', live'),
    ∃ c'', c' = Some c'' ∧ object_size c'' = object_size c ∧ repr m' c'' live' other.
Proof.
  intros Hr. destruct o as [|i]; cbn [run_op].
  - apply wp_bind. eapply wp_mono; [by apply slab_alloc_ok|].
    intros [[p m'] c'] (c'' & -> & Hos & [(-> & Hr')|(Hp & _ & _ & Hr')]); apply wp_ok;
      exists c''; do 2 (split; [done|]); [done|]. by rewrite (proj2 (Z.eqb_neq p 0)) by lia.
  - destruct (live !! i) as [p|] eqn:Hi; [|apply wp_ok; by exists c].
    apply list_elem_of_split_length in Hi as (l1 & l2 & -> & ->).
    pose proof (slab_free_ok m c l1 p l2 other Hr) as Hf.
    destruct (slab_free m (Some c) p) as [m' c']. destruct Hf as (c'' & -> & Hos & Hr' & _).
    apply wp_ok. exists c''. do 2 (split; [done|]). by rewrite delete_middle.
Qed.

Lemma run_ops_ok m c live other os :
  repr m c live other →
  run_ops m (Some c) live os ⇓ λ '(m', c', live'),
    ∃ c'', c' = Some c'' ∧ object_size c'' = object_size c ∧ repr m' c'' live' other.
Proof.
  revert m c live. induction os as [|o os IH]; intros m c live Hr; simpl.
  - apply wp_ok. by exists c.
  - apply wp_bind. eapply wp_mono; [by apply run_op_ok|]. intros [[m1 c1] l1] (c1' & -> & Hos & Hr1).
    eapply wp_mono; [by apply IH|]. intros [[m2 c2] l2] (c2' & -> & Hos2 & Hr2).
    exists c2'. split; [done|]. split; [congruence|done].
Qed.

(** Two live objects, or a live object and another block, do not overlap. *)
Lemma repr_apart m c l1 p l2 other :
  repr m c (l1 ++ p :: l2) other → apart (object_size c) p (l1 ++ l2) other.
Proof.
  intros (fl & bl & _ & Hbl & Hsz & _ & Ha & _). rewrite <-app_assoc in Hbl. cbn [app] in Hbl.
  apply fmap_app_inv in Hbl as (b1 & b2 & Hb1 & Hb2 & ->).
  destruct b2 as [|[p' sz] b2]; [done|]. rewrite fmap_cons in Hb2. injection Hb2 as -> Hb2.
  rewrite <-Permutation_middle in Hsz. apply Forall_cons in Hsz as [Hps Hsz].
  eapply (apart_from m c p' sz (b1 ++ b2)); [|done..|].
  - eapply al_repr_perm; [|exact Ha]. by rewrite <-Permutation_middle.
  - intros q. rewrite fmap_app, <-Hb1, <-Hb2, !elem_of_app. tauto.
Qed.

(** Any sequence of slab_alloc and slab_free calls on a fresh cache over any correct heap runs
    without undefined behaviour; slab_live_count is the number of objects held, and each held
    object is apart from the others and from every other heap block. *)
Theorem slab_client_safe h other name_ size_ c0 os :
  al_repr h other → 0 ≤ size_ ≤ 2 ^ 32 - 16 →
  run_ops {| heap := h; links := ∅ |} (slab_cache_init (Some c0) name_ size_) [] os
    ⇓ λ '(m, c, live),
    (zlen live < 2 ^ 64 → slab_live_count c = zlen live) ∧
    ∀ i p, live !! i = Some p → apart (Z.max size_ 8) p (delete i live) other.
Proof.
  intros Ha Hs. eapply wp_mono; [apply (run_ops_ok _ _ _ other)|].
  - exists [], []. simpl. split_and!; try done; try lia. constructor.
  - intros [[m c] live] (c'' & -> & Hos & Hr). split; [by eapply live_count_ok|].
    intros i p Hi. apply list_elem_of_split_length in Hi as (l1 & l2 & -> & ->).
    rewrite delete_middle. simpl in Hos. rewrite <-Hos. by apply repr_apart in Hr.
Qed.

End Slab.

(** On the kernel heap. *)
Lemma slab_client_safe_witness :
  run_ops {| heap := heap_init empty_heap 4096 1024; links := ∅ |}
    (slab_cache_init (Some {| name := 0; object_size := 0; free_list := 0; allocated_ := 0; freed := 0 |}) 7 24)
    [] [SAlloc; SAlloc; SFree 1; SAlloc] ⇓ λ '(m, c, live), zlen live < 2 ^ 64 → slab_live_count c = zlen live.
Proof.
  eapply wp_mono; [apply (slab_client_safe (heap_init empty_heap 4096 1024) [] 7 24)|].
  - exists [(992, true)]. split; [|done].
    apply (heap_init_repr empty_heap 4096 1024); unfold HDR; try lia; done.
  - lia.
  - by intros [[m c] live] [? _].
Defined.

End Slab.
