(* ===== verification/Path.v ===== *)
(** Path handling (kernel/fs/path.c).

    The input of [path_normalize] is read forwards only, so the position [in]
    is the list of bytes from there on; the output is the caller's buffer with
    the index [out].  The reference is [resolve], which keeps the list of
    components and fails as soon as the path so far would not fit. *)
From S2P Require Import Prelude KString KStdlib.

Module Path.
Import KString KStdlib.

Definition slash : Z := 47.
Definition dot : Z := 46.

Definition path_is_absolute (path : option (list Z)) : outcome bool :=
  match path with
  | None => Ok false
  | Some p => c ← deref p; Ok (c =? slash)
  end.

(** [while (input[in] == '/') ++in;] *)
Fixpoint skip_slashes (input : list Z) : outcome (list Z) :=
  match input with
  | [] => Undef
  | c :: rest => if c =? slash then skip_slashes rest else Ok input
  end.

(** [while (input[in] && input[in] != '/') ++in;] with the bytes passed over. *)
Fixpoint scan_component (input : list Z) : outcome (list Z * list Z) :=
  match input with
  | [] => Undef
  | c :: rest =>
      if (c =? 0) || (c =? slash) then Ok ([], input)
      else '(comp, rest) ← scan_component rest; Ok (c :: comp, rest)
  end.

(** [while (out > 1 && output[out - 1] != '/') --out;] *)
Fixpoint back_to_slash (fuel : nat) (output : list Z) (out : Z) : outcome Z :=
  match fuel with
  | O => OutOfFuel
  | S fuel =>
      if 1 <? out then
        c ← zget output (out - 1);
        if c =? slash then Ok out else back_to_slash fuel output (out - 1)
      else Ok out
  end.

(** One turn of the main loop on a component: [inr] returns from the function. *)
Definition add_component (output_size : Z) (component output : list Z) (out : Z)
  : outcome (Z * list Z + Z * list Z) :=
  let component_length := zlen component in
  if decide (component = []) then Ok (inl (out, output))
  else if decide (component = [dot]) then Ok (inl (out, output))
  else if decide (component = [dot; dot]) then
    out ← back_to_slash (S (Z.to_nat out)) output out;
    Ok (inl (if 1 <? out then out - 1 else out, output))
  else
    let separator := if 1 <? out then 1 else 0 in
    if (output_size <=? u64 (out + separator)) ||
       (u64 (output_size - out - separator - 1) <? component_length)
    then Ok (inr (-1, output))
    else
      '(out, output) ← (if separator =? 0 then Ok (out, output)
                        else output ← zset output out slash; Ok (u64 (out + 1), output));
      output ← memcpy output out component 0 component_length;
      Ok (inl (u64 (out + component_length), output)).

Definition path_normalize (input : option (list Z)) (output : option (list Z)) (output_size : Z)
  : outcome (Z * option (list Z)) :=
  match input, output with
  | Some input, Some buf =>
      if output_size =? 0 then Ok (-1, output)
      else
        buf ← zset buf 0 slash;
        '(r, buf) ←
          loop (S (length input))
            (λ '(input, out, output),
               c ← deref input;
               if c =? 0 then output ← zset output out 0; Ok (inr (0, output))
               else
                 input ← skip_slashes input;
                 '(component, input) ← scan_component input;
                 r ← add_component output_size component output out;
                 match r with
                 | inr ret => Ok (inr ret)
                 | inl (out, output) => Ok (inl (input, out, output))
                 end) (input, 1, buf);
        Ok (r, Some buf)
  | _, _ => Ok (-1, output)
  end.

(** The result is the pointer returned, as the bytes from it on. *)
Fixpoint basename_loop (base cursor : list Z) : outcome (list Z) :=
  match cursor with
  | [] => Undef
  | c :: rest =>
      if c =? 0 then Ok base
      else if c =? slash then d ← deref rest; basename_loop (if d =? 0 then base else rest) rest
      else basename_loop base rest
  end.
Definition path_basename (path : option (list Z)) : outcome (list Z) :=
  match path with None => Ok [0] | Some p => basename_loop p p end.

(** Results: the length, the cursor and the component buffer. *)
Definition path_next_component (cursor : option (option (list Z))) (component : option (list Z))
    (component_size : Z) : outcome (Z * option (option (list Z)) * option (list Z)) :=
  match cursor, component with
  | Some (Some path), Some buf =>
      if component_size =? 0 then Ok (0, cursor, component)
      else
        path ← skip_slashes path;
        '(length, rest, buf) ←
          loop (S (length path))
            (λ '(length, p, buf),
               c ← deref p;
               if (c =? 0) || (c =? slash) then Ok (inr (length, p, buf))
               else
                 buf ← (if u64 (length + 1) <? component_size then zset buf length c else Ok buf);
                 Ok (inl (u64 (length + 1), drop 1 p, buf))) (0, path, buf);
        let copied := if length <? component_size then length else u64 (component_size - 1) in
        buf ← zset buf copied 0;
        Ok (length, Some (Some rest), Some buf)
  | _, _ => Ok (0, cursor, component)
  end.

(** ** Reference *)

(** The text of a list of components: "/" for none, "/a/b" for two. *)
Definition path_text (cs : list (list Z)) : list Z :=
  match cs with [] => [slash] | _ => concat (cons slash <$> cs) end.

(** A component that stays in the path. *)
Definition proper (c : list Z) : Prop :=
  c ≠ [] ∧ c ≠ [dot] ∧ c ≠ [dot; dot] ∧ Forall (λ b, 0 < b < 256 ∧ b ≠ slash) c.

(** The components between slashes; there are empty ones at the ends and
    between neighbouring slashes. *)
Fixpoint split_slash (s : list Z) : list (list Z) :=
  match s with
  | [] => [[]]
  | c :: s =>
      if c =? slash then [] :: split_slash s
      else match split_slash s with [] => [[c]] | comp :: rest => (c :: comp) :: rest end
  end.

(** Adding one component to a path for which the buffer has [size] bytes. *)
Definition resolve_step (size : Z) (cs : list (list Z)) (c : list Z) : option (list (list Z)) :=
  if decide (c = [] ∨ c = [dot]) then Some cs
  else if decide (c = [dot; dot]) then Some (take (length cs - 1) cs)
  else if zlen (path_text (cs ++ [c])) <? size then Some (cs ++ [c]) else None.

Fixpoint resolve (size : Z) (cs : list (list Z)) (todo : list (list Z)) : option (list (list Z)) :=
  match todo with
  | [] => Some cs
  | c :: todo => cs ← resolve_step size cs c; resolve size cs todo
  end.

Lemma path_text_snoc cs c :
  path_text (cs ++ [c]) = (if decide (cs = []) then [] else path_text cs) ++ slash :: c.
Proof.
  destruct cs as [|d cs]; [simpl; by rewrite app_nil_r|]. rewrite decide_False by done.
  change (path_text ((d :: cs) ++ [c])) with (concat (cons slash <$> (d :: cs) ++ [c])).
  rewrite fmap_app, concat_app. cbn [fmap list_fmap concat]. by rewrite app_nil_r.
Qed.

Lemma path_text_len_snoc cs c :
  zlen (path_text (cs ++ [c])) = (if decide (cs = []) then 0 else zlen (path_text cs)) + 1 + zlen c.
Proof. rewrite path_text_snoc. unfold zlen. rewrite length_app. case_decide; simpl; lia. Qed.

Lemma path_text_pos cs : Forall proper cs → 1 ≤ zlen (path_text cs) ∧ (1 < zlen (path_text cs) ↔ cs ≠ []).
Proof.
  intros Hp. destruct cs as [|c cs _] using rev_ind; [done|].
  apply Forall_app in Hp as [_ Hp]. apply Forall_cons in Hp as [(Hc & _) _].
  rewrite path_text_len_snoc. assert (1 ≤ zlen c) by (destruct c; [done|unfold zlen; simpl; lia]).
  assert (cs ++ [c] ≠ []) by (by destruct cs).
  assert (0 ≤ (if decide (cs = []) then 0 else zlen (path_text cs))) by (case_decide; unfold zlen; lia).
  split; [lia|]. split; [done|lia].
Qed.

Lemma path_text_bytes cs : Forall proper cs → Forall (λ c, 0 < c < 256) (path_text cs).
Proof.
  intros Hp. unfold path_text. destruct cs as [|c cs]; [by repeat constructor|].
  induction Hp as [|d ds Hd _ IH]; cbn [fmap list_fmap concat]; [constructor|].
  apply Forall_app. split; [|done]. constructor; [done|].
  destruct Hd as (_ & _ & _ & Hd). eapply Forall_impl; [done|]. by intros ? [? _].
Qed.

(** ** Scanning the input *)

Lemma is_cstr_cons c inp s : is_cstr (c :: inp) s → c ≠ 0 → ∃ s', s = c :: s' ∧ is_cstr inp s'.
Proof.
  intros [Hs [rest Heq]] Hc. destruct s as [|d s]; simpl in Heq; [congruence|].
  injection Heq as -> ->. apply Forall_cons in Hs as [_ Hs]. exists s. split; [done|]. split; [done|eauto].
Qed.

Lemma is_cstr_head inp s : is_cstr inp s → ∃ c inp', inp = c :: inp' ∧ (c = 0 ↔ s = []).
Proof.
  intros [Hs [rest ->]]. destruct s as [|c s]; simpl; [by exists 0, rest|].
  apply Forall_cons in Hs as [Hc _]. exists c, (s ++ 0 :: rest). split; [done|]. split; [lia|done].
Qed.

Lemma skip_slashes_ok inp s size cs :
  is_cstr inp s →
  skip_slashes inp ⇓ λ inp', ∃ s', is_cstr inp' s' ∧ (length inp' ≤ length inp)%nat ∧
    head s' ≠ Some slash ∧ ((length inp' < length inp)%nat ∨ s' = s) ∧
    resolve size cs (split_slash s) = resolve size cs (split_slash s').
Proof.
  revert s. induction inp as [|c inp IH]; intros s Hs; [destruct Hs as (_ & ? & Hs); by destruct s|].
  simpl. destruct (Z.eqb_spec c slash) as [->|Hne].
  - destruct (is_cstr_cons _ _ _ Hs) as (s1 & -> & Hs1); [done|].
    eapply wp_mono; [by apply IH|]. intros inp' (s' & Hs' & Hl & Hh & _ & Hr). exists s'.
    split; [done|]. split; [lia|]. split; [done|]. split; [left; lia|]. by rewrite <-Hr.
  - apply wp_ok. exists s. assert (head s ≠ Some slash) as Hh; [|by split_and!; auto].
    destruct Hs as (_ & rest & Heq). destruct s as [|d s]; [done|]. simpl in *. congruence.
Qed.

Lemma scan_component_ok inp s :
  is_cstr inp s →
  scan_component inp ⇓ λ '(comp, inp'), ∃ s', s = comp ++ s' ∧ is_cstr inp' s' ∧
    length inp = (length comp + length inp')%nat ∧
    Forall (λ b, 0 < b < 256 ∧ b ≠ slash) comp ∧ (s' = [] ∨ head s' = Some slash).
Proof.
  revert s. induction inp as [|c inp IH]; intros s Hs; [destruct Hs as (_ & ? & Hs); by destruct s|].
  cbn [scan_component]. pose proof Hs as [Hb [rest Heq]].
  destruct (Z.eqb_spec c 0) as [->|H0].
  { apply wp_ok. exists s. destruct s as [|d s]; [by split_and!; auto|].
    simpl in Heq. apply Forall_cons in Hb as [? _]. injection Heq as Heq _. lia. }
  destruct (is_cstr_cons _ _ _ Hs H0) as (s1 & -> & Hs1).
  destruct (Z.eqb_spec c slash) as [->|Hne]; cbn [orb].
  { apply wp_ok. exists (slash :: s1). split_and!; try done. by right. }
  apply wp_bind. eapply wp_mono; [by apply IH|]. intros [comp inp'] (s' & -> & Hs' & Hl & Hc & He).
  apply wp_ok. exists s'. split_and!; try done; [simpl; lia|]. constructor; [|done].
  apply Forall_cons in Hb as [? _]. done.
Qed.

Lemma split_component comp s :
  Forall (λ b, 0 < b < 256 ∧ b ≠ slash) comp → s = [] ∨ head s = Some slash →
  ∃ todo, split_slash (comp ++ s) = comp :: todo ∧
    (split_slash s = [[]] ∧ todo = [] ∨ split_slash s = [] :: todo).
Proof.
  intros Hc Hs. induction Hc as [|b comp [_ Hb] _ IH]; simpl.
  - destruct Hs as [->|Hs]; [by exists []; split; [|left]|]. destruct s as [|c s]; [done|].
    simpl in Hs. injection Hs as ->. exists (split_slash s). simpl. auto.
  - rewrite (proj2 (Z.eqb_neq b slash)) by done. destruct IH as (todo & -> & Ht). eauto.
Qed.

Lemma resolve_component size cs comp s :
  Forall (λ b, 0 < b < 256 ∧ b ≠ slash) comp → s = [] ∨ head s = Some slash →
  resolve size cs (split_slash (comp ++ s)) =
  (cs' ← resolve_step size cs comp; resolve size cs' (split_slash s)).
Proof.
  intros Hc Hs. destruct (split_component comp s Hc Hs) as (todo & -> & Ht). simpl.
  destruct (resolve_step size cs comp) as [cs'|]; [simpl|done].
  by destruct Ht as [[-> ->]| ->].
Qed.

(** ** The output buffer *)

(** The buffer holds the text of the components [cs] and [out] is its end. *)
Definition holds (size : Z) (output : list Z) (out : Z) (cs : list (list Z)) : Prop :=
  Forall proper cs ∧ out = zlen (path_text cs) ∧ out < size ∧ size ≤ zlen output ∧
  take (Z.to_nat out) output = path_text cs.

Lemma back_to_slash_ok fuel output pre c :
  Forall (λ b, 0 < b < 256 ∧ b ≠ slash) c → zlen (pre ++ c) ≤ zlen output →
  take (length (pre ++ c)) output = pre ++ c → (length c < fuel)%nat →
  (zlen pre ≤ 1 ∨ last pre = Some slash) → pre ≠ [] →
  back_to_slash fuel output (zlen (pre ++ c)) = Ok (zlen pre).
Proof.
  intros Hc. revert fuel. induction c as [|b c IH] using rev_ind; intros fuel Hl Ht Hf Hpre Hne.
  - rewrite app_nil_r in *. destruct fuel as [|fuel]; [simpl in Hf; lia|]. simpl.
    assert (1 ≤ zlen pre) by (destruct pre; [done|unfold zlen; simpl; lia]).
    destruct Hpre as [Hp|Hp]; [by rewrite (proj2 (Z.ltb_ge _ _)) by lia|].
    destruct (Z.ltb_spec 1 (zlen pre)); [|done].
    destruct pre as [|p pre _] using rev_ind; [done|]. rewrite last_snoc in Hp. injection Hp as ->.
    rewrite (zget_ok _ _ slash); [done|lia|].
    assert (Z.to_nat (zlen (pre ++ [slash]) - 1) = length pre) as -> by (unfold zlen; rewrite length_app; simpl; lia).
    rewrite <-(lookup_take_lt output (length (pre ++ [slash]))) by (rewrite length_app; simpl; lia).
    rewrite Ht. by rewrite lookup_app_r, Nat.sub_diag by lia.
  - apply Forall_app in Hc as [Hc Hb]. apply Forall_cons in Hb as [[_ Hb] _].
    rewrite app_assoc in *. destruct fuel as [|fuel]; [lia|]. cbn [back_to_slash].
    assert (zlen ((pre ++ c) ++ [b]) = zlen (pre ++ c) + 1) as Hz by (unfold zlen; rewrite !length_app; simpl; lia).
    assert (1 ≤ zlen (pre ++ c)) by (destruct pre; [done|unfold zlen; simpl; lia]).
    rewrite (proj2 (Z.ltb_lt _ _)) by lia.
    rewrite (zget_ok _ _ b), bind_ok.
    + rewrite (proj2 (Z.eqb_neq b slash)) by done. rewrite Hz, Z.add_simpl_r. apply IH; try done.
      * lia.
      * rewrite length_app in Ht. simpl in Ht.
        apply (f_equal (take (length (pre ++ c)))) in Ht. rewrite take_take in Ht.
        rewrite Nat.min_l in Ht by lia. by rewrite take_app_length in Ht.
      * rewrite length_app in Hf. simpl in Hf. lia.
    + lia.
    + assert (Z.to_nat (zlen ((pre ++ c) ++ [b]) - 1) = length (pre ++ c)) as -> by (unfold zlen in *; lia).
      rewrite <-(lookup_take_lt output (length ((pre ++ c) ++ [b]))) by (rewrite !length_app; simpl; lia).
      rewrite Ht. by rewrite lookup_app_r, Nat.sub_diag by lia.
Qed.

(** Removing the last component. *)
Lemma pop_component_ok size output out cs :
  holds size output out cs →
  (out ← back_to_slash (S (Z.to_nat out)) output out; Ok (if 1 <? out then out - 1 else out)) ⇓ λ out',
    holds size output out' (take (length cs - 1) cs).
Proof.
  intros (Hp & Ho & Hlt & Hsz & Ht). destruct cs as [|c cs _] using rev_ind.
  { simpl in *. unfold zlen in Ho. simpl in Ho. subst out. apply wp_ok. by split_and!. }
  apply Forall_app in Hp as [Hp Hc]. apply Forall_cons in Hc as [Hc _]. pose proof Hc as (Hcne & _ & _ & Hcb).
  replace (take (length (cs ++ [c]) - 1) (cs ++ [c])) with cs.
  2:{ rewrite length_app. simpl. rewrite Nat.add_sub. by rewrite take_app_length. }
  pose proof (path_text_pos cs Hp) as [Hpos Hiff].
  set (pre := (if decide (cs = []) then [] else path_text cs) ++ [slash]).
  assert (path_text (cs ++ [c]) = pre ++ c) as Htext.
  { rewrite path_text_snoc. unfold pre. by rewrite <-app_assoc. }
  assert (zlen pre = if decide (cs = []) then 1 else zlen (path_text cs) + 1) as Hpre.
  { unfold pre, zlen. rewrite length_app. case_decide; simpl; lia. }
  rewrite Htext in Ho, Ht. subst out. unfold zlen in Ht. rewrite Nat2Z.id in Ht.
  assert (zlen (pre ++ c) = zlen pre + zlen c) as Hsum by (unfold zlen; rewrite length_app; lia).
  assert (0 ≤ zlen c) by (unfold zlen; lia).
  rewrite back_to_slash_ok, bind_ok; try done; try lia.
  - apply wp_ok. rewrite Hpre in *. destruct (decide (cs = [])) as [->|Hne].
    + change (1 <? 1) with false. split_and!; try done; [|unfold pre in Ht; simpl in Ht].
      * lia.
      * simpl. by apply (f_equal (take 1)) in Ht; rewrite take_take in Ht.
    + rewrite (proj2 (Z.ltb_lt _ _)) by lia. rewrite Z.add_simpl_r.
      split_and!; try done.
      * lia.
      * unfold zlen. rewrite Nat2Z.id. apply (f_equal (take (length (path_text cs)))) in Ht.
        rewrite take_take in Ht. rewrite Nat.min_l in Ht.
        2:{ unfold pre. rewrite !length_app. lia. }
        rewrite Ht. unfold pre. rewrite <-!app_assoc. apply take_app_length.
  - unfold zlen. rewrite length_app. lia.
  - right. unfold pre. by rewrite last_snoc.
  - unfold pre. by destruct (decide (cs = [])), cs.
Qed.

(** Writing bytes after the text. *)
Lemma take_splice l off bs :
  0 ≤ off → off + zlen bs ≤ zlen l → take (Z.to_nat (off + zlen bs)) (splice l off bs) = take (Z.to_nat off) l ++ bs.
Proof.
  intros Ho Hl. unfold splice, zlen in *. rewrite app_assoc. rewrite take_app_length'; [done|].
  rewrite length_app, length_take. lia.
Qed.

Lemma take_zset (l : list Z) i v : 0 ≤ i → i < zlen l →
  take (Z.to_nat (i + 1)) (<[Z.to_nat i := v]> l) = take (Z.to_nat i) l ++ [v].
Proof.
  intros Hi Hl. replace (Z.to_nat (i + 1)) with (S (Z.to_nat i)) by lia.
  rewrite (take_S_r _ _ v) by (rewrite list_lookup_insert_eq; [done|unfold zlen in Hl; lia]).
  by rewrite take_insert_ge by lia.
Qed.

Lemma push_component_ok size output out cs c :
  holds size output out cs → size < 2 ^ 63 → proper c →
  add_component size c output out ⇓ λ r,
    if zlen (path_text (cs ++ [c])) <? size
    then ∃ out' o', r = inl (out', o') ∧ holds size o' out' (cs ++ [c]) ∧ zlen o' = zlen output
    else r = inr (-1, output).
Proof.
  intros (Hp & Ho & Hlt & Hsz & Ht) Hmax Hc. pose proof Hc as (H1 & H2 & H3 & Hb). unfold add_component.
  rewrite !decide_False by done. pose proof (path_text_pos cs Hp) as [Hpos Hiff].
  rewrite path_text_len_snoc. assert (1 ≤ zlen c) by (destruct c; [done|unfold zlen; simpl; lia]).
  assert (Forall proper (cs ++ [c])) as Hp' by (apply Forall_app; split; [done|by apply Forall_singleton]).
  destruct (decide (cs = [])) as [Hcs|Hcs].
  - assert (out = 1) as Ho1 by (subst cs; done). clear Ho. subst out. cbn [Z.ltb Z.compare Pos.compare Pos.compare_cont].
    rewrite Z.add_0_r. rewrite !u64_small by lia. destruct (Z.ltb_spec (0 + 1 + zlen c) size) as [Hfit|Hno].
    + rewrite (proj2 (Z.leb_gt _ _)), (proj2 (Z.ltb_ge _ _)) by lia. cbn [orb Z.eqb]. rewrite bind_ok.
      rewrite memcpy_ok, bind_ok by lia. apply wp_ok. rewrite u64_small by lia.
      eexists _, _. split; [done|].
      assert (slice c 0 (zlen c) = c) as -> by (unfold slice, zlen; rewrite drop_0; apply take_ge; lia).
      assert (zlen (splice output 1 c) = zlen output) as Hls by (unfold zlen; f_equal; apply length_splice; lia).
      split; [|done]. split; [done|]. split; [rewrite path_text_len_snoc, decide_True by done; lia|].
      split; [lia|]. split; [lia|]. rewrite take_splice, Ht, path_text_snoc, decide_True by (done || lia).
      by subst cs.
    + destruct (Z.leb_spec size 1), (Z.ltb_spec (size - 1 - 0 - 1) (zlen c)); simpl; try lia; by apply wp_ok.
  - assert (1 < out) by (subst out; by apply Hiff). rewrite (proj2 (Z.ltb_lt 1 out)) by lia.
    rewrite !(u64_small (out + 1)) by lia. rewrite <-Ho.
    destruct (Z.ltb_spec (out + 1 + zlen c) size) as [Hfit|Hno].
    + rewrite u64_small by lia. rewrite (proj2 (Z.leb_gt _ _)), (proj2 (Z.ltb_ge _ _)) by lia. cbn [orb Z.eqb].
      rewrite zset_ok by lia. rewrite !bind_ok. rewrite memcpy_ok, bind_ok by (rewrite ?zlen_insert; lia).
      apply wp_ok. rewrite u64_small by lia. eexists _, _. split; [done|].
      assert (slice c 0 (zlen c) = c) as -> by (unfold slice, zlen; rewrite drop_0; apply take_ge; lia).
      assert (zlen (splice (<[Z.to_nat out := slash]> output) (out + 1) c) = zlen output) as Hls.
      { unfold zlen in *. rewrite length_splice; [by rewrite length_insert|lia|].
        unfold zlen. rewrite length_insert. lia. }
      split; [|done]. split; [done|]. split; [rewrite path_text_len_snoc, decide_False by done; lia|].
      split; [lia|]. split; [lia|]. rewrite take_splice by (rewrite ?zlen_insert; lia).
      rewrite take_zset, Ht, path_text_snoc, decide_False by (done || lia). by rewrite <-app_assoc.
    + destruct (Z.leb_spec size (out + 1)); simpl; [by apply wp_ok|].
      rewrite u64_small, (proj2 (Z.ltb_lt _ _)) by lia. by apply wp_ok.
Qed.

Lemma add_component_ok size output out cs c :
  holds size output out cs → size < 2 ^ 63 → Forall (λ b, 0 < b < 256 ∧ b ≠ slash) c →
  add_component size c output out ⇓ λ r,
    match resolve_step size cs c with
    | Some cs' => ∃ out' o', r = inl (out', o') ∧ holds size o' out' cs' ∧ zlen o' = zlen output
    | None => r = inr (-1, output)
    end.
Proof.
  intros Hh Hmax Hb. unfold resolve_step.
  destruct (decide (c = [])) as [->|H1]; [apply wp_ok; simpl; eauto|].
  destruct (decide (c = [dot])) as [->|H2]; [apply wp_ok; simpl; eauto|].
  rewrite (decide_False (P := c = [] ∨ c = [dot])) by tauto.
  destruct (decide (c = [dot; dot])) as [->|H3].
  - unfold add_component. rewrite !decide_False, decide_True by done.
    destruct (pop_component_ok _ _ _ _ Hh) as (out' & Hpop & Hh').
    destruct (back_to_slash (S (Z.to_nat out)) output out) as [o| |]; [|done..].
    rewrite bind_ok in *. injection Hpop as ->. apply wp_ok. eauto.
  - eapply wp_mono; [apply (push_component_ok size output out cs c); [done|done|by split_and!]|].
    intros r. by destruct (zlen (path_text (cs ++ [c])) <? size).
Qed.

Lemma holds_terminate size output out cs :
  holds size output out cs → zset output out 0 ⇓ λ o, is_cstr o (path_text cs) ∧ zlen o = zlen output.
Proof.
  intros (Hp & Ho & Hlt & Hsz & Ht). apply wp_zset; [unfold zlen in *; lia|].
  split; [|apply zlen_insert]. split; [by apply path_text_bytes|].
  exists (drop (S (Z.to_nat out)) output). rewrite insert_take_drop by (unfold zlen in *; lia).
  by rewrite Ht.
Qed.

Lemma path_normalize_ok input s buf size :
  is_cstr input s → 2 ≤ size < 2 ^ 63 → size ≤ zlen buf →
  path_normalize (Some input) (Some buf) size ⇓ λ '(r, o), ∃ o', o = Some o' ∧ zlen o' = zlen buf ∧
    match resolve size [] (split_slash s) with
    | Some cs => r = 0 ∧ is_cstr o' (path_text cs) ∧ Forall proper cs ∧ zlen (path_text cs) < size
    | None => r = -1
    end.
Proof.
  intros Hs Hsize Hbuf. unfold path_normalize. rewrite (proj2 (Z.eqb_neq size 0)) by lia.
  apply wp_bind. apply wp_zset; [lia|]. apply wp_bind.
  set (target := resolve size [] (split_slash s)).
  apply (wp_loop_bound (λ n '(input, out, output), ∃ s' cs, n = length input ∧ is_cstr input s' ∧
    holds size output out cs ∧ zlen output = zlen buf ∧ resolve size cs (split_slash s') = target))
    with (k := length input).
  - intros n [[inp out] output] (s' & cs & -> & Hs' & Hh & Hlen & Ht).
    destruct (is_cstr_head _ _ Hs') as (c & inp' & Hinp & Hc0). subst inp. cbn [deref]. rewrite bind_ok.
    destruct (Z.eqb_spec c 0) as [->|Hc].
    { apply wp_bind. eapply wp_mono; [by apply (holds_terminate size _ _ cs)|]. intros o [Ho Hlo].
      apply wp_ok, wp_ok. exists o. split; [done|]. split; [lia|].
      rewrite (proj1 Hc0) in Ht by done. simpl in Ht. rewrite <-Ht. destruct Hh as (? & <- & ? & _). done. }
    apply wp_bind. eapply wp_mono; [by apply (skip_slashes_ok _ s' size cs)|].
    intros inp1 (s1 & Hs1 & Hl1 & Hh1 & Hless & Hr1).
    apply wp_bind. eapply wp_mono; [by apply (scan_component_ok _ s1)|].
    intros [comp inp2] (s2 & -> & Hs2 & Hl2 & Hcomp & He2).
    apply wp_bind. eapply wp_mono; [apply (add_component_ok size output out cs comp); [done|lia|done]|].
    rewrite Hr1, resolve_component in Ht by done.
    intros r. destruct (resolve_step size cs comp) as [cs'|].
    + intros (out' & o' & -> & Hh' & Hlo). apply wp_ok. exists (length inp2). split.
      * destruct comp as [|d comp]; [|simpl in Hl2; lia].
        destruct Hless as [Hless| <-]; [simpl in *; lia|]. simpl in Hh1.
        destruct He2 as [->|?]; [|done]. by destruct (Hc (proj2 Hc0 eq_refl)).
      * exists s2, cs'. split_and!; try done. by rewrite Hlo.
    + intros ->. apply wp_ok, wp_ok. exists output. split; [done|]. split; [done|]. by rewrite <-Ht.
  - exists s, []. split_and!; try done; try lia.
    + split; [constructor|]. split; [done|]. split; [lia|]. split; [by rewrite zlen_insert|].
      destruct buf; [unfold zlen in *; simpl in *; lia|done].
    + by rewrite zlen_insert.
  - lia.
Qed.

(** ** Normal forms *)

Lemma split_concat cs : Forall proper cs → split_slash (concat (cons slash <$> cs)) = [] :: cs.
Proof.
  induction 1 as [|c cs Hc _ IH]; [done|]. cbn [fmap list_fmap concat app split_slash].
  rewrite Z.eqb_refl. f_equal. destruct Hc as (_ & _ & _ & Hb).
  change (list_fmap _ _ (cons slash) cs) with (cons slash <$> cs).
  destruct (split_component c (concat (cons slash <$> cs)) Hb) as (todo & -> & Ht).
  - destruct cs; [by left|by right].
  - f_equal. rewrite IH in Ht. destruct Ht as [[? ->]|Ht]; simplify_eq; done.
Qed.

Lemma path_text_app_le cs1 cs2 : Forall proper cs1 → Forall proper cs2 → zlen (path_text cs1) ≤ zlen (path_text (cs1 ++ cs2)).
Proof.
  intros H1 H2. induction cs2 as [|c cs2 IH] using rev_ind; [by rewrite app_nil_r|].
  apply Forall_app in H2 as [H2 Hc]. apply Forall_cons in Hc as [(Hc & _) _].
  etrans; [by apply IH|]. rewrite app_assoc, path_text_len_snoc.
  assert (1 ≤ zlen c) by (destruct c; [done|unfold zlen; simpl; lia]).
  case_decide as Hd; [rewrite Hd; unfold zlen in *; simpl; lia|unfold zlen; lia].
Qed.

Lemma resolve_proper size cs1 cs2 :
  Forall proper cs1 → Forall proper cs2 → zlen (path_text (cs1 ++ cs2)) < size →
  resolve size cs1 cs2 = Some (cs1 ++ cs2).
Proof.
  intros H1 H2. revert cs1 H1. induction H2 as [|c cs2 Hc H2 IH]; intros cs1 H1 Hfit; simpl.
  - by rewrite app_nil_r.
  - pose proof Hc as (Hc1 & Hc2 & Hc3 & _). unfold resolve_step.
    rewrite (decide_False (P := c = [] ∨ c = [dot])), decide_False by tauto.
    assert (Forall proper (cs1 ++ [c])) as H1' by (apply Forall_app; split; [done|by apply Forall_singleton]).
    assert (cs1 ++ c :: cs2 = (cs1 ++ [c]) ++ cs2) as Heq by (by rewrite <-app_assoc).
    rewrite Heq in *. pose proof (path_text_app_le (cs1 ++ [c]) cs2 H1' H2).
    rewrite (proj2 (Z.ltb_lt _ _)) by lia. simpl. by apply IH.
Qed.

(** A normalized path resolves to its own components. *)
Lemma resolve_text size cs :
  Forall proper cs → zlen (path_text cs) < size → resolve size [] (split_slash (path_text cs)) = Some cs.
Proof.
  intros Hp Hfit. destruct cs as [|c cs]; [done|].
  change (path_text (c :: cs)) with (concat (cons slash <$> (c :: cs))). rewrite split_concat by done.
  change (resolve size [] ([] :: c :: cs)) with (resolve size [] (c :: cs)).
  by rewrite (resolve_proper size [] (c :: cs)).
Qed.

(** C37: path_normalize of any string into a buffer of at least 2 bytes (and below 2^63)
    resolves empty, '.' and '..' components the way a stack of components does, writes the
    resulting absolute path with its terminator inside the output buffer and returns 0, and
    returns -1 exactly when a component does not fit. *)
Theorem path_normalize_correct input s buf size :
  is_cstr input s → 2 ≤ size < 2 ^ 63 → size ≤ zlen buf →
  path_normalize (Some input) (Some buf) size ⇓ λ '(r, o), ∃ o', o = Some o' ∧
    match resolve size [] (split_slash s) with
    | Some cs => r = 0 ∧ is_cstr o' (path_text cs) ∧ Forall proper cs
    | None => r = -1
    end.
Proof.
  intros Hs Hsize Hbuf. eapply wp_mono; [by apply path_normalize_ok|].
  intros [r o] (o' & -> & _ & H). exists o'. split; [done|].
  destruct (resolve size [] (split_slash s)); [|done]. by destruct H as (? & ? & ? & _).
Qed.

(** "//a/./b/../c" becomes "/a/c". *)
Lemma path_normalize_correct_witness :
  path_normalize (Some (cstr [47; 47; 97; 47; 46; 47; 98; 47; 46; 46; 47; 99])) (Some (replicate 16 0)) 16
    ⇓ λ '(r, o), ∃ o', o = Some o' ∧ r = 0 ∧ is_cstr o' [47; 97; 47; 99].
Proof.
  eapply wp_mono.
  - apply (path_normalize_correct _ [47; 47; 97; 47; 46; 47; 98; 47; 46; 46; 47; 99] (replicate 16 0) 16).
    + apply is_cstr_cstr. repeat constructor; lia.
    + lia.
    + by vm_compute.
  - intros [r o] (o' & -> & H). exists o'. split; [done|]. vm_compute in H. by destruct H as (? & ? & _).
Defined.

(** Normalising a normalised path succeeds and gives the same path. *)
Theorem path_normalize_idempotent input s buf1 buf2 size o1 :
  is_cstr input s → 2 ≤ size < 2 ^ 63 → size ≤ zlen buf1 → size ≤ zlen buf2 →
  path_normalize (Some input) (Some buf1) size = Ok (0, Some o1) →
  path_normalize (Some o1) (Some buf2) size ⇓ λ '(r, o), ∃ o2 t, o = Some o2 ∧
    r = 0 ∧ is_cstr o1 t ∧ is_cstr o2 t.
Proof.
  intros Hs Hsize Hb1 Hb2 H1. destruct (path_normalize_ok input s buf1 size) as (ro & Heq & H); [done..|].
  rewrite H1 in Heq. injection Heq as <-. destruct H as (o' & [= <-] & _ & H).
  destruct (resolve size [] (split_slash s)) as [cs|]; [|done]. destruct H as (_ & Ho & Hp & Hfit).
  eapply wp_mono; [by apply (path_normalize_ok _ (path_text cs) buf2 size)|].
  intros [r o] (o2 & -> & _ & H). rewrite resolve_text in H by done. destruct H as (-> & Ho2 & _).
  by exists o2, (path_text cs).
Qed.

Lemma path_normalize_idempotent_witness :
  path_normalize (Some [47; 97; 0; 9; 9; 9; 9; 9]) (Some (replicate 8 7)) 8
    ⇓ λ '(r, o), ∃ o2 t, o = Some o2 ∧ r = 0 ∧ is_cstr [47; 97; 0; 9; 9; 9; 9; 9] t ∧ is_cstr o2 t.
Proof.
  apply (path_normalize_idempotent (cstr [97; 47]) [97; 47] (replicate 8 9) (replicate 8 7) 8).
  - apply is_cstr_cstr. repeat constructor; lia.
  - lia.
  - by vm_compute.
  - by vm_compute.
  - by vm_compute.
Defined.

(** With an output buffer of one byte path_normalize writes the terminator outside it. *)
Theorem path_normalize_one_byte_overflow :
  path_normalize (Some (cstr [47])) (Some [0]) 1 = Undef.
Proof. by vm_compute. Qed.

(** ** Other operations *)

Lemma basename_ok pre base :
  Forall (λ b, 0 < b < 256) pre → Forall (λ b, 0 < b < 256 ∧ b ≠ slash) base → base ≠ [] →
  path_basename (Some (pre ++ [slash] ++ base ++ [0])) = Ok (base ++ [0]).
Proof.
  intros Hpre Hbase Hne.
  assert (∀ b0 c, Forall (λ b, 0 < b < 256 ∧ b ≠ slash) c → basename_loop b0 (c ++ [0]) = Ok b0) as Htail.
  { intros b0 c Hc. induction Hc as [|x c [Hx Hxs] _ IH]; [done|]. cbn [app basename_loop].
    rewrite (proj2 (Z.eqb_neq x 0)), (proj2 (Z.eqb_neq x slash)) by lia. done. }
  unfold path_basename. generalize (pre ++ [slash] ++ base ++ [0]) at 1 as b0.
  induction Hpre as [|x pre Hx _ IH]; intros b0; cbn [app basename_loop].
  - destruct base as [|d base]; [done|]. pose proof Hbase as [[Hd _] _]%Forall_cons. simpl app.
    cbn [deref]. rewrite bind_ok, (proj2 (Z.eqb_neq d 0)) by lia. change (slash =? 0) with false.
    rewrite Z.eqb_refl. by apply (Htail _ (d :: base)).
  - rewrite (proj2 (Z.eqb_neq x 0)) by lia. destruct (x =? slash); [|apply IH].
    assert (∃ c, deref (pre ++ slash :: base ++ [0]) = Ok c) as (c & ->) by (destruct pre; eauto).
    rewrite bind_ok. apply IH.
Qed.

(** [path_next_component] on a text that starts with the component [c]: the cursor
    moves behind it, the buffer holds as much of it as fits. *)
Lemma next_component_ok inp c s' buf size :
  is_cstr inp (slash :: c ++ s') → c ≠ [] → Forall (λ b, b ≠ slash) c → (s' = [] ∨ ∃ t, s' = slash :: t) →
  2 ≤ size < 2 ^ 62 → size ≤ zlen buf → zlen c < 2 ^ 62 →
  path_next_component (Some (Some inp)) (Some buf) size ⇓ λ '(len, cur, comp),
    len = zlen c ∧ ∃ inp' buf', cur = Some (Some inp') ∧ comp = Some buf' ∧
      is_cstr inp' s' ∧ zlen buf' = zlen buf ∧ (length inp' < length inp)%nat ∧
      is_cstr buf' (take (Z.to_nat (size - 1)) c).
Proof.
  intros [Hb (rest & ->)] Hne Hns Hs' Hsize Hbuf Hlc. apply Forall_cons in Hb as [_ Hb].
  apply Forall_app in Hb as [Hbc Hbs]. unfold path_next_component.
  rewrite (proj2 (Z.eqb_neq size 0)) by lia. set (tail := s' ++ 0 :: rest).
  assert (skip_slashes ((slash :: c ++ s') ++ 0 :: rest) = Ok (c ++ tail)) as ->.
  { unfold tail. simpl. rewrite <-app_assoc. destruct c as [|x c]; [done|]. simpl.
    apply Forall_cons in Hns as [Hx _]. by rewrite (proj2 (Z.eqb_neq x slash)). }
  rewrite bind_ok. assert (∃ d t, tail = d :: t ∧ ((d =? 0) || (d =? slash)) = true) as (d & t & Hd & Hstop).
  { unfold tail. destruct Hs' as [->|(t & ->)]; simpl; eauto. }
  apply wp_bind.
  apply (wp_loop_bound (λ n '(k, p, b), 0 ≤ k ≤ zlen c ∧ n = Z.to_nat (zlen c - k) ∧
    p = drop (Z.to_nat k) c ++ tail ∧ zlen b = zlen buf ∧
    take (Z.to_nat (Z.min k (size - 1))) b = take (Z.to_nat (Z.min k (size - 1))) c))
    with (k := Z.to_nat (zlen c)).
  - intros n [[k p] b] (Hk & -> & -> & Hlb & Ht). destruct (decide (k = zlen c)) as [->|Hkc].
    + rewrite drop_ge by (unfold zlen; lia). rewrite Hd. simpl. rewrite Hstop. apply wp_ok.
      set (copied := if zlen c <? size then zlen c else u64 (size - 1)).
      assert (copied = Z.min (zlen c) (size - 1)) as Hcop.
      { unfold copied. destruct (Z.ltb_spec (zlen c) size); [lia|]. rewrite u64_small by lia. lia. }
      apply wp_bind, wp_zset; [unfold zlen in *; lia|]. apply wp_ok. split; [done|].
      eexists _, _. split; [done|]. split; [done|]. rewrite <-Hd. split; [split; [done|by exists rest]|].
      split; [by rewrite zlen_insert|]. split.
      { unfold tail. destruct c; [done|]. simpl. rewrite !length_app. simpl. lia. }
      split; [by apply Forall_take|]. exists (drop (S (Z.to_nat copied)) b).
      rewrite insert_take_drop by (unfold zlen in *; lia). f_equal.
      rewrite Hcop, Ht. destruct (decide (zlen c < size - 1)).
      * rewrite (take_ge c (Z.to_nat (size - 1))) by (unfold zlen in *; lia). apply take_ge. unfold zlen in *; lia.
      * by rewrite Z.min_r by lia.
    + destruct (lookup_lt_is_Some_2 c (Z.to_nat k)) as [x Hx]; [unfold zlen in *; lia|].
      rewrite (drop_S c x) by done. simpl.
      pose proof (Forall_lookup_1 _ _ _ _ Hbc Hx) as Hx0. pose proof (Forall_lookup_1 _ _ _ _ Hns Hx) as Hxs.
      simpl in Hx0, Hxs. rewrite (proj2 (Z.eqb_neq x 0)), (proj2 (Z.eqb_neq x slash)) by lia. simpl.
      rewrite u64_small by lia. apply wp_bind.
      assert (∀ b', zlen b' = zlen buf →
        take (Z.to_nat (Z.min (k + 1) (size - 1))) b' = take (Z.to_nat (Z.min (k + 1) (size - 1))) c →
        Ok (inl (k + 1, drop (Z.to_nat k + 1) c ++ tail, b')) ⇓ (λ x : Z * list Z * list Z + Z * list Z * list Z,
          match x with
          | inl s0 => ∃ k', (k' < Z.to_nat (zlen c - k))%nat ∧
              (let '(k0, p, b0) := s0 in 0 ≤ k0 ≤ zlen c ∧ k' = Z.to_nat (zlen c - k0) ∧
                 p = drop (Z.to_nat k0) c ++ tail ∧ zlen b0 = zlen buf ∧
                 take (Z.to_nat (Z.min k0 (size - 1))) b0 = take (Z.to_nat (Z.min k0 (size - 1))) c)
          | inr _ => False
          end)) as Hgo.
      { intros b' Hl' Ht'. apply wp_ok. exists (Z.to_nat (zlen c - (k + 1))). split; [lia|]. split; [lia|].
        split; [done|]. split; [|done]. do 2 f_equal. lia. }
      replace (S (Z.to_nat k)) with (Z.to_nat k + 1)%nat by lia.
      destruct (Z.ltb_spec (k + 1) size).
      * apply wp_zset; [lia|]. eapply wp_mono; [apply Hgo|by intros [|]].
        { by rewrite zlen_insert. }
        rewrite !Z.min_l in * by lia. rewrite Z2Nat.inj_add by lia.
        rewrite Nat.add_comm. change (Z.to_nat 1) with 1%nat. cbn [Nat.add].
        rewrite (take_S_r c _ x), (take_S_r (<[Z.to_nat k := x]> b) _ x).
        -- by rewrite take_insert_ge, Ht by lia.
        -- apply list_lookup_insert_eq. unfold zlen in *; lia.
        -- done.
      * apply wp_ok. eapply wp_mono; [apply Hgo; [done|]|by intros [|]].
        rewrite !Z.min_r in * by lia. done.
  - split; [unfold zlen; lia|]. split; [f_equal; lia|]. split; [done|]. split; [done|]. by rewrite Z.min_l by lia.
  - rewrite length_app. unfold zlen. lia.
Qed.

Lemma next_component_end inp s buf size :
  is_cstr inp s → (s = [] ∨ s = [slash]) → 2 ≤ size < 2 ^ 62 → size ≤ zlen buf →
  path_next_component (Some (Some inp)) (Some buf) size ⇓ λ '(len, cur, comp),
    len = 0 ∧ (∃ inp', cur = Some (Some inp')) ∧ ∃ buf', comp = Some buf'.
Proof.
  intros [_ (rest & ->)] Hs Hsize Hbuf. unfold path_next_component.
  rewrite (proj2 (Z.eqb_neq size 0)) by lia.
  assert (skip_slashes (s ++ 0 :: rest) = Ok (0 :: rest)) as -> by (by destruct Hs as [->| ->]).
  rewrite bind_ok. cbn [loop deref]. rewrite bind_ok. simpl. destruct (Z.ltb_spec 0 size); [|lia].
  apply wp_bind, wp_zset; [lia|]. apply wp_ok. eauto.
Qed.

End Path.
