(* ===== verification/Sync.v ===== *)
(** Synchronisation: spin locks (kernel/lib/spinlock.c), mutexes
    (kernel/ipc/mutex.c), counting semaphores (kernel/ipc/semaphore.c) and
    condition variables (kernel/ipc/condvar.c).

    Each C function is a function on the object's state.  Where the code is
    written for several contexts running at once, a step relation interleaves
    the atomic actions of any number of threads: one volatile read or one
    compare-and-swap per step. *)
From S2P Require Import Prelude.

Module Sync.

(** [__sync_bool_compare_and_swap(&cell, old, new)] *)
Definition cas (cell old new : Z) : bool * Z :=
  if cell =? old then (true, new) else (false, cell).

(** Threads are numbered; [upd f t x] gives thread [t] the value [x]. *)
Definition upd {A} (f : nat → A) (t : nat) (x : A) : nat → A := λ u, if decide (u = t) then x else f u.

Lemma upd_eq {A} (f : nat → A) t x : upd f t x t = x.
Proof. unfold upd. by rewrite decide_True. Qed.
Lemma upd_ne {A} (f : nat → A) t u x : u ≠ t → upd f t x u = f u.
Proof. intros. unfold upd. by rewrite decide_False. Qed.

(** ** Spin locks *)
Module Spinlock.

Record spinlock_t := { locked : Z }.

Definition spinlock_init (lock : option spinlock_t) : option spinlock_t :=
  match lock with Some _ => Some {| locked := 0 |} | None => None end.

Definition spin_trylock (lock : option spinlock_t) : bool * option spinlock_t :=
  match lock with
  | None => (false, None)
  | Some l => let '(ok, v) := cas (locked l) 0 1 in (ok, Some {| locked := v |})
  end.

(** [fuel] turns of the loop. *)
Definition spin_lock (fuel : nat) (lock : option spinlock_t) : outcome (option spinlock_t) :=
  loop fuel (λ lock, let '(ok, lock) := spin_trylock lock in
                     if (ok : bool) then Ok (inr lock) else Ok (inl lock)) lock.

Definition spin_unlock (lock : option spinlock_t) : option spinlock_t :=
  match lock with None => None | Some _ => Some {| locked := 0 |} end.

Definition spin_is_locked (lock : option spinlock_t) : bool :=
  match lock with Some l => negb (locked l =? 0) | None => false end.

(** Threads that call [spin_lock] (one [spin_trylock] per step) and, when they
    hold the lock, [spin_unlock]. *)
Record sys := { lock : spinlock_t; inside : nat → bool }.

Inductive step : sys → sys → Prop :=
  | step_try t s ok l :
      inside s t = false → spin_trylock (Some (lock s)) = (ok, Some l) →
      step s {| lock := l; inside := upd (inside s) t ok |}
  | step_unlock t s l :
      inside s t = true → spin_unlock (Some (lock s)) = Some l →
      step s {| lock := l; inside := upd (inside s) t false |}.

Definition initial (l : spinlock_t) : sys :=
  {| lock := default l (spinlock_init (Some l)); inside := λ _, false |}.

(** The lock word is 1 exactly while a thread is inside, and then it is the only one. *)
Definition inv (s : sys) : Prop :=
  (locked (lock s) = 0 ∧ ∀ t, inside s t = false) ∨
  (locked (lock s) = 1 ∧ ∃ t, inside s t = true ∧ ∀ u, inside s u = true → u = t).

Lemma lock_inv_step s s' : inv s → step s s' → inv s'.
Proof.
  intros Hinv Hs. destruct Hs as [t s ok l Ht Htry|t s l Ht Hun]; simpl in *; unfold inv; simpl.
  - unfold cas in Htry. destruct (Z.eqb_spec (locked (lock s)) 0) as [H0|H0]; simplify_eq/=.
    + destruct Hinv as [[_ Hno]|[? _]]; [|lia]. right. split; [done|]. exists t.
      split; [apply upd_eq|]. intros u Hu. destruct (decide (u = t)); [done|].
      rewrite upd_ne, Hno in Hu by done. done.
    + destruct Hinv as [[? _]|[Hl (h & Hh & Huniq)]]; [lia|]. right. split; [done|]. exists h.
      assert (h ≠ t) by congruence. split; [by rewrite upd_ne|].
      intros u Hu. destruct (decide (u = t)) as [->|]; [by rewrite upd_eq in Hu|].
      rewrite upd_ne in Hu by done. by apply Huniq.
  - simplify_eq/=. left. split; [done|]. intros u.
    destruct (decide (u = t)) as [->|Hne]; [apply upd_eq|]. rewrite upd_ne by done.
    destruct (inside s u) eqn:Hu; [|done]. destruct Hinv as [[_ Hno]|[_ (h & _ & Huniq)]].
    + by rewrite Hno in Ht.
    + destruct Hne. rewrite (Huniq u), (Huniq t); done.
Qed.

(** In every interleaving of spin_lock and spin_unlock by any number of threads at most one
    thread is inside the critical section, and the lock is seen as locked exactly when some
    thread is inside. *)
Theorem spinlock_mutual_exclusion l s :
  rtc step (initial l) s →
  (∀ t u, inside s t = true → inside s u = true → t = u) ∧
  (spin_is_locked (Some (lock s)) = true ↔ ∃ t, inside s t = true).
Proof.
  intros Hr. assert (inv s) as Hinv.
  { eapply (rtc_inv step inv); [by eauto using lock_inv_step| |exact Hr]. left. by split. }
  destruct Hinv as [[Hl Hno]|[Hl (h & Hh & Huniq)]]; simpl; rewrite Hl; split.
  - intros t u Ht. by rewrite Hno in Ht.
  - split; [done|]. intros [t Ht]. by rewrite Hno in Ht.
  - intros t u Ht Hu. rewrite (Huniq t), (Huniq u); done.
  - split; [by eauto|done].
Qed.

Lemma spinlock_mutual_exclusion_witness :
  let s := {| lock := {| locked := 1 |}; inside := upd (upd (λ _, false) 3 true) 4 false |} in
  rtc step (initial {| locked := 9 |}) s ∧ (spin_is_locked (Some (lock s)) = true ↔ ∃ t, inside s t = true).
Proof.
  intros s. assert (rtc step (initial {| locked := 9 |}) s) as Hr.
  { eapply rtc_l; [eapply (step_try 3); reflexivity|].
    eapply rtc_l; [eapply (step_try 4); reflexivity|]. apply rtc_refl. }
  split; [done|]. apply (spinlock_mutual_exclusion {| locked := 9 |} s Hr).
Defined.

End Spinlock.

(** ** Mutexes *)
Module Mutex.

Record mutex_t := { locked : Z; owner : Z; recursion : Z }.

(** The same for every caller. *)
Definition current_owner_token : Z := 1.

Definition mutex_init (mutex : option mutex_t) : option mutex_t :=
  match mutex with Some _ => Some {| locked := 0; owner := 0; recursion := 0 |} | None => None end.

Definition mutex_try_lock (mutex : option mutex_t) : bool * option mutex_t :=
  match mutex with
  | None => (false, None)
  | Some m =>
      if negb (locked m =? 0) && (owner m =? current_owner_token)
      then (true, Some {| locked := locked m; owner := owner m; recursion := u32 (recursion m + 1) |})
      else
        let '(ok, v) := cas (locked m) 0 1 in
        if (ok : bool) then (true, Some {| locked := v; owner := current_owner_token; recursion := 1 |})
        else (false, mutex)
  end.

(** A try that fails leaves the mutex as it is, so without another context the
    loop of [mutex_lock] ends in its first turn or not at all. *)
Definition mutex_lock (mutex : option mutex_t) : outcome (option mutex_t) :=
  loop 1 (λ mutex, let '(ok, mutex) := mutex_try_lock mutex in
                   if (ok : bool) then Ok (inr mutex) else Ok (inl mutex)) mutex.

Definition mutex_unlock (mutex : option mutex_t) : option mutex_t :=
  match mutex with
  | None => None
  | Some m =>
      if (locked m =? 0) || negb (owner m =? current_owner_token) then mutex
      else
        let r := u32 (recursion m - 1) in
        if r =? 0 then Some {| locked := 0; owner := 0; recursion := r |}
        else Some {| locked := locked m; owner := owner m; recursion := r |}
  end.

Definition mutex_is_locked (mutex : option mutex_t) : bool :=
  match mutex with Some m => negb (locked m =? 0) | None => false end.

(** The mutex as [mutex_init] and [n] nested calls of [mutex_lock] leave it. *)
Definition at_depth (n : Z) : mutex_t :=
  if n =? 0 then {| locked := 0; owner := 0; recursion := 0 |}
  else {| locked := 1; owner := current_owner_token; recursion := n |}.

Lemma lock_depth n : 0 ≤ n < 2 ^ 32 - 1 → mutex_lock (Some (at_depth n)) = Ok (Some (at_depth (n + 1))).
Proof.
  intros Hn. unfold mutex_lock, at_depth. destruct (Z.eqb_spec n 0) as [->|Hne]; [done|].
  rewrite (proj2 (Z.eqb_neq (n + 1) 0)) by lia. simpl. by rewrite u32_small by lia.
Qed.

Lemma unlock_depth n : 0 < n < 2 ^ 32 → mutex_unlock (Some (at_depth n)) = Some (at_depth (n - 1)).
Proof.
  intros Hn. unfold mutex_unlock, at_depth. rewrite (proj2 (Z.eqb_neq n 0)) by lia. simpl.
  rewrite u32_small by lia. by destruct (Z.eqb_spec (n - 1) 0) as [->|].
Qed.

(** Any number of contexts that share a mutex and call the functions of mutex.c:
    who does what, in order. *)
Inductive act := Lock | Unlock.

Fixpoint run (m : option mutex_t) (acts : list (nat * act)) : outcome (option mutex_t) :=
  match acts with
  | [] => Ok m
  | (_, Lock) :: rest => m ← mutex_lock m; run m rest
  | (_, Unlock) :: rest => run (mutex_unlock m) rest
  end.

Lemma run_depth acts n :
  0 ≤ n → n + zlen acts < 2 ^ 32 - 1 →
  run (Some (at_depth n)) acts ⇓ λ m, ∃ k, m = Some (at_depth k) ∧ 0 ≤ k < 2 ^ 32 - 1.
Proof.
  unfold zlen. revert n. induction acts as [|[t []] acts IH]; intros n Hn Hmax; simpl in Hmax; cbn [run].
  - apply wp_ok. exists n. split; [done|lia].
  - rewrite lock_depth, bind_ok by lia. apply IH; lia.
  - destruct (decide (n = 0)) as [->|]; [apply IH; simpl; lia|].
    rewrite unlock_depth by lia. apply IH; lia.
Qed.

(** After any sequence of lock and unlock calls by any threads mutex_try_lock still succeeds,
    because every caller has the same owner token: the mutex never excludes anyone. *)
Theorem mutex_never_excludes m0 acts :
  zlen acts < 2 ^ 32 - 1 →
  run (mutex_init (Some m0)) acts ⇓ λ m, (mutex_try_lock m).1 = true.
Proof.
  intros Hmax. eapply wp_mono; [apply (run_depth acts 0); lia|].
  intros m (k & -> & Hk). unfold at_depth. by destruct (Z.eqb_spec k 0).
Qed.

(** Thread 0 holds the mutex and thread 1 gets it too. *)
Lemma mutex_never_excludes_witness :
  run (mutex_init (Some (at_depth 0))) [(0%nat, Lock)] ⇓ λ m, (mutex_try_lock m).1 = true.
Proof. apply mutex_never_excludes. by vm_compute. Defined.

End Mutex.

(** ** Semaphores *)
Module Semaphore.

Record semaphore_t := { count : Z; limit : Z }.

Definition semaphore_init (sem : option semaphore_t) (initial limit_ : Z) : option semaphore_t :=
  match sem with
  | None => None
  | Some _ =>
      let limit_ := if limit_ <=? 0 then 1 else limit_ in
      let initial := if initial <? 0 then 0 else initial in
      let initial := if limit_ <? initial then limit_ else initial in
      Some {| count := initial; limit := limit_ |}
  end.

(** The read at the top of the loop of [semaphore_try_wait]: [None] returns false. *)
Definition wait_read (s : semaphore_t) : option Z := if count s <=? 0 then None else Some (count s).
(** The compare-and-swap that ends a turn. *)
Definition wait_cas (s : semaphore_t) (seen : Z) : bool * semaphore_t :=
  let '(ok, v) := cas (count s) seen (i32 (seen - 1)) in (ok, {| count := v; limit := limit s |}).

Definition post_read (s : semaphore_t) : option Z :=
  if limit s <=? count s then None else Some (count s).
Definition post_cas (s : semaphore_t) (seen : Z) : bool * semaphore_t :=
  let '(ok, v) := cas (count s) seen (i32 (seen + 1)) in (ok, {| count := v; limit := limit s |}).

Definition semaphore_try_wait (sem : option semaphore_t) : outcome (bool * option semaphore_t) :=
  match sem with
  | None => Ok (false, None)
  | Some s =>
      loop 1 (λ s, match wait_read s with
                   | None => Ok (inr (false, Some s))
                   | Some c => let '(ok, s) := wait_cas s c in
                               if (ok : bool) then Ok (inr (true, Some s)) else Ok (inl s)
                   end) s
  end.

(** [fuel] turns of the waiting loop. *)
Definition semaphore_wait (fuel : nat) (sem : option semaphore_t) : outcome (option semaphore_t) :=
  loop fuel (λ sem, '(ok, sem) ← semaphore_try_wait sem;
                    if (ok : bool) then Ok (inr sem) else Ok (inl sem)) sem.

Definition semaphore_post (sem : option semaphore_t) : outcome (bool * option semaphore_t) :=
  match sem with
  | None => Ok (false, None)
  | Some s =>
      loop 1 (λ s, match post_read s with
                   | None => Ok (inr (false, Some s))
                   | Some c => let '(ok, s) := post_cas s c in
                               if (ok : bool) then Ok (inr (true, Some s)) else Ok (inl s)
                   end) s
  end.

Definition semaphore_value (sem : option semaphore_t) : Z :=
  match sem with Some s => count s | None => 0 end.

(** Where a thread is: at the top of a loop, or between the read and the
    compare-and-swap of a wait or a post.  [waits] and [posts] count the calls
    that returned true. *)
Inductive pc := Idle | Waiting (seen : Z) | Posting (seen : Z).
Record sys := { sem : semaphore_t; pcs : nat → pc; waits : Z; posts : Z }.

Definition count_if (b : bool) : Z := if b then 1 else 0.

Inductive step : sys → sys → Prop :=
  | step_wait_read t s c :
      pcs s t = Idle → wait_read (sem s) = Some c →
      step s {| sem := sem s; pcs := upd (pcs s) t (Waiting c); waits := waits s; posts := posts s |}
  | step_wait_cas t s c ok s1 :
      pcs s t = Waiting c → wait_cas (sem s) c = (ok, s1) →
      step s {| sem := s1; pcs := upd (pcs s) t Idle; waits := waits s + count_if ok; posts := posts s |}
  | step_post_read t s c :
      pcs s t = Idle → post_read (sem s) = Some c →
      step s {| sem := sem s; pcs := upd (pcs s) t (Posting c); waits := waits s; posts := posts s |}
  | step_post_cas t s c ok s1 :
      pcs s t = Posting c → post_cas (sem s) c = (ok, s1) →
      step s {| sem := s1; pcs := upd (pcs s) t Idle; waits := waits s; posts := posts s + count_if ok |}.

Definition start (s : semaphore_t) : sys := {| sem := s; pcs := λ _, Idle; waits := 0; posts := 0 |}.

Definition pc_ok (lim : Z) (p : pc) : Prop :=
  match p with Idle => True | Waiting c => 0 < c ≤ lim | Posting c => 0 ≤ c < lim end.

Definition inv (initial lim : Z) (s : sys) : Prop :=
  limit (sem s) = lim ∧ 0 ≤ count (sem s) ≤ lim ∧ (∀ t, pc_ok lim (pcs s t)) ∧
  count (sem s) = initial - waits s + posts s.

Lemma pcs_upd lim (f : nat → pc) t p : (∀ u, pc_ok lim (f u)) → pc_ok lim p → ∀ u, pc_ok lim (upd f t p u).
Proof. intros Hf Hp u. unfold upd. by case_decide. Qed.

Lemma sem_inv_step initial lim s s' : lim < 2 ^ 31 → inv initial lim s → step s s' → inv initial lim s'.
Proof.
  intros Hlim (Hl & Hc & Hp & Hbal) Hs.
  destruct Hs as [t s c Ht Hr|t s c ok s1 Ht Hr|t s c Ht Hr|t s c ok s1 Ht Hr]; unfold inv; simpl.
  - unfold wait_read in Hr. destruct (Z.leb_spec (count (sem s)) 0); simplify_eq.
    split_and!; try done; try lia. apply pcs_upd; [done|]. simpl. lia.
  - pose proof (Hp t) as Hpt. rewrite Ht in Hpt. simpl in Hpt. unfold wait_cas, cas in Hr.
    destruct (Z.eqb_spec (count (sem s)) c); simplify_eq/=; rewrite ?i32_small by lia;
      split_and!; try done; try lia; by apply pcs_upd.
  - unfold post_read in Hr. destruct (Z.leb_spec (limit (sem s)) (count (sem s))); simplify_eq.
    split_and!; try done; try lia. apply pcs_upd; [done|]. simpl. lia.
  - pose proof (Hp t) as Hpt. rewrite Ht in Hpt. simpl in Hpt. unfold post_cas, cas in Hr.
    destruct (Z.eqb_spec (count (sem s)) c); simplify_eq/=; rewrite ?i32_small by lia;
      split_and!; try done; try lia; by apply pcs_upd.
Qed.

(** C40: Any number of threads interleaving the reads and compare-and-swaps of semaphore_wait
    and semaphore_post on a semaphore set up by semaphore_init with a limit below 2^31 keep its
    value between 0 and the limit that semaphore_init stored, and the value is at every moment
    the count it stored less the waits plus the posts that have succeeded. *)
Theorem semaphore_counts s0 initial lim sem0 s :
  semaphore_init (Some s0) initial lim = Some sem0 → lim < 2 ^ 31 →
  rtc step (start sem0) s →
  0 ≤ semaphore_value (Some (sem s)) ≤ limit sem0 ∧
  semaphore_value (Some (sem s)) = count sem0 - waits s + posts s.
Proof.
  intros Hi Hlim Hr. assert (0 ≤ count sem0 ≤ limit sem0 ∧ limit sem0 < 2 ^ 31) as [Hc Hl].
  { simpl in Hi. injection Hi as <-. simpl. destruct (Z.leb_spec lim 0), (Z.ltb_spec initial 0);
      match goal with |- context [?a <? ?b] => destruct (Z.ltb_spec a b) end; lia. }
  assert (inv (count sem0) (limit sem0) s) as (_ & Hcs & _ & Hbal); [|done].
  eapply (rtc_inv step); [intros ???; by apply sem_inv_step| |exact Hr].
  split_and!; simpl; lia || done.
Qed.

(** Two threads read the count 1; the second compare-and-swap fails. *)
Lemma semaphore_counts_witness :
  ∃ s, rtc step (start {| count := 1; limit := 2 |}) s ∧ waits s = 1 ∧ 0 ≤ semaphore_value (Some (sem s)) ≤ 2.
Proof.
  eexists. assert (rtc step (start {| count := 1; limit := 2 |})
    {| sem := {| count := 0; limit := 2 |};
       pcs := upd (upd (upd (upd (λ _, Idle) 0 (Waiting 1)) 1 (Waiting 1)) 0 Idle) 1 Idle;
       waits := 1; posts := 0 |}) as Hr.
  { eapply rtc_l; [eapply (step_wait_read 0); reflexivity|].
    eapply rtc_l; [eapply (step_wait_read 1); reflexivity|].
    eapply rtc_l; [eapply (step_wait_cas 0); reflexivity|].
    eapply rtc_l; [eapply (step_wait_cas 1); reflexivity|]. apply rtc_refl. }
  split; [exact Hr|]. split; [done|].
  by apply (semaphore_counts {| count := 7; limit := 7 |} 1 2 _ _ eq_refl ltac:(lia) Hr).
Defined.

End Semaphore.

(** ** Condition variables *)
Module Condvar.
Import Mutex.

Record condvar_t := { sequence : Z }.

Definition condvar_init (c : option condvar_t) : option condvar_t :=
  match c with Some _ => Some {| sequence := 0 |} | None => None end.

(** [__sync_add_and_fetch(&sequence, 1)] *)
Definition condvar_signal (c : option condvar_t) : option condvar_t :=
  match c with Some c => Some {| sequence := u64 (sequence c + 1) |} | None => None end.
Definition condvar_broadcast (c : option condvar_t) : option condvar_t := condvar_signal c.

(** [condvar_wait] up to the loop: the sequence number seen, and the mutex released. *)
Definition wait_begin (c : condvar_t) (m : mutex_t) : Z * option mutex_t :=
  (sequence c, mutex_unlock (Some m)).
(** The loop condition: whether the waiter goes on spinning. *)
Definition wait_spins (c : condvar_t) (observed : Z) : bool := sequence c =? observed.
(** After the loop. *)
Definition wait_end (m : option mutex_t) : outcome (option mutex_t) := mutex_lock m.

(** [n] signals. *)
Fixpoint signal_n (n : nat) (c : condvar_t) : condvar_t :=
  match n with
  | O => c
  | S n => match condvar_signal (Some (signal_n n c)) with Some c' => c' | None => c end
  end.

(** The whole call when [signals] signals arrive while it waits; [None] waits for ever. *)
Definition condvar_wait (c : option condvar_t) (m : option mutex_t) (signals : nat)
  : outcome (option condvar_t * option mutex_t) :=
  match c, m with
  | Some cv, Some mu =>
      let '(observed, m) := wait_begin cv mu in
      let cv := signal_n signals cv in
      if wait_spins cv observed then OutOfFuel
      else m ← wait_end m; Ok (Some cv, m)
  | _, _ => Ok (c, m)
  end.

Lemma signals_sequence n c :
  0 ≤ sequence c < 2 ^ 64 →
  sequence (signal_n n c) = u64 (sequence c + Z.of_nat n).
Proof.
  intros Hc. induction n as [|n IH]; cbn [signal_n condvar_signal sequence].
  - by rewrite Z.add_0_r, u64_small by lia.
  - rewrite IH. unfold u64. rewrite Zplus_mod_idemp_l. f_equal. lia.
Qed.

(** A waiter that was signalled at least once since it looked, and less than
    2^64 times, leaves the loop with the mutex taken again. *)
Lemma wait_not_lost c n d :
  0 ≤ sequence c < 2 ^ 64 → 0 < Z.of_nat n < 2 ^ 64 → 0 < d < 2 ^ 32 - 1 →
  condvar_wait (Some c) (Some (at_depth d)) n ⇓ λ '(_, m), m = Some (at_depth d).
Proof.
  intros Hc Hn Hd. unfold condvar_wait, wait_begin, wait_spins, wait_end.
  pose proof (signals_sequence n c Hc) as Hseq. cbv zeta.
  set (cv := signal_n n c) in *. destruct (Z.eqb_spec (sequence cv) (sequence c)) as [Heq|_].
  2:{ rewrite unlock_depth, lock_depth by lia. apply wp_ok. do 2 f_equal. lia. }
  exfalso. rewrite Hseq in Heq. unfold u64 in Heq.
  destruct (decide (sequence c + Z.of_nat n < 2 ^ 64)).
  - rewrite Z.mod_small in Heq; lia.
  - rewrite <-(Z.mod_unique_pos _ _ 1 (sequence c + Z.of_nat n - 2 ^ 64)) in Heq; lia.
Qed.

(** condvar_wait returns, with the mutex held to the same depth as before, as soon as a signal
    arrived after the sequence number was observed, and never returns without one. *)
Theorem condvar_no_lost_wakeup c n d :
  0 ≤ sequence c < 2 ^ 64 → 0 < Z.of_nat n < 2 ^ 64 → 0 < d < 2 ^ 32 - 1 →
  condvar_wait (Some c) (Some (at_depth d)) n ⇓ (λ '(_, m), m = Some (at_depth d)) ∧
  condvar_wait (Some c) (Some (at_depth d)) 0 = OutOfFuel.
Proof.
  intros Hc Hn Hd. split; [by apply wait_not_lost|].
  unfold condvar_wait, wait_begin, wait_spins. simpl. by rewrite Z.eqb_refl.
Qed.

Lemma condvar_no_lost_wakeup_witness :
  condvar_wait (Some {| sequence := 2 ^ 64 - 1 |}) (Some (at_depth 1)) 1
    ⇓ (λ '(_, m), m = Some (at_depth 1)).
Proof. apply (condvar_no_lost_wakeup {| sequence := 2 ^ 64 - 1 |} 1 1); simpl; lia. Defined.

End Condvar.

End Sync.
