(* ===== verification/Ipc.v ===== *)
(** Pipes (kernel/ipc/pipe.c) and message queues (kernel/ipc/msgqueue.c): bounded
    queues in heap blocks, each guarded by a mutex.

    The block a queue owns is its address and its contents, [None] once it was
    freed.  [kmalloc] does not clear memory, so [pipe_init] is given the bytes
    the new block happens to hold. *)
From S2P Require Import Prelude KString Heap Ring Sync.

(** ** Pipes *)
Module Pipe.
Import KString Heap Sync.Mutex.

Record ipc_pipe_t := {
  buffer : option (Z * list Z);
  capacity : Z;
  read_index : Z;
  write_index : Z;
  size : Z;
  reader_closed : bool;
  writer_closed : bool;
  lock : mutex_t
}.

Definition IPC_PIPE_DEFAULT_CAPACITY : Z := 4096.

Definition with_lock (p : ipc_pipe_t) (l : mutex_t) : ipc_pipe_t :=
  {| buffer := buffer p; capacity := capacity p; read_index := read_index p;
     write_index := write_index p; size := size p; reader_closed := reader_closed p;
     writer_closed := writer_closed p; lock := l |}.

(** [mutex_lock(&pipe->lock)] and [mutex_unlock(&pipe->lock)] *)
Definition lock_pipe (p : ipc_pipe_t) : outcome ipc_pipe_t :=
  l ← mutex_lock (Some (lock p)); match l with Some l => Ok (with_lock p l) | None => Undef end.
Definition unlock_pipe (p : ipc_pipe_t) : ipc_pipe_t :=
  match mutex_unlock (Some (lock p)) with Some l => with_lock p l | None => p end.

Section Memory.
Context {H : Type} `{AL : Allocator H}.

Definition pipe_init (h : H) (pipe : option ipc_pipe_t) (cap : Z) (uninit : list Z)
  : outcome (Z * H * option ipc_pipe_t) :=
  match pipe with
  | None => Ok (-1, h, None)
  | Some p =>
      let cap := if cap =? 0 then IPC_PIPE_DEFAULT_CAPACITY else cap in
      '(b, h) ← al_malloc h cap;
      if b =? 0 then
        Ok (-1, h, Some {| buffer := None; capacity := capacity p; read_index := read_index p;
                           write_index := write_index p; size := size p;
                           reader_closed := reader_closed p; writer_closed := writer_closed p;
                           lock := lock p |})
      else
        Ok (0, h, Some {| buffer := Some (b, uninit); capacity := cap; read_index := 0;
                          write_index := 0; size := 0; reader_closed := false;
                          writer_closed := false;
                          lock := default (lock p) (mutex_init (Some (lock p))) |})
  end.

Definition pipe_destroy (h : H) (pipe : option ipc_pipe_t) : outcome (H * option ipc_pipe_t) :=
  match pipe with
  | None => Ok (h, None)
  | Some p =>
      h ← al_free h (match buffer p with Some (b, _) => b | None => 0 end);
      Ok (h, Some {| buffer := None; capacity := 0; read_index := read_index p;
                     write_index := write_index p; size := 0; reader_closed := reader_closed p;
                     writer_closed := writer_closed p; lock := lock p |})
  end.

End Memory.

(** One turn of the loops: the byte at the read index, or written at the write index. *)
Definition take_byte (p : ipc_pipe_t) : outcome (Z * ipc_pipe_t) :=
  match buffer p with
  | None => Undef
  | Some (_, data) =>
      c ← zget data (read_index p);
      r ← umod (u64 (read_index p + 1)) (capacity p);
      Ok (c, {| buffer := buffer p; capacity := capacity p; read_index := r;
                write_index := write_index p; size := u64 (size p - 1);
                reader_closed := reader_closed p; writer_closed := writer_closed p; lock := lock p |})
  end.

Definition put_byte (p : ipc_pipe_t) (c : Z) : outcome ipc_pipe_t :=
  match buffer p with
  | None => Undef
  | Some (b, data) =>
      data ← zset data (write_index p) c;
      w ← umod (u64 (write_index p + 1)) (capacity p);
      Ok {| buffer := Some (b, data); capacity := capacity p; read_index := read_index p;
            write_index := w; size := u64 (size p + 1);
            reader_closed := reader_closed p; writer_closed := writer_closed p; lock := lock p |}
  end.

Definition pipe_read (pipe : option ipc_pipe_t) (out : option (list Z)) (count : Z)
  : outcome (Z * option ipc_pipe_t * option (list Z)) :=
  match pipe, out with
  | Some p, Some out_ =>
      if count =? 0 then Ok (0, pipe, out)
      else
        p ← lock_pipe p;
        '(copied, p, out_) ←
          loop (S (Z.to_nat count))
            (λ '(copied, p, out),
               if (copied <? count) && (0 <? size p) then
                 '(c, p) ← take_byte p;
                 out ← zset out copied c;
                 Ok (inl (u64 (copied + 1), p, out))
               else Ok (inr (copied, p, out))) (0, p, out_);
        Ok (copied, Some (unlock_pipe p), Some out_)
  | _, _ => Ok (0, pipe, out)
  end.

Definition pipe_write (pipe : option ipc_pipe_t) (in_ : option (list Z)) (count : Z)
  : outcome (Z * option ipc_pipe_t) :=
  match pipe, in_ with
  | Some p, Some inp =>
      if (count =? 0) || reader_closed p then Ok (0, pipe)
      else
        p ← lock_pipe p;
        '(copied, p) ←
          loop (S (Z.to_nat count))
            (λ '(copied, p),
               if (copied <? count) && (size p <? capacity p) then
                 c ← zget inp copied;
                 p ← put_byte p c;
                 Ok (inl (u64 (copied + 1), p))
               else Ok (inr (copied, p))) (0, p);
        Ok (copied, Some (unlock_pipe p))
  | _, _ => Ok (0, pipe)
  end.

Definition pipe_close_reader (pipe : option ipc_pipe_t) : option ipc_pipe_t :=
  match pipe with
  | Some p => Some {| buffer := buffer p; capacity := capacity p; read_index := read_index p;
                      write_index := write_index p; size := size p; reader_closed := true;
                      writer_closed := writer_closed p; lock := lock p |}
  | None => None
  end.
Definition pipe_close_writer (pipe : option ipc_pipe_t) : option ipc_pipe_t :=
  match pipe with
  | Some p => Some {| buffer := buffer p; capacity := capacity p; read_index := read_index p;
                      write_index := write_index p; size := size p;
                      reader_closed := reader_closed p; writer_closed := true; lock := lock p |}
  | None => None
  end.

Definition pipe_available (pipe : option ipc_pipe_t) : Z :=
  match pipe with Some p => size p | None => 0 end.
Definition pipe_space (pipe : option ipc_pipe_t) : Z :=
  match pipe with Some p => if size p <=? capacity p then capacity p - size p else 0 | None => 0 end.

(** The pipe holds the bytes [q] and its mutex has depth [d]. *)
Definition holds_at (d : Z) (p : ipc_pipe_t) (q : list Z) : Prop :=
  ∃ b data, buffer p = Some (b, data) ∧ zlen data < 2 ^ 63 ∧
    Ring.holds data (capacity p) (read_index p) q ∧ size p = zlen q ∧
    write_index p = (read_index p + zlen q) mod capacity p ∧ lock p = at_depth d.
Abbreviation repr p q := (holds_at 0 p q).

(** Fields no transfer changes. *)
Definition same_ends (p p' : ipc_pipe_t) : Prop :=
  capacity p' = capacity p ∧ reader_closed p' = reader_closed p ∧ writer_closed p' = writer_closed p ∧
  fst <$> buffer p' = fst <$> buffer p.

Lemma lock_pipe_ok p q : repr p q → lock_pipe p ⇓ λ p', holds_at 1 p' q ∧ same_ends p p'.
Proof.
  intros (b & data & H1 & H2 & H3 & H4 & H5 & H6). unfold lock_pipe. rewrite H6, lock_depth, bind_ok by lia.
  apply wp_ok. split; [by exists b, data|by split_and!].
Qed.

Lemma unlock_pipe_ok p q : holds_at 1 p q → repr (unlock_pipe p) q ∧ same_ends p (unlock_pipe p).
Proof.
  intros (b & data & H1 & H2 & H3 & H4 & H5 & H6). unfold unlock_pipe. rewrite H6, unlock_depth by lia.
  split; [by exists b, data|by split_and!].
Qed.

Lemma same_ends_trans p1 p2 p3 : same_ends p1 p2 → same_ends p2 p3 → same_ends p1 p3.
Proof. intros (? & ? & ? & ?) (? & ? & ? & ?). split_and!; congruence. Qed.

Lemma take_byte_ok d p c q :
  holds_at d p (c :: q) → take_byte p ⇓ λ '(c', p'), c' = c ∧ holds_at d p' q ∧ same_ends p p'.
Proof.
  intros (b & data & Hb & Hmax & Hh & Hs & Hw & Hl). unfold take_byte. rewrite Hb.
  pose proof Hh as (Hc & Hr & Hql & _). apply Ring.holds_pop in Hh as [Hx Hh].
  rewrite (zget_ok data (read_index p) c), bind_ok by (done || lia). rewrite (u64_small (read_index p + 1)), umod_ok, bind_ok by lia.
  apply wp_ok. split; [done|]. split; [|by split_and!; simpl; rewrite ?Hb].
  exists b, data. simpl. unfold zlen in *. split_and!; try done.
  - simpl length in *. rewrite Hs, u64_small; lia.
  - rewrite Hw, Zplus_mod_idemp_l. simpl. f_equal. lia.
Qed.

Lemma put_byte_ok d p c q :
  holds_at d p q → zlen q < capacity p →
  put_byte p c ⇓ λ p', holds_at d p' (q ++ [c]) ∧ same_ends p p'.
Proof.
  intros (b & data & Hb & Hmax & Hh & Hs & Hw & Hl) Hroom. unfold put_byte. rewrite Hb.
  pose proof Hh as (Hc & Hr & _ & _). assert (0 ≤ zlen q) by (unfold zlen; lia).
  pose proof (Z.mod_pos_bound (read_index p + zlen q) (capacity p) ltac:(lia)) as Hwr.
  rewrite zset_ok, bind_ok by lia. rewrite (u64_small (write_index p + 1)), umod_ok, bind_ok by lia.
  apply wp_ok. split; [|by split_and!; simpl; rewrite ?Hb].
  exists b, (<[Z.to_nat (write_index p) := c]> data). simpl. rewrite zlen_insert. split_and!; try done.
  - rewrite Hw. by apply (Ring.holds_push data (capacity p) (read_index p) q c).
  - rewrite Hs, u64_small by lia. unfold zlen. rewrite length_app. simpl. lia.
  - rewrite Hw, Zplus_mod_idemp_l. f_equal. unfold zlen. rewrite length_app. simpl. lia.
Qed.

(** Reading takes what there is, up to [count], from the front. *)
Lemma pipe_read_ok p q out count :
  repr p q → 0 ≤ count ≤ zlen out → count < 2 ^ 63 →
  pipe_read (Some p) (Some out) count ⇓ λ '(n, p', out'), ∃ p1, p' = Some p1 ∧
    n = Z.min count (zlen q) ∧ out' = Some (splice out 0 (take (Z.to_nat n) q)) ∧
    repr p1 (drop (Z.to_nat n) q) ∧ same_ends p p1.
Proof.
  intros Hp Hc Hmax. unfold pipe_read. destruct (Z.eqb_spec count 0) as [->|Hne].
  { apply wp_ok. exists p. rewrite Z.min_l by (unfold zlen; lia). split_and!; try done. }
  apply wp_bind. eapply wp_mono; [by apply lock_pipe_ok|]. intros p0 [Hp0 Hs0]. apply wp_bind.
  apply (wp_loop (λ '(k, p1, o), 0 ≤ k ≤ count ∧ k ≤ zlen q ∧ holds_at 1 p1 (drop (Z.to_nat k) q) ∧
    o = splice out 0 (take (Z.to_nat k) q) ∧ same_ends p p1) (λ '(k, _, _), Z.to_nat (count - k))).
  - intros [[k p1] o] (Hk & Hkq & Hp1 & -> & Hs1).
    assert (size p1 = zlen q - k) as Hsz.
    { destruct Hp1 as (? & ? & _ & _ & _ & -> & _). unfold zlen in *. rewrite length_drop. lia. }
    assert (zlen (take (Z.to_nat k) q) = k) as Htk by (unfold zlen in *; rewrite length_take; lia).
    destruct (Z.ltb_spec k count) as [Hlt|Hge]; [destruct (Z.ltb_spec 0 (size p1)) as [Hpos|Hz]|]; cbn [andb].
    + destruct (lookup_lt_is_Some_2 q (Z.to_nat k)) as [c Hcq]; [unfold zlen in *; lia|].
      rewrite (drop_S q c) in Hp1 by done. apply wp_bind. eapply wp_mono; [by apply take_byte_ok|].
      intros [c' p2] (-> & Hp2 & Hs2).
      apply wp_bind, wp_zset.
      { unfold zlen in *. rewrite length_splice by (unfold zlen; lia). lia. }
      apply wp_ok. rewrite u64_small by lia. replace (Z.to_nat (k + 1)) with (S (Z.to_nat k)) by lia.
      split; [|lia]. split_and!; try done; try lia; [|by eapply same_ends_trans].
      rewrite (take_S_r q _ c) by done. apply splice_snoc; lia.
    + apply wp_ok, wp_ok. destruct (unlock_pipe_ok _ _ Hp1) as [Hu Hsu]. eexists. split; [done|].
      assert (k = Z.min count (zlen q)) as <- by lia. split_and!; try done. by eapply same_ends_trans.
    + apply wp_ok, wp_ok. destruct (unlock_pipe_ok _ _ Hp1) as [Hu Hsu]. eexists. split; [done|].
      assert (k = Z.min count (zlen q)) as <- by lia. split_and!; try done. by eapply same_ends_trans.
  - split_and!; try done; try lia. unfold zlen. lia.
  - lia.
Qed.

(** Writing stores what fits, up to [count], at the back. *)
Lemma pipe_write_ok p q inp count :
  repr p q → reader_closed p = false → 0 ≤ count ≤ zlen inp → count < 2 ^ 63 →
  pipe_write (Some p) (Some inp) count ⇓ λ '(n, p'), ∃ p1, p' = Some p1 ∧
    n = Z.min count (capacity p - zlen q) ∧ repr p1 (q ++ take (Z.to_nat n) inp) ∧ same_ends p p1.
Proof.
  intros Hp Hrc Hc Hmax. unfold pipe_write. rewrite Hrc, orb_false_r.
  assert (zlen q ≤ capacity p) as Hcap by (destruct Hp as (? & ? & _ & _ & Hh & _); apply Hh).
  destruct (Z.eqb_spec count 0) as [->|Hne].
  { apply wp_ok. exists p. rewrite Z.min_l by lia. change (take (Z.to_nat 0) inp) with (@nil Z).
    rewrite app_nil_r. split_and!; try done. }
  apply wp_bind. eapply wp_mono; [by apply lock_pipe_ok|]. intros p0 [Hp0 Hs0]. apply wp_bind.
  apply (wp_loop (λ '(k, p1), 0 ≤ k ≤ count ∧ k ≤ capacity p - zlen q ∧
    holds_at 1 p1 (q ++ take (Z.to_nat k) inp) ∧ same_ends p p1) (λ '(k, _), Z.to_nat (count - k))).
  - intros [k p1] (Hk & Hkq & Hp1 & Hs1).
    assert (zlen (q ++ take (Z.to_nat k) inp) = zlen q + k) as Hlen
      by (unfold zlen in *; rewrite length_app, length_take; lia).
    assert (size p1 = zlen q + k) as Hsz by (destruct Hp1 as (? & ? & _ & _ & _ & -> & _); done).
    pose proof Hs1 as (Hc1 & _). rewrite Hc1.
    destruct (Z.ltb_spec k count) as [Hlt|Hge];
      [destruct (Z.ltb_spec (size p1) (capacity p)) as [Hpos|Hz]|]; cbn [andb].
    + destruct (lookup_lt_is_Some_2 inp (Z.to_nat k)) as [c Hci]; [unfold zlen in *; lia|].
      rewrite (zget_ok inp k c), bind_ok by (done || lia). apply wp_bind.
      eapply wp_mono; [apply (put_byte_ok 1 p1 c _ Hp1); lia|]. intros p2 [Hp2 Hs2]. apply wp_ok.
      rewrite u64_small by lia. replace (Z.to_nat (k + 1)) with (S (Z.to_nat k)) by lia.
      split; [|lia]. split_and!; try lia; [|by eapply same_ends_trans].
      rewrite (take_S_r inp _ c) by done. by rewrite app_assoc.
    + apply wp_ok, wp_ok. destruct (unlock_pipe_ok _ _ Hp1) as [Hu Hsu]. eexists. split; [done|].
      assert (k = Z.min count (capacity p - zlen q)) as <- by lia. split_and!; try done.
      by eapply same_ends_trans.
    + apply wp_ok, wp_ok. destruct (unlock_pipe_ok _ _ Hp1) as [Hu Hsu]. eexists. split; [done|].
      assert (k = Z.min count (capacity p - zlen q)) as <- by lia. split_and!; try done.
      by eapply same_ends_trans.
  - split_and!; try done; try lia. by rewrite app_nil_r.
  - lia.
Qed.

Lemma pipe_init_ok {H} `{AL : Allocator H} h l p cap uninit :
  al_repr h l → 0 ≤ cap ≤ 2 ^ 32 - 16 →
  zlen uninit = (if cap =? 0 then IPC_PIPE_DEFAULT_CAPACITY else cap) →
  pipe_init h (Some p) cap uninit ⇓ λ '(r, h', p'),
    (r = -1 ∧ al_repr h' l) ∨
    (∃ p1 b sz, r = 0 ∧ p' = Some p1 ∧ buffer p1 = Some (b, uninit) ∧ repr p1 [] ∧
       capacity p1 = zlen uninit ∧ reader_closed p1 = false ∧ zlen uninit ≤ sz ∧
       al_repr h' ((b, sz) :: l)).
Proof.
  intros Ha Hcap Hun. unfold pipe_init. rewrite <-Hun.
  assert (0 < zlen uninit ≤ 2 ^ 32 - 16) as Hr.
  { rewrite Hun. unfold IPC_PIPE_DEFAULT_CAPACITY. destruct (Z.eqb_spec cap 0); lia. }
  apply wp_bind. eapply wp_mono; [by apply al_malloc_spec|].
  intros [b h'] [(-> & Ha')|(sz & Hb & Hsz & _ & _ & Ha')].
  - apply wp_ok. by left.
  - rewrite (proj2 (Z.eqb_neq b 0)) by lia. apply wp_ok. right. eexists _, b, sz.
    split_and!; try done. exists b, uninit. simpl. split_and!; try done; [lia|].
    apply Ring.holds_nil; lia.
Qed.

(** ** The byte stream *)

Inductive op := Write (bytes : list Z) | Read (count : Z).

(** A reader and a writer on one pipe, in any order: the bytes accepted by
    [pipe_write] and the bytes delivered by [pipe_read]. *)
Fixpoint transfer (p : option ipc_pipe_t) (ops : list op) (accepted delivered : list Z)
  : outcome (option ipc_pipe_t * list Z * list Z) :=
  match ops with
  | [] => Ok (p, accepted, delivered)
  | Write bytes :: ops =>
      '(n, p) ← pipe_write p (Some bytes) (zlen bytes);
      transfer p ops (accepted ++ take (Z.to_nat n) bytes) delivered
  | Read count :: ops =>
      '(n, p, out) ← pipe_read p (Some (replicate (Z.to_nat count) 0)) count;
      transfer p ops accepted (delivered ++ take (Z.to_nat n) (default [] out))
  end.

Definition op_ok (o : op) : Prop :=
  match o with Write bytes => zlen bytes < 2 ^ 63 | Read count => 0 ≤ count < 2 ^ 63 end.

Lemma transfer_ok p q ops accepted delivered :
  repr p q → reader_closed p = false → Forall op_ok ops → accepted = delivered ++ q →
  transfer (Some p) ops accepted delivered ⇓ λ '(p', a, d), ∃ p1 q', p' = Some p1 ∧
    repr p1 q' ∧ capacity p1 = capacity p ∧ a = d ++ q'.
Proof.
  intros Hp Hrc Hops. revert p q accepted delivered Hp Hrc.
  induction Hops as [|o ops Ho _ IH]; intros p q accepted delivered Hp Hrc Heq; simpl.
  - apply wp_ok. by exists p, q.
  - destruct o as [bytes|count]; simpl in Ho; apply wp_bind.
    + eapply wp_mono; [apply (pipe_write_ok p q bytes (zlen bytes)); try done; unfold zlen; lia|].
      intros [n p'] (p1 & -> & -> & Hp1 & Hc & Hr & _).
      eapply wp_mono; [apply (IH p1 _ _ _ Hp1); [congruence|]|].
      * by rewrite Heq, app_assoc.
      * intros [[p2 a] d] (p3 & q' & ? & ? & ? & ?). exists p3, q'. split_and!; try done. congruence.
    + assert (zlen (replicate (Z.to_nat count) 0) = count) as Hl by (unfold zlen; rewrite length_replicate; lia).
      eapply wp_mono; [apply (pipe_read_ok p q (replicate (Z.to_nat count) 0) count); try done; lia|].
      intros [[n p'] out] (p1 & -> & -> & -> & Hp1 & Hc & Hr & _). simpl.
      eapply wp_mono; [apply (IH p1 _ _ _ Hp1); [congruence|]|].
      * rewrite Heq, <-app_assoc. f_equal. unfold splice. simpl.
        set (n := Z.to_nat (Z.min count (zlen q))).
        rewrite take_app_le, take_take, Nat.min_id by (unfold zlen in *; rewrite length_take; lia).
        by rewrite take_drop.
      * intros [[p2 a] d] (p3 & q' & ? & ? & ? & ?). exists p3, q'. split_and!; try done. congruence.
Qed.

(** C27: Over any sequence of reads and writes on an initialised pipe, the bytes read so far
    followed by the bytes still buffered are exactly the bytes the writes accepted, in order,
    pipe_available is the number still buffered, and available and free space add up to the
    capacity. *)
Theorem pipe_stream_integrity {H} `{AL : Allocator H} h l p0 cap uninit ops h' p :
  al_repr h l → 0 ≤ cap ≤ 2 ^ 32 - 16 →
  zlen uninit = (if cap =? 0 then IPC_PIPE_DEFAULT_CAPACITY else cap) → Forall op_ok ops →
  pipe_init h (Some p0) cap uninit = Ok (0, h', p) →
  transfer p ops [] [] ⇓ λ '(p', accepted, delivered), ∃ q, accepted = delivered ++ q ∧
    pipe_available p' = zlen q ∧ pipe_available p' + pipe_space p' = zlen uninit.
Proof.
  intros Ha Hcap Hun Hops Hi.
  destruct (pipe_init_ok h l p0 cap uninit Ha Hcap Hun) as (x & Heq & Hx). rewrite Hi in Heq.
  injection Heq as <-. destruct Hx as [[? _]|(p1 & b & sz & _ & -> & _ & Hp1 & Hc & Hr & _)]; [done|].
  eapply wp_mono; [by apply (transfer_ok p1 [] ops [] [])|].
  intros [[p' a] d] (p2 & q & -> & (? & ? & _ & _ & Hh & Hs & _) & Hc2 & ->). exists q. simpl.
  destruct Hh as (_ & _ & Hq & _). rewrite Hs, (proj2 (Z.leb_le _ _)) by lia. split; [done|]. lia.
Qed.

Definition blank : ipc_pipe_t :=
  {| buffer := None; capacity := 0; read_index := 0; write_index := 0; size := 0;
     reader_closed := false; writer_closed := false; lock := at_depth 0 |}.

Lemma pipe_stream_integrity_witness :
  transfer (Some {| buffer := Some (4128, [9; 9; 9]); capacity := 3; read_index := 0; write_index := 0;
                    size := 0; reader_closed := false; writer_closed := false; lock := at_depth 0 |})
    [Write [1; 2; 3; 4]; Read 2; Write [5; 6]; Read 9] [] [] ⇓ λ '(p', accepted, delivered),
    ∃ q, accepted = delivered ++ q ∧ pipe_available p' = zlen q ∧ pipe_available p' + pipe_space p' = 3.
Proof.
  eapply (pipe_stream_integrity (heap_init empty_heap 4096 1024) [] blank 3 [9; 9; 9]).
  - exists [(992, true)]. split; [|done].
    apply (heap_init_repr empty_heap 4096 1024); unfold HDR; try lia; done.
  - lia.
  - done.
  - repeat constructor; by vm_compute.
  - by vm_compute.
Defined.

End Pipe.

(** ** Message queues *)
Module MsgQueue.
Import KString Heap Sync.Mutex.

Definition MSGQUEUE_MAX_PAYLOAD : Z := 256.

Record ipc_message_t := { type_ : Z; length_ : Z; payload : list Z }.

(** sizeof(ipc_message_t) on x86_64. *)
Definition MESSAGE_SIZE : Z := 272.

Definition zero_message : ipc_message_t :=
  {| type_ := 0; length_ := 0; payload := replicate (Z.to_nat MSGQUEUE_MAX_PAYLOAD) 0 |}.

Record msgqueue_t := {
  messages : option (Z * list ipc_message_t);
  capacity : Z;
  head : Z;
  tail : Z;
  count : Z;
  lock : mutex_t
}.

Definition with_lock (q : msgqueue_t) (l : mutex_t) : msgqueue_t :=
  {| messages := messages q; capacity := capacity q; head := head q; tail := tail q;
     count := count q; lock := l |}.
Definition lock_queue (q : msgqueue_t) : outcome msgqueue_t :=
  l ← mutex_lock (Some (lock q)); match l with Some l => Ok (with_lock q l) | None => Undef end.
Definition unlock_queue (q : msgqueue_t) : msgqueue_t :=
  match mutex_unlock (Some (lock q)) with Some l => with_lock q l | None => q end.

Section Memory.
Context {H : Type} `{AL : Allocator H}.

Definition msgqueue_init (h : H) (queue : option msgqueue_t) (cap : Z)
  : outcome (Z * H * option msgqueue_t) :=
  match queue with
  | None => Ok (-1, h, None)
  | Some q =>
      if cap =? 0 then Ok (-1, h, queue)
      else
        '(b, h) ← al_calloc h cap MESSAGE_SIZE;
        if b =? 0 then
          Ok (-1, h, Some {| messages := None; capacity := capacity q; head := head q; tail := tail q;
                             count := count q; lock := lock q |})
        else
          Ok (0, h, Some {| messages := Some (b, replicate (Z.to_nat cap) zero_message);
                            capacity := cap; head := 0; tail := 0; count := 0;
                            lock := default (lock q) (mutex_init (Some (lock q))) |})
  end.

Definition msgqueue_destroy (h : H) (queue : option msgqueue_t) : outcome (H * option msgqueue_t) :=
  match queue with
  | None => Ok (h, None)
  | Some q =>
      h ← al_free h (match messages q with Some (b, _) => b | None => 0 end);
      Ok (h, Some {| messages := None; capacity := 0; head := head q; tail := tail q; count := 0;
                     lock := lock q |})
  end.

End Memory.

Definition msgqueue_send (queue : option msgqueue_t) (type : Z) (data : option (list Z)) (length : Z)
  : outcome (Z * option msgqueue_t) :=
  match queue with
  | None => Ok (-1, queue)
  | Some q =>
      match messages q with
      | None => Ok (-1, queue)
      | Some (b, ms) =>
          if MSGQUEUE_MAX_PAYLOAD <? length then Ok (-1, queue)
          else
            q ← lock_queue q;
            if count q =? capacity q then Ok (-1, Some (unlock_queue q))
            else
              m ← zget ms (tail q);
              body ← match data with
                     | Some bytes =>
                         if length =? 0 then Ok (payload m)
                         else memcpy (payload m) 0 bytes 0 length
                     | None => Ok (payload m)
                     end;
              ms ← zset ms (tail q) {| type_ := type; length_ := length; payload := body |};
              t ← umod (u64 (tail q + 1)) (capacity q);
              Ok (0, Some (unlock_queue {| messages := Some (b, ms); capacity := capacity q;
                                           head := head q; tail := t; count := u64 (count q + 1);
                                           lock := lock q |}))
      end
  end.

(** [message] is where the caller wants the message; [None] is NULL. *)
Definition msgqueue_receive (queue : option msgqueue_t) (message : option ipc_message_t)
  : outcome (Z * option msgqueue_t * option ipc_message_t) :=
  match queue, message with
  | Some q, Some _ =>
      match messages q with
      | None => Ok (-1, queue, message)
      | Some (b, ms) =>
          q ← lock_queue q;
          if count q =? 0 then Ok (-1, Some (unlock_queue q), message)
          else
            m ← zget ms (head q);
            t ← umod (u64 (head q + 1)) (capacity q);
            Ok (0, Some (unlock_queue {| messages := messages q; capacity := capacity q; head := t;
                                         tail := tail q; count := u64 (count q - 1);
                                         lock := lock q |}), Some m)
      end
  | _, _ => Ok (-1, queue, message)
  end.

Definition msgqueue_count (queue : option msgqueue_t) : Z :=
  match queue with Some q => count q | None => 0 end.

(** What a receiver can see of a message: its type and its bytes. *)
Definition visible (m : ipc_message_t) : Z * list Z := (type_ m, take (Z.to_nat (length_ m)) (payload m)).

Definition repr (q : msgqueue_t) (l : list (Z * list Z)) : Prop :=
  ∃ b ms seen, messages q = Some (b, ms) ∧ zlen ms < 2 ^ 63 ∧
    Forall (λ m, zlen (payload m) = MSGQUEUE_MAX_PAYLOAD) ms ∧
    Ring.holds ms (capacity q) (head q) seen ∧ l = visible <$> seen ∧ count q = zlen l ∧
    tail q = (head q + zlen l) mod capacity q ∧ lock q = at_depth 0.

Lemma lock_unlock q : lock q = at_depth 0 →
  lock_queue q = Ok (with_lock q (at_depth 1)) ∧
  ∀ q', lock q' = at_depth 1 → unlock_queue q' = with_lock q' (at_depth 0).
Proof.
  intros Hl. unfold lock_queue, unlock_queue. rewrite Hl, lock_depth, bind_ok by lia. split; [done|].
  intros q' ->. by rewrite unlock_depth by lia.
Qed.

Lemma msgqueue_send_ok q l type bytes :
  repr q l → zlen bytes ≤ MSGQUEUE_MAX_PAYLOAD →
  msgqueue_send (Some q) type (Some bytes) (zlen bytes) ⇓ λ '(r, q'), ∃ q1, q' = Some q1 ∧
    capacity q1 = capacity q ∧
    if zlen l =? capacity q then r = -1 ∧ repr q1 l else r = 0 ∧ repr q1 (l ++ [(type, bytes)]).
Proof.
  intros (b & ms & seen & Hms & Hmax & Hpay & Hh & -> & Hc & Ht & Hl) Hlen. unfold msgqueue_send.
  rewrite Hms, (proj2 (Z.ltb_ge _ _)) by done. destruct (lock_unlock q Hl) as [-> Hun]. rewrite bind_ok.
  simpl. rewrite Hc. assert (zlen (visible <$> seen) = zlen seen) as Hzl by (unfold zlen; by rewrite length_fmap).
  rewrite Hzl in *. pose proof Hh as (Hcap & Hhd & Hle & _).
  destruct (Z.eqb_spec (zlen seen) (capacity q)) as [Hfull|Hroom].
  { apply wp_ok. rewrite Hun by done. eexists. do 2 (split; [done|]). split; [done|].
    exists b, ms, seen. rewrite Hzl. by split_and!. }
  assert (0 ≤ tail q < capacity q) as Htl by (rewrite Ht; apply Z.mod_pos_bound; lia).
  assert (0 ≤ zlen bytes ∧ 0 ≤ zlen seen) as [Hb0 Hs0] by (unfold zlen; lia).
  apply wp_bind, wp_zget; [lia|]. intros m Hm.
  assert (zlen (payload m) = MSGQUEUE_MAX_PAYLOAD) as Hpm by (exact (Forall_lookup_1 _ _ _ _ Hpay Hm)).
  set (body := splice (payload m) 0 bytes).
  assert ((if zlen bytes =? 0 then Ok (payload m) else memcpy (payload m) 0 bytes 0 (zlen bytes)) = Ok body) as ->.
  { destruct (Z.eqb_spec (zlen bytes) 0) as [H0|H0].
    - unfold body. destruct bytes; [done|unfold zlen in H0; simpl in H0; lia].
    - rewrite memcpy_ok by lia. do 2 f_equal. unfold slice, zlen. rewrite drop_0. apply take_ge. lia. }
  rewrite bind_ok. apply wp_bind, wp_zset; [lia|].
  rewrite (u64_small (tail q + 1)), umod_ok, bind_ok by lia. apply wp_ok. rewrite Hun by done.
  eexists. do 2 (split; [done|]). split; [done|].
  set (m' := {| type_ := type; length_ := zlen bytes; payload := body |}).
  assert (visible m' = (type, bytes)) as Hvis.
  { unfold visible, m', body, splice. simpl. f_equal. rewrite take_app_le by (unfold zlen; lia).
    apply take_ge. unfold zlen. lia. }
  assert (zlen body = MSGQUEUE_MAX_PAYLOAD) as Hbody.
  { unfold body, zlen in *. rewrite length_splice by (unfold zlen; lia). done. }
  exists b, (<[Z.to_nat (tail q) := m']> ms), (seen ++ [m']). simpl. rewrite zlen_insert.
  split_and!; try done.
  - by apply Forall_insert.
  - rewrite Ht. by apply (Ring.holds_push ms (capacity q) (head q) seen m'); [|lia].
  - by rewrite fmap_app, <-Hvis.
  - rewrite u64_small by lia. unfold zlen. rewrite length_app, length_fmap. simpl. lia.
  - rewrite Ht, Zplus_mod_idemp_l. f_equal. unfold zlen. rewrite length_app, length_fmap. simpl. lia.
Qed.

Lemma msgqueue_receive_ok q l m0 :
  repr q l →
  msgqueue_receive (Some q) (Some m0) ⇓ λ '(r, q', m), ∃ q1, q' = Some q1 ∧
    capacity q1 = capacity q ∧
    match l with
    | [] => r = -1 ∧ repr q1 [] ∧ m = Some m0
    | x :: l => r = 0 ∧ repr q1 l ∧ visible <$> m = Some x
    end.
Proof.
  intros (b & ms & seen & Hms & Hmax & Hpay & Hh & -> & Hc & Ht & Hl). unfold msgqueue_receive. rewrite Hms.
  destruct (lock_unlock q Hl) as [-> Hun]. rewrite bind_ok. simpl. rewrite Hc.
  destruct seen as [|m seen].
  { apply wp_ok. rewrite Hun by done. eexists. do 2 (split; [done|]). split; [done|]. split; [|done].
    by exists b, ms, []. }
  assert (zlen (visible <$> m :: seen) = zlen seen + 1) as Hzl
    by (unfold zlen; rewrite length_fmap; simpl; lia). rewrite Hzl in *.
  pose proof Hh as (Hcap & Hhd & Hle & _). apply Ring.holds_pop in Hh as [Hm Hh].
  assert (0 ≤ zlen seen) by (unfold zlen; lia). rewrite (proj2 (Z.eqb_neq _ _)) by lia.
  assert (zlen (m :: seen) = zlen seen + 1) as Hz2 by (unfold zlen; simpl; lia).
  rewrite (zget_ok ms (head q) m), bind_ok by (done || lia).
  rewrite (u64_small (head q + 1)), umod_ok, bind_ok by lia. apply wp_ok. rewrite Hun by done.
  eexists. do 2 (split; [done|]). split; [done|]. split; [|done].
  exists b, ms, seen. simpl. split_and!; try done.
  - rewrite u64_small by lia. unfold zlen. rewrite length_fmap. lia.
  - rewrite Ht, Zplus_mod_idemp_l. f_equal. unfold zlen. rewrite length_fmap. lia.
Qed.

(** ** Refinement *)

Inductive call := Send (type : Z) (bytes : list Z) | Receive.

(** What a caller observes: the result and, after a receive, the message. *)
Abbreviation seen := (Z * option (Z * list Z))%type.

Fixpoint queue_calls (q : option msgqueue_t) (cs : list call) : outcome (list seen) :=
  match cs with
  | [] => Ok []
  | Send type bytes :: cs =>
      '(r, q) ← msgqueue_send q type (Some bytes) (zlen bytes);
      rs ← queue_calls q cs; Ok ((r, None) :: rs)
  | Receive :: cs =>
      '(r, q, m) ← msgqueue_receive q (Some zero_message);
      rs ← queue_calls q cs;
      Ok ((r, if r =? 0 then visible <$> m else None) :: rs)
  end.

(** A list of at most [cap] messages. *)
Fixpoint fifo_calls (cap : Z) (l : list (Z * list Z)) (cs : list call) : list seen :=
  match cs with
  | [] => []
  | Send type bytes :: cs =>
      if (MSGQUEUE_MAX_PAYLOAD <? zlen bytes) || (zlen l =? cap) then (-1, None) :: fifo_calls cap l cs
      else (0, None) :: fifo_calls cap (l ++ [(type, bytes)]) cs
  | Receive :: cs =>
      match l with
      | [] => (-1, None) :: fifo_calls cap l cs
      | x :: l => (0, Some x) :: fifo_calls cap l cs
      end
  end.

Lemma queue_calls_ok q l cs : repr q l → queue_calls (Some q) cs = Ok (fifo_calls (capacity q) l cs).
Proof.
  revert q l. induction cs as [|[type bytes|] cs IH]; intros q l Hr; [done|..];
    cbn [queue_calls fifo_calls].
  - destruct (Z.ltb_spec MSGQUEUE_MAX_PAYLOAD (zlen bytes)) as [Hlt|Hge]; cbn [orb].
    + assert (msgqueue_send (Some q) type (Some bytes) (zlen bytes) = Ok (-1, Some q)) as ->.
      { unfold msgqueue_send. destruct Hr as (b & ms & ? & -> & _). by rewrite (proj2 (Z.ltb_lt _ _)). }
      by rewrite bind_ok, (IH q l Hr).
    + destruct (msgqueue_send_ok q l type bytes Hr Hge) as ([r q'] & -> & q1 & -> & Hc & H).
      rewrite bind_ok. destruct (zlen l =? capacity q); destruct H as [-> Hr1];
        by rewrite (IH q1 _ Hr1), Hc.
  - destruct (msgqueue_receive_ok q l zero_message Hr) as ([[r q'] m] & -> & q1 & -> & Hc & H).
    rewrite bind_ok. destruct l as [|x l]; destruct H as (-> & Hr1 & Hm);
      rewrite (IH q1 _ Hr1), Hc, bind_ok; [done|]. by rewrite Hm.
Qed.

Lemma msgqueue_init_ok {H} `{AL : Allocator H} h l q cap :
  al_repr h l → 0 < cap → cap * MESSAGE_SIZE ≤ 2 ^ 32 - 16 →
  msgqueue_init h (Some q) cap ⇓ λ '(r, h', q'),
    (r = -1 ∧ al_repr h' l) ∨
    (∃ q1 b sz, r = 0 ∧ q' = Some q1 ∧ repr q1 [] ∧ capacity q1 = cap ∧
       cap * MESSAGE_SIZE ≤ sz ∧ al_repr h' ((b, sz) :: l)).
Proof.
  intros Ha Hc Hmax. unfold msgqueue_init. rewrite (proj2 (Z.eqb_neq cap 0)) by lia.
  apply wp_bind. eapply wp_mono; [apply al_calloc_spec; [done|done|done|done]|].
  intros [b h'] [(-> & Ha')|(sz & Hb & Hsz & _ & _ & Ha')].
  - apply wp_ok. by left.
  - rewrite (proj2 (Z.eqb_neq b 0)) by lia. apply wp_ok. right. eexists _, b, sz.
    split_and!; try done. assert (zlen (replicate (Z.to_nat cap) zero_message) = cap) as Hl
      by (unfold zlen; rewrite length_replicate; lia). unfold MESSAGE_SIZE in *.
    exists b, (replicate (Z.to_nat cap) zero_message), []. simpl. rewrite Hl. split_and!; try done; [lia|..].
    + by apply Forall_replicate.
    + apply Ring.holds_nil; lia.
Qed.

(** Every sequence of msgqueue_send and msgqueue_receive calls on an initialised queue gives the
    results, types and payloads of a bounded FIFO of messages. *)
Theorem msgqueue_refines_fifo {H} `{AL : Allocator H} h l q0 cap h' q cs :
  al_repr h l → 0 < cap → cap * MESSAGE_SIZE ≤ 2 ^ 32 - 16 →
  msgqueue_init h (Some q0) cap = Ok (0, h', q) →
  queue_calls q cs = Ok (fifo_calls cap [] cs).
Proof.
  intros Ha Hc Hmax Hi. destruct (msgqueue_init_ok h l q0 cap Ha Hc Hmax) as (x & Heq & Hx).
  rewrite Hi in Heq. injection Heq as <-. destruct Hx as [[? _]|(q1 & b & sz & _ & -> & Hr & <- & _)]; [done|].
  by apply queue_calls_ok.
Qed.

Definition blank : msgqueue_t :=
  {| messages := None; capacity := 0; head := 0; tail := 0; count := 0; lock := at_depth 0 |}.

Lemma msgqueue_refines_fifo_witness :
  queue_calls (Some {| messages := Some (4128, replicate 2 zero_message); capacity := 2; head := 0;
                       tail := 0; count := 0; lock := at_depth 0 |})
    [Receive; Send 1 [10]; Send 2 [20; 21]; Send 3 []; Receive; Receive] =
  Ok [(-1, None); (0, None); (0, None); (-1, None); (0, Some (1, [10])); (0, Some (2, [20; 21]))].
Proof.
  eapply (msgqueue_refines_fifo (heap_init empty_heap 4096 1024) [] blank 2).
  - exists [(992, true)]. split; [|done].
    apply (heap_init_repr empty_heap 4096 1024); unfold HDR; try lia; done.
  - lia.
  - by vm_compute.
  - by vm_compute.
Defined.

End MsgQueue.
