(* ===== verification/Signal.v ===== *)
(** Signals (kernel/ipc/signal.c): pending and blocked masks and a table of
    handlers.  A handler is the address of a function; what running it does is
    the parameter [call] of [signal_dispatch]. *)
From S2P Require Import Prelude.

Module Signal.

Definition SIG_NONE : Z := 0.
Definition SIGKILL : Z := 9.
Definition SIGSTOP : Z := 19.
Definition SIG_MAX : Z := 32.

Record signal_state_t := {
  pending_mask : Z;
  blocked_mask : Z;
  handlers : list Z
}.

Definition valid_signal (signal : Z) : bool := (SIG_NONE <? signal) && (signal <? SIG_MAX).

Definition signal_state_init (state : option signal_state_t) : option signal_state_t :=
  match state with
  | Some _ => Some {| pending_mask := 0; blocked_mask := 0; handlers := replicate (Z.to_nat SIG_MAX) 0 |}
  | None => None
  end.

Definition set_pending (s : signal_state_t) (m : Z) : signal_state_t :=
  {| pending_mask := m; blocked_mask := blocked_mask s; handlers := handlers s |}.
Definition set_blocked (s : signal_state_t) (m : Z) : signal_state_t :=
  {| pending_mask := pending_mask s; blocked_mask := m; handlers := handlers s |}.

(** [1u << signal] and [~mask] in [uint32_t]. *)
Definition bit (signal : Z) : Z := u32 (Z.shiftl 1 signal).
Definition compl (m : Z) : Z := u32 (Z.lnot m).

Definition signal_send (state : option signal_state_t) (signal : Z) : bool * option signal_state_t :=
  match state with
  | Some s =>
      if valid_signal signal
      then (true, Some (set_pending s (Z.lor (pending_mask s) (bit signal))))
      else (false, state)
  | None => (false, None)
  end.

Definition signal_block (state : option signal_state_t) (signal : Z) : bool * option signal_state_t :=
  match state with
  | Some s =>
      if negb (valid_signal signal) || (signal =? SIGKILL) || (signal =? SIGSTOP) then (false, state)
      else (true, Some (set_blocked s (Z.lor (blocked_mask s) (bit signal))))
  | None => (false, None)
  end.

Definition signal_unblock (state : option signal_state_t) (signal : Z) : bool * option signal_state_t :=
  match state with
  | Some s =>
      if valid_signal signal
      then (true, Some (set_blocked s (Z.land (blocked_mask s) (compl (bit signal)))))
      else (false, state)
  | None => (false, None)
  end.

Definition signal_next (state : option signal_state_t) : outcome (Z * option signal_state_t) :=
  match state with
  | None => Ok (SIG_NONE, None)
  | Some s =>
      let deliverable := Z.land (pending_mask s) (compl (blocked_mask s)) in
      r ← for_loop 1 SIG_MAX
            (λ signal (_ : unit),
               if Z.land deliverable (bit signal) =? 0 then Ok (inl tt) else Ok (inr signal)) tt;
      match r with
      | inr signal => Ok (signal, Some (set_pending s (Z.land (pending_mask s) (compl (bit signal)))))
      | inl _ => Ok (SIG_NONE, state)
      end
  end.

Definition signal_set_handler (state : option signal_state_t) (signal handler : Z)
  : outcome (option signal_state_t) :=
  match state with
  | Some s =>
      if valid_signal signal then
        hs ← zset (handlers s) signal handler;
        Ok (Some {| pending_mask := pending_mask s; blocked_mask := blocked_mask s; handlers := hs |})
      else Ok state
  | None => Ok None
  end.

Section Dispatch.
(** [call handler signal w s]: the handler runs in the world [w] and may also
    send, block or unblock signals. *)
Context {W : Type} (call : Z → Z → W → signal_state_t → W * signal_state_t).

Definition signal_dispatch (fuel : nat) (w : W) (state : option signal_state_t)
  : outcome (W * option signal_state_t) :=
  '(signal, state) ← signal_next state;
  loop fuel
    (λ '(signal, w, state),
       if signal =? SIG_NONE then Ok (inr (w, state))
       else
         match state with
         | None => Undef
         | Some s =>
             handler ← zget (handlers s) signal;
             let '(w, s) := if handler =? 0 then (w, s) else call handler signal w s in
             '(signal, state) ← signal_next (Some s);
             Ok (inl (signal, w, state))
         end) (signal, w, state).

End Dispatch.

(** ** Masks *)

Definition wf (s : signal_state_t) : Prop :=
  0 ≤ pending_mask s < 2 ^ 32 ∧ 0 ≤ blocked_mask s < 2 ^ 32 ∧ zlen (handlers s) = SIG_MAX.

(** A signal that [signal_next] may return. *)
Definition deliverable (s : signal_state_t) (signal : Z) : bool :=
  Z.testbit (pending_mask s) signal && negb (Z.testbit (blocked_mask s) signal).

(** All of them, lowest first. *)
Definition queue (s : signal_state_t) : list Z := filter (λ x, deliverable s x = true) (seqZ 1 31).

Lemma bit_testbit signal j : 0 ≤ signal < 32 → 0 ≤ j → Z.testbit (bit signal) j = (j =? signal).
Proof.
  intros Hs Hj. unfold bit. rewrite testbit_u32, testbit_one_shiftl by lia.
  destruct (Z.eqb_spec j signal), (Z.ltb_spec j 32); simpl; try done; lia.
Qed.

Lemma bit_eq signal : 0 ≤ signal < 32 → bit signal = Z.shiftl 1 signal.
Proof.
  intros Hs. apply Z.bits_inj'; intros j Hj. by rewrite bit_testbit, testbit_one_shiftl by lia.
Qed.

Lemma compl_testbit m j : 0 ≤ j → Z.testbit (compl m) j = (j <? 32) && negb (Z.testbit m j).
Proof. intros Hj. unfold compl. by rewrite testbit_u32, Z.lnot_spec by lia. Qed.

Lemma mask_land a b : 0 ≤ a < 2 ^ 32 → 0 ≤ Z.land a b < 2 ^ 32.
Proof.
  intros Ha. split; [apply Z.land_nonneg; lia|].
  rewrite <-(Z.mod_small a (2 ^ 32)) by done. rewrite <-Z.land_ones by lia.
  rewrite <-Z.land_assoc, (Z.land_comm (Z.ones 32)), Z.land_assoc, Z.land_ones by lia.
  apply Z.mod_pos_bound. lia.
Qed.

Lemma mask_lor a b : 0 ≤ a < 2 ^ 32 → 0 ≤ b < 2 ^ 32 → 0 ≤ Z.lor a b < 2 ^ 32.
Proof.
  intros Ha Hb. split; [apply Z.lor_nonneg; lia|].
  rewrite <-(Z.mod_small a (2 ^ 32)), <-(Z.mod_small b (2 ^ 32)), <-!Z.land_ones by lia.
  rewrite <-Z.land_lor_distr_l, Z.land_ones by lia. apply Z.mod_pos_bound. lia.
Qed.

Lemma deliverable_test s signal :
  0 ≤ signal < 32 →
  (Z.land (Z.land (pending_mask s) (compl (blocked_mask s))) (bit signal) =? 0) = negb (deliverable s signal).
Proof.
  intros Hs. rewrite bit_eq, land_bit_nonzero, Z.land_spec, compl_testbit by lia.
  rewrite (proj2 (Z.ltb_lt signal 32)) by lia. done.
Qed.

(** Clearing the bit of one signal. *)
Definition clear (s : signal_state_t) (signal : Z) : signal_state_t :=
  set_pending s (Z.land (pending_mask s) (compl (bit signal))).

Lemma clear_testbit s signal j :
  0 ≤ signal < 32 → 0 ≤ j < 32 →
  Z.testbit (pending_mask (clear s signal)) j = Z.testbit (pending_mask s) j && negb (j =? signal).
Proof.
  intros Hs Hj. simpl. rewrite Z.land_spec, compl_testbit, bit_testbit by lia.
  by rewrite (proj2 (Z.ltb_lt j 32)) by lia.
Qed.

Lemma filter_head (P : Z → Prop) `{∀ x, Decision (P x)} lo n s l :
  filter P (seqZ lo n) = s :: l →
  lo ≤ s < lo + n ∧ P s ∧ (∀ x, lo ≤ x < s → ¬ P x).
Proof.
  intros Hf. assert (s ∈ filter P (seqZ lo n)) as Hin by (rewrite Hf; left).
  apply list_elem_of_filter in Hin as [Hs Hin]. apply elem_of_seqZ in Hin. split; [done|]. split; [done|].
  intros x Hx HP.
  assert (seqZ lo n = seqZ lo (s - lo) ++ seqZ s (n - (s - lo))) as Heq.
  { replace n with ((s - lo) + (n - (s - lo))) at 1 by lia. rewrite seqZ_app by lia. do 2 f_equal. lia. }
  rewrite Heq, filter_app in Hf. assert (x ∈ filter P (seqZ lo (s - lo))) as Hx'.
  { apply list_elem_of_filter. split; [done|]. apply elem_of_seqZ. lia. }
  destruct (filter P (seqZ lo (s - lo))) as [|y ys] eqn:Hy; [by apply not_elem_of_nil in Hx'|].
  simpl in Hf. injection Hf as -> _.
  assert (s ∈ filter P (seqZ lo (s - lo))) as Hin' by (rewrite Hy; left).
  apply list_elem_of_filter in Hin' as [_ Hin']. apply elem_of_seqZ in Hin'. lia.
Qed.

Lemma signal_next_ok s :
  signal_next (Some s) =
  Ok match queue s with
     | [] => (SIG_NONE, Some s)
     | x :: _ => (x, Some (clear s x))
     end.
Proof.
  assert (signal_next (Some s) ⇓ λ r, r = match queue s with
     | [] => (SIG_NONE, Some s) | x :: _ => (x, Some (clear s x)) end) as (r & -> & ->); [|done].
  unfold signal_next. apply wp_bind.
  apply (wp_for (λ i _, ∀ x, 1 ≤ x < i → deliverable s x = false)); unfold SIG_MAX.
  - lia.
  - lia.
  - intros i _ Hi Hno. rewrite deliverable_test by lia. destruct (deliverable s i) eqn:Hd; simpl; apply wp_ok.
    + destruct (queue s) as [|x l] eqn:Hq.
      * exfalso. assert (i ∈ queue s) as Hin.
        { apply list_elem_of_filter. split; [done|]. apply elem_of_seqZ. lia. }
        rewrite Hq in Hin. by apply not_elem_of_nil in Hin.
      * destruct (filter_head _ _ _ _ _ Hq) as (Hx & Hdx & Hleast).
        assert (x = i) as ->; [|by apply wp_ok].
        destruct (decide (x < i)); [by rewrite Hno in Hdx by lia|].
        destruct (decide (i < x)); [by destruct (Hleast i ltac:(lia))|lia].
    + intros x Hx. destruct (decide (x = i)) as [->|]; [done|]. apply Hno. lia.
  - intros _ Hno. apply wp_ok. assert (queue s = []) as ->; [|done].
    unfold queue. destruct (filter _ (seqZ 1 31)) as [|x l] eqn:Hq; [done|].
    destruct (filter_head _ _ _ _ _ Hq) as (Hx & Hdx & _). rewrite Hno in Hdx by lia. done.
Qed.

Lemma queue_clear s x l : queue s = x :: l → queue (clear s x) = l.
Proof.
  intros Hq. destruct (filter_head _ _ _ _ _ Hq) as (Hx & _ & _).
  assert (queue (clear s x) = filter (λ y, y ≠ x) (queue s)) as ->.
  { unfold queue. rewrite list_filter_filter. apply filter_iff_in. intros y Hy. apply elem_of_seqZ in Hy. unfold deliverable.
    rewrite clear_testbit by lia. simpl blocked_mask.
    destruct (Z.eqb_spec y x) as [->|]; simpl; rewrite ?andb_false_r, ?andb_true_r; simpl;
      split; [done|by intros []|done|by intros []]. }
  rewrite Hq, filter_cons_False by (intros ?; done).
  assert (x ∉ l) as Hni.
  { assert (NoDup (x :: l)) as Hnd by (rewrite <-Hq; apply NoDup_filter, NoDup_seqZ).
    by apply NoDup_cons in Hnd as [? _]. }
  apply filter_all, Forall_forall. by intros y Hy ->.
Qed.

Lemma wf_clear s x : wf s → wf (clear s x).
Proof. intros (Hp & Hb & Hh). split; [by apply mask_land|done]. Qed.

(** ** Delivery *)

(** The effect of the handlers of the signals [l], in order; a handler that does
    not touch the signal state is [run : handler → signal → world → world]. *)
Definition deliver {W} (run : Z → Z → W → W) (hs : list Z) (l : list Z) (w : W) : W :=
  foldl (λ w x, let h := default 0 (hs !! Z.to_nat x) in if h =? 0 then w else run h x w) w l.

(** signal_dispatch terminates: it runs the handlers of exactly the pending unblocked signals,
    lowest number first, after which no unblocked signal is pending, the blocked ones are still
    pending and the mask and handlers are unchanged. *)
Theorem signal_dispatch_delivers {W} (run : Z → Z → W → W) w s :
  wf s →
  signal_dispatch (λ h x w s, (run h x w, s)) 33 w (Some s) ⇓ λ '(w', st'), ∃ s', st' = Some s' ∧
    w' = deliver run (handlers s) (queue s) w ∧
    (∀ x, 1 ≤ x < SIG_MAX → deliverable s' x = false) ∧
    (∀ x, 1 ≤ x < SIG_MAX → Z.testbit (blocked_mask s) x = true →
       Z.testbit (pending_mask s') x = Z.testbit (pending_mask s) x) ∧
    blocked_mask s' = blocked_mask s ∧ handlers s' = handlers s.
Proof.
  intros Hwf. unfold signal_dispatch. rewrite signal_next_ok, bind_ok.
  set (I := λ (k : nat) '(x, w', st), ∃ s' l, wf s' ∧ handlers s' = handlers s ∧
    blocked_mask s' = blocked_mask s ∧ queue s' = l ∧
    (∀ x, 1 ≤ x < SIG_MAX → Z.testbit (blocked_mask s) x = true →
       Z.testbit (pending_mask s') x = Z.testbit (pending_mask s) x) ∧
    k = length l ∧
    (x, st) = match l with [] => (SIG_NONE, Some s') | y :: _ => (y, Some (clear s' y)) end ∧
    deliver run (handlers s) (queue s) w = deliver run (handlers s) l w').
  destruct (match queue s with [] => (SIG_NONE, Some s) | x :: _ => (x, Some (clear s x)) end)
    as [x0 st0] eqn:E0.
  apply (wp_loop_bound I) with (k := length (queue s)).
  - intros k [[x w'] st] (s' & l & Hwf' & Hh & Hb & Hq & Hpend & -> & Hx & Hd).
    destruct l as [|y l]; simplify_eq.
    { apply wp_ok. exists s'. split_and!; try done. intros x Hx.
      destruct (deliverable s' x) eqn:Hdx; [|done]. exfalso.
      assert (x ∈ queue s') as Hin; [|rewrite Hq in Hin; by apply not_elem_of_nil in Hin].
      apply list_elem_of_filter. split; [done|]. apply elem_of_seqZ. unfold SIG_MAX in *. lia. }
    destruct (filter_head _ _ _ _ _ Hq) as (Hy & Hdy & _). pose proof Hwf' as (_ & _ & Hlen).
    rewrite (proj2 (Z.eqb_neq y SIG_NONE)) by (unfold SIG_NONE; lia).
    destruct (zget_in (handlers s') y) as [h Hhy]; [unfold SIG_MAX in *; lia|].
    simpl handlers. rewrite (zget_ok _ _ h), bind_ok by (done || lia).
    pose proof (queue_clear s' y l Hq) as Hq'.
    assert (∀ x, 1 ≤ x < SIG_MAX → Z.testbit (blocked_mask s) x = true →
       Z.testbit (pending_mask (clear s' y)) x = Z.testbit (pending_mask s) x) as Hpend'.
    { intros x Hx Hbx. unfold SIG_MAX in *. rewrite clear_testbit by lia.
      destruct (Z.eqb_spec x y) as [->|]; [|rewrite andb_true_r; by apply Hpend].
      unfold deliverable in Hdy. rewrite Hb, Hbx, andb_false_r in Hdy. done. }
    assert (∀ w2 x1 st1, match l with [] => (SIG_NONE, Some (clear s' y))
                           | z :: _ => (z, Some (clear (clear s' y) z)) end = (x1, st1) →
      deliver run (handlers s) (queue s) w = deliver run (handlers s) l w2 →
      ∃ k', (k' < length (y :: l))%nat ∧ I k' (x1, w2, st1)) as Hnext.
    { intros w2 x1 st1 Hx1 Hd2. exists (length l). split; [simpl; lia|]. exists (clear s' y), l.
      split; [by apply wf_clear|]. by split_and!. }
    unfold deliver in Hd at 2. cbn [foldl] in Hd. rewrite <-Hh, Hhy in Hd. simpl default in Hd.
    destruct (h =? 0) eqn:Eh; rewrite signal_next_ok, bind_ok, Hq';
      lazymatch goal with |- context [let '(_, _) := ?p in _] => destruct p as [x1 st1] eqn:E1 end;
      apply wp_ok, Hnext; try done; rewrite <-Hh; exact Hd.
  - exists s, (queue s). by split_and!.
  - pose proof (length_filter (λ x, deliverable s x = true) (seqZ 1 31)) as Hl.
    unfold queue. rewrite length_seqZ in Hl. simpl in Hl. lia.
Qed.

Lemma signal_dispatch_delivers_witness :
  signal_dispatch (λ h x w s, ((h, x) :: w, s)) 33 []
    (Some {| pending_mask := 2 ^ 9 + 2 ^ 2 + 2 ^ 15; blocked_mask := 2 ^ 15; handlers := replicate 32 70 |})
    ⇓ λ '(w', st'), w' = [(70, 9); (70, 2)].
Proof.
  eapply wp_mono.
  - apply (signal_dispatch_delivers (λ h x w, (h, x) :: w) []). by vm_compute.
  - intros [w' st'] (s' & _ & -> & _). by vm_compute.
Defined.

(** ** Signals that cannot be blocked *)

Inductive sig_op :=
  | OSend (x : Z) | OBlock (x : Z) | OUnblock (x : Z) | ONext | OHandler (x h : Z).

Definition run_op (st : option signal_state_t) (o : sig_op) : outcome (option signal_state_t) :=
  match o with
  | OSend x => Ok (signal_send st x).2
  | OBlock x => Ok (signal_block st x).2
  | OUnblock x => Ok (signal_unblock st x).2
  | ONext => '(_, st) ← signal_next st; Ok st
  | OHandler x h => signal_set_handler st x h
  end.
Fixpoint run_ops (st : option signal_state_t) (os : list sig_op) : outcome (option signal_state_t) :=
  match os with [] => Ok st | o :: os => st ← run_op st o; run_ops st os end.

Definition kill_ok (s : signal_state_t) : Prop :=
  wf s ∧ Z.testbit (blocked_mask s) SIGKILL = false ∧ Z.testbit (blocked_mask s) SIGSTOP = false.

Lemma bit_mask x : 0 ≤ bit x < 2 ^ 32.
Proof. unfold bit. apply u32_range. Qed.

Lemma run_op_kill s o : kill_ok s → run_op (Some s) o ⇓ λ st, ∃ s', st = Some s' ∧ kill_ok s'.
Proof.
  intros ((Hp & Hb & Hh) & Hk & Hs). pose proof (λ x, mask_lor _ _ Hb (bit_mask x)) as Hlor.
  destruct o as [x|x|x| |x h]; cbn [run_op].
  - apply wp_ok. unfold signal_send. destruct (valid_signal x); simpl; (eexists; split; [done|]);
      (split; [|done]); split; [|done| |done]; simpl; [by apply mask_lor; [|apply bit_mask]|done].
  - apply wp_ok. unfold signal_block.
    destruct (negb (valid_signal x) || (x =? SIGKILL) || (x =? SIGSTOP)) eqn:E; simpl.
    { eexists; split; [done|]. by split. }
    apply orb_false_iff in E as [[Hv H9]%orb_false_iff H19].
    apply Z.eqb_neq in H9, H19. apply negb_false_iff, andb_true_iff in Hv as [H1 H2].
    apply Z.ltb_lt in H1, H2. unfold SIG_NONE, SIG_MAX, SIGKILL, SIGSTOP in *.
    eexists; split; [done|]. split; [split; [done|split; [apply Hlor|done]]|].
    unfold SIGKILL, SIGSTOP. simpl blocked_mask. rewrite !Z.lor_spec, Hk, Hs, !bit_testbit by lia.
    by rewrite (proj2 (Z.eqb_neq 9 x)), (proj2 (Z.eqb_neq 19 x)) by lia.
  - apply wp_ok. unfold signal_unblock. destruct (valid_signal x); cbn [snd].
    2:{ eexists; split; [done|]. by split. }
    eexists; split; [done|]. split; [split; [done|split; [by apply mask_land|done]]|].
    cbn [set_blocked blocked_mask]. by rewrite !Z.land_spec, Hk, Hs.
  - rewrite signal_next_ok, bind_ok. destruct (queue s) as [|x l]; apply wp_ok; (eexists; split; [done|]).
    + by split.
    + split; [|done]. by apply wf_clear.
  - unfold signal_set_handler. destruct (valid_signal x) eqn:Hv; [|apply wp_ok; eexists; split; [done|by split]].
    apply andb_true_iff in Hv as [H1 H2]. apply Z.ltb_lt in H1, H2. unfold SIG_NONE in *.
    apply wp_bind, wp_zset; [lia|]. apply wp_ok. eexists; split; [done|]. split; [|done].
    split; [done|]. split; [done|]. simpl. by rewrite zlen_insert.
Qed.

(** After any sequence of signal operations from the initial state, sending SIGKILL or SIGSTOP
    makes that signal deliverable: neither can be blocked. *)
Theorem sigkill_always_deliverable s0 os :
  run_ops (signal_state_init (Some s0)) os ⇓ λ st,
    ∃ s', (signal_send st SIGKILL).2 = Some s' ∧ SIGKILL ∈ queue s' ∧
    ∃ s'', (signal_send st SIGSTOP).2 = Some s'' ∧ SIGSTOP ∈ queue s''.
Proof.
  assert (∀ s, kill_ok s → run_ops (Some s) os ⇓ λ st, ∃ s', st = Some s' ∧ kill_ok s') as Hrun.
  { induction os as [|o os IH]; intros s Hs; cbn [run_ops]; [apply wp_ok; eauto|].
    apply wp_bind. eapply wp_mono; [by apply run_op_kill|]. intros st (s' & -> & Hs'). by apply IH. }
  eapply wp_mono; [apply Hrun; by vm_compute|]. intros st (s & -> & (Hwf & Hk & Hs)).
  assert (∀ x, 0 ≤ x < 32 → Z.testbit (blocked_mask s) x = false →
    deliverable (set_pending s (Z.lor (pending_mask s) (bit x))) x = true) as Hd.
  { intros x Hx Hbx. unfold deliverable. simpl. by rewrite Z.lor_spec, bit_testbit, Z.eqb_refl, orb_true_r, Hbx by lia. }
  eexists. split; [done|]. split.
  - apply list_elem_of_filter. split; [apply Hd; [unfold SIGKILL; lia|done]|].
    apply elem_of_seqZ. unfold SIGKILL. lia.
  - eexists. split; [done|]. apply list_elem_of_filter.
    split; [apply Hd; [unfold SIGSTOP; lia|done]|]. apply elem_of_seqZ. unfold SIGSTOP. lia.
Qed.

End Signal.
