(* ===== verification/Shm.v ===== *)
(** Shared memory segments (kernel/ipc/shm.c): a table of 64 named, reference
    counted heap blocks.

    A segment pointer is its index in the table.  The heap is anything that
    satisfies [Allocator]. *)
From S2P Require Import Prelude KString Heap.

Module Shm.
Import KString Heap.

Definition SHM_MAX_SEGMENTS : Z := 64.
Definition SHM_NAME_MAX : Z := 32.

Record shm_segment_t := {
  id : Z;
  name : list Z;
  base : Z;
  size : Z;
  refs : Z
}.

Record shm_t := { segments : list shm_segment_t; next_id : Z }.

Definition zero_segment : shm_segment_t :=
  {| id := 0; name := replicate (Z.to_nat SHM_NAME_MAX) 0; base := 0; size := 0; refs := 0 |}.

Definition shm_init (_ : shm_t) : shm_t :=
  {| segments := replicate (Z.to_nat SHM_MAX_SEGMENTS) zero_segment; next_id := 1 |}.

Definition set_refs (s : shm_segment_t) (r : Z) : shm_segment_t :=
  {| id := id s; name := name s; base := base s; size := size s; refs := r |}.

(** The first index whose segment satisfies [p]. *)
Definition first_segment (st : shm_t) (p : shm_segment_t → outcome bool) : outcome (option Z) :=
  r ← for_loop 0 SHM_MAX_SEGMENTS
        (λ index (_ : unit),
           s ← zget (segments st) index;
           b ← p s;
           if (b : bool) then Ok (inr index) else Ok (inl tt)) tt;
  match r with inr i => Ok (Some i) | inl _ => Ok None end.

Definition shm_find (st : shm_t) (name_ : option (list Z)) : outcome (option Z) :=
  match name_ with
  | None => Ok None
  | Some n =>
      first_segment st (λ s, if id s =? 0 then Ok false else r ← strcmp (name s) n; Ok (r =? 0))
  end.

Definition shm_find_id (st : shm_t) (id_ : Z) : outcome (option Z) :=
  first_segment st (λ s, Ok (id s =? id_)).

Section Memory.
Context {H : Type} `{AL : Allocator H}.

Definition shm_create (st : shm_t) (h : H) (name_ : option (list Z)) (size_ : Z)
  : outcome (option Z * shm_t * H) :=
  match name_ with
  | None => Ok (None, st, h)
  | Some n =>
      if size_ =? 0 then Ok (None, st, h)
      else
        existing ← shm_find st name_;
        match existing with
        | Some i =>
            s ← zget (segments st) i;
            segs ← zset (segments st) i (set_refs s (u32 (refs s + 1)));
            Ok (Some i, {| segments := segs; next_id := next_id st |}, h)
        | None =>
            slot ← first_segment st (λ s, Ok (id s =? 0));
            match slot with
            | None => Ok (None, st, h)
            | Some i =>
                '(b, h) ← al_calloc h 1 size_;
                if b =? 0 then Ok (None, st, h)
                else
                  s ← zget (segments st) i;
                  len ← strlen name_;
                  let len := if SHM_NAME_MAX <=? len then SHM_NAME_MAX - 1 else len in
                  nm ← memcpy (name s) 0 n 0 len;
                  nm ← zset nm len 0;
                  segs ← zset (segments st) i
                           {| id := next_id st; name := nm; base := b; size := size_; refs := 1 |};
                  Ok (Some i, {| segments := segs; next_id := u32 (next_id st + 1) |}, h)
            end
        end
  end.

(** [segment] is an index into the table, or NULL. *)
Definition shm_attach (st : shm_t) (segment : option Z) : outcome (Z * shm_t) :=
  match segment with
  | None => Ok (0, st)
  | Some i =>
      s ← zget (segments st) i;
      if id s =? 0 then Ok (0, st)
      else
        segs ← zset (segments st) i (set_refs s (u32 (refs s + 1)));
        Ok (base s, {| segments := segs; next_id := next_id st |})
  end.

Definition shm_detach (st : shm_t) (h : H) (segment : option Z) : outcome (shm_t * H) :=
  match segment with
  | None => Ok (st, h)
  | Some i =>
      s ← zget (segments st) i;
      if (id s =? 0) || (refs s =? 0) then Ok (st, h)
      else
        let s := set_refs s (u32 (refs s - 1)) in
        if refs s =? 0 then
          h ← al_free h (base s);
          segs ← zset (segments st) i zero_segment;
          Ok ({| segments := segs; next_id := next_id st |}, h)
        else
          segs ← zset (segments st) i s;
          Ok ({| segments := segs; next_id := next_id st |}, h)
  end.

(** ** Correctness *)

(** A segment in use, after at most [k] operations. *)
Definition live_ok (k : Z) (s : shm_segment_t) : Prop :=
  0 < id s ∧ 0 < refs s ≤ k ∧ base s ≠ 0 ∧ zlen (name s) = SHM_NAME_MAX ∧ ∃ n, is_cstr (name s) n.
Definition segment_ok (k : Z) (s : shm_segment_t) : Prop := s = zero_segment ∨ live_ok k s.

(** The blocks of the segments in use: [bl] gives their real sizes. *)
Definition owned (segs : list shm_segment_t) (bl : list (Z * Z)) : Prop :=
  Forall2 (λ s b, base s = b.1 ∧ size s ≤ b.2) (filter (λ s, id s ≠ 0) segs) bl.

Definition inv (k : Z) (st : shm_t) (h : H) (other : list (Z * Z)) : Prop :=
  zlen (segments st) = SHM_MAX_SEGMENTS ∧ Forall (segment_ok k) (segments st) ∧
  0 < next_id st ≤ k + 1 ∧ ∃ bl, owned (segments st) bl ∧ al_repr h (bl ++ other).

Lemma segment_ok_mono k k' s : k ≤ k' → segment_ok k s → segment_ok k' s.
Proof. intros Hk [->|(H1 & H2 & ?)]; [by left|right]. split; [done|]. split; [lia|done]. Qed.

Lemma inv_mono k k' st h other : k ≤ k' → inv k st h other → inv k' st h other.
Proof.
  intros Hk (H1 & H2 & H3 & H4). split; [done|]. split; [|split; [lia|done]].
  eapply Forall_impl; [done|]. intros s. by apply segment_ok_mono.
Qed.

Lemma first_segment_ok st p (P : shm_segment_t → Prop) :
  zlen (segments st) = SHM_MAX_SEGMENTS →
  (∀ i s, segments st !! i = Some s → p s ⇓ λ b, b = true ↔ P s) →
  first_segment st p ⇓ λ r,
    match r with
    | Some i => 0 ≤ i < SHM_MAX_SEGMENTS ∧ ∃ s, segments st !! Z.to_nat i = Some s ∧ P s
    | None => ∀ i s, segments st !! i = Some s → ¬ P s
    end.
Proof.
  intros Hlen Hp. unfold first_segment. apply wp_bind.
  apply (wp_for (λ i _, ∀ j s, (j < Z.to_nat i)%nat → segments st !! j = Some s → ¬ P s));
    unfold SHM_MAX_SEGMENTS in *.
  - lia.
  - intros j s Hj. lia.
  - intros i _ Hi Hno. apply wp_bind, wp_zget; [lia|]. intros s Hs.
    apply wp_bind. eapply wp_mono; [by eapply Hp|]. intros b Hb. destruct b; apply wp_ok.
    + apply wp_ok. split; [lia|]. exists s. split; [done|]. by apply Hb.
    + intros j s' Hj Hs'. destruct (decide (j = Z.to_nat i)) as [->|].
      * simplify_eq. intros HP. by apply Hb in HP.
      * apply (Hno j); [lia|done].
  - intros _ Hno. apply wp_ok. intros i s Hs. apply (Hno i); [|done].
    apply lookup_lt_Some in Hs. unfold zlen in Hlen. lia.
Qed.

(** Replacing a segment by one with the same block. *)
Lemma inv_refs k st h other i s r :
  inv k st h other → segments st !! Z.to_nat i = Some s → live_ok k s → 0 < r ≤ k + 1 →
  inv (k + 1) {| segments := <[Z.to_nat i := set_refs s r]> (segments st); next_id := next_id st |} h other.
Proof.
  intros (H1 & H2 & H3 & bl & Ho & Ha) Hs Hl Hr. split; [simpl; by rewrite zlen_insert|]. split; [|split].
  - simpl. apply Forall_insert.
    { eapply Forall_impl; [exact H2|]. intros x. apply segment_ok_mono. lia. }
    right. destruct Hl as (? & ? & ? & ? & ?). split_and!; done || (simpl; lia).
  - simpl. lia.
  - exists bl. split; [|done]. unfold owned in *. simpl.
    apply list_elem_of_split_length in Hs as (l1 & l2 & Heq & ->). rewrite Heq in *.
    rewrite insert_app_r_alt, Nat.sub_diag by done. cbn [insert list_insert].
    destruct Hl as (Hid & _). rewrite filter_app, filter_cons_True in * by (simpl; lia).
    apply Forall2_app_inv_l in Ho as (b1 & b2 & Ho1 & Ho2 & ->). apply Forall2_app; [done|].
    apply Forall2_cons_inv_l in Ho2 as (b & b3 & Hb & Ho3 & ->). by constructor.
Qed.

Lemma detach_last k st h other i s :
  inv k st h other → segments st !! Z.to_nat i = Some s → live_ok k s →
  al_free h (base s) ⇓ λ h',
    inv k {| segments := <[Z.to_nat i := zero_segment]> (segments st); next_id := next_id st |} h' other.
Proof.
  intros (H1 & H2 & H3 & bl & Ho & Ha) Hs Hl. pose proof Hl as (Hid & _).
  apply list_elem_of_split_length in Hs as (l1 & l2 & Heq & ->). unfold owned in Ho. rewrite Heq in *.
  rewrite filter_app, filter_cons, decide_True in Ho by lia.
  apply Forall2_app_inv_l in Ho as (b1 & b2 & Ho1 & Ho2 & ->).
  apply Forall2_cons_inv_l in Ho2 as ([p sz] & b3 & [Hb Hsz] & Ho3 & ->). simpl in Hb. rewrite Hb.
  eapply wp_mono.
  { apply (al_free_spec h ((b1 ++ b3) ++ other) p sz). eapply al_repr_perm; [|exact Ha].
    by rewrite <-(Permutation_middle b1 b3). }
  intros h' Ha'. rewrite insert_app_r_alt, Nat.sub_diag by done. cbn [insert list_insert].
  split; [|split; [|split; [done|]]]; simpl.
  - unfold zlen in *. rewrite length_app in *. done.
  - apply Forall_app in H2 as [H2 H2']. apply Forall_cons in H2' as [_ H2'].
    apply Forall_app. split; [done|]. constructor; [by left|done].
  - exists (b1 ++ b3). split; [|done]. unfold owned. rewrite filter_app, filter_cons_False by (simpl; lia).
    by apply Forall2_app.
Qed.

Lemma shm_find_ok k st h other buf n :
  inv k st h other → is_cstr buf n →
  shm_find st (Some buf) ⇓ λ r,
    match r with
    | Some i => 0 ≤ i < SHM_MAX_SEGMENTS ∧
                ∃ s, segments st !! Z.to_nat i = Some s ∧ live_ok k s ∧ is_cstr (name s) n
    | None => ∀ i s, segments st !! i = Some s → id s ≠ 0 → ¬ is_cstr (name s) n
    end.
Proof.
  intros (H1 & H2 & _) Hn. eapply wp_mono.
  { apply (first_segment_ok st _ (λ s, live_ok k s ∧ is_cstr (name s) n)); [done|].
    intros i s Hs. destruct (Forall_lookup_1 _ _ _ _ H2 Hs) as [->|Hl].
    - apply wp_ok. split; [done|]. intros [(Hid & _) _]. simpl in Hid. lia.
    - pose proof Hl as (Hid & _ & _ & _ & n' & Hn'). rewrite (proj2 (Z.eqb_neq _ _)) by lia.
      apply wp_bind. eapply wp_mono; [by apply (strcmp_ok (name s) n' buf n)|].
      intros r Hr. apply wp_ok. rewrite Z.eqb_eq, Hr. split.
      + intros <-. done.
      + intros [_ Hn2]. by eapply is_cstr_unique. }
  intros [i|]; [naive_solver|]. intros Hno i s Hs Hid Hns.
  apply (Hno i s Hs). split; [|done]. destruct (Forall_lookup_1 _ _ _ _ H2 Hs) as [->|]; done.
Qed.

(** The name stored by [shm_create], cut to 31 bytes. *)
Definition stored (n : list Z) : list Z := take (Z.to_nat (SHM_NAME_MAX - 1)) n.

Lemma store_name old buf n :
  zlen old = SHM_NAME_MAX → is_cstr buf n → zlen n < 2 ^ 63 →
  (len ← strlen (Some buf);
   let len := if SHM_NAME_MAX <=? len then SHM_NAME_MAX - 1 else len in
   nm ← memcpy old 0 buf 0 len; zset nm len 0) ⇓ λ nm,
    zlen nm = SHM_NAME_MAX ∧ is_cstr nm (stored n).
Proof.
  intros Hold Hn Hmax. rewrite (strlen_ok buf n), bind_ok by done.
  set (len := if SHM_NAME_MAX <=? zlen n then SHM_NAME_MAX - 1 else zlen n).
  assert (0 ≤ len < SHM_NAME_MAX ∧ len ≤ zlen n ∧ stored n = take (Z.to_nat len) n) as (Hlen & Hln & Hst).
  { unfold len, stored, SHM_NAME_MAX, zlen in *. destruct (Z.leb_spec 32 (Z.of_nat (length n))).
    - split_and!; try lia. done.
    - split_and!; try lia. rewrite !take_ge by lia. done. }
  cbv zeta. pose proof (is_cstr_length _ _ Hn) as Hbl. destruct Hn as [Hb [rest Hbuf]].
  assert (zlen n < zlen buf) as Hzl by (unfold zlen; lia).
  assert (slice buf 0 len = take (Z.to_nat len) n) as Hsl.
  { unfold slice. rewrite drop_0, Hbuf. rewrite take_app_le; [done|unfold zlen in *; lia]. }
  rewrite memcpy_ok, bind_ok by lia. rewrite Hsl.
  assert (length (take (Z.to_nat len) n) = Z.to_nat len) as Htl by (rewrite length_take; unfold zlen in *; lia).
  assert (zlen (splice old 0 (take (Z.to_nat len) n)) = SHM_NAME_MAX) as Hspl.
  { rewrite <-Hold. unfold zlen. rewrite length_splice; [done|lia|unfold zlen in *; lia]. }
  apply wp_zset; [lia|]. split; [by rewrite zlen_insert|].
  rewrite (splice_snoc old (take (Z.to_nat len) n) len 0) by (unfold zlen in *; lia).
  split; [rewrite Hst; by apply Forall_take|]. unfold splice. simpl. rewrite Hst, <-app_assoc. simpl.
  eauto.
Qed.

Lemma create_new k st h' other i s0 nm b sz sz' bl :
  zlen (segments st) = SHM_MAX_SEGMENTS → Forall (segment_ok k) (segments st) →
  0 < next_id st ≤ k + 1 → owned (segments st) bl → al_repr h' ((b, sz') :: bl ++ other) →
  k < 2 ^ 32 - 2 → segments st !! Z.to_nat i = Some s0 → id s0 = 0 →
  zlen nm = SHM_NAME_MAX → (∃ n, is_cstr nm n) → 0 < b → sz ≤ sz' →
  inv (k + 1)
    {| segments := <[Z.to_nat i := {| id := next_id st; name := nm; base := b; size := sz; refs := 1 |}]>
                     (segments st);
       next_id := u32 (next_id st + 1) |} h' other.
Proof.
  intros H1 H2 H3 Ho Ha Hk Hs Hid Hnm Hn Hb Hsz. split; [simpl; by rewrite zlen_insert|].
  split; [|split].
  - simpl. apply Forall_insert; [|right; split_and!; done || (simpl; lia)].
    eapply Forall_impl; [exact H2|]. intros x. apply segment_ok_mono. lia.
  - simpl. rewrite u32_small by lia. lia.
  - apply list_elem_of_split_length in Hs as (l1 & l2 & Heq & ->). unfold owned in Ho. rewrite Heq in *.
    rewrite filter_app, filter_cons, decide_False in Ho by lia.
    apply Forall2_app_inv_l in Ho as (b1 & b2 & Ho1 & Ho2 & ->).
    exists (b1 ++ (b, sz') :: b2). simpl. rewrite insert_app_r_alt, Nat.sub_diag by done.
    cbn [insert list_insert]. split.
    + unfold owned. rewrite filter_app, filter_cons_True by (simpl; lia). apply Forall2_app; [done|].
      by constructor.
    + eapply al_repr_perm; [|exact Ha]. by rewrite <-(Permutation_middle b1 b2).
Qed.

Lemma shm_create_ok k st h other buf n size_ :
  inv k st h other → 0 < k < 2 ^ 32 - 2 → is_cstr buf n → zlen n < 2 ^ 63 → 0 < size_ ≤ 2 ^ 32 - 16 →
  shm_create st h (Some buf) size_ ⇓ λ '(r, st', h'), inv (k + 1) st' h' other ∧
    match r with
    | Some i => ∃ s, segments st' !! Z.to_nat i = Some s ∧ id s ≠ 0 ∧
                  (is_cstr (name s) n ∨ (refs s = 1 ∧ size s = size_ ∧ is_cstr (name s) (stored n)))
    | None => True
    end.
Proof.
  intros Hinv Hk Hn Hnl Hsize. pose proof Hinv as (H1 & H2 & H3 & bl & Ho & Ha). unfold shm_create.
  rewrite (proj2 (Z.eqb_neq size_ 0)) by lia. apply wp_bind.
  eapply wp_mono; [by apply (shm_find_ok k st h other buf n)|]. intros [i|] Hfind.
  - destruct Hfind as (Hi & s & Hs & Hl & Hsn). rewrite (zget_ok _ _ s), bind_ok by (done || lia).
    rewrite zset_ok, bind_ok by lia. apply wp_ok. pose proof Hl as (Hid & Hr & _).
    rewrite u32_small by lia. split; [apply (inv_refs k st h other i s (refs s + 1)); done || lia|].
    exists (set_refs s (refs s + 1)). simpl. split; [apply list_lookup_insert_eq; unfold zlen in *; lia|].
    split; [lia|by left].
  - apply wp_bind. eapply wp_mono.
    { apply (first_segment_ok st _ (λ s, id s = 0)); [done|]. intros i s _. apply wp_ok. apply Z.eqb_eq. }
    intros [i|] Hslot; [|apply wp_ok; split; [by eapply inv_mono; [|exact Hinv]; lia|done]].
    destruct Hslot as (Hi & s0 & Hs0 & Hid0).
    assert (s0 = zero_segment) as ->.
    { destruct (Forall_lookup_1 _ _ _ _ H2 Hs0) as [?|(? & _)]; [done|lia]. }
    apply wp_bind. eapply wp_mono; [apply (al_calloc_spec h (bl ++ other) 1 size_ Ha); lia|].
    intros [b h'] [(-> & Ha')|(sz' & Hb & Hsz & _ & _ & Ha')].
    { apply wp_ok. split; [|done]. split; [done|]. split; [|split; [lia|by exists bl]].
      eapply Forall_impl; [exact H2|]. intros x. apply segment_ok_mono. lia. }
    rewrite (proj2 (Z.eqb_neq b 0)) by lia. rewrite (zget_ok _ _ zero_segment), bind_ok by (done || lia).
    destruct (store_name (name zero_segment) buf n) as (nm & Hst & Hnm & Hcn); [done..|].
    apply bind_inv in Hst as (len & -> & Hst). rewrite bind_ok.
    apply bind_inv in Hst as (nm1 & Hcp & Hst). cbv zeta. rewrite Hcp, bind_ok, Hst, bind_ok.
    rewrite zset_ok, bind_ok by lia. apply wp_ok. split.
    + eapply create_new; try done; try lia. eauto.
    + eexists. simpl. split; [apply list_lookup_insert_eq; unfold zlen in *; lia|]. simpl. split; [lia|].
      right. by split_and!.
Qed.

Lemma shm_attach_ok k st h other i :
  inv k st h other → 0 < k < 2 ^ 32 - 2 → 0 ≤ i < SHM_MAX_SEGMENTS →
  shm_attach st (Some i) ⇓ λ '(_, st'), inv (k + 1) st' h other.
Proof.
  intros Hinv Hk Hi. pose proof Hinv as (H1 & H2 & _). unfold shm_attach.
  apply wp_bind, wp_zget; [lia|]. intros s Hs.
  destruct (Forall_lookup_1 _ _ _ _ H2 Hs) as [->|Hl].
  { apply wp_ok. eapply inv_mono; [|exact Hinv]. lia. }
  pose proof Hl as (Hid & Hr & _). rewrite (proj2 (Z.eqb_neq _ _)) by lia.
  rewrite zset_ok, bind_ok by lia. apply wp_ok. rewrite u32_small by lia.
  apply (inv_refs k st h other i s (refs s + 1)); done || lia.
Qed.

Lemma shm_detach_ok k st h other i :
  inv k st h other → 0 < k < 2 ^ 32 - 2 → 0 ≤ i < SHM_MAX_SEGMENTS →
  shm_detach st h (Some i) ⇓ λ '(st', h'), inv (k + 1) st' h' other.
Proof.
  intros Hinv Hk Hi. pose proof Hinv as (H1 & H2 & _). unfold shm_detach.
  apply wp_bind, wp_zget; [lia|]. intros s Hs.
  destruct (Forall_lookup_1 _ _ _ _ H2 Hs) as [->|Hl].
  { apply wp_ok. eapply inv_mono; [|exact Hinv]. lia. }
  pose proof Hl as (Hid & Hr & _). rewrite !(proj2 (Z.eqb_neq _ _)) by lia. cbn [orb].
  rewrite u32_small by lia. simpl refs. simpl base. destruct (Z.eqb_spec (refs s - 1) 0).
  - apply wp_bind. eapply wp_mono; [by apply (detach_last k st h other i s)|]. intros h' Hinv'.
    rewrite zset_ok, bind_ok by lia. apply wp_ok. eapply inv_mono; [|exact Hinv']. lia.
  - rewrite zset_ok, bind_ok by lia. apply wp_ok.
    apply (inv_refs k st h other i s (refs s - 1)); done || lia.
Qed.

(** ** Clients *)

Inductive shm_op := Create (name_ : list Z) (size_ : Z) | Attach (i : Z) | Detach (i : Z).

Definition run_op (st : shm_t) (h : H) (o : shm_op) : outcome (shm_t * H) :=
  match o with
  | Create n sz => '(_, st, h) ← shm_create st h (Some (cstr n)) sz; Ok (st, h)
  | Attach i => '(_, st) ← shm_attach st (Some i); Ok (st, h)
  | Detach i => shm_detach st h (Some i)
  end.
Fixpoint run_ops (st : shm_t) (h : H) (os : list shm_op) : outcome (shm_t * H) :=
  match os with [] => Ok (st, h) | o :: os => '(st, h) ← run_op st h o; run_ops st h os end.

Definition op_ok (o : shm_op) : Prop :=
  match o with
  | Create n sz => Forall (λ c, 0 < c < 256) n ∧ zlen n < 2 ^ 63 ∧ 0 < sz ≤ 2 ^ 32 - 16
  | Attach i | Detach i => 0 ≤ i < SHM_MAX_SEGMENTS
  end.

Lemma run_ops_inv k st h other os :
  inv k st h other → 0 < k → k + zlen os < 2 ^ 32 - 2 → Forall op_ok os →
  run_ops st h os ⇓ λ '(st', h'), inv (k + zlen os) st' h' other.
Proof.
  intros Hinv Hk Hmax Hos. revert k st h Hinv Hk Hmax. unfold zlen.
  induction Hos as [|o os Ho _ IH]; intros k st h Hinv Hk Hmax; cbn [run_ops length].
  { apply wp_ok. by rewrite Z.add_0_r. }
  simpl length in Hmax. apply wp_bind.
  assert (run_op st h o ⇓ λ '(st', h'), inv (k + 1) st' h' other) as (x & -> & Hx).
  { destruct o as [n sz|i|i]; simpl in Ho; cbn [run_op].
    - destruct Ho as (Hn & Hnl & Hsz). apply wp_bind.
      eapply wp_mono; [apply (shm_create_ok k st h other (cstr n) n sz); try done; [lia|by apply is_cstr_cstr]|].
      intros [[r st'] h'] [? _]. by apply wp_ok.
    - apply wp_bind. eapply wp_mono; [apply (shm_attach_ok k st h other i); done || lia|].
      intros [r st'] ?. by apply wp_ok.
    - apply shm_detach_ok; done || lia. }
  destruct x as [st' h']. apply wp_ok. eapply wp_mono; [apply (IH (k + 1)); done || lia|].
  intros [st2 h2] H2. by replace (k + Z.of_nat (S (length os))) with (k + 1 + Z.of_nat (length os)) by lia.
Qed.

(** Over any sequence of shm_create, shm_attach and shm_detach calls each live segment owns its
    own heap block of its size, and once no segment is live every block has been given back. *)
Theorem shm_segments_own_blocks st0 h other os :
  al_repr h other → zlen os < 2 ^ 32 - 4 → Forall op_ok os →
  run_ops (shm_init st0) h os ⇓ λ '(st, h'), ∃ bl,
    owned (segments st) bl ∧ al_repr h' (bl ++ other) ∧
    ((∀ i s, segments st !! i = Some s → id s = 0) → al_repr h' other).
Proof.
  intros Ha Hmax Hos. eapply wp_mono; [apply (run_ops_inv 1 _ h other); try done; [|lia]|].
  - split; [done|]. split; [apply Forall_replicate; by left|]. split; [simpl; lia|].
    exists []. split; [|done]. by vm_compute.
  - intros [st h'] (_ & _ & _ & bl & Ho & Ha'). exists bl. split; [done|]. split; [done|].
    intros Hfree. assert (filter (λ s, id s ≠ 0) (segments st) = []) as Hnil.
    { destruct (filter _ _) as [|s l] eqn:Hf; [done|].
      assert (s ∈ filter (λ s, id s ≠ 0) (segments st)) as Hin by (rewrite Hf; left).
      apply list_elem_of_filter in Hin as [Hid [i Hi]%list_elem_of_lookup]. by apply Hfree in Hi. }
    unfold owned in Ho. rewrite Hnil in Ho. apply Forall2_nil_inv_l in Ho as ->. done.
Qed.

End Memory.

(** "a", created twice and detached twice. *)
Lemma shm_segments_own_blocks_witness :
  run_ops (shm_init {| segments := []; next_id := 0 |}) (heap_init empty_heap 4096 1024)
    [Create [97] 64; Create [97] 64; Detach 0; Detach 0] ⇓ λ '(st, h'), ∃ bl,
    owned (segments st) bl ∧ al_repr h' (bl ++ []).
Proof.
  eapply wp_mono.
  - apply (shm_segments_own_blocks {| segments := []; next_id := 0 |} (heap_init empty_heap 4096 1024) []).
    + exists [(992, true)]. split; [|done].
      apply (heap_init_repr empty_heap 4096 1024); unfold HDR; try lia; done.
    + by vm_compute.
    + repeat constructor; done || (vm_compute; done).
  - intros [st h'] (bl & ? & ? & _). by exists bl.
Defined.

(** A segment whose name has 32 bytes or more is stored under a shortened name that shm_find
    does not match, so a second shm_create makes a second segment. *)
Theorem shm_long_name_not_found :
  let n := replicate 32 97 in
  ('(r1, st, h) ← shm_create (shm_init {| segments := []; next_id := 0 |})
                    (heap_init empty_heap 4096 1024) (Some (cstr n)) 16;
   found ← shm_find st (Some (cstr n));
   '(r2, st, h) ← shm_create st h (Some (cstr n)) 16;
   Ok (r1, found, r2)) = Ok (Some 0, None, Some 1).
Proof. by vm_compute. Qed.

End Shm.
