(* ===== verification/Checksum.v ===== *)
(** The Internet checksum (kernel/net/checksum.c) and the byte-order functions
    of kernel/net/ethernet.c.

    [const uint8_t *bytes] moves forward, so it is the list of bytes from the
    pointer to the end of its object. *)
From S2P Require Import Prelude.

Module Checksum.

(** [((uint16_t)bytes[0] << 8) | bytes[1]] *)
Definition word (b0 b1 : Z) : Z := Z.lor (Z.shiftl b0 8) b1.

(** The two loops over the data: words of two bytes, then a last odd byte. *)
Fixpoint sum_bytes (bytes : list Z) (length sum : Z) : outcome Z :=
  if length <=? 0 then Ok sum
  else
    match bytes with
    | [] => Undef
    | b0 :: rest =>
        if length =? 1 then Ok (u32 (sum + Z.shiftl b0 8))
        else
          match rest with
          | [] => Undef
          | b1 :: rest => sum_bytes rest (length - 2) (u32 (sum + word b0 b1))
          end
    end.

(** [while (sum >> 16) sum = (sum & 0xFFFF) + (sum >> 16);] *)
Definition fold_carry (sum : Z) : outcome Z :=
  loop 4 (λ sum, if Z.shiftr sum 16 =? 0 then Ok (inr sum)
                 else Ok (inl (u32 (Z.land sum 65535 + Z.shiftr sum 16)))) sum.

(** [(uint16_t)~sum] *)
Definition finish (sum : Z) : outcome Z := s ← fold_carry sum; Ok (u16 (Z.lnot s)).

Definition net_checksum (data : list Z) (length : Z) : outcome Z :=
  s ← sum_bytes data length 0; finish s.

Definition net_checksum_pseudo_ipv4 (src dst proto : Z) (data : list Z) (length : Z) : outcome Z :=
  let sum := u32 (0 + Z.land (Z.shiftr src 16) 65535) in
  let sum := u32 (sum + Z.land src 65535) in
  let sum := u32 (sum + Z.land (Z.shiftr dst 16) 65535) in
  let sum := u32 (sum + Z.land dst 65535) in
  let sum := u32 (sum + proto) in
  let sum := u32 (sum + u16 length) in
  s ← sum_bytes data length sum; finish s.

(** Byte order. *)
Definition net_htons (value : Z) : Z := u16 (Z.lor (Z.shiftl value 8) (Z.shiftr value 8)).

Definition net_htonl (value : Z) : Z :=
  Z.lor (Z.lor (Z.lor (u32 (Z.shiftl (Z.land value 255) 24))
                      (u32 (Z.shiftl (Z.land value 65280) 8)))
               (Z.shiftr (Z.land value 16711680) 8))
        (Z.shiftr (Z.land value 4278190080) 24).

(** ** The sum as a number *)

Definition bytes_ok (bs : list Z) : Prop := Forall (λ b, 0 ≤ b < 256) bs.

Fixpoint words_sum (bs : list Z) : Z :=
  match bs with
  | b0 :: (b1 :: bs) => b0 * 256 + b1 + words_sum bs
  | [b0] => b0 * 256
  | [] => 0
  end.

(** Induction over a byte list two elements at a time. *)
Lemma pairs_ind (P : list Z → Prop) :
  P [] → (∀ b, P [b]) → (∀ b0 b1 bs, P bs → P (b0 :: b1 :: bs)) → ∀ bs, P bs.
Proof.
  intros H0 H1 H2 bs. cut (P bs ∧ ∀ b, P (b :: bs)); [by intros []|].
  induction bs as [|b bs [IH1 IH2]]; [auto|]. split; [apply IH2|]. intros b'. by apply H2.
Qed.

Lemma word_eq b0 b1 : 0 ≤ b1 < 256 → word b0 b1 = b0 * 256 + b1.
Proof.
  intros Hb. unfold word. rewrite Z.shiftl_mul_pow2 by lia.
  assert (Z.land (b0 * 2 ^ 8) b1 = 0) as Hz; [|by rewrite <-Z.lxor_lor, <-Z.add_nocarry_lxor].
  apply Z.bits_inj'; intros j Hj. rewrite Z.land_spec, Z.bits_0, Z.mul_pow2_bits by lia.
  destruct (decide (j < 8)); [by rewrite Z.testbit_neg_r by lia|].
  rewrite <-(Z.mod_small b1 (2 ^ 8)) by lia. by rewrite Z.mod_pow2_bits_high, andb_false_r by lia.
Qed.

Lemma words_sum_range bs : bytes_ok bs → 0 ≤ words_sum bs ≤ 65535 * (zlen bs + 1) / 2.
Proof.
  unfold zlen. induction bs as [|b|b0 b1 bs IH] using pairs_ind; intros Hb; simpl words_sum.
  - simpl. split; [lia|]. by vm_compute.
  - apply Forall_cons in Hb as [Hb _]. simpl length. change (65535 * (Z.of_nat 1 + 1) / 2) with 65535. lia.
  - apply Forall_cons in Hb as [Hb0 Hb]. apply Forall_cons in Hb as [Hb1 Hb]. specialize (IH Hb).
    simpl length. replace (65535 * (Z.of_nat (S (S (length bs))) + 1)) with
      (65535 * (Z.of_nat (length bs) + 1) + 65535 * 2) by lia.
    rewrite Z.div_add by lia. lia.
Qed.

(** As long as the sum fits in 32 bits the loops compute it exactly. *)
Lemma sum_bytes_ok bs rest sum :
  bytes_ok bs → 0 ≤ sum → sum + words_sum bs < 2 ^ 32 →
  sum_bytes (bs ++ rest) (zlen bs) sum = Ok (sum + words_sum bs).
Proof.
  unfold zlen. revert sum. induction bs as [|b|b0 b1 bs IH] using pairs_ind; intros sum Hb Hs Hmax;
    simpl words_sum in *.
  - rewrite Z.add_0_r. by destruct rest.
  - apply Forall_cons in Hb as [Hb _]. cbn [app sum_bytes length]. change (Z.of_nat 1 <=? 0) with false.
    change (Z.of_nat 1 =? 1) with true. cbv iota. rewrite Z.shiftl_mul_pow2 by lia.
    change (2 ^ 8) with 256. by rewrite u32_small by lia.
  - apply Forall_cons in Hb as [Hb0 Hb]. apply Forall_cons in Hb as [Hb1 Hb].
    assert (0 ≤ words_sum bs) by (by apply words_sum_range). simpl app. cbn [sum_bytes length].
    rewrite (proj2 (Z.leb_gt _ _)), (proj2 (Z.eqb_neq _ 1)) by lia.
    rewrite word_eq, u32_small by lia.
    replace (Z.of_nat (S (S (length bs))) - 2) with (Z.of_nat (length bs)) by lia.
    rewrite IH by (done || lia). f_equal. lia.
Qed.

Lemma shiftr16 s : 0 ≤ s → Z.shiftr s 16 = s / 65536.
Proof. intros. by rewrite Z.shiftr_div_pow2. Qed.
Lemma land16 s : Z.land s 65535 = s mod 65536.
Proof. change 65535 with (Z.ones 16). by rewrite Z.land_ones. Qed.

(** Folding gives the sum modulo 65535, as a number from 1 to 65535 unless it is 0. *)
Definition ones_sum (s : Z) : Z := if s =? 0 then 0 else (s - 1) mod 65535 + 1.

Lemma fold_carry_ok sum : 0 ≤ sum < 2 ^ 32 → fold_carry sum = Ok (ones_sum sum).
Proof.
  intros Hs. assert (fold_carry sum ⇓ λ s, s = ones_sum sum) as (s & -> & ->); [|done].
  apply (wp_loop_bound (λ k s, 0 ≤ s ∧ ones_sum s = ones_sum sum ∧
    (s < 2 ^ 32 ∧ k = 3%nat ∨ s ≤ 131070 ∧ k = 2%nat ∨ s ≤ 65535 ∧ k = 1%nat))) with (k := 3%nat).
  - intros k s (H0 & Heq & Hk). rewrite shiftr16, land16 by lia.
    destruct (Z.eqb_spec (s / 65536) 0) as [Hz|Hnz]; apply wp_ok.
    + rewrite <-Heq. unfold ones_sum. assert (s < 65536) by zlia.
      destruct (Z.eqb_spec s 0); [done|]. rewrite Z.mod_small by lia. lia.
    + pose proof (Z.div_mod s 65536 ltac:(lia)). pose proof (Z.mod_pos_bound s 65536 ltac:(lia)).
      assert (0 < s / 65536) by (pose proof (Z.div_pos s 65536); lia).
      assert (s / 65536 < 65536) by zlia.
      rewrite u32_small by lia.
      assert (ones_sum (s mod 65536 + s / 65536) = ones_sum sum) as Hsum.
      { rewrite <-Heq. unfold ones_sum. rewrite !(proj2 (Z.eqb_neq _ 0)) by lia. f_equal.
        replace (s - 1) with (s mod 65536 + s / 65536 - 1 + (s / 65536) * 65535) by lia.
        by rewrite Z.mod_add by lia. }
      destruct Hk as [[? ->]|[[? ->]|[? ->]]].
      * exists 2%nat. split; [lia|]. split; [lia|]. split; [done|]. right. left. lia.
      * exists 1%nat. split; [lia|]. split; [lia|]. split; [done|]. right. right.
        assert (s / 65536 = 1) by zlia. split; [zlia|done].
      * exfalso. zlia.
  - split; [lia|]. split; [done|]. left. lia.
  - lia.
Qed.

Lemma finish_ok sum : 0 ≤ sum < 2 ^ 32 → finish sum = Ok (65535 - ones_sum sum).
Proof.
  intros Hs. unfold finish. rewrite fold_carry_ok, bind_ok by done. f_equal.
  assert (0 ≤ ones_sum sum ≤ 65535) as Hr.
  { unfold ones_sum. destruct (sum =? 0); [lia|]. pose proof (Z.mod_pos_bound (sum - 1) 65535). lia. }
  unfold u16. replace (Z.lnot (ones_sum sum)) with (65535 - ones_sum sum + (-1) * 65536) by (unfold Z.lnot; lia).
  change (2 ^ 16) with 65536. by rewrite Z.mod_add, Z.mod_small by lia.
Qed.

Lemma net_checksum_ok bs :
  bytes_ok bs → words_sum bs < 2 ^ 32 → net_checksum bs (zlen bs) = Ok (65535 - ones_sum (words_sum bs)).
Proof.
  intros Hb Hmax. unfold net_checksum. rewrite <-(app_nil_r bs) at 1. rewrite sum_bytes_ok by done.
  rewrite bind_ok, Z.add_0_l. apply finish_ok. split; [by apply words_sum_range|done].
Qed.

Lemma words_sum_app l1 l2 : Z.Even (zlen l1) → words_sum (l1 ++ l2) = words_sum l1 + words_sum l2.
Proof.
  unfold zlen. induction l1 as [|b|b0 b1 bs IH] using pairs_ind; intros He; simpl words_sum.
  - done.
  - destruct He as [k Hk]. simpl in Hk. lia.
  - rewrite IH; [lia|]. destruct He as [k Hk]. simpl in Hk. exists (k - 1). lia.
Qed.

(** Adding the complement of a sum gives all ones. *)
Lemma ones_sum_complement s : 0 ≤ s → ones_sum (s + (65535 - ones_sum s)) = 65535.
Proof.
  intros Hs. unfold ones_sum. destruct (Z.eqb_spec s 0) as [->|Hne]; [done|].
  pose proof (Z.mod_pos_bound (s - 1) 65535 ltac:(lia)). pose proof (Z.div_mod (s - 1) 65535 ltac:(lia)).
  rewrite (proj2 (Z.eqb_neq _ 0)) by lia.
  replace (s + (65535 - ((s - 1) mod 65535 + 1)) - 1) with (65534 + ((s - 1) / 65535) * 65535) by lia.
  rewrite Z.mod_add by lia. done.
Qed.

(** A packet in whose zeroed 16-bit field the value of net_checksum is stored in network order
    has checksum 0, for every field position on an even offset. *)
Theorem net_checksum_verifies pre post c :
  bytes_ok pre → bytes_ok post → Z.Even (zlen pre) → zlen pre + zlen post < 131000 →
  net_checksum (pre ++ [0; 0] ++ post) (zlen (pre ++ [0; 0] ++ post)) = Ok c →
  0 ≤ c < 65536 ∧
  net_checksum (pre ++ [c / 256; c mod 256] ++ post) (zlen (pre ++ [0; 0] ++ post)) = Ok 0.
Proof.
  intros Hpre Hpost He Hlen Hc.
  assert (∀ hi lo, 0 ≤ hi < 256 → 0 ≤ lo < 256 → bytes_ok (pre ++ [hi; lo] ++ post) ∧
    words_sum (pre ++ [hi; lo] ++ post) = words_sum pre + (hi * 256 + lo) + words_sum post) as Hsum.
  { intros hi lo Hhi Hlo. split; [|rewrite words_sum_app by done; simpl; lia].
    apply Forall_app. split; [done|]. by do 2 (apply Forall_cons; split; [done|]). }
  assert (words_sum pre + words_sum post < 2 ^ 32 - 65536) as Hsmall.
  { pose proof (words_sum_range pre Hpre). pose proof (words_sum_range post Hpost).
    unfold zlen in *. zlia. }
  assert (0 ≤ words_sum pre + words_sum post) as Hnn.
  { pose proof (words_sum_range pre Hpre). pose proof (words_sum_range post Hpost). lia. }
  destruct (Hsum 0 0 ltac:(lia) ltac:(lia)) as [Hb0 Hs0].
  set (s := words_sum pre + words_sum post) in *.
  replace (words_sum pre + (0 * 256 + 0) + words_sum post) with s in Hs0 by lia.
  rewrite net_checksum_ok, Hs0 in Hc by (done || lia). assert (c = 65535 - ones_sum s) as Hcs by congruence.
  assert (0 ≤ c < 65536) as Hcr.
  { rewrite Hcs. unfold ones_sum. destruct (s =? 0); [lia|]. pose proof (Z.mod_pos_bound (s - 1) 65535). lia. }
  split; [done|]. destruct (Hsum (c / 256) (c mod 256)) as [Hb1 Hs1]; [zlia|zlia|].
  assert (zlen (pre ++ [0; 0] ++ post) = zlen (pre ++ [c / 256; c mod 256] ++ post)) as ->
    by (unfold zlen; rewrite !length_app; done).
  assert (words_sum pre + (c / 256 * 256 + c mod 256) + words_sum post = s + c) as Heq by zlia.
  rewrite net_checksum_ok by (done || lia). rewrite Hs1, Heq, Hcs. by rewrite ones_sum_complement.
Qed.

(** An IPv4 header with its checksum field at offset 10. *)
Lemma net_checksum_verifies_witness :
  net_checksum ([69; 0; 0; 20; 0; 1; 0; 0; 64; 17] ++ [246; 212] ++ [192; 0; 2; 1; 192; 0; 2; 2]) 20 = Ok 0.
Proof.
  apply (net_checksum_verifies [69; 0; 0; 20; 0; 1; 0; 0; 64; 17] [192; 0; 2; 1; 192; 0; 2; 2] 63188).
  - repeat constructor; lia.
  - repeat constructor; lia.
  - by exists 5.
  - by vm_compute.
  - by vm_compute.
Defined.

End Checksum.
