(* ===== verification/Net.v ===== *)
(** The network stack: devices (kernel/net/netdev.c), Ethernet (ethernet.c), ARP
    (arp.c), IPv4 (ipv4.c), ICMP echo (icmp.c), UDP (udp.c), DHCP discovery
    (dhcp.c) and the TCP stub (tcp.c).

    A packet is a list of bytes; a [uint16_t] or [uint32_t] member of a packed
    header is stored least significant byte first, as on x86_64.  A device
    pointer is a key of [devs] (0 is NULL).  The device drivers and the bound UDP
    handlers are code reached through function pointers: [dev_send], [dev_poll]
    and [udp_call] say what calling such a pointer does to the rest of the
    system, [world].  The heap is anything that satisfies [Allocator]. *)
From S2P Require Import Prelude KString Heap Checksum.

Module Net.
Import KString Heap Checksum.

(** ** Data *)

Definition le16 (v : Z) : list Z := [u8 v; u8 (Z.shiftr v 8)].
Definition le32 (v : Z) : list Z := [u8 v; u8 (Z.shiftr v 8); u8 (Z.shiftr v 16); u8 (Z.shiftr v 24)].

(** Reading a member of a header at a byte offset. *)
Definition rd8 (p : list Z) (off : Z) : outcome Z := zget p off.
Definition rd16 (p : list Z) (off : Z) : outcome Z :=
  a ← zget p off; b ← zget p (off + 1); Ok (a + 256 * b).
Definition rd32 (p : list Z) (off : Z) : outcome Z :=
  a ← rd16 p off; b ← rd16 p (off + 2); Ok (a + 65536 * b).

Record netdev_t := {
  name : list Z;
  mac : list Z;
  ipv4_addr : Z;
  ipv4_gateway : Z;
  ipv4_netmask : Z;
  send : Z;
  poll : Z;
  driver_data : Z
}.

Record arp_entry_t := { ipv4 : Z; hw : list Z; valid : bool }.
Record udp_binding_t := { port : Z; handler : Z }.

Definition NETDEV_MAX : Z := 8.
Definition ARP_TABLE_SIZE : Z := 32.
Definition UDP_MAX_PORTS : Z := 16.
Definition ETHERTYPE_IPV4 : Z := 2048.
Definition ETHERTYPE_ARP : Z := 2054.
Definition IPV4_PROTO_ICMP : Z := 1.
Definition IPV4_PROTO_TCP : Z := 6.
Definition IPV4_PROTO_UDP : Z := 17.

(** Sizes of the packed headers. *)
Definition ETH_HDR : Z := 14.
Definition ARP_LEN : Z := 28.
Definition IP_HDR : Z := 20.
Definition ICMP_HDR : Z := 8.
Definition UDP_HDR : Z := 8.
Definition TCP_HDR : Z := 20.

Lemma u8_shift_join v : 0 ≤ v < 65536 → u8 v + 256 * u8 (Z.shiftr v 8) = v.
Proof.
  intros Hv. unfold u8. rewrite Z.shiftr_div_pow2 by lia. change (2 ^ 8) with 256.
  rewrite (Z.mod_small (v / 256)) by zlia. pose proof (Z.div_mod v 256). lia.
Qed.

Lemma le32_join v : 0 ≤ v < 2 ^ 32 →
  u8 v + 256 * u8 (Z.shiftr v 8) + 65536 * (u8 (Z.shiftr v 16) + 256 * u8 (Z.shiftr v 24)) = v.
Proof.
  intros Hv. unfold u8. rewrite !Z.shiftr_div_pow2 by lia.
  change (2 ^ 8) with 256. change (2 ^ 16) with 65536. change (2 ^ 24) with 16777216. zlia.
Qed.

Lemma htons_involutive v : 0 ≤ v < 65536 → net_htons (net_htons v) = v.
Proof.
  intros Hv. assert (∀ x, 0 ≤ x < 65536 → net_htons x = x mod 256 * 256 + x / 256) as Hh.
  { intros x Hx. unfold net_htons, u16. rewrite Z.shiftr_div_pow2 by lia. change (2 ^ 8) with 256.
    fold (word x (x / 256)). rewrite word_eq by zlia. change (2 ^ 16) with 65536. zlia. }
  rewrite (Hh v) by lia. rewrite Hh by zlia. zlia.
Qed.

Section Net.
Context {H W : Type} `{AL : Allocator H}.
Context (dev_send : Z → Z → list Z → W → Z * W).
Context (dev_poll : Z → Z → W → W).
Context (udp_call : Z → Z → Z → Z → list Z → W → W).

Record net := {
  devices : list Z;
  devs : gmap Z netdev_t;
  table : list arp_entry_t;
  next_id : Z;
  bindings : list udp_binding_t;
  heap : H;
  world : W
}.

Definition set_devices (n : net) (d : list Z) : net :=
  {| devices := d; devs := devs n; table := table n; next_id := next_id n; bindings := bindings n;
     heap := heap n; world := world n |}.
Definition set_table (n : net) (t : list arp_entry_t) : net :=
  {| devices := devices n; devs := devs n; table := t; next_id := next_id n; bindings := bindings n;
     heap := heap n; world := world n |}.
Definition set_next_id (n : net) (i : Z) : net :=
  {| devices := devices n; devs := devs n; table := table n; next_id := i; bindings := bindings n;
     heap := heap n; world := world n |}.
Definition set_bindings (n : net) (b : list udp_binding_t) : net :=
  {| devices := devices n; devs := devs n; table := table n; next_id := next_id n; bindings := b;
     heap := heap n; world := world n |}.
Definition set_heap (n : net) (h : H) : net :=
  {| devices := devices n; devs := devs n; table := table n; next_id := next_id n;
     bindings := bindings n; heap := h; world := world n |}.
Definition set_world (n : net) (w : W) : net :=
  {| devices := devices n; devs := devs n; table := table n; next_id := next_id n;
     bindings := bindings n; heap := heap n; world := w |}.

(** [dev->...] *)
Definition get_dev (n : net) (dev : Z) : outcome netdev_t :=
  match devs n !! dev with Some d => Ok d | None => Undef end.

(** ** Devices *)

Definition netdev_init (n : net) : net := set_devices n (replicate (Z.to_nat NETDEV_MAX) 0).

Definition netdev_register (n : net) (dev : Z) : outcome (Z * net) :=
  if dev =? 0 then Ok (-1, n)
  else
    d ← get_dev n dev;
    if send d =? 0 then Ok (-1, n)
    else
      r ← for_loop 0 NETDEV_MAX
            (λ i (_ : unit), p ← zget (devices n) i; if p =? 0 then Ok (inr i) else Ok (inl tt)) tt;
      match r with
      | inr i => ds ← zset (devices n) i dev; Ok (0, set_devices n ds)
      | inl _ => Ok (-1, n)
      end.

Definition netdev_default (n : net) : outcome Z := zget (devices n) 0.

Definition netdev_find (n : net) (name_ : option (list Z)) : outcome Z :=
  match name_ with
  | None => Ok 0
  | Some nm =>
      r ← for_loop 0 NETDEV_MAX
            (λ i (_ : unit),
               p ← zget (devices n) i;
               if p =? 0 then Ok (inl tt)
               else d ← get_dev n p; c ← strcmp (name d) nm;
                    if c =? 0 then Ok (inr p) else Ok (inl tt)) tt;
      match r with inr p => Ok p | inl _ => Ok 0 end
  end.

(** [data] is [None] for a NULL pointer. *)
Definition netdev_send (n : net) (dev : Z) (data : option (list Z)) (length : Z) : outcome (Z * net) :=
  dev ← (if dev =? 0 then netdev_default n else Ok dev);
  if dev =? 0 then Ok (-1, n)
  else
    d ← get_dev n dev;
    match data with
    | None => if (send d =? 0) || negb (length =? 0) then Ok (-1, n)
              else let '(r, w) := dev_send (send d) dev [] (world n) in Ok (r, set_world n w)
    | Some bytes =>
        if send d =? 0 then Ok (-1, n)
        else if zlen bytes <? length then Undef
        else let '(r, w) := dev_send (send d) dev (take (Z.to_nat length) bytes) (world n) in
             Ok (r, set_world n w)
    end.

Definition netdev_poll_all (n : net) : outcome net :=
  for_each 0 NETDEV_MAX
    (λ i n, p ← zget (devices n) i;
            if p =? 0 then Ok n
            else d ← get_dev n p;
                 if poll d =? 0 then Ok n else Ok (set_world n (dev_poll (poll d) p (world n)))) n.

(** ** Ethernet *)

(** The bytes of the frame built in the heap block. *)
Definition ethernet_frame (dst src : list Z) (type : Z) (payload : list Z) : list Z :=
  dst ++ src ++ le16 (net_htons type) ++ payload.

(** [payload] holds at least [length] bytes; [None] is NULL. *)
Definition ethernet_send (n : net) (dev : Z) (dst : option (list Z)) (type : Z)
    (payload : option (list Z)) (length : Z) : outcome (Z * net) :=
  match dst with
  | None => Ok (-1, n)
  | Some dst =>
      if (dev =? 0) || (match payload with None => negb (length =? 0) | Some _ => false end)
      then Ok (-1, n)
      else
        let frame_len := u64 (ETH_HDR + length) in
        '(frame, h) ← al_malloc (heap n) frame_len;
        let n := set_heap n h in
        if frame =? 0 then Ok (-1, n)
        else
          d ← get_dev n dev;
          let body := take (Z.to_nat length) (default [] payload) in
          (* the copies into the block stay inside it *)
          if decide (zlen body = length ∧ ETH_HDR + length ≤ frame_len ∧ zlen dst = 6 ∧ zlen (mac d) = 6) then
            '(status, n) ← netdev_send n dev (Some (ethernet_frame dst (mac d) type body)) frame_len;
            h ← al_free (heap n) frame;
            Ok (status, set_heap n h)
          else Undef
  end.

(** ** ARP *)

Definition zero_entry : arp_entry_t := {| ipv4 := 0; hw := replicate 6 0; valid := false |}.

Definition arp_init (n : net) : net := set_table n (replicate (Z.to_nat ARP_TABLE_SIZE) zero_entry).

Definition arp_learn (n : net) (ip : Z) (mac_ : option (list Z)) : outcome net :=
  match mac_ with
  | None => Ok n
  | Some m =>
      r ← for_loop 0 ARP_TABLE_SIZE
            (λ i (_ : unit),
               e ← zget (table n) i;
               if valid e && (ipv4 e =? ip) then Ok (inr i)
               else if negb (valid e) then Ok (inr i)
               else Ok (inl tt)) tt;
      let slot := match r with inr i => i | inl _ => 0 end in
      e ← zget (table n) slot;
      hw' ← memcpy (hw e) 0 m 0 6;
      t ← zset (table n) slot {| ipv4 := ip; hw := hw'; valid := true |};
      Ok (set_table n t)
  end.

(** The buffer for the address, [None] for NULL; the result pairs it with the flag. *)
Definition arp_lookup (n : net) (ip : Z) (out : option (list Z)) : outcome (bool * option (list Z)) :=
  match out with
  | None => Ok (false, None)
  | Some buf =>
      r ← for_loop 0 ARP_TABLE_SIZE
            (λ i (_ : unit),
               e ← zget (table n) i;
               if valid e && (ipv4 e =? ip) then Ok (inr (hw e)) else Ok (inl tt)) tt;
      match r with
      | inr m => buf ← memcpy buf 0 m 0 6; Ok (true, Some buf)
      | inl _ => Ok (false, out)
      end
  end.

Definition broadcast : list Z := replicate 6 255.

Definition arp_request (n : net) (dev target_ipv4 : Z) : outcome (Z * net) :=
  if dev =? 0 then Ok (-1, n)
  else
    d ← get_dev n dev;
    if decide (zlen (mac d) = 6) then
      let packet := le16 (net_htons 1) ++ le16 (net_htons ETHERTYPE_IPV4) ++ [6; 4] ++
                    le16 (net_htons 1) ++ mac d ++ le32 (ipv4_addr d) ++ replicate 6 0 ++
                    le32 target_ipv4 in
      ethernet_send n dev (Some broadcast) ETHERTYPE_ARP (Some packet) ARP_LEN
    else Undef.

Definition arp_receive (n : net) (packet : option (list Z)) (length : Z) : outcome net :=
  match packet with
  | None => Ok n
  | Some p =>
      if length <? ARP_LEN then Ok n
      else
        spa ← rd32 p 14;
        arp_learn n spa (Some (take 6 (drop 8 p)))
  end.

(** ** IPv4 *)

Definition ipv4_header (total id proto src dst checksum : Z) : list Z :=
  [69; 0] ++ le16 (net_htons total) ++ le16 (net_htons id) ++ [0; 0] ++ [64; proto] ++
  le16 checksum ++ le32 src ++ le32 dst.

Definition ipv4_send (n : net) (dev dst protocol : Z) (payload : option (list Z)) (length : Z)
  : outcome (Z * net) :=
  if (dev =? 0) || (match payload with None => negb (length =? 0) | Some _ => false end)
  then Ok (-1, n)
  else
    let packet_len := u64 (IP_HDR + length) in
    '(packet, h) ← al_malloc (heap n) packet_len;
    let n := set_heap n h in
    if packet =? 0 then Ok (-1, n)
    else
      d ← get_dev n dev;
      let id := next_id n in
      let n := set_next_id n (u16 (next_id n + 1)) in
      let body := take (Z.to_nat length) (default [] payload) in
      if decide (zlen body = length ∧ IP_HDR + length ≤ packet_len) then
        let header := ipv4_header (u16 packet_len) id protocol (ipv4_addr d) dst in
        checksum ← net_checksum (header 0) IP_HDR;
        '(found, mac_) ← arp_lookup n dst (Some (replicate 6 0));
        '(status, n) ←
          (if (found : bool)
           then ethernet_send n dev mac_ ETHERTYPE_IPV4 (Some (header checksum ++ body)) packet_len
           else Ok (-1, n));
        h ← al_free (heap n) packet;
        Ok (status, set_heap n h)
      else Undef.

(** ** ICMP, UDP and TCP *)

(** [sizeof(reply)] of the local array in [icmp_receive] *)
Definition REPLY_SIZE : Z := 1500.

(** [ip] is the packet the header was found in.  Of the local array only the
    bytes that were copied into it are read. *)
Definition icmp_receive (n : net) (dev : Z) (ip payload : option (list Z)) (length : Z) : outcome net :=
  match ip, payload with
  | Some ip, Some p =>
      if (dev =? 0) || (length <? ICMP_HDR) then Ok n
      else
        type ← rd8 p 0; code ← rd8 p 1;
        if negb (type =? 8) || negb (code =? 0) then Ok n
        else if REPLY_SIZE <? length then Ok n
        else
          reply ← memcpy (replicate (Z.to_nat REPLY_SIZE) 0) 0 p 0 length;
          reply ← zset reply 0 0;
          reply ← zset reply 2 0;
          reply ← zset reply 3 0;
          checksum ← net_checksum reply length;
          reply ← zset reply 2 (u8 checksum);
          reply ← zset reply 3 (u8 (Z.shiftr checksum 8));
          src ← rd32 ip 12;
          '(_, n) ← ipv4_send n dev src IPV4_PROTO_ICMP (Some reply) length;
          Ok n
  | _, _ => Ok n
  end.

Definition udp_bind (n : net) (port_ handler_ : Z) : outcome net :=
  r ← for_loop 0 UDP_MAX_PORTS
        (λ i (_ : unit),
           b ← zget (bindings n) i;
           if (port b =? 0) || (port b =? port_) then Ok (inr i) else Ok (inl tt)) tt;
  match r with
  | inr i => bs ← zset (bindings n) i {| port := port_; handler := handler_ |}; Ok (set_bindings n bs)
  | inl _ => Ok n
  end.

Definition udp_header (src_port dst_port len checksum : Z) : list Z :=
  le16 (net_htons src_port) ++ le16 (net_htons dst_port) ++ le16 (net_htons len) ++ le16 checksum.

Definition udp_send (n : net) (dev dst src_port dst_port : Z) (payload : option (list Z)) (length : Z)
  : outcome (Z * net) :=
  if (dev =? 0) || (match payload with None => negb (length =? 0) | Some _ => false end)
  then Ok (-1, n)
  else
    let datagram_len := u64 (UDP_HDR + length) in
    '(datagram, h) ← al_malloc (heap n) datagram_len;
    let n := set_heap n h in
    if datagram =? 0 then Ok (-1, n)
    else
      let body := take (Z.to_nat length) (default [] payload) in
      if decide (zlen body = length ∧ UDP_HDR + length ≤ datagram_len) then
        d ← get_dev n dev;
        let header := udp_header src_port dst_port (u16 datagram_len) in
        checksum ← net_checksum_pseudo_ipv4 (ipv4_addr d) dst IPV4_PROTO_UDP (header 0 ++ body) datagram_len;
        '(status, n) ← ipv4_send n dev dst IPV4_PROTO_UDP (Some (header checksum ++ body)) datagram_len;
        h ← al_free (heap n) datagram;
        Ok (status, set_heap n h)
      else Undef.

Definition udp_receive (n : net) (dev : Z) (ip payload : option (list Z)) (length : Z) : outcome net :=
  match ip, payload with
  | Some ip, Some p =>
      if (dev =? 0) || (length <? UDP_HDR) then Ok n
      else
        dport ← rd16 p 2;
        let dst_port := net_htons dport in
        let data_len := u64 (length - UDP_HDR) in
        (* what the handlers are given lies in the packet *)
        if zlen p <? UDP_HDR + data_len then Undef
        else
        let data := take (Z.to_nat data_len) (drop (Z.to_nat UDP_HDR) p) in
        for_each 0 UDP_MAX_PORTS
          (λ i n,
             b ← zget (bindings n) i;
             if (port b =? dst_port) && negb (handler b =? 0) then
               src ← rd32 ip 12;
               sport ← rd16 p 0;
               Ok (set_world n (udp_call (handler b) dev src (net_htons sport) data (world n)))
             else Ok n) n
  | _, _ => Ok n
  end.

Definition tcp_receive (n : net) (payload : option (list Z)) (length : Z) : outcome net :=
  match payload with
  | None => Ok n
  | Some _ => if length <? TCP_HDR then Ok n else Ok n
  end.

Definition ipv4_receive (n : net) (dev : Z) (packet : option (list Z)) (length : Z) : outcome net :=
  match packet with
  | None => Ok n
  | Some p =>
      if (dev =? 0) || (length <? IP_HDR) then Ok n
      else
        v ← rd8 p 0;
        let ihl := Z.land v 15 * 4 in
        if (ihl <? IP_HDR) || (length <? ihl) then Ok n
        else
          let payload := drop (Z.to_nat ihl) p in
          let payload_len := u64 (length - ihl) in
          proto ← rd8 p 9;
          if proto =? IPV4_PROTO_ICMP then icmp_receive n dev (Some p) (Some payload) payload_len
          else if proto =? IPV4_PROTO_UDP then udp_receive n dev (Some p) (Some payload) payload_len
          else if proto =? IPV4_PROTO_TCP then tcp_receive n (Some payload) payload_len
          else Ok n
  end.

Definition ethernet_receive (n : net) (dev : Z) (frame : option (list Z)) (length : Z) : outcome net :=
  match frame with
  | None => Ok n
  | Some f =>
      if (dev =? 0) || (length <? ETH_HDR) then Ok n
      else
        t ← rd16 f 12;
        let type := net_htons t in
        let payload := drop (Z.to_nat ETH_HDR) f in
        let payload_len := u64 (length - ETH_HDR) in
        if type =? ETHERTYPE_ARP then arp_receive n (Some payload) payload_len
        else if type =? ETHERTYPE_IPV4 then ipv4_receive n dev (Some payload) payload_len
        else Ok n
  end.

(** ** DHCP *)

Definition dhcp_packet : list Z :=
  [1; 1; 6] ++ replicate 233 0 ++ [99; 130; 83; 99; 53; 1; 1; 255].

Definition dhcp_discover (n : net) (dev : Z) : outcome (Z * net) :=
  if dev =? 0 then Ok (-1, n)
  else udp_send n dev 4294967295 68 67 (Some dhcp_packet) 244.

(** ** Safety *)

Definition wf (n : net) : Prop :=
  zlen (devices n) = NETDEV_MAX ∧ zlen (table n) = ARP_TABLE_SIZE ∧ zlen (bindings n) = UDP_MAX_PORTS ∧
  Forall (λ e, zlen (hw e) = 6) (table n) ∧ (∀ p d, devs n !! p = Some d → zlen (mac d) = 6).

(** What sending leaves alone. *)
Definition keeps (n n' : net) : Prop :=
  devices n' = devices n ∧ devs n' = devs n ∧ table n' = table n ∧ bindings n' = bindings n.

Lemma keeps_wf n n' : keeps n n' → wf n → wf n'.
Proof. intros (H1 & H2 & H3 & H4) (? & ? & ? & ? & ?). unfold wf. by rewrite H1, H2, H3, H4. Qed.

Lemma keeps_trans n1 n2 n3 : keeps n1 n2 → keeps n2 n3 → keeps n1 n3.
Proof. intros (? & ? & ? & ?) (? & ? & ? & ?). split_and!; congruence. Qed.

Lemma netdev_send_ok n dev d bytes len :
  dev ≠ 0 → devs n !! dev = Some d → len ≤ zlen bytes →
  netdev_send n dev (Some bytes) len =
  Ok (if send d =? 0 then (-1, n)
      else let '(r, w) := dev_send (send d) dev (take (Z.to_nat len) bytes) (world n) in (r, set_world n w)).
Proof.
  intros H0 Hd Hl. unfold netdev_send, get_dev. rewrite (proj2 (Z.eqb_neq dev 0)) by done. rewrite bind_ok.
  rewrite (proj2 (Z.eqb_neq dev 0)) by done. rewrite Hd, bind_ok. destruct (send d =? 0); [done|].
  rewrite (proj2 (Z.ltb_ge _ _) Hl). by destruct (dev_send _ _ _ _).
Qed.

(** The effect of handing [frame] to the device. *)
Definition transmit (n : net) (dev : Z) (d : netdev_t) (frame : list Z) : Z * W :=
  if send d =? 0 then (-1, world n) else dev_send (send d) dev frame (world n).

Lemma ethernet_send_ok n l dev d dst type payload length :
  wf n → al_repr (heap n) l → dev ≠ 0 → devs n !! dev = Some d → zlen dst = 6 →
  0 ≤ length ≤ zlen payload → length < 2 ^ 31 →
  ethernet_send n dev (Some dst) type (Some payload) length ⇓ λ '(r, n'),
    keeps n n' ∧ next_id n' = next_id n ∧ al_repr (heap n') l ∧
    ((r = -1 ∧ world n' = world n) ∨
     (r, world n') = transmit n dev d (ethernet_frame dst (mac d) type (take (Z.to_nat length) payload))).
Proof.
  intros Hwf Ha H0 Hd Hdst Hlen Hmax. unfold ethernet_send, ETH_HDR.
  rewrite (proj2 (Z.eqb_neq dev 0)) by done. cbn [orb]. rewrite u64_small by lia. apply wp_bind.
  eapply wp_mono; [apply (al_malloc_spec _ l); [done|lia]|].
  intros [p h] [(-> & Ha')|(sz & Hp & _ & _ & _ & Ha')].
  { apply wp_ok. split; [done|]. split; [done|]. split; [done|]. by left. }
  rewrite (proj2 (Z.eqb_neq p 0)) by lia. unfold get_dev. simpl devs. rewrite Hd, bind_ok.
  pose proof Hwf as (_ & _ & _ & _ & Hmac). specialize (Hmac _ _ Hd).
  assert (zlen (take (Z.to_nat length) payload) = length) as Htl
    by (unfold zlen in *; rewrite length_take; lia).
  cbn [default from_option id]. rewrite decide_True by (split_and!; done || lia).
  set (body := take (Z.to_nat length) payload) in *. set (frame := ethernet_frame dst (mac d) type body).
  assert (zlen frame = 14 + length) as Hfl.
  { unfold frame, ethernet_frame, le16, zlen in *. rewrite !length_app. simpl. lia. }
  rewrite (netdev_send_ok _ dev d) by (done || lia). rewrite bind_ok.
  assert (take (Z.to_nat (14 + length)) frame = frame) as -> by (apply take_ge; unfold zlen in *; lia).
  unfold transmit. simpl world.
  destruct (send d =? 0); [|destruct (dev_send (send d) dev frame (world n)) as [r w]];
    apply wp_bind; (eapply wp_mono; [by apply (al_free_spec h l p sz)|]); intros h' Ha2; apply wp_ok;
    (split; [done|]); (split; [done|]); (split; [done|]); by right.
Qed.

Lemma sum_bytes_safe bs length sum :
  0 ≤ length ≤ zlen bs → 0 ≤ sum < 2 ^ 32 → sum_bytes bs length sum ⇓ λ s, 0 ≤ s < 2 ^ 32.
Proof.
  unfold zlen. revert length sum. induction bs as [|b|b0 b1 bs IH] using pairs_ind; intros length sum Hl Hs; simpl in Hl.
  - assert (length = 0) as -> by lia. by apply wp_ok.
  - cbn [sum_bytes]. destruct (Z.leb_spec length 0); [by apply wp_ok|].
    assert (length = 1) as -> by lia. apply wp_ok. apply u32_range.
  - cbn [sum_bytes]. destruct (Z.leb_spec length 0); [by apply wp_ok|].
    destruct (Z.eqb_spec length 1); [apply wp_ok; apply u32_range|].
    apply IH; [lia|]. apply u32_range.
Qed.

Lemma net_checksum_safe bs length : 0 ≤ length ≤ zlen bs → net_checksum bs length ⇓ λ _, True.
Proof.
  intros Hl. unfold net_checksum. apply wp_bind.
  eapply wp_mono; [apply sum_bytes_safe; lia|]. intros s Hs. rewrite finish_ok by done. by apply wp_ok.
Qed.

(** The table entry [arp_lookup] finds. *)
Definition arp_find (n : net) (ip : Z) : option arp_entry_t :=
  list_find (λ e, valid e && (ipv4 e =? ip) = true) (table n) ≫= λ x, Some x.2.

Lemma arp_lookup_ok n ip buf :
  wf n → zlen buf = 6 →
  arp_lookup n ip (Some buf) = Ok (match arp_find n ip with Some e => (true, Some (hw e)) | None => (false, Some buf) end).
Proof.
  intros (_ & Ht & _ & Hhw & _) Hbuf.
  assert (arp_lookup n ip (Some buf) ⇓ λ r, r = match arp_find n ip with
    Some e => (true, Some (hw e)) | None => (false, Some buf) end) as (r & -> & ->); [|done].
  unfold arp_lookup. apply wp_bind. unfold arp_find.
  apply (wp_for (λ i _, ∀ j e, (j < Z.to_nat i)%nat → table n !! j = Some e → valid e && (ipv4 e =? ip) = false));
    unfold ARP_TABLE_SIZE in *.
  - lia.
  - intros j e Hj. lia.
  - intros i _ Hi Hno. apply wp_bind, wp_zget; [lia|]. intros e He.
    destruct (valid e && (ipv4 e =? ip)) eqn:Hm; apply wp_ok.
    + assert (list_find (λ e, valid e && (ipv4 e =? ip) = true) (table n) = Some (Z.to_nat i, e)) as ->.
      { apply list_find_Some. split; [done|]. split; [done|]. intros j y Hj Hlt.
        rewrite (Hno j y) by done. done. }
      simpl. pose proof (Forall_lookup_1 _ _ _ _ Hhw He) as Hh. simpl in Hh.
      rewrite memcpy_ok, bind_ok by lia. apply wp_ok. do 2 f_equal. unfold slice, splice, zlen in *.
      rewrite drop_0. simpl. rewrite take_ge by lia. rewrite drop_ge by lia. apply app_nil_r.
    + intros j e' Hj He'. destruct (decide (j = Z.to_nat i)) as [->|]; [congruence|]. apply (Hno j); [lia|done].
  - intros _ Hno. apply wp_ok.
    assert (list_find (λ e, valid e && (ipv4 e =? ip) = true) (table n) = None) as ->; [|done].
    apply list_find_None, Forall_lookup. intros j e He. rewrite (Hno j e); [done| |done].
    apply lookup_lt_Some in He. unfold zlen in Ht. lia.
Qed.

Lemma ipv4_header_length total id proto src dst c : zlen (ipv4_header total id proto src dst c) = IP_HDR.
Proof. done. Qed.

Lemma arp_find_hw n ip e : wf n → arp_find n ip = Some e → zlen (hw e) = 6.
Proof.
  intros (_ & _ & _ & Hhw & _). unfold arp_find.
  destruct (list_find _ _) as [[i e']|] eqn:Hf; simpl; [|done]. intros [= <-].
  apply list_find_Some in Hf as (He & _). exact (Forall_lookup_1 _ _ _ _ Hhw He).
Qed.

Lemma ipv4_send_ok n l dev d dst proto payload length :
  wf n → al_repr (heap n) l → dev ≠ 0 → devs n !! dev = Some d →
  0 ≤ length ≤ zlen payload → length < 2 ^ 30 →
  ipv4_send n dev dst proto (Some payload) length ⇓ λ '(r, n'),
    keeps n n' ∧ al_repr (heap n') l ∧
    ((r = -1 ∧ world n' = world n) ∨
     ∃ e c, arp_find n dst = Some e ∧
       net_checksum (ipv4_header (u16 (IP_HDR + length)) (next_id n) proto (ipv4_addr d) dst 0) IP_HDR = Ok c ∧
       (r, world n') = transmit n dev d (ethernet_frame (hw e) (mac d) ETHERTYPE_IPV4
         (ipv4_header (u16 (IP_HDR + length)) (next_id n) proto (ipv4_addr d) dst c ++
          take (Z.to_nat length) payload))).
Proof.
  intros Hwf Ha H0 Hd Hlen Hmax. unfold ipv4_send. rewrite (proj2 (Z.eqb_neq dev 0)) by done. cbn [orb].
  rewrite (u64_small (IP_HDR + length)) by (unfold IP_HDR; lia). apply wp_bind.
  eapply wp_mono; [apply (al_malloc_spec _ l); [done|unfold IP_HDR; lia]|].
  intros [p h] [(-> & Ha')|(sz & Hp & _ & _ & _ & Ha')].
  { apply wp_ok. split; [done|]. split; [done|]. by left. }
  rewrite (proj2 (Z.eqb_neq p 0)) by lia. unfold get_dev. simpl devs. rewrite Hd, bind_ok.
  assert (zlen (take (Z.to_nat length) payload) = length) as Htl
    by (unfold zlen in *; rewrite length_take; lia).
  cbn [default from_option id]. cbv zeta. rewrite decide_True by (split; [done|lia]). simpl next_id.
  set (hdr := ipv4_header (u16 (IP_HDR + length)) (next_id n) proto (ipv4_addr d) dst).
  set (body := take (Z.to_nat length) payload) in *.
  destruct (net_checksum_safe (hdr 0) IP_HDR) as (c & Hc & _); [done|]. rewrite Hc, bind_ok.
  set (n1 := set_next_id (set_heap n h) (u16 (next_id n + 1))).
  assert (keeps n n1) as Hk1 by done. pose proof (keeps_wf _ _ Hk1 Hwf) as Hwf1.
  rewrite (arp_lookup_ok n1 dst (replicate 6 0) Hwf1) by done. rewrite bind_ok.
  change (arp_find n1 dst) with (arp_find n dst).
  destruct (arp_find n dst) as [e|] eqn:He.
  - apply wp_bind. eapply wp_mono.
    { apply (ethernet_send_ok n1 ((p, sz) :: l) dev d (hw e) ETHERTYPE_IPV4 (hdr c ++ body) (IP_HDR + length));
        try done; [by eapply arp_find_hw|unfold IP_HDR in *|unfold IP_HDR; lia].
      assert (zlen (hdr c ++ body) = 20 + length) as ->; [|lia].
      unfold zlen in *. rewrite length_app. change (Datatypes.length (hdr c)) with 20%nat. lia. }
    intros [r n2] (Hk2 & _ & Ha2 & Hres). apply wp_bind.
    eapply wp_mono; [by apply (al_free_spec (heap n2) l p sz)|]. intros h' Ha3. apply wp_ok.
    split; [by eapply (keeps_trans n n1)|]. split; [done|].
    destruct Hres as [[-> Hw]|Hw]; [by left|]. right. exists e, c. split; [done|]. split; [done|].
    simpl world. rewrite Hw. unfold transmit. simpl world. do 3 f_equal.
    rewrite take_ge; [done|]. unfold zlen, IP_HDR in *. rewrite length_app.
    change (Datatypes.length (hdr c)) with 20%nat. lia.
  - rewrite bind_ok. apply wp_bind. eapply wp_mono; [by apply (al_free_spec h l p sz)|].
    intros h' Ha3. apply wp_ok. split; [done|]. split; [done|]. by left.
Qed.

Lemma keeps_al n n' : keeps n n' → ∀ ip, arp_find n' ip = arp_find n ip.
Proof. intros (_ & _ & Ht & _) ip. unfold arp_find. by rewrite Ht. Qed.

(** Learning an address makes it the one that is found. *)
Lemma arp_learn_ok n ip m :
  wf n → zlen m = 6 →
  arp_learn n ip (Some m) ⇓ λ n', wf n' ∧ devs n' = devs n ∧ bindings n' = bindings n ∧
    devices n' = devices n ∧ heap n' = heap n ∧ world n' = world n ∧ next_id n' = next_id n ∧
    ∃ slot, 0 ≤ slot < ARP_TABLE_SIZE ∧
      table n' = <[Z.to_nat slot := {| ipv4 := ip; hw := m; valid := true |}]> (table n) ∧
      ((∀ j e, (j < Z.to_nat slot)%nat → table n !! j = Some e → valid e = true ∧ ipv4 e ≠ ip) ∧
       ((∃ e, table n !! Z.to_nat slot = Some e ∧ (valid e = false ∨ ipv4 e = ip)) ∨
        slot = 0 ∧ ∀ j e, table n !! j = Some e → valid e = true ∧ ipv4 e ≠ ip)).
Proof.
  intros Hwf Hm. pose proof Hwf as (Hd & Ht & Hb & Hhw & Hmac). unfold arp_learn. apply wp_bind.
  assert (∀ slot, 0 ≤ slot < ARP_TABLE_SIZE →
    (e ← zget (table n) slot; hw' ← memcpy (hw e) 0 m 0 6;
     t ← zset (table n) slot {| ipv4 := ip; hw := hw'; valid := true |}; Ok (set_table n t)) =
    Ok (set_table n (<[Z.to_nat slot := {| ipv4 := ip; hw := m; valid := true |}]> (table n)))) as Hstore.
  { intros slot Hs. destruct (zget_in (table n) slot) as [e He]; [lia|].
    rewrite (zget_ok _ _ e), bind_ok by (done || lia).
    pose proof (Forall_lookup_1 _ _ _ _ Hhw He) as Hh. simpl in Hh.
    rewrite memcpy_ok, bind_ok by lia. rewrite zset_ok, bind_ok by lia.
    assert (splice (hw e) 0 (slice m 0 6) = m) as ->; [|done]. unfold slice, splice, zlen in *.
    rewrite drop_0. simpl. rewrite take_ge by lia. rewrite drop_ge by lia. apply app_nil_r. }
  assert (∀ t, zlen t = ARP_TABLE_SIZE → Forall (λ e, zlen (hw e) = 6) t → wf (set_table n t)) as Hwt.
  { intros t ? ?. by split_and!. }
  apply (wp_for (λ i _, ∀ j e, (j < Z.to_nat i)%nat → table n !! j = Some e → valid e = true ∧ ipv4 e ≠ ip)).
  - unfold ARP_TABLE_SIZE. lia.
  - intros j e Hj. lia.
  - intros i _ Hi Hall. apply wp_bind, wp_zget; [lia|]. intros e He.
    destruct (valid e) eqn:Hv; [destruct (Z.eqb_spec (ipv4 e) ip) as [Heq|Hne]|]; simpl; apply wp_ok.
    + rewrite Hstore by done. apply wp_ok. split; [apply Hwt; [by rewrite zlen_insert|by apply Forall_insert]|].
      do 6 (split; [done|]). exists i. split; [done|]. split; [done|]. split; [done|]. left. eauto.
    + intros j e' Hj He'. destruct (decide (j = Z.to_nat i)) as [->|]; [by simplify_eq|].
      apply (Hall j); [lia|done].
    + rewrite Hstore by done. apply wp_ok. split; [apply Hwt; [by rewrite zlen_insert|by apply Forall_insert]|].
      do 6 (split; [done|]). exists i. split; [done|]. split; [done|]. split; [done|]. left. eauto.
  - intros _ Hall. rewrite Hstore by (unfold ARP_TABLE_SIZE; lia). apply wp_ok.
    split; [apply Hwt; [by rewrite zlen_insert|by apply Forall_insert]|].
    do 6 (split; [done|]). exists 0. split; [unfold ARP_TABLE_SIZE; lia|]. split; [done|].
    assert (∀ j e, table n !! j = Some e → valid e = true ∧ ipv4 e ≠ ip) as Hfull.
    { intros j e He. apply (Hall j e); [|done]. apply lookup_lt_Some in He. unfold zlen in Ht. lia. }
    split; [|by right]. intros j e Hj. lia.
Qed.

(** The entry learnt is the first that matches. *)
Lemma arp_learn_find n n' ip m slot :
  0 ≤ slot < ARP_TABLE_SIZE → zlen (table n) = ARP_TABLE_SIZE →
  table n' = <[Z.to_nat slot := {| ipv4 := ip; hw := m; valid := true |}]> (table n) →
  (∀ j e, (j < Z.to_nat slot)%nat → table n !! j = Some e → valid e = true ∧ ipv4 e ≠ ip) →
  arp_find n' ip = Some {| ipv4 := ip; hw := m; valid := true |}.
Proof.
  intros Hs Hl Ht Hno. unfold arp_find.
  assert (list_find (λ e, valid e && (ipv4 e =? ip) = true) (table n') =
    Some (Z.to_nat slot, {| ipv4 := ip; hw := m; valid := true |})) as ->; [|done].
  apply list_find_Some. rewrite Ht. split; [apply list_lookup_insert_eq; unfold zlen in *; lia|].
  split; [simpl; by rewrite Z.eqb_refl|]. intros j y Hj Hlt.
  rewrite list_lookup_insert_ne in Hj by lia. destruct (Hno j y Hlt Hj) as [Hv Hne].
  rewrite Hv, (proj2 (Z.eqb_neq _ _)) by done. done.
Qed.

Lemma rd16_ok p off : 0 ≤ off → off + 2 ≤ zlen p → rd16 p off ⇓ λ _, True.
Proof.
  intros Ho Hl. unfold rd16. apply wp_bind, wp_zget; [lia|]. intros a _. apply wp_bind, wp_zget; [lia|].
  intros b _. by apply wp_ok.
Qed.

Lemma rd32_ok p off : 0 ≤ off → off + 4 ≤ zlen p → rd32 p off ⇓ λ _, True.
Proof.
  intros Ho Hl. unfold rd32. apply wp_bind. eapply wp_mono; [apply rd16_ok; lia|]. intros a _.
  apply wp_bind. eapply wp_mono; [apply rd16_ok; lia|]. intros b _. by apply wp_ok.
Qed.

(** What receiving a packet guarantees: the stack stays well formed, nothing is
    leaked or freed twice, and the device table is untouched. *)
Definition safe_after (n : net) (l : list (Z * Z)) (n' : net) : Prop :=
  wf n' ∧ devs n' = devs n ∧ al_repr (heap n') l.

Lemma arp_receive_ok n l p length :
  wf n → al_repr (heap n) l → 0 ≤ length ≤ zlen p → arp_receive n (Some p) length ⇓ safe_after n l.
Proof.
  intros Hwf Ha Hl. unfold arp_receive, ARP_LEN. destruct (Z.ltb_spec length 28); [by apply wp_ok|].
  apply wp_bind. eapply wp_mono; [apply rd32_ok; lia|]. intros spa _.
  eapply wp_mono; [apply arp_learn_ok; [done|]|].
  - unfold zlen in *. rewrite length_take, length_drop. lia.
  - intros n' (Hwf' & Hd & _ & _ & Hh & _). unfold safe_after. by rewrite Hd, Hh.
Qed.

Lemma icmp_receive_ok n l dev d ip p length :
  wf n → al_repr (heap n) l → devs n !! dev = Some d → IP_HDR ≤ zlen ip → 0 ≤ length ≤ zlen p →
  icmp_receive n dev (Some ip) (Some p) length ⇓ safe_after n l.
Proof.
  intros Hwf Ha Hd Hip Hl. unfold icmp_receive, ICMP_HDR, IP_HDR in *.
  destruct (Z.eqb_spec dev 0) as [|H0]; [by apply wp_ok|].
  destruct (Z.ltb_spec length 8); [by apply wp_ok|]. cbn [orb].
  apply wp_bind, wp_zget; [lia|]. intros type _. apply wp_bind, wp_zget; [lia|]. intros code _.
  destruct (negb (type =? 8) || negb (code =? 0)); [by apply wp_ok|].
  unfold REPLY_SIZE. destruct (Z.ltb_spec 1500 length); [by apply wp_ok|].
  assert (zlen (replicate (Z.to_nat 1500) 0) = 1500) as Hz by done.
  rewrite memcpy_ok, bind_ok by lia. set (r0 := splice _ 0 _).
  assert (zlen r0 = 1500) as Htl by (unfold r0, zlen; rewrite length_splice; [done|lia|]; unfold zlen; rewrite length_slice; unfold zlen in *; lia).
  rewrite zset_ok, bind_ok by lia. rewrite zset_ok, bind_ok by (rewrite !zlen_insert; lia).
  rewrite zset_ok, bind_ok by (rewrite !zlen_insert; lia).
  match goal with |- context [net_checksum ?r length] => set (r1 := r) end.
  assert (zlen r1 = 1500) as Hr1 by (unfold r1; by rewrite !zlen_insert).
  apply wp_bind. eapply wp_mono; [apply net_checksum_safe; lia|]. intros c _.
  rewrite zset_ok, bind_ok by lia. rewrite zset_ok, bind_ok by (rewrite !zlen_insert; lia).
  apply wp_bind. eapply wp_mono; [apply rd32_ok; lia|]. intros src _.
  apply wp_bind. eapply wp_mono.
  { apply (ipv4_send_ok n l dev d); try done; [rewrite !zlen_insert; lia|lia]. }
  intros [r n'] (Hk & Ha' & _). apply wp_ok. split; [by eapply keeps_wf|]. split; [apply Hk|done].
Qed.

Lemma udp_receive_ok n l dev ip p length :
  wf n → al_repr (heap n) l → IP_HDR ≤ zlen ip → 0 ≤ length ≤ zlen p → length < 2 ^ 64 →
  udp_receive n dev (Some ip) (Some p) length ⇓ safe_after n l.
Proof.
  intros Hwf Ha Hip Hl Hm. unfold udp_receive, UDP_HDR, IP_HDR in *.
  destruct ((dev =? 0) || (length <? 8)) eqn:E; [by apply wp_ok|].
  apply orb_false_iff in E as [_ E]. apply Z.ltb_ge in E.
  apply wp_bind. eapply wp_mono; [apply rd16_ok; lia|]. intros dport _.
  rewrite u64_small, (proj2 (Z.ltb_ge _ _)) by lia.
  apply (wp_for_each (λ _ n', wf n' ∧ devs n' = devs n ∧ heap n' = heap n)).
  - unfold UDP_MAX_PORTS. lia.
  - done.
  - intros i n' Hi (Hwf' & Hd & Hh). pose proof Hwf' as (_ & _ & Hb & _).
    apply wp_bind, wp_zget; [lia|]. intros b _.
    destruct ((port b =? net_htons dport) && negb (handler b =? 0)); [|by apply wp_ok].
    apply wp_bind. eapply wp_mono; [apply rd32_ok; lia|]. intros src _.
    apply wp_bind. eapply wp_mono; [apply rd16_ok; lia|]. intros sport _. by apply wp_ok.
  - intros n' (Hwf' & Hd & Hh). unfold safe_after. by rewrite Hd, Hh.
Qed.

Lemma ipv4_receive_ok n l dev d p length :
  wf n → al_repr (heap n) l → devs n !! dev = Some d → 0 ≤ length ≤ zlen p → length < 2 ^ 64 →
  Forall (λ b, 0 ≤ b < 256) p →
  ipv4_receive n dev (Some p) length ⇓ safe_after n l.
Proof.
  intros Hwf Ha Hd Hl Hm Hb. unfold ipv4_receive. destruct ((dev =? 0) || (length <? IP_HDR)) eqn:E; [by apply wp_ok|].
  apply orb_false_iff in E as [_ E]. apply Z.ltb_ge in E. unfold IP_HDR in E.
  apply wp_bind, wp_zget; [lia|]. intros v Hv.
  destruct ((Z.land v 15 * 4 <? IP_HDR) || (length <? Z.land v 15 * 4)) eqn:E2; [by apply wp_ok|].
  apply orb_false_iff in E2 as [E2 E3]. apply Z.ltb_ge in E2, E3. unfold IP_HDR in E2.
  apply wp_bind, wp_zget; [lia|]. intros proto _. set (ihl := Z.land v 15 * 4) in *.
  assert (zlen (drop (Z.to_nat ihl) p) = zlen p - ihl) as Hdl by (unfold zlen in *; rewrite length_drop; lia).
  rewrite u64_small by lia.
  destruct (proto =? IPV4_PROTO_ICMP); [by eapply icmp_receive_ok; try done; unfold IP_HDR; lia|].
  destruct (proto =? IPV4_PROTO_UDP); [by eapply udp_receive_ok; try done; unfold IP_HDR; lia|].
  destruct (proto =? IPV4_PROTO_TCP); [|by apply wp_ok].
  unfold tcp_receive. by destruct (_ <? _); apply wp_ok.
Qed.

(** C18: ethernet_receive on any frame of bytes, with a length up to its buffer and below 2^64,
    on a registered device of a well-formed stack, through ARP, IPv4, ICMP, UDP and TCP, never
    reads outside the frame, never writes outside the 1500-byte reply array or any other buffer
    nor does anything else undefined, terminates, keeps the stack's tables well formed and gives
    back every heap block it allocated. *)
Theorem ethernet_receive_safe n l dev d frame length :
  wf n → al_repr (heap n) l → devs n !! dev = Some d →
  Forall (λ b, 0 ≤ b < 256) frame → 0 ≤ length ≤ zlen frame → length < 2 ^ 64 →
  ethernet_receive n dev (Some frame) length ⇓ safe_after n l.
Proof.
  intros Hwf Ha Hd Hb Hl Hm. unfold ethernet_receive. destruct ((dev =? 0) || (length <? ETH_HDR)) eqn:E; [by apply wp_ok|].
  apply orb_false_iff in E as [_ E]. apply Z.ltb_ge in E. unfold ETH_HDR in E.
  apply wp_bind. eapply wp_mono; [apply rd16_ok; lia|]. intros t _.
  assert (zlen (drop (Z.to_nat ETH_HDR) frame) = zlen frame - 14) as Hdl
    by (unfold zlen, ETH_HDR in *; rewrite length_drop; lia).
  rewrite u64_small by (unfold ETH_HDR; lia).
  destruct (net_htons t =? ETHERTYPE_ARP); [apply arp_receive_ok; try done; unfold ETH_HDR in *; lia|].
  destruct (net_htons t =? ETHERTYPE_IPV4); [|by apply wp_ok].
  eapply ipv4_receive_ok; try done; [unfold ETH_HDR in *; lia..|]. by apply Forall_drop.
Qed.

Lemma udp_send_ok n l dev d dst sport dport payload length :
  wf n → al_repr (heap n) l → dev ≠ 0 → devs n !! dev = Some d →
  0 ≤ length ≤ zlen payload → length < 2 ^ 29 →
  udp_send n dev dst sport dport (Some payload) length ⇓ λ '(r, n'),
    keeps n n' ∧ al_repr (heap n') l ∧
    ((r = -1 ∧ world n' = world n) ∨ arp_find n dst ≠ None).
Proof.
  intros Hwf Ha H0 Hd Hlen Hmax. unfold udp_send. rewrite (proj2 (Z.eqb_neq dev 0)) by done. cbn [orb].
  rewrite (u64_small (UDP_HDR + length)) by (unfold UDP_HDR; lia). apply wp_bind.
  eapply wp_mono; [apply (al_malloc_spec _ l); [done|unfold UDP_HDR; lia]|].
  intros [p h] [(-> & Ha')|(sz & Hp & _ & _ & _ & Ha')].
  { apply wp_ok. split; [done|]. split; [done|]. by left. }
  rewrite (proj2 (Z.eqb_neq p 0)) by lia.
  assert (zlen (take (Z.to_nat length) payload) = length) as Htl
    by (unfold zlen in *; rewrite length_take; lia).
  cbn [default from_option id]. cbv zeta. rewrite decide_True by (split; [done|lia]).
  unfold get_dev. simpl devs. rewrite Hd, bind_ok. set (body := take (Z.to_nat length) payload) in *.
  set (hdr := udp_header sport dport (u16 (UDP_HDR + length))).
  assert (∀ c, zlen (hdr c ++ body) = UDP_HDR + length) as Hhl.
  { intros c. unfold zlen, UDP_HDR in *. rewrite length_app. change (Datatypes.length (hdr c)) with 8%nat. lia. }
  apply wp_bind. unfold net_checksum_pseudo_ipv4 at 1. cbv zeta. apply wp_bind.
  eapply wp_mono; [apply sum_bytes_safe; [rewrite Hhl; unfold UDP_HDR; lia|apply u32_range]|].
  intros s Hs. rewrite finish_ok by done. apply wp_ok. apply wp_bind.
  eapply wp_mono.
  { apply (ipv4_send_ok (set_heap n h) ((p, sz) :: l) dev d); try done; [rewrite Hhl; unfold UDP_HDR; lia|].
    unfold UDP_HDR. lia. }
  intros [r n2] (Hk2 & Ha2 & Hres). apply wp_bind.
  eapply wp_mono; [by apply (al_free_spec (heap n2) l p sz)|]. intros h' Ha3. apply wp_ok.
  split; [by eapply (keeps_trans n (set_heap n h))|]. split; [done|].
  destruct Hres as [[-> Hw]|(e & c & He & _)]; [by left|]. right.
  change (arp_find (set_heap n h) dst) with (arp_find n dst) in He. by rewrite He.
Qed.

(** dhcp_discover returns -1 without transmitting anything unless the ARP table has an entry for
    the broadcast address, which ipv4_send looks up like any other. *)
Theorem dhcp_discover_never_sends n l dev d :
  wf n → al_repr (heap n) l → dev ≠ 0 → devs n !! dev = Some d → arp_find n 4294967295 = None →
  dhcp_discover n dev ⇓ λ '(r, n'), r = -1 ∧ world n' = world n.
Proof.
  intros Hwf Ha H0 Hd Hno. unfold dhcp_discover. rewrite (proj2 (Z.eqb_neq dev 0)) by done.
  eapply wp_mono; [apply (udp_send_ok n l dev d); try done; vm_compute; done|].
  intros [r n'] (_ & _ & [?|?]); [done|]. by rewrite Hno in *.
Qed.

(** ** Learning from requests *)

Lemma arp_request_ok n l dev d target :
  wf n → al_repr (heap n) l → dev ≠ 0 → devs n !! dev = Some d →
  arp_request n dev target ⇓ λ '(r, n'),
    keeps n n' ∧ al_repr (heap n') l ∧
    ((r = -1 ∧ world n' = world n) ∨
     ∃ body, zlen body = ARP_LEN ∧ take 6 (drop 8 body) = mac d ∧
       take 4 (drop 14 body) = le32 (ipv4_addr d) ∧
       (r, world n') = transmit n dev d (ethernet_frame broadcast (mac d) ETHERTYPE_ARP body)).
Proof.
  intros Hwf Ha H0 Hd. unfold arp_request, get_dev. rewrite (proj2 (Z.eqb_neq dev 0)) by done.
  rewrite Hd, bind_ok. pose proof Hwf as (_ & _ & _ & _ & Hmac). pose proof (Hmac _ _ Hd) as Hm.
  rewrite decide_True by done. cbv zeta.
  match goal with |- context [ethernet_send _ _ _ _ (Some ?p) _] => set (body := p) end.
  assert (zlen body = ARP_LEN) as Hbl.
  { unfold body, zlen in *. rewrite !length_app, length_replicate. simpl. unfold ARP_LEN. lia. }
  eapply wp_mono.
  { apply (ethernet_send_ok n l dev d broadcast ETHERTYPE_ARP body ARP_LEN); try done; unfold ARP_LEN in *; lia. }
  intros [r n'] (Hk & _ & Ha' & Hres). split; [done|]. split; [done|].
  rewrite take_ge in Hres by (unfold zlen, ARP_LEN in *; lia).
  destruct Hres as [?|Hres]; [by left|right]. exists body. split; [done|].
  destruct (mac d) as [|m0 [|m1 [|m2 [|m3 [|m4 [|m5 [|]]]]]]]; try (unfold zlen in Hm; simpl in Hm; lia).
  done.
Qed.

End Net.

(** A station that broadcasts a request is known to every station that receives it:
    [n2] may run on other drivers and another heap. *)
Section Teach.
Context {H1 W1 H2 W2 : Type} `{A1 : Allocator H1} `{A2 : Allocator H2}.
Context (send1 : Z → Z → list Z → W1 → Z * W1).
Context (send2 : Z → Z → list Z → W2 → Z * W2) (call2 : Z → Z → Z → Z → list Z → W2 → W2).

Lemma arp_frame_teaches (n2 : @net H2 W2) l2 dev2 d2 m ip body :
  wf n2 → al_repr (heap n2) l2 → dev2 ≠ 0 → devs n2 !! dev2 = Some d2 →
  zlen m = 6 → 0 ≤ ip < 2 ^ 32 →
  zlen body = ARP_LEN → take 6 (drop 8 body) = m → take 4 (drop 14 body) = le32 ip →
  ethernet_receive send2 call2 n2 dev2 (Some (ethernet_frame broadcast m ETHERTYPE_ARP body)) 42 ⇓ λ n',
    arp_lookup n' ip (Some (replicate 6 0)) = Ok (true, Some m).
Proof.
  intros Hwf Ha H0 Hd Hm Hip Hbl Hsha Hspa. unfold ethernet_receive.
  rewrite (proj2 (Z.eqb_neq dev2 0)) by done. cbn [orb]. change (42 <? ETH_HDR) with false. cbv iota.
  assert (∃ m0 m1 m2 m3 m4 m5, m = [m0; m1; m2; m3; m4; m5]) as (m0 & m1 & m2 & m3 & m4 & m5 & Hmm).
  { unfold zlen in Hm. destruct m as [|m0 [|m1 [|m2 [|m3 [|m4 [|m5 [|]]]]]]]; simpl in Hm; try lia. by eauto 10. }
  assert (rd16 (ethernet_frame broadcast m ETHERTYPE_ARP body) 12 = Ok (net_htons ETHERTYPE_ARP)) as ->
    by (by rewrite Hmm). rewrite bind_ok. cbv zeta. rewrite htons_involutive, Z.eqb_refl by done.
  assert (drop (Z.to_nat ETH_HDR) (ethernet_frame broadcast m ETHERTYPE_ARP body) = body) as ->
    by (by rewrite Hmm).
  unfold arp_receive. change (42 - ETH_HDR <? ARP_LEN) with false. cbv iota.
  assert (rd32 body 14 = Ok ip) as ->.
  { assert (∀ i : nat, (i < 4)%nat → body !! (14 + i)%nat = le32 ip !! i) as Hb.
    { intros i Hi. rewrite <-Hspa, lookup_take_lt, lookup_drop by lia. done. }
    unfold rd32, rd16. rewrite (zget_ok body 14 _ ltac:(lia) (Hb 0%nat ltac:(lia))), bind_ok.
    rewrite (zget_ok body (14 + 1) _ ltac:(lia) (Hb 1%nat ltac:(lia))), !bind_ok.
    rewrite (zget_ok body (14 + 2) _ ltac:(lia) (Hb 2%nat ltac:(lia))), bind_ok.
    rewrite (zget_ok body (14 + 2 + 1) _ ltac:(lia) (Hb 3%nat ltac:(lia))), !bind_ok.
    f_equal. by apply le32_join. }
  rewrite bind_ok, Hsha. eapply wp_mono; [by apply arp_learn_ok|].
  intros n' (Hwf' & _ & _ & _ & _ & _ & _ & slot & Hs & Ht & Hno & _).
  rewrite arp_lookup_ok by done. pose proof Hwf as (_ & Htl & _).
  by rewrite (arp_learn_find n2 n' ip m slot).
Qed.

(** When an ARP request is transmitted, the frame sent is 42 bytes long, and a host that
    receives it afterwards resolves the sender's IPv4 address to the sender's hardware address. *)
Theorem arp_request_teaches (n1 : @net H1 W1) l1 dev1 d1 target r n1' (n2 : @net H2 W2) l2 dev2 d2 :
  wf n1 → al_repr (heap n1) l1 → dev1 ≠ 0 → devs n1 !! dev1 = Some d1 → 0 ≤ ipv4_addr d1 < 2 ^ 32 →
  wf n2 → al_repr (heap n2) l2 → dev2 ≠ 0 → devs n2 !! dev2 = Some d2 →
  arp_request send1 n1 dev1 target = Ok (r, n1') →
  (r = -1 ∧ world n1' = world n1) ∨
  ∃ frame, (r, world n1') = transmit send1 n1 dev1 d1 frame ∧ zlen frame = 42 ∧
    ethernet_receive send2 call2 n2 dev2 (Some frame) 42 ⇓ λ n2',
      arp_lookup n2' (ipv4_addr d1) (Some (replicate 6 0)) = Ok (true, Some (mac d1)).
Proof.
  intros Hwf1 Ha1 H01 Hd1 Hip Hwf2 Ha2 H02 Hd2 Hreq.
  destruct (arp_request_ok send1 n1 l1 dev1 d1 target Hwf1 Ha1 H01 Hd1) as (x & Heq & Hx).
  rewrite Hreq in Heq. injection Heq as <-. destruct Hx as (_ & _ & [?|(body & Hbl & Hsha & Hspa & Hw)]); [by left|].
  right. pose proof Hwf1 as (_ & _ & _ & _ & Hmac). pose proof (Hmac _ _ Hd1) as Hm.
  exists (ethernet_frame broadcast (mac d1) ETHERTYPE_ARP body). split; [done|]. split.
  - unfold ethernet_frame, zlen, ARP_LEN in *. rewrite !length_app. simpl. lia.
  - by eapply arp_frame_teaches.
Qed.

End Teach.

(** ** A concrete stack: frames sent are collected in a list. *)

Definition wire (_ _ : Z) (frame : list Z) (w : list (list Z)) : Z * list (list Z) := (0, w ++ [frame]).
Definition no_call (_ _ _ _ : Z) (_ : list Z) (w : list (list Z)) : list (list Z) := w.

Definition sample_dev : netdev_t :=
  {| name := cstr [101]; mac := [2; 0; 0; 0; 0; 1]; ipv4_addr := 16777226; ipv4_gateway := 0;
     ipv4_netmask := 0; send := 77; poll := 0; driver_data := 0 |}.

Definition sample_net : @net heap_t (list (list Z)) :=
  {| devices := 5 :: replicate 7 0; devs := {[5 := sample_dev]};
     table := {| ipv4 := 33554442; hw := [2; 0; 0; 0; 0; 2]; valid := true |} :: replicate 31 zero_entry;
     next_id := 1; bindings := replicate 16 {| port := 0; handler := 0 |};
     heap := heap_init empty_heap 4096 8192; world := [] |}.

Lemma sample_net_wf : wf sample_net ∧ al_repr (heap sample_net) [].
Proof.
  split.
  - split; [done|]. split; [done|]. split; [done|]. split; [by repeat constructor|].
    intros p d Hp. unfold sample_net in Hp. cbn [devs] in Hp. by apply lookup_singleton_Some in Hp as [<- <-].
  - exists [(8160, true)]. split; [|done].
    apply (heap_init_repr empty_heap 4096 8192); unfold HDR; try lia; done.
Qed.

Lemma ethernet_receive_safe_witness :
  ethernet_receive wire no_call sample_net 5
    (Some ([1; 2; 3; 4; 5; 6] ++ [2; 0; 0; 0; 0; 2] ++ [8; 0] ++ [255; 0; 7])) 17
    ⇓ safe_after sample_net [].
Proof.
  apply (ethernet_receive_safe wire no_call sample_net [] 5 sample_dev).
  - apply sample_net_wf.
  - apply sample_net_wf.
  - done.
  - repeat constructor; lia.
  - vm_compute. done.
  - lia.
Defined.

Lemma dhcp_discover_never_sends_witness :
  dhcp_discover wire sample_net 5 ⇓ λ '(r, n'), r = -1 ∧ world n' = [].
Proof.
  apply (dhcp_discover_never_sends wire sample_net [] 5 sample_dev).
  - apply sample_net_wf.
  - apply sample_net_wf.
  - lia.
  - done.
  - by vm_compute.
Defined.

Lemma arp_request_teaches_witness :
  match arp_request wire sample_net 5 33554442 with
  | Ok (r, n') =>
      (r = -1 ∧ world n' = world sample_net) ∨
      ∃ frame, (r, world n') = transmit wire sample_net 5 sample_dev frame ∧ zlen frame = 42 ∧
        ethernet_receive wire no_call sample_net 5 (Some frame) 42 ⇓ λ n2',
          arp_lookup n2' 16777226 (Some (replicate 6 0)) = Ok (true, Some [2; 0; 0; 0; 0; 1])
  | _ => False
  end.
Proof.
  destruct (arp_request wire sample_net 5 33554442) as [[r n']| |] eqn:E; [|by vm_compute in E..].
  apply (arp_request_teaches wire wire no_call sample_net [] 5 sample_dev 33554442 r n' sample_net [] 5 sample_dev);
    try done; try apply sample_net_wf; vm_compute; done.
Defined.

(** The IPv4 header ipv4_send transmits does not verify: the checksum is stored in host order. *)
Theorem ipv4_send_checksum_invalid :
  ipv4_send wire sample_net 5 33554442 17 (Some []) 0 ⇓ λ '(r, n'),
    ∃ frame, world n' = [frame] ∧ net_checksum (drop 14 frame) 20 ⇓ λ c, c ≠ 0.
Proof.
  eexists. split; [by vm_compute|]. eexists. split; [done|]. eexists. split; [by vm_compute|]. done.
Qed.

End Net.
