(* ===== verification/Vmm.v ===== *)
(** Paging: page-table walks and the mapping operations (kernel/mm/vmm.c, with the
    index helpers of arch/x86_64/paging.h and the register helpers of paging.c),
    address spaces (kernel/mm/addr_space.c) and the copy-on-write counters
    (kernel/mm/cow.c).

    Memory is a map from the (virtual) address of a 64-bit word to the word, so
    that [parent[index]] is the word at [parent + 8 * index]; an access to a word
    that is not there is undefined.  Physical frames come from any
    [FrameAllocator].  [walk] is the processor's own walk and is the reference the
    operations are compared with; [tlb] holds the (non-global) translations the
    processor has cached, which [invlpg] removes one by one and a load of cr3 all
    together. *)
From S2P Require Import Prelude Bitmap Pmm.

Module Vmm.
Import Bitmap Pmm.

(** ** Data *)

Definition PAGE_SIZE : Z := 4096.
Definition PAGE_MASK : Z := u64 (Z.lnot (PAGE_SIZE - 1)).
Definition PTE_PRESENT : Z := Z.shiftl 1 0.
Definition PTE_WRITABLE : Z := Z.shiftl 1 1.
Definition PTE_USER : Z := Z.shiftl 1 2.
Definition PTE_HUGE : Z := Z.shiftl 1 7.
Definition PTE_NOEXEC : Z := Z.shiftl 1 63.

Definition pml4_index (virt : Z) : Z := u16 (Z.land (Z.shiftr virt 39) 511).
Definition pdpt_index (virt : Z) : Z := u16 (Z.land (Z.shiftr virt 30) 511).
Definition pd_index (virt : Z) : Z := u16 (Z.land (Z.shiftr virt 21) 511).
Definition pt_index (virt : Z) : Z := u16 (Z.land (Z.shiftr virt 12) 511).

Record vmm_space_t := { pml4_phys : Z; hhdm_offset : Z }.

(** [entry & PTE_PRESENT] and [entry & PTE_HUGE] as conditions. *)
Definition present (e : Z) : bool := negb (Z.land e PTE_PRESENT =? 0).
Definition huge (e : Z) : bool := negb (Z.land e PTE_HUGE =? 0).

(** The virtual page number: the 36 bits of an address that select its page. *)
Definition vpn (virt : Z) : Z := Z.land (Z.shiftr virt 12) (2 ^ 36 - 1).

(** ** Bits of an entry *)

Lemma present_bit e : present e = Z.testbit e 0.
Proof. unfold present, PTE_PRESENT. by rewrite land_bit_nonzero, negb_involutive. Qed.

Lemma huge_bit e : huge e = Z.testbit e 7.
Proof. unfold huge, PTE_HUGE. by rewrite land_bit_nonzero, negb_involutive. Qed.

Lemma testbit_page_mask j : 0 ≤ j → Z.testbit PAGE_MASK j = (12 <=? j) && (j <? 64).
Proof.
  intros. change PAGE_MASK with (Z.shiftl (Z.ones 52) 12). rewrite Z.shiftl_spec by lia.
  destruct (Z.leb_spec 12 j); simpl.
  - rewrite Z.testbit_ones by lia. destruct (Z.ltb_spec j 64), (Z.ltb_spec (j - 12) 52); try lia; simpl;
      rewrite ?andb_true_r, ?andb_false_r; done.
  - by rewrite Z.testbit_neg_r by lia.
Qed.

Lemma aligned_low_bits f j : f mod 4096 = 0 → 0 ≤ j < 12 → Z.testbit f j = false.
Proof.
  intros Hf Hj. rewrite <-(Z.mod_pow2_bits_low f 12 j) by lia.
  change (2 ^ 12) with 4096. by rewrite Hf, Z.bits_0.
Qed.

(** The address part of [f | bits] where [bits] has only bits below the page size. *)
Lemma entry_address f g :
  f mod 4096 = 0 → 0 ≤ f < 2 ^ 64 → (∀ j, 12 ≤ j → Z.testbit g j = false) →
  Z.land (Z.lor f g) PAGE_MASK = f.
Proof.
  intros Hf Hr Hg. apply Z.bits_inj'. intros j Hj.
  rewrite Z.land_spec, Z.lor_spec, testbit_page_mask by lia.
  destruct (Z.leb_spec 12 j).
  - rewrite Hg, orb_false_r by lia. destruct (Z.ltb_spec j 64); [by rewrite andb_true_r|].
    by rewrite high_bits, andb_false_l by lia.
  - by rewrite andb_false_r, (aligned_low_bits f) by lia.
Qed.

(** The entry [vmm_next_table] writes for a new table. *)
Lemma table_entry frame flags :
  frame mod 4096 = 0 → 0 < frame < 2 ^ 32 →
  let e := Z.lor (Z.lor (Z.lor frame PTE_PRESENT) PTE_WRITABLE) (Z.land flags PTE_USER) in
  present e = true ∧ huge e = false ∧ Z.land e PAGE_MASK = frame.
Proof.
  intros Hf Hr e. unfold e. rewrite <-!Z.lor_assoc. unfold PTE_PRESENT, PTE_WRITABLE, PTE_USER.
  rewrite present_bit, huge_bit, !Z.lor_spec, !Z.land_spec, !testbit_one_shiftl by lia.
  split; [apply orb_true_r|]. split.
  - rewrite (aligned_low_bits frame) by lia. simpl. apply andb_false_r.
  - apply entry_address; [done|lia|]. intros j Hj.
    rewrite !Z.lor_spec, Z.land_spec, !testbit_one_shiftl by lia.
    rewrite !(proj2 (Z.eqb_neq j _)) by lia. simpl. apply andb_false_r.
Qed.

Lemma vpn_eq v : vpn v = v / 4096 mod 2 ^ 36.
Proof.
  unfold vpn. change (2 ^ 36 - 1) with (Z.ones 36). rewrite Z.land_ones, Z.shiftr_div_pow2 by lia. done.
Qed.

Lemma index_eq (k v : Z) : 0 ≤ k → u16 (Z.land (Z.shiftr v k) 511) = v / 2 ^ k mod 512.
Proof.
  intros. change 511 with (Z.ones 9). rewrite Z.land_ones, Z.shiftr_div_pow2 by lia.
  change (2 ^ 9) with 512. apply u16_small. pose proof (Z.mod_pos_bound (v / 2 ^ k) 512). lia.
Qed.

Section Vmm.
Context {S : Type} `{FA : FrameAllocator S}.

Record mmu := {
  mem : gmap Z Z;
  frames : S;
  tlb : gmap Z (nat * Z);
  current_pml4 : Z;
  cr3 : Z;
  kernel_space : vmm_space_t
}.

Definition set_mem (m : mmu) (x : gmap Z Z) : mmu :=
  {| mem := x; frames := frames m; tlb := tlb m; current_pml4 := current_pml4 m; cr3 := cr3 m;
     kernel_space := kernel_space m |}.
Definition set_frames (m : mmu) (x : S) : mmu :=
  {| mem := mem m; frames := x; tlb := tlb m; current_pml4 := current_pml4 m; cr3 := cr3 m;
     kernel_space := kernel_space m |}.
Definition set_kernel_space (m : mmu) (x : vmm_space_t) : mmu :=
  {| mem := mem m; frames := frames m; tlb := tlb m; current_pml4 := current_pml4 m; cr3 := cr3 m;
     kernel_space := x |}.

Definition load (m : mmu) (a : Z) : outcome Z :=
  match mem m !! a with Some v => Ok v | None => Undef end.
Definition store (m : mmu) (a v : Z) : outcome mmu :=
  match mem m !! a with Some _ => Ok (set_mem m (<[a := v]> (mem m))) | None => Undef end.

(** [memset(table, 0, PAGE_SIZE)], a word at a time. *)
Definition clear_page (m : mmu) (table : Z) : outcome mmu :=
  for_each 0 512 (λ i m, store m (table + 8 * i) 0) m.

(** ** arch/x86_64/paging.c *)

Definition paging_load_cr3 (m : mmu) (pml4 : Z) : mmu :=
  {| mem := mem m; frames := frames m; tlb := ∅; current_pml4 := pml4; cr3 := pml4;
     kernel_space := kernel_space m |}.

Definition paging_init (m : mmu) (pml4 : Z) : mmu :=
  if negb (pml4 =? 0) then paging_load_cr3 m pml4
  else {| mem := mem m; frames := frames m; tlb := tlb m; current_pml4 := cr3 m; cr3 := cr3 m;
          kernel_space := kernel_space m |}.

Definition paging_current_cr3 (m : mmu) : Z :=
  if negb (current_pml4 m =? 0) then current_pml4 m else cr3 m.

Definition paging_invalidate_page (m : mmu) (virt : Z) : mmu :=
  {| mem := mem m; frames := frames m; tlb := delete (vpn virt) (tlb m);
     current_pml4 := current_pml4 m; cr3 := cr3 m; kernel_space := kernel_space m |}.

(** ** kernel/mm/vmm.c *)

Definition vmm_init (m : mmu) (kernel_pml4 hhdm : Z) : mmu :=
  set_kernel_space m
    {| pml4_phys := if negb (kernel_pml4 =? 0) then kernel_pml4 else paging_current_cr3 m;
       hhdm_offset := hhdm |}.

Definition phys_to_virt (space : option vmm_space_t) (phys : Z) : Z :=
  u64 (phys + match space with Some s => hhdm_offset s | None => 0 end).

Definition vmm_next_table (m : mmu) (space : option vmm_space_t) (parent index flags : Z)
  : outcome (Z * mmu) :=
  entry ← load m (parent + 8 * index);
  if negb (present entry) then
    '(frame, fs) ← fa_alloc (frames m);
    let m := set_frames m fs in
    if frame =? 0 then Ok (0, m)
    else
      let table := phys_to_virt space frame in
      if table =? 0 then
        fs ← fa_free (frames m) frame;
        Ok (0, set_frames m fs)
      else
        m ← clear_page m table;
        m ← store m (parent + 8 * index)
              (Z.lor (Z.lor (Z.lor frame PTE_PRESENT) PTE_WRITABLE) (Z.land flags PTE_USER));
        Ok (table, m)
  else if huge entry then Ok (0, m)
  else Ok (phys_to_virt space (Z.land entry PAGE_MASK), m).

Definition vmm_lookup_table (m : mmu) (space : option vmm_space_t) (parent index : Z) : outcome Z :=
  entry ← load m (parent + 8 * index);
  if negb (present entry) || huge entry then Ok 0
  else Ok (phys_to_virt space (Z.land entry PAGE_MASK)).

Definition vmm_map_page (m : mmu) (space : option vmm_space_t) (virt phys flags : Z)
  : outcome (Z * mmu) :=
  match space with
  | None => Ok (-1, m)
  | Some sp =>
    if pml4_phys sp =? 0 then Ok (-1, m)
    else
      let pml4 := phys_to_virt space (pml4_phys sp) in
      if pml4 =? 0 then Ok (-1, m)
      else
        '(pdpt, m) ← vmm_next_table m space pml4 (pml4_index virt) flags;
        '(pd, m) ← (if pdpt =? 0 then Ok (0, m) else vmm_next_table m space pdpt (pdpt_index virt) flags);
        '(pt, m) ← (if pd =? 0 then Ok (0, m) else vmm_next_table m space pd (pd_index virt) flags);
        if pt =? 0 then Ok (-1, m)
        else
          m ← store m (pt + 8 * pt_index virt) (Z.lor (Z.lor (Z.land phys PAGE_MASK) flags) PTE_PRESENT);
          Ok (0, paging_invalidate_page m virt)
  end.

Definition vmm_unmap_page (m : mmu) (space : option vmm_space_t) (virt : Z) : outcome (Z * mmu) :=
  match space with
  | None => Ok (-1, m)
  | Some sp =>
    if pml4_phys sp =? 0 then Ok (-1, m)
    else
      let pml4 := phys_to_virt space (pml4_phys sp) in
      if pml4 =? 0 then Ok (-1, m)
      else
        pdpt ← vmm_lookup_table m space pml4 (pml4_index virt);
        pd ← (if pdpt =? 0 then Ok 0 else vmm_lookup_table m space pdpt (pdpt_index virt));
        pt ← (if pd =? 0 then Ok 0 else vmm_lookup_table m space pd (pd_index virt));
        if pt =? 0 then Ok (-1, m)
        else
          entry ← load m (pt + 8 * pt_index virt);
          if negb (present entry) then Ok (-1, m)
          else
            m ← store m (pt + 8 * pt_index virt) 0;
            Ok (0, paging_invalidate_page m virt)
  end.

Definition vmm_virt_to_phys (m : mmu) (space : option vmm_space_t) (virt : Z) : outcome Z :=
  match space with
  | None => Ok 0
  | Some sp =>
    if pml4_phys sp =? 0 then Ok 0
    else
      pml4e ← load m (phys_to_virt space (pml4_phys sp) + 8 * pml4_index virt);
      if negb (present pml4e) then Ok 0
      else
        pdpte ← load m (phys_to_virt space (Z.land pml4e PAGE_MASK) + 8 * pdpt_index virt);
        if negb (present pdpte) then Ok 0
        else
          pde ← load m (phys_to_virt space (Z.land pdpte PAGE_MASK) + 8 * pd_index virt);
          if negb (present pde) then Ok 0
          else if huge pde then
            Ok (Z.lor (Z.land pde (u64 (Z.lnot (2 ^ 21 - 1)))) (Z.land virt (2 ^ 21 - 1)))
          else
            pte ← load m (phys_to_virt space (Z.land pde PAGE_MASK) + 8 * pt_index virt);
            if negb (present pte) then Ok 0
            else Ok (Z.lor (Z.land pte PAGE_MASK) (Z.land virt (PAGE_SIZE - 1)))
  end.

Definition vmm_activate (m : mmu) (space : option vmm_space_t) : mmu :=
  match space with
  | Some sp => if negb (pml4_phys sp =? 0) then paging_load_cr3 m (pml4_phys sp) else m
  | None => m
  end.

(** ** The processor's walk *)

(** From the table of level [l] (4 is the root) at the physical address [table]:
    the entry that maps page [n] and the level it was found at. *)
Definition index_at (l : nat) (n : Z) : Z := n / 512 ^ (Z.of_nat l - 1) mod 512.

Fixpoint walk (x : gmap Z Z) (hhdm : Z) (l : nat) (table n : Z) : option (nat * Z) :=
  match l with
  | O => None
  | Datatypes.S l' =>
      match x !! (hhdm + table + 8 * index_at l n) with
      | Some e =>
          if present e then
            match l' with
            | O => Some (l, e)
            | _ => if huge e then Some (l, e) else walk x hhdm l' (Z.land e PAGE_MASK) n
            end
          else None
      | None => None
      end
  end.

(** How page [n] of the space is mapped. *)
Definition mapping (sp : vmm_space_t) (m : mmu) (n : Z) : option (nat * Z) :=
  walk (mem m) (hhdm_offset sp) 4 (pml4_phys sp) n.

(** The processor never uses a stale translation. *)
Definition tlb_coherent (sp : vmm_space_t) (m : mmu) : Prop :=
  ∀ n x, tlb m !! n = Some x → 0 ≤ n < 2 ^ 36 ∧ mapping sp m n = Some x.

(** ** The invariant

    [T] gives every page table of the space its level and the part of the page
    number it serves: no table is reached in two ways. *)
Definition wf (T : gmap Z (nat * Z)) (sp : vmm_space_t) (m : mmu) : Prop :=
  let slot f i := hhdm_offset sp + f + 8 * i in
  (0 ≤ hhdm_offset sp ≤ 2 ^ 64 - 2 ^ 47) ∧
  T !! pml4_phys sp = Some (4%nat, 0) ∧
  (∀ f l p, T !! f = Some (l, p) →
     f mod 4096 = 0 ∧ 0 < f < 2 ^ 47 ∧ fa_busy (frames m) f ∧
     ∀ i, 0 ≤ i < 512 → is_Some (mem m !! slot f i)) ∧
  (∀ f l p i e, T !! f = Some (l, p) → (1 < l)%nat → 0 ≤ i < 512 →
     mem m !! slot f i = Some e → present e = true → huge e = false →
     T !! Z.land e PAGE_MASK = Some (pred l, p * 512 + i)) ∧
  fa_inv (frames m) ∧
  (∀ f i, ¬ fa_busy (frames m) f → f mod 4096 = 0 → 0 < f < 2 ^ 32 → 0 ≤ i < 512 →
     is_Some (mem m !! slot f i)).

(** ** Walks *)

Lemma index_at_range l n : 0 ≤ index_at l n < 512.
Proof. unfold index_at. apply Z.mod_pos_bound. lia. Qed.

Lemma code_index v :
  pml4_index v = index_at 4 (vpn v) ∧ pdpt_index v = index_at 3 (vpn v) ∧
  pd_index v = index_at 2 (vpn v) ∧ pt_index v = index_at 1 (vpn v).
Proof.
  unfold pml4_index, pdpt_index, pd_index, pt_index. rewrite !index_eq by lia.
  unfold index_at. rewrite vpn_eq. simpl Z.of_nat.
  change (2 ^ 39) with (4096 * 134217728). change (2 ^ 30) with (4096 * 262144).
  change (2 ^ 21) with (4096 * 512). change (2 ^ 12) with 4096.
  rewrite <-!Z.div_div by lia. change (512 ^ (4 - 1)) with 134217728.
  change (512 ^ (3 - 1)) with 262144. change (512 ^ (2 - 1)) with 512. change (512 ^ (1 - 1)) with 1.
  generalize (v / 4096). intros w. change (2 ^ 36) with 68719476736. repeat split; zlia.
Qed.

(** The page number a table of level [l] serves, and its child at [n]'s index. *)
Lemma prefix_step l n : (1 < l)%nat →
  n / 512 ^ Z.of_nat l * 512 + index_at l n = n / 512 ^ Z.of_nat (pred l).
Proof.
  intros Hl. unfold index_at. replace (Z.of_nat (pred l)) with (Z.of_nat l - 1) by lia.
  replace (512 ^ Z.of_nat l) with (512 ^ (Z.of_nat l - 1) * 512)
    by (rewrite Z.mul_comm, <-Z.pow_succ_r by lia; f_equal; lia).
  rewrite <-Z.div_div by lia. pose proof (Z.div_mod (n / 512 ^ (Z.of_nat l - 1)) 512). lia.
Qed.

Lemma entry_slot_inj hhdm f i g j :
  f mod 4096 = 0 → g mod 4096 = 0 → 0 ≤ i < 512 → 0 ≤ j < 512 →
  hhdm + f + 8 * i = hhdm + g + 8 * j → f = g ∧ i = j.
Proof. intros. zlia. Qed.

(** A walk from a table of the space, one level down. *)
Lemma walk_step T sp m l f n :
  wf T sp m → T !! f = Some (l, n / 512 ^ Z.of_nat l) → (1 < l)%nat →
  ∃ e, mem m !! (hhdm_offset sp + f + 8 * index_at l n) = Some e ∧
    walk (mem m) (hhdm_offset sp) l f n =
      (if present e then
         if huge e then Some (l, e) else walk (mem m) (hhdm_offset sp) (pred l) (Z.land e PAGE_MASK) n
       else None) ∧
    (present e = true → huge e = false →
     T !! Z.land e PAGE_MASK = Some (pred l, n / 512 ^ Z.of_nat (pred l))).
Proof.
  intros (_ & _ & Htab & Hch & _) Hf Hl. destruct (Htab _ _ _ Hf) as (_ & _ & _ & Hmem).
  destruct (Hmem (index_at l n) (index_at_range l n)) as [e He].
  exists e. split; [done|]. split.
  - destruct l as [|[|l]]; [lia|lia|]. cbn [walk pred]. by rewrite He.
  - intros Hp Hh. rewrite <-prefix_step by done. eapply Hch; try done. apply index_at_range.
Qed.

(** Two memories that agree, on every table of the space, about the walk's next
    step give the same mappings. *)
Lemma walk_agree T sp m x' (P : Z → Prop) :
  wf T sp m →
  (∀ f l n, T !! f = Some (l, n / 512 ^ Z.of_nat l) → P n →
     x' !! (hhdm_offset sp + f + 8 * index_at l n) = mem m !! (hhdm_offset sp + f + 8 * index_at l n) ∨
     (walk (mem m) (hhdm_offset sp) l f n = None ∧ walk x' (hhdm_offset sp) l f n = None)) →
  ∀ l f n, T !! f = Some (l, n / 512 ^ Z.of_nat l) → P n →
    walk x' (hhdm_offset sp) l f n = walk (mem m) (hhdm_offset sp) l f n.
Proof.
  intros Hwf Hag l. induction l as [|l IH]; intros f n Hf HP; [done|].
  destruct (Hag _ _ _ Hf HP) as [Heq|[-> ->]]; [|done].
  destruct l as [|l].
  - cbn [walk]. by rewrite Heq.
  - destruct (walk_step T sp m _ f n Hwf Hf ltac:(lia)) as (e & He & Hw & Hc).
    rewrite Hw. cbn [walk pred] in Hw |- *. rewrite Heq, He.
    destruct (present e) eqn:Hp; [|done]. destruct (huge e) eqn:Hh; [done|].
    apply IH; [|done]. by apply Hc.
Qed.

(** ** Adding tables *)

Definition same_registers (m m' : mmu) : Prop :=
  tlb m' = tlb m ∧ current_pml4 m' = current_pml4 m ∧ cr3 m' = cr3 m ∧ kernel_space m' = kernel_space m.

(** [m'] has more tables than [m] but the same mappings. *)
Definition extends (sp : vmm_space_t) (T : gmap Z (nat * Z)) (m : mmu) (T' : gmap Z (nat * Z)) (m' : mmu) : Prop :=
  T ⊆ T' ∧ wf T' sp m' ∧ same_registers m m' ∧
  (∀ n, 0 ≤ n < 2 ^ 36 → mapping sp m' n = mapping sp m n) ∧
  (∀ f l p i e, T !! f = Some (l, p) → 0 ≤ i < 512 → present e = true →
     mem m !! (hhdm_offset sp + f + 8 * i) = Some e → mem m' !! (hhdm_offset sp + f + 8 * i) = Some e).

Lemma extends_refl sp T m : wf T sp m → extends sp T m T m.
Proof. by intros; split. Qed.

Lemma extends_trans sp T1 m1 T2 m2 T3 m3 :
  extends sp T1 m1 T2 m2 → extends sp T2 m2 T3 m3 → extends sp T1 m1 T3 m3.
Proof.
  intros (Hs & _ & (Ha & Hb & Hc & Hd) & Hm & Hp) (Hs' & Hw' & (Ha' & Hb' & Hc' & Hd') & Hm' & Hp').
  split; [by trans T2|]. split; [done|]. split; [repeat split; congruence|]. split.
  - intros n Hn. by rewrite Hm', Hm.
  - intros f l p i e Hf Hi He Hl. eapply Hp'; [|done..|]; [by eapply lookup_weaken|by eapply Hp].
Qed.

(** The table [f] (of level [l]) points to the table [f'] for page [n]. *)
Definition link (sp : vmm_space_t) (m : mmu) (l : nat) (f n f' : Z) : Prop :=
  ∃ e, mem m !! (hhdm_offset sp + f + 8 * index_at l n) = Some e ∧ present e = true ∧ huge e = false ∧
    Z.land e PAGE_MASK = f'.

Lemma link_extends sp T m T' m' l f n f' p :
  extends sp T m T' m' → T !! f = Some (l, p) → link sp m l f n f' → link sp m' l f n f'.
Proof.
  intros (_ & _ & _ & _ & Hp) Hf (e & He & Hpr & Hr). exists e. split; [|done].
  eapply Hp; [done|apply index_at_range|done..].
Qed.

Lemma walk_link sp m l f n f' : (1 < l)%nat → link sp m l f n f' →
  walk (mem m) (hhdm_offset sp) l f n = walk (mem m) (hhdm_offset sp) (pred l) f' n.
Proof.
  intros Hl (e & He & Hp & Hh & <-). destruct l as [|[|l]]; [lia|lia|]. cbn [walk pred].
  by rewrite He, Hp, Hh.
Qed.

Lemma walk_empty_table x hhdm l f n :
  (∀ i, 0 ≤ i < 512 → x !! (hhdm + f + 8 * i) = Some 0) → walk x hhdm l f n = None.
Proof.
  intros Hz. destruct l as [|l]; [done|]. cbn [walk].
  by rewrite Hz by apply index_at_range.
Qed.

Lemma store_ok m a v : is_Some (mem m !! a) → store m a v = Ok (set_mem m (<[a := v]> (mem m))).
Proof. intros [w Hw]. unfold store. by rewrite Hw. Qed.

Lemma clear_page_ok m table :
  (∀ i, 0 ≤ i < 512 → is_Some (mem m !! (table + 8 * i))) →
  clear_page m table ⇓ λ m', ∃ x, m' = set_mem m x ∧
    (∀ i, 0 ≤ i < 512 → x !! (table + 8 * i) = Some 0) ∧
    (∀ a, (∀ i, 0 ≤ i < 512 → a ≠ table + 8 * i) → x !! a = mem m !! a).
Proof.
  intros Hd. unfold clear_page.
  apply (wp_for_each (λ k m', ∃ x, m' = set_mem m x ∧
    (∀ i, 0 ≤ i < k → x !! (table + 8 * i) = Some 0) ∧
    (∀ a, (∀ i, 0 ≤ i < k → a ≠ table + 8 * i) → x !! a = mem m !! a))).
  - lia.
  - exists (mem m). split; [by destruct m|]. split; [lia|done].
  - intros k m' Hk (x & -> & Hx & Ho). rewrite store_ok.
    + apply wp_ok. exists (<[table + 8 * k := 0]> x). split; [done|]. split.
      * intros i Hi. destruct (decide (i = k)) as [->|]; [by rewrite lookup_insert_eq|].
        rewrite lookup_insert_ne by lia. apply Hx. lia.
      * intros a Ha. rewrite lookup_insert_ne by (intros E; apply (Ha k); lia). apply Ho.
        intros i Hi. apply Ha. lia.
    + cbn [mem set_mem]. rewrite Ho by lia. apply Hd. lia.
  - done.
Qed.

(** [m'] is [m] with the frame [frame], cleared, linked into an empty entry of
    the table [f]. *)
Section FreshTable.
Context (T : gmap Z (nat * Z)) (sp : vmm_space_t) (m m' : mmu) (l : nat) (f n frame e0 e : Z).
Abbreviation slot g i := (hhdm_offset sp + g + 8 * i).
Context (Hwf : wf T sp m) (Hf : T !! f = Some (l, n / 512 ^ Z.of_nat l)) (Hl : (1 < l)%nat).
Context (He0 : mem m !! slot f (index_at l n) = Some e0) (Hnp : present e0 = false).
Context (Hnb : ¬ fa_busy (frames m) frame) (Hal : frame mod 4096 = 0) (Hfr : 0 < frame < 2 ^ 32).
Context (Hp : present e = true) (Hh : huge e = false) (Ha : Z.land e PAGE_MASK = frame).
Context (Hinv : fa_inv (frames m')) (Hb : fa_busy (frames m') frame).
Context (Hbo : ∀ g, g ≠ frame → fa_busy (frames m') g ↔ fa_busy (frames m) g).
Context (Hsame : same_registers m m').
Context (H1 : mem m' !! slot f (index_at l n) = Some e).
Context (H2 : ∀ i, 0 ≤ i < 512 → mem m' !! slot frame i = Some 0).
Context (H3 : ∀ g i, g mod 4096 = 0 → 0 ≤ i < 512 → g ≠ frame → (g, i) ≠ (f, index_at l n) →
  mem m' !! slot g i = mem m !! slot g i).

Let T' : gmap Z (nat * Z) := <[frame := (pred l, n / 512 ^ Z.of_nat (pred l))]> T.

Lemma fresh_not_table : T !! frame = None.
Proof.
  destruct (T !! frame) as [[l' p]|] eqn:E; [|done]. destruct Hwf as (_ & _ & Htab & _).
  destruct (Htab _ _ _ E) as (_ & _ & ? & _). done.
Qed.

Lemma fresh_mem_dom g i : g mod 4096 = 0 → 0 ≤ i < 512 →
  is_Some (mem m !! slot g i) → is_Some (mem m' !! slot g i).
Proof.
  intros Hg Hi Hs. destruct (decide (g = frame)) as [->|]; [by rewrite H2|].
  destruct (decide ((g, i) = (f, index_at l n))) as [[= -> ->]|]; [by rewrite H1|]. by rewrite H3.
Qed.

Lemma fresh_wf : wf T' sp m'.
Proof.
  pose proof fresh_not_table as Hnt. pose proof Hwf as (Hhh & Hroot & Htab & Hch & _ & Hfree).
  split; [done|]. split.
  { unfold T'. rewrite lookup_insert_ne; [done|]. intros ->. congruence. }
  split.
  { intros g lg p [[<- [= <- <-]]|[Hne Hg]]%lookup_insert_Some.
    - split; [done|]. split; [lia|]. split; [done|]. intros i Hi. by rewrite H2.
    - destruct (Htab _ _ _ Hg) as (? & ? & ? & ?). split; [done|]. split; [done|].
      split; [by apply Hbo|]. intros i Hi. apply fresh_mem_dom; auto. }
  split; [|split; [done|]].
  - intros g lg p i x [[<- [= <- <-]]|[Hne Hg]]%lookup_insert_Some Hlg Hi Hx Hpx Hhx.
    + rewrite H2 in Hx by done. injection Hx as <-. done.
    + destruct (Htab _ _ _ Hg) as (Hga & _ & _ & _). unfold T'.
      destruct (decide ((g, i) = (f, index_at l n))) as [[= -> ->]|Hng].
      * rewrite H1 in Hx. injection Hx as <-. rewrite Hf in Hg. injection Hg as <- <-.
        rewrite Ha, lookup_insert_eq. by rewrite prefix_step.
      * rewrite H3 in Hx by done. specialize (Hch _ _ _ _ _ Hg Hlg Hi Hx Hpx Hhx).
        rewrite lookup_insert_ne; [done|]. intros E. rewrite <-E in Hch. congruence.
  - intros g i Hg Hga Hgr Hi. apply fresh_mem_dom; [done|done|]. apply Hfree; try done.
    destruct (decide (g = frame)) as [->|]; [done|]. by rewrite <-Hbo.
Qed.

Lemma fresh_walk lg g n' : T !! g = Some (lg, n' / 512 ^ Z.of_nat lg) →
  walk (mem m') (hhdm_offset sp) lg g n' = walk (mem m) (hhdm_offset sp) lg g n'.
Proof.
  intros Hg. apply (walk_agree T sp m (mem m') (λ _, True)); try done.
  clear lg g n' Hg. intros g lg n' Hg _. pose proof Hwf as (_ & _ & Htab & _).
  destruct (Htab _ _ _ Hg) as (Hga & _).
  destruct (decide ((g, index_at lg n') = (f, index_at l n))) as [[= -> Hi]|Hne].
  - right. rewrite Hf in Hg. injection Hg as <- Hpre. split.
    + destruct l as [|l']; [done|]. cbn [walk]. by rewrite Hi, He0, Hnp.
    + rewrite (walk_link sp m' l f n' frame Hl).
      * by apply walk_empty_table.
      * exists e. by rewrite Hi.
  - left. apply H3; try done; [apply index_at_range|]. intros ->. by rewrite fresh_not_table in Hg.
Qed.

Lemma fresh_extends : extends sp T m T' m' ∧ link sp m' l f n frame.
Proof.
  split; [|by exists e]. split; [|split; [apply fresh_wf|split; [done|split]]].
  - apply insert_subseteq, fresh_not_table.
  - intros k Hk. apply fresh_walk. rewrite Z.div_small by (change (512 ^ Z.of_nat 4) with (2 ^ 36); lia).
    by destruct Hwf as (_ & ? & _).
  - intros g lg p i x Hg Hi Hx Hl'. pose proof Hwf as (_ & _ & Htab & _).
    destruct (Htab _ _ _ Hg) as (Hga & _). rewrite H3; [done|done|done| |].
    + intros ->. by rewrite fresh_not_table in Hg.
    + intros [= -> ->]. congruence.
Qed.
End FreshTable.

Lemma phys_to_virt_ok T sp m f x : wf T sp m → T !! f = Some x →
  phys_to_virt (Some sp) f = hhdm_offset sp + f ∧ 0 < hhdm_offset sp + f.
Proof.
  intros (Hhh & _ & Htab & _) Hf. destruct x as [l p]. destruct (Htab _ _ _ Hf) as (_ & Hr & _).
  unfold phys_to_virt. split; [|lia]. rewrite u64_small; lia.
Qed.

Lemma load_slot T sp m f l p i : wf T sp m → T !! f = Some (l, p) → 0 ≤ i < 512 →
  ∃ e, mem m !! (hhdm_offset sp + f + 8 * i) = Some e ∧ load m (hhdm_offset sp + f + 8 * i) = Ok e.
Proof.
  intros (_ & _ & Htab & _) Hf Hi. destruct (Htab _ _ _ Hf) as (_ & _ & _ & Hm).
  destruct (Hm i Hi) as [e He]. exists e. split; [done|]. unfold load. by rewrite He.
Qed.

(** A change of the frame allocator that takes nothing back. *)
Lemma wf_frames T sp m fs :
  wf T sp m → fa_inv fs → (∀ g, 0 < g → fa_busy (frames m) g → fa_busy fs g) →
  wf T sp (set_frames m fs).
Proof.
  intros (Hhh & Hroot & Htab & Hch & _ & Hfree) Hinv Hb.
  split; [done|]. split; [done|]. split.
  { intros f l p Hf. destruct (Htab _ _ _ Hf) as (? & ? & ? & ?). cbn [frames set_frames].
    split; [done|]. split; [done|]. split; [|done]. apply Hb; [lia|done]. }
  split; [done|]. split; [done|]. cbn [frames set_frames]. intros f i Hf Ha Hr.
  apply Hfree; [|done..]. intros ?. apply Hf, Hb; [lia|done].
Qed.

(** The new table: clearing the frame and writing the entry. *)
Lemma new_table_ok T sp m fs f l n frame e0 flags :
  wf T sp m → T !! f = Some (l, n / 512 ^ Z.of_nat l) → (1 < l)%nat →
  mem m !! (hhdm_offset sp + f + 8 * index_at l n) = Some e0 → present e0 = false →
  frame mod 4096 = 0 → 0 < frame < 2 ^ 32 → ¬ fa_busy (frames m) frame → fa_busy fs frame →
  fa_inv fs → (∀ g, g ≠ frame → fa_busy fs g ↔ fa_busy (frames m) g) →
  (m' ← clear_page (set_frames m fs) (hhdm_offset sp + frame);
   store m' (hhdm_offset sp + f + 8 * index_at l n)
     (Z.lor (Z.lor (Z.lor frame PTE_PRESENT) PTE_WRITABLE) (Z.land flags PTE_USER))) ⇓ λ m', ∃ T',
    extends sp T m T' m' ∧ T' !! frame = Some (pred l, n / 512 ^ Z.of_nat (pred l)) ∧ link sp m' l f n frame.
Proof.
  intros Hwf Hf Hl He0 Hp0 Hal Hfr Hnb Hb Hinv Hbo.
  pose proof Hwf as (Hhh & _ & Htab & _ & _ & Hfree). destruct (Htab _ _ _ Hf) as (Hfa & _).
  destruct (table_entry frame flags Hal Hfr) as (Hp & Hh & Ha).
  assert (f ≠ frame) as Hne.
  { intros ->. destruct (Htab _ _ _ Hf) as (_ & _ & ? & _). done. }
  apply wp_bind. eapply wp_mono; [apply clear_page_ok|].
  { intros i Hi. cbn [mem set_frames]. by apply Hfree. }
  intros m1 (x & -> & Hz & Ho). cbn [mem set_frames] in *. pose proof (index_at_range l n) as Hi.
  assert (∀ g i, g mod 4096 = 0 → 0 ≤ i < 512 → g ≠ frame →
    x !! (hhdm_offset sp + g + 8 * i) = mem m !! (hhdm_offset sp + g + 8 * i)) as Hx.
  { intros g i Hg Hi' Hgf. apply Ho. intros j Hj E. by apply entry_slot_inj in E as [-> _]. }
  rewrite store_ok by (cbn [mem set_mem]; rewrite Hx by done; by eauto).
  apply wp_ok. eexists. edestruct (fresh_extends T sp m
    (set_mem (set_mem (set_frames m fs) x) (<[hhdm_offset sp + f + 8 * index_at l n := Z.lor (Z.lor
      (Z.lor frame PTE_PRESENT) PTE_WRITABLE) (Z.land flags PTE_USER)]> x)) l f n frame e0) as [He Hlk];
    [done..| | | |].
  - cbn [mem set_mem]. by rewrite lookup_insert_eq.
  - intros i Hi'. cbn [mem set_mem]. rewrite lookup_insert_ne; [by apply Hz|].
    intros E. by apply entry_slot_inj in E as [-> _].
  - intros g i Hg Hi' Hgf Hgi. cbn [mem set_mem]. rewrite lookup_insert_ne; [by apply Hx|].
    intros E. apply entry_slot_inj in E as [? ?]; congruence.
  - split; [done|]. split; [|done]. by rewrite lookup_insert_eq.
Qed.

(** [vmm_next_table] either fails or leaves the next table linked; the mappings of
    the space do not change. *)
Lemma next_table_ok T sp m f l n flags :
  wf T sp m → T !! f = Some (l, n / 512 ^ Z.of_nat l) → (1 < l)%nat →
  vmm_next_table m (Some sp) (hhdm_offset sp + f) (index_at l n) flags ⇓ λ '(t, m'), ∃ T',
    extends sp T m T' m' ∧
    (t = 0 ∨ ∃ f', t = hhdm_offset sp + f' ∧ t ≠ 0 ∧
       T' !! f' = Some (pred l, n / 512 ^ Z.of_nat (pred l)) ∧ link sp m' l f n f').
Proof.
  intros Hwf Hf Hl. unfold vmm_next_table. pose proof (index_at_range l n) as Hi.
  destruct (load_slot T sp m f _ _ (index_at l n) Hwf Hf Hi) as (e0 & He0 & ->). rewrite bind_ok.
  destruct (present e0) eqn:Hp0; cbn [negb].
  - destruct (huge e0) eqn:Hh0.
    + apply wp_ok. exists T. split; [by apply extends_refl|by left].
    + apply wp_ok. exists T. split; [by apply extends_refl|]. right.
      pose proof Hwf as (_ & _ & _ & Hch & _). pose proof (Hch _ _ _ _ _ Hf Hl Hi He0 Hp0 Hh0) as Hc.
      rewrite prefix_step in Hc by done. destruct (phys_to_virt_ok _ _ _ _ _ Hwf Hc) as [-> ?].
      exists (Z.land e0 PAGE_MASK). split; [done|]. split; [lia|]. split; [done|]. by exists e0.
  - pose proof Hwf as (Hhh & _ & Htab & _ & Hinv & Hfree). apply wp_bind.
    eapply wp_mono; [by apply fa_alloc_spec|]. intros [frame fs] (Hinv' & Hnz & Hbo). cbv zeta.
    destruct (Z.eqb_spec frame 0) as [->|Hfr].
    { apply wp_ok. exists T. split; [|by left]. split; [done|]. split; [|by split].
      apply wf_frames; [done|done|]. intros g Hg. apply Hbo. lia. }
    destruct (Hnz Hfr) as (Hal & Hr & Hnb & Hb). unfold phys_to_virt. rewrite u64_small by lia.
    rewrite (Z.add_comm frame), (proj2 (Z.eqb_neq (_ + frame) 0)) by lia.
    destruct (new_table_ok T sp m fs f l n frame e0 flags) as (m' & Hm' & T' & HT'); [done..|].
    apply bind_inv in Hm' as (m1 & -> & Hm'). rewrite bind_ok, Hm', bind_ok.
    apply wp_ok. exists T'. split; [apply HT'|]. right. exists frame. split; [done|]. split; [lia|]. apply HT'.
Qed.

(** ** The last level *)

(** The tables on the way to the entry of page [n]. *)
Definition path_to (T : gmap Z (nat * Z)) (sp : vmm_space_t) (m : mmu) (n f1 : Z) : Prop :=
  ∃ f3 f2, T !! f3 = Some (3%nat, n / 512 ^ 3) ∧ T !! f2 = Some (2%nat, n / 512 ^ 2) ∧
    T !! f1 = Some (1%nat, n / 512 ^ 1) ∧
    link sp m 4 (pml4_phys sp) n f3 ∧ link sp m 3 f3 n f2 ∧ link sp m 2 f2 n f1.

Lemma path_mapping T sp m n f1 : path_to T sp m n f1 →
  mapping sp m n = walk (mem m) (hhdm_offset sp) 1 f1 n.
Proof.
  intros (f3 & f2 & _ & _ & _ & H4 & H3 & H2). unfold mapping.
  rewrite (walk_link sp m 4 _ n f3) by (done || lia). cbn [pred].
  rewrite (walk_link sp m 3 _ n f2) by (done || lia). cbn [pred].
  by rewrite (walk_link sp m 2 _ n f1) by (done || lia).
Qed.

Lemma root_prefix T sp m n : wf T sp m → 0 ≤ n < 2 ^ 36 →
  T !! pml4_phys sp = Some (4%nat, n / 512 ^ Z.of_nat 4).
Proof.
  intros (_ & Hr & _) Hn. rewrite Z.div_small by (change (512 ^ Z.of_nat 4) with (2 ^ 36); lia). done.
Qed.

Lemma same_page (n n' : Z) : n / 512 ^ 1 = n' / 512 ^ 1 → index_at 1 n = index_at 1 n' → n = n'.
Proof.
  unfold index_at. simpl Z.of_nat. change (512 ^ (1 - 1)) with 1. change (512 ^ 1) with 512. intros. zlia.
Qed.

(** Writing the last-level entry of page [n] changes the mapping of that page and of
    no other. *)
Lemma set_leaf T sp m n f1 e :
  wf T sp m → 0 ≤ n < 2 ^ 36 → path_to T sp m n f1 →
  let m' := set_mem m (<[hhdm_offset sp + f1 + 8 * index_at 1 n := e]> (mem m)) in
  wf T sp m' ∧
  ∀ n', 0 ≤ n' < 2 ^ 36 →
    mapping sp m' n' = if decide (n' = n) then (if present e then Some (1%nat, e) else None)
                       else mapping sp m n'.
Proof.
  intros Hwf Hn Hpath m'. pose proof Hpath as (f3 & f2 & Hf3 & Hf2 & Hf1 & H4 & H3 & H2).
  pose proof Hwf as (Hhh & Hroot & Htab & Hch & Hinv & Hfree).
  destruct (Htab _ _ _ Hf1) as (Ha1 & _ & _ & Hm1). pose proof (index_at_range 1 n) as Hi.
  assert (∀ a, is_Some (mem m !! a) → is_Some (mem m' !! a)) as Hdom.
  { intros a Ha. cbn [mem m' set_mem]. apply lookup_insert_is_Some'. by right. }
  assert (∀ f l p i, T !! f = Some (l, p) → 0 ≤ i < 512 → (f, i) ≠ (f1, index_at 1 n) →
    mem m' !! (hhdm_offset sp + f + 8 * i) = mem m !! (hhdm_offset sp + f + 8 * i)) as Hoth.
  { intros f l p i Hf Hi' Hne. destruct (Htab _ _ _ Hf) as (Ha & _). cbn [mem m' set_mem].
    apply lookup_insert_ne. intros E. apply entry_slot_inj in E as [? ?]; congruence. }
  assert (∀ f l p i, T !! f = Some (l, p) → (1 < l)%nat → (f, i) ≠ (f1, index_at 1 n)) as Hup.
  { intros f l p i Hf Hl [= -> _]. rewrite Hf1 in Hf. injection Hf as <- _. lia. }
  assert (wf T sp m') as Hwf'.
  { split; [done|]. split; [done|]. split.
    { intros f l p Hf. destruct (Htab _ _ _ Hf) as (? & ? & ? & ?). by auto 10. }
    split; [|split; [done|]].
    - intros f l p i x Hf Hl Hi' Hx. rewrite (Hoth f l p i) in Hx by eauto. by eapply Hch.
    - intros f i Hb Ha Hr Hi'. by apply Hdom, Hfree. }
  split; [done|]. intros n' Hn'. case_decide as Hnn.
  - subst n'. rewrite (path_mapping T sp m' n f1).
    + cbn [walk]. cbn [mem m' set_mem]. by rewrite lookup_insert_eq.
    + pose proof (root_prefix T sp m n Hwf Hn) as Hr4.
      exists f3, f2. split; [done|]. split; [done|]. split; [done|]. unfold link in *.
      rewrite (Hoth _ _ _ (index_at 4 n) Hr4), (Hoth _ _ _ (index_at 3 n) Hf3), (Hoth _ _ _ (index_at 2 n) Hf2)
        by (apply index_at_range || (eapply Hup; [done|lia])). done.
  - apply (walk_agree T sp m (mem m') (λ k, k ≠ n)); [done| |by apply (root_prefix T sp m)|done].
    intros f l k Hf Hk. left. apply (Hoth f l _ _ Hf); [apply index_at_range|]. intros [= -> Hik].
    rewrite Hf1 in Hf. injection Hf as <- Hpre. apply Hk. symmetry. by apply same_page.
Qed.

Lemma wf_invalidate T sp m v : wf T sp m → wf T sp (paging_invalidate_page m v).
Proof. done. Qed.

(** ** The operations *)

(** What an operation that sets the mapping of the page of [v] to [x] promises:
    on success that page and only that page changed, on failure none did, and the
    processor's cache stays coherent. *)
Definition sets_mapping (sp : vmm_space_t) (m : mmu) (v : Z) (x : option (nat * Z)) (r : Z) (m' : mmu) : Prop :=
  (tlb_coherent sp m → tlb_coherent sp m') ∧
  ((r = 0 ∧ ∀ n, 0 ≤ n < 2 ^ 36 → mapping sp m' n = if decide (n = vpn v) then x else mapping sp m n) ∨
   (r = -1 ∧ ∀ n, 0 ≤ n < 2 ^ 36 → mapping sp m' n = mapping sp m n)).

Lemma vpn_range v : 0 ≤ vpn v < 2 ^ 36.
Proof. rewrite vpn_eq. apply Z.mod_pos_bound. lia. Qed.

Lemma extends_coherent sp T m T' m' :
  extends sp T m T' m' → tlb_coherent sp m → tlb_coherent sp m'.
Proof.
  intros (_ & _ & (Ht & _) & Hm & _) Hc n x Hn. rewrite Ht in Hn. destruct (Hc n x Hn) as [Hr Hx].
  split; [done|]. by rewrite Hm.
Qed.

Lemma failed_mapping sp T m T' m' v x :
  extends sp T m T' m' → sets_mapping sp m v x (-1) m'.
Proof.
  intros He. split; [by eapply extends_coherent|]. right. split; [done|]. apply He.
Qed.

(** Writing the entry and dropping the page from the cache. *)
Lemma leaf_sets_mapping T sp m T' m' v f1 e :
  extends sp T m T' m' → path_to T' sp m' (vpn v) f1 →
  let m2 := paging_invalidate_page
    (set_mem m' (<[hhdm_offset sp + f1 + 8 * index_at 1 (vpn v) := e]> (mem m'))) v in
  wf T' sp m2 ∧ sets_mapping sp m v (if present e then Some (1%nat, e) else None) 0 m2.
Proof.
  intros He Hp m2. pose proof He as (_ & Hwf' & (Ht & _) & Hm & _). pose proof (vpn_range v) as Hv.
  destruct (set_leaf T' sp m' (vpn v) f1 e Hwf' Hv Hp) as [Hwf2 Hmap]. split; [done|].
  assert (∀ n, 0 ≤ n < 2 ^ 36 → mapping sp m2 n =
    if decide (n = vpn v) then (if present e then Some (1%nat, e) else None) else mapping sp m n) as Hmap2.
  { intros n Hn. change (mapping sp m2 n) with
      (mapping sp (set_mem m' (<[hhdm_offset sp + f1 + 8 * index_at 1 (vpn v) := e]> (mem m'))) n).
    rewrite Hmap by done. case_decide; [done|by apply Hm]. }
  split; [|by left]. intros Hc n x Hn. cbn [tlb m2 paging_invalidate_page set_mem] in Hn.
  apply lookup_delete_Some in Hn as [Hne Hn]. rewrite Ht in Hn. destruct (Hc n x Hn) as [Hr Hx].
  split; [done|]. rewrite Hmap2 by done. by rewrite decide_False.
Qed.

(** The walk of [vmm_map_page] down to the last table. *)
Lemma map_tables_ok T sp m v flags :
  wf T sp m →
  ('(pdpt, m) ← vmm_next_table m (Some sp) (hhdm_offset sp + pml4_phys sp) (pml4_index v) flags;
   '(pd, m) ← (if pdpt =? 0 then Ok (0, m) else vmm_next_table m (Some sp) pdpt (pdpt_index v) flags);
   if pd =? 0 then Ok (0, m) else vmm_next_table m (Some sp) pd (pd_index v) flags) ⇓ λ '(t, m'), ∃ T',
    extends sp T m T' m' ∧
    (t = 0 ∨ ∃ f1, t = hhdm_offset sp + f1 ∧ t ≠ 0 ∧ path_to T' sp m' (vpn v) f1).
Proof.
  intros Hwf. destruct (code_index v) as (-> & -> & -> & _). pose proof (vpn_range v) as Hv.
  generalize dependent (vpn v). clear v. intros n Hn. pose proof (root_prefix T sp m n Hwf Hn) as Hr.
  apply wp_bind. eapply wp_mono; [apply (next_table_ok T sp m _ 4 n); (done || lia)|].
  intros [t3 m3] (T3 & He3 & Ht3). apply wp_bind. destruct Ht3 as [->|(f3 & -> & H0 & Hf3 & Hl3)].
  { rewrite Z.eqb_refl. apply wp_ok. rewrite Z.eqb_refl. apply wp_ok. exists T3. by auto. }
  rewrite (proj2 (Z.eqb_neq _ 0) H0). pose proof He3 as (_ & Hwf3 & _). cbn [pred] in Hf3.
  eapply wp_mono; [apply (next_table_ok T3 sp m3 f3 3 n); (done || lia)|].
  intros [t2 m2] (T2 & He2 & Ht2). destruct Ht2 as [->|(f2 & -> & H1 & Hf2 & Hl2)].
  { rewrite Z.eqb_refl. apply wp_ok. exists T2. split; [by eapply extends_trans|by left]. }
  rewrite (proj2 (Z.eqb_neq _ 0) H1). pose proof He2 as (Hs2 & Hwf2 & _). cbn [pred] in Hf2.
  eapply wp_mono; [apply (next_table_ok T2 sp m2 f2 2 n); (done || lia)|].
  intros [t1 m1] (T1 & He1 & Ht1). exists T1.
  assert (extends sp T m T2 m2) as He by (by eapply extends_trans).
  split; [by eapply extends_trans|]. destruct Ht1 as [->|(f1 & -> & H2 & Hf1 & Hl1)]; [by left|].
  right. exists f1. split; [done|]. split; [done|]. pose proof He1 as (Hs1 & _).
  assert (T2 !! f3 = Some (3%nat, n / 512 ^ 3)) as Hf3' by (by eapply lookup_weaken).
  pose proof He3 as (Hs3 & _).
  exists f3, f2. split; [by eapply lookup_weaken|]. split; [by eapply lookup_weaken|]. split; [done|]. split.
  - eapply (link_extends sp T2 m2 T1 m1); [done| |].
    + eapply lookup_weaken; [by apply (root_prefix T3 sp m3 n)|done].
    + eapply (link_extends sp T3 m3 T2 m2); [done|by apply (root_prefix T3 sp m3 n)|done].
  - split; [|done]. by eapply (link_extends sp T2 m2 T1 m1).
Qed.

Lemma map_page_ok T sp m v phys flags :
  wf T sp m →
  vmm_map_page m (Some sp) v phys flags ⇓ λ '(r, m'), (∃ T', T ⊆ T' ∧ wf T' sp m') ∧
    sets_mapping sp m v (Some (1%nat, Z.lor (Z.lor (Z.land phys PAGE_MASK) flags) PTE_PRESENT)) r m'.
Proof.
  intros Hwf. unfold vmm_map_page. pose proof Hwf as (_ & Hroot & Htab & _).
  destruct (Htab _ _ _ Hroot) as (_ & Hpr & _).
  destruct (phys_to_virt_ok _ _ _ _ _ Hwf Hroot) as [-> Hpos]. cbv zeta.
  rewrite (proj2 (Z.eqb_neq (pml4_phys sp) 0)), (proj2 (Z.eqb_neq (_ + _) 0)) by lia.
  destruct (map_tables_ok T sp m v flags Hwf) as ([t m'] & Hrun & T' & He & Ht).
  apply bind_inv in Hrun as ([pdpt m3] & -> & Hrun). rewrite bind_ok.
  apply bind_inv in Hrun as ([pd m2] & -> & Hrun). rewrite bind_ok, Hrun, bind_ok. clear Hrun.
  pose proof He as (Hs & Hwf' & _). destruct Ht as [->|(f1 & -> & H0 & Hp)].
  { rewrite Z.eqb_refl. apply wp_ok. split; [by eauto|]. by eapply failed_mapping. }
  rewrite (proj2 (Z.eqb_neq _ 0) H0). destruct (code_index v) as (_ & _ & _ & ->).
  pose proof Hp as (f3 & f2 & _ & _ & Hf1 & _).
  destruct (load_slot _ _ _ _ _ _ (index_at 1 (vpn v)) Hwf' Hf1 (index_at_range _ _)) as (e0 & He0 & _).
  rewrite store_ok, bind_ok by eauto. apply wp_ok.
  set (e := Z.lor (Z.lor (Z.land phys PAGE_MASK) flags) PTE_PRESENT).
  destruct (leaf_sets_mapping T sp m T' m' v f1 e He Hp) as [Hwf2 Hset].
  split; [by eauto|]. assert (present e = true) as Hpe.
  { unfold e. rewrite present_bit, Z.lor_spec. apply orb_true_r. }
  by rewrite Hpe in Hset.
Qed.

Lemma lookup_table_ok T sp m f l n :
  wf T sp m → T !! f = Some (l, n / 512 ^ Z.of_nat l) → (1 < l)%nat →
  vmm_lookup_table m (Some sp) (hhdm_offset sp + f) (index_at l n) ⇓ λ t,
    (t = 0 ∧ ∀ e, walk (mem m) (hhdm_offset sp) l f n ≠ Some (1%nat, e)) ∨
    ∃ f', t = hhdm_offset sp + f' ∧ t ≠ 0 ∧ T !! f' = Some (pred l, n / 512 ^ Z.of_nat (pred l)) ∧
      link sp m l f n f'.
Proof.
  intros Hwf Hf Hl. unfold vmm_lookup_table.
  destruct (walk_step T sp m l f n Hwf Hf Hl) as (e & He & Hw & Hc).
  destruct (load_slot T sp m f _ _ (index_at l n) Hwf Hf (index_at_range _ _)) as (e' & He' & ->).
  assert (e' = e) as -> by congruence. rewrite bind_ok, Hw.
  destruct (present e) eqn:Hp; cbn [negb orb]; [|apply wp_ok; by left].
  destruct (huge e) eqn:Hh; apply wp_ok.
  - left. split; [done|]. intros x [= -> _]. lia.
  - right. destruct (phys_to_virt_ok _ _ _ _ _ Hwf (Hc eq_refl eq_refl)) as [-> ?].
    exists (Z.land e PAGE_MASK). split; [done|]. split; [lia|]. split; [by apply Hc|]. by exists e.
Qed.

(** The walk of [vmm_unmap_page] down to the last table. *)
Lemma unmap_tables_ok T sp m v :
  wf T sp m →
  (pdpt ← vmm_lookup_table m (Some sp) (hhdm_offset sp + pml4_phys sp) (pml4_index v);
   pd ← (if pdpt =? 0 then Ok 0 else vmm_lookup_table m (Some sp) pdpt (pdpt_index v));
   if pd =? 0 then Ok 0 else vmm_lookup_table m (Some sp) pd (pd_index v)) ⇓ λ t,
    (t = 0 ∧ ∀ e, mapping sp m (vpn v) ≠ Some (1%nat, e)) ∨
    ∃ f1, t = hhdm_offset sp + f1 ∧ t ≠ 0 ∧ path_to T sp m (vpn v) f1.
Proof.
  intros Hwf. destruct (code_index v) as (-> & -> & -> & _). pose proof (vpn_range v) as Hv.
  generalize dependent (vpn v). clear v. intros n Hn. pose proof (root_prefix T sp m n Hwf Hn) as Hr.
  unfold mapping. apply wp_bind. eapply wp_mono; [apply (lookup_table_ok T sp m _ 4 n); (done || lia)|].
  intros t3 [[-> Hno]|(f3 & -> & H0 & Hf3 & Hl3)].
  { rewrite Z.eqb_refl, bind_ok, Z.eqb_refl. apply wp_ok. by left. }
  rewrite (proj2 (Z.eqb_neq _ 0) H0). cbn [pred] in Hf3.
  rewrite (walk_link sp m 4 _ n f3) by (done || lia). cbn [pred].
  apply wp_bind. eapply wp_mono; [apply (lookup_table_ok T sp m f3 3 n); (done || lia)|].
  intros t2 [[-> Hno]|(f2 & -> & H1 & Hf2 & Hl2)].
  { rewrite Z.eqb_refl. apply wp_ok. by left. }
  rewrite (proj2 (Z.eqb_neq _ 0) H1). cbn [pred] in Hf2.
  rewrite (walk_link sp m 3 _ n f2) by (done || lia). cbn [pred].
  eapply wp_mono; [apply (lookup_table_ok T sp m f2 2 n); (done || lia)|].
  intros t1 [[-> Hno]|(f1 & -> & H2 & Hf1 & Hl1)]; [by left|right].
  exists f1. split; [done|]. split; [done|]. by exists f3, f2.
Qed.

Lemma unmap_page_ok T sp m v :
  wf T sp m →
  vmm_unmap_page m (Some sp) v ⇓ λ '(r, m'), wf T sp m' ∧ sets_mapping sp m v None r m' ∧
    (r = 0 ↔ ∃ e, mapping sp m (vpn v) = Some (1%nat, e)).
Proof.
  intros Hwf. unfold vmm_unmap_page. pose proof Hwf as (_ & Hroot & Htab & _).
  destruct (Htab _ _ _ Hroot) as (_ & Hpr & _).
  destruct (phys_to_virt_ok _ _ _ _ _ Hwf Hroot) as [-> Hpos]. cbv zeta.
  rewrite (proj2 (Z.eqb_neq (pml4_phys sp) 0)), (proj2 (Z.eqb_neq (_ + _) 0)) by lia.
  destruct (unmap_tables_ok T sp m v Hwf) as (t & Hrun & Ht).
  apply bind_inv in Hrun as (pdpt & -> & Hrun). rewrite bind_ok.
  apply bind_inv in Hrun as (pd & -> & Hrun). rewrite bind_ok, Hrun, bind_ok. clear Hrun.
  pose proof (extends_refl sp T m Hwf) as He.
  destruct Ht as [[-> Hno]|(f1 & -> & H0 & Hp)].
  { rewrite Z.eqb_refl. apply wp_ok. split; [done|]. split; [by eapply failed_mapping|].
    split; [lia|]. intros [e He']. by destruct (Hno e). }
  rewrite (proj2 (Z.eqb_neq _ 0) H0). destruct (code_index v) as (_ & _ & _ & ->).
  pose proof Hp as (f3 & f2 & _ & _ & Hf1 & _). pose proof (path_mapping _ _ _ _ _ Hp) as Hmap.
  destruct (load_slot _ _ _ _ _ _ (index_at 1 (vpn v)) Hwf Hf1 (index_at_range _ _)) as (e & He0 & ->).
  rewrite bind_ok. cbn [walk] in Hmap. rewrite He0 in Hmap.
  destruct (present e) eqn:Hpe; cbn [negb].
  - rewrite store_ok, bind_ok by eauto. apply wp_ok.
    destruct (leaf_sets_mapping T sp m T m v f1 0 He Hp) as [Hwf2 Hset]. split; [done|]. split; [done|].
    split; [by eauto|done].
  - apply wp_ok. split; [done|]. split; [by eapply failed_mapping|].
    split; [lia|]. intros [x Hx]. congruence.
Qed.

(** What the hardware makes of a mapping: the physical address of [v], or a fault. *)
Definition resolve (x : option (nat * Z)) (v : Z) : Z :=
  match x with
  | Some (1%nat, e) => Z.lor (Z.land e PAGE_MASK) (Z.land v (PAGE_SIZE - 1))
  | Some (2%nat, e) => Z.lor (Z.land e (u64 (Z.lnot (2 ^ 21 - 1)))) (Z.land v (2 ^ 21 - 1))
  | Some (3%nat, e) => Z.lor (Z.land e (u64 (Z.lnot (2 ^ 30 - 1)))) (Z.land v (2 ^ 30 - 1))
  | _ => 0
  end.

(** No page is mapped by an entry of the two upper levels. *)
Definition no_giant_pages (sp : vmm_space_t) (m : mmu) : Prop :=
  ∀ n l e, 0 ≤ n < 2 ^ 36 → mapping sp m n = Some (l, e) → (l ≤ 2)%nat.

(** One level of the walk of [vmm_virt_to_phys]. *)
Lemma translate_step T sp m f l n :
  wf T sp m → T !! f = Some (l, n / 512 ^ Z.of_nat l) → (1 < l)%nat →
  ∃ e, load m (phys_to_virt (Some sp) f + 8 * index_at l n) = Ok e ∧
    walk (mem m) (hhdm_offset sp) l f n =
      (if present e then
         if huge e then Some (l, e) else walk (mem m) (hhdm_offset sp) (pred l) (Z.land e PAGE_MASK) n
       else None) ∧
    mem m !! (hhdm_offset sp + f + 8 * index_at l n) = Some e ∧
    (present e = true → huge e = false →
     T !! Z.land e PAGE_MASK = Some (pred l, n / 512 ^ Z.of_nat (pred l))).
Proof.
  intros Hwf Hf Hl. destruct (walk_step T sp m l f n Hwf Hf Hl) as (e & He & Hw & Hc).
  destruct (phys_to_virt_ok _ _ _ _ _ Hwf Hf) as [-> _].
  destruct (load_slot T sp m f _ _ (index_at l n) Hwf Hf (index_at_range _ _)) as (e' & He' & ->).
  assert (e' = e) as -> by congruence. by exists e.
Qed.

Lemma virt_to_phys_ok T sp m v :
  wf T sp m → no_giant_pages sp m →
  vmm_virt_to_phys m (Some sp) v = Ok (resolve (mapping sp m (vpn v)) v).
Proof.
  intros Hwf Hng. unfold vmm_virt_to_phys. pose proof Hwf as (_ & Hroot & Htab & _).
  destruct (Htab _ _ _ Hroot) as (_ & Hpr & _). rewrite (proj2 (Z.eqb_neq (pml4_phys sp) 0)) by lia.
  destruct (code_index v) as (-> & -> & -> & ->).
  pose proof (root_prefix T sp m (vpn v) Hwf (vpn_range v)) as Hr.
  specialize (λ l e, Hng (vpn v) l e (vpn_range v)). unfold mapping in *.
  generalize dependent (vpn v). intros n Hng Hr.
  destruct (translate_step T sp m _ 4 n Hwf Hr) as (e4 & -> & Hw4 & Hm4 & Hc4); [lia|]. rewrite bind_ok.
  rewrite Hw4 in *. destruct (present e4) eqn:Hp4; cbn [negb]; [|done].
  destruct (huge e4) eqn:Hh4; [specialize (Hng _ _ eq_refl); lia|].
  specialize (Hc4 eq_refl eq_refl). cbn [pred] in *.
  destruct (translate_step T sp m _ 3 n Hwf Hc4) as (e3 & -> & Hw3 & Hm3 & Hc3); [lia|]. rewrite bind_ok.
  rewrite Hw3 in *. destruct (present e3) eqn:Hp3; cbn [negb]; [|done].
  destruct (huge e3) eqn:Hh3; [specialize (Hng _ _ eq_refl); lia|].
  specialize (Hc3 eq_refl eq_refl). cbn [pred] in *.
  destruct (translate_step T sp m _ 2 n Hwf Hc3) as (e2 & -> & -> & Hm2 & Hc2); [lia|]. rewrite bind_ok.
  destruct (present e2) eqn:Hp2; cbn [negb]; [|done]. destruct (huge e2) eqn:Hh2; [done|].
  specialize (Hc2 eq_refl eq_refl). cbn [pred] in *.
  destruct (phys_to_virt_ok _ _ _ _ _ Hwf Hc2) as [-> _].
  destruct (load_slot T sp m _ _ _ (index_at 1 n) Hwf Hc2 (index_at_range _ _)) as (e1 & He1 & ->).
  rewrite bind_ok. cbn [walk]. rewrite He1. by destruct (present e1).
Qed.

(** ** Refinement of a map from pages to entries *)

Inductive op := OMap (virt phys flags : Z) | OUnmap (virt : Z).

Definition exec (sp : vmm_space_t) (m : mmu) (o : op) : outcome (Z * mmu) :=
  match o with
  | OMap v p fl => vmm_map_page m (Some sp) v p fl
  | OUnmap v => vmm_unmap_page m (Some sp) v
  end.

Fixpoint run (sp : vmm_space_t) (m : mmu) (os : list op) : outcome (list Z * mmu) :=
  match os with
  | [] => Ok ([], m)
  | o :: os =>
      '(r, m) ← exec sp m o;
      '(rs, m) ← run sp m os;
      Ok (r :: rs, m)
  end.

(** The specification: a partial map from page numbers to entries.  An operation
    that reports success updates one page. *)
Definition op_page (o : op) : Z := match o with OMap v _ _ | OUnmap v => vpn v end.
Definition op_value (o : op) : option (nat * Z) :=
  match o with
  | OMap _ p fl => Some (1%nat, Z.lor (Z.lor (Z.land p PAGE_MASK) fl) PTE_PRESENT)
  | OUnmap _ => None
  end.

Fixpoint spec_run (A : Z → option (nat * Z)) (os : list op) (rs : list Z) : Z → option (nat * Z) :=
  match os, rs with
  | o :: os, r :: rs =>
      spec_run (λ n, if decide (r = 0 ∧ n = op_page o) then op_value o else A n) os rs
  | _, _ => A
  end.

Lemma spec_run_ext A B os rs n :
  (∀ k, 0 ≤ k < 2 ^ 36 → A k = B k) → 0 ≤ n < 2 ^ 36 → spec_run A os rs n = spec_run B os rs n.
Proof.
  revert A B rs. induction os as [|o os IH]; intros A B [|r rs] HAB Hn; simpl; auto.
  apply IH; [|done]. intros k Hk. case_decide; [done|by apply HAB].
Qed.

Lemma vmm_exec_ok T sp m o :
  wf T sp m →
  exec sp m o ⇓ λ '(r, m'), (∃ T', wf T' sp m') ∧ (tlb_coherent sp m → tlb_coherent sp m') ∧
    (r = 0 ∨ r = -1) ∧
    ∀ n, 0 ≤ n < 2 ^ 36 →
      mapping sp m' n = if decide (r = 0 ∧ n = op_page o) then op_value o else mapping sp m n.
Proof.
  intros Hwf. assert (∀ v x r m', sets_mapping sp m v x r m' →
    (tlb_coherent sp m → tlb_coherent sp m') ∧ (r = 0 ∨ r = -1) ∧ ∀ n, 0 ≤ n < 2 ^ 36 →
      mapping sp m' n = if decide (r = 0 ∧ n = vpn v) then x else mapping sp m n) as Hset.
  { intros v x r m' (Hc & [[-> Hm]|[-> Hm]]); (split; [done|]); (split; [by auto|]);
      intros n Hn; rewrite Hm by done; repeat case_decide; done || lia. }
  destruct o as [v p fl|v]; cbn [exec op_page op_value].
  - eapply wp_mono; [by apply (map_page_ok T)|]. intros [r m'] ((T' & _ & Hw) & Hs). split; [by eauto|]. by apply Hset.
  - eapply wp_mono; [by apply (unmap_page_ok T)|]. intros [r m'] (Hw & Hs & _). split; [by eauto|]. by apply Hset.
Qed.

(** C2: A sequence of vmm_map_page and vmm_unmap_page calls on a well-formed four-level page-
    table tree terminates, returns 0 or -1 for each call, keeps the tree well formed and the TLB
    coherent with it, and changes the translation the hardware walk computes for each of the
    2^36 virtual pages exactly as the abstract page map does: a successful call sets or clears
    its own page and nothing else, a failing call nothing. *)
Theorem vmm_refines_page_map T sp m os :
  wf T sp m → tlb_coherent sp m →
  run sp m os ⇓ λ '(rs, m'),
    (∃ T', wf T' sp m') ∧ tlb_coherent sp m' ∧ length rs = length os ∧ Forall (λ r, r = 0 ∨ r = -1) rs ∧
    ∀ n, 0 ≤ n < 2 ^ 36 → mapping sp m' n = spec_run (mapping sp m) os rs n.
Proof.
  revert T m. induction os as [|o os IH]; intros T m Hwf Hc; cbn [run].
  - apply wp_ok. by eauto 10.
  - apply wp_bind. eapply wp_mono; [by apply (vmm_exec_ok T)|]. intros [r m1] ((T1 & Hw1) & Hc1 & Hr & Hm1).
    apply wp_bind. eapply wp_mono; [by apply (IH T1); auto|].
    intros [rs m2] (Hw2 & Hc2 & Hlen & Hrs & Hm2). apply wp_ok. split; [done|]. split; [done|].
    split; [simpl; lia|]. split; [by constructor|]. intros n Hn. rewrite Hm2 by done. simpl.
    by apply spec_run_ext.
Qed.

Lemma mapped_address phys flags v' :
  0 ≤ phys < 2 ^ 64 → 0 ≤ flags < 4096 →
  resolve (Some (1%nat, Z.lor (Z.lor (Z.land phys PAGE_MASK) flags) PTE_PRESENT)) v' =
  Z.lor (Z.land phys PAGE_MASK) (Z.land v' (PAGE_SIZE - 1)).
Proof.
  intros Hp Hfl. cbn [resolve]. f_equal. apply Z.bits_inj'. intros j Hj.
  rewrite Z.land_spec, !Z.lor_spec, !Z.land_spec, testbit_page_mask by lia.
  destruct (Z.leb_spec 12 j); cbn [andb]; rewrite ?andb_false_r; [|done].
  assert (Z.testbit flags j = false) as ->.
  { destruct (decide (flags = 0)) as [->|]; [apply Z.bits_0|]. apply Z.bits_above_log2; [lia|].
    assert (Z.log2 flags < 12) by (apply Z.log2_lt_pow2; lia). lia. }
  unfold PTE_PRESENT. rewrite testbit_one_shiftl by lia. rewrite (proj2 (Z.eqb_neq j 0)) by lia.
  rewrite !orb_false_r. by destruct (j <? 64); rewrite ?andb_true_r, ?andb_false_r.
Qed.

(** In an address space without 1 GiB pages, vmm_virt_to_phys after vmm_map_page gives the
    mapped physical address plus the page offset for every address of the mapped page when the
    call returned 0, and for all other addresses what it gave before. *)
Theorem vmm_map_then_translate T sp m v phys flags :
  wf T sp m → no_giant_pages sp m → 0 ≤ phys < 2 ^ 64 → 0 ≤ flags < 4096 →
  vmm_map_page m (Some sp) v phys flags ⇓ λ '(r, m'), no_giant_pages sp m' ∧
    ∀ v', vmm_virt_to_phys m' (Some sp) v' =
      if decide (r = 0 ∧ vpn v' = vpn v)
      then Ok (Z.lor (Z.land phys PAGE_MASK) (Z.land v' (PAGE_SIZE - 1)))
      else vmm_virt_to_phys m (Some sp) v'.
Proof.
  intros Hwf Hng Hp Hfl. eapply wp_mono; [by apply (vmm_exec_ok T sp m (OMap v phys flags))|].
  intros [r m'] ((T' & Hwf') & _ & _ & Hm). cbn [op_page op_value] in Hm.
  assert (no_giant_pages sp m') as Hng'.
  { intros n l e Hn Hmn. rewrite Hm in Hmn by done. case_decide; [injection Hmn as <- _; lia|by eapply Hng]. }
  split; [done|]. intros v'. rewrite (virt_to_phys_ok T' sp m'), (virt_to_phys_ok T sp m) by done.
  rewrite Hm by apply vpn_range. destruct (decide (r = 0 ∧ vpn v' = vpn v)) as [?|Hn]; [by rewrite mapped_address|done].
Qed.

End Vmm.

(** ** A concrete space

    Seven frames of zeroed memory in the direct map, the last of them the root
    table; frames 1 to 4 are free. *)
Definition zero_words (base n : Z) : gmap Z Z := list_to_map ((λ i, (base + 8 * i, 0)) <$> seqZ 0 n).

Lemma zero_words_lookup base n i : 0 ≤ i < n → zero_words base n !! (base + 8 * i) = Some 0.
Proof.
  intros Hi. apply elem_of_list_to_map_1.
  - rewrite <-list_fmap_compose. apply (NoDup_fmap_2_strong _); [|apply NoDup_seqZ].
    intros x y _ _. simpl. lia.
  - apply list_elem_of_fmap. exists i. split; [done|]. apply elem_of_seqZ. lia.
Qed.

Lemma zero_words_zero base n a e : zero_words base n !! a = Some e → e = 0.
Proof.
  intros He%elem_of_list_to_map_2. apply list_elem_of_fmap in He as (i & [= _ ->] & _). done.
Qed.

Definition sample_frames : pmm_t :=
  {| frame_storage := [UINT64_MAX - 30];
     frame_map := {| words := Some [UINT64_MAX - 30]; bit_count := 6 |};
     total_frames := 6; free_frames := 4 |}.

Definition sample_space : vmm_space_t := {| pml4_phys := 24576; hhdm_offset := 1048576 |}.

(** The space over a memory [M]. *)
Definition mmu_over (M : gmap Z Z) : mmu :=
  {| mem := M; frames := sample_frames; tlb := ∅;
     current_pml4 := 24576; cr3 := 24576; kernel_space := sample_space |}.

Definition sample_mmu : mmu := mmu_over (zero_words (hhdm_offset sample_space) (7 * 512)).

Definition sample_tables : gmap Z (nat * Z) := {[24576 := (4%nat, 0)]}.

Lemma sample_frames_inv : inv sample_frames.
Proof.
  split; [|split; [done|split; [by compute|by vm_compute]]].
  exists [UINT64_MAX - 30]. split; [done|]. split; [by compute|]. split; [by compute|].
  constructor; [by compute|constructor].
Qed.

(** All that the space needs of its memory. *)
Section Zeroed.
Context (M : gmap Z Z).
Hypothesis slot : ∀ f i, 0 ≤ f ≤ 24576 → f mod 4096 = 0 → 0 ≤ i < 512 →
  M !! (hhdm_offset sample_space + f + 8 * i) = Some 0.
Hypothesis zero : ∀ a e, M !! a = Some e → e = 0.

Lemma zeroed_wf : wf sample_tables sample_space (mmu_over M).
Proof using slot zero.
  split; [done|]. split; [done|]. split.
  { intros f l p Hf. unfold sample_tables in Hf. apply lookup_singleton_Some in Hf as [<- _]. split; [done|]. split; [lia|]. split.
    - split; [done|]. split; [lia|]. by vm_compute.
    - intros i Hi. cbn [mem mmu_over]. by rewrite slot. }
  split; [|split; [apply sample_frames_inv|]].
  - intros f l p i e _ _ _ He Hp. apply zero in He as ->. done.
  - intros f i Hb Ha Hr Hi. cbn [mem mmu_over]. rewrite slot; [done| |done|done]. split; [lia|].
    destruct (used sample_frames !! Z.to_nat (f / 4096)) as [x|] eqn:E.
    + apply lookup_lt_Some in E. change (length (used sample_frames)) with 6%nat in E. zlia.
    + destruct Hb. split; [done|]. split; [lia|]. cbn [frames mmu_over]. by rewrite E.
Qed.

Lemma zeroed_no_giant : no_giant_pages sample_space (mmu_over M).
Proof using slot.
  intros n l e Hn He. unfold mapping in He. cbn [walk mem mmu_over pml4_phys sample_space] in He.
  by rewrite slot in He by (lia || apply index_at_range || done).
Qed.

End Zeroed.

Lemma zero_words_slot f i : 0 ≤ f ≤ 24576 → f mod 4096 = 0 → 0 ≤ i < 512 →
  zero_words (hhdm_offset sample_space) (7 * 512) !! (hhdm_offset sample_space + f + 8 * i) = Some 0.
Proof.
  intros Hf Ha Hi.
  replace (hhdm_offset sample_space + f + 8 * i) with (hhdm_offset sample_space + 8 * (f / 8 + i)) by zlia.
  apply zero_words_lookup. zlia.
Qed.

Lemma sample_wf : wf sample_tables sample_space sample_mmu.
Proof. apply zeroed_wf; [apply zero_words_slot|apply zero_words_zero]. Qed.

Lemma sample_no_giant : no_giant_pages sample_space sample_mmu.
Proof. apply zeroed_no_giant, zero_words_slot. Qed.

Lemma vmm_refines_page_map_witness :
  run sample_space sample_mmu [OMap 4194304 12288 2; OMap 8192 16384 0; OUnmap 4194304] ⇓ λ '(rs, m'),
    rs = [0; 0; 0] ∧ mapping sample_space m' 2 = Some (1%nat, 16385) ∧
    mapping sample_space m' 1024 = None.
Proof.
  destruct (vmm_refines_page_map sample_tables sample_space sample_mmu
    [OMap 4194304 12288 2; OMap 8192 16384 0; OUnmap 4194304]) as ([rs m'] & Hrun & Hpost).
  - apply sample_wf.
  - intros n x Hn. done.
  - exists (rs, m'). split; [done|]. destruct Hpost as (_ & _ & _ & _ & Hm).
    assert (rs = [0; 0; 0]) as ->.
    { assert (match run sample_space sample_mmu [OMap 4194304 12288 2; OMap 8192 16384 0; OUnmap 4194304] with
              | Ok (rs, _) => rs = [0; 0; 0] | _ => False end) as H by (by vm_compute).
      by rewrite Hrun in H. }
    split; [done|]. rewrite !Hm by lia. split; by vm_compute.
Defined.

Lemma vmm_map_then_translate_witness :
  vmm_map_page sample_mmu (Some sample_space) 4194304 12288 2 ⇓ λ '(r, m'),
    r = 0 ∧ vmm_virt_to_phys m' (Some sample_space) 4194400 = Ok 12384 ∧
    vmm_virt_to_phys m' (Some sample_space) 8192 = Ok 0.
Proof.
  destruct (vmm_map_then_translate sample_tables sample_space sample_mmu 4194304 12288 2)
    as ([r m'] & Hrun & _ & Hpost); [apply sample_wf|apply sample_no_giant|lia|lia|].
  exists (r, m'). split; [done|].
  assert (r = 0) as ->.
  { assert (match vmm_map_page sample_mmu (Some sample_space) 4194304 12288 2 with
            | Ok (r, _) => r = 0 | _ => False end) as H by (by vm_compute).
    by rewrite Hrun in H. }
  split; [done|]. rewrite !Hpost. split; [by vm_compute|].
  rewrite decide_False by (by vm_compute; intros [_ ?]). by vm_compute.
Defined.

(** A 1 GiB page at the third level. *)
Definition giant_mmu : mmu :=
  mmu_over {[hhdm_offset sample_space + 24576 := 4096 + 3;
             hhdm_offset sample_space + 4096 := 2 ^ 30 + 128 + 3;
             hhdm_offset sample_space + 2 ^ 30 := 0]}.

(** vmm_virt_to_phys returns 0 for an address inside a present 1 GiB page, which the hardware
    walk translates, and returns an address with bit 63 set for a page mapped no-execute. *)
Theorem vmm_virt_to_phys_misreads :
  (mapping sample_space giant_mmu 0 = Some (3%nat, 2 ^ 30 + 128 + 3) ∧
   resolve (mapping sample_space giant_mmu 0) 16 = 2 ^ 30 + 16 ∧
   vmm_virt_to_phys giant_mmu (Some sample_space) 16 = Ok 0) ∧
  ('(_, m) ← vmm_map_page sample_mmu (Some sample_space) 4194304 12288 (PTE_WRITABLE + PTE_NOEXEC);
   vmm_virt_to_phys m (Some sample_space) 4194304) = Ok (2 ^ 63 + 12288).
Proof. split; [split; [by vm_compute|split; by vm_compute]|by vm_compute]. Qed.

End Vmm.

(** ** Address spaces (kernel/mm/addr_space.c) *)
Module AddrSpace.
Import Bitmap Pmm Vmm.

Section AddrSpace.
Context {S : Type} `{FA : FrameAllocator S}.

Record addr_space_t := {
  vmm : vmm_space_t;
  heap_base : Z;
  heap_end : Z;
  stack_top : Z;
  refcount : Z
}.

(** [spaces] holds the objects an [addr_space_t *] can point to; 0 is NULL. *)
Record state := { spaces : gmap Z addr_space_t; current_space : Z; hw : mmu (S := S) }.

Definition set_refcount (a : addr_space_t) (r : Z) : addr_space_t :=
  {| vmm := vmm a; heap_base := heap_base a; heap_end := heap_end a; stack_top := stack_top a; refcount := r |}.

Definition addr_space_init_kernel (s : state) (space pml4 hhdm : Z) : outcome state :=
  if space =? 0 then Ok s
  else match spaces s !! space with
       | None => Undef
       | Some _ =>
           Ok {| spaces := <[space := {| vmm := {| pml4_phys := pml4; hhdm_offset := hhdm |};
                                         heap_base := 0; heap_end := 0; stack_top := 0; refcount := 1 |}]> (spaces s);
                 current_space := space; hw := hw s |}
       end.

Definition addr_space_current (s : state) : Z := current_space s.
Definition addr_space_kernel (s : state) : Z := current_space s.

Definition addr_space_switch (s : state) (space : Z) : outcome state :=
  if space =? 0 then Ok s
  else match spaces s !! space with
       | None => Undef
       | Some a => Ok {| spaces := spaces s; current_space := space; hw := vmm_activate (hw s) (Some (vmm a)) |}
       end.

(** [int] overflow of the counter is undefined. *)
Definition addr_space_retain (s : state) (space : Z) : outcome state :=
  if space =? 0 then Ok s
  else match spaces s !! space with
       | None => Undef
       | Some a =>
           if refcount a =? 2 ^ 31 - 1 then Undef
           else Ok {| spaces := <[space := set_refcount a (refcount a + 1)]> (spaces s);
                      current_space := current_space s; hw := hw s |}
       end.

Definition addr_space_release (s : state) (space : Z) : outcome state :=
  if space =? 0 then Ok s
  else match spaces s !! space with
       | None => Undef
       | Some a =>
           if 0 <? refcount a
           then Ok {| spaces := <[space := set_refcount a (refcount a - 1)]> (spaces s);
                      current_space := current_space s; hw := hw s |}
           else Ok s
       end.

(** Switching to a space makes the processor translate with that space's tables
    only: nothing cached under the previous space survives. *)
Lemma addr_space_switch_ok s space a :
  space ≠ 0 → spaces s !! space = Some a → pml4_phys (vmm a) ≠ 0 →
  addr_space_switch s space ⇓ λ s',
    addr_space_current s' = space ∧ cr3 (hw s') = pml4_phys (vmm a) ∧
    paging_current_cr3 (hw s') = pml4_phys (vmm a) ∧ tlb_coherent (vmm a) (hw s').
Proof.
  intros H0 Ha Hp. unfold addr_space_switch. rewrite (proj2 (Z.eqb_neq space 0)), Ha by done.
  apply wp_ok. split; [done|]. unfold vmm_activate. rewrite (proj2 (Z.eqb_neq (pml4_phys _) 0)) by done.
  split; [done|]. split.
  - unfold paging_current_cr3. cbn. by rewrite (proj2 (Z.eqb_neq (pml4_phys _) 0)).
  - intros n x Hn. done.
Qed.

(** A reference taken is given back: the counter returns to its value. *)
Lemma retain_release s space a :
  space ≠ 0 → spaces s !! space = Some a → 0 ≤ refcount a < 2 ^ 31 - 1 →
  (s' ← addr_space_retain s space; addr_space_release s' space) ⇓ λ s', s' = s.
Proof.
  intros H0 Ha Hr. unfold addr_space_retain, addr_space_release.
  rewrite (proj2 (Z.eqb_neq space 0)), Ha, (proj2 (Z.eqb_neq (refcount a) _)) by lia.
  rewrite bind_ok. cbn [spaces]. rewrite lookup_insert_eq. cbn [refcount set_refcount].
  rewrite (proj2 (Z.ltb_lt 0 (refcount a + 1))) by lia. apply wp_ok. destruct s as [sp c h]. f_equal.
  cbn [spaces] in *. rewrite insert_insert_eq. rewrite insert_id; [done|]. rewrite Ha. f_equal. destruct a.
  unfold set_refcount. cbn. f_equal. lia.
Qed.
End AddrSpace.
End AddrSpace.

(** ** Copy-on-write bookkeeping (kernel/mm/cow.c): the state is [handled_faults]. *)
Module Cow.
Definition cow_init (_ : Z) : Z := 0.
Definition cow_mark_page (_virt : Z) : Z := 0.
Definition cow_handle_fault (handled_faults fault_addr error_code : Z) : Z * Z :=
  if Z.land error_code 2 =? 0 then (-1, handled_faults) else (0, u64 (handled_faults + 1)).
Definition cow_fault_count (handled_faults : Z) : Z := handled_faults.

(** The counter counts the write faults among the faults handled. *)
Definition write_fault (e : Z) : bool := Z.testbit e 1.

(** cow_fault_count is the number of write faults handled. *)
Lemma cow_counts_write_faults (faults : list (Z * Z)) :
  (zlen faults < 2 ^ 64) →
  cow_fault_count (foldl (λ c '(a, e), (cow_handle_fault c a e).2) (cow_init 0) faults) =
  zlen (filter (λ x, write_fault x.2 = true) faults).
Proof.
  assert (∀ (l : list (Z * Z)) c, 0 ≤ c → c + zlen l < 2 ^ 64 →
    foldl (λ c '(a, e), (cow_handle_fault c a e).2) c l = c + zlen (filter (λ x, write_fault x.2 = true) l)) as Hgen.
  { induction l as [|[a e] l IH]; intros c Hc Hb; [unfold zlen; simpl; lia|].
    unfold zlen in *. cbn [foldl length] in *. rewrite filter_cons. cbn [snd].
    unfold cow_handle_fault at 2. change 2 with (Z.shiftl 1 1) at 1. rewrite land_bit_nonzero by lia.
    unfold write_fault in *. destruct (Z.testbit e 1); cbn [negb snd].
    - rewrite decide_True by done. rewrite u64_small by lia. rewrite IH by lia. simpl length. lia.
    - rewrite decide_False by done. apply IH; lia. }
  intros Hb. unfold cow_fault_count, cow_init. rewrite Hgen by lia. lia.
Qed.
End Cow.
