(* ===== verification/Vfs.v ===== *)
(** The virtual file system: the tree of nodes and its operations (kernel/fs/vfs.c),
    the in-memory file system (kernel/fs/tmpfs.c) and pipe nodes
    (kernel/fs/pipe_fs.c).

    Nodes, tmpfs files and pipes are objects kept by address (0 is NULL); the bytes
    a tmpfs file points to are kept by the address of their block.  A table of
    function pointers ([vfs_ops_t]) is the constructor that names it, and a call
    through it is a case distinction.  [garbage] gives the bytes of memory nobody
    has written: the locals of a function and the part [krealloc] adds. *)
From S2P Require Import Prelude Chain KString Heap KStdlib Sync Path Ipc.

Module Vfs.
Import KString Heap KStdlib Path.

(** ** Data *)

Definition VFS_NAME_MAX : Z := 64.
Definition VFS_PATH_MAX : Z := 256.

Inductive vfs_node_type_t := VFS_NODE_FILE | VFS_NODE_DIR | VFS_NODE_DEVICE | VFS_NODE_PIPE.
#[global] Instance vfs_node_type_eq_dec : EqDecision vfs_node_type_t.
Proof. solve_decision. Defined.

Inductive vfs_ops_t := no_ops | tmpfs_ops | pipefs_ops.
#[global] Instance vfs_ops_eq_dec : EqDecision vfs_ops_t.
Proof. solve_decision. Defined.

Record vfs_node_t := {
  name : list Z;
  type : vfs_node_type_t;
  mode : Z;
  size : Z;
  private_data : Z;
  ops : vfs_ops_t;
  parent : Z;
  next : Z;
  children : Z
}.

Record tmpfs_file_t := { data : Z; capacity : Z }.

(** sizeof of the structures *)
Definition VFS_NODE_SIZE : Z := 120.
Definition TMPFS_FILE_SIZE : Z := 16.
Definition IPC_PIPE_SIZE : Z := 72.

Definition zero_node : vfs_node_t :=
  {| name := replicate (Z.to_nat VFS_NAME_MAX) 0; type := VFS_NODE_FILE; mode := 0; size := 0;
     private_data := 0; ops := no_ops; parent := 0; next := 0; children := 0 |}.

Definition set_links (n : vfs_node_t) (pa ne : Z) : vfs_node_t :=
  {| name := name n; type := type n; mode := mode n; size := size n; private_data := private_data n;
     ops := ops n; parent := pa; next := ne; children := children n |}.
Definition set_children (n : vfs_node_t) (c : Z) : vfs_node_t :=
  {| name := name n; type := type n; mode := mode n; size := size n; private_data := private_data n;
     ops := ops n; parent := parent n; next := next n; children := c |}.
Definition set_size (n : vfs_node_t) (sz : Z) : vfs_node_t :=
  {| name := name n; type := type n; mode := mode n; size := sz; private_data := private_data n;
     ops := ops n; parent := parent n; next := next n; children := children n |}.
Definition set_private (n : vfs_node_t) (p : Z) : vfs_node_t :=
  {| name := name n; type := type n; mode := mode n; size := size n; private_data := p;
     ops := ops n; parent := parent n; next := next n; children := children n |}.

Section Vfs.
Context {H : Type} `{RA : Reallocator H}.
Context (garbage : Z → Z → Z).

Record fs := {
  nodes : gmap Z vfs_node_t;
  files : gmap Z tmpfs_file_t;
  blocks : gmap Z (list Z);
  pipes : gmap Z Pipe.ipc_pipe_t;
  root_node : Z;
  heap : H
}.

Definition set_nodes (s : fs) (x : gmap Z vfs_node_t) : fs :=
  {| nodes := x; files := files s; blocks := blocks s; pipes := pipes s; root_node := root_node s; heap := heap s |}.
Definition set_files (s : fs) (x : gmap Z tmpfs_file_t) : fs :=
  {| nodes := nodes s; files := x; blocks := blocks s; pipes := pipes s; root_node := root_node s; heap := heap s |}.
Definition set_blocks (s : fs) (x : gmap Z (list Z)) : fs :=
  {| nodes := nodes s; files := files s; blocks := x; pipes := pipes s; root_node := root_node s; heap := heap s |}.
Definition set_pipes (s : fs) (x : gmap Z Pipe.ipc_pipe_t) : fs :=
  {| nodes := nodes s; files := files s; blocks := blocks s; pipes := x; root_node := root_node s; heap := heap s |}.
Definition set_root (s : fs) (x : Z) : fs :=
  {| nodes := nodes s; files := files s; blocks := blocks s; pipes := pipes s; root_node := x; heap := heap s |}.
Definition set_heap (s : fs) (x : H) : fs :=
  {| nodes := nodes s; files := files s; blocks := blocks s; pipes := pipes s; root_node := root_node s; heap := x |}.

(** [*node] *)
Definition get_node (s : fs) (p : Z) : outcome vfs_node_t :=
  match nodes s !! p with Some n => Ok n | None => Undef end.
Definition put_node (s : fs) (p : Z) (n : vfs_node_t) : fs := set_nodes s (<[p := n]> (nodes s)).
Definition get_file (s : fs) (p : Z) : outcome tmpfs_file_t :=
  match files s !! p with Some f => Ok f | None => Undef end.

(** A local array of [n] bytes. *)
Definition local (n : Z) : list Z := garbage 0 <$> seqZ 0 n.

(** ** kernel/fs/vfs.c, first part *)

Definition vfs_init (s : fs) (root : Z) : fs := set_root s root.
Definition vfs_root (s : fs) : Z := root_node s.

Definition vfs_mount_root (s : fs) (root : Z) : outcome (Z * fs) :=
  if root =? 0 then Ok (-1, s)
  else
    n ← get_node s root;
    if decide (type n ≠ VFS_NODE_DIR) then Ok (-1, s)
    else Ok (0, put_node (set_root s root) root (set_links n root (next n))).

Definition vfs_attach_child (s : fs) (pa child : Z) : outcome fs :=
  if (pa =? 0) || (child =? 0) then Ok s
  else
    p ← get_node s pa;
    c ← get_node s child;
    let s := put_node s child (set_links c pa (children p)) in
    p ← get_node s pa;
    Ok (put_node s pa (set_children p child)).

(** ** kernel/fs/tmpfs.c *)

Definition tmpfs_read (s : fs) (node offset : Z) (buffer : option (list Z)) (count : Z)
  : outcome (Z * option (list Z)) :=
  if node =? 0 then Ok (-1, buffer)
  else match buffer with
  | None => Ok (-1, buffer)
  | Some buf =>
    n ← get_node s node;
    if decide (type n ≠ VFS_NODE_FILE) then Ok (-1, buffer)
    else if (private_data n =? 0) || (size n <=? offset) then Ok (0, buffer)
    else
      file ← get_file s (private_data n);
      let count := if size n <? u64 (offset + count) then u64 (size n - offset) else count in
      buf ← memcpy buf 0 (default [] (blocks s !! data file)) offset count;
      Ok (i32 count, Some buf)
  end.

(** [file = kcalloc(1, sizeof( *file))] when the node has none: 0 if that fails. *)
Definition tmpfs_file (s : fs) (node : Z) : outcome (Z * fs) :=
  n ← get_node s node;
  if negb (private_data n =? 0) then Ok (private_data n, s)
  else
    '(file, h) ← al_calloc (heap s) 1 TMPFS_FILE_SIZE;
    let s := set_heap s h in
    if file =? 0 then Ok (0, s)
    else Ok (file, put_node (set_files s (<[file := {| data := 0; capacity := 0 |}]> (files s))) node
                     (set_private n file)).

(** [krealloc(file->data, cap)] and the [memset] of the part that was added.  The
    file's bytes move to the new block; 0 if the allocation fails. *)
Definition tmpfs_grow (s : fs) (file cap : Z) : outcome (Z * fs) :=
  f ← get_file s file;
  '(q, h) ← al_realloc (heap s) (data f) cap;
  let s := set_heap s h in
  if q =? 0 then Ok (0, s)
  else
    let old := default [] (blocks s !! data f) in
    let block := old ++ (garbage q <$> seqZ (zlen old) (cap - zlen old)) in
    block ← (if capacity f <? cap then memset block (capacity f) 0 (u64 (cap - capacity f)) else Ok block);
    Ok (q, set_files (set_blocks s (<[q := block]> (delete (data f) (blocks s))))
             (<[file := {| data := q; capacity := cap |}]> (files s))).

(** [while (capacity < required) capacity *= 2;] *)
Definition double_capacity (fuel : nat) (cap required : Z) : outcome Z :=
  loop fuel (λ cap, if cap <? required then Ok (inl (u64 (cap * 2))) else Ok (inr cap)) cap.

Definition tmpfs_write (s : fs) (node offset : Z) (buffer : option (list Z)) (count : Z) : outcome (Z * fs) :=
  if node =? 0 then Ok (-1, s)
  else match buffer with
  | None => Ok (-1, s)
  | Some buf =>
    n ← get_node s node;
    if decide (type n ≠ VFS_NODE_FILE) then Ok (-1, s)
    else
      '(file, s) ← tmpfs_file s node;
      if file =? 0 then Ok (-1, s)
      else
        let required := u64 (offset + count) in
        f ← get_file s file;
        '(ok, s) ←
          (if capacity f <? required then
             cap ← double_capacity 65 (if negb (capacity f =? 0) then capacity f else 128) required;
             '(q, s) ← tmpfs_grow s file cap;
             Ok (negb (q =? 0), s)
           else Ok (true, s));
        if negb ok then Ok (-1, s)
        else
          f ← get_file s file;
          s ← match blocks s !! data f with
              | Some block =>
                  block ← memcpy block offset buf 0 count;
                  Ok (set_blocks s (<[data f := block]> (blocks s)))
              | None => if count =? 0 then Ok s else Undef
              end;
          n ← get_node s node;
          let s := if size n <? required then put_node s node (set_size n required) else s in
          Ok (i32 count, s)
  end.

(** The search of [tmpfs_lookup] along the children. *)
Definition find_child (s : fs) (child : Z) (nm : list Z) : outcome Z :=
  loop (S (S (base.size (nodes s))))
    (λ child,
       if child =? 0 then Ok (inr 0)
       else
         c ← get_node s child;
         r ← strcmp (name c) nm;
         if r =? 0 then Ok (inr child) else Ok (inl (next c))) child.

Definition tmpfs_lookup (s : fs) (dir : Z) (nm : option (list Z)) : outcome Z :=
  if dir =? 0 then Ok 0
  else match nm with
  | None => Ok 0
  | Some nm =>
    d ← get_node s dir;
    if decide (type d ≠ VFS_NODE_DIR) then Ok 0 else find_child s (children d) nm
  end.

Definition tmpfs_truncate (s : fs) (node sz : Z) : outcome (Z * fs) :=
  if node =? 0 then Ok (-1, s)
  else
    n ← get_node s node;
    if decide (type n ≠ VFS_NODE_FILE) then Ok (-1, s)
    else
      '(file, s) ← tmpfs_file s node;
      if file =? 0 then Ok (-1, s)
      else
        f ← get_file s file;
        '(ok, s) ← (if capacity f <? sz then '(q, s) ← tmpfs_grow s file sz; Ok (negb (q =? 0), s)
                    else Ok (true, s));
        if negb ok then Ok (-1, s)
        else
          n ← get_node s node;
          Ok (0, put_node s node (set_size n sz)).

(** The name of a new node, cut to what the field holds: [memcpy(node->name, ...)]
    and the terminator. *)
Definition copy_name (field nm : list Z) : outcome (list Z) :=
  len ← strlen (Some nm);
  let len := if VFS_NAME_MAX <=? len then VFS_NAME_MAX - 1 else len in
  field ← memcpy field 0 nm 0 len;
  zset field len 0.

(** The last result is what was stored through [out]. *)
Definition tmpfs_create_node (s : fs) (dir : Z) (nm : option (list Z)) (ty : vfs_node_type_t)
  : outcome (Z * option Z * fs) :=
  if dir =? 0 then Ok (-1, None, s)
  else match nm with
  | None => Ok (-1, None, s)
  | Some nm =>
    d ← get_node s dir;
    if decide (type d ≠ VFS_NODE_DIR) then Ok (-1, None, s)
    else
      old ← tmpfs_lookup s dir (Some nm);
      if negb (old =? 0) then Ok (-1, None, s)
      else
        '(node, h) ← al_calloc (heap s) 1 VFS_NODE_SIZE;
        let s := set_heap s h in
        if node =? 0 then Ok (-1, None, s)
        else
          field ← copy_name (name zero_node) nm;
          let n := {| name := field; type := ty; mode := 0; size := 0; private_data := 0;
                      ops := tmpfs_ops; parent := 0; next := 0; children := 0 |} in
          s ← vfs_attach_child (put_node s node n) dir node;
          Ok (0, Some node, s)
  end.

Definition tmpfs_create_root (s : fs) : outcome (Z * fs) :=
  '(root, h) ← al_calloc (heap s) 1 VFS_NODE_SIZE;
  let s := set_heap s h in
  if root =? 0 then Ok (0, s)
  else
    nm ← zset (name zero_node) 0 slash;
    Ok (root, put_node s root {| name := nm; type := VFS_NODE_DIR; mode := 0; size := 0; private_data := 0;
                                 ops := tmpfs_ops; parent := 0; next := 0; children := 0 |}).

(** ** kernel/fs/vfs.c, second part *)

(** One turn of the loop of [vfs_lookup]: [inr] returns from the function. *)
Definition walk_body (s : fs) : Z * list Z * list Z → outcome (Z * list Z * list Z + Z) :=
  λ '(node, cursor, component),
    '(len, cursor', component') ← path_next_component (Some (Some cursor)) (Some component) VFS_NAME_MAX;
    match cursor', component' with
    | Some (Some cursor), Some component =>
      if negb (0 <? len) then Ok (inr node)
      else
        r1 ← strcmp component (cstr [dot]);
        if r1 =? 0 then Ok (inl (node, cursor, component))
        else
          r2 ← strcmp component (cstr [dot; dot]);
          n ← get_node s node;
          if r2 =? 0 then
            Ok (inl (if negb (parent n =? 0) then parent n else node, cursor, component))
          else match ops n with
          | tmpfs_ops =>
              node ← tmpfs_lookup s node (Some component);
              if node =? 0 then Ok (inr 0) else Ok (inl (node, cursor, component))
          | _ => Ok (inr 0)
          end
    | _, _ => Undef
    end.

(** The walk along the components of a normalized path. *)
Definition walk_components (s : fs) (node : Z) (cursor component : list Z) : outcome Z :=
  loop (S (length cursor)) (walk_body s) (node, cursor, component).

Definition vfs_lookup (s : fs) (path : option (list Z)) : outcome Z :=
  if root_node s =? 0 then Ok 0
  else match path with
  | None => Ok 0
  | Some path =>
    '(r, normalized) ← path_normalize (Some path) (Some (local VFS_PATH_MAX)) VFS_PATH_MAX;
    if negb (r =? 0) then Ok 0
    else match normalized with
    | Some normalized => walk_components s (root_node s) normalized (local VFS_NAME_MAX)
    | None => Undef
    end
  end.

(** The offset of the last slash: [-1] is a null [slash]. *)
Fixpoint last_slash (cursor : list Z) (pos found : Z) : outcome Z :=
  match cursor with
  | [] => Undef
  | c :: rest =>
      if c =? 0 then Ok found
      else last_slash rest (pos + 1) (if c =? slash then pos else found)
  end.

Definition vfs_create (s : fs) (path : option (list Z)) (ty : vfs_node_type_t) : outcome (Z * option Z * fs) :=
  if root_node s =? 0 then Ok (-1, None, s)
  else match path with
  | None => Ok (-1, None, s)
  | Some path =>
    '(r, normalized) ← path_normalize (Some path) (Some (local VFS_PATH_MAX)) VFS_PATH_MAX;
    if negb (r =? 0) then Ok (-1, None, s)
    else match normalized with
    | None => Undef
    | Some normalized =>
      sl ← last_slash normalized 0 (-1);
      let nm := drop (Z.to_nat (sl + 1)) normalized in
      c ← deref nm;
      if c =? 0 then Ok (-1, None, s)
      else
        parent ← (if 0 <? sl then
                    normalized ← zset normalized sl 0;
                    vfs_lookup s (Some normalized)
                  else Ok (root_node s));
        if parent =? 0 then Ok (-1, None, s)
        else
          p ← get_node s parent;
          match ops p with
          | tmpfs_ops => tmpfs_create_node s parent (Some nm) ty
          | _ => Ok (-1, None, s)
          end
    end
  end.

(** The body of [vfs_unlink]'s loop when [*cursor == node]: [prev] is the node whose
    [next] field [cursor] points to, or 0 while [cursor] is the parent's [children] field. *)
Definition unlink_here (s : fs) (pa prev node : Z) : outcome (Z * fs) :=
  n ← get_node s node;
  s' ← (if prev =? 0 then
          p ← get_node s pa; Ok (put_node s pa (set_children p (next n)))
        else
          q ← get_node s prev; Ok (put_node s prev (set_links q (parent q) (next n))));
  n ← get_node s' node;
  Ok (0, put_node s' node (set_links n 0 0)).

Definition unlink_loop (s : fs) (pa node : Z) : outcome (Z * fs) :=
  p ← get_node s pa;
  loop (S (S (base.size (nodes s))))
    (λ '(prev, cur),
       if cur =? 0 then Ok (inr (-1, s))
       else if cur =? node then r ← unlink_here s pa prev node; Ok (inr r)
       else
         c ← get_node s cur;
         Ok (inl (cur, next c))) (0, children p).

Definition vfs_unlink (s : fs) (path : option (list Z)) : outcome (Z * fs) :=
  node ← vfs_lookup s path;
  if node =? 0 then Ok (-1, s)
  else
    n ← get_node s node;
    if (parent n =? 0) || (node =? root_node s) then Ok (-1, s)
    else if bool_decide (type n = VFS_NODE_DIR) && negb (children n =? 0) then Ok (-1, s)
    else unlink_loop s (parent n) node.

(** ** kernel/fs/pipe_fs.c *)

(** [node->private_data] as a pipe. *)
Definition node_pipe (s : fs) (node : Z) : outcome (Z * option Pipe.ipc_pipe_t) :=
  if node =? 0 then Ok (0, None)
  else
    n ← get_node s node;
    if private_data n =? 0 then Ok (0, None)
    else match pipes s !! private_data n with
         | Some p => Ok (private_data n, Some p)
         | None => Undef
         end.

Definition put_pipe (s : fs) (a : Z) (p : option Pipe.ipc_pipe_t) : fs :=
  match p with Some p => set_pipes s (<[a := p]> (pipes s)) | None => s end.

Definition pipefs_read (s : fs) (node offset : Z) (buffer : option (list Z)) (count : Z)
  : outcome (Z * option (list Z) * fs) :=
  '(a, p) ← node_pipe s node;
  '(r, p, buffer) ← Pipe.pipe_read p buffer count;
  Ok (i32 r, buffer, put_pipe s a p).

Definition pipefs_write (s : fs) (node offset : Z) (buffer : option (list Z)) (count : Z) : outcome (Z * fs) :=
  '(a, p) ← node_pipe s node;
  '(r, p) ← Pipe.pipe_write p buffer count;
  Ok (i32 r, put_pipe s a p).

Definition zero_pipe : Pipe.ipc_pipe_t :=
  {| Pipe.buffer := None; Pipe.capacity := 0; Pipe.read_index := 0; Pipe.write_index := 0; Pipe.size := 0;
     Pipe.reader_closed := false; Pipe.writer_closed := false;
     Pipe.lock := {| Sync.Mutex.locked := 0; Sync.Mutex.owner := 0; Sync.Mutex.recursion := 0 |} |}.

Definition pipefs_create_node (s : fs) (nm : option (list Z)) : outcome (Z * fs) :=
  '(node, h) ← al_calloc (heap s) 1 VFS_NODE_SIZE;
  '(pipe, h) ← al_calloc h 1 IPC_PIPE_SIZE;
  let fail h := h ← al_free h node; h ← al_free h pipe; Ok (0, set_heap s h) in
  if (node =? 0) || (pipe =? 0) then fail h
  else
    '(r, h, p) ← Pipe.pipe_init h (Some zero_pipe) 0 (garbage 1 <$> seqZ 0 Pipe.IPC_PIPE_DEFAULT_CAPACITY);
    match p with
    | None => Undef
    | Some p =>
      if negb (r =? 0) then fail h
      else
        field ← copy_name (name zero_node) (default (cstr [112; 105; 112; 101]) nm);
        let n := {| name := field; type := VFS_NODE_PIPE; mode := 0; size := 0; private_data := pipe;
                    ops := pipefs_ops; parent := 0; next := 0; children := 0 |} in
        Ok (node, put_node (set_pipes (set_heap s h) (<[pipe := p]> (pipes s))) node n)
    end.

(** ** Calls through the table of operations *)

Definition vfs_read (s : fs) (node offset : Z) (buffer : option (list Z)) (count : Z)
  : outcome (Z * option (list Z) * fs) :=
  if node =? 0 then Ok (-1, buffer, s)
  else
    n ← get_node s node;
    match ops n with
    | no_ops => Ok (-1, buffer, s)
    | tmpfs_ops => '(r, buffer) ← tmpfs_read s node offset buffer count; Ok (r, buffer, s)
    | pipefs_ops => pipefs_read s node offset buffer count
    end.

Definition vfs_write (s : fs) (node offset : Z) (buffer : option (list Z)) (count : Z) : outcome (Z * fs) :=
  if node =? 0 then Ok (-1, s)
  else
    n ← get_node s node;
    match ops n with
    | no_ops => Ok (-1, s)
    | tmpfs_ops => tmpfs_write s node offset buffer count
    | pipefs_ops => pipefs_write s node offset buffer count
    end.

(** ** The tree *)

Lemma get_node_ok s p n : nodes s !! p = Some n → get_node s p = Ok n.
Proof. intros Hn. unfold get_node. by rewrite Hn. Qed.

(** The text of a name field. *)
Fixpoint until_nul (l : list Z) : list Z :=
  match l with [] => [] | c :: l => if c =? 0 then [] else c :: until_nul l end.

Lemma until_nul_cstr buf t : is_cstr buf t → until_nul buf = t.
Proof.
  intros [Hb (rest & ->)]. induction Hb as [|c t Hc _ IH]; simpl; [done|].
  rewrite (proj2 (Z.eqb_neq c 0)) by lia. by rewrite IH.
Qed.

Definition kids (K : gmap Z (list Z)) (p : Z) : list Z := default [] (K !! p).

Definition tree_ok (K : gmap Z (list Z)) (s : fs) : Prop :=
  (∃ r, nodes s !! root_node s = Some r ∧ type r = VFS_NODE_DIR ∧ ops r = tmpfs_ops) ∧
  (∀ p n, nodes s !! p = Some n →
     p ≠ 0 ∧ chain next (nodes s) (children n) (kids K p) ∧
     (∃ nm, is_cstr (name n) nm ∧ zlen nm < VFS_NAME_MAX) ∧
     ((type n ≠ VFS_NODE_DIR ∨ ops n ≠ tmpfs_ops) → kids K p = [])) ∧
  (∀ p c, c ∈ kids K p →
     is_Some (nodes s !! p) ∧ c ≠ root_node s ∧ ∃ n, nodes s !! c = Some n ∧ parent n = p) ∧
  (∀ p c1 c2 n1 n2, c1 ∈ kids K p → c2 ∈ kids K p → nodes s !! c1 = Some n1 → nodes s !! c2 = Some n2 →
     until_nul (name n1) = until_nul (name n2) → c1 = c2).

(** The memory the tree lives in: every node is an allocated block. *)
Definition mem_at (L : list (Z * Z)) (s : fs) : Prop :=
  al_repr (heap s) L ∧ ∀ p, is_Some (nodes s !! p) → p ∈ L.*1.
Definition mem_ok (s : fs) : Prop := ∃ L, mem_at L s.

Definition wf (K : gmap Z (list Z)) (s : fs) : Prop := tree_ok K s ∧ mem_ok s.

(** The first node of [l] with the name [nm], 0 if there is none. *)
Fixpoint first_named (s : fs) (nm : list Z) (l : list Z) : Z :=
  match l with
  | [] => 0
  | c :: l =>
      if decide ((until_nul ∘ name) <$> nodes s !! c = Some nm) then c else first_named s nm l
  end.

Definition child_named (K : gmap Z (list Z)) (s : fs) (p : Z) (nm : list Z) : Z := first_named s nm (kids K p).

(** The node a list of components leads to. *)
Definition view (K : gmap Z (list Z)) (s : fs) (cs : list (list Z)) : Z :=
  foldl (child_named K s) (root_node s) cs.

(** A component as [vfs_lookup] sees it: cut to the size of a name. *)
Definition cut (c : list Z) : list Z := take (Z.to_nat (VFS_NAME_MAX - 1)) c.

(** The components a path stands for, if it fits the buffer. *)
Definition components (t : list Z) : option (list (list Z)) := resolve VFS_PATH_MAX [] (split_slash t).

(** *** Chains of siblings *)

(** *** Lookups *)

Lemma tree_kid K s p c : tree_ok K s → c ∈ kids K p →
  c ≠ 0 ∧ c ≠ root_node s ∧ ∃ n, nodes s !! c = Some n ∧ parent n = p.
Proof.
  intros (_ & Hn & Hk & _) Hc. destruct (Hk p c Hc) as ([np Hp] & Hr & n & Hcn & Hpa).
  split; [|by eauto]. by destruct (Hn _ _ Hcn).
Qed.

Lemma kids_outside K s p : tree_ok K s → nodes s !! p = None → kids K p = [].
Proof.
  intros (_ & _ & Hk & _) Hp. destruct (kids K p) as [|c l] eqn:E; [done|].
  destruct (Hk p c) as ([n Hn] & _); [rewrite E; left|]. congruence.
Qed.

Lemma child_named_none K s p nm : kids K p = [] → child_named K s p nm = 0.
Proof. intros E. unfold child_named. by rewrite E. Qed.

Lemma first_named_elem s nm l c : first_named s nm l = c → c ≠ 0 →
  c ∈ l ∧ ∃ n, nodes s !! c = Some n ∧ until_nul (name n) = nm.
Proof.
  induction l as [|d l IH]; simpl; [by intros <-|]. case_decide as Hd.
  - intros -> _. split; [left|]. destruct (nodes s !! c) as [n|]; simplify_eq/=; eauto.
  - intros Hc H0. destruct (IH Hc H0). split; [by right|done].
Qed.

Lemma first_named_zero s nm l : first_named s nm l = 0 → (0 ∉ l) →
  ∀ c n, c ∈ l → nodes s !! c = Some n → until_nul (name n) ≠ nm.
Proof.
  induction l as [|d l IH]; simpl; intros Hz H0 c n Hc Hn; [by apply not_elem_of_nil in Hc|].
  apply not_elem_of_cons in H0 as [Hd0 H0]. case_decide as Hd; [congruence|].
  apply elem_of_cons in Hc as [->|Hc]; [|by eapply IH].
  intros E. apply Hd. by rewrite Hn, <-E.
Qed.

Lemma chain_find s l a nb nm :
  (∀ p n, nodes s !! p = Some n → ∃ t, is_cstr (name n) t) → is_cstr nb nm →
  chain next (nodes s) a l → ∀ fuel, (length l < fuel)%nat →
  loop fuel (λ child, if child =? 0 then Ok (inr 0) else
    c ← get_node s child; r ← strcmp (name c) nb;
    if r =? 0 then Ok (inr child) else Ok (inl (next c))) a = Ok (first_named s nm l).
Proof.
  intros Hnames Hnb. revert a. induction l as [|c l IH]; intros a Hch [|fuel] Hf;
    cbn [loop chain first_named length] in *; try lia.
  - by subst a.
  - destruct Hch as (-> & H0 & n & Hn & Hch). rewrite (proj2 (Z.eqb_neq c 0)) by done.
    rewrite (get_node_ok s c n Hn), bind_ok. destruct (Hnames _ _ Hn) as (t & Ht).
    destruct (strcmp_ok (name n) t nb nm Ht Hnb) as (r & -> & Hr). rewrite bind_ok.
    rewrite Hn. cbn [fmap option_fmap option_map compose]. rewrite (until_nul_cstr _ _ Ht).
    destruct (Z.eqb_spec r 0) as [Hz|Hz].
    + rewrite decide_True; [done|]. simpl. f_equal. by apply Hr.
    + rewrite decide_False by (intros [= E]; by apply Hz, Hr). rewrite bind_ok. apply IH; [done|lia].
Qed.

Lemma find_child_ok K s p n nb nm :
  tree_ok K s → nodes s !! p = Some n → is_cstr nb nm →
  find_child s (children n) nb = Ok (child_named K s p nm).
Proof.
  intros Hok Hp Hnb. pose proof Hok as (_ & Hn & _). destruct (Hn _ _ Hp) as (_ & Hch & _).
  pose proof (chain_length _ _ _ Hch) as Hlen. apply chain_find; [|done|done|lia].
  intros q m Hq. destruct (Hn _ _ Hq) as (_ & _ & (t & Ht & _) & _). by eauto.
Qed.

Lemma tmpfs_lookup_ok K s p n nb nm :
  tree_ok K s → nodes s !! p = Some n → is_cstr nb nm →
  tmpfs_lookup s p (Some nb) = Ok (child_named K s p nm).
Proof.
  intros Hok Hp Hnb. pose proof Hok as (_ & Hn & _). destruct (Hn _ _ Hp) as (H0 & _ & _ & Hno).
  unfold tmpfs_lookup. rewrite (proj2 (Z.eqb_neq p 0)), (get_node_ok s p n Hp), bind_ok by done. case_decide as Hd.
  - by rewrite child_named_none by auto.
  - by apply (find_child_ok K).
Qed.

Lemma view_zero K s cs : tree_ok K s → foldl (child_named K s) 0 cs = 0.
Proof.
  intros Hok. induction cs as [|c cs IH]; [done|]. simpl. rewrite child_named_none; [done|].
  apply (kids_outside K s); [done|]. destruct (nodes s !! 0) as [n|] eqn:E; [|done].
  destruct Hok as (_ & Hn & _). by destruct (Hn _ _ E).
Qed.

Lemma cut_short c : zlen c < VFS_NAME_MAX → cut c = c.
Proof. intros. unfold cut. apply take_ge. unfold zlen, VFS_NAME_MAX in *. lia. Qed.

Lemma cut_eq c t : cut c = t → zlen t < VFS_NAME_MAX - 1 → c = t.
Proof.
  intros <- Ht. unfold cut, zlen, VFS_NAME_MAX in *. rewrite length_take in Ht. symmetry. apply take_ge. lia.
Qed.

Lemma walk_body_step K s p n c cs cur comp :
  tree_ok K s → nodes s !! p = Some n → proper c → zlen c < VFS_PATH_MAX →
  is_cstr cur (concat (cons slash <$> (c :: cs))) → VFS_NAME_MAX ≤ zlen comp →
  walk_body s (p, cur, comp) ⇓ λ x,
    let q := child_named K s p (cut c) in
    (q = 0 ∧ x = inr 0) ∨
    (q ≠ 0 ∧ ∃ cur' comp', x = inl (q, cur', comp') ∧ is_cstr cur' (concat (cons slash <$> cs)) ∧
       zlen comp' = zlen comp).
Proof.
  intros Hok Hp Hc Hlc Hcur Hcomp. pose proof Hc as (Hc0 & Hc1 & Hc2 & Hcb). unfold walk_body. apply wp_bind.
  eapply wp_mono; [apply (next_component_ok cur c (concat (cons slash <$> cs)))|].
  { done. } { done. }
  { eapply Forall_impl; [done|]. simpl. by intros ? [_ ?]. }
  { destruct cs as [|d cs]; [by left|right]. simpl. by eexists. }
  { unfold VFS_NAME_MAX. lia. } { done. } { unfold VFS_PATH_MAX in *. lia. }
  intros [[len cur1] comp1] (-> & cur' & comp' & -> & -> & Hcur' & Hlen & _ & Hcut). fold (cut c) in Hcut.
  assert (0 < zlen c) as Hpos by (destruct c; [done|unfold zlen; simpl; lia]).
  rewrite (proj2 (Z.ltb_lt 0 (zlen c))) by done. cbn [negb].
  destruct (strcmp_ok comp' (cut c) (cstr [dot]) [dot] Hcut) as (r1 & -> & Hr1).
  { apply is_cstr_cstr. repeat constructor; unfold dot; lia. }
  rewrite bind_ok. destruct (Z.eqb_spec r1 0) as [E|_].
  { apply Hr1, cut_eq in E; [done|unfold zlen, VFS_NAME_MAX; simpl; lia]. }
  destruct (strcmp_ok comp' (cut c) (cstr [dot; dot]) [dot; dot] Hcut) as (r2 & -> & Hr2).
  { apply is_cstr_cstr. repeat constructor; unfold dot; lia. }
  rewrite bind_ok, (get_node_ok s p n Hp), bind_ok. destruct (Z.eqb_spec r2 0) as [E|_].
  { apply Hr2, cut_eq in E; [done|unfold zlen, VFS_NAME_MAX; simpl; lia]. }
  pose proof Hok as (_ & Hn & _). destruct (Hn _ _ Hp) as (_ & _ & _ & Hno).
  destruct (ops n) eqn:Ho; try (apply wp_ok; left; by rewrite child_named_none by auto).
  rewrite (tmpfs_lookup_ok K s p n comp' (cut c)), bind_ok by done.
  destruct (Z.eqb_spec (child_named K s p (cut c)) 0); apply wp_ok; [by left|right]. by eauto 10.
Qed.

Lemma walk_body_end s p cur comp :
  (∃ t, is_cstr cur t ∧ (t = [] ∨ t = [slash])) → VFS_NAME_MAX ≤ zlen comp →
  walk_body s (p, cur, comp) = Ok (inr p).
Proof.
  intros (t & Ht & Ht') Hcomp. unfold walk_body.
  by destruct (next_component_end cur t comp VFS_NAME_MAX)
    as ([[len cur1] comp1] & -> & -> & (cur' & ->) & (comp' & ->)).
Qed.

Lemma walk_components_ok K s cs p n cur comp :
  tree_ok K s → nodes s !! p = Some n → Forall proper cs → Forall (λ c, zlen c < VFS_PATH_MAX) cs →
  (is_cstr cur (concat (cons slash <$> cs)) ∨ (cs = [] ∧ is_cstr cur [slash])) → VFS_NAME_MAX ≤ zlen comp →
  ∀ fuel, (length cs < fuel)%nat →
  loop fuel (walk_body s) (p, cur, comp) = Ok (foldl (child_named K s) p (cut <$> cs)).
Proof.
  intros Hok. revert p n cur comp. induction cs as [|c cs IH]; intros p n cur comp Hp Hpr Hl Hcur Hcomp [|fuel] Hf;
    cbn [length] in Hf; try lia.
  - cbn [loop fmap list_fmap foldl]. rewrite walk_body_end; [done| |done].
    destruct Hcur as [?|[_ ?]]; eauto.
  - apply Forall_cons in Hpr as [Hc Hpr]. apply Forall_cons in Hl as [Hlc Hl].
    destruct Hcur as [Hcur|[? _]]; [|done].
    destruct (walk_body_step K s p n c cs cur comp) as (x & Hx & Hstep); [done..|].
    cbn [loop fmap list_fmap foldl]. rewrite Hx, bind_ok.
    destruct Hstep as [(-> & ->)|(Hq & cur' & comp' & -> & Hcur' & Hcomp')].
    + by rewrite view_zero.
    + unfold child_named in Hq. edestruct (first_named_elem s (cut c) (kids K p)) as (_ & m & Hm & _); [done..|].
      eapply IH; try done; [by left|lia|lia].
Qed.

Lemma length_local n : 0 ≤ n → zlen (local n) = n.
Proof. intros. unfold local, zlen. rewrite length_fmap, length_seqZ. lia. Qed.

Lemma path_text_component cs c : c ∈ cs → zlen c ≤ zlen (path_text cs).
Proof.
  intros Hc. destruct cs as [|d cs]; [by apply not_elem_of_nil in Hc|].
  change (path_text (d :: cs)) with (concat (cons slash <$> (d :: cs))).
  apply list_elem_of_split in Hc as (l1 & l2 & ->). unfold zlen.
  rewrite fmap_app, concat_app, length_app. simpl. rewrite length_app. lia.
Qed.

Lemma path_text_count cs : Forall proper cs → (length cs < S (length (path_text cs)))%nat.
Proof.
  intros Hp. destruct cs as [|d cs]; [simpl; lia|].
  change (path_text (d :: cs)) with (concat (cons slash <$> (d :: cs))).
  enough (∀ l, length l ≤ length (concat (cons slash <$> l)))%nat as Hl by (specialize (Hl (d :: cs)); simpl in *; lia).
  clear. induction l as [|c l IH]; [simpl; lia|]. rewrite fmap_cons. cbn [concat app length]. rewrite length_app. lia.
Qed.

(** [vfs_lookup] leads to the node its path's components lead to. *)
Lemma vfs_lookup_ok K s path t :
  tree_ok K s → is_cstr path t →
  vfs_lookup s (Some path) =
    Ok (match components t with Some cs => view K s (cut <$> cs) | None => 0 end).
Proof.
  intros Hok Ht. pose proof Hok as ((r & Hr & _) & Hn & _). destruct (Hn _ _ Hr) as (H0 & _).
  unfold vfs_lookup. rewrite (proj2 (Z.eqb_neq _ 0) H0).
  destruct (path_normalize_ok path t (local VFS_PATH_MAX) VFS_PATH_MAX) as ([res o] & -> & o' & -> & Hlen & Hres).
  { done. } { unfold VFS_PATH_MAX. lia. } { rewrite length_local; unfold VFS_PATH_MAX; lia. }
  rewrite bind_ok. unfold components. destruct (resolve VFS_PATH_MAX [] (split_slash t)) as [cs|].
  - destruct Hres as (-> & Ho & Hp & Hfit). cbn [negb Z.eqb]. unfold walk_components, view.
    apply (walk_components_ok K s cs _ r); try done.
    + apply Forall_forall. intros c Hc. pose proof (path_text_component cs c Hc). lia.
    + destruct cs as [|c cs]; [by right|by left].
    + pose proof (path_text_count cs Hp) as Hc. destruct Ho as [_ (rest & ->)].
      rewrite length_app in *. simpl in *. lia.
  - by rewrite Hres.
Qed.

(** *** A path leads to a node in one way *)

Lemma child_named_elem K s p nm c : tree_ok K s → child_named K s p nm = c → c ≠ 0 →
  c ∈ kids K p ∧ c ≠ root_node s ∧ p ≠ 0 ∧ ∃ n, nodes s !! c = Some n ∧ parent n = p ∧ until_nul (name n) = nm.
Proof.
  intros Hok Hc H0. destruct (first_named_elem s nm (kids K p) c Hc H0) as (Hin & n & Hn & Hnm).
  destruct (tree_kid K s p c Hok Hin) as (_ & Hr & n' & Hn' & Hp). split; [done|]. split; [done|].
  split; [|exists n; by simplify_eq]. pose proof Hok as (_ & Hno & Hk & _).
  destruct (Hk p c Hin) as ([np Hnp] & _). by destruct (Hno _ _ Hnp).
Qed.

Lemma view_snoc K s cs c : view K s (cs ++ [c]) = child_named K s (view K s cs) c.
Proof. unfold view. by rewrite foldl_app. Qed.

Lemma view_inj K s cs1 cs2 : tree_ok K s → view K s cs1 = view K s cs2 → view K s cs1 ≠ 0 → cs1 = cs2.
Proof.
  intros Hok. revert cs2. induction cs1 as [|x cs1 IH] using rev_ind; intros cs2 He H0.
  - destruct cs2 as [|y cs2 _] using rev_ind; [done|]. rewrite view_snoc in He.
    destruct (child_named_elem K s _ y _ Hok (eq_sym He) H0) as (_ & Hr & _). done.
  - rewrite view_snoc in He, H0. destruct (child_named_elem K s _ x _ Hok eq_refl H0) as (_ & Hr & Hp & n & Hn & Hpa & Hnm).
    destruct cs2 as [|y cs2 _] using rev_ind; [by rewrite He in Hr|]. rewrite view_snoc in He. rewrite He in H0, Hn.
    destruct (child_named_elem K s _ y _ Hok eq_refl H0) as (_ & _ & _ & n' & Hn' & Hpa' & Hnm').
    rewrite Hn in Hn'. injection Hn' as <-. f_equal; [|congruence]. apply IH; [congruence|done].
Qed.

Lemma view_node K s cs : tree_ok K s → view K s cs ≠ 0 → ∃ n, nodes s !! view K s cs = Some n.
Proof.
  intros Hok H0. destruct cs as [|c cs _] using rev_ind.
  - destruct Hok as ((r & Hr & _) & _). by eauto.
  - rewrite view_snoc in *. destruct (child_named_elem K s _ c _ Hok eq_refl H0) as (_ & _ & _ & n & Hn & _). by eauto.
Qed.

Lemma first_named_agree s s' nm l :
  (∀ c, c ∈ l → (until_nul ∘ name) <$> nodes s' !! c = (until_nul ∘ name) <$> nodes s !! c) →
  first_named s' nm l = first_named s nm l.
Proof.
  induction l as [|c l IH]; intros Hag; [done|]. cbn [first_named]. rewrite IH by (intros; apply Hag; by right).
  pose proof (Hag c ltac:(left)) as E. repeat case_decide; congruence.
Qed.

(** *** A new node *)

(** [s'] is [s] with the fresh node [c], called [nm], in front of the children of [p]. *)
Section Attach.
Context (K : gmap Z (list Z)) (s s' : fs) (p c : Z) (np n0 : vfs_node_t) (nm : list Z).
Context (Hok : tree_ok K s) (Hp : nodes s !! p = Some np) (Hfresh : nodes s !! c = None) (H0 : c ≠ 0).
Context (Hdir : type np = VFS_NODE_DIR) (Hops : ops np = tmpfs_ops).
Context (Hn0 : is_cstr (name n0) nm) (Hlen : zlen nm < VFS_NAME_MAX) (Hch : children n0 = 0).
Context (Hpar : parent n0 = p) (Hnext : next n0 = children np).
Context (Hnew : child_named K s p nm = 0).
Context (Hs' : nodes s' = <[p := set_children np c]> (<[c := n0]> (nodes s))).
Context (Hroot : root_node s' = root_node s).

Let K' : gmap Z (list Z) := <[p := c :: kids K p]> K.

Lemma attach_ne : p ≠ c.
Proof. intros ->. congruence. Qed.

Lemma attach_lookup_c : nodes s' !! c = Some n0.
Proof. rewrite Hs', lookup_insert_ne by apply attach_ne. apply lookup_insert_eq. Qed.

(** The old nodes keep everything but [p]'s list of children. *)
Lemma attach_lookup q n : nodes s !! q = Some n →
  nodes s' !! q = Some (if decide (q = p) then set_children n c else n).
Proof.
  intros Hq. assert (q ≠ c) by (intros ->; congruence). rewrite Hs'. case_decide as E.
  - subst q. rewrite lookup_insert_eq. congruence.
  - by rewrite !lookup_insert_ne by done.
Qed.

Lemma kids_attach q : kids K' q = if decide (q = p) then c :: kids K p else kids K q.
Proof. unfold kids, K'. case_decide as E; [subst; by rewrite lookup_insert_eq|by rewrite lookup_insert_ne]. Qed.

Lemma attach_chain a l : chain next (nodes s) a l → chain next (nodes s') a l.
Proof.
  apply chain_agree. intros d n Hd Hn. exists (if decide (d = p) then set_children n c else n).
  split; [by apply attach_lookup|]. by case_decide.
Qed.

Lemma attach_name q : is_Some (nodes s !! q) →
  (until_nul ∘ name) <$> nodes s' !! q = (until_nul ∘ name) <$> nodes s !! q.
Proof. intros [n Hn]. rewrite (attach_lookup q n Hn), Hn. by case_decide. Qed.

Lemma kid_exists q d : d ∈ kids K q → is_Some (nodes s !! d).
Proof. intros Hd. destruct (tree_kid K s q d Hok Hd) as (_ & _ & n & Hn & _). by eauto. Qed.

Lemma attach_child q x :
  child_named K' s' q x = if decide (q = p ∧ x = nm) then c else if decide (q = c) then 0 else child_named K s q x.
Proof.
  unfold child_named. rewrite kids_attach. pose proof attach_ne as Hpc.
  assert (∀ q, first_named s' x (kids K q) = first_named s x (kids K q)) as Hag.
  { intros r. apply first_named_agree. intros d Hd. by apply attach_name, (kid_exists r). }
  destruct (decide (q = p)) as [->|Hq].
  - rewrite (decide_False (P := p = c)) by done. cbn [first_named]. rewrite attach_lookup_c, Hag. cbn.
    rewrite (until_nul_cstr _ _ Hn0).
    destruct (decide (Some nm = Some x)) as [[= ->]|Hx]; [by rewrite decide_True|].
    by rewrite decide_False by (intros [_ ->]; done).
  - rewrite decide_False by tauto. rewrite Hag. case_decide as E; [|done]. subst q.
    by rewrite (kids_outside K s c).
Qed.

Lemma attach_tree : tree_ok K' s'.
Proof.
  pose proof Hok as ((r & Hr & Hrt & Hro) & Hn & Hk & Hu). pose proof attach_ne as Hpc. split; [|split; [|split]].
  - rewrite Hroot, (attach_lookup _ r Hr). eexists. split; [done|]. by case_decide.
  - intros q n Hq. rewrite kids_attach. destruct (decide (q = c)) as [->|Hqc].
    { rewrite attach_lookup_c in Hq. injection Hq as <-. rewrite decide_False by congruence.
      rewrite (kids_outside K s c), Hch by done. split; [done|]. split; [done|]. split; [by eauto|done]. }
    assert (∃ n1, nodes s !! q = Some n1 ∧ n = if decide (q = p) then set_children n1 c else n1) as (n1 & Hq1 & ->).
    { rewrite Hs' in Hq. case_decide as E.
      - subst q. rewrite lookup_insert_eq in Hq. injection Hq as <-. eauto.
      - rewrite !lookup_insert_ne in Hq by congruence. eauto. }
    destruct (Hn _ _ Hq1) as (Hq0 & Hqch & Hqn & Hqk). split; [done|]. case_decide as E; [subst q|].
    + rewrite Hp in Hq1. injection Hq1 as <-. split; [|split; [done|]].
      * split; [done|]. split; [done|]. exists n0. split; [apply attach_lookup_c|]. rewrite Hnext. by apply attach_chain.
      * cbn [type ops set_children]. rewrite Hdir, Hops. by intros [?|?].
    + split; [by apply attach_chain|]. by split.
  - intros q d. rewrite kids_attach, Hroot. intros Hd.
    assert ((q = p ∧ d = c) ∨ d ∈ kids K q) as [[-> ->]|Hdk].
    { case_decide; [subst|by right]. apply elem_of_cons in Hd as [->|?]; [by left|by right]. }
    + rewrite (attach_lookup p np Hp). split; [by eauto|]. split; [intros ->; congruence|].
      exists n0. by rewrite attach_lookup_c.
    + destruct (Hk q d Hdk) as ([nq Hq] & Hdr & nd & Hnd & Hpd). rewrite (attach_lookup q nq Hq), (attach_lookup d nd Hnd).
      split; [by eauto|]. split; [done|]. eexists. split; [done|]. by destruct (decide (d = p)).
  - assert (∀ q d n, d ∈ kids K q → nodes s' !! d = Some n →
      ∃ m, nodes s !! d = Some m ∧ until_nul (name n) = until_nul (name m)) as Hold.
    { intros q d n Hd Hdn. destruct (kid_exists q d Hd) as [m Hm]. exists m. split; [done|].
      rewrite (attach_lookup d m Hm) in Hdn. injection Hdn as <-. by case_decide. }
    assert (∀ d n, d ∈ kids K p → nodes s' !! d = Some n → until_nul (name n) ≠ nm) as Hdiff.
    { intros d n Hd Hdn. destruct (Hold _ _ _ Hd Hdn) as (m & Hm & ->).
      apply (first_named_zero s nm (kids K p) Hnew) with d; [|done..]. intros Hz. by destruct (tree_kid K s p 0 Hok Hz). }
    intros q c1 c2 n1 n2. rewrite kids_attach. case_decide as E; intros H1 H2 Hc1 Hc2 Heq.
    + subst q. apply elem_of_cons in H1 as [->|H1]; apply elem_of_cons in H2 as [->|H2]; [done|..].
      * rewrite attach_lookup_c in Hc1. injection Hc1 as <-. rewrite (until_nul_cstr _ _ Hn0) in Heq.
        by destruct (Hdiff _ _ H2 Hc2).
      * rewrite attach_lookup_c in Hc2. injection Hc2 as <-. rewrite (until_nul_cstr _ _ Hn0) in Heq.
        by destruct (Hdiff _ _ H1 Hc1).
      * destruct (Hold _ _ _ H1 Hc1) as (m1 & Hm1 & E1). destruct (Hold _ _ _ H2 Hc2) as (m2 & Hm2 & E2).
        apply (Hu p c1 c2 m1 m2); congruence.
    + destruct (Hold _ _ _ H1 Hc1) as (m1 & Hm1 & E1). destruct (Hold _ _ _ H2 Hc2) as (m2 & Hm2 & E2).
      apply (Hu q c1 c2 m1 m2); congruence.
Qed.

(** Only the new path changes. *)
Lemma attach_view cs : view K s cs = p →
  ∀ cs', view K' s' cs' = if decide (cs' = cs ++ [nm]) then c else view K s cs'.
Proof.
  intros Hcs cs'. assert (p ≠ 0) as Hp0 by (destruct Hok as (_ & Hn & _); by destruct (Hn _ _ Hp)).
  assert (view K s (cs ++ [nm]) = 0) as Hno by (by rewrite view_snoc, Hcs).
  induction cs' as [|x cs' IH] using rev_ind.
  - rewrite decide_False by (by destruct cs). unfold view. simpl. done.
  - rewrite !view_snoc, IH, attach_child. destruct (decide (cs' = cs ++ [nm])) as [->|Hne].
    + rewrite decide_False by (intros [? _]; by destruct attach_ne). rewrite decide_True by done.
      rewrite decide_False by (intros E; apply (f_equal length) in E; rewrite !length_app in E; simpl in E; lia).
      rewrite Hno. symmetry. by apply (view_zero K s [x]).
    + destruct (decide (cs' ++ [x] = cs ++ [nm])) as [E|E].
      * apply app_inj_tail in E as [-> ->]. by rewrite decide_True.
      * rewrite decide_False.
        -- rewrite decide_False; [done|]. intros Hv. destruct (view_node K s cs') as [m Hm]; [done|congruence|congruence].
        -- intros [Hv ->]. apply E. f_equal. apply (view_inj K s); congruence.
Qed.
End Attach.

Lemma copy_name_ok nb nm :
  is_cstr nb nm → zlen nm < VFS_NAME_MAX → copy_name (name zero_node) nb ⇓ λ f, is_cstr f nm.
Proof.
  intros Hnb Hl. unfold copy_name. rewrite (strlen_ok nb nm) by (done || (unfold VFS_NAME_MAX in *; lia)).
  rewrite bind_ok. cbv zeta. destruct (Z.leb_spec VFS_NAME_MAX (zlen nm)); [lia|].
  pose proof (is_cstr_length _ _ Hnb) as Hlen. assert (zlen (name zero_node) = 64) as Hz by done.
  unfold VFS_NAME_MAX in *. assert (0 ≤ zlen nm) by (unfold zlen; lia).
  rewrite memcpy_ok, bind_ok by (unfold zlen in *; lia).
  assert (slice nb 0 (zlen nm) = nm) as ->.
  { destruct Hnb as [_ (rest & ->)]. unfold slice, zlen. simpl. rewrite drop_0, Nat2Z.id. apply take_app_length. }
  assert (zlen (splice (name zero_node) 0 nm) = 64) as Hs.
  { unfold zlen at 1. rewrite length_splice by lia. done. }
  apply wp_zset; [lia|]. destruct Hnb as [Hb _]. split; [done|].
  exists (drop (S (length nm)) (splice (name zero_node) 0 nm)).
  rewrite insert_take_drop by (unfold zlen in *; lia). unfold zlen. rewrite Nat2Z.id. f_equal.
  unfold splice. simpl. rewrite take_app_length. done.
Qed.

Lemma elem_of_fst_cons (p sz : Z) (L : list (Z * Z)) q : q ∈ L.*1 → q ∈ ((p, sz) :: L).*1.
Proof. intros. rewrite fmap_cons. by right. Qed.

(** Nothing but the heap changed. *)
Definition same_tree (s s' : fs) : Prop :=
  nodes s' = nodes s ∧ files s' = files s ∧ blocks s' = blocks s ∧ pipes s' = pipes s ∧ root_node s' = root_node s.

Lemma same_tree_wf K s s' : tree_ok K s → same_tree s s' → tree_ok K s'.
Proof. intros Hok (Hn & _ & _ & _ & Hr). unfold tree_ok in *. by rewrite Hn, Hr. Qed.

Lemma same_tree_view K s s' cs : same_tree s s' → view K s' cs = view K s cs.
Proof.
  intros (Hn & _ & _ & _ & Hr). induction cs as [|x cs IH] using rev_ind; [done|].
  rewrite !view_snoc, IH. apply first_named_agree. intros. by rewrite Hn.
Qed.

(** [s'] is [s] with the new, empty node [c] of type [ty] in front of the children of
    [p]; its block is not one of [L]. *)
Definition node_added (L : list (Z * Z)) (s s' : fs) (p c : Z) (np n0 : vfs_node_t) (ty : vfs_node_type_t) : Prop :=
  c ≠ 0 ∧ (c ∉ L.*1) ∧ nodes s !! p = Some np ∧ type np = VFS_NODE_DIR ∧ ops np = tmpfs_ops ∧
  type n0 = ty ∧ size n0 = 0 ∧ private_data n0 = 0 ∧ ops n0 = tmpfs_ops ∧ children n0 = 0 ∧
  parent n0 = p ∧ next n0 = children np ∧
  nodes s' = <[p := set_children np c]> (<[c := n0]> (nodes s)) ∧
  files s' = files s ∧ blocks s' = blocks s ∧ pipes s' = pipes s ∧ root_node s' = root_node s.

Lemma tmpfs_create_node_ok L K s p np nb nm ty :
  tree_ok K s → mem_at L s → nodes s !! p = Some np → ops np = tmpfs_ops → is_cstr nb nm → zlen nm < VFS_NAME_MAX →
  tmpfs_create_node s p (Some nb) ty ⇓ λ '(r, out, s'), ∃ L', mem_at L' s' ∧ L ⊆+ L' ∧
    ((r = -1 ∧ out = None ∧ same_tree s s') ∨
     (r = 0 ∧ child_named K s p nm = 0 ∧ ∃ c n0, out = Some c ∧ is_cstr (name n0) nm ∧
        node_added L s s' p c np n0 ty)).
Proof.
  intros Hok [Ha HL] Hp Hops Hnb Hlen. pose proof Hok as (_ & Hn & _). destruct (Hn _ _ Hp) as (Hp0 & _).
  unfold tmpfs_create_node. rewrite (proj2 (Z.eqb_neq p 0)), (get_node_ok s p np Hp), bind_ok by done.
  case_decide as Hd; [apply wp_ok; exists L; split; [done|]; split; [done|by left]|].
  rewrite (tmpfs_lookup_ok K s p np nb nm), bind_ok by done.
  destruct (Z.eqb_spec (child_named K s p nm) 0) as [Hno|Hyes]; cbn [negb];
    [|apply wp_ok; exists L; split; [done|]; split; [done|by left]].
  apply wp_bind. eapply wp_mono; [apply al_calloc_spec; [done|unfold VFS_NODE_SIZE; lia..]|].
  intros [c h] [(-> & Ha')|(sz & Hc & _ & _ & Hcl & Ha')]; cbv zeta.
  { apply wp_ok. exists L. split; [done|]. split; [done|by left]. }
  rewrite (proj2 (Z.eqb_neq c 0)) by lia. apply wp_bind. eapply wp_mono; [by apply (copy_name_ok nb nm)|].
  intros f Hf. assert (nodes s !! c = None) as Hfresh.
  { destruct (nodes s !! c) eqn:E; [|done]. destruct Hcl. apply HL. by eauto. }
  assert (p ≠ c) as Hpc by congruence. unfold vfs_attach_child.
  rewrite (proj2 (Z.eqb_neq p 0)), (proj2 (Z.eqb_neq c 0)) by lia. cbn [orb].
  rewrite (get_node_ok _ p np) by (cbn [put_node set_nodes nodes set_heap]; by rewrite lookup_insert_ne).
  rewrite bind_ok. erewrite (get_node_ok _ c) by (cbn [put_node set_nodes nodes set_heap]; by rewrite lookup_insert_eq).
  rewrite bind_ok. rewrite (get_node_ok _ p np)
    by (cbn [put_node set_nodes nodes set_heap]; by rewrite !lookup_insert_ne).
  rewrite bind_ok. apply wp_ok. exists ((c, sz) :: L). split; [split; [done|]|split; [by apply submseteq_cons|]].
  - intros q Hq. cbn [put_node set_nodes nodes set_heap] in Hq.
    destruct (decide (q = c)) as [->|]; [rewrite fmap_cons; by left|]. apply elem_of_fst_cons, HL.
    destruct (decide (q = p)) as [->|]; [by eauto|]. by rewrite !lookup_insert_ne in Hq by congruence.
  - right. split; [done|]. split; [done|].
    exists c, (set_links {| name := f; type := ty; mode := 0; size := 0; private_data := 0;
      ops := tmpfs_ops; parent := 0; next := 0; children := 0 |} p (children np)).
    split; [done|]. split; [done|]. unfold node_added. cbn [put_node set_nodes nodes set_heap]. rewrite insert_insert_eq.
    split; [lia|]. split; [done|]. split; [done|]. split; [destruct (decide (type np = VFS_NODE_DIR)); [done|by destruct Hd]|].
    by split_and!.
Qed.

(** *** Creating a node by path *)

Lemma last_slash_ok t c rest pos found :
  Forall (λ b, 0 < b < 256) t → Forall (λ b, 0 < b < 256 ∧ b ≠ slash) c →
  last_slash (t ++ slash :: c ++ 0 :: rest) pos found = Ok (pos + zlen t).
Proof.
  intros Ht Hc. assert (∀ p f, last_slash (c ++ 0 :: rest) p f = Ok f) as Hend.
  { induction Hc as [|x c [Hx Hxs] _ IH]; intros p f; [done|]. cbn [app last_slash].
    by rewrite (proj2 (Z.eqb_neq x 0)), (proj2 (Z.eqb_neq x slash)) by lia. }
  revert pos found. induction Ht as [|x t Hx _ IH]; intros pos found; cbn [app last_slash].
  - change (slash =? 0) with false. rewrite Z.eqb_refl, Hend. unfold zlen. simpl. f_equal. lia.
  - rewrite (proj2 (Z.eqb_neq x 0)), IH by lia. unfold zlen. simpl length. f_equal. lia.
Qed.

(** Cutting a normalized path at its last slash. *)
Lemma split_last o cs c :
  is_cstr o (path_text (cs ++ [c])) → Forall proper (cs ++ [c]) →
  let t := if decide (cs = []) then [] else path_text cs in
  last_slash o 0 (-1) = Ok (zlen t) ∧ is_cstr (drop (Z.to_nat (zlen t + 1)) o) c ∧
  zset o (zlen t) 0 ⇓ λ o', is_cstr o' t.
Proof.
  intros [_ (rest & Ho)] Hp t. rewrite path_text_snoc in Ho. fold t in Ho.
  apply Forall_app in Hp as [Hp Hc]. apply Forall_cons in Hc as [(_ & _ & _ & Hc) _].
  assert (Forall (λ b, 0 < b < 256) t) as Ht.
  { unfold t. case_decide; [constructor|by apply path_text_bytes]. }
  assert (o = t ++ slash :: c ++ 0 :: rest) as -> by (rewrite Ho, <-app_assoc; done).
  split; [by rewrite last_slash_ok|]. split.
  - replace (Z.to_nat (zlen t + 1)) with (length t + 1)%nat by (unfold zlen; lia).
    rewrite drop_app_add' by done. simpl. rewrite drop_0. split; [|by eexists].
    eapply Forall_impl; [done|]. by intros ? [? _].
  - apply wp_zset; [unfold zlen; rewrite length_app; simpl; lia|]. unfold zlen. rewrite Nat2Z.id.
    split; [done|]. exists (c ++ 0 :: rest). rewrite insert_app_r_alt by lia. by rewrite Nat.sub_diag.
Qed.

Lemma path_text_single cs : Forall proper cs → zlen (path_text cs) < VFS_PATH_MAX → components (path_text cs) = Some cs.
Proof. intros. by apply resolve_text. Qed.

(** [vfs_create] finds the parent by its path and leaves the rest to the file system of the parent. *)
Lemma vfs_create_at K s path t cs c ty :
  tree_ok K s → is_cstr path t → components t = Some (cs ++ [c]) → ∃ nb, is_cstr nb c ∧
  vfs_create s (Some path) ty =
    if view K s (cut <$> cs) =? 0 then Ok (-1, None, s)
    else
      p ← get_node s (view K s (cut <$> cs));
      match ops p with
      | tmpfs_ops => tmpfs_create_node s (view K s (cut <$> cs)) (Some nb) ty
      | _ => Ok (-1, None, s)
      end.
Proof.
  intros Hok Ht Hcomp. pose proof Hok as ((r & Hr & Hrt & Hro) & Hn & _).
  destruct (Hn _ _ Hr) as (H0 & _). unfold vfs_create. rewrite (proj2 (Z.eqb_neq _ 0) H0).
  destruct (path_normalize_ok path t (local VFS_PATH_MAX) VFS_PATH_MAX) as ([res o] & -> & o' & -> & _ & Hres).
  { done. } { unfold VFS_PATH_MAX. lia. } { rewrite length_local; unfold VFS_PATH_MAX; lia. }
  rewrite bind_ok. unfold components in Hcomp. rewrite Hcomp in Hres. destruct Hres as (-> & Ho & Hp & Hfit).
  cbn [negb Z.eqb]. destruct (split_last o' cs c Ho Hp) as (Hls & Hnm & Hcut). rewrite Hls, bind_ok. cbv zeta.
  pose proof Hp as [Hpcs Hpc]%Forall_app. apply Forall_cons in Hpc as [Hpc _].
  exists (drop (Z.to_nat (zlen (if decide (cs = []) then [] else path_text cs) + 1)) o'). split; [done|].
  assert (∃ x, deref (drop (Z.to_nat (zlen (if decide (cs = []) then [] else path_text cs) + 1)) o') = Ok x ∧ x ≠ 0)
    as (x & -> & Hx).
  { destruct Hnm as [Hb (rest & ->)]. destruct c as [|x c]; [by destruct Hpc|]. exists x. split; [done|].
    apply Forall_cons in Hb as [? _]. lia. }
  rewrite bind_ok, (proj2 (Z.eqb_neq x 0)) by done.
  assert ((if 0 <? zlen (if decide (cs = []) then [] else path_text cs)
           then normalized ← zset o' (zlen (if decide (cs = []) then [] else path_text cs)) 0;
                vfs_lookup s (Some normalized)
           else Ok (root_node s)) = Ok (view K s (cut <$> cs))) as ->.
  { case_decide as E; [by subst|]. destruct (path_text_pos cs Hpcs) as [Hpos _].
    rewrite (proj2 (Z.ltb_lt 0 _)) by lia. destruct Hcut as (o2 & -> & Ho2). rewrite bind_ok.
    rewrite (vfs_lookup_ok K s o2 (path_text cs)) by done. rewrite path_text_single; [done|done|].
    pose proof (path_text_app_le cs [c] Hpcs ltac:(by apply Forall_singleton)). unfold VFS_PATH_MAX in *. lia. }
  by rewrite bind_ok.
Qed.

(** What [vfs_create] does, in terms of the paths of the tree. *)
Lemma vfs_create_ok L K s path t cs c ty :
  tree_ok K s → mem_at L s → is_cstr path t → components t = Some (cs ++ [c]) → zlen c < VFS_NAME_MAX →
  vfs_create s (Some path) ty ⇓ λ '(r, out, s'), ∃ L', mem_at L' s' ∧ L ⊆+ L' ∧
    ((r = -1 ∧ out = None ∧ tree_ok K s' ∧ same_tree s s') ∨
     (r = 0 ∧ ∃ n K', out = Some n ∧ n ≠ 0 ∧ tree_ok K' s' ∧ view K s (cut <$> (cs ++ [c])) = 0 ∧
       (∃ p np n0, node_added L s s' p n np n0 ty) ∧
       ∀ cs', view K' s' cs' = if decide (cs' = cut <$> (cs ++ [c])) then n else view K s cs')).
Proof.
  intros Hok Hmem Ht Hcomp Hlen. destruct (vfs_create_at K s path t cs c ty Hok Ht Hcomp) as (nb & Hnb & ->).
  destruct (Z.eqb_spec (view K s (cut <$> cs)) 0) as [Hv|Hv].
  { apply wp_ok. exists L. split; [done|]. split; [done|by left]. }
  destruct (view_node K s _ Hok Hv) as [np Hnp]. rewrite (get_node_ok s _ np Hnp), bind_ok.
  destruct (ops np) eqn:Hops; try (apply wp_ok; exists L; split; [done|]; split; [done|by left]).
  eapply wp_mono; [by apply (tmpfs_create_node_ok L K s _ np _ c)|].
  intros [[res out] s'] (L' & Hmem' & HL' & Hres). exists L'. split; [done|]. split; [done|].
  destruct Hres as [(-> & -> & Hsame)|(-> & Hno & n & n0 & -> & Hc0 & Hadd)].
  { left. split; [done|]. split; [done|]. split; [by eapply same_tree_wf|done]. }
  pose proof Hadd as (Hn0 & Hfr & _ & Hdir & _ & _ & _ & _ & _ & Hch & Hpa & Hne & Hs' & _ & _ & _ & Hro').
  assert (nodes s !! n = None) as Hnone.
  { destruct (nodes s !! n) eqn:E; [|done]. destruct Hfr. apply Hmem. by eauto. }
  assert (cut <$> (cs ++ [c]) = (cut <$> cs) ++ [c]) as Hcuts by (rewrite fmap_app; simpl; by rewrite cut_short).
  right. split; [done|]. exists n, (<[view K s (cut <$> cs) := n :: kids K (view K s (cut <$> cs))]> K).
  split; [done|]. split; [done|]. rewrite Hcuts. split; [|split; [|split; [by eauto|]]].
  - by eapply (attach_tree K s s' (view K s (cut <$> cs)) n np n0 c).
  - by rewrite view_snoc.
  - intros cs'. by eapply (attach_view K s s' (view K s (cut <$> cs)) n np n0 c).
Qed.

(** *** Removing a node *)

Lemma elem_of_middle (l1 : list Z) c l2 d : d ∈ l1 ++ c :: l2 ↔ d = c ∨ d ∈ l1 ++ l2.
Proof. rewrite !elem_of_app, elem_of_cons. tauto. Qed.

Lemma first_named_remove s l1 c l2 x :
  ((until_nul ∘ name) <$> nodes s !! c ≠ Some x) → first_named s x (l1 ++ c :: l2) = first_named s x (l1 ++ l2).
Proof.
  intros Hc. induction l1 as [|d l1 IH]; cbn [app first_named]; [by rewrite decide_False|]. by rewrite IH.
Qed.

Lemma first_named_absent s x l :
  (∀ d n, d ∈ l → nodes s !! d = Some n → until_nul (name n) ≠ x) → first_named s x l = 0.
Proof.
  induction l as [|d l IH]; intros Hl; [done|]. cbn [first_named]. rewrite decide_False.
  - apply IH. intros e n He. apply Hl. by right.
  - destruct (nodes s !! d) as [n|] eqn:E; [|done]. intros [= Hx]. by apply (Hl d n ltac:(left) E).
Qed.

(** [s'] is [s] with the childless node [c] taken out of the children of [p]. *)
Section Detach.
Context (K : gmap Z (list Z)) (s s' : fs) (p c : Z) (n : vfs_node_t) (l1 l2 : list Z).
Context (Hok : tree_ok K s) (Hkids : kids K p = l1 ++ c :: l2) (Hc : nodes s !! c = Some n) (Hpc : p ≠ c).
Context (Hleaf : kids K c = []).
Definition relinked (q : Z) (m : vfs_node_t) : vfs_node_t :=
  set_links (if decide (q = p ∧ l1 = []) then set_children m (next n) else m) (parent m)
    (if decide (last l1 = Some q) then next n else next m).
Context (Hs'c : nodes s' !! c = Some (set_links n 0 0)).
Context (Hs' : ∀ q, q ≠ c → nodes s' !! q = relinked q <$> nodes s !! q).
Context (Hroot : root_node s' = root_node s).

Let K' : gmap Z (list Z) := <[p := l1 ++ l2]> K.

Lemma relinked_fields q m :
  name (relinked q m) = name m ∧ type (relinked q m) = type m ∧ ops (relinked q m) = ops m ∧
  parent (relinked q m) = parent m.
Proof. unfold relinked. by case_decide. Qed.

Lemma kids_detach q : kids K' q = if decide (q = p) then l1 ++ l2 else kids K q.
Proof. unfold kids, K'. case_decide as E; [subst; by rewrite lookup_insert_eq|by rewrite lookup_insert_ne]. Qed.

Lemma detach_kid q d : d ∈ kids K' q → d ∈ kids K q ∧ d ≠ c.
Proof.
  rewrite kids_detach. pose proof Hok as (_ & Hn & Hk & _).
  assert (c ∈ kids K p) as Hcp by (rewrite Hkids; apply elem_of_middle; by left).
  destruct (Hk p c Hcp) as ([np Hnp] & _ & n' & Hn' & Hpar). destruct (Hn _ _ Hnp) as (_ & Hch & _).
  pose proof (chain_NoDup _ _ _ Hch) as Hnd. rewrite Hkids in Hnd.
  case_decide as E; [subst q; rewrite Hkids|].
  - intros Hd. split; [apply elem_of_middle; by right|]. intros ->. apply NoDup_app in Hnd as (_ & Hdis & Hnd).
    apply NoDup_cons in Hnd as [Hcl _]. apply elem_of_app in Hd as [Hd|Hd]; [|done].
    apply (Hdis c Hd). by left.
  - intros Hd. split; [done|]. intros ->. destruct (Hk q c Hd) as (_ & _ & n2 & Hn2 & Hpar2). congruence.
Qed.

Lemma detach_lookup q m : q ≠ c → nodes s !! q = Some m → nodes s' !! q = Some (relinked q m).
Proof. intros Hq Hm. by rewrite Hs', Hm. Qed.

Lemma detach_name q : (until_nul ∘ name) <$> nodes s' !! q = (until_nul ∘ name) <$> nodes s !! q.
Proof.
  destruct (decide (q = c)) as [->|Hq]; [by rewrite Hs'c, Hc|]. rewrite Hs' by done.
  destruct (nodes s !! q) as [m|]; [|done]. cbn [fmap option_fmap option_map]. unfold compose.
  by destruct (relinked_fields q m) as (-> & _).
Qed.

Lemma detach_chain q m : nodes s !! q = Some m → q ≠ c →
  chain next (nodes s') (children (relinked q m)) (kids K' q).
Proof.
  intros Hq Hqc. pose proof Hok as (_ & Hn & Hk & _). destruct (Hn _ _ Hq) as (_ & Hch & _).
  assert (∀ d k, d ∈ kids K' q → nodes s !! d = Some k → nodes s' !! d = Some (relinked d k)) as Hlk.
  { intros d k Hd Hdk. apply detach_lookup; [by apply (detach_kid q)|done]. }
  rewrite kids_detach in *. unfold relinked at 1. destruct (decide (q = p)) as [->|Hqp].
  - rewrite Hkids in Hch.
    assert (children (if decide (p = p ∧ l1 = []) then set_children m (next n) else m) =
      if decide (l1 = []) then next n else children m) as E by (by repeat case_decide; tauto || done).
    cbn [children set_links]. rewrite E. eapply chain_remove; [done..|]. intros d k Hd Hdk.
    exists (relinked d k). split; [by apply Hlk|done].
  - rewrite decide_False by tauto. cbn [children set_links]. eapply chain_agree; [|done].
    intros d k Hd Hdk. exists (relinked d k). split; [by apply Hlk|]. unfold relinked. cbn [next set_links].
    rewrite decide_False; [done|]. intros E. apply last_Some_elem_of in E.
    destruct (Hk q d Hd) as (_ & _ & k1 & Hk1 & P1). destruct (Hk p d) as (_ & _ & k2 & Hk2 & P2).
    { rewrite Hkids. apply elem_of_app. by left. }
    congruence.
Qed.

Lemma detach_tree : tree_ok K' s'.
Proof.
  pose proof Hok as ((r & Hr & Hrt & Hro) & Hn & Hk & Hu).
  assert (c ∈ kids K p) as Hcp by (rewrite Hkids; apply elem_of_middle; by left).
  destruct (tree_kid K s p c Hok Hcp) as (_ & Hcr & _). split; [|split; [|split]].
  - rewrite Hroot. exists (relinked (root_node s) r). split; [by apply detach_lookup|].
    destruct (relinked_fields (root_node s) r) as (_ & -> & -> & _). done.
  - intros q m Hq. destruct (decide (q = c)) as [->|Hqc].
    + rewrite Hs'c in Hq. injection Hq as <-. destruct (Hn _ _ Hc) as (H0 & Hch & Hnm & _).
      rewrite kids_detach, decide_False, Hleaf by done. rewrite Hleaf in Hch. by repeat split.
    + rewrite Hs' in Hq by done. destruct (nodes s !! q) as [k|] eqn:Ek; [|done]. injection Hq as <-.
      destruct (Hn _ _ Ek) as (H0 & _ & Hnm & Hno). split; [done|]. split; [by apply detach_chain|].
      destruct (relinked_fields q k) as (-> & -> & -> & _). split; [done|]. intros Ht. rewrite kids_detach.
      case_decide; [|by auto]. subst q. rewrite Hkids in Hno. by destruct l1; specialize (Hno Ht).
  - intros q d Hd. destruct (detach_kid q d Hd) as [Hdk Hdc].
    destruct (Hk q d Hdk) as ([nq Hq] & Hdr & m & Hm & Hpm). rewrite Hroot. split; [|split; [done|]].
    + assert (q ≠ c) by (intros ->; rewrite Hleaf in Hdk; by apply not_elem_of_nil in Hdk).
      rewrite (detach_lookup q nq) by done. by eauto.
    + exists (relinked d m). split; [by apply detach_lookup|]. by destruct (relinked_fields d m) as (_ & _ & _ & ->).
  - intros q c1 c2 n1 n2 H1 H2 Hn1 Hn2 He. destruct (detach_kid q c1 H1) as [H1k _]. destruct (detach_kid q c2 H2) as [H2k _].
    pose proof (detach_name c1) as E1. pose proof (detach_name c2) as E2. rewrite Hn1 in E1. rewrite Hn2 in E2.
    destruct (nodes s !! c1) as [m1|] eqn:Em1; [|done]. destruct (nodes s !! c2) as [m2|] eqn:Em2; [|done].
    cbn in E1, E2. apply (Hu q c1 c2 m1 m2); congruence.
Qed.

Lemma detach_child q x :
  child_named K' s' q x = if decide (q = p ∧ x = until_nul (name n)) then 0 else child_named K s q x.
Proof.
  pose proof Hok as (_ & _ & _ & Hu). unfold child_named.
  rewrite (first_named_agree s s') by (intros; apply detach_name).
  rewrite kids_detach. destruct (decide (q = p)) as [->|Hqp]; [|by rewrite decide_False by tauto].
  destruct (decide (x = until_nul (name n))) as [->|Hx].
  - rewrite decide_True by done. apply first_named_absent. intros d m Hd Hm He.
    destruct (detach_kid p d) as [Hdk Hdc]; [by rewrite kids_detach, decide_True|].
    apply Hdc. apply (Hu p d c m n); try done. rewrite Hkids. apply elem_of_middle. by left.
  - rewrite decide_False by tauto. rewrite Hkids. symmetry. apply first_named_remove.
    rewrite Hc. by intros [= ?].
Qed.

Lemma detach_view cs : view K s cs = c →
  ∀ cs', view K' s' cs' = if decide (cs' = cs) then 0 else view K s cs'.
Proof.
  intros Hcs. pose proof Hok as (_ & Hn & _). destruct (Hn _ _ Hc) as (H0 & _).
  assert (c ∈ kids K p) as Hcp by (rewrite Hkids; apply elem_of_middle; by left).
  destruct (tree_kid K s p c Hok Hcp) as (_ & Hcr & n' & Hn' & Hpar).
  rewrite Hc in Hn'. injection Hn' as <-.
  assert (∀ cs' x, view K s (cs' ++ [x]) = c → view K s cs' = p ∧ x = until_nul (name n)) as Hback.
  { intros cs' x E. rewrite view_snoc in E.
    destruct (child_named_elem K s _ x c Hok E H0) as (_ & _ & _ & m & Hm & Hpm & Hnm).
    rewrite Hc in Hm. injection Hm as <-. by split; congruence. }
  assert (view K s [] ≠ c) as Hroot0 by (by unfold view).
  intros cs'. induction cs' as [|x cs' IH] using rev_ind.
  - rewrite decide_False by (by intros <-). unfold view. simpl. done.
  - rewrite !view_snoc, IH, detach_child. destruct (decide (cs' = cs)) as [->|Hne].
    + rewrite (decide_False (P := cs ++ [x] = cs))
        by (intros E; apply (f_equal length) in E; rewrite length_app in E; simpl in E; lia).
      rewrite Hcs, (child_named_none K s c) by done. case_decide; [done|]. by apply (view_zero K s [x]).
    + destruct (decide (cs' ++ [x] = cs)) as [E|E].
      * subst cs. by rewrite decide_True by (by apply Hback).
      * rewrite decide_False; [done|]. intros [Hv ->]. apply E. apply (view_inj K s); [done|..].
        -- rewrite Hcs, view_snoc, Hv. unfold child_named. destruct cs as [|y cs0 _] using rev_ind; [done|].
           destruct (Hback _ _ Hcs) as [Hv0 ->]. rewrite view_snoc in Hcs. by rewrite <-Hcs, Hv0.
        -- rewrite view_snoc, Hv. destruct cs as [|y cs0 _] using rev_ind; [done|].
           destruct (Hback _ _ Hcs) as [Hv0 ->]. rewrite view_snoc, Hv0 in Hcs. congruence.
Qed.
End Detach.

Lemma unlink_walk s pa c r l1 l2 prev a fuel :
  chain next (nodes s) a (l1 ++ c :: l2) → (c ∉ l1) → (length l1 < fuel)%nat →
  unlink_here s pa (default prev (last l1)) c = Ok r →
  loop fuel (λ '(prev, cur),
    if cur =? 0 then Ok (inr (-1, s))
    else if cur =? c then r ← unlink_here s pa prev c; Ok (inr r)
    else d ← get_node s cur; Ok (inl (cur, next d))) (prev, a) = Ok r.
Proof.
  revert prev a fuel. induction l1 as [|d l1 IH]; intros prev a [|fuel] Hch Hnin Hf Hr; cbn [length] in Hf; try lia.
  - destruct Hch as (-> & H0 & _). cbn [loop]. rewrite (proj2 (Z.eqb_neq c 0)), Z.eqb_refl by done.
    cbn [last default from_option id] in Hr. by rewrite Hr.
  - destruct Hch as (-> & H0 & m & Hm & Hch). apply not_elem_of_cons in Hnin as [Hdc Hnin]. cbn [loop].
    rewrite (proj2 (Z.eqb_neq d 0)), (proj2 (Z.eqb_neq d c)) by congruence.
    rewrite (get_node_ok s d m Hm), !bind_ok. apply IH; [done|done|lia|].
    rewrite <-Hr. f_equal. destruct l1 as [|e l1]; [done|]. rewrite last_cons_cons.
    destruct (last (e :: l1)) eqn:E; [done|by apply last_None in E].
Qed.

Lemma relinked_id p n l1 q m : q ≠ p → last l1 ≠ Some q → relinked p n l1 q m = m.
Proof. intros Hq Hl. unfold relinked. rewrite !decide_False by tauto. by destruct m. Qed.

Lemma unlink_here_ok s p c np n l1 :
  nodes s !! p = Some np → nodes s !! c = Some n → p ≠ c → (c ∉ l1) → Forall (λ q, q ≠ 0) l1 →
  (∀ q, last l1 = Some q → is_Some (nodes s !! q)) →
  unlink_here s p (default 0 (last l1)) c ⇓ λ '(r, s'), r = 0 ∧
    nodes s' !! c = Some (set_links n 0 0) ∧ (∀ q, q ≠ c → nodes s' !! q = relinked p n l1 q <$> nodes s !! q) ∧
    root_node s' = root_node s ∧ heap s' = heap s ∧ files s' = files s ∧ blocks s' = blocks s.
Proof.
  intros Hp Hc Hpc Hnin Hnz Hlast. unfold unlink_here. rewrite (get_node_ok s c n Hc), bind_ok.
  destruct (last l1) as [q|] eqn:El; cbn [default from_option id].
  - pose proof (last_Some_elem_of _ _ El) as Hq. assert (q ≠ c) by (intros ->; done).
    pose proof (proj1 (Forall_forall _ _) Hnz q Hq) as Hq0. simpl in Hq0.
    rewrite (proj2 (Z.eqb_neq q 0)) by done. destruct (Hlast q eq_refl) as [m Hm].
    rewrite (get_node_ok s q m Hm), !bind_ok.
    rewrite (get_node_ok _ c n) by (cbn [put_node set_nodes nodes]; by rewrite lookup_insert_ne).
    rewrite bind_ok. apply wp_ok. split; [done|]. cbn [put_node set_nodes nodes].
    split; [by rewrite lookup_insert_eq|]. split; [|done]. intros k Hk. rewrite lookup_insert_ne by done.
    assert (l1 ≠ []) as Hne by (by intros ->). destruct (decide (k = q)) as [->|Hkq].
    + rewrite lookup_insert_eq, Hm. cbn [fmap option_fmap option_map]. unfold relinked. rewrite decide_False by tauto.
      by rewrite decide_True by done.
    + rewrite lookup_insert_ne by done. destruct (nodes s !! k) as [k'|]; [|done]. cbn [fmap option_fmap option_map]. unfold relinked.
      rewrite El. rewrite !decide_False by (tauto || congruence). by destruct k'.
  - rewrite Z.eqb_refl, (get_node_ok s p np Hp), !bind_ok.
    rewrite (get_node_ok _ c n) by (cbn [put_node set_nodes nodes]; by rewrite lookup_insert_ne).
    rewrite bind_ok. apply wp_ok. split; [done|]. cbn [put_node set_nodes nodes].
    split; [by rewrite lookup_insert_eq|]. split; [|done]. intros k Hk. rewrite lookup_insert_ne by done.
    apply last_None in El as ->. destruct (decide (k = p)) as [->|Hkp].
    + rewrite lookup_insert_eq, Hp. cbn [fmap option_fmap option_map]. unfold relinked. rewrite decide_True by done. by destruct np.
    + rewrite lookup_insert_ne by done. destruct (nodes s !! k) as [k'|]; [|done]. cbn [fmap option_fmap option_map].
      by rewrite relinked_id.
Qed.

(** Only links changed. *)
Definition payload (n : vfs_node_t) : vfs_node_t := set_children (set_links n 0 0) 0.
Definition same_payload (s s' : fs) : Prop :=
  (∀ q, payload <$> nodes s' !! q = payload <$> nodes s !! q) ∧
  files s' = files s ∧ blocks s' = blocks s ∧ heap s' = heap s ∧ root_node s' = root_node s.

Lemma same_payload_mem L s s' : mem_at L s → same_payload s s' → mem_at L s'.
Proof.
  intros [Ha HL] (Hn & _ & _ & Hh & _). split; [by rewrite Hh|]. intros q Hq. apply HL. specialize (Hn q).
  destruct (nodes s' !! q), (nodes s !! q); try done.
Qed.

Lemma unlink_loop_ok K s p c n :
  tree_ok K s → c ∈ kids K p → nodes s !! c = Some n → p ≠ c → kids K c = [] →
  unlink_loop s p c ⇓ λ '(r, s'), r = 0 ∧ same_payload s s' ∧ ∃ K', tree_ok K' s' ∧
    ∀ cs, view K s cs = c → ∀ cs', view K' s' cs' = if decide (cs' = cs) then 0 else view K s cs'.
Proof.
  intros Hok Hcp Hc Hpc Hleaf. pose proof Hok as (_ & Hn & Hk & _).
  destruct (Hk p c Hcp) as ([np Hp] & _). destruct (Hn _ _ Hp) as (_ & Hch & _).
  pose proof (chain_NoDup _ _ _ Hch) as Hnd. pose proof (chain_length _ _ _ Hch) as Hlen.
  apply list_elem_of_split in Hcp as (l1 & l2 & El). rewrite El in Hch, Hnd, Hlen.
  assert (c ∉ l1) as Hnin.
  { intros Hin. apply NoDup_app in Hnd as (_ & Hd & _). apply (Hd c Hin). by left. }
  unfold unlink_loop. rewrite (get_node_ok s p np Hp), bind_ok.
  destruct (unlink_here_ok s p c np n l1) as ([r s'] & Hr & -> & Hs'c & Hs' & Hro & Hhe & Hfi & Hbl); try done.
  { apply Forall_forall. intros q Hq. apply (chain_elem _ _ _ q Hch). apply elem_of_app. by left. }
  { intros q Hq%last_Some_elem_of. apply (chain_elem _ _ _ q Hch). apply elem_of_app. by left. }
  rewrite (unlink_walk s p c (0, s') l1 l2 0 (children np)); [|done|done|rewrite length_app in Hlen; lia|done].
  apply wp_ok. split; [done|]. split; [|exists (<[p := l1 ++ l2]> K); split; [by eapply (detach_tree K s s' p c n l1 l2)|]].
  - split; [|done]. intros q. destruct (decide (q = c)) as [->|Hqc]; [by rewrite Hs'c, Hc|]. rewrite Hs' by done.
    destruct (nodes s !! q) as [m|]; [|done]. cbn [fmap option_fmap option_map]. f_equal. unfold relinked. by case_decide.
  - intros cs Hcs cs'. by eapply (detach_view K s s' p c n l1 l2).
Qed.

(** What [vfs_unlink] does, in terms of the paths of the tree. *)
Lemma vfs_unlink_ok K s path t :
  tree_ok K s → is_cstr path t →
  vfs_unlink s (Some path) ⇓ λ '(r, s'),
    let node := match components t with Some cs => view K s (cut <$> cs) | None => 0 end in
    (r = -1 ∧ s' = s ∧ (node = 0 ∨ node = root_node s ∨ kids K node ≠ [])) ∨
    (r = 0 ∧ node ≠ 0 ∧ node ≠ root_node s ∧ kids K node = [] ∧
     same_payload s s' ∧
     ∃ K' cs, tree_ok K' s' ∧ components t = Some cs ∧
       ∀ cs', view K' s' cs' = if decide (cs' = cut <$> cs) then 0 else view K s cs').
Proof.
  intros Hok Ht. unfold vfs_unlink. rewrite (vfs_lookup_ok K s path t), bind_ok by done.
  destruct (components t) as [cs|]; [|rewrite Z.eqb_refl; apply wp_ok; by auto]. cbv zeta.
  set (cs1 := cut <$> cs). destruct (Z.eqb_spec (view K s cs1) 0) as [Hz|Hnz]; [apply wp_ok; by auto|].
  destruct (view_node K s cs1 Hok Hnz) as [n Hn]. rewrite (get_node_ok s _ n Hn), bind_ok.
  pose proof Hok as (_ & Hno & _). destruct (Hno _ _ Hn) as (_ & Hch & _ & Hkno).
  destruct (Z.eqb_spec (view K s cs1) (root_node s)) as [Hroot|Hroot].
  { rewrite orb_true_r. apply wp_ok. left. split; [done|]. split; [done|]. right. by left. }
  destruct cs1 as [|x cs2 _] eqn:Ecs using rev_ind; [done|]. rewrite view_snoc in *.
  destruct (child_named_elem K s _ x _ Hok eq_refl Hnz) as (Hin & _ & Hp0 & n' & Hn' & Hpar & Hnm).
  rewrite Hn in Hn'. injection Hn' as <-. rewrite Hpar, (proj2 (Z.eqb_neq _ 0) Hp0). cbn [orb].
  assert (bool_decide (type n = VFS_NODE_DIR) && negb (children n =? 0) = true ↔
          kids K (child_named K s (view K s cs2) x) ≠ []) as Hiff.
  { destruct (kids K _) as [|d l] eqn:Ek.
    - simpl in Hch. rewrite Hch. rewrite andb_false_r. by split.
    - destruct Hch as (-> & Hd & _). rewrite (proj2 (Z.eqb_neq d 0)) by done. cbn [negb]. rewrite andb_true_r.
      split; [done|]. intros _. apply bool_decide_eq_true. destruct (decide (type n = VFS_NODE_DIR)); [done|].
      by specialize (Hkno (or_introl n0)). }
  destruct (bool_decide _ && _); [apply wp_ok; left; split; [done|]; split; [done|]; right; right; by apply Hiff|].
  assert (kids K (child_named K s (view K s cs2) x) = []) as Hleaf.
  { destruct (kids K _); [done|]. by destruct Hiff as [_ Hiff]; specialize (Hiff ltac:(done)). }
  assert (view K s cs2 ≠ child_named K s (view K s cs2) x) as Hpc.
  { intros E. rewrite <-view_snoc in E. apply (view_inj K s) in E; [|done|done].
    apply (f_equal length) in E. rewrite length_app in E. simpl in E. lia. }
  eapply wp_mono; [by apply (unlink_loop_ok K s _ _ n)|].
  intros [r s'] (-> & Hsp & K' & Hwf' & Hview). right. do 5 (split; [done|]). exists K', cs.
  split; [done|]. split; [done|]. intros cs'. fold cs1. rewrite Ecs. apply Hview. by rewrite view_snoc.
Qed.

(** ** What a program sees of the tree *)

(** vfs_create on a path with a last component shorter than the name limit returns 0 or -1 and
    keeps the tree well formed; on 0 the path did not resolve before and now resolves to the
    node returned, and every other path (every path when it failed) resolves as before. *)
Theorem vfs_create_then_lookup K s path t cs c ty :
  wf K s → is_cstr path t → components t = Some (cs ++ [c]) → zlen c < VFS_NAME_MAX →
  vfs_create s (Some path) ty ⇓ λ '(r, out, s'),
    (∃ K', wf K' s') ∧ (r = 0 ∨ r = -1) ∧
    (r = 0 → vfs_lookup s (Some path) = Ok 0 ∧
       ∃ n, out = Some n ∧ n ≠ 0 ∧ vfs_lookup s' (Some path) = Ok n) ∧
    (∀ path' t' cs', is_cstr path' t' → components t' = Some cs' →
       (r = 0 → cut <$> cs' ≠ cut <$> (cs ++ [c])) →
       vfs_lookup s' (Some path') = vfs_lookup s (Some path')).
Proof.
  intros [Hok (L & Hmem)] Ht Hc Hl. eapply wp_mono; [by apply (vfs_create_ok L K s path t cs c ty)|].
  intros [[r out] s'] (L' & Hmem' & _ & [(-> & -> & Hok' & Hsame)|(-> & n & K' & -> & Hn & Hok' & Hno & _ & Hview)]).
  - split; [exists K; split; [done|by exists L']|]. split; [by right|]. split; [done|]. intros path' t' cs' Ht' Hc' _.
    rewrite (vfs_lookup_ok K s path' t'), (vfs_lookup_ok K s' path' t'), Hc' by done. by rewrite (same_tree_view K s s').
  - split; [exists K'; split; [done|by exists L']|]. split; [by left|]. split.
    + intros _. rewrite (vfs_lookup_ok K s path t), (vfs_lookup_ok K' s' path t), Hc, Hno, Hview by done.
      rewrite decide_True by done. by eauto.
    + intros path' t' cs' Ht' Hc' Hne. rewrite (vfs_lookup_ok K s path' t'), (vfs_lookup_ok K' s' path' t'), Hc', Hview by done.
      by rewrite decide_False by auto.
Qed.

(** vfs_unlink either returns -1 with the state unchanged, and then the path did not resolve, or
    resolved to the root or to a node that still has children; or it returns 0, the path
    resolved to another node without children and no longer resolves, and every path with other
    components resolves as before. *)
Theorem vfs_unlink_removes K s path t :
  wf K s → is_cstr path t →
  vfs_unlink s (Some path) ⇓ λ '(r, s'),
    (∃ K', wf K' s') ∧
    ((r = -1 ∧ s' = s ∧
      ∃ node, vfs_lookup s (Some path) = Ok node ∧ (node = 0 ∨ node = root_node s ∨ kids K node ≠ [])) ∨
     (r = 0 ∧ vfs_lookup s' (Some path) = Ok 0 ∧
      (∃ node, vfs_lookup s (Some path) = Ok node ∧ node ≠ 0 ∧ node ≠ root_node s ∧ kids K node = []) ∧
      ∀ path' t' cs cs', is_cstr path' t' → components t = Some cs → components t' = Some cs' →
        cut <$> cs' ≠ cut <$> cs → vfs_lookup s' (Some path') = vfs_lookup s (Some path'))).
Proof.
  intros Hwf Ht. pose proof Hwf as [Hok (L & Hmem)]. eapply wp_mono; [by apply (vfs_unlink_ok K s path t)|].
  intros [r s']. cbv zeta. rewrite (vfs_lookup_ok K s path t) by done.
  intros [(-> & -> & Hwhy)|(-> & H0 & Hr & Hk & Hsp & K' & cs & Hok' & Hc & Hview)].
  - split; [by eauto|]. left. by eauto.
  - split; [exists K'; split; [done|exists L; by apply (same_payload_mem L s)]|]. right. split; [done|]. split; [|split; [by eauto|]].
    + rewrite (vfs_lookup_ok K' s' path t), Hc, Hview by done. by rewrite decide_True.
    + intros path' t' cs0 cs' Ht' Hcs0 Hcs' Hne. rewrite Hc in Hcs0. injection Hcs0 as <-.
      rewrite (vfs_lookup_ok K s path' t'), (vfs_lookup_ok K' s' path' t'), Hcs', Hview by done.
      by rewrite decide_False.
Qed.

End Vfs.
End Vfs.
