(* ===== verification/FileData.v ===== *)
(** The contents of tmpfs files: what [tmpfs_read], [tmpfs_write] and
    [tmpfs_truncate] (kernel/fs/tmpfs.c) do to the bytes a file holds, and that they
    leave the tree and every other file alone. *)
From S2P Require Import Prelude Chain KString Heap KStdlib Path Vfs.

Module FileData.
Import KString Heap KStdlib Path Vfs.

Section FileData.
Context {H : Type} `{RA : Reallocator H}.
Context (garbage : Z → Z → Z).
Abbreviation fs := (@Vfs.fs H).

(** A file the tmpfs operations accept. *)
Definition regular (s : fs) (p : Z) (n : vfs_node_t) : Prop :=
  nodes s !! p = Some n ∧ type n = VFS_NODE_FILE ∧ ops n = tmpfs_ops.

(** The bytes of the file at node [p]. *)
Definition contents (s : fs) (p : Z) : list Z :=
  match nodes s !! p with
  | Some n =>
      match files s !! private_data n with
      | Some f => take (Z.to_nat (size n)) (default [] (blocks s !! data f))
      | None => []
      end
  | None => []
  end.

(** The storage of one file: nothing yet, or a block of [capacity] bytes. *)
Definition file_ok (L : list (Z * Z)) (s : fs) (f : tmpfs_file_t) : Prop :=
  0 ≤ capacity f < 2 ^ 64 ∧ (data f = 0 → capacity f = 0) ∧
  (data f ≠ 0 → (∃ sz, (data f, sz) ∈ L) ∧ (∃ b, blocks s !! data f = Some b ∧ zlen b = capacity f) ∧
     nodes s !! data f = None ∧ files s !! data f = None).

(** Every object is an allocated block, no two files share bytes, a file is not
    longer than its block. *)
Definition storage (L : list (Z * Z)) (s : fs) : Prop :=
  al_repr (heap s) L ∧ blocks s !! 0 = None ∧ files s !! 0 = None ∧
  (∀ p, is_Some (nodes s !! p) → p ∈ L.*1) ∧
  (∀ a f, files s !! a = Some f → a ∈ L.*1 ∧ file_ok L s f) ∧
  (∀ a1 a2 f1 f2, files s !! a1 = Some f1 → files s !! a2 = Some f2 → data f1 ≠ 0 →
     data f1 = data f2 → a1 = a2) ∧
  (∀ p n, regular s p n → 0 ≤ size n ∧ (private_data n = 0 → size n = 0) ∧
     (private_data n ≠ 0 → ∃ f, files s !! private_data n = Some f ∧ size n ≤ capacity f)) ∧
  (∀ p1 p2 n1 n2, regular s p1 n1 → regular s p2 n2 → private_data n1 ≠ 0 →
     private_data n1 = private_data n2 → p1 = p2).

Definition storage_ok (s : fs) : Prop := ∃ L, storage L s.

(** The bytes of the block behind the end of the file are zero. *)
Definition clean (s : fs) (p : Z) : Prop :=
  ∀ n f b, nodes s !! p = Some n → files s !! private_data n = Some f → blocks s !! data f = Some b →
    drop (Z.to_nat (size n)) b = replicate (Z.to_nat (zlen b - size n)) 0.

(** ** What the operations leave alone: names and links *)

Definition strip (n : vfs_node_t) : vfs_node_t := set_private (set_size n 0) 0.

Definition same_links (s s' : fs) : Prop :=
  root_node s' = root_node s ∧ ∀ p, strip <$> nodes s' !! p = strip <$> nodes s !! p.

Lemma same_links_trans s1 s2 s3 : same_links s1 s2 → same_links s2 s3 → same_links s1 s3.
Proof. intros [H1 H2] [H3 H4]. split; [congruence|]. intros p. by rewrite H4, H2. Qed.

Lemma same_links_lookup s s' p n' : same_links s s' → nodes s' !! p = Some n' →
  ∃ n, nodes s !! p = Some n ∧ strip n' = strip n.
Proof.
  intros [_ Hl] Hn'. specialize (Hl p). rewrite Hn' in Hl. destruct (nodes s !! p) as [n|]; [|done].
  exists n. split; [done|]. injection Hl as Hl. unfold strip, set_private, set_size. by f_equal.
Qed.

Lemma strip_fields n n' : strip n' = strip n →
  name n' = name n ∧ type n' = type n ∧ ops n' = ops n ∧ parent n' = parent n ∧ next n' = next n ∧
  children n' = children n.
Proof. intros E. injection E. by repeat split. Qed.

Lemma same_links_sym s s' : same_links s s' → same_links s' s.
Proof. intros [H1 H2]. split; [done|]. intros p. by rewrite H2. Qed.

Lemma same_links_chain s s' a l : same_links s s' → chain next (nodes s) a l → chain next (nodes s') a l.
Proof.
  intros Hs. apply chain_agree. intros c n _ Hn. apply same_links_sym in Hs.
  destruct (same_links_lookup s' s c n Hs Hn) as (n' & Hn' & E). exists n'. split; [done|].
  apply strip_fields in E. symmetry. apply E.
Qed.

(** The tree is the same, so every path leads where it did. *)
Lemma same_links_tree K s s' : tree_ok K s → same_links s s' → tree_ok K s'.
Proof.
  intros ((r & Hr & Hrt & Hro) & Hn & Hk & Hu) Hs. pose proof (same_links_sym _ _ Hs) as Hs'.
  split; [|split; [|split]].
  - destruct (same_links_lookup s' s _ r Hs' Hr) as (r' & Hr' & E). apply strip_fields in E as (_ & Et & Eo & _).
    destruct Hs as [-> _]. exists r'. split; [done|]. by rewrite <-Et, <-Eo.
  - intros p n' Hn'. destruct (same_links_lookup s s' p n' Hs Hn') as (n & Hpn & E).
    apply strip_fields in E as (-> & -> & -> & _ & _ & ->). destruct (Hn _ _ Hpn) as (? & Hch & ? & ?).
    split; [done|]. split; [by apply (same_links_chain s)|done].
  - intros p c Hc. destruct (Hk p c Hc) as ([np Hp] & Hcr & nc & Hnc & Hpar).
    destruct (same_links_lookup s' s _ np Hs' Hp) as (np' & -> & _).
    destruct (same_links_lookup s' s _ nc Hs' Hnc) as (nc' & -> & E). apply strip_fields in E as (_ & _ & _ & E & _).
    destruct Hs as [-> _]. split; [done|]. split; [done|]. exists nc'. split; [done|]. congruence.
  - intros p c1 c2 n1 n2 H1 H2 Hn1 Hn2. destruct (same_links_lookup s s' _ n1 Hs Hn1) as (m1 & Hm1 & E1).
    destruct (same_links_lookup s s' _ n2 Hs Hn2) as (m2 & Hm2 & E2).
    apply strip_fields in E1 as (-> & _). apply strip_fields in E2 as (-> & _). by eapply Hu.
Qed.

Lemma same_links_view K s s' cs : same_links s s' → view K s' cs = view K s cs.
Proof.
  intros Hs. induction cs as [|x cs IH] using rev_ind; [apply Hs|]. rewrite !view_snoc, IH.
  apply first_named_agree. intros c _. destruct Hs as [_ Hs]. specialize (Hs c).
  destruct (nodes s' !! c) as [n'|], (nodes s !! c) as [n|]; try done. cbn in *. injection Hs as E. congruence.
Qed.

(** ** Getting storage for a file *)

(** The files look the same. *)
Definition kept (s s' : fs) : Prop :=
  same_links s s' ∧
  (∀ q m, regular s q m → contents s' q = contents s q) ∧
  (∀ q m, regular s q m → clean s q → clean s' q).

Lemma kept_refl s : kept s s.
Proof. by split. Qed.

Lemma regular_links s s' q m : same_links s s' → regular s q m →
  ∃ m', regular s' q m' ∧ strip m' = strip m.
Proof.
  intros Hs (Hq & Ht & Ho). destruct (same_links_lookup s' s q m (same_links_sym _ _ Hs) Hq) as (m' & Hq' & E).
  exists m'. split; [|done]. pose proof (strip_fields _ _ E) as (_ & E1 & E2 & _).
  split; [done|]. by rewrite <-E1, <-E2.
Qed.

Lemma kept_trans s1 s2 s3 : kept s1 s2 → kept s2 s3 → kept s1 s3.
Proof.
  intros (Hl & Hc & Hz) (Hl' & Hc' & Hz'). split; [by eapply same_links_trans|].
  split; intros q m Hq; destruct (regular_links s1 s2 q m Hl Hq) as (m' & Hq' & _).
  - by rewrite (Hc' q m'), (Hc q m).
  - intros Hcl. eapply Hz'; [done|]. by eapply Hz.
Qed.

Lemma kept_heap s h : kept s (set_heap s h).
Proof. by split. Qed.

Lemma storage_heap L L' s h :
  storage L s → al_repr h L' → L ⊆+ L' → storage L' (set_heap s h).
Proof.
  intros (_ & Hb0 & Hf0 & Hn & Hf & Hd & Hr & Hp) Ha Hsub.
  assert (∀ x, x ∈ L.*1 → x ∈ L'.*1) as Hfst.
  { intros x (y & -> & Hy)%list_elem_of_fmap. apply list_elem_of_fmap. exists y. split; [done|].
    by eapply elem_of_submseteq. }
  do 3 (split; [done|]). split; [by auto|]. split; [|done].
  intros a f Haf. destruct (Hf a f Haf) as (Hal & Hc & H0 & Hnz). split; [by auto|].
  split; [done|]. split; [done|]. intros Hda. destruct (Hnz Hda) as ((sz & Hsz) & Hrest). split; [|done].
  exists sz. by eapply elem_of_submseteq.
Qed.

(** [s'] is [s] after the node [p], which had no file structure, got the fresh one at [a]. *)
Section NewFile.
Context (L : list (Z * Z)) (s s' : fs) (p a sz : Z) (n : vfs_node_t).
Context (Hst : storage L s) (Hreg : regular s p n) (Hp0 : private_data n = 0) (Hpos : 0 < a).
Context (Hfresh : a ∉ L.*1) (Ha' : al_repr (heap s') ((a, sz) :: L)).
Context (Hnodes : nodes s' = <[p := set_private n a]> (nodes s)).
Context (Hfiles : files s' = <[a := {| data := 0; capacity := 0 |}]> (files s)).
Context (Hblocks : blocks s' = blocks s) (Hroot : root_node s' = root_node s).

Lemma new_file_none : files s !! a = None.
Proof.
  destruct (files s !! a) as [f|] eqn:E; [|done]. destruct Hst as (_ & _ & _ & _ & Hf & _). by destruct (Hf a f E).
Qed.

Lemma new_nodes q : nodes s' !! q = if decide (q = p) then Some (set_private n a) else nodes s !! q.
Proof. rewrite Hnodes. case_decide; [subst; by rewrite lookup_insert_eq|by rewrite lookup_insert_ne]. Qed.

Lemma new_files x f : files s' !! x = Some f →
  (x = a ∧ f = {| data := 0; capacity := 0 |}) ∨ (x ≠ a ∧ files s !! x = Some f).
Proof. rewrite Hfiles. intros [[<- <-]|[? ?]]%lookup_insert_Some; auto. Qed.

Lemma new_regular q m : regular s' q m → ∃ m0, regular s q m0 ∧ size m = size m0 ∧
  private_data m = if decide (q = p) then a else private_data m0.
Proof.
  intros (Hq & Hqt & Hqo). rewrite new_nodes in Hq. case_decide as E; [|by exists m].
  subst q. injection Hq as <-. by exists n.
Qed.

Lemma old_private q k : regular s q k → private_data k ≠ a.
Proof.
  intros Hk E. pose proof new_file_none. destruct Hst as (_ & _ & _ & _ & _ & _ & Hr & _).
  destruct (Hr q k Hk) as (_ & _ & Hx). destruct Hx as (f & Hff & _); [lia|]. congruence.
Qed.

Lemma new_file_storage : storage ((a, sz) :: L) s'.
Proof.
  pose proof Hst as (_ & Hb0 & Hf0 & HnL & Hf & Hd & Hr & Hpr). pose proof new_file_none as Hfa.
  pose proof Hreg as (Hn & _). split; [done|]. split; [by rewrite Hblocks|].
  split; [rewrite Hfiles; by rewrite lookup_insert_ne by lia|]. split; [|split; [|split; [|split]]].
  - intros q Hq. apply elem_of_fst_cons, HnL. rewrite new_nodes in Hq. case_decide; [subst q; by eauto|done].
  - intros x f Hx. destruct (new_files x f Hx) as [[-> ->]|[Hxa Hx']].
    + split; [rewrite fmap_cons; by left|]. split; [done|]. split; [done|]. by intros [].
    + destruct (Hf x f Hx') as (HxL & Hc & Hc0 & Hcn). split; [by apply elem_of_fst_cons|].
      split; [done|]. split; [done|]. intros Hdf. destruct (Hcn Hdf) as ((z & Hz') & Hb & Hnn & Hfn).
      assert (data f ≠ a) as Hda.
      { intros E. apply Hfresh. apply list_elem_of_fmap. exists (data f, z). split; [by simpl|done]. }
      split; [exists z; by right|]. rewrite Hblocks. split; [done|]. rewrite new_nodes, decide_False by congruence.
      rewrite Hfiles, lookup_insert_ne by done. done.
  - intros x1 x2 f1 f2 H1 H2 Hd1 He. destruct (new_files _ _ H1) as [[-> ->]|[? H1']]; [done|].
    destruct (new_files _ _ H2) as [[-> ->]|[? H2']]; [by destruct Hd1|]. by eapply Hd.
  - intros q m Hq. destruct (new_regular q m Hq) as (m0 & Hq0 & -> & ->). destruct (Hr q m0 Hq0) as (Hm0 & Hmz & Hmn).
    split; [done|]. rewrite Hfiles. case_decide as E.
    + subst q. assert (m0 = n) as -> by (destruct Hq0; congruence). split; [lia|]. intros _. eexists.
      rewrite lookup_insert_eq. split; [done|]. by rewrite Hmz.
    + split; [done|]. intros Hpm. destruct (Hmn Hpm) as (f & Hff & Hfc). exists f. split; [|done].
      by rewrite lookup_insert_ne by (intros E'; by apply (old_private q m0)).
  - intros q1 q2 m1 m2 H1 H2. destruct (new_regular q1 m1 H1) as (k1 & Hk1 & _ & ->).
    destruct (new_regular q2 m2 H2) as (k2 & Hk2 & _ & ->). intros Hnz1 He.
    destruct (decide (q1 = p)), (decide (q2 = p)); [congruence|..]; [|by destruct (old_private q1 k1)|by eapply Hpr].
    by destruct (old_private q2 k2).
Qed.

Lemma new_file_kept : kept s s'.
Proof.
  pose proof Hst as (_ & Hb0 & Hf0 & _ & _ & _ & Hr & _). pose proof Hreg as (Hn & _).
  destruct (Hr p n Hreg) as (_ & Hz & _). specialize (Hz Hp0). split; [split; [done|]|split].
  - intros q. rewrite new_nodes. case_decide; [subst q; by rewrite Hn|done].
  - intros q m Hq. unfold contents. rewrite new_nodes, Hblocks, Hfiles. destruct (decide (q = p)) as [->|Hqp].
    + rewrite Hn, Hp0, Hf0. cbn [private_data set_private size]. rewrite lookup_insert_eq. cbn [data]. by rewrite Hb0, Hz.
    + pose proof (old_private q m Hq) as Hne. destruct Hq as [-> _]. by rewrite lookup_insert_ne.
  - intros q m Hq Hcl n' f b Hn' Hf' Hb'. rewrite new_nodes in Hn'. rewrite Hblocks in Hb'.
    destruct (new_files _ _ Hf') as [[E ->]|[E Hf'']].
    + cbn [data] in Hb'. congruence.
    + destruct (decide (q = p)) as [->|Hqp].
      * injection Hn' as <-. by cbn [private_data set_private] in E.
      * by apply (Hcl n' f b).
Qed.
End NewFile.

(** The file structure of a node, made when it has none. *)
Lemma tmpfs_file_ok L s p n :
  storage L s → regular s p n →
  tmpfs_file s p ⇓ λ '(a, s'), storage_ok s' ∧ kept s s' ∧
    (a = 0 ∨ (a ≠ 0 ∧ ∃ n' f, regular s' p n' ∧ private_data n' = a ∧ size n' = size n ∧ files s' !! a = Some f)).
Proof.
  intros Hst Hreg. pose proof Hreg as (Hn & Ht & Ho). unfold tmpfs_file. rewrite (get_node_ok s p n Hn), bind_ok.
  pose proof Hst as (Ha & _ & _ & _ & _ & _ & Hr & _). destruct (Hr p n Hreg) as (_ & _ & Hnz).
  destruct (Z.eqb_spec (private_data n) 0) as [Hp0|Hp0]; cbn [negb].
  2: { apply wp_ok. split; [by exists L|]. split; [apply kept_refl|]. right. destruct (Hnz Hp0) as (f & Hff & _).
       split; [done|]. by exists n, f. }
  apply wp_bind. eapply wp_mono; [apply al_calloc_spec; [done|unfold TMPFS_FILE_SIZE; lia..]|].
  intros [a h] [(-> & Ha')|(sz & Hpos & _ & _ & Hfresh & Ha')]; cbv zeta.
  { apply wp_ok. split; [by exists L; apply (storage_heap L L)|]. split; [apply kept_heap|by left]. }
  rewrite (proj2 (Z.eqb_neq a 0)) by lia. apply wp_ok. split; [|split].
  - exists ((a, sz) :: L). by eapply (new_file_storage L s _ p a sz n).
  - by eapply (new_file_kept L s _ p a n).
  - right. split; [lia|]. exists (set_private n a), {| data := 0; capacity := 0 |}.
    cbn [put_node set_nodes files set_files]. rewrite lookup_insert_eq. split; [|done]. split; [|done].
    cbn [put_node set_nodes nodes set_files]. by rewrite lookup_insert_eq.
Qed.

(** [s'] is [s] after the storage of the file [a] moved to the larger block [q]. *)
Section Grow.
Context (L L0 : list (Z * Z)) (s s' : fs) (a q cap tz : Z) (f : tmpfs_file_t).
Context (Hst : storage L s) (Hf : files s !! a = Some f) (Hcap : capacity f ≤ cap < 2 ^ 64) (Hq : 0 < q).
Context (HL0 : ∀ x z, (x, z) ∈ L → x ≠ data f → (x, z) ∈ L0) (Hfresh : q ∉ L0.*1).
Context (Ha' : al_repr (heap s') ((q, tz) :: L0)).
Let old : list Z := default [] (blocks s !! data f).
Let new : list Z := old ++ replicate (Z.to_nat (cap - zlen old)) 0.
Context (Hnodes : nodes s' = nodes s) (Hroot : root_node s' = root_node s).
Context (Hfiles : files s' = <[a := {| data := q; capacity := cap |}]> (files s)).
Context (Hblocks : blocks s' = <[q := new]> (delete (data f) (blocks s))).

Lemma grow_old : zlen old = capacity f.
Proof.
  destruct Hst as (_ & Hb0 & _ & _ & Hfo & _). destruct (Hfo a f Hf) as (_ & _ & Hc0 & Hcn). unfold old.
  destruct (decide (data f = 0)) as [E|E].
  - by rewrite E, Hb0, Hc0.
  - destruct (Hcn E) as (_ & (b & -> & Hb) & _). done.
Qed.

Lemma grow_new : zlen new = cap.
Proof. unfold new. pose proof grow_old. unfold zlen in *. rewrite length_app, length_replicate. lia. Qed.

Lemma grow_L0 x : x ∈ L.*1 → x ≠ data f → x ∈ L0.*1.
Proof.
  intros ([y z] & -> & Hy)%list_elem_of_fmap Hx. apply list_elem_of_fmap. exists (y, z). split; [done|]. by apply HL0.
Qed.

(** Addresses of structures are not addresses of file data. *)
Lemma grow_node x : is_Some (nodes s !! x) → x ≠ q ∧ x ≠ data f ∧ x ∈ L0.*1.
Proof.
  intros Hx. destruct Hst as (Har & _ & _ & HnL & Hfo & _). destruct (Hfo a f Hf) as (_ & _ & _ & Hcn).
  pose proof (HnL x Hx) as HxL. assert (x ≠ data f) as Hxd.
  { intros ->. destruct (decide (data f = 0)) as [E|E].
    - rewrite E in HxL. apply list_elem_of_fmap in HxL as ([y z] & E' & Hy). simpl in E'. subst y.
      destruct (al_repr_range _ _ _ _ Har Hy). lia.
    - destruct (Hcn E) as (_ & _ & Hnn & _). rewrite Hnn in Hx. by destruct Hx. }
  pose proof (grow_L0 x HxL Hxd). split; [by intros ->|]. done.
Qed.

Lemma grow_file x g : files s !! x = Some g → x ≠ q ∧ x ≠ data f ∧ x ∈ L0.*1.
Proof.
  intros Hx. destruct Hst as (_ & _ & Hf0 & _ & Hfo & _). destruct (Hfo a f Hf) as (_ & _ & _ & Hcn).
  destruct (Hfo x g Hx) as (HxL & _). assert (x ≠ data f) as Hxd.
  { intros ->. destruct (decide (data f = 0)) as [E|E]; [congruence|].
    destruct (Hcn E) as (_ & _ & _ & Hfn). congruence. }
  pose proof (grow_L0 x HxL Hxd). split; [by intros ->|]. done.
Qed.

(** The data of another file is somewhere else, and stays. *)
Lemma grow_other x g : files s !! x = Some g → x ≠ a → data g ≠ 0 →
  data g ≠ data f ∧ data g ≠ q ∧ (∃ z, (data g, z) ∈ L0) ∧ blocks s' !! data g = blocks s !! data g.
Proof.
  intros Hx Hxa Hg. destruct Hst as (_ & _ & _ & _ & Hfo & Hd & _). destruct (Hfo x g Hx) as (_ & _ & _ & Hcn).
  destruct (Hcn Hg) as ((z & Hz) & _). assert (data g ≠ data f) as Hgf.
  { intros E. apply Hxa. by eapply Hd. }
  assert (data g ≠ q) as Hgq.
  { intros E. apply Hfresh. apply list_elem_of_fmap. exists (data g, z). split; [by simpl|]. by apply HL0. }
  split; [done|]. split; [done|]. split; [exists z; by apply HL0|].
  by rewrite Hblocks, lookup_insert_ne, lookup_delete_ne by done.
Qed.

Lemma grow_blocks_zero : blocks s' !! 0 = None.
Proof.
  destruct Hst as (_ & Hb0 & _). rewrite Hblocks, lookup_insert_ne by lia.
  destruct (decide (data f = 0)) as [->|]; [by rewrite lookup_delete_eq|by rewrite lookup_delete_ne].
Qed.

Lemma grow_files x g : files s' !! x = Some g →
  (x = a ∧ g = {| data := q; capacity := cap |}) ∨ (x ≠ a ∧ files s !! x = Some g).
Proof. rewrite Hfiles. intros [[<- <-]|[? ?]]%lookup_insert_Some; auto. Qed.

Lemma grow_regular p m : regular s' p m ↔ regular s p m.
Proof. unfold regular. by rewrite Hnodes. Qed.

Lemma grow_storage : storage ((q, tz) :: L0) s'.
Proof.
  pose proof Hst as (_ & Hb0 & Hf0 & HnL & Hfo & Hd & Hr & Hpr). pose proof grow_new as Hnew.
  split; [done|]. split; [apply grow_blocks_zero|].
  split; [rewrite Hfiles, lookup_insert_ne; [done|]; intros E; congruence|]. split; [|split; [|split; [|split]]].
  - intros p Hp. rewrite Hnodes in Hp. apply elem_of_fst_cons. by apply grow_node.
  - intros x g Hx. destruct (grow_files x g Hx) as [[-> ->]|[Hxa Hx']].
    + split; [apply elem_of_fst_cons; by apply (grow_file a f)|].
      destruct (Hfo a f Hf) as (_ & Hc & _). split; [cbn [capacity]; lia|]. split; [cbn [data]; lia|].
      intros _. cbn [data capacity]. split; [exists tz; by left|]. split.
      { exists new. by rewrite Hblocks, lookup_insert_eq. }
      rewrite Hnodes, Hfiles. split.
      * apply eq_None_not_Some. intros Hn. by destruct (grow_node q Hn).
      * rewrite lookup_insert_ne by (by destruct (grow_file a f Hf)). apply eq_None_not_Some. intros [g Hg].
        by destruct (grow_file q g Hg).
    + destruct (Hfo x g Hx') as (_ & Hc & Hc0 & Hcn). split; [apply elem_of_fst_cons; by apply (grow_file x g)|].
      split; [done|]. split; [done|]. intros Hg. destruct (Hcn Hg) as (_ & Hb & Hnn & Hfn).
      destruct (grow_other x g Hx' Hxa Hg) as (_ & _ & (z & Hz) & ->). split; [exists z; by right|]. split; [done|].
      rewrite Hnodes, Hfiles, lookup_insert_ne by congruence. done.
  - intros x1 x2 g1 g2 H1 H2 Hg1 He.
    destruct (grow_files _ _ H1) as [[-> ->]|[Hx1 H1']], (grow_files _ _ H2) as [[-> ->]|[Hx2 H2']]; [done|..].
    + cbn [data] in He, Hg1. rewrite He in Hg1. destruct (grow_other x2 g2 H2' Hx2 Hg1) as (_ & ? & _). congruence.
    + destruct (grow_other x1 g1 H1' Hx1 Hg1) as (_ & ? & _). by cbn [data] in He.
    + by eapply Hd.
  - intros p m Hp. apply grow_regular in Hp. destruct (Hr p m Hp) as (H0 & Hz & Hn). split; [done|]. split; [done|].
    intros Hpm. destruct (Hn Hpm) as (g & Hg & Hgc). rewrite Hfiles. destruct (decide (private_data m = a)) as [E|E].
    + rewrite E in *. rewrite Hf in Hg. injection Hg as <-. eexists. rewrite lookup_insert_eq. split; [done|]. cbn [capacity]. lia.
    + exists g. by rewrite lookup_insert_ne by done.
  - intros p1 p2 m1 m2 H1%grow_regular H2%grow_regular. by eapply Hpr.
Qed.

(** The file of a regular node that is not [a]'s reads from the same block. *)
Lemma grow_lookup_other x g : x ≠ a → files s !! x = Some g →
  files s' !! x = Some g ∧ blocks s' !! data g = blocks s !! data g.
Proof.
  intros Hx Hg. split; [by rewrite Hfiles, lookup_insert_ne|]. destruct (decide (data g = 0)) as [E|E].
  - rewrite E, grow_blocks_zero. by destruct Hst as (_ & -> & _).
  - by apply (grow_other x g).
Qed.

Lemma grow_kept : kept s s'.
Proof.
  pose proof Hst as (_ & Hb0 & Hf0 & _ & Hfo & _ & Hr & _). pose proof grow_old as Hold.
  split; [split; [done|by rewrite Hnodes]|]. split.
  - intros p m Hp. destruct (Hr p m Hp) as (H0 & _ & Hn). unfold contents. rewrite Hnodes.
    destruct Hp as [-> _]. destruct (files s !! private_data m) as [g|] eqn:Hg.
    + destruct (decide (private_data m = a)) as [E|E].
      * destruct (Hn ltac:(congruence)) as (g' & Hg' & Hgc). assert (g' = f) as -> by congruence.
        assert (g = f) as -> by congruence. rewrite E, Hfiles, lookup_insert_eq. cbn [data].
        rewrite Hblocks, lookup_insert_eq. cbn [default from_option id]. fold old. unfold new.
        apply take_app_le. unfold zlen in Hold. lia.
      * destruct (grow_lookup_other _ g E Hg) as [-> ->]. done.
    + rewrite Hfiles, lookup_insert_ne by congruence. by rewrite Hg.
  - intros p m Hp Hcl n' g b Hn' Hg Hb. rewrite Hnodes in Hn'. pose proof Hp as (Hpn & _).
    assert (n' = m) as -> by congruence. destruct (Hr p m Hp) as (H0 & Hz & Hn).
    destruct (grow_files _ _ Hg) as [[E ->]|[E Hg']].
    + cbn [data] in Hb. rewrite Hblocks, lookup_insert_eq in Hb. injection Hb as <-.
      destruct (Hn ltac:(congruence)) as (g & Hg' & Hgc). rewrite E, Hf in Hg'. injection Hg' as <-.
      rewrite grow_new. unfold new. rewrite drop_app_le by (unfold zlen in Hold; lia).
      assert (drop (Z.to_nat (size m)) old = replicate (Z.to_nat (zlen old - size m)) 0) as ->.
      { unfold old. destruct (blocks s !! data f) as [b|] eqn:Eb; cbn [default from_option id].
        - apply (Hcl m f b); [done|by rewrite E|done].
        - unfold old in Hold. rewrite ?Eb in Hold. cbn [default from_option id zlen length] in *.
          rewrite drop_nil. replace (Z.to_nat _) with 0%nat; [done|]. unfold zlen. simpl. lia. }
      rewrite <-replicate_add. f_equal. lia.
    + destruct (grow_lookup_other _ g E Hg') as [_ Hbb]. rewrite Hbb in Hb. by apply (Hcl m g b).
Qed.
End Grow.

(** What [krealloc] gives for the data of a file. *)
Lemma realloc_data L s a f cap :
  storage L s → files s !! a = Some f → 0 < cap ≤ 2 ^ 32 - 16 →
  al_realloc (heap s) (data f) cap ⇓ λ '(q, h),
    (q = 0 ∧ storage_ok (set_heap s h)) ∨
    (∃ L0 tz, 0 < q ∧ (∀ x z, (x, z) ∈ L → x ≠ data f → (x, z) ∈ L0) ∧ (q ∉ L0.*1) ∧ al_repr h ((q, tz) :: L0)).
Proof.
  intros Hst Hf Hcap. pose proof Hst as (Ha & _ & _ & _ & Hfo & _). destruct (Hfo a f Hf) as (_ & _ & _ & Hcn).
  destruct (decide (data f = 0)) as [E|E].
  - rewrite E, al_realloc_null. eapply wp_mono; [by apply al_malloc_spec|].
    intros [q h] [(-> & Ha')|(sz & Hq & _ & _ & Hfr & Ha')].
    + left. split; [done|]. exists L. by apply (storage_heap L L).
    + right. exists L, sz. by split_and!.
  - destruct (Hcn E) as ((sz & Hsz) & _). apply list_elem_of_split in Hsz as (L1 & L2 & ->).
    eapply wp_mono; [apply (al_realloc_spec _ (L1 ++ L2) (data f) sz); [|done]|].
    { eapply al_repr_perm; [|done]. symmetry. apply Permutation_middle. }
    intros [q h] [(-> & Ha')|(tz & Hq & _ & Hfr & Ha')].
    + left. split; [done|]. exists (L1 ++ (data f, sz) :: L2). apply (storage_heap (L1 ++ (data f, sz) :: L2)); [done|..|done].
      eapply al_repr_perm; [|done]. apply Permutation_middle.
    + right. exists (L1 ++ L2), tz. split; [done|]. split; [|done]. intros x z Hx Hne.
      apply elem_of_app in Hx as [Hx|Hx]; [apply elem_of_app; by left|].
      apply elem_of_cons in Hx as [[= -> ->]|Hx]; [done|]. apply elem_of_app. by right.
Qed.

(** [memset] overwrites exactly what was added. *)
Lemma clear_added old q cap :
  zlen old ≤ cap < 2 ^ 64 →
  (if zlen old <? cap
   then memset (old ++ (garbage q <$> seqZ (zlen old) (cap - zlen old))) (zlen old) 0 (u64 (cap - zlen old))
   else Ok (old ++ (garbage q <$> seqZ (zlen old) (cap - zlen old)))) =
  Ok (old ++ replicate (Z.to_nat (cap - zlen old)) 0).
Proof.
  intros Hc. assert (0 ≤ zlen old) by (unfold zlen; lia). destruct (Z.ltb_spec (zlen old) cap).
  - rewrite u64_small by lia. assert (zlen (old ++ (garbage q <$> seqZ (zlen old) (cap - zlen old))) = cap) as Hl.
    { unfold zlen at 1. rewrite length_app, length_fmap, length_seqZ. unfold zlen in *. lia. }
    rewrite memset_ok by lia. unfold splice. f_equal. unfold zlen at 1. rewrite Nat2Z.id, take_app_length. f_equal.
    change (u8 0) with 0. rewrite drop_ge, app_nil_r; [done|].
    rewrite length_replicate, length_app, length_fmap, length_seqZ. unfold zlen. lia.
  - replace (cap - zlen old) with 0 by lia. done.
Qed.

Lemma tmpfs_grow_ok L s a f cap :
  storage L s → files s !! a = Some f → capacity f ≤ cap → 0 < cap ≤ 2 ^ 32 - 16 →
  tmpfs_grow garbage s a cap ⇓ λ '(q, s'), storage_ok s' ∧ kept s s' ∧ nodes s' = nodes s ∧
    (q = 0 ∨ (q ≠ 0 ∧ files s' !! a = Some {| data := q; capacity := cap |})).
Proof.
  intros Hst Hf Hle Hcap. unfold tmpfs_grow, get_file. rewrite Hf, bind_ok. apply wp_bind.
  eapply wp_mono; [by apply (realloc_data L s a f cap)|].
  intros [q h] [(-> & Hst')|(L0 & tz & Hq & HL0 & Hfr & Ha')]; cbv zeta.
  { apply wp_ok. split; [done|]. split; [apply kept_heap|]. by split; [|left]. }
  rewrite (proj2 (Z.eqb_neq q 0)) by lia. cbn [blocks set_heap].
  pose proof (grow_old L s a f Hst Hf) as Hold. rewrite <-Hold, clear_added by lia. rewrite bind_ok. apply wp_ok.
  assert (capacity f ≤ cap < 2 ^ 64) as Hcap' by lia.
  split; [|split; [|split; [done|]]].
  - exists ((q, tz) :: L0). by eapply (grow_storage L L0 s _ a q cap tz f).
  - by eapply (grow_kept L L0 s _ a q cap f).
  - right. split; [lia|]. cbn [files set_files]. by rewrite lookup_insert_eq.
Qed.

(** The loop that doubles the capacity ends with enough room, and not much more. *)
Lemma double_capacity_ok cap required :
  0 < cap < required → required ≤ 2 ^ 31 - 8 →
  double_capacity 65 cap required ⇓ λ c, required ≤ c ≤ 2 ^ 32 - 16.
Proof.
  intros Hc Hr. unfold double_capacity.
  apply (wp_loop_bound (λ k c, 0 < c < 2 * required ∧ (k ≤ 64)%nat ∧ 2 ^ (64 - Z.of_nat k) ≤ 2 * c)) with (k := 64%nat).
  - intros k c (Hc' & Hk & Hp). destruct (Z.ltb_spec c required); apply wp_ok; [|lia].
    rewrite u64_small by lia. destruct k as [|k]; [change (2 ^ (64 - Z.of_nat 0)) with 18446744073709551616 in Hp; lia|].
    exists k. split; [lia|]. split; [lia|]. split; [lia|].
    replace (64 - Z.of_nat k) with (Z.succ (64 - Z.of_nat (S k))) by lia. rewrite Z.pow_succ_r by lia. lia.
  - split; [lia|]. split; [lia|]. change (2 ^ (64 - Z.of_nat 64)) with 1. lia.
  - lia.
Qed.

(** ** Writing bytes *)

(** [old] with [bs] written at [off]; a gap between the end and [off] reads as zeros. *)
Definition overwrite (old : list Z) (off : Z) (bs : list Z) : list Z :=
  take (Z.to_nat off) (old ++ replicate (Z.to_nat off - length old) 0) ++ bs ++
  drop (Z.to_nat off + length bs) old.

(** The first [off] bytes of a block, seen through a file of [sz] bytes. *)
Lemma take_padded (b : list Z) sz off :
  0 ≤ sz ≤ zlen b → 0 ≤ off ≤ zlen b →
  (off ≤ sz ∨ drop (Z.to_nat sz) b = replicate (Z.to_nat (zlen b - sz)) 0) →
  take (Z.to_nat off) (take (Z.to_nat sz) b ++
    replicate (Z.to_nat off - length (take (Z.to_nat sz) b)) 0) = take (Z.to_nat off) b.
Proof.
  intros Hsz Ho Hgap. unfold zlen in *. rewrite length_take. destruct Hgap as [Hle|Hz].
  - rewrite take_app_le by (rewrite length_take; lia). rewrite take_take. f_equal. lia.
  - rewrite <-(take_drop (Z.to_nat sz) b) at 3. rewrite Hz. destruct (decide (off ≤ sz)).
    + by rewrite !take_app_le by (rewrite length_take; lia).
    + rewrite !take_app_ge by (rewrite length_take; lia). f_equal. rewrite !take_replicate. f_equal.
      rewrite length_take. lia.
Qed.

Lemma splice_visible b sz off bs :
  0 ≤ sz ≤ zlen b → 0 ≤ off → off + zlen bs ≤ zlen b →
  (off ≤ sz ∨ drop (Z.to_nat sz) b = replicate (Z.to_nat (zlen b - sz)) 0) →
  take (Z.to_nat (Z.max sz (off + zlen bs))) (splice b off bs) = overwrite (take (Z.to_nat sz) b) off bs.
Proof.
  intros Hsz Ho Hl Hgap. unfold zlen in *. unfold splice, overwrite.
  rewrite take_padded by (unfold zlen; (done || lia)).
  rewrite take_app_ge by (rewrite length_take; lia). f_equal. rewrite length_take.
  rewrite take_app_ge by lia. f_equal. rewrite take_drop_commute.
  destruct (decide (off + Z.of_nat (length bs) ≤ sz)); [f_equal; f_equal; lia|].
  by rewrite !drop_ge by (rewrite length_take; lia).
Qed.

Lemma file_block L s a f : storage L s → files s !! a = Some f →
  (data f = 0 ∧ blocks s !! data f = None ∧ capacity f = 0) ∨
  ∃ b, blocks s !! data f = Some b ∧ zlen b = capacity f.
Proof.
  intros (_ & Hb0 & _ & _ & Hfo & _) Hf. destruct (Hfo _ f Hf) as (_ & _ & Hc0 & Hcn).
  destruct (decide (data f = 0)) as [E|E]; [left|right; apply (Hcn E)]. rewrite E. auto.
Qed.

(** [s'] is [s] with [bs] stored at [off] in the block of the regular file [p], whose
    size becomes [sz']. *)
Section PutBytes.
Context (L : list (Z * Z)) (s s' : fs) (p off : Z) (n : vfs_node_t) (f : tmpfs_file_t) (bs : list Z).
Context (Hst : storage L s) (Hreg : regular s p n) (Hf : files s !! private_data n = Some f).
Context (Hoff : 0 ≤ off) (Hroom : off + zlen bs ≤ capacity f).
Let required : Z := off + zlen bs.
Context (sz' : Z) (Hsz' : 0 ≤ sz' ≤ capacity f).
Context (put_nodes : ∀ q, nodes s' !! q = if decide (q = p) then Some (set_size n sz') else nodes s !! q).
Context (Hblocks : blocks s' = match blocks s !! data f with
                               | Some b => <[data f := splice b off bs]> (blocks s)
                               | None => blocks s
                               end).
Context (Hfiles : files s' = files s) (Hheap : heap s' = heap s) (Hroot : root_node s' = root_node s).

Lemma put_size : 0 ≤ size n ≤ capacity f.
Proof.
  destruct Hst as (_ & _ & Hf0 & _ & _ & _ & Hr & _). destruct (Hr p n Hreg) as (H0 & _ & Hn). split; [done|].
  destruct Hn as (g & Hg & Hgc); [intros E; rewrite E in Hf; congruence|]. congruence.
Qed.

Lemma put_regular q m : regular s' q m →
  if decide (q = p) then m = set_size n sz' else regular s q m.
Proof. intros (Hq & Ht). rewrite put_nodes in Hq. case_decide; [congruence|done]. Qed.

Lemma put_other x g : files s !! x = Some g → x ≠ private_data n → blocks s' !! data g = blocks s !! data g.
Proof.
  intros Hg Hx. rewrite Hblocks. destruct (file_block L s _ f Hst Hf) as [(_ & -> & _)|(b & Hb & _)]; [done|]. rewrite Hb.
  destruct Hst as (_ & Hb0 & _ & _ & _ & Hd & _).
  destruct (decide (data f = data g)) as [E|E]; [|by rewrite lookup_insert_ne].
  exfalso. apply Hx. apply (Hd x (private_data n) g f); [done|done|congruence|done].
Qed.

Lemma put_storage : storage L s'.
Proof.
  pose proof Hst as (Ha & Hb0 & Hf0 & HnL & Hfo & Hd & Hr & Hpr). pose proof Hreg as (Hn & Ht & Ho).
  pose proof put_size as Hsz. split; [by rewrite Hheap|]. split.
  { rewrite Hblocks. destruct (file_block L s _ f Hst Hf) as [(_ & -> & _)|(b & Hb & _)]; [done|]. rewrite Hb, lookup_insert_ne; congruence. }
  rewrite Hfiles. split; [done|]. split; [|split; [|split; [done|split]]].
  - intros q Hq. apply HnL. rewrite put_nodes in Hq. case_decide; [subst q; by eauto|done].
  - intros x g Hg. destruct (Hfo x g Hg) as (HxL & Hc & Hc0 & Hcn). split; [done|]. split; [done|]. split; [done|].
    intros Hdg. destruct (Hcn Hdg) as (Hz & (b & Hb & Hbl) & Hnn & Hfn). split; [done|]. rewrite Hfiles. split; [|split; [|done]].
    + destruct (decide (x = private_data n)) as [->|Hx]; [|rewrite (put_other x g) by done; by eauto].
      assert (g = f) as -> by congruence. rewrite Hblocks, Hb, lookup_insert_eq. eexists. split; [done|].
      unfold zlen in *. rewrite length_splice by (unfold zlen; lia). done.
    + rewrite put_nodes, decide_False by congruence. done.
  - intros q m Hq. pose proof (put_regular q m Hq) as Hq'. case_decide as E; [subst q m|by apply (Hr q)].
    cbn [size private_data set_size]. split; [lia|]. split; [intros E; congruence|]. intros _. exists f.
    split; [done|]. lia.
  - assert (∀ q m, regular s' q m → ∃ m0, regular s q m0 ∧ private_data m0 = private_data m) as Hback.
    { intros q m Hq. pose proof (put_regular q m Hq) as Hq'. case_decide as E; [subst q m; by exists n|by exists m]. }
    intros q1 q2 m1 m2 H1 H2 Hnz He. destruct (Hback q1 m1 H1) as (k1 & Hk1 & E1).
    destruct (Hback q2 m2 H2) as (k2 & Hk2 & E2). apply (Hpr q1 q2 k1 k2); congruence.
Qed.

Lemma put_links : same_links s s'.
Proof.
  destruct Hreg as (Hn & _). split; [done|]. intros q. rewrite put_nodes. case_decide; [subst q; by rewrite Hn|done].
Qed.

Lemma put_private q m : regular s q m → q ≠ p → private_data m ≠ private_data n.
Proof.
  intros Hq Hne E. destruct Hst as (_ & _ & Hf0 & _ & _ & _ & _ & Hpr).
  apply Hne. apply (Hpr q p m n); [done|done| |done]. intros E0. congruence.
Qed.

Lemma put_others q m : regular s q m → q ≠ p → contents s' q = contents s q ∧ (clean s q → clean s' q).
Proof.
  intros Hq Hne. pose proof (put_private q m Hq Hne) as Hpr. pose proof Hq as (Hqn & _). split.
  - unfold contents. rewrite put_nodes, decide_False, Hqn, Hfiles by done.
    destruct (files s !! private_data m) as [g|] eqn:Hg; [|done]. by rewrite (put_other _ g Hg Hpr).
  - intros Hcl n' g b Hn' Hg Hb. rewrite put_nodes, decide_False in Hn' by done. rewrite Hfiles in Hg.
    assert (n' = m) as -> by congruence. rewrite (put_other _ g Hg Hpr) in Hb. by apply (Hcl m g b).
Qed.

Lemma put_contents : sz' = Z.max (size n) required → off ≤ size n ∨ clean s p →
  contents s' p = overwrite (contents s p) off bs.
Proof.
  intros -> Hgap. pose proof put_size as Hsz. pose proof Hreg as (Hn & _). unfold contents.
  rewrite put_nodes, decide_True, Hn, Hfiles by done. cbn [private_data set_size size]. rewrite Hf, Hblocks.
  assert (0 ≤ zlen bs) by (unfold zlen; lia).
  destruct (file_block L s _ f Hst Hf) as [(_ & Hb & Hc)|(b & Hb & Hbl)]; rewrite !Hb; cbn [default from_option id].
  - assert (zlen bs = 0) as Hbs by lia. assert (off = 0) as -> by lia. destruct bs; [|done]. by rewrite !take_nil.
  - rewrite lookup_insert_eq. cbn [default from_option id]. apply splice_visible; [lia|done|lia|].
    destruct Hgap as [?|Hcl]; [by left|right]. by apply (Hcl n f b).
Qed.

Lemma put_clean : sz' = Z.max (size n) required → clean s p → clean s' p.
Proof.
  intros -> Hcl n' g b' Hn' Hg Hb'. pose proof put_size as Hsz. pose proof Hreg as (Hn & _).
  rewrite put_nodes, decide_True in Hn' by done. injection Hn' as <-. cbn [private_data set_size size] in *.
  rewrite Hfiles in Hg. assert (g = f) as -> by congruence. rewrite Hblocks in Hb'.
  destruct (file_block L s _ f Hst Hf) as [(_ & Hb & Hc)|(b & Hb & Hbl)]; rewrite Hb in Hb'; [congruence|].
  rewrite lookup_insert_eq in Hb'. injection Hb' as <-. specialize (Hcl n f b Hn Hf Hb).
  assert (zlen (splice b off bs) = zlen b) as Hzl.
  { unfold zlen at 1. by rewrite length_splice by lia. }
  rewrite Hzl. unfold splice, required, zlen in *.
  rewrite drop_app_ge by (rewrite length_take; lia). rewrite length_take. rewrite drop_app_ge by lia. rewrite drop_drop.
  replace (Z.to_nat off + length bs + _)%nat with (Z.to_nat (size n) + Z.to_nat (Z.max (size n) (off + Z.of_nat (length bs)) - size n))%nat by lia.
  rewrite <-drop_drop, Hcl, drop_replicate. f_equal. lia.
Qed.
End PutBytes.

Lemma get_file_ok (s : fs) a f : files s !! a = Some f → get_file s a = Ok f.
Proof. intros Hf. unfold get_file. by rewrite Hf. Qed.

Lemma storage_node_pos L s p n : storage L s → nodes s !! p = Some n → p ≠ 0.
Proof.
  intros (Ha & _ & _ & HnL & _) Hn. specialize (HnL p (ex_intro _ n Hn)).
  apply list_elem_of_fmap in HnL as ([y z] & -> & Hy). destruct (al_repr_range _ _ _ _ Ha Hy). simpl. lia.
Qed.

(** Making room for [required] bytes. *)
Lemma make_room_ok L s p n f required :
  storage L s → regular s p n → files s !! private_data n = Some f → 0 ≤ required ≤ 2 ^ 31 - 8 →
  (if capacity f <? required then
     cap ← double_capacity 65 (if negb (capacity f =? 0) then capacity f else 128) required;
     '(q, s') ← tmpfs_grow garbage s (private_data n) cap;
     Ok (negb (q =? 0), s')
   else Ok (true, s)) ⇓ λ '(ok, s'), storage_ok s' ∧ kept s s' ∧ nodes s' = nodes s ∧
    (ok = true → ∃ f', files s' !! private_data n = Some f' ∧ required ≤ capacity f').
Proof.
  intros Hst Hreg Hf Hr. pose proof Hst as (_ & _ & _ & _ & Hfo & _). destruct (Hfo _ f Hf) as (_ & Hc & _).
  destruct (Z.ltb_spec (capacity f) required) as [Hlt|Hge].
  2: { apply wp_ok. split; [by exists L|]. split; [apply kept_refl|]. split; [done|]. by eauto. }
  assert (double_capacity 65 (if negb (capacity f =? 0) then capacity f else 128) required ⇓
    λ c, required ≤ c ∧ 0 < c ≤ 2 ^ 32 - 16) as Hdc.
  { assert (∀ c0, 0 < c0 → (c0 < required ∨ c0 = 128) → double_capacity 65 c0 required ⇓
      λ c, required ≤ c ∧ 0 < c ≤ 2 ^ 32 - 16) as Hgen.
    { intros c0 H0 Hc0. destruct (decide (c0 < required)) as [Hlt'|Hge'].
      - eapply wp_mono; [apply double_capacity_ok; lia|]. simpl. lia.
      - destruct Hc0 as [?| ->]; [lia|]. unfold double_capacity. cbn [loop].
        destruct (Z.ltb_spec 128 required); [lia|]. apply wp_ok. lia. }
    destruct (Z.eqb_spec (capacity f) 0); cbn [negb]; apply Hgen; auto; lia. }
  apply wp_bind. eapply wp_mono; [exact Hdc|]. intros cap (Hcr & Hcb). apply wp_bind.
  eapply wp_mono; [apply (tmpfs_grow_ok L s (private_data n) f cap); (done || lia)|].
  intros [q s'] (Hst' & Hk & Hns & Hq). apply wp_ok. split; [done|]. split; [done|]. split; [done|].
  destruct Hq as [->|(Hq & Hff)]; [done|]. intros _. eexists. split; [done|]. done.
Qed.

Lemma tmpfs_write_ok L s p n off buf count :
  storage L s → regular s p n → 0 ≤ off → 0 ≤ count ≤ zlen buf → off + count ≤ 2 ^ 31 - 8 →
  tmpfs_write garbage s p off (Some buf) count ⇓ λ '(r, s'), storage_ok s' ∧ same_links s s' ∧
    (∀ q m, regular s q m → q ≠ p → contents s' q = contents s q ∧ (clean s q → clean s' q)) ∧
    (clean s p → clean s' p) ∧
    ((r = -1 ∧ contents s' p = contents s p) ∨
     (r = count ∧ (off ≤ size n ∨ clean s p →
        contents s' p = overwrite (contents s p) off (take (Z.to_nat count) buf)))).
Proof.
  intros Hst Hreg Ho Hc Hb. pose proof Hreg as (Hn & Ht & Hops). unfold tmpfs_write.
  rewrite (proj2 (Z.eqb_neq p 0)), (get_node_ok s p n Hn), bind_ok by (by eapply storage_node_pos).
  rewrite decide_False by (intros Hx; by apply Hx).
  assert (∀ s1, storage_ok s1 → kept s s1 → Ok (-1, s1) ⇓ λ '(r, s'), storage_ok s' ∧ same_links s s' ∧
    (∀ q m, regular s q m → q ≠ p → contents s' q = contents s q ∧ (clean s q → clean s' q)) ∧
    (clean s p → clean s' p) ∧
    ((r = -1 ∧ contents s' p = contents s p) ∨
     (r = count ∧ (off ≤ size n ∨ clean s p →
        contents s' p = overwrite (contents s p) off (take (Z.to_nat count) buf))))) as Hfail.
  { intros s1 Hs1 (Hl1 & Hc1 & Hz1). apply wp_ok. split; [done|]. split; [done|].
    split; [by eauto|]. split; [by eauto|]. left. split; [done|]. by eapply Hc1. }
  apply wp_bind. eapply wp_mono; [by apply (tmpfs_file_ok L s p n)|].
  intros [a s1] ((L1 & Hst1) & Hk1 & [->|(Ha & n1 & f1 & Hreg1 & Hpa & Hsz1 & Hf1)]); [apply Hfail; [by exists L1|done]|].
  rewrite (proj2 (Z.eqb_neq a 0)) by done. cbv zeta. rewrite u64_small by lia. subst a.
  rewrite (get_file_ok s1 _ f1 Hf1), bind_ok. apply wp_bind.
  eapply wp_mono; [apply (make_room_ok L1 s1 p n1 f1 (off + count)); (done || lia)|].
  intros [ok s2] ((L2 & Hst2) & Hk2 & Hns2 & Hok). pose proof (kept_trans _ _ _ Hk1 Hk2) as Hk.
  destruct ok; cbn [negb]; [|apply Hfail; [by exists L2|done]].
  destruct (Hok eq_refl) as (f2 & Hf2 & Hcap2). rewrite (get_file_ok s2 _ f2 Hf2), bind_ok.
  assert (regular s2 p n1) as Hreg2 by (unfold regular in *; by rewrite Hns2).
  set (bs := slice buf 0 count).
  assert (zlen bs = count) as Hbs by (unfold bs, zlen in *; rewrite length_slice by (unfold zlen; lia); lia).
  assert (match blocks s2 !! data f2 with
          | Some block => block ← memcpy block off buf 0 count; Ok (set_blocks s2 (<[data f2 := block]> (blocks s2)))
          | None => if count =? 0 then Ok s2 else Undef
          end = Ok (set_blocks s2 (match blocks s2 !! data f2 with
                                   | Some b => <[data f2 := splice b off bs]> (blocks s2)
                                   | None => blocks s2 end))) as ->.
  { destruct (file_block L2 s2 _ f2 Hst2 Hf2) as [(_ & -> & Hc0)|(b & -> & Hbl)].
    - destruct (Z.eqb_spec count 0); [by destruct s2|lia].
    - by rewrite memcpy_ok by lia. }
  rewrite bind_ok, (get_node_ok _ p n1) by (cbn [nodes set_blocks]; apply Hreg2). rewrite bind_ok. apply wp_ok.
  rewrite i32_small by lia.
  match goal with |- storage_ok ?x ∧ _ => set (s3 := x) end.
  set (sz' := Z.max (size n1) (off + zlen bs)).
  assert (∀ q, nodes s3 !! q = if decide (q = p) then Some (set_size n1 sz') else nodes s2 !! q) as E1.
  { intros q. unfold s3, sz'. rewrite Hbs. destruct Hreg2 as (Hn2 & _). destruct (Z.ltb_spec (size n1) (off + count)).
    - rewrite Z.max_r by lia. cbn [put_node set_nodes nodes set_blocks].
      case_decide; [subst q; by rewrite lookup_insert_eq|by rewrite lookup_insert_ne].
    - rewrite Z.max_l by lia. cbn [nodes set_blocks]. case_decide; [subst q|done]. rewrite Hn2. f_equal. by destruct n1. }
  assert (blocks s3 = match blocks s2 !! data f2 with
    | Some b => <[data f2 := splice b off bs]> (blocks s2) | None => blocks s2 end) as E2
    by (unfold s3; by destruct (size n1 <? off + count)).
  assert (files s3 = files s2 ∧ heap s3 = heap s2 ∧ root_node s3 = root_node s2) as (E3 & E4 & E5)
    by (unfold s3; by destruct (size n1 <? off + count)).
  assert (off + zlen bs ≤ capacity f2) as Hroom by lia. destruct Hk as (Hl & Hcon & Hcl).
  pose proof (put_size L2 s2 p n1 f2 Hst2 Hreg2 Hf2) as Hsz2. assert (0 ≤ sz' ≤ capacity f2) as Hsz' by lia.
  split; [|split; [|split; [|split]]].
  - exists L2. by eapply (put_storage L2 s2 s3 p off n1 f2 bs Hst2 Hreg2 Hf2 Ho Hroom sz').
  - eapply same_links_trans; [done|]. by eapply (put_links s2 s3 p n1 Hreg2 sz').
  - intros q m Hq Hne. destruct (regular_links s s2 q m Hl Hq) as (m2 & Hq2 & _).
    destruct (put_others L2 s2 s3 p off n1 f2 bs Hst2 Hreg2 Hf2 sz' E1 E2 E3 q m2 Hq2 Hne) as [-> Hcl3].
    split; [by eapply Hcon|]. eauto.
  - intros Hclp. eapply (put_clean L2 s2 s3 p off n1 f2 bs Hst2 Hreg2 Hf2 Ho Hroom sz'); try done. by eapply Hcl.
  - right. split; [done|]. intros Hgap. replace (take (Z.to_nat count) buf) with bs by (unfold bs, slice; by rewrite drop_0).
    rewrite (put_contents L2 s2 s3 p off n1 f2 bs Hst2 Hreg2 Hf2 Ho Hroom sz'); try done; [by rewrite (Hcon p n)|].
    rewrite Hsz1. destruct Hgap as [?|Hclp]; [by left|right]. by eapply Hcl.
Qed.

(** ** Reading and truncating *)

Lemma contents_length L s p n f : storage L s → regular s p n → files s !! private_data n = Some f →
  zlen (contents s p) = size n ∧ (∀ b, blocks s !! data f = Some b → contents s p = take (Z.to_nat (size n)) b).
Proof.
  intros Hst Hreg Hf. pose proof (put_size L s p n f Hst Hreg Hf) as Hsz. pose proof Hreg as (Hn & _).
  unfold contents. rewrite Hn, Hf. destruct (file_block L s _ f Hst Hf) as [(_ & -> & Hc)|(b & -> & Hb)];
    cbn [default from_option id].
  - rewrite take_nil. split; [unfold zlen; simpl; lia|done].
  - split; [|by intros b' [= ->]]. unfold zlen in *. rewrite length_take. lia.
Qed.

Lemma tmpfs_read_ok L s p n off buf count :
  storage L s → regular s p n → 0 ≤ off → 0 ≤ count < 2 ^ 31 → off + count < 2 ^ 64 → count ≤ zlen buf →
  let bs := slice (contents s p) off count in
  tmpfs_read s p off (Some buf) count = Ok (zlen bs, Some (splice buf 0 bs)).
Proof.
  intros Hst Hreg Ho Hc Hoc Hbuf bs. pose proof Hreg as (Hn & Ht & Hops). unfold tmpfs_read.
  rewrite (proj2 (Z.eqb_neq p 0)), (get_node_ok s p n Hn), bind_ok by (by eapply storage_node_pos).
  rewrite decide_False by (intros Hx; by apply Hx). pose proof Hst as (_ & _ & _ & _ & _ & _ & Hr & _).
  destruct (Hr p n Hreg) as (Hs0 & Hz & Hnz).
  assert (size n ≤ off → zlen (contents s p) = size n → bs = []) as Hnil.
  { intros Hle Hlen. unfold bs, slice. rewrite drop_ge; [by rewrite take_nil|unfold zlen in *; lia]. }
  destruct (Z.eqb_spec (private_data n) 0) as [Hp0|Hp0]; cbn [orb].
  { rewrite Hnil; [done|by rewrite Hz|]. unfold contents. rewrite Hn, Hp0. destruct Hst as (_ & _ & -> & _). by rewrite Hz. }
  destruct (Hnz Hp0) as (f & Hf & Hfc). destruct (contents_length L s p n f Hst Hreg Hf) as [Hlen Hcb].
  destruct (Z.leb_spec (size n) off) as [Hle|Hlt]; [by rewrite Hnil|].
  rewrite (get_file_ok s _ f Hf), bind_ok. cbv zeta.
  destruct (file_block L s _ f Hst Hf) as [(_ & _ & Hc0)|(b & Hb & Hbl)]; [lia|]. rewrite Hb. cbn [default from_option id].
  set (k := if size n <? u64 (off + count) then u64 (size n - off) else count).
  assert (k = Z.min count (size n - off)) as Hk.
  { unfold k. rewrite u64_small by lia. destruct (Z.ltb_spec (size n) (off + count)); [|lia].
    rewrite u64_small by (destruct Hst as (_ & _ & _ & _ & Hfo & _); destruct (Hfo _ f Hf) as (_ & ? & _); lia). lia. }
  rewrite memcpy_ok, bind_ok by lia. rewrite i32_small by lia.
  assert (slice b off k = bs) as ->.
  { unfold bs, slice. rewrite (Hcb b Hb), skipn_firstn_comm, take_take. f_equal. lia. }
  do 3 f_equal. unfold bs, zlen, slice in *. rewrite length_take, length_drop. lia.
Qed.

Lemma tmpfs_truncate_ok L s p n sz :
  storage L s → regular s p n → 0 ≤ sz ≤ 2 ^ 32 - 16 →
  tmpfs_truncate garbage s p sz ⇓ λ '(r, s'), storage_ok s' ∧ same_links s s' ∧
    (∀ q m, regular s q m → q ≠ p → contents s' q = contents s q ∧ (clean s q → clean s' q)) ∧
    ((r = -1 ∧ contents s' p = contents s p) ∨
     (r = 0 ∧ (sz ≤ size n ∨ clean s p →
        contents s' p = take (Z.to_nat sz) (contents s p ++ replicate (Z.to_nat sz - length (contents s p)) 0)))).
Proof.
  intros Hst Hreg Hsz. pose proof Hreg as (Hn & Ht & Hops). unfold tmpfs_truncate.
  rewrite (proj2 (Z.eqb_neq p 0)), (get_node_ok s p n Hn), bind_ok by (by eapply storage_node_pos).
  rewrite decide_False by (intros Hx; by apply Hx). apply wp_bind. eapply wp_mono; [by apply (tmpfs_file_ok L s p n)|].
  intros [a s1] ((L1 & Hst1) & Hk1 & [->|(Ha & n1 & f1 & Hreg1 & Hpa & Hsz1 & Hf1)]).
  { apply wp_ok. destruct Hk1 as (Hl & Hc & Hcl). split; [by exists L1|]. split; [done|]. split; [by eauto|].
    left. split; [done|]. by eapply Hc. }
  rewrite (proj2 (Z.eqb_neq a 0)) by done. subst a. rewrite (get_file_ok s1 _ f1 Hf1), bind_ok.
  apply wp_bind. pose proof Hst1 as (_ & _ & _ & _ & Hfo & _). destruct (Hfo _ f1 Hf1) as (_ & Hcap1 & _).
  assert ((if capacity f1 <? sz then '(q, s2) ← tmpfs_grow garbage s1 (private_data n1) sz; Ok (negb (q =? 0), s2)
           else Ok (true, s1)) ⇓ λ '(ok, s2), storage_ok s2 ∧ kept s1 s2 ∧ nodes s2 = nodes s1 ∧
    (ok = true → ∃ f', files s2 !! private_data n1 = Some f' ∧ sz ≤ capacity f')) as Hroom.
  { destruct (Z.ltb_spec (capacity f1) sz).
    - apply wp_bind. eapply wp_mono; [apply (tmpfs_grow_ok L1 s1 _ f1 sz); (done || lia)|].
      intros [q s2] (? & ? & ? & Hq). apply wp_ok. split; [done|]. split; [done|]. split; [done|].
      destruct Hq as [->|(_ & Hq)]; [done|]. intros _. by eexists.
    - apply wp_ok. split; [by exists L1|]. split; [apply kept_refl|]. split; [done|]. by eauto. }
  eapply wp_mono; [exact Hroom|]. intros [ok s2] ((L2 & Hst2) & Hk2 & Hns2 & Hok).
  pose proof (kept_trans _ _ _ Hk1 Hk2) as (Hl & Hcon & Hcl). destruct ok; cbn [negb].
  2: { apply wp_ok. split; [by exists L2|]. split; [done|]. split; [by eauto|]. left. split; [done|]. by eapply Hcon. }
  destruct (Hok eq_refl) as (f2 & Hf2 & Hcap2).
  assert (regular s2 p n1) as Hreg2 by (unfold regular in *; by rewrite Hns2).
  rewrite (get_node_ok s2 p n1), bind_ok by apply Hreg2. apply wp_ok. set (s3 := put_node s2 p (set_size n1 sz)).
  assert (∀ q, nodes s3 !! q = if decide (q = p) then Some (set_size n1 sz) else nodes s2 !! q) as E1.
  { intros q. cbn [s3 put_node set_nodes nodes]. case_decide; [subst q; by rewrite lookup_insert_eq|by rewrite lookup_insert_ne]. }
  assert (blocks s3 = match blocks s2 !! data f2 with
    | Some b => <[data f2 := splice b 0 []]> (blocks s2) | None => blocks s2 end) as E2.
  { cbn [s3 put_node set_nodes blocks]. destruct (blocks s2 !! data f2) as [b|] eqn:E; [|done].
    rewrite insert_id; [done|]. by rewrite E. }
  assert (0 + zlen (A := Z) [] ≤ capacity f2) as Hz by (unfold zlen; simpl; lia).
  assert (0 ≤ sz ≤ capacity f2) as Hsz' by lia.
  split; [|split; [|split]].
  - exists L2. by eapply (put_storage L2 s2 s3 p 0 n1 f2 [] Hst2 Hreg2 Hf2 ltac:(lia) Hz sz).
  - eapply same_links_trans; [done|]. by eapply (put_links s2 s3 p n1 Hreg2 sz).
  - intros q m Hq Hne. destruct (regular_links s s2 q m Hl Hq) as (m2 & Hq2 & _).
    destruct (put_others L2 s2 s3 p 0 n1 f2 [] Hst2 Hreg2 Hf2 sz E1 E2 eq_refl q m2 Hq2 Hne) as [-> Hcl3].
    split; [by eapply Hcon|]. eauto.
  - right. split; [done|]. rewrite <-(Hcon p n Hreg). intros Hgap.
    destruct (contents_length L2 s2 p n1 f2 Hst2 Hreg2 Hf2) as [Hlen Hcb].
    unfold contents at 1. rewrite E1, decide_True by done. cbn [private_data set_size size].
    change (files s3) with (files s2). change (blocks s3) with (blocks s2). rewrite Hf2.
    pose proof (put_size L2 s2 p n1 f2 Hst2 Hreg2 Hf2) as Hsz2.
    destruct (file_block L2 s2 _ f2 Hst2 Hf2) as [(_ & Hb & Hc)|(b & Hb & Hbl)]; rewrite Hb; cbn [default from_option id].
    + assert (sz = 0) as -> by lia. by rewrite !take_0.
    + rewrite (Hcb b Hb). symmetry. apply take_padded; [lia|lia|]. rewrite Hsz1.
      destruct Hgap as [?|Hclp]; [by left|right]. rewrite <-Hsz1. apply (Hcl p n Hreg Hclp n1 f2 b); [apply Hreg2|done|done].
Qed.

End FileData.
End FileData.
