(* ===== verification/FsClient.v ===== *)
(** The file system as a whole: mounting the root (kernel/main.c), any sequence of
    calls of the VFS interface from there, and the round trip of a file's bytes. *)
From S2P Require Import Prelude KString Heap KStdlib Path Vfs FileData.

Module FsClient.
Import KString Heap KStdlib Path Vfs FileData.

(** ** Paths with short names *)

Definition short (t : list Z) : Prop := Forall (λ c, zlen c < VFS_NAME_MAX) (split_slash t).

Lemma split_slash_ne t : split_slash t ≠ [].
Proof. destruct t as [|c t]; [done|]. simpl. destruct (c =? slash); [done|]. by destruct (split_slash t). Qed.

Lemma split_slash_app u r : split_slash (u ++ slash :: r) = split_slash u ++ split_slash r.
Proof.
  induction u as [|c u IH]; [done|]. cbn [app split_slash]. destruct (c =? slash); [by rewrite IH|]. rewrite IH.
  pose proof (split_slash_ne u). by destruct (split_slash u).
Qed.

Lemma short_prefix u r : short (u ++ slash :: r) → short u.
Proof. unfold short. rewrite split_slash_app, Forall_app. by intros [? _]. Qed.

Lemma resolve_from size todo : ∀ cs cs', resolve size cs todo = Some cs' → ∀ c, c ∈ cs' → c ∈ cs ∨ c ∈ todo.
Proof.
  induction todo as [|x todo IH]; intros cs cs' E c Hc; simpl in E; [injection E as ->; by left|].
  unfold resolve_step in E. repeat case_decide; try case_match; simpl in E; try done;
    destruct (IH _ _ E c Hc) as [Hin|Hin]; rewrite ?elem_of_cons; try (by auto).
  - apply elem_of_take in Hin as (i & Hi & _). left. by eapply list_elem_of_lookup_2.
  - apply elem_of_app in Hin as [?|Hin]; [by auto|]. apply list_elem_of_singleton in Hin. by auto.
Qed.

Lemma components_short t cs c : short t → components t = Some (cs ++ [c]) → zlen c < VFS_NAME_MAX.
Proof.
  intros Hs Hc. destruct (resolve_from _ _ _ _ Hc c) as [Hin|Hin]; [in_list|by apply elem_of_nil in Hin|].
  unfold short in Hs. rewrite Forall_forall in Hs. by apply Hs.
Qed.

Section FsClient.
Context {H : Type} `{RA : Reallocator H}.
Context (garbage : Z → Z → Z).
Abbreviation fs := (@Vfs.fs H).

(** ** The invariant of the file system *)

Definition fs_ok (K : gmap Z (list Z)) (s : fs) : Prop :=
  tree_ok K s ∧ storage_ok s ∧ ∀ p n, nodes s !! p = Some n → ops n = tmpfs_ops.

Lemma storage_mem L (s : fs) : storage L s → mem_at L s.
Proof. by intros (Ha & _ & _ & HL & _). Qed.

(** Changes of the tree that leave files and their bytes alone. *)
Lemma storage_nodes L L' (s s' : fs) :
  storage L s → mem_at L' s' → L ⊆+ L' → files s' = files s → blocks s' = blocks s →
  (∀ a, a ∈ L.*1 → nodes s !! a = None → nodes s' !! a = None) →
  (∀ p n', regular s' p n' →
     (∃ n, regular s p n ∧ size n' = size n ∧ private_data n' = private_data n) ∨
     (size n' = 0 ∧ private_data n' = 0)) →
  storage L' s'.
Proof.
  intros Hst [Ha' HL'] Hsub Hfi Hbl Hnone Hreg.
  pose proof (storage_heap L L' s (heap s') Hst Ha' Hsub) as (_ & Hb0 & Hf0 & _ & Hfo & Hd & Hr & Hpr).
  pose proof Hst as (_ & _ & _ & _ & HfoL & _). cbn [set_heap files blocks nodes] in *.
  split; [done|]. rewrite Hfi, Hbl. split; [done|]. split; [done|]. split; [done|]. split; [|split; [done|split]].
  - intros a f Hf. destruct (Hfo a f Hf) as (Hal & Hc & Hc0 & Hcn). split; [done|]. split; [done|]. split; [done|].
    intros Hdf. destruct (Hcn Hdf) as (Hz & Hb & Hnn & Hfn). rewrite Hbl, Hfi. split; [done|]. split; [done|].
    split; [|done]. destruct (HfoL a f Hf) as (_ & _ & _ & HcnL). destruct (HcnL Hdf) as ((z & HzL) & _).
    apply Hnone; [|done]. apply list_elem_of_fmap. by exists (data f, z).
  - intros p n' Hp. destruct (Hreg p n' Hp) as [(n & Hn & -> & ->)|(-> & ->)]; [by apply (Hr p)|]. by split.
  - intros p1 p2 n1 n2 H1 H2 Hnz He.
    destruct (Hreg p1 n1 H1) as [(m1 & Hm1 & _ & E1)|(_ & ?)]; [|done].
    destruct (Hreg p2 n2 H2) as [(m2 & Hm2 & _ & E2)|(_ & E2)]; [|congruence].
    apply (Hpr p1 p2 m1 m2); [done|done|congruence|congruence].
Qed.

Lemma added_storage L L' (s s' : fs) p c np n0 ty :
  storage L s → mem_at L' s' → L ⊆+ L' → node_added L s s' p c np n0 ty → storage L' s'.
Proof.
  intros Hst Hmem Hsub (_ & Hfr & Hp & Hdt & _ & _ & Hs0 & Hp0 & _ & _ & _ & _ & Hns & Hfi & Hbl & _).
  apply (storage_nodes L L' s s'); try done.
  - intros a Ha Hna. rewrite Hns. assert (a ≠ c) by (intros ->; done). assert (a ≠ p) by congruence.
    by rewrite !lookup_insert_ne.
  - intros q n' (Hq & Hqt & Hqo). rewrite Hns in Hq. apply lookup_insert_Some in Hq as [[<- <-]|[Hqp Hq]].
    + cbn [type set_children] in Hqt. congruence.
    + apply lookup_insert_Some in Hq as [[<- <-]|[Hqc Hq]]; [by right|left]. by exists n'.
Qed.

Lemma payload_storage L (s s' : fs) : storage L s → same_payload s s' → storage L s'.
Proof.
  intros Hst Hsp. pose proof Hsp as (Hn & Hfi & Hbl & Hh & _).
  apply (storage_nodes L L s s'); try done.
  - apply (same_payload_mem L s); [by apply storage_mem|done].
  - intros a _ Hna. specialize (Hn a). rewrite Hna in Hn. by destruct (nodes s' !! a).
  - intros p n' (Hp & Ht & Ho). left. specialize (Hn p). rewrite Hp in Hn. destruct (nodes s !! p) as [n|] eqn:E; [|done].
    injection Hn. intros. exists n. unfold regular. split; [|by split]. split; [done|]. by split; congruence.
Qed.

(** ** Mounting the root *)

Definition empty_fs (h : H) : fs :=
  {| nodes := ∅; files := ∅; blocks := ∅; pipes := ∅; root_node := 0; heap := h |}.

(** [root = tmpfs_create_root(); if (root) vfs_mount_root(root);] *)
Definition mount (s : fs) : outcome (Z * fs) :=
  '(root, s) ← tmpfs_create_root s;
  if root =? 0 then Ok (-1, s) else vfs_mount_root s root.

Lemma root_ok h L : al_repr h L → tmpfs_create_root (empty_fs h) ⇓ λ '(root, s),
  root = 0 ∨ (root ≠ 0 ∧ vfs_mount_root s root ⇓ λ '(r, s'), r = 0 ∧ fs_ok ∅ s' ∧ vfs_root s' = root).
Proof.
  intros Ha. unfold tmpfs_create_root. apply wp_bind.
  eapply wp_mono; [apply al_calloc_spec; [exact Ha|unfold VFS_NODE_SIZE; lia..]|].
  intros [root h'] [(-> & Ha')|(sz & Hpos & _ & _ & _ & Ha')]; cbv zeta.
  { apply wp_ok. by left. }
  rewrite (proj2 (Z.eqb_neq root 0)) by lia.
  destruct (zset (name zero_node) 0 slash) as [nm| |] eqn:Hnm; [|by vm_compute in Hnm..].
  rewrite bind_ok. apply wp_ok. right. split; [lia|]. unfold vfs_mount_root.
  rewrite (proj2 (Z.eqb_neq root 0)) by lia.
  erewrite get_node_ok by (cbn [put_node set_nodes nodes set_heap]; by rewrite lookup_insert_eq).
  rewrite bind_ok. rewrite decide_False by (intros Hx; by apply Hx). apply wp_ok. split; [done|]. split; [|done].
  match goal with |- fs_ok ∅ ?x => set (s := x) end.
  set (n := set_links {| name := nm; type := VFS_NODE_DIR; mode := 0; size := 0; private_data := 0;
    ops := tmpfs_ops; parent := 0; next := 0; children := 0 |} root 0).
  assert (nodes s = {[root := n]}) as Hns.
  { cbn [s put_node set_nodes nodes set_heap set_root]. by rewrite insert_insert_eq. }
  assert (∀ q m, nodes s !! q = Some m → q = root ∧ m = n) as Hone.
  { intros q m Hq. rewrite Hns in Hq. by apply lookup_singleton_Some in Hq as [<- <-]. }
  assert (is_cstr nm [slash]) as Hroot.
  { vm_compute in Hnm. injection Hnm as <-. split; [repeat constructor; unfold slash; lia|]. by eexists. }
  split; [|split].
  - split; [|split; [|split]].
    + exists n. split; [|done]. rewrite Hns. cbn [s put_node set_nodes root_node set_heap set_root]. by rewrite lookup_singleton_eq.
    + intros q m Hq. destruct (Hone q m Hq) as [-> ->]. split; [lia|]. split; [done|]. split; [|done].
      exists [slash]. split; [done|]. done.
    + intros p c Hc. by apply not_elem_of_nil in Hc.
    + intros p c1 c2 n1 n2 Hc. by apply not_elem_of_nil in Hc.
  - exists ((root, sz) :: L). split; [done|]. split; [done|]. split; [done|]. split.
    { intros q [m Hq]. destruct (Hone q m Hq) as [-> _]. rewrite fmap_cons. by left. }
    split; [by intros a f Hf|]. split; [by intros a1 a2 f1 f2 Hf|]. split.
    + intros q m (Hq & Ht & _). by destruct (Hone q m Hq) as [-> ->].
    + intros q1 q2 m1 m2 (Hq & Ht & _). by destruct (Hone q1 m1 Hq) as [-> ->].
  - intros q m Hq. by destruct (Hone q m Hq) as [_ ->].
Qed.

Lemma mount_ok h L : al_repr h L →
  mount (empty_fs h) ⇓ λ '(r, s), r = -1 ∨ (r = 0 ∧ fs_ok ∅ s).
Proof.
  intros Ha. unfold mount. eapply wp_bind, wp_mono; [by apply (root_ok h L)|]. intros [root s] [->|[Hr Hm]]; [apply wp_ok; by left|].
  rewrite (proj2 (Z.eqb_neq root 0)) by done. eapply wp_mono; [exact Hm|]. intros [r s'] (-> & HK & _). by right.
Qed.

(** ** Any sequence of calls *)

(** The calls a client makes; a path is given by its text. *)
Inductive op :=
  | OCreate (path : list Z) (ty : vfs_node_type_t)
  | OUnlink (path : list Z)
  | OWrite (path : list Z) (offset : Z) (bytes : list Z)
  | ORead (path : list Z) (offset count : Z).

Definition exec (s : fs) (o : op) : outcome (Z * fs) :=
  match o with
  | OCreate t ty => '(r, _, s) ← vfs_create garbage s (Some (cstr t)) ty; Ok (r, s)
  | OUnlink t => vfs_unlink garbage s (Some (cstr t))
  | OWrite t off bytes =>
      node ← vfs_lookup garbage s (Some (cstr t));
      vfs_write garbage s node off (Some bytes) (zlen bytes)
  | ORead t off count =>
      node ← vfs_lookup garbage s (Some (cstr t));
      '(r, _, s) ← vfs_read s node off (Some (replicate (Z.to_nat count) 0)) count;
      Ok (r, s)
  end.

Fixpoint run (s : fs) (os : list op) : outcome (list Z * fs) :=
  match os with
  | [] => Ok ([], s)
  | o :: os => '(r, s) ← exec s o; '(rs, s) ← run s os; Ok (r :: rs, s)
  end.

Definition path_ok (t : list Z) : Prop := Forall (λ c, 0 < c < 256) t.

Definition op_args (o : op) : Prop :=
  match o with
  | OCreate t _ => path_ok t ∧ ∀ cs c, components t = Some (cs ++ [c]) → zlen c < VFS_NAME_MAX
  | OUnlink t => path_ok t
  | OWrite t off bytes => path_ok t ∧ 0 ≤ off ∧ off + zlen bytes ≤ 2 ^ 31 - 8
  | ORead t off count => path_ok t ∧ 0 ≤ off < 2 ^ 63 ∧ 0 ≤ count < 2 ^ 31
  end.

Lemma create_nowhere K s path t ty :
  tree_ok K s → is_cstr path t → (components t = None ∨ components t = Some []) →
  vfs_create garbage s (Some path) ty = Ok (-1, None, s).
Proof.
  intros Hok Ht Hc. pose proof Hok as ((r & Hr & _) & Hn & _). destruct (Hn _ _ Hr) as (H0 & _).
  unfold vfs_create. rewrite (proj2 (Z.eqb_neq _ 0) H0).
  destruct (path_normalize_ok path t (local garbage VFS_PATH_MAX) VFS_PATH_MAX) as ([res o] & -> & o' & -> & _ & Hres).
  { done. } { unfold VFS_PATH_MAX. lia. } { rewrite length_local; unfold VFS_PATH_MAX; lia. }
  rewrite bind_ok. unfold components in Hc. destruct Hc as [Hc|Hc]; rewrite Hc in Hres; [by rewrite Hres|].
  destruct Hres as (-> & [_ (rest & ->)] & _). done.
Qed.

(** The node a path leads to. *)
Lemma lookup_node K s t : fs_ok K s → path_ok t →
  vfs_lookup garbage s (Some (cstr t)) ⇓ λ p, p = 0 ∨ (p ≠ 0 ∧ ∃ n, nodes s !! p = Some n ∧ ops n = tmpfs_ops).
Proof.
  intros (Hok & _ & Hops) Ht. rewrite (vfs_lookup_ok garbage K s _ t) by (done || by apply is_cstr_cstr).
  apply wp_ok. destruct (components t) as [cs|]; [|by left].
  destruct (decide (view K s (cut <$> cs) = 0)) as [|Hv]; [by left|right]. split; [done|].
  destruct (view_node K s _ Hok Hv) as [n Hn]. by eauto.
Qed.

Lemma regular_or_not (s : fs) p n : nodes s !! p = Some n → ops n = tmpfs_ops → regular s p n ∨ type n ≠ VFS_NODE_FILE.
Proof. intros. destruct (decide (type n = VFS_NODE_FILE)); [by left|by right]. Qed.

Lemma links_fs_ok K (s s' : fs) : fs_ok K s → same_links s s' → storage_ok s' → fs_ok K s'.
Proof.
  intros (Hok & _ & Hops) Hl Hst. split; [by eapply same_links_tree|]. split; [done|]. intros p n' Hp.
  destruct (same_links_lookup s s' p n' Hl Hp) as (n & Hn & E). apply strip_fields in E as (_ & _ & -> & _). by eapply Hops.
Qed.

(** ** What each call keeps

    No node disappears or changes its type, and sizes stay below a bound that covers the
    bytes written. *)
Definition grows (s s' : fs) : Prop :=
  ∀ p n, nodes s !! p = Some n → ∃ n', nodes s' !! p = Some n' ∧ type n' = type n ∧ name n' = name n.
Definition sized (B : Z) (s : fs) : Prop := ∀ p n, nodes s !! p = Some n → 0 ≤ size n ≤ B.

Lemma mount_sized h r s : mount (empty_fs h) = Ok (r, s) → sized 0 s.
Proof.
  unfold mount, tmpfs_create_root. intros ([root s1] & E & E2)%bind_inv. apply bind_inv in E as ([p h'] & _ & E).
  cbv zeta in E. assert (sized 0 s1) as Hs1.
  { destruct (p =? 0); [injection E as <- <-; intros q n Hq; cbn [nodes set_heap empty_fs] in Hq; by rewrite lookup_empty in Hq|].
    apply bind_inv in E as (nm & _ & E). injection E as <- <-. intros q n Hq. cbn [put_node set_nodes nodes set_heap empty_fs] in Hq.
    apply lookup_insert_Some in Hq as [[_ <-]|[_ Hq]]; [simpl; lia|by rewrite lookup_empty in Hq]. }
  destruct (root =? 0) eqn:E0; [by injection E2 as <- <-|]. unfold vfs_mount_root in E2. rewrite E0 in E2.
  apply bind_inv in E2 as (n & En & E2). unfold get_node in En. destruct (nodes s1 !! root) as [n1|] eqn:En1; [|done].
  injection En as ->. case_decide; [by injection E2 as <- <-|]. injection E2 as <- <-. intros q m Hq.
  cbn [put_node set_nodes nodes set_root] in Hq. apply lookup_insert_Some in Hq as [[_ <-]|[_ Hq]]; [exact (Hs1 root n En1)|by eapply Hs1].
Qed.

Lemma grows_refl s : grows s s.
Proof. intros p n Hp. by exists n. Qed.

Lemma grows_trans s1 s2 s3 : grows s1 s2 → grows s2 s3 → grows s1 s3.
Proof.
  intros H1 H2 p n Hp. destruct (H1 p n Hp) as (n2 & Hp2 & E1 & E2).
  destruct (H2 p n2 Hp2) as (n3 & Hp3 & E3 & E4). exists n3. split; [done|]. split; congruence.
Qed.

Lemma links_grow (s s' : fs) : same_links s s' → grows s s'.
Proof.
  intros [_ Hl] p n Hp. specialize (Hl p). rewrite Hp in Hl. destruct (nodes s' !! p) as [n'|]; [|done].
  assert (strip n' = strip n) as E by (apply (inj Some); exact Hl). exists n'. split; [done|]. by destruct (strip_fields _ _ E) as (? & ? & _).
Qed.

Lemma create_step K s path t ty :
  fs_ok K s → is_cstr path t → (∀ cs c, components t = Some (cs ++ [c]) → zlen c < VFS_NAME_MAX) →
  vfs_create garbage s (Some path) ty ⇓ λ '(r, out, s'), (∃ K', fs_ok K' s') ∧ grows s s' ∧
    (∀ B, 0 ≤ B → sized B s → sized B s') ∧
    ((r = -1 ∧ out = None) ∨
     (r = 0 ∧ ∃ c n, out = Some c ∧ c ≠ 0 ∧ nodes s' !! c = Some n ∧ vfs_lookup garbage s' (Some path) = Ok c)).
Proof.
  intros Hfs Hcs Hshort. pose proof Hfs as (Hok & (L & Hst) & Hops).
  assert ((components t = None ∨ components t = Some []) → vfs_create garbage s (Some path) ty ⇓ λ '(r, out, s'),
    (∃ K', fs_ok K' s') ∧ grows s s' ∧ (∀ B, 0 ≤ B → sized B s → sized B s') ∧
    ((r = -1 ∧ out = None) ∨
     (r = 0 ∧ ∃ c n, out = Some c ∧ c ≠ 0 ∧ nodes s' !! c = Some n ∧ vfs_lookup garbage s' (Some path) = Ok c))) as Hnone.
  { intros Hc. rewrite (create_nowhere K s _ t) by done. apply wp_ok. split; [by exists K|]. split; [apply grows_refl|]. by auto. }
  destruct (components t) as [cs|] eqn:Hc; [|by auto]. destruct cs as [|c cs _] using rev_ind; [by auto|].
  eapply wp_mono; [apply (vfs_create_ok garbage L K s _ t cs c ty); eauto using storage_mem|].
  intros [[r out] s'] (L' & Hmem' & Hsub & [(-> & -> & Hok' & Hn & Hfi & Hbl & _)|(-> & n & K' & -> & Hn0 & Hok' & _ & (p & np & n0 & Hadd) & Hview)]).
  - split; [exists K|split; [|split; [|by left]]].
    + split; [done|]. split; [|by rewrite Hn]. exists L'. apply (storage_nodes L L' s s'); try done; [by rewrite Hn|].
      intros p n'. unfold regular. rewrite Hn. intros Hp. left. by exists n'.
    + intros p n'. rewrite Hn. by exists n'.
    + unfold sized. by rewrite Hn.
  - pose proof Hadd as (_ & Hfr & Hp & _ & Hpo & _ & Hsz & _ & Hno & _ & _ & _ & Hns & _).
    assert (p ≠ n) as Hpn. { intros ->. apply storage_mem in Hst as [_ HL]. apply Hfr, HL. by exists np. }
    split; [exists K'|split; [|split]].
    + split; [done|]. split; [exists L'; by eapply added_storage|]. intros q m Hq. rewrite Hns in Hq.
      apply lookup_insert_Some in Hq as [[<- <-]|[_ Hq]]; [done|]. apply lookup_insert_Some in Hq as [[<- <-]|[_ Hq]]; [done|].
      by eapply Hops.
    + intros q m Hq. rewrite Hns. destruct (decide (q = p)) as [->|].
      * rewrite lookup_insert_eq. assert (m = np) as -> by congruence. by eexists.
      * rewrite !lookup_insert_ne; [by exists m|intros ->|done]. apply storage_mem in Hst as [_ HL]. apply Hfr, HL. by exists m.
    + intros B HB Hsd q m Hq. rewrite Hns in Hq. apply lookup_insert_Some in Hq as [[<- <-]|[_ Hq]]; [exact (Hsd p np Hp)|].
      apply lookup_insert_Some in Hq as [[<- <-]|[_ Hq]]; [rewrite Hsz; lia|by eapply Hsd].
    + right. split; [done|]. exists n, n0. split; [done|]. split; [done|]. split; [by rewrite Hns, lookup_insert_ne, lookup_insert_eq|].
      by rewrite (vfs_lookup_ok garbage K' s' path t), Hc, Hview, decide_True.
Qed.

Lemma unlink_step K s path t : fs_ok K s → is_cstr path t →
  vfs_unlink garbage s (Some path) ⇓ λ '(r, s'), (∃ K', fs_ok K' s') ∧ grows s s' ∧ (∀ B, sized B s → sized B s') ∧ (r = 0 ∨ r = -1).
Proof.
  intros Hfs Ht. pose proof Hfs as (Hok & (L & Hst) & Hops). eapply wp_mono; [by apply (vfs_unlink_ok garbage K s _ t Hok)|].
  intros [r s'] [(-> & -> & _)|(-> & _ & _ & _ & Hsp & K' & cs & Hok' & _)].
  { split; [by exists K|]. split; [apply grows_refl|]. by auto. }
  pose proof Hsp as (Hn & _).
  assert (∀ q m, nodes s' !! q = Some m → ∃ m0, nodes s !! q = Some m0 ∧ payload m = payload m0) as Hback.
  { intros q m Hq. specialize (Hn q). rewrite Hq in Hn. destruct (nodes s !! q) as [m0|]; [|done]. exists m0. split; [done|]. by apply (inj Some). }
  split; [exists K'|split; [|split; [|by left]]].
  - split; [done|]. split; [exists L; by eapply payload_storage|]. intros q m Hq. destruct (Hback q m Hq) as (m0 & E & Ep).
    specialize (Hops _ _ E). injection Ep. congruence.
  - intros q m Hq. specialize (Hn q). rewrite Hq in Hn. destruct (nodes s' !! q) as [m'|]; [|done]. exists m'.
    split; [done|]. by injection Hn.
  - intros B Hsd q m Hq. destruct (Hback q m Hq) as (m0 & E & Ep). specialize (Hsd q m0 E). injection Ep. intros. congruence.
Qed.

(** The nodes after a write or a truncation: only the file's own node has changed. *)
Lemma file_nodes s p n a s' : tmpfs_file s p = Ok (a, s') → nodes s !! p = Some n →
  (∀ q, q ≠ p → nodes s' !! q = nodes s !! q) ∧ ∃ n', nodes s' !! p = Some n' ∧ size n' = size n.
Proof.
  intros E Hn. unfold tmpfs_file in E. rewrite (get_node_ok s p n Hn), bind_ok in E.
  destruct (negb _); [injection E as <- <-; by eauto|]. apply bind_inv in E as ([f h] & _ & E). cbv zeta in E.
  destruct (f =? 0); injection E as <- <-; [by eauto|]. cbn [put_node set_nodes nodes set_files].
  split; [intros q Hq; by rewrite lookup_insert_ne|]. rewrite lookup_insert_eq. by eexists.
Qed.

Lemma grow_nodes s a cap q s' : tmpfs_grow garbage s a cap = Ok (q, s') → nodes s' = nodes s.
Proof.
  unfold tmpfs_grow. intros (f & _ & ([q0 h] & _ & E)%bind_inv)%bind_inv. cbv zeta in E.
  destruct (q0 =? 0); [by injection E as <- <-|]. apply bind_inv in E as (b & _ & E). by injection E as <- <-.
Qed.

Lemma write_nodes s p n off buf count r s' : tmpfs_write garbage s p off (Some buf) count = Ok (r, s') → nodes s !! p = Some n →
  (∀ q, q ≠ p → nodes s' !! q = nodes s !! q) ∧
  ∃ n', nodes s' !! p = Some n' ∧ (size n' = size n ∨ size n' = u64 (off + count)).
Proof.
  intros E Hn. unfold tmpfs_write in E. destruct (p =? 0); [injection E as <- <-; by eauto|].
  rewrite (get_node_ok s p n Hn), bind_ok in E. case_decide; [injection E as <- <-; by eauto|].
  apply bind_inv in E as ([a s1] & Ef & E). destruct (file_nodes _ _ _ _ _ Ef Hn) as (Ho1 & n1 & Hn1 & Hs1).
  destruct (a =? 0); [injection E as <- <-; by eauto|]. cbv zeta in E. apply bind_inv in E as (f & _ & E).
  apply bind_inv in E as ([ok s2] & Eg & E). assert (nodes s2 = nodes s1) as Hn2.
  { destruct (_ <? _); [|by injection Eg as <- <-]. apply bind_inv in Eg as (c & _ & Eg). apply bind_inv in Eg as ([q s0] & Eg & E2).
    injection E2 as <- <-. by eapply grow_nodes. }
  destruct ok; cbn [negb] in E; [|injection E as <- <-; rewrite Hn2; by eauto]. apply bind_inv in E as (f2 & _ & E).
  apply bind_inv in E as (s3 & Eb & E). assert (nodes s3 = nodes s1) as Hn3.
  { destruct (blocks s2 !! data f2); [|destruct (count =? 0); [by injection Eb as <-|done]].
    apply bind_inv in Eb as (b & _ & Eb). injection Eb as <-. done. }
  rewrite (get_node_ok s3 p n1), bind_ok in E by (by rewrite Hn3). injection E as <- <-.
  destruct (size n1 <? u64 (off + count)); [|rewrite Hn3; by eauto]. cbn [put_node set_nodes nodes]. rewrite Hn3.
  split; [intros q Hq; rewrite lookup_insert_ne by done; by apply Ho1|]. rewrite lookup_insert_eq. eexists. split; [done|by right].
Qed.

Lemma truncate_nodes s p n sz r s' : tmpfs_truncate garbage s p sz = Ok (r, s') → nodes s !! p = Some n →
  (∀ q, q ≠ p → nodes s' !! q = nodes s !! q) ∧ ∃ n', nodes s' !! p = Some n' ∧ (size n' = size n ∨ size n' = sz).
Proof.
  intros E Hn. unfold tmpfs_truncate in E. destruct (p =? 0); [injection E as <- <-; by eauto|].
  rewrite (get_node_ok s p n Hn), bind_ok in E. case_decide; [injection E as <- <-; by eauto|].
  apply bind_inv in E as ([a s1] & Ef & E). destruct (file_nodes _ _ _ _ _ Ef Hn) as (Ho1 & n1 & Hn1 & Hs1).
  destruct (a =? 0); [injection E as <- <-; by eauto|]. apply bind_inv in E as (f & _ & E).
  apply bind_inv in E as ([ok s2] & Eg & E). assert (nodes s2 = nodes s1) as Hn2.
  { destruct (_ <? _); [|by injection Eg as <- <-]. apply bind_inv in Eg as ([q s0] & Eg & E2).
    injection E2 as <- <-. by eapply grow_nodes. }
  destruct ok; cbn [negb] in E; [|injection E as <- <-; rewrite Hn2; by eauto].
  rewrite (get_node_ok s2 p n1), bind_ok in E by (by rewrite Hn2). injection E as <- <-. cbn [put_node set_nodes nodes]. rewrite Hn2.
  split; [intros q Hq; rewrite lookup_insert_ne by done; by apply Ho1|]. rewrite lookup_insert_eq. eexists. split; [done|by right].
Qed.

Lemma sized_after s s' p n z B : sized B s → nodes s !! p = Some n → 0 ≤ z ≤ B →
  (∀ q, q ≠ p → nodes s' !! q = nodes s !! q) → (∃ n', nodes s' !! p = Some n' ∧ (size n' = size n ∨ size n' = z)) → sized B s'.
Proof.
  intros Hsd Hn Hz Ho (n' & Hn' & Hc) q m Hq. destruct (decide (q = p)) as [->|Hne].
  - assert (m = n') as -> by congruence. specialize (Hsd p n Hn). lia.
  - rewrite Ho in Hq by done. by apply (Hsd q).
Qed.

Lemma write_step K s p n off buf count :
  fs_ok K s → nodes s !! p = Some n → 0 ≤ off → 0 ≤ count ≤ zlen buf → off + count ≤ 2 ^ 31 - 8 →
  vfs_write garbage s p off (Some buf) count ⇓ λ '(r, s'), fs_ok K s' ∧ grows s s' ∧
    (∀ B, off + count ≤ B → sized B s → sized B s') ∧ same_links s s' ∧
    (r = -1 ∨ (r = count ∧ regular s p n ∧
       (off ≤ size n → contents s' p = overwrite (contents s p) off (take (Z.to_nat count) buf)))).
Proof.
  intros Hfs Hn Ho Hc HBm. pose proof Hfs as (Hok & (L & Hst) & Hops). pose proof (Hops p n Hn) as Hno.
  assert (p ≠ 0) as Hp0 by (by eapply storage_node_pos). unfold vfs_write.
  rewrite (proj2 (Z.eqb_neq p 0)), (get_node_ok s p n Hn), bind_ok, Hno by done.
  destruct (regular_or_not s p n Hn Hno) as [Hreg|Hdir].
  - destruct (tmpfs_write_ok garbage L s p n off buf count) as ([r s'] & E & Hst' & Hl & _ & _ & Hr); try done.
    exists (r, s'). split; [done|]. destruct (write_nodes _ _ _ _ _ _ _ _ E Hn) as (Ho' & Hn').
    split; [by apply (links_fs_ok K s)|]. split; [by apply links_grow|].
    split; [|split; [done|destruct Hr as [[-> _]|[-> Hr]]; [by left|right]; by split_and!; auto]].
    intros B HB Hsd. apply (sized_after s s' p n (u64 (off + count))); try done. rewrite u64_small by lia. lia.
  - unfold tmpfs_write. rewrite (proj2 (Z.eqb_neq p 0)), (get_node_ok s p n Hn), bind_ok by done.
    rewrite decide_True by done. apply wp_ok. split; [done|]. split; [apply grows_refl|]. split; [done|]. by split; [|left].
Qed.

Lemma truncate_step K s p n sz :
  fs_ok K s → nodes s !! p = Some n → 0 ≤ sz ≤ 2 ^ 32 - 16 →
  tmpfs_truncate garbage s p sz ⇓ λ '(r, s'), fs_ok K s' ∧ grows s s' ∧
    (∀ B, sz ≤ B → sized B s → sized B s') ∧ same_links s s' ∧ (r = -1 ∨ r = 0).
Proof.
  intros Hfs Hn Hsz. pose proof Hfs as (Hok & (L & Hst) & Hops). pose proof (Hops p n Hn) as Hno.
  assert (p ≠ 0) as Hp0 by (by eapply storage_node_pos). destruct (regular_or_not s p n Hn Hno) as [Hreg|Hdir].
  - destruct (tmpfs_truncate_ok garbage L s p n sz) as ([r s'] & E & Hst' & Hl & _ & Hr); try done.
    exists (r, s'). split; [done|]. destruct (truncate_nodes _ _ _ _ _ _ E Hn) as (Ho' & Hn').
    split; [by apply (links_fs_ok K s)|]. split; [by apply links_grow|].
    split; [|split; [done|by destruct Hr as [[-> _]|[-> _]]; auto]].
    intros B HB Hsd. apply (sized_after s s' p n sz); try done. lia.
  - unfold tmpfs_truncate. rewrite (proj2 (Z.eqb_neq p 0)), (get_node_ok s p n Hn), bind_ok by done.
    rewrite decide_True by done. apply wp_ok. split; [done|]. split; [apply grows_refl|]. split; [done|]. by split; [|left].
Qed.

Lemma read_step K s p n off buf count :
  fs_ok K s → nodes s !! p = Some n → 0 ≤ off → 0 ≤ count < 2 ^ 31 → off + count < 2 ^ 64 → count ≤ zlen buf →
  vfs_read s p off (Some buf) count ⇓ λ '(r, out, s'), s' = s ∧ -1 ≤ r ≤ count ∧ ∃ b, out = Some b ∧ zlen b = zlen buf.
Proof.
  intros Hfs Hn Ho Hc Hoc Hb. pose proof Hfs as (Hok & (L & Hst) & Hops). pose proof (Hops p n Hn) as Hno.
  assert (p ≠ 0) as Hp0 by (by eapply storage_node_pos). unfold vfs_read.
  rewrite (proj2 (Z.eqb_neq p 0)), (get_node_ok s p n Hn), bind_ok, Hno by done.
  destruct (regular_or_not s p n Hn Hno) as [Hreg|Hdir].
  - rewrite (tmpfs_read_ok L s p n), bind_ok by done. apply wp_ok. split; [done|].
    assert (zlen (slice (contents s p) off count) ≤ count).
    { unfold slice, zlen. rewrite length_take. lia. }
    split; [unfold zlen in *; lia|]. eexists. split; [done|]. unfold zlen. rewrite length_splice; [done|lia|unfold zlen in *; lia].
  - unfold tmpfs_read. rewrite (proj2 (Z.eqb_neq p 0)), (get_node_ok s p n Hn), !bind_ok by done.
    rewrite decide_True by done. rewrite !bind_ok. apply wp_ok. split; [done|]. split; [lia|]. by exists buf.
Qed.

Lemma fs_exec_ok K s o : fs_ok K s → op_args o → exec s o ⇓ λ '(_, s'), ∃ K', fs_ok K' s'.
Proof.
  intros Hfs Ho. destruct o as [t ty|t|t off bytes|t off count]; cbn [exec].
  - destruct Ho as [Ht Hshort]. eapply wp_bind, wp_mono; [apply (create_step K s _ t ty Hfs); [by apply is_cstr_cstr|done]|].
    intros [[r out] s'] (HK & _). by apply wp_ok.
  - eapply wp_mono; [apply (unlink_step K s _ t Hfs); by apply is_cstr_cstr|]. by intros [r s'] (HK & _).
  - destruct Ho as (Ht & Hoff & Hb). apply wp_bind. eapply wp_mono; [by apply (lookup_node K s t)|].
    intros p [->|(Hp0 & n & Hn & _)]; [apply wp_ok; by exists K|].
    eapply wp_mono; [apply (write_step K s p n); unfold zlen in *; (done || lia)|]. intros [r s'] (? & _). by exists K.
  - destruct Ho as (Ht & Hoff & Hcnt). apply wp_bind. eapply wp_mono; [by apply (lookup_node K s t)|].
    intros p [->|(Hp0 & n & Hn & _)]; [apply wp_ok; by exists K|].
    eapply wp_bind, wp_mono; [apply (read_step K s p n); (done || lia || (unfold zlen; rewrite length_replicate; lia))|].
    intros [[r out] s'] (-> & _). apply wp_ok. by exists K.
Qed.

(** C4: After mounting a fresh tmpfs root, every sequence of vfs_create, vfs_unlink, vfs_write
    and vfs_read calls made by path (names below the 64-byte limit, accesses below 2 GiB)
    terminates without undefined behaviour (or the mount itself fails), and the node tree, the
    file records and the heap blocks stay well formed. *)
Theorem vfs_client_safe h L os :
  al_repr h L → Forall op_args os →
  ('(r, s) ← mount (empty_fs h); if r =? 0 then '(rs, s) ← run s os; Ok (Some rs, s) else Ok (None, s)) ⇓ λ '(rs, s),
    rs = None ∨ ∃ l K, rs = Some l ∧ length l = length os ∧ fs_ok K s.
Proof.
  intros Ha Hos. apply wp_bind. eapply wp_mono; [by apply (mount_ok h L)|].
  intros [r s] [->|(-> & Hs)]; [apply wp_ok; by left|]. cbn [Z.eqb].
  assert (∀ K s, fs_ok K s → run s os ⇓ λ '(l, s'), length l = length os ∧ ∃ K', fs_ok K' s') as Hrun.
  { clear s Hs. induction Hos as [|o os Ho Hos IH]; intros K s Hs; cbn [run]; [apply wp_ok; by eauto|].
    apply wp_bind. eapply wp_mono; [by apply (fs_exec_ok K)|]. intros [r s1] (K1 & Hs1). apply wp_bind.
    eapply wp_mono; [by apply (IH K1)|]. intros [l s2] (Hl & Hs2). apply wp_ok. split; [simpl; lia|done]. }
  apply wp_bind. eapply wp_mono; [by apply (Hrun ∅)|]. intros [l s'] (Hl & K' & Hs'). apply wp_ok. right. by eauto 10.
Qed.

(** ** The bytes written are the bytes read *)

Lemma overwrite_read old off bs : 0 ≤ off → slice (overwrite old off bs) off (zlen bs) = bs.
Proof.
  intros Ho. unfold slice, overwrite, zlen. rewrite drop_app_ge by (rewrite length_take; lia).
  rewrite length_take, length_app, length_replicate.
  replace (Z.to_nat off - _)%nat with 0%nat by lia. rewrite drop_0, Nat2Z.id. apply take_app_length.
Qed.

(** C31: vfs_write to a regular tmpfs file, up to 2^31 - 8 and at an offset that is not behind
    the end of the file or with the buffer behind the end still clean (it is, unless the file
    was shrunk), either returns -1 and leaves every file's contents as they were, or returns the
    byte count, the contents become the old ones overwritten at the offset (a gap is filled with
    zeros), the contents of every other file are unchanged, and vfs_read at the same place gives
    back exactly the bytes written. *)
Theorem vfs_write_then_read L (s : fs) p n off buf out :
  storage L s → regular s p n → 0 ≤ off → off + zlen buf ≤ 2 ^ 31 - 8 → (off ≤ size n ∨ clean s p) →
  zlen out = zlen buf →
  vfs_write garbage s p off (Some buf) (zlen buf) ⇓ λ '(r, s'),
    storage_ok s' ∧ same_links s s' ∧ (clean s p → clean s' p) ∧
    (∀ q m, regular s q m → q ≠ p → contents s' q = contents s q) ∧
    ((r = -1 ∧ contents s' p = contents s p) ∨
     (r = zlen buf ∧ contents s' p = overwrite (contents s p) off buf ∧
      vfs_read s' p off (Some out) (zlen buf) = Ok (zlen buf, Some buf, s'))).
Proof.
  intros Hst Hreg Ho Hb Hgap Hout. pose proof Hreg as (Hn & _ & Hops). assert (0 ≤ zlen buf) by (unfold zlen; lia).
  pose proof (storage_node_pos L s p n Hst Hn) as Hp0. unfold vfs_write.
  rewrite (proj2 (Z.eqb_neq p 0)), (get_node_ok s p n Hn), bind_ok, Hops by done.
  eapply wp_mono; [apply (tmpfs_write_ok garbage L s p n off buf (zlen buf)); (done || lia)|].
  intros [r s'] ((L' & Hst') & Hl & Hoth & Hcl & Hres). split; [by exists L'|]. split; [done|]. split; [done|].
  split; [intros q m Hq Hne; by apply (Hoth q m)|]. destruct Hres as [?|(-> & Hcon)]; [by left|right].
  specialize (Hcon Hgap). rewrite take_ge in Hcon by (unfold zlen; lia). split; [done|]. split; [done|].
  destruct (regular_links s s' p n Hl Hreg) as (n' & Hreg' & _). pose proof Hreg' as (Hn' & _ & Hops').
  unfold vfs_read. rewrite (proj2 (Z.eqb_neq p 0)), (get_node_ok s' p n' Hn'), bind_ok, Hops' by done.
  rewrite (tmpfs_read_ok L' s' p n') by (done || lia). rewrite bind_ok, Hcon, overwrite_read by done.
  do 3 f_equal. unfold splice. simpl. rewrite drop_ge by (unfold zlen in *; lia). by rewrite app_nil_r.
Qed.

End FsClient.

(** ** A concrete file system: the root and the empty file "/a" *)

Definition no_garbage (_ _ : Z) : Z := 165.
Definition path_a : list Z := [47; 97].
Definition sample_boot : @Vfs.fs heap_t := empty_fs (heap_init empty_heap 4096 65536).

Definition sample_fs : @Vfs.fs heap_t :=
  match ('(_, s) ← mount sample_boot; exec no_garbage s (OCreate path_a VFS_NODE_FILE)) with
  | Ok (_, s) => s
  | _ => sample_boot
  end.

Lemma short_names t cs c : components t = Some (cs ++ [c]) →
  forallb (λ c, zlen c <? VFS_NAME_MAX) (default [] (components t)) = true → zlen c < VFS_NAME_MAX.
Proof.
  intros ->. cbn [default from_option id]. rewrite forallb_app. simpl. rewrite andb_true_r. intros [_ Hc]%andb_prop. lia.
Qed.

Lemma sample_boot_repr : al_repr (heap_init empty_heap 4096 65536) [].
Proof.
  exists [(65504, true)]. split; [|done]. apply (heap_init_repr empty_heap 4096 65536); unfold HDR; try lia; done.
Qed.

Lemma sample_fs_ok : ∃ K, fs_ok K sample_fs.
Proof.
  unfold sample_fs. destruct (mount_ok _ _ sample_boot_repr) as ([r s] & Hm & Hr).
  fold sample_boot in Hm. assert (r = 0) as ->.
  { assert (match mount sample_boot with Ok (r, _) => r = 0 | _ => False end) as E by (by vm_compute).
    by rewrite Hm in E. }
  destruct Hr as [?|(_ & Hs)]; [done|]. rewrite Hm, bind_ok.
  destruct (fs_exec_ok no_garbage ∅ s (OCreate path_a VFS_NODE_FILE) Hs) as ([r' s'] & -> & K' & HK'); [|by exists K'].
  split; [repeat constructor; lia|]. intros cs c Hc. by apply (short_names path_a cs c Hc).
Qed.

Lemma vfs_client_safe_witness :
  ('(r, s) ← mount sample_boot;
   if r =? 0 then
     '(rs, s) ← run no_garbage s [OCreate path_a VFS_NODE_FILE; OWrite path_a 5 [1; 2; 3]; ORead path_a 0 100; OUnlink path_a];
     Ok (Some rs, s)
   else Ok (None, s)) ⇓ λ '(rs, s), rs = Some [0; 3; 8; 0] ∧ ∃ K, fs_ok K s.
Proof.
  destruct (vfs_client_safe no_garbage _ _
    [OCreate path_a VFS_NODE_FILE; OWrite path_a 5 [1; 2; 3]; ORead path_a 0 100; OUnlink path_a] sample_boot_repr)
    as ([rs s] & Hrun & Hpost).
  - repeat constructor; unfold zlen; simpl; try lia. intros cs c Hc. by apply (short_names path_a cs c Hc).
  - fold sample_boot in Hrun. exists (rs, s). split; [done|].
    assert (rs = Some [0; 3; 8; 0]) as ->.
    { match type of Hrun with ?m = _ =>
        assert (match m with Ok (rs, _) => rs = Some [0; 3; 8; 0] | _ => False end) as E by (by vm_compute) end.
      by rewrite Hrun in E. }
    split; [reflexivity|]. clear Hrun. destruct Hpost as [?|(l & K & _ & _ & HK)]; [done|by exists K].
Defined.

Lemma vfs_write_then_read_witness :
  ∃ p, vfs_lookup no_garbage sample_fs (Some (cstr path_a)) = Ok p ∧
    vfs_write no_garbage sample_fs p 0 (Some [7; 8; 9]) 3 ⇓ λ '(r, s'),
      r = 3 → contents s' p = [7; 8; 9] ∧
      vfs_read s' p 0 (Some [0; 0; 0]) 3 = Ok (3, Some [7; 8; 9], s').
Proof.
  destruct sample_fs_ok as (K & Hfs). pose proof Hfs as (Hok & (L & Hst) & Hops).
  destruct (vfs_lookup no_garbage sample_fs (Some (cstr path_a))) as [p| |] eqn:Hp; [|by vm_compute in Hp..].
  assert (p = 4288 ∧ ∃ n, nodes sample_fs !! p = Some n ∧ type n = VFS_NODE_FILE ∧ ops n = tmpfs_ops ∧ contents sample_fs p = [])
    as (_ & n & Hn & Ht & Ho & Hc).
  { assert (p = 4288) as -> by (vm_compute in Hp; congruence). split; [done|].
    eexists. split; [by vm_compute|]. split; [done|]. split; [done|]. by vm_compute. }
  clear Hp. exists p. split; [reflexivity|]. eapply wp_mono.
  - apply (vfs_write_then_read no_garbage L sample_fs p n 0 [7; 8; 9] [0; 0; 0] Hst (conj Hn (conj Ht Ho))).
    + lia.
    + unfold zlen. simpl. lia.
    + left. destruct Hst as (_ & _ & _ & _ & _ & _ & Hr & _). apply (Hr p n (conj Hn (conj Ht Ho))).
    + reflexivity.
  - clear Hn. intros [r s'] (_ & _ & _ & _ & [(-> & _)|(-> & Hcon & Hread)]) Hr; [discriminate Hr|].
    rewrite Hcon, Hc. split; [reflexivity|exact Hread].
Defined.

Lemma vfs_create_then_lookup_witness :
  vfs_create no_garbage sample_fs (Some (cstr [47; 98])) VFS_NODE_DIR ⇓ λ '(r, out, s'),
    r = 0 → ∃ n, out = Some n ∧ vfs_lookup no_garbage s' (Some (cstr [47; 98])) = Ok n ∧
      vfs_lookup no_garbage s' (Some (cstr path_a)) = vfs_lookup no_garbage sample_fs (Some (cstr path_a)).
Proof.
  destruct sample_fs_ok as (K & Hok & (L & Hst) & _). eapply wp_mono.
  - apply (vfs_create_then_lookup no_garbage K sample_fs _ [47; 98] [] [98]).
    + split; [done|]. exists L. by apply storage_mem.
    + apply is_cstr_cstr. repeat constructor; lia.
    + by vm_compute.
    + by vm_compute.
  - intros [[r out] s'] (_ & _ & Hok' & Hoth) Hr. destruct (Hok' Hr) as (_ & n & -> & _ & Hn). exists n.
    split; [done|]. split; [done|]. apply (Hoth (cstr path_a) path_a [[97]]).
    + apply is_cstr_cstr. repeat constructor; lia.
    + by vm_compute.
    + by vm_compute.
Defined.

Lemma vfs_unlink_removes_witness :
  vfs_unlink no_garbage sample_fs (Some (cstr path_a)) ⇓ λ '(r, s'),
    r = 0 → vfs_lookup no_garbage s' (Some (cstr path_a)) = Ok 0.
Proof.
  destruct sample_fs_ok as (K & Hok & (L & Hst) & _). eapply wp_mono.
  - apply (vfs_unlink_removes no_garbage K sample_fs _ path_a).
    + split; [done|]. exists L. by apply storage_mem.
    + apply is_cstr_cstr. repeat constructor; lia.
  - intros [r s'] (_ & [(-> & _)|(_ & Hn & _)]) Hr; done.
Defined.

(** ** Behaviours to know about *)

(** The capacity-doubling loop of tmpfs_write does not terminate for a required size above 2^63:
    no number of iterations ends it. *)
Theorem tmpfs_write_never_ends required fuel :
  2 ^ 63 < required < 2 ^ 64 → double_capacity fuel 128 required = OutOfFuel.
Proof.
  intros Hr. unfold double_capacity.
  assert (∀ c, (c = 0 ∨ ∃ j, 0 ≤ j ≤ 63 ∧ c = 2 ^ j) → loop fuel (λ cap : Z,
    if cap <? required then Ok (inl (u64 (cap * 2))) else Ok (inr cap)) c = OutOfFuel) as Hgen.
  { induction fuel as [|fuel IH]; intros c Hc; [done|]. cbn [loop].
    assert (c < required) as Hlt.
    { destruct Hc as [->|(j & Hj & ->)]; [lia|]. pose proof (Z.pow_le_mono_r 2 j 63). lia. }
    rewrite (proj2 (Z.ltb_lt _ _) Hlt), bind_ok. apply IH.
    destruct Hc as [->|(j & Hj & ->)]; [by left|]. rewrite Z.mul_comm, <-Z.pow_succ_r by lia.
    destruct (decide (j = 63)) as [->|]; [by left|right]. exists (Z.succ j). split; [lia|].
    apply u64_small. pose proof (Z.pow_le_mono_r 2 (Z.succ j) 63). lia. }
  apply Hgen. right. exists 7. split; [lia|done].
Qed.

Lemma tmpfs_write_never_ends_witness : double_capacity 1000 128 (2 ^ 63 + 1) = OutOfFuel.
Proof. apply tmpfs_write_never_ends. lia. Defined.

(** A write past the end of a file that was shrunk before shows bytes from before the
    truncation; and a name longer than 63 bytes can be created twice, because the comparison is
    with the untruncated name. *)
Theorem tmpfs_stale_bytes_and_twin_names :
  (node ← vfs_lookup no_garbage sample_fs (Some (cstr path_a));
   '(_, s) ← vfs_write no_garbage sample_fs node 0 (Some [7; 8; 9]) 3;
   '(_, s) ← tmpfs_truncate no_garbage s node 1;
   '(_, s) ← vfs_write no_garbage s node 2 (Some [5]) 1;
   Ok (contents s node)) = Ok [7; 8; 5] ∧
  ('(rs, s) ← run no_garbage sample_fs
                [OCreate (47 :: replicate 64 98) VFS_NODE_FILE; OCreate (47 :: replicate 64 98) VFS_NODE_FILE];
   root ← get_node s (root_node s);
   a ← get_node s (children root);
   b ← get_node s (next a);
   Ok (rs, name a, name b)) = Ok ([0; 0], replicate 63 98 ++ [0], replicate 63 98 ++ [0]).
Proof. split; vm_compute; reflexivity. Qed.

End FsClient.
