(* ===== verification/FdTable.v ===== *)
(** File descriptors (kernel/fs/fd_table.c): the table, and reading, writing and
    seeking through it.  Entry 0, 1 and 2 are only handed out by [fd_alloc_at]. *)
From S2P Require Import Prelude KString Heap KStdlib Path Vfs FileData.

Module FdTable.
Import KString Heap KStdlib Path Vfs FileData.

Definition FD_TABLE_MAX : Z := 128.

Record fd_entry_t := { node : Z; offset : Z; flags : Z; refs : Z }.
Definition zero_entry : fd_entry_t := {| node := 0; offset := 0; flags := 0; refs := 0 |}.
Definition new_entry (n fl : Z) : fd_entry_t := {| node := n; offset := 0; flags := fl; refs := 1 |}.
Definition set_offset (e : fd_entry_t) (o : Z) : fd_entry_t :=
  {| node := node e; offset := o; flags := flags e; refs := refs e |}.
(** [++entry->refs] (an [int]) *)
Definition more_refs (e : fd_entry_t) : outcome fd_entry_t :=
  if refs e =? 2 ^ 31 - 1 then Undef
  else Ok {| node := node e; offset := offset e; flags := flags e; refs := refs e + 1 |}.

Abbreviation table := (list fd_entry_t).

Definition fd_table_init : table := replicate (Z.to_nat FD_TABLE_MAX) zero_entry.

(** The search [for (fd = 3; fd < FD_TABLE_MAX; ++fd) if (!table[fd].node)]: -1 if
    every entry is in use. *)
Definition free_fd (t : table) : outcome Z :=
  r ← for_loop 3 FD_TABLE_MAX
        (λ fd (_ : unit), e ← zget t fd; if node e =? 0 then Ok (inr fd) else Ok (inl tt)) tt;
  match r with inl _ => Ok (-1) | inr fd => Ok fd end.

Definition fd_alloc (t : table) (n fl : Z) : outcome (Z * table) :=
  if n =? 0 then Ok (-1, t)
  else
    fd ← free_fd t;
    if fd =? -1 then Ok (-1, t)
    else t ← zset t fd (new_entry n fl); Ok (fd, t).

Definition fd_alloc_at (t : table) (fd n fl : Z) : outcome (Z * table) :=
  if (fd <? 0) || (FD_TABLE_MAX <=? fd) || (n =? 0) then Ok (-1, t)
  else t ← zset t fd (new_entry n fl); Ok (fd, t).

(** The common guard: NULL is [None]. *)
Definition fd_get (t : table) (fd : Z) : outcome (option fd_entry_t) :=
  if (fd <? 0) || (FD_TABLE_MAX <=? fd) then Ok None
  else e ← zget t fd; Ok (if node e =? 0 then None else Some e).

Definition fd_close (t : table) (fd : Z) : outcome (Z * table) :=
  e ← fd_get t fd;
  match e with
  | None => Ok (-1, t)
  | Some _ => t ← zset t fd zero_entry; Ok (0, t)
  end.

Definition fd_dup (t : table) (fd : Z) : outcome (Z * table) :=
  e ← fd_get t fd;
  match e with
  | None => Ok (-1, t)
  | Some e =>
      newfd ← free_fd t;
      if newfd =? -1 then Ok (-1, t)
      else
        t ← zset t newfd e;
        e ← zget t fd;
        e ← more_refs e;
        t ← zset t fd e;
        Ok (newfd, t)
  end.

Definition fd_dup2 (t : table) (oldfd newfd : Z) : outcome (Z * table) :=
  e ← fd_get t oldfd;
  match e with
  | None => Ok (-1, t)
  | Some _ =>
      if (newfd <? 0) || (FD_TABLE_MAX <=? newfd) then Ok (-1, t)
      else if oldfd =? newfd then Ok (newfd, t)
      else
        '(_, t) ← fd_close t newfd;
        e ← zget t oldfd;
        t ← zset t newfd e;
        e ← zget t oldfd;
        e ← more_refs e;
        t ← zset t oldfd e;
        Ok (newfd, t)
  end.

Section FdTable.
Context {H : Type} `{RA : Reallocator H}.
Context (garbage : Z → Z → Z).
Abbreviation fs := (@Vfs.fs H).

(** [base + offset] of type [long long]: overflow is undefined. *)
Definition fd_seek (s : fs) (t : table) (fd off whence : Z) : outcome (Z * table) :=
  e ← fd_get t fd;
  match e with
  | None => Ok (-1, t)
  | Some e =>
      base ← (if whence =? 1 then Ok (Some (i64 (offset e)))
              else if whence =? 2 then
                if node e =? 0 then Ok (Some 0) else n ← get_node s (node e); Ok (Some (i64 (size n)))
              else if negb (whence =? 0) then Ok None else Ok (Some 0));
      match base with
      | None => Ok (-1, t)
      | Some base =>
          let next := base + off in
          if (next <? -2 ^ 63) || (2 ^ 63 <=? next) then Undef
          else if next <? 0 then Ok (-1, t)
          else t ← zset t fd (set_offset e (u64 next)); Ok (i32 (u64 next), t)
      end
  end.

Definition fd_read (s : fs) (t : table) (fd : Z) (buffer : option (list Z)) (count : Z)
  : outcome (Z * option (list Z) * table * fs) :=
  e ← fd_get t fd;
  match e with
  | None => Ok (-1, buffer, t, s)
  | Some e =>
      '(r, buffer, s) ← vfs_read s (node e) (offset e) buffer count;
      t ← (if 0 <? r then zset t fd (set_offset e (u64 (offset e + r))) else Ok t);
      Ok (r, buffer, t, s)
  end.

Definition fd_write (s : fs) (t : table) (fd : Z) (buffer : option (list Z)) (count : Z)
  : outcome (Z * table * fs) :=
  e ← fd_get t fd;
  match e with
  | None => Ok (-1, t, s)
  | Some e =>
      '(r, s) ← vfs_write garbage s (node e) (offset e) buffer count;
      t ← (if 0 <? r then zset t fd (set_offset e (u64 (offset e + r))) else Ok t);
      Ok (r, t, s)
  end.

End FdTable.

(** ** The table as a map from descriptors to open files *)

(** [m] bounds the reference counts, which grow by at most one per call. *)
Definition table_ok (m : Z) (t : table) : Prop := zlen t = FD_TABLE_MAX ∧ Forall (λ e, 0 ≤ refs e ≤ m) t.

(** What descriptor [fd] refers to. *)
Definition opened (t : table) (fd : Z) : option (Z * Z * Z) :=
  if decide (0 ≤ fd) then
    match t !! Z.to_nat fd with
    | Some e => if node e =? 0 then None else Some (node e, offset e, flags e)
    | None => None
    end
  else None.

Lemma zget_table m t fd : table_ok m t → 0 ≤ fd < FD_TABLE_MAX → ∃ e, t !! Z.to_nat fd = Some e ∧ zget t fd = Ok e.
Proof. intros [Hl _] Hfd. destruct (zget_in t fd) as [e He]; [lia|]. exists e. split; [done|]. by apply zget_ok; [lia|]. Qed.

Lemma fd_get_ok m t fd : table_ok m t →
  (fd_get t fd = Ok None ∧ opened t fd = None) ∨
  (∃ e, 0 ≤ fd < FD_TABLE_MAX ∧ t !! Z.to_nat fd = Some e ∧ node e ≠ 0 ∧ fd_get t fd = Ok (Some e) ∧
     opened t fd = Some (node e, offset e, flags e)).
Proof.
  intros Ht. unfold fd_get, opened. pose proof Ht as [Hl _]. unfold FD_TABLE_MAX in *.
  destruct (Z.ltb_spec fd 0); cbn [orb]; [left; by rewrite decide_False by lia|]. rewrite decide_True by lia.
  destruct (Z.leb_spec 128 fd).
  - left. by rewrite lookup_ge_None_2 by (unfold zlen in Hl; lia).
  - destruct (zget_table m t fd) as (e & He & ->); [done|unfold FD_TABLE_MAX; lia|]. rewrite He, bind_ok.
    destruct (Z.eqb_spec (node e) 0); [by left|right]. exists e. by split_and!.
Qed.

Lemma opened_set t fd e fd' : 0 ≤ fd < zlen t → 0 ≤ fd' →
  opened (<[Z.to_nat fd := e]> t) fd' =
    if decide (fd' = fd) then (if node e =? 0 then None else Some (node e, offset e, flags e)) else opened t fd'.
Proof.
  intros Hfd Hfd'. unfold opened. rewrite !(decide_True (P := 0 ≤ fd')) by done.
  destruct (decide (fd' = fd)) as [->|E].
  - by rewrite list_lookup_insert_eq by (unfold zlen in *; lia).
  - by rewrite list_lookup_insert_ne by lia.
Qed.

Lemma free_fd_ok m t : table_ok m t →
  free_fd t ⇓ λ fd,
    (fd = -1 ∧ ∀ k, 3 ≤ k < FD_TABLE_MAX → opened t k ≠ None) ∨
    (3 ≤ fd < FD_TABLE_MAX ∧ opened t fd = None ∧ ∀ k, 3 ≤ k < fd → opened t k ≠ None).
Proof.
  intros Ht. unfold free_fd. apply wp_bind.
  apply (wp_for (λ i _, ∀ k, 3 ≤ k < i → opened t k ≠ None)); [done|lia| |].
  - intros i [] Hi Hk. destruct (zget_table m t i Ht) as (e & He & ->); [lia|]. rewrite bind_ok.
    assert (opened t i = if node e =? 0 then None else Some (node e, offset e, flags e)) as Ho.
    { unfold opened. by rewrite decide_True, He by lia. }
    revert Ho. destruct (node e =? 0); intros Ho; apply wp_ok.
    + apply wp_ok. right. split; [lia|]. by split.
    + intros k Hk'. destruct (decide (k = i)) as [->|]; [by rewrite Ho|]. apply Hk. lia.
  - intros [] Hk. apply wp_ok. by left.
Qed.

(** *** Refinement *)

Inductive fd_op :=
  | Alloc (n fl : Z)
  | AllocAt (fd n fl : Z)
  | Close (fd : Z)
  | Dup (fd : Z)
  | Dup2 (oldfd newfd : Z).

Definition exec (t : table) (o : fd_op) : outcome (Z * table) :=
  match o with
  | Alloc n fl => fd_alloc t n fl
  | AllocAt fd n fl => fd_alloc_at t fd n fl
  | Close fd => fd_close t fd
  | Dup fd => fd_dup t fd
  | Dup2 a b => fd_dup2 t a b
  end.

(** The specification on the map of open files: the result and the new map. *)
Definition in_range (fd : Z) : Prop := 0 ≤ fd < FD_TABLE_MAX.
Definition lowest_free (A : Z → option (Z * Z * Z)) (fd : Z) : Prop :=
  3 ≤ fd < FD_TABLE_MAX ∧ A fd = None ∧ ∀ k, 3 ≤ k < fd → A k ≠ None.
Definition full (A : Z → option (Z * Z * Z)) : Prop := ∀ k, 3 ≤ k < FD_TABLE_MAX → A k ≠ None.
(** [B] is [A] with [fd] mapped to [x]. *)
Definition updated (A B : Z → option (Z * Z * Z)) (fd : Z) (x : option (Z * Z * Z)) : Prop :=
  ∀ k, B k = if decide (k = fd) then x else A k.
Definition unchanged (A B : Z → option (Z * Z * Z)) : Prop := ∀ k, B k = A k.

Definition fd_spec (A : Z → option (Z * Z * Z)) (o : fd_op) (r : Z) (B : Z → option (Z * Z * Z)) : Prop :=
  match o with
  | Alloc n fl =>
      ((n = 0 ∨ full A) ∧ r = -1 ∧ unchanged A B) ∨ (n ≠ 0 ∧ lowest_free A r ∧ updated A B r (Some (n, 0, fl)))
  | AllocAt fd n fl =>
      (¬ (in_range fd ∧ n ≠ 0) ∧ r = -1 ∧ unchanged A B) ∨
      (in_range fd ∧ n ≠ 0 ∧ r = fd ∧ updated A B fd (Some (n, 0, fl)))
  | Close fd => (A fd = None ∧ r = -1 ∧ unchanged A B) ∨ (A fd ≠ None ∧ r = 0 ∧ updated A B fd None)
  | Dup fd =>
      ((A fd = None ∨ full A) ∧ r = -1 ∧ unchanged A B) ∨ (A fd ≠ None ∧ lowest_free A r ∧ updated A B r (A fd))
  | Dup2 a b =>
      ((A a = None ∨ ¬ in_range b) ∧ r = -1 ∧ unchanged A B) ∨
      (A a ≠ None ∧ in_range b ∧ r = b ∧ updated A B b (A a))
  end.

Lemma table_ok_mono m m' t : table_ok m t → m ≤ m' → table_ok m' t.
Proof. intros [Hl Hr] Hm. split; [done|]. eapply Forall_impl; [done|]. simpl. lia. Qed.

(** Storing an entry updates one descriptor. *)
Lemma set_entry m t fd e (Q : table → Prop) :
  table_ok m t → in_range fd → 0 ≤ refs e ≤ m →
  (∀ t', table_ok m t' → t' = <[Z.to_nat fd := e]> t →
     updated (opened t) (opened t') fd (if node e =? 0 then None else Some (node e, offset e, flags e)) → Q t') →
  zset t fd e ⇓ Q.
Proof.
  intros [Hl Hr] Hfd He HQ. unfold in_range in Hfd. apply wp_zset; [lia|]. apply HQ; [|done|].
  - split; [by rewrite zlen_insert|]. by apply Forall_insert.
  - intros k. destruct (decide (0 ≤ k)); [apply opened_set; lia|].
    rewrite decide_False by lia. unfold opened. by rewrite !decide_False.
Qed.

Lemma more_refs_ok e m : 0 ≤ refs e ≤ m → m < 2 ^ 31 - 1 →
  ∃ e', more_refs e = Ok e' ∧ node e' = node e ∧ offset e' = offset e ∧ flags e' = flags e ∧ 0 ≤ refs e' ≤ m + 1.
Proof.
  intros He Hm. unfold more_refs. rewrite (proj2 (Z.eqb_neq _ _)) by lia. eexists. split; [done|]. simpl. lia.
Qed.

Lemma table_refs m t fd e : table_ok m t → t !! Z.to_nat fd = Some e → 0 ≤ refs e ≤ m.
Proof. intros [_ Hr] He. apply (Forall_lookup_1 _ _ _ _ Hr He). Qed.

(** The part [fd_dup] and [fd_dup2] share: copy the entry of [old] to [new] and count a reference. *)
Lemma copy_entry m t old new e :
  table_ok m t → m < 2 ^ 31 - 1 → in_range old → in_range new → old ≠ new →
  t !! Z.to_nat old = Some e → node e ≠ 0 →
  (t ← zset t new e; e ← zget t old; e ← more_refs e; t ← zset t old e; Ok (new, t)) ⇓ λ '(r, t'),
    r = new ∧ table_ok (m + 1) t' ∧ updated (opened t) (opened t') new (Some (node e, offset e, flags e)).
Proof.
  intros Ht Hm Ho Hn Hne He Hnz. pose proof (table_refs _ _ _ _ Ht He) as Hr. apply wp_bind.
  apply (set_entry (m + 1)); [by apply (table_ok_mono m); [|lia]|done|lia|]. intros t1 Ht1 Hins Hup1.
  assert (t1 !! Z.to_nat old = Some e) as He1.
  { rewrite Hins, list_lookup_insert_ne; [done|]. unfold in_range in *. lia. }
  rewrite (zget_ok t1 old e) by (done || unfold in_range in *; lia). rewrite bind_ok.
  destruct (more_refs_ok e m Hr Hm) as (e' & -> & En & Eo & Ef & Er). rewrite bind_ok. apply wp_bind.
  apply (set_entry (m + 1)); [done|done|done|]. intros t2 Ht2 _ Hup2. apply wp_ok. split; [done|]. split; [done|].
  intros k. rewrite Hup2, Hup1. rewrite En, Eo, Ef, (proj2 (Z.eqb_neq _ 0)) by done.
  destruct (decide (k = old)) as [->|]; [|done]. rewrite decide_False by done.
  unfold opened. unfold in_range in *. rewrite decide_True, He by lia. by rewrite (proj2 (Z.eqb_neq _ 0)).
Qed.

Lemma fd_exec_ok m t o : table_ok m t → 1 ≤ m < 2 ^ 31 - 1 →
  exec t o ⇓ λ '(r, t'), table_ok (m + 1) t' ∧ fd_spec (opened t) o r (opened t').
Proof.
  intros Ht Hm. assert (table_ok (m + 1) t) as Ht' by (by apply (table_ok_mono m); [|lia]).
  destruct o as [n fl|fd n fl|fd|fd|a b]; cbn [exec fd_spec].
  - unfold fd_alloc. destruct (Z.eqb_spec n 0); [apply wp_ok; split; [done|]; left; by split_and!; [left| |]|].
    apply wp_bind. eapply wp_mono; [by apply (free_fd_ok m)|]. intros fd [[-> Hfull]|Hfree].
    { apply wp_ok. split; [done|]. left. by split_and!; [right| |]. }
    pose proof Hfree as (Hfd & _). rewrite (proj2 (Z.eqb_neq fd (-1))) by lia. apply wp_bind.
    apply (set_entry (m + 1)); [done|unfold in_range; lia|simpl; lia|]. intros t1 Ht1 _ Hup. apply wp_ok.
    split; [done|]. right. split; [done|]. split; [done|]. simpl in Hup. by rewrite (proj2 (Z.eqb_neq n 0)) in Hup.
  - unfold fd_alloc_at. destruct ((fd <? 0) || (FD_TABLE_MAX <=? fd) || (n =? 0)) eqn:E.
    { apply wp_ok. split; [done|]. left. split; [unfold in_range; lia|done]. }
    apply wp_bind. apply (set_entry (m + 1)); [done|unfold in_range; lia|simpl; lia|]. intros t1 Ht1 _ Hup.
    apply wp_ok. split; [done|]. right. split; [unfold in_range; lia|]. split; [lia|]. split; [done|].
    simpl in Hup. by rewrite (proj2 (Z.eqb_neq n 0)) in Hup by lia.
  - unfold fd_close. destruct (fd_get_ok m t fd Ht) as [[-> Hno]|(e & Hfd & He & Hnz & -> & Ho)]; rewrite bind_ok.
    { apply wp_ok. split; [done|]. by left. }
    apply wp_bind. apply (set_entry (m + 1)); [done|done|simpl; lia|]. intros t1 Ht1 _ Hup. apply wp_ok.
    split; [done|]. right. by rewrite Ho.
  - unfold fd_dup. destruct (fd_get_ok m t fd Ht) as [[-> Hno]|(e & Hfd & He & Hnz & -> & Ho)]; rewrite bind_ok.
    { apply wp_ok. split; [done|]. left. by split_and!; [left| |]. }
    apply wp_bind. eapply wp_mono; [by apply (free_fd_ok m)|]. intros new [[-> Hfull]|Hfree].
    { apply wp_ok. split; [done|]. left. by split_and!; [right| |]. }
    pose proof Hfree as (Hnew & Hnone & _). rewrite (proj2 (Z.eqb_neq new (-1))) by lia.
    eapply wp_mono; [apply (copy_entry m t fd new e); try done; [lia|unfold in_range; lia|congruence]|].
    intros [r t'] (-> & Ht2 & Hup). split; [done|]. right. by rewrite Ho.
  - unfold fd_dup2. destruct (fd_get_ok m t a Ht) as [[-> Hno]|(e & Ha & He & Hnz & -> & Ho)]; rewrite bind_ok.
    { apply wp_ok. split; [done|]. left. by split_and!; [left| |]. }
    destruct ((b <? 0) || (FD_TABLE_MAX <=? b)) eqn:E.
    { apply wp_ok. split; [done|]. left. split; [right; unfold in_range; lia|done]. }
    assert (in_range b) as Hb by (unfold in_range; lia). rewrite Ho.
    destruct (Z.eqb_spec a b) as [->|Hab].
    { apply wp_ok. split; [done|]. right. split; [done|]. split; [done|]. split; [done|]. intros k.
      case_decide; [by subst|done]. }
    assert (fd_close t b ⇓ λ '(_, t1), table_ok m t1 ∧ t1 !! Z.to_nat a = Some e ∧ ∀ k, k ≠ b → opened t1 k = opened t k) as Hcl.
    { unfold fd_close. destruct (fd_get_ok m t b Ht) as [[-> _]|(e2 & _ & _ & _ & -> & _)]; rewrite bind_ok; [by apply wp_ok|].
      apply wp_bind. apply (set_entry m); [done|done|simpl; lia|]. intros t1 Ht1 Hins Hup. apply wp_ok. split; [done|].
      split; [rewrite Hins, list_lookup_insert_ne; [done|unfold in_range in *; lia]|].
      intros k Hk. rewrite Hup. by rewrite decide_False. }
    apply wp_bind. eapply wp_mono; [exact Hcl|]. intros [r0 t1] (Ht1 & He1 & Hoth).
    rewrite (zget_ok t1 a e) by (done || lia). rewrite bind_ok.
    eapply wp_mono; [apply (copy_entry m t1 a b e); try done; lia|].
    intros [r t'] (-> & Ht2 & Hup). split; [done|]. right. split; [done|]. split; [done|]. split; [done|].
    intros k. rewrite Hup. case_decide; [done|]. by apply Hoth.
Qed.

Fixpoint run (t : table) (os : list fd_op) : outcome (list Z * table) :=
  match os with
  | [] => Ok ([], t)
  | o :: os => '(r, t) ← exec t o; '(rs, t) ← run t os; Ok (r :: rs, t)
  end.

(** A run of the specification with the results [rs]. *)
Inductive spec_run : (Z → option (Z * Z * Z)) → list fd_op → list Z → (Z → option (Z * Z * Z)) → Prop :=
  | spec_nil A : spec_run A [] [] A
  | spec_cons A B C o os r rs : fd_spec A o r B → spec_run B os rs C → spec_run A (o :: os) (r :: rs) C.

Lemma run_ok os m t : table_ok m t → 1 ≤ m → m + zlen os < 2 ^ 31 - 1 →
  run t os ⇓ λ '(rs, t'), (∃ m', table_ok m' t') ∧ spec_run (opened t) os rs (opened t').
Proof.
  revert m t. induction os as [|o os IH]; intros m t Ht Hm Hl; cbn [run].
  - apply wp_ok. split; [by eauto|constructor].
  - unfold zlen in *. simpl length in Hl. apply wp_bind. eapply wp_mono; [apply (fd_exec_ok m t o); (done || lia)|].
    intros [r t1] (Ht1 & Hs). apply wp_bind. eapply wp_mono; [apply (IH (m + 1) t1); (done || lia)|].
    intros [rs t2] (Ht2 & Hs2). apply wp_ok. split; [done|]. by econstructor.
Qed.

Lemma init_table_ok : table_ok 1 fd_table_init.
Proof. split; [done|]. apply Forall_replicate. simpl. lia. Qed.

Lemma opened_init fd : opened fd_table_init fd = None.
Proof.
  unfold opened, fd_table_init. case_decide; [|done]. destruct (replicate _ _ !! _) eqn:E; [|done].
  apply lookup_replicate_1 in E as [-> _]. done.
Qed.

Lemma opened_in_range m t fd : table_ok m t → opened t fd ≠ None → in_range fd.
Proof.
  intros [Hl _] Ho. unfold opened, in_range in *. case_decide; [|done]. destruct (t !! _) eqn:E; [|done].
  apply lookup_lt_Some in E. unfold zlen in Hl. lia.
Qed.

(** C20: Every sequence of fd_alloc, fd_alloc_at, fd_close, fd_dup and fd_dup2 calls on the
    initial descriptor table behaves as on a map from descriptors to open files: allocation
    takes the lowest free descriptor from 3 up, dup copies the open file, close removes it, each
    failing call changes nothing, and only descriptors 0 to 127 are ever open. *)
Theorem fd_table_refines_map os :
  zlen os < 2 ^ 30 →
  (∀ fd, opened fd_table_init fd = None) ∧
  run fd_table_init os ⇓ λ '(rs, t),
    spec_run (opened fd_table_init) os rs (opened t) ∧ ∀ fd, opened t fd ≠ None → in_range fd.
Proof.
  intros Hlen. split; [apply opened_init|]. eapply wp_mono; [apply (run_ok os 1); [apply init_table_ok|lia..]|].
  intros [rs t] ((m & Ht) & Hs). split; [done|]. intros fd. by apply (opened_in_range m).
Qed.

(** Open a node, duplicate the descriptor twice, close the first one and open another node
    in its place. *)
Definition sample_fd_ops : list fd_op := [Alloc 4096 2; Dup 3; Dup2 4 9; Close 3; Alloc 8192 0; Close 77].

Lemma fd_table_refines_map_witness :
  ∃ t, run fd_table_init sample_fd_ops = Ok ([3; 4; 9; 0; 3; -1], t) ∧
    spec_run (opened fd_table_init) sample_fd_ops [3; 4; 9; 0; 3; -1] (opened t).
Proof.
  destruct (fd_table_refines_map sample_fd_ops ltac:(reflexivity)) as (_ & [rs t] & E & Hs & _).
  assert (rs = [3; 4; 9; 0; 3; -1]) as -> by (vm_compute in E; congruence).
  exists t. by split.
Defined.

End FdTable.
