(* ===== verification/Sched.v ===== *)
(** Threads and the round-robin scheduler (kernel/proc/thread.c, scheduler.c).

    A thread pointer is a key of [threads] (0 is NULL); reading a thread that was freed is
    undefined.  The run queue is linked through the threads' [next] fields. *)
From S2P Require Import Prelude Chain Heap.

Module Sched.
Import Heap(Allocator, al_repr, al_calloc, al_free, al_repr_perm, al_repr_range, al_calloc_spec, al_free_spec, al_free_null).

Inductive thread_state_t :=
  | THREAD_NEW | THREAD_READY | THREAD_RUNNING | THREAD_BLOCKED | THREAD_SLEEPING | THREAD_EXITED.
#[global] Instance thread_state_eq_dec : EqDecision thread_state_t.
Proof. solve_decision. Defined.

Record thread_t := {
  tid : Z;
  process_id : Z;
  state : thread_state_t;
  stack_top : Z;
  instruction_pointer : Z;
  exit_code : Z;
  wake_tick : Z;
  next : Z
}.

Definition THREAD_SIZE : Z := 64.

Definition set_state (t : thread_t) (x : thread_state_t) : thread_t :=
  {| tid := tid t; process_id := process_id t; state := x; stack_top := stack_top t;
     instruction_pointer := instruction_pointer t; exit_code := exit_code t; wake_tick := wake_tick t; next := next t |}.
Definition set_next (t : thread_t) (x : Z) : thread_t :=
  {| tid := tid t; process_id := process_id t; state := state t; stack_top := stack_top t;
     instruction_pointer := instruction_pointer t; exit_code := exit_code t; wake_tick := wake_tick t; next := x |}.
Definition set_exit_code (t : thread_t) (x : Z) : thread_t :=
  {| tid := tid t; process_id := process_id t; state := state t; stack_top := stack_top t;
     instruction_pointer := instruction_pointer t; exit_code := x; wake_tick := wake_tick t; next := next t |}.
Definition set_ip (t : thread_t) (x : Z) : thread_t :=
  {| tid := tid t; process_id := process_id t; state := state t; stack_top := stack_top t;
     instruction_pointer := x; exit_code := exit_code t; wake_tick := wake_tick t; next := next t |}.

(** The static variables of both files and the threads they point at. *)
Record sched := { threads : gmap Z thread_t; next_tid : Z; run_queue : Z; current_thread : Z }.

Definition set_threads (s : sched) (x : gmap Z thread_t) : sched :=
  {| threads := x; next_tid := next_tid s; run_queue := run_queue s; current_thread := current_thread s |}.
Definition set_next_tid (s : sched) (x : Z) : sched :=
  {| threads := threads s; next_tid := x; run_queue := run_queue s; current_thread := current_thread s |}.
Definition set_queue (s : sched) (x : Z) : sched :=
  {| threads := threads s; next_tid := next_tid s; run_queue := x; current_thread := current_thread s |}.
Definition set_current (s : sched) (x : Z) : sched :=
  {| threads := threads s; next_tid := next_tid s; run_queue := run_queue s; current_thread := x |}.

Definition get_thread (s : sched) (p : Z) : outcome thread_t :=
  match threads s !! p with Some t => Ok t | None => Undef end.
Definition put_thread (s : sched) (p : Z) (t : thread_t) : sched := set_threads s (<[p := t]> (threads s)).

(** ** kernel/proc/thread.c *)

Definition thread_system_init (s : sched) : sched := set_next_tid s 1.

Section Memory.
Context {H : Type} `{AL : Allocator H}.

Definition thread_create (s : sched) (h : H) (process entry stack : Z) : outcome (Z * sched * H) :=
  '(p, h) ← al_calloc h 1 THREAD_SIZE;
  if p =? 0 then Ok (0, s, h)
  else
    let t := {| tid := next_tid s; process_id := process; state := THREAD_NEW; stack_top := stack;
                instruction_pointer := entry; exit_code := 0; wake_tick := 0; next := 0 |} in
    Ok (p, put_thread (set_next_tid s (u64 (next_tid s + 1))) p t, h).

(** The object is gone with its memory. *)
Definition thread_destroy (s : sched) (h : H) (thread : Z) : outcome (sched * H) :=
  h ← al_free h thread;
  Ok (set_threads s (delete thread (threads s)), h).

End Memory.

Definition thread_set_state (s : sched) (thread : Z) (x : thread_state_t) : outcome sched :=
  if thread =? 0 then Ok s else t ← get_thread s thread; Ok (put_thread s thread (set_state t x)).

Definition runnable (x : thread_state_t) : bool :=
  bool_decide (x = THREAD_READY) || bool_decide (x = THREAD_RUNNING).

Definition thread_is_runnable (s : sched) (thread : Z) : outcome bool :=
  if thread =? 0 then Ok false else t ← get_thread s thread; Ok (runnable (state t)).

(** ** kernel/proc/scheduler.c *)

Definition scheduler_init (s : sched) : sched := set_current (set_queue s 0) 0.

Definition list_fuel (s : sched) : nat := S (S (base.size (threads s))).

(** [while (tail->next) tail = tail->next;] *)
Definition queue_tail (s : sched) : outcome Z :=
  loop (list_fuel s) (λ tail, t ← get_thread s tail; if next t =? 0 then Ok (inr tail) else Ok (inl (next t))) (run_queue s).

Definition scheduler_add (s : sched) (thread : Z) : outcome sched :=
  if thread =? 0 then Ok s
  else
    t ← get_thread s thread;
    let s := put_thread s thread (set_next (set_state t THREAD_READY) 0) in
    if run_queue s =? 0 then Ok (set_queue s thread)
    else
      tail ← queue_tail s;
      t ← get_thread s tail;
      Ok (put_thread s tail (set_next t thread)).

(** [*cursor = thread->next; thread->next = 0;] where the cursor is the link of [prev], or
    the head of the queue when [prev] is 0. *)
Definition remove_here (s : sched) (prev thread : Z) : outcome sched :=
  t ← get_thread s thread;
  s ← (if prev =? 0 then Ok (set_queue s (next t))
       else q ← get_thread s prev; Ok (put_thread s prev (set_next q (next t))));
  t ← get_thread s thread;
  let s := put_thread s thread (set_next t 0) in
  Ok (if current_thread s =? thread then set_current s 0 else s).

Definition scheduler_remove (s : sched) (thread : Z) : outcome sched :=
  loop (list_fuel s)
    (λ '(prev, cur),
       if cur =? 0 then Ok (inr s)
       else if cur =? thread then s ← remove_here s prev thread; Ok (inr s)
       else t ← get_thread s cur; Ok (inl (cur, next t))) (0, run_queue s).

Definition scheduler_current (s : sched) : Z := current_thread s.

(** One turn of the loop of [scheduler_pick_next]. *)
Definition try_candidate (s : sched) (start candidate : Z) : outcome (Z + Z * sched) :=
  r ← thread_is_runnable s candidate;
  t ← get_thread s candidate;
  if r : bool then Ok (inr (candidate, put_thread (set_current s candidate) candidate (set_state t THREAD_RUNNING)))
  else
    let nx := if negb (next t =? 0) then next t else run_queue s in
    if nx =? start then Ok (inr (0, s)) else Ok (inl nx).

Definition scheduler_pick_next (s : sched) : outcome (Z * sched) :=
  if run_queue s =? 0 then Ok (0, set_current s 0)
  else
    start ← (if negb (current_thread s =? 0) then t ← get_thread s (current_thread s); Ok (next t)
             else Ok (run_queue s));
    let start := if start =? 0 then run_queue s else start in
    loop (list_fuel s) (try_candidate s start) start.

Definition scheduler_yield (s : sched) : outcome sched :=
  s ← (if negb (current_thread s =? 0) then
         t ← get_thread s (current_thread s);
         if bool_decide (state t = THREAD_RUNNING)
         then Ok (put_thread s (current_thread s) (set_state t THREAD_READY)) else Ok s
       else Ok s);
  '(_, s) ← scheduler_pick_next s;
  Ok s.

Definition scheduler_runnable_count (s : sched) : outcome Z :=
  loop (list_fuel s)
    (λ '(thread, count),
       if thread =? 0 then Ok (inr count)
       else
         r ← thread_is_runnable s thread;
         t ← get_thread s thread;
         Ok (inl (next t, if r : bool then u64 (count + 1) else count))) (run_queue s, 0).

(** ** Correctness *)

(** The run queue is [l], and the current thread, if any, is in it. *)
Definition queued (s : sched) (l : list Z) : Prop :=
  chain next (threads s) (run_queue s) l ∧ (current_thread s = 0 ∨ current_thread s ∈ l).

Definition can_run (s : sched) (p : Z) : Prop := ∃ t, threads s !! p = Some t ∧ runnable (state t) = true.

(** The order in which the threads of [l] are considered when [cur] runs: the ones behind
    it, then the ones before it, then itself. *)
Fixpoint after (cur : Z) (seen l : list Z) : list Z :=
  match l with
  | [] => seen
  | p :: l => if decide (p = cur) then l ++ seen ++ [p] else after cur (seen ++ [p]) l
  end.
Definition turn_order (cur : Z) (l : list Z) : list Z := after cur [] l.

(** The first of them that can run. *)
Fixpoint first_runnable (x : gmap Z thread_state_t) (l : list Z) : option Z :=
  match l with
  | [] => None
  | p :: l => if decide (runnable <$> x !! p = Some true) then Some p else first_runnable x l
  end.
Definition states (s : sched) : gmap Z thread_state_t := state <$> threads s.

Lemma get_thread_ok s p t : threads s !! p = Some t → get_thread s p = Ok t.
Proof. intros Ht. unfold get_thread. by rewrite Ht. Qed.

Lemma after_split cur seen pre post : cur ∉ pre → after cur seen (pre ++ cur :: post) = post ++ seen ++ pre ++ [cur].
Proof.
  revert seen. induction pre as [|p pre IH]; intros seen Hn; cbn [app after].
  - by rewrite decide_True.
  - rewrite decide_False by set_solver. rewrite IH by set_solver. by rewrite <-!app_assoc.
Qed.

Lemma after_none cur seen l : cur ∉ l → after cur seen l = seen ++ l.
Proof.
  revert seen. induction l as [|p l IH]; intros seen Hn; cbn [after]; [by rewrite app_nil_r|].
  rewrite decide_False by set_solver. rewrite IH by set_solver. by rewrite <-app_assoc.
Qed.

(** The queue cut where the next turn begins. *)
Lemma turn_order_cut s l : queued s l →
  ∃ A B, l = A ++ B ∧ turn_order (current_thread s) l = B ++ A ∧
    (A = [] ∧ current_thread s = 0 ∨ ∃ A', A = A' ++ [current_thread s]).
Proof.
  intros [Hc Hcur]. destruct (decide (current_thread s ∈ l)) as [Hin|Hout].
  - apply list_elem_of_split in Hin as (A' & B & ->). pose proof (chain_NoDup _ _ _ Hc) as Hnd.
    exists (A' ++ [current_thread s]), B. rewrite <-app_assoc. split; [done|]. split; [|right; by eauto].
    unfold turn_order. rewrite after_split; [done|]. intros Hin. apply NoDup_app in Hnd as (_ & Hd & _). apply (Hd _ Hin). left.
  - exists [], l. split; [done|]. rewrite app_nil_r. split; [by apply after_none|]. left. split; [done|]. tauto.
Qed.

(** Following the queue past its end goes on at its head. *)
Lemma cyclic_next x q A B d p t n :
  chain next x q (A ++ B) → B ++ A = d ++ p :: t → x !! p = Some n →
  (if negb (next n =? 0) then next n else q) = default (default 0 (head (B ++ A))) (head t).
Proof.
  intros Hc Hrot Hn. assert (∀ l y, chain next x y l → y = default 0 (head l)) as Hhd.
  { intros [|? ?] y; [done|]. by intros (-> & _). }
  assert (∀ e, e ∈ A ++ B → (e =? 0) = false) as Hnz.
  { intros e He. apply Z.eqb_neq. by apply (chain_elem _ _ _ e Hc). }
  apply app_eq_app in Hrot as Hcase. destruct Hcase as [k [[-> Ht]|[-> HA]]].
  - (* p lies in B, or B ends just before it *)
    destruct k as [|p' k].
    + simpl in Ht. subst A. rewrite app_nil_r in *. simpl app in *.
      rewrite (chain_next x q [] p (t ++ d) n) by done. pose proof (Hhd _ _ Hc) as Hq. simpl in Hq.
      destruct t as [|p2 t]; simpl.
      * destruct d as [|e d]; simpl in *; [by subst|]. by rewrite (Hnz e) by in_list.
      * by rewrite (Hnz p2) by in_list.
    + injection Ht as <- Ht. subst t. rewrite app_assoc in Hc.
      rewrite (chain_next x q (A ++ d) p k n) by done. pose proof (Hhd _ _ Hc) as Hq.
      destruct k as [|p2 k]; simpl.
      * destruct A as [|e A]; simpl in *; [|done]. destruct d; simpl in *; done.
      * by rewrite (Hnz p2) by in_list.
  - (* p lies in A *)
    rewrite HA in Hc, Hnz. rewrite <-app_assoc in Hc. simpl in Hc. rewrite (chain_next x q k p (t ++ B) n) by done.
    pose proof (Hhd _ _ Hc) as Hq. destruct t as [|p2 t]; simpl.
    + destruct B as [|e B]; simpl in *.
      * subst q. by rewrite HA.
      * by rewrite (Hnz e) by in_list.
    + by rewrite (Hnz p2) by in_list.
Qed.

(** [s] with [c] chosen to run. *)
Definition dispatch (s : sched) (c : Z) : sched :=
  set_current (set_threads s (alter (λ t, set_state t THREAD_RUNNING) c (threads s))) c.

Lemma put_alter s p t f : threads s !! p = Some t → put_thread s p (f t) = set_threads s (alter f p (threads s)).
Proof.
  intros Ht. unfold put_thread. f_equal. apply map_eq. intros q. destruct (decide (q = p)) as [->|].
  - by rewrite lookup_insert_eq, lookup_alter_eq, Ht.
  - by rewrite lookup_insert_ne, lookup_alter_ne.
Qed.

Lemma first_runnable_snoc x d p :
  first_runnable x d = None → runnable <$> x !! p ≠ Some true → first_runnable x (d ++ [p]) = None.
Proof.
  intros Hd Hp. induction d as [|q d IH]; cbn [app first_runnable] in *; [by rewrite decide_False|].
  case_decide; [done|]. by apply IH.
Qed.

Lemma first_runnable_at x d p t :
  first_runnable x d = None → runnable <$> x !! p = Some true → first_runnable x (d ++ p :: t) = Some p.
Proof.
  intros Hd Hp. induction d as [|q d IH]; cbn [app first_runnable] in *; [by rewrite decide_True|].
  case_decide; [done|]. by apply IH.
Qed.

Lemma try_candidate_ok s l A B d p t :
  queued s l → l = A ++ B → B ++ A = d ++ p :: t → first_runnable (states s) d = None →
  try_candidate s (default 0 (head (B ++ A))) p ⇓ λ r,
    match r with
    | inl q => q = default 0 (head t) ∧ t ≠ [] ∧ first_runnable (states s) (d ++ [p]) = None
    | inr v => v = match first_runnable (states s) (B ++ A) with Some c => (c, dispatch s c) | None => (0, s) end
    end.
Proof.
  intros [Hc Hcur] -> Hrot Hd. assert (p ∈ A ++ B) as Hin.
  { rewrite (Permutation_app_comm A B), Hrot. apply elem_of_app. right. left. }
  destruct (chain_elem _ _ _ p Hc Hin) as [Hp0 [n Hn]]. unfold try_candidate, thread_is_runnable.
  rewrite (proj2 (Z.eqb_neq p 0)), (get_thread_ok s p n Hn), !bind_ok by done.
  destruct (runnable (state n)) eqn:Er.
  - apply wp_ok. rewrite Hrot, (first_runnable_at _ d p t) by (done || by unfold states; rewrite lookup_fmap, Hn; simpl; rewrite Er).
    unfold dispatch. f_equal. by rewrite (put_alter (set_current s p) p n (λ t, set_state t THREAD_RUNNING)) by done.
  - assert (runnable <$> states s !! p ≠ Some true) as Hnr by (unfold states; rewrite lookup_fmap, Hn; simpl; congruence).
    rewrite (cyclic_next (threads s) (run_queue s) A B d p t n) by done.
    assert (NoDup (B ++ A)) as Hnd by (rewrite (Permutation_app_comm B A); by eapply chain_NoDup).
    destruct t as [|q t]; simpl default.
    + rewrite Z.eqb_refl. apply wp_ok. rewrite Hrot. by rewrite (first_runnable_snoc _ d p).
    + rewrite (proj2 (Z.eqb_neq _ _)).
      * apply wp_ok. split; [done|]. split; [done|]. by apply first_runnable_snoc.
      * intros E. rewrite Hrot in Hnd, E. destruct d as [|e d]; simpl in *.
        -- subst q. apply NoDup_cons in Hnd as [Hnd _]. apply Hnd. in_list.
        -- subst q. apply NoDup_cons in Hnd as [Hnd _]. apply Hnd. in_list.
Qed.

Lemma pick_next_ok s l : queued s l →
  scheduler_pick_next s = Ok (match first_runnable (states s) (turn_order (current_thread s) l) with
                              | Some c => (c, dispatch s c) | None => (0, s) end).
Proof.
  intros Hq. pose proof Hq as [Hc Hcur]. destruct (turn_order_cut s l Hq) as (A & B & -> & -> & HA).
  unfold scheduler_pick_next. destruct (Z.eqb_spec (run_queue s) 0) as [E|E].
  { destruct (A ++ B) as [|e l] eqn:EAB; [|by destruct Hc as (<- & ? & _)]. apply app_eq_nil in EAB as [-> ->]. simpl.
    destruct Hcur as [Hcur|[]%not_elem_of_nil]. destruct s; simpl in *; by subst. }
  assert (run_queue s = default 0 (head (A ++ B))) as Hhd.
  { destruct (A ++ B); [done|]. by destruct Hc as (-> & _). }
  assert (A ++ B ≠ []) as Hne by (intros E'; rewrite E' in Hhd; done).
  assert ((if negb (current_thread s =? 0) then t ← get_thread s (current_thread s); Ok (next t) else Ok (run_queue s)) ⇓
    λ start, (if start =? 0 then run_queue s else start) = default 0 (head (B ++ A))) as (start & -> & Hstart).
  { destruct HA as [[-> ->]|(A' & ->)].
    - simpl. apply wp_ok. rewrite app_nil_r. rewrite (proj2 (Z.eqb_neq _ 0)) by done. exact Hhd.
    - pose proof (chain_elem _ _ _ (current_thread s) Hc ltac:(in_list)) as [H0 [n Hn]].
      rewrite (proj2 (Z.eqb_neq (current_thread s) 0)) by done. cbn [negb]. rewrite (get_thread_ok s _ n Hn), bind_ok.
      apply wp_ok. rewrite <-app_assoc in Hc. rewrite (chain_next _ _ A' (current_thread s) B n Hc Hn).
      destruct B as [|e B]; simpl.
      + rewrite Hhd. by rewrite app_nil_r.
      + pose proof (chain_elem _ _ _ e Hc ltac:(in_list)) as [He _]. by rewrite (proj2 (Z.eqb_neq e 0)). }
  rewrite bind_ok. cbv zeta. rewrite Hstart.
  assert (loop (list_fuel s) (try_candidate s (default 0 (head (B ++ A)))) (default 0 (head (B ++ A))) ⇓
    λ v, v = match first_runnable (states s) (B ++ A) with Some c => (c, dispatch s c) | None => (0, s) end) as (v & -> & ->);
    [|done].
  apply (wp_loop_bound (λ k p, ∃ d t, B ++ A = d ++ p :: t ∧ k = length t ∧ first_runnable (states s) d = None))
    with (k := (length (B ++ A) - 1)%nat).
  - intros k p (d & t & Hrot & -> & Hd). eapply wp_mono; [by apply (try_candidate_ok s (A ++ B) A B d p t)|].
    intros [q|v]; [|done]. intros (-> & Ht & Hd'). destruct t as [|q t]; [done|]. exists (length t). split; [simpl; lia|].
    exists (d ++ [p]), t. by rewrite <-app_assoc.
  - destruct (B ++ A) as [|e r] eqn:E'; [apply app_eq_nil in E' as [-> ->]; done|]. exists [], r. split; [done|]. split; [simpl; lia|done].
  - pose proof (chain_length _ _ _ Hc). rewrite length_app in *. unfold list_fuel. lia.
Qed.

(** *** What the other operations do *)

(** [s'] has the threads of [s] with the same links. *)
Lemma alter_chain s p f a l : (∀ t, next (f t) = next t) → chain next (threads s) a l → chain next (alter f p (threads s)) a l.
Proof.
  intros Hf Hc. eapply chain_agree; [|done]. intros c n _ Hn. destruct (decide (c = p)) as [->|].
  - exists (f n). by rewrite lookup_alter_eq, Hn.
  - exists n. by rewrite lookup_alter_ne.
Qed.

Lemma states_alter s p x : states (set_threads s (alter (λ t, set_state t x) p (threads s))) = alter (λ _, x) p (states s).
Proof.
  unfold states. simpl. apply map_eq. intros q. rewrite lookup_fmap. destruct (decide (q = p)) as [->|].
  - rewrite !lookup_alter_eq, lookup_fmap. by destruct (threads s !! p).
  - by rewrite !lookup_alter_ne, lookup_fmap.
Qed.

Lemma dispatch_ok s l c : queued s l → c ∈ l → queued (dispatch s c) l ∧ states (dispatch s c) = <[c := THREAD_RUNNING]> (states s).
Proof.
  intros [Hc _] Hin. split; [split; [by apply alter_chain|by right]|].
  destruct (chain_elem _ _ _ _ Hc Hin) as [_ [t Ht]]. unfold dispatch.
  change (states (set_current ?x c)) with (states x). rewrite states_alter.
  apply map_eq. intros q. destruct (decide (q = c)) as [->|].
  - rewrite lookup_alter_eq, lookup_insert_eq. unfold states. by rewrite lookup_fmap, Ht.
  - by rewrite lookup_alter_ne, lookup_insert_ne.
Qed.

Lemma first_runnable_elem x l p : first_runnable x l = Some p → p ∈ l ∧ runnable <$> x !! p = Some true.
Proof.
  induction l as [|q l IH]; cbn [first_runnable]; [done|]. case_decide as E.
  - intros [= ->]. split; [left|done].
  - intros Hf. destruct (IH Hf). split; [by right|done].
Qed.

Lemma turn_order_perm s l : queued s l → turn_order (current_thread s) l ≡ₚ l.
Proof. intros Hq. destruct (turn_order_cut s l Hq) as (A & B & -> & -> & _). apply Permutation_app_comm. Qed.

Lemma set_state_ok s p x : is_Some (threads s !! p) → p ≠ 0 →
  thread_set_state s p x = Ok (set_threads s (alter (λ t, set_state t x) p (threads s))).
Proof.
  intros [t Ht] H0. unfold thread_set_state. rewrite (proj2 (Z.eqb_neq p 0)), (get_thread_ok s p t Ht), bind_ok by done.
  by rewrite (put_alter s p t (λ t, set_state t x)).
Qed.

Lemma queue_tail_ok s l : chain next (threads s) (run_queue s) l → l ≠ [] → queue_tail s ⇓ λ z, ∃ pre, l = pre ++ [z].
Proof.
  intros Hc Hne. unfold queue_tail.
  apply (wp_walk (nx := next) (threads s) (λ _ c z, z = c ∧ c ≠ 0)) with (a := run_queue s) (l := l);
    [done|pose proof (chain_length _ _ _ Hc); unfold list_fuel; lia| | |].
  - split; [done|]. destruct l; [done|]. by destruct Hc as (-> & ? & _).
  - intros pre p n post z -> Hp Hn [-> _]. rewrite (get_thread_ok s p n Hn), bind_ok.
    pose proof (chain_next _ _ _ _ _ _ Hc Hn) as Hnx. destruct (Z.eqb_spec (next n) 0) as [E|E]; apply wp_ok; [|done].
    destruct post as [|q post]; [by exists pre|]. simpl in Hnx.
    destruct (chain_elem _ _ _ q Hc ltac:(in_list)). congruence.
  - by intros z [_ ?].
Qed.

Lemma states_put s p t : states (put_thread s p t) = <[p := state t]> (states s).
Proof. unfold states. simpl. apply fmap_insert. Qed.

Lemma states_same s p t t' : threads s !! p = Some t → state t' = state t → states (put_thread s p t') = states s.
Proof.
  intros Ht E. rewrite states_put, E. apply insert_id. unfold states. by rewrite lookup_fmap, Ht.
Qed.

Lemma scheduler_add_ok s l p : queued s l → p ≠ 0 → is_Some (threads s !! p) → (p ∉ l) →
  scheduler_add s p ⇓ λ s', queued s' (l ++ [p]) ∧ states s' = <[p := THREAD_READY]> (states s) ∧
    current_thread s' = current_thread s.
Proof.
  intros [Hc Hcur] H0 [t Ht] Hp. unfold scheduler_add.
  rewrite (proj2 (Z.eqb_neq p 0)), (get_thread_ok s p t Ht), bind_ok by done. cbv zeta.
  set (t1 := set_next (set_state t THREAD_READY) 0). set (s1 := put_thread s p t1).
  assert (chain next (threads s1) (run_queue s1) l) as Hc1 by (by apply chain_store).
  assert (current_thread s = 0 ∨ current_thread s ∈ l ++ [p]) as Hcur' by (rewrite elem_of_app; tauto).
  destruct (Z.eqb_spec (run_queue s1) 0) as [E|E].
  - apply wp_ok. destruct l as [|e l]; [|destruct Hc as (<- & ? & _); done].
    split; [|split; [apply states_put|done]]. split; [|done]. split; [done|]. split; [done|].
    exists t1. simpl. by rewrite lookup_insert_eq.
  - apply wp_bind. eapply wp_mono; [apply (queue_tail_ok s1 l); [done|]|].
    { intros ->. done. }
    intros z (pre & ->). destruct (chain_elem _ _ _ z Hc1) as [Hz [tz Htz]]; [in_list|].
    rewrite (get_thread_ok s1 z tz Htz), bind_ok. apply wp_ok. split; [|split; [|done]].
    + split; [|done]. by apply chain_snoc.
    + rewrite (states_same s1 z tz) by done. apply states_put.
Qed.

(** The thread added keeps everything but its state and link. *)
Lemma scheduler_add_thread s l p t : queued s l → p ≠ 0 → threads s !! p = Some t → (p ∉ l) →
  scheduler_add s p ⇓ λ s', ∃ t', threads s' !! p = Some t' ∧
    instruction_pointer t' = instruction_pointer t ∧ process_id t' = process_id t.
Proof.
  intros [Hc Hcur] H0 Ht Hp. unfold scheduler_add.
  rewrite (proj2 (Z.eqb_neq p 0)), (get_thread_ok s p t Ht), bind_ok by done. cbv zeta.
  set (t1 := set_next (set_state t THREAD_READY) 0). set (s1 := put_thread s p t1).
  assert (threads s1 !! p = Some t1) as Ht1 by apply lookup_insert_eq.
  assert (chain next (threads s1) (run_queue s1) l) as Hc1 by (by apply chain_store).
  destruct (Z.eqb_spec (run_queue s1) 0) as [E|E]; [apply wp_ok; by exists t1|].
  apply wp_bind. eapply wp_mono; [apply (queue_tail_ok s1 l); [done|]|]; [by intros ->|].
  intros z (pre & ->). destruct (chain_elem _ _ _ z Hc1) as [Hz [tz Htz]]; [in_list|].
  rewrite (get_thread_ok s1 z tz Htz), bind_ok. apply wp_ok. exists t1. split; [|done].
  assert (z ≠ p) by (intros ->; apply Hp; in_list). simpl. rewrite lookup_insert_ne by done. exact Ht1.
Qed.

Lemma remove_here_ok s l1 p l2 : queued s (l1 ++ p :: l2) →
  remove_here s (default 0 (last l1)) p ⇓ λ s', queued s' (l1 ++ l2) ∧ states s' = states s ∧
    current_thread s' = if decide (current_thread s = p) then 0 else current_thread s.
Proof.
  intros [Hc Hcur]. pose proof (chain_NoDup _ _ _ Hc) as Hnd.
  destruct (chain_elem _ _ _ p Hc) as [H0 [t Ht]]; [in_list|]. unfold remove_here.
  rewrite (get_thread_ok s p t Ht), bind_ok.
  assert ((if default 0 (last l1) =? 0 then Ok (set_queue s (next t))
           else q ← get_thread s (default 0 (last l1)); Ok (put_thread s (default 0 (last l1)) (set_next q (next t)))) ⇓
    λ s1, threads s1 !! p = Some t ∧ states s1 = states s ∧ current_thread s1 = current_thread s ∧
      run_queue s1 = (if decide (l1 = []) then next t else run_queue s) ∧
      ∀ q m, q ∈ l1 ++ l2 → threads s !! q = Some m → ∃ m', threads s1 !! q = Some m' ∧
        next m' = if decide (last l1 = Some q) then next t else next m) as Hlink.
  { destruct (last l1) as [z|] eqn:Ez; simpl.
    - assert (z ∈ l1) as Hz by (by apply last_Some_elem_of).
      destruct (chain_elem _ _ _ z Hc) as [Hz0 [tz Htz]]; [in_list|].
      assert (z ≠ p) as Hzp. { intros ->. apply NoDup_app in Hnd as (_ & Hd & _). apply (Hd p Hz). left. }
      rewrite (proj2 (Z.eqb_neq z 0)), (get_thread_ok s z tz Htz), bind_ok by done. apply wp_ok. simpl.
      split; [by rewrite lookup_insert_ne|]. split; [by rewrite (states_same s z tz)|]. split; [done|].
      split; [destruct l1; [done|]; by rewrite decide_False|]. intros q m Hq Hm. destruct (decide (q = z)) as [->|Hne].
      + rewrite lookup_insert_eq. eexists. split; [done|]. by rewrite decide_True.
      + rewrite lookup_insert_ne by done. exists m. split; [done|]. rewrite decide_False; congruence.
    - apply last_None in Ez as ->. simpl. apply wp_ok. split; [done|]. split; [done|]. split; [done|]. split; [done|].
      intros q m _ Hm. exists m. by split. }
  apply wp_bind. eapply wp_mono; [exact Hlink|]. intros s1 (Ht1 & Hst & Hcr & Hrq & Hnx).
  rewrite (get_thread_ok s1 p t Ht1), bind_ok. cbv zeta. apply wp_ok.
  set (s2 := put_thread s1 p (set_next t 0)).
  assert (p ∉ l1 ++ l2) as Hpn. { rewrite <-Permutation_middle in Hnd. by apply NoDup_cons in Hnd as [? _]. }
  assert (chain next (threads s2) (run_queue s2) (l1 ++ l2)) as Hc2.
  { simpl. rewrite Hrq. apply chain_store; [|done]. by eapply chain_remove. }
  assert (states s2 = states s) as Hst2 by (unfold s2; by rewrite (states_same s1 p t)).
  assert (current_thread s2 = current_thread s) as Hcur2 by done.
  destruct (Z.eqb_spec (current_thread s2) p) as [E|E].
  - rewrite decide_True by congruence. split; [|by split]. split; [done|by left].
  - rewrite decide_False by congruence. split; [|by split]. split; [done|]. rewrite Hcur2.
    destruct Hcur as [?|Hin]; [by left|right]. revert Hin. rewrite !elem_of_app, elem_of_cons. rewrite Hcur2 in E. tauto.
Qed.

Lemma scheduler_remove_ok s l p : queued s l →
  scheduler_remove s p ⇓ λ s', ((p ∉ l) ∧ s' = s) ∨
    ∃ l1 l2, l = l1 ++ p :: l2 ∧ (p ∉ l1) ∧ queued s' (l1 ++ l2) ∧ states s' = states s ∧
      current_thread s' = if decide (current_thread s = p) then 0 else current_thread s.
Proof.
  intros Hq. pose proof Hq as [Hc _]. unfold scheduler_remove.
  apply (wp_walk (nx := next) (threads s) (λ pre c '(prev, cur), cur = c ∧ prev = default 0 (last pre) ∧ p ∉ pre))
    with (a := run_queue s) (l := l);
    [done|pose proof (chain_length _ _ _ Hc); unfold list_fuel; lia|by split_and!; [..|apply not_elem_of_nil]| |].
  - intros pre c n post [prev cur] -> H0 Hn (-> & -> & Hpre). rewrite (proj2 (Z.eqb_neq c 0)) by done.
    destruct (Z.eqb_spec c p) as [->|Hcp].
    + apply wp_bind. eapply wp_mono; [by apply (remove_here_ok s pre p post)|]. intros s' Hs'. apply wp_ok. right. by exists pre, post.
    + rewrite (get_thread_ok s c n Hn), bind_ok. apply wp_ok. split; [done|]. split; [by rewrite last_snoc|].
      rewrite elem_of_app, list_elem_of_singleton. intros [?|?]; congruence.
  - intros [prev cur] (-> & _ & Hl). apply wp_ok. by left.
Qed.

Definition ready (x : gmap Z thread_state_t) (p : Z) : Prop := runnable <$> x !! p = Some true.
#[global] Instance ready_dec x p : Decision (ready x p).
Proof. unfold ready. apply _. Defined.

Lemma runnable_count_ok s l : queued s l → scheduler_runnable_count s = Ok (u64 (zlen (filter (ready (states s)) l))).
Proof.
  intros [Hc _]. unfold scheduler_runnable_count.
  match goal with |- ?m = Ok ?v => assert (m ⇓ λ r, r = v) as (r & -> & ->); [|done] end.
  apply (wp_walk (nx := next) (threads s)
           (λ pre c '(t, n), t = c ∧ n = u64 (zlen (filter (ready (states s)) pre))))
    with (a := run_queue s) (l := l);
    [done|pose proof (chain_length _ _ _ Hc); unfold list_fuel; lia|by split| |].
  - intros pre p n post [t k] -> H0 Hn [-> ->]. unfold thread_is_runnable.
    rewrite (proj2 (Z.eqb_neq p 0)), (get_thread_ok s p n Hn), !bind_ok by done. apply wp_ok. split; [done|].
    rewrite filter_app. assert (ready (states s) p ↔ runnable (state n) = true) as Hr.
    { unfold ready, states. rewrite lookup_fmap, Hn. simpl. split; congruence. }
    destruct (runnable (state n)) eqn:E.
    + rewrite filter_cons_True by (by apply Hr). unfold u64, zlen. rewrite Zplus_mod_idemp_l. f_equal. rewrite length_app. simpl. lia.
    + rewrite filter_cons_False by (rewrite Hr; congruence). by rewrite app_nil_r.
  - intros [t k] [-> ->]. by apply wp_ok.
Qed.

(** *** Refinement of a round-robin queue *)

Record rr := { rq : list Z; cur : Z; st : gmap Z thread_state_t }.

Inductive sched_op :=
  | Add (t : Z) | Remove (t : Z) | SetState (t : Z) (x : thread_state_t) | Pick | Yield | Count.

Definition exec (s : sched) (o : sched_op) : outcome (Z * sched) :=
  match o with
  | Add t => s ← scheduler_add s t; Ok (0, s)
  | Remove t => s ← scheduler_remove s t; Ok (0, s)
  | SetState t x => s ← thread_set_state s t x; Ok (0, s)
  | Pick => scheduler_pick_next s
  | Yield => s ← scheduler_yield s; Ok (scheduler_current s, s)
  | Count => n ← scheduler_runnable_count s; Ok (n, s)
  end.

Definition rr_pick (a : rr) : Z * rr :=
  match first_runnable (st a) (turn_order (cur a) (rq a)) with
  | Some c => (c, {| rq := rq a; cur := c; st := <[c := THREAD_RUNNING]> (st a) |})
  | None => (0, a)
  end.

(** The running thread goes back to ready before the next one is picked. *)
Definition rr_release (a : rr) : rr :=
  if decide (cur a ≠ 0 ∧ st a !! cur a = Some THREAD_RUNNING)
  then {| rq := rq a; cur := cur a; st := <[cur a := THREAD_READY]> (st a) |} else a.

Definition rr_step (a : rr) (o : sched_op) : Z * rr :=
  match o with
  | Add t => (0, {| rq := rq a ++ [t]; cur := cur a; st := <[t := THREAD_READY]> (st a) |})
  | Remove t =>
      (0, if decide (t ∈ rq a)
          then {| rq := filter (λ p, p ≠ t) (rq a); cur := if decide (cur a = t) then 0 else cur a; st := st a |}
          else a)
  | SetState t x => (0, if decide (t = 0) then a else {| rq := rq a; cur := cur a; st := <[t := x]> (st a) |})
  | Pick => rr_pick a
  | Yield => let a' := (rr_pick (rr_release a)).2 in (cur a', a')
  | Count => (u64 (zlen (filter (ready (st a)) (rq a))), a)
  end.

(** The callers' duty: only existing threads, and none is queued twice. *)
Definition op_ok (a : rr) (o : sched_op) : Prop :=
  match o with
  | Add t => t ≠ 0 ∧ is_Some (st a !! t) ∧ (t ∉ rq a)
  | SetState t _ => t = 0 ∨ is_Some (st a !! t)
  | _ => True
  end.

(** [s] represents [a]. *)
Definition models (s : sched) (a : rr) : Prop := queued s (rq a) ∧ cur a = current_thread s ∧ st a = states s.

Lemma states_some s p : is_Some (states s !! p) ↔ is_Some (threads s !! p).
Proof. unfold states. rewrite lookup_fmap. by rewrite fmap_is_Some. Qed.

Lemma rr_eta a : {| rq := rq a; cur := cur a; st := st a |} = a.
Proof. by destruct a. Qed.

Lemma pick_models s a : models s a → scheduler_pick_next s ⇓ λ '(r, s'), r = (rr_pick a).1 ∧ models s' (rr_pick a).2.
Proof.
  intros (Hq & Hcur & Hst). rewrite (pick_next_ok s (rq a)) by done. apply wp_ok. unfold rr_pick. rewrite Hst, Hcur.
  destruct (first_runnable _ _) as [c|] eqn:E; [|by split]. split; [done|]. apply first_runnable_elem in E as [Hin _].
  rewrite (turn_order_perm s (rq a) Hq) in Hin. destruct (dispatch_ok s (rq a) c Hq Hin) as [Hq' Hs']. by split_and!.
Qed.

Lemma release_models s a : models s a →
  (if negb (current_thread s =? 0) then
     t ← get_thread s (current_thread s);
     if bool_decide (state t = THREAD_RUNNING)
     then Ok (put_thread s (current_thread s) (set_state t THREAD_READY)) else Ok s
   else Ok s) ⇓ λ s', models s' (rr_release a).
Proof.
  intros (Hq & Hcur & Hst). pose proof Hq as [Hc Hin]. unfold rr_release. rewrite Hcur, Hst.
  destruct (Z.eqb_spec (current_thread s) 0) as [E|E]; cbn [negb].
  { rewrite decide_False by tauto. by apply wp_ok. }
  destruct Hin as [?|Hin]; [done|]. destruct (chain_elem _ _ _ _ Hc Hin) as [_ [t Ht]].
  rewrite (get_thread_ok s _ t Ht), bind_ok. assert (states s !! current_thread s = Some (state t)) as Hs.
  { unfold states. by rewrite lookup_fmap, Ht. }
  rewrite Hs. case_bool_decide as Er; apply wp_ok.
  - rewrite decide_True by (by rewrite Er). split_and!; [|done|by rewrite states_put]. split; [|by right].
    apply chain_store; [done|]. by eauto.
  - rewrite decide_False; [done|]. intros [_ [= ?]]. done.
Qed.

Lemma filter_absent (t : Z) (l : list Z) : t ∉ l → filter (λ p, p ≠ t) l = l.
Proof.
  induction l as [|q l IH]; intros Hn; [done|]. apply not_elem_of_cons in Hn as [Hq Hn].
  rewrite filter_cons_True by done. by rewrite IH.
Qed.

Lemma sched_exec_ok s a o : models s a → op_ok a o →
  exec s o ⇓ λ '(r, s'), r = (rr_step a o).1 ∧ models s' (rr_step a o).2.
Proof.
  intros Hm Hok. pose proof Hm as (Hq & Hcur & Hst). destruct o as [t|t|t x| | |]; cbn [exec rr_step fst snd].
  - destruct Hok as (H0 & Hex & Hin). rewrite Hst, states_some in Hex. apply wp_bind.
    eapply wp_mono; [by apply (scheduler_add_ok s (rq a))|]. intros s' (Hq' & Hs' & Hc'). apply wp_ok. split; [done|].
    split_and!; [done|simpl; congruence|simpl; congruence].
  - apply wp_bind. eapply wp_mono; [by apply (scheduler_remove_ok s (rq a) t)|].
    intros s' [[Hin ->]|(l1 & l2 & El & Hl1 & Hq' & Hs' & Hc')]; apply wp_ok; (split; [done|]).
    + by rewrite decide_False.
    + rewrite decide_True by (rewrite El; in_list). rewrite Hcur. split_and!; [|done|simpl; congruence]. simpl.
      destruct Hq as [Hc _]. rewrite El in Hc |- *. pose proof (chain_NoDup _ _ _ Hc) as Hnd.
      assert (t ∉ l1 ++ l2) as Ht. { rewrite <-Permutation_middle in Hnd. by apply NoDup_cons in Hnd as [? _]. }
      rewrite filter_app, filter_cons_False by tauto. by rewrite <-filter_app, filter_absent.
  - apply wp_bind. destruct (decide (t = 0)) as [->|H0].
    { unfold thread_set_state. simpl. apply wp_ok. apply wp_ok. by split. }
    destruct Hok as [?|Hex]; [done|]. rewrite Hst in Hex. pose proof (proj1 (states_some _ _) Hex) as Hex'. rewrite set_state_ok by done.
    apply wp_ok. apply wp_ok.
    split; [done|]. split_and!; [|done|].
    + destruct Hq as [Hc Hin]. split; [by apply alter_chain|done].
    + simpl. rewrite states_alter, Hst. apply map_eq. intros q. destruct (decide (q = t)) as [->|].
      * rewrite lookup_insert_eq, lookup_alter_eq. by destruct Hex as [y ->].
      * by rewrite lookup_insert_ne, lookup_alter_ne.
  - by apply pick_models.
  - unfold scheduler_yield. apply wp_bind, wp_bind. eapply wp_mono; [by apply (release_models s a)|]. intros s1 Hm1.
    apply wp_bind. eapply wp_mono; [by apply (pick_models s1 (rr_release a))|]. intros [r s2] (_ & Hm2). apply wp_ok, wp_ok.
    split; [|done]. by destruct Hm2 as (_ & -> & _).
  - rewrite (runnable_count_ok s (rq a)), bind_ok by done. apply wp_ok. by rewrite Hst.
Qed.

Fixpoint run (s : sched) (os : list sched_op) : outcome (list Z * sched) :=
  match os with
  | [] => Ok ([], s)
  | o :: os => '(r, s) ← exec s o; '(rs, s) ← run s os; Ok (r :: rs, s)
  end.

Fixpoint rr_run (a : rr) (os : list sched_op) : list Z * rr :=
  match os with
  | [] => ([], a)
  | o :: os => let '(r, a) := rr_step a o in let '(rs, a) := rr_run a os in (r :: rs, a)
  end.

Fixpoint ops_ok (a : rr) (os : list sched_op) : Prop :=
  match os with
  | [] => True
  | o :: os => op_ok a o ∧ ops_ok (rr_step a o).2 os
  end.

Lemma sched_run_ok s a os : models s a → ops_ok a os →
  run s os ⇓ λ '(rs, s'), rs = (rr_run a os).1 ∧ models s' (rr_run a os).2.
Proof.
  revert s a. induction os as [|o os IH]; intros s a Hm Hok; cbn [run rr_run]; [by apply wp_ok|].
  destruct Hok as [Ho Hos]. apply wp_bind. eapply wp_mono; [by apply (sched_exec_ok s a)|]. intros [r s1] [-> Hm1].
  destruct (rr_step a o) as [r a1]. cbn [fst snd] in *. apply wp_bind. eapply wp_mono; [by apply (IH s1 a1)|].
  intros [rs s2] [-> Hm2]. destruct (rr_run a1 os) as [rs a2]. by apply wp_ok.
Qed.

Lemma init_models s : models (scheduler_init s) {| rq := []; cur := 0; st := states s |}.
Proof. split_and!; [|done..]. split; [done|by left]. Qed.

(** C13: Every sequence of scheduler_add, scheduler_remove, scheduler_pick_next, scheduler_yield
    and thread state changes on the run queue gives the threads that a round robin over a list
    of threads gives: the next one picked is the first runnable thread behind the current one,
    in queue order and round the end. *)
Theorem scheduler_refines_round_robin s os :
  let a := {| rq := []; cur := 0; st := states s |} in
  ops_ok a os →
  run (scheduler_init s) os ⇓ λ '(rs, s'), rs = (rr_run a os).1 ∧ models s' (rr_run a os).2.
Proof. intros a Hok. apply sched_run_ok; [apply init_models|done]. Qed.

(** *** Fairness *)

(** [n] yields in a row. *)
Fixpoint yields (n : nat) (s : sched) : outcome sched :=
  match n with O => Ok s | S n => s ← scheduler_yield s; yields n s end.

(** The place of [t] in the turn order tells how long it waits at most. *)
Lemma ready_release a p : ready (st (rr_release a)) p ↔ ready (st a) p.
Proof.
  unfold rr_release. case_decide as E; [|done]. unfold ready. simpl. destruct (decide (p = cur a)) as [->|].
  - destruct E as [_ ->]. by rewrite lookup_insert_eq.
  - by rewrite lookup_insert_ne.
Qed.

Lemma first_runnable_split x l p :
  ready x p → p ∈ l → ∃ d c t, l = d ++ c :: t ∧ first_runnable x l = Some c ∧ ready x c ∧ (p ∉ d).
Proof.
  intros Hr Hin. induction l as [|q l IH]; [by apply not_elem_of_nil in Hin|]. cbn [first_runnable].
  case_decide as E; [exists [], q, l; split_and!; [done..|apply not_elem_of_nil]|].
  apply elem_of_cons in Hin as [->|Hin]; [done|]. destruct (IH Hin) as (d & c & t & -> & -> & Hc & Hd).
  exists (q :: d), c, t. split_and!; [done..|]. apply not_elem_of_cons. split; [|done]. intros ->. done.
Qed.

(** After [c] was picked the order begins behind it. *)
Lemma turn_order_next A B d c t :
  NoDup (A ++ B) → B ++ A = d ++ c :: t → turn_order c (A ++ B) = t ++ d ++ [c].
Proof.
  intros Hnd Hrot. unfold turn_order. assert (∀ l1 l2, A ++ B = l1 ++ c :: l2 → after c [] (A ++ B) = l2 ++ l1 ++ [c]) as Hs.
  { intros l1 l2 E. rewrite E in *. rewrite after_split; [done|]. intros Hin. apply NoDup_app in Hnd as (_ & Hd & _).
    apply (Hd _ Hin). left. }
  apply app_eq_app in Hrot as [k [[-> Ht]|[-> ->]]].
  - destruct k as [|c' k]; simpl in Ht.
    + subst A. rewrite app_nil_r in *. rewrite (Hs [] (t ++ d)) by done. by rewrite <-app_assoc.
    + injection Ht as <- ->. rewrite (Hs (A ++ d) k) by (by rewrite <-app_assoc). by rewrite <-!app_assoc.
  - rewrite (Hs k (t ++ B)) by (by rewrite <-app_assoc). by rewrite <-!app_assoc.
Qed.

Lemma yield_models s a : models s a → scheduler_yield s ⇓ λ s', models s' (rr_step a Yield).2.
Proof.
  intros Hm. destruct (sched_exec_ok s a Yield Hm I) as ([r s'] & E & _ & Hm'). cbn [exec] in E.
  apply bind_inv in E as (s1 & E1 & [= _ ->]). exists s'. by split.
Qed.

(** One yield brings [p] nearer. *)
Lemma yield_turn s a p u v :
  models s a → ready (st a) p → turn_order (cur a) (rq a) = u ++ p :: v →
  let a' := (rr_step a Yield).2 in
  ready (st a') p ∧ (cur a' = p ∨ ∃ u' v', turn_order (cur a') (rq a') = u' ++ p :: v' ∧ (length u' < length u)%nat).
Proof.
  intros (Hq & Hcur & Hst) Hr HT a'. assert (ready (st (rr_release a)) p) as Hr1 by (by apply ready_release).
  assert (cur (rr_release a) = cur a ∧ rq (rr_release a) = rq a) as [Ecur Erq] by (unfold rr_release; by case_decide).
  destruct (first_runnable_split (st (rr_release a)) (turn_order (cur a) (rq a)) p) as (d & c & t & Hsp & Hf & Hc & Hd).
  { done. } { rewrite HT. in_list. }
  assert (a' = {| rq := rq a; cur := c; st := <[c := THREAD_RUNNING]> (st (rr_release a)) |}) as ->.
  { unfold a'. cbn [rr_step snd]. unfold rr_pick. by rewrite Ecur, Erq, Hf. }
  cbn [st cur rq]. split.
  { unfold ready in *. destruct (decide (p = c)) as [->|]; [by rewrite lookup_insert_eq|by rewrite lookup_insert_ne]. }
  destruct (decide (c = p)) as [|Hcp]; [by left|right].
  destruct (turn_order_cut s (rq a) Hq) as (A & B & El & Hrot & _). rewrite <-Hcur in Hrot.
  assert (NoDup (A ++ B)) as Hnd by (rewrite <-El; destruct Hq as [Hch _]; by eapply chain_NoDup).
  rewrite El, (turn_order_next A B d c t) by (done || congruence).
  assert (u ++ p :: v = (d ++ [c]) ++ t) as E by (rewrite <-app_assoc; simpl; congruence).
  apply app_eq_app in E as [k [[Eu Et]|[Eu Et]]].
  - exists k, (v ++ d ++ [c]). rewrite Et, <-app_assoc. split; [done|]. rewrite Eu, !length_app. simpl. lia.
  - destruct k as [|p' k]; simpl in Et.
    + exists [], (v ++ d ++ [c]). subst t. split; [done|]. rewrite app_nil_r in Eu. rewrite <-Eu. rewrite length_app. simpl. lia.
    + injection Et as <- _. assert (p ∈ d ++ [c]) as Hin by (rewrite Eu; in_list).
      rewrite elem_of_app, list_elem_of_singleton in Hin. destruct Hin; congruence.
Qed.

Lemma yields_reach n s a p u v :
  models s a → ready (st a) p → turn_order (cur a) (rq a) = u ++ p :: v → (length u ≤ n)%nat →
  ∃ k, (1 ≤ k ≤ S (length u))%nat ∧ yields k s ⇓ λ s', current_thread s' = p.
Proof.
  revert s a u v. induction n as [|n IH]; intros s a u v Hm Hr HT Hn;
    destruct (yield_models s a Hm) as (s1 & E1 & Hm1);
    destruct (yield_turn s a p u v Hm Hr HT) as (Hr1 & [Hc|(u' & v' & HT' & Hlt)]); try lia.
  1,2: exists 1%nat; split; [lia|]; cbn [yields]; rewrite E1, bind_ok; apply wp_ok; by destruct Hm1 as (_ & <- & _).
  destruct (IH s1 _ u' v' Hm1 Hr1 HT') as (k & Hk & Hy); [lia|]. exists (S k). split; [lia|]. cbn [yields].
  by rewrite E1, bind_ok.
Qed.

(** C33: A runnable thread in the run queue becomes the current one after at most as many calls
    of scheduler_yield as the queue has threads: no thread starves. *)
Theorem scheduler_fair s l p :
  queued s l → p ∈ l → can_run s p →
  ∃ k, (1 ≤ k ≤ length l)%nat ∧ yields k s ⇓ λ s', scheduler_current s' = p.
Proof.
  intros Hq Hin (t & Ht & Hrun). set (a := {| rq := l; cur := current_thread s; st := states s |}).
  assert (p ∈ turn_order (cur a) (rq a)) as HT by (unfold a; cbn [cur rq]; by rewrite (turn_order_perm s l Hq)).
  apply list_elem_of_split in HT as (u & v & HT).
  destruct (yields_reach (length u) s a p u v) as (k & Hk & Hy); [by split_and!| |done|done|].
  { unfold ready. simpl. unfold states. rewrite lookup_fmap, Ht. simpl. by rewrite Hrun. }
  exists k. split; [|done]. assert (length u < length l)%nat; [|lia].
  rewrite <-(turn_order_perm s l Hq). change (turn_order _ _) with (turn_order (cur a) (rq a)). rewrite HT, length_app. simpl. lia.
Qed.

(** *** Three threads *)

Definition sample_thread (i : Z) : thread_t :=
  {| tid := i; process_id := 1; state := THREAD_NEW; stack_top := 0; instruction_pointer := 0;
     exit_code := 0; wake_tick := 0; next := 0 |}.
Definition sample_threads : sched :=
  {| threads := <[4096 := sample_thread 1]> (<[8192 := sample_thread 2]> {[12288 := sample_thread 3]});
     next_tid := 4; run_queue := 0; current_thread := 0 |}.
Definition sample_sched_ops : list sched_op :=
  [Add 4096; Add 8192; Add 12288; Yield; Yield; SetState 12288 THREAD_BLOCKED; Yield; Count; Remove 4096; Pick; Yield].

Lemma scheduler_refines_round_robin_witness :
  run (scheduler_init sample_threads) sample_sched_ops ⇓ λ '(rs, _), rs = [0; 0; 0; 4096; 8192; 0; 4096; 2; 0; 8192; 8192].
Proof.
  eapply wp_mono; [apply (scheduler_refines_round_robin sample_threads sample_sched_ops)|].
  - vm_compute. split_and!; try done; (eexists; reflexivity) || (intros H; by repeat (apply elem_of_cons in H as [?|H] || apply elem_of_nil in H)) || by right; eexists.
  - intros [rs s'] [-> _]. vm_compute. reflexivity.
Defined.

Lemma scheduler_fair_witness :
  ∃ s, run (scheduler_init sample_threads) [Add 4096; Add 8192; Add 12288; Yield] = Ok ([0; 0; 0; 4096], s) ∧
  ∃ k, (1 ≤ k ≤ 3)%nat ∧ yields k s ⇓ λ s', scheduler_current s' = 12288.
Proof.
  eexists. split; [vm_compute; reflexivity|]. apply (scheduler_fair _ [4096; 8192; 12288]).
  - split; [|right; left]. repeat (split; [reflexivity|]; split; [discriminate|]; eexists; split; [reflexivity|]). reflexivity.
  - right. right. left.
  - eexists. split; reflexivity.
Defined.

End Sched.
