(* ===== verification/Elf.v ===== *)
(** The ELF loader's checks (kernel/proc/elf.h, elf_loader.c) on an arbitrary image. *)
From S2P Require Import Prelude KString Bytes.

Module Elf.
Import Bytes.

Definition ELF_MAGIC : Z := 0x464C457F.
Definition ELF_CLASS_64 : Z := 2.
Definition ELF_DATA_LSB : Z := 1.
Definition ELF_MACHINE_X86_64 : Z := 0x3E.
Definition ELF_PT_LOAD : Z := 1.
Definition UINTPTR_MAX : Z := 2 ^ 64 - 1.

(** The members the loader reads; [EHDR] and [PHDR] are the sizes of the structs. *)
Definition EHDR : Z := 64.
Definition PHDR : Z := 56.

Record elf64_header_t := {
  magic : Z; class : Z; data : Z; machine : Z; entry : Z; phoff : Z; ehsize : Z; phentsize : Z; phnum : Z
}.
Record elf64_program_header_t := { type : Z; offset : Z; vaddr : Z; filesz : Z; memsz : Z }.
Record elf_load_result_t := { res_entry : Z; lowest_vaddr : Z; highest_vaddr : Z }.

Definition load_header (image : list Z) : outcome elf64_header_t :=
  magic ← load_le 4 image 0;
  class ← load_le 1 image 4;
  data ← load_le 1 image 5;
  machine ← load_le 2 image 18;
  entry ← load_le 8 image 24;
  phoff ← load_le 8 image 32;
  ehsize ← load_le 2 image 52;
  phentsize ← load_le 2 image 54;
  phnum ← load_le 2 image 56;
  Ok {| magic := magic; class := class; data := data; machine := machine; entry := entry; phoff := phoff;
        ehsize := ehsize; phentsize := phentsize; phnum := phnum |}.

Definition load_program (image : list Z) (off : Z) : outcome elf64_program_header_t :=
  type ← load_le 4 image off;
  offset ← load_le 8 image (off + 8);
  vaddr ← load_le 8 image (off + 16);
  filesz ← load_le 8 image (off + 32);
  memsz ← load_le 8 image (off + 40);
  Ok {| type := type; offset := offset; vaddr := vaddr; filesz := filesz; memsz := memsz |}.

Definition elf64_validate (image : option (list Z)) (size : Z) : outcome bool :=
  match image with
  | None => Ok false
  | Some image =>
      if size <? EHDR then Ok false
      else
        h ← load_header image;
        if negb (magic h =? ELF_MAGIC) || negb (class h =? ELF_CLASS_64) || negb (data h =? ELF_DATA_LSB) ||
           negb (machine h =? ELF_MACHINE_X86_64) || negb (ehsize h =? EHDR) || negb (phentsize h =? PHDR) ||
           (phnum h =? 0) || (size <? phoff h)
        then Ok false
        else q ← udiv (u64 (size - phoff h)) (phentsize h); Ok (phnum h <=? q)
  end.

(** One program header: [inr] rejects the image, [inl] goes on with the new bounds. *)
Definition check_program (size : Z) (ph : elf64_program_header_t) (low high : Z) : Z * Z + unit :=
  if negb (type ph =? ELF_PT_LOAD) then inl (low, high)
  else if (size <? offset ph) || (u64 (size - offset ph) <? filesz ph) || (memsz ph <? filesz ph) ||
          (u64 (vaddr ph + memsz ph) <? vaddr ph)
  then inr tt
  else if memsz ph =? 0 then inl (low, high)
  else inl (if vaddr ph <? low then vaddr ph else low,
            if high <? u64 (vaddr ph + memsz ph) then u64 (vaddr ph + memsz ph) else high).

(** [process] is only compared with NULL; the second result is what is stored through
    [result]. *)
Definition elf_load_process (process : Z) (image : option (list Z)) (size : Z)
  : outcome (Z * option elf_load_result_t) :=
  if process =? 0 then Ok (-1, None)
  else
    valid ← elf64_validate image size;
    match image with
    | Some image =>
        if negb valid then Ok (-1, None)
        else
          h ← load_header image;
          r ← for_loop 0 (phnum h)
                (λ index '(low, high),
                   let off := u64 (phoff h + u64 (index * phentsize h)) in
                   if size <? u64 (off + PHDR) then Ok (inr tt)
                   else ph ← load_program image off; Ok (check_program size ph low high))
                (UINTPTR_MAX, 0);
          match r with
          | inr _ => Ok (-1, None)
          | inl (low, high) =>
              if (low =? UINTPTR_MAX) || (entry h <? low) || (high <=? entry h) then Ok (-1, None)
              else Ok (0, Some {| res_entry := entry h; lowest_vaddr := if low =? UINTPTR_MAX then 0 else low;
                                  highest_vaddr := high |})
          end
    | None => Ok (-1, None)
    end.

(** ** What an acceptable image is *)

Definition header (image : list Z) : elf64_header_t :=
  {| magic := field 4 image 0; class := field 1 image 4; data := field 1 image 5; machine := field 2 image 18;
     entry := field 8 image 24; phoff := field 8 image 32; ehsize := field 2 image 52;
     phentsize := field 2 image 54; phnum := field 2 image 56 |}.
Definition program (image : list Z) (off : Z) : elf64_program_header_t :=
  {| type := field 4 image off; offset := field 8 image (off + 8); vaddr := field 8 image (off + 16);
     filesz := field 8 image (off + 32); memsz := field 8 image (off + 40) |}.

(** The program headers of the image. *)
Definition programs (image : list Z) : list elf64_program_header_t :=
  (λ i, program image (phoff (header image) + PHDR * i)) <$> seqZ 0 (phnum (header image)).

Definition header_ok (image : list Z) (size : Z) : Prop :=
  let h := header image in
  EHDR ≤ size ∧ magic h = ELF_MAGIC ∧ class h = ELF_CLASS_64 ∧ data h = ELF_DATA_LSB ∧ machine h = ELF_MACHINE_X86_64 ∧
  ehsize h = EHDR ∧ phentsize h = PHDR ∧ 0 < phnum h ∧ phoff h + PHDR * phnum h ≤ size.

(** A loadable segment: its bytes lie in the image and its memory does not wrap. *)
Definition segment_ok (size : Z) (ph : elf64_program_header_t) : Prop :=
  type ph = ELF_PT_LOAD → offset ph + filesz ph ≤ size ∧ filesz ph ≤ memsz ph ∧ vaddr ph + memsz ph < 2 ^ 64.

(** It takes up memory. *)
Definition occupies (ph : elf64_program_header_t) : Prop := type ph = ELF_PT_LOAD ∧ memsz ph ≠ 0.
#[global] Instance occupies_dec ph : Decision (occupies ph).
Proof. unfold occupies. apply _. Defined.

Definition low_of (phs : list elf64_program_header_t) : Z :=
  foldl (λ low ph, if decide (occupies ph) then Z.min low (vaddr ph) else low) UINTPTR_MAX phs.
Definition high_of (phs : list elf64_program_header_t) : Z :=
  foldl (λ high ph, if decide (occupies ph) then Z.max high (vaddr ph + memsz ph) else high) 0 phs.

Definition acceptable (image : list Z) (size : Z) : Prop :=
  header_ok image size ∧ Forall (segment_ok size) (programs image) ∧
  low_of (programs image) ≤ entry (header image) < high_of (programs image).

(** ** Correctness *)

Lemma low_of_snoc phs ph :
  low_of (phs ++ [ph]) = if decide (occupies ph) then Z.min (low_of phs) (vaddr ph) else low_of phs.
Proof. unfold low_of. by rewrite foldl_app. Qed.
Lemma high_of_snoc phs ph :
  high_of (phs ++ [ph]) = if decide (occupies ph) then Z.max (high_of phs) (vaddr ph + memsz ph) else high_of phs.
Proof. unfold high_of. by rewrite foldl_app. Qed.

Lemma high_of_bound size phs : Forall (segment_ok size) phs → high_of phs < 2 ^ 64.
Proof.
  induction phs as [|ph phs IH] using rev_ind; [done|]. intros [Hall Hl]%Forall_app. apply Forall_cons in Hl as [Hph _].
  rewrite high_of_snoc. specialize (IH Hall). case_decide as Ho; [|done]. destruct (Hph (proj1 Ho)) as (_ & _ & ?). lia.
Qed.

(** The bounds enclose every segment and are reached. *)
Lemma bounds_enclose phs ph : ph ∈ phs → occupies ph → low_of phs ≤ vaddr ph ∧ vaddr ph + memsz ph ≤ high_of phs.
Proof.
  induction phs as [|q phs IH] using rev_ind; [by intros ?%not_elem_of_nil|]. rewrite low_of_snoc, high_of_snoc.
  rewrite elem_of_app, list_elem_of_singleton. intros [Hin| ->] Ho.
  - specialize (IH Hin Ho). case_decide; lia.
  - rewrite !decide_True by done. lia.
Qed.

Lemma bounds_reached phs : low_of phs ≠ UINTPTR_MAX → 0 < high_of phs →
  (∃ ph, ph ∈ phs ∧ occupies ph ∧ vaddr ph = low_of phs) ∧
  (∃ ph, ph ∈ phs ∧ occupies ph ∧ vaddr ph + memsz ph = high_of phs).
Proof.
  intros Hl Hh. split.
  - clear Hh. induction phs as [|q phs IH] using rev_ind; [done|]. rewrite low_of_snoc in *. case_decide as Ho.
    + destruct (Z.min_spec (low_of phs) (vaddr q)) as [[? E]|[? E]]; rewrite E in *.
      * destruct (IH Hl) as (ph & Hin & ? & ?). exists ph. split; [in_list|done].
      * exists q. split; [in_list|done].
    + destruct (IH Hl) as (ph & Hin & ? & ?). exists ph. split; [in_list|done].
  - clear Hl. induction phs as [|q phs IH] using rev_ind; [done|]. rewrite high_of_snoc in *. case_decide as Ho.
    + destruct (Z.max_spec (high_of phs) (vaddr q + memsz q)) as [[? E]|[? E]]; rewrite E in *.
      * exists q. split; [in_list|done].
      * destruct (IH Hh) as (ph & Hin & ? & ?). exists ph. split; [in_list|done].
    + destruct (IH Hh) as (ph & Hin & ? & ?). exists ph. split; [in_list|done].
Qed.

Section Image.
Context (image : list Z) (size : Z).
Context (Hbytes : Forall (λ b, 0 ≤ b < 256) image) (Hsize : 0 ≤ size ≤ zlen image) (Hmax : size < 2 ^ 63).

Lemma load_header_ok : EHDR ≤ size → load_header image = Ok (header image).
Proof. intros Hs. unfold EHDR in Hs. unfold load_header. by rewrite !load_le_ok, ?bind_ok by lia. Qed.

Lemma load_program_ok off : 0 ≤ off → off + PHDR ≤ size → load_program image off = Ok (program image off).
Proof. intros Ho Hs. unfold PHDR in Hs. unfold load_program. by rewrite !load_le_ok, ?bind_ok by lia. Qed.

Lemma field8 off : 0 ≤ field 8 image off < 2 ^ 64.
Proof. pose proof (field_range 8 image off Hbytes). lia. Qed.
Lemma field2 off : 0 ≤ field 2 image off < 65536.
Proof. pose proof (field_range 2 image off Hbytes). lia. Qed.

Lemma validate_ok : elf64_validate (Some image) size ⇓ λ b, b = true ↔ header_ok image size.
Proof.
  unfold elf64_validate. destruct (Z.ltb_spec size EHDR) as [Hs|Hs].
  { apply wp_ok. unfold header_ok. split; [done|]. intros (? & _). lia. }
  rewrite load_header_ok, bind_ok by done. pose proof (field8 32) as Hph. pose proof (field2 56) as Hpn.
  assert (0 ≤ phoff (header image) < 2 ^ 64) as Hph' by done.
  assert (0 ≤ phnum (header image) < 65536) as Hpn' by done. clear Hph Hpn.
  destruct (negb _ || _ || _ || _ || _ || _ || _ || _) eqn:E.
  - apply wp_ok. split; [done|]. unfold header_ok, PHDR in *. intros Hok. exfalso. lia.
  - assert (phentsize (header image) = PHDR ∧ phoff (header image) ≤ size) as [Hpe Hpo] by lia.
    rewrite Hpe. unfold udiv, PHDR. change (56 =? 0) with false. cbv iota. rewrite bind_ok. apply wp_ok. rewrite u64_small by lia.
    unfold header_ok, PHDR, EHDR in *. rewrite Z.leb_le. split.
    + intros Hq. split_and!; try lia. pose proof (Z.mul_div_le (size - phoff (header image)) 56). lia.
    + intros Hok. apply Z.div_le_lower_bound; lia.
Qed.

Lemma check_program_ok ph low high :
  0 ≤ offset ph < 2 ^ 64 → 0 ≤ vaddr ph < 2 ^ 64 → 0 ≤ filesz ph < 2 ^ 64 → 0 ≤ memsz ph < 2 ^ 64 →
  match check_program size ph low high with
  | inr _ => ¬ segment_ok size ph
  | inl (l, h) => segment_ok size ph ∧
      l = (if decide (occupies ph) then Z.min low (vaddr ph) else low) ∧
      h = (if decide (occupies ph) then Z.max high (vaddr ph + memsz ph) else high)
  end.
Proof.
  intros Ho Hv Hf Hm. unfold check_program, segment_ok, occupies. destruct (Z.eqb_spec (type ph) ELF_PT_LOAD) as [Et|Et]; cbn [negb].
  2:{ rewrite !decide_False by tauto. tauto. }
  assert ((u64 (vaddr ph + memsz ph) <? vaddr ph) = (2 ^ 64 <=? vaddr ph + memsz ph)) as Hw.
  { unfold u64. destruct (Z.leb_spec (2 ^ 64) (vaddr ph + memsz ph)).
    - apply Z.ltb_lt. replace ((vaddr ph + memsz ph) mod 2 ^ 64) with (vaddr ph + memsz ph - 2 ^ 64); [lia|].
      apply (Z.mod_unique_pos _ _ 1); lia.
    - rewrite Z.mod_small by lia. apply Z.ltb_ge. lia. }
  rewrite Hw. destruct ((size <? offset ph) || _ || _ || _) eqn:E.
  - intros Hok. specialize (Hok Et). destruct (Z.ltb_spec size (offset ph)); [lia|].
    rewrite u64_small in E by lia. lia.
  - assert (offset ph ≤ size) by lia. rewrite u64_small in E by lia.
    assert (vaddr ph + memsz ph < 2 ^ 64) by lia. rewrite u64_small by lia.
    destruct (Z.eqb_spec (memsz ph) 0) as [Ez|Ez].
    + rewrite !decide_False by tauto. split; [intros _; lia|done].
    + rewrite !decide_True by done. split; [intros _; lia|]. split.
      * destruct (Z.ltb_spec (vaddr ph) low); lia.
      * destruct (Z.ltb_spec high (vaddr ph + memsz ph)); lia.
Qed.

Lemma programs_lookup i : 0 ≤ i < phnum (header image) →
  programs image !! Z.to_nat i = Some (program image (phoff (header image) + PHDR * i)).
Proof.
  intros Hi. unfold programs. rewrite list_lookup_fmap, lookup_seqZ_lt by lia. cbn [fmap option_fmap option_map]. by rewrite Z2Nat.id, Z.add_0_l by lia.
Qed.

Lemma length_programs : length (programs image) = Z.to_nat (phnum (header image)).
Proof. unfold programs. by rewrite length_fmap, length_seqZ. Qed.

Lemma elf_load_ok process : process ≠ 0 →
  elf_load_process process (Some image) size ⇓ λ '(r, res),
    (r = -1 ∧ res = None ∧ ¬ acceptable image size) ∨
    (r = 0 ∧ acceptable image size ∧
     res = Some {| res_entry := entry (header image); lowest_vaddr := low_of (programs image);
                   highest_vaddr := high_of (programs image) |}).
Proof.
  intros Hp. unfold elf_load_process. rewrite (proj2 (Z.eqb_neq process 0)) by done.
  apply wp_bind. eapply wp_mono; [apply validate_ok|]. intros b Hb.
  destruct b; cbn [negb]; [|apply wp_ok; left; split; [done|]; split; [done|]; intros (Hh & _); by apply Hb in Hh].
  assert (header_ok image size) as Hh by (by apply Hb). clear Hb.
  pose proof Hh as (Hs & _ & _ & _ & _ & _ & Hpe & Hpn & Hpo). rewrite load_header_ok, bind_ok by done.
  pose proof (field8 32) as Hpo0. change (field 8 image 32) with (phoff (header image)) in Hpo0.
  apply wp_bind. apply (wp_for (λ i '(low, high), Forall (segment_ok size) (take (Z.to_nat i) (programs image)) ∧
    low = low_of (take (Z.to_nat i) (programs image)) ∧ high = high_of (take (Z.to_nat i) (programs image)))); [lia|done| |].
  - intros i [low high] Hi (Hok & -> & ->). rewrite Hpe. unfold PHDR in *.
    rewrite (u64_small (i * 56)), (u64_small (phoff (header image) + i * 56)) by lia. rewrite u64_small by lia.
    destruct (Z.ltb_spec size (phoff (header image) + i * 56 + 56)); [lia|].
    rewrite load_program_ok, bind_ok by (unfold PHDR; lia). apply wp_ok.
    pose proof (programs_lookup i Hi) as Hl. unfold PHDR in Hl. rewrite (Z.mul_comm 56 i) in Hl.
    set (ph := program image (phoff (header image) + i * 56)) in *.
    pose proof (check_program_ok ph (low_of (take (Z.to_nat i) (programs image))) (high_of (take (Z.to_nat i) (programs image)))
      (field8 _) (field8 _) (field8 _) (field8 _)) as Hc.
    destruct (check_program _ _ _ _) as [[l h]|[]].
    + destruct Hc as (Hseg & -> & ->). replace (Z.to_nat (i + 1)) with (S (Z.to_nat i)) by lia.
      rewrite (take_S_r _ _ ph) by done. split; [apply Forall_app; split; [done|by constructor]|].
      unfold low_of, high_of. rewrite !foldl_app. done.
    + apply wp_ok. left. split; [done|]. split; [done|]. intros (_ & Hall & _).
      apply Hc. by eapply (Forall_lookup_1 _ _ (Z.to_nat i)).
  - intros [low high] (Hok & -> & ->).
    rewrite (take_ge (programs image)) by (rewrite length_programs; lia).
    rewrite (take_ge (programs image)) in Hok by (rewrite length_programs; lia).
    destruct (_ || _ || _) eqn:E; apply wp_ok.
    + left. split; [done|]. split; [done|]. intros (_ & _ & Hent).
      pose proof (field8 24) as He. change (field 8 image 24) with (entry (header image)) in He.
      assert (low_of (programs image) = UINTPTR_MAX) as Elow by lia.
      pose proof (high_of_bound size _ Hok). unfold UINTPTR_MAX in *. lia.
    + right. split; [done|]. split; [split; [done|]; split; [done|lia]|].
      destruct (Z.eqb_spec (low_of (programs image)) UINTPTR_MAX); [lia|done].
Qed.

End Image.

(** C26: elf_load_process on any byte image of the stated size never reads outside it,
    terminates, and accepts exactly the images whose header is valid, whose segments lie in the
    file and do not wrap, and whose entry point lies in the loaded range; it then returns the
    entry point and the lowest and highest address of the loadable segments. *)
Theorem elf_load_process_correct process image size :
  process ≠ 0 → Forall (λ b, 0 ≤ b < 256) image → 0 ≤ size ≤ zlen image → size < 2 ^ 63 →
  elf_load_process process (Some image) size ⇓ λ '(r, res),
    (r = -1 ∧ res = None ∧ ¬ acceptable image size) ∨
    ∃ x, r = 0 ∧ res = Some x ∧ acceptable image size ∧
      res_entry x = entry (header image) ∧ lowest_vaddr x ≤ res_entry x < highest_vaddr x ∧
      (∀ ph, ph ∈ programs image → occupies ph →
         offset ph + filesz ph ≤ size ∧ filesz ph ≤ memsz ph ∧
         lowest_vaddr x ≤ vaddr ph ∧ vaddr ph + memsz ph ≤ highest_vaddr x) ∧
      (∃ ph, ph ∈ programs image ∧ occupies ph ∧ vaddr ph = lowest_vaddr x) ∧
      (∃ ph, ph ∈ programs image ∧ occupies ph ∧ vaddr ph + memsz ph = highest_vaddr x).
Proof.
  intros Hp Hb Hs Hm. eapply wp_mono; [by apply elf_load_ok|].
  intros [r res] [?|(-> & Hacc & ->)]; [by left|right]. eexists. split; [done|]. split; [done|]. split; [done|]. simpl.
  pose proof Hacc as (_ & Hall & Hent). split; [done|]. split; [done|].
  pose proof (high_of_bound _ _ Hall). pose proof (field8 image Hb 24) as He.
  change (field 8 image 24) with (entry (header image)) in He. split; [|apply bounds_reached; unfold UINTPTR_MAX; lia].
  intros ph Hin Ho. pose proof (proj1 (Forall_forall _ _) Hall ph Hin (proj1 Ho)). pose proof (bounds_enclose _ _ Hin Ho). lia.
Qed.

(** One segment of 16 bytes at address 0x400000, entered at its fourth byte. *)
Definition sample_image : list Z :=
  [127; 69; 76; 70; 2; 1; 1; 0] ++ replicate 8 0 ++ [2; 0; 62; 0; 1; 0; 0; 0] ++
  [4; 0; 64; 0; 0; 0; 0; 0] ++ [64; 0; 0; 0; 0; 0; 0; 0] ++ replicate 8 0 ++ [0; 0; 0; 0; 64; 0; 56; 0] ++
  [1; 0; 64; 0; 0; 0; 0; 0] ++
  [1; 0; 0; 0; 5; 0; 0; 0] ++ [120; 0; 0; 0; 0; 0; 0; 0] ++ [0; 0; 64; 0; 0; 0; 0; 0] ++ replicate 8 0 ++
  [16; 0; 0; 0; 0; 0; 0; 0] ++ [32; 0; 0; 0; 0; 0; 0; 0] ++ replicate 8 0 ++ replicate 16 144.

Lemma elf_load_process_correct_witness :
  elf_load_process 1 (Some sample_image) 136 =
    Ok (0, Some {| res_entry := 4194308; lowest_vaddr := 4194304; highest_vaddr := 4194336 |}) ∧
  acceptable sample_image 136.
Proof.
  destruct (elf_load_process_correct 1 sample_image 136) as ([r res] & E & Hr); [done| |by vm_compute|done|].
  { apply (bool_decide_unpack _). by vm_compute. }
  assert (elf_load_process 1 (Some sample_image) 136 =
    Ok (0, Some {| res_entry := 4194308; lowest_vaddr := 4194304; highest_vaddr := 4194336 |})) as E' by (by vm_compute).
  split; [done|]. rewrite E' in E. injection E as <- <-. by destruct Hr as [(? & _)|(x & _ & _ & Hacc & _)].
Defined.

End Elf.
