(* ===== verification/Proc.v ===== *)
(** Processes (kernel/proc/process.c), waiting (wait.c) and starting a program (exec.c).

    A process pointer is a key of [processes] (0 is NULL); the process list is linked
    through the [next] fields.  The heap is anything that satisfies [Allocator]. *)
From S2P Require Import Prelude Chain KString Heap Signal Sched Elf.

Module Proc.
Import KString Sched.
Import Heap(Allocator, al_repr, al_calloc, al_free, al_repr_perm, al_repr_range, al_calloc_spec, al_free_spec, al_free_null).

Definition PROCESS_NAME_MAX : Z := 32.

Inductive process_state_t := PROCESS_NEW | PROCESS_READY | PROCESS_RUNNING | PROCESS_WAITING | PROCESS_ZOMBIE.
#[global] Instance process_state_eq_dec : EqDecision process_state_t.
Proof. solve_decision. Defined.

Record process_t := {
  pid : Z;
  parent_pid : Z;
  name : list Z;
  pstate : process_state_t;
  pexit_code : Z;
  address_space : Z;
  signals : Signal.signal_state_t;
  main_thread : Z;
  pnext : Z
}.

Definition PROCESS_SIZE : Z := 344.

Definition set_name (p : process_t) (x : list Z) : process_t :=
  {| pid := pid p; parent_pid := parent_pid p; name := x; pstate := pstate p; pexit_code := pexit_code p;
     address_space := address_space p; signals := signals p; main_thread := main_thread p; pnext := pnext p |}.
Definition set_pstate (p : process_t) (x : process_state_t) : process_t :=
  {| pid := pid p; parent_pid := parent_pid p; name := name p; pstate := x; pexit_code := pexit_code p;
     address_space := address_space p; signals := signals p; main_thread := main_thread p; pnext := pnext p |}.
Definition set_code (p : process_t) (x : Z) : process_t :=
  {| pid := pid p; parent_pid := parent_pid p; name := name p; pstate := pstate p; pexit_code := x;
     address_space := address_space p; signals := signals p; main_thread := main_thread p; pnext := pnext p |}.
Definition set_thread (p : process_t) (x : Z) : process_t :=
  {| pid := pid p; parent_pid := parent_pid p; name := name p; pstate := pstate p; pexit_code := pexit_code p;
     address_space := address_space p; signals := signals p; main_thread := x; pnext := pnext p |}.
Definition set_pnext (p : process_t) (x : Z) : process_t :=
  {| pid := pid p; parent_pid := parent_pid p; name := name p; pstate := pstate p; pexit_code := pexit_code p;
     address_space := address_space p; signals := signals p; main_thread := main_thread p; pnext := x |}.
Definition set_signals (p : process_t) (x : Signal.signal_state_t) : process_t :=
  {| pid := pid p; parent_pid := parent_pid p; name := name p; pstate := pstate p; pexit_code := pexit_code p;
     address_space := address_space p; signals := x; main_thread := main_thread p; pnext := pnext p |}.

Definition zero_signals : Signal.signal_state_t :=
  {| Signal.pending_mask := 0; Signal.blocked_mask := 0; Signal.handlers := replicate (Z.to_nat Signal.SIG_MAX) 0 |}.

(** The name field, cut to what it holds: the lines [process_create] and [exec_image]
    share. *)
Definition copy_name (field nm : list Z) : outcome (list Z) :=
  len ← strlen (Some nm);
  let len := if PROCESS_NAME_MAX <=? len then PROCESS_NAME_MAX - 1 else len in
  field ← memcpy field 0 nm 0 len;
  zset field len 0.

Section Proc.
Context {H : Type} `{AL : Allocator H}.

Record procs := {
  processes : gmap Z process_t;
  process_list : Z;
  current_process : Z;
  next_pid : Z;
  sch : sched;
  heap : H
}.

Definition set_processes (s : procs) (x : gmap Z process_t) : procs :=
  {| processes := x; process_list := process_list s; current_process := current_process s; next_pid := next_pid s;
     sch := sch s; heap := heap s |}.
Definition set_plist (s : procs) (x : Z) : procs :=
  {| processes := processes s; process_list := x; current_process := current_process s; next_pid := next_pid s;
     sch := sch s; heap := heap s |}.
Definition process_set_current (s : procs) (x : Z) : procs :=
  {| processes := processes s; process_list := process_list s; current_process := x; next_pid := next_pid s;
     sch := sch s; heap := heap s |}.
Definition set_next_pid (s : procs) (x : Z) : procs :=
  {| processes := processes s; process_list := process_list s; current_process := current_process s; next_pid := x;
     sch := sch s; heap := heap s |}.
Definition set_sch (s : procs) (x : sched) : procs :=
  {| processes := processes s; process_list := process_list s; current_process := current_process s;
     next_pid := next_pid s; sch := x; heap := heap s |}.
Definition set_heap (s : procs) (x : H) : procs :=
  {| processes := processes s; process_list := process_list s; current_process := current_process s;
     next_pid := next_pid s; sch := sch s; heap := x |}.

Definition get_process (s : procs) (p : Z) : outcome process_t :=
  match processes s !! p with Some x => Ok x | None => Undef end.
Definition put_process (s : procs) (p : Z) (x : process_t) : procs := set_processes s (<[p := x]> (processes s)).

(** ** kernel/proc/process.c *)

Definition process_system_init (s : procs) : procs :=
  set_sch (set_next_pid (process_set_current (set_plist s 0) 0) 1) (thread_system_init (sch s)).

(** [kernel_space] is what [addr_space_kernel()] returns. *)
Definition process_create (s : procs) (nm : option (list Z)) (parent kernel_space : Z) : outcome (Z * procs) :=
  '(p, h) ← al_calloc (heap s) 1 PROCESS_SIZE;
  let s := set_heap s h in
  if p =? 0 then Ok (0, s)
  else
    field ← (match nm with
             | None => Ok (replicate (Z.to_nat PROCESS_NAME_MAX) 0)
             | Some nm => copy_name (replicate (Z.to_nat PROCESS_NAME_MAX) 0) nm
             end);
    let x := {| pid := next_pid s; parent_pid := parent; name := field; pstate := PROCESS_NEW; pexit_code := 0;
                address_space := kernel_space; signals := zero_signals; main_thread := 0; pnext := process_list s |} in
    let s := set_plist (put_process (set_next_pid s (u64 (next_pid s + 1))) p x) p in
    Ok (p, if current_process s =? 0 then process_set_current s p else s).

Definition list_fuel (s : procs) : nat := S (S (base.size (processes s))).

(** [*cursor = process->next] where the cursor is the link of [prev], or the head of the
    list when [prev] is 0. *)
Definition unlink_here (s : procs) (prev process : Z) : outcome procs :=
  x ← get_process s process;
  if prev =? 0 then Ok (set_plist s (pnext x))
  else q ← get_process s prev; Ok (put_process s prev (set_pnext q (pnext x))).

Definition unlink_process (s : procs) (process : Z) : outcome procs :=
  loop (list_fuel s)
    (λ '(prev, cur),
       if cur =? 0 then Ok (inr s)
       else if cur =? process then s ← unlink_here s prev process; Ok (inr s)
       else x ← get_process s cur; Ok (inl (cur, pnext x))) (0, process_list s).

Definition process_destroy (s : procs) (process : Z) : outcome procs :=
  if process =? 0 then Ok s
  else
    s ← unlink_process s process;
    let s := if current_process s =? process then process_set_current s (process_list s) else s in
    x ← get_process s process;
    '(sc, h) ← thread_destroy (sch s) (heap s) (main_thread x);
    h ← al_free h process;
    Ok (set_heap (set_sch (set_processes s (delete process (processes s))) sc) h).

Definition process_find (s : procs) (id : Z) : outcome Z :=
  loop (list_fuel s)
    (λ cur, if cur =? 0 then Ok (inr 0)
            else x ← get_process s cur; if pid x =? id then Ok (inr cur) else Ok (inl (pnext x)))
    (process_list s).

Definition process_current (s : procs) : Z := current_process s.
Definition process_first (s : procs) : Z := process_list s.

Definition process_exit (s : procs) (process code : Z) : outcome procs :=
  let process := if process =? 0 then current_process s else process in
  if process =? 0 then Ok s
  else
    x ← get_process s process;
    let s := put_process s process (set_pstate (set_code x code) PROCESS_ZOMBIE) in
    if main_thread x =? 0 then Ok s
    else
      t ← get_thread (sch s) (main_thread x);
      Ok (set_sch s (put_thread (sch s) (main_thread x) (set_state (set_exit_code t code) THREAD_EXITED))).

Definition process_is_alive (s : procs) (process : Z) : outcome bool :=
  if process =? 0 then Ok false
  else x ← get_process s process; Ok (negb (bool_decide (pstate x = PROCESS_ZOMBIE))).

(** ** kernel/proc/wait.c: the result is the pid and exit code stored through [result]. *)

Definition wait_for_pid (s : procs) (id : Z) : outcome (Z * option (Z * Z) * procs) :=
  process ← process_find s id;
  if process =? 0 then Ok (-1, None, s)
  else
    x ← get_process s process;
    if decide (pstate x ≠ PROCESS_ZOMBIE) then Ok (-1, None, s)
    else s ← process_destroy s process; Ok (0, Some (pid x, pexit_code x), s).

Definition wait_any_child (s : procs) (parent : Z) : outcome (Z * option (Z * Z) * procs) :=
  loop (list_fuel s)
    (λ cur, if cur =? 0 then Ok (inr (-1, None, s))
            else
              x ← get_process s cur;
              if (parent_pid x =? parent) && bool_decide (pstate x = PROCESS_ZOMBIE)
              then r ← wait_for_pid s (pid x); Ok (inr r)
              else Ok (inl (pnext x)))
    (process_first s).

(** ** kernel/proc/exec.c *)

Definition exec_image (s : procs) (process : Z) (nm : option (list Z)) (image : option (list Z)) (size : Z)
  : outcome (Z * procs) :=
  '(r, loaded) ← Elf.elf_load_process process image size;
  if negb (r =? 0) then Ok (-1, s)
  else match loaded with
  | None => Undef
  | Some loaded =>
      s ← (match nm with
           | None => Ok s
           | Some nm =>
               x ← get_process s process;
               field ← copy_name (name x) nm;
               Ok (put_process s process (set_name x field))
           end);
      x ← get_process s process;
      '(ok, s) ←
        (if main_thread x =? 0 then
           '(t, sc, h) ← thread_create (sch s) (heap s) (pid x) (Elf.res_entry loaded) 0;
           let s := put_process (set_heap (set_sch s sc) h) process (set_thread x t) in
           if t =? 0 then Ok (false, s)
           else sc ← scheduler_add (sch s) t; Ok (true, set_sch s sc)
         else
           t ← get_thread (sch s) (main_thread x);
           Ok (true, set_sch s (put_thread (sch s) (main_thread x) (set_ip t (Elf.res_entry loaded)))));
      if negb ok then Ok (-1, s)
      else
        x ← get_process s process;
        Ok (0, put_process s process (set_pstate x PROCESS_READY))
  end.

(** ** Correctness *)

(** What a process looks like from outside: its pid, its parent's, and the exit code of a
    zombie. *)
Record entry := { e_pid : Z; e_parent : Z; e_code : option Z }.
Definition entry_of (x : process_t) : entry :=
  {| e_pid := pid x; e_parent := parent_pid x;
     e_code := if decide (pstate x = PROCESS_ZOMBIE) then Some (pexit_code x) else None |}.
Definition entry_at (s : procs) (p : Z) : entry :=
  match processes s !! p with Some x => entry_of x | None => {| e_pid := 0; e_parent := 0; e_code := None |} end.

(** The processes [l], newest first, are all there are; none has a thread yet.  [other]
    are the blocks the rest of the kernel has on the heap. *)
Definition table (s : procs) (l : list Z) (other : list (Z * Z)) : Prop :=
  chain pnext (processes s) (process_list s) l ∧
  (∀ p x, processes s !! p = Some x → p ∈ l ∧ main_thread x = 0 ∧ 0 < pid x < next_pid s) ∧
  NoDup (e_pid <$> (entry_at s <$> l)) ∧
  (current_process s = 0 ∨ current_process s ∈ l) ∧
  ∃ bl, bl.*1 = l ∧ al_repr (heap s) (bl ++ other).

Lemma get_process_ok s p x : processes s !! p = Some x → get_process s p = Ok x.
Proof. intros Hx. unfold get_process. by rewrite Hx. Qed.

Lemma entry_at_ok s p x : processes s !! p = Some x → entry_at s p = entry_of x.
Proof. intros Hx. unfold entry_at. by rewrite Hx. Qed.

Lemma copy_process_name_ok nb nm f : is_cstr nb nm → zlen nm < 2 ^ 63 → zlen f = PROCESS_NAME_MAX →
  copy_name f nb ⇓ λ f', zlen f' = PROCESS_NAME_MAX.
Proof.
  intros Hnb Hl Hf. unfold copy_name. rewrite (strlen_ok nb nm), bind_ok by (done || lia). cbv zeta.
  pose proof (is_cstr_length _ _ Hnb) as Hlen. assert (0 ≤ zlen nm) by (unfold zlen; lia). unfold PROCESS_NAME_MAX in *.
  change (32 - 1) with 31. set (k := if 32 <=? zlen nm then 31 else zlen nm).
  assert (0 ≤ k < 32 ∧ k ≤ zlen nm) as Hk by (unfold k; destruct (Z.leb_spec 32 (zlen nm)); lia). clearbody k.
  rewrite memcpy_ok, bind_ok by (unfold zlen in *; lia).
  assert (zlen (splice f 0 (slice nb 0 k)) = zlen f) as Hs.
  { unfold zlen at 1. rewrite length_splice; [done|lia|]. unfold zlen at 1. rewrite length_slice by (unfold zlen in *; lia). lia. }
  apply wp_zset; [lia|]. rewrite zlen_insert. lia.
Qed.

(** *** Finding a process *)

Lemma list_walk {R} s l (J : list Z → Prop) (body : Z → outcome (Z + R)) (Q : R → Prop) :
  chain pnext (processes s) (process_list s) l → J [] →
  (∀ pre p x post, l = pre ++ p :: post → processes s !! p = Some x → p ≠ 0 → J pre →
     body p ⇓ λ r, match r with inl c => c = pnext x ∧ J (pre ++ [p]) | inr v => Q v end) →
  (J l → body 0 ⇓ λ r, match r with inl _ => False | inr v => Q v end) →
  loop (list_fuel s) body (process_list s) ⇓ Q.
Proof.
  intros Hc HJ Hstep Hend.
  apply (wp_walk (nx := pnext) (processes s) (λ pre c cur, cur = c ∧ J pre)) with (a := process_list s) (l := l);
    [done|pose proof (chain_length _ _ _ Hc); unfold list_fuel; lia|by split| |].
  - intros pre p x post c Hl Hp Hx [-> Hj]. eapply wp_mono; [by eapply Hstep|]. intros [c|v]; [|done]. intros [-> ?]. by split.
  - intros c [-> Hj]. by apply Hend.
Qed.

Lemma process_find_ok s l other id : table s l other →
  process_find s id ⇓ λ p,
    (p = 0 ∧ ∀ q, q ∈ l → e_pid (entry_at s q) ≠ id) ∨
    (∃ pre post x, l = pre ++ p :: post ∧ p ≠ 0 ∧ processes s !! p = Some x ∧ pid x = id).
Proof.
  intros (Hc & _). unfold process_find.
  apply (list_walk s l (λ pre, ∀ q, q ∈ pre → e_pid (entry_at s q) ≠ id)); [done|by intros q ?%not_elem_of_nil| |].
  - intros pre p x post -> Hx Hp HJ. rewrite (proj2 (Z.eqb_neq p 0)), (get_process_ok s p x Hx), bind_ok by done.
    destruct (Z.eqb_spec (pid x) id) as [E|E]; apply wp_ok.
    + right. by exists pre, post, x.
    + split; [done|]. intros q. rewrite elem_of_app, list_elem_of_singleton. intros [?| ->]; [by apply HJ|].
      by rewrite (entry_at_ok s p x).
  - intros HJ. apply wp_ok. by left.
Qed.

(** *** The operations *)

(** A new map of the entries of [l]. *)
Lemma entries_ext s s' (l : list Z) : (∀ q, q ∈ l → entry_at s' q = entry_at s q) → entry_at s' <$> l = entry_at s <$> l.
Proof. intros He. apply list_fmap_ext. intros i q Hq. apply He. by eapply list_elem_of_lookup_2. Qed.

Lemma process_create_sch s nm parent space p s' :
  process_create s nm parent space = Ok (p, s') → sch s' = sch s.
Proof.
  unfold process_create. intros ([q h] & _ & E)%bind_inv. cbv zeta in E. destruct (q =? 0); [by injection E as <- <-|].
  apply bind_inv in E as (n & _ & [= <- <-]). by destruct (current_process s =? 0).
Qed.

Lemma process_create_ok s l other nm parent space :
  table s l other → 0 < next_pid s < 2 ^ 64 - 1 →
  (∀ nb, nm = Some nb → ∃ t, is_cstr nb t ∧ zlen t < 2 ^ 63) →
  process_create s nm parent space ⇓ λ '(p, s'),
    (p = 0 ∧ table s' l other ∧ next_pid s' = next_pid s ∧ entry_at s' <$> l = entry_at s <$> l) ∨
    (p ≠ 0 ∧ table s' (p :: l) other ∧ next_pid s' = next_pid s + 1 ∧
     entry_at s' <$> (p :: l) = {| e_pid := next_pid s; e_parent := parent; e_code := None |} :: (entry_at s <$> l)).
Proof.
  intros (Hc & Hall & Hnd & Hcur & bl & Hbl & Ha) Hn Hnm. unfold process_create. apply wp_bind.
  eapply wp_mono; [apply al_calloc_spec; [exact Ha|unfold PROCESS_SIZE; lia..]|].
  intros [p h] [(-> & Ha')|(sz & Hp & _ & _ & Hfr & Ha')]; cbv zeta.
  { apply wp_ok. left. split; [done|]. split; [|done]. by split_and!; [..|exists bl]. }
  rewrite (proj2 (Z.eqb_neq p 0)) by lia. apply wp_bind.
  eapply (wp_mono _ (λ _, True)).
  { destruct nm as [nb|]; [|by apply wp_ok]. destruct (Hnm nb eq_refl) as (t & Ht & Htl).
    eapply wp_mono; [by apply (copy_process_name_ok nb t)|done]. }
  intros f _. apply wp_ok. right. split; [lia|].
  assert (processes s !! p = None) as Hfresh.
  { destruct (processes s !! p) as [x|] eqn:E; [|done]. destruct (Hall p x E) as [Hin _]. destruct Hfr.
    rewrite fmap_app. apply elem_of_app. left. by rewrite Hbl. }
  assert (p ∉ l) as Hpl.
  { intros Hin. destruct (chain_elem _ _ _ p Hc Hin) as [_ [x Hx]]. congruence. }
  set (x0 := {| pid := next_pid s; parent_pid := parent; name := f; pstate := PROCESS_NEW; pexit_code := 0;
                address_space := space; signals := zero_signals; main_thread := 0; pnext := process_list s |}).
  match goal with |- table ?s' _ _ ∧ _ => set (s1 := s') end.
  assert (processes s1 = <[p := x0]> (processes s) ∧ next_pid s1 = next_pid s + 1 ∧ process_list s1 = p ∧ heap s1 = h)
    as (Ep & En & Epl & Eh).
  { unfold s1. simpl. rewrite u64_small by lia. by destruct (current_process s =? 0). }
  assert (entry_at s1 <$> l = entry_at s <$> l) as Eo.
  { apply entries_ext. intros q Hq. unfold entry_at. rewrite Ep, lookup_insert_ne; [done|]. by intros ->. }
  assert (entry_at s1 p = {| e_pid := next_pid s; e_parent := parent; e_code := None |}) as Ee.
  { unfold entry_at. by rewrite Ep, lookup_insert_eq. }
  rewrite fmap_cons, Eo, Ee. split; [|done]. split_and!.
  - rewrite Ep, Epl. apply (chain_push _ (process_list s)); [exact Hc|done|lia|done].
  - intros q x. rewrite Ep, En. intros [[-> <-]|[Hne Hx]]%lookup_insert_Some; [split; [left|]; split; [done|simpl; lia]|].
    destruct (Hall q x Hx) as (? & ? & ?). split; [by right|]. split; [done|lia].
  - rewrite !fmap_cons, Eo, Ee. constructor; [|done]. simpl. intros (e & He & (q & -> & Hq)%list_elem_of_fmap)%list_elem_of_fmap.
    destruct (chain_elem _ _ _ q Hc Hq) as [_ [x Hx]]. rewrite (entry_at_ok s q x Hx) in He. destruct (Hall q x Hx) as (_ & _ & ?). simpl in He. lia.
  - unfold s1. simpl. destruct (Z.eqb_spec (current_process s) 0); simpl; [right; left|]. destruct Hcur; [by left|right; by right].
  - exists ((p, sz) :: bl). split; [by rewrite fmap_cons, Hbl|by rewrite Eh].
Qed.

Lemma process_exit_ok s l other p code : table s l other → p ∈ l →
  process_exit s p code ⇓ λ s', table s' l other ∧ next_pid s' = next_pid s ∧
    entry_at s' p = {| e_pid := e_pid (entry_at s p); e_parent := e_parent (entry_at s p); e_code := Some code |} ∧
    ∀ q, q ≠ p → entry_at s' q = entry_at s q.
Proof.
  intros (Hc & Hall & Hnd & Hcur & Hmem) Hin. destruct (chain_elem _ _ _ p Hc Hin) as [Hp [x Hx]].
  unfold process_exit. rewrite (proj2 (Z.eqb_neq p 0)) by done. cbv zeta. rewrite (proj2 (Z.eqb_neq p 0)) by done.
  rewrite (get_process_ok s p x Hx), bind_ok. destruct (Hall p x Hx) as (_ & Hmt & Hpid). rewrite Hmt. apply wp_ok.
  set (x' := set_pstate (set_code x code) PROCESS_ZOMBIE). set (s' := put_process s p x').
  assert (entry_at s' p = {| e_pid := e_pid (entry_at s p); e_parent := e_parent (entry_at s p); e_code := Some code |}) as Ee.
  { unfold entry_at, s'. simpl. by rewrite lookup_insert_eq, Hx. }
  assert (∀ q, q ≠ p → entry_at s' q = entry_at s q) as Eo.
  { intros q Hq. unfold entry_at, s'. simpl. by rewrite lookup_insert_ne. }
  split; [|done]. split_and!; [| | |done|done].
  - apply chain_store; [done|]. intros _. by exists x.
  - intros q y. simpl. intros [[-> <-]|[Hne Hy]]%lookup_insert_Some; [done|by apply Hall].
  - replace (e_pid <$> (entry_at s' <$> l)) with (e_pid <$> (entry_at s <$> l)); [done|].
    rewrite <-!list_fmap_compose. apply list_fmap_ext. intros i q _. simpl.
    destruct (decide (q = p)) as [->|]; [by rewrite Ee|by rewrite Eo].
Qed.

(** [s'] is [s] with [p] taken out of the list, which is now [l]; [x] is still there. *)
Definition unlinked (s s' : procs) (p : Z) (x : process_t) (l : list Z) : Prop :=
  chain pnext (processes s') (process_list s') l ∧ processes s' !! p = Some x ∧
  next_pid s' = next_pid s ∧ current_process s' = current_process s ∧ heap s' = heap s ∧ sch s' = sch s ∧
  ∀ q y', processes s' !! q = Some y' → ∃ y, processes s !! q = Some y ∧ main_thread y' = main_thread y ∧
     entry_of y' = entry_of y.

Lemma unlink_process_here_ok s pre p post x :
  chain pnext (processes s) (process_list s) (pre ++ p :: post) → processes s !! p = Some x →
  unlink_here s (default 0 (last pre)) p ⇓ λ s', unlinked s s' p x (pre ++ post).
Proof.
  intros Hc Hx. pose proof (chain_NoDup _ _ _ Hc) as Hnd. unfold unlink_here. rewrite (get_process_ok s p x Hx), bind_ok.
  destruct (last pre) as [z|] eqn:Ez; simpl.
  - assert (z ∈ pre) as Hz by (by apply last_Some_elem_of). destruct (chain_elem _ _ _ z Hc) as [Hz0 [y Hy]]; [in_list|].
    assert (z ≠ p) as Hzp. { intros ->. apply NoDup_app in Hnd as (_ & Hd & _). apply (Hd p Hz). left. }
    rewrite (proj2 (Z.eqb_neq z 0)), (get_process_ok s z y Hy), bind_ok by done. apply wp_ok. split_and!; try done; simpl.
    + assert (pre ≠ []) as Hne by (by destruct pre).
      pose proof (chain_remove (processes s) (<[z := set_pnext y (pnext x)]> (processes s)) pre p post (process_list s) x Hc Hx) as Hr.
      rewrite decide_False in Hr by done. apply Hr. intros q m Hq Hm. destruct (decide (q = z)) as [->|].
      * eexists. rewrite lookup_insert_eq. split; [done|]. by rewrite decide_True.
      * exists m. rewrite lookup_insert_ne by done. split; [done|]. rewrite decide_False; congruence.
    + by rewrite lookup_insert_ne.
    + intros q y' [[-> <-]|[? Hq]]%lookup_insert_Some; [by exists y|by exists y'].
  - apply last_None in Ez as ->. apply wp_ok. simpl in *. destruct Hc as (_ & _ & x' & Hx' & Hc). rewrite Hx in Hx'. injection Hx' as <-.
    split_and!; try done. intros q y' Hq. by exists y'.
Qed.

Lemma unlink_process_ok s pre p post x :
  chain pnext (processes s) (process_list s) (pre ++ p :: post) → processes s !! p = Some x →
  unlink_process s p ⇓ λ s', unlinked s s' p x (pre ++ post).
Proof.
  intros Hc Hx. unfold unlink_process. pose proof (chain_NoDup _ _ _ Hc) as Hnd.
  apply (wp_walk (nx := pnext) (processes s) (λ u c '(prev, cur), cur = c ∧ prev = default 0 (last u) ∧ p ∉ u))
    with (a := process_list s) (l := pre ++ p :: post);
    [done|pose proof (chain_length _ _ _ Hc); unfold list_fuel; lia|by split_and!; [..|apply not_elem_of_nil]| |].
  - intros u c y v [prev cur] El H0 Hy (-> & -> & Hu). rewrite (proj2 (Z.eqb_neq c 0)) by done.
    destruct (Z.eqb_spec c p) as [->|Hcp].
    + apply (split_unique p) in El as [<- <-]; [|apply NoDup_app in Hnd as (_ & Hd & _); intros Hin; apply (Hd _ Hin); left|done].
      apply wp_bind. eapply wp_mono; [by apply (unlink_process_here_ok s pre p post x)|]. intros s' Hs'. by apply wp_ok.
    + rewrite (get_process_ok s c y Hy), bind_ok. apply wp_ok. split; [done|]. split; [by rewrite last_snoc|].
      rewrite elem_of_app, list_elem_of_singleton. intros [?|?]; congruence.
  - intros [prev cur] (_ & _ & Hl). destruct Hl. in_list.
Qed.

Lemma process_destroy_ok s pre p post other : table s (pre ++ p :: post) other →
  process_destroy s p ⇓ λ s', table s' (pre ++ post) other ∧ next_pid s' = next_pid s ∧
    entry_at s' <$> (pre ++ post) = entry_at s <$> (pre ++ post).
Proof.
  intros (Hc & Hall & Hnd & Hcur & bl & Hbl & Ha). pose proof (chain_NoDup _ _ _ Hc) as Hndl.
  destruct (chain_elem _ _ _ p Hc) as [Hp [x Hx]]; [in_list|]. unfold process_destroy. rewrite (proj2 (Z.eqb_neq p 0)) by done.
  assert (p ∉ pre ++ post) as Hpn. { rewrite <-Permutation_middle in Hndl. by apply NoDup_cons in Hndl as [? _]. }
  apply wp_bind. eapply wp_mono; [by apply (unlink_process_ok s pre p post x)|].
  intros s1 (Hc1 & Hx1 & En1 & Ecur1 & Eh1 & Es1 & Hsame). cbv zeta.
  set (s2 := if current_process s1 =? p then process_set_current s1 (process_list s1) else s1).
  assert (processes s2 = processes s1 ∧ process_list s2 = process_list s1 ∧ next_pid s2 = next_pid s1 ∧ heap s2 = heap s1)
    as (Ep2 & El2 & En2 & Eh2) by (unfold s2; by destruct (current_process s1 =? p)).
  rewrite (get_process_ok s2 p x), bind_ok by (by rewrite Ep2). destruct (Hall p x Hx) as (_ & Hmt & _).
  unfold thread_destroy. rewrite Hmt, al_free_null, !bind_ok. apply wp_bind. rewrite Eh2, Eh1.
  assert (p ∈ bl.*1) as Hpb by (rewrite Hbl; in_list). apply list_elem_of_fmap in Hpb as ([p' sz] & -> & Hpb). simpl in *.
  apply list_elem_of_split in Hpb as (b1 & b2 & ->). rewrite fmap_app, fmap_cons in Hbl. simpl in Hbl.
  eapply wp_mono; [apply (al_free_spec _ (b1 ++ b2 ++ other) p' sz); eapply al_repr_perm; [|exact Ha]|].
  { rewrite <-!app_assoc. simpl. symmetry. apply Permutation_middle. }
  intros h Hh. apply wp_ok.
  set (s3 := set_heap _ h).
  assert (∀ q, q ≠ p' → entry_at s3 q = entry_at s q) as Eo.
  { intros q Hq. unfold entry_at, s3. simpl. rewrite lookup_delete_ne, Ep2 by done.
    destruct (processes s1 !! q) as [y'|] eqn:E.
    - destruct (Hsame q y' E) as (y & -> & _ & ->). done.
    - destruct (processes s !! q) as [y|] eqn:E2; [|done]. destruct (Hall q y E2) as [Hin _].
      destruct (chain_elem _ _ _ q Hc1) as [_ [? ?]]; [|congruence]. revert Hin. rewrite !elem_of_app, elem_of_cons. tauto. }
  assert (entry_at s3 <$> (pre ++ post) = entry_at s <$> (pre ++ post)) as Ee.
  { apply entries_ext. intros q Hq. apply Eo. intros ->. done. }
  split; [|split; [simpl; by rewrite En2|done]]. split_and!.
  - simpl. rewrite Ep2, El2. eapply chain_agree; [|exact Hc1]. intros q m Hq Hm. exists m. split; [|done].
    rewrite lookup_delete_ne; [done|]. intros ->. done.
  - simpl. intros q y' [Hne Hy]%lookup_delete_Some. rewrite Ep2 in Hy. destruct (Hsame q y' Hy) as (y & Hy0 & Hmt' & Hent).
    destruct (Hall q y Hy0) as (Hin & Hm0 & Hpid). rewrite En2, En1, Hmt'. assert (pid y' = pid y) as -> by (by apply (f_equal e_pid) in Hent).
    split; [|done]. revert Hin. rewrite !elem_of_app, elem_of_cons. intros [?|[->|?]]; [by left|done|by right].
  - rewrite Ee. rewrite <-Permutation_middle in Hnd. rewrite !fmap_cons in Hnd. by apply NoDup_cons in Hnd as [_ ?].
  - simpl. unfold s2. destruct (Z.eqb_spec (current_process s1) p') as [E|E]; simpl.
    + destruct (pre ++ post) as [|e r] eqn:El; [by left; destruct Hc1|right]. destruct Hc1 as (-> & _). left.
    + rewrite Ecur1 in *. destruct Hcur as [?|Hin]; [by left|right]. revert Hin. rewrite !elem_of_app, elem_of_cons. tauto.
  - exists (b1 ++ b2). split; [|simpl; by rewrite <-app_assoc]. rewrite fmap_app.
    apply (split_unique p') in Hbl as [-> ->]; [done| |intros Hin; apply Hpn; in_list].
    rewrite <-Hbl in Hndl. apply NoDup_app in Hndl as (_ & Hd & _). intros Hin. apply (Hd _ Hin). left.
Qed.

(** *** Refinement *)

(** The table as its users see it: the next pid, and the entries, newest first. *)
Record ptable := { nxt : Z; tbl : list entry }.

Inductive proc_op :=
  | Create (nm : option (list Z)) (parent : Z)
  | Exit (id code : Z)
  | WaitPid (id : Z)
  | WaitAny (parent : Z).

(** What the caller sees: a status or pid, and the pid and exit code collected. *)
Definition exec (space : Z) (s : procs) (o : proc_op) : outcome (Z * option (Z * Z) * procs) :=
  match o with
  | Create nm parent =>
      '(p, s) ← process_create s nm parent space;
      if p =? 0 then Ok (0, None, s) else x ← get_process s p; Ok (pid x, None, s)
  | Exit id code =>
      p ← process_find s id;
      if p =? 0 then Ok (-1, None, s) else s ← process_exit s p code; Ok (0, None, s)
  | WaitPid id => wait_for_pid s id
  | WaitAny parent => wait_any_child s parent
  end.

Definition set_zombie (id code : Z) (e : entry) : entry :=
  if decide (e_pid e = id) then {| e_pid := e_pid e; e_parent := e_parent e; e_code := Some code |} else e.

(** Collecting the zombie [e] of the table. *)
Definition collect (a : ptable) (e : entry) (r : Z * option (Z * Z)) (b : ptable) : Prop :=
  ∃ A1 A2 code, tbl a = A1 ++ e :: A2 ∧ e_code e = Some code ∧ r = (0, Some (e_pid e, code)) ∧
    b = {| nxt := nxt a; tbl := A1 ++ A2 |}.

Definition proc_spec (a : ptable) (o : proc_op) (r : Z * option (Z * Z)) (b : ptable) : Prop :=
  match o with
  | Create _ parent =>
      (r = (0, None) ∧ b = a) ∨
      (r = (nxt a, None) ∧
       b = {| nxt := nxt a + 1; tbl := {| e_pid := nxt a; e_parent := parent; e_code := None |} :: tbl a |})
  | Exit id code =>
      (r = (-1, None) ∧ b = a ∧ id ∉ e_pid <$> tbl a) ∨
      (r = (0, None) ∧ id ∈ e_pid <$> tbl a ∧ b = {| nxt := nxt a; tbl := set_zombie id code <$> tbl a |})
  | WaitPid id =>
      (r = (-1, None) ∧ b = a ∧ ∀ e, e ∈ tbl a → e_pid e = id → e_code e = None) ∨
      (∃ e, e_pid e = id ∧ collect a e r b)
  | WaitAny parent =>
      (r = (-1, None) ∧ b = a ∧ ∀ e, e ∈ tbl a → e_parent e = parent → e_code e = None) ∨
      (∃ e, e_parent e = parent ∧ collect a e r b)
  end.

(** [s] with the processes [l] shows the table [a]. *)
Definition shows (s : procs) (l : list Z) (other : list (Z * Z)) (a : ptable) : Prop :=
  table s l other ∧ nxt a = next_pid s ∧ tbl a = entry_at s <$> l.

Definition name_ok (o : proc_op) : Prop :=
  match o with Create (Some nb) _ => ∃ t, is_cstr nb t ∧ zlen t < 2 ^ 63 | _ => True end.

Lemma pid_unique s l q p :
  NoDup (e_pid <$> (entry_at s <$> l)) → q ∈ l → p ∈ l → e_pid (entry_at s q) = e_pid (entry_at s p) → q = p.
Proof.
  intros Hnd [i Hi]%list_elem_of_lookup [j Hj]%list_elem_of_lookup E. rewrite <-list_fmap_compose in Hnd.
  assert (i = j) as ->; [|congruence]. apply (NoDup_lookup _ i j (e_pid (entry_at s p)) Hnd); rewrite list_lookup_fmap.
  - rewrite Hi. simpl. congruence.
  - by rewrite Hj.
Qed.

Lemma wait_for_pid_ok s l other a id : shows s l other a →
  wait_for_pid s id ⇓ λ '(r, x, s'), ∃ l' b, shows s' l' other b ∧ nxt b = nxt a ∧
    ((r = -1 ∧ x = None ∧ b = a ∧ ∀ e, e ∈ tbl a → e_pid e = id → e_code e = None) ∨
     (∃ e, e_pid e = id ∧ collect a e (r, x) b)).
Proof.
  intros (Ht & En & Et). unfold wait_for_pid. apply wp_bind. eapply wp_mono; [by apply (process_find_ok s l other id)|].
  intros p [(-> & Hno)|(pre & post & x & -> & Hp & Hx & Hid)].
  { apply wp_ok. exists l, a. split; [done|]. split; [done|]. left. split_and!; try done. rewrite Et.
    intros e (q & -> & Hq)%list_elem_of_fmap He. by destruct (Hno q Hq). }
  rewrite (proj2 (Z.eqb_neq p 0)), (get_process_ok s p x Hx), bind_ok by done. case_decide as Hz.
  - apply wp_ok. exists (pre ++ p :: post), a. split; [done|]. split; [done|]. left. split_and!; try done. rewrite Et.
    intros e (q & -> & Hq)%list_elem_of_fmap He. destruct Ht as (Hc & _ & Hnd & _).
    assert (q = p) as ->.
    { apply (pid_unique s _ q p Hnd Hq); [in_list|]. by rewrite He, (entry_at_ok s p x). }
    rewrite (entry_at_ok s p x Hx). simpl. by rewrite decide_False.
  - apply wp_bind. eapply wp_mono; [by apply (process_destroy_ok s pre p post other)|].
    intros s' (Ht' & En' & Ee'). apply wp_ok. exists (pre ++ post), {| nxt := nxt a; tbl := entry_at s <$> (pre ++ post) |}.
    split; [split_and!; simpl; congruence|]. split; [done|]. right. exists (entry_of x). split; [done|].
    exists (entry_at s <$> pre), (entry_at s <$> post), (pexit_code x). rewrite Et, !fmap_app, fmap_cons, (entry_at_ok s p x Hx).
    split; [done|]. split; [simpl; by rewrite decide_True|]. by split.
Qed.

Lemma wait_any_ok s l other a parent : shows s l other a →
  wait_any_child s parent ⇓ λ '(r, x, s'), ∃ l' b, shows s' l' other b ∧ nxt b = nxt a ∧
    ((r = -1 ∧ x = None ∧ b = a ∧ ∀ e, e ∈ tbl a → e_parent e = parent → e_code e = None) ∨
     (∃ e, e_parent e = parent ∧ collect a e (r, x) b)).
Proof.
  intros Hs. pose proof Hs as ((Hc & _ & Hnd & _) & En & Et). unfold wait_any_child, process_first.
  apply (list_walk s l (λ pre, ∀ q, q ∈ pre → e_parent (entry_at s q) = parent → e_code (entry_at s q) = None));
    [done|by intros q ?%not_elem_of_nil| |].
  - intros pre p y post El Hy Hp HJ. rewrite (proj2 (Z.eqb_neq p 0)), (get_process_ok s p y Hy), bind_ok by done.
    destruct ((parent_pid y =? parent) && bool_decide (pstate y = PROCESS_ZOMBIE)) eqn:E.
    + apply andb_prop in E as [E1%Z.eqb_eq E2%bool_decide_eq_true]. apply wp_bind.
      eapply wp_mono; [by apply (wait_for_pid_ok s l other a (pid y))|]. intros [[r x] s'] (l' & b & Hs' & Hn & Hr).
      apply wp_ok. exists l', b. split; [done|]. split; [done|]. right.
      assert (entry_of y ∈ tbl a) as Hin.
      { rewrite Et, <-(entry_at_ok s p y Hy). apply list_elem_of_fmap. exists p. split; [done|]. rewrite El. in_list. }
      destruct Hr as [(_ & _ & _ & Hno)|(e & He & Hcol)].
      * specialize (Hno _ Hin eq_refl). simpl in Hno. by rewrite decide_True in Hno.
      * assert (e = entry_of y) as ->; [|by exists (entry_of y)]. destruct Hcol as (A1 & A2 & code & Ha & _).
        assert (e ∈ tbl a) as Hin2 by (rewrite Ha; in_list). rewrite <-Et in Hnd.
        apply list_elem_of_lookup in Hin as [i Hi]. apply list_elem_of_lookup in Hin2 as [j Hj].
        assert (j = i) as ->; [|congruence]. apply (NoDup_lookup _ j i (pid y) Hnd); rewrite list_lookup_fmap.
        -- rewrite Hj. simpl. congruence.
        -- by rewrite Hi.
    + apply wp_ok. split; [done|]. intros q. rewrite elem_of_app, list_elem_of_singleton. intros [?| ->]; [by apply HJ|].
      rewrite (entry_at_ok s p y Hy). simpl. intros Hpar. rewrite decide_False; [done|]. intros Hz.
      rewrite Hpar, Z.eqb_refl, bool_decide_true in E by done. done.
  - intros HJ. apply wp_ok. exists l, a. split; [done|]. split; [done|]. left. split_and!; try done. rewrite Et.
    intros e (q & -> & Hq)%list_elem_of_fmap. by apply HJ.
Qed.

Lemma proc_exec_ok space s l other a o : shows s l other a → 0 < nxt a < 2 ^ 64 - 1 → name_ok o →
  exec space s o ⇓ λ '(r, x, s'), ∃ l' b, shows s' l' other b ∧ nxt a ≤ nxt b ≤ nxt a + 1 ∧ proc_spec a o (r, x) b.
Proof.
  intros Hs Hn Ho. pose proof Hs as (Ht & En & Et). destruct o as [nm parent|id code|id|parent]; cbn [exec proc_spec].
  - apply wp_bind. eapply wp_mono; [apply (process_create_ok s l other nm parent space); [done|lia|]|].
    { intros nb ->. exact Ho. }
    intros [p s'] [(-> & Ht' & En' & Ee')|(Hp & Ht' & En' & Ee')].
    + apply wp_ok. exists l, a. split; [split_and!; [done|congruence|congruence]|]. split; [lia|by left].
    + rewrite (proj2 (Z.eqb_neq p 0)) by done. pose proof Ht' as (Hc' & _).
      destruct (chain_elem _ _ _ p Hc') as [_ [x Hx]]; [left|]. rewrite (get_process_ok s' p x Hx), bind_ok. apply wp_ok.
      exists (p :: l), {| nxt := nxt a + 1; tbl := {| e_pid := nxt a; e_parent := parent; e_code := None |} :: tbl a |}.
      split; [split_and!; [done|simpl; lia|simpl tbl; rewrite Ee', Et, En; done]|]. split; [simpl; lia|]. right. split; [|done].
      rewrite fmap_cons, (entry_at_ok s' p x Hx) in Ee'. injection Ee' as E _ _ _. by rewrite E, En.
  - apply wp_bind. eapply wp_mono; [by apply (process_find_ok s l other id)|].
    intros p [(-> & Hno)|(pre & post & x & El & Hp & Hx & Hid)].
    + apply wp_ok. exists l, a. split; [done|]. split; [lia|]. left. split_and!; try done. rewrite Et.
      intros (e & -> & (q & -> & Hq)%list_elem_of_fmap)%list_elem_of_fmap. by destruct (Hno q Hq).
    + rewrite (proj2 (Z.eqb_neq p 0)) by done. assert (p ∈ l) as Hin by (rewrite El; in_list). apply wp_bind.
      eapply wp_mono; [by apply (process_exit_ok s l other p code)|]. intros s' (Ht' & En' & Ep' & Eo'). apply wp_ok.
      exists l, {| nxt := nxt a; tbl := set_zombie id code <$> tbl a |}.
      assert (set_zombie id code <$> tbl a = entry_at s' <$> l) as E.
      { rewrite Et, <-list_fmap_compose. apply list_fmap_ext. intros i q Hq%list_elem_of_lookup_2. simpl. unfold set_zombie.
        destruct (decide (q = p)) as [->|Hne].
        - rewrite decide_True; [done|]. by rewrite (entry_at_ok s p x).
        - rewrite decide_False, Eo'; [done|done|]. intros E. apply Hne. destruct Ht as (_ & _ & Hnd & _).
          apply (pid_unique s l); [done..|]. by rewrite E, (entry_at_ok s p x). }
      split; [split_and!; [done|simpl; congruence|exact E]|]. split; [simpl; lia|]. right. split; [done|]. split; [|done].
      rewrite Et. apply list_elem_of_fmap. exists (entry_at s p). split; [by rewrite (entry_at_ok s p x)|].
      by apply list_elem_of_fmap_2.
  - eapply wp_mono; [by apply (wait_for_pid_ok s l other a id)|]. intros [[r x] s'] (l' & b & Hs' & Hb & Hr).
    exists l', b. split; [done|]. split; [lia|]. destruct Hr as [(-> & -> & Hr)|Hr]; [by left|by right].
  - eapply wp_mono; [by apply (wait_any_ok s l other a parent)|]. intros [[r x] s'] (l' & b & Hs' & Hb & Hr).
    exists l', b. split; [done|]. split; [lia|]. destruct Hr as [(-> & -> & Hr)|Hr]; [by left|by right].
Qed.

Fixpoint run (space : Z) (s : procs) (os : list proc_op) : outcome (list (Z * option (Z * Z)) * procs) :=
  match os with
  | [] => Ok ([], s)
  | o :: os => '(r, x, s) ← exec space s o; '(rs, s) ← run space s os; Ok ((r, x) :: rs, s)
  end.

Inductive spec_run : ptable → list proc_op → list (Z * option (Z * Z)) → ptable → Prop :=
  | spec_nil a : spec_run a [] [] a
  | spec_cons a b c o os r rs : proc_spec a o r b → spec_run b os rs c → spec_run a (o :: os) (r :: rs) c.

Lemma proc_run_ok space s l other a os :
  shows s l other a → 0 < nxt a → nxt a + zlen os < 2 ^ 64 - 1 → Forall name_ok os →
  run space s os ⇓ λ '(rs, s'), ∃ l' b, shows s' l' other b ∧ spec_run a os rs b.
Proof.
  revert s l a. induction os as [|o os IH]; intros s l a Hs H0 Hn Hok; cbn [run].
  - apply wp_ok. exists l, a. split; [done|constructor].
  - apply Forall_cons in Hok as [Ho Hos]. unfold zlen in *. simpl length in Hn. apply wp_bind.
    eapply wp_mono; [apply (proc_exec_ok space s l other a o); [done|lia|done]|].
    intros [[r x] s1] (l1 & b & Hs1 & Hb & Hr). apply wp_bind. eapply wp_mono; [apply (IH s1 l1 b); [done|lia|lia|done]|].
    intros [rs s2] (l2 & c & Hs2 & Hc). apply wp_ok. exists l2, c. split; [done|]. by econstructor.
Qed.

Lemma init_shows s other : processes s = ∅ → al_repr (heap s) other →
  shows (process_system_init s) [] other {| nxt := 1; tbl := [] |}.
Proof.
  intros Hp Ha. split; [|done]. split_and!; [done| |constructor|by left|by exists []].
  intros p x. simpl. rewrite Hp. by rewrite lookup_empty.
Qed.

(** C14: Every sequence of process_create, process_exit, wait_for_pid, wait_any_child and
    process_find calls on the process list behaves as on a table of processes with fresh pids:
    an exited process stays as a zombie with its exit code until it is waited for once, and
    every block but those of the live processes is given back to the heap. *)
Theorem process_table_refines space s other os :
  processes s = ∅ → al_repr (heap s) other → zlen os < 2 ^ 63 → Forall name_ok os →
  run space (process_system_init s) os ⇓ λ '(rs, s'), ∃ b,
    spec_run {| nxt := 1; tbl := [] |} os rs b ∧
    (∃ l, shows s' l other b) ∧ (tbl b = [] → al_repr (heap s') other).
Proof.
  intros Hp Ha Hn Hok. eapply wp_mono.
  { apply (proc_run_ok space _ [] other {| nxt := 1; tbl := [] |}); [by apply init_shows|simpl; lia..|done]. }
  intros [rs s'] (l & b & Hs & Hr). exists b. split; [done|]. split; [by exists l|]. intros Hb.
  destruct Hs as ((_ & _ & _ & _ & bl & Hbl & Ha') & _ & Et). rewrite Hb in Et. symmetry in Et. apply fmap_nil_inv in Et as ->.
  by apply fmap_nil_inv in Hbl as ->.
Qed.

(** *** Starting a program *)

(** Every thread is an allocated block. *)
Definition threads_in (L : list (Z * Z)) (s : procs) : Prop :=
  al_repr (heap s) L ∧ ∀ t, is_Some (threads (sch s) !! t) → t ∈ L.*1.

Lemma thread_create_ok s L id entry : threads_in L s →
  thread_create (sch s) (heap s) id entry 0 ⇓ λ '(t, sc, h),
    (t = 0 ∧ sc = sch s ∧ al_repr h L) ∨
    (∃ sz, t ≠ 0 ∧ threads (sch s) !! t = None ∧ al_repr h ((t, sz) :: L) ∧ run_queue sc = run_queue (sch s) ∧
       current_thread sc = current_thread (sch s) ∧
       ∃ th, threads sc = <[t := th]> (threads (sch s)) ∧ instruction_pointer th = entry ∧ process_id th = id).
Proof.
  intros [Ha Hin]. unfold thread_create. apply wp_bind. eapply wp_mono; [apply al_calloc_spec; [exact Ha|unfold THREAD_SIZE; lia..]|].
  intros [t h] [(-> & Ha')|(sz & Ht & _ & _ & Hfr & Ha')]; [apply wp_ok; by left|].
  rewrite (proj2 (Z.eqb_neq t 0)) by lia. apply wp_ok. right. exists sz. split; [lia|]. split.
  { destruct (threads (sch s) !! t) eqn:E; [|done]. destruct Hfr. apply Hin. by eauto. }
  split; [done|]. split; [done|]. split; [done|]. eexists. split; [done|]. by split.
Qed.

(** A first thread for process [p] that starts at [entry] and waits for its turn behind
    the threads [q]. *)
Definition started (s' : procs) (p : Z) (x : process_t) (q : list Z) (entry : Z) : Prop :=
  ∃ t th x', (t ∉ q) ∧ processes s' !! p = Some x' ∧ pid x' = pid x ∧ main_thread x' = t ∧ pstate x' = PROCESS_READY ∧
    threads (sch s') !! t = Some th ∧ instruction_pointer th = entry ∧ process_id th = pid x ∧
    state th = THREAD_READY ∧ queued (sch s') (q ++ [t]).

(** exec_image on an acceptable image either fails for lack of memory, or leaves the process
    ready with its name set and its main thread at the image's entry point, in the run queue
    exactly once. *)
Theorem exec_image_starts s L p x q image size :
  threads_in L s → queued (sch s) q → p ≠ 0 → processes s !! p = Some x → main_thread x = 0 →
  Forall (λ b, 0 ≤ b < 256) image → 0 ≤ size ≤ zlen image → size < 2 ^ 63 →
  exec_image s p None (Some image) size ⇓ λ '(r, s'),
    (r = -1 ∧ sch s' = sch s ∧ al_repr (heap s') L) ∨
    (r = 0 ∧ Elf.acceptable image size ∧ started s' p x q (Elf.entry (Elf.header image))).
Proof.
  intros HL Hq Hp Hx Hmt Hb Hs Hmax. unfold exec_image. apply wp_bind. eapply wp_mono; [by apply Elf.elf_load_ok|].
  intros [r loaded] [(-> & -> & Hna)|(-> & Hacc & ->)]; [apply wp_ok; left; by destruct HL|].
  change (0 =? 0) with true. cbn [negb]. rewrite bind_ok, (get_process_ok s p x Hx), bind_ok, Hmt. change (0 =? 0) with true.
  cbv iota. cbn [Elf.res_entry]. apply wp_bind, wp_bind. eapply wp_mono; [by apply (thread_create_ok s L)|].
  intros [[t sc] h] [(-> & -> & Ha)|(sz & Ht & Hfr & Ha & Erq & Ecur & th & Eth & Eip & Epid)]; cbv zeta.
  { apply wp_ok. apply wp_ok. by left. }
  rewrite (proj2 (Z.eqb_neq t 0)) by done. pose proof Hq as [Hc Hcur].
  assert (t ∉ q) as Htq. { intros Hin. destruct (chain_elem _ _ _ t Hc Hin) as [_ [? ?]]. congruence. }
  assert (queued sc q) as Hqs.
  { split; [|by rewrite Ecur]. rewrite Eth, Erq. by apply chain_store. }
  assert (threads sc !! t = Some th) as Hth by (by rewrite Eth, lookup_insert_eq).
  destruct (scheduler_add_thread sc q t th) as (sc' & Eadd & th' & Eth' & Eip' & Epid'); [done..|].
  destruct (scheduler_add_ok sc q t) as (sc2 & Eadd2 & Hq' & Hst & Hcr); [done|done|by exists th|done|].
  rewrite Eadd in Eadd2. injection Eadd2 as <-. cbn [sch set_sch set_heap put_process set_processes]. rewrite Eadd, bind_ok.
  apply wp_ok. cbn [negb].
  erewrite (get_process_ok _ p) by (simpl; apply lookup_insert_eq). rewrite bind_ok. apply wp_ok. right. split; [done|]. split; [done|].
  eexists t, th', _. split; [done|]. simpl. rewrite lookup_insert_eq. split; [done|]. split; [done|]. split; [done|]. split; [done|].
  split; [done|]. split; [by rewrite Eip', Eip|]. split; [by rewrite Epid', Epid|]. split; [|done].
  assert (states sc' !! t = Some THREAD_READY) as E by (by rewrite Hst, lookup_insert_eq).
  unfold states in E. rewrite lookup_fmap, Eth' in E. simpl in E. congruence.
Qed.

End Proc.

(** ** A small system *)

Definition sample_procs : procs (H := Heap.heap_t) :=
  {| processes := ∅; process_list := 0; current_process := 0; next_pid := 1;
     sch := {| threads := ∅; next_tid := 1; run_queue := 0; current_thread := 0 |};
     heap := Heap.heap_init Heap.empty_heap 4096 65536 |}.

Lemma sample_heap_ok : al_repr (heap sample_procs) [].
Proof.
  exists [(65504, true)]. split; [|done]. apply (Heap.heap_init_repr Heap.empty_heap 4096 65536); unfold Heap.HDR; try lia; done.
Qed.

Definition sample_proc_ops : list proc_op :=
  [Create (Some (cstr [105])) 0; Create None 1; WaitAny 1; Exit 2 7; WaitPid 1; WaitAny 1; WaitPid 2; Create None 1].

Lemma process_table_refines_witness :
  run 77 (process_system_init sample_procs) sample_proc_ops ⇓ λ '(rs, _),
    rs = [(1, None); (2, None); (-1, None); (0, None); (-1, None); (0, Some (2, 7)); (-1, None); (3, None)] ∧
    ∃ b, spec_run {| nxt := 1; tbl := [] |} sample_proc_ops rs b.
Proof.
  assert (('(rs, _) ← run 77 (process_system_init sample_procs) sample_proc_ops; Ok rs) =
    Ok [(1, None); (2, None); (-1, None); (0, None); (-1, None); (0, Some (2, 7)); (-1, None); (3, None)]) as Hrun
    by (vm_compute; reflexivity).
  destruct (process_table_refines 77 sample_procs [] sample_proc_ops) as ([rs s] & E & b & Hr & _);
    [reflexivity|apply sample_heap_ok|reflexivity| |].
  { repeat constructor. exists [105]. split; [|done]. split; [by repeat constructor|]. by exists []. }
  rewrite E, bind_ok in Hrun. injection Hrun as ->. eexists. split; [exact E|]. split; [reflexivity|]. by exists b.
Defined.

(** The process of [sample_procs] that [exec_image] starts. *)
Definition sample_started : outcome (Z * procs (H := Heap.heap_t)) :=
  '(p, s) ← process_create (process_system_init sample_procs) None 0 77;
  '(_, s) ← exec_image s p None (Some Elf.sample_image) 136;
  Ok (p, s).

Lemma exec_image_starts_witness :
  sample_started ⇓ λ '(p, s), ∃ x, started s p x [] (Elf.entry (Elf.header Elf.sample_image)).
Proof.
  assert ((sample_started ≫= λ '(p, s), Ok (p =? 0, run_queue (sch s) =? 0)) = Ok (false, false)) as Hrun
    by (vm_compute; reflexivity).
  unfold sample_started in *. pose proof (init_shows sample_procs [] eq_refl sample_heap_ok) as (Ht & _).
  assert (next_pid (process_system_init sample_procs) = 1) as Hn1 by reflexivity.
  assert (threads (sch (process_system_init sample_procs)) = ∅ ∧ run_queue (sch (process_system_init sample_procs)) = 0 ∧
    current_thread (sch (process_system_init sample_procs)) = 0) as (Hth & Hrq & Hct) by (by split_and!).
  revert Hrun Ht Hn1 Hth Hrq Hct. generalize (process_system_init sample_procs). intros s0 Hrun Ht Hn1 Hth Hrq Hct.
  destruct (process_create_ok s0 [] [] None 0 77 Ht) as ([p s] & E & Hr); [lia|done|].
  pose proof (process_create_sch _ _ _ _ _ _ E) as Hsch. rewrite E, bind_ok in Hrun |- *.
  destruct Hr as [(-> & _)|(Hp & (Hc & Hall & _ & _ & bl & _ & Ha) & _)].
  { destruct (exec_image s 0 None (Some Elf.sample_image) 136) as [[r s']| |]; discriminate. }
  destruct (chain_elem _ _ _ p Hc) as [_ [x Hx]]; [left|].
  destruct (exec_image_starts s (bl ++ []) p x [] Elf.sample_image 136) as ([r s'] & E' & Hr);
    [|rewrite Hsch; split; [done|by left]|done|done|by apply (Hall p x)| |by vm_compute|done|].
  - split; [done|]. rewrite Hsch, Hth. intros t. rewrite lookup_empty. by intros [? ?].
  - apply (bool_decide_unpack _). vm_compute. exact I.
  - rewrite E', bind_ok in Hrun |- *. apply wp_ok. exists x. destruct Hr as [(_ & Hs' & _)|(_ & _ & Hst)]; [|exact Hst].
    rewrite bind_ok, Hs', Hsch, Hrq in Hrun. discriminate.
Defined.

(** On a sample state, waiting for an exited process frees its main thread while it is still in
    the run queue, and the next scheduler_pick_next reads freed memory. *)
Theorem wait_frees_queued_thread :
  ('(p, s) ← sample_started;
   s ← process_exit s p 0;
   '(r, _, s) ← wait_for_pid s 1;
   Ok (r, bool_decide (run_queue (sch s) ≠ 0 ∧ threads (sch s) !! run_queue (sch s) = None))) = Ok (0, true) ∧
  ('(p, s) ← sample_started;
   s ← process_exit s p 0;
   '(_, _, s) ← wait_for_pid s 1;
   scheduler_pick_next (sch s)) = Undef.
Proof. split; vm_compute; reflexivity. Qed.

End Proc.
