(* ===== verification/NetUtil.v ===== *)
(** The parts of kernel/net beside the packet path: sockets (socket.c), DNS queries
    (dns.c), packet buffers (net_buf.c) and TCP control blocks (tcp.c). *)
From S2P Require Import Prelude KString Heap.

Module Socket.

Definition SOCKET_MAX : Z := 64.

Inductive socket_type_t := SOCKET_UNUSED | SOCKET_UDP | SOCKET_TCP.
#[global] Instance socket_type_eq_dec : EqDecision socket_type_t.
Proof. solve_decision. Defined.

Record socket_t := { type : socket_type_t; local_port : Z; remote_ip : Z; remote_port : Z }.
Definition zero_socket : socket_t := {| type := SOCKET_UNUSED; local_port := 0; remote_ip := 0; remote_port := 0 |}.

Abbreviation sockets := (list socket_t).

Definition socket_init : sockets := replicate (Z.to_nat SOCKET_MAX) zero_socket.

Definition socket_create (t : sockets) (ty : socket_type_t) : outcome (Z * sockets) :=
  if bool_decide (ty = SOCKET_UNUSED) then Ok (-1, t)
  else
    r ← for_loop 0 SOCKET_MAX
          (λ index (_ : unit),
             s ← zget t index;
             if bool_decide (type s = SOCKET_UNUSED) then
               t ← zset t index {| type := ty; local_port := local_port s; remote_ip := remote_ip s; remote_port := remote_port s |};
               Ok (inr (index, t))
             else Ok (inl tt)) tt;
    match r with inl _ => Ok (-1, t) | inr v => Ok v end.

Definition socket_get (t : sockets) (fd : Z) : outcome (option socket_t) :=
  if (fd <? 0) || (SOCKET_MAX <=? fd) then Ok None
  else s ← zget t fd; Ok (if bool_decide (type s = SOCKET_UNUSED) then None else Some s).

Definition socket_close (t : sockets) (fd : Z) : outcome (Z * sockets) :=
  s ← socket_get t fd;
  match s with
  | None => Ok (-1, t)
  | Some _ => t ← zset t fd zero_socket; Ok (0, t)
  end.

Definition socket_connect (t : sockets) (fd ip port : Z) : outcome (Z * sockets) :=
  s ← socket_get t fd;
  match s with
  | None => Ok (-1, t)
  | Some s =>
      t ← zset t fd {| type := type s; local_port := local_port s; remote_ip := ip; remote_port := port |};
      Ok (0, t)
  end.

(** ** Correctness: every operation is total on a table of [SOCKET_MAX] entries *)

Lemma socket_get_ok t fd : zlen t = SOCKET_MAX →
  (socket_get t fd = Ok None) ∨
  (∃ s, 0 ≤ fd < SOCKET_MAX ∧ t !! Z.to_nat fd = Some s ∧ type s ≠ SOCKET_UNUSED ∧ socket_get t fd = Ok (Some s)).
Proof.
  intros Hl. unfold socket_get. destruct ((fd <? 0) || (SOCKET_MAX <=? fd)) eqn:E; [by left|].
  destruct (zget_in t fd) as [s Hs]; [lia|]. rewrite (zget_ok t fd s), bind_ok by (done || lia).
  case_bool_decide; [by left|right]. exists s. split; [lia|]. by split_and!.
Qed.

(** A created socket is the lowest unused one, and can then be connected. *)
Lemma socket_create_ok t ty : zlen t = SOCKET_MAX → ty ≠ SOCKET_UNUSED →
  socket_create t ty ⇓ λ '(fd, t'), zlen t' = SOCKET_MAX ∧
    ((fd = -1 ∧ t' = t ∧ ∀ i s, t !! i = Some s → type s ≠ SOCKET_UNUSED) ∨
     (0 ≤ fd < SOCKET_MAX ∧ (∃ s, t !! Z.to_nat fd = Some s ∧ type s = SOCKET_UNUSED) ∧
      (∀ i s, (i < Z.to_nat fd)%nat → t !! i = Some s → type s ≠ SOCKET_UNUSED) ∧
      ∀ ip port, socket_connect t' fd ip port ⇓ λ '(r, _), r = 0)).
Proof.
  intros Hl Hty. unfold socket_create. rewrite bool_decide_false by done. apply wp_bind.
  apply (wp_for (λ k _, ∀ i s, (i < Z.to_nat k)%nat → t !! i = Some s → type s ≠ SOCKET_UNUSED));
    [unfold SOCKET_MAX; lia|intros i s; lia| |].
  - intros k [] Hk Hb. destruct (zget_in t k) as [s Hs]; [lia|]. rewrite (zget_ok t k s), bind_ok by (done || lia).
    case_bool_decide as Hu.
    + apply wp_bind, wp_zset; [lia|]. apply wp_ok. apply wp_ok. split; [by rewrite zlen_insert|]. right. split; [lia|].
      split; [by exists s|]. split; [done|]. intros ip port. unfold socket_connect, socket_get.
      destruct ((k <? 0) || (SOCKET_MAX <=? k)) eqn:E; [lia|]. erewrite zget_ok; [|lia|apply list_lookup_insert_eq; unfold zlen in *; lia].
      rewrite bind_ok. simpl type. rewrite bool_decide_false, bind_ok by done. apply wp_bind, wp_zset; [rewrite zlen_insert; lia|]. by apply wp_ok.
    + apply wp_ok. intros i s' Hi Hs'. destruct (decide (i = Z.to_nat k)) as [->|]; [congruence|]. apply (Hb i s'); [lia|done].
  - intros [] Hb. apply wp_ok. split; [done|]. left. split; [done|]. split; [done|]. intros i s Hs. apply (Hb i s); [|done].
    apply lookup_lt_Some in Hs. unfold zlen in Hl. lia.
Qed.

End Socket.

Module Tcp.

Inductive tcp_state_t :=
  | TCP_CLOSED | TCP_LISTEN | TCP_SYN_SENT | TCP_SYN_RECEIVED | TCP_ESTABLISHED | TCP_FIN_WAIT_1
  | TCP_FIN_WAIT_2 | TCP_CLOSE_WAIT | TCP_CLOSING | TCP_LAST_ACK | TCP_TIME_WAIT.

Record tcp_socket_t := {
  state : tcp_state_t; remote_ip : Z; local_port : Z; remote_port : Z; send_next : Z; recv_next : Z
}.

Definition tcp_init_socket (socket : option tcp_socket_t) (port : Z) : option tcp_socket_t :=
  match socket with
  | None => None
  | Some _ => Some {| state := TCP_CLOSED; remote_ip := 0; local_port := port; remote_port := 0; send_next := 0; recv_next := 0 |}
  end.

End Tcp.

Module Dns.
Import KString.

(** The first dot or NUL from [label] on. *)
Definition find_dot (host : list Z) (label : Z) : outcome Z :=
  loop (S (length host))
    (λ dot, c ← zget host dot; if negb (c =? 0) && negb (c =? 46) then Ok (inl (dot + 1)) else Ok (inr dot)) label.

(** One label: [inr None] rejects the name, [inr (Some out)] ends it. *)
Definition put_label (capacity : Z) (host : list Z) : list Z * Z * Z → outcome (list Z * Z * Z + list Z * option Z) :=
  λ '(b, out, label),
    c ← zget host label;
    if c =? 0 then Ok (inr (b, Some out))
    else
      dot ← find_dot host label;
      let len := u64 (dot - label) in
      if (63 <? len) || (capacity <? u64 (u64 (out + len) + 6)) then Ok (inr (b, None))
      else
        b ← zset b out (u8 len);
        b ← memcpy b (out + 1) host label len;
        let out := u64 (out + 1 + len) in
        c ← zget host dot;
        Ok (if c =? 0 then inr (b, Some out) else inl (b, out, dot + 1)).

Definition dns_build_query (buffer : option (list Z)) (capacity id : Z) (hostname : option (list Z))
  : outcome (Z * option (list Z)) :=
  match buffer, hostname with
  | Some b, Some host =>
      if capacity <? 18 then Ok (0, Some b)
      else
        b ← memset b 0 0 capacity;
        b ← zset b 0 (u8 (Z.shiftr id 8));
        b ← zset b 1 (u8 id);
        b ← zset b 2 1;
        b ← zset b 5 1;
        '(b, r) ← loop (S (length host)) (put_label capacity host) (b, 12, 0);
        match r with
        | None => Ok (0, Some b)
        | Some out =>
            b ← zset b out 0;
            b ← zset b (out + 1) 0;
            b ← zset b (out + 2) 1;
            b ← zset b (out + 3) 0;
            b ← zset b (out + 4) 1;
            Ok (u64 (out + 5), Some b)
        end
  | _, _ => Ok (0, buffer)
  end.

(** ** The query a host name stands for *)

Fixpoint dotted (ls : list (list Z)) : list Z :=
  match ls with [] => [] | [l] => l | l :: ls => l ++ 46 :: dotted ls end.

Definition encode (ls : list (list Z)) : list Z := concat ((λ l, zlen l :: l) <$> ls).

Definition query (id : Z) (ls : list (list Z)) : list Z :=
  [u8 (Z.shiftr id 8); u8 id; 1; 0; 0; 1; 0; 0; 0; 0; 0; 0] ++ encode ls ++ [0; 0; 1; 0; 1].

(** How a name server reads the name back: a length byte, that many bytes, up to a zero. *)
Fixpoint decode (fuel : nat) (bs : list Z) : option (list (list Z) * list Z) :=
  match fuel, bs with
  | S fuel, n :: bs =>
      if n =? 0 then Some ([], bs)
      else '(ls, rest) ← decode fuel (drop (Z.to_nat n) bs); Some (take (Z.to_nat n) bs :: ls, rest)
  | _, _ => None
  end.

Definition label_ok (l : list Z) : Prop := l ≠ [] ∧ Forall (λ c, 0 < c < 256 ∧ c ≠ 46) l.

(** ** Correctness *)

Lemma encode_cons l ls : encode (l :: ls) = zlen l :: l ++ encode ls.
Proof. done. Qed.

Lemma encode_snoc ls l : encode (ls ++ [l]) = encode ls ++ zlen l :: l.
Proof. unfold encode. rewrite fmap_app, concat_app. simpl. by rewrite app_nil_r. Qed.

Lemma decode_encode ls rest : Forall label_ok ls →
  decode (S (length ls)) (encode ls ++ 0 :: rest) = Some (ls, rest).
Proof.
  induction 1 as [|l ls [Hne _] _ IH]; [done|]. rewrite encode_cons. cbn [app length].
  remember (S (length ls)) as k. cbn [decode]. destruct (Z.eqb_spec (zlen l) 0) as [E|_].
  - destruct l; [done|]. unfold zlen in E. simpl in E. lia.
  - unfold zlen. rewrite Nat2Z.id, <-app_assoc, drop_app_length, take_app_length, IH. done.
Qed.

Lemma dotted_ok ls : Forall label_ok ls → Forall (λ c, 0 < c < 256) (dotted ls).
Proof.
  induction 1 as [|l ls [_ Hl] _ IH]; [by constructor|].
  assert (Forall (λ c, 0 < c < 256) l) by (eapply Forall_impl; [exact Hl|]; intros; simpl in *; lia).
  destruct ls; [done|]. change (Forall (λ c, 0 < c < 256) (l ++ 46 :: dotted (l0 :: ls))).
  rewrite Forall_app, Forall_cons. split; [done|]. split; [lia|done].
Qed.

(** The bytes of the host name from a label on. *)
Lemma find_dot_ok pre l c rest : Forall (λ c, 0 < c < 256 ∧ c ≠ 46) l → c = 0 ∨ c = 46 →
  find_dot (pre ++ l ++ c :: rest) (zlen pre) = Ok (zlen pre + zlen l).
Proof.
  intros Hl Hc. set (host := pre ++ l ++ c :: rest).
  assert (find_dot host (zlen pre) ⇓ λ d, d = zlen pre + zlen l) as (d & -> & ->); [|done].
  assert (length host = (length pre + length l + S (length rest))%nat) as Hlen
    by (unfold host; rewrite !length_app; simpl; lia).
  unfold find_dot, zlen. apply (wp_loop (λ d, Z.of_nat (length pre) ≤ d ≤ Z.of_nat (length pre + length l))
           (λ d, Z.to_nat (Z.of_nat (length pre + length l) - d))); [|lia|lia].
  intros d Hd. destruct (decide (d = Z.of_nat (length pre + length l))) as [->|Hne].
  - rewrite (zget_ok _ _ c), bind_ok; [|lia|].
    + destruct Hc as [-> | ->]; apply wp_ok; lia.
    + unfold host. rewrite Nat2Z.id, app_assoc, lookup_app_r by (rewrite length_app; lia). rewrite length_app.
      by rewrite Nat.sub_diag.
  - destruct (lookup_lt_is_Some_2 l (Z.to_nat d - length pre)) as [x Hx]; [lia|].
    rewrite (zget_ok _ _ x), bind_ok; [|lia|].
    + pose proof (Forall_lookup_1 _ _ _ _ Hl Hx) as Hr. simpl in Hr.
      destruct (Z.eqb_spec x 0), (Z.eqb_spec x 46); try lia. simpl. apply wp_ok. lia.
    + unfold host. rewrite lookup_app_r by lia. rewrite lookup_app_l by lia. done.
Qed.

Lemma zset_middle (P : list Z) x v R : zset (P ++ x :: R) (zlen P) v = Ok (P ++ v :: R).
Proof.
  unfold zset, zlen. rewrite decide_True by (rewrite length_app; simpl; lia). f_equal.
  rewrite Nat2Z.id, insert_app_r_alt by lia. by rewrite Nat.sub_diag.
Qed.

Lemma splice_middle (P M R bs : list Z) : length bs = length M → splice (P ++ M ++ R) (zlen P) bs = P ++ bs ++ R.
Proof.
  intros Hl. unfold splice, zlen. rewrite Nat2Z.id, take_app_length. do 2 f_equal.
  rewrite drop_app_add, Hl, drop_app_length. done.
Qed.

Lemma slice_inner (P M R : list Z) : slice (P ++ M ++ R) (zlen P) (zlen M) = M.
Proof. unfold slice, zlen. by rewrite !Nat2Z.id, drop_app_length, take_app_length. Qed.

(** A buffer filled up to [zlen P], zero from there to its capacity. *)
Definition filled (P : list Z) (capacity : Z) (T : list Z) : list Z :=
  P ++ replicate (Z.to_nat (capacity - zlen P)) 0 ++ T.

Lemma filled_cons P cap T : zlen P < cap → filled P cap T = P ++ 0 :: replicate (Z.to_nat (cap - zlen P - 1)) 0 ++ T.
Proof.
  intros. unfold filled. replace (Z.to_nat (cap - zlen P)) with (S (Z.to_nat (cap - zlen P - 1))) by lia. done.
Qed.


Lemma filled_byte P cap T v : zlen P < cap → zset (filled P cap T) (zlen P) v = Ok (filled (P ++ [v]) cap T).
Proof.
  intros. rewrite filled_cons, zset_middle by done. f_equal. unfold filled. rewrite zlen_app, <-app_assoc.
  do 4 f_equal. simpl. unfold zlen. simpl. lia.
Qed.

Lemma filled_byte_at P cap T i v : i = zlen P ∧ zlen P < cap → zset (filled P cap T) i v = Ok (filled (P ++ [v]) cap T).
Proof. intros [-> ?]. by apply filled_byte. Qed.

Lemma filled_bytes P cap T src l rest : zlen P + zlen l ≤ cap →
  memcpy (filled P cap T) (zlen P) (src ++ l ++ rest) (zlen src) (zlen l) = Ok (filled (P ++ l) cap T).
Proof.
  intros Hr. pose proof (Nat2Z.is_nonneg (length T)). rewrite memcpy_ok.
  - rewrite slice_inner. f_equal. unfold filled. rewrite zlen_app, <-app_assoc.
    replace (Z.to_nat (cap - zlen P)) with (length l + Z.to_nat (cap - (zlen P + zlen l)))%nat by (unfold zlen in *; lia).
    rewrite replicate_add, <-app_assoc. apply splice_middle. by rewrite length_replicate.
  - unfold zlen; lia.
  - unfold zlen; lia.
  - unfold zlen; lia.
  - unfold filled. rewrite !zlen_app. unfold zlen in *. rewrite length_replicate. lia.
  - rewrite !zlen_app. unfold zlen. lia.
Qed.

Lemma put_label_ok P cap T pre l c rest : label_ok l → c = 0 ∨ c = 46 → zlen P ≤ cap < 2 ^ 63 → zlen l < 2 ^ 63 →
  put_label cap (pre ++ l ++ c :: rest) (filled P cap T, zlen P, zlen pre) =
  if (63 <? zlen l) || (cap <? zlen P + zlen l + 6) then Ok (inr (filled P cap T, None))
  else let Q := P ++ zlen l :: l in
       Ok (if c =? 0 then inr (filled Q cap T, Some (zlen Q))
           else inl (filled Q cap T, zlen Q, zlen pre + zlen l + 1)).
Proof.
  intros [Hne Hl] Hc Hcap Hlm. destruct l as [|x l0] eqn:El; [done|]. rewrite <-El in *.
  pose proof (Nat2Z.is_nonneg (length P)). pose proof (Nat2Z.is_nonneg (length l)). fold (zlen P) in *. fold (zlen l) in *.
  assert (0 ≤ zlen pre) by (unfold zlen; lia).
  unfold put_label. rewrite (zget_ok _ _ x), bind_ok; [|done|].
  2:{ unfold zlen. rewrite Nat2Z.id, lookup_app_r, Nat.sub_diag by lia. by rewrite El. }
  assert (0 < x < 256 ∧ x ≠ 46) as Hx by (rewrite El in Hl; by inversion Hl).
  destruct (Z.eqb_spec x 0); [lia|]. rewrite find_dot_ok, bind_ok by done.
  replace (zlen pre + zlen l - zlen pre) with (zlen l) by lia. rewrite (u64_small (zlen l)) by lia.
  destruct (Z.ltb_spec 63 (zlen l)) as [|Hs]; [done|]. cbn [orb]. rewrite (u64_small (zlen P + zlen l)) by lia. nowrap.
  destruct (Z.ltb_spec cap (zlen P + zlen l + 6)) as [|Hf]; [done|].
  rewrite filled_byte, bind_ok by lia.
  replace (zlen P + 1) with (zlen (P ++ [zlen l])) by (rewrite zlen_app; done).
  rewrite filled_bytes, bind_ok by (rewrite zlen_app; unfold zlen at 2; simpl; lia).
  rewrite (zget_ok _ _ c), bind_ok; [|lia|].
  2:{ rewrite app_assoc, lookup_app_r by (rewrite length_app; unfold zlen; lia). rewrite length_app.
      replace (Z.to_nat _ - _)%nat with 0%nat by (unfold zlen; lia). done. }
  rewrite <-app_assoc. cbn [app].
  replace (zlen (P ++ [zlen l]) + zlen l) with (zlen (P ++ zlen l :: l)); [done|].
  rewrite !zlen_app, zlen_cons. change (zlen [zlen l]) with 1. lia.
Qed.

Lemma dotted_cons l ls : ls ≠ [] → dotted (l :: ls) = l ++ 46 :: dotted ls.
Proof. by destruct ls. Qed.

Lemma put_label_end b out cap pre rest :
  put_label cap (pre ++ 0 :: rest) (b, out, zlen pre) = Ok (inr (b, Some out)).
Proof.
  unfold put_label. rewrite (zget_ok _ _ 0); [done|unfold zlen; lia|].
  unfold zlen. by rewrite Nat2Z.id, lookup_app_r, Nat.sub_diag by lia.
Qed.

(** The labels still to be written fit behind what is written. *)
Definition fits (out cap : Z) (ls : list (list Z)) : bool :=
  forallb (λ l, zlen l <=? 63) ls && (out + zlen (encode ls) + 5 <=? cap).

Lemma put_labels_ok cap T fuel ls : ∀ P pre, Forall label_ok ls → zlen P + 5 ≤ cap < 2 ^ 63 → zlen (dotted ls) < 2 ^ 63 →
  (length ls < fuel)%nat →
  loop fuel (put_label cap (pre ++ dotted ls ++ [0])) (filled P cap T, zlen P, zlen pre) ⇓
  λ '(b, r), if fits (zlen P) cap ls
             then b = filled (P ++ encode ls) cap T ∧ r = Some (zlen (P ++ encode ls))
             else ∃ Q, zlen Q ≤ cap ∧ b = filled Q cap T ∧ r = None.
Proof.
  revert fuel. induction ls as [|l ls IH]; intros fuel P pre Hls Hcap Hlen Hfuel; (destruct fuel as [|fuel]; [simpl in Hfuel; lia|]).
  - cbn [loop dotted app]. rewrite put_label_end. unfold fits. simpl forallb. change (zlen (encode [])) with 0.
    destruct (Z.leb_spec (zlen P + 0 + 5) cap); [|lia]. apply wp_ok. by rewrite app_nil_r.
  - apply Forall_cons in Hls as [Hl Hls]. pose proof (encode_cons l ls) as He.
    destruct (decide (ls = [])) as [->|Hne].
    + cbn [loop dotted]. cbn [dotted] in Hlen. rewrite put_label_ok by (done || lia || by left). unfold fits.
      change (encode []) with (@nil Z) in He. rewrite app_nil_r in He. rewrite He, (zlen_cons (zlen l)). simpl forallb.
      destruct (Z.ltb_spec 63 (zlen l)), (Z.ltb_spec cap (zlen P + zlen l + 6)), (Z.leb_spec (zlen l) 63); try lia; simpl.
      all: destruct (Z.leb_spec (zlen P + (zlen l + 1) + 5) cap); try lia; apply wp_ok.
      all: try (exists P; split_and!; [lia|done|done]).
      done.
    + rewrite dotted_cons in * by done. rewrite <-app_assoc. cbn [app loop].
      rewrite zlen_app, zlen_cons in Hlen. assert (0 ≤ zlen l ∧ 0 ≤ zlen (dotted ls) ∧ 0 ≤ zlen (encode ls)) by (unfold zlen; lia).
      rewrite put_label_ok by (done || lia || by right). unfold fits at 1. rewrite He, (zlen_cons (zlen l)), (zlen_app l (encode ls)). simpl forallb.
      destruct (Z.ltb_spec 63 (zlen l)); simpl.
      { destruct (Z.leb_spec (zlen l) 63); [lia|]. simpl. apply wp_ok. exists P. split_and!; [lia|done|done]. }
      destruct (Z.leb_spec (zlen l) 63); [|lia]. destruct (Z.ltb_spec cap (zlen P + zlen l + 6)); simpl.
      { rewrite (proj2 (Z.leb_gt (zlen P + (zlen l + zlen (encode ls) + 1) + 5) cap)), andb_false_r by lia.
        apply wp_ok. exists P. split_and!; [lia|done|done]. }
      set (Q := P ++ zlen l :: l). assert (zlen Q = zlen P + zlen l + 1) as HQ by (unfold Q; rewrite zlen_app, zlen_cons; lia).
      replace (zlen pre + zlen l + 1) with (zlen (pre ++ l ++ [46])) by (rewrite !zlen_app; unfold zlen at 3; simpl; lia).
      replace (pre ++ l ++ 46 :: dotted ls ++ [0]) with ((pre ++ l ++ [46]) ++ dotted ls ++ [0]) by (by rewrite <-!app_assoc).
      eapply wp_mono; [apply IH; [done|lia|lia|simpl in Hfuel; lia]|]. intros [b r]. unfold fits. rewrite HQ.
      replace (zlen P + (zlen l + zlen (encode ls) + 1) + 5) with (zlen P + zlen l + 1 + zlen (encode ls) + 5) by lia.
      unfold Q. by rewrite <-!app_assoc.
Qed.

Lemma length_dotted ls : Forall label_ok ls → (length ls ≤ length (dotted ls))%nat.
Proof.
  induction 1 as [|l ls [Hne _] _ IH]; [done|]. destruct l as [|x l]; [done|]. destruct (decide (ls = [])) as [->|].
  - simpl. lia.
  - rewrite dotted_cons, length_app by done. simpl. lia.
Qed.

(** dns_build_query for a host name of non-empty labels writes exactly the standard query when
    every label has at most 63 bytes and the query fits, and reading the name back from it gives
    the same labels; otherwise it returns 0. *)
Theorem dns_query_roundtrip buffer capacity id ls :
  Forall label_ok ls → 18 ≤ capacity ≤ zlen buffer → zlen buffer < 2 ^ 63 → zlen (dotted ls) < 2 ^ 63 →
  dns_build_query (Some buffer) capacity id (Some (cstr (dotted ls))) ⇓ λ '(n, b),
    if forallb (λ l, zlen l <=? 63) ls && (zlen (query id ls) <=? capacity)
    then n = zlen (query id ls) ∧
         b = Some (query id ls ++ replicate (Z.to_nat (capacity - n)) 0 ++ drop (Z.to_nat capacity) buffer) ∧
         decode (S (length ls)) (drop 12 (query id ls)) = Some (ls, [0; 1; 0; 1])
    else n = 0.
Proof.
  intros Hls Hcap Hmax Hlen. unfold dns_build_query. destruct (Z.ltb_spec capacity 18) as [|_]; [lia|].
  set (T := drop (Z.to_nat capacity) buffer).
  set (H := [u8 (Z.shiftr id 8); u8 id; 1; 0; 0; 1; 0; 0; 0; 0; 0; 0]).
  rewrite memset_ok, bind_ok by lia.
  assert (splice buffer 0 (replicate (Z.to_nat capacity) (u8 0)) = filled (replicate 12 0) capacity T) as ->.
  { unfold splice, filled. rewrite take_0, length_replicate. fold T. cbn [app].
    rewrite (app_assoc (replicate 12 0)), <-replicate_add. do 2 f_equal. unfold zlen. simpl. lia. }
  unfold filled at 1. do 4 (rewrite zset_ok, bind_ok by (rewrite ?zlen_insert, zlen_app; unfold zlen; simpl; lia)).
  assert (zlen (query id ls) = 12 + zlen (encode ls) + 5) as Hq by (unfold query; rewrite !zlen_app; unfold zlen; simpl; lia).
  eapply wp_bind, wp_mono; [apply (put_labels_ok capacity T (S (length (cstr (dotted ls)))) ls H []); try done|].
  - change (zlen H) with 12. lia.
  - unfold cstr. rewrite length_app. pose proof (length_dotted ls Hls). simpl. lia.
  - intros [b r]. change (zlen H) with 12. unfold fits. rewrite Hq. destruct (forallb _ ls && _) eqn:E.
    + intros [-> ->]. apply andb_prop in E as [_ E]. set (P := H ++ encode ls).
      assert (zlen P = 12 + zlen (encode ls)) as HP by (unfold P; by rewrite zlen_app).
      do 5 (rewrite filled_byte_at, bind_ok by (rewrite ?zlen_app; change (zlen [_]) with 1; lia)).
      rewrite u64_small by (unfold zlen in *; lia). apply wp_ok. split; [lia|].
      assert (((((P ++ [0]) ++ [0]) ++ [1]) ++ [0]) ++ [1] = query id ls) as ->
        by (unfold P, query, H; by rewrite <-!app_assoc).
      split; [|apply (decode_encode ls [0; 1; 0; 1] Hls)]. unfold filled. rewrite Hq, HP. done.
    + intros (Q & _ & -> & ->). by apply wp_ok.
Qed.

Lemma dns_query_roundtrip_witness :
  dns_build_query (Some (replicate 24 7)) 23 258 (Some (cstr (dotted [[97]; [98; 99]]))) =
  Ok (22, Some [1; 2; 1; 0; 0; 1; 0; 0; 0; 0; 0; 0; 1; 97; 2; 98; 99; 0; 0; 1; 0; 1; 0; 7]).
Proof.
  destruct (dns_query_roundtrip (replicate 24 7) 23 258 [[97]; [98; 99]]) as ([n b] & -> & Hr).
  - repeat constructor; done || lia.
  - by compute.
  - by compute.
  - by compute.
  - simpl in Hr. destruct Hr as (-> & -> & _). reflexivity.
Defined.

(** The query for the name a..b is the one a name server reads as the name a alone. *)
Lemma dns_empty_label_cuts_name :
  (λ o, match o with Ok (n, Some b) => fst <$> decode 9 (take (Z.to_nat n - 12) (drop 12 b)) | _ => None end)
    (dns_build_query (Some (replicate 64 0)) 64 1 (Some (cstr [97; 46; 46; 98]))) = Some [[97]].
Proof. reflexivity. Qed.

End Dns.

Module NetBuf.
Import KString.
Import Heap(Allocator, al_repr, al_malloc, al_calloc, al_free, al_repr_perm, al_repr_range, al_malloc_spec, al_calloc_spec, al_free_spec).

(** The data block is its address and its bytes. *)
Record net_buf_t := { data : Z * list Z; length : Z; capacity : Z; next : Z }.

Definition NET_BUF_SIZE : Z := 32.

Section Memory.
Context {H : Type} `{AL : Allocator H}.

(** [uninit] is what the block from [kmalloc] happens to hold. *)
Definition net_buf_alloc (h : H) (cap : Z) (uninit : list Z) : outcome (option (Z * net_buf_t) * H) :=
  '(buf, h) ← al_calloc h 1 NET_BUF_SIZE;
  if buf =? 0 then Ok (None, h)
  else
    '(d, h) ← al_malloc h cap;
    if d =? 0 then h ← al_free h buf; Ok (None, h)
    else Ok (Some (buf, {| data := (d, uninit); length := 0; capacity := cap; next := 0 |}), h).

Definition net_buf_free (h : H) (buf : option (Z * net_buf_t)) : outcome H :=
  match buf with
  | None => Ok h
  | Some (p, b) => h ← al_free h (data b).1; al_free h p
  end.

End Memory.

Definition store (b : net_buf_t) (bytes : list Z) (len : Z) : net_buf_t :=
  {| data := ((data b).1, bytes); length := len; capacity := capacity b; next := next b |}.

(** [src] is what the argument [data] points to; [None] is NULL. *)
Definition net_buf_append (buf : option net_buf_t) (src : option (list Z)) (len : Z) : outcome (Z * option net_buf_t) :=
  match buf with
  | None => Ok (-1, None)
  | Some b =>
      if (negb (bool_decide (is_Some src)) && negb (len =? 0)) || (capacity b <? u64 (length b + len)) then Ok (-1, buf)
      else
        bytes ← (if len =? 0 then Ok (data b).2
                 else match src with Some src => memcpy (data b).2 (length b) src 0 len | None => Undef end);
        Ok (0, Some (store b bytes (u64 (length b + len))))
  end.

Definition net_buf_prepend (buf : option net_buf_t) (src : option (list Z)) (len : Z) : outcome (Z * option net_buf_t) :=
  match buf with
  | None => Ok (-1, None)
  | Some b =>
      if (negb (bool_decide (is_Some src)) && negb (len =? 0)) || (capacity b <? u64 (length b + len)) then Ok (-1, buf)
      else
        bytes ← memmove (data b).2 len 0 (length b);
        bytes ← (if len =? 0 then Ok bytes
                 else match src with Some src => memcpy bytes 0 src 0 len | None => Undef end);
        Ok (0, Some (store b bytes (u64 (length b + len))))
  end.

(** ** Correctness: a buffer is a bounded string of bytes that grows at both ends *)

Inductive buf_op := Append (bs : list Z) | Prepend (bs : list Z).

Definition exec (b : net_buf_t) (o : buf_op) : outcome (Z * option net_buf_t) :=
  match o with
  | Append bs => net_buf_append (Some b) (Some bs) (zlen bs)
  | Prepend bs => net_buf_prepend (Some b) (Some bs) (zlen bs)
  end.

Definition spec_exec (cap : Z) (s : list Z) (o : buf_op) : Z * list Z :=
  let bs := match o with Append bs => bs | Prepend bs => bs end in
  if cap <? zlen s + zlen bs then (-1, s)
  else (0, match o with Append _ => s ++ bs | Prepend _ => bs ++ s end).

Fixpoint run (b : net_buf_t) (os : list buf_op) : outcome (list Z * net_buf_t) :=
  match os with
  | [] => Ok ([], b)
  | o :: os => '(r, b) ← exec b o; match b with None => Undef | Some b => '(rs, b) ← run b os; Ok (r :: rs, b) end
  end.

Fixpoint spec_run (cap : Z) (s : list Z) (os : list buf_op) : list Z * list Z :=
  match os with
  | [] => ([], s)
  | o :: os => let '(r, s) := spec_exec cap s o in let '(rs, s) := spec_run cap s os in (r :: rs, s)
  end.

(** The buffer [b] at block [d] holds the bytes [s]. *)
Definition holds (b : net_buf_t) (d cap : Z) (s : list Z) : Prop :=
  (data b).1 = d ∧ capacity b = cap ∧ length b = zlen s ∧ zlen s ≤ cap ∧ cap ≤ zlen (data b).2 ∧ take (List.length s) (data b).2 = s.

Definition op_ok (o : buf_op) : Prop := zlen (match o with Append bs => bs | Prepend bs => bs end) < 2 ^ 63.

Lemma exec_ok b d cap s o : holds b d cap s → cap < 2 ^ 63 → op_ok o →
  exec b o ⇓ λ '(r, b'), ∃ b1, b' = Some b1 ∧ r = (spec_exec cap s o).1 ∧ holds b1 d cap (spec_exec cap s o).2.
Proof.
  intros (Hd & Hc & Hlen & Hs & Hb & Ht) Hcap Hop. set (D := (data b).2) in *.
  assert (∀ bs : list Z, slice bs 0 (zlen bs) = bs) as Hall.
  { intros bs. unfold slice, zlen. rewrite Nat2Z.id. by rewrite drop_0, firstn_all. }
  assert (slice D 0 (zlen s) = s) as HD by (unfold slice, zlen; by rewrite Nat2Z.id).
  destruct o as [bs|bs]; unfold exec, net_buf_append, net_buf_prepend, spec_exec, op_ok in *; cbv zeta;
    (assert (0 ≤ zlen s ∧ 0 ≤ zlen bs) by (unfold zlen; lia));
    rewrite Hlen, Hc, u64_small by lia; rewrite bool_decide_true by done; cbn [negb andb orb]; fold D;
    (destruct (Z.ltb_spec cap (zlen s + zlen bs)) as [Hf|Hf]; [apply wp_ok; by exists b|]).
  - assert ((if zlen bs =? 0 then Ok D else memcpy D (zlen s) bs 0 (zlen bs)) = Ok (splice D (zlen s) bs)) as ->.
    { rewrite memcpy_ok, Hall by lia. destruct (Z.eqb_spec (zlen bs) 0) as [E|]; [|done].
      destruct bs; [|unfold zlen in E; simpl in E; lia]. unfold splice. simpl. by rewrite Nat.add_0_r, take_drop. }
    apply wp_ok. eexists. split; [done|]. split; [done|]. unfold holds. simpl. split_and!; [done..| | | |].
    + unfold zlen. rewrite length_app. lia.
    + unfold zlen in *. rewrite length_app. lia.
    + unfold zlen in *. rewrite length_splice by (unfold zlen; lia). lia.
    + unfold splice, zlen. rewrite Nat2Z.id, app_assoc, Ht. apply take_app_length'. done.
  - rewrite memmove_ok, HD, bind_ok by lia.
    assert ((if zlen bs =? 0 then Ok (splice D (zlen bs) s) else memcpy (splice D (zlen bs) s) 0 bs 0 (zlen bs)) =
            Ok (bs ++ s ++ drop (List.length bs + List.length s) D)) as ->.
    { assert (zlen (splice D (zlen bs) s) = zlen D) as Hz by (unfold zlen at 1; rewrite length_splice by lia; done).
      rewrite memcpy_ok, Hall by lia. unfold splice, zlen. rewrite !Nat2Z.id. simpl.
      rewrite drop_app_length' by (rewrite length_take; unfold zlen in *; lia).
      destruct (Z.eqb_spec (Z.of_nat (List.length bs)) 0) as [E|]; [|done]. destruct bs; [done|simpl in E; lia]. }
    apply wp_ok. eexists. split; [done|]. split; [done|]. unfold holds. simpl. split_and!; [done..| | | |].
    + unfold zlen. rewrite length_app. lia.
    + unfold zlen in *. rewrite length_app. lia.
    + unfold zlen in *. rewrite !length_app, length_drop. lia.
    + rewrite app_assoc. by apply take_app_length'.
Qed.

Lemma net_buf_run_ok d cap os : ∀ b s, holds b d cap s → cap < 2 ^ 63 → Forall op_ok os →
  run b os ⇓ λ '(rs, b'), rs = (spec_run cap s os).1 ∧ holds b' d cap (spec_run cap s os).2.
Proof.
  induction os as [|o os IH]; intros b s Hb Hcap Hos; cbn [run spec_run]; [by apply wp_ok|].
  apply Forall_cons in Hos as [Ho Hos]. eapply wp_bind, wp_mono; [by apply exec_ok|].
  intros [r b'] (b1 & -> & Hr & Hh). destruct (spec_exec cap s o) as [r0 s0]. simpl in Hr, Hh. subst r0.
  eapply wp_bind, wp_mono; [by apply (IH b1 s0)|]. intros [rs b2] [-> H2]. apply wp_ok.
  by destruct (spec_run cap s0 os).
Qed.

Section Client.
Context {H : Type} `{AL : Allocator H}.

(** Allocate, work on the buffer, read its bytes, free it. *)
Definition session (h : H) (cap : Z) (uninit : list Z) (os : list buf_op) : outcome (option (list Z * list Z) * H) :=
  '(buf, h) ← net_buf_alloc h cap uninit;
  match buf with
  | None => Ok (None, h)
  | Some (p, b) =>
      '(rs, b) ← run b os;
      let bytes := take (Z.to_nat (length b)) (data b).2 in
      h ← net_buf_free h (Some (p, b));
      Ok (Some (rs, bytes), h)
  end.

(** A packet buffer takes bytes at both ends as a bounded string does, refuses what does
    not fit, and gives both its blocks back. *)
Theorem net_buf_session h L cap uninit os :
  al_repr h L → 0 < cap ≤ 2 ^ 32 - 16 → cap ≤ zlen uninit → Forall op_ok os →
  session h cap uninit os ⇓ λ '(r, h'), al_repr h' L ∧ (r = None ∨ r = Some (spec_run cap [] os)).
Proof.
  intros HL Hcap Hu Hos. unfold session, net_buf_alloc.
  eapply wp_bind, wp_bind, wp_mono; [by apply (al_calloc_spec h L 1 NET_BUF_SIZE)|].
  intros [p h1] [[-> H1]|(sz & Hp & _ & _ & _ & H1)]; [apply wp_ok, wp_ok; auto|].
  destruct (Z.eqb_spec p 0); [lia|]. eapply wp_bind, wp_mono; [eapply al_malloc_spec; [exact H1|lia]|].
  intros [d h2] [[-> H2]|(sz' & Hd & _ & _ & _ & H2)].
  - simpl. eapply wp_bind, wp_mono; [by eapply al_free_spec|]. intros h3 H3. apply wp_ok, wp_ok. auto.
  - destruct (Z.eqb_spec d 0); [lia|]. apply wp_ok.
    eapply wp_bind, wp_mono; [apply (net_buf_run_ok d cap os _ []); [|lia|done]|].
    { unfold holds. simpl. unfold zlen in *. simpl. split_and!; done || lia. }
    intros [rs b] [-> (Hdb & _ & Hlen & _ & _ & Ht)]. unfold net_buf_free. rewrite Hdb.
    eapply wp_bind, wp_bind, wp_mono; [by eapply al_free_spec|]. intros h3 H3.
    eapply wp_mono; [exact (al_free_spec _ _ _ _ H3)|]. intros h4 H4. apply wp_ok. split; [done|]. right.
    rewrite Hlen. unfold zlen. rewrite Nat2Z.id, Ht. by destruct (spec_run cap [] os).
Qed.

End Client.

End NetBuf.
