(* ===== verification/Rtc.v ===== *)
(** The clocks: the timer (kernel/drivers/timer.c, module [Timer]) and the real-time clock
    (kernel/drivers/rtc.c): reading a consistent snapshot of the CMOS
    registers, decoding it and converting the date to seconds since 1970.

    The ports are the processor's [outb] and [inb], parameters over the state [W] of the
    hardware. *)
From S2P Require Import Prelude.

Module Rtc.

Record rtc_time_t := { year : Z; month : Z; day : Z; hour : Z; minute : Z; second : Z }.

Definition CMOS_INDEX : Z := 0x70.
Definition CMOS_DATA : Z := 0x71.

Definition bcd_to_binary (value : Z) : Z := u8 (Z.land value 0x0f + Z.shiftr value 4 * 10).

Definition same_time (l r : rtc_time_t) : bool :=
  (second l =? second r) && (minute l =? minute r) && (hour l =? hour r) && (day l =? day r) &&
  (month l =? month r) && (year l =? year r).

Section Hardware.
Context {W : Type} (outb : W → Z → Z → W) (inb : W → Z → Z * W).

Definition cmos_read (w : W) (reg : Z) : Z * W := inb (outb w CMOS_INDEX (u8 (Z.lor 0x80 reg))) CMOS_DATA.

Definition rtc_updating (w : W) : bool * W :=
  let '(v, w) := cmos_read w 0x0a in (negb (Z.land v 0x80 =? 0), w).

Definition read_snapshot (w : W) : rtc_time_t * Z * W :=
  let '(s, w) := cmos_read w 0x00 in
  let '(mi, w) := cmos_read w 0x02 in
  let '(h, w) := cmos_read w 0x04 in
  let '(d, w) := cmos_read w 0x07 in
  let '(mo, w) := cmos_read w 0x08 in
  let '(y, w) := cmos_read w 0x09 in
  let '(status_b, w) := cmos_read w 0x0b in
  ({| year := y; month := mo; day := d; hour := h; minute := mi; second := s |}, status_b, w).

(** [while (rtc_updating()) { }] *)
Definition wait_update (fuel : nat) (w : W) : outcome W :=
  loop fuel (λ w, let '(u, w) := rtc_updating w in Ok (if u then inl w else inr w)) w.

(** The decoding of [rtc_read], from the registers to a date. *)
Definition from_bcd (t : rtc_time_t) : rtc_time_t :=
  {| second := bcd_to_binary (second t); minute := bcd_to_binary (minute t);
     hour := u8 (Z.lor (bcd_to_binary (Z.land (hour t) 0x7f)) (Z.land (hour t) 0x80));
     day := bcd_to_binary (day t); month := bcd_to_binary (month t); year := bcd_to_binary (u8 (year t)) |}.

Definition set_hour (t : rtc_time_t) (h : Z) : rtc_time_t :=
  {| year := year t; month := month t; day := day t; hour := h; minute := minute t; second := second t |}.

Definition from_12_hours (t : rtc_time_t) : rtc_time_t :=
  let h := Z.land (hour t) 0x7f in
  set_hour t (if negb (Z.land (hour t) 0x80 =? 0) then u8 (h mod 12 + 12) else if h =? 12 then 0 else h).

Definition decode (t : rtc_time_t) (status_b : Z) : rtc_time_t :=
  let t := if Z.land status_b 0x04 =? 0 then from_bcd t else t in
  let t := if Z.land status_b 0x02 =? 0 then from_12_hours t else t in
  {| year := u16 (2000 + year t); month := month t; day := day t; hour := hour t; minute := minute t;
     second := second t |}.

(** The second result is what is stored through [time]: nothing when it is NULL. *)
Definition rtc_read (fuel : nat) (w : W) (time : option rtc_time_t) : outcome (Z * option rtc_time_t * W) :=
  match time with
  | None => Ok (-1, None, w)
  | Some t0 =>
      r ← for_loop 0 8
            (λ attempt '(t, sb, w),
               w ← wait_update fuel w;
               let '(previous, _, w) := read_snapshot w in
               w ← wait_update fuel w;
               let '(t, sb, w) := read_snapshot w in
               if same_time previous t then Ok (inr (Some (t, sb, w), t, w))
               else if attempt =? 7 then Ok (inr (None, t, w))
               else Ok (inl (t, sb, w))) (t0, 0, w);
      match r with
      | inr (None, t, w) => Ok (-1, Some t, w)
      | inr (Some (t, sb, w), _, _) | inl (t, sb, w) => Ok (0, Some (decode t sb), w)
      end
  end.

Definition leap_year (y : Z) : bool :=
  ((y mod 4 =? 0) && negb (y mod 100 =? 0)) || (y mod 400 =? 0).

Definition days_before_month : list Z := [0; 0; 31; 59; 90; 120; 151; 181; 212; 243; 273; 304; 334].

(** [uninit] is what the local [time] holds before [rtc_read]. *)
Definition rtc_unix_time (fuel : nat) (w : W) (uninit : rtc_time_t) : outcome (Z * W) :=
  '(r, time, w) ← rtc_read fuel w (Some uninit);
  match time with
  | None => Undef
  | Some t =>
      if negb (r =? 0) || (year t <? 1970) || (month t <? 1) || (12 <? month t) || (day t <? 1) || (31 <? day t)
      then Ok (0, w)
      else
        days ← for_each 1970 (year t) (λ y days, Ok (u64 (days + (if leap_year y then 366 else 365)))) 0;
        before ← zget days_before_month (month t);
        let days := u64 (days + (before + day t - 1)) in
        let days := if (2 <? month t) && leap_year (year t) then u64 (days + 1) else days in
        Ok (u64 (u64 (u64 (u64 (days * 86400) + hour t * 3600) + minute t * 60) + second t), w)
  end.

End Hardware.

(** ** The calendar *)

Definition date : Type := Z * Z * Z.

Definition month_length (y m : Z) : Z :=
  if m =? 2 then if leap_year y then 29 else 28
  else if (m =? 4) || (m =? 6) || (m =? 9) || (m =? 11) then 30 else 31.

Definition next_day : date → date := λ '(y, m, d),
  if d <? month_length y m then (y, m, d + 1)
  else if m <? 12 then (y, m + 1, 1)
  else (y + 1, 1, 1).

(** The [n]-th day after 1 January 1970. *)
Definition date_after (n : nat) : date := Nat.iter n next_day (1970, 1, 1).

Definition valid_date : date → Prop := λ '(y, m, d), 1970 ≤ y ∧ 1 ≤ m ≤ 12 ∧ 1 ≤ d ≤ month_length y m.

(** The day number the conversion computes. *)
Fixpoint year_days (k : nat) : Z :=
  match k with O => 0 | S k => year_days k + (if leap_year (1970 + Z.of_nat k) then 366 else 365) end.

Definition before_month (m : Z) : Z := default 0 (days_before_month !! Z.to_nat m).

Definition day_number : date → Z := λ '(y, m, d),
  year_days (Z.to_nat (y - 1970)) + (before_month m + d - 1) + (if (2 <? m) && leap_year y then 1 else 0).

Lemma next_day_valid x : valid_date x → valid_date (next_day x).
Proof.
  destruct x as [[y m] d]. unfold valid_date, next_day. intros (Hy & Hm & Hd).
  assert (∀ y m, 28 ≤ month_length y m) as Hl by (intros y' m'; unfold month_length; repeat case_match; lia).
  pose proof (Hl y (m + 1)). pose proof (Hl (y + 1) 1).
  destruct (Z.ltb_spec d (month_length y m)); [lia|]. destruct (Z.ltb_spec m 12); lia.
Qed.

(** The table against the lengths of the months. *)
Lemma before_next_month y m : 1 ≤ m < 12 →
  before_month (m + 1) + (if (2 <? m + 1) && leap_year y then 1 else 0) =
  before_month m + (if (2 <? m) && leap_year y then 1 else 0) + month_length y m.
Proof.
  intros Hm. unfold month_length. assert (m ∈ seqZ 1 11) as Hin by (apply elem_of_seqZ; lia). clear Hm.
  assert (seqZ 1 11 = [1; 2; 3; 4; 5; 6; 7; 8; 9; 10; 11]) as E by reflexivity. rewrite E in Hin. clear E.
  rewrite !elem_of_cons, elem_of_nil in Hin.
  destruct (leap_year y); repeat (destruct Hin as [->|Hin]; [reflexivity|]); done.
Qed.

Lemma day_number_next x : valid_date x → day_number (next_day x) = day_number x + 1.
Proof.
  destruct x as [[y m] d]. unfold valid_date, next_day, day_number. intros (Hy & Hm & Hd).
  destruct (Z.ltb_spec d (month_length y m)); [lia|]. destruct (Z.ltb_spec m 12).
  - pose proof (before_next_month y m). lia.
  - assert (m = 12) as -> by lia. replace (Z.to_nat (y + 1 - 1970)) with (S (Z.to_nat (y - 1970))) by lia.
    cbn [year_days]. replace (1970 + Z.of_nat (Z.to_nat (y - 1970))) with y by lia.
    change (month_length y 12) with 31 in *. change (before_month 12) with 334. change (before_month 1) with 0.
    cbn [Z.ltb Z.compare andb]. destruct (leap_year y); simpl; lia.
Qed.

(** The conversion counts days. *)
Lemma day_number_after n : valid_date (date_after n) ∧ day_number (date_after n) = Z.of_nat n.
Proof.
  unfold date_after. induction n as [|n [Hv IH]].
  - split; [|done]. unfold valid_date, month_length. simpl. lia.
  - rewrite Nat.iter_succ. split; [by apply next_day_valid|]. rewrite day_number_next, IH by done. lia.
Qed.

Lemma year_days_range k : 0 ≤ year_days k ≤ 366 * Z.of_nat k.
Proof. induction k as [|k IH]; cbn [year_days]; [lia|]. destruct (leap_year _); lia. Qed.

Lemma year_loop y : 1970 ≤ y ≤ 4000 →
  for_each 1970 y (λ y days, Ok (u64 (days + (if leap_year y then 366 else 365)))) 0 =
  Ok (year_days (Z.to_nat (y - 1970))).
Proof.
  intros Hy. assert (for_each 1970 y (λ y days, Ok (u64 (days + (if leap_year y then 366 else 365)))) 0 ⇓
    λ d, d = year_days (Z.to_nat (y - 1970))) as (d & -> & ->); [|done].
  apply (wp_for_each (λ i d, d = year_days (Z.to_nat (i - 1970)))); [lia|done| |done].
  intros i s Hi ->. apply wp_ok. replace (Z.to_nat (i + 1 - 1970)) with (S (Z.to_nat (i - 1970))) by lia.
  cbn [year_days]. replace (1970 + Z.of_nat (Z.to_nat (i - 1970))) with i by lia.
  pose proof (year_days_range (Z.to_nat (i - 1970))). apply u64_small. destruct (leap_year i); lia.
Qed.

(** ** What the registers show

    Bit 2 of status register B says that the numbers are binary and not BCD, bit 1 that the
    hour counts to 24; otherwise bit 7 of the hour marks the afternoon. *)

Definition enc (status_b v : Z) : Z := if Z.land status_b 0x04 =? 0 then v / 10 * 16 + v mod 10 else v.

Definition enc_hour (status_b h : Z) : Z :=
  if Z.land status_b 0x02 =? 0
  then enc status_b (if h mod 12 =? 0 then 12 else h mod 12) + (if 12 <=? h then 0x80 else 0)
  else enc status_b h.

Definition shows (regs : Z → Z) (x : date) (h mi s : Z) : Prop := let '(y, m, d) := x in
  let sb := regs 0x0b in
  Z.land (regs 0x0a) 0x80 = 0 ∧ regs 0x00 = enc sb s ∧ regs 0x02 = enc sb mi ∧ regs 0x04 = enc_hour sb h ∧
  regs 0x07 = enc sb d ∧ regs 0x08 = enc sb m ∧ regs 0x09 = enc sb (y - 2000).

Lemma for_range (f : Z → bool) lo n v : forallb f (seqZ lo n) = true → lo ≤ v < lo + n → f v = true.
Proof. intros Hf Hv. rewrite forallb_forall in Hf. apply Hf, list_elem_of_In, elem_of_seqZ. lia. Qed.

Lemma bcd_enc v : 0 ≤ v < 100 → bcd_to_binary (v / 10 * 16 + v mod 10) = v.
Proof. intros Hv. apply Z.eqb_eq, (for_range (λ v, bcd_to_binary (v / 10 * 16 + v mod 10) =? v) 0 100); [by vm_compute|lia]. Qed.

Lemma enc_range sb v : 0 ≤ v < 100 → 0 ≤ enc sb v < 256.
Proof. intros. unfold enc. destruct (_ =? 0); [|lia]. zlia. Qed.

(** Decoding the hour in each of the four modes. *)
Lemma decode_hour t sb h : 0 ≤ h < 24 → hour t = enc_hour sb h → hour (decode t sb) = h.
Proof.
  intros Hh Ht. unfold decode, enc_hour, enc in *.
  destruct (Z.land sb 2 =? 0), (Z.land sb 4 =? 0); cbn [hour from_12_hours set_hour from_bcd]; rewrite Ht; try done;
    apply Z.eqb_eq; revert Hh; clear; intros Hh; pattern h;
    match goal with |- (λ h, @?f h = true) _ => apply (for_range f 0 24) end; first [by vm_compute|lia].
Qed.

Lemma decode_ok regs y m d h mi s : shows regs (y, m, d) h mi s →
  2000 ≤ y < 2100 → 1 ≤ m ≤ 12 → 1 ≤ d ≤ 31 → 0 ≤ h < 24 → 0 ≤ mi < 60 → 0 ≤ s < 60 →
  decode {| year := regs 9; month := regs 8; day := regs 7; hour := regs 4; minute := regs 2; second := regs 0 |} (regs 0x0b) =
  {| year := y; month := m; day := d; hour := h; minute := mi; second := s |}.
Proof.
  intros (_ & Hs & Hmi & Hho & Hd & Hm & Hy) Hyr Hmr Hdr Hhr Hmir Hsr.
  pose proof (decode_hour {| year := regs 9; month := regs 8; day := regs 7; hour := regs 4; minute := regs 2; second := regs 0 |}
                (regs 0x0b) h Hhr Hho) as Hdec.
  rewrite Hs, Hmi, Hd, Hm, Hy in *. clear Hs Hmi Hd Hm Hy Hho. revert Hdec. unfold decode, enc.
  destruct (Z.land (regs 0x0b) 4 =? 0), (Z.land (regs 0x0b) 2 =? 0);
    cbn [year month day hour minute second from_12_hours set_hour from_bcd]; intros ->;
    rewrite ?(u8_small ((y - 2000) / 10 * 16 + (y - 2000) mod 10)) by zlia;
    rewrite ?bcd_enc by lia; rewrite u16_small by lia; f_equal; lia.
Qed.

Section Clock.
Context {W : Type} (outb : W → Z → Z → W) (inb : W → Z → Z * W) (regs : Z → Z).
(** Between two updates every read of register [r] gives the same value. *)
Context (Hclock : ∀ w r, (cmos_read outb inb w r).1 = regs r).

Lemma read_snapshot_ok w : ∃ w',
  read_snapshot outb inb w =
  ({| year := regs 9; month := regs 8; day := regs 7; hour := regs 4; minute := regs 2; second := regs 0 |}, regs 0x0b, w').
Proof.
  unfold read_snapshot.
  repeat match goal with |- context [cmos_read outb inb ?x ?r] =>
    pose proof (Hclock x r); destruct (cmos_read outb inb x r); simpl in * end.
  subst. by eexists.
Qed.

Lemma wait_update_ok fuel w : Z.land (regs 0x0a) 0x80 = 0 → wait_update outb inb (S fuel) w ⇓ λ _, True.
Proof.
  intros Hq. unfold wait_update, rtc_updating. cbn [loop]. pose proof (Hclock w 10) as Hr.
  destruct (cmos_read outb inb w 10) as [v w']. simpl in Hr. subst v. rewrite Hq. by apply wp_ok.
Qed.

Lemma same_time_refl t : same_time t t = true.
Proof. unfold same_time. by rewrite !Z.eqb_refl. Qed.

Lemma rtc_read_ok fuel w t0 : Z.land (regs 0x0a) 0x80 = 0 →
  rtc_read outb inb (S fuel) w (Some t0) ⇓ λ '(r, t, _), r = 0 ∧
    t = Some (decode {| year := regs 9; month := regs 8; day := regs 7; hour := regs 4; minute := regs 2; second := regs 0 |}
                (regs 0x0b)).
Proof.
  intros Hq. unfold rtc_read. apply wp_bind. unfold for_loop. cbn [for_nat Z.to_nat Pos.to_nat Pos.iter_op Nat.add Z.sub Z.add Z.opp Z.pos_sub].
  apply wp_bind, wp_bind. eapply wp_mono; [by apply wait_update_ok|]. intros w1 _.
  destruct (read_snapshot_ok w1) as (w2 & ->). apply wp_bind. eapply wp_mono; [by apply wait_update_ok|]. intros w3 _.
  destruct (read_snapshot_ok w3) as (w4 & ->). rewrite same_time_refl. apply wp_ok, wp_ok, wp_ok. done.
Qed.

(** rtc_unix_time read from a steady clock set to any valid date and time of the years 2000 to
    2099, in binary or BCD and in 12- or 24-hour format, is the number of seconds since 1970
    that counting days one by one in the Gregorian calendar gives. *)
Theorem rtc_unix_time_correct fuel w uninit n y m d h mi s :
  date_after n = (y, m, d) → 2000 ≤ y < 2100 → shows regs (y, m, d) h mi s →
  0 ≤ h < 24 → 0 ≤ mi < 60 → 0 ≤ s < 60 →
  rtc_unix_time outb inb (S fuel) w uninit ⇓ λ '(t, _), t = 86400 * Z.of_nat n + 3600 * h + 60 * mi + s.
Proof.
  intros Hn Hy Hsh Hh Hmi Hs. destruct (day_number_after n) as [Hv Hd]. rewrite Hn in Hv, Hd.
  destruct Hv as (_ & Hm & Hdd). assert (month_length y m ≤ 31) by (unfold month_length; repeat case_match; lia).
  unfold rtc_unix_time. eapply wp_bind, wp_mono; [apply rtc_read_ok, Hsh|]. intros [[r t] w'] (-> & ->).
  rewrite (decode_ok regs y m d h mi s) by (done || lia). cbn [year month day hour minute second].
  destruct (negb (0 =? 0) || _ || _ || _ || _ || _) eqn:E; [simpl in E; lia|]. rewrite year_loop, bind_ok by lia.
  assert (before_month m ≤ 334 ∧ 0 ≤ before_month m ∧ zget days_before_month m = Ok (before_month m)) as (Hb & Hb0 & ->).
  { assert (m ∈ seqZ 1 12) as Hin by (apply elem_of_seqZ; lia).
    assert (seqZ 1 12 = [1; 2; 3; 4; 5; 6; 7; 8; 9; 10; 11; 12]) as E' by reflexivity. rewrite E' in Hin.
    rewrite !elem_of_cons, elem_of_nil in Hin. repeat (destruct Hin as [->|Hin]; [by vm_compute|]). done. }
  rewrite bind_ok. apply wp_ok. pose proof (year_days_range (Z.to_nat (y - 1970))).
  revert Hd. unfold day_number. rewrite (u64_small (year_days _ + _)) by lia.
  destruct ((2 <? m) && leap_year y); intros Hd; [rewrite (u64_small (_ + 1)) by lia|];
    rewrite (u64_small (_ * 86400)) by lia; rewrite (u64_small (_ + h * 3600)) by lia; rewrite (u64_small (_ + mi * 60)) by lia;
    rewrite u64_small by lia; lia.
Qed.

End Clock.

(** A chip whose state is the register selected: 1 March 2024, 12:34:56, as BCD and with a
    twelve-hour clock. *)
Definition sample_out (_ port v : Z) : Z := v.
Definition sample_in (w port : Z) : Z * Z :=
  let r := Z.land w 0x7f in
  (if r =? 0 then 0x56 else if r =? 2 then 0x34 else if r =? 4 then 0x92 else if r =? 7 then 0x01
   else if r =? 8 then 0x03 else if r =? 9 then 0x24 else 0, w).

Lemma rtc_unix_time_correct_witness :
  rtc_unix_time sample_out sample_in 1 0 (Build_rtc_time_t 0 0 0 0 0 0) ⇓ λ '(t, _), t = 1709296496.
Proof.
  eapply wp_mono.
  - apply (rtc_unix_time_correct sample_out sample_in (λ r, (cmos_read sample_out sample_in 0 r).1) (λ w r, eq_refl)
             0 0 _ (Z.to_nat 19783) 2024 3 1 12 34 56); [by vm_compute|lia| |lia..].
    unfold shows. split_and!; by vm_compute.
  - intros [t w] ->. reflexivity.
Defined.

End Rtc.

(** The timer (kernel/drivers/timer.c).  [ticks] is advanced by the timer interrupt. *)
Module Timer.

Definition PIT_INPUT_HZ : Z := 1193182.
Definition PIT_CHANNEL0 : Z := 0x40.
Definition PIT_COMMAND : Z := 0x43.

Section Timer.
Context {W : Type} (outb : W → Z → Z → W).

(** The rate stored and the hardware after programming it. *)
Definition timer_init (w : W) (hz : Z) : outcome (Z * W) :=
  let hz := if hz =? 0 then 100 else hz in
  divisor ← udiv PIT_INPUT_HZ hz;
  let w := outb w PIT_COMMAND 0x36 in
  let w := outb w PIT_CHANNEL0 (u8 (Z.land divisor 0xff)) in
  let w := outb w PIT_CHANNEL0 (u8 (Z.land (Z.shiftr divisor 8) 0xff)) in
  Ok (hz, w).

End Timer.

(** [callback] is what [timer_set_callback] stored, over the state [T] it changes. *)
Definition timer_irq {T} (callback : option (T → outcome T)) (ticks : Z) (t : T) : outcome (Z * T) :=
  let ticks := u64 (ticks + 1) in
  match callback with None => Ok (ticks, t) | Some f => t ← f t; Ok (ticks, t) end.

Definition timer_ticks (ticks : Z) : Z := ticks.
Definition timer_uptime_ms (ticks hz : Z) : outcome Z := udiv (u64 (ticks * 1000)) hz.

(** Each [hlt] ends at the next tick; [fuel] bounds how many are waited for. *)
Definition timer_sleep_ms (fuel : nat) (hz ticks ms : Z) : outcome Z :=
  now ← timer_uptime_ms ticks hz;
  let stop := u64 (now + ms) in
  loop fuel (λ ticks, now ← timer_uptime_ms ticks hz;
                      Ok (if now <? stop then inl (u64 (ticks + 1)) else inr ticks)) ticks.

(** A sleep ends at the first tick at which the time asked for has passed. *)
Lemma timer_sleep_ok hz ticks ms :
  0 < hz → 0 ≤ ticks → 0 ≤ ms → (ticks + ms * hz + hz + 1) * 1000 < 2 ^ 64 →
  timer_sleep_ms (S (Z.to_nat (ms * hz + hz))) hz ticks ms ⇓ λ t,
    ticks ≤ t ∧ ticks * 1000 / hz + ms ≤ t * 1000 / hz ∧ ∀ u, ticks ≤ u < t → u * 1000 / hz < ticks * 1000 / hz + ms.
Proof.
  intros Hhz Ht Hms Hmax. assert (0 ≤ ms * hz) by nia. unfold timer_sleep_ms, timer_uptime_ms.
  rewrite udiv_ok, bind_ok by lia. rewrite (u64_small (ticks * 1000)) by lia. set (b := ticks * 1000 / hz).
  assert (0 ≤ b ≤ ticks * 1000) as Hb by (unfold b; split; [apply Z.div_pos; lia|apply Z.div_le_upper_bound; nia]).
  assert (ms ≤ ms * hz) by nia.
  assert (b + ms ≤ (ticks + ms * hz + hz) * 1000 / hz) as Hend.
  { apply Z.div_le_lower_bound; [lia|]. assert (hz * b ≤ ticks * 1000) by (unfold b; apply Z.mul_div_le; lia). nia. }
  rewrite (u64_small (b + ms)) by lia.
  apply (wp_loop (λ t, ticks ≤ t ≤ ticks + ms * hz + hz ∧ ∀ u, ticks ≤ u < t → u * 1000 / hz < b + ms)
           (λ t, Z.to_nat (ticks + ms * hz + hz - t))); [|split; lia|lia].
  intros t [Hr Hu]. rewrite udiv_ok, bind_ok by lia. rewrite (u64_small (t * 1000)) by lia.
  destruct (Z.ltb_spec (t * 1000 / hz) (b + ms)) as [Hlt|Hge]; apply wp_ok; [|split; [lia|done]].
  assert (t ≠ ticks + ms * hz + hz) by (intros ->; lia).
  rewrite u64_small by lia. split; [|lia]. split; [lia|]. intros u Hu'.
  destruct (decide (u = t)) as [->|]; [done|]. apply Hu. lia.
Qed.

End Timer.
