(* ===== verification/Console.v ===== *)
(** Keyboard and console input (kernel/drivers/keyboard.c, keyboard_map.h, console.c).

    [W] is the state of the hardware and [inb] its input port, [S] the state of the output
    that [kputchar] changes and [putc] that function.  A key event arrives between two
    calls, not in the middle of one. *)
From S2P Require Import Prelude KString Ring KStdlib KPrintf.

Module Keyboard.

Definition KBD_DATA : Z := 0x60.
Definition KBD_STATUS : Z := 0x64.

Definition keyboard_us_map : list Z :=
  [0; 27; 49; 50; 51; 52; 53; 54; 55; 56; 57; 48; 45; 61; 8; 9;
   113; 119; 101; 114; 116; 121; 117; 105; 111; 112; 91; 93; 10; 0; 97; 115;
   100; 102; 103; 104; 106; 107; 108; 59; 39; 96; 0; 92; 122; 120; 99; 118;
   98; 110; 109; 44; 46; 47; 0; 42; 0; 32; 0] ++ replicate 69 0.
Definition keyboard_us_shift_map : list Z :=
  [0; 27; 33; 64; 35; 36; 37; 94; 38; 42; 40; 41; 95; 43; 8; 9;
   81; 87; 69; 82; 84; 89; 85; 73; 79; 80; 123; 125; 10; 0; 65; 83;
   68; 70; 71; 72; 74; 75; 76; 58; 34; 126; 0; 124; 90; 88; 67; 86;
   66; 78; 77; 60; 62; 63; 0; 42; 0; 32; 0] ++ replicate 69 0.

Section Keyboard.
Context {W : Type} (inb : W → Z → Z * W).

(** [keyboard_shift_down] reads the flag [shift_down], which the functions take and give
    back here. *)
Definition keyboard_shift_down (shift : bool) : bool := shift.

Definition char_of (shift : bool) (code : Z) : outcome Z :=
  zget (if shift then keyboard_us_shift_map else keyboard_us_map) code.

(** [handler] is the function [keyboard_set_handler] stored, over its own state [T]. *)
Definition keyboard_irq {T} (handler : option (T → Z → Z → bool → outcome T)) (w : W) (shift : bool) (t : T)
  : outcome (W * bool * T) :=
  let '(scancode, w) := inb w KBD_DATA in
  let pressed := Z.land scancode 0x80 =? 0 in
  let code := Z.land scancode 0x7f in
  if (code =? 0x2a) || (code =? 0x36) then Ok (w, pressed, t)
  else
    ch ← char_of shift code;
    match handler with
    | None => Ok (w, shift, t)
    | Some f => t ← f t code ch pressed; Ok (w, shift, t)
    end.

Definition keyboard_init (w : W) : outcome W :=
  r ← for_loop 0 256
        (λ _ w, let '(st, w) := inb w KBD_STATUS in
                Ok (if Z.land st 1 =? 0 then inr w else inl (inb w KBD_DATA).2)) w;
  match r with inl w | inr w => Ok w end.

(** [None] is the return value 0. *)
Definition keyboard_poll_char (w : W) (shift : bool) : outcome (option Z * W * bool) :=
  let '(st, w) := inb w KBD_STATUS in
  if Z.land st 1 =? 0 then Ok (None, w, shift)
  else
    let '(scancode, w) := inb w KBD_DATA in
    let pressed := Z.land scancode 0x80 =? 0 in
    let code := Z.land scancode 0x7f in
    if (code =? 0x2a) || (code =? 0x36) then Ok (None, w, pressed)
    else if negb pressed then Ok (None, w, shift)
    else
      ch ← char_of shift code;
      Ok (if ch =? 0 then None else Some ch, w, shift).

(** The maps cover every code, so no scancode makes the driver read outside them. *)
Lemma char_of_ok shift sc : char_of shift (Z.land sc 0x7f) ⇓ λ ch, 0 ≤ ch < 128.
Proof.
  assert (Z.land sc 0x7f = sc mod 128) as -> by (change 0x7f with (Z.ones 7); by rewrite Z.land_ones by lia).
  pose proof (Z.mod_pos_bound sc 128). assert (∀ l, length l = 128%nat → forallb (λ c, (0 <=? c) && (c <? 128)) l = true →
    zget l (sc mod 128) ⇓ λ ch, 0 ≤ ch < 128) as Hall.
  { intros l Hl Hf. apply wp_zget; [unfold zlen; lia|]. intros c Hc. rewrite forallb_forall in Hf.
    specialize (Hf c). rewrite <-list_elem_of_In in Hf. assert (c ∈ l) as Hin by (by eapply list_elem_of_lookup_2).
    specialize (Hf Hin). lia. }
  unfold char_of. destruct shift; by apply Hall.
Qed.

Lemma keyboard_poll_ok w shift : keyboard_poll_char w shift ⇓ λ '(c, _, _), ∀ x, c = Some x → 0 < x < 128.
Proof.
  unfold keyboard_poll_char. destruct (inb w KBD_STATUS) as [st w1].
  destruct (_ =? 0); [by apply wp_ok|]. destruct (inb w1 KBD_DATA) as [sc w2]. cbv zeta.
  destruct (_ || _); [by apply wp_ok|]. destruct (negb _); [by apply wp_ok|].
  eapply wp_bind, wp_mono; [apply char_of_ok|]. intros ch Hch. apply wp_ok. intros x.
  destruct (Z.eqb_spec ch 0); [done|]. intros [= <-]. simpl in Hch. lia.
Qed.

End Keyboard.
End Keyboard.

Module Console.
Import KString.

Definition CONSOLE_INPUT_CAPACITY : Z := 512.

Record console_t := { input_buffer : list Z; input_head : Z; input_tail : Z }.

Definition next_index (index : Z) : Z := u64 (index + 1) mod CONSOLE_INPUT_CAPACITY.

Definition console_init (c : console_t) : console_t :=
  {| input_buffer := input_buffer c; input_head := 0; input_tail := 0 |}.

Definition console_pending (c : console_t) : Z :=
  if input_tail c <=? input_head c then u64 (input_head c - input_tail c)
  else u64 (CONSOLE_INPUT_CAPACITY - input_tail c + input_head c).

Section Console.
Context {S : Type} (putc : S → Z → outcome S).

Definition console_keyboard_event (t : console_t * S) (scancode ch : Z) (pressed : bool) : outcome (console_t * S) :=
  let '(c, st) := t in
  if negb pressed || (ch =? 0) then Ok (c, st)
  else if ch =? 8 then
    if negb (input_head c =? input_tail c) then
      let head := if input_head c =? 0 then CONSOLE_INPUT_CAPACITY - 1 else input_head c - 1 in
      st ← KPrintf.kputs putc st (Some (cstr [8; 32; 8]));
      Ok ({| input_buffer := input_buffer c; input_head := head; input_tail := input_tail c |}, st)
    else Ok (c, st)
  else
    let next := next_index (input_head c) in
    if next =? input_tail c then Ok (c, st)
    else
      b ← zset (input_buffer c) (input_head c) (u8 ch);
      st ← putc st ch;
      Ok ({| input_buffer := b; input_head := next; input_tail := input_tail c |}, st).

(** [poll] is [keyboard_poll_char] on the world the console runs in. *)
Context (poll : S → outcome (option Z * S)).

(** One turn of the loops of [console_read]: [inr] returns from the function. *)
Definition read_step (count : Z) (blocking : bool)
  : console_t * S * list Z * Z → outcome (console_t * S * list Z * Z + Z * list Z * console_t * S) :=
  λ '(c, st, out, read),
    if negb (read <? count) then Ok (inr (read, out, c, st))
    else if input_tail c =? input_head c then
      if negb blocking || (0 <? read) then Ok (inr (read, out, c, st))
      else
        '(polled, st) ← poll st;
        match polled with
        | Some ch =>
            out ← zset out read (u8 ch);
            st ← putc st ch;
            let read := u64 (read + 1) in
            Ok (if (ch =? 10) || (read =? count) then inr (read, out, c, st) else inl (c, st, out, read))
        | None => Ok (inl (c, st, out, read))
        end
    else
      ch ← zget (input_buffer c) (input_tail c);
      let c := {| input_buffer := input_buffer c; input_head := input_head c; input_tail := next_index (input_tail c) |} in
      out ← zset out read ch;
      let read := u64 (read + 1) in
      Ok (if ch =? 10 then inr (read, out, c, st) else inl (c, st, out, read)).

(** [fuel] bounds the turns, those in which nothing was typed included. *)
Definition console_read (fuel : nat) (c : console_t) (st : S) (buffer : option (list Z)) (count : Z) (blocking : bool)
  : outcome (Z * option (list Z) * console_t * S) :=
  match buffer with
  | None => Ok (0, None, c, st)
  | Some out =>
      if count =? 0 then Ok (0, buffer, c, st)
      else
        '(r, out, c, st) ← loop fuel (read_step count blocking) (c, st, out, 0);
        Ok (r, Some out, c, st)
  end.

End Console.

(** ** Correctness: the console is a line queue with rubout *)

Definition repr (c : console_t) (q : list Z) : Prop :=
  Ring.holds (input_buffer c) CONSOLE_INPUT_CAPACITY (input_tail c) q ∧ zlen q < CONSOLE_INPUT_CAPACITY ∧
  input_head c = (input_tail c + zlen q) mod CONSOLE_INPUT_CAPACITY.

(** What is echoed goes to a list of characters. *)
Definition echo (st : list Z) (ch : Z) : outcome (list Z) := Ok (st ++ [ch]).

Lemma repr_init c : CONSOLE_INPUT_CAPACITY ≤ zlen (input_buffer c) → repr (console_init c) [].
Proof. intros Hc. split; [|done]. by apply Ring.holds_nil. Qed.

Lemma repr_empty c q : repr c q → (input_head c =? input_tail c) = bool_decide (q = []).
Proof.
  intros (Hh & Hlt & ->). pose proof Hh as (_ & Hst & _). unfold CONSOLE_INPUT_CAPACITY in *.
  case_bool_decide as E.
  - subst q. change (zlen (A := Z) []) with 0. apply Z.eqb_eq. rewrite Z.add_0_r. apply Z.mod_small. lia.
  - assert (0 < zlen q) by (destruct q; [done|unfold zlen; simpl; lia]). apply Z.eqb_neq. zlia.
Qed.

Lemma repr_pending c q : repr c q → console_pending c = zlen q.
Proof.
  intros (Hh & Hlt & He). pose proof Hh as (_ & Hst & _). unfold console_pending, CONSOLE_INPUT_CAPACITY in *.
  assert (0 ≤ zlen q) by (unfold zlen; lia). destruct (Z.leb_spec (input_tail c) (input_head c)); rewrite u64_small; zlia.
Qed.

Lemma next_index_ok i : 0 ≤ i < CONSOLE_INPUT_CAPACITY → next_index i = (i + 1) mod CONSOLE_INPUT_CAPACITY.
Proof. unfold next_index, CONSOLE_INPUT_CAPACITY. intros. by rewrite u64_small by lia. Qed.

(** The abstract keyboard line: what an event does to it and what it echoes. *)
Definition key (q : list Z) (ch : Z) (pressed : bool) : list Z * list Z :=
  if negb pressed || (ch =? 0) then (q, [])
  else if ch =? 8 then match q with [] => (q, []) | _ => (removelast q, [8; 32; 8]) end
  else if zlen q =? CONSOLE_INPUT_CAPACITY - 1 then (q, [])
  else (q ++ [u8 ch], [ch]).

(** At most [n] characters, up to and including the first newline. *)
Fixpoint line (n : nat) (q : list Z) : list Z :=
  match n, q with S n, c :: q => if c =? 10 then [c] else c :: line n q | _, _ => [] end.

Lemma key_ok c q st sc ch pressed : repr c q →
  console_keyboard_event echo (c, st) sc ch pressed ⇓ λ '(c', st'),
    repr c' (key q ch pressed).1 ∧ st' = st ++ (key q ch pressed).2.
Proof.
  intros Hr. unfold console_keyboard_event, key. destruct (negb pressed || (ch =? 0)).
  { apply wp_ok. by rewrite app_nil_r. }
  destruct (ch =? 8).
  - rewrite (repr_empty c q Hr). case_bool_decide as E; cbn [negb].
    { subst q. apply wp_ok. by rewrite app_nil_r. }
    destruct (exists_last E) as (q' & x & ->). rewrite removelast_last. destruct (q' ++ [x]) eqn:Eq; [done|]. rewrite <-Eq in *. clear Eq.
    apply wp_ok. rewrite <-!app_assoc. split; [|done].
    destruct Hr as (Hh & Hlt & He). split; [by eapply Ring.holds_app_l|]. pose proof Hh as (_ & Hst & _).
    rewrite He. unfold zlen, CONSOLE_INPUT_CAPACITY in *. rewrite length_app in *. simpl length in *.
    cbn [input_head input_tail]. split; [lia|]. destruct (Z.eqb_spec ((input_tail c + Z.of_nat (length q' + 1)) mod 512) 0); zlia.
  - destruct Hr as (Hh & Hlt & He). pose proof Hh as (Hc & Hst & _). cbv zeta.
    assert (0 ≤ zlen q) by (unfold zlen; lia). pose proof (Z.mod_pos_bound (input_tail c + zlen q) CONSOLE_INPUT_CAPACITY ltac:(done)) as Hb.
    rewrite next_index_ok by (rewrite He; done).
    assert (((input_head c + 1) mod CONSOLE_INPUT_CAPACITY =? input_tail c) = (zlen q =? CONSOLE_INPUT_CAPACITY - 1)) as ->.
    { rewrite He. unfold CONSOLE_INPUT_CAPACITY in *. destruct (Z.eqb_spec (zlen q) (512 - 1)); [apply Z.eqb_eq|apply Z.eqb_neq]; zlia. }
    destruct (Z.eqb_spec (zlen q) (CONSOLE_INPUT_CAPACITY - 1)).
    { apply wp_ok. by rewrite app_nil_r. }
    rewrite He. eapply wp_bind, wp_zset; [lia|]. apply wp_ok. cbn [fst snd]. split; [|done]. split; [|split].
    + cbn [input_buffer input_tail]. by apply Ring.holds_push.
    + unfold zlen in *. rewrite length_app. simpl. lia.
    + cbn [input_head input_tail]. rewrite Zplus_mod_idemp_l. f_equal. unfold zlen. rewrite length_app. simpl. lia.
Qed.

(** Bytes stored one after the other. *)
Lemma splice_cons (out : list Z) off x l : 0 ≤ off < zlen out →
  splice out off (x :: l) = splice (splice out off [x]) (off + 1) l.
Proof.
  intros Ho. unfold splice, zlen in *. replace (Z.to_nat (off + 1)) with (Datatypes.S (Z.to_nat off)) by lia.
  set (k := Z.to_nat off) in *. assert (length (take k out) = k) as Hk by (rewrite length_take; lia).
  cbn [app length]. rewrite take_app_ge, drop_app_ge by lia. rewrite Hk.
  replace (Datatypes.S k - k)%nat with 1%nat by lia. replace (Datatypes.S k + length l - k)%nat with (Datatypes.S (length l)) by lia.
  cbn [take drop app]. rewrite take_0, drop_drop, <-app_assoc. cbn [app]. do 4 f_equal. lia.
Qed.

Lemma read_loop_ok {S} (putc : S → Z → outcome S) poll count blocking st n : ∀ fuel c q out read,
  repr c q → (0 < read ∨ blocking = false ∨ q ≠ []) → 0 ≤ read → read + Z.of_nat n = count → count ≤ zlen out →
  count < 2 ^ 63 → (n < fuel)%nat →
  loop fuel (read_step putc poll count blocking) (c, st, out, read) ⇓ λ '(r, out', c', st'),
    let l := line n q in
    r = read + zlen l ∧ out' = splice out read l ∧ repr c' (drop (length l) q) ∧ st' = st.
Proof.
  induction n as [|n IH]; intros fuel c q out read Hr Hw Hread Hn Hout Hmax Hf; (destruct fuel as [|fuel]; [lia|]); cbn [loop].
  - cbn [read_step]. destruct (Z.ltb_spec read count); [lia|]. apply wp_ok. cbv zeta. simpl line. rewrite drop_0.
    split; [unfold zlen; simpl; lia|]. split; [|done]. unfold splice. simpl. by rewrite Nat.add_0_r, take_drop.
  - cbn [read_step]. destruct (Z.ltb_spec read count); [|lia]. cbn [negb].
    rewrite Z.eqb_sym, (repr_empty c q Hr). case_bool_decide as E.
    + subst q. destruct (negb blocking || (0 <? read)) eqn:Eb; [|destruct blocking, Hw as [|[|]]; simpl in Eb; done || lia].
      apply wp_ok. simpl line. rewrite drop_0. split; [unfold zlen; simpl; lia|].
      split; [|done]. unfold splice. simpl. by rewrite Nat.add_0_r, take_drop.
    + destruct q as [|x q]; [done|]. destruct Hr as (Hh & Hlt & He). pose proof Hh as (_ & Htl & _).
      apply Ring.holds_pop in Hh as [Hx Hh]. rewrite (zget_ok _ _ x), bind_ok by (done || lia).
      eapply wp_bind, wp_bind, wp_zset; [lia|]. rewrite u64_small by lia.
      set (c1 := {| input_buffer := _; input_head := _; input_tail := _ |}).
      assert (repr c1 q) as H1.
      { unfold c1, repr. cbn [input_buffer input_head input_tail]. rewrite next_index_ok by done. split; [done|].
        unfold zlen in *. simpl length in *. split; [lia|]. rewrite He, Zplus_mod_idemp_l. f_equal. lia. }
      assert (splice out read [x] = <[Z.to_nat read := x]> out) as Hins.
      { unfold splice. simpl. rewrite insert_take_drop by (unfold zlen in *; lia). do 3 f_equal. lia. }
      cbn [line]. destruct (x =? 10); apply wp_ok.
      * apply wp_ok. simpl length. split; [done|]. split; [by rewrite Hins|]. split; [|done]. simpl. by rewrite drop_0.
      * eapply wp_mono; [apply (IH fuel c1 q _ (read + 1)); [done|lia..|rewrite zlen_insert; lia|lia|lia]|].
        intros [[[r out'] c'] st'] (-> & -> & Hr' & ->). simpl length. split; [unfold zlen; simpl; lia|].
        split; [|done]. rewrite <-Hins. symmetry. apply splice_cons; lia.
Qed.

(** Calls on the console, with the characters read and the characters echoed. *)
Inductive console_op := Key (scancode ch : Z) (pressed : bool) | Read (count : Z).

Section Client.
Context (poll : list Z → outcome (option Z * list Z)).

Fixpoint run (c : console_t) (st : list Z) (os : list console_op) : outcome (list (list Z) * console_t * list Z) :=
  match os with
  | [] => Ok ([], c, st)
  | Key sc ch pressed :: os =>
      '(c, st) ← console_keyboard_event echo (c, st) sc ch pressed;
      run c st os
  | Read count :: os =>
      '(r, out, c, st) ← console_read echo poll (S (Z.to_nat count)) c st (Some (replicate (Z.to_nat count) 0)) count false;
      '(ls, c, st) ← run c st os;
      Ok (take (Z.to_nat r) (default [] out) :: ls, c, st)
  end.

Fixpoint line_run (q st : list Z) (os : list console_op) : list (list Z) * list Z * list Z :=
  match os with
  | [] => ([], q, st)
  | Key sc ch pressed :: os => line_run (key q ch pressed).1 (st ++ (key q ch pressed).2) os
  | Read count :: os =>
      let l := line (Z.to_nat count) q in
      let '(ls, q, st) := line_run (drop (length l) q) st os in (l :: ls, q, st)
  end.

Definition op_ok (o : console_op) : Prop := match o with Key _ _ _ => True | Read count => 0 ≤ count < 2 ^ 63 end.

Lemma length_line n q : (length (line n q) ≤ n)%nat.
Proof. revert q. induction n as [|n IH]; intros [|x q]; simpl; try lia. destruct (x =? 10); simpl; [lia|]. specialize (IH q). lia. Qed.

Lemma console_run_ok os : ∀ c q st, repr c q → Forall op_ok os →
  run c st os ⇓ λ '(ls, c', st'), ls = (line_run q st os).1.1 ∧ repr c' (line_run q st os).1.2 ∧ st' = (line_run q st os).2.
Proof.
  induction os as [|[sc ch pressed|count] os IH]; intros c q st Hr Hos; cbn [run line_run]; [by apply wp_ok|..];
    apply Forall_cons in Hos as [Ho Hos].
  - eapply wp_bind, wp_mono; [by apply key_ok|]. intros [c' st'] [Hr' ->]. by apply IH.
  - simpl in Ho. set (l := line (Z.to_nat count) q).
    assert (console_read echo poll (S (Z.to_nat count)) c st (Some (replicate (Z.to_nat count) 0)) count false ⇓
      λ '(r, out, c', st'), take (Z.to_nat r) (default [] out) = l ∧ repr c' (drop (length l) q) ∧ st' = st) as Hread.
    { unfold console_read. destruct (Z.eqb_spec count 0) as [E|E].
      - apply wp_ok. unfold l. rewrite E. by rewrite drop_0.
      - eapply wp_bind, wp_mono; [apply (read_loop_ok echo poll count false st (Z.to_nat count) _ c q _ 0); try done; try lia; auto|].
        { unfold zlen. rewrite length_replicate. lia. }
        intros [[[r out] c'] st'] (-> & -> & Hr' & ->). apply wp_ok. split; [|done]. fold l. cbn [default from_option id].
        unfold splice. simpl. unfold zlen. rewrite Z.add_0_l, Nat2Z.id. by apply take_app_length. }
    eapply wp_bind, wp_mono; [exact Hread|]. intros [[[r out] c'] st'] (-> & Hr' & ->).
    eapply wp_bind, wp_mono; [by apply IH|]. intros [[ls c2] st2] (-> & Hr2 & ->). apply wp_ok.
    by destruct (line_run (drop (length l) q) st os) as [[? ?] ?].
Qed.

(** Every sequence of key events and non-blocking reads on the initialised console input gives
    the lines, the echo and the pending count of a bounded queue of characters in which
    backspace removes the last one and a read ends behind a newline. *)
Theorem console_refines_line_queue c os :
  CONSOLE_INPUT_CAPACITY ≤ zlen (input_buffer c) → Forall op_ok os →
  run (console_init c) [] os ⇓ λ '(ls, c', st'),
    ls = (line_run [] [] os).1.1 ∧ st' = (line_run [] [] os).2 ∧ console_pending c' = zlen (line_run [] [] os).1.2.
Proof.
  intros Hc Hos. eapply wp_mono; [apply (console_run_ok os _ [] []); [by apply repr_init|done]|].
  intros [[ls c'] st'] (-> & Hr & ->). split; [done|]. split; [done|]. by apply repr_pending.
Qed.

End Client.

Lemma console_refines_line_queue_witness :
  run (λ st, Ok (None, st)) (console_init {| input_buffer := replicate 512 0; input_head := 3; input_tail := 9 |}) []
    [Key 0x23 104 true; Key 0x23 104 false; Key 0x14 116 true; Key 0x0e 8 true; Key 0x17 105 true; Key 0x1c 10 true;
     Key 0x1e 97 true; Read 100; Read 100] ⇓ λ '(ls, _, st), ls = [[104; 105; 10]; [97]] ∧ st = [104; 116; 8; 32; 8; 105; 10; 97].
Proof.
  eapply wp_mono; [apply console_refines_line_queue; [by vm_compute|by repeat constructor]|].
  intros [[ls c] st] (-> & -> & _). split; reflexivity.
Defined.

End Console.
