(* ===== verification/Sys.v ===== *)
(** System calls (kernel/proc/syscall_handlers.c, syscall_table.c, arch/x86_64/syscall.c).

    [sys] is the kernel's state as the handlers reach it.  There is one heap: it is kept
    with the file system, and a call into the process list or shared memory runs on it.
    A user pointer is [None] or the bytes it points to, and what a handler stores through
    one is part of its result.  Devices are the parameters of KPrintf, Console and Rtc. *)
From S2P Require Import Prelude KString Heap RingBuf KPrintf Ipc Signal Shm Path Vfs FdTable Sched Proc NetUtil Rtc Console.

Module Sys.
Import KString Path Vfs.
Import Heap(Allocator, Reallocator, al_repr, al_malloc, al_calloc, al_free).

Definition EINVAL : Z := 22.
Definition EBADF : Z := 9.
Definition EFAULT : Z := 14.
Definition ENOENT : Z := 2.
Definition ENOMEM : Z := 12.
Definition O_CREAT : Z := 0x0040.
Definition O_TRUNC : Z := 0x0200.
Definition O_APPEND : Z := 0x0400.
Definition O_DIRECTORY : Z := 0x10000.
Definition S_IFREG : Z := 0x8000.
Definition S_IFDIR : Z := 0x4000.
Definition S_IFIFO : Z := 0x1000.
Definition CWD_SIZE : Z := 256.
Definition UTS_LEN : Z := 65.
Definition D_NAME_SIZE : Z := 256.

Record user_stat_t := {
  st_dev : Z; st_ino : Z; st_mode : Z; st_nlink : Z; st_uid : Z; st_gid : Z; st_rdev : Z; st_size : Z;
  st_blksize : Z; st_blocks : Z; st_atime : Z; st_mtime : Z; st_ctime : Z
}.
Record user_dirent_t := { d_ino : Z; d_type : Z; d_name : list Z }.
Record user_timespec_t := { tv_sec : Z; tv_nsec : Z }.
Record user_utsname_t := {
  sysname : list Z; nodename : list Z; release : list Z; version : list Z; machine : list Z
}.

Definition errno_ret (err : Z) : Z := - err.
Definition set_flag (flags bit : Z) : bool := negb (Z.land flags bit =? 0).

Definition node_mode (node : option vfs_node_t) : Z :=
  match node with
  | None => 0
  | Some n =>
      if negb (mode n =? 0) then mode n
      else match type n with
           | VFS_NODE_DIR => Z.lor S_IFDIR 493
           | VFS_NODE_PIPE => Z.lor S_IFIFO 384
           | _ => Z.lor S_IFREG 420
           end
  end.

Definition dirent_type (node : option vfs_node_t) : Z :=
  match node with
  | None => 0
  | Some n => match type n with VFS_NODE_DIR => 4 | VFS_NODE_PIPE => 1 | _ => 8 end
  end.

Section Sys.
Context {H : Type} `{RA : Reallocator H}.
Context (garbage : Z → Z → Z).
Context {D : Type} (serial_write_char framebuffer_putc : D → Z → outcome D).
Context (inb : D → Z → Z * D) (outb : D → Z → Z → D).
Abbreviation fs := (@Vfs.fs H).
Abbreviation procs := (@Proc.procs H).
Abbreviation output := (@KPrintf.console D).
Abbreviation kputchar := (KPrintf.kputchar serial_write_char framebuffer_putc).

Record sys := {
  fsys : fs;
  fds : list FdTable.fd_entry_t;
  ps : procs;
  shm : Shm.shm_t;
  socks : list Socket.socket_t;
  con : output;
  input : Console.console_t;
  shift : bool;
  ticks : Z;
  timer_hz : Z;
  cwd : list Z;
  process_break : Z
}.

Definition set_fs (s : sys) (x : fs) : sys :=
  {| fsys := x; fds := fds s; ps := ps s; shm := shm s; socks := socks s; con := con s; input := input s; shift := shift s;
     ticks := ticks s; timer_hz := timer_hz s; cwd := cwd s; process_break := process_break s |}.
Definition set_fds (s : sys) (x : list FdTable.fd_entry_t) : sys :=
  {| fsys := fsys s; fds := x; ps := ps s; shm := shm s; socks := socks s; con := con s; input := input s; shift := shift s;
     ticks := ticks s; timer_hz := timer_hz s; cwd := cwd s; process_break := process_break s |}.
Definition set_ps (s : sys) (x : procs) : sys :=
  {| fsys := fsys s; fds := fds s; ps := x; shm := shm s; socks := socks s; con := con s; input := input s; shift := shift s;
     ticks := ticks s; timer_hz := timer_hz s; cwd := cwd s; process_break := process_break s |}.
Definition set_shm (s : sys) (x : Shm.shm_t) : sys :=
  {| fsys := fsys s; fds := fds s; ps := ps s; shm := x; socks := socks s; con := con s; input := input s; shift := shift s;
     ticks := ticks s; timer_hz := timer_hz s; cwd := cwd s; process_break := process_break s |}.
Definition set_socks (s : sys) (x : list Socket.socket_t) : sys :=
  {| fsys := fsys s; fds := fds s; ps := ps s; shm := shm s; socks := x; con := con s; input := input s; shift := shift s;
     ticks := ticks s; timer_hz := timer_hz s; cwd := cwd s; process_break := process_break s |}.
Definition set_con (s : sys) (x : output) : sys :=
  {| fsys := fsys s; fds := fds s; ps := ps s; shm := shm s; socks := socks s; con := x; input := input s; shift := shift s;
     ticks := ticks s; timer_hz := timer_hz s; cwd := cwd s; process_break := process_break s |}.
Definition set_input (s : sys) (x : Console.console_t) (sh : bool) : sys :=
  {| fsys := fsys s; fds := fds s; ps := ps s; shm := shm s; socks := socks s; con := con s; input := x; shift := sh;
     ticks := ticks s; timer_hz := timer_hz s; cwd := cwd s; process_break := process_break s |}.
Definition set_ticks (s : sys) (x : Z) : sys :=
  {| fsys := fsys s; fds := fds s; ps := ps s; shm := shm s; socks := socks s; con := con s; input := input s; shift := shift s;
     ticks := x; timer_hz := timer_hz s; cwd := cwd s; process_break := process_break s |}.
Definition set_cwd (s : sys) (x : list Z) : sys :=
  {| fsys := fsys s; fds := fds s; ps := ps s; shm := shm s; socks := socks s; con := con s; input := input s; shift := shift s;
     ticks := ticks s; timer_hz := timer_hz s; cwd := x; process_break := process_break s |}.
Definition set_break (s : sys) (x : Z) : sys :=
  {| fsys := fsys s; fds := fds s; ps := ps s; shm := shm s; socks := socks s; con := con s; input := input s; shift := shift s;
     ticks := ticks s; timer_hz := timer_hz s; cwd := cwd s; process_break := x |}.

(** A call into the process list, on the kernel's heap. *)
Definition on_procs {A} (s : sys) (f : procs → outcome (A * procs)) : outcome (A * sys) :=
  '(a, p) ← f (Proc.set_heap (ps s) (heap (fsys s)));
  Ok (a, set_ps (set_fs s (set_heap (fsys s) (Proc.heap p))) p).

(** ** Helpers *)

Definition fill_stat (s : fs) (node : Z) (statbuf : bool) : outcome (Z * option user_stat_t) :=
  if (node =? 0) || negb statbuf then Ok (errno_ret EFAULT, None)
  else
    n ← get_node s node;
    Ok (0, Some {| st_dev := 0; st_ino := node; st_mode := node_mode (Some n);
                   st_nlink := if decide (type n = VFS_NODE_DIR) then 2 else 1; st_uid := 0; st_gid := 0; st_rdev := 0;
                   st_size := i64 (size n); st_blksize := 4096; st_blocks := i64 (u64 (size n + 511) / 512);
                   st_atime := 0; st_mtime := 0; st_ctime := 0 |}).

(** One turn of the loop of [make_parent_dirs]: a directory for the path up to a slash. *)
Definition make_parent_step : Z * list Z * fs → outcome (Z * list Z * fs + Z * fs) :=
  λ '(cursor, copy, s),
    c ← zget copy cursor;
    if c =? 0 then Ok (inr (0, s))
    else if negb (c =? slash) then Ok (inl (cursor + 1, copy, s))
    else
      copy ← zset copy cursor 0;
      n ← vfs_lookup garbage s (Some copy);
      s ← (if n =? 0 then '(_, _, s) ← vfs_create garbage s (Some copy) VFS_NODE_DIR; Ok s else Ok s);
      copy ← zset copy cursor slash;
      Ok (inl (cursor + 1, copy, s)).

Definition make_parent_dirs (s : fs) (path : option (list Z)) : outcome (Z * fs) :=
  match path with
  | None => Ok (-1, s)
  | Some p =>
      len ← strlen (Some p);
      if VFS_PATH_MAX <=? len then Ok (-1, s)
      else
        copy ← strcpy (local garbage VFS_PATH_MAX) p;
        loop (S (Z.to_nat VFS_PATH_MAX)) make_parent_step (1, copy, s)
  end.

(** [node->ops && node->ops->truncate] and the call through it: [None] if there is no
    such operation. *)
Definition truncate_node (s : fs) (node len : Z) : outcome (option (Z * fs)) :=
  n ← get_node s node;
  match ops n with
  | tmpfs_ops => r ← tmpfs_truncate garbage s node len; Ok (Some r)
  | _ => Ok None
  end.

(** [keyboard_poll_char] on the devices behind the console. *)
Definition poll_keyboard (x : output * bool) : outcome (option Z * (output * bool)) :=
  '(c, d, sh) ← Keyboard.keyboard_poll_char inb (KPrintf.devices x.1) x.2;
  Ok (c, ({| KPrintf.log := KPrintf.log x.1; KPrintf.devices := d |}, sh)).

Definition put_output (x : output * bool) (ch : Z) : outcome (output * bool) :=
  o ← kputchar x.1 ch; Ok (o, x.2).

(** ** Files *)

(** [fuel] bounds the wait for input. *)
Definition sys_read (fuel : nat) (s : sys) (fd : Z) (buffer : option (list Z)) (length : Z)
  : outcome (Z * option (list Z) * sys) :=
  if bool_decide (buffer = None) && negb (length =? 0) then Ok (errno_ret EFAULT, buffer, s)
  else if fd =? 0 then
    '(r, out, c, x) ← Console.console_read put_output poll_keyboard fuel (input s) (con s, shift s) buffer length true;
    Ok (i64 r, out, set_con (set_input s c x.2) x.1)
  else
    e ← FdTable.fd_get (fds s) (i32 fd);
    is_log ← (match e with
              | None => Ok false
              | Some e => n ← get_node (fsys s) (FdTable.node e);
                          r ← strcmp (name n) (cstr [107; 108; 111; 103]);
                          Ok (r =? 0)
              end);
    match e, is_log with
    | Some e, true =>
        '(r, out) ← Klog.klog_read (KPrintf.log (con s)) (FdTable.offset e) buffer length;
        t ← zset (fds s) (i32 fd) (FdTable.set_offset e (u64 (FdTable.offset e + r)));
        Ok (i64 r, out, set_fds s t)
    | _, _ =>
        '(r, out, t, f) ← FdTable.fd_read (fsys s) (fds s) (i32 fd) buffer length;
        Ok (if r <? 0 then errno_ret EBADF else r, out, set_fs (set_fds s t) f)
    end.

Definition sys_write (s : sys) (fd : Z) (buffer : option (list Z)) (length : Z) : outcome (Z * sys) :=
  match buffer with
  | None => Ok (errno_ret EFAULT, s)
  | Some text =>
      if (fd =? 1) || (fd =? 2) then
        o ← for_each 0 length (λ i o, c ← zget text i; kputchar o c) (con s);
        Ok (i64 length, set_con s o)
      else
        '(r, t, f) ← FdTable.fd_write garbage (fsys s) (fds s) (i32 fd) buffer length;
        Ok (if r <? 0 then errno_ret EBADF else r, set_fs (set_fds s t) f)
  end.

Definition sys_open (s : sys) (path : option (list Z)) (flags : Z) : outcome (Z * sys) :=
  match path with
  | None => Ok (errno_ret EFAULT, s)
  | Some _ =>
      node ← vfs_lookup garbage (fsys s) path;
      '(ok, node, f) ←
        (if (node =? 0) && set_flag flags O_CREAT then
           '(_, f) ← make_parent_dirs (fsys s) path;
           '(r, out, f) ← vfs_create garbage f path (if set_flag flags O_DIRECTORY then VFS_NODE_DIR else VFS_NODE_FILE);
           Ok (r =? 0, default 0 out, f)
         else Ok (true, node, fsys s));
      if negb ok || (node =? 0) then Ok (errno_ret ENOENT, set_fs s f)
      else
        f ← (if set_flag flags O_TRUNC
             then r ← truncate_node f node 0; Ok (match r with Some (_, f) => f | None => f end)
             else Ok f);
        '(fd, t) ← FdTable.fd_alloc (fds s) node (i32 flags);
        t ← (if (0 <=? fd) && set_flag flags O_APPEND then
               e ← FdTable.fd_get t fd;
               match e with
               | Some e => n ← get_node f node; zset t fd (FdTable.set_offset e (size n))
               | None => Ok t
               end
             else Ok t);
        Ok (if fd <? 0 then errno_ret ENOMEM else fd, set_fs (set_fds s t) f)
  end.

Definition sys_close (s : sys) (fd : Z) : outcome (Z * sys) :=
  '(r, t) ← FdTable.fd_close (fds s) (i32 fd);
  Ok (if r =? 0 then 0 else errno_ret EBADF, set_fds s t).

Definition sys_stat (s : sys) (path : option (list Z)) (statbuf : bool) : outcome (Z * option user_stat_t) :=
  node ← vfs_lookup garbage (fsys s) path;
  if negb (node =? 0) then fill_stat (fsys s) node statbuf else Ok (errno_ret ENOENT, None).

Definition sys_fstat (s : sys) (fd : Z) (statbuf : bool) : outcome (Z * option user_stat_t) :=
  e ← FdTable.fd_get (fds s) (i32 fd);
  match e with
  | Some e => fill_stat (fsys s) (FdTable.node e) statbuf
  | None => Ok (errno_ret EBADF, None)
  end.

Definition sys_seek (s : sys) (fd offset whence : Z) : outcome (Z * sys) :=
  '(r, t) ← FdTable.fd_seek (fsys s) (fds s) (i32 fd) (i64 offset) (i32 whence);
  Ok (if r <? 0 then errno_ret EINVAL else r, set_fds s t).

Definition sys_dup (s : sys) (fd : Z) : outcome (Z * sys) :=
  '(r, t) ← FdTable.fd_dup (fds s) (i32 fd);
  Ok (if r <? 0 then errno_ret EBADF else r, set_fds s t).

Definition sys_dup2 (s : sys) (oldfd newfd : Z) : outcome (Z * sys) :=
  '(r, t) ← FdTable.fd_dup2 (fds s) (i32 oldfd) (i32 newfd);
  Ok (if r <? 0 then errno_ret EBADF else r, set_fds s t).

(** The second result is what is stored in [fds[0]] and [fds[1]]. *)
Definition sys_pipe (s : sys) (have_fds : bool) : outcome (Z * option (Z * Z) * sys) :=
  if negb have_fds then Ok (errno_ret EFAULT, None, s)
  else
    '(node, f) ← pipefs_create_node garbage (fsys s) (Some (cstr [112; 105; 112; 101]));
    if node =? 0 then Ok (errno_ret ENOMEM, None, set_fs s f)
    else
      '(read_fd, t) ← FdTable.fd_alloc (fds s) node 0;
      '(write_fd, t) ← FdTable.fd_alloc t node 1;
      let s := set_fs (set_fds s t) f in
      if (read_fd <? 0) || (write_fd <? 0) then Ok (errno_ret ENOMEM, None, s)
      else Ok (0, Some (read_fd, write_fd), s).

Definition sys_mkdir (s : sys) (path : option (list Z)) : outcome (Z * sys) :=
  '(_, f) ← make_parent_dirs (fsys s) path;
  '(r, _, f) ← vfs_create garbage f path VFS_NODE_DIR;
  Ok (if r =? 0 then 0 else errno_ret EINVAL, set_fs s f).

Definition sys_unlink (s : sys) (path : option (list Z)) : outcome (Z * sys) :=
  '(r, f) ← vfs_unlink garbage (fsys s) path;
  Ok (if r =? 0 then 0 else errno_ret ENOENT, set_fs s f).

Definition sys_chdir (s : sys) (path : option (list Z)) : outcome (Z * sys) :=
  node ← vfs_lookup garbage (fsys s) path;
  if node =? 0 then Ok (errno_ret ENOENT, s)
  else
    n ← get_node (fsys s) node;
    len ← strlen path;
    if negb (bool_decide (type n = VFS_NODE_DIR)) || (CWD_SIZE <=? len) then Ok (errno_ret ENOENT, s)
    else match path with
         | None => Undef
         | Some p => c ← strcpy (cwd s) p; Ok (0, set_cwd s c)
         end.

(** [address] is the pointer's value, which is returned on success. *)
Definition sys_getcwd (s : sys) (address : Z) (buffer : option (list Z)) (size : Z) : outcome (Z * option (list Z)) :=
  len ← strlen (Some (cwd s));
  match buffer with
  | None => Ok (errno_ret EFAULT, None)
  | Some b =>
      if (size =? 0) || (size <? u64 (len + 1)) then Ok (errno_ret EFAULT, buffer)
      else b ← strcpy b (cwd s); Ok (i64 address, Some b)
  end.

Definition sys_opendir (s : sys) (path : option (list Z)) : outcome (Z * sys) :=
  node ← vfs_lookup garbage (fsys s) path;
  if node =? 0 then Ok (errno_ret ENOENT, s)
  else
    n ← get_node (fsys s) node;
    if decide (type n ≠ VFS_NODE_DIR) then Ok (errno_ret ENOENT, s)
    else
      '(fd, t) ← FdTable.fd_alloc (fds s) node O_DIRECTORY;
      Ok (if fd <? 0 then errno_ret ENOMEM else fd, set_fds s t).

(** [for (index = 0; child && index < offset; ++index) child = child->next;] *)
Definition nth_child (s : fs) (child offset : Z) : outcome Z :=
  loop (S (S (base.size (nodes s))))
    (λ '(index, child),
       if (child =? 0) || negb (index <? offset) then Ok (inr child)
       else c ← get_node s child; Ok (inl (index + 1, next c))) (0, child).

Definition sys_readdir (s : sys) (fd : Z) (have_entry : bool) : outcome (Z * option user_dirent_t * sys) :=
  e ← FdTable.fd_get (fds s) (i32 fd);
  match e with
  | None => Ok (errno_ret EBADF, None, s)
  | Some e =>
      if negb have_entry then Ok (errno_ret EBADF, None, s)
      else
        n ← get_node (fsys s) (FdTable.node e);
        if decide (type n ≠ VFS_NODE_DIR) then Ok (errno_ret EBADF, None, s)
        else
          child ← nth_child (fsys s) (children n) (FdTable.offset e);
          if child =? 0 then Ok (0, None, s)
          else
            c ← get_node (fsys s) child;
            len ← strlen (Some (name c));
            let len := if D_NAME_SIZE <=? len then D_NAME_SIZE - 1 else len in
            nm ← memcpy (replicate (Z.to_nat D_NAME_SIZE) 0) 0 (name c) 0 len;
            t ← zset (fds s) (i32 fd) (FdTable.set_offset e (u64 (FdTable.offset e + 1)));
            Ok (1, Some {| d_ino := child; d_type := dirent_type (Some c); d_name := nm |}, set_fds s t)
  end.

Definition sys_truncate (s : sys) (path : option (list Z)) (length : Z) : outcome (Z * sys) :=
  node ← vfs_lookup garbage (fsys s) path;
  if node =? 0 then Ok (errno_ret ENOENT, s)
  else
    r ← truncate_node (fsys s) node length;
    match r with Some (r, f) => Ok (r, set_fs s f) | None => Ok (errno_ret ENOENT, s) end.

Definition sys_ftruncate (s : sys) (fd length : Z) : outcome (Z * sys) :=
  e ← FdTable.fd_get (fds s) (i32 fd);
  match e with
  | None => Ok (errno_ret EBADF, s)
  | Some e =>
      r ← truncate_node (fsys s) (FdTable.node e) length;
      match r with Some (r, f) => Ok (r, set_fs s f) | None => Ok (errno_ret EBADF, s) end
  end.

(** ** Processes *)

Definition sys_brk (s : sys) (address : Z) : Z * sys :=
  let s := if negb (address =? 0) then set_break s address else s in (i64 (process_break s), s).

Definition sys_exit (s : sys) (code : Z) : outcome (Z * sys) :=
  '(_, s) ← on_procs s (λ p, p ← Proc.process_exit p (Proc.process_current p) (i32 code); Ok (tt, p));
  '(_, s) ← on_procs s (λ p, sc ← Sched.scheduler_yield (Proc.sch p); Ok (tt, Proc.set_sch p sc));
  Ok (0, s).

(** The second result of the two waits is the exit code stored through the pointer. *)
Definition sys_wait (s : sys) (have_result : bool) : outcome (Z * option Z * sys) :=
  '(r, s) ← on_procs s (λ p,
    pid ← (if Proc.process_current p =? 0 then Ok 0
           else x ← Proc.get_process p (Proc.process_current p); Ok (Proc.pid x));
    '(st, res, p) ← Proc.wait_any_child p pid; Ok (st, res, p));
  match r with
  | (0, Some (pid, code)) => Ok (i64 pid, if (have_result : bool) then Some code else None, s)
  | (0, None) => Undef
  | _ => Ok (errno_ret ENOENT, None, s)
  end.

Definition sys_waitpid (s : sys) (pid : Z) (have_status : bool) : outcome (Z * option Z * sys) :=
  '(r, s) ← on_procs s (λ p, '(st, res, p) ← Proc.wait_for_pid p pid; Ok (st, res, p));
  match r with
  | (0, Some (pid, code)) => Ok (i64 pid, if (have_status : bool) then Some code else None, s)
  | (0, None) => Undef
  | _ => Ok (errno_ret ENOENT, None, s)
  end.

Definition sys_getpid (s : sys) : outcome Z :=
  let p := ps s in
  if Proc.process_current p =? 0 then Ok 1
  else x ← Proc.get_process p (Proc.process_current p); Ok (i64 (Proc.pid x)).

Definition sys_getppid (s : sys) : outcome Z :=
  let p := ps s in
  if Proc.process_current p =? 0 then Ok 0
  else x ← Proc.get_process p (Proc.process_current p); Ok (i64 (Proc.parent_pid x)).

Definition sys_getuid : Z := 0.
Definition sys_getgid : Z := sys_getuid.

Definition sys_kill (s : sys) (pid signal : Z) : outcome (Z * sys) :=
  process ← Proc.process_find (ps s) pid;
  if process =? 0 then Ok (errno_ret ENOENT, s)
  else
    x ← Proc.get_process (ps s) process;
    match Signal.signal_send (Some (Proc.signals x)) (i32 signal) with
    | (sent, Some st) =>
        Ok (if (sent : bool) then 0 else errno_ret ENOENT, set_ps s (Proc.put_process (ps s) process (Proc.set_signals x st)))
    | (_, None) => Undef
    end.

Definition sys_yield (s : sys) : outcome (Z * sys) :=
  sc ← Sched.scheduler_yield (Proc.sch (ps s)); Ok (0, set_ps s (Proc.set_sch (ps s) sc)).

Definition sys_sync : Z := 0.

(** ** Time *)

Definition sys_nanosleep (fuel : nat) (s : sys) (req : option user_timespec_t) : outcome (Z * sys) :=
  match req with
  | None => Ok (errno_ret EFAULT, s)
  | Some req =>
      let ms := u64 (u64 (u64 (tv_sec req) * 1000) + u64 (tv_nsec req) / 1000000) in
      t ← Timer.timer_sleep_ms fuel (timer_hz s) (ticks s) ms;
      Ok (0, set_ticks s t)
  end.

(** [rtc_unix_time], which reads the clock through the ports. *)
Definition unix_time (fuel : nat) (s : sys) (uninit : Rtc.rtc_time_t) : outcome (Z * sys) :=
  '(t, d) ← Rtc.rtc_unix_time outb inb fuel (KPrintf.devices (con s)) uninit;
  Ok (t, set_con s {| KPrintf.log := KPrintf.log (con s); KPrintf.devices := d |}).

Definition sys_time (fuel : nat) (s : sys) (uninit : Rtc.rtc_time_t) (have_result : bool) : outcome (Z * option Z * sys) :=
  '(t, s) ← unix_time fuel s uninit;
  Ok (i64 t, if have_result then Some (i64 t) else None, s).

Definition sys_clock_gettime (fuel : nat) (s : sys) (uninit : Rtc.rtc_time_t) (clock_id : Z) (have_result : bool)
  : outcome (Z * option user_timespec_t * sys) :=
  if negb have_result || (1 <? clock_id) then Ok (errno_ret EINVAL, None, s)
  else
    '(ms, s) ← (if clock_id =? 0 then '(t, s) ← unix_time fuel s uninit; Ok (u64 (t * 1000), s)
                else ms ← Timer.timer_uptime_ms (ticks s) (timer_hz s); Ok (ms, s));
    Ok (0, Some {| tv_sec := i64 (ms / 1000); tv_nsec := i64 (u64 (ms mod 1000 * 1000000)) |}, s).

(** ** Sockets and shared memory *)

Definition sys_socket (s : sys) (type : Z) : outcome (Z * sys) :=
  '(fd, t) ← Socket.socket_create (socks s) (if type =? 1 then Socket.SOCKET_TCP else Socket.SOCKET_UDP);
  Ok (if fd <? 0 then errno_ret ENOMEM else fd, set_socks s t).

Definition sys_connect (s : sys) (fd addr addrlen : Z) : outcome (Z * sys) :=
  '(r, t) ← Socket.socket_connect (socks s) (i32 fd) (u32 addr) (u16 addrlen);
  Ok (if r =? 0 then 0 else errno_ret EBADF, set_socks s t).

(** The name of the segment of a key: the digits of its low 32 bits, lowest first. *)
Definition shm_name (uninit : list Z) (key : Z) : outcome (list Z) :=
  nm ← zset uninit 0 115;
  nm ← zset nm 1 104;
  nm ← zset nm 2 109;
  nm ← for_each 0 8
         (λ index nm,
            if 3 + index <? Shm.SHM_NAME_MAX - 1 then
              let nibble := Z.land (Z.shiftr key (index * 4)) 0xf in
              zset nm (3 + index) (if nibble <? 10 then 48 + nibble else 97 + nibble - 10)
            else Ok nm) nm;
  zset nm 11 0.

Definition sys_shmget (s : sys) (key size : Z) : outcome (Z * sys) :=
  nm ← shm_name (local garbage Shm.SHM_NAME_MAX) key;
  '(seg, m, h) ← Shm.shm_create (shm s) (heap (fsys s)) (Some nm) size;
  let s := set_shm (set_fs s (set_heap (fsys s) h)) m in
  match seg with
  | Some i => g ← zget (Shm.segments m) i; Ok (i64 (Shm.id g), s)
  | None => Ok (errno_ret ENOMEM, s)
  end.

Definition sys_shmat (s : sys) (shmid : Z) : outcome (Z * sys) :=
  seg ← Shm.shm_find_id (shm s) (u32 shmid);
  '(base, m) ← Shm.shm_attach (shm s) seg;
  Ok (if negb (base =? 0) then i64 base else errno_ret ENOENT, set_shm s m).

Definition sys_shmdt (s : sys) (addr : Z) : outcome (Z * sys) :=
  r ← for_loop 1 1024
        (λ id (_ : unit),
           seg ← Shm.shm_find_id (shm s) id;
           match seg with
           | None => Ok (inl tt)
           | Some i =>
               g ← zget (Shm.segments (shm s)) i;
               if Shm.base g =? addr then
                 '(m, h) ← Shm.shm_detach (shm s) (heap (fsys s)) (Some i);
                 Ok (inr (set_shm (set_fs s (set_heap (fsys s) h)) m))
               else Ok (inl tt)
           end) tt;
  match r with inr s => Ok (0, s) | inl _ => Ok (errno_ret ENOENT, s) end.

(** ** Identification *)

Definition uts_field (text : list Z) : outcome (list Z) := strcpy (replicate (Z.to_nat UTS_LEN) 0) (cstr text).

Definition sys_uname (have_uts : bool) : outcome (Z * option user_utsname_t) :=
  if negb have_uts then Ok (errno_ret EFAULT, None)
  else
    a ← uts_field [110; 118; 48; 107; 101; 110; 95; 108; 105; 110; 117; 120];
    b ← uts_field [110; 118; 48; 107; 101; 110];
    c ← uts_field [48; 46; 49; 46; 48];
    d ← uts_field [99; 111; 100; 101; 120; 45; 107; 101; 114; 110; 101; 108];
    e ← uts_field [120; 56; 54; 95; 54; 52];
    Ok (0, Some {| sysname := a; nodename := b; release := c; version := d; machine := e |}).

End Sys.
End Sys.
