(* ===== verification/SysFile.v ===== *)
(** What the system calls on files promise: any sequence of them is safe, bytes written
    through one descriptor are read through another, and a directory read lists exactly the
    names that resolve. *)
From S2P Require Import Prelude Chain Ring KString Heap RingBuf KPrintf Path Vfs FileData FsClient FdTable Shm Proc NetUtil Console Sys.

Module SysFile.
Import KString Path Vfs FileData FsClient FdTable Sys.
Import Heap(Allocator, Reallocator, al_repr).

Section SysFile.
Context {H : Type} `{RA : Reallocator H}.
Context (garbage : Z → Z → Z).
Abbreviation fs := (@Vfs.fs H).

(** What every change of the file system keeps. *)
Definition fs_step (s s' : fs) : Prop := (∃ K, fs_ok K s') ∧ grows s s' ∧ ∀ B, 0 ≤ B → sized B s → sized B s'.

Lemma fs_step_refl K s : fs_ok K s → fs_step s s.
Proof. intros HK. split; [by exists K|]. split; [apply grows_refl|done]. Qed.

Lemma fs_step_trans s1 s2 s3 : fs_step s1 s2 → fs_step s2 s3 → fs_step s1 s3.
Proof. intros (_ & G1 & B1) (K3 & G2 & B2). split; [done|]. split; [by eapply grows_trans|]. auto. Qed.

(** ** Making the directories of a path *)

Lemma parent_step_ok K s cursor copy t : fs_ok K s → is_cstr copy t → short t → 0 ≤ cursor ≤ zlen t →
  make_parent_step garbage (cursor, copy, s) ⇓ λ x,
    match x with
    | inl (cursor', copy', s') => cursor' = cursor + 1 ∧ cursor < zlen t ∧ copy' = copy ∧ fs_step s s'
    | inr (r, s') => r = 0 ∧ s' = s
    end.
Proof.
  intros HK Hc Hs Hr. unfold make_parent_step. destruct (is_cstr_zget copy t cursor Hc Hr) as [-> Hz]. rewrite bind_ok.
  destruct (Z.eqb_spec (default 0 (t !! Z.to_nat cursor)) 0) as [E|E]; [by apply wp_ok|].
  assert (cursor < zlen t) as Hlt by (destruct (decide (cursor = zlen t)); [tauto|lia]).
  destruct (Z.eqb_spec (default 0 (t !! Z.to_nat cursor)) slash) as [Esl|]; cbn [negb].
  2:{ apply wp_ok. split; [done|]. split; [done|]. split; [done|]. by eapply fs_step_refl. }
  destruct (zget_in t cursor) as [x Hx]; [lia|]. rewrite Hx in Esl. simpl in Esl. subst x.
  pose proof (take_drop_middle t _ _ Hx) as Ht. set (u := take (Z.to_nat cursor) t) in *. set (r := drop _ t) in Ht.
  assert (zlen u = cursor) as Hu by (unfold u, zlen in *; rewrite length_take; lia).
  destruct Hc as [Ht256 [rest ->]]. rewrite <-Ht in Ht256 |- *. apply Forall_app in Ht256 as [Hu256 _].
  rewrite <-app_assoc. cbn [app]. rewrite <-Hu at 1. rewrite Dns.zset_middle, bind_ok.
  assert (is_cstr (u ++ 0 :: r ++ 0 :: rest) u) as Hcu by (split; [done|by eexists]).
  assert (short u) as Hsu by (rewrite <-Ht in Hs; by apply short_prefix in Hs).
  rewrite (vfs_lookup_ok garbage K s _ u), bind_ok by (done || apply HK).
  assert ((if match components u with Some cs => view K s (cut <$> cs) | None => 0 end =? 0
           then '(_, _, s') ← vfs_create garbage s (Some (u ++ 0 :: r ++ 0 :: rest)) VFS_NODE_DIR; Ok s' else Ok s) ⇓ fs_step s) as Hcr.
  { destruct (_ =? 0); [|apply wp_ok; by eapply fs_step_refl].
    eapply wp_bind, wp_mono; [apply (create_step garbage K s _ u); [done|done|by intros cs c; apply components_short]|].
    intros [[res out] s'] (HK' & Hg & Hb & _). by apply wp_ok. }
  eapply wp_bind, wp_mono; [exact Hcr|]. intros s' Hst. rewrite <-Hu at 1. rewrite Dns.zset_middle, bind_ok. apply wp_ok.
  split; [done|]. split; [by rewrite Ht|]. by split.
Qed.

Lemma make_parent_dirs_ok K s path t : fs_ok K s → is_cstr path t → short t → t ≠ [] → zlen t < 2 ^ 63 →
  make_parent_dirs garbage s (Some path) ⇓ λ '(_, s'), fs_step s s'.
Proof.
  intros HK Hp Hs Hne Hmax. unfold make_parent_dirs. rewrite (strlen_ok path t), bind_ok by done.
  destruct (Z.leb_spec VFS_PATH_MAX (zlen t)) as [|Hlt]; [apply wp_ok; by eapply fs_step_refl|].
  assert (zlen (local garbage VFS_PATH_MAX) = VFS_PATH_MAX) as Hll by (by apply length_local).
  rewrite (strcpy_ok _ path t), bind_ok by (done || lia).
  assert (is_cstr (splice (local garbage VFS_PATH_MAX) 0 (t ++ [0])) t) as Hc.
  { destruct Hp as [Ht _]. split; [done|]. unfold splice. simpl. rewrite <-app_assoc. by eexists. }
  assert (1 ≤ zlen t) by (destruct t; [done|unfold zlen; simpl; lia]).
  apply (wp_loop (λ '(i, copy, s'), 1 ≤ i ≤ zlen t ∧ is_cstr copy t ∧ fs_step s s') (λ '(i, _, _), Z.to_nat (zlen t - i))).
  - intros [[i copy] s'] (Hi & Hcopy & Hst). pose proof Hst as ((K' & HK') & _).
    eapply wp_mono; [apply (parent_step_ok K' s' i copy t); (done || lia)|]. intros [[[i' copy'] s2]|[r s2]].
    + intros (-> & Hlt' & -> & Hst'). split; [|lia]. split; [lia|]. split; [done|]. by eapply fs_step_trans.
    + by intros (_ & ->).
  - split; [lia|]. split; [done|]. by eapply fs_step_refl.
  - unfold VFS_PATH_MAX in *. lia.
Qed.

(** ** The invariant of the system calls on files *)

Context {D : Type} (serial_write_char framebuffer_putc : D → Z → outcome D).
Context (inb : D → Z → Z * D).
(** The output devices take every character. *)
Context (Hserial : ∀ d c, serial_write_char d c ⇓ λ _, True) (Hfb : ∀ d c, framebuffer_putc d c ⇓ λ _, True).
Abbreviation sys := (@Sys.sys H D).
Abbreviation sys_read := (Sys.sys_read serial_write_char framebuffer_putc inb).
Abbreviation sys_write := (Sys.sys_write garbage serial_write_char framebuffer_putc).

(** Every open descriptor refers to a node, at an offset of at most [B]. *)
Definition live (B : Z) (f : fs) (t : list fd_entry_t) : Prop :=
  ∀ fd p o fl, opened t fd = Some (p, o, fl) → is_Some (nodes f !! p) ∧ 0 ≤ o ≤ B.

Definition inv (B m : Z) (s : sys) : Prop :=
  (∃ K, fs_ok K (fsys s)) ∧ sized B (fsys s) ∧ table_ok m (fds s) ∧ live B (fsys s) (fds s) ∧
  (∃ q, Klog.repr (KPrintf.log (con s)) q) ∧ zlen (cwd s) = CWD_SIZE ∧ ∃ t, is_cstr (cwd s) t ∧ zlen t < CWD_SIZE.

Lemma sized_mono B B' (f : fs) : sized B f → B ≤ B' → sized B' f.
Proof. intros Hs HB p n Hp. specialize (Hs p n Hp). lia. Qed.

Lemma live_mono B B' f t : live B f t → B ≤ B' → live B' f t.
Proof. intros Hl HB fd p o fl Ho. destruct (Hl fd p o fl Ho). split; [done|lia]. Qed.

Lemma live_grows B f f' t : live B f t → grows f f' → live B f' t.
Proof. intros Hl Hg fd p o fl Ho. destruct (Hl fd p o fl Ho) as [[n Hn] Hr]. destruct (Hg p n Hn) as (n' & Hn' & _). by split. Qed.

Lemma live_spec B f t o r t' : live B f t → 0 ≤ B → fd_spec (opened t) o r (opened t') →
  (∀ n fl, o = Alloc n fl → is_Some (nodes f !! n)) → (∀ fd n fl, o = AllocAt fd n fl → is_Some (nodes f !! n)) → live B f t'.
Proof.
  intros Hl HB Hs H1 H2 fd p off fl Ho.
  destruct o as [n fl0|fd0 n fl0|fd0|fd0|a b]; simpl in Hs;
    destruct Hs as [(_ & _ & Hu)|Hs]; try (rewrite Hu in Ho; by eapply Hl).
  - destruct Hs as (_ & _ & Hu). rewrite Hu in Ho. case_decide; [injection Ho as <- <- <-; split; [by eapply H1|lia]|by eapply Hl].
  - destruct Hs as (_ & _ & _ & Hu). rewrite Hu in Ho. case_decide; [injection Ho as <- <- <-; split; [by eapply H2|lia]|by eapply Hl].
  - destruct Hs as (_ & _ & Hu). rewrite Hu in Ho. case_decide; [done|by eapply Hl].
  - destruct Hs as (_ & _ & Hu). rewrite Hu in Ho. case_decide; by eapply Hl.
  - destruct Hs as (_ & _ & _ & Hu). rewrite Hu in Ho. case_decide; by eapply Hl.
Qed.

Lemma live_update B f t t' fd p o fl : live B f t → updated (opened t) (opened t') fd (Some (p, o, fl)) →
  is_Some (nodes f !! p) → 0 ≤ o ≤ B → live B f t'.
Proof. intros Hl Hu Hp Ho k q o' fl' E. rewrite Hu in E. case_decide; [by simplify_eq|by eapply Hl]. Qed.

(** Storing a new offset in an open entry. *)
Lemma move_offset m (t : list fd_entry_t) fd e o : table_ok m t → in_range fd → t !! Z.to_nat fd = Some e → node e ≠ 0 →
  zset t fd (set_offset e o) ⇓ λ t', table_ok m t' ∧ updated (opened t) (opened t') fd (Some (node e, o, flags e)).
Proof.
  intros Ht Hfd He Hn. apply (set_entry m); [done|done|exact (table_refs _ _ _ _ Ht He)|]. intros t' Ht' _ Hu. split; [done|].
  simpl in Hu. by rewrite (proj2 (Z.eqb_neq _ 0)) in Hu.
Qed.

(** What [fd_get] gives in a state that satisfies the invariant. *)
Lemma get_entry B m f t fd : table_ok m t → live B f t →
  (fd_get t fd = Ok None) ∨
  (∃ e n, in_range fd ∧ t !! Z.to_nat fd = Some e ∧ node e ≠ 0 ∧ fd_get t fd = Ok (Some e) ∧
     nodes f !! node e = Some n ∧ 0 ≤ offset e ≤ B).
Proof.
  intros Ht Hl. destruct (fd_get_ok m t fd Ht) as [[-> _]|(e & Hfd & He & Hn & -> & Ho)]; [by left|right].
  destruct (Hl _ _ _ _ Ho) as [[n Hn'] Hr]. by exists e, n.
Qed.

Lemma inv_fs B m s f : inv B m s → 0 ≤ B → fs_step (fsys s) f → inv B m (set_fs s f).
Proof.
  intros (_ & Hs & Ht & Hl & Hq & Hc) HB (HK & Hg & Hb). split; [done|]. split; [by apply Hb|]. split; [done|].
  split; [by eapply live_grows|]. done.
Qed.

Lemma inv_fds B m m' s t : inv B m s → table_ok m' t → live B (fsys s) t → inv B m' (set_fds s t).
Proof. by intros (HK & Hs & _ & _ & Hq & Hc) Ht Hl. Qed.

Lemma inv_both B m m' s t f : inv B m s → (∃ K, fs_ok K f) → sized B f → table_ok m' t → live B f t →
  inv B m' (set_fs (set_fds s t) f).
Proof. by intros (_ & _ & _ & _ & Hq & Hc) HK Hs Ht Hl. Qed.

Lemma sys_inv_mono B B' m m' s : inv B m s → B ≤ B' → m ≤ m' → inv B' m' s.
Proof.
  intros (HK & Hs & Ht & Hl & Hq & Hc) HB Hm. split; [done|]. split; [by eapply sized_mono|].
  split; [by eapply table_ok_mono|]. split; [by eapply live_mono|done].
Qed.

(** The calls that only change the table. *)
Lemma table_call B m s o : inv B m s → 0 ≤ B → 1 ≤ m < 2 ^ 31 - 1 →
  (∀ n fl, o = Alloc n fl → is_Some (nodes (fsys s) !! n)) → (∀ fd n fl, o ≠ AllocAt fd n fl) →
  FdTable.exec (fds s) o ⇓ λ '(r, t), inv B (m + 1) (set_fds s t) ∧ fd_spec (opened (fds s)) o r (opened t).
Proof.
  intros Hi HB Hm Ha Hat. pose proof Hi as (_ & _ & Ht & Hl & _). eapply wp_mono; [by apply (fd_exec_ok m)|].
  intros [r t] (Ht' & Hs). split; [|done]. apply (inv_fds B m); [done|done|]. eapply live_spec; try done.
  intros fd n fl ->. by destruct (Hat fd n fl).
Qed.

(** ** Each call keeps the invariant *)

Lemma node_text K s p n : fs_ok K s → nodes s !! p = Some n → ∃ nm, is_cstr (name n) nm ∧ zlen nm < VFS_NAME_MAX.
Proof. intros ((_ & Hn & _) & _) Hp. by destruct (Hn p n Hp) as (_ & _ & ? & _). Qed.

Lemma read_call B m s fd count : inv B m s → 0 ≤ B → fd ≠ 0 → 0 ≤ count → B + count ≤ 2 ^ 31 - 8 →
  sys_read 1 s fd (Some (replicate (Z.to_nat count) 0)) count ⇓ λ '(_, _, s'), inv (B + count) m s'.
Proof.
  intros Hi HB Hfd Hc Hmax. unfold Sys.sys_read. rewrite (bool_decide_false (_ = None)) by done. cbn [andb].
  rewrite (proj2 (Z.eqb_neq fd 0)) by done. set (buf := replicate (Z.to_nat count) 0).
  assert (zlen buf = count) as Hbuf by (unfold buf, zlen; rewrite length_replicate; lia).
  pose proof Hi as ((K & HK) & Hs & Ht & Hl & (q & Hq) & _).
  destruct (get_entry B m (fsys s) (fds s) (i32 fd) Ht Hl) as [E|(e & n & Hin & He & Hne & E & Hn & Ho)]; rewrite E, bind_ok.
  { rewrite bind_ok. unfold fd_read. rewrite E, bind_ok. apply wp_ok. eapply sys_inv_mono; [exact Hi|lia|done]. }
  rewrite (get_node_ok _ _ n Hn), bind_ok. destruct (node_text K _ _ n HK Hn) as (nm & Hnm & _).
  eapply wp_bind, wp_bind, wp_mono; [apply (strcmp_ok _ nm _ [107; 108; 111; 103]); [done|]|].
  { apply is_cstr_cstr. repeat constructor; lia. }
  intros r _. apply wp_ok. destruct (r =? 0).
  - eapply wp_bind, wp_mono; [apply (Klog.klog_read_ok _ q); (done || lia)|]. intros [k out] (-> & _).
    eapply wp_bind, wp_mono; [by apply (move_offset m)|]. intros t (Ht' & Hu). apply wp_ok.
    apply (inv_fds _ m); [eapply sys_inv_mono; [exact Hi|lia|done]|done|]. eapply live_update; [eapply live_mono; [done|lia]|done|done|].
    rewrite u64_small by lia. lia.
  - unfold fd_read. rewrite E, bind_ok. eapply wp_bind, wp_bind, wp_mono.
    { apply (read_step K (fsys s) (node e) n (offset e) buf count HK Hn); lia. }
    intros [[k out] f] (-> & Hk & _). assert ((if 0 <? k then zset (fds s) (i32 fd) (set_offset e (u64 (offset e + k))) else Ok (fds s)) ⇓
      λ t, table_ok m t ∧ live (B + count) (fsys s) t) as Hoff.
    { destruct (Z.ltb_spec 0 k); [|apply wp_ok; split; [done|by eapply live_mono; [done|lia]]].
      eapply wp_mono; [by apply (move_offset m)|]. intros t (Ht' & Hu). split; [done|].
      eapply live_update; [eapply live_mono; [done|lia]|done|done|]. rewrite u64_small by lia. lia. }
    eapply wp_bind, wp_mono; [exact Hoff|]. intros t (Ht' & Hl'). apply wp_ok, wp_ok.
    apply (inv_both _ m); [eapply sys_inv_mono; [exact Hi|lia|done]|by exists K|eapply sized_mono; [done|lia]|done|done].
Qed.

Lemma print_ok text st q : Klog.repr (KPrintf.log st) q →
  for_each 0 (zlen text) (λ i o, c ← zget text i; KPrintf.kputchar serial_write_char framebuffer_putc o c) st ⇓
    λ o, ∃ q', Klog.repr (KPrintf.log o) q'.
Proof.
  intros Hq. apply (wp_for_each (λ _ o, ∃ q', Klog.repr (KPrintf.log o) q')); [unfold zlen; lia|by exists q| |done].
  intros i o Hi (q' & Hq'). eapply wp_bind, wp_zget; [done|]. intros c _. unfold KPrintf.kputchar.
  eapply wp_bind, wp_mono; [by apply (Klog.klog_putc_ok _ q')|]. intros k Hk.
  eapply wp_bind, wp_mono; [apply Hserial|]. intros d _. eapply wp_bind, wp_mono; [apply Hfb|]. intros d' _. apply wp_ok. eexists. exact Hk.
Qed.

(** A write through a descriptor: the bytes go to the file at the descriptor's offset. *)
Lemma sys_write_ok B m s fd bytes : inv B m s → 0 ≤ B → B + zlen bytes ≤ 2 ^ 31 - 8 → fd ≠ 1 → fd ≠ 2 →
  sys_write s fd (Some bytes) (zlen bytes) ⇓ λ '(w, s'), inv (B + zlen bytes) m s' ∧ same_links (fsys s) (fsys s') ∧
    (∀ k, opened (fds s') k = None ↔ opened (fds s) k = None) ∧
    (w = errno_ret EBADF ∨
     (w = zlen bytes ∧ ∃ p o fl n, opened (fds s) (i32 fd) = Some (p, o, fl) ∧ regular (fsys s) p n ∧
        (o ≤ size n → contents (fsys s') p = overwrite (contents (fsys s) p) o bytes))).
Proof.
  intros Hi HB Hmax H1 H2. assert (0 ≤ zlen bytes) as Hb0 by (unfold zlen; lia). unfold Sys.sys_write.
  rewrite (proj2 (Z.eqb_neq fd 1)), (proj2 (Z.eqb_neq fd 2)) by done. cbn [orb].
  pose proof Hi as ((K & HK) & Hs & Ht & Hl & _). unfold fd_write.
  destruct (get_entry B m (fsys s) (fds s) (i32 fd) Ht Hl) as [E|(e & n & Hin & He & Hne & E & Hn & Ho)]; rewrite E, bind_ok.
  { rewrite bind_ok. apply wp_ok. split; [destruct s; eapply sys_inv_mono; [exact Hi|lia|done]|]. by split_and!; [| |left]. }
  eapply wp_bind, wp_bind, wp_mono; [apply (write_step garbage K (fsys s) (node e) n (offset e) bytes (zlen bytes) HK Hn); lia|].
  intros [k f] (HK' & Hg & Hsd & Hlinks & Hk).
  assert (opened (fds s) (i32 fd) = Some (node e, offset e, flags e)) as Hop.
  { unfold opened. unfold in_range in Hin. rewrite decide_True, He by lia. by rewrite (proj2 (Z.eqb_neq _ 0)). }
  assert ((if 0 <? k then zset (fds s) (i32 fd) (set_offset e (u64 (offset e + k))) else Ok (fds s)) ⇓
    λ t, table_ok m t ∧ live (B + zlen bytes) f t ∧ ∀ j, opened t j = None ↔ opened (fds s) j = None) as Hoff.
  { destruct (Z.ltb_spec 0 k).
    - eapply wp_mono; [by apply (move_offset m)|]. intros t (Ht' & Hu). split; [done|]. destruct (Hg _ _ Hn) as (n' & Hn' & _). split.
      + eapply live_update; [eapply live_mono; [by eapply live_grows|lia]|done|done|]. rewrite u64_small by lia.
        destruct Hk as [->|(-> & _)]; lia.
      + intros j. rewrite Hu. case_decide; [subst j; by rewrite Hop|done].
    - apply wp_ok. split; [done|]. split; [|done]. eapply live_mono; [by eapply live_grows|lia]. }
  eapply wp_bind, wp_mono; [exact Hoff|]. intros t (Ht' & Hl' & Hop'). apply wp_ok, wp_ok. split.
  { apply (inv_both _ m); [eapply sys_inv_mono; [exact Hi|lia|done]|by exists K| |done|done].
    apply Hsd; [lia|]. eapply sized_mono; [done|lia]. }
  split; [done|]. split; [done|]. destruct Hk as [->|(-> & Hreg & Hcon)]; [by left|right].
  destruct (Z.ltb_spec (zlen bytes) 0); [lia|]. split; [done|]. eexists _, _, _, n. split; [done|]. split; [done|]. intros Hos.
  cbn [fsys set_fs]. rewrite Hcon by done. by unfold zlen; rewrite Nat2Z.id, firstn_all.
Qed.

Lemma write_call B m s fd bytes : inv B m s → 0 ≤ B → B + zlen bytes ≤ 2 ^ 31 - 8 →
  sys_write s fd (Some bytes) (zlen bytes) ⇓ λ '(_, s'), inv (B + zlen bytes) m s'.
Proof.
  intros Hi HB Hmax. destruct (decide (fd = 1 ∨ fd = 2)) as [Hc|Hc].
  - unfold Sys.sys_write. assert ((fd =? 1) || (fd =? 2) = true) as -> by lia. assert (0 ≤ zlen bytes) as Hb0 by (unfold zlen; lia).
    pose proof Hi as (HK & Hs & Ht & Hl & (q & Hq) & Hcw). eapply wp_bind, wp_mono; [by apply (print_ok bytes _ q)|].
    intros o Ho. apply wp_ok. apply (sys_inv_mono B _ m); [|lia|done]. repeat (split; [done|]). done.
  - eapply wp_mono; [apply sys_write_ok; (done || tauto)|]. by intros [w s'] (? & _).
Qed.

Lemma seek_call B m s fd off whence : inv B m s → 0 ≤ B → B + Z.abs off ≤ 2 ^ 31 - 8 →
  sys_seek s fd off whence ⇓ λ '(_, s'), inv (B + Z.abs off) m s'.
Proof.
  intros Hi HB Hmax. pose proof Hi as ((K & HK) & Hs & Ht & Hl & _). assert (inv (B + Z.abs off) m s) as Hi' by (eapply sys_inv_mono; [exact Hi|lia|done]).
  unfold sys_seek, fd_seek. rewrite (i64_small off) by lia.
  destruct (get_entry B m (fsys s) (fds s) (i32 fd) Ht Hl) as [E|(e & n & Hin & He & Hne & E & Hn & Ho)]; rewrite E, bind_ok.
  { rewrite bind_ok. apply wp_ok. by destruct s. }
  pose proof (Hs _ _ Hn) as Hsz.
  assert ((if i32 whence =? 1 then Ok (Some (i64 (offset e)))
           else if i32 whence =? 2 then if node e =? 0 then Ok (Some 0) else n ← get_node (fsys s) (node e); Ok (Some (i64 (size n)))
           else if negb (i32 whence =? 0) then Ok None else Ok (Some 0)) ⇓ λ b, ∀ x, b = Some x → 0 ≤ x ≤ B) as Hbase.
  { rewrite (get_node_ok _ _ n Hn). repeat case_match; apply wp_ok; intros x Hx; simplify_eq; rewrite ?i64_small by lia; lia. }
  eapply wp_bind, wp_bind, wp_mono; [exact Hbase|]. intros [b|] Hb; [|apply wp_ok, wp_ok; by destruct s].
  specialize (Hb b eq_refl). cbv zeta. destruct ((_ <? _) || (_ <=? _)) eqn:Eo; [lia|].
  destruct (Z.ltb_spec (b + off) 0); [apply wp_ok, wp_ok; by destruct s|].
  eapply wp_bind, wp_mono; [by apply (move_offset m)|]. intros t (Ht' & Hu). apply wp_ok, wp_ok.
  apply (inv_fds _ m); [done|done|]. eapply live_update; [eapply live_mono; [done|lia]|done|done|]. rewrite u64_small by lia. lia.
Qed.

(** A path argument: a string without long names. *)
Definition path_arg (t : list Z) : Prop := path_ok t ∧ short t ∧ zlen t < 2 ^ 63.

Lemma truncate_node_ok K f p n len : fs_ok K f → nodes f !! p = Some n → 0 ≤ len ≤ 2 ^ 32 - 16 →
  truncate_node garbage f p len ⇓ λ x, ∃ r f', x = Some (r, f') ∧ (r = -1 ∨ r = 0) ∧ (∃ K, fs_ok K f') ∧ grows f f' ∧
    (∀ B, len ≤ B → sized B f → sized B f') ∧ same_links f f'.
Proof.
  intros HK Hn Hl. unfold truncate_node. rewrite (get_node_ok f p n Hn), bind_ok. pose proof HK as (_ & _ & Hops). rewrite (Hops p n Hn).
  eapply wp_bind, wp_mono; [by apply (truncate_step garbage K f p n len)|]. intros [r f'] (HK' & Hg & Hb & Hl' & Hr). apply wp_ok.
  exists r, f'. split; [done|]. split; [done|]. split; [by exists K|]. by split_and!.
Qed.

Lemma lookup_live K f t : fs_ok K f → path_arg t →
  ∃ p, vfs_lookup garbage f (Some (cstr t)) = Ok p ∧ (p = 0 ∨ p ≠ 0 ∧ ∃ n, nodes f !! p = Some n).
Proof.
  intros HK (Ht & _ & _). destruct (lookup_node garbage K f t HK Ht) as (p & -> & Hp). exists p. split; [done|].
  destruct Hp as [->|(Hp & n & Hn & _)]; [by left|right]. by eauto.
Qed.

(** Two file systems with the same links resolve every path alike. *)
Lemma links_lookup K f f' path t : fs_ok K f → same_links f f' → is_cstr path t →
  vfs_lookup garbage f' (Some path) = vfs_lookup garbage f (Some path).
Proof.
  intros (Hok & _) Hl Ht. rewrite (vfs_lookup_ok garbage K f _ t), (vfs_lookup_ok garbage K f' _ t) by (done || by eapply same_links_tree).
  destruct (components t); [|done]. by rewrite (same_links_view K f f').
Qed.

(** The node [sys_open] works on: the one the path leads to, made if need be. *)
Lemma open_node K f t fl p : fs_ok K f → path_arg t → t ≠ [] → vfs_lookup garbage f (Some (cstr t)) = Ok p →
  (if (p =? 0) && set_flag fl O_CREAT then
     '(_, f) ← make_parent_dirs garbage f (Some (cstr t));
     '(r, out, f) ← vfs_create garbage f (Some (cstr t)) (if set_flag fl O_DIRECTORY then VFS_NODE_DIR else VFS_NODE_FILE);
     Ok (r =? 0, default 0 out, f)
   else Ok (true, p, f)) ⇓ λ '(ok, q, f'), fs_step f f' ∧ (p ≠ 0 → f' = f) ∧
     (ok = true → q = 0 ∨ (is_Some (nodes f' !! q) ∧ vfs_lookup garbage f' (Some (cstr t)) = Ok q)).
Proof.
  intros HK Harg Hne Hlk. pose proof Harg as (Hpt & Hsh & Hlen). destruct (_ && _) eqn:Ec.
  - eapply wp_bind, wp_mono; [apply (make_parent_dirs_ok K _ _ t); try done; by apply is_cstr_cstr|].
    intros [x f1] Hst. pose proof Hst as ((K1 & HK1) & _).
    eapply wp_bind, wp_mono; [apply (create_step garbage K1 f1 _ t); [done|by apply is_cstr_cstr|by intros cs c; apply components_short]|].
    intros [[r out] f'] (HK2 & Hg & Hb & Hr). apply wp_ok. split; [eapply fs_step_trans; [done|]; by split|].
    split; [intros Hp; apply andb_prop in Ec as [Ec _]; lia|].
    destruct Hr as [[-> _]|(-> & c & n & -> & _ & Hn & Hc)]; [done|]. right. split; [by exists n|done].
  - apply wp_ok. split; [by eapply fs_step_refl|]. split; [done|]. intros _.
    destruct (lookup_live K f t HK Harg) as (p' & E & Hp). rewrite Hlk in E. injection E as <-.
    destruct Hp as [->|(_ & n & Hn)]; [by left|right; split; [by exists n|done]].
Qed.

Lemma open_ok B m s t fl : inv B m s → 0 ≤ B → 1 ≤ m < 2 ^ 31 - 1 → path_arg t → t ≠ [] →
  sys_open garbage s (Some (cstr t)) fl ⇓ λ '(fd, s'), inv B (m + 1) s' ∧
    (vfs_lookup garbage (fsys s) (Some (cstr t)) ≠ Ok 0 → set_flag fl O_TRUNC = false → fsys s' = fsys s) ∧
    (-ENOMEM ≤ fd < 0 ∨
     (3 ≤ fd < FD_TABLE_MAX ∧ opened (fds s) fd = None ∧
      ∃ p, is_Some (nodes (fsys s') !! p) ∧ vfs_lookup garbage (fsys s') (Some (cstr t)) = Ok p ∧
        (set_flag fl O_APPEND = false → opened (fds s') fd = Some (p, 0, i32 fl)))).
Proof.
  intros Hi HB Hm Ht Hne. pose proof Hi as ((K & HK) & Hs & Htab & Hl & _). unfold sys_open.
  destruct (lookup_live K (fsys s) t HK Ht) as (p & Elk & _). rewrite Elk, bind_ok.
  eapply wp_bind, wp_mono; [by apply (open_node K (fsys s) t fl p)|]. intros [[ok q] f] (Hst & Hsame & Hq).
  assert (inv B (m + 1) (set_fs s f) ∧ (Ok p ≠ Ok 0 → set_flag fl O_TRUNC = false → fsys (set_fs s f) = fsys s) ∧
    (-ENOMEM ≤ errno_ret ENOENT < 0 ∨ False)) as (Hinv & Hsame' & [He|[]]).
  { split; [eapply sys_inv_mono; [by apply inv_fs|done|lia]|]. split; [intros Hp _; apply Hsame; congruence|left; done]. }
  destruct ok; [|apply wp_ok; by split_and!; [..|left]]. cbn [negb orb].
  destruct (Z.eqb_spec q 0) as [|Hp0]; [apply wp_ok; by split_and!; [..|left]|].
  destruct (Hq eq_refl) as [|[[n Hn] Hlk]]; [done|].
  assert ((if set_flag fl O_TRUNC then r ← truncate_node garbage f q 0; Ok (match r with Some (_, f) => f | None => f end)
           else Ok f) ⇓ λ f', fs_step (fsys s) f' ∧ grows f f' ∧ same_links f f' ∧ (set_flag fl O_TRUNC = false → f' = f)) as Htr.
  { destruct (set_flag fl O_TRUNC); [|apply wp_ok; split; [done|split; [apply grows_refl|done]]]. destruct Hst as ((K1 & HK1) & Hg1 & Hb1).
    eapply wp_bind, wp_mono; [by apply (truncate_node_ok K1 f q n 0)|]. intros x (r & f' & -> & _ & HK2 & Hg & Hb & Hl'). apply wp_ok.
    split; [|by split_and!]. split; [done|]. split; [by eapply grows_trans|]. auto. }
  eapply wp_bind, wp_mono; [exact Htr|]. intros f' (Hst' & Hg' & Hlinks & Hnt). destruct (Hg' q n Hn) as (n' & Hn' & _).
  pose proof (inv_fs B m s f' Hi HB Hst') as Hi'. eapply wp_bind, wp_mono.
  { apply (table_call B m (set_fs s f') (Alloc q (i32 fl))); try done. by intros ? ? [= <- _]. }
  intros [fd tb] (Hi2 & Hspec). cbn [fds set_fs] in Hspec.
  assert ((if (0 <=? fd) && set_flag fl O_APPEND then e ← fd_get tb fd;
             match e with Some e => n ← get_node f' q; zset tb fd (set_offset e (size n)) | None => Ok tb end
           else Ok tb) ⇓ λ tb', table_ok (m + 1) tb' ∧ live B f' tb' ∧ (set_flag fl O_APPEND = false → tb' = tb)) as Happ.
  { pose proof Hi2 as (_ & Hs2 & Ht2 & Hl2 & _). destruct (set_flag fl O_APPEND); [|rewrite andb_false_r; by apply wp_ok].
    destruct (_ && _); [|by apply wp_ok].
    destruct (get_entry B (m + 1) f' tb fd Ht2 Hl2) as [->|(e & ne & Hin & He' & Hne' & -> & Hne2 & _)]; rewrite bind_ok; [by apply wp_ok|].
    rewrite (get_node_ok f' q n' Hn'), bind_ok. eapply wp_mono; [by apply (move_offset (m + 1))|]. intros tb' (Ht3 & Hu).
    split; [done|]. split; [|done]. eapply live_update; [done|done|by exists ne|]. by apply (Hs2 q n'). }
  eapply wp_bind, wp_mono; [exact Happ|]. intros tb' (Ht3 & Hl3 & Hna). apply wp_ok.
  destruct Hi' as (HK3 & Hs3 & _). split; [by apply (inv_both B m)|].
  split; [intros Hp Hno; cbn [fsys set_fs]; rewrite (Hnt Hno); apply Hsame; congruence|].
  destruct Hspec as [([?|_] & -> & _)|(_ & Hfree & Hu)]; [done|left; done|].
  pose proof Hfree as (Hr & Hnone & _). right. destruct (Z.ltb_spec fd 0); [lia|]. split; [done|]. split; [done|]. exists q.
  split; [by exists n'|]. split.
  - destruct Hst as ((K1 & HK1) & _). cbn [fsys set_fs]. rewrite (links_lookup K1 f f' _ t); [done|done|done|]. apply is_cstr_cstr, Ht.
  - intros Hno. cbn [fds set_fs set_fds]. by rewrite (Hna Hno), Hu, decide_True.
Qed.

Lemma open_call B m s t fl : inv B m s → 0 ≤ B → 1 ≤ m < 2 ^ 31 - 1 → path_arg t → t ≠ [] →
  sys_open garbage s (Some (cstr t)) fl ⇓ λ '(_, s'), inv B (m + 1) s'.
Proof. intros. eapply wp_mono; [by apply open_ok|]. by intros [fd s'] (? & _). Qed.

Lemma mkdir_call B m s t : inv B m s → 0 ≤ B → path_arg t → t ≠ [] → sys_mkdir garbage s (Some (cstr t)) ⇓ λ '(_, s'), inv B m s'.
Proof.
  intros Hi HB (Hpt & Hsh & Hlen) Hne. pose proof Hi as ((K & HK) & _). unfold sys_mkdir.
  eapply wp_bind, wp_mono; [apply (make_parent_dirs_ok K _ _ t); try done; by apply is_cstr_cstr|].
  intros [x f] Hst. pose proof Hst as ((K1 & HK1) & _).
  eapply wp_bind, wp_mono; [apply (create_step garbage K1 f _ t); [done|by apply is_cstr_cstr|by intros cs c; apply components_short]|].
  intros [[r out] f'] (HK2 & Hg & Hb & _). apply wp_ok. apply inv_fs; [done|done|]. eapply fs_step_trans; [done|]. by split.
Qed.

Lemma unlink_call B m s t : inv B m s → 0 ≤ B → path_arg t → sys_unlink garbage s (Some (cstr t)) ⇓ λ '(_, s'), inv B m s'.
Proof.
  intros Hi HB (Hpt & _). pose proof Hi as ((K & HK) & _). unfold sys_unlink.
  eapply wp_bind, wp_mono; [apply (unlink_step garbage K _ _ t HK); by apply is_cstr_cstr|].
  intros [r f] (HK' & Hg & Hb & _). apply wp_ok. apply inv_fs; [done|done|]. split; [done|]. split; [done|]. auto.
Qed.

Lemma chdir_call B m s t : inv B m s → path_arg t →
  sys_chdir garbage s (Some (cstr t)) ⇓ λ '(r, s'), inv B m s' ∧ (r = 0 → is_cstr (cwd s') t) ∧
    (r ≠ 0 → r = errno_ret ENOENT ∧ s' = s).
Proof.
  intros Hi Ht. pose proof Hi as ((K & HK) & Hs & Htab & Hl & Hq & Hc & _). unfold sys_chdir.
  destruct (lookup_live K (fsys s) t HK Ht) as (p & -> & Hp). rewrite bind_ok. destruct Ht as (Hpt & _ & Hlen).
  assert (∀ x, errno_ret ENOENT = 0 → x) as Hen by done.
  destruct (Z.eqb_spec p 0) as [|Hp0]; [by apply wp_ok|]. destruct Hp as [|(_ & n & Hn)]; [done|]. rewrite (get_node_ok _ p n Hn), bind_ok.
  rewrite (strlen_ok _ t), bind_ok by (done || by apply is_cstr_cstr).
  destruct (negb _ || (CWD_SIZE <=? zlen t)) eqn:E; [by apply wp_ok|].
  assert (zlen t < CWD_SIZE) as Hfit by (apply orb_false_iff in E as [_ E]; lia).
  rewrite (strcpy_ok _ _ t), bind_ok by (lia || by apply is_cstr_cstr). apply wp_ok.
  set (c := splice (cwd s) 0 (t ++ [0])). assert (is_cstr c t) as Hct.
  { split; [done|]. unfold c, splice. simpl. rewrite <-app_assoc. by eexists. }
  assert (zlen c = CWD_SIZE) as Hcl.
  { unfold c. unfold zlen at 1. rewrite length_splice; [done|lia|]. unfold zlen in *. rewrite length_app. simpl. lia. }
  split; [|by split]. split; [by exists K|]. repeat (split; [done|]). by exists t.
Qed.

Lemma opendir_call B m s t : inv B m s → 0 ≤ B → 1 ≤ m < 2 ^ 31 - 1 → path_arg t →
  sys_opendir garbage s (Some (cstr t)) ⇓ λ '(_, s'), inv B (m + 1) s'.
Proof.
  intros Hi HB Hm Ht. pose proof Hi as ((K & HK) & _). unfold sys_opendir.
  assert (inv B (m + 1) s) as Hi' by (eapply sys_inv_mono; [done|done|lia]).
  destruct (lookup_live K (fsys s) t HK Ht) as (p & -> & Hp). rewrite bind_ok.
  destruct (Z.eqb_spec p 0) as [|Hp0]; [by apply wp_ok|]. destruct Hp as [|(_ & n & Hn)]; [done|]. rewrite (get_node_ok _ p n Hn), bind_ok.
  case_decide; [by apply wp_ok|]. eapply wp_bind, wp_mono.
  { apply (table_call B m s (Alloc p O_DIRECTORY)); try done. intros ? ? [= <- _]. by exists n. }
  intros [fd tb] (Hi2 & _). by apply wp_ok.
Qed.

Lemma truncate_call B m s t len : inv B m s → 0 ≤ B → 0 ≤ len → B + len ≤ 2 ^ 31 - 8 → path_arg t →
  sys_truncate garbage s (Some (cstr t)) len ⇓ λ '(_, s'), inv (B + len) m s'.
Proof.
  intros Hi HB Hlen Hmax Ht. pose proof Hi as ((K & HK) & _). unfold sys_truncate.
  assert (inv (B + len) m s) as Hi' by (eapply sys_inv_mono; [done|lia|done]). pose proof Hi' as (_ & Hs & Htab & Hl & _).
  destruct (lookup_live K (fsys s) t HK Ht) as (p & -> & Hp). rewrite bind_ok.
  destruct (Z.eqb_spec p 0) as [|Hp0]; [by apply wp_ok|]. destruct Hp as [|(_ & n & Hn)]; [done|].
  eapply wp_bind, wp_mono; [apply (truncate_node_ok K _ p n len HK Hn); lia|]. intros x (r & f & -> & _ & HK2 & Hg & Hb & _). apply wp_ok.
  assert (inv (B + len) m (set_fs (set_fds s (fds s)) f)) as Hb2; [|by destruct s].
  apply (inv_both _ m); [done|done|apply Hb; [lia|done]|done|by eapply live_grows].
Qed.

Lemma ftruncate_call B m s fd len : inv B m s → 0 ≤ B → 0 ≤ len → B + len ≤ 2 ^ 31 - 8 →
  sys_ftruncate garbage s fd len ⇓ λ '(_, s'), inv (B + len) m s'.
Proof.
  intros Hi HB Hlen Hmax. pose proof Hi as ((K & HK) & _ & Ht0 & Hl0 & _). unfold sys_ftruncate.
  assert (inv (B + len) m s) as Hi' by (eapply sys_inv_mono; [done|lia|done]). pose proof Hi' as (_ & Hs & Htab & Hl & _).
  destruct (get_entry B m (fsys s) (fds s) (i32 fd) Ht0 Hl0) as [->|(e & n & _ & _ & _ & -> & Hn & _)]; rewrite bind_ok; [by apply wp_ok|].
  eapply wp_bind, wp_mono; [apply (truncate_node_ok K _ _ n len HK Hn); lia|]. intros x (r & f & -> & _ & HK2 & Hg & Hb & _). apply wp_ok.
  assert (inv (B + len) m (set_fs (set_fds s (fds s)) f)) as Hb2; [|by destruct s].
  apply (inv_both _ m); [done|done|apply Hb; [lia|done]|done|by eapply live_grows].
Qed.

(** ** Reading directories *)

Lemma nth_child_ok K f p n off : fs_ok K f → nodes f !! p = Some n → 0 ≤ off →
  nth_child f (children n) off = Ok (default 0 (kids K p !! Z.to_nat off)).
Proof.
  intros HK Hn Ho. pose proof HK as ((_ & Htr & _) & _). destruct (Htr p n Hn) as (_ & Hc & _).
  assert (nth_child f (children n) off ⇓ λ c, c = default 0 (kids K p !! Z.to_nat off)) as (c & -> & ->); [|done].
  pose proof (chain_length _ _ _ Hc). unfold nth_child.
  apply (wp_walk (nx := next) (nodes f) (λ pre a '(i, c), i = zlen pre ∧ c = a ∧ i ≤ off)) with (a := children n) (l := kids K p);
    [done|lia|by unfold zlen; simpl|..].
  - intros pre q nq post [i c] Hl Hq Hnq (-> & -> & Hi). rewrite (proj2 (Z.eqb_neq q 0)) by done. cbn [orb].
    destruct (Z.ltb_spec (zlen pre) off); cbn [negb].
    + rewrite (get_node_ok f q nq Hnq), bind_ok. apply wp_ok. unfold zlen in *. rewrite length_app. simpl. split_and!; [lia|done|lia].
    + apply wp_ok. assert (off = zlen pre) as -> by lia. unfold zlen. rewrite Hl, Nat2Z.id, lookup_app_r, Nat.sub_diag by lia. done.
  - intros [i c] (-> & -> & Hi). apply wp_ok. rewrite lookup_ge_None_2; [done|]. unfold zlen in Hi. lia.
Qed.

(** What a call returns for the child at the offset, and the state after it. *)
Lemma readdir_ok K B m s fd e n : inv B m s → fs_ok K (fsys s) → in_range (i32 fd) → fds s !! Z.to_nat (i32 fd) = Some e →
  node e ≠ 0 → fd_get (fds s) (i32 fd) = Ok (Some e) → nodes (fsys s) !! node e = Some n → type n = VFS_NODE_DIR →
  0 ≤ offset e < 2 ^ 63 →
  sys_readdir s fd true ⇓ λ '(r, out, s'),
    match kids K (node e) !! Z.to_nat (offset e) with
    | None => r = 0 ∧ out = None ∧ s' = s
    | Some c =>
        r = 1 ∧ (∃ nc d, nodes (fsys s) !! c = Some nc ∧ out = Some d ∧ d_ino d = c ∧ d_type d = dirent_type (Some nc) ∧
                   is_cstr (d_name d) (until_nul (name nc))) ∧
        ∃ t, s' = set_fds s t ∧ t = <[Z.to_nat (i32 fd) := set_offset e (offset e + 1)]> (fds s) ∧ table_ok m t ∧
          updated (opened (fds s)) (opened t) (i32 fd) (Some (node e, offset e + 1, flags e))
    end.
Proof.
  intros Hi HK Hin He Hne Hget Hn Hty Ho. pose proof Hi as (_ & _ & Ht & _). unfold sys_readdir. rewrite Hget, bind_ok. cbn [negb].
  rewrite (get_node_ok _ _ n Hn), bind_ok, decide_False by (intros Hx; by apply Hx).
  rewrite (nth_child_ok K _ (node e) n), bind_ok by (done || lia).
  destruct (kids K (node e) !! Z.to_nat (offset e)) as [c|] eqn:Hk; cbn [default from_option id]; [|by apply wp_ok].
  pose proof HK as ((_ & Htr & Hkid & _) & _). destruct (Hkid (node e) c) as (_ & _ & nc & Hnc & _); [by eapply list_elem_of_lookup_2|].
  destruct (Htr c nc Hnc) as (Hc0 & _ & (nm & Hnm & Hlen) & _). rewrite (proj2 (Z.eqb_neq c 0)), (get_node_ok _ c nc Hnc), bind_ok by done.
  assert (until_nul (name nc) = nm) as Hun by (by eapply until_nul_cstr). unfold VFS_NAME_MAX in *.
  rewrite (strlen_ok _ nm), bind_ok by (done || lia). cbv zeta. destruct (Z.leb_spec D_NAME_SIZE (zlen nm)) as [Hx|_]; [unfold D_NAME_SIZE in Hx; lia|].
  pose proof (is_cstr_length _ _ Hnm) as Hl2. assert (0 ≤ zlen nm) by (unfold zlen; lia).
  rewrite memcpy_ok, bind_ok by (unfold D_NAME_SIZE, zlen in *; rewrite ?length_replicate; lia). rewrite u64_small by lia.
  assert (slice (name nc) 0 (zlen nm) = nm) as Hsl.
  { destruct Hnm as [_ [rest ->]]. unfold slice, zlen. by rewrite Nat2Z.id, drop_0, take_app_length. }
  rewrite Hsl. apply wp_bind. apply (set_entry m); [done|done|exact (table_refs _ _ _ _ Ht He)|]. intros t Ht' Hins Hu.
  simpl in Hu. rewrite (proj2 (Z.eqb_neq _ 0)) in Hu by done. apply wp_ok. split; [done|]. split; [|by exists t].
  eexists nc, _. split; [done|]. split; [done|]. split; [done|]. split; [done|]. cbn [d_name]. rewrite Hun.
  destruct Hnm as [Hnm _]. split; [done|]. unfold splice. change (Z.to_nat 0) with 0%nat. rewrite take_0, Nat.add_0_l, drop_replicate. cbn [app].
  replace (Z.to_nat D_NAME_SIZE - length nm)%nat with (S (255 - length nm)) by (unfold D_NAME_SIZE, zlen in *; lia). by eexists.
Qed.

Lemma readdir_call B m s fd : inv B m s → 0 ≤ B → B + 1 ≤ 2 ^ 31 - 8 → sys_readdir s fd true ⇓ λ '(_, _, s'), inv (B + 1) m s'.
Proof.
  intros Hi HB Hmax. assert (inv (B + 1) m s) as Hi' by (eapply sys_inv_mono; [done|lia|done]).
  pose proof Hi as ((K & HK) & _ & Ht & Hl & _).
  destruct (get_entry B m (fsys s) (fds s) (i32 fd) Ht Hl) as [E|(e & n & Hin & He & Hne & E & Hn & Ho)].
  { unfold sys_readdir. rewrite E, bind_ok. by apply wp_ok. }
  destruct (decide (type n = VFS_NODE_DIR)) as [Hd|Hd].
  - eapply wp_mono; [apply (readdir_ok K B m s fd e n); (done || lia)|]. intros [[r out] s'].
    destruct (kids K (node e) !! Z.to_nat (offset e)); [|by intros (_ & _ & ->)]. intros (_ & _ & t & -> & _ & Ht' & Hu).
    apply (inv_fds _ m); [done|done|]. eapply live_update; [eapply live_mono; [done|lia]|done|by exists n|lia].
  - unfold sys_readdir. rewrite E, bind_ok. cbn [negb]. rewrite (get_node_ok _ _ n Hn), bind_ok, decide_True by done. by apply wp_ok.
Qed.

Lemma fill_stat_ok (f : fs) p n : nodes f !! p = Some n → p ≠ 0 → fill_stat f p true ⇓ λ '(r, o), r = 0 ∧ (st_ino <$> o) = Some p.
Proof.
  intros Hn Hp. unfold fill_stat. rewrite (proj2 (Z.eqb_neq p 0)) by done. cbn [negb orb]. rewrite (get_node_ok f p n Hn), bind_ok. by apply wp_ok.
Qed.

(** ** Any sequence of calls *)

Inductive file_call :=
  | FOpen (t : list Z) (flags : Z) | FClose (fd : Z) | FRead (fd count : Z) | FWrite (fd : Z) (bytes : list Z)
  | FSeek (fd off whence : Z) | FDup (fd : Z) | FDup2 (oldfd newfd : Z) | FMkdir (t : list Z) | FUnlink (t : list Z)
  | FChdir (t : list Z) | FOpendir (t : list Z) | FReaddir (fd : Z) | FTruncate (t : list Z) (len : Z)
  | FFtruncate (fd len : Z) | FStat (t : list Z) | FFstat (fd : Z) | FGetcwd (size : Z).

Definition call (s : sys) (c : file_call) : outcome (Z * sys) :=
  match c with
  | FOpen t fl => sys_open garbage s (Some (cstr t)) fl
  | FClose fd => sys_close s fd
  | FRead fd count => '(r, _, s) ← sys_read 1 s fd (Some (replicate (Z.to_nat count) 0)) count; Ok (r, s)
  | FWrite fd bytes => sys_write s fd (Some bytes) (zlen bytes)
  | FSeek fd off whence => sys_seek s fd off whence
  | FDup fd => sys_dup s fd
  | FDup2 a b => sys_dup2 s a b
  | FMkdir t => sys_mkdir garbage s (Some (cstr t))
  | FUnlink t => sys_unlink garbage s (Some (cstr t))
  | FChdir t => sys_chdir garbage s (Some (cstr t))
  | FOpendir t => sys_opendir garbage s (Some (cstr t))
  | FReaddir fd => '(r, _, s) ← sys_readdir s fd true; Ok (r, s)
  | FTruncate t len => sys_truncate garbage s (Some (cstr t)) len
  | FFtruncate fd len => sys_ftruncate garbage s fd len
  | FStat t => '(r, _) ← sys_stat garbage s (Some (cstr t)) true; Ok (r, s)
  | FFstat fd => '(r, _) ← sys_fstat s fd true; Ok (r, s)
  | FGetcwd size => '(r, _) ← sys_getcwd s 4096 (Some (replicate (Z.to_nat size) 0)) size; Ok (r, s)
  end.

Fixpoint calls (s : sys) (cs : list file_call) : outcome (list Z * sys) :=
  match cs with
  | [] => Ok ([], s)
  | c :: cs => '(r, s) ← call s c; '(rs, s) ← calls s cs; Ok (r :: rs, s)
  end.

(** How far a call can move an offset or the end of a file. *)
Definition cost (c : file_call) : Z :=
  match c with
  | FRead _ n => n
  | FWrite _ bytes => zlen bytes
  | FSeek _ off _ => Z.abs off
  | FReaddir _ => 1
  | FTruncate _ len | FFtruncate _ len => len
  | _ => 0
  end.
Definition total (cs : list file_call) : Z := foldr (λ c n, cost c + n) 0 cs.

Definition call_args (c : file_call) : Prop :=
  match c with
  | FOpen t _ | FMkdir t => path_arg t ∧ t ≠ []
  | FUnlink t | FChdir t | FOpendir t | FStat t => path_arg t
  | FTruncate t len => path_arg t ∧ 0 ≤ len
  | FRead fd count => fd ≠ 0 ∧ 0 ≤ count
  | FFtruncate _ len => 0 ≤ len
  | FGetcwd size => 0 ≤ size
  | _ => True
  end.

Lemma cost_nonneg c : call_args c → 0 ≤ cost c.
Proof. destruct c; simpl; unfold zlen; lia. Qed.

Lemma call_ok B m s c : inv B m s → 0 ≤ B → 1 ≤ m < 2 ^ 31 - 1 → call_args c → B + cost c ≤ 2 ^ 31 - 8 →
  call s c ⇓ λ '(_, s'), inv (B + cost c) (m + 1) s'.
Proof.
  intros Hi HB Hm Hargs Hmax. assert (inv B (m + 1) s) as Hi1 by (eapply sys_inv_mono; [done|done|lia]).
  pose proof Hi as ((K & HK) & _ & Ht & Hl & _ & Hcl & tc & Hcw & Hcwl).
  destruct c as [t fl|fd|fd count|fd bytes|fd off whence|fd|a b|t|t|t|t|fd|t len|fd len|t|fd|size]; cbn [call cost call_args] in *;
    rewrite ?Z.add_0_r in *.
  - destruct Hargs. by apply open_call.
  - eapply wp_bind, wp_mono; [by apply (table_call B m s (Close (i32 fd)))|]. intros [r t] (Hi2 & _). by apply wp_ok.
  - destruct Hargs. eapply wp_bind, wp_mono; [by apply read_call|]. intros [[r out] s'] Hr. apply wp_ok. eapply sys_inv_mono; [done|done|lia].
  - eapply wp_mono; [by apply write_call|]. intros [r s'] Hr. eapply sys_inv_mono; [done|done|lia].
  - eapply wp_mono; [by apply seek_call|]. intros [r s'] Hr. eapply sys_inv_mono; [done|done|lia].
  - eapply wp_bind, wp_mono; [by apply (table_call B m s (Dup (i32 fd)))|]. intros [r t] (Hi2 & _). by apply wp_ok.
  - eapply wp_bind, wp_mono; [by apply (table_call B m s (Dup2 (i32 a) (i32 b)))|]. intros [r t] (Hi2 & _). by apply wp_ok.
  - destruct Hargs. by apply (mkdir_call B (m + 1)).
  - by apply (unlink_call B (m + 1)).
  - eapply wp_mono; [by apply (chdir_call B (m + 1))|]. by intros [r s'] (? & _).
  - by apply opendir_call.
  - eapply wp_bind, wp_mono; [by apply (readdir_call B (m + 1))|]. intros [[r out] s'] Hr. by apply wp_ok.
  - destruct Hargs. by apply (truncate_call B (m + 1)).
  - by apply (ftruncate_call B (m + 1)).
  - unfold sys_stat. destruct (lookup_live K (fsys s) t HK Hargs) as (p & -> & Hp). rewrite bind_ok.
    destruct (Z.eqb_spec p 0) as [|Hp0]; cbn [negb]; [by apply wp_ok|]. destruct Hp as [|(_ & n & Hn)]; [done|].
    eapply wp_bind, wp_mono; [by apply (fill_stat_ok _ p n)|]. intros [r o] _. by apply wp_ok.
  - unfold sys_fstat. destruct (get_entry B m (fsys s) (fds s) (i32 fd) Ht Hl) as [->|(e & n & _ & _ & Hne & -> & Hn & _)];
      rewrite bind_ok; [by apply wp_ok|]. eapply wp_bind, wp_mono; [by apply (fill_stat_ok _ _ n)|]. intros [r o] _. by apply wp_ok.
  - unfold sys_getcwd. unfold CWD_SIZE in *. rewrite (strlen_ok _ tc), bind_ok by (done || lia).
    assert (0 ≤ zlen tc) by (unfold zlen; lia). rewrite (u64_small (zlen tc + 1)) by lia.
    destruct ((size =? 0) || (size <? zlen tc + 1)) eqn:E; [by apply wp_ok|]. rewrite (strcpy_ok _ _ tc); [by apply wp_ok|done|].
    unfold zlen at 2. rewrite length_replicate. lia.
Qed.

Lemma calls_ok cs : ∀ B m s, inv B m s → 0 ≤ B → 1 ≤ m → m + zlen cs < 2 ^ 31 - 1 → Forall call_args cs → B + total cs ≤ 2 ^ 31 - 8 →
  calls s cs ⇓ λ '(rs, s'), length rs = length cs ∧ inv (B + total cs) (m + zlen cs) s'.
Proof.
  induction cs as [|c cs IH]; intros B m s Hi HB Hm Hlen Hargs Hmax; cbn [calls].
  { apply wp_ok. split; [done|]. cbn [total foldr]. unfold zlen. by rewrite !Z.add_0_r. }
  apply Forall_cons in Hargs as [Hc Hcs]. cbn [total foldr] in Hmax. fold (total cs) in Hmax. pose proof (cost_nonneg c Hc).
  assert (0 ≤ total cs). { clear -Hcs. induction Hcs as [|c cs Hc _ IH]; [done|]. unfold total in *. simpl. pose proof (cost_nonneg c Hc). lia. }
  unfold zlen in *. simpl length in *. eapply wp_bind, wp_mono; [apply (call_ok B m s c); (done || lia)|]. intros [r s1] Hi1.
  eapply wp_bind, wp_mono; [apply (IH (B + cost c) (m + 1) s1); (done || lia)|]. intros [rs s2] (Hl & Hi2). apply wp_ok. split; [simpl; lia|].
  eapply sys_inv_mono; [exact Hi2| |lia]. cbn [total foldr]. fold (total cs). lia.
Qed.

(** The state after the boot code mounted the root: no descriptor is open and the working
    directory is the root. *)
Definition boot_sys (f : fs) (p : @Proc.Proc.procs H) (sh : Shm.Shm.shm_t) (sk : list Socket.socket_t)
  (o : @KPrintf.console D) (c : Console.Console.console_t) (hz : Z) : sys :=
  {| fsys := f; fds := fd_table_init; ps := p; shm := sh; socks := sk; con := o; input := c; shift := false; ticks := 0;
     timer_hz := hz; cwd := slash :: replicate 255 0; process_break := 0x40000000 |}.

Lemma boot_inv f p sh sk o c hz q : (∃ K, fs_ok K f) → sized 0 f → Klog.repr (KPrintf.log o) q → inv 0 1 (boot_sys f p sh sk o c hz).
Proof.
  intros HK Hs Hq. split; [done|]. split; [done|]. split; [apply init_table_ok|]. split.
  { intros fd a b e Ho. cbn [fds boot_sys] in Ho. by rewrite opened_init in Ho. }
  split; [by exists q|]. split; [done|]. exists [slash]. split; [|done]. split; [repeat constructor; unfold slash; lia|by eexists].
Qed.

(** ** The working directory *)

(** A path [sys_chdir] accepts is the one [sys_getcwd] stores, in any buffer that has room
    for it; a path it refuses leaves the working directory as it was. *)
Theorem sys_chdir_getcwd B m s t address buffer : inv B m s → path_arg t → 0 ≤ address < 2 ^ 63 → zlen t < zlen buffer < 2 ^ 64 →
  ('(r, s') ← sys_chdir garbage s (Some (cstr t));
   '(g, out) ← sys_getcwd s' address (Some buffer) (zlen buffer);
   Ok (r, s', g, out)) ⇓ λ '(r, s', g, out),
    (r = 0 ∧ g = address ∧ out = Some (splice buffer 0 (t ++ [0]))) ∨ (r = errno_ret ENOENT ∧ s' = s).
Proof.
  intros Hi Ht Ha Hb. eapply wp_bind, wp_mono; [by apply (chdir_call B m s t)|]. intros [r s'] (Hi' & H0 & Hn).
  pose proof Hi' as (_ & _ & _ & _ & _ & Hcl & tc & Hcw & Hcwl). unfold sys_getcwd, CWD_SIZE in *.
  rewrite (strlen_ok _ tc), bind_ok by (done || lia). assert (0 ≤ zlen tc) by (unfold zlen; lia). rewrite (u64_small (zlen tc + 1)) by lia.
  destruct (decide (r = 0)) as [->|Hr].
  - assert (tc = t) as -> by (eapply is_cstr_unique; [done|by apply H0]). assert (0 ≤ zlen t) by (unfold zlen; lia).
    destruct ((zlen buffer =? 0) || (zlen buffer <? zlen t + 1)) eqn:E; [lia|]. rewrite (strcpy_ok _ _ t), !bind_ok by (done || lia).
    apply wp_ok. left. by rewrite i64_small by lia.
  - destruct (_ || _) eqn:E.
    + apply wp_bind, wp_ok, wp_ok. right. by split; [apply Hn|apply Hn].
    + rewrite (strcpy_ok _ _ tc), !bind_ok by (done || lia). apply wp_ok. right. by apply Hn.
Qed.

(** ** What is written through one descriptor is read through another *)

Definition klog_name : list Z := [107; 108; 111; 103].

(** The name of the node a path leads to. *)
Lemma lookup_name K f t p n cs c : fs_ok K f → path_ok t → components t = Some (cs ++ [c]) →
  vfs_lookup garbage f (Some (cstr t)) = Ok p → nodes f !! p = Some n → until_nul (name n) = cut c.
Proof.
  intros HK Ht Hc Hlk Hn. pose proof HK as (Hok & _). rewrite (vfs_lookup_ok garbage K f _ t) in Hlk by (done || by apply is_cstr_cstr).
  rewrite Hc, fmap_app in Hlk. injection Hlk as Hp. change (cut <$> [c]) with [cut c] in Hp. rewrite view_snoc in Hp.
  destruct Hok as (_ & Htr & _). destruct (Htr p n Hn) as (Hp0 & _).
  destruct (first_named_elem f (cut c) _ p Hp Hp0) as (_ & n' & Hn' & <-). congruence.
Qed.

Lemma sys_read_ok K B m s fd p o fl n count : inv B m s → fs_ok K (fsys s) → 3 ≤ fd < FD_TABLE_MAX → opened (fds s) fd = Some (p, o, fl) →
  regular (fsys s) p n → until_nul (name n) ≠ klog_name → 0 ≤ count < 2 ^ 31 → B ≤ 2 ^ 31 →
  sys_read 1 s fd (Some (replicate (Z.to_nat count) 0)) count ⇓ λ '(r, out, _),
    let bs := slice (contents (fsys s) p) o count in
    r = zlen bs ∧ out = Some (splice (replicate (Z.to_nat count) 0) 0 bs).
Proof.
  intros Hi HK Hfd Hop Hreg Hname Hc HB. pose proof Hi as (_ & Hs & Ht & Hl & _). pose proof Hreg as (Hn & Hty & Hops).
  unfold Sys.sys_read. rewrite (bool_decide_false (_ = None)) by done. cbn [andb]. unfold FD_TABLE_MAX in *.
  rewrite (proj2 (Z.eqb_neq fd 0)) by lia. rewrite (i32_small fd) by lia.
  set (buf := replicate (Z.to_nat count) 0). assert (zlen buf = count) as Hbuf by (unfold buf, zlen; rewrite length_replicate; lia).
  destruct (fd_get_ok m (fds s) fd Ht) as [[_ E]|(e & Hin & He & Hne & E & Ho)]; [congruence|]. rewrite E, bind_ok.
  assert (node e = p ∧ offset e = o) as [Ep Eo] by (split; congruence). rewrite Ep, (get_node_ok _ p n Hn), bind_ok.
  destruct (node_text K _ p n HK Hn) as (nm & Hnm & _). destruct (Hl _ _ _ _ Hop) as [_ Hor].
  eapply wp_bind, wp_bind, wp_mono; [apply (strcmp_ok _ nm _ klog_name); [done|]|].
  { apply is_cstr_cstr. repeat constructor; lia. }
  intros r Hr. apply wp_ok. rewrite (until_nul_cstr _ nm Hnm) in Hname. destruct (Z.eqb_spec r 0) as [Er|_]; [by destruct Hname; apply Hr|].
  unfold fd_read. rewrite E, bind_ok, Ep, Eo. unfold vfs_read. pose proof HK as (_ & (L & Hst) & _).
  rewrite (proj2 (Z.eqb_neq p 0)), (get_node_ok _ p n Hn), bind_ok, Hops by congruence.
  rewrite (tmpfs_read_ok L _ p n) by (done || lia). rewrite !bind_ok. set (bs := slice _ _ _).
  assert (0 ≤ zlen bs) by (unfold zlen; lia). assert (zlen bs ≤ count) by (unfold bs, slice, zlen; rewrite length_take; lia).
  assert ((if 0 <? zlen bs then zset (fds s) fd (set_offset e (u64 (o + zlen bs))) else Ok (fds s)) ⇓ λ _, True) as Hz.
  { destruct (_ <? _); [|by apply wp_ok]. eapply wp_mono; [by apply (move_offset m)|done]. }
  eapply wp_bind, wp_bind, wp_mono; [exact Hz|]. intros t _. apply wp_ok, wp_ok. destruct (Z.ltb_spec (zlen bs) 0); [lia|done].
Qed.

(** Write through a fresh descriptor, open the path again and read as many bytes. *)
Definition write_and_reread (s : sys) (t : list Z) (fl : Z) (bytes : list Z) : outcome (Z * Z * Z * option (list Z)) :=
  '(fd, s) ← sys_open garbage s (Some (cstr t)) fl;
  '(w, s) ← sys_write s fd (Some bytes) (zlen bytes);
  '(fd2, s) ← sys_open garbage s (Some (cstr t)) 0;
  '(_, out, _) ← sys_read 1 s fd2 (Some (replicate (length bytes) 0)) (zlen bytes);
  Ok (fd, w, fd2, out).

(** Bytes written with sys_write through a descriptor opened without O_APPEND on a path whose
    last name is not klog are read back by sys_read through a second descriptor opened on the
    same path, which is a different descriptor; the write fails with EBADF or takes all bytes. *)
Theorem sys_write_then_read B m s t fl bytes cs c :
  inv B m s → 0 ≤ B → B + zlen bytes ≤ 2 ^ 30 - 8 → 1 ≤ m < 2 ^ 31 - 2 →
  path_arg t → components t = Some (cs ++ [c]) → c ≠ klog_name → set_flag fl O_APPEND = false →
  write_and_reread s t fl bytes ⇓ λ '(fd, w, fd2, out),
    w = errno_ret EBADF ∨
    (w = zlen bytes ∧ (fd2 < 0 ∨ (3 ≤ fd < FD_TABLE_MAX ∧ 3 ≤ fd2 < FD_TABLE_MAX ∧ fd2 ≠ fd ∧ out = Some bytes))).
Proof.
  intros Hi HB Hmax Hm Ht Hc Hck Hna. assert (0 ≤ zlen bytes) as Hb0 by (unfold zlen; lia).
  assert (t ≠ []) as Hne by (intros ->; vm_compute in Hc; by destruct cs).
  unfold write_and_reread.
  eapply wp_bind, wp_mono; [apply (open_ok B m s t fl); (done || lia)|]. intros [fd s1] (Hi1 & _ & Hfd).
  assert (fd ≠ 1 ∧ fd ≠ 2 ∧ fd ≠ 0 ∧ i32 fd = fd) as (Hn1 & Hn2 & Hn0 & Hi32).
  { unfold FD_TABLE_MAX, ENOMEM in Hfd. assert (-12 ≤ fd < 128) by (destruct Hfd as [?|(? & _)]; lia). rewrite i32_small; lia. }
  eapply wp_bind, wp_mono; [apply (sys_write_ok B (m + 1) s1 fd bytes); (done || lia)|]. intros [w s2] (Hi2 & Hlinks & Hop2 & Hw).
  eapply wp_bind, wp_mono; [apply (open_ok (B + zlen bytes) (m + 1) s2 t 0); (done || lia)|]. intros [fd2 s3] (Hi3 & Hsame & Hfd2).
  assert (fd2 ≠ 0) as Hn20 by (unfold ENOMEM in Hfd2; destruct Hfd2 as [?|(? & _)]; lia).
  replace (length bytes) with (Z.to_nat (zlen bytes)) by (unfold zlen; lia).
  destruct Hw as [->|(-> & p & o & flg & n & Hop & Hreg & Hcon)].
  { eapply wp_bind, wp_mono; [apply (read_call (B + zlen bytes) (m + 1 + 1) s3 fd2); (done || lia)|].
    intros [[r out] s4] _. apply wp_ok. by left. }
  destruct Hfd2 as [Hneg|(Hr2 & Hnone2 & p2 & _ & Hlk2 & Hop3)].
  { eapply wp_bind, wp_mono; [apply (read_call (B + zlen bytes) (m + 1 + 1) s3 fd2); (done || lia)|].
    intros [[r out] s4] _. apply wp_ok. right. split; [done|]. left. lia. }
  rewrite Hi32 in Hop. destruct Hfd as [Hneg|(Hr & _ & p' & _ & Hlk & Hop')].
  { exfalso. unfold opened in Hop. rewrite decide_False in Hop by lia. done. }
  rewrite (Hop' Hna) in Hop. injection Hop as -> <- <-.
  pose proof Hi1 as ((K & HK) & Hs1 & _). pose proof Hreg as (Hn & Hty & Hops).
  pose proof (is_cstr_cstr t (proj1 Ht)) as Hct.
  assert (vfs_lookup garbage (fsys s2) (Some (cstr t)) = Ok p) as Hlk' by (by rewrite (links_lookup K _ _ _ t HK Hlinks Hct)).
  assert (p ≠ 0) as Hp0 by (destruct HK as (_ & (L & Hst) & _); by eapply storage_node_pos).
  assert (fsys s3 = fsys s2) as Hf3 by (apply Hsame; [rewrite Hlk'; congruence|done]).
  rewrite Hf3, Hlk' in Hlk2. injection Hlk2 as <-. destruct (regular_links _ _ p n Hlinks Hreg) as (n' & Hreg' & Hst').
  assert (until_nul (name n') ≠ klog_name) as Hnk.
  { destruct (strip_fields _ _ Hst') as (-> & _). rewrite (lookup_name K (fsys s1) t p n cs c) by (done || apply Ht).
    destruct Ht as (_ & Hsh & _). pose proof (components_short t cs c Hsh Hc). unfold cut, VFS_NAME_MAX, zlen in *. by rewrite take_ge by lia. }
  pose proof Hi3 as ((K3 & HK3) & _). rewrite <-Hf3 in Hreg'.
  eapply wp_bind, wp_mono; [apply (sys_read_ok K3 (B + zlen bytes) (m + 1 + 1) s3 fd2 p 0 (i32 0) n'); auto; lia|].
  intros [[r out] s4] (_ & ->). apply wp_ok. right. split; [done|]. right. split; [done|]. split; [done|]. split.
  { intros ->. apply Hop2 in Hnone2. by rewrite (Hop' Hna) in Hnone2. }
  f_equal. rewrite Hf3, Hcon by (by destruct (Hs1 p n Hn)). rewrite overwrite_read by done.
  unfold splice. simpl. rewrite drop_ge, app_nil_r; [done|]. rewrite length_replicate. unfold zlen. lia.
Qed.

(** ** A directory read lists the names that resolve *)

Fixpoint list_dir (fuel : nat) (s : sys) (fd : Z) : outcome (list user_dirent_t * sys) :=
  match fuel with
  | O => OutOfFuel
  | S fuel =>
      '(_, out, s) ← sys_readdir s fd true;
      match out with
      | Some d => '(ds, s) ← list_dir fuel s fd; Ok (d :: ds, s)
      | None => Ok ([], s)
      end
  end.

(** The node of the first entry with a name, 0 if no entry has it. *)
Fixpoint entry_named (nm : list Z) (ds : list user_dirent_t) : Z :=
  match ds with
  | [] => 0
  | d :: ds => if decide (until_nul (d_name d) = nm) then d_ino d else entry_named nm ds
  end.

Definition entry_for (f : fs) (c : Z) (d : user_dirent_t) : Prop :=
  d_ino d = c ∧ ∃ n, nodes f !! c = Some n ∧ until_nul (d_name d) = until_nul (name n).

Lemma entry_named_ok f l ds nm : Forall2 (entry_for f) l ds → entry_named nm ds = first_named f nm l.
Proof.
  induction 1 as [|c d l ds (<- & n & Hn & Hd) _ IH]; [done|]. cbn [entry_named first_named].
  rewrite Hn. cbn [fmap option_fmap option_map]. unfold compose. rewrite Hd, IH.
  destruct (decide (until_nul (name n) = nm)) as [->|E]; [by rewrite decide_True|]. rewrite decide_False; [done|congruence].
Qed.

Lemma fd_get_at (t : list fd_entry_t) fd e : in_range fd → t !! Z.to_nat fd = Some e → node e ≠ 0 → fd_get t fd = Ok (Some e).
Proof.
  intros Hin He Hn. unfold fd_get, in_range in *. destruct ((fd <? 0) || (FD_TABLE_MAX <=? fd)) eqn:E; [lia|].
  by rewrite (zget_ok t fd e), bind_ok, (proj2 (Z.eqb_neq _ 0)) by (done || lia).
Qed.

Lemma list_dir_ok K f fd p n : fs_ok K f → nodes f !! p = Some n → type n = VFS_NODE_DIR → 3 ≤ fd < FD_TABLE_MAX →
  ∀ l fuel B m s e, fsys s = f → inv B m s → fds s !! Z.to_nat fd = Some e → node e = p → p ≠ 0 → 0 ≤ offset e →
    drop (Z.to_nat (offset e)) (kids K p) = l → (length l < fuel)%nat → offset e + zlen l < 2 ^ 63 →
    list_dir fuel s fd ⇓ λ '(ds, s'), Forall2 (entry_for f) l ds ∧ fsys s' = f.
Proof.
  intros HK Hn Hty Hfd. assert (i32 fd = fd) as Hi32 by (unfold FD_TABLE_MAX in Hfd; apply i32_small; lia).
  assert (in_range fd) as Hin by (unfold in_range; lia).
  induction l as [|c l IH]; intros fuel B m s e Hf Hi He Hp Hp0 Ho Hl Hfuel Hlen; (destruct fuel as [|fuel]; [simpl in Hfuel; lia|]);
    cbn [list_dir]; unfold zlen in Hlen; simpl length in *;
    (eapply wp_bind, wp_mono; [apply (readdir_ok K B m s fd e n); rewrite ?Hi32, ?Hf, ?Hp; try done; [by apply fd_get_at; rewrite ?Hp|lia]|]);
    intros [[r out] s']; rewrite Hp, Hi32, Hf.
  - assert (kids K p !! Z.to_nat (offset e) = None) as ->.
    { apply lookup_ge_None. apply (f_equal length) in Hl. rewrite length_drop in Hl. simpl in Hl. lia. }
    intros (_ & -> & ->). apply wp_ok. by split.
  - assert (kids K p !! Z.to_nat (offset e) = Some c) as Hc.
    { rewrite <-(Nat.add_0_r (Z.to_nat (offset e))), <-lookup_drop, Hl. done. }
    rewrite Hc. intros (_ & (nc & d & Hnc & -> & Hd & _ & Hdn) & t & -> & -> & Ht' & Hu).
    set (e' := set_offset e (offset e + 1)) in *. set (s1 := set_fds s _).
    assert (inv (Z.max B (offset e + 1)) m s1) as Hi1.
    { apply (inv_fds _ m); [eapply sys_inv_mono; [exact Hi|lia|done]|done|].
      eapply live_update; [eapply live_mono; [apply Hi|lia]|done|rewrite Hf; by exists n|lia]. }
    eapply wp_bind, wp_mono; [apply (IH fuel (Z.max B (offset e + 1)) m s1 e'); try done; cbn [offset e' set_offset]; [|lia| |lia|unfold zlen; lia]|].
    + cbn [s1 fds set_fds]. apply list_lookup_insert_eq. by eapply lookup_lt_Some.
    + replace (Z.to_nat (offset e + 1)) with (S (Z.to_nat (offset e))) by lia.
      rewrite <-Nat.add_1_r, <-drop_drop, Hl. done.
    + intros [ds s2] (Hds & Hf2). apply wp_ok. split; [|done]. constructor; [|done]. split; [done|]. exists nc. split; [done|].
      by rewrite (until_nul_cstr _ _ Hdn).
Qed.

Definition is_dir (f : fs) (t : list Z) : Prop :=
  ∃ p n, vfs_lookup garbage f (Some (cstr t)) = Ok p ∧ nodes f !! p = Some n ∧ type n = VFS_NODE_DIR.

Lemma opendir_ok B m s t : inv B m s → 0 ≤ B → 1 ≤ m < 2 ^ 31 - 1 → path_arg t →
  sys_opendir garbage s (Some (cstr t)) ⇓ λ '(fd, s'), inv B (m + 1) s' ∧ fsys s' = fsys s ∧
    (fd < 0 ∧ (¬ is_dir (fsys s) t ∨ full (opened (fds s))) ∨
     (3 ≤ fd < FD_TABLE_MAX ∧ ∃ e n, fds s' !! Z.to_nat fd = Some e ∧ node e ≠ 0 ∧ offset e = 0 ∧
       vfs_lookup garbage (fsys s) (Some (cstr t)) = Ok (node e) ∧ nodes (fsys s) !! node e = Some n ∧ type n = VFS_NODE_DIR)).
Proof.
  intros Hi HB Hm Ht. pose proof Hi as ((K & HK) & _). unfold sys_opendir.
  assert (inv B (m + 1) s) as Hi' by (eapply sys_inv_mono; [done|done|lia]). unfold is_dir.
  destruct (lookup_live K (fsys s) t HK Ht) as (p & -> & Hp). rewrite bind_ok.
  destruct Hp as [->|(Hp0 & n & Hn)].
  { apply wp_ok. split; [done|]. split; [done|]. left. split; [done|]. left. intros (p & n & [= <-] & Hn & _).
    pose proof HK as ((_ & Htr & _) & _). by destruct (Htr 0 n Hn). }
  rewrite (proj2 (Z.eqb_neq p 0)) by done. rewrite (get_node_ok _ p n Hn), bind_ok.
  case_decide as Hty. { apply wp_ok. split; [done|]. split; [done|]. left. split; [done|]. left. intros (? & ? & [= <-] & ? & ?). congruence. }
  eapply wp_bind, wp_mono.
  { apply (table_call B m s (Alloc p O_DIRECTORY)); try done. intros ? ? [= <- _]. by exists n. }
  intros [fd tb] (Hi2 & Hspec). apply wp_ok. split; [done|]. split; [done|].
  destruct Hspec as [([?|Hfull] & -> & _)|(_ & (Hr & _) & Hu)]; [done|left; by split; [|right]|].
  right. destruct (Z.ltb_spec fd 0); [lia|]. split; [done|].
  pose proof Hi2 as (_ & _ & Ht2 & _). cbn [fds set_fds] in Ht2. specialize (Hu fd). rewrite decide_True in Hu by done.
  destruct (fd_get_ok (m + 1) tb fd Ht2) as [[_ E]|(e & _ & He & Hne & _ & Ho)]; [congruence|].
  assert (node e = p ∧ offset e = 0) as [<- Eo] by (split; congruence). exists e, n. split_and!; try done.
Qed.

(** C32: In a state that the file calls can reach, with less than 2^62 nodes, opening a
    directory by its canonical path (proper components below 64 bytes, less than 256 bytes in
    all) and calling sys_readdir until it ends terminates and yields entries such that, for
    every proper name below 64 bytes whose joined path is below 256 bytes, looking up the
    directory path with that name gives the inode of the first entry with the name, or nothing
    when no entry has it; the tree is unchanged, and opening fails only if the path is not a
    directory or the descriptor table is full. *)
Theorem sys_readdir_lists B m s cs :
  inv B m s → 0 ≤ B → 1 ≤ m < 2 ^ 31 - 1 → Forall proper cs → path_arg (path_text cs) → zlen (path_text cs) < VFS_PATH_MAX →
  Z.of_nat (base.size (nodes (fsys s))) < 2 ^ 62 →
  ('(fd, s1) ← sys_opendir garbage s (Some (cstr (path_text cs)));
   if fd <? 0 then Ok (None, s1)
   else '(ds, s2) ← list_dir (S (S (base.size (nodes (fsys s))))) s1 fd; Ok (Some ds, s2)) ⇓ λ '(r, s'), fsys s' = fsys s ∧
    (r = None → ¬ is_dir (fsys s) (path_text cs) ∨ full (opened (fds s))) ∧
    ∀ ds, r = Some ds → ∀ c, proper c → zlen c < VFS_NAME_MAX → zlen (path_text (cs ++ [c])) < VFS_PATH_MAX →
      vfs_lookup garbage (fsys s) (Some (cstr (path_text (cs ++ [c])))) = Ok (entry_named c ds).
Proof.
  intros Hi HB Hm Hcs Harg Hfit Hsz. pose proof Hi as ((K & HK) & _). eapply wp_bind, wp_mono; [by apply (opendir_ok B m s)|].
  intros [fd s1] (Hi1 & Hf1 & Hfd). destruct Hfd as [(Hneg & Hwhy)|(Hr & e & n & He & Hne & Ho & Hlk & Hn & Hty)].
  { rewrite (proj2 (Z.ltb_lt fd 0)) by done. by apply wp_ok. }
  rewrite (proj2 (Z.ltb_ge fd 0)) by lia. pose proof HK as (Hok & _). pose proof Hok as (_ & Htr & _). destruct (Htr _ n Hn) as (_ & Hch & _).
  pose proof (chain_length _ _ _ Hch) as Hlen.
  eapply wp_bind, wp_mono; [apply (list_dir_ok K (fsys s) fd (node e) n HK Hn Hty Hr (kids K (node e)) _ B (m + 1) s1 e); try done|].
  - lia.
  - by rewrite Ho.
  - lia.
  - unfold zlen. lia.
  - intros [ds s2] (Hds & Hf2). apply wp_ok. split; [done|]. split; [done|]. intros ds' [= <-] c Hc Hcl Hcf.
    assert (path_ok (path_text (cs ++ [c]))) as Hpo by (apply path_text_bytes, Forall_app; by split; [|constructor]).
    rewrite (vfs_lookup_ok garbage K _ _ (path_text (cs ++ [c]))) by (done || by apply is_cstr_cstr).
    rewrite path_text_single by (done || (apply Forall_app; by split; [|constructor])).
    rewrite (vfs_lookup_ok garbage K _ _ (path_text cs)), path_text_single in Hlk by (done || apply is_cstr_cstr, Harg).
    injection Hlk as Hv. rewrite fmap_app. change (cut <$> [c]) with [cut c]. rewrite view_snoc, Hv. f_equal.
    unfold child_named. assert (cut c = c) as -> by (unfold cut, VFS_NAME_MAX, zlen in *; by rewrite take_ge by lia).
    symmetry. by apply entry_named_ok.
Qed.

(** C7: After mounting a tmpfs root, any sequence of less than 2^31 - 2 file system calls (open,
    close, read, write, seek, dup, dup2, mkdir, unlink, chdir, opendir, readdir, truncate,
    ftruncate, stat, fstat, getcwd) in which paths have components below 64 bytes and are not
    empty for open and mkdir, descriptor 0 (the console) is not read, lengths are not negative,
    and at most 2^31 - 8 bytes are written, sought, read or truncated to in all, runs without
    undefined behaviour and returns one result per call; every open descriptor refers to a node
    of a well-formed tree at an offset within bounds, and the log and the working directory stay
    well formed. If the mount fails for lack of memory nothing more is stated. *)
Theorem sys_files_safe h L p sh sk o c hz q cs :
  al_repr h L → Klog.repr (KPrintf.log o) q → Forall call_args cs → zlen cs < 2 ^ 31 - 2 → total cs ≤ 2 ^ 31 - 8 →
  ('(r, f) ← mount (empty_fs h);
   if r =? 0 then '(rs, s) ← calls (boot_sys f p sh sk o c hz) cs; Ok (Some rs, s)
   else Ok (None, boot_sys f p sh sk o c hz)) ⇓ λ '(rs, s),
    rs = None ∨ ∃ l, rs = Some l ∧ length l = length cs ∧ inv (total cs) (1 + zlen cs) s.
Proof.
  intros Ha Hq Hargs Hlen Hmax. destruct (mount_ok h L Ha) as ([r f] & E & Hr). pose proof (mount_sized h r f E) as Hs.
  rewrite E, bind_ok. destruct Hr as [->|(-> & HK)]; [apply wp_ok; by left|]. cbn [Z.eqb].
  eapply wp_bind, wp_mono; [apply (calls_ok cs 0 1); try done; [by eapply boot_inv; [exists ∅| |]|lia]|].
  intros [rs s] (Hl & Hi). apply wp_ok. right. by exists rs.
Qed.

End SysFile.
(** With an empty path the loop of [make_parent_dirs] starts behind the terminator, in the
    part of the local array [strcpy] did not set. *)
Lemma sys_mkdir_empty_path {H : Type} {AL : Allocator H} {RA : Reallocator H} {D : Type} (s : @Sys.sys H D) :
  sys_mkdir (λ _ _, 65) s (Some (cstr [])) = Undef.
Proof.
  unfold sys_mkdir. assert (make_parent_dirs (λ _ _, 65) (fsys s) (Some (cstr [])) = Undef) as -> by (vm_compute; reflexivity). done.
Qed.

(** ** A small system *)

Definition no_device (d : unit) (_ : Z) : outcome unit := Ok d.
Definition no_port (d : unit) (_ : Z) : Z * unit := (0, d).

Lemma no_device_ok d c : no_device d c ⇓ λ _, True.
Proof. by apply wp_ok. Qed.

Definition sample_shm : Shm.Shm.shm_t := Shm.Shm.shm_init {| Shm.Shm.segments := []; Shm.Shm.next_id := 0 |}.
Definition sample_output : @KPrintf.console unit :=
  {| KPrintf.log := {| Klog.storage := replicate (Z.to_nat Klog.KLOG_CAPACITY) 0; Klog.start := 0; Klog.length_ := 0 |};
     KPrintf.devices := tt |}.
Definition sample_input : Console.Console.console_t :=
  {| Console.Console.input_buffer := replicate 512 0; Console.Console.input_head := 0; Console.Console.input_tail := 0 |}.

Lemma sample_output_ok : Klog.repr (KPrintf.log sample_output) [].
Proof.
  assert (zlen (Klog.storage (KPrintf.log sample_output)) = Klog.KLOG_CAPACITY) as E.
  { cbn [Klog.storage KPrintf.log sample_output]. unfold zlen. rewrite length_replicate. by apply Z2Nat.id. }
  split; [exact E|]. split; [done|]. apply Ring.holds_nil; [by rewrite E|done].
Qed.

Definition sample_sys : @Sys.sys Heap.heap_t unit :=
  boot_sys (match mount sample_boot with Ok (_, f) => f | _ => sample_boot end) Proc.Proc.sample_procs sample_shm []
    sample_output sample_input 100.

Lemma sample_sys_inv : inv 0 1 sample_sys.
Proof.
  unfold sample_sys. destruct (mount_ok _ _ sample_boot_repr) as ([r f] & Hm & Hr). fold sample_boot in Hm.
  pose proof (mount_sized _ r f Hm) as Hs. assert (r = 0) as ->.
  { assert (match mount sample_boot with Ok (r, _) => r = 0 | _ => False end) as E by (by vm_compute). by rewrite Hm in E. }
  destruct Hr as [?|(_ & HK)]; [done|]. rewrite Hm. apply (boot_inv f _ _ _ _ _ _ []); [by eexists|done|apply sample_output_ok].
Qed.

(** "/d/a" *)
Definition path_da : list Z := [47; 100; 47; 97].
Definition path_d : list Z := [47; 100].

Lemma short_path t : forallb (λ c, (0 <? c) && (c <? 256)) t = true → forallb (λ c, zlen c <? VFS_NAME_MAX) (split_slash t) = true →
  (zlen t <? 2 ^ 63) = true → path_arg t.
Proof.
  intros Ht Hs Hl. split; [|split; [|by apply Z.ltb_lt]].
  - apply Forall_forall. intros c Hc. apply forallb_forall with (x := c) in Ht; [|by apply list_elem_of_In]. lia.
  - apply Forall_forall. intros c Hc. apply forallb_forall with (x := c) in Hs; [|by apply list_elem_of_In]. lia.
Qed.

Lemma sys_write_then_read_witness :
  write_and_reread no_garbage no_device no_device no_port sample_sys path_da O_CREAT [7; 8; 9] ⇓ λ '(fd, w, fd2, out),
    fd = 3 ∧ w = 3 ∧ fd2 = 4 ∧ out = Some [7; 8; 9].
Proof.
  destruct (sys_write_then_read no_garbage no_device no_device no_port 0 1 sample_sys path_da O_CREAT
    [7; 8; 9] [[100]] [97]) as ([[[fd w] fd2] out] & E & _); [apply sample_sys_inv|unfold zlen; simpl; lia..
    |by apply short_path|reflexivity|discriminate|reflexivity|].
  eexists. split; [exact E|]. vm_compute in E. injection E as <- <- <- <-. by split_and!.
Defined.

Definition sample_calls : list file_call :=
  [FMkdir path_d; FOpen path_da O_CREAT; FWrite 3 [7; 8; 9]; FSeek 3 1 0; FRead 3 8; FDup 3; FClose 3; FReaddir 4; FFtruncate 4 1;
   FStat path_da; FChdir path_d; FGetcwd 16; FUnlink path_da; FOpen path_da 0].

Lemma sample_calls_args : Forall call_args sample_calls.
Proof. repeat apply Forall_cons_2; try apply Forall_nil_2; cbn [call_args]; try done; try (by apply short_path); by split; [apply short_path|]. Qed.

Lemma sys_files_safe_witness :
  ('(r, f) ← mount sample_boot;
   if r =? 0 then
     '(rs, s) ← calls no_garbage no_device no_device no_port
        (boot_sys f Proc.Proc.sample_procs sample_shm [] sample_output sample_input 100) sample_calls;
     Ok (Some rs, s)
   else Ok (None, boot_sys f Proc.Proc.sample_procs sample_shm [] sample_output sample_input 100)) ⇓ λ '(rs, s),
    rs = Some [0; 3; 3; 1; 2; 4; 0; -9; 0; 0; 0; 4096; 0; -2] ∧ ∃ B m, inv B m s.
Proof.
  destruct (sys_files_safe no_garbage no_device no_device no_port no_device_ok no_device_ok _ _ Proc.Proc.sample_procs sample_shm []
    sample_output sample_input 100 _ sample_calls sample_boot_repr sample_output_ok) as ([rs s] & E & Hpost);
    [apply sample_calls_args|by vm_compute|by vm_compute|]. fold sample_boot in E.
  exists (rs, s). split; [exact E|]. match type of E with ?m = _ =>
    assert (match m with Ok (rs, _) => rs = Some [0; 3; 3; 1; 2; 4; 0; -9; 0; 0; 0; 4096; 0; -2] | _ => False end) as Hv by (by vm_compute) end.
  rewrite E in Hv. split; [exact Hv|]. destruct Hpost as [->|(l & _ & _ & Hi)]; [done|by eexists _, _].
Defined.

(** A system with the files "/d/a" and "/d/b". *)
Definition sample_dir : outcome (@Sys.sys Heap.heap_t unit) :=
  '(_, s) ← calls no_garbage no_device no_device no_port sample_sys [FOpen path_da O_CREAT; FOpen [47; 100; 47; 98] O_CREAT]; Ok s.

Lemma sample_dir_inv : sample_dir ⇓ λ s, inv 0 3 s.
Proof.
  unfold sample_dir. eapply wp_bind, wp_mono; [apply (calls_ok no_garbage no_device no_device no_port no_device_ok no_device_ok _ 0 1)|];
    [apply sample_sys_inv|lia|lia|unfold zlen; simpl; lia| |simpl; lia|].
  - repeat apply Forall_cons_2; try apply Forall_nil_2; by split; [apply short_path|].
  - intros [rs s] (_ & Hi). by apply wp_ok.
Qed.

Lemma sys_readdir_lists_witness : ∃ s, sample_dir = Ok s ∧
  ('(fd, s1) ← sys_opendir no_garbage s (Some (cstr (path_text [[100]])));
   if fd <? 0 then Ok (None, s1)
   else '(ds, s2) ← list_dir (S (S (base.size (nodes (fsys s))))) s1 fd; Ok (Some ds, s2)) ⇓ λ '(r, _),
    ∃ ds, r = Some ds ∧ (map (λ d, until_nul (d_name d)) ds) = [[98]; [97]] ∧
      vfs_lookup no_garbage (fsys s) (Some (cstr path_da)) = Ok (entry_named [97] ds).
Proof.
  destruct sample_dir_inv as (s & E & Hi). exists s. split; [exact E|].
  assert (base.size (nodes (fsys s)) = 4%nat) as Hsz.
  { assert (match sample_dir with Ok s => base.size (nodes (fsys s)) = 4%nat | _ => False end) as Hv by (by vm_compute). by rewrite E in Hv. }
  destruct (sys_readdir_lists no_garbage 0 3 s [[100]]) as ([r s'] & Er & _ & _ & Hlook);
    [exact Hi|lia|lia|by repeat constructor|by apply short_path|reflexivity|by rewrite Hsz|].
  exists (r, s'). split; [exact Er|].
  assert (match sample_dir with
    | Ok s => ('(fd, s1) ← sys_opendir no_garbage s (Some (cstr (path_text [[100]])));
         if fd <? 0 then Ok None else '(ds, _) ← list_dir (S (S (base.size (nodes (fsys s))))) s1 fd; Ok (Some (map (λ d, until_nul (d_name d)) ds)))
    | _ => Undef end = Ok (Some [[98]; [97]])) as Hv by (vm_compute; reflexivity).
  rewrite E in Hv. apply bind_inv in Er as ([fd s1] & Eo & Er). rewrite Eo, bind_ok in Hv.
  destruct (fd <? 0); [done|]. apply bind_inv in Er as ([ds s2] & El & Er). rewrite El, bind_ok in Hv.
  injection Er as <- <-. injection Hv as Hv. exists ds. split; [reflexivity|]. split; [exact Hv|].
  apply (Hlook ds eq_refl [97]); [by repeat constructor|reflexivity|reflexivity].
Defined.

End SysFile.
