(* ===== verification/Initrd.v ===== *)
(** The initial RAM disk (kernel/fs/initrd.c): unpacking a ustar archive into the mounted
    root, and what it does on any image and on the image of a list of entries. *)
From S2P Require Import Prelude KString Bytes Heap Path Vfs FileData FsClient FdTable.

Module Initrd.
Import KString Path Vfs FileData FsClient.
Import Bytes(slice_middle, slice_skip, slice_here).
Import Heap(Allocator, Reallocator, al_repr, al_malloc, al_calloc, al_realloc, al_free).

Definition TAR_BLOCK_SIZE : Z := 512.

(** The fields of a header that the loader reads; the others are skipped by their sizes. *)
Record tar_header_t := { h_name : list Z; h_size : list Z; h_type : Z; h_prefix : list Z }.

(** The header at an address of the image: the whole block has to lie inside it. *)
Definition header_at (bytes : list Z) (offset : Z) : outcome tar_header_t :=
  if (0 <=? offset) && (offset + TAR_BLOCK_SIZE <=? zlen bytes) then
    ty ← zget bytes (offset + 156);
    Ok {| h_name := slice bytes offset 100; h_size := slice bytes (offset + 124) 12; h_type := ty;
          h_prefix := slice bytes (offset + 345) 155 |}
  else Undef.

Definition is_zero_block (bytes : list Z) (offset : Z) : outcome bool :=
  r ← for_loop 0 TAR_BLOCK_SIZE
        (λ index (_ : unit), b ← zget bytes (offset + index); if negb (b =? 0) then Ok (inr false) else Ok (inl tt)) tt;
  match r with inl _ => Ok true | inr b => Ok b end.

(** A byte above 127 is a negative [char]: it is no digit either way. *)
Definition parse_octal (text : list Z) (length value : Z) : outcome (Z * Z) :=
  r ← for_loop 0 length
        (λ index '(parsed, seen_digit),
           ch ← zget text index;
           if (ch =? 0) || (ch =? 32) then Ok (inl (parsed, seen_digit))
           else if (ch <? 48) || (55 <? ch) || (Z.shiftr (2 ^ 64 - 1) 3 <? parsed) then Ok (inr (-1))
           else Ok (inl (Z.lor (u64 (Z.shiftl parsed 3)) (ch - 48), true))) (0, false);
  match r with
  | inr e => Ok (e, value)
  | inl (parsed, seen_digit) => Ok (0, if seen_digit : bool then parsed else 0)
  end.

Definition copy_field (output : list Z) (output_size : Z) (field : list Z) (field_size : Z) : outcome (Z * list Z) :=
  length ← loop (S (Z.to_nat field_size))
    (λ n, if n <? field_size then c ← zget field n; if negb (c =? 0) then Ok (inl (u64 (n + 1))) else Ok (inr n)
          else Ok (inr n)) 0;
  if output_size <=? length then Ok (0, output)
  else
    output ← memcpy output 0 field 0 length;
    output ← zset output length 0;
    Ok (length, output).

Section Initrd.
Context {H : Type} `{RA : Reallocator H}.
Context (garbage : Z → Z → Z).
Abbreviation fs := (@Vfs.fs H).

Definition tar_path (header : tar_header_t) (output : list Z) (output_size : Z) : outcome (Z * list Z) :=
  '(name_length, name) ← copy_field (local garbage 101) 101 (h_name header) 100;
  '(prefix_length, prefix) ← copy_field (local garbage 156) 156 (h_prefix header) 155;
  if name_length =? 0 then Ok (-1, output)
  else
    let required := u64 (1 + prefix_length + (if negb (prefix_length =? 0) then 1 else 0) + name_length + 1) in
    if output_size <? required then Ok (-1, output)
    else
      output ← zset output 0 slash;
      '(offset, output) ←
        (if negb (prefix_length =? 0) then
           output ← memcpy output 1 prefix 0 prefix_length;
           output ← zset output (u64 (1 + prefix_length)) slash;
           Ok (u64 (1 + prefix_length + 1), output)
         else Ok (1, output));
      output ← memcpy output offset name 0 name_length;
      output ← zset output (u64 (offset + name_length)) 0;
      Ok (0, output).

(** One turn of the loop of [ensure_directories]. *)
Definition ensure_step : Z * list Z * fs → outcome (Z * list Z * fs + Z * fs) :=
  λ '(index, directory, s),
    c ← zget directory index;
    if c =? 0 then Ok (inr (0, s))
    else if negb (c =? slash) then Ok (inl (u64 (index + 1), directory, s))
    else
      directory ← zset directory index 0;
      n ← vfs_lookup garbage s (Some directory);
      '(failed, s) ← (if n =? 0 then '(r, _, s) ← vfs_create garbage s (Some directory) VFS_NODE_DIR; Ok (negb (r =? 0), s)
                      else Ok (false, s));
      if failed : bool then Ok (inr (-1, s))
      else
        directory ← zset directory index slash;
        Ok (inl (u64 (index + 1), directory, s)).

Definition ensure_directories (s : fs) (path : list Z) : outcome (Z * fs) :=
  length ← strlen (Some path);
  if VFS_PATH_MAX <=? length then Ok (-1, s)
  else
    directory ← memcpy (local garbage VFS_PATH_MAX) 0 path 0 (u64 (length + 1));
    loop (S (Z.to_nat VFS_PATH_MAX)) ensure_step (1, directory, s).

(** [while (path_length > 1 && path[path_length - 1] == '/') path[--path_length] = 0;] *)
Definition strip_slashes (path : list Z) (path_length : Z) : outcome (list Z) :=
  loop (S (length path))
    (λ '(path, n),
       if 1 <? n then
         c ← zget path (n - 1);
         if c =? slash then path ← zset path (n - 1) 0; Ok (inl (path, n - 1)) else Ok (inr path)
       else Ok (inr path)) (path, path_length).

(** What the header says to make, with the file's bytes at [data_offset]: 0 or -1. *)
Definition make_entry (s : fs) (bytes path : list Z) (ty data_offset file_size : Z) : outcome (Z * fs) :=
  if ty =? 53 then
    n ← vfs_lookup garbage s (Some path);
    if n =? 0 then '(r, _, s) ← vfs_create garbage s (Some path) VFS_NODE_DIR; Ok (if negb (r =? 0) then -1 else 0, s)
    else Ok (0, s)
  else if (ty =? 0) || (ty =? 48) then
    n ← vfs_lookup garbage s (Some path);
    '(failed, node, s) ←
      (if n =? 0 then '(r, out, s) ← vfs_create garbage s (Some path) VFS_NODE_FILE; Ok (negb (r =? 0), default 0 out, s)
       else Ok (false, n, s));
    if failed || (node =? 0) then Ok (-1, s)
    else
      '(w, s) ← vfs_write garbage s node 0 (Some (drop (Z.to_nat data_offset) bytes)) file_size;
      Ok (if negb (w =? i32 file_size) then -1 else 0, s)
  else Ok (0, s).

(** One turn of the loop of [initrd_load]. *)
Definition load_step (bytes : list Z) (size : Z) : Z * Z * fs → outcome (Z * Z * fs + Z * fs) :=
  λ '(offset, loaded, s),
    if size <? u64 (offset + TAR_BLOCK_SIZE) then Ok (inr (-1, s))
    else
      header ← header_at bytes offset;
      zero ← is_zero_block bytes offset;
      if zero : bool then Ok (inr (loaded, s))
      else
        '(bad, file_size) ← parse_octal (h_size header) 12 0;
        if negb (bad =? 0) then Ok (inr (-1, s))
        else
          '(bad, path) ← tar_path header (local garbage VFS_PATH_MAX) VFS_PATH_MAX;
          if negb (bad =? 0) then Ok (inr (-1, s))
          else
            let data_offset := u64 (offset + TAR_BLOCK_SIZE) in
            let padded_size := Z.land (u64 (file_size + TAR_BLOCK_SIZE - 1)) (u32 (Z.lnot (TAR_BLOCK_SIZE - 1))) in
            if (u64 (size - data_offset) <? file_size) || (u64 (size - data_offset) <? padded_size) then Ok (inr (-1, s))
            else
              path_length ← strlen (Some path);
              path ← strip_slashes path path_length;
              '(bad, s) ← ensure_directories s path;
              if negb (bad =? 0) then Ok (inr (-1, s))
              else
                '(bad, s) ← make_entry s bytes path (h_type header) data_offset file_size;
                if negb (bad =? 0) then Ok (inr (-1, s))
                else if loaded =? 2 ^ 31 - 1 then Undef
                else Ok (inl (u64 (data_offset + padded_size), loaded + 1, s)).

Definition initrd_load (s : fs) (image : option (list Z)) (size mountpoint : Z) : outcome (Z * fs) :=
  match image with
  | None => Ok (-1, s)
  | Some bytes =>
      if (mountpoint =? 0) || negb (mountpoint =? vfs_root s) || (size <? TAR_BLOCK_SIZE) then Ok (-1, s)
      else loop (S (Z.to_nat size)) (load_step bytes size) (0, 0, s)
  end.

(** kernel/main.c: [module] is the address and size of the first boot module, if any; what
    [initrd_load] returned is kept beside the state. *)
Definition init_filesystems (h : H) (module : option (list Z * Z)) : outcome (option Z * fs * list FdTable.fd_entry_t) :=
  '(root, s) ← tmpfs_create_root (empty_fs h);
  '(r, s) ←
    (if root =? 0 then Ok (None, s)
     else
       '(_, s) ← vfs_mount_root s root;
       '(_, _, s) ← vfs_create garbage s (Some (cstr [47; 100; 101; 118])) VFS_NODE_DIR;
       '(_, _, s) ← vfs_create garbage s (Some (cstr [47; 116; 109; 112])) VFS_NODE_DIR;
       '(_, _, s) ← vfs_create garbage s (Some (cstr [47; 112; 114; 111; 99])) VFS_NODE_DIR;
       '(_, _, s) ← vfs_create garbage s (Some (cstr [47; 100; 101; 118; 47; 107; 108; 111; 103])) VFS_NODE_FILE;
       match module with
       | Some (bytes, size) => '(r, s) ← initrd_load s (Some bytes) size root; Ok (Some r, s)
       | None => Ok (None, s)
       end);
  Ok (r, s, FdTable.fd_table_init).

End Initrd.

(** ** Reading a header *)

(** The value of an octal field: blanks and NUL bytes count for nothing. *)
Fixpoint octal (text : list Z) (acc : Z) : option Z :=
  match text with
  | [] => Some acc
  | c :: text =>
      if (c =? 0) || (c =? 32) then octal text acc
      else if (48 <=? c) && (c <=? 55) && (acc <? 2 ^ 61) then octal text (8 * acc + (c - 48))
      else None
  end.

Lemma octal_app a b acc : octal (a ++ b) acc = octal a acc ≫= octal b.
Proof. revert acc. induction a as [|c a IH]; intros acc; [done|]. simpl. by repeat case_match. Qed.

Lemma octal_range text acc v : octal text acc = Some v → 0 ≤ acc < 2 ^ 64 → 0 ≤ v < 2 ^ 64.
Proof.
  revert acc. induction text as [|c text IH]; intros acc; simpl; [by intros [= ->]|].
  destruct (_ || _); [apply IH|]. destruct ((48 <=? c) && (c <=? 55) && (acc <? 2 ^ 61)) eqn:E; [|done]. intros Ho Ha. apply (IH _ Ho). lia.
Qed.

Lemma octal_digit p d : 0 ≤ p < 2 ^ 61 → 0 ≤ d < 8 → Z.lor (u64 (Z.shiftl p 3)) d = 8 * p + d.
Proof.
  intros Hp Hd. rewrite Z.shiftl_mul_pow2, (Z.mul_comm p) by lia. change (2 ^ 3) with 8. rewrite u64_small by lia.
  rewrite <-Z.add_lor_land, (Z.add_comm _ (Z.land _ _)). assert (Z.land (8 * p) d = 0) as ->; [|lia].
  apply Z.bits_inj'. intros k Hk. rewrite Z.land_spec, Z.bits_0. destruct (decide (k < 3)).
  - change 8 with (2 ^ 3). by rewrite Z.mul_comm, Z.mul_pow2_bits_low.
  - rewrite (Z.bits_above_log2 d), andb_false_r; [done|lia|]. destruct (decide (d = 0)) as [->|]; [simpl; lia|].
    apply Z.log2_lt_pow2; [lia|]. apply (Z.lt_le_trans _ (2 ^ 3)); [simpl; lia|]. apply Z.pow_le_mono_r; lia.
Qed.

Lemma parse_octal_ok text v :
  parse_octal text (zlen text) v ⇓ λ '(r, v'), match octal text 0 with Some x => r = 0 ∧ v' = x | None => r = -1 end.
Proof.
  unfold parse_octal. apply wp_bind.
  apply (wp_for (λ i '(p, seen), octal (take (Z.to_nat i) text) 0 = Some p ∧ (seen = false → p = 0))); [unfold zlen; lia|by split| |].
  - intros i [p seen] Hi [Hp Hs]. destruct (zget_in text i Hi) as [c Hc]. rewrite (zget_ok text i c), bind_ok by (done || lia).
    pose proof (octal_range _ _ _ Hp) as Hr. assert (octal text 0 = octal (c :: drop (S (Z.to_nat i)) text) p) as Ho.
    { rewrite <-(take_drop_middle text _ _ Hc) at 1. rewrite octal_app, Hp. done. }
    assert (octal (take (Z.to_nat (i + 1)) text) 0 = octal [c] p) as Hn.
    { replace (Z.to_nat (i + 1)) with (S (Z.to_nat i)) by lia. rewrite (take_S_r _ _ c), octal_app, Hp by done. done. }
    rewrite Hn. cbn [octal] in Ho |- *. destruct ((c =? 0) || (c =? 32)); [by apply wp_ok|].
    change (Z.shiftr (2 ^ 64 - 1) 3) with (2 ^ 61 - 1).
    destruct ((48 <=? c) && (c <=? 55) && (p <? 2 ^ 61)) eqn:E.
    + destruct ((c <? 48) || (55 <? c) || (2 ^ 61 - 1 <? p)) eqn:E'; [lia|]. apply wp_ok. rewrite octal_digit by lia. done.
    + destruct ((c <? 48) || (55 <? c) || (2 ^ 61 - 1 <? p)) eqn:E'; [|lia]. apply wp_ok, wp_ok. by rewrite Ho.
  - intros [p seen] [Hp Hs]. apply wp_ok. unfold zlen in Hp. rewrite Nat2Z.id, firstn_all in Hp. rewrite Hp. split; [done|].
    destruct seen; [done|]. symmetry. by apply Hs.
Qed.

Definition zero_block (bytes : list Z) (off : Z) : bool := forallb (λ b, b =? 0) (slice bytes off TAR_BLOCK_SIZE).

Lemma is_zero_block_ok bytes off : 0 ≤ off → off + TAR_BLOCK_SIZE ≤ zlen bytes → is_zero_block bytes off ⇓ λ b, b = zero_block bytes off.
Proof.
  intros Ho Hl. unfold is_zero_block. apply wp_bind. unfold TAR_BLOCK_SIZE in *.
  assert (∀ i x, 0 ≤ i < 512 → bytes !! Z.to_nat (off + i) = Some x → slice bytes off 512 !! Z.to_nat i = Some x) as Hsl.
  { intros i x Hi Hx. unfold slice. rewrite lookup_take_lt, lookup_drop by lia. by rewrite <-Z2Nat.inj_add by lia. }
  apply (wp_for (λ i _, Forall (λ b, b = 0) (take (Z.to_nat i) (slice bytes off 512)))); [lia|constructor| |].
  - intros i _ Hi HI. destruct (zget_in bytes (off + i)) as [x Hx]; [lia|]. rewrite (zget_ok _ _ x), bind_ok by (done || lia).
    specialize (Hsl i x Hi Hx). destruct (Z.eqb_spec x 0) as [->|Hne]; cbn [negb]; apply wp_ok.
    + replace (Z.to_nat (i + 1)) with (S (Z.to_nat i)) by lia. rewrite (take_S_r _ _ 0) by done. apply Forall_app. by split; [|constructor].
    + apply wp_ok. symmetry. apply not_true_iff_false. intros Ht. unfold zero_block, TAR_BLOCK_SIZE in Ht. rewrite forallb_forall in Ht.
      specialize (Ht x). rewrite <-list_elem_of_In in Ht. apply list_elem_of_lookup_2 in Hsl. apply Ht in Hsl. lia.
  - intros _ HI. apply wp_ok. symmetry. apply forallb_forall. intros x Hx. apply list_elem_of_In in Hx. unfold TAR_BLOCK_SIZE in Hx.
    rewrite take_ge in HI; [|unfold slice; rewrite length_take; lia]. rewrite Forall_forall in HI. by rewrite (HI x Hx).
Qed.

Definition is_byte (c : Z) : Prop := 0 ≤ c < 256.

Lemma until_nul_prefix l : ∃ r, l = until_nul l ++ r ∧ (r = [] ∨ ∃ r', r = 0 :: r').
Proof.
  induction l as [|c l (r & IH & Hr)]; [by exists []; split; [|left]|]. simpl. destruct (Z.eqb_spec c 0) as [->|].
  - exists (0 :: l). split; [done|right; by eexists].
  - exists r. split; [by rewrite <-app_comm_cons, <-IH|done].
Qed.

Lemma until_nul_bytes l : Forall is_byte l → Forall (λ c, 0 < c < 256) (until_nul l).
Proof.
  induction 1 as [|c l Hc _ IH]; simpl; [done|]. unfold is_byte in Hc. destruct (Z.eqb_spec c 0); [done|]. constructor; [lia|done].
Qed.

Lemma copy_field_ok output field n : Forall is_byte field → zlen field = n → zlen output = n + 1 → n < 2 ^ 63 →
  copy_field output (n + 1) field n ⇓ λ '(len, out), len = zlen (until_nul field) ∧ zlen out = n + 1 ∧ is_cstr out (until_nul field).
Proof.
  intros Hb Hf Ho Hn. unfold copy_field. destruct (until_nul_prefix field) as (r & Hr & Hr0). set (u := until_nul field) in *.
  assert (zlen u ≤ n) as Hu by (rewrite <-Hf, Hr; unfold zlen; rewrite length_app; lia).
  assert (0 ≤ zlen u) by (unfold zlen; lia). pose proof (until_nul_bytes field Hb) as Hub. fold u in Hub.
  apply wp_bind, (wp_loop (λ i, 0 ≤ i ≤ zlen u) (λ i, Z.to_nat (zlen u - i))); [|lia..].
  - intros i Hi. destruct (decide (i = zlen u)) as [->|Hne].
    + assert ((if zlen u <? n then c ← zget field (zlen u); if negb (c =? 0) then Ok (inl (u64 (zlen u + 1))) else Ok (inr (zlen u))
        else Ok (inr (zlen u))) = Ok (@inr Z Z (zlen u))) as ->.
      { destruct (Z.ltb_spec (zlen u) n) as [Hlt|]; [|done]. destruct Hr0 as [->|(r' & ->)]; [rewrite app_nil_r in Hr; rewrite <-Hf, Hr in Hlt; lia|].
        rewrite (zget_ok field _ 0), bind_ok; [done|lia|]. rewrite Hr. unfold zlen. rewrite Nat2Z.id. apply list_lookup_middle. done. }
      apply wp_ok. destruct (Z.leb_spec (n + 1) (zlen u)); [lia|].
      rewrite (memcpy_ok _ 0 field 0 (zlen u)), bind_ok by lia. set (out := splice output 0 _).
      assert (slice field 0 (zlen u) = u) as Hsl by (unfold slice, zlen; rewrite drop_0, Nat2Z.id, Hr; apply take_app_length).
      assert (zlen out = n + 1) as Hlo .
      { unfold out. rewrite Hsl. unfold zlen at 1. rewrite length_splice by lia. exact Ho. }
      apply wp_bind, wp_zset; [lia|]. apply wp_ok. split; [done|]. split; [by rewrite zlen_insert|]. split; [done|].
      exists (drop (S (length u)) out). unfold out, splice in *. rewrite Hsl. simpl. unfold zlen at 1. rewrite Nat2Z.id.
      rewrite insert_app_r_alt, Nat.sub_diag by lia. rewrite drop_app_ge by lia. f_equal.
      destruct (drop (length u) output) as [|x l] eqn:E; [apply (f_equal length) in E; rewrite length_drop in E; unfold zlen in *; simpl in E; lia|].
      simpl. by replace (S (length u) - length u)%nat with 1%nat by lia.
    + assert (∃ c, u !! Z.to_nat i = Some c) as [c Hc] by (apply zget_in; lia). destruct (Z.ltb_spec i n); [|lia].
      rewrite (zget_ok field i c), bind_ok; [|lia|rewrite Hr; by apply lookup_app_l_Some].
      rewrite Forall_lookup in Hub. specialize (Hub _ _ Hc). rewrite (proj2 (Z.eqb_neq c 0)) by lia. cbn [negb]. apply wp_ok.
      rewrite u64_small by lia. lia.
Qed.

(** Filling a buffer from the left. *)
Lemma fill_char (t r : list Z) c : r ≠ [] → zset (t ++ r) (zlen t) c = Ok ((t ++ [c]) ++ drop 1 r).
Proof.
  intros Hr. destruct r as [|x r]; [done|]. rewrite zset_ok by (unfold zlen; rewrite length_app; simpl; lia).
  unfold zlen. rewrite Nat2Z.id, insert_app_r_alt, Nat.sub_diag by lia. simpl. by rewrite <-app_assoc.
Qed.

Lemma fill_bytes (t r u v : list Z) : (length u ≤ length r)%nat → memcpy (t ++ r) (zlen t) (u ++ v) 0 (zlen u) = Ok ((t ++ u) ++ drop (length u) r).
Proof.
  intros Hl. rewrite memcpy_ok by (unfold zlen; rewrite ?length_app; lia). f_equal. unfold splice, slice, zlen.
  rewrite !Nat2Z.id, drop_0, take_app_length, take_app_length, <-app_assoc. do 2 f_equal. by rewrite drop_app_add.
Qed.

(** The path a header names: the prefix, if there is one, and the name. *)
Definition tar_text (h : tar_header_t) : option (list Z) :=
  let nm := until_nul (h_name h) in
  let pf := until_nul (h_prefix h) in
  if decide (nm = []) then None
  else
    let t := slash :: (if decide (pf = []) then [] else pf ++ [slash]) ++ nm in
    if zlen t <? VFS_PATH_MAX then Some t else None.

Definition header_ok (h : tar_header_t) : Prop :=
  zlen (h_name h) = 100 ∧ zlen (h_prefix h) = 155 ∧ zlen (h_size h) = 12 ∧ Forall is_byte (h_name h) ∧ Forall is_byte (h_prefix h).

Lemma tar_path_ok garbage h out : header_ok h → zlen out = VFS_PATH_MAX →
  tar_path garbage h out VFS_PATH_MAX ⇓ λ '(r, out'),
    match tar_text h with Some t => r = 0 ∧ is_cstr out' t ∧ zlen out' = VFS_PATH_MAX | None => r = -1 end.
Proof.
  intros (Hn & Hp & _ & Hnb & Hpb) Ho. unfold tar_path, tar_text. cbv zeta.
  eapply wp_bind, wp_mono; [apply (copy_field_ok _ _ 100); [done|done|by apply length_local|lia]|].
  intros [nl nbuf] (-> & _ & [Hnm (nrest & ->)]). set (nm := until_nul (h_name h)) in *.
  eapply wp_bind, wp_mono; [apply (copy_field_ok _ _ 155); [done|done|by apply length_local|lia]|].
  intros [pl pbuf] (-> & _ & [Hpf (prest & ->)]). set (pf := until_nul (h_prefix h)) in *.
  assert (zlen nm ≤ 100 ∧ zlen pf ≤ 155) as [Hnl Hpl].
  { rewrite <-Hn, <-Hp. destruct (until_nul_prefix (h_name h)) as (x & E1 & _), (until_nul_prefix (h_prefix h)) as (y & E2 & _).
    fold nm in E1. fold pf in E2. rewrite E1, E2. unfold zlen. rewrite !length_app. lia. }
  destruct (Z.eqb_spec (zlen nm) 0) as [E|E].
  { rewrite decide_True by (destruct nm; [done|unfold zlen in E; simpl in E; lia]). by apply wp_ok. }
  rewrite decide_False by (intros E0; by rewrite E0 in E). set (mid := if decide (pf = []) then [] else pf ++ [slash]).
  assert (zlen pf + (if negb (zlen pf =? 0) then 1 else 0) = zlen mid) as Hmid.
  { unfold mid. destruct (decide (pf = [])) as [->|Hne]; [done|]. rewrite (proj2 (Z.eqb_neq (zlen pf) 0)).
    - unfold zlen. rewrite length_app. simpl. lia.
    - destruct pf; [done|unfold zlen; simpl; lia]. }
  assert (0 ≤ zlen mid ≤ 156) as Hmr by (split; [unfold zlen; lia|]; destruct (negb _); lia). assert (0 ≤ zlen nm) by (unfold zlen; lia).
  replace (1 + zlen pf + _ + zlen nm + 1) with (zlen mid + zlen nm + 2) by lia. rewrite u64_small by lia.
  assert (zlen (slash :: mid ++ nm) = zlen mid + zlen nm + 1) as Ht by (unfold zlen; simpl; rewrite length_app; lia). rewrite Ht.
  destruct (Z.ltb_spec VFS_PATH_MAX (zlen mid + zlen nm + 2)) as [Hbig|Hfit], (Z.ltb_spec (zlen mid + zlen nm + 1) VFS_PATH_MAX); try lia;
    [by apply wp_ok|].
  unfold VFS_PATH_MAX in *. destruct out as [|x r]; [done|]. change (zset (x :: r) 0 slash) with (zset ([] ++ x :: r) (zlen (@nil Z)) slash).
  rewrite fill_char, bind_ok by done. cbn [app drop]. rewrite drop_0. assert (zlen r = 255) as Hr by (unfold zlen in *; simpl in Ho; lia).
  assert ((if negb (zlen pf =? 0) then output ← memcpy (slash :: r) 1 (pf ++ 0 :: prest) 0 (zlen pf);
      output ← zset output (u64 (1 + zlen pf)) slash; Ok (u64 (1 + zlen pf + 1), output) else Ok (1, slash :: r)) =
    Ok (zlen (slash :: mid), (slash :: mid) ++ drop (length mid) r)) as ->.
  { unfold mid in *. destruct (decide (pf = [])) as [->|Hne]; [done|]. rewrite (proj2 (Z.eqb_neq (zlen pf) 0)) by (destruct pf; [done|unfold zlen; simpl; lia]).
    cbn [negb]. assert (zlen (pf ++ [slash]) = zlen pf + 1) as Hm1 by (unfold zlen; rewrite length_app; simpl; lia).
    change (slash :: r) with ([slash] ++ r). rewrite (fill_bytes [slash] r pf), bind_ok by (unfold zlen in *; lia).
    assert (zlen ([slash] ++ pf) = 1 + zlen pf) as E1 by (unfold zlen; simpl; lia). assert (0 ≤ zlen pf) by (unfold zlen; lia).
    rewrite (u64_small (1 + zlen pf)) by lia. rewrite <-E1 at 1. rewrite fill_char, bind_ok.
    - rewrite u64_small by lia. do 2 f_equal; [unfold zlen; simpl; rewrite length_app; simpl; lia|]. rewrite drop_drop, <-app_assoc. cbn [app].
      by rewrite length_app, <-(app_assoc pf).
    - intros E0. apply (f_equal length) in E0. rewrite length_drop in E0. unfold zlen in *. simpl in E0. lia. }
  rewrite bind_ok, (fill_bytes (slash :: mid) _ nm), bind_ok by (rewrite length_drop; unfold zlen in *; lia).
  assert (zlen (slash :: mid) + zlen nm = zlen ((slash :: mid) ++ nm)) as E1 by (unfold zlen; rewrite length_app; lia).
  assert (zlen ((slash :: mid) ++ nm) = zlen mid + zlen nm + 1) as E2 by (by rewrite <-app_comm_cons). rewrite E1, u64_small by lia.
  rewrite fill_char, bind_ok.
  - apply wp_ok. split; [done|]. split.
    + split; [|rewrite <-(app_assoc _ [0]), <-app_comm_cons; by eexists]. constructor; [unfold slash; lia|]. apply Forall_app. split; [|done].
      unfold mid. destruct (decide _); [done|]. apply Forall_app. split; [done|]. constructor; [unfold slash; lia|done].
    + unfold zlen in *. rewrite !length_app, !length_drop. simpl. rewrite length_app in *. simpl in *. lia.
  - intros E0. apply (f_equal length) in E0. rewrite !length_drop in E0. unfold zlen in *. simpl in E0. lia.
Qed.

(** A text without the slashes at its end, of which at least one byte is kept. *)
Fixpoint chop_rev (r : list Z) : list Z :=
  match r with
  | c :: ((_ :: _) as r') => if c =? slash then chop_rev r' else r
  | _ => r
  end.
Definition chop (t : list Z) : list Z := reverse (chop_rev (reverse t)).

Lemma chop_slash t : t ≠ [] → chop (t ++ [slash]) = chop t.
Proof.
  intros Ht. unfold chop. rewrite reverse_app. cbn [reverse rev_append app]. destruct (reverse t) as [|c r] eqn:E; [|done].
  destruct Ht. by rewrite <-(reverse_involutive t), E.
Qed.

Lemma chop_done t c : c ≠ slash → chop (t ++ [c]) = t ++ [c].
Proof.
  intros Hc. unfold chop. assert (chop_rev (reverse (t ++ [c])) = reverse (t ++ [c])) as ->; [|apply reverse_involutive].
  rewrite reverse_app. change (reverse [c]) with [c]. cbn [app]. destruct (reverse t); simpl; [done|]. by rewrite (proj2 (Z.eqb_neq c slash)).
Qed.

Lemma chop_prefix t : ∃ r, t = chop t ++ r ∧ (t ≠ [] → chop t ≠ []).
Proof.
  induction t as [|c t IH] using rev_ind; [by exists []|]. destruct (decide (c = slash)) as [->|Hc].
  - destruct (decide (t = [])) as [->|Ht]; [by exists []|]. rewrite chop_slash by done. destruct IH as (r & IH & Hn).
    exists (r ++ [slash]). split; [by rewrite app_assoc, <-IH|auto].
  - rewrite chop_done by done. exists []. by rewrite app_nil_r.
Qed.

Lemma strip_slashes_ok path t : is_cstr path t →
  strip_slashes path (zlen t) ⇓ λ path', is_cstr path' (chop t) ∧ zlen path' = zlen path.
Proof.
  intros Hp. unfold strip_slashes.
  apply (wp_loop (λ '(p, n), ∃ t', is_cstr p t' ∧ n = zlen t' ∧ chop t' = chop t ∧ zlen p = zlen path) (λ '(_, n), Z.to_nat n)).
  - intros [p n] (t' & Hc & -> & Hch & Hl). destruct (Z.ltb_spec 1 (zlen t')) as [Hlt|Hge].
    + destruct t' as [|c u _] using rev_ind; [unfold zlen in Hlt; simpl in Hlt; lia|].
      assert (zlen (u ++ [c]) - 1 = zlen u) as E by (unfold zlen; rewrite length_app; simpl; lia). rewrite E.
      assert (u ≠ []) as Hu by (intros ->; unfold zlen in Hlt; simpl in Hlt; lia).
      destruct Hc as [Hb (rest & ->)]. pose proof Hb as [Hub Hcb]%Forall_app. apply Forall_cons in Hcb as [Hcb _].
      rewrite <-(app_assoc u [c]) in Hl |- *. cbn [app] in Hl |- *.
      rewrite (zget_ok _ _ c), bind_ok; [|unfold zlen; lia|unfold zlen; rewrite Nat2Z.id; by apply list_lookup_middle].
      destruct (Z.eqb_spec c slash) as [->|Hc].
      * rewrite fill_char, bind_ok by done. cbn [drop]. rewrite ?drop_0, <-(app_assoc u [0]). cbn [app]. apply wp_ok. split; [|unfold zlen in *; lia].
        exists u. split; [by split; [|by eexists]|]. split; [done|]. split; [by rewrite <-Hch, chop_slash|].
        rewrite <-Hl. unfold zlen. by rewrite !length_app.
      * apply wp_ok. rewrite <-Hch, chop_done by done. split; [|done]. split; [done|]. exists rest. by rewrite <-app_assoc.
    + apply wp_ok. assert (chop t' = t') as E.
      { destruct t' as [|c [|d t']]; [done|done|unfold zlen in Hge; simpl in Hge; lia]. }
      rewrite E in Hch. by rewrite <-Hch.
  - by exists t.
  - apply is_cstr_length in Hp. unfold zlen. lia.
Qed.

(** ** The entries of an archive *)

Record tar_entry := { e_path : list Z; e_type : Z; e_data : list Z }.

Definition padded (n : Z) : Z := 512 * ((n + 511) / 512).

(** The entry at an offset and the offset of the next one. *)
Definition read_entry (bytes : list Z) (size off : Z) : option (tar_entry * Z) :=
  h ← match header_at bytes off with Ok h => Some h | _ => None end;
  n ← octal (h_size h) 0;
  t ← tar_text h;
  if padded n <=? size - (off + 512) then
    Some ({| e_path := chop t; e_type := h_type h; e_data := slice bytes (off + 512) n |}, off + 512 + padded n)
  else None.

(** The entries from an offset on, and whether a zero block ends them. *)
Fixpoint entries (fuel : nat) (bytes : list Z) (size off : Z) : list tar_entry * bool :=
  match fuel with
  | O => ([], false)
  | S fuel =>
      if size <? off + 512 then ([], false)
      else if zero_block bytes off then ([], true)
      else match read_entry bytes size off with
           | None => ([], false)
           | Some (e, off') => let '(es, ok) := entries fuel bytes size off' in (e :: es, ok)
           end
  end.

Lemma padded_bounds n : 0 ≤ n → n ≤ padded n < n + 512.
Proof. intros. unfold padded. pose proof (Z.div_mod (n + 511) 512 ltac:(lia)). pose proof (Z.mod_pos_bound (n + 511) 512 ltac:(lia)). lia. Qed.

Lemma padded_mask n : 0 ≤ n < 2 ^ 31 → Z.land (u64 (n + TAR_BLOCK_SIZE - 1)) (u32 (Z.lnot (TAR_BLOCK_SIZE - 1))) = padded n.
Proof.
  intros Hn. unfold TAR_BLOCK_SIZE, padded. replace (n + 512 - 1) with (n + 511) by lia. rewrite u64_small by lia.
  change (u32 (Z.lnot (512 - 1))) with (Z.ldiff (Z.ones 32) (Z.ones 9)). rewrite Z.ldiff_land, Z.land_assoc, <-Z.ldiff_land, Z.land_ones, Z.mod_small by lia.
  change 512 with (2 ^ 9). rewrite (Z.mul_comm (2 ^ 9)), <-Z.shiftl_mul_pow2, <-Z.shiftr_div_pow2 by lia. apply Z.ldiff_ones_r. lia.
Qed.

Lemma header_at_ok bytes off : Forall is_byte bytes → 0 ≤ off → off + 512 ≤ zlen bytes →
  ∃ h, header_at bytes off = Ok h ∧ header_ok h.
Proof.
  intros Hb Ho Hl. unfold header_at, TAR_BLOCK_SIZE. destruct ((0 <=? off) && (off + 512 <=? zlen bytes)) eqn:E; [|lia].
  destruct (zget_in bytes (off + 156)) as [x Hx]; [lia|]. rewrite (zget_ok _ _ x), bind_ok by (done || lia).
  eexists. split; [done|]. unfold header_ok. cbn [h_name h_size h_type h_prefix].
  split_and!; try (unfold zlen; rewrite length_slice by lia; lia); unfold slice; by apply Forall_take, Forall_drop.
Qed.

(** ** Archives as [tar] writes them *)

(** [k] octal digits. *)
Fixpoint digits (k : nat) (n : Z) : list Z :=
  match k with O => [] | S k => digits k (n / 8) ++ [48 + n mod 8] end.

Lemma length_digits k n : length (digits k n) = k.
Proof. revert n. induction k as [|k IH]; intros n; [done|]. simpl. rewrite length_app, IH. simpl. lia. Qed.

Lemma octal_digits k n : (k ≤ 20)%nat → 0 ≤ n < 8 ^ Z.of_nat k → octal (digits k n) 0 = Some n.
Proof.
  revert n. induction k as [|k IH]; intros n Hk Hn; [simpl; f_equal; simpl in Hn; lia|]. cbn [digits].
  assert (8 ^ Z.of_nat (S k) = 8 * 8 ^ Z.of_nat k) as E by (rewrite Nat2Z.inj_succ, Z.pow_succ_r; lia).
  pose proof (Z.div_mod n 8 ltac:(lia)) as Hd. pose proof (Z.mod_pos_bound n 8 ltac:(lia)).
  assert (0 ≤ n / 8 < 8 ^ Z.of_nat k) as Hq by lia. rewrite octal_app, IH by (done || lia). cbn.
  assert (8 ^ Z.of_nat k ≤ 8 ^ 19) by (apply Z.pow_le_mono_r; lia).
  destruct ((48 + n mod 8 =? 0) || (48 + n mod 8 =? 32)) eqn:E0; [lia|].
  destruct ((48 <=? 48 + n mod 8) && (48 + n mod 8 <=? 55) && (n / 8 <? 2 ^ 61)) eqn:E1; [f_equal; lia|lia].
Qed.

(** A field of [len] bytes that holds a text. *)
Definition field (len : nat) (t : list Z) : list Z := t ++ replicate (len - length t) 0.

(** An entry with the metadata that the loader skips: mode, owner and group numbers; time
    and checksum; link name, magic and names of owner and group; the end of the block. *)
Record tar_file := {
  f_name : list Z; f_prefix : list Z; f_type : Z; f_data : list Z;
  f_ids : list Z; f_time : list Z; f_link : list Z; f_end : list Z
}.

Definition header_block (f : tar_file) : list Z :=
  field 100 (f_name f) ++ f_ids f ++ (digits 11 (zlen (f_data f)) ++ [0]) ++ f_time f ++ [f_type f] ++ f_link f ++
  field 155 (f_prefix f) ++ f_end f.

Definition file_blocks (f : tar_file) : list Z :=
  header_block f ++ f_data f ++ replicate (Z.to_nat (padded (zlen (f_data f)) - zlen (f_data f))) 0.

(** The archive: the entries, a block of zeros, and whatever follows. *)
Definition tar_image (fs : list tar_file) (rest : list Z) : list Z := concat (file_blocks <$> fs) ++ replicate 512 0 ++ rest.

Definition tar_path_text (f : tar_file) : list Z :=
  slash :: (if decide (f_prefix f = []) then [] else f_prefix f ++ [slash]) ++ f_name f.

Definition file_wf (f : tar_file) : Prop :=
  f_name f ≠ [] ∧ Forall (λ c, 0 < c < 256) (f_name f) ∧ Forall (λ c, 0 < c < 256) (f_prefix f) ∧
  (length (f_name f) ≤ 100)%nat ∧ (length (f_prefix f) ≤ 155)%nat ∧ zlen (tar_path_text f) < VFS_PATH_MAX ∧ zlen (f_data f) < 8 ^ 11 ∧
  length (f_ids f) = 24%nat ∧ length (f_time f) = 20%nat ∧ length (f_link f) = 188%nat ∧ length (f_end f) = 12%nat.

Definition entry_of (f : tar_file) : tar_entry := {| e_path := chop (tar_path_text f); e_type := f_type f; e_data := f_data f |}.

Lemma until_nul_field len t : Forall (λ c, 0 < c < 256) t → until_nul (field len t) = t.
Proof.
  intros Ht. unfold field. generalize (len - length t)%nat as k. intros k. induction Ht as [|c t Hc _ IH]; simpl; [by destruct k|].
  by rewrite (proj2 (Z.eqb_neq c 0)), IH by lia.
Qed.

Lemma length_field len t : (length t ≤ len)%nat → length (field len t) = len.
Proof. intros. unfold field. rewrite length_app, length_replicate. lia. Qed.

Lemma length_header f : file_wf f → length (header_block f) = 512%nat.
Proof.
  intros (_ & _ & _ & Hn & Hp & _ & _ & E1 & E2 & E3 & E4). unfold header_block. rewrite !length_app, !length_field, length_digits, E1, E2, E3, E4 by done. done.
Qed.

(** The header of a file, found in the middle of an image. *)
Lemma header_at_image f (a c : list Z) : file_wf f → header_at (a ++ header_block f ++ c) (zlen a) =
  Ok {| h_name := field 100 (f_name f); h_size := digits 11 (zlen (f_data f)) ++ [0]; h_type := f_type f; h_prefix := field 155 (f_prefix f) |}.
Proof.
  intros Hf. pose proof (length_header f Hf) as Hlen. destruct Hf as (_ & _ & _ & Hn & Hp & _ & _ & E1 & E2 & E3 & E4).
  unfold header_at, TAR_BLOCK_SIZE. assert ((0 <=? zlen a) && (zlen a + 512 <=? zlen (a ++ header_block f ++ c)) = true) as ->.
  { unfold zlen. rewrite !length_app, Hlen. apply andb_true_intro. split; apply Z.leb_le; lia. }
  clear Hlen. unfold header_block. pose proof (length_field 100 _ Hn) as F1. pose proof (length_field 155 _ Hp) as F2.
  assert (length (digits 11 (zlen (f_data f)) ++ [0]) = 12%nat) as F3 by (by rewrite length_app, length_digits).
  set (F := field 100 (f_name f)) in *. set (G := field 155 (f_prefix f)) in *. set (Dg := digits 11 _ ++ [0]) in *.
  rewrite <-!app_assoc. rewrite (zget_ok _ _ (f_type f)); [|unfold zlen; lia|].
  2:{ rewrite !lookup_app_r by (unfold zlen; lia). unfold zlen. replace (_ - _)%nat with 0%nat by lia. done. }
  rewrite bind_ok. f_equal. f_equal.
  - rewrite slice_skip by lia. apply slice_here; unfold zlen; lia.
  - rewrite !slice_skip by (unfold zlen; lia). apply slice_here; unfold zlen; lia.
  - rewrite !slice_skip by (unfold zlen; simpl; lia). apply slice_here; unfold zlen; simpl; lia.
Qed.

Lemma read_entry_image f (a c : list Z) size : file_wf f → zlen a + 512 + padded (zlen (f_data f)) ≤ size →
  read_entry (a ++ file_blocks f ++ c) size (zlen a) = Some (entry_of f, zlen a + zlen (file_blocks f)).
Proof.
  intros Hf Hsz. pose proof (length_header f Hf) as Hlen. unfold read_entry, file_blocks. rewrite <-!(app_assoc (header_block f)).
  rewrite header_at_image by done. cbn [mbind option_bind h_size h_name h_prefix h_type].
  pose proof Hf as (Hne & Hn & Hp & _ & _ & Hfit & Hd & _). assert (0 ≤ zlen (f_data f)) as H0 by (unfold zlen; lia).
  rewrite octal_app, octal_digits by (lia || (simpl; lia)). cbn [mbind option_bind octal Z.eqb orb].
  assert (tar_text {| h_name := field 100 (f_name f); h_size := digits 11 (zlen (f_data f)) ++ [0]; h_type := f_type f;
    h_prefix := field 155 (f_prefix f) |} = Some (tar_path_text f)) as ->.
  { unfold tar_text. cbn [h_name h_prefix]. rewrite !until_nul_field, decide_False by done. fold (tar_path_text f). by rewrite (proj2 (Z.ltb_lt _ _)). }
  cbn [mbind option_bind]. destruct (Z.leb_spec (padded (zlen (f_data f))) (size - (zlen a + 512))); [|lia].
  pose proof (padded_bounds (zlen (f_data f)) H0). do 2 f_equal.
  - unfold entry_of. f_equal. rewrite slice_skip by lia. rewrite slice_skip by (unfold zlen; lia). rewrite <-app_assoc.
    apply slice_here; unfold zlen; lia.
  - unfold zlen in *. rewrite !length_app, length_replicate, Hlen. lia.
Qed.

Lemma zero_block_image f (a c : list Z) : file_wf f → zero_block (a ++ file_blocks f ++ c) (zlen a) = false.
Proof.
  intros (Hne & Hn & _). destruct (f_name f) as [|x l] eqn:E; [done|]. apply Forall_cons in Hn as [Hx _].
  unfold zero_block, TAR_BLOCK_SIZE. rewrite slice_skip, Z.sub_diag by lia. unfold file_blocks, header_block, field. rewrite E.
  unfold slice. rewrite drop_0. cbn [app]. change (Z.to_nat 512) with (S 511). cbn [take forallb]. by rewrite (proj2 (Z.eqb_neq x 0)) by lia.
Qed.

Lemma zero_block_end (a c : list Z) : zero_block (a ++ replicate 512 0 ++ c) (zlen a) = true.
Proof.
  unfold zero_block, TAR_BLOCK_SIZE. rewrite slice_skip, Z.sub_diag by lia. rewrite (slice_here (replicate 512 0)); done.
Qed.

Lemma length_blocks f : file_wf f → zlen (file_blocks f) = 512 + padded (zlen (f_data f)).
Proof.
  intros Hf. pose proof (length_header f Hf) as Hlen. pose proof (padded_bounds (zlen (f_data f)) ltac:(unfold zlen; lia)).
  unfold file_blocks. unfold zlen in *. rewrite !length_app, length_replicate, Hlen. lia.
Qed.

(** Reading an image gives the entries it was made of. *)
Lemma entries_image fs rest : Forall file_wf fs → ∀ (a : list Z) fuel size,
  zlen a + zlen (tar_image fs []) ≤ size → (length fs < fuel)%nat →
  entries fuel (a ++ tar_image fs rest) size (zlen a) = (entry_of <$> fs, true).
Proof.
  induction 1 as [|f fs Hf _ IH]; intros a fuel size Hsz Hfuel; (destruct fuel as [|fuel]; [simpl in Hfuel; lia|]); cbn [entries].
  - unfold tar_image in *. cbn [fmap list_fmap concat app] in *. rewrite app_nil_r in Hsz. unfold zlen at 2 in Hsz. rewrite length_replicate in Hsz.
    destruct (Z.ltb_spec size (zlen a + 512)); [lia|]. by rewrite zero_block_end.
  - assert (∀ r, tar_image (f :: fs) r = file_blocks f ++ tar_image fs r) as Ei by (intros; unfold tar_image; cbn; by rewrite <-app_assoc).
    rewrite Ei in Hsz |- *. pose proof (length_blocks f Hf) as Hl.
    assert (zlen (file_blocks f ++ tar_image fs []) = zlen (file_blocks f) + zlen (tar_image fs [])) as Hz by (unfold zlen; rewrite length_app; lia).
    assert (0 ≤ zlen (tar_image fs [])) by (unfold zlen; lia). assert (0 ≤ padded (zlen (f_data f))) by (apply (Z.le_trans _ (zlen (f_data f))); [unfold zlen; lia|]; apply padded_bounds; unfold zlen; lia).
    destruct (Z.ltb_spec size (zlen a + 512)); [lia|]. rewrite zero_block_image, (read_entry_image f) by (done || lia).
    replace (zlen a + zlen (file_blocks f)) with (zlen (a ++ file_blocks f)) by (unfold zlen; rewrite length_app; lia).
    rewrite (app_assoc a), IH; [done| |simpl in Hfuel; lia]. unfold zlen in *. rewrite !length_app in *. lia.
Qed.

(** ** Requests that the heap refuses *)

(** [R] holds of the heap once a request was refused. *)
Record refusals {H : Type} `{RA : Reallocator H} (R : H → Prop) : Prop := {
  refused_malloc : ∀ h n p h', al_malloc h n = Ok (p, h') → p = 0 ∨ R h → R h';
  refused_calloc : ∀ h c n p h', al_calloc h c n = Ok (p, h') → p = 0 ∨ R h → R h';
  refused_realloc : ∀ h q n p h', al_realloc h q n = Ok (p, h') → p = 0 ∨ R h → R h' }.

(** A heap with a flag beside it that is set when a request is refused. *)
Section Tracked.
Context {H : Type} `{RA : Reallocator H}.

Definition noted (flag : bool) (m : outcome (Z * H)) : outcome (Z * (H * bool)) :=
  '(p, h) ← m; Ok (p, (h, flag || (p =? 0))).

Lemma noted_wp flag m Q : m ⇓ (λ '(p, h), Q (p, (h, flag || (p =? 0)))) → noted flag m ⇓ Q.
Proof. intros Hm. unfold noted. apply wp_bind. eapply wp_mono; [exact Hm|]. intros [p h] HQ. by apply wp_ok. Qed.

#[export] Program Instance tracked_allocator : Allocator (H * bool) := {|
  al_repr h l := al_repr h.1 l;
  al_malloc h n := noted h.2 (al_malloc h.1 n);
  al_calloc h c n := noted h.2 (al_calloc h.1 c n);
  al_free h p := h' ← al_free h.1 p; Ok (h', h.2) |}.
Next Obligation. intros [h f] l l'. exact (Heap.al_repr_perm h l l'). Qed.
Next Obligation. intros [h f] l p sz. exact (Heap.al_repr_range h l p sz). Qed.
Next Obligation. intros [h f] p sz q tz l. exact (Heap.al_repr_disjoint h p sz q tz l). Qed.
Next Obligation. intros [h f] l n Ha Hn. apply noted_wp. eapply wp_mono; [by apply Heap.al_malloc_spec|]. by intros [p h']. Qed.
Next Obligation. intros [h f] l c n Ha Hc Hn Hm. apply noted_wp. eapply wp_mono; [by apply Heap.al_calloc_spec|]. by intros [p h']. Qed.
Next Obligation. intros [h f] l p sz Ha. apply wp_bind. eapply wp_mono; [exact (Heap.al_free_spec h l p sz Ha)|]. intros h' Ha'. by apply wp_ok. Qed.
Next Obligation. intros [h f]. simpl. by rewrite Heap.al_free_null. Qed.

#[export] Program Instance tracked_reallocator : Reallocator (H * bool) := {|
  al_realloc h p n := noted h.2 (al_realloc h.1 p n) |}.
Next Obligation. intros [h f] n. simpl. by rewrite Heap.al_realloc_null. Qed.
Next Obligation. intros [h f] l p sz n Ha Hn. apply noted_wp. eapply wp_mono; [exact (Heap.al_realloc_spec h l p sz n Ha Hn)|]. by intros [q h']. Qed.

Lemma noted_flag flag m p h : noted flag m = Ok (p, h) → p = 0 ∨ flag = true → h.2 = true.
Proof.
  unfold noted. intros ([q h'] & _ & E)%bind_inv. injection E as <- <-. simpl. intros [-> | ->]; [by rewrite orb_true_r|done].
Qed.

Lemma tracked_refusals : refusals (λ h : H * bool, h.2 = true).
Proof.
  constructor.
  - intros h n p h' E. exact (noted_flag _ _ _ _ E).
  - intros h c n p h' E. exact (noted_flag _ _ _ _ E).
  - intros h q n p h' E. exact (noted_flag _ _ _ _ E).
Qed.

End Tracked.

(** ** The file system as a map from paths *)

Section Load.
Context {H : Type} `{RA : Reallocator H}.
Context (garbage : Z → Z → Z).
Abbreviation fs := (@Vfs.fs H).

Inductive object := Dir | File (bytes : list Z) | Other.

Definition object_at (s : fs) (p : Z) : option object :=
  n ← nodes s !! p;
  Some (match type n with VFS_NODE_DIR => Dir | VFS_NODE_FILE => File (contents s p) | _ => Other end).

(** What a path leads to. *)
Definition resolved (s : fs) (t : list Z) : option object :=
  match vfs_lookup garbage s (Some (cstr t)) with Ok p => object_at s p | _ => None end.

(** The map [A] from the components of paths describes the file system. *)
Definition shows (s : fs) (A : list (list Z) → option object) : Prop :=
  ∀ t cs, path_ok t → components t = Some cs → resolved s t = A (cut <$> cs).

Definition add (A : list (list Z) → option object) (cs : list (list Z)) (x : object) : list (list Z) → option object :=
  λ cs', if decide (cs' = cs) then Some x else A cs'.

Lemma resolved_view K s t cs : fs_ok K s → path_ok t → components t = Some cs → resolved s t = object_at s (view K s (cut <$> cs)).
Proof.
  intros (Hok & _) Ht Hc. unfold resolved. by rewrite (vfs_lookup_ok garbage K s _ t), Hc by (done || by apply is_cstr_cstr).
Qed.

Lemma object_at_other (s s' : fs) p : (∀ n, nodes s !! p = Some n → ∃ n', nodes s' !! p = Some n' ∧ type n' = type n) →
  is_Some (nodes s !! p) → contents s' p = contents s p → object_at s' p = object_at s p.
Proof. intros Hn [n Hp] Hc. destruct (Hn n Hp) as (n' & Hp' & Ht). unfold object_at. rewrite Hp, Hp'. cbn. by rewrite Ht, Hc. Qed.

Definition fresh (ty : vfs_node_type_t) : object :=
  match ty with VFS_NODE_DIR => Dir | VFS_NODE_FILE => File [] | _ => Other end.

Lemma create_shows K s A path t cs c ty : fs_ok K s → shows s A → is_cstr path t → components t = Some (cs ++ [c]) → zlen c < VFS_NAME_MAX →
  vfs_create garbage s (Some path) ty ⇓ λ '(r, out, s'), (∃ K', fs_ok K' s') ∧
    ((r = -1 ∧ out = None ∧ shows s' A) ∨
     (r = 0 ∧ ∃ n m, out = Some n ∧ n ≠ 0 ∧ nodes s' !! n = Some m ∧ type m = ty ∧ contents s' n = [] ∧
        vfs_lookup garbage s' (Some path) = Ok n ∧ shows s' (add A (cut <$> (cs ++ [c])) (fresh ty)))).
Proof.
  intros HK HA Hp Hc Hlen. pose proof HK as (Hok & (L & Hst) & _).
  eapply wp_mono; [apply wp_det; [apply (create_step garbage K s path t ty); [done|done|intros cs' c' Hc'] |
    apply (vfs_create_ok garbage L K s path t cs c ty); try done; by eapply storage_mem]|].
  { rewrite Hc in Hc'. injection Hc' as Hc'. by apply app_inj_tail in Hc' as [_ <-]. }
  intros [[r out] s'] [((K1 & HK1) & Hg & _) (L' & Hmem' & _ & Hr)]. split; [by exists K1|].
  destruct Hr as [(-> & -> & Hok' & Hsame)|(-> & n & K' & -> & Hn & Hok' & Hno & (p & np & n0 & Hadd) & Hview)]; [left|right]; (split; [done|]).
  { split; [done|]. intros t' cs' Ht' Hc'. rewrite <-(HA t' cs' Ht' Hc'), (resolved_view K s t' cs') by done. unfold resolved.
    rewrite (vfs_lookup_ok garbage K s' _ t'), Hc', (same_tree_view K s s') by (done || by apply is_cstr_cstr).
    destruct Hsame as (En & Ef & Eb & _). unfold object_at, contents. by rewrite En, Ef, Eb. }
  destruct Hadd as (_ & Hfr & Hpn & _ & _ & Hty & Hsz & Hpv & _ & _ & _ & _ & Hns & Hfi & Hbl & _).
  assert (∀ q, is_Some (nodes s !! q) → q ≠ n) as Hold.
  { intros q Hq ->. destruct Hst as (_ & _ & _ & HL & _). by apply Hfr, HL. }
  assert (p ≠ n) as Hpn' by (apply Hold; by exists np).
  assert (nodes s' !! n = Some n0) as Hn0 by (by rewrite Hns, lookup_insert_ne, lookup_insert_eq).
  assert (contents s' n = []) as Hc0.
  { unfold contents. rewrite Hn0, Hsz, Hpv. simpl. by destruct (files s' !! 0). }
  assert (∀ q, is_Some (nodes s !! q) → contents s' q = contents s q) as Hcon.
  { intros q Hq. unfold contents. rewrite Hns, Hfi, Hbl. destruct (decide (q = p)) as [->|Hqp].
    - rewrite lookup_insert_eq, Hpn. done.
    - rewrite !lookup_insert_ne; [done|apply not_eq_sym; by apply Hold|done]. }
  exists n, n0. split_and!; try done.
  { by rewrite (vfs_lookup_ok garbage K' s' path t), Hc, Hview, decide_True. }
  intros t' cs' Ht' Hc'. unfold resolved. rewrite (vfs_lookup_ok garbage K' s' _ t'), Hc', Hview by (done || by apply is_cstr_cstr).
  unfold add. destruct (decide (cut <$> cs' = cut <$> (cs ++ [c]))) as [E|E].
  - unfold object_at. rewrite Hn0. cbn. rewrite Hty, Hc0. by destruct ty.
  - rewrite <-(HA t' cs' Ht' Hc'), (resolved_view K s t' cs') by done. set (q := view K s _).
    destruct (nodes s !! q) as [m|] eqn:Hq.
    + apply object_at_other; [|by exists m|by apply Hcon; exists m]. intros m' Hm'. destruct (Hg q m' Hm') as (x & ? & ? & _). by exists x.
    + unfold object_at at 2. rewrite Hq. cbn. destruct (decide (q = 0)) as [E0|E0].
      * unfold object_at. rewrite E0. destruct Hok' as (_ & Hk & _). destruct (nodes s' !! 0) as [x|] eqn:Hx; [|done]. by destruct (Hk 0 x Hx).
      * destruct (view_node K s _ Hok E0) as [x Hx]. fold q in Hx. congruence.
Qed.

Lemma write_shows K s A t cs p n bytes count : fs_ok K s → shows s A → path_ok t → components t = Some cs →
  vfs_lookup garbage s (Some (cstr t)) = Ok p → nodes s !! p = Some n → 0 ≤ count ≤ zlen bytes → count ≤ 2 ^ 31 - 8 →
  vfs_write garbage s p 0 (Some bytes) count ⇓ λ '(r, s'), fs_ok K s' ∧
    (r = -1 ∨ (r = count ∧ ∃ old, A (cut <$> cs) = Some (File old) ∧
       shows s' (add A (cut <$> cs) (File (overwrite old 0 (take (Z.to_nat count) bytes)))))).
Proof.
  intros HK HA Ht Hc Hlk Hn Hcnt Hmax. pose proof HK as (Hok & (L & Hst) & Hops). pose proof (Hops p n Hn) as Hno.
  pose proof (storage_node_pos L s p n Hst Hn) as Hp0.
  eapply wp_mono; [apply wp_det; [apply (write_step garbage K s p n 0 bytes count); (done || lia)|]|].
  { instantiate (1 := λ '(r, s'), regular s p n → ∀ q m, regular s q m → q ≠ p → contents s' q = contents s q).
    destruct (regular_or_not s p n Hn Hno) as [Hreg|Hdir].
    - unfold vfs_write. rewrite (proj2 (Z.eqb_neq p 0)), (get_node_ok s p n Hn), bind_ok, Hno by done.
      eapply wp_mono; [apply (tmpfs_write_ok garbage L s p n 0 bytes count); (done || lia)|].
      intros [r s'] (_ & _ & Hoth & _) _ q m Hq Hne. by apply (Hoth q m).
    - eapply wp_mono; [apply (write_step garbage K s p n 0 bytes count); (done || lia)|]. intros [r s'] _ (_ & Hx & _). done. }
  intros [r s'] [(HK' & Hg & _ & Hl & Hr) Hoth]. split; [done|]. destruct Hr as [->|(-> & Hreg & Hcon)]; [by left|right]. split; [done|].
  specialize (Hoth Hreg). pose proof Hreg as (_ & Hty & _). exists (contents s p).
  assert (view K s (cut <$> cs) = p) as Hv.
  { rewrite (vfs_lookup_ok garbage K s _ t), Hc in Hlk by (done || by apply is_cstr_cstr). by injection Hlk. }
  split. { rewrite <-(HA t cs Ht Hc), (resolved_view K s t cs), Hv by done. unfold object_at. rewrite Hn. cbn. by rewrite Hty. }
  assert (0 ≤ size n) as Hsz by (destruct Hst as (_ & _ & _ & _ & _ & _ & Hs & _); by destruct (Hs p n Hreg)).
  intros t' cs' Ht' Hc'. rewrite (resolved_view K s' t' cs'), (same_links_view K s s') by done. unfold add.
  destruct (decide (cut <$> cs' = cut <$> cs)) as [E|E].
  - rewrite E, Hv. destruct (Hg p n Hn) as (n' & Hn' & Hty' & _). unfold object_at. rewrite Hn'. cbn. by rewrite Hty', Hty, Hcon.
  - rewrite <-(HA t' cs' Ht' Hc'), (resolved_view K s t' cs') by done. set (q := view K s (cut <$> cs')).
    destruct (nodes s !! q) as [m|] eqn:Hq.
    + destruct (Hg q m Hq) as (m' & Hm' & Htm & _). unfold object_at. rewrite Hq, Hm'. cbn. rewrite Htm.
      destruct (type m) eqn:Etm; try done. do 2 f_equal. apply (Hoth q m); [split_and!; [done|done|by eapply Hops]|].
      intros Eq. apply E. apply (view_inj K s _ _ Hok); fold q; [by rewrite Hv|by rewrite Eq].
    + unfold object_at. rewrite Hq. destruct (nodes s' !! q) as [x|] eqn:Hx; [|done].
      destruct (same_links_lookup s s' q x Hl Hx) as (y & Hy & _). congruence.
Qed.

(** ** Why a request of the file system fails *)

Context (R : H → Prop) (HR : refusals R).

Lemma attach_heap (s : fs) pa c s' : vfs_attach_child s pa c = Ok s' → heap s' = heap s ∧ root_node s' = root_node s.
Proof.
  unfold vfs_attach_child. destruct (_ || _); [by intros [= <-]|]. intros (p & _ & (n & _ & (q & _ & E)%bind_inv)%bind_inv)%bind_inv.
  by injection E as <-.
Qed.

Lemma create_node_why K (s : fs) p np nb nm ty r out s' : fs_ok K s → nodes s !! p = Some np → p ≠ 0 → is_cstr nb nm →
  tmpfs_create_node s p (Some nb) ty = Ok (r, out, s') →
  root_node s' = root_node s ∧ (R (heap s) → R (heap s')) ∧ (r = 0 → type np = VFS_NODE_DIR ∧ child_named K s p nm = 0) ∧
  (r ≠ 0 → R (heap s') ∨ type np ≠ VFS_NODE_DIR ∨ child_named K s p nm ≠ 0).
Proof.
  intros (Hok & _) Hp H0 Hnb E. unfold tmpfs_create_node in E. rewrite (proj2 (Z.eqb_neq p 0)), (get_node_ok s p np Hp), bind_ok in E by done.
  case_decide as Hd; [injection E as <- <- <-; split_and!; (done || tauto)|]. rewrite (tmpfs_lookup_ok K s p np nb nm), bind_ok in E by done.
  destruct (Z.eqb_spec (child_named K s p nm) 0) as [Hno|Hyes]; cbn [negb] in E; [|injection E as <- <- <-; split_and!; (done || tauto)].
  apply bind_inv in E as ([c h] & Ec & E). cbv zeta in E. pose proof (refused_calloc R HR _ _ _ _ _ Ec) as Hc.
  destruct (Z.eqb_spec c 0) as [->|]; [injection E as <- <- <-; cbn [heap set_heap]; split_and!; (done || tauto)|].
  apply bind_inv in E as (f & _ & (s1 & Ea & E)%bind_inv). injection E as <- <- <-. destruct (attach_heap _ _ _ _ Ea) as [-> ->].
  cbn [heap root_node put_node set_nodes set_heap]. split; [done|]. split; [by auto|]. split; [|done]. intros _. split; [|done].
  by destruct (decide (type np = VFS_NODE_DIR)).
Qed.

Lemma create_why K (s : fs) path t cs c ty r out s' : fs_ok K s → is_cstr path t → components t = Some (cs ++ [c]) → zlen c < VFS_NAME_MAX →
  vfs_create garbage s (Some path) ty = Ok (r, out, s') →
  root_node s' = root_node s ∧ (R (heap s) → R (heap s')) ∧
  (r = 0 → object_at s (view K s (cut <$> cs)) = Some Dir ∧ view K s (cut <$> (cs ++ [c])) = 0) ∧
  (r ≠ 0 → R (heap s') ∨ object_at s (view K s (cut <$> cs)) ≠ Some Dir ∨ view K s (cut <$> (cs ++ [c])) ≠ 0).
Proof.
  intros HK Hp Hc Hl E. pose proof HK as (Hok & _ & Hops). destruct (vfs_create_at garbage K s path t cs c ty Hok Hp Hc) as (nb & Hnb & E1).
  rewrite E1 in E. clear E1. rewrite fmap_app. change (cut <$> [c]) with [cut c]. rewrite view_snoc, (cut_short c) by done.
  set (p := view K s (cut <$> cs)) in *. destruct (Z.eqb_spec p 0) as [E0|E0].
  { injection E as <- <- <-. split; [done|]. split; [done|]. split; [done|]. intros _. right. left. rewrite E0. unfold object_at.
    destruct Hok as (_ & Hk & _). destruct (nodes s !! 0) as [x|] eqn:Hx; [|done]. by destruct (Hk 0 x Hx). }
  destruct (view_node K s _ Hok E0) as [np Hnp]. fold p in Hnp. rewrite (get_node_ok s p np Hnp), bind_ok, (Hops p np Hnp) in E.
  destruct (create_node_why K s p np nb c ty r out s' HK Hnp E0 Hnb E) as (Hr0 & H1 & H2 & H3). split; [done|]. split; [done|].
  unfold object_at. rewrite Hnp. cbn [mbind option_bind]. split.
  - intros Hr. destruct (H2 Hr) as [-> ->]. done.
  - intros Hr. destruct (H3 Hr) as [?|[Ht|?]]; [by auto| |by auto]. right. left. by destruct (type np).
Qed.

Lemma file_why (s : fs) p n a s' : nodes s !! p = Some n → tmpfs_file s p = Ok (a, s') →
  (R (heap s) → R (heap s')) ∧ (a = 0 → R (heap s')).
Proof.
  intros Hn E. unfold tmpfs_file in E. rewrite (get_node_ok s p n Hn), bind_ok in E.
  destruct (Z.eqb_spec (private_data n) 0) as [Ep|Ep]; cbn [negb] in E; [|injection E as <- <-; by split].
  apply bind_inv in E as ([f h] & Ef & E). cbv zeta in E. pose proof (refused_calloc R HR _ _ _ _ _ Ef) as Hc.
  destruct (Z.eqb_spec f 0) as [->|Hf]; injection E as <- <-; cbn [heap set_heap set_files put_node set_nodes]; by auto.
Qed.

Lemma grow_why (s : fs) a cap q s' : tmpfs_grow garbage s a cap = Ok (q, s') → (R (heap s) → R (heap s')) ∧ (q = 0 → R (heap s')).
Proof.
  unfold tmpfs_grow. intros (f & _ & ([q0 h] & Eq & E)%bind_inv)%bind_inv. cbv zeta in E.
  pose proof (refused_realloc R HR _ _ _ _ _ Eq) as Hc.
  destruct (Z.eqb_spec q0 0) as [->|Hq]; [injection E as <- <-; cbn [heap set_heap]; by auto|].
  apply bind_inv in E as (b & _ & E). injection E as <- <-. cbn [heap set_heap set_files set_blocks]. by auto.
Qed.

Lemma write_why (s : fs) p n bytes count r s' : nodes s !! p = Some n → ops n = tmpfs_ops → p ≠ 0 →
  vfs_write garbage s p 0 (Some bytes) count = Ok (r, s') →
  (R (heap s) → R (heap s')) ∧ (type n = VFS_NODE_FILE → r ≠ i32 count → R (heap s')).
Proof.
  intros Hn Ho H0 E. unfold vfs_write in E. rewrite (proj2 (Z.eqb_neq p 0)), (get_node_ok s p n Hn), bind_ok, Ho in E by done.
  unfold tmpfs_write in E. rewrite (proj2 (Z.eqb_neq p 0)), (get_node_ok s p n Hn), bind_ok in E by done.
  case_decide as Ht; [injection E as <- <-; by split|].
  apply bind_inv in E as ([a s1] & Ef & E). destruct (file_why s p n a s1 Hn Ef) as [F1 F2].
  destruct (Z.eqb_spec a 0) as [->|Ha]; [injection E as <- <-; by auto|]. cbv zeta in E. apply bind_inv in E as (f & _ & E).
  apply bind_inv in E as ([ok s2] & Eg & E). assert ((R (heap s1) → R (heap s2)) ∧ (ok = false → R (heap s2))) as [G1 G2].
  { destruct (_ <? _); [|by injection Eg as <- <-]. apply bind_inv in Eg as (cap & _ & ([q s0] & Eg & E2)%bind_inv).
    injection E2 as <- <-. destruct (grow_why s1 a cap q s0 Eg) as [K1 K2]. split; [done|]. intros Hq. apply K2.
    by destruct (Z.eqb_spec q 0). }
  destruct ok; cbn [negb] in E; [|injection E as <- <-; by auto]. apply bind_inv in E as (f2 & _ & (s3 & Eb & E)%bind_inv).
  assert (heap s3 = heap s2) as Hh.
  { destruct (blocks s2 !! data f2); [|destruct (count =? 0); [by injection Eb as <-|done]].
    apply bind_inv in Eb as (b & _ & Eb). by injection Eb as <-. }
  apply bind_inv in E as (n3 & _ & E). injection E as <- <-. split; [|done]. intros HRs.
  assert (R (heap s3)) by (rewrite Hh; auto). by destruct (size n3 <? _).
Qed.

(** ** Loading one entry *)

#[global] Instance object_eq_dec : EqDecision object.
Proof. solve_decision. Defined.

(** Where a new node goes: nothing is there, and the path before its last component is a directory. *)
Definition place (A : list (list Z) → option object) (t : list Z) : option (list (list Z)) :=
  cs ← components t;
  match A (cut <$> cs) with
  | Some _ => None
  | None => if decide (A (removelast (cut <$> cs)) = Some Dir) then Some (cut <$> cs) else None
  end.

(** A directory at a path, unless something is there. *)
Definition mkdir_map (A : list (list Z) → option object) (t : list Z) : option (list (list Z) → option object) :=
  cs ← components t;
  match A (cut <$> cs) with
  | Some _ => Some A
  | None => cs ← place A t; Some (add A cs Dir)
  end.

(** A directory for each path that ends before a slash of [t]. *)
Definition ensure_map (A : list (list Z) → option object) (t : list Z) : option (list (list Z) → option object) :=
  foldl (λ A i, A ← A; if decide (t !! i = Some slash) then mkdir_map A (take i t) else Some A) (Some A) (seq 1 (length t - 1)).

(** The bytes at the start of a file, which is made if nothing is there. *)
Definition write_map (A : list (list Z) → option object) (t bytes : list Z) : option (list (list Z) → option object) :=
  cs ← components t;
  match A (cut <$> cs) with
  | Some (File old) => Some (add A (cut <$> cs) (File (overwrite old 0 bytes)))
  | Some _ => None
  | None => cs ← place A t; Some (add A cs (File (overwrite [] 0 bytes)))
  end.

Definition load_entry (A : list (list Z) → option object) (e : tar_entry) : option (list (list Z) → option object) :=
  A ← ensure_map A (e_path e);
  if e_type e =? 53 then mkdir_map A (e_path e)
  else if (e_type e =? 0) || (e_type e =? 48) then write_map A (e_path e) (e_data e)
  else Some A.

(** The entries one after the other; [None] at the first one that conflicts with what is there. *)
Definition unpack (A : list (list Z) → option object) (es : list tar_entry) : option (list (list Z) → option object) :=
  foldl (λ A e, A ← A; load_entry A e) (Some A) es.

(** A lookup agrees with the map. *)
Lemma lookup_shows K s A path t : fs_ok K s → shows s A → is_cstr path t → ∃ n,
  vfs_lookup garbage s (Some path) = Ok n ∧ vfs_lookup garbage s (Some (cstr t)) = Ok n ∧
  (n ≠ 0 → is_Some (nodes s !! n) ∧ is_Some (components t)) ∧ ∀ cs, components t = Some cs → A (cut <$> cs) = object_at s n.
Proof.
  intros HK HA Hp. pose proof HK as (Hok & _). pose proof Hp as [Ht _]. eexists. rewrite (vfs_lookup_ok garbage K s _ t) by done.
  split; [done|]. rewrite (vfs_lookup_ok garbage K s _ t) by (done || by apply is_cstr_cstr). split; [done|]. split.
  - destruct (components t) as [cs|]; [|done]. intros Hv. split; [by apply (view_node K s _ Hok)|done].
  - intros cs Hc. rewrite Hc, <-(HA t cs Ht Hc). by apply resolved_view.
Qed.

Lemma object_none K s : fs_ok K s → object_at s 0 = None.
Proof. intros ((_ & Hk & _) & _). unfold object_at. destruct (nodes s !! 0) as [n|] eqn:E; [|done]. by destruct (Hk 0 n E). Qed.

Lemma object_some s p : is_Some (nodes s !! p) → ∃ x, object_at s p = Some x.
Proof. intros [n Hn]. unfold object_at. rewrite Hn. by eexists. Qed.

Lemma components_fit t cs : path_ok t → components t = Some cs → Forall proper cs ∧ zlen (path_text cs) < VFS_PATH_MAX.
Proof.
  intros Ht Hc. destruct (path_normalize_ok (cstr t) t (local garbage VFS_PATH_MAX) VFS_PATH_MAX) as ([res o] & _ & o' & _ & _ & Hres);
    [by apply is_cstr_cstr|unfold VFS_PATH_MAX; lia|rewrite length_local; unfold VFS_PATH_MAX; lia|].
  unfold components in Hc. rewrite Hc in Hres. tauto.
Qed.

Lemma shows_parent K s A t cs c : fs_ok K s → shows s A → path_ok t → components t = Some (cs ++ [c]) →
  A (cut <$> cs) = object_at s (view K s (cut <$> cs)).
Proof.
  intros HK HA Ht Hc. destruct (components_fit t _ Ht Hc) as [Hp Hfit]. apply Forall_app in Hp as [Hp1 Hp2].
  pose proof (path_text_app_le cs [c] Hp1 Hp2). assert (path_ok (path_text cs)) by (by apply path_text_bytes).
  assert (components (path_text cs) = Some cs) by (apply path_text_single; [done|lia]).
  rewrite <-(HA (path_text cs) cs), (resolved_view K s _ cs) by done. done.
Qed.

Lemma place_inv A t cs : place A t = Some cs → ∃ cs', components t = Some cs' ∧ cs = cut <$> cs' ∧ A cs = None.
Proof.
  unfold place. destruct (components t) as [cs'|]; [|done]. cbn [mbind option_bind]. destruct (A (cut <$> cs')) eqn:E; [done|].
  case_decide; [|done]. intros [= <-]. by exists cs'.
Qed.

(** What a step that may fail comes to: the map [M], or an error that has a reason. *)
Definition attempted (s s' : fs) (M : option (list (list Z) → option object)) (r : Z) : Prop :=
  (∃ K', fs_ok K' s') ∧ (R (heap s) → R (heap s')) ∧
  ((r = -1 ∧ (R (heap s') ∨ M = None)) ∨ (r = 0 ∧ ∃ A', M = Some A' ∧ shows s' A')).

(** Creating a node where there is none, for a path of any form. *)
Lemma create_absent K s A path t ty : fs_ok K s → shows s A → is_cstr path t → short t →
  vfs_create garbage s (Some path) ty ⇓ λ '(r, out, s'), (∃ K', fs_ok K' s') ∧ root_node s' = root_node s ∧ (R (heap s) → R (heap s')) ∧
    ((r = -1 ∧ out = None ∧ shows s' A ∧ (R (heap s') ∨ place A t = None)) ∨
     (r = 0 ∧ ∃ n m cs, place A t = Some cs ∧ out = Some n ∧ n ≠ 0 ∧ nodes s' !! n = Some m ∧
        vfs_lookup garbage s' (Some (cstr t)) = Ok n ∧ shows s' (add A cs (fresh ty)))).
Proof.
  intros HK HA Hp Hs. pose proof HK as (Hok & _). pose proof Hp as [Ht _].
  assert ((components t = None ∨ components t = Some []) ∨ ∃ cs c, components t = Some (cs ++ [c])) as [Hno|(cs & c & Hc)].
  { destruct (components t) as [cs|]; [|by auto]. destruct cs as [|c cs _] using rev_ind; [by auto|right; by eauto]. }
  { rewrite (create_nowhere garbage K s path t) by done. apply wp_ok. split; [by exists K|]. split; [done|]. split; [done|]. left.
    split_and!; try done. right. unfold place. destruct Hno as [->| ->]; [done|]. cbn. destruct (A []) eqn:E; [done|]. by rewrite decide_False. }
  pose proof (components_short t cs c Hs Hc) as Hl.
  destruct (create_shows K s A path t cs c ty HK HA Hp Hc Hl) as ([[r out] s'] & E & (K' & HK') & Hr).
  destruct (create_why K s path t cs c ty r out s' HK Hp Hc Hl E) as (W0 & W1 & W2 & W3). exists (r, out, s'). split; [exact E|].
  assert (place A t = if decide (object_at s (view K s (cut <$> (cs ++ [c]))) = None ∧ object_at s (view K s (cut <$> cs)) = Some Dir)
    then Some (cut <$> (cs ++ [c])) else None) as Hpl.
  { unfold place. rewrite Hc. cbn [mbind option_bind]. rewrite <-(resolved_view K s t) by done. rewrite (HA t _ Ht Hc).
    rewrite <-(shows_parent K s A t cs c) by done. rewrite fmap_app. cbn [fmap list_fmap]. rewrite removelast_last.
    destruct (A _) eqn:EA; [by rewrite decide_False by (by intros [])|]. repeat case_decide; tauto || done. }
  split; [by exists K'|]. split; [done|]. split; [done|].
  destruct Hr as [(-> & -> & HA')|(-> & n & m & -> & Hn & Hm & _ & _ & Hlk & HA')]; [left|right]; (split; [done|]).
  - split; [done|]. split; [done|]. destruct W3 as [?|[Hd|Hv]]; [done|by left|right..]; rewrite Hpl, decide_False; try done.
    + tauto.
    + destruct (object_some s _ (view_node K s _ Hok Hv)) as [x ->]. by intros [].
  - destruct W2 as [Wd Wv]; [done|]. exists n, m, (cut <$> (cs ++ [c])). rewrite Hpl, Wv, (object_none K s HK), Wd, decide_True by done.
    split_and!; try done. destruct (lookup_shows K' s' _ path t HK' HA' Hp) as (n' & E' & -> & _). congruence.
Qed.

Lemma mkdir_ok K s A path t : fs_ok K s → shows s A → is_cstr path t → short t → ∃ n, vfs_lookup garbage s (Some path) = Ok n ∧
  (n ≠ 0 → mkdir_map A t = Some A) ∧
  (n = 0 → vfs_create garbage s (Some path) VFS_NODE_DIR ⇓ λ '(r, _, s'), attempted s s' (mkdir_map A t) r).
Proof.
  intros HK HA Hp Hs. destruct (lookup_shows K s A path t HK HA Hp) as (n & Hl & _ & Hn & HAn). exists n. split; [done|]. unfold mkdir_map. split.
  - intros Hn0. destruct (Hn Hn0) as [Hi [cs Hc]]. rewrite Hc. cbn [mbind option_bind]. rewrite (HAn cs Hc). by destruct (object_some s n Hi) as [x ->].
  - intros ->. eapply wp_mono; [by apply (create_absent K s A path t)|].
    intros [[r out] s'] (HK' & _ & HR' & [(-> & _ & _ & Hwhy)|(-> & n & m & cs & Hpl & _ & _ & _ & _ & HA')]); (split; [done|]); (split; [done|]).
    + left. split; [done|]. destruct Hwhy as [?|Hpl]; [by left|right]. destruct (components t) as [cs|] eqn:Hc; [|done]. cbn [mbind option_bind].
      by rewrite (HAn cs eq_refl), (object_none K s HK), Hpl.
    + right. split; [done|]. destruct (place_inv A t cs Hpl) as (cs' & Hc & -> & HAc). rewrite Hc, Hpl. cbn [mbind option_bind]. rewrite HAc.
      by eexists.
Qed.

Definition ensure_upto (A : list (list Z) → option object) (t : list Z) (k : nat) : option (list (list Z) → option object) :=
  foldl (λ A i, A ← A; if decide (t !! i = Some slash) then mkdir_map A (take i t) else Some A) (Some A) (seq 1 k).

Lemma ensure_upto_S A t k : ensure_upto A t (S k) =
  A ← ensure_upto A t k; if decide (t !! S k = Some slash) then mkdir_map A (take (S k) t) else Some A.
Proof. unfold ensure_upto. by rewrite seq_S, foldl_app. Qed.

Lemma ensure_upto_none A t k k' : (k ≤ k')%nat → ensure_upto A t k = None → ensure_upto A t k' = None.
Proof. induction 1 as [|k' Hk IH]; [done|]. intros Hn. by rewrite ensure_upto_S, IH. Qed.

Lemma ensure_step_ok K s A A1 i d t : fs_ok K s → is_cstr d t → short t → 1 ≤ i ≤ zlen t → zlen t < 2 ^ 63 →
  ensure_upto A t (Z.to_nat (i - 1)) = Some A1 → shows s A1 →
  ensure_step garbage (i, d, s) ⇓ λ x,
    match x with
    | inl (i', d', s') => i' = i + 1 ∧ i < zlen t ∧ d' = d ∧ attempted s s' (ensure_upto A t (Z.to_nat (i' - 1))) 0
    | inr (r, s') => (∃ K', fs_ok K' s') ∧ (R (heap s) → R (heap s')) ∧
        ((r = -1 ∧ (R (heap s') ∨ ensure_upto A t (Z.to_nat i) = None) ∧ i < zlen t) ∨ (r = 0 ∧ i = zlen t ∧ s' = s))
    end.
Proof.
  intros HK Hd Hs Hi Hmax HA1 HA. unfold ensure_step. destruct (is_cstr_zget d t i Hd) as [-> Hz]; [lia|]. rewrite bind_ok.
  destruct (Z.eqb_spec (default 0 (t !! Z.to_nat i)) 0) as [E|E].
  { apply wp_ok. split; [by exists K|]. split; [done|right]. split; [done|]. split; [|done]. destruct (decide (i = zlen t)); [done|]. tauto. }
  assert (i < zlen t) as Hlt by (destruct (decide (i = zlen t)); [tauto|lia]). destruct (zget_in t i) as [x Hx]; [lia|].
  assert (ensure_upto A t (Z.to_nat i) = if decide (x = slash) then mkdir_map A1 (take (Z.to_nat i) t) else Some A1) as Hup.
  { replace (Z.to_nat i) with (S (Z.to_nat (i - 1))) at 1 by lia. rewrite ensure_upto_S, HA1. cbn [mbind option_bind]. replace (S (Z.to_nat (i - 1))) with (Z.to_nat i) by lia.
    rewrite Hx. destruct (decide (x = slash)) as [->|Hne]; [by rewrite decide_True|]. rewrite decide_False; [done|congruence]. }
  rewrite Hx in *. cbn [default from_option id] in *. rewrite (u64_small (i + 1)) by lia.
  destruct (Z.eqb_spec x slash) as [->|Hne]; cbn [negb].
  2:{ apply wp_ok. replace (i + 1 - 1) with i by lia. rewrite Hup, decide_False by done. split_and!; try done. split; [by exists K|]. split; [done|right]. by eauto. }
  rewrite decide_True in Hup by done. pose proof (take_drop_middle t _ _ Hx) as Ht. set (u := take (Z.to_nat i) t) in *. set (r := drop _ t) in Ht.
  assert (zlen u = i) as Hu by (unfold u, zlen in *; rewrite length_take; lia).
  destruct Hd as [Ht256 [rest ->]]. rewrite <-Ht in Ht256. apply Forall_app in Ht256 as [Hu256 _].
  assert (t ++ 0 :: rest = u ++ slash :: r ++ 0 :: rest) as E1 by (rewrite <-Ht at 1; by rewrite <-app_assoc). rewrite E1.
  rewrite <-Hu at 1. rewrite fill_char, bind_ok by done. cbn [drop]. rewrite ?drop_0, <-(app_assoc u [0]). cbn [app].
  assert (is_cstr (u ++ 0 :: r ++ 0 :: rest) u) as Hcu by (split; [done|by eexists]).
  assert (short u) as Hsu by (rewrite <-Ht in Hs; by apply short_prefix in Hs).
  destruct (mkdir_ok K s _ _ u HK HA Hcu Hsu) as (n & -> & Hn1 & Hn0). rewrite bind_ok.
  assert ((if n =? 0 then '(r, _, s) ← vfs_create garbage s (Some (u ++ 0 :: r ++ 0 :: rest)) VFS_NODE_DIR; Ok (negb (r =? 0), s) else Ok (false, s))
    ⇓ λ '(failed, s'), attempted s s' (ensure_upto A t (Z.to_nat i)) (if failed : bool then -1 else 0)) as Hcr.
  { rewrite Hup. destruct (Z.eqb_spec n 0) as [->|Hn]; [|apply wp_ok; split; [by exists K|]; rewrite Hn1 by done; split; [done|right]; by eauto].
    eapply wp_bind, wp_mono; [by apply Hn0|]. intros [[res out] s'] (HK' & HR' & [[-> Hw]|[-> Hw]]); apply wp_ok; (split; [done|]); by auto. }
  eapply wp_bind, wp_mono; [exact Hcr|]. intros [failed s'] HA'. destruct failed.
  { apply wp_ok. destruct HA' as (HK' & HR' & [[_ Hw]|[Hz' _]]); [|done]. split; [done|]. split; [done|left]. done. }
  rewrite <-Hu at 1. rewrite fill_char, bind_ok by done. cbn [drop]. rewrite ?drop_0, <-(app_assoc u [slash]). cbn [app].
  apply wp_ok. replace (i + 1 - 1) with i by lia. by split_and!.
Qed.

Lemma ensure_directories_ok K s A path t : fs_ok K s → shows s A → is_cstr path t → short t → t ≠ [] → zlen t < VFS_PATH_MAX →
  ensure_directories garbage s path ⇓ λ '(r, s'), attempted s s' (ensure_map A t) r.
Proof.
  intros HK HA Hp Hs Hne Hpmax. assert (zlen t < 2 ^ 63) as Hmax by (unfold VFS_PATH_MAX in *; lia). unfold ensure_directories. rewrite (strlen_ok path t), bind_ok by done.
  assert (1 ≤ zlen t) by (destruct t; [done|unfold zlen; simpl; lia]).
  destruct (Z.leb_spec VFS_PATH_MAX (zlen t)) as [|Hlt]; [lia|].
  assert (zlen (local garbage VFS_PATH_MAX) = VFS_PATH_MAX) as Hll by (by apply length_local).
  rewrite u64_small by lia. pose proof Hp as [Ht (rest & ->)]. replace (zlen t + 1) with (zlen (t ++ [0])) by (unfold zlen; rewrite length_app; simpl; lia).
  change (t ++ 0 :: rest) with (t ++ [0] ++ rest). rewrite (app_assoc t).
  change (local garbage VFS_PATH_MAX) with ([] ++ local garbage VFS_PATH_MAX) at 1. change 0 with (zlen (@nil Z)) at 2.
  rewrite fill_bytes, bind_ok by (unfold zlen, VFS_PATH_MAX in *; rewrite length_app; simpl; lia). set (d := _ ++ drop _ _).
  assert (is_cstr d t) as Hd by (split; [done|]; unfold d; cbn [app]; rewrite <-app_assoc; by eexists).
  apply (wp_loop (λ '(i, d', s'), 1 ≤ i ≤ zlen t ∧ d' = d ∧ attempted s s' (ensure_upto A t (Z.to_nat (i - 1))) 0)
    (λ '(i, _, _), Z.to_nat (zlen t - i))).
  - intros [[i d'] s'] (Hi & -> & (K' & HK') & HR' & [[Hx _]|(_ & A1 & HA1 & HA')]); [done|].
    assert (ensure_map A t = ensure_upto A t (Z.to_nat (zlen t - 1))) as Hmap.
    { unfold ensure_map, ensure_upto. by replace (length t - 1)%nat with (Z.to_nat (zlen t - 1)) by (unfold zlen; lia). }
    eapply wp_mono; [by apply (ensure_step_ok K' s' A A1 i d t)|]. intros [[[i' d'] s2]|[r s2]].
    + intros (-> & Hlt' & -> & HK2 & HR2 & HA2). split; [|lia]. split; [lia|]. split; [done|]. split; [done|]. by auto.
    + intros (HK2 & HR2 & [(-> & Hw & Hlt')|(-> & -> & ->)]); (split; [done|]); (split; [by auto|]); [left|right]; (split; [done|]); rewrite Hmap.
      * destruct Hw as [?|Hnone]; [by left|right]. apply (ensure_upto_none A t (Z.to_nat i)); [lia|done].
      * by eauto.
  - split; [lia|]. split; [done|]. split; [by exists K|]. split; [done|right]. split; [done|]. exists A. done.
  - unfold VFS_PATH_MAX in *. lia.
Qed.

Lemma shows_ext s A B : (∀ cs, A cs = B cs) → shows s A → shows s B.
Proof. intros E HA t cs Ht Hc. rewrite <-E. by apply HA. Qed.

Lemma add_add A cs x y cs' : add (add A cs x) cs y cs' = add A cs y cs'.
Proof. unfold add. by destruct (decide (cs' = cs)). Qed.

(** Writing a file's bytes at its start. *)
Lemma write_entry K s A t cs p bytes off n : fs_ok K s → shows s A → path_ok t → components t = Some cs →
  vfs_lookup garbage s (Some (cstr t)) = Ok p → is_Some (nodes s !! p) → 0 ≤ off → 0 ≤ n → off + n ≤ zlen bytes → n ≤ 2 ^ 31 - 8 →
  ('(w, s) ← vfs_write garbage s p 0 (Some (drop (Z.to_nat off) bytes)) n; Ok (if negb (w =? i32 n) then -1 else 0, s)) ⇓ λ '(r, s'),
    attempted s s' (match A (cut <$> cs) with
                    | Some (File old) => Some (add A (cut <$> cs) (File (overwrite old 0 (slice bytes off n))))
                    | _ => None
                    end) r.
Proof.
  intros HK HA Ht Hc Hlk [m Hm] Ho Hn Hl Hmax. pose proof HK as (Hok & (L & Hst) & Hops). pose proof (storage_node_pos L s p m Hst Hm) as Hp0.
  destruct (write_shows K s A t cs p m (drop (Z.to_nat off) bytes) n) as ([w s'] & E & HK' & Hw); try done.
  { unfold zlen in *. rewrite length_drop. lia. }
  destruct (write_why s p m _ n w s' Hm (Hops p m Hm) Hp0 E) as [W1 W2].
  rewrite E, bind_ok. apply wp_ok. split; [by exists K|]. split; [done|]. rewrite i32_small in * by lia.
  destruct Hw as [->|(-> & old & Hold & HA')].
  - left. rewrite (proj2 (Z.eqb_neq (-1) n)) by lia. split; [done|]. destruct (decide (type m = VFS_NODE_FILE)) as [Hty|Hty].
    + left. apply W2; [done|lia].
    + right. rewrite <-(HA t cs Ht Hc), (resolved_view K s t cs) by done.
      assert (view K s (cut <$> cs) = p) as ->.
      { rewrite (vfs_lookup_ok garbage K s _ t), Hc in Hlk by (done || by apply is_cstr_cstr). by injection Hlk. }
      unfold object_at. rewrite Hm. cbn [mbind option_bind]. by destruct (type m).
  - right. rewrite Z.eqb_refl. split; [done|]. rewrite Hold. by eexists.
Qed.

Lemma make_entry_ok K s A bytes path t ty off n : fs_ok K s → shows s A → is_cstr path t → short t → 0 ≤ off → 0 ≤ n →
  off + n ≤ zlen bytes → n ≤ 2 ^ 31 - 8 →
  make_entry garbage s bytes path ty off n ⇓ λ '(r, s'),
    attempted s s' (if ty =? 53 then mkdir_map A t
                    else if (ty =? 0) || (ty =? 48) then write_map A t (slice bytes off n) else Some A) r.
Proof.
  intros HK HA Hp Hs Ho Hn Hl Hmax. unfold make_entry. pose proof Hp as [Ht _]. destruct (ty =? 53).
  { destruct (mkdir_ok K s A path t HK HA Hp Hs) as (p & -> & Hp1 & Hp0). rewrite bind_ok. destruct (Z.eqb_spec p 0) as [->|Hne].
    - eapply wp_bind, wp_mono; [by apply Hp0|]. intros [[r out] s'] (HK' & HR' & [[-> Hw]|[-> Hw]]); apply wp_ok; (split; [done|]); by auto.
    - apply wp_ok. split; [by exists K|]. split; [done|right]. split; [done|]. rewrite Hp1 by done. by exists A. }
  destruct (_ || _); [|apply wp_ok; split; [by exists K|]; split; [done|right]; split; [done|]; by exists A].
  destruct (lookup_shows K s A path t HK HA Hp) as (p & -> & Hlk & Hp1 & HAp). rewrite bind_ok. unfold write_map.
  destruct (Z.eqb_spec p 0) as [->|Hne].
  - apply wp_bind. eapply wp_bind, wp_mono; [by apply (create_absent K s A path t)|].
    intros [[r out] s'] ((K' & HK') & _ & HR' & [(-> & -> & _ & Hw)|(-> & p & m & cs & Hpl & -> & Hp0 & Hm & Hlk' & HA')]);
      apply wp_ok; cbn [default from_option id].
    + apply wp_ok. split; [by exists K'|]. split; [done|left]. split; [done|]. destruct Hw as [?|Hpl]; [by left|right].
      destruct (components t) as [cs|] eqn:Hc; [|done]. cbn [mbind option_bind]. by rewrite (HAp cs eq_refl), (object_none K s HK), Hpl.
    + rewrite (proj2 (Z.eqb_neq p 0)) by done. cbn [negb orb Z.eqb]. destruct (place_inv A t cs Hpl) as (cs' & Hc & -> & HAc).
      eapply wp_mono; [apply (write_entry K' s' _ t cs' p bytes off n HK' HA'); try done; by exists m|].
      rewrite Hc, Hpl. cbn [mbind option_bind]. rewrite HAc. unfold add at 1. rewrite decide_True by done. cbn [fresh].
      intros [r s2] (HK2 & HR2 & Hw). split; [done|]. split; [by auto|]. destruct Hw as [[-> [?|Hx]]|(-> & A' & [= <-] & HA2)]; [by auto|done|].
      right. split; [done|]. eexists. split; [done|]. eapply shows_ext; [|exact HA2]. intros cs2. apply add_add.
  - rewrite bind_ok. cbn [orb]. rewrite (proj2 (Z.eqb_neq p 0)) by done. destruct (Hp1 Hne) as [Hm [cs Hc]].
    eapply wp_mono; [by apply (write_entry K s A t cs p bytes off n)|]. rewrite Hc. cbn [mbind option_bind].
    rewrite (HAp cs Hc). by destruct (object_some s p Hm) as [x ->].
Qed.

(** ** Loading an archive *)

Lemma read_entry_ok bytes size off h : header_at bytes off = Ok h → read_entry bytes size off =
  n ← octal (h_size h) 0; t ← tar_text h;
  if padded n <=? size - (off + 512) then
    Some ({| e_path := chop t; e_type := h_type h; e_data := slice bytes (off + 512) n |}, off + 512 + padded n)
  else None.
Proof. intros E. unfold read_entry. by rewrite E. Qed.

Lemma tar_text_shape h t : header_ok h → tar_text h = Some t → path_ok t ∧ t ≠ [] ∧ zlen t < VFS_PATH_MAX.
Proof.
  intros (_ & _ & _ & Hn & Hp). unfold tar_text. case_decide; [done|]. set (mid := if decide _ then _ else _). intros E. case_match eqn:El; [|done].
  injection E as <-. split; [|split; [done|lia]]. constructor; [unfold slash; lia|]. apply Forall_app. split; [|by apply until_nul_bytes].
  unfold mid. case_decide; [done|]. apply Forall_app. split; [by apply until_nul_bytes|]. constructor; [unfold slash; lia|done].
Qed.

(** The next entry cannot be read, or conflicts with what is there. *)
Definition next_fails (A : list (list Z) → option object) (bytes : list Z) (size off : Z) : Prop :=
  (size <? off + 512) = true ∨
  ((size <? off + 512) = false ∧ zero_block bytes off = false ∧
   match read_entry bytes size off with Some (e, _) => load_entry A e = None | None => True end).

(** One turn of the loop: the end, an error, or one entry loaded. *)
Definition stepped (s : fs) (A : list (list Z) → option object) (bytes : list Z) (size off loaded : Z) (x : Z * Z * fs + Z * fs) : Prop :=
  match x with
  | inl (off', loaded', s') => (size <? off + 512) = false ∧ zero_block bytes off = false ∧ loaded' = loaded + 1 ∧ off + 512 ≤ off' ≤ size ∧
      (∃ K', fs_ok K' s') ∧ (R (heap s) → R (heap s')) ∧
      ∃ e A', read_entry bytes size off = Some (e, off') ∧ load_entry A e = Some A' ∧ shows s' A'
  | inr (r, s') => (∃ K', fs_ok K' s') ∧ (R (heap s) → R (heap s')) ∧
      ((r = -1 ∧ (R (heap s') ∨ next_fails A bytes size off)) ∨
       ((size <? off + 512) = false ∧ zero_block bytes off = true ∧ r = loaded ∧ s' = s))
  end.

Lemma step_failed s A bytes size off loaded s' : (∃ K', fs_ok K' s') → (R (heap s) → R (heap s')) →
  R (heap s') ∨ next_fails A bytes size off → Ok (inr (-1, s')) ⇓ stepped s A bytes size off loaded.
Proof. intros HK HRs Hw. apply wp_ok. split; [done|]. split; [done|]. by left. Qed.

Lemma load_step_ok K s A bytes size off loaded : fs_ok K s → shows s A → Forall is_byte bytes → size ≤ zlen bytes → size ≤ 2 ^ 31 - 8 →
  0 ≤ off ≤ size → 0 ≤ loaded ≤ off →
  ((size <? off + 512) = false → zero_block bytes off = false → ∀ e off', read_entry bytes size off = Some (e, off') → short (e_path e)) →
  load_step garbage bytes size (off, loaded, s) ⇓ stepped s A bytes size off loaded.
Proof.
  intros HK HA Hb Hsz Hmax Ho Hld Hsh. unfold load_step. unfold TAR_BLOCK_SIZE at 1. rewrite (u64_small (off + 512)) by lia.
  assert (∃ K', fs_ok K' s) as HK0 by (by exists K).
  destruct (size <? off + 512) eqn:E1; [apply step_failed; [done|done|right; by left]|]. assert (off + 512 ≤ size) as Hlt by lia.
  destruct (header_at_ok bytes off Hb) as (h & Eh & Hh); [lia..|]. rewrite Eh, bind_ok.
  eapply wp_bind, wp_mono; [apply is_zero_block_ok; unfold TAR_BLOCK_SIZE; lia|]. intros z ->.
  destruct (zero_block bytes off) eqn:Ez; [apply wp_ok; split; [done|]; split; [done|by right]|].
  specialize (Hsh eq_refl eq_refl). pose proof (read_entry_ok bytes size off h Eh) as Hre. pose proof Hh as (_ & _ & Hhs & _).
  assert (read_entry bytes size off = None → Ok (inr (-1, s)) ⇓ stepped s A bytes size off loaded) as Hbad.
  { intros Hnone. apply step_failed; [done|done|]. right. right. by rewrite Hnone. }
  rewrite <-Hhs at 1. eapply wp_bind, wp_mono; [apply parse_octal_ok|]. intros [bad n] Hn.
  destruct (octal (h_size h) 0) as [n'|] eqn:Eo; [destruct Hn as [-> ->]|subst bad; by apply Hbad]. cbn [negb Z.eqb mbind option_bind] in Hre |- *.
  apply octal_range in Eo; [|lia]. rename n' into n.
  eapply wp_bind, wp_mono; [apply tar_path_ok; [done|by apply length_local]|]. intros [bad path] Hpath.
  destruct (tar_text h) as [t|] eqn:Et; [destruct Hpath as (-> & Hpath & Hpl)|subst bad; by apply Hbad]. cbn [negb Z.eqb mbind option_bind] in Hre |- *.
  destruct (tar_text_shape h t Hh Et) as (Htb & Htne & Htl). unfold VFS_PATH_MAX in Htl.
  change (off + TAR_BLOCK_SIZE) with (off + 512). rewrite !(u64_small (off + 512)), !(u64_small (size - (off + 512))) by lia.
  pose proof (padded_bounds n) as Hpad.
  destruct (Z.leb_spec (padded n) (size - (off + 512))) as [Hfit2|Hbig].
  2:{ destruct (Z.ltb_spec (size - (off + 512)) n) as [Hbig'|Hfit]; [by apply Hbad|]. cbn [orb]. rewrite padded_mask by lia.
      rewrite (proj2 (Z.ltb_lt _ _)) by lia. by apply Hbad. }
  destruct (Z.ltb_spec (size - (off + 512)) n) as [Hbig|Hfit]; [lia|]. cbn [orb]. rewrite padded_mask by lia.
  rewrite (proj2 (Z.ltb_ge _ (padded n))) by lia. specialize (Hsh _ _ Hre). cbn [e_path] in Hsh.
  rewrite (strlen_ok path t), bind_ok by (done || lia). eapply wp_bind, wp_mono; [by apply strip_slashes_ok|]. intros path' [Hp' Hpl'].
  destruct (chop_prefix t) as (rest & Ec & Hcne). assert (zlen (chop t) ≤ zlen t) by (rewrite Ec at 2; unfold zlen; rewrite length_app; lia).
  set (e := {| e_path := chop t; e_type := h_type h; e_data := slice bytes (off + 512) n |}) in *.
  assert (∀ s', load_entry A e = None ∨ R (heap s') → R (heap s') ∨ next_fails A bytes size off) as Hwhy.
  { intros s' [Hn|Hn]; [right; right|by left]. by rewrite Hre. }
  eapply wp_bind, wp_mono; [apply (ensure_directories_ok K s A path' (chop t)); try done; [by apply Hcne|unfold VFS_PATH_MAX; lia]|].
  intros [bad s1] ((K1 & HK1) & HR1 & [[-> Hw]|(-> & A1 & EA1 & HA1)]); cbn [negb Z.eqb].
  { apply step_failed; [by exists K1|done|]. apply Hwhy. unfold load_entry. destruct Hw as [?|Hn]; [by right|left]. cbn [e_path e]. by rewrite Hn. }
  eapply wp_bind, wp_mono; [apply (make_entry_ok K1 s1 A1 bytes path' (chop t) (h_type h) (off + 512) n HK1 HA1); (done || lia)|].
  assert (load_entry A e = (if h_type h =? 53 then mkdir_map A1 (chop t) else if (h_type h =? 0) || (h_type h =? 48)
    then write_map A1 (chop t) (slice bytes (off + 512) n) else Some A1)) as <- by (unfold load_entry; cbn [e_path e_type e_data e]; by rewrite EA1).
  intros [bad s2] (HK2 & HR2 & [[-> Hw]|(-> & A2 & EA2 & HA2)]); cbn [negb Z.eqb].
  { apply step_failed; [done|by auto|]. apply Hwhy. tauto. }
  destruct (Z.eqb_spec loaded (2 ^ 31 - 1)); [lia|].
  apply wp_ok. rewrite u64_small by lia. split_and!; try done; try lia; [by auto|]. by exists e, A2.
Qed.

Lemma unpack_cons A e es : unpack A (e :: es) = A ← load_entry A e; unpack A es.
Proof.
  unfold unpack. cbn [foldl mbind option_bind]. destruct (load_entry A e) as [A'|]; [done|]. cbn [mbind option_bind].
  by induction es as [|e' es IH].
Qed.

(** The result of loading the entries [es] of an archive into a file system with the map [A]. *)
Definition archive_loaded (s s' : fs) (A : list (list Z) → option object) (loaded : Z) (arc : list tar_entry * bool) (r : Z) : Prop :=
  (∃ K', fs_ok K' s') ∧ (R (heap s) → R (heap s')) ∧
  ((r = -1 ∧ (R (heap s') ∨ arc.2 = false ∨ unpack A arc.1 = None)) ∨
   (arc.2 = true ∧ r = loaded + zlen arc.1 ∧ ∃ A', unpack A arc.1 = Some A' ∧ shows s' A')).

Lemma load_loop bytes size fuel : Forall is_byte bytes → size ≤ zlen bytes → size ≤ 2 ^ 31 - 8 → ∀ K s A off loaded,
  fs_ok K s → shows s A → 0 ≤ off ≤ size → 0 ≤ loaded ≤ off → (Z.to_nat (size - off) < fuel)%nat →
  Forall (λ e, short (e_path e)) (entries fuel bytes size off).1 →
  loop fuel (load_step garbage bytes size) (off, loaded, s) ⇓ λ '(r, s'), archive_loaded s s' A loaded (entries fuel bytes size off) r.
Proof.
  intros Hb Hsz Hmax. induction fuel as [|fuel IH]; intros K s A off loaded HK HA Ho Hld Hf Hsh; [lia|]. cbn [loop entries] in *.
  eapply wp_bind, wp_mono.
  { apply (load_step_ok K s A bytes size off loaded); try done. intros E1 E2 e off' He. rewrite E1, E2, He in Hsh.
    destruct (entries fuel bytes size off') as [es ok]. by apply Forall_cons in Hsh as [? _]. }
  intros [[[off' loaded'] s']|[r s']].
  - intros (E1 & E2 & -> & Ho' & (K' & HK') & HR' & e & A' & He & HAe & HA'). rewrite E1, E2, He in Hsh |- *.
    destruct (entries fuel bytes size off') as [es ok] eqn:Ees. cbn [fst snd] in *. apply Forall_cons in Hsh as [_ Hsh].
    eapply wp_mono; [apply (IH K' s' A' off' (loaded + 1)); try done; [lia|lia|lia|by rewrite Ees]|]. rewrite Ees. unfold archive_loaded. cbn [fst snd].
    rewrite unpack_cons, HAe. cbn [mbind option_bind]. intros [r s2] (HK2 & HR2 & Hr). split; [done|]. split; [by auto|].
    destruct Hr as [?|(-> & -> & HA2)]; [by left|right]. split; [done|]. split; [unfold zlen; simpl; lia|done].
  - intros (HK' & HR' & [[-> Hw]|(E1 & E2 & -> & ->)]); apply wp_ok; (split; [done|]); (split; [done|]).
    + left. split; [done|]. destruct Hw as [?|[E1|(E1 & E2 & Hn)]]; [by left|right..]; rewrite E1; [by left|]. rewrite E2.
      destruct (read_entry bytes size off) as [[e off']|]; [|by left]. destruct (entries fuel bytes size off') as [es ok]. right.
      cbn [fst]. by rewrite unpack_cons, Hn.
    + right. rewrite E1, E2. cbn [fst snd]. split; [done|]. split; [unfold zlen; simpl; lia|]. by exists A.
Qed.

(** The archive that a boot module of [size] bytes holds. *)
Definition archive (bytes : list Z) (size : Z) : list tar_entry * bool := entries (S (Z.to_nat size)) bytes size 0.

Lemma initrd_load_ok K s A bytes size : fs_ok K s → shows s A → Forall is_byte bytes → 0 ≤ size ≤ zlen bytes → size ≤ 2 ^ 31 - 8 →
  Forall (λ e, short (e_path e)) (archive bytes size).1 → root_node s ≠ 0 →
  initrd_load garbage s (Some bytes) size (root_node s) ⇓ λ '(r, s'), archive_loaded s s' A 0 (archive bytes size) r.
Proof.
  intros HK HA Hb Hsz Hmax Hsh Hroot. unfold initrd_load, vfs_root. rewrite (proj2 (Z.eqb_neq _ 0)), Z.eqb_refl by done. cbn [orb negb].
  destruct (Z.ltb_spec size TAR_BLOCK_SIZE) as [Hlt|Hge].
  { apply wp_ok. split; [by exists K|]. split; [done|left]. split; [done|]. right. left. unfold archive. cbn [entries]. unfold TAR_BLOCK_SIZE in Hlt.
    by rewrite (proj2 (Z.ltb_lt _ _)) by lia. }
  by apply (load_loop bytes size _ Hb ltac:(lia) Hmax K s A 0 0); try done; lia.
Qed.

(** The map of a root just mounted. *)
Definition root_only (cs : list (list Z)) : option object := if decide (cs = []) then Some Dir else None.

Lemma view_empty s cs : fs_ok ∅ s → view ∅ s cs = if decide (cs = []) then root_node s else 0.
Proof.
  intros _. destruct cs as [|c cs _] using rev_ind; [done|]. rewrite view_snoc, decide_False by (by destruct cs). done.
Qed.

Lemma mount_shows s : fs_ok ∅ s → shows s root_only.
Proof.
  intros HK t cs Ht Hc. rewrite (resolved_view ∅ s t cs), view_empty by done. unfold root_only. destruct (decide (cut <$> cs = [])); [|by eapply object_none].
  destruct HK as (((r & Hr & Hty & _) & _) & _). unfold object_at. rewrite Hr. cbn. by rewrite Hty.
Qed.

(** The nodes the boot code makes: /dev, /tmp, /proc and /dev/klog. *)
Definition with_dev : list (list Z) → option object := add root_only [[100; 101; 118]] Dir.
Definition with_tmp : list (list Z) → option object := add with_dev [[116; 109; 112]] Dir.
Definition with_proc : list (list Z) → option object := add with_tmp [[112; 114; 111; 99]] Dir.
Definition boot_map : list (list Z) → option object := add with_proc [[100; 101; 118]; [107; 108; 111; 103]] (File []).

(** The root and some of these nodes. *)
Definition booted (A : list (list Z) → option object) : Prop := A [] = Some Dir ∧ ∀ cs, A cs = None ∨ A cs = boot_map cs.

Lemma booted_root : booted root_only.
Proof.
  split; [done|]. intros cs. unfold root_only. destruct (decide (cs = [])) as [->|]; [by right|by left].
Qed.

(** The state of the boot: some of the nodes, and all of those wanted unless a request was refused. *)
Definition boots (s : fs) (want : list (list Z) → option object) : Prop :=
  root_node s ≠ 0 ∧ (∃ K, fs_ok K s) ∧ ∃ A, shows s A ∧ booted A ∧ (R (heap s) ∨ A = want).

Lemma boot_create s want t cs ty : boots s want → path_ok t → short t → place want t = Some cs →
  boot_map cs = Some (fresh ty) → cs ≠ [] →
  vfs_create garbage s (Some (cstr t)) ty ⇓ λ '(_, _, s'), root_node s' = root_node s ∧ boots s' (add want cs (fresh ty)).
Proof.
  intros (Hroot & (K & HK) & A & HA & Hb & Hw) Ht Hs Hpl Hm Hne.
  eapply wp_mono; [apply (create_absent K s A (cstr t) t ty); try done; by apply is_cstr_cstr|].
  intros [[r out] s'] (HK' & Hr0 & HR' & [(-> & _ & HA' & Hwhy)|(-> & n & m & cs' & Hpl' & _ & _ & _ & _ & HA')]);
    (split; [done|]); (split; [by rewrite Hr0|]); (split; [done|]).
  - exists A. split; [done|]. split; [done|]. left. destruct Hwhy as [?|Hnone]; [done|]. destruct Hw as [?| ->]; [by auto|]. congruence.
  - destruct (place_inv _ _ _ Hpl') as (c1 & E1 & -> & _), (place_inv _ _ _ Hpl) as (c2 & E2 & -> & _).
    assert (c1 = c2) as -> by congruence. eexists. split; [exact HA'|]. split.
    + destruct Hb as [Hb0 Hb]. split.
      * unfold add. by rewrite decide_False by done.
      * intros cs'. unfold add. destruct (decide (cs' = _)) as [->|]; [by right|apply Hb].
    + destruct Hw as [?| ->]; [by left; auto|by right].
Qed.

Lemma init_filesystems_ok h L bytes size :
  al_repr h L → Forall is_byte bytes → 0 ≤ size ≤ zlen bytes → size ≤ 2 ^ 31 - 8 → Forall (λ e, short (e_path e)) (archive bytes size).1 →
  init_filesystems garbage h (Some (bytes, size)) ⇓ λ '(r, s, t), t = FdTable.fd_table_init ∧
    ((r = None ∧ R (heap s)) ∨ ∃ r0 s0 A, r = Some r0 ∧ booted A ∧ (R (heap s) ∨ A = boot_map) ∧ archive_loaded s0 s A 0 (archive bytes size) r0).
Proof.
  intros Ha Hb Hsz Hmax Hsh. unfold init_filesystems. destruct (root_ok h L Ha) as ([root s] & E & Hr). rewrite E, bind_ok. apply wp_bind.
  assert (root = 0 → R (heap s)) as HRroot.
  { unfold tmpfs_create_root in E. apply bind_inv in E as ([p h'] & Ec & E). cbv zeta in E. pose proof (refused_calloc R HR _ _ _ _ _ Ec) as Hc.
    destruct (Z.eqb_spec p 0) as [->|]; [injection E as <- <-; cbn [heap set_heap]; by auto|].
    apply bind_inv in E as (nm & _ & E). injection E as <- <-. done. }
  destruct Hr as [->|[Hr Hm]]; [apply wp_ok, wp_ok; split; [done|left]; by auto|]. rewrite (proj2 (Z.eqb_neq root 0)) by done.
  eapply wp_bind, wp_mono; [exact Hm|]. intros [r0 s0] (_ & HK0 & Hroot). unfold vfs_root in Hroot.
  assert (boots s0 root_only) as B0.
  { split; [by rewrite Hroot|]. split; [by exists ∅|]. exists root_only. split; [by apply mount_shows|]. split; [apply booted_root|by right]. }
  eapply wp_bind, wp_mono; [apply (boot_create s0 root_only _ [[100; 101; 118]] VFS_NODE_DIR B0); (done || (repeat constructor; lia))|].
  intros [[? ?] s1] [R1 B1].
  eapply wp_bind, wp_mono; [apply (boot_create s1 with_dev _ [[116; 109; 112]] VFS_NODE_DIR B1); (done || (repeat constructor; lia))|].
  intros [[? ?] s2] [R2 B2].
  eapply wp_bind, wp_mono; [apply (boot_create s2 with_tmp _ [[112; 114; 111; 99]] VFS_NODE_DIR B2); (done || (repeat constructor; lia))|].
  intros [[? ?] s3] [R3 B3].
  eapply wp_bind, wp_mono;
    [apply (boot_create s3 with_proc _ [[100; 101; 118]; [107; 108; 111; 103]] VFS_NODE_FILE B3); (done || (repeat constructor; lia))|].
  intros [[? ?] s4] [R4 (Hr4 & (K4 & HK4) & A4 & HA4 & Hb4 & Hw4)].
  assert (root = root_node s4) as -> by congruence.
  eapply wp_bind, wp_mono; [by apply (initrd_load_ok K4 s4 A4)|]. intros [r s5] H5. apply wp_ok, wp_ok. split; [done|right].
  exists r, s4, A4. split; [done|]. split; [done|]. split; [|done]. destruct Hw4 as [?|?]; [left|by right]. by apply H5.
Qed.

End Load.

(** ** Booting with an archive, on a heap that notes refused requests *)
Section Boot.
Context {H : Type} `{RA : Reallocator H}.
Context (garbage : Z → Z → Z).

(** C22: Booting with any bytes of at most 2^31 - 8 as the first module, in which every entry
    name met has path components below 64 bytes, runs without reading outside them and ends,
    with a well-formed file tree unless the boot stops; the boot stops or the loader returns -1
    only if the allocator refused a request, the archive ends without its end marker or with a
    bad header, or unpacking the entries into the map of the booted tree meets a conflict;
    otherwise the archive is complete, the loader returns the number of entries, and every path
    resolves to what unpacking them into the booted tree gives. *)
Theorem initrd_load_correct h L bytes size :
  al_repr h L → Forall is_byte bytes → 0 ≤ size ≤ zlen bytes → size ≤ 2 ^ 31 - 8 →
  Forall (λ e, short (e_path e)) (archive bytes size).1 →
  init_filesystems garbage (h, false) (Some (bytes, size)) ⇓ λ '(r, s, t), t = FdTable.fd_table_init ∧
    ((r = None ∧ (heap s).2 = true) ∨
     (∃ K, fs_ok K s) ∧
     let '(es, complete) := archive bytes size in
     (r = Some (-1) ∧ ((heap s).2 = true ∨ complete = false ∨ unpack boot_map es = None)) ∨
     (r = Some (zlen es) ∧ complete = true ∧ ∃ A A', booted A ∧ ((heap s).2 = false → A = boot_map) ∧ unpack A es = Some A' ∧
        ∀ t cs, path_ok t → components t = Some cs → resolved garbage s t = A' (cut <$> cs))).
Proof.
  intros Ha Hb Hsz Hmax Hsh.
  eapply wp_mono; [by apply (init_filesystems_ok garbage _ tracked_refusals (h, false) L bytes size)|].
  intros [[r s] t] (-> & Hr). split; [done|]. destruct Hr as [?|(r0 & s0 & A & -> & HbA & Hw & HK & _ & Hr)]; [by left|right].
  split; [done|]. destruct (archive bytes size) as [es complete]. cbn [fst snd] in Hr.
  destruct Hr as [[-> Hr]|(-> & -> & A' & HA' & Hs)]; [left|right]; (split; [done|]).
  - destruct Hr as [?|[?|Hn]]; [by auto|by auto|]. destruct Hw as [?| ->]; by auto.
  - split; [done|]. exists A, A'. split; [done|]. split; [|done]. destruct Hw as [->|?]; done.
Qed.

(** C11: Booting with a ustar archive of well-formed entries (any metadata, path components
    below 64 bytes, at most 2^31 - 8 bytes) as the first module ends without undefined
    behaviour, and unless the allocator refused a request on the way: if unpacking the entries
    one after the other into the map of the booted tree succeeds, the loader returns the number
    of entries and every path then resolves to what that map has, missing parent directories
    made and file contents byte for byte; if it meets a conflict, the loader returns -1. *)
Theorem initrd_unpacks h L fs rest :
  al_repr h L → Forall file_wf fs → Forall is_byte (tar_image fs rest) → zlen (tar_image fs rest) ≤ 2 ^ 31 - 8 →
  Forall (λ f, short (chop (tar_path_text f))) fs →
  init_filesystems garbage (h, false) (Some (tar_image fs rest, zlen (tar_image fs rest))) ⇓ λ '(r, s, t), t = FdTable.fd_table_init ∧
    ((heap s).2 = false →
       match unpack boot_map (entry_of <$> fs) with
       | None => r = Some (-1)
       | Some A => r = Some (zlen fs) ∧ ∀ t cs, path_ok t → components t = Some cs → resolved garbage s t = A (cut <$> cs)
       end).
Proof.
  intros Ha Hwf Hb Hmax Hsh. set (size := zlen (tar_image fs rest)) in *. assert (0 ≤ size) by (unfold size, zlen; lia).
  assert (zlen (tar_image fs []) ≤ size) as Hle by (unfold size, tar_image, zlen; rewrite !length_app; simpl; lia).
  assert (archive (tar_image fs rest) size = (entry_of <$> fs, true)) as E.
  { apply (entries_image fs rest Hwf []); [done|]. assert (length fs ≤ length (concat (file_blocks <$> fs)))%nat.
    - clear -Hwf. induction Hwf as [|f fs Hf _ IH]; [simpl; lia|]. cbn [fmap list_fmap concat length]. rewrite length_app.
      pose proof (length_header f Hf). unfold file_blocks at 1. rewrite length_app. fold (file_blocks <$> fs) in *. lia.
    - unfold size, tar_image, zlen. rewrite !length_app, length_replicate. lia. }
  eapply wp_mono; [apply (init_filesystems_ok garbage _ tracked_refusals (h, false) L (tar_image fs rest) size); try done;
    rewrite E; cbn [fst]; by apply Forall_fmap|].
  rewrite E. intros [[r s] t] (-> & Hr). split; [done|]. intros Hflag.
  destruct Hr as [[_ Hx]|(r0 & s0 & A & -> & _ & Hw & _ & _ & Hr)]; [congruence|]. destruct Hw as [Hx| ->]; [congruence|]. cbn [fst snd] in Hr.
  destruct Hr as [[-> [Hx|[Hx|Hn]]]|(_ & -> & A' & HA' & Hs)]; [congruence|done|by rewrite Hn|].
  rewrite HA'. split; [|done]. unfold zlen. by rewrite length_fmap.
Qed.

End Boot.
(** ** A small archive: the directory "d/" and the file "a" with the prefix "d" *)

Definition sample_file (nm pf : list Z) (ty : Z) (data : list Z) : tar_file :=
  {| f_name := nm; f_prefix := pf; f_type := ty; f_data := data; f_ids := replicate 24 55; f_time := replicate 20 49;
     f_link := replicate 188 117; f_end := replicate 12 0 |}.
Definition sample_files : list tar_file := [sample_file [100; 47] [] 53 []; sample_file [97] [100] 48 [7; 8; 9]].

Lemma bytes_ok l : forallb (λ b, (0 <=? b) && (b <? 256)) l = true → Forall is_byte l.
Proof.
  intros E. apply Forall_forall. intros b Hb. apply forallb_forall with (x := b) in E; [|by apply list_elem_of_In]. unfold is_byte. lia.
Qed.

Lemma initrd_load_correct_witness :
  init_filesystems no_garbage (Heap.heap_init Heap.empty_heap 4096 65536, false) (Some (file_blocks (sample_file [97] [] 48 [7]), 1024)) ⇓ λ '(r, s, _),
    r = Some (-1) ∧ ∃ K, fs_ok K s.
Proof.
  destruct (initrd_load_correct no_garbage _ _ (file_blocks (sample_file [97] [] 48 [7])) 1024 sample_boot_repr) as ([[r s] t] & E & _ & HK);
    [by apply bytes_ok|by vm_compute|lia|by repeat constructor|].
  exists (r, s, t). split; [exact E|]. match type of E with ?m = _ =>
    assert (match m with Ok (r, _, _) => r = Some (-1) | _ => False end) as Hv by (by vm_compute) end.
  rewrite E in Hv. split; [exact Hv|]. destruct HK as [[-> _]|[HK _]]; [done|exact HK].
Defined.

Lemma initrd_unpacks_witness :
  init_filesystems no_garbage (Heap.heap_init Heap.empty_heap 4096 65536, false) (Some (tar_image sample_files [], zlen (tar_image sample_files []))) ⇓
    λ '(r, s, _), r = Some 2 ∧ resolved no_garbage s [47; 100; 47; 97] = Some (File [7; 8; 9]).
Proof.
  destruct (initrd_unpacks no_garbage _ _ sample_files [] sample_boot_repr) as ([[r s] t] & E & _);
    [|by apply bytes_ok|by vm_compute|by repeat constructor|].
  { repeat constructor; unfold zlen; simpl; (done || lia). }
  exists (r, s, t). split; [exact E|]. match type of E with ?m = _ =>
    assert (match m with Ok (r, s, _) => r = Some 2 ∧ resolved no_garbage s [47; 100; 47; 97] = Some (File [7; 8; 9]) | _ => False end) as Hv
      by (vm_compute; by split) end.
  by rewrite E in Hv.
Defined.

End Initrd.
