(* ===== verification/Boot.v ===== *)
(** The boot information of a Multiboot2 loader (kernel/boot/multiboot2.c): finding tags, and
    the memory map, module and framebuffer they describe. *)
From S2P Require Import Prelude KString Bytes Kmath Bitmap Pmm Mmap.

Module Multiboot2.
Import KString Bytes Mmap.

Definition MULTIBOOT2_BOOTLOADER_MAGIC : Z := 0x36d76289.
Definition MULTIBOOT2_TAG_END : Z := 0.
Definition MULTIBOOT2_TAG_MODULE : Z := 3.
Definition MULTIBOOT2_TAG_MEMORY_MAP : Z := 6.
Definition MULTIBOOT2_TAG_FRAMEBUFFER : Z := 8.
Definition MULTIBOOT2_TAG_ACPI_OLD : Z := 14.
Definition MULTIBOOT2_TAG_ACPI_NEW : Z := 15.

(** What the loader passed: the magic number and the bytes at the address, [None] for 0. A
    pointer to a tag is its offset in these bytes. *)
Record boot := { multiboot2_boot_magic : Z; multiboot2_boot_info : option (list Z) }.

Record multiboot2_framebuffer_t := { address : Z; pitch : Z; width : Z; height : Z; bpp : Z }.

Definition multiboot2_available (b : boot) : bool :=
  (multiboot2_boot_magic b =? MULTIBOOT2_BOOTLOADER_MAGIC) && bool_decide (is_Some (multiboot2_boot_info b)).

(** [(tag->size + 7u) & ~7u] *)
Definition tag_stride (size : Z) : Z := Z.land (u32 (size + 7)) (u32 (Z.lnot 7)).

Definition tag_step (info : list Z) (total_size wanted : Z) : Z * Z → outcome (Z * Z + option Z) :=
  λ '(cursor, occurrence),
    if cursor + 8 <=? total_size then
      type ← load_le 4 info cursor;
      size ← load_le 4 info (cursor + 4);
      if (type =? MULTIBOOT2_TAG_END) || (size <? 8) then Ok (inr None)
      else if type =? wanted then
        if occurrence =? 0 then Ok (inr (Some cursor)) else Ok (inl (cursor + tag_stride size, u64 (occurrence - 1)))
      else Ok (inl (cursor + tag_stride size, occurrence))
    else Ok (inr None).

Definition find_tag (b : boot) (wanted occurrence : Z) : outcome (option Z) :=
  if negb (multiboot2_available b) then Ok None
  else match multiboot2_boot_info b with
  | None => Undef
  | Some info =>
      total_size ← load_le 4 info 0;
      if total_size <? 16 then Ok None
      else loop (S (length info)) (tag_step info total_size wanted) (8, occurrence)
  end.

(** The bytes of the information, behind a pointer [find_tag] returned. *)
Definition info_of (b : boot) : list Z := default [] (multiboot2_boot_info b).

Definition entry_step (info : list Z) (entry_size end_ : Z) : Z * mmap_t → outcome (Z * mmap_t + mmap_t) :=
  λ '(cursor, m),
    if cursor + entry_size <=? end_ then
      type ← load_le 4 info (cursor + 16);
      a ← load_le 8 info cursor;
      l ← load_le 8 info (cursor + 8);
      '(_, m) ← mmap_add_region m a l (if type =? 1 then MMAP_REGION_USABLE else MMAP_REGION_RESERVED);
      Ok (inl (cursor + entry_size, m))
    else Ok (inr m).

Definition multiboot2_init_memory_map (b : boot) : outcome mmap_t :=
  map ← find_tag b MULTIBOOT2_TAG_MEMORY_MAP 0;
  match map with
  | None => Ok mmap_reset
  | Some map =>
      let info := info_of b in
      entry_size ← load_le 4 info (map + 8);
      if entry_size <? 24 then Ok mmap_reset
      else
        size ← load_le 4 info (map + 4);
        loop (S (length info)) (entry_step info entry_size (map + size)) (map + 16, mmap_reset)
  end.

(** The address and size of a module. *)
Definition multiboot2_module (b : boot) (index : Z) : outcome (option (Z * Z)) :=
  module ← find_tag b MULTIBOOT2_TAG_MODULE index;
  match module with
  | None => Ok None
  | Some module =>
      end_ ← load_le 4 (info_of b) (module + 12);
      start ← load_le 4 (info_of b) (module + 8);
      if end_ <? start then Ok None else Ok (Some (start, u32 (end_ - start)))
  end.

(** [have_framebuffer]: the pointer is not NULL. *)
Definition multiboot2_framebuffer (b : boot) (have_framebuffer : bool) : outcome (option multiboot2_framebuffer_t) :=
  tag ← find_tag b MULTIBOOT2_TAG_FRAMEBUFFER 0;
  match tag with
  | None => Ok None
  | Some tag =>
      if negb have_framebuffer then Ok None
      else
        let info := info_of b in
        ty ← load_le 1 info (tag + 29);
        if negb (ty =? 1) then Ok None
        else
          bpp ← load_le 1 info (tag + 28);
          if negb (bpp =? 32) then Ok None
          else
            address ← load_le 8 info (tag + 8);
            pitch ← load_le 4 info (tag + 16);
            width ← load_le 4 info (tag + 20);
            height ← load_le 4 info (tag + 24);
            Ok (Some {| address := address; pitch := pitch; width := width; height := height; bpp := bpp |})
  end.

(** The offset of the root pointer, behind the tag's head. *)
Definition multiboot2_rsdp (b : boot) : outcome (option Z) :=
  tag ← find_tag b MULTIBOOT2_TAG_ACPI_NEW 0;
  tag ← match tag with None => find_tag b MULTIBOOT2_TAG_ACPI_OLD 0 | Some t => Ok (Some t) end;
  Ok (match tag with Some t => Some (t + 8) | None => None end).

(** ** Boot information as a loader builds it *)

Record tag := { t_type : Z; t_payload : list Z }.

Definition stride (n : Z) : Z := 8 * ((n + 7) / 8).

Definition tag_size (t : tag) : Z := 8 + zlen (t_payload t).

Definition tag_bytes (t : tag) : list Z :=
  le_bytes 4 (t_type t) ++ le_bytes 4 (tag_size t) ++ t_payload t ++ replicate (Z.to_nat (stride (tag_size t) - tag_size t)) 0.

Definition tags_bytes (ts : list tag) : list Z := concat (tag_bytes <$> ts).

Definition end_bytes : list Z := le_bytes 4 0 ++ le_bytes 4 8.

Definition info_bytes (ts : list tag) : list Z :=
  le_bytes 4 (16 + zlen (tags_bytes ts)) ++ le_bytes 4 0 ++ tags_bytes ts ++ end_bytes.

Definition loaded (ts : list tag) : boot :=
  {| multiboot2_boot_magic := MULTIBOOT2_BOOTLOADER_MAGIC; multiboot2_boot_info := Some (info_bytes ts) |}.

Definition tag_ok (t : tag) : Prop := 0 < t_type t < 2 ^ 32.

(** The tags with their offsets. *)
Fixpoint placed (off : Z) (ts : list tag) : list (Z * tag) :=
  match ts with [] => [] | t :: ts => (off, t) :: placed (off + zlen (tag_bytes t)) ts end.

Definition tags_of (ty : Z) (ts : list tag) : list (Z * tag) := filter (λ x, t_type x.2 = ty) (placed 8 ts).

Lemma stride_bounds n : 0 ≤ n → n ≤ stride n < n + 8.
Proof. intros. unfold stride. pose proof (Z.div_mod (n + 7) 8 ltac:(lia)). pose proof (Z.mod_pos_bound (n + 7) 8 ltac:(lia)). lia. Qed.

Lemma tag_stride_ok n : 0 ≤ n < 2 ^ 32 - 8 → tag_stride n = stride n.
Proof.
  intros Hn. unfold tag_stride, stride. rewrite (u32_small (n + 7)) by lia.
  change (u32 (Z.lnot 7)) with (Z.ldiff (Z.ones 32) (Z.ones 3)). rewrite Z.ldiff_land, Z.land_assoc, <-Z.ldiff_land, Z.land_ones, Z.mod_small by lia.
  change 8 with (2 ^ 3). rewrite (Z.mul_comm (2 ^ 3)), <-Z.shiftl_mul_pow2, <-Z.shiftr_div_pow2 by lia. apply Z.ldiff_ones_r. lia.
Qed.

Lemma length_tag t : zlen (tag_bytes t) = stride (tag_size t).
Proof.
  pose proof (stride_bounds (tag_size t) ltac:(unfold tag_size, zlen; lia)) as Hs. unfold tag_bytes, tag_size in *. unfold zlen in *.
  rewrite !length_app, !length_le_bytes, length_replicate. lia.
Qed.

Lemma length_tags t ts : zlen (tags_bytes (t :: ts)) = zlen (tag_bytes t) + zlen (tags_bytes ts).
Proof. unfold tags_bytes, zlen. cbn [fmap list_fmap concat]. rewrite length_app. lia. Qed.

Lemma length_info ts : zlen (info_bytes ts) = 16 + zlen (tags_bytes ts).
Proof. unfold info_bytes, zlen. rewrite !length_app, !length_le_bytes. simpl. lia. Qed.

(** The head of a tag in the middle of the information. *)
Lemma load_head t (a c : list Z) : tag_ok t → tag_size t < 2 ^ 32 → 
  load_le 4 (a ++ tag_bytes t ++ c) (zlen a) = Ok (t_type t) ∧ load_le 4 (a ++ tag_bytes t ++ c) (zlen a + 4) = Ok (tag_size t).
Proof.
  intros Ht Hs. unfold tag_ok, tag_size, tag_bytes in *. rewrite <-!app_assoc. split; [apply load_le_bytes; [done|lia]|].
  rewrite (app_assoc a). apply load_le_bytes; [unfold zlen; rewrite length_app, length_le_bytes; lia|unfold zlen in *; lia].
Qed.

(** The loop, from the tags still to come. *)
Lemma find_loop wanted ts : Forall tag_ok ts → 0 < wanted → ∀ (a : list Z) occ fuel total,
  total = zlen a + zlen (tags_bytes ts) + 8 → total < 2 ^ 32 - 8 → 0 ≤ occ < 2 ^ 64 → (length ts < fuel)%nat →
  loop fuel (tag_step (a ++ tags_bytes ts ++ end_bytes) total wanted) (zlen a, occ) =
    Ok (fst <$> filter (λ x, t_type x.2 = wanted) (placed (zlen a) ts) !! Z.to_nat occ).
Proof.
  intros Hts Hw. induction Hts as [|t ts Ht _ IH]; intros a occ fuel total -> Hmax Hocc Hfuel; (destruct fuel as [|fuel]; [simpl in Hfuel; lia|]);
    cbn [loop placed tag_step].
  - assert (zlen (tags_bytes []) = 0) as -> by done. destruct (Z.leb_spec (zlen a + 8) (zlen a + 0 + 8)); [|lia].
    unfold tags_bytes, end_bytes. cbn [fmap list_fmap concat app]. rewrite (load_le_bytes 4 a _ (zlen a) 0), bind_ok by done.
    rewrite (app_assoc a), <-(app_nil_r (le_bytes 4 8)), load_le_bytes, bind_ok; [done|unfold zlen; rewrite length_app, length_le_bytes; lia|done].
  - rewrite length_tags in *. assert (0 ≤ zlen (tags_bytes ts)) by (unfold zlen; lia).
    pose proof (stride_bounds (tag_size t) ltac:(unfold tag_size, zlen; lia)) as Hst. assert (8 ≤ tag_size t) as H8 by (unfold tag_size, zlen; lia).
    rewrite (length_tag t) in *. assert (0 ≤ zlen a) by (unfold zlen; lia). destruct (Z.leb_spec (zlen a + 8) (zlen a + (stride (tag_size t) + zlen (tags_bytes ts)) + 8)); [|lia].
    assert (tags_bytes (t :: ts) ++ end_bytes = tag_bytes t ++ tags_bytes ts ++ end_bytes) as -> by (unfold tags_bytes; cbn [fmap list_fmap concat]; by rewrite <-app_assoc).
    destruct (load_head t a (tags_bytes ts ++ end_bytes) Ht ltac:(lia)) as [-> ->]. rewrite !bind_ok. unfold tag_ok in Ht.
    rewrite (proj2 (Z.eqb_neq (t_type t) MULTIBOOT2_TAG_END)), (proj2 (Z.ltb_ge (tag_size t) 8)), (tag_stride_ok (tag_size t)) by (unfold MULTIBOOT2_TAG_END; lia).
    cbn [orb]. replace (zlen a + stride (tag_size t)) with (zlen (a ++ tag_bytes t)) by (pose proof (length_tag t); unfold zlen in *; rewrite length_app; lia).
    assert (∀ o, 0 ≤ o < 2 ^ 64 → loop fuel (tag_step (a ++ tag_bytes t ++ tags_bytes ts ++ end_bytes)
      (zlen a + (stride (tag_size t) + zlen (tags_bytes ts)) + 8) wanted) (zlen (a ++ tag_bytes t), o) =
      Ok (fst <$> filter (λ x, t_type x.2 = wanted) (placed (zlen (a ++ tag_bytes t)) ts) !! Z.to_nat o)) as IH'.
    { intros o Ho. rewrite (app_assoc a). apply IH; [|lia|done|simpl in Hfuel; lia]. pose proof (length_tag t). unfold zlen in *. rewrite length_app. lia. }
    destruct (Z.eqb_spec (t_type t) wanted) as [E|E].
    + rewrite filter_cons_True by done. destruct (Z.eqb_spec occ 0) as [->|Hne]; [done|]. rewrite bind_ok, u64_small, IH' by lia.
      replace (Z.to_nat occ) with (S (Z.to_nat (occ - 1))) by lia. done.
    + rewrite filter_cons_False by done. by rewrite bind_ok, IH'.
Qed.

Lemma find_tag_ok ts wanted occ : Forall tag_ok ts → 0 < wanted → 0 ≤ occ < 2 ^ 64 → zlen (info_bytes ts) < 2 ^ 32 - 8 →
  find_tag (loaded ts) wanted occ = Ok (fst <$> tags_of wanted ts !! Z.to_nat occ).
Proof.
  intros Hts Hw Ho Hl. rewrite length_info in Hl. assert (0 ≤ zlen (tags_bytes ts)) by (unfold zlen; lia). unfold find_tag. cbn [loaded multiboot2_boot_info].
  change (multiboot2_available (loaded ts)) with true. cbn [negb]. unfold info_bytes.
  assert (∀ r, load_le 4 (le_bytes 4 (16 + zlen (tags_bytes ts)) ++ r) 0 = Ok (16 + zlen (tags_bytes ts))) as ->
    by (intros r; apply (load_le_bytes 4 [] r); [done|lia]). rewrite bind_ok.
  destruct (Z.ltb_spec (16 + zlen (tags_bytes ts)) 16); [lia|]. rewrite (app_assoc (le_bytes 4 _)). set (a := le_bytes 4 _ ++ le_bytes 4 0).
  assert (zlen a = 8) as Ha by (unfold a, zlen; by rewrite length_app, !length_le_bytes). unfold tags_of. rewrite <-Ha.
  apply find_loop; try done; [lia|]. assert (length ts ≤ length (tags_bytes ts))%nat.
  - clear. induction ts as [|t ts IH]; [cbn; lia|]. pose proof (length_tags t ts). pose proof (length_tag t).
    pose proof (stride_bounds (tag_size t) ltac:(unfold tag_size, zlen; lia)). assert (8 ≤ tag_size t) by (unfold tag_size, zlen; lia). unfold zlen in *. cbn [length]. lia.
  - rewrite !length_app. lia.
Qed.

(** A tag found by offset, with what is before and behind it. *)
Lemma placed_elem ts : ∀ a x, x ∈ placed (zlen a) ts → ∃ b c, a ++ tags_bytes ts ++ end_bytes = b ++ tag_bytes x.2 ++ c ∧ x.1 = zlen b.
Proof.
  induction ts as [|t ts IH]; intros a x Hx; cbn [placed] in Hx; [by apply not_elem_of_nil in Hx|].
  assert (tags_bytes (t :: ts) ++ end_bytes = tag_bytes t ++ tags_bytes ts ++ end_bytes) as -> by (unfold tags_bytes; cbn [fmap list_fmap concat]; by rewrite <-app_assoc).
  apply elem_of_cons in Hx as [->|Hx]; [by exists a, (tags_bytes ts ++ end_bytes)|].
  replace (zlen a + zlen (tag_bytes t)) with (zlen (a ++ tag_bytes t)) in Hx by (unfold zlen; rewrite length_app; lia).
  destruct (IH _ _ Hx) as (b & c & E & Hb). exists b, c. by rewrite (app_assoc a).
Qed.

Lemma tags_of_elem ty ts x : x ∈ tags_of ty ts → ∃ b c, info_bytes ts = b ++ tag_bytes x.2 ++ c ∧ x.1 = zlen b.
Proof.
  intros Hx. apply list_elem_of_filter in Hx as [_ Hx]. unfold info_bytes. rewrite (app_assoc (le_bytes 4 _)). apply placed_elem.
  unfold zlen at 1. by rewrite length_app, !length_le_bytes.
Qed.

(** An entry of the memory map, with the bytes behind the type that make up its size. *)
Record map_entry := { m_address : Z; m_length : Z; m_type : Z; m_more : list Z }.

Definition entry_bytes (e : map_entry) : list Z := le_bytes 8 (m_address e) ++ le_bytes 8 (m_length e) ++ le_bytes 4 (m_type e) ++ m_more e.

Definition map_payload (entry_size version : Z) (es : list map_entry) : list Z :=
  le_bytes 4 entry_size ++ le_bytes 4 version ++ concat (entry_bytes <$> es).

Definition map_entry_ok (entry_size : Z) (e : map_entry) : Prop :=
  0 ≤ m_address e ∧ 0 ≤ m_length e ∧ m_address e + m_length e ≤ 2 ^ 64 - 4096 ∧ 0 ≤ m_type e < 2 ^ 32 ∧ zlen (m_more e) = entry_size - 20.

(** The regions the entries describe: the non-empty ones. *)
Definition map_regions (es : list map_entry) : list mmap_region_t :=
  omap (λ e, if m_length e =? 0 then None
             else Some {| base := m_address e; length_ := m_length e;
                          type := if m_type e =? 1 then MMAP_REGION_USABLE else MMAP_REGION_RESERVED |}) es.

Lemma add_region_ok m a l t : mmap_inv m → 0 ≤ a → 0 ≤ l → a + l ≤ 2 ^ 64 - 4096 →
  mmap_add_region m a l t ⇓ λ '(_, m'), mmap_inv m' ∧
    recorded m' = take (Z.to_nat MMAP_MAX_REGIONS) (recorded m ++ if l =? 0 then [] else [{| base := a; length_ := l; type := t |}]).
Proof.
  intros Hi Ha Hl Hal. pose proof (length_recorded m Hi) as Hlen. pose proof Hi as (Hz & Hc & _). unfold mmap_add_region, MMAP_MAX_REGIONS in *.
  destruct (Z.eqb_spec l 0) as [->|Hl0]; [apply wp_ok; split; [done|]; rewrite app_nil_r, take_ge by lia; done|]. cbn [orb].
  destruct (Z.leb_spec 128 (region_count m)) as [Hfull|Hroom].
  { apply wp_ok. split; [done|]. rewrite take_app_le, take_ge by lia. done. }
  apply wp_bind, wp_zset; [lia|]. apply wp_ok. rewrite u64_small by lia.
  destruct (recorded_add m {| base := a; length_ := l; type := t |} _ Hi ltac:(unfold MMAP_MAX_REGIONS; lia) eq_refl) as [Hi' Hr].
  { split_and!; simpl; lia. }
  split; [exact Hi'|]. rewrite Hr, take_ge; [done|]. rewrite length_app. simpl. lia.
Qed.

Lemma take_take_app {A} (x y : list A) n : take n (take n x ++ y) = take n (x ++ y).
Proof.
  destruct (decide (n ≤ length x)%nat).
  - rewrite (take_app_le x) by done. rewrite take_app_le by (rewrite length_take; lia). rewrite take_take. f_equal. lia.
  - by rewrite (take_ge x) by lia.
Qed.

Lemma entry_loop es entry_size : Forall (map_entry_ok entry_size) es → 24 ≤ entry_size → ∀ (a c : list Z) m fuel end_,
  mmap_inv m → end_ = zlen a + zlen (concat (entry_bytes <$> es)) → (length es < fuel)%nat →
  loop fuel (entry_step (a ++ concat (entry_bytes <$> es) ++ c) entry_size end_) (zlen a, m) ⇓ λ m', mmap_inv m' ∧
    recorded m' = take (Z.to_nat MMAP_MAX_REGIONS) (recorded m ++ map_regions es).
Proof.
  intros Hes Hsz. induction Hes as [|e es He _ IH]; intros a c m fuel end_ Hi -> Hfuel; (destruct fuel as [|fuel]; [simpl in Hfuel; lia|]); cbn [loop].
  - unfold entry_step. cbn [fmap list_fmap concat app]. destruct (Z.leb_spec (zlen a + entry_size) (zlen a + zlen (@nil Z))); [unfold zlen in *; simpl in *; lia|].
    apply wp_bind, wp_ok, wp_ok. split; [done|]. rewrite app_nil_r, take_ge; [done|]. rewrite length_recorded by done.
    destruct Hi as (_ & Hc & _). lia.
  - destruct He as (Ha & Hl & Hal & Ht & Hm). cbn [fmap list_fmap concat]. set (R := concat _). assert (zlen (entry_bytes e) = entry_size) as Hel.
    { unfold entry_bytes, zlen in *. rewrite !length_app, !length_le_bytes. lia. }
    assert (zlen (entry_bytes e ++ R) = entry_size + zlen R) as -> by (unfold zlen in *; rewrite length_app; lia).
    assert (0 ≤ zlen R) by (unfold zlen; lia). cbn [entry_step]. destruct (Z.leb_spec (zlen a + entry_size) (zlen a + (entry_size + zlen R))); [|lia].
    rewrite <-(app_assoc (entry_bytes e)). set (I := a ++ entry_bytes e ++ R ++ c).
    assert (load_le 4 I (zlen a + 16) = Ok (m_type e) ∧ load_le 8 I (zlen a) = Ok (m_address e) ∧ load_le 8 I (zlen a + 8) = Ok (m_length e)) as (-> & -> & ->).
    { unfold I, entry_bytes. rewrite <-!app_assoc. split_and!.
      - rewrite (app_assoc a), (app_assoc (a ++ _)). apply load_le_bytes; [unfold zlen; rewrite !length_app, !length_le_bytes; lia|lia].
      - apply load_le_bytes; [done|lia].
      - rewrite (app_assoc a). apply load_le_bytes; [unfold zlen; rewrite !length_app, !length_le_bytes; lia|lia]. }
    rewrite !bind_ok. apply wp_bind. eapply wp_bind, wp_mono; [by apply add_region_ok|]. intros [ok m'] [Hi' Hr]. apply wp_ok.
    replace (zlen a + entry_size) with (zlen (a ++ entry_bytes e)) by (unfold zlen in *; rewrite length_app; lia). unfold I. rewrite (app_assoc a).
    eapply wp_mono; [apply (IH (a ++ entry_bytes e) c m' fuel); [done| |simpl in Hfuel; lia]|].
    + fold R. unfold zlen in *. rewrite length_app. lia.
    + intros m2 [Hi2 Hr2]. split; [done|]. rewrite Hr2, Hr, take_take_app, <-app_assoc. do 2 f_equal. cbn [map_regions omap list_omap].
      by destruct (m_length e =? 0).
Qed.

(** From boot information built of tags in any order, multiboot2_init_memory_map records exactly
    the non-empty entries of the first memory-map tag, in order, with their types, up to the
    limit of 128, for every entry size of at least 24. *)
Theorem multiboot2_memory_map_correct ts off t rest entry_size version es :
  Forall tag_ok ts → zlen (info_bytes ts) < 2 ^ 32 - 8 → tags_of MULTIBOOT2_TAG_MEMORY_MAP ts = (off, t) :: rest →
  t_payload t = map_payload entry_size version es → 24 ≤ entry_size < 2 ^ 32 → 0 ≤ version < 2 ^ 32 → Forall (map_entry_ok entry_size) es →
  multiboot2_init_memory_map (loaded ts) ⇓ λ m, mmap_inv m ∧ recorded m = take (Z.to_nat MMAP_MAX_REGIONS) (map_regions es).
Proof.
  intros Hts Hl Hf Hp Hsz Hv Hes. unfold multiboot2_init_memory_map. rewrite find_tag_ok, Hf, bind_ok by done.
  change (((off, t) :: rest) !! Z.to_nat 0) with (Some (off, t)). cbn [fmap option_fmap option_map fst].
  change (info_of (loaded ts)) with (info_bytes ts). destruct (tags_of_elem MULTIBOOT2_TAG_MEMORY_MAP ts (off, t)) as (b & c & E & Hb); [rewrite Hf; by left|].
  cbn [fst snd] in E, Hb. subst off. rewrite E in Hl |- *. assert (tag_ok t) as Ht.
  { assert (t_type t = MULTIBOOT2_TAG_MEMORY_MAP) as Ht; [|unfold tag_ok; by rewrite Ht].
    assert ((zlen b, t) ∈ tags_of MULTIBOOT2_TAG_MEMORY_MAP ts) as Hx by (rewrite Hf; by left). by apply list_elem_of_filter in Hx as [? _]. }
  assert (tag_size t < 2 ^ 32) as Hts32.
  { pose proof (length_tag t) as Hlt. pose proof (stride_bounds (tag_size t) ltac:(unfold tag_size, zlen; lia)). unfold zlen in *. rewrite !length_app in Hl. lia. }
  destruct (load_head t b c Ht Hts32) as [_ Hsize]. assert (tag_size t = 16 + zlen (concat (entry_bytes <$> es))) as Hsz'.
  { unfold tag_size. rewrite Hp. unfold map_payload, zlen. rewrite !length_app, !length_le_bytes. lia. }
  assert (∃ c', b ++ tag_bytes t ++ c = (b ++ le_bytes 4 (t_type t) ++ le_bytes 4 (tag_size t) ++ le_bytes 4 entry_size ++ le_bytes 4 version) ++
    concat (entry_bytes <$> es) ++ c') as (c' & E').
  { unfold tag_bytes. rewrite Hp. unfold map_payload. eexists. rewrite <-!app_assoc. reflexivity. }
  assert (load_le 4 (b ++ tag_bytes t ++ c) (zlen b + 8) = Ok entry_size) as ->.
  { rewrite E', <-!app_assoc. rewrite (app_assoc b), (app_assoc (b ++ _)). apply load_le_bytes; [unfold zlen; rewrite !length_app, !length_le_bytes; lia|lia]. }
  rewrite bind_ok. destruct (Z.ltb_spec entry_size 24); [lia|]. rewrite Hsize, bind_ok, E'. set (a := b ++ _).
  assert (zlen a = zlen b + 16) as Ha by (unfold a, zlen; rewrite !length_app, !length_le_bytes; lia). rewrite <-Ha.
  apply (entry_loop es entry_size Hes ltac:(lia) a c' mmap_reset); [apply mmap_reset_inv|lia|].
  assert (length es ≤ length (concat (entry_bytes <$> es)))%nat; [|rewrite !length_app; lia].
  clear -Hes Hsz. induction Hes as [|e es (_ & _ & _ & _ & Hm) _ IH]; [simpl; lia|]. cbn [fmap list_fmap concat length]. rewrite length_app.
  fold (entry_bytes <$> es). unfold entry_bytes at 1. rewrite !length_app, !length_le_bytes. lia.
Qed.

(** The module with index [k] is the one of the k-th module tag: its start and length. *)
Theorem multiboot2_module_correct ts k off t start end_ more :
  Forall tag_ok ts → zlen (info_bytes ts) < 2 ^ 32 - 8 → 0 ≤ k < 2 ^ 64 → tags_of MULTIBOOT2_TAG_MODULE ts !! Z.to_nat k = Some (off, t) →
  t_payload t = le_bytes 4 start ++ le_bytes 4 end_ ++ more → 0 ≤ start ≤ end_ → end_ < 2 ^ 32 →
  multiboot2_module (loaded ts) k = Ok (Some (start, end_ - start)).
Proof.
  intros Hts Hl Hk Hf Hp Hse He. unfold multiboot2_module. rewrite find_tag_ok, Hf, bind_ok by done. cbn [fmap option_fmap option_map fst].
  change (info_of (loaded ts)) with (info_bytes ts).
  destruct (tags_of_elem MULTIBOOT2_TAG_MODULE ts (off, t)) as (b & c & E & Hb); [by eapply list_elem_of_lookup_2|].
  cbn [fst snd] in E, Hb. subst off. rewrite E. unfold tag_bytes. rewrite Hp, <-!app_assoc. rewrite (app_assoc b), (app_assoc (b ++ _)).
  rewrite (load_le_bytes 4 _ _ (zlen b + 8) start) by (unfold zlen; rewrite ?length_app, ?length_le_bytes; lia).
  rewrite (app_assoc ((b ++ _) ++ _)). rewrite (load_le_bytes 4 _ _ (zlen b + 12) end_) by (unfold zlen; rewrite ?length_app, ?length_le_bytes; lia).
  rewrite !bind_ok. destruct (Z.ltb_spec end_ start); [lia|]. by rewrite u32_small by lia.
Qed.

(** Two memory regions, of which one is empty, behind a module tag. *)
Definition sample_tags : list tag :=
  [{| t_type := 3; t_payload := le_bytes 4 4096 ++ le_bytes 4 8192 ++ [109; 0] |};
   {| t_type := 6; t_payload := map_payload 24 0
        [{| m_address := 0; m_length := 655360; m_type := 1; m_more := [0; 0; 0; 0] |};
         {| m_address := 655360; m_length := 0; m_type := 2; m_more := [0; 0; 0; 0] |};
         {| m_address := 1048576; m_length := 2 ^ 30; m_type := 2; m_more := [0; 0; 0; 0] |}] |}].

Lemma multiboot2_memory_map_correct_witness :
  multiboot2_init_memory_map (loaded sample_tags) ⇓ λ m, mmap_inv m ∧
    recorded m = [{| base := 0; length_ := 655360; type := MMAP_REGION_USABLE |}; {| base := 1048576; length_ := 2 ^ 30; type := MMAP_REGION_RESERVED |}].
Proof.
  eapply wp_mono; [eapply multiboot2_memory_map_correct with (entry_size := 24) (version := 0); [|by vm_compute|reflexivity|reflexivity|lia|lia|]|].
  - by repeat constructor.
  - by repeat constructor.
  - intros m [Hi ->]. split; [exact Hi|reflexivity].
Defined.

End Multiboot2.
