(* ===== verification/SysTable.v ===== *)
(** The system call table (kernel/arch/x86_64/syscall.c, kernel/proc/syscall_table.c): which
    handler a number reaches. *)
From S2P Require Import Prelude.

Module SysTable.

Definition MAX_SYSCALLS : Z := 256.
Definition ENOSYS_VALUE : Z := 38.
Definition MSR_EFER : Z := 0xc0000080.
Definition MSR_STAR : Z := 0xc0000081.
Definition MSR_LSTAR : Z := 0xc0000082.
Definition MSR_SFMASK : Z := 0xc0000084.
Definition GDT_KERNEL_CODE : Z := 0x08.
Definition GDT_USER_CODE : Z := 0x20.

(** The functions of syscall_handlers.c, and [sys_ni]. *)
Inductive handler :=
  | sys_ni | sys_read | sys_write | sys_open | sys_close | sys_stat | sys_fstat | sys_seek | sys_brk | sys_exit | sys_wait | sys_waitpid
  | sys_getpid | sys_getppid | sys_getuid | sys_getgid | sys_dup | sys_dup2 | sys_pipe | sys_mkdir | sys_unlink | sys_chdir | sys_getcwd
  | sys_opendir | sys_readdir | sys_truncate | sys_ftruncate | sys_nanosleep | sys_time | sys_clock_gettime | sys_kill | sys_socket
  | sys_connect | sys_shmget | sys_shmat | sys_shmdt | sys_uname | sys_sync | sys_yield.

#[global] Instance handler_eq_dec : EqDecision handler.
Proof. solve_decision. Defined.

(** The enumerators of syscall_table.h that have a handler. *)
Definition SYS_READ : Z := 0.
Definition SYS_WRITE : Z := 1.
Definition SYS_OPEN : Z := 2.
Definition SYS_CLOSE : Z := 3.
Definition SYS_STAT : Z := 4.
Definition SYS_FSTAT : Z := 5.
Definition SYS_LSTAT : Z := 6.
Definition SYS_SEEK : Z := 7.
Definition SYS_BRK : Z := 10.
Definition SYS_FORK : Z := 11.
Definition SYS_EXECVE : Z := 12.
Definition SYS_EXIT : Z := 13.
Definition SYS_WAIT : Z := 14.
Definition SYS_WAITPID : Z := 15.
Definition SYS_GETPID : Z := 16.
Definition SYS_GETPPID : Z := 17.
Definition SYS_GETUID : Z := 18.
Definition SYS_GETGID : Z := 19.
Definition SYS_DUP : Z := 20.
Definition SYS_DUP2 : Z := 21.
Definition SYS_PIPE : Z := 22.
Definition SYS_MKDIR : Z := 25.
Definition SYS_RMDIR : Z := 26.
Definition SYS_UNLINK : Z := 27.
Definition SYS_CHDIR : Z := 29.
Definition SYS_GETCWD : Z := 30.
Definition SYS_OPENDIR : Z := 31.
Definition SYS_READDIR : Z := 32.
Definition SYS_CLOSEDIR : Z := 33.
Definition SYS_TRUNCATE : Z := 40.
Definition SYS_FTRUNCATE : Z := 41.
Definition SYS_NANOSLEEP : Z := 42.
Definition SYS_TIME : Z := 43.
Definition SYS_CLOCK_GETTIME : Z := 44.
Definition SYS_KILL : Z := 45.
Definition SYS_SOCKET : Z := 49.
Definition SYS_CONNECT : Z := 51.
Definition SYS_SHMGET : Z := 63.
Definition SYS_SHMAT : Z := 64.
Definition SYS_SHMDT : Z := 65.
Definition SYS_UNAME : Z := 74.
Definition SYS_SYNC : Z := 76.
Definition SYS_YIELD : Z := 77.

Section SysTable.
(** The model-specific registers, and a call through a handler's address with its six
    arguments, over the state [S] of the kernel. *)
Context {W : Type} (rdmsr : W → Z → Z) (wrmsr : W → Z → Z → W).
Context {S : Type} (call : handler → S → list Z → outcome (Z * S)).

Definition syscall_register (t : list handler) (number : Z) (h : option handler) : outcome (list handler) :=
  if MAX_SYSCALLS <=? number then Ok t else zset t number (default sys_ni h).

(** [entry] is the address of [syscall_entry]. *)
Definition syscall_init (t : list handler) (w : W) (entry : Z) : outcome (list handler * W) :=
  t ← for_each 0 MAX_SYSCALLS (λ i t, zset t i sys_ni) t;
  let efer := rdmsr w MSR_EFER in
  let w := wrmsr w MSR_EFER (Z.lor efer 1) in
  let w := wrmsr w MSR_LSTAR entry in
  let w := wrmsr w MSR_STAR (Z.lor (u64 (Z.shiftl (GDT_USER_CODE - 16) 48)) (u64 (Z.shiftl GDT_KERNEL_CODE 32))) in
  let w := wrmsr w MSR_SFMASK 0x200 in
  Ok (t, w).

Definition syscall_dispatch (t : list handler) (s : S) (number : Z) (args : list Z) : outcome (Z * S) :=
  if MAX_SYSCALLS <=? number then Ok (u64 (- ENOSYS_VALUE), s)
  else
    h ← zget t number;
    match h with sys_ni => Ok (u64 (- ENOSYS_VALUE), s) | h => call h s args end.

(** The calls of [REGISTER], in order. *)
Definition registrations : list (Z * handler) :=
  [(SYS_READ, sys_read); (SYS_WRITE, sys_write); (SYS_OPEN, sys_open); (SYS_CLOSE, sys_close); (SYS_STAT, sys_stat); (SYS_FSTAT, sys_fstat);
   (SYS_LSTAT, sys_stat); (SYS_SEEK, sys_seek); (SYS_BRK, sys_brk); (SYS_EXIT, sys_exit); (SYS_WAIT, sys_wait); (SYS_WAITPID, sys_waitpid);
   (SYS_GETPID, sys_getpid); (SYS_GETPPID, sys_getppid); (SYS_GETUID, sys_getuid); (SYS_GETGID, sys_getgid); (SYS_DUP, sys_dup);
   (SYS_DUP2, sys_dup2); (SYS_PIPE, sys_pipe); (SYS_MKDIR, sys_mkdir); (SYS_RMDIR, sys_unlink); (SYS_UNLINK, sys_unlink); (SYS_CHDIR, sys_chdir);
   (SYS_GETCWD, sys_getcwd); (SYS_OPENDIR, sys_opendir); (SYS_READDIR, sys_readdir); (SYS_CLOSEDIR, sys_close); (SYS_TRUNCATE, sys_truncate);
   (SYS_FTRUNCATE, sys_ftruncate); (SYS_NANOSLEEP, sys_nanosleep); (SYS_TIME, sys_time); (SYS_CLOCK_GETTIME, sys_clock_gettime);
   (SYS_KILL, sys_kill); (SYS_SOCKET, sys_socket); (SYS_CONNECT, sys_connect); (SYS_SHMGET, sys_shmget); (SYS_SHMAT, sys_shmat);
   (SYS_SHMDT, sys_shmdt); (SYS_UNAME, sys_uname); (SYS_SYNC, sys_sync); (SYS_YIELD, sys_yield)].

Fixpoint register_all (t : list handler) (rs : list (Z * handler)) : outcome (list handler) :=
  match rs with [] => Ok t | (n, h) :: rs => t ← syscall_register t n (Some h); register_all t rs end.

Definition syscall_table_init (t : list handler) (w : W) (entry : Z) : outcome (list handler * W) :=
  '(t, w) ← syscall_init t w entry;
  t ← register_all t registrations;
  Ok (t, w).

(** The handler of a number: the one of its last registration. *)
Definition handler_of (n : Z) : handler := foldl (λ h '(m, h'), if decide (m = n) then h' else h) sys_ni registrations.

Lemma register_all_ok rs : ∀ t, zlen t = MAX_SYSCALLS → Forall (λ x, 0 ≤ x.1 < MAX_SYSCALLS) rs →
  register_all t rs ⇓ λ t', zlen t' = MAX_SYSCALLS ∧
    ∀ n h, 0 ≤ n < MAX_SYSCALLS → t !! Z.to_nat n = Some h → t' !! Z.to_nat n = Some (foldl (λ h '(m, h'), if decide (m = n) then h' else h) h rs).
Proof.
  induction rs as [|[m h'] rs IH]; intros t Hl Hrs; cbn [register_all]; [by apply wp_ok|]. apply Forall_cons in Hrs as [Hm Hrs]. simpl in Hm.
  unfold syscall_register. destruct (Z.leb_spec MAX_SYSCALLS m); [lia|]. apply wp_bind, wp_zset; [lia|].
  eapply wp_mono; [apply IH; [by rewrite zlen_insert|done]|]. intros t' [Hl' Ht']. split; [done|]. intros n h Hn Hh. cbn [foldl].
  apply Ht'; [done|]. destruct (decide (m = n)) as [->|Hne]; [apply list_lookup_insert_eq; unfold zlen in *; lia|].
  rewrite list_lookup_insert_ne; [done|lia].
Qed.

Lemma syscall_init_ok t w entry : zlen t = MAX_SYSCALLS →
  syscall_init t w entry ⇓ λ '(t', _), zlen t' = MAX_SYSCALLS ∧ ∀ n, 0 ≤ n < MAX_SYSCALLS → t' !! Z.to_nat n = Some sys_ni.
Proof.
  intros Hl. unfold syscall_init. apply wp_bind.
  apply (wp_for_each (λ i t', zlen t' = MAX_SYSCALLS ∧ ∀ n, 0 ≤ n < i → t' !! Z.to_nat n = Some sys_ni)); [done|split; [done|lia]| |].
  - intros i t' Hi [Hl' Ht']. apply wp_zset; [lia|]. split; [by rewrite zlen_insert|]. intros n Hn. destruct (decide (n = i)) as [->|Hne].
    + apply list_lookup_insert_eq. unfold zlen in *. lia.
    + rewrite list_lookup_insert_ne by lia. apply Ht'. lia.
  - intros t' Ht'. by apply wp_ok.
Qed.

(** After the boot code set the table up, a call of number [n] runs the handler registered
    for [n] on the arguments; a number without a handler, such as that of fork or execve,
    and any number out of range give -ENOSYS and change nothing. *)
Theorem syscall_dispatch_correct t w entry n s args : zlen t = MAX_SYSCALLS → 0 ≤ n < 2 ^ 64 →
  ('(t, _) ← syscall_table_init t w entry; syscall_dispatch t s n args) =
    match handler_of n with sys_ni => Ok (2 ^ 64 - 38, s) | h => call h s args end.
Proof.
  intros Hl Hn. unfold syscall_table_init. destruct (syscall_init_ok t w entry Hl) as ([t1 w1] & -> & Hl1 & Ht1). rewrite bind_ok.
  destruct (register_all_ok registrations t1 Hl1) as (t2 & -> & Hl2 & Ht2); [by repeat constructor|]. rewrite !bind_ok.
  unfold syscall_dispatch. change (u64 (- ENOSYS_VALUE)) with (2 ^ 64 - 38). destruct (Z.leb_spec MAX_SYSCALLS n) as [Hbig|Hlt].
  - assert (handler_of n = sys_ni) as ->; [|done]. unfold handler_of. unfold MAX_SYSCALLS in Hbig.
    assert (Forall (λ x, x.1 < 256) registrations) as Hr by (by repeat constructor). revert Hr. generalize sys_ni registrations.
    intros h rs. induction rs as [|[m h'] rs IH] in h |- *; [done|]. intros [Hm Hr]%Forall_cons. cbn [foldl]. simpl in Hm.
    rewrite decide_False by lia. by apply IH.
  - rewrite (zget_ok t2 n (handler_of n)), bind_ok; [by destruct (handler_of n)|lia|]. apply Ht2; [lia|]. apply Ht1. lia.
Qed.

End SysTable.

(** fork and execve have numbers but no handlers. *)
Lemma fork_and_execve_missing : handler_of SYS_FORK = sys_ni ∧ handler_of SYS_EXECVE = sys_ni.
Proof. by vm_compute. Qed.

End SysTable.
