(* ===== verification/CLib.v ===== *)
(** What the user-space programs take from the C language and its library:
    [int] arithmetic, [memmove], [memcpy] and [strlen] on arrays of bytes, and
    an allocator that may refuse any request and hands out memory with
    arbitrary contents. *)
From stdpp Require Import base list.
From S2P Require Import Prelude.
From S2P Require Import KString.
Import KString.

(** * [int]: a result outside of the type is undefined *)
Definition int (x : Z) : outcome Z :=
  if decide (-2147483648 ≤ x < 2147483648) then Ok x else Undef.

Lemma int_ok x : -2147483648 ≤ x < 2147483648 → int x = Ok x.
Proof. intros. unfold int. by rewrite decide_True. Qed.

Lemma wp_int x (Q : Z → Prop) : -2147483648 ≤ x < 2147483648 → Q x → int x ⇓ Q.
Proof. intros. exists x. by rewrite int_ok. Qed.

(** * Bytes *)

(** [memmove(mem + dst, mem + src, n)]: both ranges lie in the object [mem]. *)
Definition c_memmove (mem : list Z) (dst src n : Z) : outcome (list Z) :=
  if decide (0 ≤ n ∧ 0 ≤ dst ∧ 0 ≤ src ∧ dst + n ≤ zlen mem ∧ src + n ≤ zlen mem)
  then Ok (splice mem dst (slice mem src n)) else Undef.

(** [memcpy(mem + dst, from, n)] between two objects. *)
Definition c_memcpy (mem : list Z) (dst : Z) (from : list Z) (n : Z) : outcome (list Z) :=
  if decide (0 ≤ n ∧ 0 ≤ dst ∧ dst + n ≤ zlen mem ∧ n ≤ zlen from)
  then Ok (splice mem dst (take (Z.to_nat n) from)) else Undef.

(** [strlen]: the index of the first zero byte of the object. *)
Fixpoint c_strlen (s : list Z) : outcome Z :=
  match s with
  | [] => Undef
  | c :: s' => if c =? 0 then Ok 0 else n ← c_strlen s'; Ok (n + 1)
  end.

Lemma c_memmove_ok mem dst src n :
  0 ≤ n → 0 ≤ dst → 0 ≤ src → dst + n ≤ zlen mem → src + n ≤ zlen mem →
  c_memmove mem dst src n = Ok (splice mem dst (slice mem src n)).
Proof. intros. unfold c_memmove. by rewrite decide_True. Qed.

Lemma c_memcpy_ok mem dst from n :
  0 ≤ n → 0 ≤ dst → dst + n ≤ zlen mem → n ≤ zlen from →
  c_memcpy mem dst from n = Ok (splice mem dst (take (Z.to_nat n) from)).
Proof. intros. unfold c_memcpy. by rewrite decide_True. Qed.

Lemma zlen_take {A} (l : list A) n : 0 ≤ n → zlen (take (Z.to_nat n) l) = Z.min n (zlen l).
Proof. intros. unfold zlen. rewrite length_take. lia. Qed.
Lemma zlen_drop {A} (l : list A) n : 0 ≤ n → zlen (drop (Z.to_nat n) l) = Z.max 0 (zlen l - n).
Proof. intros. unfold zlen. rewrite length_drop. lia. Qed.
Lemma zlen_nonneg {A} (l : list A) : 0 ≤ zlen l.
Proof. unfold zlen. lia. Qed.
Lemma zlen_slice l off n : 0 ≤ off → 0 ≤ n → off + n ≤ zlen l → zlen (slice l off n) = n.
Proof. intros. unfold slice. rewrite zlen_take, zlen_drop by lia. lia. Qed.
Lemma zlen_splice l off bs : 0 ≤ off → off + zlen bs ≤ zlen l → zlen (splice l off bs) = zlen l.
Proof. intros. unfold zlen at 1. by rewrite length_splice by done. Qed.

Lemma c_strlen_app a b : Forall (λ c, c ≠ 0) a → c_strlen (a ++ 0 :: b) = Ok (zlen a).
Proof.
  induction 1 as [|c a Hc _ IH]; [done|]. simpl.
  rewrite (proj2 (Z.eqb_neq c 0)) by done. rewrite IH. simpl. f_equal. rewrite zlen_cons. lia.
Qed.

(** * The allocator

    The [k]-th request of a program, for [n] bytes, is granted when
    [avail k n]; the memory it returns holds [junk k] where the call does not
    say otherwise. *)
Record allocator := { avail : nat → Z → bool; junk : nat → nat → Z }.

(** [malloc]: [n] elements of unspecified value. *)
Definition fresh (A : allocator) (k : nat) (n : Z) : list Z :=
  map (junk A k) (seq 0 (Z.to_nat n)).

(** [realloc]: the old elements that fit, then unspecified ones. *)
Definition resized (A : allocator) (k : nat) (l : list Z) (n : Z) : list Z :=
  take (Z.to_nat n) l ++ fresh A k (n - zlen l).

Lemma zlen_fresh A k n : zlen (fresh A k n) = Z.max 0 n.
Proof. unfold fresh, zlen. rewrite length_map, length_seq. lia. Qed.

Lemma zlen_resized A k l n : 0 ≤ n → zlen (resized A k l n) = n.
Proof. intros. unfold resized. rewrite zlen_app, zlen_fresh, zlen_take by done. lia. Qed.

Lemma resized_grow A k l n : zlen l ≤ n → resized A k l n = l ++ fresh A k (n - zlen l).
Proof. intros. unfold resized. rewrite take_ge; [done|unfold zlen in *; lia]. Qed.
