(* ===== verification/TextBuffer.v ===== *)
(** The text buffer of the editor (apps/text_editor/buffer.c): the gap buffer
    that holds the text, the stack of undo records, the cache of line starts,
    and the public operations on them.  The first part translates the C; the
    theorems relate it to a text with a history, to the lines of that text and
    to occurrences in it.  The buffer pointer is not NULL throughout. *)
From stdpp Require Import base list.
From S2P Require Import Prelude.
From S2P Require Import KString.
Import KString.
From S2P Require Import CLib.

Module TextBuffer.

Definition GAP_INITIAL : Z := 4096.
Definition GAP_GROW : Z := 4096.
Definition UNDO_CAP : Z := 256.
Definition LINE_CACHE_CAP : Z := 8192.
Definition BUFFER_NPOS : Z := 2 ^ 64 - 1.
Definition NL : Z := 10.

(** * Data

    The fields of [struct Buffer], grouped by the part of the file that works
    on them.  [reqs] counts the requests made to the allocator. *)
Inductive UndoType := UNDO_INSERT | UNDO_DELETE.

Record UndoRecord := mkRec { type : UndoType; rpos : Z; text : option (list Z); rlen : Z }.

(** An element of [undo_stack] is [None] while its memory was never written. *)
Record Undo := mkUndo {
  undo_stack : option (list (option UndoRecord)); undo_top : Z; undo_cap : Z; in_undo : bool }.

Record Gap := mkGap { data : list Z; gap_start : Z; gap_end : Z; alloc : Z }.

Record Lines := mkLines {
  line_offsets : option (list Z); line_count : Z; line_cap : Z; lines_dirty : bool }.

Record Buffer := mkBuffer {
  gap : Gap; cursor : Z; mark : Z; mark_active : bool; modified : bool;
  filename : option (list Z); undo : Undo; lines : Lines; reqs : nat }.

Definition set_gap (g : Gap) (b : Buffer) : Buffer :=
  mkBuffer g (cursor b) (mark b) (mark_active b) (modified b) (filename b) (undo b) (lines b) (reqs b).
Definition set_cursor (x : Z) (b : Buffer) : Buffer :=
  mkBuffer (gap b) x (mark b) (mark_active b) (modified b) (filename b) (undo b) (lines b) (reqs b).
Definition set_mark (x : Z) (a : bool) (b : Buffer) : Buffer :=
  mkBuffer (gap b) (cursor b) x a (modified b) (filename b) (undo b) (lines b) (reqs b).
Definition set_modified (x : bool) (b : Buffer) : Buffer :=
  mkBuffer (gap b) (cursor b) (mark b) (mark_active b) x (filename b) (undo b) (lines b) (reqs b).
Definition set_filename (x : option (list Z)) (b : Buffer) : Buffer :=
  mkBuffer (gap b) (cursor b) (mark b) (mark_active b) (modified b) x (undo b) (lines b) (reqs b).
Definition set_undo (u : Undo) (b : Buffer) : Buffer :=
  mkBuffer (gap b) (cursor b) (mark b) (mark_active b) (modified b) (filename b) u (lines b) (reqs b).
Definition set_lines (l : Lines) (b : Buffer) : Buffer :=
  mkBuffer (gap b) (cursor b) (mark b) (mark_active b) (modified b) (filename b) (undo b) l (reqs b).
Definition set_reqs (k : nat) (b : Buffer) : Buffer :=
  mkBuffer (gap b) (cursor b) (mark b) (mark_active b) (modified b) (filename b) (undo b) (lines b) k.

Section buffer.
Context (A : allocator).

(** One request: whether it is granted, and the buffer that counted it. *)
Definition request (n : Z) (b : Buffer) : bool * Buffer :=
  (avail A (reqs b) n, set_reqs (S (reqs b)) b).

(** * The gap buffer *)
Definition buf_length (g : Gap) : Z := u64 (alloc g - u64 (gap_end g - gap_start g)).

Definition gap_move (g : Gap) (pos : Z) : outcome Gap :=
  if pos =? gap_start g then Ok g
  else if pos <? gap_start g then
    let move := gap_start g - pos in
    d ← c_memmove (data g) (gap_end g - move) pos move;
    Ok (mkGap d (gap_start g - move) (u64 (gap_end g - move)) (alloc g))
  else
    let move := pos - gap_start g in
    d ← c_memmove (data g) (gap_start g) (gap_end g) move;
    Ok (mkGap d (u64 (gap_start g + move)) (u64 (gap_end g + move)) (alloc g)).

Definition gap_ensure (b : Buffer) (needed : Z) : outcome (Z * Buffer) :=
  let g := gap b in
  let gap_size := u64 (gap_end g - gap_start g) in
  if needed <=? gap_size then Ok (0, b)
  else
    let grow := u64 (needed - gap_size + GAP_GROW) in
    let new_alloc := u64 (alloc g + grow) in
    let '(got, b) := request new_alloc b in
    if got then
      let new_data := resized A (Nat.pred (reqs b)) (data g) new_alloc in
      d ← c_memmove new_data (gap_end g + grow) (gap_end g) (u64 (alloc g - gap_end g));
      Ok (0, set_gap (mkGap d (gap_start g) (u64 (gap_end g + grow)) new_alloc) b)
    else Ok (-1, b).

Definition phys (g : Gap) (pos : Z) : Z :=
  if pos <? gap_start g then pos else u64 (pos + u64 (gap_end g - gap_start g)).

(** * The line cache *)
Definition add_line (x : Z) (b : Buffer) : outcome Buffer :=
  let l := lines b in
  match line_offsets l with
  | None => Undef
  | Some offs =>
      offs ← zset offs (line_count l) x;
      n ← int (line_count l + 1);
      Ok (set_lines (mkLines (Some offs) n (line_cap l) (lines_dirty l)) b)
  end.

(** [realloc] of [line_offsets] to [cap] elements of eight bytes. *)
Definition grow_lines (cap : Z) (b : Buffer) : bool * Buffer :=
  let l := lines b in
  let '(got, b) := request (8 * cap) b in
  if got
  then (true, set_lines (mkLines
          (Some (resized A (Nat.pred (reqs b)) (default [] (line_offsets l)) cap))
          (line_count l) cap (lines_dirty l)) b)
  else (false, b).

Definition lines_rebuild (b : Buffer) : outcome Buffer :=
  let len := buf_length (gap b) in
  let '(ok, b) := if line_cap (lines b) <? LINE_CACHE_CAP then grow_lines LINE_CACHE_CAP b
                  else (true, b) in
  if negb ok then Ok b
  else
    let l := lines b in
    b ← add_line 0 (set_lines (mkLines (line_offsets l) 0 (line_cap l) (lines_dirty l)) b);
    r ← for_loop 0 len (λ i b,
          c ← zget (data (gap b)) (phys (gap b) i);
          if c =? NL then
            if line_cap (lines b) <=? line_count (lines b) then
              new_cap ← int (line_cap (lines b) * 2);
              let '(got, b) := grow_lines new_cap b in
              if got then b ← add_line (i + 1) b; Ok (inl b) else Ok (inr b)
            else b ← add_line (i + 1) b; Ok (inl b)
          else Ok (inl b)) b;
    let b := match r with inl b => b | inr b => b end in
    let l := lines b in
    Ok (set_lines (mkLines (line_offsets l) (line_count l) (line_cap l) false) b).

Definition lines_mark_dirty (b : Buffer) : Buffer :=
  let l := lines b in
  set_lines (mkLines (line_offsets l) (line_count l) (line_cap l) true) b.

Definition lines_ensure (b : Buffer) : outcome Buffer :=
  if lines_dirty (lines b) then lines_rebuild b else Ok b.

(** Reading [line_offsets]: a NULL array is undefined. *)
Definition line_offset (b : Buffer) (i : Z) : outcome Z :=
  match line_offsets (lines b) with Some offs => zget offs i | None => Undef end.

(** * The undo stack *)

(** [free(r->text)] of memory that was never written frees a wild pointer. *)
Definition undo_clear_from (u : Undo) (top : Z) : outcome Undo :=
  match undo_stack u with
  | None => if top <? undo_cap u then Undef else Ok u
  | Some st =>
      st ← for_each top (undo_cap u) (λ i st,
             r ← zget st i;
             match r with
             | None => Undef
             | Some r => zset st i (Some (mkRec (type r) (rpos r) None 0))
             end) st;
      Ok (mkUndo (Some st) (undo_top u) (undo_cap u) (in_undo u))
  end.

Definition blank : UndoRecord := mkRec UNDO_INSERT 0 None 0.

(** The allocation of the stack at its first use. *)
Definition undo_alloc (b : Buffer) : bool * Buffer :=
  let u := undo b in
  match undo_stack u with
  | Some _ => (true, b)
  | None =>
      let '(got, b) := request (32 * UNDO_CAP) b in
      if got
      then (true, set_undo (mkUndo (Some (replicate (Z.to_nat UNDO_CAP) (Some blank)))
                              0 UNDO_CAP (in_undo u)) b)
      else (false, b)
  end.

(** Its growth when it is full: the new half is not written. *)
Definition undo_grow (b : Buffer) : outcome (bool * Buffer) :=
  let u := undo b in
  if undo_top u <? undo_cap u then Ok (true, b)
  else
    new_cap ← int (undo_cap u * 2);
    let '(got, b) := request (32 * new_cap) b in
    if got
    then
      let st := default [] (undo_stack u) in
      Ok (true, set_undo (mkUndo (Some (st ++ replicate (Z.to_nat (new_cap - zlen st)) None))
                            (undo_top u) new_cap (in_undo u)) b)
    else Ok (false, b).

Definition undo_push (b : Buffer) (ty : UndoType) (pos : Z) (txt : list Z) (len : Z)
  : outcome Buffer :=
  if in_undo (undo b) then Ok b
  else
    let '(ok, b) := undo_alloc b in
    if negb ok then Ok b
    else
      u ← undo_clear_from (undo b) (undo_top (undo b));
      '(ok, b) ← undo_grow (set_undo u b);
      if negb ok then Ok b
      else
        let u := undo b in
        let '(got, b) := request (u64 (len + 1)) b in
        let st := default [] (undo_stack u) in
        if got then
          t ← c_memcpy (fresh A (Nat.pred (reqs b)) (u64 (len + 1))) 0 txt len;
          t ← zset t len 0;
          st ← zset st (undo_top u) (Some (mkRec ty pos (Some t) len));
          top ← int (undo_top u + 1);
          Ok (set_undo (mkUndo (Some st) top (undo_cap u) (in_undo u)) b)
        else
          st ← zset st (undo_top u) (Some (mkRec ty pos None len));
          Ok (set_undo (mkUndo (Some st) (undo_top u) (undo_cap u) (in_undo u)) b).

(** * Lifecycle *)

(** [buffer_new] of a program that has made [k] requests. *)
Definition buffer_new (k : nat) : option Buffer :=
  if avail A k 112 then
    if avail A (S k) GAP_INITIAL then
      Some (mkBuffer (mkGap (fresh A (S k) GAP_INITIAL) 0 GAP_INITIAL GAP_INITIAL)
              0 0 false false None (mkUndo None 0 0 false) (mkLines None 0 0 true) (S (S k)))
    else None
  else None.

(** [buffer_free] returns the blocks; it is undefined when it frees a record
    that was never written. *)
Definition buffer_free (b : Buffer) : outcome unit :=
  match undo_stack (undo b) with
  | Some _ => _ ← undo_clear_from (undo b) 0; Ok tt
  | None => Ok tt
  end.

(** * Queries *)
Definition buffer_length (b : Buffer) : Z := buf_length (gap b).

Definition buffer_char_at (b : Buffer) (pos : Z) : outcome Z :=
  if buf_length (gap b) <=? pos then Ok 0 else zget (data (gap b)) (phys (gap b) pos).

Definition buffer_cursor (b : Buffer) : Z := cursor b.
Definition buffer_modified (b : Buffer) : bool := modified b.
Definition buffer_filename (b : Buffer) : option (list Z) := filename b.

Definition buffer_line_count (b : Buffer) : outcome (Z * Buffer) :=
  b ← lines_ensure b; Ok (line_count (lines b), b).

(** [buffer_pos_to_lc]: the line and the column of a position. *)
Definition buffer_pos_to_lc (b : Buffer) (pos : Z) : outcome (Z * Z * Buffer) :=
  b ← lines_ensure b;
  let n := line_count (lines b) in
  found ← loop (S (Z.to_nat n)) (λ '(lo, hi),
    if hi <? lo then Ok (inr 0)
    else
      s ← int (lo + hi);
      let mid := s / 2 in
      x ← line_offset b mid;
      here ← (if x <=? pos then
                if n <=? mid + 1 then Ok true
                else y ← line_offset b (mid + 1); Ok (pos <? y)
              else Ok false);
      if (here : bool) then Ok (inr mid)
      else Ok (inl (if pos <? x then (lo, mid - 1) else (mid + 1, hi)))) (0, n - 1);
  x ← line_offset b found;
  Ok (found, i32 (u64 (pos - x)), b).

(** The clamping of a line number that three functions start with. *)
Definition clamp_line (b : Buffer) (line : Z) : Z :=
  let line := if line <? 0 then 0 else line in
  if line_count (lines b) <=? line then line_count (lines b) - 1 else line.

Definition buffer_lc_to_pos (b : Buffer) (line col : Z) : outcome (Z * Buffer) :=
  b ← lines_ensure b;
  let line := clamp_line b line in
  line_start ← line_offset b line;
  line_end ← (if line + 1 <? line_count (lines b)
              then y ← line_offset b (line + 1); Ok (u64 (y - 1))
              else Ok (buf_length (gap b)));
  let line_len := u64 (line_end - line_start) in
  let col := if line_len <? u64 col then i32 line_len else col in
  Ok (u64 (line_start + col), b).

Definition buffer_line_start (b : Buffer) (line : Z) : outcome (Z * Buffer) :=
  b ← lines_ensure b;
  x ← line_offset b (clamp_line b line); Ok (x, b).

Definition buffer_line_end (b : Buffer) (line : Z) : outcome (Z * Buffer) :=
  b ← lines_ensure b;
  let line := clamp_line b line in
  next ← (if line + 1 <? line_count (lines b) then line_offset b (line + 1)
          else Ok (buf_length (gap b)));
  if 0 <? next then
    c ← buffer_char_at b (next - 1);
    Ok (if c =? NL then next - 1 else next, b)
  else Ok (next, b).

Definition buffer_line_length (b : Buffer) (line : Z) : outcome (Z * Buffer) :=
  '(e, b) ← buffer_line_end b line;
  '(s, b) ← buffer_line_start b line;
  Ok (i32 (u64 (e - s)), b).

(** A fresh string with the [len] characters of the buffer from [start]. *)
Definition copy_out (b : Buffer) (start len : Z) : outcome (option (list Z) * Buffer) :=
  let '(got, b) := request (u64 (len + 1)) b in
  if got then
    out ← for_each 0 len (λ i out, c ← buffer_char_at b (u64 (start + i)); zset out i c)
            (fresh A (Nat.pred (reqs b)) (u64 (len + 1)));
    out ← zset out len 0;
    Ok (Some out, b)
  else Ok (None, b).

Definition buffer_line_text (b : Buffer) (line : Z) : outcome (option (list Z) * Buffer) :=
  '(s, b) ← buffer_line_start b line;
  '(e, b) ← buffer_line_end b line;
  copy_out b s (u64 (e - s)).

(** * Cursor movement *)
Definition buffer_cursor_set (b : Buffer) (pos : Z) : Buffer :=
  let len := buf_length (gap b) in
  set_cursor (if len <? pos then len else pos) b.

Definition buffer_cursor_move (b : Buffer) (delta : Z) : outcome Buffer :=
  let len := buf_length (gap b) in
  if delta <? 0 then
    d ← int (- delta);
    Ok (set_cursor (if d <=? cursor b then cursor b - d else 0) b)
  else
    let c := u64 (cursor b + delta) in
    Ok (set_cursor (if len <? c then len else c) b).

Definition buffer_cursor_line (b : Buffer) (delta : Z) : outcome Buffer :=
  '(line, col, b) ← buffer_pos_to_lc b (cursor b);
  line ← int (line + delta);
  '(c, b) ← buffer_lc_to_pos b line col;
  Ok (set_cursor c b).

Definition buffer_cursor_home (b : Buffer) : outcome Buffer :=
  '(line, _, b) ← buffer_pos_to_lc b (cursor b);
  '(c, b) ← buffer_line_start b line;
  Ok (set_cursor c b).

Definition buffer_cursor_end (b : Buffer) : outcome Buffer :=
  '(line, _, b) ← buffer_pos_to_lc b (cursor b);
  '(c, b) ← buffer_line_end b line;
  Ok (set_cursor c b).

Definition buffer_cursor_word_forward (b : Buffer) : outcome Buffer :=
  let len := buf_length (gap b) in
  let fuel := S (Z.to_nat len) in
  pos ← loop fuel (λ pos,
    if pos <? len then
      c ← buffer_char_at b pos;
      Ok (if c =? 32 then inl (pos + 1) else inr pos)
    else Ok (inr pos)) (cursor b);
  pos ← loop fuel (λ pos,
    if pos <? len then
      c ← buffer_char_at b pos;
      Ok (if negb (c =? 32) && negb (c =? NL) then inl (pos + 1) else inr pos)
    else Ok (inr pos)) pos;
  Ok (set_cursor pos b).

Definition buffer_cursor_word_back (b : Buffer) : outcome Buffer :=
  if cursor b =? 0 then Ok b
  else
    let fuel := S (Z.to_nat (cursor b)) in
    pos ← loop fuel (λ pos,
      if 0 <? pos then
        c ← buffer_char_at b pos;
        Ok (if c =? 32 then inl (pos - 1) else inr pos)
      else Ok (inr pos)) (cursor b - 1);
    pos ← loop fuel (λ pos,
      if 0 <? pos then
        c ← buffer_char_at b (pos - 1);
        Ok (if negb (c =? 32) && negb (c =? NL) then inl (pos - 1) else inr pos)
      else Ok (inr pos)) pos;
    Ok (set_cursor pos b).

(** * Insertion and deletion *)
Definition buffer_insert (b : Buffer) (pos : Z) (txt : option (list Z)) (len : Z)
  : outcome (Z * Buffer) :=
  match txt with
  | None => Ok (-1, b)
  | Some txt =>
      if len =? 0 then Ok (-1, b)
      else
        let pos := if buf_length (gap b) <? pos then buf_length (gap b) else pos in
        '(r, b) ← gap_ensure b len;
        if r <? 0 then Ok (-1, b)
        else
          g ← gap_move (gap b) pos;
          d ← c_memcpy (data g) (gap_start g) txt len;
          let g := mkGap d (u64 (gap_start g + len)) (gap_end g) (alloc g) in
          let b := set_gap g b in
          let b := if pos <=? cursor b then set_cursor (u64 (cursor b + len)) b else b in
          let b := lines_mark_dirty (set_modified true b) in
          b ← undo_push b UNDO_INSERT pos txt len;
          Ok (0, b)
  end.

Definition buffer_insert_char (b : Buffer) (pos c : Z) : outcome (Z * Buffer) :=
  buffer_insert b pos (Some [c]) 1.

Definition buffer_delete (b : Buffer) (pos len : Z) : outcome (Z * Buffer) :=
  if len =? 0 then Ok (-1, b)
  else
    let buf_len := buf_length (gap b) in
    if buf_len <=? pos then Ok (-1, b)
    else
      let len := if buf_len <? u64 (pos + len) then buf_len - pos else len in
      '(deleted, b) ← copy_out b pos len;
      match deleted with
      | None => Ok (-1, b)
      | Some deleted =>
          b ← undo_push b UNDO_DELETE pos deleted len;
          g ← gap_move (gap b) pos;
          let b := set_gap (mkGap (data g) (gap_start g) (u64 (gap_end g + len)) (alloc g)) b in
          let b :=
            if pos <? cursor b then
              if cursor b <=? u64 (pos + len) then set_cursor pos b
              else set_cursor (u64 (cursor b - len)) b
            else b in
          Ok (0, lines_mark_dirty (set_modified true b))
      end.

Definition buffer_delete_range (b : Buffer) (start end_ : Z) : outcome (Z * Buffer) :=
  if end_ <=? start then Ok (-1, b) else buffer_delete b start (end_ - start).

Definition buffer_delete_char_before (b : Buffer) (pos : Z) : outcome (Z * Buffer) :=
  if pos =? 0 then Ok (-1, b) else buffer_delete b (pos - 1) 1.

Definition buffer_delete_char_after (b : Buffer) (pos : Z) : outcome (Z * Buffer) :=
  buffer_delete b pos 1.

Definition buffer_delete_line (b : Buffer) (line : Z) : outcome (Z * Buffer) :=
  b ← lines_ensure b;
  if (line <? 0) || (line_count (lines b) <=? line) then Ok (-1, b)
  else
    '(start, b) ← buffer_line_start b line;
    end_ ← (if line + 1 <? line_count (lines b) then line_offset b (line + 1)
            else Ok (buf_length (gap b)));
    buffer_delete b start (u64 (end_ - start)).

(** * Selection *)
Definition buffer_mark_set (b : Buffer) (pos : Z) : Buffer := set_mark pos true b.
Definition buffer_mark_clear (b : Buffer) : Buffer := set_mark (mark b) false b.
Definition buffer_has_selection (b : Buffer) : bool := mark_active b && negb (mark b =? cursor b).
Definition buffer_selection_range (b : Buffer) : Z * Z :=
  if cursor b <? mark b then (cursor b, mark b) else (mark b, cursor b).

Definition buffer_selection_text (b : Buffer) : outcome (option (list Z) * Buffer) :=
  if negb (buffer_has_selection b) then Ok (None, b)
  else let '(s, e) := buffer_selection_range b in copy_out b s (e - s).

Definition buffer_delete_selection (b : Buffer) : outcome (Z * Buffer) :=
  if negb (buffer_has_selection b) then Ok (-1, b)
  else
    let '(s, e) := buffer_selection_range b in
    buffer_delete (set_cursor s (buffer_mark_clear b)) s (e - s).

(** * Clipboard: the text and its length come back in the out parameters;
    [out_text] and [out_len] say which of the pointers are not NULL. *)
Definition buffer_copy (b : Buffer) (out_text out_len : bool)
  : outcome (Z * option (list Z) * option Z * Buffer) :=
  if negb out_text then Ok (-1, None, None, b)
  else
    '(t, b) ← buffer_selection_text b;
    match t with
    | None => Ok (-1, None, None, b)
    | Some t =>
        if out_len then n ← c_strlen t; Ok (0, Some t, Some n, b)
        else Ok (0, Some t, None, b)
    end.

Definition buffer_cut (b : Buffer) (out_text out_len : bool)
  : outcome (Z * option (list Z) * option Z * Buffer) :=
  '(r, t, n, b) ← buffer_copy b out_text out_len;
  if r <? 0 then Ok (-1, None, None, b)
  else '(_, b) ← buffer_delete_selection b; Ok (0, t, n, b).

Definition buffer_paste (b : Buffer) (txt : option (list Z)) (len : Z) : outcome (Z * Buffer) :=
  match txt with
  | None => Ok (-1, b)
  | Some _ =>
      if len =? 0 then Ok (-1, b)
      else
        b ← (if buffer_has_selection b then '(_, b) ← buffer_delete_selection b; Ok b else Ok b);
        '(r, b) ← buffer_insert b (cursor b) txt len;
        Ok (r, if r =? 0 then set_cursor (u64 (cursor b + len)) b else b)
  end.

(** * Undo and redo *)
Definition set_in_undo (x : bool) (b : Buffer) : Buffer :=
  let u := undo b in set_undo (mkUndo (undo_stack u) (undo_top u) (undo_cap u) x) b.
Definition set_undo_top (x : Z) (b : Buffer) : Buffer :=
  let u := undo b in set_undo (mkUndo (undo_stack u) x (undo_cap u) (in_undo u)) b.

(** Reading a record that was never written is undefined. *)
Definition undo_record (b : Buffer) (i : Z) : outcome UndoRecord :=
  match undo_stack (undo b) with
  | None => Undef
  | Some st => r ← zget st i; match r with Some r => Ok r | None => Undef end
  end.

Definition buffer_undo (b : Buffer) : outcome (Z * Buffer) :=
  if undo_top (undo b) =? 0 then Ok (-1, b)
  else
    r ← undo_record b (undo_top (undo b) - 1);
    let b := set_in_undo true b in
    b ← match type r with
        | UNDO_INSERT =>
            '(_, b) ← buffer_delete b (rpos r) (rlen r);
            Ok (set_cursor (rpos r) b)
        | UNDO_DELETE =>
            '(_, b) ← buffer_insert b (rpos r) (text r) (rlen r);
            Ok (set_cursor (u64 (rpos r + rlen r)) b)
        end;
    let b := set_in_undo false b in
    Ok (0, set_undo_top (undo_top (undo b) - 1) b).

Definition buffer_redo (b : Buffer) : outcome (Z * Buffer) :=
  if undo_cap (undo b) <=? undo_top (undo b) then Ok (-1, b)
  else
    r ← undo_record b (undo_top (undo b));
    match text r with
    | None => Ok (-1, b)
    | Some _ =>
        let b := set_in_undo true b in
        b ← match type r with
            | UNDO_INSERT =>
                '(_, b) ← buffer_insert b (rpos r) (text r) (rlen r);
                Ok (set_cursor (u64 (rpos r + rlen r)) b)
            | UNDO_DELETE =>
                '(_, b) ← buffer_delete b (rpos r) (rlen r);
                Ok (set_cursor (rpos r) b)
            end;
        let b := set_in_undo false b in
        top ← int (undo_top (undo b) + 1);
        Ok (0, set_undo_top top b)
    end.

(** * Search *)
Definition lower (c : Z) : Z := if (65 <=? c) && (c <=? 90) then c + 32 else c.

(** Whether the characters from [i] are those of [needle]: the inner loop of
    both searches. *)
Definition match_at (b : Buffer) (i : Z) (needle : list Z) (needle_len : Z)
    (case_sensitive : bool) : outcome bool :=
  r ← for_loop 0 needle_len (λ j _,
        a ← buffer_char_at b (u64 (i + j));
        c ← zget needle j;
        let a := if case_sensitive then a else lower a in
        let c := if case_sensitive then c else lower c in
        Ok (if a =? c then inl tt else inr tt)) tt;
  Ok (match r with inl _ => true | inr _ => false end).

Definition buffer_find (b : Buffer) (from : Z) (needle : option (list Z)) (needle_len : Z)
    (case_sensitive : bool) : outcome Z :=
  match needle with
  | None => Ok BUFFER_NPOS
  | Some needle =>
      if needle_len =? 0 then Ok BUFFER_NPOS
      else
        let len := buf_length (gap b) in
        if len <? u64 (from + needle_len) then Ok BUFFER_NPOS
        else
          loop (Z.to_nat (len + needle_len + 2)) (λ i,
            if u64 (i + needle_len) <=? len then
              m ← match_at b i needle needle_len case_sensitive;
              Ok (if (m : bool) then inr i else inl (u64 (i + 1)))
            else Ok (inr BUFFER_NPOS)) from
  end.

Definition buffer_find_prev (b : Buffer) (from : Z) (needle : option (list Z)) (needle_len : Z)
    (case_sensitive : bool) : outcome Z :=
  match needle with
  | None => Ok BUFFER_NPOS
  | Some needle =>
      if needle_len =? 0 then Ok BUFFER_NPOS
      else if from <? needle_len then Ok BUFFER_NPOS
      else
        loop (S (Z.to_nat (from - needle_len))) (λ i,
          m ← match_at b i needle needle_len case_sensitive;
          if (m : bool) then Ok (inr i)
          else if i =? 0 then Ok (inr BUFFER_NPOS)
          else Ok (inl (i - 1))) (from - needle_len)
  end.

(** One turn of the loop of [buffer_replace_all], on [(count, pos, b)]. *)
Definition replace_step (needle : option (list Z)) (needle_len : Z)
    (replacement : option (list Z)) (repl_len : Z) (case_sensitive : bool)
    (s : Z * Z * Buffer) : outcome (Z * Z * Buffer + Z * Buffer) :=
  let '(count, pos, b) := s in
  found ← buffer_find b pos needle needle_len case_sensitive;
  if found =? BUFFER_NPOS then Ok (inr (count, b))
  else
    '(_, b) ← buffer_delete b found needle_len;
    '(_, b) ← buffer_insert b found replacement repl_len;
    count ← int (count + 1);
    Ok (inl (count, u64 (found + repl_len), b)).

(** A turn that deletes an occurrence shortens the text after [pos]: the
    length of the text bounds the number of turns. *)
Definition buffer_replace_all (b : Buffer) (needle : option (list Z)) (needle_len : Z)
    (replacement : option (list Z)) (repl_len : Z) (case_sensitive : bool)
  : outcome (Z * Buffer) :=
  match needle with
  | None => Ok (0, b)
  | Some _ =>
      if needle_len =? 0 then Ok (0, b)
      else loop (S (Z.to_nat (buf_length (gap b))))
             (replace_step needle needle_len replacement repl_len case_sensitive) (0, 0, b)
  end.

(** * Files *)

(** A path argument: NULL, the pointer [b->filename] itself, or a string of
    the caller. *)
Inductive path_arg := PNull | POwn | PStr (s : list Z).

(** [free(b->filename); b->filename = xstrdup(path)]: the path must outlive
    the block that is freed. *)
Definition take_filename (b : Buffer) (path : path_arg) : outcome Buffer :=
  match path with
  | PStr s =>
      n ← c_strlen s;
      let '(got, b) := request (n + 1) b in
      if got then
        t ← c_memcpy (fresh A (Nat.pred (reqs b)) (n + 1)) 0 s (n + 1);
        Ok (set_filename (Some t) b)
      else Ok (set_filename None b)
  | POwn => Undef
  | PNull => Ok (set_filename None b)
  end.

(** [file] is what [fopen] finds: the size [ftell] reports and the bytes
    [fread] then delivers. *)
Definition buffer_load (b : Buffer) (path : path_arg) (file : option (Z * list Z))
  : outcome (Z * Buffer) :=
  match path with
  | PNull => Ok (-1, b)
  | _ =>
      if match path, filename b with POwn, None => true | _, _ => false end then Ok (-1, b)
      else
        match file with
        | None => Ok (-1, b)
        | Some (file_size, bytes) =>
            if file_size <? 0 then Ok (-1, b)
            else if file_size =? 0 then
              b ← take_filename b path;
              Ok (0, lines_mark_dirty (set_cursor 0 (set_modified false b)))
            else
              let new_alloc := u64 (file_size + GAP_INITIAL) in
              let '(got, b) := request new_alloc b in
              if got then
                let g := gap b in
                let new_data := resized A (Nat.pred (reqs b)) (data g) new_alloc in
                let n := Z.min file_size (zlen bytes) in
                d ← c_memcpy new_data 0 bytes n;
                let b := set_gap (mkGap d (gap_start g) (gap_end g) new_alloc) b in
                if n =? file_size then
                  b ← take_filename (set_gap (mkGap d file_size new_alloc new_alloc) b) path;
                  Ok (0, lines_mark_dirty (set_undo_top 0 (set_modified false (set_cursor 0 b))))
                else Ok (-1, b)
              else Ok (-1, b)
        end
  end.

(** [fwrite] of bytes that lie in [data]; [accept] says how many of [n] the
    [k]-th call takes.  Answers what was written and whether all was. *)
Definition fwrite (accept : nat → Z → Z) (k : nat) (g : Gap) (off n : Z)
  : outcome (list Z * bool) :=
  if decide (0 ≤ off ∧ 0 ≤ n ∧ off + n ≤ zlen (data g))
  then let m := Z.max 0 (Z.min n (accept k n)) in Ok (slice (data g) off m, m =? n)
  else Undef.

(** [target] is what [fopen(..., "wb")] gives; the third result is the
    contents of the file afterwards, when it was opened. *)
Definition buffer_save (b : Buffer) (path : path_arg) (target : option (nat → Z → Z))
  : outcome (Z * Buffer * option (list Z)) :=
  let path := match path, filename b with POwn, None => PNull | _, _ => path end in
  if match path, filename b with PNull, None => true | _, _ => false end then Ok (-1, b, None)
  else
    match target with
    | None => Ok (-1, b, None)
    | Some accept =>
        let g := gap b in
        let len := buf_length g in
        '(w1, ok) ← (if 0 <? gap_start g then fwrite accept 0 g 0 (gap_start g)
                     else Ok ([], true));
        '(w2, ok) ← (if (ok : bool) then
                       let after := u64 (len - gap_start g) in
                       if 0 <? after then fwrite accept 1 g (gap_end g) after else Ok ([], true)
                     else Ok ([], false));
        if (ok : bool) then
          b ← match path with
              | PStr _ => take_filename b path
              | _ => Ok b
              end;
          Ok (0, set_modified false b, Some (w1 ++ w2))
        else Ok (-1, b, Some (w1 ++ w2))
    end.

End buffer.
End TextBuffer.
