(* ===== verification/TextLines.v ===== *)
(** Facts about the two stores of the text buffer: the gap buffer holds a
    text, cut where the gap is, and the undo stack holds the edits that lead
    to it.  Each operation of the file on these stores is described by what it
    does to the text and to the edits. *)
From stdpp Require Import base list.
From S2P Require Import Prelude.
From S2P Require Import KString.
From S2P Require Import Bytes.
From S2P Require Import CLib.
From S2P Require Import TextBuffer.
Import KString Bytes TextBuffer.

Module TextStore.

(** The longest text the development follows: every position in it, every
    line of it and twice their number are [int]s. *)
Definition TEXT_MAX : Z := 2 ^ 28.

(** An allocator that grants every request below a tebibyte.  The parts below
    that do not mention it hold for every allocator. *)
Definition generous (A : allocator) : Prop := ∀ k n, 0 ≤ n < 2 ^ 40 → avail A k n = true.

(** * The gap buffer *)
Definition gap_repr (g : Gap) (L R : list Z) : Prop :=
  ∃ G, data g = L ++ G ++ R ∧ gap_start g = zlen L ∧ gap_end g = zlen L + zlen G ∧
       alloc g = zlen L + zlen G + zlen R ∧ alloc g < 2 ^ 62.

Definition gap_size (g : Gap) : Z := gap_end g - gap_start g.

(** The buffer holds the text [t]. *)
Definition holds (g : Gap) (t : list Z) : Prop := ∃ L R, gap_repr g L R ∧ t = L ++ R.

Lemma splice_between (a b c bs : list Z) off :
  off = zlen a → zlen bs = zlen b → splice (a ++ b ++ c) off bs = a ++ bs ++ c.
Proof.
  intros -> Hb. unfold splice, zlen in *. rewrite Nat2Z.id, take_app_length.
  do 2 f_equal. rewrite <-drop_drop, drop_app_length.
  replace (length bs) with (length b) by lia. by rewrite drop_app_length.
Qed.

(** Two lists of the same total length, cut at another place. *)
Lemma recut (a b : list Z) n : 0 ≤ n ≤ zlen a + zlen b →
  ∃ p q, a ++ b = p ++ q ∧ zlen p = n ∧ zlen q = zlen a + zlen b - n.
Proof.
  intros Hn. exists (take (Z.to_nat n) (a ++ b)), (drop (Z.to_nat n) (a ++ b)).
  rewrite take_drop, zlen_take, zlen_drop, zlen_app by lia. split_and!; [done|lia..].
Qed.

Lemma gap_repr_bounds g L R : gap_repr g L R →
  gap_start g = zlen L ∧ gap_size g = alloc g - zlen L - zlen R ∧ 0 ≤ gap_size g ∧
  zlen (data g) = alloc g ∧ alloc g < 2 ^ 62.
Proof.
  intros (G & Hd & Hs & He & Ha & Hm). unfold gap_size. rewrite Hd, !zlen_app.
  pose proof (zlen_nonneg G). lia.
Qed.

Lemma buf_length_repr g L R : gap_repr g L R → buf_length g = zlen (L ++ R).
Proof.
  intros (G & _ & Hs & He & Ha & Hm). unfold buf_length.
  pose proof (zlen_nonneg L). pose proof (zlen_nonneg R). pose proof (zlen_nonneg G).
  rewrite zlen_app. rewrite (u64_small (gap_end g - gap_start g)) by lia. rewrite u64_small by lia. lia.
Qed.

Lemma buf_length_holds g t : holds g t → buf_length g = zlen t.
Proof. intros (L & R & H & ->). by apply buf_length_repr. Qed.

Lemma holds_bound g t : holds g t → zlen t < 2 ^ 62.
Proof.
  intros (L & R & H & ->). destruct (gap_repr_bounds g L R H) as (_ & ? & ? & _ & ?).
  rewrite zlen_app. lia.
Qed.

(** Moving the gap does not change the text, only where it is cut. *)
Lemma gap_move_repr g L R pos :
  gap_repr g L R → 0 ≤ pos ≤ zlen (L ++ R) →
  gap_move g pos ⇓ λ g',
    gap_repr g' (take (Z.to_nat pos) (L ++ R)) (drop (Z.to_nat pos) (L ++ R)) ∧
    gap_size g' = gap_size g.
Proof.
  intros (G & Hd & Hs & He & Ha & Hm) Hpos. rewrite zlen_app in Hpos. unfold gap_move, gap_size.
  pose proof (zlen_nonneg L) as HL. pose proof (zlen_nonneg R). pose proof (zlen_nonneg G).
  destruct (Z.eqb_spec pos (gap_start g)) as [Heq|Hne]; [|destruct (Z.ltb_spec pos (gap_start g))].
  - apply wp_ok. split; [|done]. replace (Z.to_nat pos) with (length L) by (unfold zlen in *; lia).
    rewrite take_app_length, drop_app_length. by exists G.
  - destruct (recut L [] pos) as (L1 & L2 & HL12 & HL1 & HL2); [unfold zlen in *; simpl; lia|].
    rewrite app_nil_r in HL12. subst L. change (zlen []) with 0 in HL2.
    destruct (recut L2 G (zlen G)) as (P & Q & HPQ & HP & HQ); [lia|].
    assert (data g = L1 ++ L2 ++ (G ++ R)) as Hd1 by (rewrite Hd; by rewrite <-!app_assoc).
    assert (data g = (L1 ++ P) ++ Q ++ R) as Hd2.
    { rewrite Hd1, <-!app_assoc, (app_assoc P), <-HPQ. by rewrite <-app_assoc. }
    rewrite zlen_app in *. rewrite c_memmove_ok by (rewrite ?Hd, ?zlen_app; lia).
    simpl. apply wp_ok. replace (slice (data g) pos (gap_start g - pos)) with L2
      by (rewrite Hd1; symmetry; apply slice_middle; lia).
    rewrite Hd2, splice_between by (rewrite ?zlen_app; lia).
    rewrite (u64_small (gap_end g - _)) by lia. split; [|simpl; lia].
    replace (Z.to_nat pos) with (length L1) by (unfold zlen in *; lia).
    rewrite <-(app_assoc L1 L2 R), take_app_length, drop_app_length.
    exists P. simpl. rewrite zlen_app. split_and!; [by rewrite <-app_assoc|lia..].
  - destruct (recut R [] (pos - zlen L)) as (R1 & R2 & HR12 & HR1 & HR2);
      [unfold zlen in *; simpl; lia|].
    rewrite app_nil_r in HR12. subst R. change (zlen []) with 0 in HR2.
    destruct (recut G R1 (zlen R1)) as (P & Q & HPQ & HP & HQ); [lia|].
    assert (data g = (L ++ G) ++ R1 ++ R2) as Hd1 by (rewrite Hd; by rewrite <-!app_assoc).
    assert (data g = L ++ P ++ (Q ++ R2)) as Hd2.
    { rewrite Hd. f_equal. rewrite (app_assoc P), <-HPQ. by rewrite <-app_assoc. }
    rewrite zlen_app in *. rewrite c_memmove_ok by (rewrite ?Hd, ?zlen_app; lia).
    simpl. apply wp_ok. replace (slice (data g) (gap_end g) (pos - gap_start g)) with R1
      by (rewrite Hd1; symmetry; apply slice_middle; rewrite ?zlen_app; lia).
    rewrite Hd2, splice_between by lia.
    rewrite (u64_small (gap_start g + _)), (u64_small (gap_end g + _)) by lia. split; [|simpl; lia].
    replace (Z.to_nat pos) with (length (L ++ R1)) by (rewrite length_app; unfold zlen in *; lia).
    rewrite (app_assoc L R1 R2), take_app_length, drop_app_length.
    exists Q. simpl. rewrite zlen_app. split_and!; [by rewrite <-app_assoc|lia..].
Qed.

(** Making room keeps the text; it fails only when the request is refused. *)
Lemma gap_ensure_repr A b L R n :
  (∀ k m, avail A k m = true → m < 2 ^ 62) →
  gap_repr (gap b) L R → 0 ≤ n < 2 ^ 62 →
  gap_ensure A b n ⇓ λ '(r, b'),
    (∃ g k, b' = set_reqs k (set_gap g b) ∧ gap_repr g L R ∧
            (r = 0 ∧ n ≤ gap_size g ∨ r = -1)) ∧
    (generous A → zlen (L ++ R) + n + GAP_GROW < 2 ^ 40 → r = 0).
Proof.
  intros HA Hg Hn. pose proof Hg as (G & Hd & Hs & He & Ha & Hm). unfold gap_ensure.
  pose proof (zlen_nonneg L). pose proof (zlen_nonneg R). pose proof (zlen_nonneg G).
  rewrite (u64_small (gap_end (gap b) - _)) by lia.
  destruct (Z.leb_spec n (gap_end (gap b) - gap_start (gap b))) as [Hle|Hgt].
  { apply wp_ok. split; [|done]. exists (gap b), (reqs b). split; [by destruct b|].
    split; [done|]. left. unfold gap_size. lia. }
  change GAP_GROW with 4096. rewrite zlen_app.
  set (grow := n - (gap_end (gap b) - gap_start (gap b)) + 4096).
  rewrite (u64_small grow) by (unfold grow; lia).
  rewrite (u64_small (alloc (gap b) + grow)) by (unfold grow; lia).
  unfold request. destruct (avail A _ _) eqn:Hav; cbn [reqs set_reqs Nat.pred].
  - apply HA in Hav. rewrite (u64_small (alloc (gap b) - _)) by lia.
    rewrite resized_grow by (rewrite Hd, !zlen_app; unfold grow; lia).
    set (F := fresh _ _ _). assert (zlen F = grow) as HF.
    { unfold F. rewrite zlen_fresh, Hd, !zlen_app. unfold grow. lia. }
    rewrite Hd. destruct (recut R F (zlen F)) as (P & Q & HPQ & HP & HQ); [unfold grow in *; lia|].
    rewrite c_memmove_ok by (rewrite ?zlen_app; unfold grow in *; lia).
    replace (slice _ _ _) with R by
      (symmetry; rewrite <-!app_assoc, (app_assoc L); apply slice_middle; rewrite ?zlen_app; lia).
    replace ((L ++ G ++ R) ++ F) with ((L ++ G ++ P) ++ Q ++ [])
      by (rewrite app_nil_r, <-!app_assoc, HPQ; done).
    rewrite splice_between by (rewrite ?zlen_app; lia). rewrite app_nil_r. simpl. apply wp_ok.
    split; [|done]. eexists _, _. split; [by destruct b|].
    rewrite (u64_small (gap_end (gap b) + _)) by (unfold grow in *; lia).
    split; [|left; unfold gap_size, grow in *; simpl; lia].
    exists (G ++ P). simpl. rewrite zlen_app. rewrite <-!app_assoc. split_and!; [done|lia..].
  - simpl. apply wp_ok. split.
    + exists (gap b), (S (reqs b)). split; [by destruct b|]. split; [done|]. by right.
    + intros Hgen Hlt. rewrite Hgen in Hav; [done|]. unfold grow. lia.
Qed.

(** Reading a character, with the zero byte after the end. *)
Definition char_at (t : list Z) (i : Z) : Z := default 0 (t !! Z.to_nat i).

Lemma char_at_data g t i : holds g t → 0 ≤ i < zlen t → zget (data g) (phys g i) = Ok (char_at t i).
Proof.
  intros (L & R & (G & Hd & Hs & He & Ha & Hm) & ->) Hi. rewrite zlen_app in Hi. unfold phys, char_at.
  pose proof (zlen_nonneg L) as HL. pose proof (zlen_nonneg G). pose proof (zlen_nonneg R).
  rewrite Hd. destruct (Z.ltb_spec i (gap_start g)) as [Hlt|Hge].
  - rewrite lookup_app_l by (unfold zlen in *; lia).
    destruct (lookup_lt_is_Some_2 L (Z.to_nat i)) as [x Hx]; [unfold zlen in *; lia|].
    rewrite Hx. apply zget_ok; [lia|]. by apply lookup_app_l_Some.
  - rewrite (u64_small (gap_end g - _)), u64_small by lia.
    rewrite lookup_app_r by (unfold zlen in *; lia).
    destruct (lookup_lt_is_Some_2 R (Z.to_nat i - length L)) as [x Hx]; [unfold zlen in *; lia|].
    rewrite Hx. apply zget_ok; [lia|].
    rewrite lookup_app_r by (unfold zlen in *; lia). rewrite lookup_app_r by (unfold zlen in *; lia).
    simpl. rewrite <-Hx. f_equal. unfold zlen in *. lia.
Qed.

Lemma char_at_ok b t i : holds (gap b) t → 0 ≤ i → buffer_char_at b i = Ok (char_at t i).
Proof.
  intros Hb Hi. unfold buffer_char_at. rewrite (buf_length_holds _ t) by done.
  destruct (Z.leb_spec (zlen t) i).
  - unfold char_at. rewrite lookup_ge_None_2; [done|unfold zlen in *; lia].
  - by apply char_at_data.
Qed.

(** The characters from [start] on, [len] of them. *)
Definition chars (t : list Z) (start len : Z) : list Z :=
  map (λ i, char_at t (start + Z.of_nat i)) (seq 0 (Z.to_nat len)).

Lemma zlen_chars t start len : 0 ≤ len → zlen (chars t start len) = len.
Proof. intros. unfold chars, zlen. rewrite length_map, length_seq. lia. Qed.

Lemma chars_slice t start len :
  0 ≤ start → 0 ≤ len → start + len ≤ zlen t → chars t start len = slice t start len.
Proof.
  intros Hs Hl Hle. apply list_eq; intros i.
  destruct (decide (i < Z.to_nat len)%nat) as [Hi|Hi].
  - rewrite lookup_slice by done. unfold chars. rewrite list_lookup_fmap, lookup_seq_lt by done.
    simpl. unfold char_at. replace (Z.to_nat (start + Z.of_nat i)) with (Z.to_nat start + i)%nat by lia.
    destruct (lookup_lt_is_Some_2 t (Z.to_nat start + i)) as [x ->]; [unfold zlen in *; lia|done].
  - rewrite !lookup_ge_None_2; [done| |].
    + rewrite length_slice by done. lia.
    + unfold chars. rewrite length_map, length_seq. lia.
Qed.

Lemma copy_out_ok A b t start len :
  holds (gap b) t → 0 ≤ start → 0 ≤ len → start + len < 2 ^ 64 → len + 1 < 2 ^ 64 →
  copy_out A b start len ⇓ λ '(o, b'),
    b' = set_reqs (S (reqs b)) b ∧ (o = Some (chars t start len ++ [0]) ∨ o = None) ∧
    (generous A → len + 1 < 2 ^ 40 → o = Some (chars t start len ++ [0])).
Proof.
  intros Hb Hs Hl Hsum Hlen. unfold copy_out, request. rewrite (u64_small (len + 1)) by lia.
  destruct (avail A _ _) eqn:Hav; [|apply wp_ok; split_and!;
    [done|by right|intros Hg ?; rewrite Hg in Hav by lia; done]].
  set (F := fresh _ _ _). assert (zlen F = len + 1) as HF by (unfold F; rewrite zlen_fresh; lia).
  apply wp_bind, (wp_for_each (λ i out, out = splice F 0 (chars t start i))); [done|done| |].
  - intros i out Hi ->. rewrite (u64_small (start + i)) by lia.
    rewrite (char_at_ok _ t) by (simpl; done || lia). simpl.
    apply wp_zset; [rewrite zlen_splice; rewrite ?zlen_chars; lia|].
    rewrite splice_snoc by (rewrite ?zlen_chars; lia).
    f_equal. unfold chars. replace (Z.to_nat (i + 1)) with (Z.to_nat i + 1)%nat by lia.
    rewrite seq_app, map_app. simpl. by rewrite Z2Nat.id by lia.
  - intros out ->. rewrite zset_ok by (rewrite zlen_splice; rewrite ?zlen_chars; lia). simpl.
    apply wp_ok. rewrite splice_snoc by (rewrite ?zlen_chars; lia).
    assert (splice F 0 (chars t start len ++ [0]) = chars t start len ++ [0]) as ->; [|auto].
    unfold splice. rewrite take_0. simpl. rewrite drop_ge; [by rewrite app_nil_r|].
    rewrite length_app. simpl. pose proof (zlen_chars t start len Hl). unfold zlen in *. lia.
Qed.

(** * Edits of a text *)
Definition ins (t : list Z) (p : Z) (s : list Z) : list Z :=
  take (Z.to_nat p) t ++ s ++ drop (Z.to_nat p) t.
Definition del (t : list Z) (p n : Z) : list Z :=
  take (Z.to_nat p) t ++ drop (Z.to_nat (p + n)) t.

Inductive edit := Ins (p : Z) (s : list Z) | Del (p : Z) (s : list Z).

Definition edit_do (e : edit) (t : list Z) : list Z :=
  match e with Ins p s => ins t p s | Del p s => del t p (zlen s) end.
Definition edit_undo (e : edit) (t : list Z) : list Z :=
  match e with Ins p s => del t p (zlen s) | Del p s => ins t p s end.

(** * The undo stack *)
Definition rec_of (e : edit) : UndoRecord :=
  match e with
  | Ins p s => mkRec UNDO_INSERT p (Some (s ++ [0])) (zlen s)
  | Del p s => mkRec UNDO_DELETE p (Some (s ++ [0])) (zlen s)
  end.

(** The records below [undo_top] are the edits made, the latest on top; those
    above are the edits undone, up to the first without a text. *)
Definition undo_repr (u : Undo) (past future : list edit) : Prop :=
  match undo_stack u with
  | None => past = [] ∧ future = [] ∧ undo_top u = 0 ∧ undo_cap u = 0
  | Some st =>
      ∃ tail, st = map Some (map rec_of (rev past) ++ map rec_of future ++ tail) ∧
        Forall (λ r, text r = None) tail ∧
        undo_top u = zlen past ∧ undo_cap u = UNDO_CAP ∧ zlen st = UNDO_CAP
  end.

Definition clear_rec (r : UndoRecord) : UndoRecord := mkRec (type r) (rpos r) None 0.

Lemma clear_loop pre mid :
  for_each (zlen pre) (zlen pre + zlen mid) (λ i st,
    r ← zget st i;
    match r with
    | None => Undef
    | Some r => zset st i (Some (mkRec (type r) (rpos r) None 0))
    end) (pre ++ map Some mid) ⇓ λ st, st = pre ++ map Some (map clear_rec mid).
Proof.
  pose proof (zlen_nonneg mid).
  apply (wp_for_each (λ i st, ∃ m1 m2, mid = m1 ++ m2 ∧ i = zlen pre + zlen m1 ∧
            st = (pre ++ map Some (map clear_rec m1)) ++ map Some m2)); [lia| | |].
  - exists [], mid. simpl. rewrite app_nil_r. split_and!; [done|unfold zlen; simpl; lia|done].
  - intros i st Hi (m1 & m2 & -> & -> & ->). rewrite zlen_app in Hi.
    destruct m2 as [|r m2]; [unfold zlen in Hi; simpl in Hi; lia|]. simpl.
    set (front := pre ++ map Some (map clear_rec m1)).
    assert (zlen pre + zlen m1 = zlen front) as Hlen.
    { unfold front. rewrite zlen_app. unfold zlen. by rewrite !length_map. }
    rewrite (zget_ok _ _ (Some r)) by (rewrite Hlen; unfold zlen;
      rewrite ?Nat2Z.id, ?list_lookup_middle; done || lia). simpl.
    apply wp_zset; [rewrite zlen_app, zlen_cons; unfold zlen in *; lia|].
    exists (m1 ++ [r]), m2. split_and!; [by rewrite <-app_assoc|rewrite zlen_app; unfold zlen; simpl; lia|].
    rewrite Hlen. unfold zlen at 1. rewrite Nat2Z.id.
    replace (length front) with (length front + 0)%nat by lia. rewrite insert_app_r. simpl.
    unfold front. rewrite !map_app, <-!app_assoc. done.
  - intros st (m1 & m2 & -> & Hi & ->). rewrite zlen_app in Hi.
    assert (m2 = []) as -> by (destruct m2; [done|unfold zlen in Hi; simpl in Hi; lia]).
    by rewrite !app_nil_r.
Qed.

Lemma clear_from_repr u past future :
  undo_repr u past future →
  undo_clear_from u (undo_top u) ⇓ λ u',
    undo_repr u' past [] ∧ in_undo u' = in_undo u ∧
    (undo_stack u' = None ↔ undo_stack u = None).
Proof.
  unfold undo_repr, undo_clear_from. destruct (undo_stack u) as [st|] eqn:Hst.
  - intros (tail & -> & Htail & Htop & Hcap & Hlen).
    rewrite map_app in *. rewrite zlen_app in Hlen.
    assert (zlen (map Some (map rec_of (rev past))) = zlen past) as Hp
      by (unfold zlen; by rewrite !length_map, length_rev).
    assert (zlen (map Some (map rec_of future ++ tail)) = zlen (map rec_of future ++ tail)) as Hm
      by (unfold zlen; by rewrite length_map).
    rewrite Htop, Hcap, <-Hlen, Hm, <-Hp. apply wp_bind.
    eapply wp_mono; [apply clear_loop|]. intros st' ->. apply wp_ok. simpl.
    split; [|split; [done|by split]].
    exists (map clear_rec (map rec_of future ++ tail)). simpl. split_and!.
    + symmetry; apply map_app.
    + apply Forall_forall. intros r (r' & -> & _)%list_elem_of_fmap. done.
    + lia.
    + rewrite Hp. lia.
    + rewrite zlen_app. unfold zlen in *. rewrite !length_map in *. lia.
  - intros (-> & -> & Htop & Hcap). rewrite Htop, Hcap. simpl. apply wp_ok.
    rewrite Hst. auto.
Qed.

(** A record is stored above [past]; the edits that had been undone are
    forgotten.  When a request is refused nothing is stored. *)
Lemma store_rec u past r :
  undo_stack u ≠ None → undo_repr u past [] → zlen past < UNDO_CAP →
  zset (default [] (undo_stack u)) (undo_top u) (Some r) ⇓ λ st,
    (text r = None → ∀ fl, undo_repr (mkUndo (Some st) (undo_top u) (undo_cap u) fl) past []) ∧
    (∀ e, r = rec_of e → ∀ fl,
       undo_repr (mkUndo (Some st) (undo_top u + 1) (undo_cap u) fl) (e :: past) []).
Proof.
  unfold undo_repr. destruct (undo_stack u) as [st|]; [intros _|done].
  intros (tail & -> & Htail & Htop & Hcap & Hlen) Hlt. cbn [default map app]. unfold id.
  unfold zlen in Hlt, Hlen. rewrite length_map, length_app, length_map, length_rev in Hlen. simpl in Hlen.
  destruct tail as [|r0 tail]; [simpl in *; lia|].
  apply wp_zset; [rewrite Htop; unfold zlen; rewrite length_map, length_app, length_map, length_rev; simpl in *; lia|].
  set (pre := map rec_of (rev past)) in *.
  assert (Z.to_nat (undo_top u) = length pre) as ->
    by (unfold pre; rewrite Htop, length_map, length_rev; unfold zlen; lia).
  assert (<[length pre := Some r]> (map Some (pre ++ r0 :: tail)) = map Some (pre ++ r :: tail)) as ->.
  { rewrite !map_app. replace (length pre) with (length (map (@Some UndoRecord) pre) + 0)%nat
      by (rewrite length_map; lia). by rewrite insert_app_r. }
  inversion_clear Htail as [|? ? _ Htl]. split; cbn [undo_stack undo_top undo_cap].
  - intros Hr fl. exists (r :: tail). split_and!; [done|by constructor|done|done|].
    unfold zlen. rewrite length_map, length_app. simpl in *. unfold pre. rewrite length_map, length_rev. lia.
  - intros e -> fl. exists tail. split_and!; [|done|rewrite zlen_cons; lia|done|].
    + simpl. rewrite (map_app rec_of), <-app_assoc. done.
    + unfold zlen. rewrite length_map, length_app. unfold pre. rewrite length_map, length_rev. simpl in *. lia.
Qed.

Definition mk_edit (ty : UndoType) (p : Z) (s : list Z) : edit :=
  match ty with UNDO_INSERT => Ins p s | UNDO_DELETE => Del p s end.

Lemma undo_alloc_repr A b past future :
  undo_repr (undo b) past future →
  ∃ ok u k, undo_alloc A b = (ok, set_reqs k (set_undo u b)) ∧ undo_repr u past future ∧
    in_undo u = in_undo (undo b) ∧ (ok = true → undo_stack u ≠ None) ∧
    (ok = false → future = []) ∧ (generous A → ok = true).
Proof.
  intros Hu. unfold undo_alloc. destruct (undo_stack (undo b)) as [st|] eqn:Hst.
  - exists true, (undo b), (reqs b). rewrite Hst. split_and!; [by destruct b|done..].
  - unfold undo_repr in Hu. rewrite Hst in Hu. destruct Hu as (-> & -> & Htop & Hcap).
    unfold request. destruct (avail A _ _) eqn:Hav.
    + eexists true, _, (S (reqs b)). split; [reflexivity|]. split; [|done].
      exists (replicate (Z.to_nat UNDO_CAP) blank). split_and!; try done.
      * by apply Forall_replicate.
    + exists false, (undo b), (S (reqs b)). split; [by destruct b|].
      unfold undo_repr. rewrite Hst. split_and!; try done. intros Hg. by rewrite Hg in Hav.
Qed.

Lemma undo_push_repr A b ty pos txt len past future :
  undo_repr (undo b) past future → in_undo (undo b) = false → zlen past < UNDO_CAP →
  0 ≤ len ≤ zlen txt → len + 1 < 2 ^ 64 →
  undo_push A b ty pos txt len ⇓ λ b',
    ∃ u k, b' = set_reqs k (set_undo u b) ∧ in_undo u = false ∧
      (undo_repr u (mk_edit ty pos (take (Z.to_nat len) txt) :: past) [] ∨ undo_repr u past []) ∧
      (generous A → len + 1 < 2 ^ 40 →
       undo_repr u (mk_edit ty pos (take (Z.to_nat len) txt) :: past) []).
Proof.
  intros Hu Hin Hpast Hlen Hmax. unfold undo_push. rewrite Hin.
  destruct (undo_alloc_repr A b past future Hu) as (ok & u & k & -> & Hu1 & Hin1 & Hok & Hno & Hgen).
  destruct ok; cbn [negb].
  2: { apply wp_ok. exists u, k. rewrite (Hno eq_refl) in Hu1.
       split_and!; [done|by rewrite Hin1|by right|]. intros Hg. by specialize (Hgen Hg). }
  apply wp_bind. eapply wp_mono; [by apply (clear_from_repr u past future)|].
  intros u2 (Hu2 & Hin2 & Hst2). apply wp_bind.
  assert (undo_stack u2 ≠ None) as Hne by (rewrite Hst2; by apply Hok).
  unfold undo_grow. cbn [undo set_undo set_reqs].
  assert (undo_top u2 < undo_cap u2) as Hroom.
  { unfold undo_repr in Hu2. destruct (undo_stack u2); [|done].
    destruct Hu2 as (? & _ & _ & -> & -> & _). done. }
  rewrite (proj2 (Z.ltb_lt _ _) Hroom). apply wp_ok. cbn [negb].
  unfold request. cbn [undo set_undo set_reqs reqs Nat.pred].
  rewrite (u64_small (len + 1)) by lia.
  destruct (avail A _ _) eqn:Hav.
  - set (F := fresh _ _ _). assert (zlen F = len + 1) as HF by (unfold F; rewrite zlen_fresh; lia).
    rewrite c_memcpy_ok by lia.
    assert (zlen (take (Z.to_nat len) txt) = len) as Htk by (rewrite zlen_take; lia). simpl.
    apply wp_bind, wp_zset; [rewrite zlen_splice; lia|].
    rewrite splice_snoc by lia.
    assert (splice F 0 (take (Z.to_nat len) txt ++ [0]) = take (Z.to_nat len) txt ++ [0]) as ->.
    { unfold splice. rewrite take_0. simpl. rewrite drop_ge; [by rewrite app_nil_r|].
      rewrite length_app. simpl. unfold zlen in HF, Htk. lia. }
    apply wp_bind. eapply wp_mono; [by apply store_rec|]. intros st (_ & Hst).
    assert (int (undo_top u2 + 1) = Ok (undo_top u2 + 1)) as ->.
    { apply int_ok. unfold undo_repr in Hu2. destruct (undo_stack u2); [|done].
      destruct Hu2 as (? & _ & _ & -> & _). change UNDO_CAP with 256 in Hpast.
      pose proof (zlen_nonneg past). lia. }
    simpl. apply wp_ok. eexists _, _. split; [reflexivity|].
    assert (undo_repr (mkUndo (Some st) (undo_top u2 + 1) (undo_cap u2) (in_undo u2))
              (mk_edit ty pos (take (Z.to_nat len) txt) :: past) []) as Hfin
      by (apply Hst; destruct ty; simpl; by rewrite Htk).
    split; [simpl; congruence|]. auto.
  - apply wp_bind. eapply wp_mono; [by apply store_rec|]. intros st (Hst & _).
    apply wp_ok. eexists _, _. split; [reflexivity|].
    split; [simpl; congruence|]. split; [right; by apply Hst|].
    intros Hg ?. rewrite Hg in Hav by lia. done.
Qed.

End TextStore.

(** The line cache of the text buffer against the lines of the text: after
    [lines_ensure] it holds the start of every line, so that positions and
    line/column pairs convert into each other. *)
Import KString TextBuffer TextStore.

Module TextLines.

(** * The lines of a text *)
Fixpoint nl_after (i : Z) (t : list Z) : list Z :=
  match t with
  | [] => []
  | c :: t' => (if c =? NL then [i + 1] else []) ++ nl_after (i + 1) t'
  end.
(** Where the lines start: at the beginning and after every newline. *)
Definition starts (t : list Z) : list Z := 0 :: nl_after 0 t.
Definition start_of (t : list Z) (line : Z) : Z := default 0 (starts t !! Z.to_nat line).
Definition newlines (t : list Z) : Z := zlen (filter (λ c, c = NL) t).
(** The line that a position is in: the newlines before it. *)
Definition line_of (t : list Z) (pos : Z) : Z := newlines (take (Z.to_nat pos) t).
(** Where a line ends: before the newline that starts the next, or at the end. *)
Definition end_of (t : list Z) (line : Z) : Z :=
  if line + 1 <? zlen (starts t) then start_of t (line + 1) - 1 else zlen t.

Lemma nl_after_app i a b : nl_after i (a ++ b) = nl_after i a ++ nl_after (i + zlen a) b.
Proof.
  revert i. induction a as [|c a IH]; intros i; simpl.
  - f_equal. unfold zlen. simpl. lia.
  - rewrite IH, zlen_cons, <-app_assoc. do 3 f_equal. lia.
Qed.

Lemma newlines_cons c t : newlines (c :: t) = newlines t + (if c =? NL then 1 else 0).
Proof.
  unfold newlines. rewrite filter_cons. case_decide as Hc.
  - rewrite zlen_cons, (proj2 (Z.eqb_eq c NL)) by done. done.
  - rewrite (proj2 (Z.eqb_neq c NL)) by done. lia.
Qed.

Lemma newlines_nonneg t : 0 ≤ newlines t.
Proof. apply zlen_nonneg. Qed.

Lemma zlen_nl_after i t : zlen (nl_after i t) = newlines t.
Proof.
  revert i. induction t as [|c t IH]; intros i; [done|]. simpl.
  rewrite zlen_app, IH, newlines_cons. destruct (c =? NL); unfold zlen; simpl; lia.
Qed.

Lemma zlen_starts t : zlen (starts t) = newlines t + 1.
Proof. unfold starts. by rewrite zlen_cons, zlen_nl_after. Qed.

Lemma newlines_le t : newlines t ≤ zlen t.
Proof. unfold newlines, zlen. pose proof (length_filter (λ c, c = NL) t). lia. Qed.

Lemma newlines_take_le n t : newlines (take n t) ≤ newlines t.
Proof.
  unfold newlines, zlen. rewrite <-(take_drop n t) at 2. rewrite filter_app, length_app. lia.
Qed.

(** A line starts at or before [pos] when it is no later than the line of [pos]. *)
Lemma nl_after_le i t k y pos :
  nl_after i t !! k = Some y →
  y ≤ pos ↔ Z.of_nat k < newlines (take (Z.to_nat (pos - i)) t).
Proof.
  revert i k. induction t as [|c t IH]; intros i k; [done|]. simpl. intros Hk.
  assert (∀ k', nl_after (i + 1) t !! k' = Some y →
    y ≤ pos ↔ Z.of_nat k' < newlines (take (Z.to_nat (pos - i)) (c :: t)) - (if c =? NL then 1 else 0)) as Hrest.
  { intros k' Hk'. rewrite (IH _ _ Hk'). destruct (Z.to_nat (pos - i)) as [|m] eqn:Hm.
    - replace (Z.to_nat (pos - (i + 1))) with 0%nat by lia. rewrite !take_0.
      change (newlines []) with 0. destruct (c =? NL); lia.
    - replace (Z.to_nat (pos - (i + 1))) with m by lia. simpl. rewrite newlines_cons. lia. }
  destruct (c =? NL) eqn:Hc; simpl in Hk.
  - destruct k as [|k]; simplify_eq/=.
    + destruct (Z.to_nat (pos - i)) as [|m] eqn:Hm.
      * rewrite take_0. change (newlines []) with 0. lia.
      * simpl. rewrite newlines_cons, Hc. pose proof (newlines_nonneg (take m t)). lia.
    + rewrite (Hrest k Hk). lia.
  - rewrite (Hrest k Hk). lia.
Qed.

Lemma start_le t line pos :
  0 ≤ pos → 0 ≤ line < zlen (starts t) → start_of t line ≤ pos ↔ line ≤ line_of t pos.
Proof.
  intros Hpos Hl. unfold start_of, line_of, starts.
  destruct (Z.to_nat line) as [|k] eqn:Hk; simpl.
  - pose proof (newlines_nonneg (take (Z.to_nat pos) t)). lia.
  - rewrite zlen_starts, <-(zlen_nl_after 0) in Hl.
    destruct (lookup_lt_is_Some_2 (nl_after 0 t) k) as [y Hy]; [unfold zlen in *; lia|].
    rewrite Hy. simpl. rewrite (nl_after_le 0 t k y pos Hy), Z.sub_0_r. lia.
Qed.

Lemma line_of_range t pos : 0 ≤ line_of t pos < zlen (starts t).
Proof.
  unfold line_of. rewrite zlen_starts. pose proof (newlines_nonneg (take (Z.to_nat pos) t)).
  pose proof (newlines_take_le (Z.to_nat pos) t). lia.
Qed.

Lemma start_range t line : 0 ≤ start_of t line ≤ zlen t.
Proof.
  unfold start_of, starts. destruct (Z.to_nat line) as [|k]; simpl.
  { pose proof (zlen_nonneg t). lia. }
  assert (∀ i, 0 ≤ i → Forall (λ y, 0 ≤ y ≤ i + zlen t) (nl_after i t)) as H.
  { induction t as [|c t IH]; intros i Hi; simpl; [done|]. pose proof (zlen_nonneg t).
    rewrite zlen_cons. apply Forall_app. split; [destruct (c =? NL); auto; constructor; [lia|done]|].
    eapply Forall_impl; [apply IH; lia|]. simpl. lia. }
  destruct (nl_after 0 t !! k) as [y|] eqn:Hy; simpl; [|pose proof (zlen_nonneg t); lia].
  eapply (Forall_lookup_1 _ _ k y (H 0 ltac:(lia))) in Hy. simpl in Hy. lia.
Qed.

(** The starts increase. *)
Lemma nl_after_gt i t k x : nl_after i t !! k = Some x → i < x.
Proof.
  revert i k. induction t as [|c t IH]; intros i k; simpl; [done|].
  destruct (c =? NL); simpl; [destruct k as [|k]; intros Hx; simplify_eq/=; [lia|]|intros Hx];
    apply IH in Hx; lia.
Qed.

Lemma nl_after_mono i t k x y :
  nl_after i t !! k = Some x → nl_after i t !! S k = Some y → x < y.
Proof.
  revert i k. induction t as [|c t IH]; intros i k; simpl; [done|].
  destruct (c =? NL); simpl; [destruct k as [|k]|]; intros Hx Hy; simplify_eq/=.
  - by apply nl_after_gt in Hy.
  - by eapply IH.
  - by eapply IH.
Qed.

Lemma start_mono t line :
  0 ≤ line → line + 1 < zlen (starts t) → start_of t line < start_of t (line + 1).
Proof.
  intros Hl Hn. unfold start_of. rewrite zlen_starts, <-(zlen_nl_after 0) in Hn.
  replace (Z.to_nat (line + 1)) with (S (Z.to_nat line)) by lia.
  destruct (lookup_lt_is_Some_2 (nl_after 0 t) (Z.to_nat line)) as [y Hy]; [unfold zlen in *; lia|].
  unfold starts. simpl. rewrite Hy. simpl.
  destruct (Z.to_nat line) as [|k]; simpl; [by apply nl_after_gt in Hy|].
  destruct (nl_after 0 t !! k) as [x|] eqn:Hx; simpl; [by eapply nl_after_mono|].
  by apply nl_after_gt in Hy.
Qed.

(** * The cache *)
Definition cache_shape (l : Lines) (o : list Z) : Prop :=
  line_offsets l = Some o ∧ zlen o = line_cap l ∧ LINE_CACHE_CAP ≤ line_cap l ≤ 2 ^ 30.
Definition cache_lists (l : Lines) (o xs : list Z) : Prop :=
  cache_shape l o ∧ line_count l = zlen xs ∧ take (length xs) o = xs.
Definition clean (l : Lines) (t : list Z) : Prop :=
  lines_dirty l = false ∧ ∃ o, cache_lists l o (starts t).
Definition lines_repr (l : Lines) (t : list Z) : Prop :=
  (line_offsets l = None ∧ line_cap l = 0 ∧ lines_dirty l = true) ∨
  (∃ o, cache_shape l o ∧ (lines_dirty l = false → cache_lists l o (starts t))).

Lemma clean_repr l t : clean l t → lines_repr l t.
Proof. intros (Hd & o & H). right. exists o. split; [apply H|done]. Qed.

Lemma dirty_repr l t t' :
  lines_repr l t → lines_repr (mkLines (line_offsets l) (line_count l) (line_cap l) true) t'.
Proof. intros [(H1 & H2 & _)|(o & (H1 & H2 & H3) & _)]; [by left|]. right. exists o. by split. Qed.

Lemma add_line_ok b o xs x :
  cache_lists (lines b) o xs → zlen xs < line_cap (lines b) →
  add_line x b ⇓ λ b', ∃ l o', b' = set_lines l b ∧ line_cap l = line_cap (lines b) ∧
    cache_lists l o' (xs ++ [x]).
Proof.
  intros ((Ho & Hlen & Hcap) & Hn & Htk) Hroom. unfold add_line. rewrite Ho.
  pose proof (zlen_nonneg xs). rewrite zset_ok by lia. simpl. rewrite int_ok by lia. simpl.
  apply wp_ok. eexists _, _. split; [done|]. split; [done|].
  split; [split; [reflexivity|]; by rewrite zlen_insert|]. split.
  - simpl. rewrite zlen_app. change (zlen [x]) with 1. lia.
  - rewrite length_app, Hn. simpl. unfold zlen. rewrite Nat2Z.id, Nat.add_comm. simpl.
    erewrite take_S_r by (rewrite list_lookup_insert_eq; [done|unfold zlen in *; lia]).
    by rewrite take_insert_ge, Htk by lia.
Qed.

(** Growing the array keeps the entries. *)
Lemma grow_lines_ok A b o xs cap :
  generous A → line_count (lines b) = zlen xs → take (length xs) o = xs →
  default [] (line_offsets (lines b)) = o →
  zlen o ≤ cap → LINE_CACHE_CAP ≤ cap ≤ 2 ^ 30 →
  ∃ l k o', grow_lines A cap b = (true, set_reqs k (set_lines l b)) ∧ line_cap l = cap ∧
    cache_lists l o' xs.
Proof.
  intros HA Hn Htk Ho Hle Hcap. unfold grow_lines, request. change LINE_CACHE_CAP with 8192 in *.
  rewrite HA by lia. simpl. eexists _, _, _. split; [done|]. simpl. split; [done|].
  split; [split; [done|]; split; [by rewrite zlen_resized by lia|done]|]. split; [done|].
  rewrite Ho, resized_grow by done. rewrite take_app_le; [done|].
  rewrite <-Htk, length_take. lia.
Qed.

Lemma starts_snoc t i c :
  t !! i = Some c →
  starts (take (S i) t) = starts (take i t) ++ (if c =? NL then [Z.of_nat i + 1] else []).
Proof.
  intros Hi. rewrite (take_S_r _ _ c) by done. unfold starts. rewrite nl_after_app. simpl.
  rewrite app_nil_r. do 3 f_equal.
  apply lookup_lt_Some in Hi. destruct (c =? NL); [|done]. f_equal. unfold zlen. rewrite length_take. lia.
Qed.

(** One turn of the loop of [lines_rebuild]: no request is refused, so the
    loop never leaves early. *)
Lemma rebuild_loop A b t o :
  generous A → holds (gap b) t → zlen t ≤ TEXT_MAX → cache_lists (lines b) o [0] →
  for_loop 0 (zlen t) (λ i b,
    c ← zget (data (gap b)) (phys (gap b) i);
    if c =? NL then
      if line_cap (lines b) <=? line_count (lines b) then
        new_cap ← int (line_cap (lines b) * 2);
        let '(got, b) := grow_lines A new_cap b in
        if got then b ← add_line (i + 1) b; Ok (inl b) else Ok (inr b)
      else b ← add_line (i + 1) b; Ok (inl b)
    else Ok (inl b)) b ⇓ λ r, ∃ l k o', r = inl (set_reqs k (set_lines l b)) ∧
      cache_lists l o' (starts t).
Proof.
  intros HA Hb Hmax Ho. change TEXT_MAX with 268435456 in Hmax.
  apply (wp_for (λ i b', ∃ l k o', b' = set_reqs k (set_lines l b) ∧
            cache_lists l o' (starts (take (Z.to_nat i) t)))); [apply zlen_nonneg| | |].
  - exists (lines b), (reqs b), o. by destruct b.
  - intros i b' Hi (l & k & o' & -> & Hl).
    cbn [gap data lines set_reqs set_lines]. rewrite (char_at_data _ t) by done. cbn [mbind outcome_bind].
    destruct (lookup_lt_is_Some_2 t (Z.to_nat i)) as [c Hc]; [unfold zlen in *; lia|].
    assert (char_at t i = c) as -> by (unfold char_at; by rewrite Hc).
    pose proof (starts_snoc t (Z.to_nat i) c Hc) as Hs.
    replace (S (Z.to_nat i)) with (Z.to_nat (i + 1)) in Hs by lia. rewrite Z2Nat.id in Hs by lia.
    destruct (c =? NL); [|apply wp_ok; exists l, k, o'; by rewrite Hs, app_nil_r].
    pose proof Hl as ((Hof & Hlen & Hcap) & Hn & Htk).
    assert (zlen (starts (take (Z.to_nat i) t)) ≤ 268435457) as Hsmall.
    { rewrite zlen_starts. pose proof (newlines_take_le (Z.to_nat i) t). pose proof (newlines_le t). lia. }
    assert (zlen (starts (take (Z.to_nat i) t)) ≤ line_cap l) as Hfit
      by (rewrite <-Htk, <-Hlen; unfold zlen; rewrite length_take; lia).
    destruct (Z.leb_spec (line_cap l) (line_count l)) as [Hfull|Hroom].
    + rewrite int_ok by (change LINE_CACHE_CAP with 8192 in *; lia). cbn [mbind outcome_bind].
      destruct (grow_lines_ok A (set_reqs k (set_lines l b)) o' (starts (take (Z.to_nat i) t)) (line_cap l * 2))
        as (l2 & k2 & o2 & -> & Hcap2 & Hl2);
        [done|done|done|simpl; by rewrite Hof|change LINE_CACHE_CAP with 8192 in *; lia|change LINE_CACHE_CAP with 8192 in *; lia|].
      apply wp_bind. eapply wp_mono; [eapply add_line_ok; [exact Hl2|]|].
      { simpl. change LINE_CACHE_CAP with 8192 in *. lia. }
      intros b' (l3 & o3 & -> & _ & Hl3). apply wp_ok. exists l3, k2, o3. rewrite Hs. done.
    + apply wp_bind. eapply wp_mono; [eapply add_line_ok; [exact Hl|simpl; lia]|].
      intros b' (l3 & o3 & -> & _ & Hl3). apply wp_ok. exists l3, k, o3. rewrite Hs. done.
  - intros b' (l & k & o' & -> & Hl). exists l, k, o'. split; [done|].
    by rewrite take_ge in Hl by (unfold zlen; lia).
Qed.

Lemma lines_ensure_ok A b t :
  generous A → holds (gap b) t → zlen t ≤ TEXT_MAX → lines_repr (lines b) t →
  lines_ensure A b ⇓ λ b', ∃ l k, b' = set_reqs k (set_lines l b) ∧ clean l t.
Proof.
  intros HA Hb Hmax Hr. unfold lines_ensure. destruct (lines_dirty (lines b)) eqn:Hd.
  2: { apply wp_ok. exists (lines b), (reqs b). split; [by destruct b|]. split; [done|].
       destruct Hr as [(_ & _ & ?)|(o & _ & Hc)]; [congruence|eauto]. }
  unfold lines_rebuild.
  assert (∃ l k o, (if line_cap (lines b) <? LINE_CACHE_CAP then grow_lines A LINE_CACHE_CAP b
           else (true, b)) = (true, set_reqs k (set_lines l b)) ∧ cache_shape l o) as (l & k & o & -> & Hl).
  { destruct Hr as [(H1 & H2 & _)|(o & (H1 & H2 & H3) & _)].
    - rewrite H2. change (0 <? LINE_CACHE_CAP) with true. cbv iota. unfold grow_lines, request.
      rewrite HA by done. eexists _, _, _. split; [done|]. split; [done|]. simpl.
      rewrite zlen_resized by done. done.
    - rewrite (proj2 (Z.ltb_ge _ _)) by lia. exists (lines b), (reqs b), o.
      split; [by destruct b|done]. }
  cbn [negb]. apply wp_bind. destruct Hl as (H1 & H2 & H3). change LINE_CACHE_CAP with 8192 in *.
  eapply wp_mono; [apply (add_line_ok _ o []); [done|unfold zlen at 1; simpl; lia]|].
  intros b' (l2 & o2 & -> & _ & Hl2). apply wp_bind.
  rewrite (buf_length_holds _ t) by done.
  eapply wp_mono; [by apply (rebuild_loop A _ t o2)|].
  intros r (l3 & k3 & o3 & -> & Hl3). apply wp_ok.
  eexists _, k3. split; [reflexivity|]. split; [done|]. by exists o3.
Qed.

Lemma line_offset_ok b t i :
  clean (lines b) t → 0 ≤ i < zlen (starts t) → line_offset b i = Ok (start_of t i).
Proof.
  intros (_ & o & (Ho & _ & _) & _ & Htk) Hi. unfold line_offset, start_of. rewrite Ho.
  destruct (lookup_lt_is_Some_2 (starts t) (Z.to_nat i)) as [x Hx]; [unfold zlen in *; lia|].
  rewrite Hx. apply zget_ok; [lia|]. rewrite <-Htk, lookup_take_Some in Hx. by destruct Hx.
Qed.

(** The buffer after a query: only the cache and the count of requests moved. *)
Definition queried (b b' : Buffer) (t : list Z) : Prop :=
  ∃ l k, b' = set_reqs k (set_lines l b) ∧ clean l t.

Lemma queried_trans b b1 b2 t : queried b b1 t → queried b1 b2 t → queried b b2 t.
Proof. intros (l1 & k1 & -> & _) (l2 & k2 & -> & H). by exists l2, k2. Qed.

Section queries.
Context (A : allocator) (HA : generous A) (b : Buffer) (t : list Z).
Context (Hb : holds (gap b) t) (Hmax : zlen t ≤ TEXT_MAX) (Hr : lines_repr (lines b) t).

Lemma queried_ok b' : queried b b' t →
  holds (gap b') t ∧ clean (lines b') t ∧ line_count (lines b') = zlen (starts t) ∧
  lines_ensure A b' = Ok b' ∧ buf_length (gap b') = zlen t.
Proof.
  intros (l & k & -> & Hd & o & Hc). split; [done|]. split; [split; [done|eauto]|]. split; [apply Hc|].
  split; [unfold lines_ensure; simpl; by rewrite Hd|by apply buf_length_holds].
Qed.

Lemma line_count_bounds : 1 ≤ zlen (starts t) ≤ 268435457.
Proof using Hmax.
  change TEXT_MAX with 268435456 in Hmax. rewrite zlen_starts. pose proof (newlines_nonneg t).
  pose proof (newlines_le t). lia.
Qed.

Lemma line_count_ok : buffer_line_count A b ⇓ λ '(n, b'), n = zlen (starts t) ∧ queried b b' t.
Proof using All.
  unfold buffer_line_count. apply wp_bind. eapply wp_mono; [by apply (lines_ensure_ok A b t)|].
  intros b' Hq. apply wp_ok. split; [by apply queried_ok|done].
Qed.

(** The binary search finds the line of the position. *)
Lemma pos_to_lc_ok pos : 0 ≤ pos →
  buffer_pos_to_lc A b pos ⇓ λ '(line, col, b'),
    line = line_of t pos ∧ col = i32 (u64 (pos - start_of t line)) ∧ queried b b' t.
Proof using All.
  intros Hpos. unfold buffer_pos_to_lc. apply wp_bind.
  eapply wp_mono; [by apply (lines_ensure_ok A b t)|]. intros b' Hq.
  destruct (queried_ok b' Hq) as (_ & Hc & -> & _). apply wp_bind.
  pose proof line_count_bounds as Hn. pose proof (line_of_range t pos) as Hk.
  apply (wp_mono _ (λ found, found = line_of t pos)).
  - apply (wp_loop (λ '(lo, hi), 0 ≤ lo ∧ hi < zlen (starts t) ∧ lo ≤ line_of t pos ≤ hi)
                   (λ '(lo, hi), Z.to_nat (hi - lo + 1))); [|lia|lia].
    intros (lo & hi) (Hlo & Hhi & Hin).
    rewrite (proj2 (Z.ltb_ge hi lo)) by lia. rewrite int_ok by lia. cbn [mbind outcome_bind].
    set (mid := (lo + hi) / 2). assert (lo ≤ mid ≤ hi) as Hmid by (unfold mid; zlia).
    rewrite (line_offset_ok b' t mid) by (done || lia). cbn [mbind outcome_bind].
    pose proof (start_le t mid pos Hpos ltac:(lia)) as Hle.
    destruct (Z.leb_spec (start_of t mid) pos) as [H1|H1].
    + destruct (Z.leb_spec (zlen (starts t)) (mid + 1)) as [H2|H2]; cbn [mbind outcome_bind].
      { apply wp_ok. lia. }
      rewrite (line_offset_ok b' t) by (done || lia). cbn [mbind outcome_bind].
      pose proof (start_le t (mid + 1) pos Hpos ltac:(lia)) as Hle2.
      destruct (Z.ltb_spec pos (start_of t (mid + 1))); apply wp_ok; [lia|].
      rewrite (proj2 (Z.ltb_ge pos (start_of t mid))) by lia. lia.
    + cbn [mbind outcome_bind]. apply wp_ok. rewrite (proj2 (Z.ltb_lt pos (start_of t mid))) by lia. lia.
  - intros found ->. rewrite (line_offset_ok b' t) by done. simpl. by apply wp_ok.
Qed.

Definition clamp (n line : Z) : Z := Z.min (n - 1) (Z.max 0 line).

Lemma clamp_line_ok b' line : queried b b' t → clamp_line b' line = clamp (zlen (starts t)) line.
Proof using A Hb Hmax.
  intros (_ & _ & Hn & _)%queried_ok. unfold clamp_line, clamp. rewrite Hn.
  pose proof line_count_bounds.
  destruct (Z.ltb_spec line 0); destruct (Z.leb_spec (zlen (starts t)) 0);
    destruct (Z.leb_spec (zlen (starts t)) line); lia.
Qed.

Lemma line_start_ok line :
  buffer_line_start A b line ⇓ λ '(x, b'), x = start_of t (clamp (zlen (starts t)) line) ∧ queried b b' t.
Proof using All.
  unfold buffer_line_start. apply wp_bind. eapply wp_mono; [by apply (lines_ensure_ok A b t)|].
  intros b' Hq. rewrite clamp_line_ok by done. pose proof line_count_bounds.
  destruct (queried_ok b' Hq) as (_ & Hc & _).
  rewrite (line_offset_ok b' t) by (done || (unfold clamp; lia)). simpl. by apply wp_ok.
Qed.

(** What [buffer_line_end] answers: a newline before the next line, or before
    the end of the text, is left out. *)
Definition line_end (line : Z) : Z :=
  let next := if line + 1 <? zlen (starts t) then start_of t (line + 1) else zlen t in
  if (0 <? next) && (char_at t (next - 1) =? NL) then next - 1 else next.

Lemma next_line_ok b' line : queried b b' t → 0 ≤ line →
  (if line + 1 <? line_count (lines b') then line_offset b' (line + 1)
   else Ok (buf_length (gap b'))) =
  Ok (if line + 1 <? zlen (starts t) then start_of t (line + 1) else zlen t).
Proof using A Hb.
  intros (_ & Hc & -> & _ & ->)%queried_ok Hl.
  destruct (Z.ltb_spec (line + 1) (zlen (starts t))); [|done]. apply line_offset_ok; [done|lia].
Qed.

Lemma line_end_ok line :
  buffer_line_end A b line ⇓ λ '(x, b'), x = line_end (clamp (zlen (starts t)) line) ∧ queried b b' t.
Proof using All.
  unfold buffer_line_end. apply wp_bind. eapply wp_mono; [by apply (lines_ensure_ok A b t)|].
  intros b' Hq. rewrite clamp_line_ok by done. pose proof line_count_bounds.
  rewrite next_line_ok by (done || (unfold clamp; lia)). cbn [mbind outcome_bind].
  unfold line_end. set (next := if _ <? zlen (starts t) then _ else _).
  destruct (Z.ltb_spec 0 next); [|by apply wp_ok].
  rewrite (char_at_ok b' t) by (apply (queried_ok b' Hq) || lia). simpl. by apply wp_ok.
Qed.

Lemma lc_to_pos_ok line col :
  buffer_lc_to_pos A b line col ⇓ λ '(x, b'),
    (let k := clamp (zlen (starts t)) line in
     let n := u64 (end_of t k - start_of t k) in
     x = u64 (start_of t k + (if n <? u64 col then i32 n else col))) ∧ queried b b' t.
Proof using All.
  unfold buffer_lc_to_pos. apply wp_bind. eapply wp_mono; [by apply (lines_ensure_ok A b t)|].
  intros b' Hq. rewrite clamp_line_ok by done. pose proof line_count_bounds.
  destruct (queried_ok b' Hq) as (_ & Hc & Hn & _ & Hlen). set (k := clamp _ line).
  assert (0 ≤ k < zlen (starts t)) by (unfold k, clamp; lia).
  rewrite (line_offset_ok b' t k) by done. cbn [mbind outcome_bind]. rewrite Hn.
  assert ((if k + 1 <? zlen (starts t) then y ← line_offset b' (k + 1); Ok (u64 (y - 1))
    else Ok (buf_length (gap b'))) = Ok (u64 (end_of t k))) as ->.
  { unfold end_of. destruct (Z.ltb_spec (k + 1) (zlen (starts t))).
    - rewrite (line_offset_ok b' t) by (done || lia). done.
    - rewrite Hlen, u64_small; [done|]. change TEXT_MAX with 268435456 in Hmax.
      pose proof (zlen_nonneg t). lia. }
  cbn [mbind outcome_bind]. apply wp_ok. split; [|done].
  assert (u64 (u64 (end_of t k) - start_of t k) = u64 (end_of t k - start_of t k)) as -> by
    (unfold u64; by rewrite Zminus_mod_idemp_l). done.
Qed.

End queries.

(** A position lies between the start and the end of its line. *)
Lemma line_bounds t pos : 0 ≤ pos ≤ zlen t →
  start_of t (line_of t pos) ≤ pos ≤ end_of t (line_of t pos).
Proof.
  intros Hpos. pose proof (line_of_range t pos) as Hk. split.
  - apply start_le; lia.
  - unfold end_of. destruct (Z.ltb_spec (line_of t pos + 1) (zlen (starts t))); [|lia].
    pose proof (start_le t (line_of t pos + 1) pos ltac:(lia) ltac:(lia)). lia.
Qed.

End TextLines.
