(* ===== verification/TextEdit.v ===== *)
(** The editor's buffer as a document: a text with a cursor, a mark and the
    edits that can be undone and redone.  Every public operation of buffer.c
    does to the document what its abstract counterpart does. *)
From stdpp Require Import base list.
From S2P Require Import Prelude.
From S2P Require Import KString.
From S2P Require Import CLib.
From S2P Require Import TextBuffer.
From S2P Require Import TextLines.
Import KString TextBuffer TextStore TextLines.

Module TextEdit.

(** * Documents *)
Record Doc := mkDoc {
  dtext : list Z; dcursor : Z; dmark : Z; dactive : bool; dmodified : bool;
  dname : option (list Z); past : list edit; future : list edit }.

Definition set_dcursor (c : Z) (d : Doc) : Doc :=
  mkDoc (dtext d) c (dmark d) (dactive d) (dmodified d) (dname d) (past d) (future d).
Definition set_dmark (m : Z) (a : bool) (d : Doc) : Doc :=
  mkDoc (dtext d) (dcursor d) m a (dmodified d) (dname d) (past d) (future d).
Definition set_hist (p f : list edit) (d : Doc) : Doc :=
  mkDoc (dtext d) (dcursor d) (dmark d) (dactive d) (dmodified d) (dname d) p f.

(** [quiet] while an undo or a redo runs: the edit is not recorded. *)
Definition doc_edit (quiet : bool) (e : edit) (c : Z) (d : Doc) : Doc :=
  mkDoc (edit_do e (dtext d)) c (dmark d) (dactive d) true (dname d)
    (if quiet then past d else e :: past d) (if quiet then future d else []).

Definition doc_insert (quiet : bool) (d : Doc) (pos : Z) (s : list Z) : Z * Doc :=
  if zlen s =? 0 then (-1, d)
  else
    let p := Z.min pos (zlen (dtext d)) in
    (0, doc_edit quiet (Ins p s)
          (if p <=? dcursor d then u64 (dcursor d + zlen s) else dcursor d) d).

Definition doc_delete (quiet : bool) (d : Doc) (pos len : Z) : Z * Doc :=
  let n := zlen (dtext d) in
  if (len =? 0) || (n <=? pos) then (-1, d)
  else
    let len := Z.min len (n - pos) in
    let c := dcursor d in
    (0, doc_edit quiet (Del pos (slice (dtext d) pos len))
          (if pos <? c then if c <=? pos + len then pos else c - len else c) d).

Definition doc_undo (d : Doc) : Z * Doc :=
  match past d with
  | [] => (-1, d)
  | e :: p =>
      (0, set_hist p (e :: future d)
            match e with
            | Ins q s => set_dcursor q (doc_delete true d q (zlen s)).2
            | Del q s => set_dcursor (u64 (q + zlen s)) (doc_insert true d q s).2
            end)
  end.

Definition doc_redo (d : Doc) : Z * Doc :=
  match future d with
  | [] => (-1, d)
  | e :: f =>
      (0, set_hist (e :: past d) f
            match e with
            | Ins q s => set_dcursor (u64 (q + zlen s)) (doc_insert true d q s).2
            | Del q s => set_dcursor q (doc_delete true d q (zlen s)).2
            end)
  end.

(** * The buffer stands for the document *)
Record repr (quiet : bool) (b : Buffer) (d : Doc) : Prop := mk_repr {
  repr_text : holds (gap b) (dtext d);
  repr_cursor : cursor b = dcursor d;
  repr_mark : mark b = dmark d;
  repr_active : mark_active b = dactive d;
  repr_modified : modified b = dmodified d;
  repr_name : filename b = dname d;
  repr_undo : undo_repr (undo b) (past d) (future d);
  repr_quiet : in_undo (undo b) = quiet;
  repr_lines : lines_repr (lines b) (dtext d) }.

Definition bounded (A : allocator) : Prop := ∀ k m, avail A k m = true → m < 2 ^ 62.

(** Room for one more record. *)
Definition room (quiet : bool) (d : Doc) : Prop := quiet = false → zlen (past d) < UNDO_CAP.

(** [undo_push] in both modes. *)
Lemma push_repr A quiet b d ty pos txt len :
  generous A → undo_repr (undo b) (past d) (future d) → in_undo (undo b) = quiet → room quiet d →
  0 ≤ len ≤ zlen txt → len + 1 < 2 ^ 40 →
  undo_push A b ty pos txt len ⇓ λ b', ∃ u k, b' = set_reqs k (set_undo u b) ∧ in_undo u = quiet ∧
    undo_repr u (if quiet then past d else mk_edit ty pos (take (Z.to_nat len) txt) :: past d)
                (if quiet then future d else []).
Proof.
  intros HA Hu Hq Hroom Hlen Hmax. destruct quiet.
  - unfold undo_push. rewrite Hq. apply wp_ok. exists (undo b), (reqs b). by destruct b.
  - eapply wp_mono; [apply (undo_push_repr A b ty pos txt len (past d) (future d)); auto; lia|].
    intros b' (u & k & -> & Hin & _ & Hfin). exists u, k. split; [done|]. auto.
Qed.

(** An insertion up to the call that records it. *)
Lemma insert_split A b t pos txt len :
  generous A → bounded A → holds (gap b) t → 0 ≤ pos → 0 < len ≤ zlen txt →
  zlen t + len ≤ TEXT_MAX →
  let p := Z.min pos (zlen t) in
  ∃ b0, buffer_insert A b pos (Some txt) len = (b' ← undo_push A b0 UNDO_INSERT p txt len; Ok (0, b')) ∧
    holds (gap b0) (ins t p (take (Z.to_nat len) txt)) ∧
    cursor b0 = (if p <=? cursor b then u64 (cursor b + len) else cursor b) ∧
    mark b0 = mark b ∧ mark_active b0 = mark_active b ∧ modified b0 = true ∧
    filename b0 = filename b ∧ undo b0 = undo b ∧
    lines b0 = mkLines (line_offsets (lines b)) (line_count (lines b)) (line_cap (lines b)) true.
Proof.
  intros HA HB (L & R & HLR & Ht) Hpos Hlen Hmax p. unfold buffer_insert.
  rewrite (proj2 (Z.eqb_neq len 0)) by lia.
  rewrite (buf_length_repr _ L R), <-Ht by done.
  change TEXT_MAX with 268435456 in Hmax. pose proof (zlen_nonneg t).
  replace (if zlen t <? pos then zlen t else pos) with p
    by (unfold p; destruct (Z.ltb_spec (zlen t) pos); lia).
  assert (0 ≤ p ≤ zlen t) as Hp by (unfold p; lia). clearbody p.
  destruct (gap_ensure_repr A b L R len HB HLR ltac:(lia))
    as ((r & b1) & -> & (g1 & k1 & -> & Hg1 & Hcase) & Hgen).
  rewrite Hgen in * by (change GAP_GROW with 4096; done || (rewrite <-Ht; lia)).
  destruct Hcase as [(_ & Hsize)|]; [|done]. cbn [mbind outcome_bind]. change (0 <? 0) with false. cbv iota.
  destruct (gap_move_repr g1 L R p Hg1 ltac:(by rewrite <-Ht)) as (g2 & Hmv & (G & Hd & Hs & He & Hal & Hb2) & Hsize2).
  cbn [gap set_gap set_reqs]. rewrite Hmv. cbn [mbind outcome_bind].
  unfold gap_size in Hsize2, Hsize. rewrite <-Ht in *.
  set (L' := take (Z.to_nat p) t) in *. set (R' := drop (Z.to_nat p) t) in *.
  destruct (recut G [] len) as (G1 & G2 & HG & HG1 & HG2); [change (zlen []) with 0; lia|].
  rewrite app_nil_r in HG. subst G. rewrite zlen_app in *. pose proof (zlen_nonneg L').
  pose proof (zlen_nonneg R'). pose proof (zlen_nonneg G2).
  rewrite c_memcpy_ok by (rewrite ?Hd, ?zlen_app; lia). cbn [mbind outcome_bind].
  rewrite Hd, <-app_assoc, splice_between by (rewrite ?zlen_take; lia).
  rewrite (u64_small (gap_start g2 + len)) by lia.
  eexists. split; [reflexivity|].
  split; [|destruct (p <=? cursor b) eqn:E; cbn [cursor set_gap set_reqs]; rewrite ?E; done].
  destruct (p <=? _); cbn [gap set_gap set_reqs set_cursor set_modified lines_mark_dirty set_lines];
  (exists (L' ++ take (Z.to_nat len) txt), R'; split; [|by rewrite <-app_assoc];
   exists G2; simpl; rewrite !zlen_app, zlen_take, <-!app_assoc by lia; split_and!; [done|lia..]).
Qed.

Lemma insert_repr A quiet b d pos txt len :
  generous A → bounded A → repr quiet b d → room quiet d → 0 ≤ pos → 0 ≤ len ≤ zlen txt →
  zlen (dtext d) + len ≤ TEXT_MAX →
  buffer_insert A b pos (Some txt) len ⇓ λ '(r, b'),
    r = (doc_insert quiet d pos (take (Z.to_nat len) txt)).1 ∧
    repr quiet b' (doc_insert quiet d pos (take (Z.to_nat len) txt)).2.
Proof.
  intros HA HB [Ht Hc Hm Ha Hmod Hname Hu Hq Hl] Hroom Hpos Hlen Hmax.
  unfold doc_insert. rewrite zlen_take, Z.min_l by lia.
  destruct (Z.eqb_spec len 0) as [->|Hz]; [unfold buffer_insert; by apply wp_ok|].
  destruct (insert_split A b (dtext d) pos txt len HA HB Ht Hpos ltac:(lia) Hmax)
    as (b0 & -> & Ht0 & Hc0 & Hm0 & Ha0 & Hmod0 & Hname0 & Hu0 & Hl0).
  change TEXT_MAX with 268435456 in Hmax. pose proof (zlen_nonneg (dtext d)).
  apply wp_bind. eapply wp_mono; [eapply (push_repr A quiet _ d); rewrite ?Hu0; done || lia|].
  intros b' (u & k & -> & Hin & Hu'). apply wp_ok. split; [done|]. rewrite Hc in Hc0.
  constructor; simpl; try congruence; try done. rewrite Hl0. by eapply dirty_repr.
Qed.

Lemma delete_repr A quiet b d pos len :
  generous A → repr quiet b d → room quiet d → 0 ≤ pos → 0 ≤ len → pos + len < 2 ^ 64 →
  zlen (dtext d) ≤ TEXT_MAX → 0 ≤ dcursor d < 2 ^ 64 →
  buffer_delete A b pos len ⇓ λ '(r, b'),
    r = (doc_delete quiet d pos len).1 ∧ repr quiet b' (doc_delete quiet d pos len).2.
Proof.
  intros HA Hr Hroom Hpos Hlen Hsum Hmax Hcur. unfold buffer_delete, doc_delete.
  destruct (Z.eqb_spec len 0) as [Hz|Hz]; [by apply wp_ok|]. simpl.
  pose proof (repr_text _ _ _ Hr) as Ht. rewrite (buf_length_holds _ (dtext d)) by done.
  destruct (Z.leb_spec (zlen (dtext d)) pos) as [Hge|Hlt]; [by apply wp_ok|].
  change TEXT_MAX with 268435456 in Hmax. rewrite (u64_small (pos + len)) by lia.
  set (n := if _ <? pos + len then _ else _).
  assert (Z.min len (zlen (dtext d) - pos) = n) as -> by (unfold n; destruct (Z.ltb_spec (zlen (dtext d)) (pos + len)); lia).
  assert (0 < n ≤ zlen (dtext d) - pos) as Hn by (unfold n; destruct (Z.ltb_spec (zlen (dtext d)) (pos + len)); lia).
  apply wp_bind. eapply wp_mono; [apply (copy_out_ok A b (dtext d)); done || lia|].
  intros (o & b1) (-> & _ & Hsome). rewrite Hsome by (done || lia).
  rewrite chars_slice by lia. set (s := slice (dtext d) pos n).
  assert (zlen s = n) as Hs by (apply zlen_slice; lia).
  destruct Hr as [(L & R & HLR & HT) Hc Hm Ha Hmod Hname Hu Hq Hl].
  apply wp_bind. eapply wp_mono; [eapply (push_repr A quiet _ d); try done; rewrite ?zlen_app; change (zlen [0]) with 1; lia|].
  intros b2 (u & k & -> & Hin & Hu'). simpl.
  replace (take (Z.to_nat n) (s ++ [0])) with s in Hu'.
  2: { symmetry. rewrite <-Hs. unfold zlen. rewrite Nat2Z.id. by rewrite take_app_length. }
  apply wp_bind. eapply wp_mono; [apply (gap_move_repr _ L R pos HLR); rewrite <-HT; lia|].
  intros g2 ((G & Hd & Hgs & He & Hal & Hb2) & _). rewrite <-HT in *. apply wp_ok. split; [done|].
  set (L' := take (Z.to_nat pos) (dtext d)) in *. set (R' := drop (Z.to_nat pos) (dtext d)) in *.
  assert (zlen R' = zlen (dtext d) - pos) as HR' by (unfold R'; rewrite zlen_drop; lia).
  pose proof (zlen_nonneg L'). pose proof (zlen_nonneg G).
  assert (holds (mkGap (data g2) (gap_start g2) (u64 (gap_end g2 + n)) (alloc g2))
            (edit_do (Del pos s) (dtext d))) as Hfin.
  { exists L', (drop (Z.to_nat n) R'). split.
    - exists (G ++ take (Z.to_nat n) R'). simpl. rewrite Hd, (u64_small (gap_end g2 + n)) by lia.
      rewrite <-app_assoc, take_drop, zlen_app, zlen_take, zlen_drop by lia. split_and!; [done|lia..].
    - simpl. unfold del, L', R'. rewrite drop_drop, Hs. do 2 f_equal. lia. }
  rewrite Hc. rewrite (u64_small (pos + n)) by lia.
  assert (edit_do (Del pos s) (dtext d) = del (dtext d) pos n) as Hdel by (simpl; by rewrite Hs).
  destruct (Z.ltb_spec pos (dcursor d)); [destruct (Z.leb_spec (dcursor d) (pos + n))|];
    constructor; try done; simpl; try (by eapply dirty_repr). rewrite u64_small; lia.
Qed.

(** * Undo and redo *)

(** The record between the edits made and the edits undone can be read, and
    moving [undo_top] across it moves the edit. *)
Lemma record_below b e p f :
  undo_repr (undo b) (e :: p) f →
  undo_top (undo b) = zlen p + 1 ∧ undo_record b (undo_top (undo b) - 1) = Ok (rec_of e) ∧
  ∀ fl, undo_repr (mkUndo (undo_stack (undo b)) (undo_top (undo b) - 1) (undo_cap (undo b)) fl) p (e :: f).
Proof.
  unfold undo_repr, undo_record. destruct (undo_stack (undo b)) as [st|]; [|by intros (? & _)].
  intros (tail & -> & Htail & Htop & Hcap & Hlen). rewrite zlen_cons in Htop. simpl.
  split; [done|]. simpl in Hlen |- *. rewrite (map_app rec_of), <-app_assoc in Hlen |- *. simpl in Hlen |- *. split.
  - rewrite (zget_ok _ _ (Some (rec_of e))); [done|rewrite Htop; pose proof (zlen_nonneg p); lia|].
    rewrite (list_lookup_fmap Some). replace (Z.to_nat (undo_top (undo b) - 1)) with (length (map rec_of (rev p))).
    + by rewrite list_lookup_middle.
    + rewrite length_map, length_rev, Htop. unfold zlen. lia.
  - intros fl. exists tail. split_and!; [done|done|lia|done|done].
Qed.

Lemma record_above b e p f :
  undo_repr (undo b) p (e :: f) →
  undo_top (undo b) = zlen p ∧ zlen p + 1 ≤ 256 ∧ undo_top (undo b) < undo_cap (undo b) ∧
  undo_record b (undo_top (undo b)) = Ok (rec_of e) ∧
  ∀ fl, undo_repr (mkUndo (undo_stack (undo b)) (undo_top (undo b) + 1) (undo_cap (undo b)) fl) (e :: p) f.
Proof.
  unfold undo_repr, undo_record. destruct (undo_stack (undo b)) as [st|]; [|by intros (_ & ? & _)].
  intros (tail & -> & Htail & Htop & Hcap & Hlen). change UNDO_CAP with 256 in *.
  assert (zlen p + 1 ≤ 256) as Hle.
  { rewrite <-Hlen. unfold zlen. rewrite length_map, length_app, length_map, length_rev. simpl. lia. }
  split_and!; [done|done|lia| |].
  - rewrite (zget_ok _ _ (Some (rec_of e))); [done|rewrite Htop; apply zlen_nonneg|].
    rewrite (list_lookup_fmap Some). replace (Z.to_nat (undo_top (undo b))) with (length (map rec_of (rev p))).
    + simpl. by rewrite list_lookup_middle.
    + rewrite length_map, length_rev, Htop. unfold zlen. lia.
  - intros fl. exists tail. simpl. rewrite (map_app rec_of), <-app_assoc, zlen_cons. simpl in *.
    split_and!; [done|done|lia|done|done].
Qed.

Lemma quiet_on b d : repr false b d → repr true (set_in_undo true b) d.
Proof. intros []. constructor; try done. Qed.

Lemma quiet_off b d p f :
  repr true b d →
  undo_repr (mkUndo (undo_stack (undo b)) (undo_top (undo b)) (undo_cap (undo b)) false) p f →
  repr false (set_in_undo false b) (set_hist p f d).
Proof. intros [] H. constructor; try done. Qed.

Lemma take_text (s : list Z) : take (Z.to_nat (zlen s)) (s ++ [0]) = s.
Proof. unfold zlen. rewrite Nat2Z.id. apply take_app_length. Qed.

(** What the replay of an edit on the document needs. *)
Definition can_undo (e : edit) (d : Doc) : Prop :=
  match e with
  | Ins q s => 0 ≤ q ∧ q + zlen s < 2 ^ 64
  | Del q s => 0 ≤ q ∧ zlen (dtext d) + zlen s ≤ TEXT_MAX
  end.
Definition can_redo (e : edit) (d : Doc) : Prop :=
  match e with
  | Ins q s => 0 ≤ q ∧ zlen (dtext d) + zlen s ≤ TEXT_MAX
  | Del q s => 0 ≤ q ∧ q + zlen s < 2 ^ 64
  end.

Lemma past_quiet_insert d q s :
  past (doc_insert true d q s).2 = past d ∧ future (doc_insert true d q s).2 = future d.
Proof. unfold doc_insert. by destruct (_ =? _). Qed.
Lemma past_quiet_delete d q n :
  past (doc_delete true d q n).2 = past d ∧ future (doc_delete true d q n).2 = future d.
Proof. unfold doc_delete. by destruct (_ || _). Qed.

Lemma set_cursor_repr q b d c : repr q b d → repr q (set_cursor c b) (set_dcursor c d).
Proof. intros []. by constructor. Qed.

Section replay.
Context (A : allocator) (HA : generous A) (HB : bounded A).
Context (b : Buffer) (d : Doc) (Hr : repr false b d).
Context (Hmax : zlen (dtext d) ≤ TEXT_MAX) (Hcur : 0 ≤ dcursor d < 2 ^ 64).

(** The two replays that undo and redo share. *)
Lemma replay_delete q (s : list Z) : 0 ≤ q → q + zlen s < 2 ^ 64 →
  ('(_, b) ← buffer_delete A (set_in_undo true b) q (zlen s); Ok (set_cursor q b))
  ⇓ λ b', repr true b' (set_dcursor q (doc_delete true d q (zlen s)).2).
Proof using All.
  intros Hq Hs. apply wp_bind.
  eapply wp_mono; [apply (delete_repr A true _ d); try done; [by apply quiet_on|apply zlen_nonneg]|].
  intros (r & b') (_ & Hb'). apply wp_ok. by apply set_cursor_repr.
Qed.

Lemma replay_insert q (s : list Z) : 0 ≤ q → zlen (dtext d) + zlen s ≤ TEXT_MAX →
  ('(_, b) ← buffer_insert A (set_in_undo true b) q (Some (s ++ [0])) (zlen s);
   Ok (set_cursor (u64 (q + zlen s)) b))
  ⇓ λ b', repr true b' (set_dcursor (u64 (q + zlen s)) (doc_insert true d q s).2).
Proof using All.
  intros Hq Hs. apply wp_bind. pose proof (zlen_nonneg s).
  eapply wp_mono; [apply (insert_repr A true _ d); try done; [by apply quiet_on|rewrite zlen_app; change (zlen [0]) with 1; lia]|].
  intros (r & b'). rewrite take_text. intros (_ & Hb'). apply wp_ok. by apply set_cursor_repr.
Qed.

Lemma undo_ok : (∀ e p, past d = e :: p → can_undo e d) →
  buffer_undo A b ⇓ λ '(r, b'), r = (doc_undo d).1 ∧ repr false b' (doc_undo d).2.
Proof using All.
  intros Hcan. unfold buffer_undo, doc_undo. pose proof (repr_undo _ _ _ Hr) as Hu.
  destruct (past d) as [|e p] eqn:Hp.
  - assert (undo_top (undo b) = 0) as ->; [|by apply wp_ok].
    unfold undo_repr in Hu. destruct (undo_stack (undo b)); [by destruct Hu as (? & _ & _ & -> & _)|].
    by destruct Hu as (_ & _ & -> & _).
  - specialize (Hcan e p eq_refl). destruct (record_below b e p (future d) Hu) as (Htop & Hrec & _).
    rewrite (proj2 (Z.eqb_neq _ _)) by (pose proof (zlen_nonneg p); lia).
    rewrite Hrec. cbn [mbind outcome_bind]. apply wp_bind.
    apply (wp_mono _ (λ b', repr true b' match e with
              | Ins q s => set_dcursor q (doc_delete true d q (zlen s)).2
              | Del q s => set_dcursor (u64 (q + zlen s)) (doc_insert true d q s).2
              end)).
    { destruct e as [q s|q s]; destruct Hcan; [by apply replay_delete|by apply replay_insert]. }
    intros b' Hb'. apply wp_ok. split; [done|].
    assert (undo_repr (undo b') (e :: p) (future d)) as Hu'.
    { pose proof (repr_undo _ _ _ Hb') as Hu'. destruct e as [q s|q s]; simpl in Hu'.
      - destruct (past_quiet_delete d q (zlen s)) as (H1 & H2). by rewrite H1, H2, Hp in Hu'.
      - destruct (past_quiet_insert d q s) as (H1 & H2). by rewrite H1, H2, Hp in Hu'. }
    destruct (record_below b' e p (future d) Hu') as (_ & _ & Hmove).
    destruct Hb'. constructor; try done. apply Hmove.
Qed.

Lemma redo_ok : (∀ e f, future d = e :: f → can_redo e d) →
  buffer_redo A b ⇓ λ '(r, b'), r = (doc_redo d).1 ∧ repr false b' (doc_redo d).2.
Proof using All.
  intros Hcan. unfold buffer_redo, doc_redo. pose proof (repr_undo _ _ _ Hr) as Hu.
  destruct (future d) as [|e f] eqn:Hf.
  - unfold undo_record. unfold undo_repr in Hu. destruct (undo_stack (undo b)) as [st|].
    + destruct Hu as (tail & -> & Htail & Htop & Hcap & Hlen).
      destruct (Z.leb_spec (undo_cap (undo b)) (undo_top (undo b))) as [Hle|Hlt]; [by apply wp_ok|].
      simpl in Hlen. rewrite Hcap, Htop in Hlt. rewrite <-Hlen in Hlt.
      unfold zlen in Hlt. rewrite length_map, length_app, length_map, length_rev in Hlt.
      destruct tail as [|r tail]; [simpl in Hlt; lia|].
      rewrite (zget_ok _ _ (Some r)); [|rewrite Htop; apply zlen_nonneg|].
      * simpl. apply Forall_inv in Htail. simpl in Htail. rewrite Htail. by apply wp_ok.
      * rewrite (list_lookup_fmap Some). replace (Z.to_nat (undo_top (undo b))) with (length (map rec_of (rev (past d)))).
        -- simpl. by rewrite list_lookup_middle.
        -- rewrite length_map, length_rev, Htop. unfold zlen. lia.
    + destruct Hu as (_ & _ & -> & ->). by apply wp_ok.
  - specialize (Hcan e f eq_refl).
    destruct (record_above b e (past d) f Hu) as (Htop & Hfit & Hlt & Hrec & _).
    rewrite (proj2 (Z.leb_gt _ _)) by lia. rewrite Hrec. cbn [mbind outcome_bind].
    assert (text (rec_of e) = Some (match e with Ins _ s | Del _ s => s end ++ [0])) as ->
      by (by destruct e).
    apply wp_bind.
    apply (wp_mono _ (λ b', repr true b' match e with
              | Ins q s => set_dcursor (u64 (q + zlen s)) (doc_insert true d q s).2
              | Del q s => set_dcursor q (doc_delete true d q (zlen s)).2
              end)).
    { destruct e as [q s|q s]; destruct Hcan; [by apply replay_insert|by apply replay_delete]. }
    intros b' Hb'.
    assert (undo_repr (undo b') (past d) (e :: f)) as Hu'.
    { pose proof (repr_undo _ _ _ Hb') as Hu'. destruct e as [q s|q s]; simpl in Hu'.
      - destruct (past_quiet_insert d q s) as (H1 & H2). by rewrite H1, H2, Hf in Hu'.
      - destruct (past_quiet_delete d q (zlen s)) as (H1 & H2). by rewrite H1, H2, Hf in Hu'. }
    destruct (record_above b' e (past d) f Hu') as (Htop' & _ & _ & _ & Hmove).
    simpl. rewrite int_ok by (rewrite Htop'; pose proof (zlen_nonneg (past d)); lia). simpl.
    apply wp_ok. split; [done|]. destruct Hb'. constructor; try done. apply Hmove.
Qed.

End replay.

End TextEdit.
