(* ===== verification/TextClient.v ===== *)
(** Programs that use the text buffer: any sequence of its public operations
    does to the buffer what the sequence of abstract operations does to the
    document, undo and redo walk through the texts of the past, positions and
    line/column pairs convert into each other, and the searches find the
    occurrences they should. *)
From stdpp Require Import base list.
From S2P Require Import Prelude.
From S2P Require Import KString.
From S2P Require Import CLib.
From S2P Require Import TextBuffer.
From S2P Require Import TextLines.
From S2P Require Import TextEdit.
Import KString TextBuffer TextStore TextLines TextEdit.

Module TextClient.

(** * A coherent history *)
Definition edit_ok (e : edit) (t : list Z) : Prop :=
  match e with
  | Ins p s => 0 ≤ p ≤ zlen t ∧ s ≠ []
  | Del p s => 0 ≤ p ∧ p + zlen s ≤ zlen t ∧ s ≠ [] ∧ slice t p (zlen s) = s
  end.

(** The edits made lead to [t] from a text, through texts that all fit. *)
Fixpoint past_ok (t : list Z) (p : list edit) : Prop :=
  match p with
  | [] => True
  | e :: p => ∃ t0, edit_ok e t0 ∧ edit_do e t0 = t ∧ zlen t0 ≤ TEXT_MAX ∧ past_ok t0 p
  end.
(** The edits undone can be made again, one after the other. *)
Fixpoint future_ok (t : list Z) (f : list edit) : Prop :=
  match f with
  | [] => True
  | e :: f => edit_ok e t ∧ zlen (edit_do e t) ≤ TEXT_MAX ∧ future_ok (edit_do e t) f
  end.

Record good (d : Doc) : Prop := mk_good {
  good_text : zlen (dtext d) ≤ TEXT_MAX;
  good_cursor : 0 ≤ dcursor d < 2 ^ 64;
  good_mark : 0 ≤ dmark d < 2 ^ 64;
  good_past : past_ok (dtext d) (past d);
  good_future : future_ok (dtext d) (future d) }.

Lemma zlen_ins t p s : 0 ≤ p ≤ zlen t → zlen (ins t p s) = zlen t + zlen s.
Proof. intros. unfold ins. rewrite !zlen_app, zlen_take, zlen_drop by lia. lia. Qed.
Lemma zlen_del t p n : 0 ≤ p → 0 ≤ n → p + n ≤ zlen t → zlen (del t p n) = zlen t - n.
Proof. intros. unfold del. rewrite zlen_app, zlen_take, zlen_drop by lia. lia. Qed.

Lemma del_ins t p s : 0 ≤ p ≤ zlen t → del (ins t p s) p (zlen s) = t.
Proof.
  intros Hp. assert (length (take (Z.to_nat p) t) = Z.to_nat p) as Hl
    by (rewrite length_take; unfold zlen in Hp; lia).
  unfold del, ins. rewrite take_app_le, take_ge by lia.
  replace (Z.to_nat (p + zlen s)) with (length (take (Z.to_nat p) t) + length s)%nat
    by (unfold zlen; lia).
  rewrite <-drop_drop, !drop_app_length. apply take_drop.
Qed.

Lemma ins_del t p n : 0 ≤ p → 0 ≤ n → p + n ≤ zlen t → ins (del t p n) p (slice t p n) = t.
Proof.
  intros Hp Hn Hle. assert (length (take (Z.to_nat p) t) = Z.to_nat p) as Hl
    by (rewrite length_take; unfold zlen in Hle; lia).
  unfold ins, del, slice.
  rewrite take_app_le, take_ge by lia. rewrite (drop_app_ge (take _ t)), Hl, Nat.sub_diag, drop_0 by lia.
  replace (Z.to_nat (p + n)) with (Z.to_nat p + Z.to_nat n)%nat by lia.
  by rewrite <-drop_drop, take_drop, take_drop.
Qed.

Lemma slice_ins t p s : 0 ≤ p ≤ zlen t → slice (ins t p s) p (zlen s) = s.
Proof.
  intros Hp. unfold slice, ins. assert (length (take (Z.to_nat p) t) = Z.to_nat p) as Hl
    by (rewrite length_take; unfold zlen in Hp; lia).
  rewrite <-Hl at 1. rewrite drop_app_length. unfold zlen. rewrite Nat2Z.id. apply take_app_length.
Qed.

(** Undoing an edit gives back the text it was made in. *)
Lemma edit_undo_do e t : edit_ok e t → edit_undo e (edit_do e t) = t.
Proof.
  destruct e as [p s|p s]; simpl.
  - intros (Hp & _). by apply del_ins.
  - intros (Hp & Hle & _ & Hs). rewrite <-Hs at 2. apply ins_del; [done|apply zlen_nonneg|done].
Qed.

Lemma zlen_pos {A} (s : list A) : s ≠ [] → 0 < zlen s.
Proof. destruct s; [done|]. unfold zlen. simpl. lia. Qed.

(** What undo and redo do to the text of a good document. *)
Lemma undo_text d e p t0 :
  past d = e :: p → edit_ok e t0 → edit_do e t0 = dtext d → dtext (doc_undo d).2 = t0.
Proof.
  intros Hp Hok Ht. pose proof (edit_undo_do e t0 Hok) as Hu. unfold doc_undo. rewrite Hp.
  destruct e as [q s|q s]; simpl in *.
  - destruct Hok as (Hq & Hs%zlen_pos). unfold doc_delete.
    rewrite (proj2 (Z.eqb_neq (zlen s) 0)) by lia. simpl.
    pose proof (zlen_ins t0 q s Hq) as Hz. rewrite Ht in Hz, Hu.
    rewrite (proj2 (Z.leb_gt _ q)) by lia. simpl. rewrite Z.min_l by lia.
    by rewrite zlen_slice by lia.
  - destruct Hok as (Hq & Hle & Hs%zlen_pos & _). unfold doc_insert.
    rewrite (proj2 (Z.eqb_neq (zlen s) 0)) by lia. simpl.
    pose proof (zlen_del t0 q (zlen s) Hq ltac:(lia) Hle) as Hz. rewrite Ht in Hz, Hu.
    by rewrite Z.min_l by lia.
Qed.

Lemma redo_text d e f :
  future d = e :: f → edit_ok e (dtext d) → dtext (doc_redo d).2 = edit_do e (dtext d).
Proof.
  intros Hf Hok. unfold doc_redo. rewrite Hf. destruct e as [q s|q s]; simpl in *.
  - destruct Hok as (Hq & Hs%zlen_pos). unfold doc_insert.
    rewrite (proj2 (Z.eqb_neq (zlen s) 0)) by lia. simpl. by rewrite Z.min_l by lia.
  - destruct Hok as (Hq & Hle & Hs%zlen_pos & _). unfold doc_delete.
    rewrite (proj2 (Z.eqb_neq (zlen s) 0)) by lia. simpl.
    rewrite (proj2 (Z.leb_gt _ q)) by lia. simpl. rewrite Z.min_l by lia.
    by rewrite zlen_slice by lia.
Qed.

(** Each operation on documents keeps them good. *)
Lemma u64_in x : 0 ≤ u64 x < 2 ^ 64.
Proof. pose proof (u64_range x). lia. Qed.

Lemma good_set_cursor c d : good d → 0 ≤ c < 2 ^ 64 → good (set_dcursor c d).
Proof. intros []. by constructor. Qed.
Lemma good_set_mark m a d : good d → 0 ≤ m < 2 ^ 64 → good (set_dmark m a d).
Proof. intros []. by constructor. Qed.

Lemma good_insert d pos s :
  good d → 0 ≤ pos → zlen (dtext d) + zlen s ≤ TEXT_MAX → good (doc_insert false d pos s).2.
Proof.
  intros [Ht Hc Hm Hp Hf] Hpos Hfit. unfold doc_insert. pose proof (zlen_nonneg (dtext d)).
  destruct (Z.eqb_spec (zlen s) 0) as [|Hs]; [done|].
  constructor; simpl; try done.
  - rewrite zlen_ins by lia. done.
  - destruct (_ <=? _); [apply u64_in|done].
  - exists (dtext d). split_and!; try done; try lia. intros ->. done.
Qed.

Lemma good_delete d pos len :
  good d → 0 ≤ pos → 0 ≤ len → good (doc_delete false d pos len).2.
Proof.
  intros [Ht Hc Hm Hp Hf] Hpos Hlen. unfold doc_delete.
  destruct (Z.eqb_spec len 0) as [|Hz]; [done|]. destruct (Z.leb_spec (zlen (dtext d)) pos); [done|]. simpl.
  set (n := Z.min _ _). assert (0 < n ≤ zlen (dtext d) - pos) as Hn by (unfold n; lia).
  assert (zlen (slice (dtext d) pos n) = n) as Hs by (apply zlen_slice; lia).
  constructor; simpl; try done.
  - rewrite Hs, zlen_del by lia. lia.
  - destruct (Z.ltb_spec pos (dcursor d)); [|lia].
    destruct (Z.leb_spec (dcursor d) (pos + n)); lia.
  - exists (dtext d). rewrite Hs. split_and!; try done; try lia.
    intros Hnil. rewrite Hnil in Hs. unfold zlen in Hs. simpl in Hs. lia.
Qed.

Lemma quiet_delete_mark d q n : dmark (doc_delete true d q n).2 = dmark d.
Proof. unfold doc_delete. by destruct (_ || _). Qed.
Lemma quiet_insert_mark d q s : dmark (doc_insert true d q s).2 = dmark d.
Proof. unfold doc_insert. by destruct (_ =? _). Qed.

Lemma edit_pos_range e t : edit_ok e t → zlen t ≤ TEXT_MAX → zlen (edit_do e t) ≤ TEXT_MAX →
  match e with Ins q s | Del q s => 0 ≤ q < 2 ^ 64 ∧ q + zlen s < 2 ^ 64 end.
Proof.
  change TEXT_MAX with 268435456. destruct e as [q s|q s]; simpl.
  - intros (Hq & _) Ht Hd. rewrite zlen_ins in Hd by done. lia.
  - intros (Hq & Hle & _) Ht _. pose proof (zlen_nonneg s). lia.
Qed.

Lemma good_undo d : good d → good (doc_undo d).2.
Proof.
  intros Hg. pose proof Hg as [Ht Hc Hm Hp Hf]. destruct (past d) as [|e p] eqn:Hpast.
  { unfold doc_undo. by rewrite Hpast. }
  destruct Hp as (t0 & Hok & Hdo & Hfit & Hp).
  pose proof (undo_text d e p t0 Hpast Hok Hdo) as Htext.
  pose proof (edit_pos_range e t0 Hok Hfit) as Hrange. rewrite Hdo in Hrange. specialize (Hrange Ht).
  constructor; rewrite ?Htext; try done; unfold doc_undo in *; rewrite Hpast in *; simpl in *.
  - destruct e; simpl; [lia|apply u64_in].
  - destruct e; simpl; rewrite ?quiet_delete_mark, ?quiet_insert_mark; done.
  - done.
  - by rewrite Hdo.
Qed.

Lemma good_redo d : good d → good (doc_redo d).2.
Proof.
  intros Hg. pose proof Hg as [Ht Hc Hm Hp Hf]. destruct (future d) as [|e f] eqn:Hfut.
  { unfold doc_redo. by rewrite Hfut. }
  destruct Hf as (Hok & Hfit & Hf). pose proof (redo_text d e f Hfut Hok) as Htext.
  pose proof (edit_pos_range e _ Hok Ht Hfit) as Hrange.
  constructor; rewrite ?Htext; try done; unfold doc_redo in *; rewrite Hfut in *; simpl in *; try done.
  - destruct e; simpl; [apply u64_in|lia].
  - destruct e; simpl; rewrite ?quiet_delete_mark, ?quiet_insert_mark; done.
  - by exists (dtext d).
Qed.

Lemma good_can_undo d e p : good d → past d = e :: p → can_undo e d.
Proof.
  intros [Ht _ _ Hp _] Hpast. rewrite Hpast in Hp. destruct Hp as (t0 & Hok & Hdo & Hfit & _).
  pose proof (edit_pos_range e t0 Hok Hfit) as Hrange. rewrite Hdo in Hrange. specialize (Hrange Ht).
  destruct e as [q s|q s]; simpl in *; [lia|]. split; [lia|].
  destruct Hok as (Hq & Hle & _). pose proof (zlen_nonneg s).
  rewrite <-Hdo, zlen_del by lia. lia.
Qed.

Lemma good_can_redo d e f : good d → future d = e :: f → can_redo e d.
Proof.
  intros [Ht _ _ _ Hf] Hfut. rewrite Hfut in Hf. destruct Hf as (Hok & Hfit & _).
  pose proof (edit_pos_range e _ Hok Ht Hfit) as Hrange.
  destruct e as [q s|q s]; simpl in *; [|lia]. split; [lia|].
  destruct Hok as (Hq & _). rewrite zlen_ins in Hfit by done. done.
Qed.

(** * Calls *)
Inductive call :=
  | CInsert (pos : Z) (txt : list Z)
  | CInsertChar (pos c : Z)
  | CDelete (pos len : Z)
  | CDeleteRange (start end_ : Z)
  | CDeleteBefore (pos : Z)
  | CDeleteAfter (pos : Z)
  | CDeleteLine (line : Z)
  | CUndo
  | CRedo
  | CCursorSet (pos : Z)
  | CCursorMove (delta : Z)
  | CCursorLine (delta : Z)
  | CHome
  | CEnd
  | CWordForward
  | CWordBack
  | CMarkSet (pos : Z)
  | CMarkClear
  | CDeleteSelection
  | CCut
  | CPaste (txt : list Z)
  | CCopy
  | CSelectionText
  | CLineText (line : Z)
  | CLength
  | CCharAt (pos : Z)
  | CLineCount
  | CPosToLc (pos : Z)
  | CLcToPos (line col : Z)
  | CLineStart (line : Z)
  | CLineEnd (line : Z)
  | CFind (from : Z) (needle : list Z) (case_sensitive : bool).

(** What the program gets back. *)
Definition reply (m : outcome (Z * Buffer)) : outcome (list Z * Buffer) :=
  '(r, b) ← m; Ok ([r], b).
Definition silent (m : outcome Buffer) : outcome (list Z * Buffer) := b ← m; Ok ([], b).

Definition exec (A : allocator) (c : call) (b : Buffer) : outcome (list Z * Buffer) :=
  match c with
  | CInsert pos txt => reply (buffer_insert A b pos (Some txt) (zlen txt))
  | CInsertChar pos c => reply (buffer_insert_char A b pos c)
  | CDelete pos len => reply (buffer_delete A b pos len)
  | CDeleteRange s e => reply (buffer_delete_range A b s e)
  | CDeleteBefore pos => reply (buffer_delete_char_before A b pos)
  | CDeleteAfter pos => reply (buffer_delete_char_after A b pos)
  | CDeleteLine line => reply (buffer_delete_line A b line)
  | CUndo => reply (buffer_undo A b)
  | CRedo => reply (buffer_redo A b)
  | CCursorSet pos => silent (Ok (buffer_cursor_set b pos))
  | CCursorMove delta => silent (buffer_cursor_move b delta)
  | CCursorLine delta => silent (buffer_cursor_line A b delta)
  | CHome => silent (buffer_cursor_home A b)
  | CEnd => silent (buffer_cursor_end A b)
  | CWordForward => silent (buffer_cursor_word_forward b)
  | CWordBack => silent (buffer_cursor_word_back b)
  | CMarkSet pos => silent (Ok (buffer_mark_set b pos))
  | CMarkClear => silent (Ok (buffer_mark_clear b))
  | CDeleteSelection => reply (buffer_delete_selection A b)
  | CCut =>
      '(r, t, _, b) ← buffer_cut A b true true; Ok (r :: default [] t, b)
  | CPaste txt => reply (buffer_paste A b (Some txt) (zlen txt))
  | CCopy => '(r, t, _, b) ← buffer_copy A b true true; Ok (r :: default [] t, b)
  | CSelectionText => '(t, b) ← buffer_selection_text A b; Ok (default [] t, b)
  | CLineText line => '(t, b) ← buffer_line_text A b line; Ok (default [] t, b)
  | CLength => Ok ([buffer_length b], b)
  | CCharAt pos => c ← buffer_char_at b pos; Ok ([c], b)
  | CLineCount => reply (buffer_line_count A b)
  | CPosToLc pos => '(l, c, b) ← buffer_pos_to_lc A b pos; Ok ([l; c], b)
  | CLcToPos line col => reply (buffer_lc_to_pos A b line col)
  | CLineStart line => reply (buffer_line_start A b line)
  | CLineEnd line => reply (buffer_line_end A b line)
  | CFind from needle cs => r ← buffer_find b from (Some needle) (zlen needle) cs; Ok ([r], b)
  end.

Fixpoint run (A : allocator) (cs : list call) (b : Buffer) : outcome (list (list Z) * Buffer) :=
  match cs with
  | [] => Ok ([], b)
  | c :: cs => '(r, b) ← exec A c b; '(rs, b) ← run A cs b; Ok (r :: rs, b)
  end.

(** * The calls on documents *)
Definition answer (x : Z * Doc) : list Z * Doc := ([x.1], x.2).

Definition doc_selection (d : Doc) : Z * Z := (Z.min (dcursor d) (dmark d), Z.max (dcursor d) (dmark d)).
Definition doc_selected (d : Doc) : bool := dactive d && negb (dmark d =? dcursor d).
Definition doc_delete_selection (d : Doc) : Z * Doc :=
  if doc_selected d then
    let '(s, e) := doc_selection d in
    doc_delete false (set_dcursor s (set_dmark (dmark d) false d)) s (e - s)
  else (-1, d).
Definition doc_paste (d : Doc) (txt : list Z) : Z * Doc :=
  if zlen txt =? 0 then (-1, d)
  else
    let d := if doc_selected d then (doc_delete_selection d).2 else d in
    let '(r, d) := doc_insert false d (dcursor d) txt in
    (r, set_dcursor (u64 (dcursor d + zlen txt)) d).
Definition doc_delete_line (d : Doc) (line : Z) : Z * Doc :=
  let n := zlen (starts (dtext d)) in
  if (line <? 0) || (n <=? line) then (-1, d)
  else
    let next := if line + 1 <? n then start_of (dtext d) (line + 1) else zlen (dtext d) in
    doc_delete false d (start_of (dtext d) line) (next - start_of (dtext d) line).

(** What the selection holds, as a string. *)
Definition doc_selection_text (d : Doc) : list Z :=
  let '(s, e) := doc_selection d in chars (dtext d) s (e - s) ++ [0].

(** The column of a position, and the position of a line and a column. *)
Definition col_of (t : list Z) (pos : Z) : Z := i32 (u64 (pos - start_of t (line_of t pos))).
Definition lc_pos (t : list Z) (line col : Z) : Z :=
  let k := clamp (zlen (starts t)) line in
  let n := u64 (end_of t k - start_of t k) in
  u64 (start_of t k + (if n <? u64 col then i32 n else col)).

(** The longest run of characters with a property from the front, and the
    largest number not above [n] without one. *)
Fixpoint span (f : Z → bool) (l : list Z) : Z :=
  match l with [] => 0 | x :: l' => if f x then 1 + span f l' else 0 end.
Fixpoint rewind (f : nat → bool) (n : nat) : nat :=
  match n with O => O | S m => if f n then rewind f m else n end.

Definition blank_ (c : Z) : bool := c =? 32.
Definition inside_word (c : Z) : bool := negb (c =? 32) && negb (c =? NL).

Definition word_forward (t : list Z) (pos : Z) : Z :=
  let p := pos + span blank_ (drop (Z.to_nat pos) t) in
  p + span inside_word (drop (Z.to_nat p) t).
Definition word_back (t : list Z) (pos : Z) : Z :=
  if pos =? 0 then 0
  else
    let p := rewind (λ i, blank_ (char_at t (Z.of_nat i))) (Z.to_nat (pos - 1)) in
    Z.of_nat (rewind (λ i, inside_word (char_at t (Z.of_nat i - 1))) p).

(** The occurrences of [needle], upper and lower case alike unless [cs]. *)
Definition norm (cs : bool) (s : list Z) : list Z := map (λ c, if cs then c else lower c) s.
Definition occurs (t : list Z) (i : Z) (needle : list Z) (cs : bool) : Prop :=
  norm cs (chars t i (zlen needle)) = norm cs needle.
#[global] Instance occurs_dec t i needle cs : Decision (occurs t i needle cs).
Proof. unfold occurs. apply _. Defined.
Definition first_occurrence (t : list Z) (from : Z) (needle : list Z) (cs : bool) : option Z :=
  head (filter (λ i, occurs t i needle cs)
          (seqZ from (zlen t - zlen needle + 1 - from))).
Definition doc_find (t : list Z) (from : Z) (needle : list Z) (cs : bool) : Z :=
  if zlen needle =? 0 then BUFFER_NPOS
  else default BUFFER_NPOS (first_occurrence t from needle cs).

Definition spec (c : call) (d : Doc) : list Z * Doc :=
  let t := dtext d in
  match c with
  | CInsert pos txt => answer (doc_insert false d pos txt)
  | CInsertChar pos c => answer (doc_insert false d pos [c])
  | CDelete pos len => answer (doc_delete false d pos len)
  | CDeleteRange s e => if e <=? s then ([-1], d) else answer (doc_delete false d s (e - s))
  | CDeleteBefore pos => if pos =? 0 then ([-1], d) else answer (doc_delete false d (pos - 1) 1)
  | CDeleteAfter pos => answer (doc_delete false d pos 1)
  | CDeleteLine line => answer (doc_delete_line d line)
  | CUndo => answer (doc_undo d)
  | CRedo => answer (doc_redo d)
  | CCursorSet pos => ([], set_dcursor (Z.min pos (zlen t)) d)
  | CCursorMove delta =>
      ([], set_dcursor (if delta <? 0 then Z.max 0 (dcursor d + delta)
                        else Z.min (u64 (dcursor d + delta)) (zlen t)) d)
  | CCursorLine delta =>
      ([], set_dcursor (lc_pos t (line_of t (dcursor d) + delta) (col_of t (dcursor d))) d)
  | CHome => ([], set_dcursor (start_of t (line_of t (dcursor d))) d)
  | CEnd => ([], set_dcursor (line_end t (line_of t (dcursor d))) d)
  | CWordForward => ([], set_dcursor (word_forward t (dcursor d)) d)
  | CWordBack => ([], set_dcursor (word_back t (dcursor d)) d)
  | CMarkSet pos => ([], set_dmark pos true d)
  | CMarkClear => ([], set_dmark (dmark d) false d)
  | CDeleteSelection => answer (doc_delete_selection d)
  | CCut =>
      if doc_selected d then (0 :: doc_selection_text d, (doc_delete_selection d).2) else ([-1], d)
  | CPaste txt => answer (doc_paste d txt)
  | CCopy => (if doc_selected d then 0 :: doc_selection_text d else [-1], d)
  | CSelectionText => (if doc_selected d then doc_selection_text d else [], d)
  | CLineText line =>
      let k := clamp (zlen (starts t)) line in
      (chars t (start_of t k) (line_end t k - start_of t k) ++ [0], d)
  | CLength => ([zlen t], d)
  | CCharAt pos => ([char_at t pos], d)
  | CLineCount => ([zlen (starts t)], d)
  | CPosToLc pos => ([line_of t pos; col_of t pos], d)
  | CLcToPos line col => ([lc_pos t line col], d)
  | CLineStart line => ([start_of t (clamp (zlen (starts t)) line)], d)
  | CLineEnd line => ([line_end t (clamp (zlen (starts t)) line)], d)
  | CFind from needle cs => ([doc_find t from needle cs], d)
  end.

Fixpoint spec_run (cs : list call) (d : Doc) : list (list Z) * Doc :=
  match cs with
  | [] => ([], d)
  | c :: cs => let '(r, d) := spec c d in let '(rs, d) := spec_run cs d in (r :: rs, d)
  end.

(** * The calls the theorems are about

    Arguments within their types, texts of at most [TEXT_MAX] characters, and
    no more edits than the undo stack holds without growing: the growth of
    that stack is unsound (see [undo_growth_unsound]). *)
Definition is_size (x : Z) : bool := (0 <=? x) && (x <? 2 ^ 64).
Definition is_int (x : Z) : bool := (-2 ^ 31 <=? x) && (x <? 2 ^ 31).
Definition has_room (n : Z) (d : Doc) : bool := zlen (past d) + n <=? UNDO_CAP.
Definition fits (n : Z) (d : Doc) : bool := zlen (dtext d) + n <=? TEXT_MAX.

Definition allowed (c : call) (d : Doc) : bool :=
  match c with
  | CInsert pos txt => is_size pos && has_room 1 d && fits (zlen txt) d
  | CInsertChar pos _ => is_size pos && has_room 1 d && fits 1 d
  | CDelete pos len => is_size pos && is_size len && is_size (pos + len) && has_room 1 d
  | CDeleteRange s e => is_size s && is_size e && has_room 1 d
  | CDeleteBefore pos => is_size pos && has_room 1 d
  | CDeleteAfter pos => is_size (pos + 1) && is_size pos && has_room 1 d
  | CDeleteLine line => is_int line && has_room 1 d
  | CUndo | CRedo | CHome | CEnd | CWordForward | CWordBack | CMarkClear => true
  | CCursorSet pos | CMarkSet pos | CCharAt pos | CPosToLc pos => is_size pos
  | CCursorMove delta => (-2 ^ 31 <? delta) && (delta <? 2 ^ 31)
  | CCursorLine delta => (- 2 ^ 30 <=? delta) && (delta <=? 2 ^ 30)
  | CDeleteSelection => has_room 1 d
  | CCut => has_room 1 d && (dcursor d <? 2 ^ 32) && (dmark d <? 2 ^ 32)
  | CPaste txt => has_room 2 d && fits (zlen txt) d
  | CCopy | CSelectionText => (dcursor d <? 2 ^ 32) && (dmark d <? 2 ^ 32)
  | CLineText line =>
      (* the end of an empty last line lies before its start: see [line_text_unsound] *)
      let k := clamp (zlen (starts (dtext d))) line in
      is_int line && (start_of (dtext d) k <=? line_end (dtext d) k)
  | CLength | CLineCount => true
  | CLcToPos line col => is_int line && is_int col
  | CLineStart line | CLineEnd line => is_int line
  | CFind from needle _ => is_size from && is_size (from + zlen needle)
  end.

Fixpoint all_allowed (cs : list call) (d : Doc) : bool :=
  match cs with
  | [] => true
  | c :: cs => allowed c d && all_allowed cs (spec c d).2
  end.

Definition empty_doc : Doc := mkDoc [] 0 0 false false None [] [].

(** * The searches *)
Lemma occurs_pointwise t i needle cs :
  occurs t i needle cs ↔
  ∀ j, 0 ≤ j < zlen needle →
    (if cs then char_at t (i + j) else lower (char_at t (i + j))) =
    (if cs then char_at needle j else lower (char_at needle j)).
Proof.
  unfold occurs, norm, chars. rewrite map_map. split.
  - intros Heq j Hj. apply (f_equal (λ l, l !! Z.to_nat j)) in Heq.
    rewrite !list_lookup_fmap, lookup_seq_lt in Heq by (unfold zlen in *; lia).
    destruct (lookup_lt_is_Some_2 needle (Z.to_nat j)) as [x Hx]; [unfold zlen in *; lia|].
    rewrite Hx in Heq. simpl in Heq. unfold char_at at 3 4. rewrite Hx. simpl.
    rewrite Z2Nat.id in Heq by lia. congruence.
  - intros Hall. apply list_eq; intros k. rewrite !list_lookup_fmap.
    destruct (decide (k < length needle)%nat) as [Hk|Hk].
    + rewrite lookup_seq_lt by (unfold zlen in *; lia).
      destruct (lookup_lt_is_Some_2 needle k Hk) as [x Hx]. rewrite Hx. simpl. f_equal.
      rewrite (Hall (Z.of_nat k)) by (unfold zlen; lia). unfold char_at. by rewrite Nat2Z.id, Hx.
    + rewrite lookup_seq_ge, (lookup_ge_None_2 needle k) by (unfold zlen; lia). done.
Qed.

Lemma match_at_ok b t i needle cs :
  holds (gap b) t → 0 ≤ i → i + zlen needle < 2 ^ 64 →
  match_at b i needle (zlen needle) cs = Ok (bool_decide (occurs t i needle cs)).
Proof.
  intros Hb Hi Hsum. unfold match_at.
  match goal with |- (?m ≫= _) = _ =>
    assert (m ⇓ λ r, (match r with inl _ => true | inr _ => false end) =
                     bool_decide (occurs t i needle cs)) as (r & -> & Hr); [|simpl; by rewrite Hr] end.
  apply (wp_for (λ j _, ∀ k, 0 ≤ k < j →
    (if cs then char_at t (i + k) else lower (char_at t (i + k))) =
    (if cs then char_at needle k else lower (char_at needle k)))); [apply zlen_nonneg|lia| |].
  - intros j _ Hj Hall. rewrite (u64_small (i + j)), (char_at_ok b t) by (done || lia). cbn [mbind outcome_bind].
    destruct (zget_in needle j Hj) as [x Hx]. rewrite (zget_ok needle j x) by (done || lia). simpl.
    assert (x = char_at needle j) as -> by (unfold char_at; by rewrite Hx).
    apply wp_ok. destruct (Z.eqb_spec (if cs then char_at t (i + j) else lower (char_at t (i + j)))
      (if cs then char_at needle j else lower (char_at needle j))) as [Heq|Hne].
    + intros k Hk. destruct (decide (k = j)) as [->|]; [done|]. apply Hall. lia.
    + rewrite bool_decide_eq_false_2; [done|]. rewrite occurs_pointwise. auto.
  - intros _ Hall. symmetry. apply bool_decide_eq_true_2, occurs_pointwise. done.
Qed.

(** The first element of a range with a property, step by step. *)
Lemma first_skip (P : Z → Prop) `{∀ x, Decision (P x)} i n :
  0 < n → ¬ P i → head (filter P (seqZ i n)) = head (filter P (seqZ (i + 1) (n - 1))).
Proof. intros Hn HP. rewrite seqZ_cons by done. rewrite filter_cons_False by done. unfold Z.succ, Z.pred. done. Qed.
Lemma first_hit (P : Z → Prop) `{∀ x, Decision (P x)} i n :
  0 < n → P i → head (filter P (seqZ i n)) = Some i.
Proof. intros Hn HP. rewrite seqZ_cons by done. by rewrite filter_cons_True. Qed.

Lemma text_find_ok b t from needle cs :
  holds (gap b) t → 0 ≤ from → from + zlen needle < 2 ^ 64 →
  buffer_find b from (Some needle) (zlen needle) cs = Ok (doc_find t from needle cs).
Proof.
  intros Hb Hf Hsum. unfold buffer_find, doc_find.
  destruct (Z.eqb_spec (zlen needle) 0) as [|Hz]; [done|]. pose proof (zlen_nonneg needle).
  rewrite (buf_length_holds _ t), (u64_small (from + _)) by (done || lia).
  pose proof (holds_bound _ _ Hb). unfold first_occurrence.
  destruct (Z.ltb_spec (zlen t) (from + zlen needle)) as [Hlt|Hge].
  { rewrite seqZ_nil by lia. done. }
  match goal with |- loop ?f ?bd ?s0 = Ok ?r => assert (loop f bd s0 ⇓ λ x, x = r) as (x & -> & ->); [|done] end.
  apply (wp_loop (λ i, from ≤ i ∧ i + zlen needle ≤ zlen t + 1 ∧
       head (filter (λ i, occurs t i needle cs) (seqZ from (zlen t - zlen needle + 1 - from))) =
       head (filter (λ i, occurs t i needle cs) (seqZ i (zlen t - zlen needle + 1 - i))))
     (λ i, Z.to_nat (zlen t + 1 - i))); [|split_and!; [lia|lia|done]|lia].
  intros i (Hi & Hle & Hhead). rewrite (u64_small (i + zlen needle)) by lia.
  destruct (Z.leb_spec (i + zlen needle) (zlen t)) as [Hin|Hout].
  - rewrite (match_at_ok b t) by (done || lia). cbn [mbind outcome_bind]. apply wp_ok.
    case_bool_decide as Hoc.
    + rewrite Hhead, first_hit by (done || lia). done.
    + rewrite (u64_small (i + 1)) by lia. split; [|lia]. split; [lia|]. split; [lia|].
      rewrite Hhead, first_skip by (done || lia). do 3 f_equal. lia.
  - apply wp_ok. rewrite Hhead, seqZ_nil by lia. done.
Qed.

(** * The word movements *)
Lemma span_drop f t (pos : Z) :
  0 ≤ pos → span f (drop (Z.to_nat pos) t) =
  if (pos <? zlen t) && f (char_at t pos) then 1 + span f (drop (Z.to_nat (pos + 1)) t) else 0.
Proof.
  intros Hpos. unfold char_at. destruct (Z.ltb_spec pos (zlen t)).
  - destruct (zget_in t pos) as [x Hx]; [lia|]. rewrite Hx, (drop_S _ x) by done. simpl.
    by replace (Z.to_nat (pos + 1)) with (S (Z.to_nat pos)) by lia.
  - by rewrite drop_ge by (unfold zlen in *; lia).
Qed.

Lemma forward_loop b t f pos fuel :
  holds (gap b) t → 0 ≤ pos → (Z.to_nat (zlen t - pos) < fuel)%nat →
  loop fuel (λ pos,
    if pos <? zlen t then
      c ← buffer_char_at b pos; Ok (if f c : bool then inl (pos + 1) else inr pos)
    else Ok (inr pos)) pos = Ok (pos + span f (drop (Z.to_nat pos) t)).
Proof.
  intros Hb Hpos Hfuel.
  match goal with |- loop ?f ?bd ?s0 = Ok ?r => assert (loop f bd s0 ⇓ λ x, x = r) as (x & -> & ->); [|done] end.
  apply (wp_loop (λ p, pos ≤ p ∧ pos + span f (drop (Z.to_nat pos) t) = p + span f (drop (Z.to_nat p) t))
           (λ p, Z.to_nat (zlen t - p))); [|done|done].
  intros p (Hp & Heq). pose proof (span_drop f t p ltac:(lia)) as Hspan.
  destruct (Z.ltb_spec p (zlen t)).
  - rewrite (char_at_ok b t) by (done || lia). simpl. apply wp_ok. simpl in Hspan.
    destruct (f (char_at t p)); [|lia]. split; lia.
  - apply wp_ok. simpl in Hspan. lia.
Qed.

Lemma backward_loop b t f (at_ : Z → Z) pos fuel :
  holds (gap b) t → 0 ≤ pos → (Z.to_nat pos < fuel)%nat → (∀ p, 0 < p → 0 ≤ at_ p) →
  loop fuel (λ pos,
    if 0 <? pos then
      c ← buffer_char_at b (at_ pos); Ok (if f c : bool then inl (pos - 1) else inr pos)
    else Ok (inr pos)) pos =
  Ok (Z.of_nat (rewind (λ i, f (char_at t (at_ (Z.of_nat i)))) (Z.to_nat pos))).
Proof.
  intros Hb Hpos Hfuel Hat.
  match goal with |- loop ?f ?bd ?s0 = Ok ?r => assert (loop f bd s0 ⇓ λ x, x = r) as (x & -> & ->); [|done] end.
  set (g := λ i, f (char_at t (at_ (Z.of_nat i)))).
  apply (wp_loop (λ p, 0 ≤ p ∧ rewind g (Z.to_nat pos) = rewind g (Z.to_nat p)) Z.to_nat); [|done|done].
  intros p (Hp & Heq). destruct (Z.ltb_spec 0 p) as [H0|H0].
  - rewrite (char_at_ok b t) by (auto; lia). simpl. apply wp_ok. rewrite Heq.
    destruct (Z.to_nat p) as [|m] eqn:Hm; [lia|]. simpl.
    assert (g (S m) = f (char_at t (at_ p))) as -> by (unfold g; by replace (Z.of_nat (S m)) with p by lia).
    destruct (f (char_at t (at_ p))); [|lia].
    replace (Z.to_nat (p - 1)) with m by lia. split; [split; [lia|done]|lia].
  - apply wp_ok. rewrite Heq. replace p with 0 by lia. done.
Qed.

Lemma span_nonneg f l : 0 ≤ span f l.
Proof. induction l as [|x l IH]; simpl; [lia|]. destruct (f x); lia. Qed.

Lemma span_le f l : span f l ≤ zlen l.
Proof.
  induction l as [|x l IH]; simpl; [done|]. rewrite zlen_cons. pose proof (zlen_nonneg l). destruct (f x); lia.
Qed.

Lemma rewind_le f n : (rewind f n ≤ n)%nat.
Proof. induction n as [|n IH]; simpl; [done|]. destruct (f (S n)); lia. Qed.

Lemma word_forward_ok b t :
  holds (gap b) t → 0 ≤ cursor b →
  buffer_cursor_word_forward b = Ok (set_cursor (word_forward t (cursor b)) b).
Proof.
  intros Hb Hc. unfold buffer_cursor_word_forward, word_forward.
  rewrite (buf_length_holds _ t) by done.
  pose proof (forward_loop b t blank_ (cursor b) (S (Z.to_nat (zlen t))) Hb Hc ltac:(lia)) as Hl.
  unfold blank_ at 1 in Hl. rewrite Hl. clear Hl.
  cbn [mbind outcome_bind]. set (p := cursor b + _).
  assert (0 ≤ p) as Hp by (unfold p; pose proof (span_nonneg blank_ (drop (Z.to_nat (cursor b)) t)); lia).
  pose proof (forward_loop b t inside_word p (S (Z.to_nat (zlen t))) Hb Hp ltac:(lia)) as Hl.
  unfold inside_word at 1 in Hl. by rewrite Hl.
Qed.

Lemma word_back_ok b t :
  holds (gap b) t → 0 ≤ cursor b →
  buffer_cursor_word_back b = Ok (set_cursor (word_back t (cursor b)) b).
Proof.
  intros Hb Hc. unfold buffer_cursor_word_back, word_back.
  destruct (Z.eqb_spec (cursor b) 0) as [Hz|Hz].
  { rewrite <-Hz. by destruct b. }
  pose proof (backward_loop b t blank_ id (cursor b - 1) (S (Z.to_nat (cursor b))) Hb
                ltac:(lia) ltac:(lia) ltac:(unfold id; lia)) as Hl.
  unfold blank_ at 1, id in Hl. rewrite Hl. clear Hl.
  cbn [mbind outcome_bind]. set (p := rewind _ _).
  assert (p ≤ Z.to_nat (cursor b - 1))%nat as Hp by apply rewind_le.
  pose proof (backward_loop b t inside_word (λ p, p - 1) (Z.of_nat p) (S (Z.to_nat (cursor b))) Hb
                ltac:(lia) ltac:(lia) ltac:(lia)) as Hl.
  unfold inside_word at 1 in Hl. rewrite Hl.
  cbn [mbind outcome_bind]. by rewrite Nat2Z.id.
Qed.

(** * Every call refines its abstract counterpart *)
Lemma queried_repr b b' d : repr false b d → queried b b' (dtext d) → repr false b' d.
Proof. intros [] (l & k & -> & Hl). constructor; try done. by apply clean_repr. Qed.

Lemma reply_ok (m : outcome (Z * Buffer)) (x : Z * Doc) :
  m ⇓ (λ '(r, b'), r = x.1 ∧ repr false b' x.2) →
  reply m ⇓ λ '(r, b'), r = (answer x).1 ∧ repr false b' (answer x).2.
Proof.
  intros Hm. apply wp_bind. eapply wp_mono; [exact Hm|]. intros (r & b') (-> & Hb').
  by apply wp_ok.
Qed.

Lemma query_reply (m : outcome (Z * Buffer)) b d x :
  repr false b d → m ⇓ (λ '(r, b'), r = x ∧ queried b b' (dtext d)) →
  reply m ⇓ λ '(r, b'), r = [x] ∧ repr false b' d.
Proof.
  intros Hr Hm. apply wp_bind. eapply wp_mono; [exact Hm|]. intros (r & b') (-> & Hb').
  apply wp_ok. split; [done|]. by eapply queried_repr.
Qed.

Lemma silent_ok (m : outcome Buffer) d :
  m ⇓ (λ b', repr false b' d) → silent m ⇓ λ '(r, b'), r = [] ∧ repr false b' d.
Proof. intros Hm. apply wp_bind. eapply wp_mono; [exact Hm|]. intros b' Hb'. by apply wp_ok. Qed.

Lemma c_strlen_some s : ∃ n, c_strlen (s ++ [0]) = Ok n.
Proof.
  induction s as [|c s (n & IH)]; simpl; [by exists 0|]. destruct (c =? 0); [by exists 0|].
  exists (n + 1). by rewrite IH.
Qed.

Section sim.
Context (A : allocator) (HA : generous A) (HB : bounded A).

Definition simulates (m : outcome (Z * Buffer)) (x : Z * Doc) : Prop :=
  m ⇓ λ '(r, b'), r = x.1 ∧ repr false b' x.2.

Lemma insert_sim b d pos txt :
  good d → repr false b d → 0 ≤ pos → has_room 1 d = true → fits (zlen txt) d = true →
  simulates (buffer_insert A b pos (Some txt) (zlen txt)) (doc_insert false d pos txt).
Proof using HA HB.
  intros Hg Hr Hpos Hroom%Z.leb_le Hfit%Z.leb_le. pose proof (zlen_nonneg txt).
  pose proof (insert_repr A false b d pos txt (zlen txt) HA HB Hr) as Hins.
  rewrite take_ge in Hins by (unfold zlen; lia). apply Hins; [intros _; lia|lia..].
Qed.

Lemma delete_sim b d pos len :
  good d → repr false b d → 0 ≤ pos → 0 ≤ len → pos + len < 2 ^ 64 → has_room 1 d = true →
  simulates (buffer_delete A b pos len) (doc_delete false d pos len).
Proof using HA.
  intros [] Hr Hpos Hlen Hsum Hroom%Z.leb_le.
  apply (delete_repr A false b d pos len); try done. intros _. lia.
Qed.

Lemma selection_ok b d : repr false b d →
  buffer_has_selection b = doc_selected d ∧ buffer_selection_range b = doc_selection d.
Proof.
  intros []. unfold buffer_has_selection, doc_selected, buffer_selection_range, doc_selection.
  rewrite repr_active0, repr_mark0, repr_cursor0. split; [done|].
  destruct (Z.ltb_spec (dcursor d) (dmark d)); f_equal; lia.
Qed.

Lemma set_mark_repr b d m a : repr false b d → repr false (set_mark m a b) (set_dmark m a d).
Proof. intros []. by constructor. Qed.

Lemma delete_selection_sim b d :
  good d → repr false b d → has_room 1 d = true →
  simulates (buffer_delete_selection A b) (doc_delete_selection d).
Proof using HA.
  intros Hg Hr Hroom. unfold buffer_delete_selection, doc_delete_selection.
  destruct (selection_ok b d Hr) as (-> & ->). destruct (doc_selected d); [|by apply wp_ok].
  unfold doc_selection. destruct Hg as [Ht Hc Hm Hp Hf].
  apply delete_sim; [|apply set_cursor_repr|lia|lia|lia|done].
  - apply good_set_cursor; [|lia]. by apply good_set_mark.
  - unfold buffer_mark_clear. rewrite (repr_mark _ _ _ Hr). by apply set_mark_repr.
Qed.

Lemma delete_selection_past d : zlen (past (doc_delete_selection d).2) ≤ zlen (past d) + 1.
Proof.
  unfold doc_delete_selection. destruct (doc_selected d); simpl; [|lia].
  unfold doc_delete. destruct (_ || _); simpl; rewrite ?zlen_cons; lia.
Qed.

Lemma delete_text_le d pos len : 0 ≤ pos → 0 ≤ len → zlen (dtext (doc_delete false d pos len).2) ≤ zlen (dtext d).
Proof.
  intros Hpos Hlen. unfold doc_delete. destruct (_ || _) eqn:E; simpl; [lia|].
  apply orb_false_iff in E as (_ & Hlt%Z.leb_gt). pose proof (zlen_nonneg (dtext d)).
  unfold del. rewrite zlen_slice by lia. rewrite zlen_app, zlen_take, zlen_drop by lia. lia.
Qed.

Lemma good_delete_selection d : good d → good (doc_delete_selection d).2.
Proof.
  intros Hg. unfold doc_delete_selection. destruct (doc_selected d); [|done].
  pose proof Hg as [Ht Hc Hm Hp Hf]. unfold doc_selection.
  apply good_delete; [|lia|lia]. apply good_set_cursor; [|lia]. by apply good_set_mark.
Qed.

Lemma delete_selection_text d :
  good d → zlen (dtext (doc_delete_selection d).2) ≤ zlen (dtext d).
Proof.
  intros [Ht Hc Hm Hp Hf]. unfold doc_delete_selection. destruct (doc_selected d); [|done].
  unfold doc_selection. etrans; [apply delete_text_le; lia|done].
Qed.

Lemma paste_sim b d txt :
  good d → repr false b d → has_room 2 d = true → fits (zlen txt) d = true →
  simulates (buffer_paste A b (Some txt) (zlen txt)) (doc_paste d txt).
Proof using HA HB.
  intros Hg Hr Hroom%Z.leb_le Hfit%Z.leb_le. unfold buffer_paste, doc_paste.
  destruct (Z.eqb_spec (zlen txt) 0) as [|Hz]; [by apply wp_ok|].
  set (d1 := if doc_selected d then (doc_delete_selection d).2 else d).
  assert (good d1) as Hg1 by (unfold d1; destruct (doc_selected d); [by apply good_delete_selection|done]).
  assert (zlen (past d1) ≤ zlen (past d) + 1) as Hp1
    by (unfold d1; destruct (doc_selected d); [apply delete_selection_past|lia]).
  assert (zlen (dtext d1) ≤ zlen (dtext d)) as Ht1
    by (unfold d1; destruct (doc_selected d); [by apply delete_selection_text|done]).
  apply wp_bind. apply (wp_mono _ (λ b', repr false b' d1)).
  - rewrite (proj1 (selection_ok b d Hr)). unfold d1. destruct (doc_selected d); [|by apply wp_ok].
    apply wp_bind. eapply wp_mono; [apply (delete_selection_sim b d Hg Hr); apply Z.leb_le; lia|].
    intros (r & b') (_ & Hb'). by apply wp_ok.
  - intros b' Hb'. rewrite (repr_cursor _ _ _ Hb'). apply wp_bind.
    eapply wp_mono; [apply (insert_sim b' d1); [done|done|apply (good_cursor d1 Hg1)|apply Z.leb_le; lia|apply Z.leb_le; lia]|].
    intros (r & b2) (-> & Hb2). apply wp_ok. unfold doc_insert in *.
    rewrite (proj2 (Z.eqb_neq _ _) Hz) in *. simpl in *. split; [done|].
    rewrite (repr_cursor _ _ _ Hb2). by apply set_cursor_repr.
Qed.

Lemma selection_text_sim b d :
  good d → repr false b d → dcursor d < 2 ^ 32 → dmark d < 2 ^ 32 →
  buffer_selection_text A b ⇓ λ '(o, b'),
    o = (if doc_selected d then Some (doc_selection_text d) else None) ∧ repr false b' d.
Proof using HA.
  intros Hg Hr Hc2 Hm2. unfold buffer_selection_text, doc_selection_text.
  destruct (selection_ok b d Hr) as (-> & ->).
  destruct (doc_selected d); cbn [negb]; [|by apply wp_ok]. unfold doc_selection.
  pose proof Hg as [Ht Hc Hm Hp Hf]. set (s := Z.min _ _). set (e := Z.max _ _).
  assert (0 ≤ s ≤ e ∧ e < 2 ^ 32) as Hse by (unfold s, e; lia).
  eapply wp_mono; [apply (copy_out_ok A b (dtext d) s (e - s) (repr_text _ _ _ Hr)); lia|].
  intros (o & b1) (-> & _ & Hsome). rewrite Hsome by (done || lia). split; [done|]. by destruct Hr.
Qed.

Lemma copy_sim b d :
  good d → repr false b d → dcursor d < 2 ^ 32 → dmark d < 2 ^ 32 →
  buffer_copy A b true true ⇓ λ '(r, o, _, b'),
    (r, default [] o) = (if doc_selected d then (0, doc_selection_text d) else (-1, [])) ∧ repr false b' d.
Proof using HA.
  intros Hg Hr Hc2 Hm2. unfold buffer_copy. cbn [negb]. apply wp_bind.
  eapply wp_mono; [by apply selection_text_sim|]. intros (o & b1) (-> & Hb1).
  destruct (doc_selected d); [|by apply wp_ok]. unfold doc_selection_text.
  destruct (doc_selection d) as (s & e). destruct (c_strlen_some (chars (dtext d) s (e - s))) as (n & ->).
  by apply wp_ok.
Qed.

Lemma cut_sim b d :
  good d → repr false b d → has_room 1 d = true → dcursor d < 2 ^ 32 → dmark d < 2 ^ 32 →
  exec A CCut b ⇓ λ '(r, b'), r = (spec CCut d).1 ∧ repr false b' (spec CCut d).2.
Proof using HA.
  intros Hg Hr Hroom Hc2 Hm2. cbn [exec spec]. unfold buffer_cut. apply wp_bind, wp_bind.
  eapply wp_mono; [by apply copy_sim|]. intros (((r & o) & n) & b1) (Hro & Hb1).
  destruct (doc_selected d); injection Hro as -> Ho; [|by do 2 apply wp_ok].
  change (0 <? 0) with false. cbv iota. apply wp_bind.
  eapply wp_mono; [by apply (delete_selection_sim b1 d Hg)|].
  intros (r & b2) (_ & Hb2). do 2 apply wp_ok. by rewrite Ho.
Qed.

Lemma line_text_sim b d line :
  good d → repr false b d → allowed (CLineText line) d = true →
  exec A (CLineText line) b ⇓ λ '(r, b'), r = (spec (CLineText line) d).1 ∧ repr false b' d.
Proof using HA.
  intros Hg Hr Hok. cbn [exec spec allowed fst] in *. apply andb_prop in Hok as [_ Hse%Z.leb_le].
  pose proof (repr_text _ _ _ Hr) as Ht. pose proof (repr_lines _ _ _ Hr) as Hl. pose proof (good_text d Hg) as Hmax.
  set (k := clamp (zlen (starts (dtext d))) line) in *. unfold buffer_line_text. apply wp_bind, wp_bind.
  eapply wp_mono; [by apply (line_start_ok A HA b (dtext d) Ht Hmax Hl)|]. intros (x & b1) (-> & Hq1). fold k.
  destruct (queried_ok A b (dtext d) Ht b1 Hq1) as (Ht1 & Hc1 & _). apply wp_bind.
  eapply wp_mono; [apply (line_end_ok A HA b1 (dtext d) Ht1 Hmax (clean_repr _ _ Hc1))|]. intros (y & b2) (-> & Hq2). fold k.
  assert (queried b b2 (dtext d)) as Hq by (by eapply queried_trans). pose proof (queried_repr _ _ _ Hr Hq) as Hr2.
  pose proof (start_range (dtext d) k). change TEXT_MAX with 268435456 in Hmax.
  assert (0 ≤ line_end (dtext d) k ≤ zlen (dtext d)) as He.
  { unfold line_end. pose proof (start_range (dtext d) (k + 1)). pose proof (zlen_nonneg (dtext d)).
    set (next := if k + 1 <? zlen (starts (dtext d)) then _ else _).
    assert (0 ≤ next ≤ zlen (dtext d)) by (unfold next; destruct (_ <? _); lia).
    destruct (Z.ltb_spec 0 next); simpl; [|lia]. destruct (_ =? _); lia. }
  rewrite u64_small by lia.
  eapply wp_mono; [apply (copy_out_ok A b2 (dtext d) _ _ (repr_text _ _ _ Hr2)); lia|].
  intros (o & b3) (-> & _ & Hsome). rewrite Hsome by (done || lia). apply wp_ok. split; [done|]. by destruct Hr2.
Qed.

Lemma delete_line_sim b d line :
  good d → repr false b d → has_room 1 d = true →
  simulates (buffer_delete_line A b line) (doc_delete_line d line).
Proof using HA.
  intros Hg Hr Hroom. unfold buffer_delete_line, doc_delete_line.
  pose proof Hr as [Ht _ _ _ _ _ _ _ Hl]. pose proof Hg as [Hmax _ _ _ _].
  apply wp_bind. eapply wp_mono; [by apply (lines_ensure_ok A b (dtext d))|]. intros b1 Hq.
  destruct (queried_ok A b (dtext d) Ht b1 Hq) as (Ht1 & Hc1 & Hn & _).
  rewrite Hn. destruct (_ || _) eqn:E.
  { apply wp_ok. split; [done|]. by eapply queried_repr. }
  apply orb_false_iff in E as (Hlo%Z.ltb_ge & Hhi%Z.leb_gt).
  apply wp_bind. eapply wp_mono; [apply (line_start_ok A HA b1 (dtext d) Ht1 Hmax (clean_repr _ _ Hc1))|].
  intros (x & b2) (-> & Hq2).
  assert (clamp (zlen (starts (dtext d))) line = line) as -> by (unfold clamp; lia).
  assert (queried b b2 (dtext d)) as Hq3 by (eapply queried_trans; [exact Hq|exact Hq2]).
  rewrite (next_line_ok A b (dtext d) Ht b2 line Hq3) by lia. cbn [mbind outcome_bind].
  change TEXT_MAX with 268435456 in Hmax.
  pose proof (start_range (dtext d) line). pose proof (start_range (dtext d) (line + 1)).
  set (next := if _ <? _ then _ else _).
  assert (start_of (dtext d) line ≤ next ≤ zlen (dtext d)) as Hnext.
  { unfold next. destruct (Z.ltb_spec (line + 1) (zlen (starts (dtext d)))); [|lia].
    pose proof (start_mono (dtext d) line). lia. }
  rewrite u64_small by lia. apply delete_sim; [done|by eapply queried_repr|lia|lia|lia|done].
Qed.

Lemma clamp_line_of t pos : clamp (zlen (starts t)) (line_of t pos) = line_of t pos.
Proof. pose proof (line_of_range t pos). unfold clamp. lia. Qed.

Section movement.
Context (b : Buffer) (d : Doc) (Hg : good d) (Hr : repr false b d).

Let Ht : holds (gap b) (dtext d) := repr_text _ _ _ Hr.
Let Hl : lines_repr (lines b) (dtext d) := repr_lines _ _ _ Hr.

Lemma after_query b1 : queried b b1 (dtext d) →
  holds (gap b1) (dtext d) ∧ lines_repr (lines b1) (dtext d) ∧ repr false b1 d.
Proof using A Hr.
  intros Hq. split; [|split; [|by eapply queried_repr]].
  - by apply (queried_ok A b (dtext d) Ht).
  - apply clean_repr. by apply (queried_ok A b (dtext d) Ht).
Qed.

Lemma cursor_line_sim delta : - 2 ^ 30 ≤ delta ≤ 2 ^ 30 →
  buffer_cursor_line A b delta ⇓ λ b', repr false b' (spec (CCursorLine delta) d).2.
Proof using A HA Hg Hr.
  intros Hd. pose proof Hg as [Hmax Hc _ _ _]. unfold buffer_cursor_line.
  rewrite (repr_cursor _ _ _ Hr). apply wp_bind.
  eapply wp_mono; [apply (pos_to_lc_ok A HA b (dtext d) Ht Hmax Hl); lia|].
  intros ((line & col) & b1) (-> & -> & Hq). destruct (after_query b1 Hq) as (Ht1 & Hl1 & Hr1).
  pose proof (line_of_range (dtext d) (dcursor d)). pose proof (line_count_bounds (dtext d) Hmax).
  rewrite int_ok by lia. cbn [mbind outcome_bind]. apply wp_bind.
  eapply wp_mono; [apply (lc_to_pos_ok A HA b1 (dtext d) Ht1 Hmax Hl1)|].
  intros (x & b2) (-> & Hq2). apply wp_ok. simpl.
  apply set_cursor_repr. by eapply queried_repr.
Qed.

Lemma cursor_home_sim : buffer_cursor_home A b ⇓ λ b', repr false b' (spec CHome d).2.
Proof using A HA Hg Hr.
  pose proof Hg as [Hmax Hc _ _ _]. unfold buffer_cursor_home.
  rewrite (repr_cursor _ _ _ Hr). apply wp_bind.
  eapply wp_mono; [apply (pos_to_lc_ok A HA b (dtext d) Ht Hmax Hl); lia|].
  intros ((line & col) & b1) (-> & -> & Hq). destruct (after_query b1 Hq) as (Ht1 & Hl1 & Hr1).
  apply wp_bind. eapply wp_mono; [apply (line_start_ok A HA b1 (dtext d) Ht1 Hmax Hl1)|].
  intros (x & b2) (-> & Hq2). apply wp_ok. rewrite clamp_line_of.
  apply set_cursor_repr. by eapply queried_repr.
Qed.

Lemma cursor_end_sim : buffer_cursor_end A b ⇓ λ b', repr false b' (spec CEnd d).2.
Proof using A HA Hg Hr.
  pose proof Hg as [Hmax Hc _ _ _]. unfold buffer_cursor_end.
  rewrite (repr_cursor _ _ _ Hr). apply wp_bind.
  eapply wp_mono; [apply (pos_to_lc_ok A HA b (dtext d) Ht Hmax Hl); lia|].
  intros ((line & col) & b1) (-> & -> & Hq). destruct (after_query b1 Hq) as (Ht1 & Hl1 & Hr1).
  apply wp_bind. eapply wp_mono; [apply (line_end_ok A HA b1 (dtext d) Ht1 Hmax Hl1)|].
  intros (x & b2) (-> & Hq2). apply wp_ok. rewrite clamp_line_of.
  apply set_cursor_repr. by eapply queried_repr.
Qed.

Lemma cursor_set_sim pos : repr false (buffer_cursor_set b pos) (spec (CCursorSet pos) d).2.
Proof using Hr.
  unfold buffer_cursor_set. rewrite (buf_length_holds _ (dtext d)) by done. simpl.
  replace (Z.min pos (zlen (dtext d))) with (if zlen (dtext d) <? pos then zlen (dtext d) else pos)
    by (destruct (Z.ltb_spec (zlen (dtext d)) pos); lia).
  by apply set_cursor_repr.
Qed.

Lemma cursor_move_sim delta : - 2 ^ 31 < delta < 2 ^ 31 →
  buffer_cursor_move b delta ⇓ λ b', repr false b' (spec (CCursorMove delta) d).2.
Proof using Hg Hr.
  intros Hd. unfold buffer_cursor_move. rewrite (buf_length_holds _ (dtext d)) by done. simpl.
  rewrite (repr_cursor _ _ _ Hr). pose proof (good_cursor d Hg).
  destruct (Z.ltb_spec delta 0).
  - rewrite int_ok by lia. apply wp_ok.
    replace (Z.max 0 (dcursor d + delta)) with (if - delta <=? dcursor d then dcursor d - - delta else 0)
      by (destruct (Z.leb_spec (- delta) (dcursor d)); lia).
    by apply set_cursor_repr.
  - apply wp_ok. set (c := u64 _).
    replace (Z.min c (zlen (dtext d))) with (if zlen (dtext d) <? c then zlen (dtext d) else c)
      by (destruct (Z.ltb_spec (zlen (dtext d)) c); lia).
    by apply set_cursor_repr.
Qed.

End movement.

End sim.

Ltac by_parts := repeat match goal with
  | H : _ && _ = true |- _ => apply andb_prop in H as [? ?]
  | H : is_size _ = true |- _ => unfold is_size in H
  | H : is_int _ = true |- _ => unfold is_int in H
  | H : (_ <=? _) = true |- _ => apply Z.leb_le in H
  | H : (_ <? _) = true |- _ => apply Z.ltb_lt in H
  end.

Lemma exec_refines A c b d :
  generous A → bounded A → good d → repr false b d → allowed c d = true →
  exec A c b ⇓ λ '(r, b'), r = (spec c d).1 ∧ repr false b' (spec c d).2.
Proof.
  intros HA HB Hg Hr Hok. pose proof (repr_text _ _ _ Hr) as Ht.
  pose proof (repr_lines _ _ _ Hr) as Hl. pose proof (good_text d Hg) as Hmax.
  pose proof (good_cursor d Hg) as Hc.
  destruct c; cbn [exec spec allowed] in *.
  - by_parts. apply reply_ok, insert_sim; done.
  - by_parts. apply reply_ok. by apply (insert_sim A HA HB b d pos [c]).
  - by_parts. apply reply_ok, delete_sim; done.
  - by_parts. unfold buffer_delete_range. destruct (Z.leb_spec end_ start).
    + by apply wp_ok.
    + apply reply_ok, delete_sim; try done; lia.
  - by_parts. unfold buffer_delete_char_before. destruct (Z.eqb_spec pos 0).
    + by apply wp_ok.
    + apply reply_ok, delete_sim; try done; lia.
  - by_parts. apply reply_ok, delete_sim; done.
  - by_parts. by apply reply_ok, delete_line_sim.
  - apply reply_ok, undo_ok; try done. intros e p Hp. by eapply good_can_undo.
  - apply reply_ok, redo_ok; try done. intros e f Hf. by eapply good_can_redo.
  - by_parts. apply silent_ok, wp_ok, cursor_set_sim. done.
  - by_parts. by apply silent_ok, cursor_move_sim.
  - by_parts. by apply silent_ok, cursor_line_sim.
  - by apply silent_ok, cursor_home_sim.
  - by apply silent_ok, cursor_end_sim.
  - apply silent_ok. rewrite (word_forward_ok b (dtext d)) by (rewrite ?(repr_cursor _ _ _ Hr); done || lia).
    rewrite (repr_cursor _ _ _ Hr). by apply wp_ok, set_cursor_repr.
  - apply silent_ok. rewrite (word_back_ok b (dtext d)) by (rewrite ?(repr_cursor _ _ _ Hr); done || lia).
    rewrite (repr_cursor _ _ _ Hr). by apply wp_ok, set_cursor_repr.
  - by apply silent_ok, wp_ok, set_mark_repr.
  - apply silent_ok, wp_ok. unfold buffer_mark_clear. rewrite (repr_mark _ _ _ Hr).
    by apply set_mark_repr.
  - by apply reply_ok, delete_selection_sim.
  - by_parts. by apply cut_sim.
  - by_parts. by apply reply_ok, paste_sim.
  - by_parts. apply wp_bind. eapply wp_mono; [by apply copy_sim|].
    intros (((r & o) & n) & b1) (Hro & Hb1). apply wp_ok. by destruct (doc_selected d); injection Hro as -> ->.
  - by_parts. apply wp_bind. eapply wp_mono; [by apply selection_text_sim|].
    intros (o & b1) (-> & Hb1). apply wp_ok. by destruct (doc_selected d).
  - by apply line_text_sim.
  - apply wp_ok. split; [|done]. unfold buffer_length. by rewrite (buf_length_holds _ (dtext d)).
  - by_parts. rewrite (char_at_ok b (dtext d)) by (done || lia). by apply wp_ok.
  - by eapply query_reply, line_count_ok.
  - by_parts. apply wp_bind. eapply wp_mono; [apply (pos_to_lc_ok A HA b (dtext d) Ht Hmax Hl); lia|].
    intros ((l & c) & b') (-> & -> & Hq). apply wp_ok. split; [done|]. by eapply queried_repr.
  - by_parts. eapply query_reply; [done|]. by apply lc_to_pos_ok.
  - by eapply query_reply, line_start_ok.
  - by eapply query_reply, line_end_ok.
  - by_parts. rewrite (text_find_ok b (dtext d)) by (done || lia). by apply wp_ok.
Qed.

Lemma word_forward_range t c : 0 ≤ c < 2 ^ 64 → zlen t ≤ TEXT_MAX → 0 ≤ word_forward t c < 2 ^ 64.
Proof.
  intros Hc Hmax. change TEXT_MAX with 268435456 in Hmax. unfold word_forward.
  assert (∀ f p, 0 ≤ p < 2 ^ 64 → 0 ≤ p + span f (drop (Z.to_nat p) t) < 2 ^ 64) as Hstep; [|auto].
  intros f p Hp. pose proof (span_nonneg f (drop (Z.to_nat p) t)).
  pose proof (span_le f (drop (Z.to_nat p) t)) as Hle. rewrite zlen_drop in Hle by lia. lia.
Qed.

Lemma word_back_range t c : 0 ≤ c < 2 ^ 64 → 0 ≤ word_back t c < 2 ^ 64.
Proof.
  intros Hc. unfold word_back. destruct (Z.eqb_spec c 0); [done|].
  match goal with |- context [rewind ?f (rewind ?g ?n)] =>
    pose proof (rewind_le f (rewind g n)); pose proof (rewind_le g n) end. lia.
Qed.

Lemma line_end_range t line : 0 ≤ line_end t line ≤ zlen t.
Proof.
  unfold line_end. pose proof (start_range t (line + 1)). pose proof (zlen_nonneg t).
  set (next := if _ <? zlen (starts t) then _ else _).
  assert (0 ≤ next ≤ zlen t) by (unfold next; destruct (_ <? _); lia).
  destruct (Z.ltb_spec 0 next); simpl; [|lia]. destruct (_ =? _); lia.
Qed.

(** Every call keeps the document good. *)
Lemma spec_good c d : good d → allowed c d = true → good (spec c d).2.
Proof.
  intros Hg Hok. pose proof Hg as [Hmax Hc Hm Hp Hf].
  assert (zlen (dtext d) < 2 ^ 64 ∧ 0 ≤ zlen (dtext d)) as Hlen
    by (change TEXT_MAX with 268435456 in Hmax; split; [lia|apply zlen_nonneg]).
  destruct c; cbn [spec allowed answer fst snd] in *; by_parts; try done;
    try (apply good_set_cursor; [done|]).
  - by apply good_insert; [| |apply Z.leb_le].
  - by apply (good_insert d pos [c]); [| |apply Z.leb_le].
  - by apply good_delete.
  - destruct (Z.leb_spec end_ start); [done|]. apply good_delete; [done|lia|lia].
  - destruct (Z.eqb_spec pos 0); [done|]. apply good_delete; [done|lia|lia].
  - by apply good_delete.
  - unfold doc_delete_line. destruct (_ || _) eqn:E; [done|].
    apply orb_false_iff in E as (Hlo%Z.ltb_ge & Hhi%Z.leb_gt).
    pose proof (start_range (dtext d) line). apply good_delete; [done|lia|].
    destruct (Z.ltb_spec (line + 1) (zlen (starts (dtext d)))); [|lia].
    pose proof (start_mono (dtext d) line). lia.
  - by apply good_undo.
  - by apply good_redo.
  - lia.
  - destruct (Z.ltb_spec delta 0); [lia|]. pose proof (u64_range (dcursor d + delta)). lia.
  - apply u64_in.
  - pose proof (start_range (dtext d) (line_of (dtext d) (dcursor d))). lia.
  - pose proof (line_end_range (dtext d) (line_of (dtext d) (dcursor d))). lia.
  - by apply word_forward_range.
  - by apply word_back_range.
  - by apply good_delete_selection.
  - destruct (doc_selected d); [|done]. by apply good_delete_selection.
  - unfold doc_paste. destruct (_ =? _) eqn:Hz; [done|].
    set (d1 := if doc_selected d then (doc_delete_selection d).2 else d).
    assert (good d1 ∧ zlen (dtext d1) ≤ zlen (dtext d)) as (Hg1 & Ht1).
    { unfold d1. destruct (doc_selected d); [|done].
      split; [by apply good_delete_selection|by apply delete_selection_text]. }
    pose proof (good_insert d1 (dcursor d1) txt Hg1) as Hins. unfold fits in *. by_parts.
    destruct (doc_insert false d1 (dcursor d1) txt) as (r & d2). simpl in *.
    apply good_set_cursor; [|apply u64_in]. apply Hins; [apply (good_cursor d1 Hg1)|lia].
Qed.

(** The buffer that [buffer_new] returns is the empty document. *)
Lemma new_repr A k b : buffer_new A k = Some b → repr false b empty_doc.
Proof.
  unfold buffer_new. destruct (avail A k 112); [|done].
  destruct (avail A (S k) GAP_INITIAL); [|done]. intros [= <-].
  constructor; try done; [|by left].
  exists [], []. split; [|done]. exists (fresh A (S k) GAP_INITIAL).
  rewrite app_nil_r, zlen_fresh. done.
Qed.

Lemma empty_good : good empty_doc.
Proof. by constructor. Qed.

Lemma run_refines A cs b d :
  generous A → bounded A → good d → repr false b d → all_allowed cs d = true →
  run A cs b ⇓ λ '(rs, b'), rs = (spec_run cs d).1 ∧ repr false b' (spec_run cs d).2 ∧
    good (spec_run cs d).2.
Proof.
  intros HA HB. revert b d. induction cs as [|c cs IH]; intros b d Hg Hr Hok; simpl in *.
  - by apply wp_ok.
  - apply andb_prop in Hok as (Hc & Hcs). apply wp_bind.
    eapply wp_mono; [by apply exec_refines|]. intros (r & b1) (-> & Hb1). apply wp_bind.
    pose proof (spec_good c d Hg Hc) as Hg1.
    destruct (spec c d) as (r1 & d1). simpl in *.
    eapply wp_mono; [by apply IH|]. intros (rs & b2) (-> & Hb2 & Hg2).
    apply wp_ok. by destruct (spec_run cs d1).
Qed.

End TextClient.
