(* ===== verification/TextClaims.v ===== *)
(** What the text buffer promises to the editor: it is a document with a
    history, undo and redo are inverse to the edits, positions and line/column
    pairs agree, replacing goes over all occurrences; and where the C does not
    keep its promise. *)
From stdpp Require Import base list.
From S2P Require Import Prelude.
From S2P Require Import KString.
From S2P Require Import Bytes.
From S2P Require Import CLib.
From S2P Require Import TextBuffer.
From S2P Require Import TextLines.
From S2P Require Import TextEdit.
From S2P Require Import TextClient.
Import KString TextBuffer TextStore TextLines TextEdit TextClient.

Module TextClaims.

(** * Undo and redo across several edits *)
Fixpoint leads (t : list Z) (es : list edit) (t' : list Z) : Prop :=
  match es with
  | [] => t = t'
  | e :: es => edit_ok e t ∧ leads (edit_do e t) es t'
  end.

Lemma leads_snoc t es e t' :
  leads t (es ++ [e]) t' ↔ ∃ t1, leads t es t1 ∧ edit_ok e t1 ∧ edit_do e t1 = t'.
Proof.
  revert t. induction es as [|e0 es IH]; intros t; simpl.
  - split; [intros (H & H'); by exists t|by intros (t1 & -> & H & H')].
  - rewrite IH. split.
    + intros (H & t1 & H1 & H2). by exists t1.
    + intros (t1 & (H & H1) & H2). split; [done|]. by exists t1.
Qed.

Lemma spec_run_app cs1 cs2 d :
  (spec_run (cs1 ++ cs2) d).2 = (spec_run cs2 (spec_run cs1 d).2).2.
Proof.
  revert d. induction cs1 as [|c cs1 IH]; intros d; [done|]. simpl.
  destruct (spec c d) as (r & d1). specialize (IH d1).
  destruct (spec_run (cs1 ++ cs2) d1), (spec_run cs1 d1). done.
Qed.

Lemma undos_unwind es : ∀ t d p,
  leads t es (dtext d) → past d = rev es ++ p →
  let d' := (spec_run (replicate (length es) CUndo) d).2 in
  dtext d' = t ∧ past d' = p ∧ future d' = es ++ future d.
Proof.
  induction es as [|e es IH] using rev_ind; intros t d p Hl Hp.
  - simpl in *. by subst.
  - apply leads_snoc in Hl as (t1 & Hl & Hok & Hdo). rewrite rev_app_distr in Hp. simpl in Hp.
    rewrite length_app, Nat.add_comm. cbn [replicate Nat.add length].
    pose proof (undo_text d e (rev es ++ p) t1 Hp Hok Hdo) as Ht1.
    cbn [spec_run]. destruct (spec CUndo d) as (r & d1) eqn:Hd1.
    assert (d1 = (doc_undo d).2) as -> by (unfold spec, answer in Hd1; by inversion Hd1).
    assert (past (doc_undo d).2 = rev es ++ p ∧ future (doc_undo d).2 = e :: future d) as (Hp1 & Hf1)
      by (unfold doc_undo; by rewrite Hp).
    rewrite <-Ht1 in Hl. destruct (IH t (doc_undo d).2 p Hl Hp1) as (H1 & H2 & H3).
    destruct (spec_run (replicate (length es) CUndo) (doc_undo d).2). simpl in *.
    rewrite H3, Hf1, <-app_assoc. done.
Qed.

Lemma redos_rewind es : ∀ t' d f,
  leads (dtext d) es t' → future d = es ++ f →
  dtext (spec_run (replicate (length es) CRedo) d).2 = t'.
Proof.
  induction es as [|e es IH]; intros t' d f Hl Hf; [done|]. destruct Hl as (Hok & Hl).
  cbn [replicate length spec_run]. pose proof (redo_text d e (es ++ f) Hf Hok) as Ht.
  destruct (spec CRedo d) as (r & d1) eqn:Hd1.
  assert (d1 = (doc_redo d).2) as -> by (unfold spec, answer in Hd1; by inversion Hd1).
  rewrite <-Ht in Hl. specialize (IH t' (doc_redo d).2 f Hl ltac:(unfold doc_redo; by rewrite Hf)).
  by destruct (spec_run (replicate (length es) CRedo) (doc_redo d).2).
Qed.

(** The calls that make one edit when they succeed. *)
Definition single_edit (c : call) : bool :=
  match c with
  | CInsert _ _ | CInsertChar _ _ | CDelete _ _ | CDeleteRange _ _ | CDeleteBefore _
  | CDeleteAfter _ | CDeleteLine _ | CDeleteSelection => true
  | _ => false
  end.

Definition one_edit (d d' : Doc) : Prop :=
  ∃ e, edit_ok e (dtext d) ∧ dtext d' = edit_do e (dtext d) ∧ past d' = e :: past d ∧ future d' = [].

Lemma insert_one_edit d pos s :
  0 ≤ pos → (doc_insert false d pos s).1 = 0 → one_edit d (doc_insert false d pos s).2.
Proof.
  intros Hpos. unfold doc_insert. destruct (Z.eqb_spec (zlen s) 0) as [|Hz]; [done|]. intros _.
  eexists. split; [|done]. pose proof (zlen_nonneg (dtext d)). split; [lia|]. by intros ->.
Qed.

Lemma delete_one_edit d pos len :
  0 ≤ pos → 0 ≤ len → (doc_delete false d pos len).1 = 0 → one_edit d (doc_delete false d pos len).2.
Proof.
  intros Hpos Hlen. unfold doc_delete. destruct (Z.eqb_spec len 0) as [|Hz]; [done|].
  destruct (Z.leb_spec (zlen (dtext d)) pos) as [|Hlt]; [done|]. intros _.
  eexists. split; [|done]. simpl. set (n := Z.min _ _).
  assert (0 < n ≤ zlen (dtext d) - pos) as Hn by (unfold n; lia).
  assert (zlen (slice (dtext d) pos n) = n) as Hs by (apply zlen_slice; lia). rewrite Hs.
  split_and!; [done|lia| |done]. intros Hnil. rewrite Hnil in Hs. unfold zlen in Hs. simpl in Hs. lia.
Qed.

Lemma single_one_edit c d :
  good d → allowed c d = true → single_edit c = true → (spec c d).1 = [0] → one_edit d (spec c d).2.
Proof.
  intros Hg Hok Hs. pose proof Hg as [Hmax Hc Hm _ _].
  destruct c; try done; cbn [spec allowed answer fst snd] in *; by_parts; intros Hr.
  - apply insert_one_edit; [lia|congruence].
  - apply insert_one_edit; [lia|congruence].
  - apply delete_one_edit; [lia|lia|congruence].
  - destruct (Z.leb_spec end_ start); [done|]. simpl in *. apply delete_one_edit; [lia|lia|congruence].
  - destruct (Z.eqb_spec pos 0); [done|]. simpl in *. apply delete_one_edit; [lia|lia|congruence].
  - apply delete_one_edit; [lia|lia|congruence].
  - unfold doc_delete_line in *. destruct (_ || _) eqn:E; [done|].
    apply orb_false_iff in E as (Hlo%Z.ltb_ge & Hhi%Z.leb_gt).
    pose proof (start_range (dtext d) line). apply delete_one_edit; [lia| |congruence].
    destruct (Z.ltb_spec (line + 1) (zlen (starts (dtext d)))); [|lia].
    pose proof (start_mono (dtext d) line). lia.
  - unfold doc_delete_selection in *. destruct (doc_selected d); [|done]. unfold doc_selection in *.
    apply (delete_one_edit (set_dcursor (Z.min (dcursor d) (dmark d)) (set_dmark (dmark d) false d)));
      [lia|lia|congruence].
Qed.

Lemma edits_lead cs : ∀ d,
  good d → all_allowed cs d = true → Forall (λ c, single_edit c = true) cs →
  Forall (λ r, r = [0]) (spec_run cs d).1 →
  ∃ es, length es = length cs ∧ leads (dtext d) es (dtext (spec_run cs d).2) ∧
    past (spec_run cs d).2 = rev es ++ past d.
Proof.
  induction cs as [|c cs IH]; intros d Hg Hok Hs Hr; simpl in *.
  - by exists [].
  - apply andb_prop in Hok as (Hc & Hok). apply Forall_cons in Hs as (Hsc & Hs).
    pose proof (single_one_edit c d Hg Hc Hsc) as Hone. pose proof (spec_good c d Hg Hc) as Hg1.
    destruct (spec c d) as (r & d1). simpl in *. specialize (IH d1 Hg1 Hok Hs).
    destruct (spec_run cs d1) as (rs & d2). simpl in *. apply Forall_cons in Hr as (Hr1 & Hr).
    destruct (IH Hr) as (es & Hlen & Hl & Hp). destruct (Hone Hr1) as (e & Hok1 & Ht1 & Hp1 & _).
    exists (e :: es). simpl. rewrite Hlen, <-Ht1, Hp, Hp1, <-app_assoc. done.
Qed.

Lemma undo_allowed n d : all_allowed (replicate n CUndo) d = true.
Proof. revert d. induction n as [|n IH]; intros d; simpl; [done|]. apply IH. Qed.
Lemma redo_allowed n d : all_allowed (replicate n CRedo) d = true.
Proof. revert d. induction n as [|n IH]; intros d; simpl; [done|]. apply IH. Qed.
Lemma all_allowed_app cs1 cs2 d :
  all_allowed (cs1 ++ cs2) d = all_allowed cs1 d && all_allowed cs2 (spec_run cs1 d).2.
Proof.
  revert d. induction cs1 as [|c cs1 IH]; intros d; [done|]. simpl. rewrite IH.
  destruct (spec c d) as (r & d1). simpl. destruct (spec_run cs1 d1). by rewrite andb_assoc.
Qed.

(** An allocator that grants what is below a tebibyte. *)
Definition plain : allocator := {| avail := λ _ n, n <? 2 ^ 40; junk := λ _ _, 170 |}.
Lemma plain_generous : generous plain.
Proof. intros k n Hn. simpl. apply Z.ltb_lt. lia. Qed.
Lemma plain_bounded : bounded plain.
Proof. intros k n Hn. simpl in Hn. apply Z.ltb_lt in Hn. lia. Qed.
Definition new_buffer : Buffer := default (mkBuffer (mkGap [] 0 0 0) 0 0 false false None
  (mkUndo None 0 0 false) (mkLines None 0 0 true) 0) (buffer_new plain 0).

(** C3: Every sequence of calls on a fresh text buffer of the editor (insertion and deletion of
    text, characters and lines, cursor and mark movement, copy, cut, paste, undo, redo, search,
    and the queries of length, characters, lines, positions, the selected text and the text of a
    line) ends without undefined behaviour, returns what the same calls on a plain document (its
    text, cursor, mark and edit history) return, and leaves a gap buffer and line cache that
    represent that document. Limits: the text stays within 2^28 characters and the history
    within 256 records, the allocator grants requests below 1 TiB and refuses those of 2^62
    bytes and more, positions, counts and line numbers are in the range of their types and their
    sums do not wrap, a line movement is at most 2^30 lines, the cursor and mark are below 2^32
    when the selection is copied, cut or read, and the text of an empty last line is not asked
    for. Copied and cut text is returned to the caller; after a paste the document's cursor is
    the length of the text behind the end of the pasted text, which is where the code leaves it. *)
Theorem text_buffer_refines_document A k b cs :
  generous A → bounded A → buffer_new A k = Some b → all_allowed cs empty_doc = true →
  run A cs b ⇓ λ '(rs, b'),
    rs = (spec_run cs empty_doc).1 ∧ repr false b' (spec_run cs empty_doc).2.
Proof.
  intros HA HB Hnew Hok.
  eapply wp_mono; [apply (run_refines A cs b empty_doc HA HB empty_good (new_repr A k b Hnew) Hok)|].
  intros (rs & b') (Hrs & Hb' & _). done.
Qed.

Definition sample : list call :=
  [CInsert 0 [104; 101; 10; 119]; CInsertChar 4 33; CHome; CDelete 1 2; CUndo; CLineCount;
   CPosToLc 4; CMarkSet 1; CPaste [65; 66]; CUndo; CRedo; CFind 0 [97] false; CWordBack; CCharAt 2;
   CLineText 0; CCopy; CSelectionText].

Lemma text_buffer_refines_document_witness :
  run plain sample new_buffer ⇓ λ '(rs, b'),
    rs = (spec_run sample empty_doc).1 ∧ repr false b' (spec_run sample empty_doc).2.
Proof.
  apply (text_buffer_refines_document plain 0);
    [apply plain_generous|apply plain_bounded|reflexivity|vm_compute; reflexivity].
Defined.

(** C21: After any sequence of single edits of a text buffer that succeed, as many undos give
    back the text from before them and as many redos the text after them, if the history stays
    within its 256 records and the text within 2^28 characters, the arguments are in the range
    of their types, and the allocator grants requests below 1 TiB and refuses those of 2^62
    bytes and more. *)
Theorem text_undo_redo_roundtrip A b d cs :
  generous A → bounded A → good d → repr false b d → all_allowed cs d = true →
  Forall (λ c, single_edit c = true) cs → Forall (λ r, r = [0]) (spec_run cs d).1 →
  run A (cs ++ replicate (length cs) CUndo) b ⇓ (λ '(_, b'), holds (gap b') (dtext d)) ∧
  run A (cs ++ replicate (length cs) CUndo ++ replicate (length cs) CRedo) b ⇓
    (λ '(_, b'), holds (gap b') (dtext (spec_run cs d).2)).
Proof.
  intros HA HB Hg Hr Hok Hs Hrep. destruct (edits_lead cs d Hg Hok Hs Hrep) as (es & Hlen & Hl & Hp).
  destruct (undos_unwind es (dtext d) (spec_run cs d).2 (past d) Hl Hp) as (Ht & _ & Hf).
  rewrite Hlen in *. split.
  - eapply wp_mono; [apply (run_refines A _ b d HA HB Hg Hr); by rewrite all_allowed_app, Hok, undo_allowed|].
    intros (rs & b') (_ & Hb' & _). rewrite spec_run_app in Hb'. pose proof (repr_text _ _ _ Hb') as Hh.
    by rewrite Ht in Hh.
  - eapply wp_mono; [apply (run_refines A _ b d HA HB Hg Hr);
      by rewrite !all_allowed_app, Hok, undo_allowed, redo_allowed|].
    intros (rs & b') (_ & Hb' & _). rewrite !spec_run_app in Hb'. pose proof (repr_text _ _ _ Hb') as Hh.
    set (d2 := (spec_run (replicate (length cs) CUndo) _).2) in *.
    pose proof (redos_rewind es (dtext (spec_run cs d).2) d2 (future (spec_run cs d).2)) as Hre.
    rewrite Hlen, Ht in Hre. by rewrite (Hre Hl Hf) in Hh.
Qed.

Lemma text_undo_redo_roundtrip_witness :
  let cs := [CInsert 0 [104; 105; 10; 111]; CDelete 1 2; CInsertChar 1 33] in
  run plain (cs ++ replicate (length cs) CUndo) new_buffer ⇓
    (λ '(_, b'), holds (gap b') (dtext empty_doc)) ∧
  run plain (cs ++ replicate (length cs) CUndo ++ replicate (length cs) CRedo) new_buffer ⇓
    (λ '(_, b'), holds (gap b') (dtext (spec_run cs empty_doc).2)).
Proof.
  apply text_undo_redo_roundtrip;
    [apply plain_generous|apply plain_bounded|apply empty_good|apply (new_repr plain 0); reflexivity
    |reflexivity|repeat constructor|vm_compute; repeat constructor].
Defined.

(** buffer_pos_to_lc followed by buffer_lc_to_pos gives back the position; the line is the
    number of newlines before it. *)
Theorem text_position_roundtrip A b t pos :
  generous A → holds (gap b) t → zlen t ≤ TEXT_MAX → lines_repr (lines b) t →
  0 ≤ pos ≤ zlen t →
  ('(line, col, b) ← buffer_pos_to_lc A b pos;
   '(pos', b) ← buffer_lc_to_pos A b line col; Ok (line, col, pos')) ⇓ λ '(line, col, pos'),
    line = newlines (take (Z.to_nat pos) t) ∧ start_of t line + col = pos ∧ 0 ≤ col ∧ pos' = pos.
Proof.
  intros HA Hb Hmax Hl Hpos. apply wp_bind.
  eapply wp_mono; [apply (pos_to_lc_ok A HA b t Hb Hmax Hl); lia|].
  intros ((line & col) & b1) (-> & -> & Hq).
  destruct (queried_ok A b t Hb b1 Hq) as (Hb1 & Hc1 & _).
  apply wp_bind. eapply wp_mono; [apply (lc_to_pos_ok A HA b1 t Hb1 Hmax (clean_repr _ _ Hc1))|].
  intros (x & b2) (-> & _). apply wp_ok. pose proof (line_bounds t pos Hpos) as Hlb.
  rewrite clamp_line_of. change TEXT_MAX with 268435456 in Hmax.
  pose proof (start_range t (line_of t pos)). set (s := start_of t (line_of t pos)) in *.
  assert (end_of t (line_of t pos) ≤ zlen t) as He.
  { unfold end_of. pose proof (start_range t (line_of t pos + 1)). destruct (_ <? _); lia. }
  rewrite (u64_small (pos - s)), (i32_small (pos - s)) by lia.
  rewrite (u64_small (_ - s)), (u64_small (pos - s)) by lia.
  rewrite (proj2 (Z.ltb_ge _ _)) by lia. rewrite u64_small by lia. split_and!; [done|lia..].
Qed.

Definition two_lines : Buffer :=
  match run plain [CInsert 0 [104; 105; 10; 111; 107]] new_buffer with Ok (_, b) => b | _ => new_buffer end.

Lemma text_position_roundtrip_witness :
  ('(line, col, b) ← buffer_pos_to_lc plain two_lines 4;
   '(pos', b) ← buffer_lc_to_pos plain b line col; Ok (line, col, pos')) ⇓ λ '(line, col, pos'),
    line = newlines (take (Z.to_nat 4) [104; 105; 10; 111; 107]) ∧
    start_of [104; 105; 10; 111; 107] line + col = 4 ∧ 0 ≤ col ∧ pos' = 4.
Proof.
  assert (run plain [CInsert 0 [104; 105; 10; 111; 107]] new_buffer ⇓
    λ '(rs, b'), repr false b' (mkDoc [104; 105; 10; 111; 107] 5 0 false true None
                                  [Ins 0 [104; 105; 10; 111; 107]] [])) as ((rs & b') & Hrun & Hr).
  { eapply wp_mono; [apply (run_refines plain _ new_buffer empty_doc);
      [apply plain_generous|apply plain_bounded|apply empty_good|apply (new_repr plain 0); reflexivity|reflexivity]|].
    intros (rs & b') (_ & Hb' & _). exact Hb'. }
  unfold two_lines. rewrite Hrun.
  apply (text_position_roundtrip plain b' [104; 105; 10; 111; 107] 4);
    [apply plain_generous|apply Hr|vm_compute; congruence|apply Hr|vm_compute; split; congruence].
Defined.

End TextClaims.

(** Searching backwards and replacing all occurrences in the text buffer,
    against functions on texts. *)
Import KString TextBuffer TextStore TextLines TextEdit TextClient TextClaims.

Module TextReplace.

(** * The reference: one pass over the text, without overlaps *)
Section reference.
Context (needle repl : list Z) (cs : bool).

Definition hit (t : list Z) : Prop := zlen needle ≤ zlen t ∧ occurs t 0 needle cs.
#[global] Instance hit_dec t : Decision (hit t).
Proof. unfold hit. apply _. Defined.

(** [skip] characters belong to an occurrence already replaced. *)
Fixpoint replaced (skip : nat) (t : list Z) : list Z * Z :=
  match t with
  | [] => ([], 0)
  | c :: t' =>
      match skip with
      | S k => replaced k t'
      | O =>
          if decide (hit t)
          then let '(r, n) := replaced (Nat.pred (length needle)) t' in (repl ++ r, n + 1)
          else let '(r, n) := replaced 0 t' in (c :: r, n)
      end
  end.

Lemma replaced_skip k t : replaced k t = replaced 0 (drop k t).
Proof. revert k. induction t as [|c t IH]; intros [|k]; [done..|]. simpl. apply IH. Qed.

Lemma char_at_drop t i j : 0 ≤ i → 0 ≤ j → char_at (drop (Z.to_nat i) t) j = char_at t (i + j).
Proof. intros. unfold char_at. rewrite lookup_drop. by rewrite Z2Nat.inj_add. Qed.

Lemma occurs_shift t i : 0 ≤ i → occurs t i needle cs ↔ occurs (drop (Z.to_nat i) t) 0 needle cs.
Proof.
  intros Hi. rewrite !occurs_pointwise. split; intros H j Hj; specialize (H j Hj).
  - by rewrite Z.add_0_l, char_at_drop by lia.
  - by rewrite Z.add_0_l, char_at_drop in H by lia.
Qed.

Lemma hit_at done rest :
  zlen needle ≤ zlen rest → hit rest ↔ occurs (done ++ rest) (zlen done) needle cs.
Proof.
  intros Hle. rewrite occurs_shift by apply zlen_nonneg. unfold zlen at 1. rewrite Nat2Z.id, drop_app_length.
  unfold hit. tauto.
Qed.

(** What the next occurrence after [done] says of the pass over [rest]. *)
Lemma next_occurrence rest : ∀ done, needle ≠ [] →
  match first_occurrence (done ++ rest) (zlen done) needle cs with
  | None => replaced 0 rest = (rest, 0)
  | Some i => ∃ a m c, rest = a ++ m ++ c ∧ i = zlen done + zlen a ∧ zlen m = zlen needle ∧
      replaced 0 rest = (a ++ repl ++ (replaced 0 c).1, (replaced 0 c).2 + 1)
  end.
Proof.
  induction rest as [|x rest IH]; intros done Hne; pose proof (zlen_pos needle Hne) as Hpos;
    unfold first_occurrence; rewrite zlen_app.
  - rewrite seqZ_nil by (change (@zlen Z []) with 0; lia). done.
  - destruct (decide (zlen needle ≤ zlen (x :: rest))) as [Hle|Hgt].
    + destruct (decide (hit (x :: rest))) as [Hh|Hh].
      * rewrite first_hit; [|lia|by apply hit_at].
        exists [], (take (length needle) (x :: rest)), (drop (length needle) (x :: rest)).
        unfold zlen in Hle. rewrite (take_drop _ (x :: rest)). split; [done|]. split; [unfold zlen; simpl; lia|].
        split; [unfold zlen; rewrite length_take; lia|]. cbn [replaced]. rewrite decide_True by done.
        rewrite replaced_skip. destruct needle as [|n0 nl]; [done|]. simpl.
        by destruct (replaced 0 (drop (length nl) rest)).
      * rewrite first_skip; [|lia|by rewrite <-hit_at].
        specialize (IH (done ++ [x]) Hne). unfold first_occurrence in IH.
        rewrite <-app_assoc, !zlen_app in IH. change ([x] ++ rest) with (x :: rest) in IH.
        change (zlen [x]) with 1 in IH. rewrite zlen_cons in *.
        replace (zlen done + (zlen rest + 1) - zlen needle + 1 - zlen done - 1)
          with (zlen done + 1 + zlen rest - zlen needle + 1 - (zlen done + 1)) by lia.
        replace (zlen done + (1 + zlen rest)) with (zlen done + 1 + zlen rest) in IH by lia.
        cbn [replaced]. rewrite decide_False by done.
        destruct (head _) as [i|].
        -- destruct IH as (a & m & c & -> & -> & Hm & Heq). exists (x :: a), m, c.
           split; [done|]. split; [rewrite zlen_cons; lia|]. split; [done|]. by rewrite Heq.
        -- by rewrite IH.
    + rewrite seqZ_nil by lia. clear IH. simpl head.
      assert (∀ l : list Z, zlen l ≤ zlen (x :: rest) → replaced 0 l = (l, 0)) as Hno; [|by apply Hno].
      induction l as [|y l IHl]; intros Hl; [done|]. cbn [replaced].
      rewrite decide_False by (unfold hit; lia). rewrite IHl; [done|]. rewrite zlen_cons in Hl. lia.
Qed.

Lemma replaced_count t : 0 ≤ (replaced 0 t).2.
Proof.
  assert (∀ k, 0 ≤ (replaced k t).2) as H; [|apply H].
  induction t as [|c t IH]; intros k; simpl; [done|]. destruct k; [|apply IH].
  case_decide; [specialize (IH (Nat.pred (length needle)))|specialize (IH 0%nat)];
    destruct (replaced _ t); simpl in *; lia.
Qed.

End reference.

(** Searching backwards finds the last occurrence that ends by [from]. *)
Lemma find_prev_ok b t from needle cs :
  holds (gap b) t → needle ≠ [] → 0 ≤ from < 2 ^ 64 → zlen needle < 2 ^ 64 →
  buffer_find_prev b from (Some needle) (zlen needle) cs ⇓ λ r,
    (r = BUFFER_NPOS ∧ ∀ i, 0 ≤ i ≤ from - zlen needle → ¬ occurs t i needle cs) ∨
    (0 ≤ r ≤ from - zlen needle ∧ occurs t r needle cs ∧
     ∀ i, r < i ≤ from - zlen needle → ¬ occurs t i needle cs).
Proof.
  intros Hb Hne Hf Hbig. pose proof (zlen_pos needle Hne) as Hn. unfold buffer_find_prev.
  rewrite (proj2 (Z.eqb_neq (zlen needle) 0)) by lia.
  destruct (Z.ltb_spec from (zlen needle)); [apply wp_ok; left; split; [done|lia]|].
  apply (wp_loop (λ i, 0 ≤ i ≤ from - zlen needle ∧
            ∀ j, i < j ≤ from - zlen needle → ¬ occurs t j needle cs) Z.to_nat);
    [|split; [lia|lia]|lia].
  intros i (Hi & Hno). rewrite (match_at_ok b t) by (done || lia). cbn [mbind outcome_bind].
  case_bool_decide as Hoc; [apply wp_ok; by right|].
  assert (∀ j, i ≤ j ≤ from - zlen needle → ¬ occurs t j needle cs) as Hno'.
  { intros j Hj. destruct (decide (j = i)) as [->|]; [done|]. apply Hno. lia. }
  destruct (Z.eqb_spec i 0); apply wp_ok.
  - left. split; [done|]. intros j Hj. apply Hno'. lia.
  - split; [|lia]. split; [lia|]. intros j Hj. apply Hno'. lia.
Qed.

(** One replacement on the document. *)
Lemma delete_middle d x m c :
  dtext d = x ++ m ++ c → m ≠ [] →
  dtext (doc_delete false d (zlen x) (zlen m)).2 = x ++ c ∧
  zlen (past (doc_delete false d (zlen x) (zlen m)).2) = zlen (past d) + 1.
Proof.
  intros Ht Hm%zlen_pos. unfold doc_delete. rewrite (proj2 (Z.eqb_neq _ _)) by lia.
  rewrite Ht, !zlen_app. pose proof (zlen_nonneg x). pose proof (zlen_nonneg c).
  rewrite (proj2 (Z.leb_gt _ _)) by lia. simpl. rewrite Ht, zlen_cons. split; [|done].
  rewrite Z.min_l by lia. rewrite zlen_slice by (rewrite ?zlen_app; lia). unfold del, zlen.
  rewrite Nat2Z.id, take_app_length. f_equal. rewrite app_assoc.
  replace (Z.to_nat _) with (length (x ++ m)) by (rewrite length_app; lia). by rewrite drop_app_length.
Qed.

Lemma insert_middle d x s c :
  dtext d = x ++ c →
  dtext (doc_insert false d (zlen x) s).2 = x ++ s ++ c ∧
  zlen (past (doc_insert false d (zlen x) s).2) ≤ zlen (past d) + 1.
Proof.
  intros Ht. unfold doc_insert. destruct (Z.eqb_spec (zlen s) 0) as [Hz|Hz].
  { destruct s; [|unfold zlen in Hz; simpl in Hz; lia]. simpl. split; [done|lia]. }
  simpl. rewrite Ht, zlen_app, zlen_cons. pose proof (zlen_nonneg c). split; [|lia].
  rewrite Z.min_l by lia. unfold ins, zlen. by rewrite Nat2Z.id, take_app_length, drop_app_length.
Qed.

Section replace.
Context (A : allocator) (HA : generous A) (HB : bounded A).
Context (needle repl : list Z) (cs : bool) (Hne : needle ≠ []) (Hbig : zlen needle < 2 ^ 62).

(** The state of the loop: [done] is behind [pos], [rest] is still to search. *)
Definition replacing (total : list Z * Z) (s : Z * Z * Buffer) (done rest : list Z) : Prop :=
  let '(count, pos, b) := s in
  let later := replaced needle repl cs 0 rest in
  ∃ d, repr false b d ∧ good d ∧ dtext d = done ++ rest ∧ pos = zlen done ∧
    total = (done ++ later.1, count + later.2) ∧ 0 ≤ count ≤ UNDO_CAP - 2 * later.2 ∧
    zlen (past d) + 2 * later.2 ≤ UNDO_CAP ∧ zlen (dtext d) + later.2 * zlen repl ≤ TEXT_MAX.

Lemma replace_turn total s done rest :
  replacing total s done rest →
  replace_step A (Some needle) (zlen needle) (Some repl) (zlen repl) cs s ⇓ λ x,
    match x with
    | inl s' => ∃ done' rest', replacing total s' done' rest' ∧ (length rest' < length rest)%nat
    | inr (count, b) => count = total.2 ∧ holds (gap b) total.1
    end.
Proof using HA HB Hne Hbig.
  destruct s as ((count & pos) & b). intros (d & Hr & Hg & Ht & -> & -> & Hcount & Hroom & Hfit).
  pose proof (good_text d Hg) as Hmax. change TEXT_MAX with 268435456 in *. change UNDO_CAP with 256 in *.
  pose proof (zlen_pos needle Hne) as Hn. pose proof (zlen_nonneg done). pose proof (zlen_nonneg rest).
  pose proof (zlen_nonneg repl). unfold replace_step.
  assert (zlen done + zlen rest ≤ 268435456) as Hsz by (rewrite Ht, zlen_app in Hmax; lia).
  rewrite (text_find_ok b (dtext d)) by (apply (repr_text _ _ _ Hr) || lia). cbn [mbind outcome_bind].
  unfold doc_find. rewrite (proj2 (Z.eqb_neq (zlen needle) 0)) by lia.
  pose proof (next_occurrence needle repl cs rest done Hne) as Hnext. rewrite <-Ht in Hnext.
  destruct (first_occurrence (dtext d) (zlen done) needle cs) as [i|]; simpl default.
  2: { rewrite Z.eqb_refl. apply wp_ok. rewrite Hnext. simpl. split; [lia|].
       rewrite <-Ht. apply (repr_text _ _ _ Hr). }
  destruct Hnext as (a & m & c & -> & -> & Hm & Hrep). rewrite Hrep in *. simpl in Hcount, Hroom, Hfit |- *.
  pose proof (replaced_count needle repl cs c) as Hk. set (later := replaced needle repl cs 0 c) in *.
  pose proof (zlen_nonneg a). pose proof (zlen_nonneg c). rewrite !zlen_app in Hsz.
  rewrite (proj2 (Z.eqb_neq _ BUFFER_NPOS)) by (change BUFFER_NPOS with 18446744073709551615; lia).
  rewrite <-Hm, <-zlen_app. rewrite app_assoc in Ht.
  assert (m ≠ []) as Hmne by (intros ->; unfold zlen in Hm at 1; simpl in Hm; lia).
  destruct (delete_middle d (done ++ a) m c Ht Hmne) as (Ht1 & Hp1).
  apply wp_bind. eapply wp_mono; [apply (delete_sim A HA b d (zlen (done ++ a)) (zlen m) Hg Hr)|].
  { apply zlen_nonneg. } { apply zlen_nonneg. } { rewrite zlen_app. lia. }
  { apply Z.leb_le. change UNDO_CAP with 256. lia. }
  intros (r1 & b1) (_ & Hb1).
  pose proof (good_delete d (zlen (done ++ a)) (zlen m) Hg ltac:(apply zlen_nonneg) ltac:(apply zlen_nonneg)) as Hg1.
  set (d1 := (doc_delete false d (zlen (done ++ a)) (zlen m)).2) in *.
  assert (zlen (dtext d1) + zlen m = zlen (dtext d)) as Hlen1 by (rewrite Ht1, Ht, !zlen_app; lia).
  assert (zlen (dtext d1) + zlen repl ≤ 268435456) as Hfit1 by nia.
  destruct (insert_middle d1 (done ++ a) repl c Ht1) as (Ht2 & Hp2).
  apply wp_bind. eapply wp_mono; [apply (insert_sim A HA HB b1 d1 (zlen (done ++ a)) repl Hg1 Hb1)|].
  { apply zlen_nonneg. } { apply Z.leb_le. change UNDO_CAP with 256. lia. } { apply Z.leb_le. done. }
  intros (r2 & b2) (_ & Hb2).
  pose proof (good_insert d1 (zlen (done ++ a)) repl Hg1 ltac:(apply zlen_nonneg) Hfit1) as Hg2.
  set (d2 := (doc_insert false d1 (zlen (done ++ a)) repl).2) in *.
  rewrite int_ok by lia. cbn [mbind outcome_bind]. apply wp_ok.
  exists (done ++ a ++ repl), c. split; [|rewrite !length_app; unfold zlen in Hm, Hn; lia].
  assert (zlen (dtext d2) + zlen m = zlen (dtext d) + zlen repl) as Hlen2
    by (rewrite Ht2, Ht, !zlen_app; lia).
  pose proof (zlen_nonneg (dtext d1)). pose proof (zlen_nonneg m).
  exists d2. fold later. change UNDO_CAP with 256. change TEXT_MAX with 268435456.
  split_and!; try done; try lia.
  - rewrite Ht2, <-!app_assoc. done.
  - rewrite !zlen_app. rewrite u64_small by lia. lia.
  - rewrite <-!app_assoc. f_equal. lia.
Qed.

Lemma replace_all_ok b d :
  repr false b d → good d →
  zlen (past d) + 2 * (replaced needle repl cs 0 (dtext d)).2 ≤ UNDO_CAP →
  zlen (dtext d) + (replaced needle repl cs 0 (dtext d)).2 * zlen repl ≤ TEXT_MAX →
  buffer_replace_all A b (Some needle) (zlen needle) (Some repl) (zlen repl) cs ⇓ λ '(count, b'),
    count = (replaced needle repl cs 0 (dtext d)).2 ∧
    holds (gap b') (replaced needle repl cs 0 (dtext d)).1.
Proof using HA HB Hne Hbig.
  intros Hr Hg Hroom Hfit. unfold buffer_replace_all.
  rewrite (proj2 (Z.eqb_neq (zlen needle) 0)) by (pose proof (zlen_pos needle Hne); lia).
  rewrite (buf_length_holds _ (dtext d)) by apply (repr_text _ _ _ Hr).
  set (total := replaced needle repl cs 0 (dtext d)) in *.
  apply (wp_loop_bound (λ k s, ∃ done rest, replacing total s done rest ∧ k = length rest)) with (k := length (dtext d)).
  - intros k s (done & rest & Hs & ->). eapply wp_mono; [by apply (replace_turn total s done rest)|].
    intros [s'|(count & b')] Hx; [|done]. destruct Hx as (done' & rest' & Hs' & Hlt). eauto 10.
  - exists [], (dtext d). split; [|done]. exists d. fold total. pose proof (replaced_count needle repl cs (dtext d)).
    fold total in H. pose proof (zlen_nonneg (past d)). split_and!; try done; try lia.
    by destruct total.
  - unfold zlen. lia.
Qed.

End replace.

(** C34: buffer_replace_all of a non-empty needle (shorter than 2^62) ends and gives the text
    and the count of the reference function that scans from left to right and replaces every
    occurrence behind the previous replacement, with and without regard to case, if the history
    has room for two records per replacement within its 256, the text with all replacements
    added fits 2^28 characters, and the allocator grants requests below 1 TiB and refuses those
    of 2^62 bytes and more. *)
Theorem text_replace_all_correct A b d needle repl cs :
  generous A → bounded A → good d → repr false b d →
  needle ≠ [] → zlen needle < 2 ^ 62 →
  zlen (past d) + 2 * (replaced needle repl cs 0 (dtext d)).2 ≤ UNDO_CAP →
  zlen (dtext d) + (replaced needle repl cs 0 (dtext d)).2 * zlen repl ≤ TEXT_MAX →
  buffer_replace_all A b (Some needle) (zlen needle) (Some repl) (zlen repl) cs ⇓ λ '(count, b'),
    count = (replaced needle repl cs 0 (dtext d)).2 ∧
    holds (gap b') (replaced needle repl cs 0 (dtext d)).1.
Proof. intros HA HB Hg Hr Hne Hbig Hroom Hfit. by apply replace_all_ok. Qed.

(** The document after typing [s], and its buffer. *)
Definition typed (s : list Z) : Doc := mkDoc s (zlen s) 0 false true None [Ins 0 s] [].

Lemma typed_ok (s : list Z) :
  s ≠ [] → zlen s ≤ TEXT_MAX →
  good (typed s) ∧ run plain [CInsert 0 s] new_buffer ⇓ λ '(_, b), repr false b (typed s).
Proof.
  intros Hs Hmax. pose proof (zlen_pos s Hs). change TEXT_MAX with 268435456 in Hmax. split.
  - constructor; simpl; try done; [lia|]. exists []. simpl. unfold ins. rewrite take_nil, drop_nil, app_nil_r.
    split_and!; try done.
  - eapply wp_mono; [apply (run_refines plain [CInsert 0 s] new_buffer empty_doc);
      [apply plain_generous|apply plain_bounded|apply empty_good|by apply (new_repr plain 0)|]|].
    + simpl. rewrite andb_true_r. unfold is_size, has_room, fits. simpl.
      change (zlen []) with 0. apply Z.leb_le. change TEXT_MAX with 268435456. lia.
    + intros (rs & b) (_ & Hb & _). simpl in Hb. unfold doc_insert in Hb.
      rewrite (proj2 (Z.eqb_neq (zlen s) 0)) in Hb by lia. unfold doc_edit in Hb. simpl in Hb.
      unfold ins in Hb. rewrite take_nil, drop_nil, app_nil_r in Hb. change (zlen []) with 0 in Hb.
      rewrite Z.min_r in Hb by lia. simpl in Hb. rewrite u64_small in Hb by lia. done.
Qed.

Lemma text_replace_all_correct_witness :
  ∃ b, buffer_replace_all plain b (Some [97]) (zlen [97]) (Some [98; 99]) (zlen [98; 99]) false ⇓
    λ '(count, b'), count = 2 ∧ holds (gap b') [98; 99; 10; 98; 99].
Proof.
  destruct (typed_ok [97; 10; 65]) as (Hg & ((rs & b) & Hrun & Hr)); [done|vm_compute; congruence|].
  exists b. apply (text_replace_all_correct plain b (typed [97; 10; 65]) [97] [98; 99] false);
    [apply plain_generous|apply plain_bounded|exact Hg|exact Hr|done|reflexivity|vm_compute; congruence
    |vm_compute; congruence].
Defined.

End TextReplace.

(** Loading and saving the text buffer, and the places where buffer.c does not
    do what it means to: each is shown on the definitions. *)
Import KString Bytes TextBuffer TextStore TextLines TextEdit TextClient TextClaims TextReplace.

Module TextFiles.

(** * Saving and loading *)

(** A file that takes every byte it is given. *)
Definition takes_all (accept : nat → Z → Z) : Prop := ∀ k n, accept k n = n.

Lemma take_filename_ok A b s :
  generous A → Forall (λ c, c ≠ 0) s → zlen s < 2 ^ 32 →
  take_filename A b (PStr (s ++ [0])) ⇓ λ b', ∃ k,
    b' = set_reqs k (set_filename (Some (s ++ [0])) b).
Proof.
  intros HA Hs Hlen. unfold take_filename, request. pose proof (zlen_nonneg s).
  rewrite c_strlen_app by done. cbn [mbind outcome_bind]. rewrite HA by lia. simpl.
  rewrite c_memcpy_ok by (rewrite ?zlen_fresh, ?zlen_app; change (zlen [0]) with 1; lia). simpl.
  apply wp_ok. exists (S (reqs b)). unfold set_reqs, set_filename. simpl. do 2 f_equal.
  unfold splice. rewrite take_0, take_ge by (rewrite length_app; unfold zlen; simpl; lia). simpl.
  rewrite drop_ge; [by rewrite app_nil_r|].
  pose proof (zlen_fresh A (reqs b) (zlen s + 1)) as Hf. unfold zlen in *. rewrite length_app. simpl. lia.
Qed.

(** Saving writes the text; the buffer keeps it. *)
Lemma save_ok A b t s accept :
  generous A → holds (gap b) t → Forall (λ c, c ≠ 0) s → zlen s < 2 ^ 32 → takes_all accept →
  buffer_save A b (PStr (s ++ [0])) (Some accept) ⇓ λ '(r, b', file),
    r = 0 ∧ file = Some t ∧ gap b' = gap b ∧ modified b' = false ∧ filename b' = Some (s ++ [0]).
Proof.
  intros HA (L & R & Hg & ->) Hs Hlen Hacc. pose proof Hg as (G & Hd & Hst & He & Hal & Hbd).
  pose proof (zlen_nonneg L) as HL. pose proof (zlen_nonneg R) as HR. pose proof (zlen_nonneg G).
  unfold buffer_save. rewrite (buf_length_repr _ L R Hg), zlen_app.
  assert ((if 0 <? gap_start (gap b) then fwrite accept 0 (gap b) 0 (gap_start (gap b))
           else Ok ([], true)) = Ok (L, true)) as Hw1.
  { rewrite Hst. destruct (Z.ltb_spec 0 (zlen L)).
    - unfold fwrite. rewrite decide_True by (rewrite Hd, !zlen_app; lia). rewrite Hacc.
      rewrite Z.max_r, Z.min_id, Z.eqb_refl by lia. by rewrite Hd, (slice_here L (G ++ R)).
    - destruct L; [done|unfold zlen in *; simpl in *; lia]. }
  assert ((if 0 <? u64 (zlen L + zlen R - gap_start (gap b))
           then fwrite accept 1 (gap b) (gap_end (gap b)) (u64 (zlen L + zlen R - gap_start (gap b)))
           else Ok ([], true)) = Ok (R, true)) as Hw2.
  { rewrite Hst, u64_small by lia. replace (zlen L + zlen R - zlen L) with (zlen R) by lia.
    destruct (Z.ltb_spec 0 (zlen R)).
    - unfold fwrite. rewrite decide_True by (rewrite Hd, !zlen_app; lia). rewrite Hacc.
      rewrite Z.max_r, Z.min_id, Z.eqb_refl by lia. rewrite Hd.
      replace (L ++ G ++ R) with ((L ++ G) ++ R ++ []) by (by rewrite app_nil_r, <-app_assoc).
      by rewrite slice_middle by (rewrite ?zlen_app; lia).
    - destruct R; [done|unfold zlen in *; simpl in *; lia]. }
  rewrite Hw1. cbn [mbind outcome_bind]. rewrite Hw2. cbn [mbind outcome_bind].
  apply wp_bind. eapply wp_mono; [by apply take_filename_ok|].
  intros b' (k & ->). by apply wp_ok.
Qed.

(** Loading a file that is not empty replaces the text. *)
Lemma load_ok A b t s bytes :
  generous A → holds (gap b) t → Forall (λ c, c ≠ 0) s → zlen s < 2 ^ 32 →
  0 < zlen bytes ≤ TEXT_MAX →
  buffer_load A b (PStr (s ++ [0])) (Some (zlen bytes, bytes)) ⇓ λ '(r, b'),
    r = 0 ∧ holds (gap b') bytes ∧ cursor b' = 0 ∧ modified b' = false ∧
    undo_top (undo b') = 0 ∧ undo_stack (undo b') = undo_stack (undo b) ∧
    undo_cap (undo b') = undo_cap (undo b) ∧ lines_dirty (lines b') = true.
Proof.
  intros HA Hb Hs Hlen Hn. unfold buffer_load. change TEXT_MAX with 268435456 in Hn.
  rewrite (proj2 (Z.ltb_ge _ _)), (proj2 (Z.eqb_neq _ _)) by lia. change GAP_INITIAL with 4096.
  rewrite (u64_small (zlen bytes + 4096)) by lia. unfold request. rewrite HA by lia. cbn [gap set_reqs reqs Nat.pred].
  rewrite Z.min_id. set (D := resized _ _ _ _).
  assert (zlen D = zlen bytes + 4096) as HD by (apply zlen_resized; lia).
  rewrite c_memcpy_ok by lia. cbn [mbind outcome_bind]. rewrite Z.eqb_refl.
  rewrite take_ge by (unfold zlen; lia).
  apply wp_bind. eapply wp_mono; [by apply take_filename_ok|].
  intros b' (k & ->). apply wp_ok. split; [done|]. split; [|done].
  exists bytes, []. split; [|by rewrite app_nil_r].
  exists (drop (length bytes) D). simpl. rewrite app_nil_r.
  assert (zlen (drop (length bytes) D) = 4096) as Hdr
    by (unfold zlen in *; rewrite length_drop; lia).
  rewrite Hdr. change (zlen []) with 0. split; [done|lia].
Qed.

(** Saving a non-empty text buffer to a file that takes all bytes and loading that file into any
    other buffer gives a buffer with the same text; both calls return 0, the saved buffer keeps
    its text and neither is marked modified. *)
Theorem text_save_load_roundtrip A b t b2 t2 s accept :
  generous A → holds (gap b) t → holds (gap b2) t2 → 0 < zlen t ≤ TEXT_MAX →
  Forall (λ c, c ≠ 0) s → zlen s < 2 ^ 32 → takes_all accept →
  ('(r, b, file) ← buffer_save A b (PStr (s ++ [0])) (Some accept);
   '(r2, b2) ← buffer_load A b2 (PStr (s ++ [0])) (match file with Some f => Some (zlen f, f) | None => None end);
   Ok (r, r2, b, b2)) ⇓ λ '(r, r2, b, b2),
    r = 0 ∧ r2 = 0 ∧ holds (gap b) t ∧ holds (gap b2) t ∧ modified b = false ∧ modified b2 = false.
Proof.
  intros HA Hb Hb2 Ht Hs Hlen Hacc. apply wp_bind. eapply wp_mono; [by apply (save_ok A b t)|].
  intros ((r & b1) & file) (-> & -> & Hg & Hm & _). apply wp_bind.
  eapply wp_mono; [by apply (load_ok A b2 t2)|].
  intros (r2 & b3) (-> & Hb3 & _ & Hm3 & _). apply wp_ok. by rewrite Hg.
Qed.

Lemma new_empty : repr false new_buffer empty_doc.
Proof. apply (new_repr plain 0). reflexivity. Qed.

Lemma text_save_load_roundtrip_witness : ∃ b,
  ('(r, b, file) ← buffer_save plain b (PStr ([102] ++ [0])) (Some (λ _ n, n));
   '(r2, b2) ← buffer_load plain new_buffer (PStr ([102] ++ [0])) (match file with Some f => Some (zlen f, f) | None => None end);
   Ok (r, r2, b, b2)) ⇓ λ '(r, r2, b, b2),
    r = 0 ∧ r2 = 0 ∧ holds (gap b) [97; 10; 98] ∧ holds (gap b2) [97; 10; 98] ∧
    modified b = false ∧ modified b2 = false.
Proof.
  destruct (typed_ok [97; 10; 98]) as (Hg & ((rs & b) & Hrun & Hr)); [done|vm_compute; congruence|].
  exists b. apply (text_save_load_roundtrip plain b [97; 10; 98] new_buffer [] [102] (λ _ n, n));
    [apply plain_generous|exact (repr_text _ _ _ Hr)|exact (repr_text _ _ _ new_empty)
    |vm_compute; split; congruence|repeat constructor; lia|reflexivity|intros k n; reflexivity].
Defined.

(** * The growth of the undo stack

    After [UNDO_CAP] edits the stack is doubled and the new half is never
    written; the next edit frees the pointers found there. *)
Lemma undo_push_full A b ty pos txt len past future :
  generous A → undo_repr (undo b) past future → in_undo (undo b) = false → zlen past = UNDO_CAP →
  0 ≤ len ≤ zlen txt → len + 1 < 2 ^ 40 →
  undo_push A b ty pos txt len ⇓ λ b', ∃ st k,
    b' = set_reqs k (set_undo (mkUndo (Some st) 257 512 false) b) ∧ st !! 257%nat = Some None.
Proof.
  intros HA Hu Hin Hfull Hlen Hmax. unfold undo_push. rewrite Hin.
  unfold undo_repr, undo_alloc in *. destruct (undo_stack (undo b)) as [st|] eqn:Hst.
  2: { destruct Hu as (-> & _). done. }
  destruct Hu as (tail & Hst' & _ & Htop & Hcap & Hzl). cbn [negb].
  unfold undo_clear_from. rewrite Hst, Htop, Hfull, Hcap. unfold for_each, for_loop.
  rewrite Z.sub_diag. change (Z.to_nat 0) with 0%nat. cbn [for_nat mbind outcome_bind].
  unfold undo_grow. cbn [undo set_undo undo_top undo_cap]. change UNDO_CAP with 256 in *.
  change (256 <? 256) with false. cbv iota. rewrite int_ok by done. cbn [mbind outcome_bind].
  unfold request. rewrite HA by done. cbn [mbind outcome_bind negb undo set_undo set_reqs reqs undo_stack default undo_top undo_cap in_undo].
  rewrite (u64_small (len + 1)) by lia. rewrite HA by lia. cbn [reqs set_reqs Nat.pred].
  set (F := fresh _ _ _). assert (zlen F = len + 1) as HF by (unfold F; rewrite zlen_fresh; lia).
  rewrite c_memcpy_ok by lia. cbn [mbind outcome_bind].
  rewrite zset_ok by (rewrite zlen_splice; rewrite ?zlen_take; lia). cbn [mbind outcome_bind].
  unfold id. rewrite Hzl. change (Z.to_nat (256 * 2 - 256)) with 256%nat.
  rewrite zset_ok by (rewrite zlen_app; unfold zlen at 2; rewrite length_replicate; lia). cbn [mbind outcome_bind].
  rewrite int_ok by done. cbn [mbind outcome_bind]. apply wp_ok. rewrite Hin.
  eexists _, _. split; [reflexivity|].
  rewrite list_lookup_insert_ne by done. rewrite lookup_app_r by (unfold zlen in Hzl; lia).
  apply lookup_replicate_2. unfold zlen in Hzl. lia.
Qed.

(** A loop whose first turn is undefined. *)
Lemma for_each_undef {S} lo hi (body : Z → S → outcome S) s :
  lo < hi → body lo s = Undef → for_each lo hi body s = Undef.
Proof.
  intros Hlt Hb. unfold for_each, for_loop. destruct (Z.to_nat (hi - lo)) as [|n] eqn:Hn; [lia|].
  simpl. by rewrite Hb.
Qed.

Lemma push_wild A b st ty pos txt len :
  undo b = mkUndo (Some st) 257 512 false → st !! 257%nat = Some None →
  undo_push A b ty pos txt len = Undef.
Proof.
  intros Hu Hst. unfold undo_push, undo_alloc. rewrite Hu. cbn [in_undo undo_stack negb].
  rewrite Hu. unfold undo_clear_from. cbn [undo_stack undo_cap undo_top].
  rewrite for_each_undef; [done|done|]. by rewrite (zget_ok st 257 None) by done.
Qed.

(** The 257th edit is accepted and the 258th is undefined. *)
Lemma undo_growth_unsound A b d c1 c2 :
  generous A → bounded A → good d → repr false b d → zlen (past d) = UNDO_CAP →
  zlen (dtext d) + 2 ≤ TEXT_MAX →
  buffer_insert_char A b 0 c1 ⇓ λ '(r, b1), r = 0 ∧ buffer_insert_char A b1 0 c2 = Undef.
Proof.
  intros HA HB Hg Hr Hfull Hfit. unfold buffer_insert_char. pose proof (zlen_nonneg (dtext d)).
  destruct (insert_split A b (dtext d) 0 [c1] 1 HA HB (repr_text _ _ _ Hr))
    as (b0 & -> & Ht0 & _ & _ & _ & _ & _ & Hu0 & _); [done|done|lia|].
  apply wp_bind. eapply wp_mono; [apply (undo_push_full A b0 _ _ _ _ (past d) (future d) HA)|].
  { rewrite Hu0. apply (repr_undo _ _ _ Hr). } { rewrite Hu0. apply (repr_quiet _ _ _ Hr). }
  { done. } { done. } { done. }
  intros b1 (st & k & -> & Hst). apply wp_ok. split; [done|].
  destruct (insert_split A (set_reqs k (set_undo (mkUndo (Some st) 257 512 false) b0))
    (ins (dtext d) (Z.min 0 (zlen (dtext d))) [c1]) 0 [c2] 1 HA HB)
    as (b2 & -> & _ & _ & _ & _ & _ & _ & Hu2 & _); [done|done|done| |].
  { rewrite zlen_ins by lia. change (zlen [c1]) with 1. lia. }
  by rewrite (push_wild A b2 st) by done.
Qed.

(** * The end of an empty last line

    When the text ends with a newline the last line is empty, its end is
    placed before its start, and the copy of its text writes past the block. *)
Lemma line_text_unsound A b t :
  generous A → holds (gap b) (t ++ [NL]) → zlen (t ++ [NL]) ≤ TEXT_MAX →
  lines_repr (lines b) (t ++ [NL]) →
  buffer_line_length A b (newlines (t ++ [NL])) ⇓ (λ '(n, _), n = -1) ∧
  buffer_line_text A b (newlines (t ++ [NL])) = Undef.
Proof.
  intros HA Hb Hmax Hl. set (u := t ++ [NL]) in *. pose proof (newlines_nonneg u) as Hnn.
  assert (start_of u (newlines u) = zlen u) as Hstart.
  { unfold start_of, starts, u. rewrite nl_after_app. pose proof (zlen_nl_after 0 t) as Hz.
    assert (newlines (t ++ [NL]) = newlines t + 1) as -> by (unfold newlines; rewrite filter_app, zlen_app; done).
    pose proof (newlines_nonneg t). replace (Z.to_nat (newlines t + 1)) with (S (length (nl_after 0 t)))
      by (unfold zlen in Hz; lia). simpl. rewrite list_lookup_middle by done. simpl.
    rewrite zlen_app. done. }
  assert (0 < zlen u) as Hpos by (unfold u; rewrite zlen_app; pose proof (zlen_nonneg t); change (zlen [NL]) with 1; lia).
  assert (line_end u (newlines u) = zlen u - 1) as Hend.
  { unfold line_end. rewrite zlen_starts, Z.ltb_irrefl.
    rewrite (proj2 (Z.ltb_lt 0 (zlen u))) by done.
    assert (char_at u (zlen u - 1) = NL) as ->; [|done].
    unfold char_at, u. rewrite zlen_app. change (zlen [NL]) with 1.
    replace (Z.to_nat (zlen t + 1 - 1)) with (length t) by (unfold zlen; lia).
    by rewrite list_lookup_middle. }
  assert (clamp (zlen (starts u)) (newlines u) = newlines u) as Hclamp
    by (unfold clamp; rewrite zlen_starts; lia).
  change TEXT_MAX with 268435456 in Hmax. split.
  - unfold buffer_line_length. apply wp_bind. eapply wp_mono; [by apply (line_end_ok A HA b u)|].
    intros (e & b1) (-> & Hq). destruct (queried_ok A b u Hb b1 Hq) as (Hb1 & Hc1 & _).
    apply wp_bind. eapply wp_mono; [apply (line_start_ok A HA b1 u Hb1 Hmax (clean_repr _ _ Hc1))|].
    intros (x & b2) (-> & _). apply wp_ok. rewrite Hclamp, Hstart, Hend.
    replace (zlen u - 1 - zlen u) with (-1) by lia. done.
  - unfold buffer_line_text.
    destruct (line_start_ok A HA b u Hb Hmax Hl (newlines u)) as ((x & b1) & -> & -> & Hq).
    cbn [mbind outcome_bind]. destruct (queried_ok A b u Hb b1 Hq) as (Hb1 & Hc1 & _).
    destruct (line_end_ok A HA b1 u Hb1 Hmax (clean_repr _ _ Hc1) (newlines u)) as ((e & b2) & -> & -> & Hq2).
    destruct (queried_ok A b1 u Hb1 b2 Hq2) as (Hb2 & _).
    cbn [mbind outcome_bind]. rewrite Hclamp, Hstart, Hend.
    replace (zlen u - 1 - zlen u) with (-1) by lia. unfold copy_out, request.
    change (u64 (u64 (-1) + 1)) with 0. rewrite HA by done. cbn [reqs set_reqs Nat.pred].
    rewrite for_each_undef; [done|done|].
    rewrite (char_at_ok _ u); [|exact Hb2|pose proof (u64_range (zlen u + 0)); lia].
    done.
Qed.

(** * Pasting moves the cursor twice

    [buffer_insert] already moves the cursor past the text it inserts at the
    cursor, and [buffer_paste] adds the length again. *)
Lemma paste_moves_twice A b d txt :
  generous A → bounded A → good d → repr false b d → doc_selected d = false →
  dcursor d ≤ zlen (dtext d) → txt ≠ [] → zlen (past d) + 2 ≤ UNDO_CAP →
  zlen (dtext d) + zlen txt ≤ TEXT_MAX →
  buffer_paste A b (Some txt) (zlen txt) ⇓ λ '(r, b'), r = 0 ∧
    holds (gap b') (ins (dtext d) (dcursor d) txt) ∧ cursor b' = dcursor d + zlen txt + zlen txt.
Proof.
  intros HA HB Hg Hr Hsel Hc Hne Hroom Hfit. pose proof (zlen_pos txt Hne).
  pose proof (good_cursor d Hg). change TEXT_MAX with 268435456 in Hfit.
  eapply wp_mono; [apply (paste_sim A HA HB b d txt Hg Hr); by apply Z.leb_le|].
  intros (r & b') (-> & Hb'). pose proof (repr_text _ _ _ Hb') as Ht. pose proof (repr_cursor _ _ _ Hb') as Hcur.
  unfold doc_paste, doc_insert in *. rewrite (proj2 (Z.eqb_neq (zlen txt) 0)), Hsel in * by lia.
  simpl in *. rewrite Z.min_l in * by lia. rewrite Z.leb_refl in Hcur.
  rewrite (u64_small (dcursor d + _)), u64_small in Hcur by lia. done.
Qed.

(** * Loading keeps the edits that were made before

    They can be redone in the new text, though they belong to the old one. *)
Lemma load_keeps_redo A b d s bytes :
  generous A → repr false b d → Forall (λ c, c ≠ 0) s → zlen s < 2 ^ 32 →
  0 < zlen bytes ≤ TEXT_MAX →
  buffer_load A b (PStr (s ++ [0])) (Some (zlen bytes, bytes)) ⇓ λ '(r, b'),
    r = 0 ∧ holds (gap b') bytes ∧ undo_repr (undo b') [] (rev (past d) ++ future d).
Proof.
  intros HA Hr Hs Hlen Hn. eapply wp_mono; [by apply (load_ok A b (dtext d) s bytes HA (repr_text _ _ _ Hr))|].
  intros (r & b') (-> & Hb' & _ & _ & Htop & Hst & Hcap & _). split; [done|]. split; [done|].
  pose proof (repr_undo _ _ _ Hr) as Hu. unfold undo_repr in *. rewrite Htop, Hst, Hcap.
  destruct (undo_stack (undo b)) as [st|].
  - destruct Hu as (tail & -> & Htail & _ & Hc & Hz). exists tail. split_and!; try done.
    simpl. by rewrite (map_app rec_of), <-app_assoc.
  - by destruct Hu as (-> & -> & _ & Hc).
Qed.

(** * A read that stops early

    The block is already resized and [alloc] changed when [fread] comes up
    short, but the gap is not: the next insertion writes outside of the block. *)
Lemma short_load_unsound :
  ('(r1, b) ← buffer_load plain new_buffer (PStr [102; 0]) (Some (5000, replicate 5000 97));
   '(r2, b) ← buffer_load plain b (PStr [103; 0]) (Some (10, [97; 98; 99]));
   Ok (r1, r2, buffer_insert_char plain b 5 33)) = Ok (0, -1, Undef).
Proof. vm_compute. reflexivity. Qed.

(** * Replacing while memory is short

    When the copy of the occurrence cannot be allocated nothing is deleted, and
    with an empty replacement the loop finds the same occurrence again. *)
Lemma replace_refused A b t needle cs repl i :
  (∀ k n, avail A k n = false) → holds (gap b) t → zlen t ≤ TEXT_MAX → needle ≠ [] →
  zlen needle < 2 ^ 62 → first_occurrence t 0 needle cs = Some i →
  ∀ fuel count k, 0 ≤ count → count + Z.of_nat fuel < 2 ^ 31 →
  loop fuel (replace_step A (Some needle) (zlen needle) repl 0 cs) (count, i, set_reqs k b) = OutOfFuel.
Proof.
  intros HA Hb Hmax Hne Hbig Hocc. change TEXT_MAX with 268435456 in Hmax.
  pose proof (zlen_pos needle Hne) as Hn.
  assert (occurs t i needle cs ∧ 0 ≤ i ∧ i + zlen needle ≤ zlen t) as (Hoc & Hi & Hle).
  { unfold first_occurrence in Hocc. apply head_Some_elem_of in Hocc.
    apply list_elem_of_filter in Hocc as (Hoc & Hin%elem_of_seqZ). split; [done|]. lia. }
  assert (first_occurrence t i needle cs = Some i) as Hat by (apply first_hit; [lia|done]).
  induction fuel as [|fuel IH]; intros count k Hc Hf; [done|]. cbn [loop].
  assert (replace_step A (Some needle) (zlen needle) repl 0 cs (count, i, set_reqs k b) =
    Ok (inl (count + 1, i, set_reqs (S k) b))) as ->; [|apply IH; lia].
  unfold replace_step. rewrite (text_find_ok _ t) by (done || lia). cbn [mbind outcome_bind].
  unfold doc_find. rewrite (proj2 (Z.eqb_neq (zlen needle) 0)), Hat by lia. simpl default.
  rewrite (proj2 (Z.eqb_neq i BUFFER_NPOS)) by (change BUFFER_NPOS with 18446744073709551615; lia).
  unfold buffer_delete. rewrite (proj2 (Z.eqb_neq (zlen needle) 0)) by lia.
  rewrite (buf_length_holds _ t) by done. rewrite (proj2 (Z.leb_gt _ _)) by lia.
  unfold copy_out, request. rewrite HA. cbn [mbind outcome_bind].
  unfold buffer_insert. rewrite Z.eqb_refl.
  assert ((match repl with Some _ => Ok (-1, set_reqs (S (reqs (set_reqs k b))) (set_reqs k b))
           | None => Ok (-1, set_reqs (S (reqs (set_reqs k b))) (set_reqs k b)) end) =
          Ok (-1, set_reqs (S k) b)) as -> by (by destruct repl).
  cbn [mbind outcome_bind]. rewrite int_ok by lia. cbn [mbind outcome_bind].
  by rewrite Z.add_0_r, u64_small by lia.
Qed.

End TextFiles.
