(* ===== verification/Vt100.v ===== *)
(** The terminal emulator (apps/terminal/vt100.c): the screen and its
    scrollback, the cursor and the scroll region, graphic renditions, the
    control sequences, and the parser that feeds them byte by byte.  The
    terminal pointer is not NULL throughout. *)
From stdpp Require Import base list.
From S2P Require Import Prelude.
From S2P Require Import CLib.

Module Vt100.

Definition MAX_PARAMS : Z := 16.
Definition MAX_INTERM : Z := 4.
Definition MAX_OSC_LEN : Z := 512.
Definition VT_COLOR_DEFAULT : Z := -1.
Definition DEFAULT_FG : Z := VT_COLOR_DEFAULT.
Definition DEFAULT_BG : Z := VT_COLOR_DEFAULT.

Definition VT_ATTR_BOLD : Z := 1.
Definition VT_ATTR_DIM : Z := 2.
Definition VT_ATTR_ITALIC : Z := 4.
Definition VT_ATTR_UNDERLINE : Z := 8.
Definition VT_ATTR_BLINK : Z := 16.
Definition VT_ATTR_REVERSE : Z := 32.
Definition VT_ATTR_HIDDEN : Z := 64.
Definition VT_ATTR_STRIKETHROUGH : Z := 128.

(** * Data

    The fields of [struct Vt100], grouped by what they describe; the two that
    nothing reads, [mode_alt_screen] and [current_param], are left out. *)
Record VtCell := mkCell { codepoint : Z; fg : Z; bg : Z; attrs : Z }.

Inductive VtParseState := VT_STATE_GROUND | VT_STATE_ESCAPE | VT_STATE_CSI | VT_STATE_OSC.

(** An element of the scrollback; [None] is a NULL [cells]. *)
Record ScrollbackLine := mkLine { cells : option (list VtCell); line_cols : Z }.

Record Screen := mkScreen {
  cols : Z; rows : Z; screen : list VtCell; alt_screen : list VtCell; use_alt : bool }.
Record Cursor := mkCursor {
  cursor_col : Z; cursor_row : Z; saved_col : Z; saved_row : Z;
  alt_saved_col : Z; alt_saved_row : Z; pending_wrap : bool }.
Record Modes := mkModes {
  mode_origin : bool; mode_auto_wrap : bool; mode_insert : bool;
  mode_cursor_visible : bool; mode_bracketed_paste : bool }.
Record Parser := mkParser {
  parse_state : VtParseState; params : list Z; param_count : Z;
  interm : list Z; interm_count : Z; osc_buf : list Z; osc_len : Z }.
Record Back := mkBack {
  scrollback : option (list ScrollbackLine); sb_cap : Z; sb_count : Z; sb_head : Z }.

Record Vt100 := mkVt {
  scr : Screen; cur : Cursor; scroll_top : Z; scroll_bot : Z; current_attr : VtCell;
  modes : Modes; parser : Parser; back : Back; reqs : nat }.

Definition set_scr (s : Screen) (v : Vt100) : Vt100 :=
  mkVt s (cur v) (scroll_top v) (scroll_bot v) (current_attr v) (modes v) (parser v) (back v) (reqs v).
Definition set_cur (c : Cursor) (v : Vt100) : Vt100 :=
  mkVt (scr v) c (scroll_top v) (scroll_bot v) (current_attr v) (modes v) (parser v) (back v) (reqs v).
Definition set_region (t b : Z) (v : Vt100) : Vt100 :=
  mkVt (scr v) (cur v) t b (current_attr v) (modes v) (parser v) (back v) (reqs v).
Definition set_attr (a : VtCell) (v : Vt100) : Vt100 :=
  mkVt (scr v) (cur v) (scroll_top v) (scroll_bot v) a (modes v) (parser v) (back v) (reqs v).
Definition set_modes (m : Modes) (v : Vt100) : Vt100 :=
  mkVt (scr v) (cur v) (scroll_top v) (scroll_bot v) (current_attr v) m (parser v) (back v) (reqs v).
Definition set_parser (p : Parser) (v : Vt100) : Vt100 :=
  mkVt (scr v) (cur v) (scroll_top v) (scroll_bot v) (current_attr v) (modes v) p (back v) (reqs v).
Definition set_back (b : Back) (k : nat) (v : Vt100) : Vt100 :=
  mkVt (scr v) (cur v) (scroll_top v) (scroll_bot v) (current_attr v) (modes v) (parser v) b k.

Definition set_pos (col row : Z) (w : bool) (c : Cursor) : Cursor :=
  mkCursor col row (saved_col c) (saved_row c) (alt_saved_col c) (alt_saved_row c) w.
Definition set_col (col : Z) (c : Cursor) : Cursor := set_pos col (cursor_row c) (pending_wrap c) c.
Definition set_row (row : Z) (c : Cursor) : Cursor := set_pos (cursor_col c) row (pending_wrap c) c.

(** The screen the terminal draws on. *)
Definition active (s : Screen) : list VtCell := if use_alt s then alt_screen s else screen s.
Definition set_active (l : list VtCell) (s : Screen) : Screen :=
  if use_alt s then mkScreen (cols s) (rows s) (screen s) l true
  else mkScreen (cols s) (rows s) l (alt_screen s) false.

(** [memmove] of [n] cells within a screen. *)
Definition move_cells (mem : list VtCell) (dst src n : Z) : outcome (list VtCell) :=
  if decide (0 ≤ n ∧ 0 ≤ dst ∧ 0 ≤ src ∧ dst + n ≤ zlen mem ∧ src + n ≤ zlen mem)
  then Ok (take (Z.to_nat dst) mem ++ take (Z.to_nat n) (drop (Z.to_nat src) mem) ++
           drop (Z.to_nat (dst + n)) mem)
  else Undef.

Definition cell_blank : VtCell := mkCell 32 DEFAULT_FG DEFAULT_BG 0.

(** * Screen access: [screen_cell] answers the index of a cell, or NULL *)
Definition screen_cell (v : Vt100) (col row : Z) : outcome (option Z) :=
  let s := scr v in
  if (col <? 0) || (cols s <=? col) || (row <? 0) || (rows s <=? row) then Ok None
  else i ← int (row * cols s + col); Ok (Some i).

Definition store_cell (v : Vt100) (i : Z) (c : VtCell) : outcome Vt100 :=
  l ← zset (active (scr v)) i c; Ok (set_scr (set_active l (scr v)) v).

Definition screen_clear_line (v : Vt100) (row col_start col_end : Z) : outcome Vt100 :=
  let blank := mkCell (codepoint cell_blank) (fg (current_attr v)) (bg (current_attr v)) (attrs cell_blank) in
  for_each col_start (Z.min (col_end + 1) (cols (scr v))) (λ c v,
    i ← screen_cell v c row;
    match i with Some i => store_cell v i blank | None => Ok v end) v.

Definition screen_clear_rows (v : Vt100) (row_start row_end : Z) : outcome Vt100 :=
  for_each row_start (Z.min (row_end + 1) (rows (scr v))) (λ r v,
    screen_clear_line v r 0 (cols (scr v) - 1)) v.

Section terminal.
Context (A : allocator).

(** * Scrollback *)
Definition sb_push_line (v : Vt100) (row : Z) : outcome Vt100 :=
  let b := back v in
  if sb_cap b =? 0 then Ok v
  else
    s ← int (sb_head b + sb_count b);
    let idx := Z.rem s (sb_cap b) in
    match scrollback b with
    | None => Undef
    | Some lines =>
        '(head, count) ← (if sb_count b =? sb_cap b then
                            _ ← zget lines (sb_head b);
                            h ← int (sb_head b + 1);
                            Ok (Z.rem h (sb_cap b), sb_count b - 1)
                          else Ok (sb_head b, sb_count b));
        if avail A (reqs v) (16 * cols (scr v)) then
          start ← int (row * cols (scr v));
          if decide (0 ≤ start ∧ start + cols (scr v) ≤ zlen (active (scr v))) then
            lines ← zset lines idx (mkLine
              (Some (take (Z.to_nat (cols (scr v))) (drop (Z.to_nat start) (active (scr v))))) (cols (scr v)));
            n ← int (count + 1);
            Ok (set_back (mkBack (Some lines) (sb_cap b) n head) (S (reqs v)) v)
          else Undef
        else
          lines ← zset lines idx (mkLine None (cols (scr v)));
          Ok (set_back (mkBack (Some lines) (sb_cap b) count head) (S (reqs v)) v)
    end.

(** * The scroll region *)
Definition scroll_up (v : Vt100) (top bot n : Z) : outcome Vt100 :=
  v ← (if use_alt (scr v) then Ok v else for_each 0 n (λ _ v, sb_push_line v top) v);
  lines ← int (bot - top + 1 - n);
  v ← (if 0 <? lines then
         d ← int (top * cols (scr v));
         s ← int ((top + n) * cols (scr v));
         l ← move_cells (active (scr v)) d s (cols (scr v) * lines);
         Ok (set_scr (set_active l (scr v)) v)
       else Ok v);
  first ← int (bot - n + 1);
  screen_clear_rows v first bot.

Definition scroll_down (v : Vt100) (top bot n : Z) : outcome Vt100 :=
  lines ← int (bot - top + 1 - n);
  v ← (if 0 <? lines then
         d ← int ((top + n) * cols (scr v));
         s ← int (top * cols (scr v));
         l ← move_cells (active (scr v)) d s (cols (scr v) * lines);
         Ok (set_scr (set_active l (scr v)) v)
       else Ok v);
  last ← int (top + n);
  screen_clear_rows v top (last - 1).

(** * The cursor *)
Definition cursor_clamp (v : Vt100) : Vt100 :=
  let c := cur v in
  let col := if cursor_col c <? 0 then 0 else cursor_col c in
  let col := if cols (scr v) <=? col then cols (scr v) - 1 else col in
  let row := if cursor_row c <? 0 then 0 else cursor_row c in
  let row := if rows (scr v) <=? row then rows (scr v) - 1 else row in
  set_cur (set_pos col row (pending_wrap c) c) v.

Definition cursor_move (v : Vt100) (col row : Z) : Vt100 :=
  cursor_clamp (set_cur (set_pos col row false (cur v)) v).

Definition cursor_next_line (v : Vt100) : outcome Vt100 :=
  let c := cur v in
  if cursor_row c =? scroll_bot v then scroll_up v (scroll_top v) (scroll_bot v) 1
  else
    let row := cursor_row c + 1 in
    Ok (set_cur (set_row (if rows (scr v) <=? row then rows (scr v) - 1 else row) c) v).

(** The cells right of the cursor move by one, from the end of the line. *)
Definition insert_shift (v : Vt100) : outcome Vt100 :=
  let row := cursor_row (cur v) in
  let col := cursor_col (cur v) in
  let n := cols (scr v) in
  l ← for_each 0 (n - 1 - col) (λ k l,
        let c := n - 1 - k in
        i ← int (row * n + c);
        x ← zget l (i - 1);
        zset l i x) (active (scr v));
  Ok (set_scr (set_active l (scr v)) v).

Definition put_char (v : Vt100) (cp : Z) : outcome Vt100 :=
  v ← (if pending_wrap (cur v) && mode_auto_wrap (modes v)
       then cursor_next_line (set_cur (set_pos 0 (cursor_row (cur v)) false (cur v)) v)
       else Ok v);
  v ← (if mode_insert (modes v) then insert_shift v else Ok v);
  i ← screen_cell v (cursor_col (cur v)) (cursor_row (cur v));
  v ← match i with
      | Some i =>
          let a := current_attr v in store_cell v i (mkCell cp (fg a) (bg a) (attrs a))
      | None => Ok v
      end;
  let c := cur v in
  if cols (scr v) - 1 <=? cursor_col c
  then Ok (set_cur (set_pos (cursor_col c) (cursor_row c) true c) v)
  else Ok (set_cur (set_col (cursor_col c + 1) c) v).

(** * Select graphic rendition *)
Definition reset_attr (a : VtCell) : VtCell := mkCell (codepoint a) DEFAULT_FG DEFAULT_BG 0.
Definition set_bits (a : VtCell) (m : Z) : VtCell := mkCell (codepoint a) (fg a) (bg a) (Z.lor (attrs a) m).
Definition clear_bits (a : VtCell) (m : Z) : VtCell :=
  mkCell (codepoint a) (fg a) (bg a) (Z.land (attrs a) (Z.lnot m)).
Definition with_fg (a : VtCell) (c : Z) : VtCell := mkCell (codepoint a) c (bg a) (attrs a).
Definition with_bg (a : VtCell) (c : Z) : VtCell := mkCell (codepoint a) (fg a) c (attrs a).

(** The colour cube: [16 + 36 * (r / 43) + 6 * (g / 43) + (b / 43)]. *)
Definition cube (r g b : Z) : outcome Z :=
  x ← int (36 * (Z.quot r 43));
  y ← int (6 * (Z.quot g 43));
  s ← int (16 + x);
  s ← int (s + y);
  int (s + Z.quot b 43).

(** One turn of the loop: the attributes and the index the loop goes on from. *)
Definition sgr_step (ps : list Z) (count i : Z) (a : VtCell) : outcome (VtCell * Z) :=
  p ← zget ps i;
  if p =? 0 then Ok (reset_attr a, i)
  else if p =? 1 then Ok (set_bits a VT_ATTR_BOLD, i)
  else if p =? 2 then Ok (set_bits a VT_ATTR_DIM, i)
  else if p =? 3 then Ok (set_bits a VT_ATTR_ITALIC, i)
  else if p =? 4 then Ok (set_bits a VT_ATTR_UNDERLINE, i)
  else if p =? 5 then Ok (set_bits a VT_ATTR_BLINK, i)
  else if p =? 7 then Ok (set_bits a VT_ATTR_REVERSE, i)
  else if p =? 8 then Ok (set_bits a VT_ATTR_HIDDEN, i)
  else if p =? 9 then Ok (set_bits a VT_ATTR_STRIKETHROUGH, i)
  else if p =? 22 then Ok (clear_bits a (Z.lor VT_ATTR_BOLD VT_ATTR_DIM), i)
  else if p =? 23 then Ok (clear_bits a VT_ATTR_ITALIC, i)
  else if p =? 24 then Ok (clear_bits a VT_ATTR_UNDERLINE, i)
  else if p =? 25 then Ok (clear_bits a VT_ATTR_BLINK, i)
  else if p =? 27 then Ok (clear_bits a VT_ATTR_REVERSE, i)
  else if p =? 28 then Ok (clear_bits a VT_ATTR_HIDDEN, i)
  else if p =? 29 then Ok (clear_bits a VT_ATTR_STRIKETHROUGH, i)
  else if p =? 39 then Ok (with_fg a DEFAULT_FG, i)
  else if p =? 49 then Ok (with_bg a DEFAULT_BG, i)
  else if (30 <=? p) && (p <=? 37) then Ok (with_fg a (p - 30), i)
  else if (40 <=? p) && (p <=? 47) then Ok (with_bg a (p - 40), i)
  else if (90 <=? p) && (p <=? 97) then Ok (with_fg a (p - 90 + 8), i)
  else if (100 <=? p) && (p <=? 107) then Ok (with_bg a (p - 100 + 8), i)
  else if (p =? 38) || (p =? 48) then
    let put := if p =? 38 then with_fg a else with_bg a in
    q ← (if i + 2 <? count then zget ps (i + 1) else Ok 0);
    if (i + 2 <? count) && (q =? 5) then
      c ← zget ps (i + 2); Ok (put c, i + 2)
    else if (i + 4 <? count) && (q =? 2) then
      r ← zget ps (i + 2); g ← zget ps (i + 3); b ← zget ps (i + 4);
      c ← cube r g b; Ok (put c, i + 4)
    else Ok (a, i)
  else Ok (a, i).

Definition apply_sgr (v : Vt100) (ps : list Z) (count : Z) : outcome Vt100 :=
  if count =? 0 then Ok (set_attr (reset_attr (current_attr v)) v)
  else
    a ← loop (S (Z.to_nat count)) (λ '(i, a),
          if i <? count then '(a, i) ← sgr_step ps count i a; Ok (inl (i + 1, a))
          else Ok (inr a)) (0, current_attr v);
    Ok (set_attr a v).

(** * Control sequences *)
Definition param (v : Vt100) (idx def : Z) : outcome Z :=
  if param_count (parser v) <=? idx then Ok def
  else p ← zget (params (parser v)) idx; Ok (if p =? 0 then def else p).

(** [CSI J] and [CSI K]. *)
Definition erase_display (v : Vt100) : outcome Vt100 :=
  k ← param v 0 0;
  let c := cur v in
  if k =? 0 then
    v ← screen_clear_line v (cursor_row c) (cursor_col c) (cols (scr v) - 1);
    screen_clear_rows v (cursor_row c + 1) (rows (scr v) - 1)
  else if k =? 1 then
    v ← screen_clear_line v (cursor_row c) 0 (cursor_col c);
    screen_clear_rows v 0 (cursor_row c - 1)
  else if k =? 2 then screen_clear_rows v 0 (rows (scr v) - 1)
  else if k =? 3 then
    v ← screen_clear_rows v 0 (rows (scr v) - 1);
    let b := back v in
    Ok (set_back (mkBack (scrollback b) (sb_cap b) 0 0) (reqs v) v)
  else Ok v.

Definition erase_line (v : Vt100) : outcome Vt100 :=
  k ← param v 0 0;
  let c := cur v in
  if k =? 0 then screen_clear_line v (cursor_row c) (cursor_col c) (cols (scr v) - 1)
  else if k =? 1 then screen_clear_line v (cursor_row c) 0 (cursor_col c)
  else if k =? 2 then screen_clear_line v (cursor_row c) 0 (cols (scr v) - 1)
  else Ok v.

(** [CSI P] and [CSI @]: characters deleted and inserted at the cursor. *)
Definition delete_chars (v : Vt100) (p1 : Z) : outcome Vt100 :=
  let row := cursor_row (cur v) in
  let col := cursor_col (cur v) in
  let n := if cols (scr v) - col <? p1 then cols (scr v) - col else p1 in
  let remain := cols (scr v) - col - n in
  v ← (if 0 <? remain then
         d ← int (row * cols (scr v) + col);
         s ← int (row * cols (scr v) + col + n);
         l ← move_cells (active (scr v)) d s remain;
         Ok (set_scr (set_active l (scr v)) v)
       else Ok v);
  screen_clear_line v row (cols (scr v) - n) (cols (scr v) - 1).

Definition insert_chars (v : Vt100) (p1 : Z) : outcome Vt100 :=
  let row := cursor_row (cur v) in
  let col := cursor_col (cur v) in
  let n := if cols (scr v) - col <? p1 then cols (scr v) - col else p1 in
  let remain := cols (scr v) - col - n in
  v ← (if 0 <? remain then
         d ← int (row * cols (scr v) + col + n);
         s ← int (row * cols (scr v) + col);
         l ← move_cells (active (scr v)) d s remain;
         Ok (set_scr (set_active l (scr v)) v)
       else Ok v);
  screen_clear_line v row col (col + n - 1).

(** [CSI r]: the scroll region. *)
Definition set_margins (v : Vt100) : outcome Vt100 :=
  t ← param v 0 1;
  b ← param v 1 (rows (scr v));
  let top := if t - 1 <? 0 then 0 else t - 1 in
  let bot := if rows (scr v) <=? b - 1 then rows (scr v) - 1 else b - 1 in
  let '(top, bot) := if bot <? top then (0, rows (scr v) - 1) else (top, bot) in
  Ok (cursor_move (set_region top bot v) 0 0).

Definition set_origin (x : bool) (m : Modes) : Modes :=
  mkModes x (mode_auto_wrap m) (mode_insert m) (mode_cursor_visible m) (mode_bracketed_paste m).
Definition set_auto_wrap (x : bool) (m : Modes) : Modes :=
  mkModes (mode_origin m) x (mode_insert m) (mode_cursor_visible m) (mode_bracketed_paste m).
Definition set_insert (x : bool) (m : Modes) : Modes :=
  mkModes (mode_origin m) (mode_auto_wrap m) x (mode_cursor_visible m) (mode_bracketed_paste m).
Definition set_visible (x : bool) (m : Modes) : Modes :=
  mkModes (mode_origin m) (mode_auto_wrap m) (mode_insert m) x (mode_bracketed_paste m).
Definition set_bracketed (x : bool) (m : Modes) : Modes :=
  mkModes (mode_origin m) (mode_auto_wrap m) (mode_insert m) (mode_cursor_visible m) x.

(** Entering and leaving the alternate screen.  The clearing of the rows
    comes before [use_alt] is set. *)
Definition enter_alt (v : Vt100) : outcome Vt100 :=
  if use_alt (scr v) then Ok v
  else
    let c := cur v in
    let s := scr v in
    let zero := mkCell 0 0 0 0 in
    let v := set_cur (mkCursor (cursor_col c) (cursor_row c) (saved_col c) (saved_row c)
                        (cursor_col c) (cursor_row c) (pending_wrap c)) v in
    alt ← zfill (alt_screen s) (cols s * rows s) zero;
    v ← screen_clear_rows (set_scr (mkScreen (cols s) (rows s) (screen s) alt false) v) 0 (rows s - 1);
    let s := scr v in
    Ok (cursor_move (set_scr (mkScreen (cols s) (rows s) (screen s) (alt_screen s) true) v) 0 0).

Definition leave_alt (v : Vt100) : Vt100 :=
  if use_alt (scr v) then
    let s := scr v in
    cursor_move (set_scr (mkScreen (cols s) (rows s) (screen s) (alt_screen s) false) v)
      (alt_saved_col (cur v)) (alt_saved_row (cur v))
  else v.

Definition is_private (v : Vt100) : outcome bool :=
  if 0 <? interm_count (parser v) then c ← zget (interm (parser v)) 0; Ok (c =? 63) else Ok false.

(** One parameter of [CSI h] ([on]) or [CSI l]. *)
Definition set_mode (on : bool) (i : Z) (v : Vt100) : outcome Vt100 :=
  priv ← is_private v;
  p ← zget (params (parser v)) i;
  if (priv : bool) then
    if p =? 6 then Ok (set_modes (set_origin on (modes v)) v)
    else if p =? 7 then Ok (set_modes (set_auto_wrap on (modes v)) v)
    else if p =? 25 then Ok (set_modes (set_visible on (modes v)) v)
    else if (p =? 47) || (p =? 1047) || (p =? 1049) then
      if on then enter_alt v else Ok (leave_alt v)
    else if p =? 2004 then Ok (set_modes (set_bracketed on (modes v)) v)
    else Ok v
  else if p =? 4 then Ok (set_modes (set_insert on (modes v)) v)
  else Ok v.

Definition save_cursor (v : Vt100) : Vt100 :=
  let c := cur v in
  set_cur (mkCursor (cursor_col c) (cursor_row c) (cursor_col c) (cursor_row c)
             (alt_saved_col c) (alt_saved_row c) (pending_wrap c)) v.

Definition dispatch_csi (v : Vt100) (final : Z) : outcome Vt100 :=
  p1 ← param v 0 1;
  p2 ← param v 1 1;
  let c := cur v in
  let col := cursor_col c in
  let row := cursor_row c in
  if final =? 65 then r ← int (row - p1); Ok (cursor_move v col r)
  else if final =? 66 then r ← int (row + p1); Ok (cursor_move v col r)
  else if final =? 67 then x ← int (col + p1); Ok (cursor_move v x row)
  else if final =? 68 then x ← int (col - p1); Ok (cursor_move v x row)
  else if final =? 69 then r ← int (row + p1); Ok (cursor_move v 0 r)
  else if final =? 70 then r ← int (row - p1); Ok (cursor_move v 0 r)
  else if final =? 71 then Ok (cursor_move v (p1 - 1) row)
  else if (final =? 72) || (final =? 102) then Ok (cursor_move v (p2 - 1) (p1 - 1))
  else if final =? 73 then
    t ← int (Z.quot col 8 + p1); x ← int (t * 8);
    Ok (cursor_clamp (set_cur (set_col x c) v))
  else if final =? 74 then erase_display v
  else if final =? 75 then erase_line v
  else if final =? 76 then scroll_down v row (scroll_bot v) p1
  else if final =? 77 then scroll_up v row (scroll_bot v) p1
  else if final =? 80 then delete_chars v p1
  else if final =? 64 then insert_chars v p1
  else if final =? 83 then scroll_up v (scroll_top v) (scroll_bot v) p1
  else if final =? 84 then scroll_down v (scroll_top v) (scroll_bot v) p1
  else if final =? 88 then
    e ← int (col + p1); screen_clear_line v row col (e - 1)
  else if final =? 90 then
    Ok (cursor_clamp (set_cur (set_col (Z.quot (col - 1) 8 * 8) c) v))
  else if final =? 100 then Ok (cursor_move v col (p1 - 1))
  else if final =? 109 then apply_sgr v (params (parser v)) (param_count (parser v))
  else if final =? 114 then set_margins v
  else if final =? 104 then for_each 0 (param_count (parser v)) (set_mode true) v
  else if final =? 108 then for_each 0 (param_count (parser v)) (set_mode false) v
  else if final =? 115 then Ok (save_cursor v)
  else if final =? 117 then Ok (cursor_move v (saved_col c) (saved_row c))
  else Ok v.

Definition dispatch_esc (v : Vt100) (final : Z) : outcome Vt100 :=
  let c := cur v in
  if final =? 68 then cursor_next_line v
  else if final =? 69 then cursor_next_line (set_cur (set_col 0 c) v)
  else if final =? 77 then
    if cursor_row c =? scroll_top v then scroll_down v (scroll_top v) (scroll_bot v) 1
    else if 0 <? cursor_row c then Ok (set_cur (set_row (cursor_row c - 1) c) v)
    else Ok v
  else if final =? 55 then Ok (save_cursor v)
  else if final =? 56 then Ok (cursor_move v (saved_col c) (saved_row c))
  else if final =? 99 then
    v ← screen_clear_rows v 0 (rows (scr v) - 1);
    let v := cursor_move v 0 0 in
    Ok (set_region 0 (rows (scr v) - 1) (set_attr (reset_attr (current_attr v)) v))
  else Ok v.

(** * The parser *)
Definition with_state (st : VtParseState) (p : Parser) : Parser :=
  mkParser st (params p) (param_count p) (interm p) (interm_count p) (osc_buf p) (osc_len p).

Definition parser_reset (p : Parser) : Parser :=
  mkParser (parse_state p) (replicate (Z.to_nat MAX_PARAMS) 0) 0
    (replicate (Z.to_nat MAX_INTERM) 0) 0 (osc_buf p) (osc_len p).

Definition param_push_digit (p : Parser) (c : Z) : outcome Parser :=
  let n := if param_count p =? 0 then 1 else param_count p in
  x ← zget (params p) (n - 1);
  t ← int (x * 10);
  y ← int (t + (c - 48));
  ps ← zset (params p) (n - 1) y;
  Ok (mkParser (parse_state p) ps n (interm p) (interm_count p) (osc_buf p) (osc_len p)).

Definition param_next (p : Parser) : Parser :=
  mkParser (parse_state p) (params p)
    (if param_count p <? MAX_PARAMS then param_count p + 1 else param_count p)
    (interm p) (interm_count p) (osc_buf p) (osc_len p).

Definition push_interm (p : Parser) (c : Z) : outcome Parser :=
  if interm_count p <? MAX_INTERM then
    chars ← zset (interm p) (interm_count p) c;
    Ok (mkParser (parse_state p) (params p) (param_count p) chars (interm_count p + 1) (osc_buf p) (osc_len p))
  else Ok p.

Definition osc_start (p : Parser) : Parser :=
  mkParser VT_STATE_OSC (params p) (param_count p) (interm p) (interm_count p) (osc_buf p) 0.

(** Whether the last byte stored in [osc_buf] is ESC. *)
Definition osc_esc (p : Parser) : outcome bool :=
  if 0 <? osc_len p then c ← zget (osc_buf p) (osc_len p - 1); Ok (c =? 27) else Ok false.

(** A byte inside of an operating system command; [dispatch_osc] ignores it. *)
Definition feed_osc (p : Parser) (c : Z) : outcome Parser :=
  esc ← osc_esc p;
  if (c =? 7) || (c =? 156) || ((c =? 92) && esc) then
    let len := if (esc : bool) then osc_len p - 1 else osc_len p in
    buf ← zset (osc_buf p) len 0;
    Ok (mkParser VT_STATE_GROUND (params p) (param_count p) (interm p) (interm_count p) buf len)
  else if osc_len p <? MAX_OSC_LEN - 1 then
    buf ← zset (osc_buf p) (osc_len p) c;
    Ok (mkParser (parse_state p) (params p) (param_count p) (interm p) (interm_count p) buf (osc_len p + 1))
  else Ok p.

Definition feed_ground (v : Vt100) (c : Z) : outcome Vt100 :=
  let k := cur v in
  if c <? 32 then
    if c =? 8 then
      Ok (set_cur (set_pos (if 0 <? cursor_col k then cursor_col k - 1 else cursor_col k)
                     (cursor_row k) false k) v)
    else if c =? 9 then
      let x := (Z.quot (cursor_col k) 8 + 1) * 8 in
      Ok (set_cur (set_pos (if cols (scr v) <=? x then cols (scr v) - 1 else x) (cursor_row k) false k) v)
    else if (c =? 10) || (c =? 11) || (c =? 12) then cursor_next_line v
    else if c =? 13 then Ok (set_cur (set_pos 0 (cursor_row k) false k) v)
    else if c =? 27 then Ok (set_parser (with_state VT_STATE_ESCAPE (parser_reset (parser v))) v)
    else Ok v
  else put_char v c.

Definition feed_escape (v : Vt100) (c : Z) : outcome Vt100 :=
  let p := parser v in
  if c =? 91 then Ok (set_parser (with_state VT_STATE_CSI (parser_reset p)) v)
  else if c =? 93 then Ok (set_parser (osc_start p) v)
  else if (c =? 80) || (c =? 88) || (c =? 94) || (c =? 95) then Ok (set_parser (osc_start p) v)
  else if (32 <=? c) && (c <=? 47) then p ← push_interm p c; Ok (set_parser p v)
  else if (48 <=? c) && (c <=? 126) then
    v ← dispatch_esc v c; Ok (set_parser (with_state VT_STATE_GROUND (parser v)) v)
  else Ok (set_parser (with_state VT_STATE_GROUND p) v).

Definition feed_csi (v : Vt100) (c : Z) : outcome Vt100 :=
  let p := parser v in
  if (48 <=? c) && (c <=? 57) then p ← param_push_digit p c; Ok (set_parser p v)
  else if c =? 59 then Ok (set_parser (param_next p) v)
  else if c =? 58 then Ok (set_parser (param_next p) v)
  else if (32 <=? c) && (c <=? 47) then p ← push_interm p c; Ok (set_parser p v)
  else if (64 <=? c) && (c <=? 126) then
    v ← dispatch_csi v c; Ok (set_parser (with_state VT_STATE_GROUND (parser v)) v)
  else if c =? 27 then Ok (set_parser (with_state VT_STATE_ESCAPE (parser_reset p)) v)
  else Ok (set_parser (with_state VT_STATE_GROUND p) v).

(** One byte. *)
Definition feed_byte (v : Vt100) (c : Z) : outcome Vt100 :=
  match parse_state (parser v) with
  | VT_STATE_OSC => p ← feed_osc (parser v) c; Ok (set_parser p v)
  | VT_STATE_GROUND => feed_ground v c
  | VT_STATE_ESCAPE => feed_escape v c
  | VT_STATE_CSI => feed_csi v c
  end.

Definition vt100_feed (v : Vt100) (buf : list Z) (len : Z) : outcome Vt100 :=
  for_each 0 len (λ i v, c ← zget buf i; feed_byte v (u8 c)) v.

(** * Public interface *)

(** [n] cells of fresh memory. *)
Definition fresh_cells (k : nat) (n : Z) : list VtCell :=
  map (λ i, mkCell (junk A k (4 * i)) (junk A k (4 * i + 1)) (junk A k (4 * i + 2)) (junk A k (4 * i + 3)))
    (seq 0 (Z.to_nat n)).

(** [vt100_new] of a program that has made [k] requests. *)
Definition vt100_new (k : nat) (ncols nrows sb : Z) : outcome (option Vt100) :=
  if (ncols <=? 0) || (nrows <=? 0) then Ok None
  else if negb (avail A k 728) then Ok None
  else if negb (avail A (S k) (16 * ncols * nrows)) then Ok None
  else if negb (avail A (S (S k)) (16 * ncols * nrows)) then Ok None
  else
    let v := mkVt (mkScreen ncols nrows (fresh_cells (S k) (ncols * nrows))
                     (fresh_cells (S (S k)) (ncols * nrows)) false)
               (mkCursor 0 0 0 0 0 0 false) 0 (nrows - 1) (mkCell 0 DEFAULT_FG DEFAULT_BG 0)
               (mkModes false true false true false)
               (mkParser VT_STATE_GROUND (replicate (Z.to_nat MAX_PARAMS) 0) 0
                  (replicate (Z.to_nat MAX_INTERM) 0) 0 (replicate (Z.to_nat MAX_OSC_LEN) 0) 0)
               (mkBack None 0 0 0) (S (S (S k))) in
    v ← screen_clear_rows v 0 (nrows - 1);
    if 0 <? sb then
      if avail A (reqs v) (16 * sb)
      then Ok (Some (set_back (mkBack (Some (replicate (Z.to_nat sb) (mkLine None 0))) sb 0 0)
                       (S (reqs v)) v))
      else Ok (Some (set_back (back v) (S (reqs v)) v))
    else Ok (Some v).

Definition vt100_resize (v : Vt100) (ncols nrows : Z) : outcome Vt100 :=
  if (ncols <=? 0) || (nrows <=? 0) then Ok v
  else
    let bytes := 16 * ncols * nrows in
    let ok := avail A (reqs v) bytes && avail A (S (reqs v)) bytes in
    let v := set_back (back v) (S (S (reqs v))) v in
    if negb ok then Ok v
    else
      n ← int (ncols * nrows);
      let blank := replicate (Z.to_nat n) cell_blank in
      let s := scr v in
      let copy_rows := if nrows <? rows s then nrows else rows s in
      let copy_cols := if ncols <? cols s then ncols else cols s in
      new ← for_each 0 copy_rows (λ r new,
              for_each 0 copy_cols (λ c new,
                x ← zget (screen s) (r * cols s + c);
                zset new (r * ncols + c) x) new) blank;
      let c := cur v in
      let col := if ncols <=? cursor_col c then ncols - 1 else cursor_col c in
      let row := if nrows <=? cursor_row c then nrows - 1 else cursor_row c in
      Ok (set_region 0 (nrows - 1) (set_cur (set_pos col row (pending_wrap c) c)
            (set_scr (mkScreen ncols nrows new blank (use_alt s)) v))).

Definition vt100_cell (v : Vt100) (col row : Z) : outcome (option VtCell) :=
  i ← screen_cell v col row;
  match i with Some i => c ← zget (active (scr v)) i; Ok (Some c) | None => Ok None end.

Definition vt100_cursor_col (v : Vt100) : Z := cursor_col (cur v).
Definition vt100_cursor_row (v : Vt100) : Z := cursor_row (cur v).
Definition vt100_cursor_visible (v : Vt100) : bool := mode_cursor_visible (modes v).
Definition vt100_cols (v : Vt100) : Z := cols (scr v).
Definition vt100_rows (v : Vt100) : Z := rows (scr v).

(** A line of the scrollback, the newest first: its cells and their number. *)
Definition vt100_scrollback_line (v : Vt100) (index : Z) : outcome (option (list VtCell * Z)) :=
  let b := back v in
  if (index <? 0) || (sb_count b <=? index) then Ok None
  else
    s ← int (sb_head b + sb_count b);
    match scrollback b with
    | None => Undef
    | Some lines =>
        l ← zget lines (Z.rem (s - 1 - index) (sb_cap b));
        match cells l with Some cs => Ok (Some (cs, line_cols l)) | None => Ok None end
    end.

Definition vt100_scrollback_count (v : Vt100) : Z := sb_count (back v).

(** [vt100_free] gives back the lines of the scrollback that are in use. *)
Definition vt100_free (v : Vt100) : outcome unit :=
  let b := back v in
  match scrollback b with
  | None => Ok tt
  | Some lines =>
      for_each 0 (sb_count b) (λ i u,
        s ← int (sb_head b + i);
        _ ← zget lines (Z.rem s (sb_cap b)); Ok u) tt
  end.

End terminal.
End Vt100.
