(* ===== verification/Vt100Screen.v ===== *)
(** The screen of the terminal as a grid of cells, and what the drawing
    operations of vt100.c do to it; the scrollback as the queue of the lines
    that left the screen. *)
From stdpp Require Import base list.
From S2P Require Import Prelude.
From S2P Require Import Ring.
From S2P Require Import CLib.
From S2P Require Import Vt100.
Import Vt100.

Module Vt100Screen.

(** The largest number of columns and rows, and the largest parameter. *)
Definition DIM : Z := 32767.
Definition PMAX : Z := 99999999.

(** * Well-formed terminals *)
Record wf_screen (s : Screen) : Prop := mk_wf_screen {
  wf_cols : 1 ≤ cols s ≤ DIM;
  wf_rows : 1 ≤ rows s ≤ DIM;
  wf_main : zlen (screen s) = cols s * rows s;
  wf_alt : zlen (alt_screen s) = cols s * rows s }.

Definition whole_line (cs : list VtCell) : ScrollbackLine := mkLine (Some cs) (zlen cs).

(** The scrollback holds the lines [ls], the oldest first. *)
Definition back_repr (b : Back) (ls : list (list VtCell)) : Prop :=
  match scrollback b with
  | None => sb_cap b = 0 ∧ sb_count b = 0 ∧ ls = []
  | Some lines =>
      sb_cap b = zlen lines ∧ sb_cap b < 2 ^ 30 ∧ sb_count b = zlen ls ∧
      Ring.holds lines (sb_cap b) (sb_head b) (map whole_line ls)
  end.

Record wf_parser (p : Parser) : Prop := mk_wf_parser {
  wf_params : zlen (params p) = MAX_PARAMS;
  wf_param : Forall (λ x, 0 ≤ x ≤ PMAX) (params p);
  wf_count : 0 ≤ param_count p ≤ MAX_PARAMS;
  wf_interm : zlen (interm p) = MAX_INTERM;
  wf_interms : 0 ≤ interm_count p ≤ MAX_INTERM;
  wf_osc : zlen (osc_buf p) = MAX_OSC_LEN;
  wf_osc_len : 0 ≤ osc_len p < MAX_OSC_LEN }.

Record wf (v : Vt100) : Prop := mk_wf {
  wf_scr : wf_screen (scr v);
  wf_col : 0 ≤ cursor_col (cur v) < cols (scr v);
  wf_row : 0 ≤ cursor_row (cur v) < rows (scr v);
  wf_region : 0 ≤ scroll_top v ≤ scroll_bot v ∧ scroll_bot v < rows (scr v);
  wf_parse : wf_parser (parser v);
  wf_back : ∃ ls, back_repr (back v) ls }.

(** * The grid *)
Definition cell_at (s : Screen) (x y : Z) : option VtCell := active s !! Z.to_nat (y * cols s + x).

Lemma active_set l s : active (set_active l s) = l.
Proof. unfold active, set_active. by destruct (use_alt s). Qed.
Lemma set_active_twice l k s : set_active l (set_active k s) = set_active l s.
Proof. unfold set_active. by destruct (use_alt s). Qed.
Lemma set_active_dims l s :
  cols (set_active l s) = cols s ∧ rows (set_active l s) = rows s ∧ use_alt (set_active l s) = use_alt s.
Proof. unfold set_active. by destruct (use_alt s). Qed.
Lemma set_active_same s : set_active (active s) s = s.
Proof. unfold set_active, active. destruct s as [? ? ? ? u]. by destruct u. Qed.

Lemma zlen_active s : wf_screen s → zlen (active s) = cols s * rows s.
Proof. intros []. unfold active. by destruct (use_alt s). Qed.
Lemma wf_set_active l s : wf_screen s → zlen l = cols s * rows s → wf_screen (set_active l s).
Proof. intros [] Hl. unfold set_active. by destruct (use_alt s); constructor. Qed.

(** The indices of a well-formed grid. *)
Lemma index_range s x y :
  wf_screen s → 0 ≤ x < cols s → 0 ≤ y < rows s →
  0 ≤ y * cols s + x < cols s * rows s ∧ cols s * rows s < 2 ^ 30.
Proof. intros [H1 H2 _ _] Hx Hy. unfold DIM in *. split; nia. Qed.

Lemma index_inj c x y x' y' :
  0 ≤ x < c → 0 ≤ x' < c → 0 ≤ y → 0 ≤ y' → y * c + x = y' * c + x' → x = x' ∧ y = y'.
Proof. intros Hx Hx' Hy Hy' Heq. assert (y = y') by nia. subst. lia. Qed.

Lemma cell_in s x y :
  wf_screen s → 0 ≤ x < cols s → 0 ≤ y < rows s → ∃ c, cell_at s x y = Some c.
Proof.
  intros Hs Hx Hy. pose proof (zlen_active s Hs). pose proof (index_range s x y Hs Hx Hy).
  unfold cell_at. apply lookup_lt_is_Some_2. unfold zlen in *. lia.
Qed.

(** [painted v v']: only the cells of the active screen changed. *)
Definition painted (v v' : Vt100) : Prop :=
  ∃ l, v' = set_scr (set_active l (scr v)) v ∧ zlen l = zlen (active (scr v)).

Lemma painted_refl v : painted v v.
Proof. exists (active (scr v)). rewrite set_active_same. by destruct v. Qed.
Lemma painted_trans v v1 v2 : painted v v1 → painted v1 v2 → painted v v2.
Proof.
  intros (l1 & -> & H1) (l2 & -> & H2). exists l2. simpl in *. rewrite set_active_twice.
  split; [done|]. rewrite active_set in H2. lia.
Qed.
Lemma painted_dims v v' : painted v v' →
  cols (scr v') = cols (scr v) ∧ rows (scr v') = rows (scr v) ∧ use_alt (scr v') = use_alt (scr v).
Proof. intros (l & -> & _). apply set_active_dims. Qed.
Lemma painted_screen v v' : painted v v' → wf_screen (scr v) → wf_screen (scr v').
Proof.
  intros (l & -> & Hl) Hs. simpl. apply wf_set_active; [done|]. by rewrite Hl, zlen_active.
Qed.
Lemma painted_rest v v' : painted v v' →
  cur v' = cur v ∧ scroll_top v' = scroll_top v ∧ scroll_bot v' = scroll_bot v ∧
  current_attr v' = current_attr v ∧ modes v' = modes v ∧ parser v' = parser v ∧
  back v' = back v ∧ reqs v' = reqs v.
Proof. by intros (l & -> & _). Qed.

(** Storing one cell. *)
Lemma store_cell_ok v x y c :
  wf_screen (scr v) → 0 ≤ x < cols (scr v) → 0 ≤ y < rows (scr v) →
  store_cell v (y * cols (scr v) + x) c ⇓ λ v', painted v v' ∧
    ∀ x' y', 0 ≤ x' < cols (scr v) → 0 ≤ y' < rows (scr v) →
      cell_at (scr v') x' y' = if decide (x' = x ∧ y' = y) then Some c else cell_at (scr v) x' y'.
Proof.
  intros Hs Hx Hy. pose proof (index_range _ _ _ Hs Hx Hy) as Hi. pose proof (zlen_active _ Hs) as Hlen.
  unfold store_cell. rewrite zset_ok by lia. simpl. apply wp_ok. split.
  { eexists. split; [done|]. by rewrite zlen_insert. }
  intros x' y' Hx' Hy'. unfold cell_at. simpl. rewrite active_set, (proj1 (set_active_dims _ _)).
  pose proof (index_range _ _ _ Hs Hx' Hy') as Hi'. case_decide as Hd.
  - destruct Hd as (-> & ->). apply list_lookup_insert_eq. unfold zlen in *. lia.
  - apply list_lookup_insert_ne. intros Heq. apply Hd. apply (index_inj (cols (scr v))); lia.
Qed.

Lemma screen_cell_ok v x y :
  wf_screen (scr v) →
  screen_cell v x y = Ok (if decide (0 ≤ x < cols (scr v) ∧ 0 ≤ y < rows (scr v))
                          then Some (y * cols (scr v) + x) else None).
Proof.
  intros Hs. unfold screen_cell. case_decide as Hd.
  - pose proof (index_range _ x y Hs (proj1 Hd) (proj2 Hd)).
    rewrite (proj2 (Z.ltb_ge x 0)), (proj2 (Z.leb_gt _ x)), (proj2 (Z.ltb_ge y 0)), (proj2 (Z.leb_gt _ y)) by lia.
    simpl. by rewrite int_ok by lia.
  - destruct (Z.ltb_spec x 0); [done|]. destruct (Z.leb_spec (cols (scr v)) x); [done|].
    destruct (Z.ltb_spec y 0); [done|]. destruct (Z.leb_spec (rows (scr v)) y); [done|]. lia.
Qed.

(** What a cleared cell holds: a space in the current colours. *)
Definition blank_of (v : Vt100) : VtCell := mkCell 32 (fg (current_attr v)) (bg (current_attr v)) 0.

(** [v'] is [v] with the cells that satisfy [P] cleared. *)
Definition cleared (v v' : Vt100) (P : Z → Z → Prop) `{∀ x y, Decision (P x y)} : Prop :=
  painted v v' ∧
  ∀ x y, 0 ≤ x < cols (scr v) → 0 ≤ y < rows (scr v) →
    cell_at (scr v') x y = if decide (P x y) then Some (blank_of v) else cell_at (scr v) x y.

Lemma clear_line_ok v row from upto :
  wf_screen (scr v) →
  screen_clear_line v row from upto ⇓ λ v', cleared v v' (λ x y, y = row ∧ from ≤ x ≤ upto).
Proof.
  intros Hs. unfold screen_clear_line. set (hi := Z.min (upto + 1) (cols (scr v))).
  destruct (decide (from ≤ hi)) as [Hle|Hgt].
  - apply (wp_for_each (λ i v', cleared v v' (λ x y, y = row ∧ from ≤ x < i))); [done| | |].
    + split; [apply painted_refl|]. intros x y Hx Hy. rewrite decide_False by lia. done.
    + intros c v1 Hc (Hp & Hat). pose proof (painted_dims _ _ Hp) as (Hdc & Hdr & _).
      pose proof (painted_screen _ _ Hp Hs) as Hs1. rewrite (screen_cell_ok v1) by done. simpl.
      rewrite Hdc, Hdr in *. case_decide as Hd.
      * rewrite <-Hdc. eapply wp_mono; [apply store_cell_ok; [done|rewrite Hdc; lia|rewrite Hdr; lia]|].
        intros v2 (Hp2 & Hat2). split; [by eapply painted_trans|]. intros x y Hx Hy.
        rewrite Hat2 by (rewrite ?Hdc, ?Hdr; done). case_decide as H1.
        -- destruct H1 as (-> & ->). rewrite decide_True by lia. done.
        -- rewrite Hat by done. destruct (decide (y = row ∧ from ≤ x < c)).
           ++ by rewrite decide_True by lia.
           ++ by rewrite decide_False by lia.
      * apply wp_ok. split; [done|]. intros x y Hx Hy. rewrite Hat by done.
        destruct (decide (y = row ∧ from ≤ x < c)).
        -- by rewrite decide_True by lia.
        -- rewrite decide_False; [done|]. intros (-> & Hx'). assert (x = c) as -> by lia. lia.
    + intros v' (Hp & Hat). split; [done|]. intros x y Hx Hy. rewrite Hat by done.
      destruct (decide (y = row ∧ from ≤ x < hi)).
      * by rewrite decide_True by (unfold hi in *; lia).
      * rewrite decide_False; [done|]. unfold hi in *. lia.
  - unfold for_each, for_loop. replace (Z.to_nat (hi - from)) with 0%nat by lia. simpl. apply wp_ok.
    split; [apply painted_refl|]. intros x y Hx Hy. rewrite decide_False; [done|]. unfold hi in *. lia.
Qed.

Lemma cleared_attr v v' P `{∀ x y, Decision (P x y)} : cleared v v' P → blank_of v' = blank_of v.
Proof. intros (Hp & _). unfold blank_of. by destruct (painted_rest _ _ Hp) as (_ & _ & _ & -> & _). Qed.

Lemma clear_rows_ok v first last :
  wf_screen (scr v) →
  screen_clear_rows v first last ⇓ λ v', cleared v v' (λ _ y, first ≤ y ≤ last).
Proof.
  intros Hs. unfold screen_clear_rows. set (hi := Z.min (last + 1) (rows (scr v))).
  destruct (decide (first ≤ hi)) as [Hle|Hgt].
  - apply (wp_for_each (λ i v', cleared v v' (λ _ y, first ≤ y < i))); [done| | |].
    + split; [apply painted_refl|]. intros x y Hx Hy. rewrite decide_False by lia. done.
    + intros r v1 Hr Hcl. pose proof (cleared_attr _ _ _ Hcl) as Hbl. destruct Hcl as (Hp & Hat).
      pose proof (painted_dims _ _ Hp) as (Hdc & Hdr & _). pose proof (painted_screen _ _ Hp Hs) as Hs1.
      eapply wp_mono; [by apply clear_line_ok|]. intros v2 (Hp2 & Hat2).
      split; [by eapply painted_trans|]. intros x y Hx Hy.
      rewrite Hat2 by (rewrite ?Hdc, ?Hdr; done). rewrite Hbl, Hat, Hdc by done.
      destruct (decide (y = r ∧ 0 ≤ x ≤ cols (scr v) - 1)); destruct (decide (first ≤ y < r));
        destruct (decide (first ≤ y < r + 1)); done || lia.
    + intros v' (Hp & Hat). split; [done|]. intros x y Hx Hy. rewrite Hat by done.
      destruct (decide (first ≤ y < hi)); destruct (decide (first ≤ y ≤ last)); done || (unfold hi in *; lia).
  - unfold for_each, for_loop. replace (Z.to_nat (hi - first)) with 0%nat by lia. simpl. apply wp_ok.
    split; [apply painted_refl|]. intros x y Hx Hy. rewrite decide_False; [done|]. unfold hi in *. lia.
Qed.

(** * Moving cells *)
Lemma move_cells_ok mem dst src n :
  0 ≤ n → 0 ≤ dst → 0 ≤ src → dst + n ≤ zlen mem → src + n ≤ zlen mem →
  move_cells mem dst src n ⇓ λ l, zlen l = zlen mem ∧
    ∀ i, 0 ≤ i → l !! Z.to_nat i = if decide (dst ≤ i < dst + n) then mem !! Z.to_nat (i - dst + src)
                                   else mem !! Z.to_nat i.
Proof.
  intros Hn Hd Hs Hdn Hsn. unfold move_cells. rewrite decide_True by done. apply wp_ok.
  assert (length (take (Z.to_nat dst) mem) = Z.to_nat dst) as Hl1 by (rewrite length_take; unfold zlen in *; lia).
  assert (length (take (Z.to_nat n) (drop (Z.to_nat src) mem)) = Z.to_nat n) as Hl2
    by (rewrite length_take, length_drop; unfold zlen in *; lia).
  split.
  - rewrite !zlen_app, zlen_drop by lia. unfold zlen in *. lia.
  - intros i Hi. case_decide as Hin.
    + rewrite lookup_app_r by lia. rewrite lookup_app_l by lia. rewrite lookup_take_lt by lia.
      rewrite lookup_drop. f_equal. lia.
    + destruct (decide (i < dst)).
      * rewrite lookup_app_l by lia. by rewrite lookup_take_lt by lia.
      * rewrite lookup_app_r by lia. rewrite lookup_app_r by lia. rewrite lookup_drop. f_equal. lia.
Qed.

(** [n] whole rows moved from row [src] to row [dst]. *)
Lemma move_rows_ok v dst src n :
  wf_screen (scr v) → 0 < n → 0 ≤ dst → 0 ≤ src → dst + n ≤ rows (scr v) → src + n ≤ rows (scr v) →
  (l ← move_cells (active (scr v)) (dst * cols (scr v)) (src * cols (scr v)) (cols (scr v) * n);
   Ok (set_scr (set_active l (scr v)) v)) ⇓ λ v', painted v v' ∧
    ∀ x y, 0 ≤ x < cols (scr v) → 0 ≤ y < rows (scr v) →
      cell_at (scr v') x y = if decide (dst ≤ y < dst + n) then cell_at (scr v) x (y - dst + src)
                             else cell_at (scr v) x y.
Proof.
  intros Hs Hn Hd Hsr Hdn Hsn. pose proof (zlen_active _ Hs) as Hlen. pose proof (wf_cols _ Hs).
  apply wp_bind. eapply wp_mono; [apply move_cells_ok; nia|]. intros l (Hl & Hat). apply wp_ok.
  split; [by exists l|]. intros x y Hx Hy. unfold cell_at. simpl.
  rewrite active_set, (proj1 (set_active_dims _ _)), Hat by nia.
  case_decide as H1; case_decide as H2; try (f_equal; f_equal; nia); exfalso; nia.
Qed.

(** * The scrollback *)
Definition row_cells (v : Vt100) (row : Z) : list VtCell :=
  take (Z.to_nat (cols (scr v))) (drop (Z.to_nat (row * cols (scr v))) (active (scr v))).

(** The queue after a line was offered to it. *)
Definition pushed (cap : Z) (granted : bool) (ls : list (list VtCell)) (x : list VtCell)
  : list (list VtCell) :=
  if cap =? 0 then ls
  else (if zlen ls =? cap then tail ls else ls) ++ (if granted then [x] else []).

Lemma ring_overwrite {T} (l : list T) cap start q x :
  Ring.holds l cap start q → zlen q < cap → Ring.holds (<[Ring.slot cap start (zlen q) := x]> l) cap start q.
Proof. intros Hh Hlt. eapply Ring.holds_app_l. by apply Ring.holds_push. Qed.

Lemma sb_push_ok A v ls row :
  wf_screen (scr v) → back_repr (back v) ls → 0 ≤ row < rows (scr v) →
  sb_push_line A v row ⇓ λ v', ∃ b k, v' = set_back b k v ∧ sb_cap b = sb_cap (back v) ∧
    back_repr b (pushed (sb_cap (back v)) (avail A (reqs v) (16 * cols (scr v))) ls (row_cells v row)).
Proof.
  intros Hs Hb Hrow. unfold sb_push_line, pushed. destruct (Z.eqb_spec (sb_cap (back v)) 0) as [Hz|Hz].
  { apply wp_ok. exists (back v), (reqs v). by destruct v. }
  unfold back_repr in Hb. destruct (scrollback (back v)) as [lines|]; [|lia].
  destruct Hb as (Hcap & Hbig & Hcount & Hh). pose proof Hh as (Hc & Hhd & Hq & _).
  unfold zlen in Hq at 1. rewrite length_map in Hq. fold (zlen ls) in Hq.
  pose proof (zlen_nonneg ls). rewrite Hcount, (int_ok (sb_head (back v) + zlen ls)) by lia. cbn [mbind outcome_bind].
  rewrite Z.rem_mod_nonneg by lia.
  set (cap := sb_cap (back v)) in *. set (head := sb_head (back v)) in *.
  set (ls1 := if zlen ls =? cap then tail ls else ls).
  assert (∃ head1, (if zlen ls =? cap then
             _ ← zget lines head; h ← int (head + 1); Ok (Z.rem h cap, zlen ls - 1)
           else Ok (head, zlen ls)) = Ok (head1, zlen ls1) ∧
          Ring.holds lines cap head1 (map whole_line ls1) ∧ zlen ls1 < cap ∧
          Z.to_nat ((head + zlen ls) mod cap) = Ring.slot cap head1 (zlen ls1)) as (head1 & -> & Hh1 & Hlt1 & Hidx).
  { unfold ls1. destruct (Z.eqb_spec (zlen ls) cap) as [Hfull|Hroom].
    - destruct ls as [|x ls]; [unfold zlen in Hfull; simpl in Hfull; lia|]. simpl in Hh. rewrite zlen_cons in *.
      apply Ring.holds_pop in Hh as (Hx & Hh). exists ((head + 1) mod cap).
      rewrite (zget_ok _ _ _ (proj1 Hhd) Hx). simpl. rewrite int_ok by lia. simpl.
      rewrite Z.rem_mod_nonneg by lia. split; [do 2 f_equal; lia|]. split; [done|]. split; [lia|].
      unfold Ring.slot. f_equal. rewrite Zplus_mod_idemp_l. f_equal. lia.
    - exists head. split; [done|]. split; [done|]. split; [lia|done]. }
  cbn [mbind outcome_bind]. pose proof (wf_cols _ Hs). pose proof (zlen_active _ Hs) as Hlen.
  assert (zlen (row_cells v row) = cols (scr v)) as Hrc.
  { unfold row_cells. rewrite zlen_take, zlen_drop by nia. nia. }
  pose proof (Z.mod_pos_bound (head + zlen ls) cap ltac:(lia)).
  pose proof (index_range _ 0 row Hs ltac:(lia) Hrow). pose proof (zlen_nonneg ls1).
  destruct (avail A _ _).
  - rewrite (int_ok (row * cols (scr v))) by lia. cbn [mbind outcome_bind]. rewrite decide_True by nia.
    rewrite zset_ok by lia. cbn [mbind outcome_bind]. rewrite int_ok by lia. cbn [mbind outcome_bind].
    apply wp_ok. eexists _, _. split; [done|]. split; [done|]. unfold back_repr. simpl.
    rewrite zlen_insert. split; [done|]. split; [done|]. split; [rewrite zlen_app; done|].
    fold (row_cells v row). rewrite <-Hrc. fold (whole_line (row_cells v row)).
    rewrite map_app, Hidx. simpl.
    replace (zlen ls1) with (zlen (map whole_line ls1)) by (unfold zlen; by rewrite length_map).
    apply Ring.holds_push; [done|]. unfold zlen in *. by rewrite length_map.
  - rewrite zset_ok by lia. cbn [mbind outcome_bind]. apply wp_ok. eexists _, _. split; [done|].
    split; [done|]. unfold back_repr. simpl. rewrite zlen_insert, app_nil_r.
    split; [done|]. split; [done|]. split; [done|]. rewrite Hidx.
    replace (zlen ls1) with (zlen (map whole_line ls1)) by (unfold zlen; by rewrite length_map).
    apply ring_overwrite; [done|]. unfold zlen in *. by rewrite length_map.
Qed.

Lemma sb_push_many A v ls row n :
  wf_screen (scr v) → back_repr (back v) ls → 0 ≤ row < rows (scr v) → 0 ≤ n →
  for_each 0 n (λ _ v, sb_push_line A v row) v ⇓ λ v', ∃ b k, v' = set_back b k v ∧
    ∃ ls', back_repr b ls' ∧ (n = 1 → ls' = pushed (sb_cap (back v)) (avail A (reqs v) (16 * cols (scr v))) ls (row_cells v row)).
Proof.
  intros Hs Hb Hrow Hn.
  apply (wp_for_each (λ i v', ∃ b k, v' = set_back b k v ∧ ∃ ls', back_repr b ls' ∧
    (i = 0 → v' = v ∧ ls' = ls) ∧
    (i = 1 → ls' = pushed (sb_cap (back v)) (avail A (reqs v) (16 * cols (scr v))) ls (row_cells v row)))); [done| | |].
  - exists (back v), (reqs v). split; [by destruct v|]. exists ls. split; [done|]. split; [done|lia].
  - intros i v1 Hi (b & k & -> & ls1 & Hb1 & H0 & _).
    eapply wp_mono; [by apply (sb_push_ok A _ ls1)|]. intros v2 (b2 & k2 & -> & _ & Hb2).
    exists b2, k2. split; [done|]. eexists. split; [done|]. split; [lia|].
    intros Hi1. destruct (H0 ltac:(lia)) as (-> & ->). done.
  - intros v' (b & k & -> & ls' & Hb' & _ & H1). exists b, k. split; [done|]. by exists ls'.
Qed.

(** * Scrolling *)

(** What [scroll_up] does to the grid: the rows of the region move up by [n]
    and the last [n] rows that end it are cleared. *)
Definition up_cell (v : Vt100) (top bot n x y : Z) : option VtCell :=
  if decide (bot - n < y ≤ bot) then Some (blank_of v)
  else if decide (top ≤ y ∧ y + n ≤ bot) then cell_at (scr v) x (y + n) else cell_at (scr v) x y.
Definition down_cell (v : Vt100) (top bot n x y : Z) : option VtCell :=
  if decide (top ≤ y < top + n) then Some (blank_of v)
  else if decide (top + n ≤ y ≤ bot) then cell_at (scr v) x (y - n) else cell_at (scr v) x y.

Lemma scroll_up_ok A v ls top bot n :
  wf_screen (scr v) → back_repr (back v) ls →
  0 ≤ top < rows (scr v) → 0 ≤ bot < rows (scr v) → 1 ≤ n ≤ PMAX →
  scroll_up A v top bot n ⇓ λ v', ∃ b k, painted (set_back b k v) v' ∧
    (∃ ls', back_repr b ls' ∧
      (n = 1 → use_alt (scr v) = false →
       ls' = pushed (sb_cap (back v)) (avail A (reqs v) (16 * cols (scr v))) ls (row_cells v top))) ∧
    ∀ x y, 0 ≤ x < cols (scr v) → 0 ≤ y < rows (scr v) → cell_at (scr v') x y = up_cell v top bot n x y.
Proof.
  intros Hs Hb Htop Hbot Hn. unfold scroll_up, PMAX in *. pose proof (wf_rows _ Hs) as Hr.
  pose proof (wf_cols _ Hs) as Hc. unfold DIM in *. apply wp_bind.
  apply (wp_mono _ (λ v1, ∃ b k, v1 = set_back b k v ∧ ∃ ls', back_repr b ls' ∧
      (n = 1 → use_alt (scr v) = false →
       ls' = pushed (sb_cap (back v)) (avail A (reqs v) (16 * cols (scr v))) ls (row_cells v top)))).
  { destruct (use_alt (scr v)).
    - apply wp_ok. exists (back v), (reqs v). split; [by destruct v|]. by exists ls.
    - eapply wp_mono; [apply (sb_push_many A v ls); try done; lia|].
      intros v' (b & k & -> & ls' & Hb' & H1). exists b, k. split; [done|]. exists ls'. auto. }
  intros v1 (b & k & -> & Hls). set (v1 := set_back b k v). rewrite (int_ok (bot - top + 1 - n)) by lia. cbn [mbind outcome_bind].
  apply wp_bind.
  apply (wp_mono _ (λ v2, painted v1 v2 ∧ ∀ x y, 0 ≤ x < cols (scr v) → 0 ≤ y < rows (scr v) →
      cell_at (scr v2) x y = if decide (top ≤ y ∧ y + n ≤ bot) then cell_at (scr v) x (y + n) else cell_at (scr v) x y)).
  { destruct (Z.ltb_spec 0 (bot - top + 1 - n)) as [Hmv|Hno].
    - pose proof (index_range _ 0 top Hs ltac:(lia) Htop).
      pose proof (index_range _ 0 (top + n) Hs ltac:(lia) ltac:(lia)).
      rewrite (int_ok (top * cols (scr v1))) by (simpl; lia). cbn [mbind outcome_bind].
      rewrite (int_ok ((top + n) * cols (scr v1))) by (simpl; lia). cbn [mbind outcome_bind].
      eapply wp_mono; [apply (move_rows_ok v1 top (top + n) (bot - top + 1 - n)); simpl; done || lia|].
      intros v2 (Hp & Hat). split; [done|]. intros x y Hx Hy. rewrite Hat by done. simpl.
      destruct (decide (top ≤ y < top + (bot - top + 1 - n))); destruct (decide (top ≤ y ∧ y + n ≤ bot));
        try done; try lia. f_equal. lia.
    - apply wp_ok. split; [apply painted_refl|]. intros x y Hx Hy. rewrite decide_False by lia. done. }
  intros v2 (Hp2 & Hat2). rewrite (int_ok (bot - n + 1)) by lia. cbn [mbind outcome_bind].
  pose proof (painted_dims _ _ Hp2) as (Hdc & Hdr & _). simpl in Hdc, Hdr.
  pose proof (painted_screen _ _ Hp2 Hs) as Hs2.
  eapply wp_mono; [by apply clear_rows_ok|]. intros v3 (Hp3 & Hat3).
  exists b, k. split; [by eapply painted_trans|]. split; [done|]. intros x y Hx Hy.
  rewrite Hat3 by (rewrite ?Hdc, ?Hdr; done). unfold up_cell.
  assert (blank_of v2 = blank_of v) as ->
    by (unfold blank_of; by destruct (painted_rest _ _ Hp2) as (_ & _ & _ & -> & _)).
  rewrite Hat2 by done.
  destruct (decide (bot - n + 1 ≤ y ≤ bot)); destruct (decide (bot - n < y ≤ bot)); done || lia.
Qed.

Lemma scroll_down_ok v top bot n :
  wf_screen (scr v) → 0 ≤ top < rows (scr v) → 0 ≤ bot < rows (scr v) → 1 ≤ n ≤ PMAX →
  scroll_down v top bot n ⇓ λ v', painted v v' ∧
    ∀ x y, 0 ≤ x < cols (scr v) → 0 ≤ y < rows (scr v) → cell_at (scr v') x y = down_cell v top bot n x y.
Proof.
  intros Hs Htop Hbot Hn. unfold scroll_down, PMAX in *. pose proof (wf_rows _ Hs) as Hr.
  pose proof (wf_cols _ Hs) as Hc. unfold DIM in *. rewrite (int_ok (bot - top + 1 - n)) by lia. cbn [mbind outcome_bind].
  apply wp_bind.
  apply (wp_mono _ (λ v2, painted v v2 ∧ ∀ x y, 0 ≤ x < cols (scr v) → 0 ≤ y < rows (scr v) →
      cell_at (scr v2) x y = if decide (top + n ≤ y ≤ bot) then cell_at (scr v) x (y - n) else cell_at (scr v) x y)).
  { destruct (Z.ltb_spec 0 (bot - top + 1 - n)) as [Hmv|Hno].
    - pose proof (index_range _ 0 top Hs ltac:(lia) Htop).
      pose proof (index_range _ 0 (top + n) Hs ltac:(lia) ltac:(lia)).
      rewrite (int_ok ((top + n) * cols (scr v))) by lia. cbn [mbind outcome_bind].
      rewrite (int_ok (top * cols (scr v))) by lia. cbn [mbind outcome_bind].
      eapply wp_mono; [apply (move_rows_ok v (top + n) top (bot - top + 1 - n)); done || lia|].
      intros v2 (Hp & Hat). split; [done|]. intros x y Hx Hy. rewrite Hat by done.
      destruct (decide (top + n ≤ y < top + n + (bot - top + 1 - n))); destruct (decide (top + n ≤ y ≤ bot));
        try done; try lia. f_equal. lia.
    - apply wp_ok. split; [apply painted_refl|]. intros x y Hx Hy. rewrite decide_False by lia. done. }
  intros v2 (Hp2 & Hat2). rewrite (int_ok (top + n)) by lia. cbn [mbind outcome_bind].
  pose proof (painted_dims _ _ Hp2) as (Hdc & Hdr & _). pose proof (painted_screen _ _ Hp2 Hs) as Hs2.
  eapply wp_mono; [by apply clear_rows_ok|]. intros v3 (Hp3 & Hat3).
  split; [by eapply painted_trans|]. intros x y Hx Hy.
  rewrite Hat3 by (rewrite ?Hdc, ?Hdr; done). unfold down_cell.
  assert (blank_of v2 = blank_of v) as ->
    by (unfold blank_of; by destruct (painted_rest _ _ Hp2) as (_ & _ & _ & -> & _)).
  rewrite Hat2 by done.
  destruct (decide (top ≤ y ≤ top + n - 1)); destruct (decide (top ≤ y < top + n)); done || lia.
Qed.

End Vt100Screen.
