(* ===== verification/Vt100Feed.v ===== *)
(** Every control sequence keeps the terminal well formed, and the parser runs
    on the bytes alone: what the screen shows never changes how the input is
    read. *)
From stdpp Require Import base list.
From S2P Require Import Prelude.
From S2P Require Import Ring.
From S2P Require Import CLib.
From S2P Require Import Vt100.
From S2P Require Import Vt100Screen.
Import Vt100 Vt100Screen.

Module Vt100Feed.

(** A step that stays well formed and leaves the parser alone. *)
Definition keeps (v v' : Vt100) : Prop := wf v' ∧ parser v' = parser v.

Lemma vt_keeps_trans v v1 v2 : keeps v v1 → keeps v1 v2 → keeps v v2.
Proof. intros (_ & H1) (H2 & H3). split; [done|congruence]. Qed.

Lemma painted_keeps v b k v' :
  wf v → (∃ ls, back_repr b ls) → painted (set_back b k v) v' → keeps v v'.
Proof.
  intros [Hs Hc Hr Hg Hp _] Hb Hpt. pose proof (painted_screen _ _ Hpt Hs) as Hs'.
  destruct (painted_dims _ _ Hpt) as (Hdc & Hdr & _). simpl in Hdc, Hdr.
  destruct (painted_rest _ _ Hpt) as (Hcur & Ht & Hbt & _ & _ & Hpar & Hbk & _). simpl in *.
  split; [|done]. constructor; [done| | | | |]; rewrite ?Hcur, ?Hdc, ?Hdr, ?Ht, ?Hbt, ?Hpar, ?Hbk; done.
Qed.

Lemma painted_keeps_back v v' : wf v → painted v v' → keeps v v'.
Proof.
  intros Hw Hp. apply (painted_keeps v (back v) (reqs v)); [done|apply (wf_back _ Hw)|by destruct v].
Qed.

Lemma wf_keeps v : wf v → keeps v v.
Proof. by split. Qed.

(** * The cursor *)
Lemma clamp_keeps v c : wf v → keeps v (cursor_clamp (set_cur c v)).
Proof.
  intros [Hs Hc Hr Hg Hp Hb]. pose proof (wf_cols _ Hs). pose proof (wf_rows _ Hs).
  split; [|done]. constructor; simpl; try done.
  - destruct (Z.ltb_spec (cursor_col c) 0); [destruct (Z.leb_spec (cols (scr v)) 0); lia|].
    destruct (Z.leb_spec (cols (scr v)) (cursor_col c)); lia.
  - destruct (Z.ltb_spec (cursor_row c) 0); [destruct (Z.leb_spec (rows (scr v)) 0); lia|].
    destruct (Z.leb_spec (rows (scr v)) (cursor_row c)); lia.
Qed.

Lemma move_keeps v col row : wf v → keeps v (cursor_move v col row).
Proof. apply clamp_keeps. Qed.

Lemma set_cur_keeps v c :
  wf v → 0 ≤ cursor_col c < cols (scr v) → 0 ≤ cursor_row c < rows (scr v) → keeps v (set_cur c v).
Proof. intros [] Hc Hr. split; [|done]. by constructor. Qed.

Lemma set_attr_keeps v a : wf v → keeps v (set_attr a v).
Proof. intros []. split; [|done]. by constructor. Qed.
Lemma set_modes_keeps v m : wf v → keeps v (set_modes m v).
Proof. intros []. split; [|done]. by constructor. Qed.
Lemma set_region_keeps v t b :
  wf v → 0 ≤ t ≤ b → b < rows (scr v) → keeps v (set_region t b v).
Proof. intros [] Ht Hb. split; [|done]. by constructor. Qed.
Lemma set_parser_wf v p : wf v → wf_parser p → wf (set_parser p v).
Proof. intros [] Hp. by constructor. Qed.

Lemma clear_line_keeps v row from upto : wf v → screen_clear_line v row from upto ⇓ keeps v.
Proof.
  intros Hw. eapply wp_mono; [apply clear_line_ok, (wf_scr _ Hw)|].
  intros v' (Hp & _). by apply painted_keeps_back.
Qed.
Lemma clear_rows_keeps v first last : wf v → screen_clear_rows v first last ⇓ keeps v.
Proof.
  intros Hw. eapply wp_mono; [apply clear_rows_ok, (wf_scr _ Hw)|].
  intros v' (Hp & _). by apply painted_keeps_back.
Qed.

Section terminal.
Context (A : allocator).

Lemma scroll_up_keeps v top bot n :
  wf v → 0 ≤ top < rows (scr v) → 0 ≤ bot < rows (scr v) → 1 ≤ n ≤ PMAX →
  scroll_up A v top bot n ⇓ keeps v.
Proof.
  intros Hw Ht Hb Hn. destruct (wf_back _ Hw) as (ls & Hls).
  eapply wp_mono; [by apply (scroll_up_ok A v ls); [apply (wf_scr _ Hw)|..]|].
  intros v' (b & k & Hp & (ls' & Hb' & _) & _). apply (painted_keeps v b k v'); [done|eauto|done].
Qed.

Lemma scroll_down_keeps v top bot n :
  wf v → 0 ≤ top < rows (scr v) → 0 ≤ bot < rows (scr v) → 1 ≤ n ≤ PMAX →
  scroll_down v top bot n ⇓ keeps v.
Proof.
  intros Hw Ht Hb Hn. eapply wp_mono; [by apply scroll_down_ok; [apply (wf_scr _ Hw)|..]|].
  intros v' (Hp & _). by apply painted_keeps_back.
Qed.

Lemma next_line_keeps v : wf v → cursor_next_line A v ⇓ keeps v.
Proof.
  intros Hw. pose proof (wf_region _ Hw) as Hg. pose proof (wf_row _ Hw) as Hr. unfold cursor_next_line.
  destruct (Z.eqb_spec (cursor_row (cur v)) (scroll_bot v)).
  - apply scroll_up_keeps; [done|lia|lia|unfold PMAX; lia].
  - apply wp_ok. apply set_cur_keeps; simpl; [done|apply (wf_col _ Hw)|].
    destruct (Z.leb_spec (rows (scr v)) (cursor_row (cur v) + 1)); lia.
Qed.

(** The shift of insert mode: the cells right of the cursor move by one. *)
Lemma insert_shift_ok v :
  wf v → insert_shift v ⇓ λ v', painted v v' ∧
    ∀ x y, 0 ≤ x < cols (scr v) → 0 ≤ y < rows (scr v) →
      cell_at (scr v') x y = if decide (y = cursor_row (cur v) ∧ cursor_col (cur v) < x)
                             then cell_at (scr v) (x - 1) y else cell_at (scr v) x y.
Proof.
  intros Hw. pose proof (wf_scr _ Hw) as Hs. pose proof (wf_col _ Hw) as Hc. pose proof (wf_row _ Hw) as Hr.
  pose proof (zlen_active _ Hs) as Hlen. unfold insert_shift.
  set (n := cols (scr v)) in *. set (row := cursor_row (cur v)) in *. set (col := cursor_col (cur v)) in *.
  pose proof (index_range _ (n - 1) row Hs ltac:(lia) Hr) as Hlast.
  pose proof (index_range _ 0 row Hs ltac:(lia) Hr) as Hfirst. fold n in Hlast, Hfirst.
  apply wp_bind.
  apply (wp_for_each (λ k l, zlen l = zlen (active (scr v)) ∧ ∀ i, 0 ≤ i →
     l !! Z.to_nat i = if decide (row * n + (n - k) ≤ i < row * n + n) then active (scr v) !! Z.to_nat (i - 1)
                       else active (scr v) !! Z.to_nat i)); [lia| | |].
  - split; [done|]. intros i Hi. rewrite decide_False by lia. done.
  - intros k l Hk (Hl & Hat). rewrite int_ok by lia. cbn [mbind outcome_bind].
    destruct (zget_in l (row * n + (n - 1 - k) - 1)) as [x Hx]; [lia|].
    rewrite (zget_ok _ _ x) by (done || lia). cbn [mbind outcome_bind].
    apply wp_zset; [lia|]. rewrite zlen_insert. split; [done|]. intros i Hi.
    destruct (decide (i = row * n + (n - 1 - k))) as [->|Hne].
    + rewrite list_lookup_insert_eq by (unfold zlen in *; lia). rewrite decide_True by lia.
      rewrite <-Hx, Hat by lia. rewrite decide_False by lia. done.
    + rewrite list_lookup_insert_ne by lia. rewrite Hat by done.
      destruct (decide (row * n + (n - k) ≤ i < row * n + n)).
      * by rewrite decide_True by lia.
      * by rewrite decide_False by lia.
  - intros l (Hl & Hat). apply wp_ok. split; [by exists l|]. intros x y Hx Hy.
    unfold cell_at. simpl. rewrite active_set, (proj1 (set_active_dims _ _)).
    pose proof (index_range _ x y Hs Hx Hy) as Hi. rewrite Hat by lia. fold n.
    destruct (decide (y = row ∧ col < x)) as [(-> & Hlt)|Hno].
    + rewrite decide_True by lia. do 2 f_equal. lia.
    + rewrite decide_False; [done|]. intros Hin. apply Hno.
      assert (y = row) as -> by nia. split; [done|]. lia.
Qed.

Lemma put_char_keeps v cp : wf v → put_char A v cp ⇓ keeps v.
Proof.
  intros Hw. unfold put_char. apply wp_bind. apply (wp_mono _ (keeps v)).
  { destruct (_ && _); [|apply wp_ok; by apply wf_keeps].
    assert (keeps v (set_cur (set_pos 0 (cursor_row (cur v)) false (cur v)) v)) as Hk.
    { apply set_cur_keeps; simpl; [done| |apply (wf_row _ Hw)]. pose proof (wf_col _ Hw). lia. }
    eapply wp_mono; [apply next_line_keeps, Hk|]. intros v1 H1. eapply vt_keeps_trans; [exact Hk|exact H1]. }
  intros v1 (Hw1 & Hp1). apply wp_bind. apply (wp_mono _ (keeps v1)).
  { destruct (mode_insert (modes v1)); [|apply wp_ok; by apply wf_keeps].
    eapply wp_mono; [by apply insert_shift_ok|]. intros v2 (Hp & _). by apply painted_keeps_back. }
  intros v2 (Hw2 & Hp2). pose proof (wf_scr _ Hw2) as Hs2. pose proof (wf_col _ Hw2) as Hc2.
  pose proof (wf_row _ Hw2) as Hr2. rewrite (screen_cell_ok v2), decide_True by done. cbn [mbind outcome_bind].
  apply wp_bind. eapply wp_mono; [by apply store_cell_ok|]. intros v3 (Hpt & _).
  destruct (painted_keeps_back v2 v3 Hw2 Hpt) as (Hw3 & Hp3). pose proof (wf_col _ Hw3) as Hc3.
  pose proof (wf_row _ Hw3) as Hr3.
  destruct (Z.leb_spec (cols (scr v3) - 1) (cursor_col (cur v3))); apply wp_ok.
  - destruct (set_cur_keeps v3 (set_pos (cursor_col (cur v3)) (cursor_row (cur v3)) true (cur v3)) Hw3) as (H1 & H2);
      [done|done|]. split; [done|congruence].
  - destruct (set_cur_keeps v3 (set_col (cursor_col (cur v3) + 1) (cur v3)) Hw3) as (H1 & H2);
      [simpl; lia|done|]. split; [done|congruence].
Qed.

(** * Control sequences *)
Lemma param_ok v idx def :
  wf_parser (parser v) → 0 ≤ idx < MAX_PARAMS → 0 ≤ def ≤ PMAX →
  param v idx def ⇓ λ p, 0 ≤ p ≤ PMAX ∧ (1 ≤ def → 1 ≤ p).
Proof.
  intros [Hn Hall Hcnt _ _ _ _] Hi Hd. unfold param. destruct (_ <=? _); [by apply wp_ok|].
  apply wp_bind, wp_zget; [lia|]. intros x Hx. apply wp_ok.
  pose proof (Forall_lookup_1 _ _ _ _ Hall Hx) as Hr. simpl in Hr. destruct (Z.eqb_spec x 0); [done|lia].
Qed.

Lemma erase_display_keeps v : wf v → erase_display v ⇓ keeps v.
Proof.
  intros Hw. unfold erase_display. apply wp_bind.
  eapply wp_mono; [apply param_ok; [apply (wf_parse _ Hw)|unfold MAX_PARAMS; lia|unfold PMAX; lia]|]. intros k _.
  destruct (k =? 0); [|destruct (k =? 1); [|destruct (k =? 2); [|destruct (k =? 3); [|by apply wp_ok, wf_keeps]]]].
  - apply wp_bind. eapply wp_mono; [by apply clear_line_keeps|]. intros v1 H1.
    eapply wp_mono; [apply clear_rows_keeps, H1|]. intros v2 H2. eapply vt_keeps_trans; [exact H1|exact H2].
  - apply wp_bind. eapply wp_mono; [by apply clear_line_keeps|]. intros v1 H1.
    eapply wp_mono; [apply clear_rows_keeps, H1|]. intros v2 H2. eapply vt_keeps_trans; [exact H1|exact H2].
  - by apply clear_rows_keeps.
  - apply wp_bind. eapply wp_mono; [by apply clear_rows_keeps|]. intros v1 (Hw1 & Hp1). apply wp_ok.
    split; [|done]. destruct Hw1 as [Hs Hc Hr Hg Hpr (ls & Hb)]. constructor; try done.
    exists []. unfold back_repr in *. simpl. destruct (scrollback (back v1)); [|by destruct Hb as (? & _)].
    destruct Hb as (H1 & H2 & _ & Hh). split_and!; try done.
    destruct Hh as (Hc' & _). apply Ring.Ring.holds_nil; lia.
Qed.

Lemma erase_line_keeps v : wf v → erase_line v ⇓ keeps v.
Proof.
  intros Hw. unfold erase_line. apply wp_bind.
  eapply wp_mono; [apply param_ok; [apply (wf_parse _ Hw)|unfold MAX_PARAMS; lia|unfold PMAX; lia]|]. intros k _.
  destruct (k =? 0); [by apply clear_line_keeps|]. destruct (k =? 1); [by apply clear_line_keeps|].
  destruct (k =? 2); [by apply clear_line_keeps|by apply wp_ok, wf_keeps].
Qed.

(** Cells moved inside of the line of the cursor. *)
Lemma move_in_line v dst src n :
  wf v → 0 ≤ n → 0 ≤ dst → 0 ≤ src → dst + n ≤ cols (scr v) → src + n ≤ cols (scr v) →
  (l ← move_cells (active (scr v)) (cursor_row (cur v) * cols (scr v) + dst)
         (cursor_row (cur v) * cols (scr v) + src) n;
   Ok (set_scr (set_active l (scr v)) v)) ⇓ keeps v.
Proof.
  intros Hw Hn Hd Hs Hdn Hsn. pose proof (zlen_active _ (wf_scr _ Hw)) as Hlen.
  pose proof (wf_row _ Hw). pose proof (wf_cols _ (wf_scr _ Hw)). apply wp_bind.
  eapply wp_mono; [apply move_cells_ok; nia|]. intros l (Hl & _). apply wp_ok.
  apply painted_keeps_back; [done|]. by exists l.
Qed.

Lemma delete_chars_keeps v p1 : wf v → 1 ≤ p1 → delete_chars v p1 ⇓ keeps v.
Proof.
  intros Hw Hp. unfold delete_chars. pose proof (wf_col _ Hw) as Hc. pose proof (wf_row _ Hw) as Hr.
  set (n := if _ <? p1 then _ else _).
  assert (0 < n ≤ cols (scr v) - cursor_col (cur v)) as Hn
    by (unfold n; destruct (Z.ltb_spec (cols (scr v) - cursor_col (cur v)) p1); lia).
  apply wp_bind. apply (wp_mono _ (keeps v)).
  - destruct (Z.ltb_spec 0 (cols (scr v) - cursor_col (cur v) - n)); [|by apply wp_ok, wf_keeps].
    pose proof (index_range _ (cursor_col (cur v)) _ (wf_scr _ Hw) Hc Hr).
    pose proof (index_range _ (cursor_col (cur v) + n) _ (wf_scr _ Hw) ltac:(lia) Hr).
    rewrite (int_ok (_ + cursor_col (cur v))) by lia. cbn [mbind outcome_bind].
    rewrite (int_ok (_ + n)) by lia. cbn [mbind outcome_bind]. rewrite <-Z.add_assoc.
    apply move_in_line; [done|lia..].
  - intros v1 H1. eapply wp_mono; [apply clear_line_keeps, H1|]. intros v2 H2.
    eapply vt_keeps_trans; [exact H1|exact H2].
Qed.

Lemma insert_chars_keeps v p1 : wf v → 1 ≤ p1 → insert_chars v p1 ⇓ keeps v.
Proof.
  intros Hw Hp. unfold insert_chars. pose proof (wf_col _ Hw) as Hc. pose proof (wf_row _ Hw) as Hr.
  set (n := if _ <? p1 then _ else _).
  assert (0 < n ≤ cols (scr v) - cursor_col (cur v)) as Hn
    by (unfold n; destruct (Z.ltb_spec (cols (scr v) - cursor_col (cur v)) p1); lia).
  apply wp_bind. apply (wp_mono _ (keeps v)).
  - destruct (Z.ltb_spec 0 (cols (scr v) - cursor_col (cur v) - n)); [|by apply wp_ok, wf_keeps].
    pose proof (index_range _ (cursor_col (cur v)) _ (wf_scr _ Hw) Hc Hr).
    pose proof (index_range _ (cursor_col (cur v) + n) _ (wf_scr _ Hw) ltac:(lia) Hr).
    rewrite (int_ok (_ + n)) by lia. cbn [mbind outcome_bind].
    rewrite (int_ok (_ + cursor_col (cur v))) by lia. cbn [mbind outcome_bind]. rewrite <-Z.add_assoc.
    apply move_in_line; [done|lia..].
  - intros v1 H1. eapply wp_mono; [apply clear_line_keeps, H1|]. intros v2 H2.
    eapply vt_keeps_trans; [exact H1|exact H2].
Qed.

Lemma set_margins_keeps v : wf v → set_margins v ⇓ keeps v.
Proof.
  intros Hw. unfold set_margins. pose proof (wf_rows _ (wf_scr _ Hw)) as Hr. unfold DIM in Hr.
  apply wp_bind. eapply wp_mono; [apply param_ok; [apply (wf_parse _ Hw)|unfold MAX_PARAMS; lia|unfold PMAX; lia]|].
  intros t (_ & Ht). specialize (Ht ltac:(lia)). apply wp_bind.
  eapply wp_mono; [apply param_ok; [apply (wf_parse _ Hw)|unfold MAX_PARAMS; lia|unfold PMAX; lia]|].
  intros b (_ & Hb). specialize (Hb ltac:(lia)).
  rewrite (proj2 (Z.ltb_ge (t - 1) 0)) by lia.
  set (bot := if _ <=? b - 1 then _ else _).
  assert (0 ≤ bot < rows (scr v)) as Hbot by (unfold bot; destruct (Z.leb_spec (rows (scr v)) (b - 1)); lia).
  destruct (Z.ltb_spec bot (t - 1)); apply wp_ok.
  - destruct (set_region_keeps v 0 (rows (scr v) - 1) Hw) as (Hw1 & Hp1); [lia|lia|].
    destruct (move_keeps _ 0 0 Hw1) as (H1 & H2). split; [done|]. congruence.
  - destruct (set_region_keeps v (t - 1) bot Hw) as (Hw1 & Hp1); [lia|lia|].
    destruct (move_keeps _ 0 0 Hw1) as (H1 & H2). split; [done|]. congruence.
Qed.

Lemma enter_alt_keeps v : wf v → enter_alt v ⇓ keeps v.
Proof.
  intros Hw. unfold enter_alt. destruct (use_alt (scr v)) eqn:Hua; [by apply wp_ok, wf_keeps|].
  pose proof (wf_scr _ Hw) as Hs. pose proof Hs as [Hc Hr Hm Ha].
  unfold zfill. rewrite decide_True by (rewrite Ha; nia). cbn [mbind outcome_bind].
  set (alt := replicate _ _ ++ _). assert (zlen alt = cols (scr v) * rows (scr v)) as Halt.
  { unfold alt. rewrite zlen_app, zlen_drop by nia. unfold zlen at 1. rewrite length_replicate. nia. }
  match goal with |- wp (screen_clear_rows ?w _ _ ≫= _) _ => set (v1 := w) end.
  assert (wf v1) as Hw1 by (destruct Hw as [_ H1 H2 H3 H4 H5]; constructor; simpl; done).
  apply wp_bind. eapply wp_mono; [by apply clear_rows_keeps|]. intros v2 (Hw2 & Hp2).
  apply wp_ok. assert (wf (set_scr (mkScreen (cols (scr v2)) (rows (scr v2)) (screen (scr v2)) (alt_screen (scr v2)) true) v2)) as Hw3.
  { destruct Hw2 as [[] H1 H2 H3 H4 H5]. constructor; simpl; try done. }
  destruct (move_keeps _ 0 0 Hw3) as (H1 & H2). split; [done|]. rewrite H2. simpl. by rewrite Hp2.
Qed.

Lemma leave_alt_keeps v : wf v → keeps v (leave_alt v).
Proof.
  intros Hw. unfold leave_alt. destruct (use_alt (scr v)); [|by apply wf_keeps].
  assert (wf (set_scr (mkScreen (cols (scr v)) (rows (scr v)) (screen (scr v)) (alt_screen (scr v)) false) v)) as Hw1.
  { destruct Hw as [[] H1 H2 H3 H4 H5]. constructor; simpl; try done. }
  by apply (move_keeps _ _ _ Hw1).
Qed.

Lemma set_mode_keeps on i v :
  wf v → 0 ≤ i < param_count (parser v) → set_mode on i v ⇓ keeps v.
Proof.
  intros Hw Hi. unfold set_mode, is_private. pose proof (wf_parse _ Hw) as [Hn Hall Hcnt Hint Hints _ _].
  apply wp_bind. apply (wp_mono _ (λ _, True)).
  { destruct (0 <? _) eqn:E; [|by apply wp_ok]. apply Z.ltb_lt in E.
    apply wp_bind, wp_zget; [unfold MAX_INTERM in *; lia|]. intros c _. by apply wp_ok. }
  intros priv _. apply wp_bind, wp_zget; [lia|]. intros p _. destruct priv.
  - destruct (p =? 6); [by apply wp_ok, set_modes_keeps|]. destruct (p =? 7); [by apply wp_ok, set_modes_keeps|].
    destruct (p =? 25); [by apply wp_ok, set_modes_keeps|].
    destruct (_ || _); [destruct on; [by apply enter_alt_keeps|by apply wp_ok, leave_alt_keeps]|].
    destruct (p =? 2004); [by apply wp_ok, set_modes_keeps|by apply wp_ok, wf_keeps].
  - destruct (p =? 4); [by apply wp_ok, set_modes_keeps|by apply wp_ok, wf_keeps].
Qed.

Lemma set_modes_loop on v :
  wf v → for_each 0 (param_count (parser v)) (set_mode on) v ⇓ keeps v.
Proof.
  intros Hw. pose proof (wf_parse _ Hw) as [_ _ Hcnt _ _ _ _].
  apply (wp_for_each (λ _ v', keeps v v')); [lia|by apply wf_keeps| |done].
  intros i v1 Hi H1. eapply wp_mono; [apply set_mode_keeps; [apply H1|]|].
  - destruct H1 as (_ & ->). done.
  - intros v2 H2. eapply vt_keeps_trans; [exact H1|exact H2].
Qed.

(** * Graphic renditions *)
Lemma cube_ok r g b : 0 ≤ r ≤ PMAX → 0 ≤ g ≤ PMAX → 0 ≤ b ≤ PMAX → cube r g b ⇓ λ _, True.
Proof.
  unfold PMAX. intros Hr Hg Hb. unfold cube.
  assert (∀ x, 0 ≤ x ≤ 99999999 → 0 ≤ Z.quot x 43 ≤ 2325582) as Hq
    by (intros x Hx; rewrite Z.quot_div_nonneg by lia; zlia).
  pose proof (Hq r Hr). pose proof (Hq g Hg). pose proof (Hq b Hb).
  do 4 (apply wp_bind, wp_int; [lia|]). apply wp_int; [lia|done].
Qed.

Lemma sgr_step_ok ps count i a :
  zlen ps = MAX_PARAMS → Forall (λ x, 0 ≤ x ≤ PMAX) ps → 0 ≤ i < count → count ≤ MAX_PARAMS →
  sgr_step ps count i a ⇓ λ '(_, i'), i ≤ i' < count.
Proof.
  intros Hn Hall Hi Hcount. unfold sgr_step.
  assert (∀ j, 0 ≤ j < count → ∃ x, zget ps j = Ok x ∧ 0 ≤ x ≤ PMAX) as Hget.
  { intros j Hj. destruct (zget_in ps j) as [x Hx]; [lia|]. exists x.
    split; [apply zget_ok; [lia|done]|]. by apply (Forall_lookup_1 _ _ _ _ Hall Hx). }
  destruct (Hget i Hi) as (p & -> & Hp). cbn [mbind outcome_bind].
  repeat match goal with |- wp (if ?c then Ok _ else _) _ => destruct c; [apply wp_ok; lia|] end.
  destruct ((p =? 38) || (p =? 48)); [|apply wp_ok; lia]. apply wp_bind.
  apply (wp_mono _ (λ _, True)).
  { destruct (Z.ltb_spec (i + 2) count); [|by apply wp_ok].
    destruct (Hget (i + 1)) as (q & -> & _); [lia|]. by apply wp_ok. }
  intros q _. destruct (Z.ltb_spec (i + 2) count) as [H2|H2]; destruct (q =? 5); simpl.
  1: { destruct (Hget (i + 2)) as (c & -> & _); [lia|]. apply wp_ok. lia. }
  all: destruct (Z.ltb_spec (i + 4) count) as [H4|H4]; destruct (q =? 2); simpl; try (apply wp_ok; lia); try (exfalso; lia).
  destruct (Hget (i + 2)) as (r & -> & Hr); [lia|]. destruct (Hget (i + 3)) as (g & -> & Hg); [lia|].
  destruct (Hget (i + 4)) as (b & -> & Hb); [lia|]. cbn [mbind outcome_bind].
  apply wp_bind. eapply wp_mono; [by apply cube_ok|]. intros c _. apply wp_ok. lia.
Qed.

Lemma apply_sgr_keeps v : wf v → apply_sgr v (params (parser v)) (param_count (parser v)) ⇓ keeps v.
Proof.
  intros Hw. unfold apply_sgr. pose proof (wf_parse _ Hw) as [Hn Hall Hcnt _ _ _ _].
  destruct (_ =? 0); [by apply wp_ok, set_attr_keeps|]. apply wp_bind.
  apply (wp_mono _ (λ _, True)); [|intros a _; by apply wp_ok, set_attr_keeps].
  apply (wp_loop (λ '(i, _), 0 ≤ i ≤ param_count (parser v))
           (λ '(i, _), Z.to_nat (param_count (parser v) - i))); [|lia|lia].
  intros (i & a) Hi. destruct (Z.ltb_spec i (param_count (parser v))); [|by apply wp_ok].
  apply wp_bind. eapply wp_mono; [apply sgr_step_ok; [done|done|lia|lia]|].
  intros (a' & i') Hi'. apply wp_ok. lia.
Qed.

Lemma dispatch_csi_keeps v final : wf v → dispatch_csi A v final ⇓ keeps v.
Proof.
  intros Hw. unfold dispatch_csi. pose proof (wf_col _ Hw) as Hc. pose proof (wf_row _ Hw) as Hr.
  pose proof (wf_cols _ (wf_scr _ Hw)) as Hcs. pose proof (wf_rows _ (wf_scr _ Hw)) as Hrs.
  pose proof (wf_region _ Hw) as Hg. unfold DIM in *.
  apply wp_bind. eapply wp_mono; [apply param_ok; [apply (wf_parse _ Hw)|unfold MAX_PARAMS; lia|unfold PMAX; lia]|].
  intros p1 (Hp1 & Hp1'). specialize (Hp1' ltac:(lia)). apply wp_bind.
  eapply wp_mono; [apply param_ok; [apply (wf_parse _ Hw)|unfold MAX_PARAMS; lia|unfold PMAX; lia]|]. intros p2 _.
  assert (p1 ≤ 99999999) as Hmax by (unfold PMAX in Hp1; lia).
  do 6 (destruct (final =? _); [apply wp_bind, wp_int; [lia|]; by apply wp_ok, move_keeps|]).
  destruct (final =? 71); [by apply wp_ok, move_keeps|].
  destruct (_ || _); [by apply wp_ok, move_keeps|].
  destruct (final =? 73).
  { assert (0 ≤ Z.quot (cursor_col (cur v)) 8 ≤ cursor_col (cur v)) by (rewrite Z.quot_div_nonneg by lia; zlia).
    apply wp_bind, wp_int; [lia|]. apply wp_bind, wp_int; [lia|]. by apply wp_ok, clamp_keeps. }
  destruct (final =? 74); [by apply erase_display_keeps|].
  destruct (final =? 75); [by apply erase_line_keeps|].
  destruct (final =? 76); [apply scroll_down_keeps; [done|lia|lia|lia]|].
  destruct (final =? 77); [apply scroll_up_keeps; [done|lia|lia|lia]|].
  destruct (final =? 80); [by apply delete_chars_keeps|].
  destruct (final =? 64); [by apply insert_chars_keeps|].
  destruct (final =? 83); [apply scroll_up_keeps; [done|lia|lia|lia]|].
  destruct (final =? 84); [apply scroll_down_keeps; [done|lia|lia|lia]|].
  destruct (final =? 88); [apply wp_bind, wp_int; [lia|]; by apply clear_line_keeps|].
  destruct (final =? 90); [by apply wp_ok, clamp_keeps|].
  destruct (final =? 100); [by apply wp_ok, move_keeps|].
  destruct (final =? 109); [by apply apply_sgr_keeps|].
  destruct (final =? 114); [by apply set_margins_keeps|].
  destruct (final =? 104); [by apply set_modes_loop|].
  destruct (final =? 108); [by apply set_modes_loop|].
  destruct (final =? 115); [by apply wp_ok, set_cur_keeps|].
  destruct (final =? 117); [by apply wp_ok, move_keeps|by apply wp_ok, wf_keeps].
Qed.

Lemma dispatch_esc_keeps v final : wf v → dispatch_esc A v final ⇓ keeps v.
Proof.
  intros Hw. unfold dispatch_esc. pose proof (wf_col _ Hw) as Hc. pose proof (wf_row _ Hw) as Hr.
  pose proof (wf_region _ Hw) as Hg. pose proof (wf_cols _ (wf_scr _ Hw)). pose proof (wf_rows _ (wf_scr _ Hw)).
  destruct (final =? 68); [by apply next_line_keeps|].
  destruct (final =? 69).
  { assert (keeps v (set_cur (set_col 0 (cur v)) v)) as H1 by (apply set_cur_keeps; simpl; [done|lia|lia]).
    eapply wp_mono; [apply next_line_keeps, H1|]. intros v2 H2. eapply vt_keeps_trans; [exact H1|exact H2]. }
  destruct (final =? 77).
  { destruct (Z.eqb_spec (cursor_row (cur v)) (scroll_top v)).
    - apply scroll_down_keeps; [done|lia|lia|unfold PMAX; lia].
    - destruct (Z.ltb_spec 0 (cursor_row (cur v))); apply wp_ok; [|by apply wf_keeps].
      apply set_cur_keeps; simpl; [done|lia|lia]. }
  destruct (final =? 55); [by apply wp_ok, set_cur_keeps|].
  destruct (final =? 56); [by apply wp_ok, move_keeps|].
  destruct (final =? 99); [|by apply wp_ok, wf_keeps].
  apply wp_bind. eapply wp_mono; [by apply clear_rows_keeps|]. intros v1 K1. apply wp_ok.
  pose proof (move_keeps v1 0 0 (proj1 K1)) as K2.
  pose proof (set_attr_keeps _ (reset_attr (current_attr (cursor_move v1 0 0))) (proj1 K2)) as K3.
  pose proof (wf_rows _ (wf_scr _ (proj1 K3))) as Hrows. simpl in Hrows.
  pose proof (set_region_keeps _ 0 (rows (scr (cursor_move v1 0 0)) - 1) (proj1 K3) ltac:(simpl; lia) ltac:(simpl; lia)) as K4.
  split; [apply K4|]. apply K1.
Qed.

(** * The parser alone *)
Definition parse_byte (p : Parser) (c : Z) : outcome Parser :=
  match parse_state p with
  | VT_STATE_OSC => feed_osc p c
  | VT_STATE_GROUND => Ok (if c =? 27 then with_state VT_STATE_ESCAPE (parser_reset p) else p)
  | VT_STATE_ESCAPE =>
      if c =? 91 then Ok (with_state VT_STATE_CSI (parser_reset p))
      else if (c =? 93) || (c =? 80) || (c =? 88) || (c =? 94) || (c =? 95) then Ok (osc_start p)
      else if (32 <=? c) && (c <=? 47) then push_interm p c
      else Ok (with_state VT_STATE_GROUND p)
  | VT_STATE_CSI =>
      if (48 <=? c) && (c <=? 57) then param_push_digit p c
      else if (c =? 59) || (c =? 58) then Ok (param_next p)
      else if (32 <=? c) && (c <=? 47) then push_interm p c
      else if c =? 27 then Ok (with_state VT_STATE_ESCAPE (parser_reset p))
      else Ok (with_state VT_STATE_GROUND p)
  end.

(** Input whose parameters stay within [PMAX]. *)
Definition small (p : Parser) : bool := forallb (λ x, x <=? PMAX) (params p).
Fixpoint tame (p : Parser) (bs : list Z) : bool :=
  match bs with
  | [] => true
  | c :: bs => match parse_byte p (u8 c) with Ok p' => small p' && tame p' bs | _ => false end
  end.

Lemma with_state_wf st p : wf_parser p → wf_parser (with_state st p).
Proof. intros []. by constructor. Qed.
Lemma reset_wf p : wf_parser p → wf_parser (parser_reset p).
Proof.
  intros []. constructor; try done. simpl. repeat constructor; unfold PMAX; lia.
Qed.
Lemma osc_start_wf p : wf_parser p → wf_parser (osc_start p).
Proof. intros []. by constructor. Qed.
Lemma next_wf p : wf_parser p → wf_parser (param_next p).
Proof.
  intros []. constructor; try done. simpl. destruct (Z.ltb_spec (param_count p) MAX_PARAMS); lia.
Qed.

Lemma push_interm_wf p c : wf_parser p → push_interm p c ⇓ wf_parser.
Proof.
  intros [H1 H2 H3 H4 H5 H6 H7]. unfold push_interm. destruct (Z.ltb_spec (interm_count p) MAX_INTERM).
  - apply wp_bind, wp_zset; [lia|]. apply wp_ok. constructor; simpl; try done; [by rewrite zlen_insert|lia].
  - apply wp_ok. by constructor.
Qed.

Lemma feed_osc_wf p c : wf_parser p → feed_osc p c ⇓ wf_parser.
Proof.
  intros [H1 H2 H3 H4 H5 H6 H7]. unfold feed_osc, osc_esc. apply wp_bind.
  apply (wp_mono _ (λ esc : bool, esc = true → 0 < osc_len p)).
  { destruct (Z.ltb_spec 0 (osc_len p)); [|by apply wp_ok].
    apply wp_bind, wp_zget; [lia|]. intros x _. by apply wp_ok. }
  intros esc Hesc. destruct (_ || _).
  - assert (0 ≤ (if esc then osc_len p - 1 else osc_len p) < MAX_OSC_LEN) as Hl
      by (destruct esc; [specialize (Hesc eq_refl); lia|lia]).
    apply wp_bind, wp_zset; [lia|]. apply wp_ok. constructor; simpl; try done. by rewrite zlen_insert.
  - destruct (Z.ltb_spec (osc_len p) (MAX_OSC_LEN - 1)).
    + apply wp_bind, wp_zset; [lia|]. apply wp_ok.
      constructor; simpl; try done; [by rewrite zlen_insert|lia].
    + apply wp_ok. by constructor.
Qed.

(** A digit: the last parameter grows by it, or overflows. *)
Lemma push_digit_ok p c :
  wf_parser p → 48 ≤ c ≤ 57 →
  param_push_digit p c ⇓ λ p', small p' = true → wf_parser p'.
Proof.
  intros [H1 H2 H3 H4 H5 H6 H7] Hc. unfold param_push_digit.
  set (n := if _ =? 0 then 1 else _).
  assert (1 ≤ n ≤ MAX_PARAMS) as Hn
    by (unfold n; destruct (Z.eqb_spec (param_count p) 0); unfold MAX_PARAMS in *; lia).
  apply wp_bind, wp_zget; [lia|]. intros x Hx.
  pose proof (Forall_lookup_1 _ _ _ _ H2 Hx) as Hrange. simpl in Hrange. unfold PMAX in Hrange.
  apply wp_bind, wp_int; [lia|]. apply wp_bind, wp_int; [lia|]. apply wp_bind, wp_zset; [lia|].
  apply wp_ok. intros Hsmall. constructor; simpl; try done; [by rewrite zlen_insert| |lia].
  unfold small in Hsmall. simpl in Hsmall. rewrite forallb_forall in Hsmall.
  apply Forall_forall. intros y Hy. split.
  - apply list_elem_of_lookup in Hy as (i & Hi). apply list_lookup_insert_Some in Hi as [(_ & <- & _)|(_ & Hi)]; [lia|].
    by apply (Forall_lookup_1 _ _ _ _ H2 Hi).
  - apply Z.leb_le, Hsmall. by apply list_elem_of_In.
Qed.

(** * Feeding *)

(** One byte: the terminal stays well formed and the parser does its part. *)
Lemma feed_byte_ok v c p' :
  wf v → parse_byte (parser v) c = Ok p' → small p' = true →
  feed_byte A v c ⇓ λ v', wf v' ∧ parser v' = p'.
Proof.
  intros Hw Hp Hsm. pose proof (wf_parse _ Hw) as Hwp. pose proof (wf_col _ Hw) as Hcol.
  pose proof (wf_row _ Hw) as Hrow. unfold feed_byte, parse_byte in *.
  destruct (parse_state (parser v)) eqn:Hst.
  - injection Hp as <-. unfold feed_ground. destruct (Z.ltb_spec c 32) as [Hctl|Hprint].
    + destruct (Z.eqb_spec c 8) as [->|]; [apply wp_ok, set_cur_keeps; simpl; [done| |done]; destruct (Z.ltb_spec 0 (cursor_col (cur v))); lia|].
      destruct (Z.eqb_spec c 9) as [->|].
      { apply wp_ok, set_cur_keeps; simpl; [done| |done].
        assert (0 ≤ Z.quot (cursor_col (cur v)) 8) by (apply Z.quot_pos; lia).
        destruct (Z.leb_spec (cols (scr v)) ((Z.quot (cursor_col (cur v)) 8 + 1) * 8)); lia. }
      destruct (Z.eqb_spec c 10) as [->|]; [by apply next_line_keeps|].
      destruct (Z.eqb_spec c 11) as [->|]; [by apply next_line_keeps|].
      destruct (Z.eqb_spec c 12) as [->|]; [by apply next_line_keeps|]. simpl.
      destruct (Z.eqb_spec c 13) as [->|]; [apply wp_ok, set_cur_keeps; simpl; [done|lia|done]|].
      destruct (Z.eqb_spec c 27) as [->|].
      * apply wp_ok. split; [|done]. apply set_parser_wf; [done|]. by apply with_state_wf, reset_wf.
      * by apply wp_ok.
    + rewrite (proj2 (Z.eqb_neq c 27)) by lia. by apply put_char_keeps.
  - unfold feed_escape. destruct (c =? 91).
    { injection Hp as <-. apply wp_ok. split; [|done]. apply set_parser_wf; [done|]. by apply with_state_wf, reset_wf. }
    destruct (c =? 93); simpl in Hp.
    { injection Hp as <-. apply wp_ok. split; [|done]. apply set_parser_wf; [done|]. by apply osc_start_wf. }
    destruct ((c =? 80) || (c =? 88) || (c =? 94) || (c =? 95)).
    { injection Hp as <-. apply wp_ok. split; [|done]. apply set_parser_wf; [done|]. by apply osc_start_wf. }
    destruct ((32 <=? c) && (c <=? 47)).
    { rewrite Hp. apply wp_ok. split; [|done]. apply set_parser_wf; [done|].
      apply wp_ok_inv. rewrite <-Hp. by apply push_interm_wf. }
    injection Hp as <-. destruct ((48 <=? c) && (c <=? 126)).
    + apply wp_bind. eapply wp_mono; [by apply dispatch_esc_keeps|]. intros v' (Hw' & Hp'). apply wp_ok.
      rewrite Hp'. split; [|done]. apply set_parser_wf; [done|]. by apply with_state_wf.
    + apply wp_ok. split; [|done]. apply set_parser_wf; [done|]. by apply with_state_wf.
  - unfold feed_csi. destruct ((48 <=? c) && (c <=? 57)) eqn:Hdig.
    { apply andb_prop in Hdig as (Hlo%Z.leb_le & Hhi%Z.leb_le). rewrite Hp. apply wp_ok. split; [|done].
      apply set_parser_wf; [done|]. revert Hsm. apply (wp_ok_inv p' (λ q, small q = true → wf_parser q)).
      rewrite <-Hp. by apply push_digit_ok. }
    destruct (c =? 59); simpl in Hp.
    { injection Hp as <-. apply wp_ok. split; [|done]. apply set_parser_wf; [done|]. by apply next_wf. }
    destruct (c =? 58).
    { injection Hp as <-. apply wp_ok. split; [|done]. apply set_parser_wf; [done|]. by apply next_wf. }
    destruct ((32 <=? c) && (c <=? 47)).
    { rewrite Hp. apply wp_ok. split; [|done]. apply set_parser_wf; [done|].
      apply wp_ok_inv. rewrite <-Hp. by apply push_interm_wf. }
    destruct ((64 <=? c) && (c <=? 126)) eqn:Hfin.
    { apply andb_prop in Hfin as (Hlo%Z.leb_le & Hhi%Z.leb_le).
      rewrite (proj2 (Z.eqb_neq c 27)) in Hp by lia. injection Hp as <-.
      apply wp_bind. eapply wp_mono; [by apply dispatch_csi_keeps|]. intros v' (Hw' & Hp'). apply wp_ok.
      rewrite Hp'. split; [|done]. apply set_parser_wf; [done|]. by apply with_state_wf. }
    destruct (c =? 27); injection Hp as <-; apply wp_ok; (split; [|done]); apply set_parser_wf; try done.
    + by apply with_state_wf, reset_wf.
    + by apply with_state_wf.
  - rewrite Hp. apply wp_ok. split; [|done]. apply set_parser_wf; [done|].
    apply wp_ok_inv. rewrite <-Hp. by apply feed_osc_wf.
Qed.

Fixpoint parse_bytes (p : Parser) (bs : list Z) : outcome Parser :=
  match bs with [] => Ok p | c :: bs => p ← parse_byte p (u8 c); parse_bytes p bs end.

(** The loop of [vt100_feed], one byte after the other. *)
Fixpoint feed_bytes (v : Vt100) (bs : list Z) : outcome Vt100 :=
  match bs with [] => Ok v | c :: bs => v ← feed_byte A v (u8 c); feed_bytes v bs end.

Lemma feed_is_fold v bs : vt100_feed A v bs (zlen bs) = feed_bytes v bs.
Proof.
  unfold vt100_feed, for_each, for_loop. rewrite Z.sub_0_r.
  assert (∀ pre rest v, (r ← for_nat (R := Empty_set) (length rest) (zlen pre)
     (λ i v, v' ← (c ← zget (pre ++ rest) i; feed_byte A v (u8 c)); Ok (inl v')) v;
     match r with inl s' => Ok s' | inr e => match (e : Empty_set) return outcome Vt100 with end end) =
     feed_bytes v rest) as H.
  { intros pre rest. revert pre. induction rest as [|c rest IH]; intros pre w; [done|].
    cbn [length for_nat feed_bytes].
    rewrite (zget_ok _ _ c) by (unfold zlen; rewrite ?Nat2Z.id, ?list_lookup_middle; done || lia).
    cbn [mbind outcome_bind]. destruct (feed_byte A w (u8 c)) as [w'| |]; [|done|done].
    cbn [mbind outcome_bind]. specialize (IH (pre ++ [c]) w').
    rewrite <-app_assoc, zlen_app in IH. exact IH. }
  specialize (H [] bs v). unfold zlen at 1. rewrite Nat2Z.id. exact H.
Qed.

Lemma feed_bytes_ok v bs :
  wf v → tame (parser v) bs = true →
  feed_bytes v bs ⇓ λ v', wf v' ∧ parse_bytes (parser v) bs = Ok (parser v').
Proof.
  revert v. induction bs as [|c bs IH]; intros v Hw Ht; simpl in *; [by apply wp_ok|].
  destruct (parse_byte (parser v) (u8 c)) as [p'| |] eqn:Hp; [|done|done].
  apply andb_prop in Ht as (Hsm & Ht). apply wp_bind. eapply wp_mono; [by apply feed_byte_ok|].
  intros v' (Hw' & <-). simpl. by apply IH.
Qed.

End terminal.
End Vt100Feed.
