(* ===== verification/Vt100Claims.v ===== *)
(** What the terminal promises: any input keeps it well formed, text lands in
    the cells where it should, a scrolled line moves to the scrollback, cursor
    addresses are read back as they were written; and the sequences it does
    not recognise although it means to. *)
From stdpp Require Import base list.
From S2P Require Import Prelude.
From S2P Require Import Ring.
From S2P Require Import CLib.
From S2P Require Import Vt100.
From S2P Require Import Vt100Screen.
From S2P Require Import Vt100Feed.
Import Vt100 Vt100Screen Vt100Feed.

Module Vt100Claims.

(** * Creation and resizing *)
Lemma zlen_fresh_cells A k n : 0 ≤ n → zlen (fresh_cells A k n) = n.
Proof. intros. unfold fresh_cells, zlen. rewrite length_map, length_seq. lia. Qed.

(** A fresh terminal: blank, the cursor at home, the parser at rest. *)
Record is_new (v : Vt100) (c r sb : Z) : Prop := mk_new {
  new_wf : wf v;
  new_dims : cols (scr v) = c ∧ rows (scr v) = r ∧ use_alt (scr v) = false;
  new_cells : ∀ x y, 0 ≤ x < c → 0 ≤ y < r → cell_at (scr v) x y = Some cell_blank;
  new_cursor : cur v = mkCursor 0 0 0 0 0 0 false;
  new_region : scroll_top v = 0 ∧ scroll_bot v = r - 1;
  new_attr : current_attr v = mkCell 0 DEFAULT_FG DEFAULT_BG 0;
  new_modes : modes v = mkModes false true false true false;
  new_parser : parse_state (parser v) = VT_STATE_GROUND ∧ interm (parser v) = [0; 0; 0; 0] }.

Lemma vt100_new_ok A k c r sb :
  1 ≤ c ≤ DIM → 1 ≤ r ≤ DIM → sb < 2 ^ 30 →
  vt100_new A k c r sb ⇓ λ o, match o with Some v => is_new v c r sb | None => True end.
Proof.
  intros Hc Hr Hsb. unfold vt100_new.
  rewrite (proj2 (Z.leb_gt c 0)), (proj2 (Z.leb_gt r 0)) by lia. simpl.
  destruct (avail A k 728); [|by apply wp_ok]. destruct (avail A (S k) _); [|by apply wp_ok].
  destruct (avail A (S (S k)) _); [|by apply wp_ok]. simpl.
  match goal with |- wp (screen_clear_rows ?w _ _ ≫= _) _ => set (v0 := w) end.
  assert (wf_screen (scr v0)) as Hs.
  { constructor; simpl; [done|done|rewrite zlen_fresh_cells; nia|rewrite zlen_fresh_cells; nia]. }
  assert (wf v0) as Hw.
  { constructor; [done|simpl; lia|simpl; lia|simpl; lia| |by exists []].
    constructor; try done. simpl. repeat constructor; unfold PMAX; lia. }
  apply wp_bind. eapply wp_mono; [by apply clear_rows_ok|]. intros v (Hp & Hat).
  destruct (painted_keeps_back v0 v Hw Hp) as (Hw1 & Hp1).
  destruct (painted_dims _ _ Hp) as (Hdc & Hdr & Hdu).
  destruct (painted_rest _ _ Hp) as (Hcur & Ht & Hbt & Hat1 & Hm & _ & Hbk & _).
  assert (∀ b k', (∃ ls, back_repr b ls) → is_new (set_back b k' v) c r sb) as Hnew.
  { intros b k' Hb. constructor; simpl; try done.
    - destruct Hw1. by constructor.
    - intros x y Hx Hy. unfold cell_at in *. rewrite Hat by done. rewrite decide_True by lia. done.
    - by rewrite Hp1. }
  assert (∃ ls, back_repr (back v) ls) as Hback by apply (wf_back _ Hw1).
  destruct (Z.ltb_spec 0 sb).
  - destruct (avail A (reqs v) (16 * sb)); apply wp_ok; apply Hnew; [|done].
    exists []. unfold back_repr. simpl. assert (zlen (replicate (Z.to_nat sb) (mkLine None 0)) = sb) as Hz
      by (unfold zlen; rewrite length_replicate; lia).
    split_and!; [lia|done|done|]. apply Ring.holds_nil; lia.
  - apply wp_ok. specialize (Hnew (back v) (reqs v) Hback). by destruct v.
Qed.

(** The copy into the resized screen. *)
Lemma resize_keeps A v c r :
  wf v → 1 ≤ c ≤ DIM → 1 ≤ r ≤ DIM → vt100_resize A v c r ⇓ keeps v.
Proof.
  intros Hw Hc Hr. unfold vt100_resize.
  rewrite (proj2 (Z.leb_gt c 0)), (proj2 (Z.leb_gt r 0)) by lia. simpl.
  assert (wf (set_back (back v) (S (S (reqs v))) v)) as Hw1 by (destruct Hw; by constructor).
  destruct (_ && _); simpl; [|by apply wp_ok]. unfold DIM in *.
  rewrite int_ok by nia. cbn [mbind outcome_bind].
  pose proof (wf_scr _ Hw) as Hs. pose proof Hs as [Hsc Hsr Hsm Hsa]. unfold DIM in *.
  assert (zlen (replicate (Z.to_nat (c * r)) cell_blank) = c * r) as Hblank
    by (unfold zlen; rewrite length_replicate; nia).
  assert (0 ≤ (if r <? rows (scr v) then r else rows (scr v)) ≤ r ∧
          (if r <? rows (scr v) then r else rows (scr v)) ≤ rows (scr v)) as Hcr
    by (destruct (Z.ltb_spec r (rows (scr v))); lia).
  assert (0 ≤ (if c <? cols (scr v) then c else cols (scr v)) ≤ c ∧
          (if c <? cols (scr v) then c else cols (scr v)) ≤ cols (scr v)) as Hcc
    by (destruct (Z.ltb_spec c (cols (scr v))); lia).
  apply wp_bind. apply (wp_mono _ (λ new : list VtCell, zlen new = c * r)).
  { apply (wp_for_each (λ _ new, zlen new = c * r)); [lia|done| |done].
    intros y new Hy Hn. apply (wp_for_each (λ _ new, zlen new = c * r)); [lia|done| |done].
    intros x new' Hx Hn'. apply wp_bind, wp_zget; [rewrite Hsm; nia|]. intros cell _.
    apply wp_zset; [nia|]. by rewrite zlen_insert. }
  intros new Hn. apply wp_ok. split; [|done].
  pose proof (wf_col _ Hw). pose proof (wf_row _ Hw).
  constructor; simpl; [by constructor; simpl; unfold DIM| | |lia|apply (wf_parse _ Hw)|apply (wf_back _ Hw)].
  - destruct (Z.leb_spec c (cursor_col (cur v))); lia.
  - destruct (Z.leb_spec r (cursor_row (cur v))); lia.
Qed.

(** * Queries *)

(** Reading the scrollback: line [i] counted from the newest. *)
Lemma scrollback_line_ok v ls i l :
  back_repr (back v) ls → 0 ≤ i < zlen ls → ls !! Z.to_nat (zlen ls - 1 - i) = Some l →
  vt100_scrollback_line v i = Ok (Some (l, zlen l)).
Proof.
  intros Hb Hi Hl. unfold vt100_scrollback_line, back_repr in *.
  destruct (scrollback (back v)) as [lines|]; [|destruct Hb as (_ & _ & ->); unfold zlen in Hi; simpl in Hi; lia].
  destruct Hb as (Hcap & Hbig & Hcount & Hc & Hh & Hq & Hat). rewrite Hcount.
  rewrite (proj2 (Z.ltb_ge i 0)), (proj2 (Z.leb_gt _ i)) by lia. simpl.
  unfold zlen in Hq at 1. rewrite length_map in Hq. fold (zlen ls) in Hq.
  rewrite int_ok by lia. cbn [mbind outcome_bind]. rewrite Z.rem_mod_nonneg by lia.
  pose proof (Hat (Z.to_nat (zlen ls - 1 - i)) (whole_line l)) as Hslot.
  rewrite (list_lookup_fmap whole_line), Hl in Hslot. specialize (Hslot eq_refl). unfold Ring.slot in Hslot.
  replace (sb_head (back v) + Z.of_nat (Z.to_nat (zlen ls - 1 - i)))
    with (sb_head (back v) + zlen ls - 1 - i) in Hslot by lia.
  rewrite (zget_ok _ _ (whole_line l)); [done| |done].
  apply Z.mod_pos_bound. lia.
Qed.

Lemma scrollback_line_total v i : wf v → vt100_scrollback_line v i ⇓ λ _, True.
Proof.
  intros [_ _ _ _ _ (ls & Hb)]. destruct (decide (0 ≤ i < zlen ls)) as [Hi|Hi].
  - destruct (lookup_lt_is_Some_2 ls (Z.to_nat (zlen ls - 1 - i))) as [l Hl]; [unfold zlen in *; lia|].
    rewrite (scrollback_line_ok v ls i l Hb Hi Hl). by apply wp_ok.
  - unfold vt100_scrollback_line. cbv zeta.
    assert (sb_count (back v) = zlen ls) as ->.
    { unfold back_repr in Hb. destruct (scrollback (back v)); [apply Hb|]. destruct Hb as (_ & -> & ->). done. }
    assert ((i <? 0) || (zlen ls <=? i) = true) as -> by (apply orb_true_iff; rewrite Z.ltb_lt, Z.leb_le; lia). by apply wp_ok.
Qed.

Lemma cell_total v x y : wf v → vt100_cell v x y ⇓ λ o, is_Some o ↔ 0 ≤ x < cols (scr v) ∧ 0 ≤ y < rows (scr v).
Proof.
  intros Hw. unfold vt100_cell. rewrite screen_cell_ok by apply (wf_scr _ Hw). cbn [mbind outcome_bind].
  case_decide as Hd; [|apply wp_ok; split; [by intros []|done]]. pose proof (index_range (scr v) x y (wf_scr _ Hw) (proj1 Hd) (proj2 Hd)).
  destruct (zget_in (active (scr v)) (y * cols (scr v) + x)) as (q & Hq).
  { rewrite zlen_active by apply (wf_scr _ Hw). nia. }
  rewrite (zget_ok _ _ q) by (done || lia). apply wp_ok. done.
Qed.

(** * Safety *)
Inductive event := Feed (bs : list Z) | Resize (c r : Z) | Cell (x y : Z) | Line (i : Z).

Definition handle (A : allocator) (e : event) (v : Vt100) : outcome Vt100 :=
  match e with
  | Feed bs => vt100_feed A v bs (zlen bs)
  | Resize c r => vt100_resize A v c r
  | Cell x y => _ ← vt100_cell v x y; Ok v
  | Line i => _ ← vt100_scrollback_line v i; Ok v
  end.
Fixpoint handle_all (A : allocator) (es : list event) (v : Vt100) : outcome Vt100 :=
  match es with [] => Ok v | e :: es => v ← handle A e v; handle_all A es v end.

(** Parameters of at most [PMAX], sizes of at most [DIM]. *)
Fixpoint events_ok (p : Parser) (es : list event) : bool :=
  match es with
  | [] => true
  | Feed bs :: es =>
      tame p bs && match parse_bytes p bs with Ok p' => events_ok p' es | _ => false end
  | Resize c r :: es => (1 <=? c) && (c <=? DIM) && (1 <=? r) && (r <=? DIM) && events_ok p es
  | Cell _ _ :: es | Line _ :: es => events_ok p es
  end.

Lemma handle_all_wf A es v : wf v → events_ok (parser v) es = true → handle_all A es v ⇓ wf.
Proof.
  revert v. induction es as [|e es IH]; intros v Hw Hok; [by apply wp_ok|].
  destruct e as [bs|c r|x y|i]; simpl in *.
  - apply andb_prop in Hok as (Ht & Hok). apply wp_bind. rewrite feed_is_fold.
    eapply wp_mono; [by apply feed_bytes_ok|]. intros v' (Hw' & Hp'). rewrite Hp' in Hok. by apply IH.
  - repeat match goal with H : _ && _ = true |- _ => apply andb_prop in H as [? ?] end.
    repeat match goal with H : (_ <=? _) = true |- _ => apply Z.leb_le in H end.
    apply wp_bind. eapply wp_mono; [by apply resize_keeps|]. intros v' (Hw' & Hp'). apply IH; [done|].
    by rewrite Hp'.
  - apply wp_bind, wp_bind. eapply wp_mono; [by apply cell_total|]. intros q _. apply wp_ok. by apply IH.
  - apply wp_bind, wp_bind. eapply wp_mono; [by apply scrollback_line_total|]. intros q _. apply wp_ok. by apply IH.
Qed.

(** C8: A terminal of 1 to 32767 columns and rows and a scrollback below 2^30 lines that
    vt100_new creates handles any sequence of input bytes, resizes (1 to 32767 each way) and
    reads of cells and scrollback lines at any position, where the numbers in control sequences
    stay at most 99999999, without undefined behaviour, whatever requests the allocator refuses,
    and its screens, cursor, margins, parser and scrollback stay well formed. *)
Theorem vt100_input_safe A k c r sb es :
  1 ≤ c ≤ DIM → 1 ≤ r ≤ DIM → sb < 2 ^ 30 →
  vt100_new A k c r sb ⇓ λ o, match o with
    | Some v => events_ok (parser v) es = true → handle_all A es v ⇓ wf
    | None => True
    end.
Proof.
  intros Hc Hr Hsb. eapply wp_mono; [by apply vt100_new_ok|]. intros [v|] Hn; [|done].
  intros Hok. apply handle_all_wf; [apply Hn|done].
Qed.

(** An allocator that grants what is below a tebibyte. *)
Definition plain : allocator := {| avail := λ _ n, n <? 2 ^ 40; junk := λ _ _, 170 |}.
Definition rest : Parser :=
  mkParser VT_STATE_GROUND (replicate 16 0) 0 (replicate 4 0) 0 (replicate 512 0) 0.

Lemma vt100_input_safe_witness :
  let es := [Feed [72; 105; 27; 91; 50; 59; 51; 72; 27; 91; 51; 49; 109; 10; 10; 10; 65]; Line 0; Resize 5 2; Feed [27; 91; 76]; Cell 4 1; Cell (-1) 9] in
  events_ok rest es = true ∧
  vt100_new plain 0 8 3 10 ⇓ λ o, match o with
    | Some v => events_ok (parser v) es = true → handle_all plain es v ⇓ wf
    | None => True
    end.
Proof. split; [vm_compute; reflexivity|]. apply vt100_input_safe; unfold DIM; lia. Defined.

(** * Printing text *)

(** The terminal after [s] was printed on it from the top left corner. *)
Record printed (v : Vt100) (c r : Z) (s : list Z) : Prop := mk_printed {
  pr_wf : wf v;
  pr_dims : cols (scr v) = c ∧ rows (scr v) = r;
  pr_bot : scroll_bot v = r - 1;
  pr_attr : current_attr v = mkCell 0 DEFAULT_FG DEFAULT_BG 0;
  pr_modes : modes v = mkModes false true false true false;
  pr_ground : parse_state (parser v) = VT_STATE_GROUND;
  pr_cells : ∀ x y, 0 ≤ x < c → 0 ≤ y < r →
    cell_at (scr v) x y = Some match s !! Z.to_nat (y * c + x) with
                               | Some b => mkCell b DEFAULT_FG DEFAULT_BG 0
                               | None => cell_blank
                               end;
  pr_cursor : let n := zlen s in
    if decide (0 < n ∧ n mod c = 0)
    then cursor_col (cur v) = c - 1 ∧ cursor_row (cur v) = n / c - 1 ∧ pending_wrap (cur v) = true
    else cursor_col (cur v) = n mod c ∧ cursor_row (cur v) = n / c ∧ pending_wrap (cur v) = false }.

(** Where the next character goes. *)
Lemma next_place A v c r s :
  printed v c r s → zlen s < c * r →
  (if pending_wrap (cur v) && mode_auto_wrap (modes v)
   then cursor_next_line A (set_cur (set_pos 0 (cursor_row (cur v)) false (cur v)) v)
   else Ok v) ⇓ λ v', ∃ k, v' = set_cur k v ∧
     cursor_col k = zlen s mod c ∧ cursor_row k = zlen s / c ∧ pending_wrap k = false.
Proof.
  intros [Hw (Hc & Hr) Hb _ Hm _ _ Hcur] Hlt. pose proof (wf_cols _ (wf_scr _ Hw)) as Hcs.
  pose proof (zlen_nonneg s) as Hn. cbv zeta in Hcur. set (n := zlen s) in *. rewrite Hc in Hcs.
  assert (n / c < r) as Hrow by (apply Z.div_lt_upper_bound; lia).
  case_decide as Hd; destruct Hcur as (H1 & H2 & H3); rewrite H3, Hm; simpl.
  - unfold cursor_next_line. simpl. rewrite H2, Hb, Hr.
    rewrite (proj2 (Z.eqb_neq _ _)) by lia. apply wp_ok.
    rewrite (proj2 (Z.leb_gt _ _)) by lia. eexists. split; [reflexivity|]. simpl.
    split_and!; [lia|lia|done].
  - apply wp_ok. exists (cur v). by destruct v.
Qed.

Lemma print_one A v c r s b :
  printed v c r s → zlen s < c * r → 32 ≤ b < 256 →
  feed_byte A v (u8 b) ⇓ λ v', printed v' c r (s ++ [b]).
Proof.
  intros Hpr Hlt Hb. pose proof Hpr as [Hw (Hc & Hr) Hbot Ha Hm Hg Hcells _].
  rewrite u8_small by lia. unfold feed_byte, feed_ground. rewrite Hg, (proj2 (Z.ltb_ge b 32)) by lia.
  pose proof (put_char_keeps A v b Hw) as Hkeep. unfold put_char in *.
  destruct (next_place A v c r s Hpr Hlt) as (v1 & Hv1 & k & -> & Hk1 & Hk2 & Hk3).
  rewrite Hv1 in *. cbn [mbind outcome_bind] in *. simpl in *. rewrite Hm in *. simpl in *.
  pose proof (wf_scr _ Hw) as Hs. pose proof (wf_cols _ Hs) as Hcs. pose proof (zlen_nonneg s) as Hn.
  rewrite Hc in Hcs. set (n := zlen s) in *.
  assert (0 ≤ n mod c < c ∧ 0 ≤ n / c < r) as (Hx & Hy).
  { split; [apply Z.mod_pos_bound; lia|]. split; [apply Z.div_pos; lia|apply Z.div_lt_upper_bound; lia]. }
  rewrite (screen_cell_ok (set_cur k v)), decide_True in * by (simpl; rewrite ?Hc, ?Hr, ?Hk1, ?Hk2; done).
  cbn [mbind outcome_bind] in *. simpl scr in *. rewrite Ha in *. simpl in *.
  destruct (store_cell_ok (set_cur k v) (cursor_col k) (cursor_row k) (mkCell b DEFAULT_FG DEFAULT_BG 0) Hs)
    as (v2 & Hv2 & Hp2 & Hat2); [simpl; rewrite Hc, Hk1; done|simpl; rewrite Hr, Hk2; done|].
  simpl in Hv2. rewrite Hv2 in *. cbn [mbind outcome_bind] in *. simpl in *.
  destruct (painted_dims _ _ Hp2) as (Hdc & Hdr & _). simpl in Hdc, Hdr.
  destruct (painted_rest _ _ Hp2) as (Hcur2 & _ & Hb2 & Ha2 & Hm2 & Hpar2 & _). simpl in *.
  rewrite Hdc, Hc in *. rewrite Hr in *. rewrite Hcur2 in *.
  match goal with H : wp ?m (keeps v) |- _ =>
    assert (∃ q, m = Ok (set_cur q v2) ∧ cursor_row q = n / c ∧
      (if decide (n mod c = c - 1) then cursor_col q = c - 1 ∧ pending_wrap q = true
       else cursor_col q = n mod c + 1 ∧ pending_wrap q = false)) as (q & Hq & Hqr & Hqc) end.
  { destruct (Z.leb_spec (c - 1) (cursor_col k)); eexists; (split; [reflexivity|]); simpl.
    - rewrite decide_True by lia. split_and!; [done|lia|done].
    - rewrite decide_False by lia. split_and!; [done|lia|done]. }
  rewrite Hq in *. apply wp_ok_inv in Hkeep as (Hw3 & Hp3).
  apply wp_ok. constructor; simpl; try done.
  - by rewrite Hb2.
  - by rewrite Ha2.
  - by rewrite Hm2.
  - by rewrite Hpar2.
  - intros x y Hx' Hy'. rewrite Hat2 by done. destruct (decide (x = cursor_col k ∧ y = cursor_row k)) as [Hd|Hd].
    + destruct Hd as (-> & ->). rewrite Hk1, Hk2.
      replace (Z.to_nat (n / c * c + n mod c)) with (length s)
        by (pose proof (Z.div_mod n c ltac:(lia)); unfold n, zlen in *; lia).
      by rewrite list_lookup_middle.
    + rewrite (Hcells x y) by done. f_equal.
      destruct (decide (Z.to_nat (y * c + x) = length s)) as [He|He].
      { exfalso. apply Hd. rewrite Hk1, Hk2.
        assert (n = c * y + x) as Hnn by (unfold n, zlen; nia). split.
        - rewrite Hnn, Z.mul_comm, Z.add_comm, Z.mod_add, Z.mod_small by lia. done.
        - rewrite Hnn, Z.mul_comm, Z.add_comm, Z.div_add, Z.div_small by lia. lia. }
      destruct (decide (Z.to_nat (y * c + x) < length s)%nat).
      * by rewrite lookup_app_l by done.
      * rewrite !lookup_ge_None_2 by (rewrite ?length_app; simpl; lia). done.
  - rewrite zlen_app. change (zlen [b]) with 1. fold n. pose proof (Z.div_mod n c ltac:(lia)) as Hdm.
    destruct (decide (n mod c = c - 1)) as [He|He].
    + assert (n + 1 = (n / c + 1) * c) as Hn1 by nia.
      rewrite decide_True by (split; [lia|]; rewrite Hn1; apply Z.mod_mul; lia).
      rewrite Hn1, Z.div_mul by lia. split_and!; [tauto|lia|tauto].
    + assert (n + 1 = c * (n / c) + (n mod c + 1)) as Hn1 by lia.
      assert ((n + 1) mod c = n mod c + 1) as Hmod.
      { rewrite Hn1, Z.mul_comm, Z.add_comm, Z.mod_add by lia. apply Z.mod_small. lia. }
      assert ((n + 1) / c = n / c) as Hdiv.
      { rewrite Hn1, Z.mul_comm, Z.add_comm, Z.div_add by lia. rewrite Z.div_small by lia. lia. }
      rewrite decide_False by lia. rewrite Hmod, Hdiv. split_and!; [tauto|done|tauto].
Qed.

Lemma print_all A c r s : ∀ v pre,
  printed v c r pre → zlen pre + zlen s ≤ c * r → Forall (λ b, 32 ≤ b < 256) s →
  feed_bytes A v s ⇓ λ v', printed v' c r (pre ++ s).
Proof.
  induction s as [|b s IH]; intros v pre Hp Hle Hs; simpl.
  - apply wp_ok. by rewrite app_nil_r.
  - apply Forall_cons in Hs as (Hb & Hs). rewrite zlen_cons in Hle. pose proof (zlen_nonneg s).
    apply wp_bind. eapply wp_mono; [apply (print_one A v c r pre b Hp); [lia|done]|].
    intros v' Hp'. eapply wp_mono; [apply (IH v' (pre ++ [b]) Hp'); [rewrite zlen_app; change (zlen [b]) with 1; lia|done]|].
    intros v2. by rewrite <-app_assoc.
Qed.

Lemma new_printed v c r sb : is_new v c r sb → printed v c r [].
Proof.
  intros [Hw (Hc & Hr & _) Hcells Hcur (_ & Hb) Ha Hm (Hp & _)]. constructor; try done.
  cbv zeta. change (@zlen Z []) with 0. rewrite decide_False by lia. rewrite Hcur. simpl.
  by rewrite Z.mod_0_l, Z.div_0_l
    by (pose proof (wf_cols _ (wf_scr _ Hw)); lia).
Qed.

(** Printable bytes fed to a fresh terminal appear on its screen in reading order, wrapping at
    the last column, every other cell stays blank. *)
Theorem vt100_prints_text A k c r sb s :
  1 ≤ c ≤ DIM → 1 ≤ r ≤ DIM → sb < 2 ^ 30 →
  Forall (λ b, 32 ≤ b < 256) s → zlen s ≤ c * r →
  vt100_new A k c r sb ⇓ λ o, match o with
    | Some v => vt100_feed A v s (zlen s) ⇓ λ v', ∀ x y, 0 ≤ x < c → 0 ≤ y < r →
        vt100_cell v' x y = Ok (Some match s !! Z.to_nat (y * c + x) with
          | Some b => mkCell b DEFAULT_FG DEFAULT_BG 0
          | None => cell_blank
          end)
    | None => True
    end.
Proof.
  intros Hc Hr Hsb Hs Hlen. eapply wp_mono; [by apply vt100_new_ok|]. intros [v|] Hn; [|done].
  rewrite feed_is_fold. eapply wp_mono; [apply (print_all A c r s v []); [by eapply new_printed|done|done]|].
  intros v' [Hw (Hdc & Hdr) _ _ _ _ Hcells _] x y Hx Hy. unfold vt100_cell.
  rewrite screen_cell_ok, decide_True by (apply (wf_scr _ Hw) || (rewrite Hdc, Hdr; done)).
  cbn [mbind outcome_bind]. specialize (Hcells x y Hx Hy). unfold cell_at in Hcells. rewrite Hdc in Hcells |- *.
  assert (0 ≤ y * c + x) as Hi by (clear -Hx Hy; nia). by rewrite (zget_ok _ _ _ Hi Hcells).
Qed.

Lemma vt100_prints_text_witness :
  vt100_new plain 0 4 2 0 ⇓ λ o, match o with
    | Some v => vt100_feed plain v [72; 101; 108; 108; 111] (zlen [72; 101; 108; 108; 111]) ⇓ λ v',
        ∀ x y, 0 ≤ x < 4 → 0 ≤ y < 2 →
        vt100_cell v' x y = Ok (Some match [72; 101; 108; 108; 111] !! Z.to_nat (y * 4 + x) with
          | Some b => mkCell b DEFAULT_FG DEFAULT_BG 0
          | None => cell_blank
          end)
    | None => True
    end.
Proof.
  apply (vt100_prints_text plain 0 4 2 0); unfold DIM; [lia|lia|lia|repeat constructor; lia|vm_compute; congruence].
Defined.

(** * Cursor addresses *)

(** Decimal digits, the most significant first. *)
Fixpoint digits (fuel : nat) (n : Z) : list Z :=
  match fuel with
  | O => []
  | S f => if n <? 10 then [48 + n] else digits f (n / 10) ++ [48 + n mod 10]
  end.
Definition dec (n : Z) : list Z := digits 8 n.

Lemma feed_bytes_app A v a b : feed_bytes A v (a ++ b) = (w ← feed_bytes A v a; feed_bytes A w b).
Proof.
  revert v. induction a as [|c a IH]; intros v; [done|]. simpl.
  destruct (feed_byte A v (u8 c)) as [w| |]; [apply IH|done|done].
Qed.

(** The parameter the next digit belongs to. *)
Definition slot_of (p : Parser) : Z := (if param_count p =? 0 then 1 else param_count p) - 1.
Definition with_param (p : Parser) (i x : Z) : Parser :=
  mkParser (parse_state p) (<[Z.to_nat i := x]> (params p)) (i + 1) (interm p) (interm_count p) (osc_buf p) (osc_len p).

Lemma feed_digit A v x d :
  parse_state (parser v) = VT_STATE_CSI → 0 ≤ slot_of (parser v) < zlen (params (parser v)) →
  params (parser v) !! Z.to_nat (slot_of (parser v)) = Some x → 0 ≤ x ≤ PMAX → 0 ≤ d < 10 →
  feed_byte A v (u8 (48 + d)) = Ok (set_parser (with_param (parser v) (slot_of (parser v)) (x * 10 + d)) v).
Proof.
  intros Hst Hi Hx Hr Hd. unfold PMAX in Hr. rewrite u8_small by lia. unfold feed_byte, feed_csi. rewrite Hst.
  rewrite (proj2 (Z.leb_le 48 (48 + d))), (proj2 (Z.leb_le (48 + d) 57)) by lia. simpl.
  unfold param_push_digit. fold (slot_of (parser v)).
  rewrite (zget_ok _ _ x) by (done || lia). cbn [mbind outcome_bind].
  rewrite (int_ok (x * 10)) by lia. cbn [mbind outcome_bind].
  replace (x * 10 + (48 + d - 48)) with (x * 10 + d) by lia. rewrite (int_ok (x * 10 + d)) by lia. cbn [mbind outcome_bind].
  rewrite zset_ok by done. cbn [mbind outcome_bind]. unfold with_param, slot_of. do 3 f_equal. lia.
Qed.

Lemma feed_number A f : ∀ v n,
  parse_state (parser v) = VT_STATE_CSI → 0 ≤ slot_of (parser v) < zlen (params (parser v)) →
  params (parser v) !! Z.to_nat (slot_of (parser v)) = Some 0 → 0 ≤ n ≤ PMAX → n < 10 ^ Z.of_nat f →
  (0 < f)%nat → feed_bytes A v (digits f n) = Ok (set_parser (with_param (parser v) (slot_of (parser v)) n) v).
Proof.
  induction f as [|f IH]; intros v n Hst Hi Hx Hn Hf Hpos; [lia|].
  cbn [digits]. destruct (Z.ltb_spec n 10).
  - cbn [feed_bytes]. rewrite (feed_digit A v 0 n) by (done || (unfold PMAX; lia)). done.
  - rewrite Nat2Z.inj_succ, Z.pow_succ_r in Hf by lia.
    rewrite feed_bytes_app, IH; [|done|done|done|unfold PMAX in *; zlia|zlia|destruct f; [change (10 ^ Z.of_nat 0) with 1 in Hf|]; lia].
    cbn [mbind outcome_bind feed_bytes].
    set (v1 := set_parser _ v). assert (slot_of (parser v1) = slot_of (parser v)) as Hslot.
    { unfold v1, slot_of at 1. simpl. rewrite (proj2 (Z.eqb_neq _ 0)) by lia. lia. }
    rewrite (feed_digit A v1 (n / 10) (n mod 10)); [|done| | |unfold PMAX in *; zlia|zlia].
    + rewrite Hslot. cbn [mbind outcome_bind]. unfold v1, with_param. simpl.
      rewrite list_insert_insert_eq. replace (n / 10 * 10 + n mod 10) with n by zlia. done.
    + rewrite Hslot. simpl. by rewrite zlen_insert.
    + rewrite Hslot. simpl. apply list_lookup_insert_eq. unfold zlen in *. lia.
Qed.

(** The sequence that moves the cursor to a column and a row. *)
Definition cup (col row : Z) : list Z := [27; 91] ++ dec (row + 1) ++ [59] ++ dec (col + 1) ++ [72].

(** The cursor position sequence moves the cursor to the position it names and changes nothing
    else. *)
Theorem vt100_cursor_address_roundtrip A v col row :
  wf v → parse_state (parser v) = VT_STATE_GROUND →
  0 ≤ col < cols (scr v) → 0 ≤ row < rows (scr v) →
  vt100_feed A v (cup col row) (zlen (cup col row)) ⇓ λ v',
    vt100_cursor_col v' = col ∧ vt100_cursor_row v' = row ∧ pending_wrap (cur v') = false ∧
    scr v' = scr v ∧ back v' = back v ∧ current_attr v' = current_attr v ∧
    parse_state (parser v') = VT_STATE_GROUND.
Proof.
  intros Hw Hst Hcol Hrow. pose proof (wf_cols _ (wf_scr _ Hw)) as Hc. pose proof (wf_rows _ (wf_scr _ Hw)) as Hr.
  unfold DIM in *. rewrite feed_is_fold. unfold cup. cbn [app feed_bytes].
  assert (feed_byte A v (u8 27) = Ok (set_parser (with_state VT_STATE_ESCAPE (parser_reset (parser v))) v)) as ->
    by (unfold feed_byte; by rewrite Hst).
  cbn [mbind outcome_bind].
  set (v1 := set_parser _ v). change (feed_byte A v1 (u8 91)) with
    (Ok (set_parser (with_state VT_STATE_CSI (parser_reset (parser v1))) v1)). cbn [mbind outcome_bind].
  set (v2 := set_parser _ v1). rewrite (feed_bytes_app A v2 (dec (row + 1))). unfold dec at 2.
  rewrite (feed_number A 8 v2 (row + 1)); [|done|done|done|unfold PMAX; lia|change (10 ^ Z.of_nat 8) with 100000000; lia|lia].
  cbn [mbind outcome_bind]. set (v3 := set_parser _ v2). cbn [app feed_bytes].
  change (feed_byte A v3 (u8 59)) with (Ok (set_parser (param_next (parser v3)) v3)). cbn [mbind outcome_bind].
  set (v4 := set_parser _ v3). rewrite (feed_bytes_app A v4 (dec (col + 1))). unfold dec.
  rewrite (feed_number A 8 v4 (col + 1)); [|done|done|done|unfold PMAX; lia|change (10 ^ Z.of_nat 8) with 100000000; lia|lia].
  cbn [mbind outcome_bind]. set (v5 := set_parser _ v4). cbn [feed_bytes].
  assert (dispatch_csi A v5 72 = Ok (cursor_move v5 col row)) as Hd.
  { unfold dispatch_csi. assert (param v5 0 1 = Ok (row + 1)) as ->.
    { unfold param. simpl. by rewrite (proj2 (Z.eqb_neq (row + 1) 0)) by lia. }
    assert (param v5 1 1 = Ok (col + 1)) as ->.
    { unfold param. simpl. by rewrite (proj2 (Z.eqb_neq (col + 1) 0)) by lia. }
    cbn [mbind outcome_bind]. simpl. do 2 f_equal; lia. }
  change (feed_byte A v5 (u8 72)) with
    (v ← dispatch_csi A v5 72; Ok (set_parser (with_state VT_STATE_GROUND (parser v)) v)).
  rewrite Hd. cbn [mbind outcome_bind]. apply wp_ok. unfold vt100_cursor_col, vt100_cursor_row. simpl.
  rewrite (proj2 (Z.ltb_ge col 0)), (proj2 (Z.leb_gt _ col)), (proj2 (Z.ltb_ge row 0)), (proj2 (Z.leb_gt _ row)) by lia.
  done.
Qed.

(** A terminal of four columns and two rows. *)
Definition small_vt : Vt100 :=
  match vt100_new plain 0 4 2 3 with Ok (Some v) => v
  | _ => mkVt (mkScreen 0 0 [] [] false) (mkCursor 0 0 0 0 0 0 false) 0 0 cell_blank
           (mkModes false true false true false) rest (mkBack None 0 0 0) 0 end.
Lemma small_vt_new : is_new small_vt 4 2 3.
Proof.
  destruct (vt100_new_ok plain 0 4 2 3) as (o & Ho & Hn); [unfold DIM; lia|unfold DIM; lia|lia|].
  assert (∃ v, o = Some v) as (v & ->).
  { assert (is_Some (match vt100_new plain 0 4 2 3 with Ok o => o | _ => None end)) as (v & Hv)
      by (vm_compute; eauto). rewrite Ho in Hv. eauto. }
  unfold small_vt. by rewrite Ho.
Qed.

Lemma vt100_cursor_address_roundtrip_witness :
  vt100_feed plain small_vt (cup 3 1) (zlen (cup 3 1)) ⇓ λ v',
    vt100_cursor_col v' = 3 ∧ vt100_cursor_row v' = 1 ∧ pending_wrap (cur v') = false ∧
    scr v' = scr small_vt ∧ back v' = back small_vt ∧ current_attr v' = current_attr small_vt ∧
    parse_state (parser v') = VT_STATE_GROUND.
Proof.
  destruct small_vt_new as [Hw (Hc & Hr & _) _ _ _ _ _ (Hp & _)].
  apply vt100_cursor_address_roundtrip; [exact Hw|exact Hp|rewrite Hc; lia|rewrite Hr; lia].
Defined.

(** * Scrolling *)

(** A line feed on the last line of the scrolling region moves the lines up, blanks the last one
    and puts the first one at the head of the scrollback. *)
Theorem vt100_scroll_to_history A v ls :
  wf v → parse_state (parser v) = VT_STATE_GROUND → use_alt (scr v) = false →
  cursor_row (cur v) = scroll_bot v → back_repr (back v) ls → sb_cap (back v) ≠ 0 →
  avail A (reqs v) (16 * cols (scr v)) = true →
  vt100_feed A v [10] 1 ⇓ λ v',
    vt100_cursor_row v' = scroll_bot v ∧
    (∀ x y, 0 ≤ x < cols (scr v) → 0 ≤ y < rows (scr v) →
       cell_at (scr v') x y =
         if decide (y = scroll_bot v) then Some (blank_of v)
         else if decide (scroll_top v ≤ y < scroll_bot v) then cell_at (scr v) x (y + 1)
         else cell_at (scr v) x y) ∧
    vt100_scrollback_line v' 0 = Ok (Some (row_cells v (scroll_top v), cols (scr v))) ∧
    ∀ i, 0 ≤ i < zlen ls → i + 1 < sb_cap (back v) →
      vt100_scrollback_line v' (i + 1) = vt100_scrollback_line v i.
Proof.
  intros Hw Hst Hua Hrow Hb Hcap Hav. change 1 with (zlen [10]) at 1. rewrite feed_is_fold.
  pose proof (wf_region _ Hw) as Hg. pose proof (wf_scr _ Hw) as Hs. cbn [feed_bytes].
  assert (feed_byte A v (u8 10) = scroll_up A v (scroll_top v) (scroll_bot v) 1) as ->.
  { unfold feed_byte. rewrite Hst. change (feed_ground A v (u8 10)) with (cursor_next_line A v).
    unfold cursor_next_line. by rewrite Hrow, Z.eqb_refl. }
  apply wp_bind. eapply wp_mono; [apply (scroll_up_ok A v ls); [done|done|lia|lia|unfold PMAX; lia]|].
  intros v' (b & k & Hp & (ls' & Hb' & Hls) & Hat). apply wp_ok. rewrite (Hls eq_refl Hua) in Hb'. clear Hls ls'.
  destruct (painted_rest _ _ Hp) as (Hcur & _ & _ & _ & _ & _ & Hbk & _). simpl in Hcur, Hbk.
  assert (zlen (row_cells v (scroll_top v)) = cols (scr v)) as Hrc.
  { unfold row_cells. pose proof (zlen_active _ Hs). pose proof (wf_cols _ Hs).
    rewrite zlen_take, zlen_drop by nia. nia. }
  unfold pushed in Hb'. rewrite (proj2 (Z.eqb_neq _ _) Hcap), Hav in Hb'.
  set (old := if zlen ls =? sb_cap (back v) then tail ls else ls) in *. set (line := row_cells v (scroll_top v)) in *.
  rewrite <-Hbk in Hb'. pose proof (zlen_nonneg old) as Hold.
  assert (zlen (old ++ [line]) = zlen old + 1) as Hlen by (rewrite zlen_app; done).
  split; [unfold vt100_cursor_row; by rewrite Hcur|]. split; [|split].
  - intros x y Hx Hy. rewrite Hat by done. unfold up_cell.
    destruct (decide (scroll_bot v - 1 < y ≤ scroll_bot v)); destruct (decide (y = scroll_bot v));
      try done; try lia.
    destruct (decide (scroll_top v ≤ y ∧ y + 1 ≤ scroll_bot v)); destruct (decide (scroll_top v ≤ y < scroll_bot v));
      done || lia.
  - rewrite (scrollback_line_ok v' (old ++ [line]) 0 line), Hrc; [done|done|lia|].
    rewrite Hlen. replace (Z.to_nat (zlen old + 1 - 1 - 0)) with (length old) by (unfold zlen; lia).
    by rewrite list_lookup_middle.
  - intros i Hi Hic.
    destruct (lookup_lt_is_Some_2 ls (Z.to_nat (zlen ls - 1 - i))) as [l Hl]; [unfold zlen in *; lia|].
    assert (old !! Z.to_nat (zlen old - 1 - i) = Some l ∧ i < zlen old) as (Hl' & Hio).
    { unfold old. destruct (Z.eqb_spec (zlen ls) (sb_cap (back v))) as [Hf|Hf]; [|split; [done|lia]].
      destruct ls as [|a ls]; [unfold zlen in Hi; simpl in Hi; lia|]. simpl. rewrite zlen_cons in *.
      split; [|lia]. rewrite <-Hl. replace (Z.to_nat (zlen ls + 1 - 1 - i)) with (S (Z.to_nat (zlen ls - 1 - i))) by lia. done. }
    rewrite (scrollback_line_ok v ls i l Hb Hi Hl).
    apply (scrollback_line_ok v' (old ++ [line]) (i + 1) l); [done|lia|].
    rewrite Hlen. replace (Z.to_nat (zlen old + 1 - 1 - (i + 1))) with (Z.to_nat (zlen old - 1 - i)) by lia.
    by apply lookup_app_l_Some.
Qed.

Lemma vt100_scroll_to_history_witness :
  let v := set_cur (set_row 1 (cur small_vt)) small_vt in
  vt100_feed plain v [10] 1 ⇓ λ v',
    vt100_cursor_row v' = scroll_bot v ∧
    (∀ x y, 0 ≤ x < cols (scr v) → 0 ≤ y < rows (scr v) →
       cell_at (scr v') x y =
         if decide (y = scroll_bot v) then Some (blank_of v)
         else if decide (scroll_top v ≤ y < scroll_bot v) then cell_at (scr v) x (y + 1)
         else cell_at (scr v) x y) ∧
    vt100_scrollback_line v' 0 = Ok (Some (row_cells v (scroll_top v), cols (scr v))) ∧
    ∀ i, 0 ≤ i < zlen ([] : list (list VtCell)) → i + 1 < sb_cap (back v) →
      vt100_scrollback_line v' (i + 1) = vt100_scrollback_line v i.
Proof.
  destruct small_vt_new as [Hw (Hc & Hr & Hu) _ Hcur (_ & Hb) _ _ (Hp & _)]. cbv zeta.
  assert (back small_vt = mkBack (Some (replicate 3 (mkLine None 0))) 3 0 0) as Hbk by (vm_compute; reflexivity).
  revert Hw Hc Hr Hu Hcur Hb Hp Hbk. generalize small_vt as v. intros v Hw Hc Hr Hu Hcur Hb Hp Hbk.
  apply vt100_scroll_to_history.
  - apply set_cur_keeps; [exact Hw|simpl; rewrite Hcur, Hc; simpl; lia|simpl; rewrite Hr; lia].
  - exact Hp.
  - exact Hu.
  - simpl. rewrite Hb. reflexivity.
  - simpl. rewrite Hbk. split_and!; [reflexivity|simpl; lia|reflexivity|].
    apply Ring.holds_nil; simpl; [vm_compute; split; congruence|lia].
  - simpl. rewrite Hbk. simpl. lia.
  - simpl. rewrite Hc. reflexivity.
Defined.

(** * What the terminal does not do *)

(** The '?' of a private mode ends the control sequence, so the rest of it is
    printed as text. *)
Lemma private_prefix_dropped p :
  parse_state p = VT_STATE_GROUND →
  ∃ p', parse_bytes p [27; 91; 63] = Ok p' ∧ parse_state p' = VT_STATE_GROUND ∧ param_count p' = 0.
Proof.
  intros Hst. cbn [parse_bytes].
  assert (parse_byte p (u8 27) = Ok (with_state VT_STATE_ESCAPE (parser_reset p))) as ->
    by (unfold parse_byte; by rewrite Hst).
  eexists. split; [reflexivity|done].
Qed.

(** No '?' is ever among the intermediate characters. *)
Definition no_mark (p : Parser) : Prop := Forall (λ c, c ≠ 63) (interm p).

Lemma parse_byte_no_mark p c p' : no_mark p → parse_byte p c = Ok p' → no_mark p'.
Proof.
  intros Hn. assert (no_mark (parser_reset p)) as Hreset by (repeat constructor; lia).
  assert (∀ q, push_interm p c = Ok q → c ≤ 47 → no_mark q) as Hpush.
  { intros q. unfold push_interm, zset. destruct (_ <? _); [|by intros [= <-]].
    case_decide; simpl; [|done]. intros [= <-] Hc. unfold no_mark. simpl. apply Forall_insert; [done|lia]. }
  unfold parse_byte. destruct (parse_state p).
  - intros [= <-]. by destruct (c =? 27).
  - destruct (c =? 91); [by intros [= <-]|]. destruct (_ || _); [by intros [= <-]|].
    destruct ((32 <=? c) && (c <=? 47)) eqn:E; [|by intros [= <-]].
    apply andb_prop in E as (_ & E%Z.leb_le). intros H. by apply Hpush.
  - destruct ((48 <=? c) && (c <=? 57)).
    { unfold param_push_digit. intros H. repeat (destruct (zget _ _) || destruct (int _) || destruct (zset _ _)); simplify_eq/=; try done. 
      all: repeat match goal with H : context [int ?x] |- _ => destruct (int x); simplify_eq/=; try done
                 | H : context [zset ?x ?y ?z] |- _ => destruct (zset x y z); simplify_eq/=; try done end. }
    destruct (_ || _); [by intros [= <-]|].
    destruct ((32 <=? c) && (c <=? 47)) eqn:E.
    { apply andb_prop in E as (_ & E%Z.leb_le). intros H. by apply Hpush. }
    destruct (c =? 27); by intros [= <-].
  - unfold feed_osc, osc_esc. intros H.
    destruct (if 0 <? osc_len p then _ else _) as [esc| |]; simplify_eq/=.
    destruct (_ || _).
    + destruct (zset (osc_buf p) _ 0); simplify_eq/=; done.
    + destruct (_ <? _); [|by simplify_eq]. destruct (zset (osc_buf p) _ c); simplify_eq/=; done.
Qed.

(** So [CSI h] and [CSI l] never see a private mode, whatever was fed. *)
Lemma never_private A v bs :
  wf v → no_mark (parser v) → tame (parser v) bs = true →
  feed_bytes A v bs ⇓ λ v', is_private v' = Ok false.
Proof.
  intros Hw Hn Ht. eapply wp_mono; [by apply feed_bytes_ok|]. intros v' (Hw' & Hp').
  assert (∀ p q, no_mark p → parse_bytes p bs = Ok q → no_mark q) as Hkeep.
  { clear. induction bs as [|c bs IH]; intros p q Hp; simpl; [by intros [= <-]|].
    destruct (parse_byte p (u8 c)) as [p1| |] eqn:E; simpl; [|done|done].
    apply IH. by eapply parse_byte_no_mark. }
  specialize (Hkeep _ _ Hn Hp'). unfold is_private.
  destruct (Z.ltb_spec 0 (interm_count (parser v'))); [|done].
  pose proof (wf_parse _ Hw') as [_ _ _ Hi _ _ _]. unfold MAX_INTERM in Hi.
  destruct (zget_in (interm (parser v')) 0) as [x Hx]; [lia|]. rewrite (zget_ok _ _ x) by done. simpl.
  pose proof (Forall_lookup_1 _ _ _ _ Hkeep Hx) as Hne. by rewrite (proj2 (Z.eqb_neq x 63)).
Qed.

(** Scrolling by more than the region is high clears rows above the region,
    and deleting lines from below the region clears inside of it. *)
Lemma scroll_up_clears_above A v ls top bot n x y :
  wf_screen (scr v) → back_repr (back v) ls → 0 ≤ top < rows (scr v) → top ≤ bot < rows (scr v) →
  1 ≤ n ≤ PMAX → 0 ≤ x < cols (scr v) → 0 ≤ y < top → bot - y < n →
  scroll_up A v top bot n ⇓ λ v', cell_at (scr v') x y = Some (blank_of v).
Proof.
  intros Hs Hb Ht Hbt Hn Hx Hy Hbig.
  eapply wp_mono; [apply (scroll_up_ok A v ls); [done|done|lia|lia|done]|].
  intros v' (b & k & _ & _ & Hat). rewrite Hat by lia. unfold up_cell. by rewrite decide_True by lia.
Qed.

Lemma scroll_down_clears_below v top bot n x y :
  wf_screen (scr v) → 0 ≤ top ≤ bot → bot < rows (scr v) → 1 ≤ n ≤ PMAX →
  0 ≤ x < cols (scr v) → bot < y < rows (scr v) → y - top < n →
  scroll_down v top bot n ⇓ λ v', cell_at (scr v') x y = Some (blank_of v).
Proof.
  intros Hs Ht Hb Hn Hx Hy Hbig.
  eapply wp_mono; [apply scroll_down_ok; [done|lia|lia|done]|].
  intros v' (_ & Hat). rewrite Hat by lia. unfold down_cell. by rewrite decide_True by lia.
Qed.

End Vt100Claims.
