(* ===== verification/ImageBmp.v ===== *)
(** The BMP decoder of the image viewer (apps/image_viewer/decode_bmp.c).

    [data] is the file in memory, [data_len] its length; pixels, palette and
    file are lists, a pointer into one of them is an offset.  The requests to
    the allocator are numbered from [k] on. *)
From stdpp Require Import base list.
From S2P Require Import Prelude.
From S2P Require Import CLib.

Module ImageBmp.

Definition BMP_SIGNATURE : Z := 0x4D42.
Definition BI_RGB : Z := 0.
Definition BI_RLE8 : Z := 1.
Definition BI_RLE4 : Z := 2.
Definition BI_BITFIELDS : Z := 3.
Definition BI_ALPHABITFIELDS : Z := 6.

(** * Data *)
Record DibHeader := mkDib {
  header_size : Z; width : Z; height : Z; planes : Z; bit_count : Z; compression : Z;
  image_size : Z; x_pels_per_meter : Z; y_pels_per_meter : Z; clr_used : Z; clr_important : Z;
  red_mask : Z; green_mask : Z; blue_mask : Z; alpha_mask : Z }.

Record BmpImage := mkBmp { pixels : list Z; img_width : Z; img_height : Z; bit_depth : Z }.

Definition set_masks (r g b a : Z) (d : DibHeader) : DibHeader :=
  mkDib (header_size d) (width d) (height d) (planes d) (bit_count d) (compression d)
    (image_size d) (x_pels_per_meter d) (y_pels_per_meter d) (clr_used d) (clr_important d) r g b a.

(** * Little-endian reads

    [p[3] << 24] is taken modulo 2^32, as the compiler defines it. *)
Definition read_u16 (p : list Z) (off : Z) : outcome Z :=
  p0 ← zget p off; p1 ← zget p (off + 1);
  Ok (u16 (Z.lor p0 (Z.shiftl p1 8))).

Definition read_u32 (p : list Z) (off : Z) : outcome Z :=
  p0 ← zget p off; p1 ← zget p (off + 1); p2 ← zget p (off + 2); p3 ← zget p (off + 3);
  Ok (u32 (Z.lor (Z.lor (Z.lor p0 (Z.shiftl p1 8)) (Z.shiftl p2 16)) (Z.shiftl p3 24))).

Definition read_i32 (p : list Z) (off : Z) : outcome Z := v ← read_u32 p off; Ok (i32 v).

(** [((uint32_t)a << 24) | ((uint32_t)r << 16) | ((uint32_t)g << 8) | b] *)
Definition argb (a r g b : Z) : Z :=
  Z.lor (Z.lor (Z.lor (u32 (Z.shiftl a 24)) (u32 (Z.shiftl r 16))) (u32 (Z.shiftl g 8))) b.

(** * Masks *)
Definition mask_shift (mask : Z) : outcome Z :=
  if mask =? 0 then Ok 0
  else loop 33 (λ '(mask, shift),
    if Z.land mask 1 =? 0 then Ok (inl (Z.shiftr mask 1, shift + 1)) else Ok (inr shift)) (mask, 0).

Definition mask_bits (mask : Z) : outcome Z :=
  loop 33 (λ '(mask, bits),
    if mask =? 0 then Ok (inr bits) else Ok (inl (Z.shiftr mask 1, bits + Z.land mask 1))) (mask, 0).

Definition extract_channel (pixel mask : Z) : outcome Z :=
  if mask =? 0 then Ok 255
  else
    shift ← mask_shift mask; bits ← mask_bits mask;
    let val := Z.shiftr (Z.land pixel mask) shift in
    if 8 <=? bits then Ok (u8 (Z.shiftr val (bits - 8)))
    else if bits =? 0 then Ok 0
    else q ← udiv (u32 (val * 255)) (u32 (u32 (Z.shiftl 1 bits) - 1)); Ok (u8 q).

(** * Row decoders

    [row] is the offset of the row in [data], [dst] that of its pixels. *)
Definition decode_row_1bpp (data : list Z) (row : Z) (px : list Z) (dst width : Z)
    (palette : option (list Z)) : outcome (list Z) :=
  for_each 0 width (λ x px,
    let byte_idx := x `quot` 8 in
    let bit_idx := 7 - x `rem` 8 in
    b ← zget data (row + byte_idx);
    let idx := Z.land (Z.shiftr b bit_idx) 1 in
    c ← match palette with
        | Some p => zget p idx
        | None => Ok (if idx =? 0 then 0xFF000000 else 0xFFFFFFFF)
        end;
    zset px (dst + x) c) px.

Definition decode_row_4bpp (data : list Z) (row : Z) (px : list Z) (dst width : Z)
    (palette : option (list Z)) : outcome (list Z) :=
  for_each 0 width (λ x px,
    b ← zget data (row + x `quot` 2);
    let idx := if x `rem` 2 =? 0 then Z.land (Z.shiftr b 4) 15 else Z.land b 15 in
    c ← match palette with Some p => zget p (Z.land idx 15) | None => Ok 0xFF000000 end;
    zset px (dst + x) c) px.

Definition decode_row_8bpp (data : list Z) (row : Z) (px : list Z) (dst width : Z)
    (palette : option (list Z)) : outcome (list Z) :=
  for_each 0 width (λ x px,
    idx ← zget data (row + x);
    c ← match palette with Some p => zget p idx | None => Ok 0xFF000000 end;
    zset px (dst + x) c) px.

(** The channels of a pixel under four masks, as both mask modes compute them. *)
Definition masked_pixel (px r_mask g_mask b_mask a_mask : Z) : outcome Z :=
  r ← extract_channel px r_mask;
  g ← extract_channel px g_mask;
  b ← extract_channel px b_mask;
  a ← (if a_mask =? 0 then Ok 255 else extract_channel px a_mask);
  Ok (argb a r g b).

Definition decode_row_16bpp (data : list Z) (row : Z) (px : list Z) (dst width : Z)
    (r_mask g_mask b_mask a_mask : Z) : outcome (list Z) :=
  for_each 0 width (λ x px,
    v ← read_u16 data (row + x * 2);
    c ← masked_pixel v r_mask g_mask b_mask a_mask;
    zset px (dst + x) c) px.

Definition decode_row_24bpp (data : list Z) (row : Z) (px : list Z) (dst width : Z)
  : outcome (list Z) :=
  for_each 0 width (λ x px,
    b ← zget data (row + x * 3); g ← zget data (row + x * 3 + 1); r ← zget data (row + x * 3 + 2);
    zset px (dst + x) (argb 255 r g b)) px.

Definition decode_row_32bpp (data : list Z) (row : Z) (px : list Z) (dst width : Z)
    (r_mask g_mask b_mask a_mask : Z) : outcome (list Z) :=
  for_each 0 width (λ x px,
    v ← read_u32 data (row + x * 4);
    c ← (if (r_mask =? 0) && (g_mask =? 0) && (b_mask =? 0) then
           let b := Z.land v 255 in
           let g := Z.land (Z.shiftr v 8) 255 in
           let r := Z.land (Z.shiftr v 16) 255 in
           let a := Z.land (Z.shiftr v 24) 255 in
           let a := if a =? 0 then 255 else a in
           Ok (argb a r g b)
         else masked_pixel v r_mask g_mask b_mask a_mask);
    zset px (dst + x) c) px.

(** * Run-length decoders *)

(** [palette ? palette[idx] : 0xFF000000] *)
Definition rle_colour (palette : option (list Z)) (idx : Z) : outcome Z :=
  match palette with Some p => zget p idx | None => Ok 0xFF000000 end.

(** [if (x < width && y >= 0 && y < height) dst[y * width + x] = ...; x++] *)
Definition rle_put (width height y : Z) (colour : outcome Z) (s : Z * list Z)
  : outcome (Z * list Z) :=
  let '(x, px) := s in
  px ← (if (x <? width) && (0 <=? y) && (y <? height)
        then c ← colour; zset px (y * width + x) c else Ok px);
  x ← int (x + 1);
  Ok (x, px).

(** One round of the loop of [decode_rle4]: [i] is the offset in the source,
    which starts at [src] of [data]. *)
Definition rle4_step (data : list Z) (src src_len width height : Z) (palette : option (list Z))
    (s : Z * Z * Z * list Z) : outcome ((Z * Z * Z * list Z) + list Z) :=
  let '(i, x, y, px) := s in
  if negb ((i <? src_len) && (0 <=? y)) then Ok (inr px)
  else
    b0 ← zget data (src + i);
    let i := u64 (i + 1) in
    if src_len <=? i then Ok (inr px)
    else
      b1 ← zget data (src + i);
      let i := u64 (i + 1) in
      if b0 =? 0 then
        if b1 =? 0 then y ← int (y - 1); Ok (inl (i, 0, y, px))
        else if b1 =? 1 then Ok (inr px)
        else if b1 =? 2 then
          if src_len <? u64 (i + 2) then Ok (inr px)
          else
            dx ← zget data (src + i); x ← int (x + dx);
            dy ← zget data (src + u64 (i + 1)); y ← int (y - dy);
            Ok (inl (u64 (i + 2), x, y, px))
        else
          let count := b1 in
          let bytes := (count + 1) `quot` 2 in
          let pad := if bytes `rem` 2 =? 0 then 0 else 1 in
          '(x, px) ← (if i <? src_len then
                        for_each 0 count (λ k s,
                          byte ← zget data (src + u64 (i + k `quot` 2));
                          let idx := if k `rem` 2 =? 0 then Z.land (Z.shiftr byte 4) 15
                                     else Z.land byte 15 in
                          rle_put width height y (rle_colour palette idx) s) (x, px)
                      else Ok (x, px));
          Ok (inl (u64 (i + (bytes + pad)), x, y, px))
      else
        let count := b0 in
        let hi := Z.land (Z.shiftr b1 4) 15 in
        let lo := Z.land b1 15 in
        '(x, px) ← for_each 0 count (λ k s,
                     let idx := if k `rem` 2 =? 0 then hi else lo in
                     rle_put width height y (rle_colour palette idx) s) (x, px);
        Ok (inl (i, x, y, px)).

Definition decode_rle4 (data : list Z) (src src_len : Z) (dst : list Z) (width height : Z)
    (palette : option (list Z)) : outcome (list Z) :=
  y ← int (height - 1);
  loop (S (Z.to_nat src_len)) (rle4_step data src src_len width height palette) (0, 0, y, dst).

Definition rle8_step (data : list Z) (src src_len width height : Z) (palette : option (list Z))
    (s : Z * Z * Z * list Z) : outcome ((Z * Z * Z * list Z) + list Z) :=
  let '(i, x, y, px) := s in
  if negb ((i <? src_len) && (0 <=? y)) then Ok (inr px)
  else
    b0 ← zget data (src + i);
    let i := u64 (i + 1) in
    if src_len <=? i then Ok (inr px)
    else
      b1 ← zget data (src + i);
      let i := u64 (i + 1) in
      if b0 =? 0 then
        if b1 =? 0 then y ← int (y - 1); Ok (inl (i, 0, y, px))
        else if b1 =? 1 then Ok (inr px)
        else if b1 =? 2 then
          if src_len <? u64 (i + 2) then Ok (inr px)
          else
            dx ← zget data (src + i); x ← int (x + dx);
            dy ← zget data (src + u64 (i + 1)); y ← int (y - dy);
            Ok (inl (u64 (i + 2), x, y, px))
        else
          let count := b1 in
          let pad := count `rem` 2 in
          '(i, x, px) ← for_each 0 count (λ k '(i, x, px),
                          if i <? src_len then
                            idx ← zget data (src + i);
                            '(x, px) ← rle_put width height y
                                         (rle_colour palette (Z.land idx 255)) (x, px);
                            Ok (u64 (i + 1), x, px)
                          else Ok (i, x, px)) (i, x, px);
          Ok (inl (if pad =? 0 then i else u64 (i + 1), x, y, px))
      else
        let count := b0 in
        color ← rle_colour palette (Z.land b1 255);
        '(x, px) ← for_each 0 count (λ k s, rle_put width height y (Ok color) s) (x, px);
        Ok (inl (i, x, y, px)).

Definition decode_rle8 (data : list Z) (src src_len : Z) (dst : list Z) (width height : Z)
    (palette : option (list Z)) : outcome (list Z) :=
  y ← int (height - 1);
  loop (S (Z.to_nat src_len)) (rle8_step data src src_len width height palette) (0, 0, y, dst).

Section decoder.
Context (A : allocator).

(** * Palette

    The second result is the number of the next request. *)
Definition read_palette (k : nat) (data : list Z) (data_len palette_offset color_count quad_size : Z)
  : outcome (option (list Z) * nat) :=
  if (color_count <=? 0) || (256 <? color_count) then Ok (None, k)
  else if negb (avail A k (4 * color_count)) then Ok (None, S k)
  else
    pal ← for_each 0 color_count (λ i pal,
      let off := u64 (palette_offset + i * quad_size) in
      if data_len <? u64 (off + quad_size) then zset pal i 0xFF000000
      else
        b ← zget data off; g ← zget data (off + 1); r ← zget data (off + 2);
        a ← (if quad_size =? 4 then zget data (off + 3) else Ok 255);
        zset pal i (argb a r g b)) (fresh A k color_count);
    Ok (Some pal, S k).

(** * Headers *)

(** The header of twelve bytes. *)
Definition read_core (data : list Z) (size : Z) : outcome DibHeader :=
  w ← read_u16 data 18; h ← read_u16 data 20; p ← read_u16 data 22; bc ← read_u16 data 24;
  Ok (mkDib size (sint 16 w) (sint 16 h) p bc BI_RGB 0 0 0 0 0 0 0 0 0).

(** The masks behind a longer header, where there are any. *)
Definition read_masks (data : list Z) (data_len : Z) (d : DibHeader) : outcome DibHeader :=
  '(r, g, b) ← (if (52 <=? header_size d) && (66 <=? data_len) then
                  r ← read_u32 data 54; g ← read_u32 data 58; b ← read_u32 data 62; Ok (r, g, b)
                else Ok (0, 0, 0));
  a ← (if (56 <=? header_size d) && (70 <=? data_len) then read_u32 data 66 else Ok 0);
  '(r, g, b) ← (if (compression d =? BI_BITFIELDS) && (66 <=? data_len) then
                  r ← (if r =? 0 then read_u32 data 54 else Ok r);
                  g ← (if g =? 0 then read_u32 data 58 else Ok g);
                  b ← (if b =? 0 then read_u32 data 62 else Ok b);
                  Ok (r, g, b)
                else Ok (r, g, b));
  a ← (if (compression d =? BI_ALPHABITFIELDS) && (70 <=? data_len)
       then if a =? 0 then read_u32 data 66 else Ok a else Ok a);
  Ok (set_masks r g b a d).

Definition read_info (data : list Z) (data_len size : Z) : outcome DibHeader :=
  w ← read_i32 data 18; h ← read_i32 data 22; p ← read_u16 data 26; bc ← read_u16 data 28;
  comp ← read_u32 data 30; isz ← read_u32 data 34; xp ← read_i32 data 38; yp ← read_i32 data 42;
  used ← read_u32 data 46; imp ← read_u32 data 50;
  read_masks data data_len (mkDib size w h p bc comp isz xp yp used imp 0 0 0 0).

(** The masks the decoder works with. *)
Definition default_masks (d : DibHeader) : DibHeader :=
  if (compression d =? BI_BITFIELDS) || (compression d =? BI_ALPHABITFIELDS) then
    if red_mask d =? 0 then
      if bit_count d =? 16 then set_masks 0x7C00 0x03E0 0x001F (alpha_mask d) d
      else set_masks 0x00FF0000 0x0000FF00 0x000000FF (alpha_mask d) d
    else d
  else if compression d =? BI_RGB then
    if bit_count d =? 16 then set_masks 0x7C00 0x03E0 0x001F 0 d else d
  else d.

(** * Pixels *)
Definition decode_row (data : list Z) (d : DibHeader) (row : Z) (px : list Z) (dst width : Z)
    (palette : option (list Z)) : outcome (list Z) :=
  if bit_count d =? 1 then decode_row_1bpp data row px dst width palette
  else if bit_count d =? 4 then decode_row_4bpp data row px dst width palette
  else if bit_count d =? 8 then decode_row_8bpp data row px dst width palette
  else if bit_count d =? 16 then
    decode_row_16bpp data row px dst width (red_mask d) (green_mask d) (blue_mask d) (alpha_mask d)
  else if bit_count d =? 24 then decode_row_24bpp data row px dst width
  else if bit_count d =? 32 then
    decode_row_32bpp data row px dst width (red_mask d) (green_mask d) (blue_mask d) (alpha_mask d)
  else Ok px.

Definition decode_rows (data : list Z) (data_len pixel_offset : Z) (d : DibHeader) (flip : bool)
    (width height : Z) (palette : option (list Z)) (px : list Z) : outcome (list Z) :=
  w ← int (width * bit_count d);
  let row_bytes_raw := (w + 7) `quot` 8 in
  let row_stride := Z.land (row_bytes_raw + 3) (Z.lnot 3) in
  r ← for_loop 0 height (λ row px,
        let src_row := if flip then height - 1 - row else row in
        let off := u64 (pixel_offset + src_row * row_stride) in
        if data_len <? u64 (off + row_stride) then Ok (inr px)
        else
          dst ← int (row * width);
          px ← decode_row data d off px dst width palette;
          Ok (inl px)) px;
  match r with inl px => Ok px | inr px => Ok px end.

(** The rest of [bmp_decode], behind the headers. *)
Definition decode_image (k : nat) (data : list Z) (data_len pixel_offset : Z) (is_core : bool)
    (d : DibHeader) : outcome (option BmpImage) :=
  let w := width d in
  let flip := negb (height d <? 0) in
  h ← (if height d <? 0 then int (- height d) else Ok (height d));
  if (w <=? 0) || (h <=? 0) then Ok None
  else if (16384 <? w) || (16384 <? h) then Ok None
  else if negb ((bit_count d =? 1) || (bit_count d =? 4) || (bit_count d =? 8) ||
                (bit_count d =? 16) || (bit_count d =? 24) || (bit_count d =? 32)) then Ok None
  else
    palette_offset ← int (14 + i32 (header_size d));
    let quad_size := if is_core then 3 else 4 in
    let palette_count :=
      if bit_count d <=? 8 then
        let n := if 0 <? clr_used d then i32 (clr_used d) else Z.shiftl 1 (bit_count d) in
        if 256 <? n then 256 else n
      else 0 in
    let d := default_masks d in
    '(palette, k) ← (if 0 <? palette_count
                     then read_palette k data data_len (u64 palette_offset) palette_count quad_size
                     else Ok (None, k));
    if negb (avail A k (4 * w * h)) then Ok None
    else
      let px := replicate (Z.to_nat (w * h)) 0xFFFFFFFF in
      px ← (if compression d =? BI_RLE8 then
              decode_rle8 data pixel_offset (data_len - pixel_offset) px w h palette
            else if compression d =? BI_RLE4 then
              decode_rle4 data pixel_offset (data_len - pixel_offset) px w h palette
            else decode_rows data data_len pixel_offset d flip w h palette px);
      if avail A (S k) 24 then Ok (Some (mkBmp px w h (bit_count d))) else Ok None.

(** * Public interface *)
Definition bmp_decode (k : nat) (data : option (list Z)) (data_len : Z) : outcome (option BmpImage) :=
  match data with
  | None => Ok None
  | Some data =>
      if data_len <? 14 then Ok None
      else
        signature ← read_u16 data 0;
        _ ← read_u32 data 2;
        pixel_offset ← read_u32 data 10;
        if negb (signature =? BMP_SIGNATURE) then Ok None
        else if data_len <=? pixel_offset then Ok None
        else if data_len <? 18 then Ok None
        else
          size ← read_u32 data 14;
          let is_core := size =? 12 in
          if is_core then
            if data_len <? 26 then Ok None
            else d ← read_core data size; decode_image k data data_len pixel_offset is_core d
          else
            if data_len <? 54 then Ok None
            else d ← read_info data data_len size; decode_image k data data_len pixel_offset is_core d
  end.

(** [file] is what [fopen] finds: the size [ftell] reports and the bytes
    [fread] delivers. *)
Definition bmp_decode_file (k : nat) (path : bool) (file : option (Z * list Z))
  : outcome (option BmpImage) :=
  if negb path then Ok None
  else
    match file with
    | None => Ok None
    | Some (file_size, bytes) =>
        if (file_size <=? 0) || (64 * 1024 * 1024 <? file_size) then Ok None
        else if negb (avail A k file_size) then Ok None
        else
          let n := Z.min file_size (zlen bytes) in
          data ← c_memcpy (fresh A k file_size) 0 bytes n;
          if n =? file_size then bmp_decode (S k) (Some data) file_size else Ok None
    end.

End decoder.

Definition bmp_get_pixel (img : option BmpImage) (x y : Z) : outcome Z :=
  match img with
  | None => Ok 0
  | Some img =>
      if (x <? 0) || (y <? 0) || (img_width img <=? x) || (img_height img <=? y) then Ok 0
      else i ← int (y * img_width img); i ← int (i + x); zget (pixels img) i
  end.

End ImageBmp.
