(* ===== verification/ImageBmpRows.v ===== *)
(** What a BMP file means: its header fields, palette and pixels as numbers
    read from its bytes, and that the readers of decode_bmp.c compute them. *)
From stdpp Require Import base list.
From S2P Require Import Prelude.
From S2P Require Import KString.
From S2P Require Import Bytes.
From S2P Require Import CLib.
From S2P Require Import ImageBmp.
Import KString Bytes ImageBmp.

Module ImageBmpSpec.

Definition bytes (p : list Z) : Prop := Forall (λ b, 0 ≤ b < 256) p.

(** * Bit operations as arithmetic *)
Lemma lor_shift a b n : 0 ≤ n → 0 ≤ a < 2 ^ n → 0 ≤ b → Z.lor a (Z.shiftl b n) = a + b * 2 ^ n.
Proof.
  intros Hn Ha Hb. rewrite Z.shiftl_mul_pow2 by lia.
  rewrite <-Z.lxor_lor.
  { symmetry. apply Z.add_nocarry_lxor. apply Z.bits_inj'. intros j Hj.
    rewrite Z.land_spec, Z.bits_0. destruct (decide (j < n)).
    - rewrite Z.mul_pow2_bits_low by lia. apply andb_false_r.
    - rewrite <-(Z.mod_small a (2 ^ n)), Z.mod_pow2_bits_high by lia. done. }
  apply Z.bits_inj'. intros j Hj. rewrite Z.land_spec, Z.bits_0. destruct (decide (j < n)).
  - rewrite Z.mul_pow2_bits_low by lia. apply andb_false_r.
  - rewrite <-(Z.mod_small a (2 ^ n)), Z.mod_pow2_bits_high by lia. done.
Qed.

Lemma land_ones_mod v n : 0 ≤ n → Z.land v (2 ^ n - 1) = v mod 2 ^ n.
Proof. intros. rewrite <-Z.land_ones by done. f_equal. rewrite Z.ones_equiv. lia. Qed.

Lemma argb_val a r g b :
  0 ≤ a < 256 → 0 ≤ r < 256 → 0 ≤ g < 256 → 0 ≤ b < 256 →
  argb a r g b = a * 2 ^ 24 + r * 2 ^ 16 + g * 2 ^ 8 + b.
Proof.
  intros Ha Hr Hg Hb. unfold argb. rewrite !Z.shiftl_mul_pow2 by lia.
  rewrite !u32_small by lia. rewrite <-!Z.shiftl_mul_pow2 by lia.
  rewrite (Z.lor_comm _ b), (Z.lor_comm _ (Z.shiftl g 8)), (Z.lor_comm _ (Z.shiftl r 16)).
  rewrite !Z.lor_assoc. rewrite (lor_shift b g) by lia. rewrite (lor_shift _ r) by lia.
  rewrite (lor_shift _ a) by lia. rewrite !Z.shiftl_mul_pow2 by lia. lia.
Qed.

Lemma argb_range a r g b :
  0 ≤ a < 256 → 0 ≤ r < 256 → 0 ≤ g < 256 → 0 ≤ b < 256 → 0 ≤ argb a r g b < 2 ^ 32.
Proof. intros. rewrite argb_val by done. lia. Qed.

(** * Fields *)
Lemma bytes_at p i b : bytes p → p !! i = Some b → 0 ≤ b < 256.
Proof. intros Hp Hi. by apply (Forall_lookup_1 _ _ _ _ Hp Hi). Qed.

Lemma zget_field p off : 0 ≤ off → off < zlen p → zget p off = Ok (field 1 p off).
Proof.
  intros H0 H1. pose proof (load_le_ok 1 p off H0 ltac:(lia)) as Hl. cbn [load_le] in Hl.
  destruct (zget_in p off) as [b Hb]; [lia|]. rewrite (zget_ok _ _ _ H0 Hb) in *. simpl in Hl.
  by rewrite Z.add_0_r in Hl.
Qed.

Lemma field_split n p off :
  0 ≤ off → off + Z.of_nat (S n) ≤ zlen p → field (S n) p off = field 1 p off + 256 * field n p (off + 1).
Proof.
  intros H0 H1. pose proof (load_le_ok (S n) p off H0 H1) as Hl. cbn [load_le] in Hl.
  rewrite zget_field in Hl by lia. simpl in Hl. rewrite load_le_ok in Hl by lia. simpl in Hl. by injection Hl.
Qed.

Lemma byte_range p off : bytes p → 0 ≤ field 1 p off < 256.
Proof. intros Hp. apply (field_range 1 p off Hp). Qed.

Lemma field_0 p off : field 0 p off = 0.
Proof. done. Qed.

Lemma read_u16_ok p off :
  bytes p → 0 ≤ off → off + 2 ≤ zlen p → read_u16 p off = Ok (field 2 p off).
Proof.
  intros Hp H0 H1. unfold read_u16. rewrite !zget_field by lia. simpl. f_equal.
  pose proof (byte_range p off Hp). pose proof (byte_range p (off + 1) Hp).
  rewrite lor_shift, u16_small by lia. rewrite (field_split 1) by lia. lia.
Qed.

Lemma read_u32_ok p off :
  bytes p → 0 ≤ off → off + 4 ≤ zlen p → read_u32 p off = Ok (field 4 p off).
Proof.
  intros Hp H0 H1. unfold read_u32. rewrite !zget_field by lia. simpl. f_equal.
  pose proof (byte_range p off Hp). pose proof (byte_range p (off + 1) Hp).
  pose proof (byte_range p (off + 2) Hp). pose proof (byte_range p (off + 3) Hp).
  rewrite (lor_shift (field 1 p off)) by lia. rewrite (lor_shift _ (field 1 p (off + 2))) by lia.
  rewrite (lor_shift _ (field 1 p (off + 3))) by lia. rewrite u32_small by lia.
  rewrite (field_split 3), (field_split 2), (field_split 1) by lia.
  replace (off + 1 + 1) with (off + 2) by lia. replace (off + 2 + 1) with (off + 3) by lia. lia.
Qed.

Lemma read_i32_ok p off :
  bytes p → 0 ≤ off → off + 4 ≤ zlen p → read_i32 p off = Ok (i32 (field 4 p off)).
Proof. intros. unfold read_i32. by rewrite read_u32_ok. Qed.

Lemma field4_range p off : bytes p → 0 ≤ field 4 p off < 2 ^ 32.
Proof. intros Hp. apply (field_range 4 p off Hp). Qed.
Lemma field2_range p off : bytes p → 0 ≤ field 2 p off < 2 ^ 16.
Proof. intros Hp. apply (field_range 2 p off Hp). Qed.

(** * The header *)
Definition dib_size (data : list Z) : Z := field 4 data 14.
Definition pixel_offset (data : list Z) : Z := field 4 data 10.

Definition dib (data : list Z) (len : Z) : DibHeader :=
  let size := dib_size data in
  if size =? 12 then
    mkDib size (sint 16 (field 2 data 18)) (sint 16 (field 2 data 20)) (field 2 data 22)
      (field 2 data 24) BI_RGB 0 0 0 0 0 0 0 0 0
  else
    let comp := field 4 data 30 in
    let mask ok n off := if (ok : bool) && (n <=? len) then field 4 data off else 0 in
    mkDib size (i32 (field 4 data 18)) (i32 (field 4 data 22)) (field 2 data 26) (field 2 data 28)
      comp (field 4 data 34) (i32 (field 4 data 38)) (i32 (field 4 data 42)) (field 4 data 46)
      (field 4 data 50)
      (mask ((52 <=? size) || (comp =? BI_BITFIELDS)) 66 54)
      (mask ((52 <=? size) || (comp =? BI_BITFIELDS)) 66 58)
      (mask ((52 <=? size) || (comp =? BI_BITFIELDS)) 66 62)
      (mask ((56 <=? size) || (comp =? BI_ALPHABITFIELDS)) 70 66).

Lemma read_core_ok data len :
  bytes data → 26 ≤ zlen data → dib_size data = 12 → read_core data 12 = Ok (dib data len).
Proof.
  intros Hb Hl Hs. unfold read_core, dib. rewrite Hs. rewrite !read_u16_ok by (done || lia). done.
Qed.

Lemma read_masks_ok data len d :
  bytes data → 54 ≤ len ≤ zlen data →
  read_masks data len d = Ok (
    let mask ok n off := if (ok : bool) && (n <=? len) then field 4 data off else 0 in
    let rgb := (52 <=? header_size d) || (compression d =? BI_BITFIELDS) in
    set_masks (mask rgb 66 54) (mask rgb 66 58) (mask rgb 66 62)
      (mask ((56 <=? header_size d) || (compression d =? BI_ALPHABITFIELDS)) 70 66) d).
Proof.
  intros Hb Hl. unfold read_masks.
  assert (∀ x off, 0 ≤ off → off + 4 ≤ zlen data → x = field 4 data off ∨ x = 0 →
    (if x =? 0 then read_u32 data off else Ok x) = Ok (field 4 data off)) as Hre.
  { intros x off ? ? Hx. destruct (Z.eqb_spec x 0); [by apply read_u32_ok|]. by destruct Hx as [->| ->]. }
  destruct (Z.leb_spec 66 len).
  - rewrite (read_u32_ok data 54), (read_u32_ok data 58), (read_u32_ok data 62) by (done || lia).
    destruct (Z.leb_spec 70 len).
    + rewrite (read_u32_ok data 66) by (done || lia).
      destruct (52 <=? header_size d), (56 <=? header_size d), (compression d =? BI_BITFIELDS),
        (compression d =? BI_ALPHABITFIELDS); simpl; repeat case_match; try done;
        repeat match goal with H : (_ =? 0) = true |- _ => apply Z.eqb_eq in H end; congruence.
    + rewrite !andb_false_r. destruct (52 <=? header_size d), (compression d =? BI_BITFIELDS);
        simpl; repeat case_match; try done;
        repeat match goal with H : (_ =? 0) = true |- _ => apply Z.eqb_eq in H end; congruence.
  - destruct (Z.leb_spec 70 len); [lia|]. rewrite !andb_false_r. done.
Qed.

Lemma read_info_ok data len :
  bytes data → 54 ≤ len ≤ zlen data → dib_size data ≠ 12 →
  read_info data len (dib_size data) = Ok (dib data len).
Proof.
  intros Hb Hl Hs. unfold read_info. rewrite !read_i32_ok, !read_u16_ok, !read_u32_ok by (done || lia).
  cbn [mbind outcome_bind]. rewrite read_masks_ok by done. unfold dib.
  by rewrite (proj2 (Z.eqb_neq _ _) Hs).
Qed.

(** The number of palette entries and the bytes of each. *)
Definition palette_count (d : DibHeader) : Z :=
  if bit_count d <=? 8
  then let n := if 0 <? clr_used d then i32 (clr_used d) else 2 ^ bit_count d in
       if 256 <? n then 256 else n
  else 0.
Definition quad_size (d : DibHeader) : Z := if header_size d =? 12 then 3 else 4.

(** Entry [i] of the palette as the decoder takes it: opaque black where the file
    ends before it, with the fourth byte as its alpha, opaque when an entry has three bytes. *)
Definition palette_entry (data : list Z) (len : Z) (d : DibHeader) (i : Z) : Z :=
  let off := 14 + header_size d + i * quad_size d in
  if off + quad_size d <=? len then
    if quad_size d =? 4 then field 4 data off else 255 * 2 ^ 24 + field 3 data off
  else 255 * 2 ^ 24.

Definition palette_of (data : list Z) (len : Z) (d : DibHeader) : list Z :=
  map (λ i, palette_entry data len d (Z.of_nat i)) (seq 0 (Z.to_nat (palette_count d))).

(** * Channels *)

(** The lowest set bit of a mask and the number of bits from there up. *)
Definition low (m : Z) : Z :=
  match list_find (λ j, Z.testbit m (Z.of_nat j) = true) (seq 0 32) with
  | Some (_, j) => Z.of_nat j
  | None => 0
  end.
Definition mask_width (m : Z) : Z := Z.log2 m + 1 - low m.

Definition contiguous (m : Z) : Prop :=
  m = 0 ∨ ∃ s n, 0 ≤ s ∧ 1 ≤ n ∧ s + n ≤ 32 ∧ m = (2 ^ n - 1) * 2 ^ s.

(** An [n]-bit intensity on the scale of 0 to 255. *)
Definition scaled (n c : Z) : Z := if 8 <=? n then c / 2 ^ (n - 8) else c * 255 / (2 ^ n - 1).

Definition channel (v m : Z) : Z :=
  if m =? 0 then 255 else scaled (mask_width m) (v / 2 ^ low m mod 2 ^ mask_width m).

(** * The colour of a pixel

    [row] is the offset of its row in the file, [x] its column. *)
Definition colour (data : list Z) (d : DibHeader) (pal : option (list Z)) (row x : Z) : Z :=
  let bc := bit_count d in
  if bc <=? 8 then
    let idx := field 1 data (row + x * bc / 8) / 2 ^ (8 - bc - (x * bc) mod 8) mod 2 ^ bc in
    match pal with
    | Some p => default 0 (p !! Z.to_nat idx)
    | None => if (bc =? 1) && (idx =? 1) then 0xFFFFFFFF else 0xFF000000
    end
  else if bc =? 24 then 255 * 2 ^ 24 + field 3 data (row + 3 * x)
  else
    let v := if bc =? 16 then field 2 data (row + 2 * x) else field 4 data (row + 4 * x) in
    if (bc =? 32) && (red_mask d =? 0) && (green_mask d =? 0) && (blue_mask d =? 0)
    then if v <? 2 ^ 24 then 255 * 2 ^ 24 + v else v
    else channel v (alpha_mask d) * 2 ^ 24 + channel v (red_mask d) * 2 ^ 16 +
         channel v (green_mask d) * 2 ^ 8 + channel v (blue_mask d).

(** The bytes of a row, a multiple of four. *)
Definition stride (d : DibHeader) : Z := (width d * bit_count d + 31) / 32 * 4.

End ImageBmpSpec.

(** The pixels of an uncompressed BMP file: masks, palettes and rows. *)
Import KString Bytes ImageBmp ImageBmpSpec.

Module ImageBmpRows.

(** * Masks *)
Lemma shiftr1_lt m k : 0 ≤ k → m < 2 ^ (k + 1) → Z.shiftr m 1 < 2 ^ k.
Proof.
  intros Hk Hm. rewrite Z.shiftr_div_pow2 by lia. change (2 ^ 1) with 2.
  rewrite Z.add_comm, Z.pow_add_r in Hm by lia. apply Z.div_lt_upper_bound; lia.
Qed.

Lemma land1 m : Z.land m 1 = m mod 2.
Proof. apply (land_ones_mod m 1). lia. Qed.

Lemma mask_shift_safe m : 0 ≤ m < 2 ^ 32 → mask_shift m ⇓ λ s, 0 ≤ s < 32.
Proof.
  intros Hm. unfold mask_shift. destruct (Z.eqb_spec m 0); [apply wp_ok; lia|].
  apply (wp_loop_bound (λ k '(m, s), 0 < m < 2 ^ Z.of_nat k ∧ 0 ≤ s ∧ s = 32 - Z.of_nat k) _ _)
    with (k := 32%nat); [|simpl; lia|lia].
  intros k [m' s] (Hm' & Hs & ->). rewrite land1.
  destruct k as [|k]; [simpl in *; lia|].
  destruct (Z.eqb_spec (m' mod 2) 0); apply wp_ok; [|lia].
  exists k. split; [lia|]. split_and!; [|apply shiftr1_lt; [lia|]|lia|lia].
  - rewrite Z.shiftr_div_pow2 by lia. change (2 ^ 1) with 2. zlia.
  - replace (Z.of_nat k + 1) with (Z.of_nat (S k)) by lia. apply Hm'.
Qed.

Lemma mask_bits_safe m : 0 ≤ m < 2 ^ 32 → mask_bits m ⇓ λ b, 0 ≤ b ≤ 32.
Proof.
  intros Hm. unfold mask_bits.
  apply (wp_loop_bound (λ k '(m, b), 0 ≤ m < 2 ^ Z.of_nat k ∧ 0 ≤ b ≤ 32 - Z.of_nat k) _ _)
    with (k := 32%nat); [|simpl; lia|lia].
  intros k [m' b] (Hm' & Hb). destruct (Z.eqb_spec m' 0); apply wp_ok; [lia|].
  destruct k as [|k]; [simpl in *; lia|].
  exists k. split; [lia|]. rewrite land1. pose proof (Z.mod_pos_bound m' 2). split; [split|lia].
  - apply Z.shiftr_nonneg. lia.
  - apply shiftr1_lt; [lia|]. replace (Z.of_nat k + 1) with (Z.of_nat (S k)) by lia. apply Hm'.
Qed.

Lemma extract_channel_safe v m : 0 ≤ m < 2 ^ 32 → extract_channel v m ⇓ λ c, 0 ≤ c < 256.
Proof.
  intros Hm. unfold extract_channel. destruct (Z.eqb_spec m 0); [apply wp_ok; lia|].
  apply wp_bind. eapply wp_mono; [by apply mask_shift_safe|]. intros s Hs. simpl in Hs.
  apply wp_bind. eapply wp_mono; [by apply mask_bits_safe|]. intros b Hb. simpl in Hb.
  destruct (Z.leb_spec 8 b); [apply wp_ok, u8_range|].
  destruct (Z.eqb_spec b 0); [apply wp_ok; lia|].
  rewrite udiv_ok; [simpl; apply wp_ok, u8_range|].
  rewrite Z.shiftl_1_l. pose proof (Z.pow_le_mono_r 2 1 b). pose proof (Z.pow_lt_mono_r 2 b 8).
  rewrite (u32_small (2 ^ b)) by lia. rewrite u32_small by lia. lia.
Qed.

Section contiguous_mask.
Context (s n : Z) (Hs : 0 ≤ s) (Hn : 1 ≤ n) (Hsn : s + n ≤ 32).

Lemma contig_range : 0 < (2 ^ n - 1) * 2 ^ s < 2 ^ 32.
Proof using All.
  pose proof (Z.pow_le_mono_r 2 1 n). pose proof (Z.pow_pos_nonneg 2 s).
  pose proof (Z.pow_le_mono_r 2 (n + s) 32) as Hp. rewrite Z.pow_add_r in Hp by lia. nia.
Qed.

Lemma contig_bit j : 0 ≤ j → Z.testbit ((2 ^ n - 1) * 2 ^ s) j = (s <=? j) && (j <? s + n).
Proof using All.
  intros Hj. destruct (Z.leb_spec s j); simpl.
  - rewrite Z.mul_pow2_bits by lia. replace (2 ^ n - 1) with (Z.ones n) by (rewrite Z.ones_equiv; lia).
    destruct (Z.ltb_spec j (s + n)); [rewrite Z.ones_spec_low by lia|rewrite Z.ones_spec_high by lia]; done.
  - by rewrite Z.mul_pow2_bits_low by lia.
Qed.

Lemma contig_low : low ((2 ^ n - 1) * 2 ^ s) = s.
Proof using All.
  unfold low. destruct (list_find _ _) as [[i j]|] eqn:E.
  - apply list_find_Some in E as (Hl & Ht & Hbefore). apply lookup_seq in Hl as [-> Hi].
    rewrite contig_bit in Ht by lia. apply andb_prop in Ht as [H1 H2].
    apply Z.leb_le in H1. apply Z.ltb_lt in H2. destruct (decide (Z.of_nat (0 + i) = s)) as [|Hne]; [done|].
    exfalso. apply (Hbefore (Z.to_nat s) (Z.to_nat s)).
    + apply lookup_seq. lia.
    + lia.
    + rewrite contig_bit by lia. destruct (Z.leb_spec s (Z.of_nat (Z.to_nat s))); [|lia].
      destruct (Z.ltb_spec (Z.of_nat (Z.to_nat s)) (s + n)); [done|lia].
  - exfalso. apply list_find_None in E. rewrite Forall_forall in E. apply (E (Z.to_nat s)).
    + apply elem_of_seq. lia.
    + rewrite contig_bit by lia. destruct (Z.leb_spec s (Z.of_nat (Z.to_nat s))); [|lia].
      destruct (Z.ltb_spec (Z.of_nat (Z.to_nat s)) (s + n)); [done|lia].
Qed.

Lemma contig_width : mask_width ((2 ^ n - 1) * 2 ^ s) = n.
Proof using All.
  unfold mask_width. rewrite contig_low. rewrite Z.log2_mul_pow2 by (pose proof (Z.pow_le_mono_r 2 1 n); lia).
  replace (2 ^ n - 1) with (Z.pred (2 ^ n)) by lia.
  rewrite Z.log2_pred_pow2 by lia. lia.
Qed.

Lemma mask_shift_contig : mask_shift ((2 ^ n - 1) * 2 ^ s) = Ok s.
Proof using All.
  pose proof contig_range as Hr. unfold mask_shift. rewrite (proj2 (Z.eqb_neq _ 0)) by lia.
  match goal with |- ?m = _ => assert (m ⇓ eq s) as (? & ? & <-); [|done] end.
  apply (wp_loop_bound (λ k '(m, i), m = (2 ^ n - 1) * 2 ^ Z.of_nat k ∧ i = s - Z.of_nat k) _ _)
    with (k := Z.to_nat s); [|rewrite Z2Nat.id by lia; split; [done|lia]|lia].
  intros k [m i] (-> & ->). rewrite land1. destruct k as [|k].
  - replace ((2 ^ n - 1) * 2 ^ Z.of_nat 0) with (1 + (2 ^ (n - 1) - 1) * 2).
    { rewrite Z.mod_add by lia. simpl. apply wp_ok. lia. }
    replace n with (1 + (n - 1)) at 2 by lia. rewrite Z.pow_add_r by lia. change (Z.of_nat 0) with 0. lia.
  - replace ((2 ^ n - 1) * 2 ^ Z.of_nat (S k)) with (((2 ^ n - 1) * 2 ^ Z.of_nat k) * 2).
    { rewrite Z.mod_mul by lia. simpl. apply wp_ok. exists k. split; [lia|]. split; [|lia].
      rewrite Z.shiftr_div_pow2 by lia. by rewrite Z.div_mul. }
    rewrite Nat2Z.inj_succ, Z.pow_succ_r by lia. lia.
Qed.

Lemma mask_bits_contig : mask_bits ((2 ^ n - 1) * 2 ^ s) = Ok n.
Proof using All.
  pose proof (Z.pow_le_mono_r 2 1 n). unfold mask_bits.
  match goal with |- ?m = _ => assert (m ⇓ eq n) as (? & ? & <-); [|done] end.
  apply (wp_loop_bound (λ k '(m, b),
      (∃ j, 0 ≤ j ∧ Z.of_nat k = n + j ∧ m = (2 ^ n - 1) * 2 ^ j ∧ b = 0) ∨
      (Z.of_nat k ≤ n ∧ m = 2 ^ Z.of_nat k - 1 ∧ b = n - Z.of_nat k)) _ _)
    with (k := Z.to_nat (n + s)); [|left; exists s; lia|lia].
  intros k [m b] [(j & Hj & Hk & -> & ->)|(Hk & -> & ->)]; rewrite land1.
  - pose proof (Z.pow_pos_nonneg 2 j). rewrite (proj2 (Z.eqb_neq _ 0)) by nia. apply wp_ok.
    exists (Nat.pred k). split; [lia|]. rewrite Z.shiftr_div_pow2 by lia. change (2 ^ 1) with 2.
    destruct (decide (j = 0)) as [->|Hne].
    + right. replace ((2 ^ n - 1) * 2 ^ 0) with (1 + (2 ^ (n - 1) - 1) * 2).
      { rewrite Z.mod_add, Z.div_add by lia. replace (Z.of_nat (Nat.pred k)) with (n - 1) by lia.
        change (1 mod 2) with 1. change (1 / 2) with 0. split_and!; lia. }
      replace n with (1 + (n - 1)) at 2 by lia. rewrite Z.pow_add_r by lia. lia.
    + left. exists (j - 1). replace ((2 ^ n - 1) * 2 ^ j) with (((2 ^ n - 1) * 2 ^ (j - 1)) * 2).
      { rewrite Z.mod_mul, Z.div_mul by lia. lia. }
      replace j with (1 + (j - 1)) at 2 by lia. rewrite Z.pow_add_r by lia. lia.
  - destruct k as [|k]; [simpl; apply wp_ok; lia|]. rewrite Nat2Z.inj_succ, Z.pow_succ_r by lia.
    pose proof (Z.pow_pos_nonneg 2 (Z.of_nat k)). rewrite (proj2 (Z.eqb_neq _ 0)) by lia. apply wp_ok.
    exists k. split; [lia|]. right. rewrite Z.shiftr_div_pow2 by lia. change (2 ^ 1) with 2.
    replace (2 * 2 ^ Z.of_nat k - 1) with (1 + (2 ^ Z.of_nat k - 1) * 2) by lia.
    rewrite Z.mod_add, Z.div_add by lia. change (1 mod 2) with 1. change (1 / 2) with 0. split_and!; lia.
Qed.

End contiguous_mask.
Lemma scaled_range n c : 1 ≤ n → 0 ≤ c < 2 ^ n → 0 ≤ scaled n c < 256.
Proof.
  intros Hn Hc. unfold scaled. destruct (Z.leb_spec 8 n).
  - split; [apply Z.div_pos; [lia|apply Z.pow_pos_nonneg; lia]|].
    apply Z.div_lt_upper_bound; [apply Z.pow_pos_nonneg; lia|].
    change 256 with (2 ^ 8). rewrite <-Z.pow_add_r by lia. replace (n - 8 + 8) with n by lia. apply Hc.
  - pose proof (Z.pow_le_mono_r 2 1 n). split; [apply Z.div_pos; lia|].
    apply Z.div_lt_upper_bound; lia.
Qed.

Lemma extract_channel_ok v m : 0 ≤ v → contiguous m → extract_channel v m = Ok (channel v m).
Proof.
  intros Hv [->|(s & n & Hs & Hn & Hsn & ->)]; [done|].
  pose proof (contig_range s n Hs Hn Hsn) as Hr. unfold extract_channel, channel.
  rewrite (proj2 (Z.eqb_neq _ 0)), mask_shift_contig, mask_bits_contig, contig_low, contig_width by lia.
  cbn [mbind outcome_bind].
  assert (Z.shiftr (Z.land v ((2 ^ n - 1) * 2 ^ s)) s = v / 2 ^ s mod 2 ^ n) as ->.
  { rewrite Z.shiftr_land, <-Z.shiftl_mul_pow2, Z.shiftr_shiftl_l, Z.sub_diag, Z.shiftl_0_r by lia.
    rewrite land_ones_mod, Z.shiftr_div_pow2 by lia. done. }
  pose proof (Z.mod_pos_bound (v / 2 ^ s) (2 ^ n) ltac:(apply Z.pow_pos_nonneg; lia)) as Hc.
  set (c := v / 2 ^ s mod 2 ^ n) in *. pose proof (scaled_range n c Hn Hc) as Hsc.
  unfold scaled in *. destruct (Z.leb_spec 8 n).
  - rewrite Z.shiftr_div_pow2, u8_small by lia. done.
  - rewrite (proj2 (Z.eqb_neq n 0)) by lia.
    pose proof (Z.pow_le_mono_r 2 1 n). pose proof (Z.pow_lt_mono_r 2 n 8).
    rewrite Z.shiftl_1_l, (u32_small (2 ^ n)), !u32_small by lia.
    rewrite udiv_ok by lia. simpl. by rewrite u8_small by lia.
Qed.

Lemma channel_range v m : contiguous m → 0 ≤ channel v m < 256.
Proof.
  intros [->|(s & n & Hs & Hn & Hsn & ->)]; [done|]. unfold channel.
  pose proof (contig_range s n Hs Hn Hsn).
  rewrite (proj2 (Z.eqb_neq _ 0)), contig_low, contig_width by lia. apply scaled_range; [done|].
  apply Z.mod_pos_bound, Z.pow_pos_nonneg; lia.
Qed.

(** * Filling an array *)
Lemma for_each_ext {S} lo hi (f g : Z → S → outcome S) s :
  (∀ i s, lo ≤ i < hi → f i s = g i s) → for_each lo hi f s = for_each lo hi g s.
Proof.
  intros Hfg. unfold for_each. f_equal. unfold for_loop.
  remember (Z.to_nat (hi - lo)) as k eqn:Hk.
  assert (∀ k' i s, (k' ≤ k)%nat → i = hi - Z.of_nat k' →
    for_nat (R := Empty_set) k' i (λ i s, s' ← f i s; Ok (inl s')) s =
    for_nat k' i (λ i s, s' ← g i s; Ok (inl s')) s) as H.
  { intros k'. induction k' as [|k' IH]; intros i s' Hle Hi; [done|]. simpl. rewrite Hfg by lia.
    destruct (g i s'); [|done..]. simpl. apply IH; lia. }
  destruct (decide (lo ≤ hi)); [apply H; lia|]. by replace k with 0%nat by lia.
Qed.

(** [c] of the computations that return. *)
Definition value (m : outcome Z) : Z := match m with Ok a => a | _ => 0 end.

(** [px'] is [px] with the [w] elements from [dst] on set to [f]. *)
Definition filled (px px' : list Z) (dst w : Z) (f : Z → Z) : Prop :=
  zlen px' = zlen px ∧
  ∀ j, 0 ≤ j → px' !! Z.to_nat j =
    if decide (dst ≤ j < dst + w) then Some (f (j - dst)) else px !! Z.to_nat j.

Lemma fill_ok (m : Z → outcome Z) px dst w :
  0 ≤ dst → 0 ≤ w → dst + w ≤ zlen px → (∀ x, 0 ≤ x < w → ∃ c, m x = Ok c) →
  for_each 0 w (λ x px, c ← m x; zset px (dst + x) c) px ⇓ λ px', filled px px' dst w (λ x, value (m x)).
Proof.
  intros Hd Hw Hl Hm.
  apply (wp_for_each (λ i px', filled px px' dst i (λ x, value (m x)))); [done| | |done].
  { split; [done|]. intros j Hj. by rewrite decide_False by lia. }
  intros i px' Hi (Hl' & Hf). destruct (Hm i Hi) as (c & Hc). rewrite Hc. simpl.
  rewrite zset_ok by lia. apply wp_ok. split; [by rewrite zlen_insert|]. intros j Hj.
  destruct (decide (j = dst + i)) as [->|Hne].
  - rewrite list_lookup_insert_eq by (unfold zlen in *; lia). rewrite decide_True by lia.
    replace (dst + i - dst) with i by lia. by rewrite Hc.
  - rewrite list_lookup_insert_ne by lia. rewrite Hf by done. repeat case_decide; done || lia.
Qed.

Lemma filled_all px px' n f :
  filled px px' 0 n f → zlen px = n → px' = map (λ i, f (Z.of_nat i)) (seq 0 (Z.to_nat n)).
Proof.
  intros (Hl & Hf) Hn. apply list_eq. intros i. specialize (Hf (Z.of_nat i) ltac:(lia)).
  rewrite Nat2Z.id in Hf. rewrite Hf, list_lookup_fmap. case_decide.
  - rewrite lookup_seq_lt by lia. simpl. by rewrite Z.sub_0_r.
  - rewrite lookup_seq_ge by lia. apply lookup_ge_None. unfold zlen in *. lia.
Qed.

(** Case analysis on the reads of [data] in both sides of an equation. *)
Ltac run_reads data :=
  cbv zeta;
  repeat match goal with
    | |- context [zget data ?i] => destruct (zget data i); cbn [mbind outcome_bind]; try done
    | |- context [read_u16 data ?i] => destruct (read_u16 data i); cbn [mbind outcome_bind]; try done
    | |- context [read_u32 data ?i] => destruct (read_u32 data i); cbn [mbind outcome_bind]; try done
    end.

(** * The palette *)
Lemma quad_cases d : quad_size d = 3 ∨ quad_size d = 4.
Proof. unfold quad_size. destruct (_ =? _); auto. Qed.

Lemma palette_count_range d : palette_count d ≤ 256.
Proof.
  unfold palette_count. destruct (bit_count d <=? 8); [|lia].
  destruct (Z.ltb_spec 256 (if 0 <? clr_used d then i32 (clr_used d) else 2 ^ bit_count d)); lia.
Qed.

Section palette.
Context (A : allocator) (data : list Z) (len : Z) (d : DibHeader).
Context (Hb : bytes data) (Hl : 0 ≤ len ≤ zlen data) (Hlen : len < 2 ^ 63).
Context (Hh : 0 ≤ header_size d < 2 ^ 31 - 14).

Lemma entry_ok i :
  0 ≤ i < 256 →
  (let off := u64 (14 + header_size d + i * quad_size d) in
   if len <? u64 (off + quad_size d) then Ok 0xFF000000
   else b ← zget data off; g ← zget data (off + 1); r ← zget data (off + 2);
        a ← (if quad_size d =? 4 then zget data (off + 3) else Ok 255);
        Ok (argb a r g b)) = Ok (palette_entry data len d i).
Proof using Hb Hl Hlen Hh.
  intros Hi. unfold palette_entry. cbv zeta. pose proof (quad_cases d) as Hq.
  set (off := 14 + header_size d + i * quad_size d). assert (0 ≤ off < 2 ^ 32) by nia.
  rewrite (u64_small off) by lia. rewrite (u64_small (off + _)) by lia.
  destruct (Z.ltb_spec len (off + quad_size d)), (Z.leb_spec (off + quad_size d) len); try (done || lia).
  pose proof (byte_range data off Hb). pose proof (byte_range data (off + 1) Hb).
  pose proof (byte_range data (off + 2) Hb). pose proof (byte_range data (off + 3) Hb).
  rewrite (zget_field data off), (zget_field data (off + 1)), (zget_field data (off + 2)) by lia.
  cbn [mbind outcome_bind]. destruct Hq as [Hq|Hq]; rewrite Hq in *; simpl.
  - rewrite argb_val by lia. rewrite (field_split 2), (field_split 1) by lia.
    replace (off + 1 + 1) with (off + 2) by lia. f_equal. lia.
  - rewrite zget_field by lia. simpl. rewrite argb_val by lia.
    rewrite (field_split 3), (field_split 2), (field_split 1) by lia.
    replace (off + 1 + 1) with (off + 2) by lia. replace (off + 2 + 1) with (off + 3) by lia. f_equal. lia.
Qed.

Lemma read_palette_ok k :
  0 < palette_count d →
  read_palette A k data len (u64 (14 + header_size d)) (palette_count d) (quad_size d) =
  Ok (if avail A k (4 * palette_count d) then Some (palette_of data len d) else None, S k).
Proof using Hb Hl Hlen Hh.
  intros Hp. pose proof (palette_count_range d) as Hp2. unfold read_palette.
  rewrite (proj2 (Z.leb_gt _ 0)), (proj2 (Z.ltb_ge 256 _)) by lia. simpl.
  destruct (avail A k _); simpl; [|done].
  rewrite (for_each_ext _ _ _ (λ i pal, c ← Ok (palette_entry data len d i); zset pal (0 + i) c)).
  { destruct (fill_ok (λ i, Ok (palette_entry data len d i)) (fresh A k (palette_count d)) 0 (palette_count d))
      as (pal & -> & Hf); [lia|lia|rewrite zlen_fresh; lia|by eexists|].
    simpl. do 2 f_equal. f_equal. apply (filled_all _ _ _ _ Hf). rewrite zlen_fresh. lia. }
  intros i pal Hi. rewrite <-entry_ok by lia. cbv zeta. rewrite (u64_small (14 + header_size d)) by lia.
  destruct (len <? _); [done|]. destruct (quad_size d =? 4); run_reads data.
Qed.

Lemma palette_entry_range i : 0 ≤ palette_entry data len d i < 2 ^ 32.
Proof using Hb.
  unfold palette_entry. pose proof (field_range 3 data (14 + header_size d + i * quad_size d) Hb) as H3.
  pose proof (field4_range data (14 + header_size d + i * quad_size d) Hb).
  change (256 ^ Z.of_nat 3) with 16777216 in H3.
  repeat case_match; lia.
Qed.

Lemma palette_of_range : Forall (λ c, 0 ≤ c < 2 ^ 32) (palette_of data len d).
Proof using Hb.
  unfold palette_of. apply Forall_fmap, Forall_true. intros i. apply palette_entry_range.
Qed.

End palette.

Lemma zlen_palette data len d : 0 ≤ palette_count d → zlen (palette_of data len d) = palette_count d.
Proof. intros. unfold palette_of, zlen. rewrite length_map, length_seq. lia. Qed.

(** * One pixel *)
Definition pixel (data : list Z) (d : DibHeader) (pal : option (list Z)) (row x : Z) : outcome Z :=
  if bit_count d =? 1 then
    b ← zget data (row + x `quot` 8);
    let idx := Z.land (Z.shiftr b (7 - x `rem` 8)) 1 in
    match pal with Some p => zget p idx | None => Ok (if idx =? 0 then 0xFF000000 else 0xFFFFFFFF) end
  else if bit_count d =? 4 then
    b ← zget data (row + x `quot` 2);
    let idx := if x `rem` 2 =? 0 then Z.land (Z.shiftr b 4) 15 else Z.land b 15 in
    match pal with Some p => zget p (Z.land idx 15) | None => Ok 0xFF000000 end
  else if bit_count d =? 8 then
    idx ← zget data (row + x); match pal with Some p => zget p idx | None => Ok 0xFF000000 end
  else if bit_count d =? 16 then
    v ← read_u16 data (row + x * 2);
    masked_pixel v (red_mask d) (green_mask d) (blue_mask d) (alpha_mask d)
  else if bit_count d =? 24 then
    b ← zget data (row + x * 3); g ← zget data (row + x * 3 + 1); r ← zget data (row + x * 3 + 2);
    Ok (argb 255 r g b)
  else
    v ← read_u32 data (row + x * 4);
    if (red_mask d =? 0) && (green_mask d =? 0) && (blue_mask d =? 0) then
      let a := Z.land (Z.shiftr v 24) 255 in
      Ok (argb (if a =? 0 then 255 else a) (Z.land (Z.shiftr v 16) 255) (Z.land (Z.shiftr v 8) 255)
            (Z.land v 255))
    else masked_pixel v (red_mask d) (green_mask d) (blue_mask d) (alpha_mask d).

Definition depth_ok (bc : Z) : Prop := bc ∈ [1; 4; 8; 16; 24; 32].

Lemma decode_row_form data d row px dst w pal :
  depth_ok (bit_count d) →
  decode_row data d row px dst w pal =
  for_each 0 w (λ x px, c ← pixel data d pal row x; zset px (dst + x) c) px.
Proof.
  unfold depth_ok. rewrite !elem_of_cons, elem_of_nil. intros Hbc. unfold decode_row, pixel.
  destruct Hbc as [->|[->|[->|[->|[->|[->|[]]]]]]]; cbn [Z.eqb Pos.eqb]; apply for_each_ext; intros x px' _.
  all: run_reads data.
Qed.

Definition palette_ok (bc : Z) (pal : option (list Z)) : Prop :=
  match pal with
  | None => True
  | Some p => Forall (λ c, 0 ≤ c < 2 ^ 32) p ∧ (bc ≤ 8 → 2 ^ bc ≤ zlen p)
  end.

Lemma palette_get pal bc idx d0 :
  palette_ok bc pal → bc ≤ 8 → 0 ≤ idx < 2 ^ bc → 0 ≤ d0 < 2 ^ 32 →
  ∃ c, match pal with Some p => zget p idx | None => Ok d0 end = Ok c ∧ 0 ≤ c < 2 ^ 32 ∧
       c = match pal with Some p => default 0 (p !! Z.to_nat idx) | None => d0 end.
Proof.
  intros Hp Hbc Hi Hd. destruct pal as [p|]; [|by exists d0].
  destruct Hp as (Hr & Hn). specialize (Hn Hbc). destruct (zget_in p idx) as (c & Hc); [lia|].
  exists c. rewrite (zget_ok p idx c), Hc by (done || lia). split_and!; try done; by apply (Forall_lookup_1 _ _ _ _ Hr Hc).
Qed.

Definition masks_in_range (d : DibHeader) : Prop :=
  0 ≤ red_mask d < 2 ^ 32 ∧ 0 ≤ green_mask d < 2 ^ 32 ∧ 0 ≤ blue_mask d < 2 ^ 32 ∧
  0 ≤ alpha_mask d < 2 ^ 32.
Definition masks_contiguous (d : DibHeader) : Prop :=
  contiguous (red_mask d) ∧ contiguous (green_mask d) ∧ contiguous (blue_mask d) ∧
  contiguous (alpha_mask d).

Lemma masked_pixel_safe v d :
  masks_in_range d →
  masked_pixel v (red_mask d) (green_mask d) (blue_mask d) (alpha_mask d) ⇓ λ c, 0 ≤ c < 2 ^ 32.
Proof.
  intros (Hr & Hg & Hb & Ha). unfold masked_pixel.
  apply wp_bind. eapply wp_mono; [by apply extract_channel_safe|]. intros r Hr'.
  apply wp_bind. eapply wp_mono; [by apply extract_channel_safe|]. intros g Hg'.
  apply wp_bind. eapply wp_mono; [by apply extract_channel_safe|]. intros b Hb'.
  apply wp_bind. apply wp_mono with (λ a, 0 ≤ a < 256).
  { destruct (_ =? 0); [apply wp_ok; lia|by apply extract_channel_safe]. }
  intros a Ha'. by apply wp_ok, argb_range.
Qed.

Lemma masked_pixel_ok v d :
  0 ≤ v → masks_contiguous d →
  masked_pixel v (red_mask d) (green_mask d) (blue_mask d) (alpha_mask d) =
  Ok (channel v (alpha_mask d) * 2 ^ 24 + channel v (red_mask d) * 2 ^ 16 +
      channel v (green_mask d) * 2 ^ 8 + channel v (blue_mask d)).
Proof.
  intros Hv (Hr & Hg & Hb & Ha). unfold masked_pixel.
  rewrite (extract_channel_ok v (red_mask d)), (extract_channel_ok v (green_mask d)),
    (extract_channel_ok v (blue_mask d)) by done. cbn [mbind outcome_bind].
  assert ((if alpha_mask d =? 0 then Ok 255 else extract_channel v (alpha_mask d)) =
          Ok (channel v (alpha_mask d))) as ->.
  { rewrite extract_channel_ok by done. unfold channel. by destruct (alpha_mask d =? 0). }
  simpl. by rewrite argb_val by (by apply channel_range).
Qed.

Lemma index_1 b x : 0 ≤ x → Z.land (Z.shiftr b (7 - x `rem` 8)) 1 = b / 2 ^ (8 - 1 - (x * 1) mod 8) mod 2 ^ 1.
Proof.
  intros Hx. rewrite Z.rem_mod_nonneg, Z.mul_1_r by lia. pose proof (Z.mod_pos_bound x 8).
  rewrite land1, Z.shiftr_div_pow2 by lia. by replace (8 - 1 - x mod 8) with (7 - x mod 8) by lia.
Qed.

Lemma index_4 b x :
  0 ≤ x → 0 ≤ b < 256 →
  (if x `rem` 2 =? 0 then Z.land (Z.shiftr b 4) 15 else Z.land b 15) =
  b / 2 ^ (8 - 4 - (x * 4) mod 8) mod 2 ^ 4.
Proof.
  intros Hx Hb. rewrite Z.rem_mod_nonneg by lia. change 15 with (2 ^ 4 - 1). rewrite !land_ones_mod by lia.
  destruct (Z.eqb_spec (x mod 2) 0).
  - replace ((x * 4) mod 8) with 0 by zlia. by rewrite Z.shiftr_div_pow2 by lia.
  - replace ((x * 4) mod 8) with 4 by zlia. simpl. by rewrite Z.div_1_r.
Qed.

(** The four bytes of a pixel without masks. *)
Lemma plain_32 v :
  0 ≤ v < 2 ^ 32 →
  (let a := Z.land (Z.shiftr v 24) 255 in
   argb (if a =? 0 then 255 else a) (Z.land (Z.shiftr v 16) 255) (Z.land (Z.shiftr v 8) 255) (Z.land v 255)) =
  if v <? 2 ^ 24 then 255 * 2 ^ 24 + v else v.
Proof.
  intros Hv. cbv zeta. assert (∀ y, Z.land y 255 = y mod 2 ^ 8) as Hl by (intros y; by apply (land_ones_mod y 8)).
  rewrite !Hl, !Z.shiftr_div_pow2 by lia.
  rewrite (Z.mod_small (v / 2 ^ 24)) by zlia. rewrite argb_val.
  2: destruct (Z.eqb_spec (v / 2 ^ 24) 0); zlia.
  2-4: apply Z.mod_pos_bound; lia.
  destruct (Z.eqb_spec (v / 2 ^ 24) 0), (Z.ltb_spec v (2 ^ 24)); zlia.
Qed.

Section one_pixel.
Context (data : list Z) (d : DibHeader) (pal : option (list Z)) (row x : Z).
Context (Hbc : depth_ok (bit_count d)) (Hb : bytes data) (Hpal : palette_ok (bit_count d) pal).
Context (Hrow : 0 ≤ row) (Hx : 0 ≤ x).
Context (Hfits : row + ((x + 1) * bit_count d + 7) / 8 ≤ zlen data).

Lemma pixel_safe : masks_in_range d → pixel data d pal row x ⇓ λ c, 0 ≤ c < 2 ^ 32.
Proof using All.
  intros Hm. unfold pixel. unfold depth_ok in Hbc. rewrite !elem_of_cons, elem_of_nil in Hbc.
  destruct Hbc as [E|[E|[E|[E|[E|[E|[]]]]]]]; rewrite E in *; cbn [Z.eqb Pos.eqb].
  - rewrite Z.quot_div_nonneg by lia. rewrite zget_field by zlia. cbn [mbind outcome_bind].
    rewrite index_1 by done. set (idx := _ mod 2 ^ 1).
    assert (0 ≤ idx < 2 ^ 1) by (apply Z.mod_pos_bound; lia).
    destruct (palette_get pal 1 idx (if idx =? 0 then 4278190080 else 4294967295)) as (c & -> & Hc & _);
      [done|lia|done|destruct (_ =? 0); lia|by apply wp_ok].
  - rewrite Z.quot_div_nonneg by lia. rewrite zget_field by zlia. cbn [mbind outcome_bind].
    rewrite index_4 by (done || by apply byte_range). set (idx := _ mod 2 ^ 4).
    assert (0 ≤ idx < 2 ^ 4) by (apply Z.mod_pos_bound; lia).
    change 15 with (2 ^ 4 - 1). rewrite land_ones_mod, Z.mod_small by lia.
    destruct (palette_get pal 4 idx 4278190080) as (c & -> & Hc & _); [done|lia|done|lia|by apply wp_ok].
  - rewrite zget_field by zlia. cbn [mbind outcome_bind].
    destruct (palette_get pal 8 (field 1 data (row + x)) 4278190080) as (c & -> & Hc & _);
      [done|lia|by apply byte_range|lia|by apply wp_ok].
  - rewrite read_u16_ok by (done || zlia). simpl. by apply masked_pixel_safe.
  - rewrite (zget_field _ (row + x * 3)), (zget_field _ (row + x * 3 + 1)), (zget_field _ (row + x * 3 + 2)) by zlia.
    simpl. apply wp_ok, argb_range; try (by apply byte_range). lia.
  - rewrite read_u32_ok by (done || zlia). cbn [mbind outcome_bind].
    pose proof (field4_range data (row + x * 4) Hb) as Hv. destruct (_ && _); [|by apply masked_pixel_safe].
    apply wp_ok. pose proof (plain_32 _ Hv) as Hp. cbv zeta in *. rewrite Hp. destruct (Z.ltb_spec (field 4 data (row + x * 4)) (2 ^ 24)); lia.
Qed.

Lemma pixel_ok : masks_contiguous d → pixel data d pal row x = Ok (colour data d pal row x).
Proof using All.
  intros Hm. unfold pixel, colour. unfold depth_ok in Hbc. rewrite !elem_of_cons, elem_of_nil in Hbc.
  destruct Hbc as [E|[E|[E|[E|[E|[E|[]]]]]]]; rewrite E in *; cbn [Z.eqb Pos.eqb Z.leb Z.compare Pos.compare Pos.compare_cont andb].
  - rewrite Z.quot_div_nonneg by lia. rewrite zget_field by zlia. cbn [mbind outcome_bind].
    rewrite index_1 by done. rewrite (Z.mul_1_r x). set (idx := _ mod 2 ^ 1).
    assert (0 ≤ idx < 2 ^ 1) by (apply Z.mod_pos_bound; lia).
    destruct (palette_get pal 1 idx (if idx =? 0 then 4278190080 else 4294967295)) as (c & -> & _ & ->);
      [done|lia|done|destruct (_ =? 0); lia|].
    destruct pal; [done|]. destruct (Z.eqb_spec idx 0), (Z.eqb_spec idx 1); done || lia.
  - rewrite Z.quot_div_nonneg by lia. rewrite zget_field by zlia. cbn [mbind outcome_bind].
    rewrite index_4 by (done || by apply byte_range). replace (x * 4 / 8) with (x / 2) by zlia.
    set (idx := _ mod 2 ^ 4). assert (0 ≤ idx < 2 ^ 4) by (apply Z.mod_pos_bound; lia).
    change 15 with (2 ^ 4 - 1). rewrite land_ones_mod, Z.mod_small by lia.
    destruct (palette_get pal 4 idx 4278190080) as (c & -> & _ & ->); [done|lia|done|lia|done].
  - rewrite zget_field by zlia. cbn [mbind outcome_bind]. pose proof (byte_range data (row + x) Hb).
    rewrite Z.div_mul, Z.mod_mul by lia. change (2 ^ (8 - 8 - 0)) with 1. rewrite Z.div_1_r, Z.mod_small by lia.
    destruct (palette_get pal 8 (field 1 data (row + x)) 4278190080) as (c & -> & _ & ->);
      [done|lia|lia|lia|done].
  - rewrite read_u16_ok by (done || zlia). cbn [mbind outcome_bind]. rewrite masked_pixel_ok; [|by apply field2_range|done].
    by rewrite (Z.mul_comm x 2).
  - rewrite (zget_field _ (row + x * 3)), (zget_field _ (row + x * 3 + 1)), (zget_field _ (row + x * 3 + 2)) by zlia.
    cbn [mbind outcome_bind]. rewrite argb_val by (by apply byte_range || lia).
    rewrite (Z.mul_comm 3 x), (field_split 2), (field_split 1) by zlia.
    replace (row + x * 3 + 1 + 1) with (row + x * 3 + 2) by lia. f_equal. lia.
  - rewrite read_u32_ok by (done || zlia). cbn [mbind outcome_bind]. rewrite (Z.mul_comm 4 x).
    pose proof (field4_range data (row + x * 4) Hb) as Hv. destruct (_ && _).
    + f_equal. apply (plain_32 _ Hv).
    + rewrite masked_pixel_ok by (done || lia). done.
Qed.

End one_pixel.
End ImageBmpRows.
