(* ===== verification/ImageBmpFile.v ===== *)
(** Whole BMP files: the loop over the rows, the run-length decoders, and
    [bmp_decode] on any input. *)
From stdpp Require Import base list.
From S2P Require Import Prelude.
From S2P Require Import KString.
From S2P Require Import Bytes.
From S2P Require Import CLib.
From S2P Require Import ImageBmp.
From S2P Require Import ImageBmpRows.
Import KString Bytes ImageBmp ImageBmpSpec ImageBmpRows.

Module ImageBmpFile.

Definition colours (px : list Z) : Prop := Forall (λ c, 0 ≤ c < 2 ^ 32) px.

Lemma colours_insert px i c : colours px → 0 ≤ c < 2 ^ 32 → colours (<[i := c]> px).
Proof. intros. by apply Forall_insert. Qed.

Lemma land_lnot3 v : Z.land v (Z.lnot 3) = v / 4 * 4.
Proof.
  rewrite <-Z.ldiff_land. change 3 with (Z.ones 2). rewrite Z.ldiff_ones_r by lia.
  by rewrite Z.shiftl_mul_pow2, Z.shiftr_div_pow2 by lia.
Qed.

Lemma stride_value d : 0 ≤ width d * bit_count d →
  Z.land ((width d * bit_count d + 7) `quot` 8 + 3) (Z.lnot 3) = stride d.
Proof. intros. rewrite Z.quot_div_nonneg, land_lnot3 by lia. unfold stride. zlia. Qed.

(** The row of the file that holds row [y] of the image. *)
Definition src_row (flip : bool) (h y : Z) : Z := if flip then h - 1 - y else y.

Lemma depth_range d : depth_ok (bit_count d) → 1 ≤ bit_count d ≤ 32.
Proof. unfold depth_ok. rewrite !elem_of_cons, elem_of_nil. lia. Qed.

Lemma stride_range d : depth_ok (bit_count d) → 1 ≤ width d ≤ 16384 → 4 ≤ stride d ≤ 65536.
Proof.
  intros Hbc Hw. pose proof (depth_range d Hbc). unfold stride.
  assert (1 ≤ width d * bit_count d ≤ 16384 * 32) by nia. zlia.
Qed.

(** A pixel of the row lies inside the bytes of the row. *)
Lemma stride_fits d x :
  depth_ok (bit_count d) → 0 ≤ x < width d → ((x + 1) * bit_count d + 7) / 8 ≤ stride d.
Proof.
  intros Hbc Hx. pose proof (depth_range d Hbc). unfold stride.
  assert ((x + 1) * bit_count d ≤ width d * bit_count d) by nia.
  set (a := (x + 1) * bit_count d) in *. set (b := width d * bit_count d) in *. zlia.
Qed.

Section rows.
Context (data : list Z) (len po : Z) (d : DibHeader) (flip : bool) (h : Z) (pal : option (list Z)).
Context (Hbc : depth_ok (bit_count d)) (Hw : 1 ≤ width d ≤ 16384) (Hh : 1 ≤ h ≤ 16384).
Context (Hlen : 0 ≤ len < 2 ^ 63) (Hpo : 0 ≤ po < 2 ^ 32).

Definition row_off (y : Z) : Z := po + src_row flip h y * stride d.
Definition row_fits (y : Z) : Prop := row_off y + stride d ≤ len.

Context (Hpix : ∀ x y, 0 ≤ x < width d → 0 ≤ y < h → row_fits y →
                  ∃ c, pixel data d pal (row_off y) x = Ok c).

(** The rows above [n] are decoded, the others are as before. *)
Definition rows_done (px px' : list Z) (n : Z) : Prop :=
  zlen px' = zlen px ∧
  ∀ x y, 0 ≤ x < width d → 0 ≤ y < h →
    px' !! Z.to_nat (y * width d + x) =
    if decide (y < n) then Some (value (pixel data d pal (row_off y) x))
    else px !! Z.to_nat (y * width d + x).

Lemma row_off_range y : 0 ≤ y < h → 0 ≤ row_off y < 2 ^ 33.
Proof using Hbc Hw Hh Hpo.
  clear Hpix. intros Hy. pose proof (stride_range d Hbc Hw). unfold row_off, src_row. destruct flip; nia.
Qed.

Lemma rows_next px px' px'' n :
  0 ≤ n < h → rows_done px px' n →
  filled px' px'' (n * width d) (width d) (λ x, value (pixel data d pal (row_off n) x)) →
  rows_done px px'' (n + 1).
Proof using Hw Hh.
  clear Hpix. intros Hn (Hl & Hd) (Hl' & Hf). split; [lia|]. intros x y Hx Hy. rewrite Hf by nia.
  destruct (decide (y = n)) as [->|Hne].
  - rewrite decide_True, decide_True by lia. do 3 f_equal. lia.
  - rewrite decide_False by nia. rewrite Hd by done. repeat case_decide; done || lia.
Qed.

Lemma decode_rows_ok px :
  zlen px = width d * h →
  decode_rows data len po d flip (width d) h pal px ⇓ λ px',
    ∃ n, 0 ≤ n ≤ h ∧ rows_done px px' n ∧ (∀ y, 0 ≤ y < n → row_fits y) ∧ (n < h → ¬ row_fits n).
Proof using All.
  intros Hpx. pose proof (depth_range d Hbc) as Hd. pose proof (stride_range d Hbc Hw) as Hs.
  unfold decode_rows. rewrite int_ok by nia. cbn [mbind outcome_bind]. rewrite stride_value by nia.
  apply wp_bind, (wp_for (λ n px', rows_done px px' n ∧ ∀ y, 0 ≤ y < n → row_fits y)); [lia| | |].
  - split; [|lia]. split; [done|]. intros x y Hx Hy. by rewrite decide_False by lia.
  - intros n px' Hn (Hdone & Hfit). pose proof (row_off_range n Hn) as Ho.
    replace (if flip then h - 1 - n else n) with (src_row flip h n) by done.
    fold (row_off n). rewrite (u64_small (row_off n)), u64_small by lia.
    destruct (Z.ltb_spec len (row_off n + stride d)) as [Hlt|Hge].
    + apply wp_ok, wp_ok. exists n. split_and!; [lia|lia|done|done|]. intros _. unfold row_fits. lia.
    + rewrite int_ok by nia. cbn [mbind outcome_bind]. rewrite decode_row_form by done. apply wp_bind.
      eapply wp_mono; [apply fill_ok|].
      * nia.
      * lia.
      * destruct Hdone as (-> & _). nia.
      * intros x Hx. by apply Hpix.
      * intros px'' Hf. apply wp_ok. split; [by apply (rows_next px px')|].
        intros y Hy. destruct (decide (y = n)) as [->|]; [done|apply Hfit; lia].
  - intros px' (Hdone & Hfit). apply wp_ok. exists h. split_and!; [lia|lia|done|done|lia].
Qed.

End rows.

(** * The run-length decoders *)
Section rle.
Context (data : list Z) (src src_len w h : Z) (pal : option (list Z)).
Context (Hb : bytes data) (Hw : 1 ≤ w ≤ 16384) (Hh : 1 ≤ h ≤ 16384).
Context (Hsrc : 0 ≤ src) (Hlen : 0 ≤ src_len ≤ 2 ^ 24) (Hin : src + src_len ≤ zlen data).

Definition good (px : list Z) : Prop := zlen px = w * h ∧ colours px.

(** The state of the loop between two rounds. *)
Definition rle_state (s : Z * Z * Z * list Z) : Prop :=
  let '(i, x, y, px) := s in
  0 ≤ i ≤ src_len + 256 ∧ 0 ≤ x ∧ 2 * x ≤ 255 * i ∧ -256 ≤ y < h ∧ good px.

Definition rle_round (i : Z) (r : (Z * Z * Z * list Z) + list Z) : Prop :=
  match r with
  | inl s => rle_state s ∧ i < s.1.1.1
  | inr px => good px
  end.

Definition palette_covers (n : Z) : Prop :=
  match pal with None => True | Some p => colours p ∧ n ≤ zlen p end.

Lemma rle_colour_ok n idx :
  palette_covers n → 0 ≤ idx < n → rle_colour pal idx ⇓ λ c, 0 ≤ c < 2 ^ 32.
Proof using.
  intros Hp Hi. unfold rle_colour, palette_covers in *. destruct pal as [p|]; [|apply wp_ok; lia].
  destruct Hp as (Hc & Hn). apply wp_zget; [lia|]. intros c Hl. by apply (Forall_lookup_1 _ _ _ _ Hc Hl).
Qed.

Lemma rle_put_ok y col x px :
  good px → 0 ≤ x < 2 ^ 31 - 1 → col ⇓ (λ c, 0 ≤ c < 2 ^ 32) →
  rle_put w h y col (x, px) ⇓ λ s, s.1 = x + 1 ∧ good s.2.
Proof using Hw Hh.
  intros (Hl & Hc) Hx (c & -> & Hcol). unfold rle_put. rewrite int_ok by lia.
  destruct ((x <? w) && (0 <=? y) && (y <? h)) eqn:E.
  - apply andb_prop in E as [E E3]. apply andb_prop in E as [E1 E2].
    apply Z.ltb_lt in E1, E3. apply Z.leb_le in E2. cbn [mbind outcome_bind].
    rewrite zset_ok by nia. simpl. apply wp_ok. simpl. split; [done|]. split; [by rewrite zlen_insert|].
    by apply colours_insert.
  - simpl. by apply wp_ok.
Qed.

(** A run of [count] pixels. *)
Lemma rle_run_ok (body : Z → Z * list Z → outcome (Z * list Z)) count x px :
  good px → 0 ≤ count ≤ 255 → 0 ≤ x < 2 ^ 31 - 256 →
  (∀ k x px, 0 ≤ k < count → good px → 0 ≤ x < 2 ^ 31 - 1 →
     body k (x, px) ⇓ λ s, s.1 = x + 1 ∧ good s.2) →
  for_each 0 count body (x, px) ⇓ λ s, s.1 = x + count ∧ good s.2.
Proof using.
  intros Hg Hc Hx Hbody. apply (wp_for_each (λ k s, s.1 = x + k ∧ good s.2)); [lia| | |done].
  - split; [simpl; lia|done].
  - intros k [x' px'] Hk (Hx' & Hg'). simpl in Hx', Hg'. subst x'. eapply wp_mono; [apply Hbody; [done|done|lia]|].
    intros s' (-> & Hg''). split; [lia|done].
Qed.

Lemma nibble b k : 0 ≤ (if k `rem` 2 =? 0 then Z.land (Z.shiftr b 4) 15 else Z.land b 15) < 16.
Proof using.
  change 15 with (2 ^ 4 - 1). rewrite !land_ones_mod by lia.
  destruct (_ =? 0); apply (Z.mod_pos_bound _ 16); lia.
Qed.

(** What both decoders do for the three escapes. *)
Lemma escape_ok i x y px b1 (absolute : outcome ((Z * Z * Z * list Z) + list Z)) :
  rle_state (i, x, y, px) → i + 2 ≤ src_len → 0 ≤ y →
  (2 < b1 → absolute ⇓ rle_round i) → 0 ≤ b1 →
  (if b1 =? 0 then y ← int (y - 1); Ok (inl (i + 2, 0, y, px))
   else if b1 =? 1 then Ok (inr px)
   else if b1 =? 2 then
     if src_len <? u64 (i + 2 + 2) then Ok (inr px)
     else
       dx ← zget data (src + (i + 2)); x ← int (x + dx);
       dy ← zget data (src + u64 (i + 2 + 1)); y ← int (y - dy);
       Ok (inl (u64 (i + 2 + 2), x, y, px))
   else absolute) ⇓ rle_round i.
Proof using Hb Hw Hh Hsrc Hlen Hin.
  intros (Hi & Hx & Hx2 & Hy & Hg) Hi2 Hy0 Habs Hb1. rewrite !u64_small by lia.
  destruct (Z.eqb_spec b1 0).
  { rewrite int_ok by lia. simpl. apply wp_ok. split; [|simpl; lia]. split_and!; (lia || done). }
  destruct (Z.eqb_spec b1 1); [by apply wp_ok|].
  destruct (Z.eqb_spec b1 2); [|apply Habs; lia].
  destruct (Z.ltb_spec src_len (i + 2 + 2)); [by apply wp_ok|].
  apply wp_bind, wp_zget; [lia|]. intros dx Hdx. pose proof (bytes_at _ _ _ Hb Hdx).
  rewrite int_ok by lia. cbn [mbind outcome_bind].
  apply wp_bind, wp_zget; [lia|]. intros dy Hdy. pose proof (bytes_at _ _ _ Hb Hdy).
  rewrite int_ok by lia. simpl. apply wp_ok. split; [|simpl; lia]. split_and!; (lia || done).
Qed.

Lemma rle8_round_ok i x y px :
  palette_covers 256 → rle_state (i, x, y, px) →
  rle8_step data src src_len w h pal (i, x, y, px) ⇓ rle_round i.
Proof using All.
  intros Hp Hst. pose proof Hst as (Hi & Hx & Hx2 & Hy & Hg). unfold rle8_step.
  destruct (Z.ltb_spec i src_len); cbn [andb negb]; [|by apply wp_ok].
  destruct (Z.leb_spec 0 y); cbn [andb negb]; [|by apply wp_ok].
  apply wp_bind, wp_zget; [lia|]. intros b0 Hb0. pose proof (bytes_at _ _ _ Hb Hb0).
  rewrite (u64_small (i + 1)) by lia. destruct (Z.leb_spec src_len (i + 1)); [by apply wp_ok|].
  apply wp_bind, wp_zget; [lia|]. intros b1 Hb1. pose proof (bytes_at _ _ _ Hb Hb1).
  rewrite (u64_small (i + 1 + 1)) by lia. replace (i + 1 + 1) with (i + 2) by lia.
  assert (∀ b, 0 ≤ b < 256 → Z.land b 255 = b) as Hland.
  { intros b ?. change 255 with (2 ^ 8 - 1). rewrite land_ones_mod by lia. apply Z.mod_small. lia. }
  destruct (Z.eqb_spec b0 0).
  - apply (escape_ok i x y px b1); [done|lia|done| |lia]. intros Hb2. apply wp_bind.
    eapply wp_mono; [apply (wp_for_each (λ k '(i', x', px'),
        i + 2 ≤ i' ≤ i + 2 + k ∧ i' ≤ src_len ∧ x ≤ x' ≤ x + k ∧ good px')
        _ _ _ _ (λ '(i', x', px'), i + 2 ≤ i' ≤ src_len ∧ x ≤ x' ≤ x + 255 ∧ good px'))|].
    + lia.
    + split_and!; (lia || done).
    + intros k [[i' x'] px'] Hk (? & ? & ? & Hg'). destruct (Z.ltb_spec i' src_len).
      * apply wp_bind, wp_zget; [lia|]. intros idx Hidx. pose proof (bytes_at _ _ _ Hb Hidx).
        apply wp_bind. eapply wp_mono; [apply rle_put_ok; [done|lia|]|].
        { rewrite Hland by done. by apply (rle_colour_ok 256). }
        intros [x'' px''] (Hx'' & Hg''). simpl in Hx'', Hg''. apply wp_ok. rewrite u64_small by lia.
        split_and!; (lia || done).
      * apply wp_ok. split_and!; (lia || done).
    + intros [[i' x'] px'] (? & ? & ? & ?). split_and!; (lia || done).
    + intros [[i' x'] px'] (? & ? & Hg'). apply wp_ok. rewrite u64_small by lia.
      split; [|destruct (_ =? 0); simpl; lia]. destruct (_ =? 0); split_and!; (lia || done).
  - apply wp_bind. rewrite Hland by done. eapply wp_mono; [by apply (rle_colour_ok 256)|]. intros c Hc.
    apply wp_bind. eapply wp_mono; [apply rle_run_ok; [done|lia|lia|]|].
    { intros k x' px' Hk Hg' Hx'. apply rle_put_ok; [done|lia|by apply wp_ok]. }
    intros [x' px'] (Hx' & Hg'). simpl in Hx', Hg'. apply wp_ok. split; [|simpl; lia].
    split_and!; (lia || done).
Qed.

Lemma zget_found {X} (l : list X) i a : zget l i = Ok a → 0 ≤ i ∧ l !! Z.to_nat i = Some a.
Proof using. unfold zget. case_decide; [|done]. destruct (l !! Z.to_nat i); [|done]. intros [= ->]. done. Qed.

(** The two bytes of the code at offset [i] of RLE4 data. *)
Definition rle4_code (i : Z) : option (Z * Z) :=
  b0 ← data !! Z.to_nat (src + i); b1 ← data !! Z.to_nat (src + (i + 1)); Some (b0, b1).

(** The bytes of a literal run of [n] pixels, without the byte that pads them. *)
Definition literal_bytes (n : Z) : Z := (n + 1) / 2.

(** Where the code behind the one at [i] is, unless that one ends the image. *)
Definition rle4_next (i : Z) : option Z :=
  '(b0, b1) ← rle4_code i;
  if b0 =? 0 then
    if b1 =? 0 then Some (i + 2)
    else if b1 =? 1 then None
    else if b1 =? 2 then Some (i + 4)
    else Some (i + 2 + (literal_bytes b1 + literal_bytes b1 mod 2))
  else Some (i + 2).

(** A literal run at [i] that has begun ends inside of the data. *)
Definition literal_fits (i : Z) : bool :=
  match rle4_code i with
  | Some (b0, b1) => negb ((b0 =? 0) && (2 <? b1) && (i + 2 <? src_len)) || (i + 2 + literal_bytes b1 <=? src_len)
  | None => true
  end.

(** So do the next [n] codes from [i] on. *)
Fixpoint literals_fit (n : nat) (i : Z) : bool :=
  match n with
  | O => true
  | S n => if src_len <=? i + 1 then true
           else literal_fits i && match rle4_next i with Some i' => literals_fit n i' | None => true end
  end.

Lemma literals_fit_fewer n m i : (m ≤ n)%nat → literals_fit n i = true → literals_fit m i = true.
Proof using.
  revert m i. induction n as [|n IH]; intros [|m] i Hmn Hf; try done; [lia|]. simpl in *. destruct (src_len <=? i + 1); [done|].
  apply andb_true_iff in Hf as [-> Hf]. simpl. destruct (rle4_next i); [|done]. apply IH; [lia|done].
Qed.

Lemma rle4_step_next i x y px i' x' y' px' : 0 ≤ i →
  rle4_step data src src_len w h pal (i, x, y, px) = Ok (inl (i', x', y', px')) → i + 1 < src_len ∧ rle4_next i = Some i'.
Proof using Hb Hlen.
  intros Hi E. unfold rle4_step in E. destruct (Z.ltb_spec i src_len); cbn [andb negb] in E; [|done].
  destruct (Z.leb_spec 0 y); cbn [andb negb] in E; [|done]. apply bind_inv in E as (b0 & Hb0 & E). cbv zeta in E.
  rewrite (u64_small (i + 1)) in E by lia. destruct (Z.leb_spec src_len (i + 1)); [done|]. split; [lia|].
  apply bind_inv in E as (b1 & Hb1 & E). rewrite (u64_small (i + 1 + 1)) in E by lia. replace (i + 1 + 1) with (i + 2) in E by lia.
  apply zget_found in Hb0 as [_ Hb0], Hb1 as [_ Hb1]. pose proof (bytes_at _ _ _ Hb Hb1) as Hr1.
  unfold rle4_next, rle4_code. rewrite Hb0. cbn [mbind option_bind]. rewrite Hb1. cbn [mbind option_bind].
  destruct (b0 =? 0); [destruct (b1 =? 0); [|destruct (b1 =? 1); [done|destruct (Z.eqb_spec b1 2)]]|].
  - apply bind_inv in E as (y1 & _ & E). by injection E as <- _ _ _.
  - destruct (_ <? _); [done|]. apply bind_inv in E as (dx & _ & (x1 & _ & (dy & _ & (y1 & _ & E)%bind_inv)%bind_inv)%bind_inv).
    injection E as <- _ _ _. rewrite u64_small by lia. f_equal. lia.
  - apply bind_inv in E as ([x1 px1] & _ & E). injection E as <- _ _ _. rewrite Z.quot_div_nonneg by lia. fold (literal_bytes b1).
    assert (0 ≤ literal_bytes b1 ≤ 128) as Hlb by (unfold literal_bytes; zlia). rewrite Z.rem_mod_nonneg by lia.
    pose proof (Z.mod_pos_bound (literal_bytes b1) 2 ltac:(lia)).
    destruct (Z.eqb_spec (literal_bytes b1 mod 2) 0); rewrite u64_small by lia; f_equal; lia.
  - apply bind_inv in E as ([x1 px1] & _ & E). by injection E as <- _ _ _.
Qed.

Lemma rle4_round_ok i x y px :
  palette_covers 16 → (i + 1 < src_len → literal_fits i = true) → rle_state (i, x, y, px) →
  rle4_step data src src_len w h pal (i, x, y, px) ⇓ rle_round i.
Proof using All.
  intros Hp Hslack Hst. pose proof Hst as (Hi & Hx & Hx2 & Hy & Hg). unfold rle4_step.
  destruct (Z.ltb_spec i src_len); cbn [andb negb]; [|by apply wp_ok].
  destruct (Z.leb_spec 0 y); cbn [andb negb]; [|by apply wp_ok].
  apply wp_bind, wp_zget; [lia|]. intros b0 Hb0. pose proof (bytes_at _ _ _ Hb Hb0).
  rewrite (u64_small (i + 1)) by lia. destruct (Z.leb_spec src_len (i + 1)); [by apply wp_ok|].
  apply wp_bind, wp_zget; [lia|]. intros b1 Hb1. pose proof (bytes_at _ _ _ Hb Hb1).
  rewrite (u64_small (i + 1 + 1)) by lia. replace (i + 1 + 1) with (i + 2) by lia.
  destruct (Z.eqb_spec b0 0).
  - apply (escape_ok i x y px b1); [done|lia|done| |lia]. intros Hb2. apply wp_bind.
    rewrite Z.quot_div_nonneg by lia.
    apply wp_mono with (λ s, x ≤ s.1 ≤ x + b1 ∧ good s.2).
    + destruct (Z.ltb_spec (i + 2) src_len) as [Hin2|]; [|apply wp_ok; simpl; split; [lia|done]].
      assert (i + 2 + literal_bytes b1 ≤ src_len) as Hfit.
      { specialize (Hslack ltac:(lia)). unfold literal_fits, rle4_code in Hslack. rewrite Hb0 in Hslack. cbn [mbind option_bind] in Hslack.
        rewrite Hb1 in Hslack. cbn [mbind option_bind] in Hslack. subst b0. rewrite (proj2 (Z.ltb_lt 2 b1)), (proj2 (Z.ltb_lt (i + 2) _)) in Hslack by lia.
        cbn in Hslack. by apply Z.leb_le in Hslack. }
      unfold literal_bytes in Hfit.
      eapply wp_mono; [apply rle_run_ok; [done|lia|lia|]|].
      { intros k x' px' Hk Hg' Hx'. rewrite Z.quot_div_nonneg by lia. rewrite u64_small by zlia.
        apply wp_bind, wp_zget; [zlia|]. intros b _.
        apply rle_put_ok; [done|lia|]. apply (rle_colour_ok 16); [done|apply nibble]. }
      intros [x' px'] (Hx' & Hg'). simpl in *. split; [lia|done].
    + intros [x' px'] (Hx' & Hg'). simpl in Hx', Hg'. apply wp_ok.
      assert (∀ c : bool, 0 ≤ (if c then 0 else 1) ≤ 1) as Hpad by (intros []; lia).
      specialize (Hpad (((b1 + 1) / 2) `rem` 2 =? 0)). set (pad := if _ : bool then 0 else 1) in *.
      clearbody pad. rewrite u64_small by zlia. split; [|simpl; zlia]. split_and!; try done; zlia.
  - apply wp_bind. eapply wp_mono; [apply rle_run_ok; [done|lia|lia|]|].
    { intros k x' px' Hk Hg' Hx'. apply rle_put_ok; [done|lia|].
      apply (rle_colour_ok 16); [done|apply (nibble b1)]. }
    intros [x' px'] (Hx' & Hg'). simpl in Hx', Hg'. apply wp_ok. split; [|simpl; lia].
    split_and!; (lia || done).
Qed.

Lemma rle_loop_ok (P : Z → Prop) step px :
  (∀ i x y px, rle_state (i, x, y, px) → P i → step (i, x, y, px) ⇓ rle_round i) →
  (∀ i x y px i' x' y' px', 0 ≤ i → P i → step (i, x, y, px) = Ok (inl (i', x', y', px')) → i < i' → P i') → P 0 →
  (∀ i x y px, src_len ≤ i → step (i, x, y, px) = Ok (inr px)) → good px →
  (y ← int (h - 1); loop (S (Z.to_nat src_len)) step (0, 0, y, px)) ⇓ good.
Proof using Hw Hh Hlen.
  clear Hb Hin Hsrc. intros Hstep Hnext HP Hend Hg. rewrite int_ok by lia. cbn [mbind outcome_bind].
  apply (wp_loop (λ s, rle_state s ∧ P s.1.1.1) (λ s, Z.to_nat (src_len - s.1.1.1))).
  - intros [[[i x] y] px'] [Hs HPi]. simpl in HPi. destruct (decide (src_len ≤ i)).
    { rewrite Hend by done. apply wp_ok. apply Hs. }
    destruct (Hstep i x y px' Hs HPi) as (r & E & Hr). exists r. split; [done|]. destruct r as [[[[i' x'] y'] px'']|px'']; [|done].
    destruct Hr as (Hs' & Hlt). simpl in *. split; [|lia]. split; [done|]. apply (Hnext i x y px' i' x' y' px''); (done || apply Hs).
  - split; [|done]. split_and!; (lia || apply Hg).
  - simpl. lia.
Qed.

End rle.
End ImageBmpFile.
