(* ===== verification/ImageBmpClaims.v ===== *)
(** The BMP decoder on any file: it stays inside the file, and a complete
    uncompressed file gives the image its bytes describe. *)
From stdpp Require Import base list.
From S2P Require Import Prelude.
From S2P Require Import KString.
From S2P Require Import Bytes.
From S2P Require Import CLib.
From S2P Require Import ImageBmp.
From S2P Require Import ImageBmpRows.
From S2P Require Import ImageBmpFile.
Import KString Bytes ImageBmp ImageBmpSpec ImageBmpRows ImageBmpFile.

Module ImageBmpClaims.

(** * Behind the headers *)
Definition is_rle (d : DibHeader) : Prop := compression d = BI_RLE8 ∨ compression d = BI_RLE4.
Definition dims_ok (d : DibHeader) : Prop := 1 ≤ width d ≤ 16384 ∧ 1 ≤ Z.abs (height d) ≤ 16384.


Lemma default_masks_same d :
  let d' := default_masks d in
  header_size d' = header_size d ∧ width d' = width d ∧ height d' = height d ∧
  bit_count d' = bit_count d ∧ compression d' = compression d ∧ clr_used d' = clr_used d.
Proof. unfold default_masks, set_masks. repeat case_match; simpl; auto 10. Qed.


Lemma stride_same d : stride (default_masks d) = stride d.
Proof. unfold stride. pose proof (default_masks_same d) as (_ & -> & _ & -> & _). done. Qed.

(** The palette the decoder works with. *)
Definition palette_got (A : allocator) (k : nat) (data : list Z) (len : Z) (d : DibHeader)
  : option (list Z) :=
  if (0 <? palette_count d) && avail A k (4 * palette_count d) then Some (palette_of data len d) else None.
Definition palette_reqs (k : nat) (d : DibHeader) : nat := if 0 <? palette_count d then S k else k.

(** How the pixels are made once there is memory for them. *)
Definition make_pixels (data : list Z) (len po : Z) (d : DibHeader) (pal : option (list Z)) : outcome (list Z) :=
  let w := width d in
  let h := Z.abs (height d) in
  let px := replicate (Z.to_nat (w * h)) 0xFFFFFFFF in
  if compression d =? BI_RLE8 then decode_rle8 data po (len - po) px w h pal
  else if compression d =? BI_RLE4 then decode_rle4 data po (len - po) px w h pal
  else decode_rows data len po (default_masks d) (0 <=? height d) w h pal px.

Section image.
Context (A : allocator) (data : list Z) (len po : Z) (d : DibHeader).
Context (Hb : bytes data) (Hl : 0 ≤ len ≤ zlen data) (Hlen : len < 2 ^ 63).
Context (Hsize : 0 ≤ header_size d < 2 ^ 31 - 14).
Context (Hdims : dims_ok d) (Hbc : depth_ok (bit_count d)).

Lemma decode_image_ok k (Q : option BmpImage → Prop) :
  let pal := palette_got A k data len d in
  let k' := palette_reqs k d in
  ((avail A k' (4 * width d * Z.abs (height d)) = true → avail A (S k') 24 = true → False) → Q None) →
  (avail A k' (4 * width d * Z.abs (height d)) = true →
   make_pixels data len po d pal ⇓ λ px,
     avail A (S k') 24 = true → Q (Some (mkBmp px (width d) (Z.abs (height d)) (bit_count d)))) →
  decode_image A k data len po (header_size d =? 12) d ⇓ Q.
Proof using All.
  destruct Hdims as (Hw & Hh). intros pal k' Hnone Hsome. unfold decode_image.
  assert ((if height d <? 0 then int (- height d) else Ok (height d)) = Ok (Z.abs (height d))) as ->.
  { destruct (Z.ltb_spec (height d) 0); [rewrite int_ok by lia|]; f_equal; lia. }
  replace (negb (height d <? 0)) with (0 <=? height d) by (destruct (Z.ltb_spec (height d) 0), (Z.leb_spec 0 (height d)); done || lia).
  cbn [mbind outcome_bind].
  rewrite (proj2 (Z.leb_gt _ 0)), (proj2 (Z.leb_gt _ 0)), (proj2 (Z.ltb_ge 16384 _)), (proj2 (Z.ltb_ge 16384 _)) by lia.
  cbn [orb]. assert (((bit_count d =? 1) || (bit_count d =? 4) || (bit_count d =? 8) ||
    (bit_count d =? 16) || (bit_count d =? 24) || (bit_count d =? 32)) = true) as ->.
  { unfold depth_ok in Hbc. rewrite !elem_of_cons, elem_of_nil in Hbc.
    destruct Hbc as [->|[->|[->|[->|[->|[->|[]]]]]]]; done. }
  cbn [negb]. rewrite (i32_small (header_size d)), (int_ok (14 + header_size d)) by lia. cbn [mbind outcome_bind].
  pose proof (default_masks_same d) as (_ & _ & _ & Hbc' & Hcomp' & _). rewrite Hcomp', Hbc'.
  fold (quad_size d). replace (if bit_count d <=? 8 then _ else 0) with (palette_count d).
  2: { unfold palette_count. by rewrite Z.shiftl_1_l. }
  assert ((if 0 <? palette_count d
           then read_palette A k data len (u64 (14 + header_size d)) (palette_count d) (quad_size d)
           else Ok (None, k)) = Ok (pal, k')) as ->.
  { subst pal k'. unfold palette_got, palette_reqs. destruct (Z.ltb_spec 0 (palette_count d)); [|done].
    by rewrite read_palette_ok. }
  cbn [mbind outcome_bind]. destruct (avail A k' _); [|apply wp_ok, Hnone; discriminate]. cbn [negb].
  apply wp_bind. eapply wp_mono; [by apply Hsome|]. intros px Hq. cbv beta in Hq.
  destruct (avail A (S k') 24); apply wp_ok; [auto|apply Hnone; discriminate].
Qed.

End image.

(** * Any file *)








Lemma dib_header_size data len : header_size (dib data len) = dib_size data.
Proof. unfold dib. by destruct (_ =? 12). Qed.

(** A file whose headers are there. *)
Definition headers_ok (data : list Z) (len : Z) : Prop :=
  field 2 data 0 = BMP_SIGNATURE ∧ pixel_offset data < len ∧ 26 ≤ len ∧ (dib_size data ≠ 12 → 54 ≤ len).

Lemma bmp_decode_header A k data len :
  bytes data → len ≤ zlen data →
  bmp_decode A k (Some data) len =
  if decide (headers_ok data len)
  then decode_image A k data len (pixel_offset data) (header_size (dib data len) =? 12) (dib data len)
  else Ok None.
Proof.
  intros Hb Hl. rewrite dib_header_size. unfold bmp_decode, headers_ok.
  destruct (Z.ltb_spec len 14); [by rewrite decide_False by lia|].
  rewrite read_u16_ok, (read_u32_ok data 2), (read_u32_ok data 10) by (done || lia). cbn [mbind outcome_bind].
  destruct (Z.eqb_spec (field 2 data 0) BMP_SIGNATURE); [|by rewrite decide_False by tauto]. cbn [negb].
  fold (pixel_offset data). destruct (Z.leb_spec len (pixel_offset data)); [by rewrite decide_False by lia|].
  destruct (Z.ltb_spec len 18); [by rewrite decide_False by lia|].
  rewrite (read_u32_ok data 14) by (done || lia). cbn [mbind outcome_bind]. fold (dib_size data).
  destruct (Z.eqb_spec (dib_size data) 12) as [Hc|Hc].
  - destruct (Z.ltb_spec len 26); [by rewrite decide_False by lia|].
    rewrite decide_True by lia. by rewrite Hc, (read_core_ok data len) by (done || lia).
  - destruct (Z.ltb_spec len 54); [by rewrite decide_False by lia|].
    rewrite decide_True by lia. by rewrite read_info_ok by (done || lia).
Qed.



Lemma dib_size_nonneg data len : bytes data → 0 ≤ header_size (dib data len).
Proof. intros Hb. pose proof (field4_range data 14 Hb). unfold dib, dib_size. destruct (_ =? 12); simpl; lia. Qed.


(** A 24-bit header for an image of [w] by [h] pixels. *)
Definition header24 (w h : Z) : list Z :=
  [66; 77] ++ le_bytes 4 0 ++ le_bytes 4 0 ++ le_bytes 4 54 ++ le_bytes 4 40 ++ le_bytes 4 w ++
  le_bytes 4 h ++ le_bytes 2 1 ++ le_bytes 2 24 ++ le_bytes 4 0 ++ le_bytes 4 0 ++ le_bytes 4 0 ++
  le_bytes 4 0 ++ le_bytes 4 0 ++ le_bytes 4 0.

(** Two pixels in one row, and a truncated second row. *)
Definition short_file : list Z := header24 2 2 ++ [1; 2; 3; 4; 5; 6; 0; 0; 7].

Definition plenty : allocator := {| avail := λ _ _, true; junk := λ _ _, 0 |}.

Lemma bytes_dec p : forallb (λ b, (0 <=? b) && (b <? 256)) p = true → bytes p.
Proof.
  intros Hp. apply Forall_forall. intros b Hb. rewrite forallb_forall in Hp.
  apply list_elem_of_In in Hb. specialize (Hp b Hb). apply andb_prop in Hp as [?%Z.leb_le ?%Z.ltb_lt]. lia.
Qed.


(** * Complete uncompressed files *)

(** Files on which the decoder computes [colour] for every pixel. *)
Record decodable (data : list Z) : Prop := mk_decodable {
  dec_bytes : bytes data;
  dec_len : 54 ≤ zlen data < 2 ^ 32;
  dec_signature : field 2 data 0 = BMP_SIGNATURE;
  dec_size : dib_size data < 2 ^ 31 - 14;
  dec_dims : dims_ok (dib data (zlen data));
  dec_depth : depth_ok (bit_count (dib data (zlen data)));
  dec_plain : ¬ is_rle (dib data (zlen data));
  dec_palette : 0 < palette_count (dib data (zlen data)) →
    2 ^ bit_count (dib data (zlen data)) ≤ palette_count (dib data (zlen data));
  dec_masks : masks_contiguous (default_masks (dib data (zlen data)));
  dec_fits : pixel_offset data + Z.abs (height (dib data (zlen data))) * stride (dib data (zlen data))
           ≤ zlen data }.

(** The colour the decoder gives the pixel at column [x] of row [y]. *)
Definition file_colour (data : list Z) (x y : Z) : Z :=
  let d := dib data (zlen data) in
  let pal := if 0 <? palette_count d then Some (palette_of data (zlen data) d) else None in
  colour data (default_masks d) pal
    (pixel_offset data + src_row (0 <=? height d) (Z.abs (height d)) y * stride d) x.

(** What the decoder makes of such a file. *)
Definition gives (data : list Z) (img : BmpImage) : Prop :=
  let d := dib data (zlen data) in
  img_width img = width d ∧ img_height img = Z.abs (height d) ∧ bit_depth img = bit_count d ∧
  ∀ x y, 0 ≤ x < width d → 0 ≤ y < Z.abs (height d) →
    bmp_get_pixel (Some img) x y = Ok (file_colour data x y).

Lemma rows_exact data len po d pal :
  bytes data → 0 ≤ len ≤ zlen data → len < 2 ^ 63 → 0 ≤ po < 2 ^ 32 →
  dims_ok d → depth_ok (bit_count d) → ¬ is_rle d → palette_ok (bit_count d) pal →
  masks_contiguous (default_masks d) → po + Z.abs (height d) * stride d ≤ len →
  make_pixels data len po d pal ⇓ λ px,
    ∀ x y, 0 ≤ x < width d → 0 ≤ y < Z.abs (height d) →
      px !! Z.to_nat (y * width d + x) =
      Some (colour data (default_masks d) pal
              (po + src_row (0 <=? height d) (Z.abs (height d)) y * stride d) x).
Proof.
  intros Hb Hl Hlen Hpo (Hw & Hh) Hbc Hplain Hpal Hmasks Hfits. unfold make_pixels, is_rle in *.
  rewrite (proj2 (Z.eqb_neq (compression d) BI_RLE8)), (proj2 (Z.eqb_neq (compression d) BI_RLE4)) by tauto.
  pose proof (default_masks_same d) as (_ & Hw' & _ & Hbc' & _). pose proof (stride_same d) as Hst.
  pose proof (stride_range d Hbc Hw) as Hsr.
  generalize dependent (default_masks d). intros d' Hmasks Hw' Hbc' Hst.
  set (h := Z.abs (height d)) in *. set (flip := 0 <=? height d). clearbody h flip.
  rewrite <-Hbc' in Hbc, Hpal. rewrite <-Hw' in *. rewrite <-Hst in *. clear Hbc' Hw' Hst Hplain d.
  assert (∀ y, 0 ≤ y < h → row_fits len po d' flip h y) as Hall.
  { intros y Hy. unfold row_fits, row_off, src_row. destruct flip; nia. }
  assert (∀ x y, 0 ≤ x < width d' → 0 ≤ y < h →
    pixel data d' pal (row_off po d' flip h y) x = Ok (colour data d' pal (row_off po d' flip h y) x)) as Hpix.
  { intros x y Hx Hy. pose proof (Hall y Hy) as Hfit. unfold row_fits in Hfit.
    pose proof (row_off_range po d' flip h Hbc Hw Hh Hpo y Hy). pose proof (stride_fits d' x Hbc Hx).
    apply pixel_ok; [done|done|done|lia|lia|lia|done]. }
  eapply wp_mono.
  { apply (decode_rows_ok data len po d' flip h pal Hbc Hw Hh ltac:(lia) Hpo).
    - intros x y Hx Hy _. rewrite Hpix by done. by eexists.
    - unfold zlen. rewrite length_replicate. nia. }
  intros px (n & Hn & (_ & Hdone) & _ & Hend) x y Hx Hy. rewrite Hdone by done. assert (n = h) as ->.
  { destruct (decide (n < h)) as [Hlt|]; [|lia]. by destruct (Hend Hlt (Hall n ltac:(lia))). }
  rewrite decide_True by lia. by rewrite Hpix.
Qed.

Lemma bmp_decode_file_ok A k data :
  (∀ k n, avail A k n = true) → decodable data →
  ∃ img, bmp_decode A k (Some data) (zlen data) = Ok (Some img) ∧ gives data img.
Proof.
  intros HA [Hb Hlen Hsig Hsize Hdims Hbc Hplain Hpc Hmasks Hfits].
  pose proof (stride_range _ Hbc (proj1 Hdims)) as Hsr. pose proof Hdims as (Hw & Hh).
  pose proof (field4_range data 10 Hb) as Hpo. fold (pixel_offset data) in Hpo.
  pose proof (dib_size_nonneg data (zlen data) Hb) as Hsz. pose proof (dib_header_size data (zlen data)) as Hds.
  rewrite bmp_decode_header by (done || lia).
  rewrite decide_True by (unfold headers_ok; split_and!; [done|nia|lia|lia]).
  unfold gives, file_colour. generalize dependent (dib data (zlen data)). intros d Hdims Hbc Hplain Hpc Hmasks Hfits Hsr Hw Hh Hsz Hds.
  set (pal := if 0 <? palette_count d then Some (palette_of data (zlen data) d) else None).
  assert (palette_got A k data (zlen data) d = pal) as Hgot.
  { unfold palette_got, pal. by rewrite HA, andb_true_r. }
  assert (palette_ok (bit_count d) pal) as Hpok.
  { unfold pal. destruct (Z.ltb_spec 0 (palette_count d)); [|done]. split; [by apply palette_of_range|].
    intros _. rewrite zlen_palette by lia. auto. }
  destruct (decode_image_ok A data (zlen data) (pixel_offset data) d) with (k := k)
    (Q := λ r, ∃ px, r = Some (mkBmp px (width d) (Z.abs (height d)) (bit_count d)) ∧
      ∀ x y, 0 ≤ x < width d → 0 ≤ y < Z.abs (height d) →
      px !! Z.to_nat (y * width d + x) =
      Some (colour data (default_masks d) pal
              (pixel_offset data + src_row (0 <=? height d) (Z.abs (height d)) y * stride d) x))
    as (r & Hr & px & -> & Hpx); try (done || lia).
  - intros Hno. by destruct (Hno (HA _ _) (HA _ _)).
  - intros _. rewrite Hgot. eapply wp_mono; [apply rows_exact; (done || lia)|].
    intros px Hpx _. by exists px.
  - eexists. split; [exact Hr|]. simpl. split_and!; [done|done|done|]. intros x y Hx Hy.
    rewrite (proj2 (Z.ltb_ge x 0)), (proj2 (Z.ltb_ge y 0)), (proj2 (Z.leb_gt _ x)), (proj2 (Z.leb_gt _ y)) by lia.
    cbn [orb]. rewrite (int_ok (y * width d)) by nia. cbn [mbind outcome_bind].
    rewrite (int_ok (y * width d + x)) by nia. cbn [mbind outcome_bind].
    apply zget_ok; [nia|]. by apply Hpx.
Qed.

(** * The file format *)

(** Red, green and blue. *)
Definition rgb : Type := Z * Z * Z.

(** Three bytes of the file in the order blue, green, red. *)
Definition bgr_at (data : list Z) (off : Z) : rgb := (field 1 data (off + 2), field 1 data (off + 1), field 1 data off).

(** The byte offset of row [y] counted from the top: a positive height means that the bottom row comes first. *)
Definition row_start (data : list Z) (y : Z) : Z :=
  let d := dib data (zlen data) in
  pixel_offset data + (if 0 <? height d then height d - 1 - y else y) * stride d.

(** The pixel at column [x] of row [y]: an index into the table of colours behind the header, a
    16-bit value of three 5-bit levels, three bytes, four bytes of which the last is not used, or a
    value of 16 or 32 bits with a level under each of the three masks behind the header. *)
Definition rgb_at (data : list Z) (x y : Z) : rgb :=
  let d := dib data (zlen data) in
  let row := row_start data y in
  let bc := bit_count d in
  if bc <=? 8 then
    let idx := field 1 data (row + x * bc / 8) / 2 ^ (8 - bc - (x * bc) mod 8) mod 2 ^ bc in
    bgr_at data (14 + dib_size data + idx * (if dib_size data =? 12 then 3 else 4))
  else if compression d =? BI_BITFIELDS then
    let v := if bc =? 16 then field 2 data (row + 2 * x) else field 4 data (row + 4 * x) in
    (channel v (field 4 data 54), channel v (field 4 data 58), channel v (field 4 data 62))
  else if bc =? 16 then
    let v := field 2 data (row + 2 * x) in
    (scaled 5 (v / 2 ^ 10 mod 2 ^ 5), scaled 5 (v / 2 ^ 5 mod 2 ^ 5), scaled 5 (v mod 2 ^ 5))
  else bgr_at data (row + bc / 8 * x).

(** The colours are given directly, or by masks, each of a run of bits. *)
Definition pixel_format (data : list Z) : Prop :=
  let d := dib data (zlen data) in
  (compression d = BI_RGB ∧ red_mask d = 0 ∧ green_mask d = 0 ∧ blue_mask d = 0 ∧ alpha_mask d = 0) ∨
  (compression d = BI_BITFIELDS ∧ (bit_count d = 16 ∨ bit_count d = 32) ∧ 66 ≤ zlen data ∧ masks_contiguous d ∧
   red_mask d ≠ 0).

(** A file that is as the format says, with all its rows and a colour for every index. *)
Record bmp_file (data : list Z) : Prop := mk_bmp_file {
  f_bytes : bytes data;
  f_len : 54 ≤ zlen data < 2 ^ 32;
  f_signature : field 2 data 0 = BMP_SIGNATURE;
  f_header : dib_size data = 12 ∨ 40 ≤ dib_size data < 2 ^ 31 - 14;
  f_dims : dims_ok (dib data (zlen data));
  f_depth : depth_ok (bit_count (dib data (zlen data)));
  f_format : pixel_format data;
  f_palette : bit_count (dib data (zlen data)) ≤ 8 →
    2 ^ bit_count (dib data (zlen data)) ≤ palette_count (dib data (zlen data)) ∧
    14 + dib_size data + 2 ^ bit_count (dib data (zlen data)) * (if dib_size data =? 12 then 3 else 4) ≤ zlen data;
  f_fits : pixel_offset data + Z.abs (height (dib data (zlen data))) * stride (dib data (zlen data))
           ≤ zlen data }.

(** The three colours of a pixel of the decoded image. *)
Definition rgb_of (c : Z) : rgb := (c / 2 ^ 16 mod 256, c / 2 ^ 8 mod 256, c mod 256).

Definition shows (data : list Z) (img : BmpImage) : Prop :=
  let d := dib data (zlen data) in
  img_width img = width d ∧ img_height img = Z.abs (height d) ∧ bit_depth img = bit_count d ∧
  ∀ x y, 0 ≤ x < width d → 0 ≤ y < Z.abs (height d) →
    ∃ c, bmp_get_pixel (Some img) x y = Ok c ∧ rgb_of c = rgb_at data x y.

Lemma file_decodable data : bmp_file data → decodable data.
Proof.
  intros [Hb Hl Hs Hh Hd Hbc Hf Hp Hfit]. pose proof (dib_size_nonneg data (zlen data) Hb).
  constructor; try done.
  - destruct Hh as [-> | ?]; lia.
  - unfold is_rle. destruct Hf as [(-> & _)|(-> & _)]; intros [?|?]; discriminate.
  - intros Hpos. apply Hp. unfold palette_count in Hpos. destruct (Z.leb_spec (bit_count (dib data (zlen data))) 8); [done|lia].
  - unfold default_masks. destruct Hf as [(-> & R & G & B & A)|(-> & _ & _ & Hm & Hr)].
    + cbn [Z.eqb orb BI_RGB BI_BITFIELDS BI_ALPHABITFIELDS Pos.eqb]. destruct (_ =? 16).
      * repeat split; cbn; [right; exists 10, 5|right; exists 5, 5|right; exists 0, 5|by left]; lia.
      * unfold masks_contiguous, contiguous. rewrite R, G, B, A. auto.
    + cbn [Z.eqb orb BI_RGB BI_BITFIELDS BI_ALPHABITFIELDS Pos.eqb]. by rewrite (proj2 (Z.eqb_neq _ 0)).
Qed.

Lemma rgb_of_sum a r g b : 0 ≤ r < 256 → 0 ≤ g < 256 → 0 ≤ b < 256 → rgb_of (a * 2 ^ 24 + r * 2 ^ 16 + g * 2 ^ 8 + b) = (r, g, b).
Proof. intros. unfold rgb_of. f_equal; [f_equal|]; zlia. Qed.

Lemma rgb_of_3 data off a : bytes data → 0 ≤ off → off + 3 ≤ zlen data → rgb_of (a * 2 ^ 24 + field 3 data off) = bgr_at data off.
Proof.
  intros Hb H0 Hl. rewrite (field_split 2), (field_split 1), (field_split 0), field_0 by lia.
  pose proof (byte_range data off Hb). pose proof (byte_range data (off + 1) Hb). pose proof (byte_range data (off + 1 + 1) Hb).
  unfold bgr_at. replace (off + 2) with (off + 1 + 1) by lia. rewrite <-(rgb_of_sum a) by lia. f_equal. rewrite (field_split 0), field_0 by lia. lia.
Qed.

Lemma rgb_of_4 data off : bytes data → 0 ≤ off → off + 4 ≤ zlen data → rgb_of (field 4 data off) = bgr_at data off.
Proof.
  intros Hb H0 Hl. rewrite <-(rgb_of_3 data off (field 1 data (off + 3))) by (done || lia).
  rewrite (field_split 3), (field_split 2 data (off + 1)), (field_split 1 data (off + 1 + 1)), (field_split 0 data (off + 1 + 1 + 1)), field_0 by lia.
  rewrite (field_split 2 data off), (field_split 1 data (off + 1)), (field_split 0 data (off + 1 + 1)), field_0 by lia.
  replace (off + 3) with (off + 1 + 1 + 1) by lia. f_equal. lia.
Qed.

(** Where a row of the file is. *)
Lemma row_start_ok data y : bmp_file data → 0 ≤ y < Z.abs (height (dib data (zlen data))) →
  let d := dib data (zlen data) in
  pixel_offset data + src_row (0 <=? height d) (Z.abs (height d)) y * stride d = row_start data y ∧
  0 ≤ row_start data y ∧ row_start data y + stride d ≤ zlen data.
Proof.
  intros [Hb _ _ _ [Hw Hh] Hbc _ _ Hfit] Hy d. unfold row_start. fold d in Hy, Hw, Hh, Hbc, Hfit |- *.
  pose proof (stride_range d Hbc Hw). pose proof (field4_range data 10 Hb) as Hpo. fold (pixel_offset data) in Hpo.
  assert (src_row (0 <=? height d) (Z.abs (height d)) y = if 0 <? height d then height d - 1 - y else y) as ->.
  { unfold src_row. destruct (Z.leb_spec 0 (height d)), (Z.ltb_spec 0 (height d)); lia. }
  split; [done|]. destruct (Z.ltb_spec 0 (height d)); nia.
Qed.

(** A colour of the table behind the header. *)
Lemma palette_rgb data idx : bmp_file data → let d := dib data (zlen data) in
  bit_count d ≤ 8 → 0 ≤ idx < 2 ^ bit_count d →
  (if 0 <? palette_count d then Some (palette_of data (zlen data) d) else None) = Some (palette_of data (zlen data) d) ∧
  rgb_of (default 0 (palette_of data (zlen data) d !! Z.to_nat idx)) =
    bgr_at data (14 + dib_size data + idx * (if dib_size data =? 12 then 3 else 4)).
Proof.
  intros [Hb _ _ _ _ _ _ Hp _] d Hbc Hi. destruct (Hp Hbc) as [Hpc Hend]. clear Hp. fold d in Hpc, Hend.
  rewrite (proj2 (Z.ltb_lt 0 _)) by lia. split; [done|]. unfold palette_of.
  rewrite list_lookup_fmap, lookup_seq_lt by lia. cbn [fmap option_fmap option_map default from_option id]. rewrite Nat.add_0_l, Z2Nat.id by lia.
  pose proof (dib_size_nonneg data (zlen data) Hb) as Hsz. fold d in Hsz.
  unfold palette_entry, quad_size. pose proof (dib_header_size data (zlen data)) as Hds. fold d in Hds. rewrite Hds in *.
  destruct (dib_size data =? 12).
  - rewrite (proj2 (Z.leb_le _ _)) by lia. cbn [Z.eqb Pos.eqb]. apply rgb_of_3; (done || lia).
  - rewrite (proj2 (Z.leb_le _ _)) by lia. cbn [Z.eqb Pos.eqb]. apply rgb_of_4; (done || lia).
Qed.

Lemma bitfield_masks data : compression (dib data (zlen data)) = BI_BITFIELDS → 66 ≤ zlen data →
  red_mask (dib data (zlen data)) = field 4 data 54 ∧ green_mask (dib data (zlen data)) = field 4 data 58 ∧
  blue_mask (dib data (zlen data)) = field 4 data 62.
Proof.
  unfold dib. destruct (_ =? 12); simpl; [done|]. intros -> Hl. rewrite Z.eqb_refl, orb_true_r, (proj2 (Z.leb_le _ _)) by lia. done.
Qed.

(** The decoder's colour of a pixel has the red, green and blue of the file. *)
Lemma file_colour_rgb data x y : bmp_file data → 0 ≤ x < width (dib data (zlen data)) → 0 ≤ y < Z.abs (height (dib data (zlen data))) →
  rgb_of (file_colour data x y) = rgb_at data x y.
Proof.
  intros Hfile Hx Hy. destruct (row_start_ok data y Hfile Hy) as (Hrow & Hr0 & Hr1). unfold file_colour. cbv zeta. rewrite Hrow. clear Hrow.
  pose proof (palette_rgb data) as Hpal. cbv zeta in Hpal. unfold rgb_at. cbv zeta. pose proof Hfile as [Hb _ _ _ _ Hbc Hf _ _].
  unfold pixel_format in Hf. cbv zeta in Hf. pose proof (bitfield_masks data) as Hbm.
  set (d := dib data (zlen data)) in *. pose proof (default_masks_same d) as (_ & _ & _ & Ebc & Eco & _). pose proof (stride_fits d x Hbc Hx) as Hst.
  unfold colour. cbv zeta. rewrite Ebc. destruct (Z.leb_spec (bit_count d) 8) as [H8|H8].
  { specialize (Hpal (field 1 data (row_start data y + x * bit_count d / 8) / 2 ^ (8 - bit_count d - (x * bit_count d) mod 8) mod 2 ^ bit_count d) Hfile H8).
    destruct Hpal as [-> Hrgb]; [|exact Hrgb]. apply Z.mod_pos_bound, Z.pow_pos_nonneg; [lia|]. pose proof (depth_range d Hbc). lia. }
  destruct Hf as [(Hc & R & G & B & A0)|(Hc & Hd & H66 & Hm & Hred)].
  - rewrite Hc. cbn [Z.eqb BI_RGB BI_BITFIELDS Pos.eqb]. unfold depth_ok in Hbc. rewrite !elem_of_cons, elem_of_nil in Hbc.
    unfold default_masks. rewrite Hc. cbn [Z.eqb orb BI_RGB BI_BITFIELDS BI_ALPHABITFIELDS Pos.eqb].
    destruct Hbc as [E|[E|[E|[E|[E|[E|[]]]]]]]; rewrite E in *; try lia; cbn [Z.eqb Pos.eqb andb set_masks red_mask green_mask blue_mask alpha_mask].
    + unfold channel. cbn [Z.eqb]. change (low 31744) with 10. change (low 992) with 5. change (low 31) with 0.
      change (mask_width 31744) with 5. change (mask_width 992) with 5. change (mask_width 31) with 5. rewrite Z.div_1_r.
      apply rgb_of_sum; apply scaled_range; try lia; apply Z.mod_pos_bound; lia.
    + rewrite rgb_of_3; [done|done|lia|zlia].
    + rewrite R, G, B. cbn [Z.eqb andb]. change (32 / 8) with 4. rewrite <-(rgb_of_4 data (row_start data y + 4 * x)) by (done || lia || zlia).
      clear Hpal. case_match; [|done]. unfold rgb_of. set (v := field 4 data _). clearbody v. f_equal; [f_equal|]; zlia.
  - destruct (Hbm Hc H66) as (ER & EG & EB). rewrite Hc. cbn [Z.eqb BI_BITFIELDS Pos.eqb].
    unfold default_masks. rewrite Hc. cbn [Z.eqb orb BI_RGB BI_BITFIELDS BI_ALPHABITFIELDS Pos.eqb]. rewrite (proj2 (Z.eqb_neq (red_mask d) 0)) by done.
    rewrite !(proj2 (Z.eqb_neq (red_mask d) 0)) by done. rewrite !andb_false_r. cbn [andb]. destruct Hm as (M1 & M2 & M3 & _).
    rewrite <-ER, <-EG, <-EB. rewrite (proj2 (Z.eqb_neq (bit_count d) 24)) by lia. apply rgb_of_sum; by apply channel_range.
Qed.

(** C16: bmp_decode of an uncompressed bitmap file, given the memory it asks for, returns an
    image of the file's width, height and depth in which the red, green and blue of every pixel
    are those the file format puts there: rows bottom-up or top-down and padded to four bytes,
    palette indices from the high bits on, blue before green before red, and channels under
    masks scaled to 0..255 and rounded down. The file has a header of 12 or of 40 and more
    bytes, is below 4 GiB and holds all rows; its format is BI_RGB (1, 4, 8, 16, 24 or 32 bits,
    the mask fields zero) or BI_BITFIELDS of 16 or 32 bits with masks that are runs of bits and
    a red one that is not zero; a palette has a colour for every index and lies in the file. The
    alpha of the pixels is not stated. *)
Theorem bmp_pixels_correct A k data :
  (∀ k n, avail A k n = true) → bmp_file data →
  ∃ img, bmp_decode A k (Some data) (zlen data) = Ok (Some img) ∧ shows data img.
Proof.
  intros HA Hf. destruct (bmp_decode_file_ok A k data HA (file_decodable data Hf)) as (img & E & Hw & Hh & Hd & Hpx).
  exists img. split; [exact E|]. split_and!; try done. intros x y Hx Hy. exists (file_colour data x y).
  split; [by apply Hpx|]. by apply file_colour_rgb.
Qed.

(** Two pixels, bottom-up: one row of six bytes and two of padding. *)
Definition two_pixels : list Z := header24 2 1 ++ [1; 2; 3; 4; 5; 6; 0; 0].

Lemma bmp_pixels_correct_witness :
  ∃ img, bmp_decode plenty 0 (Some two_pixels) (zlen two_pixels) = Ok (Some img) ∧ shows two_pixels img.
Proof.
  apply (bmp_pixels_correct plenty 0 two_pixels); [done|]. split.
  - apply bytes_dec. reflexivity.
  - vm_compute. split; [discriminate|reflexivity].
  - vm_compute. reflexivity.
  - right. vm_compute. split; [discriminate|reflexivity].
  - vm_compute. repeat split; discriminate.
  - unfold depth_ok. rewrite !elem_of_cons. vm_compute. tauto.
  - left. vm_compute. tauto.
  - vm_compute. intros Hx. by destruct Hx.
  - vm_compute. discriminate.
Defined.

(** The two pixels: blue, green and red are stored in this order. *)
Lemma two_pixels_colours : rgb_at two_pixels 0 0 = (3, 2, 1) ∧ rgb_at two_pixels 1 0 = (6, 5, 4).
Proof. split; vm_compute; reflexivity. Qed.

(** * Files on which the decoder leaves its arrays *)

(** An 8-bit header with [size] as its length and [used] palette entries. *)
Definition header8 (size h comp used : Z) : list Z :=
  [66; 77] ++ le_bytes 4 0 ++ le_bytes 4 0 ++ le_bytes 4 58 ++ le_bytes 4 size ++ le_bytes 4 1 ++
  le_bytes 4 h ++ le_bytes 2 1 ++ le_bytes 2 8 ++ le_bytes 4 comp ++ le_bytes 4 0 ++ le_bytes 4 0 ++
  le_bytes 4 0 ++ le_bytes 4 used ++ le_bytes 4 0.

(** A palette of one entry and a pixel that names entry 5: the decoder reads
    behind the palette. *)
Lemma short_palette_unsound :
  bmp_decode plenty 0 (Some (header8 40 1 0 1 ++ [1; 2; 3; 4; 5; 0; 0; 0])) 62 = Undef.
Proof. vm_compute. reflexivity. Qed.

(** A header length of 2^32 - 18 puts the palette four bytes before the file:
    the sum that is compared with the length wraps to zero. *)
Lemma header_size_unsound A k data len n :
  0 ≤ len → zlen data < 2 ^ 32 → 1 ≤ n ≤ 256 → avail A k (4 * n) = true →
  read_palette A k data len (u64 (14 + i32 (2 ^ 32 - 18))) n 4 = Undef.
Proof.
  intros Hlen Hd Hn Ha. unfold read_palette. change (u64 (14 + i32 (2 ^ 32 - 18))) with (2 ^ 64 - 4).
  rewrite (proj2 (Z.leb_gt n 0)), (proj2 (Z.ltb_ge 256 n)), Ha by lia. cbn [orb negb].
  unfold for_each, for_loop. destruct (Z.to_nat (n - 0)) as [|m] eqn:E; [lia|]. cbn [for_nat].
  replace (u64 (2 ^ 64 - 4 + 0 * 4)) with (2 ^ 64 - 4) by done. change (u64 (2 ^ 64 - 4 + 4)) with 0.
  rewrite (proj2 (Z.ltb_ge len 0)) by lia. assert (zget data (2 ^ 64 - 4) = Undef) as ->; [|done].
  unfold zget. case_decide; [|done]. rewrite lookup_ge_None_2; [done|]. unfold zlen in Hd. lia.
Qed.

(** A height of -2^31 cannot be negated. *)
Lemma least_height_unsound :
  bmp_decode plenty 0 (Some (header8 40 (2 ^ 31) 0 1 ++ [1; 2; 3; 4; 0; 0; 0; 0])) 62 = Undef.
Proof. vm_compute. reflexivity. Qed.

(** An RLE4 run in absolute mode that is cut off by the end of the file is
    read on behind it. *)
Lemma rle4_cut_unsound :
  bmp_decode plenty 0 (Some (header8 40 1 2 0 ++ [1; 2; 3; 4; 0; 200; 17])) 61 = Undef.
Proof. vm_compute. reflexivity. Qed.

(** A bottom-up file that lacks its last byte shows nothing of its first row:
    the row that is incomplete is the first the loop comes to. *)
Lemma truncated_bottom_up_white :
  match bmp_decode plenty 0 (Some short_file) 63 with
  | Ok (Some img) => pixels img = replicate 4 0xFFFFFFFF
  | _ => False
  end.
Proof. vm_compute. reflexivity. Qed.

End ImageBmpClaims.
