(* ===== verification/ImageBmpRle.v ===== *)
(** Run-length coded images: what [decode_rle8] makes of the encoding of an
    image, and the files on which the decoder leaves its arrays. *)
From stdpp Require Import base list.
From S2P Require Import Prelude.
From S2P Require Import KString.
From S2P Require Import Bytes.
From S2P Require Import CLib.
From S2P Require Import ImageBmp.
From S2P Require Import ImageBmpRows.
From S2P Require Import ImageBmpFile.
From S2P Require Import ImageBmpClaims.
Import KString Bytes ImageBmp ImageBmpSpec ImageBmpRows ImageBmpFile ImageBmpClaims.

Module ImageBmpRle.

(** * The encoding *)

(** A piece of a row: [n] times the same index, or indices one by one. *)
Inductive seg := Run (n c : Z) | Absolute (cs : list Z).

Definition seg_ok (s : seg) : Prop :=
  match s with
  | Run n c => 1 ≤ n ≤ 255 ∧ 0 ≤ c < 256
  | Absolute cs => 3 ≤ zlen cs ≤ 255 ∧ bytes cs
  end.
Definition seg_pixels (s : seg) : list Z :=
  match s with Run n c => replicate (Z.to_nat n) c | Absolute cs => cs end.
Definition seg_bytes (s : seg) : list Z :=
  match s with
  | Run n c => [n; c]
  | Absolute cs => [0; zlen cs] ++ cs ++ (if zlen cs mod 2 =? 0 then [] else [0])
  end.

Definition row_pixels (row : list seg) : list Z := concat (map seg_pixels row).
Definition row_bytes (row : list seg) : list Z := concat (map seg_bytes row) ++ [0; 0].
(** The rows from the bottom up, each with its end mark, and the end of the image. *)
Definition encode (rows : list (list seg)) : list Z := concat (map row_bytes rows) ++ [0; 1].

(** * Reading along *)
Lemma drop_get (data l : list Z) n j :
  0 ≤ n → 0 ≤ j < zlen l → drop (Z.to_nat n) data = l → zget data (n + j) = zget l j.
Proof.
  intros Hn Hj Hd. destruct (zget_in l j Hj) as (c & Hc). rewrite (zget_ok l j c) by (done || lia).
  apply zget_ok; [lia|]. rewrite <-Hd, lookup_drop in Hc. by rewrite Z2Nat.inj_add by lia.
Qed.

Lemma drop_more (data l k : list Z) n :
  0 ≤ n → drop (Z.to_nat n) data = l ++ k → drop (Z.to_nat (n + zlen l)) data = k.
Proof.
  intros Hn Hd. unfold zlen. rewrite Z2Nat.inj_add, Nat2Z.id, <-drop_drop, Hd, drop_app_length by lia. done.
Qed.

Lemma zlen_row_pixels_app a b : zlen (row_pixels (a ++ b)) = zlen (row_pixels a) + zlen (row_pixels b).
Proof. unfold row_pixels. by rewrite map_app, concat_app, zlen_app. Qed.

Section rle8.
Context (data : list Z) (src src_len w h : Z) (p : list Z) (rows : list (list seg)) (post : list Z).
Context (Hw : 1 ≤ w ≤ 16384) (Hh : 1 ≤ h ≤ 16384) (Hp : 256 ≤ zlen p).
Context (Hsrc : 0 ≤ src) (Hlen : 0 ≤ src_len < 2 ^ 32).
Context (Hdata : drop (Z.to_nat src) data = encode rows ++ post) (Hsl : src_len = zlen (encode rows)).
Context (Hrows : zlen rows = h) (Hwidth : Forall (λ row, zlen (row_pixels row) = w ∧ Forall seg_ok row) rows).

(** The colour of column [x] in row [r], counted from the bottom. *)
Definition want (r x : Z) : option Z :=
  row ← rows !! Z.to_nat r; c ← row_pixels row !! Z.to_nat x; p !! Z.to_nat c.

(** The rows below [n] and the first [x] columns of row [n] are there. *)
Definition painted (px : list Z) (n x : Z) : Prop :=
  zlen px = w * h ∧
  ∀ r x', 0 ≤ r < h → 0 ≤ x' < w → r < n ∨ r = n ∧ x' < x →
    px !! Z.to_nat ((h - 1 - r) * w + x') = want r x'.

Lemma put_ok px n x c :
  painted px n x → 0 ≤ n < h → 0 ≤ x < w → want n x = Some c →
  ∃ px', rle_put w h (h - 1 - n) (Ok c) (x, px) = Ok (x + 1, px') ∧ painted px' n (x + 1).
Proof using Hw Hh.
  clear Hdata Hsl Hrows. intros (Hl & Hd) Hn Hx Hc. unfold rle_put.
  rewrite (proj2 (Z.ltb_lt x w)), (proj2 (Z.leb_le 0 _)), (proj2 (Z.ltb_lt _ h)) by lia. cbn [andb mbind outcome_bind].
  rewrite zset_ok by nia. cbn [mbind outcome_bind]. rewrite int_ok by lia. eexists. split; [done|].
  split; [by rewrite zlen_insert|]. intros r x' Hr Hx' Hcase.
  destruct (decide (r = n ∧ x' = x)) as [(-> & ->)|Hne].
  - rewrite list_lookup_insert_eq; [done|]. unfold zlen in *. nia.
  - rewrite list_lookup_insert_ne; [apply Hd; (done || lia)|].
    intros Heq. apply Hne. assert ((h - 1 - n) * w + x = (h - 1 - r) * w + x') as He by nia.
    assert (h - 1 - n = h - 1 - r) by nia. lia.
Qed.

(** A run of puts whose colours are those of the row. *)
Lemma puts_ok (body : Z → Z * list Z → outcome (Z * list Z)) px n x count :
  painted px n x → 0 ≤ n < h → 0 ≤ x → 0 ≤ count → x + count ≤ w →
  (∀ k px', 0 ≤ k < count → painted px' n (x + k) →
     ∃ c, want n (x + k) = Some c ∧
          body k (x + k, px') = rle_put w h (h - 1 - n) (Ok c) (x + k, px')) →
  ∃ px', for_each 0 count body (x, px) = Ok (x + count, px') ∧ painted px' n (x + count).
Proof using Hw Hh.
  clear Hdata Hsl Hrows. intros Hpx Hn Hx Hc Hxw Hbody.
  assert (for_each 0 count body (x, px) ⇓ λ s, s.1 = x + count ∧ painted s.2 n (x + count)) as ([x' px'] & -> & Hs).
  { apply (wp_for_each (λ k s, s.1 = x + k ∧ painted s.2 n (x + k))); [lia| | |done].
    - rewrite Z.add_0_r. done.
    - intros k [x' px'] Hk (Hx' & Hpx'). simpl in Hx', Hpx'. subst x'.
      destruct (Hbody k px' Hk Hpx') as (c & Hwant & ->).
      destruct (put_ok px' n (x + k) c) as (px'' & -> & Hpx''); [done|done|lia|done|].
      apply wp_ok. simpl. by rewrite Z.add_assoc. }
  simpl in Hs. destruct Hs as (-> & Hs). by exists px'.
Qed.

(** What is still to be read: the rest [ss] of the current row and the rows [rs]. *)
Definition rest (ss : list seg) (rs : list (list seg)) : list Z :=
  concat (map seg_bytes ss) ++ [0; 0] ++ encode rs ++ post.

Definition at_row (n : Z) (ds ss : list seg) (rs : list (list seg)) : Prop :=
  rows !! Z.to_nat n = Some (ds ++ ss) ∧ drop (Z.to_nat (n + 1)) rows = rs ∧ 0 ≤ n < h.

Definition decoding (s : Z * Z * Z * list Z) : Prop :=
  let '(i, x, y, px) := s in
  0 ≤ i ∧ painted px (h - 1 - y) x ∧
  (y = -1 ∧ x = 0 ∨
   ∃ ds ss rs, at_row (h - 1 - y) ds ss rs ∧ x = zlen (row_pixels ds) ∧
     drop (Z.to_nat (src + i)) data = rest ss rs ∧ i = src_len - zlen (rest ss rs) + zlen post).

Lemma row_facts n row : rows !! Z.to_nat n = Some row → zlen (row_pixels row) = w ∧ Forall seg_ok row.
Proof using Hwidth. intros Hr. by apply (Forall_lookup_1 _ _ _ _ Hwidth Hr). Qed.

Lemma want_in n ds s ss rs k :
  at_row n ds (s :: ss) rs → 0 ≤ k < zlen (seg_pixels s) →
  ∃ i, seg_pixels s !! Z.to_nat k = Some i ∧
       (0 ≤ i < 256 → ∃ c, p !! Z.to_nat i = Some c ∧ want n (zlen (row_pixels ds) + k) = Some c).
Proof using Hp.
  clear Hdata Hsl Hrows. intros (Hrow & _) Hk. destruct (zget_in _ _ Hk) as (i & Hi). exists i. split; [done|].
  intros Hr. destruct (zget_in p i ltac:(lia)) as (c & Hc). exists c. split; [done|].
  unfold want. rewrite Hrow. simpl. unfold row_pixels in *. rewrite map_app, concat_app. simpl.
  rewrite lookup_app_r by (unfold zlen; lia).
  replace (Z.to_nat (zlen (concat (map seg_pixels ds)) + k) - length (concat (map seg_pixels ds)))%nat
    with (Z.to_nat k) by (unfold zlen; lia).
  rewrite lookup_app_l by (apply lookup_lt_Some in Hi; done). by rewrite Hi.
Qed.

Lemma rest_next s ss rs : rest (s :: ss) rs = seg_bytes s ++ rest ss rs.
Proof using. unfold rest. simpl. by rewrite <-app_assoc. Qed.

Lemma zlen_rest ss rs : 4 + zlen post ≤ zlen (rest ss rs).
Proof using. unfold rest, encode. rewrite !zlen_app. pose proof (zlen_nonneg (concat (map seg_bytes ss))).
  pose proof (zlen_nonneg (concat (map row_bytes rs))). change (zlen [0; 0]) with 2. change (zlen [0; 1]) with 2. lia. Qed.

(** Moving on by the bytes of one piece. *)
Lemma piece_done i px x n ds s ss rs :
  0 ≤ i → drop (Z.to_nat (src + i)) data = rest (s :: ss) rs →
  i = src_len - zlen (rest (s :: ss) rs) + zlen post → at_row n ds (s :: ss) rs →
  x = zlen (row_pixels ds) → painted px n (x + zlen (seg_pixels s)) →
  decoding (i + zlen (seg_bytes s), x + zlen (seg_pixels s), h - 1 - n, px).
Proof using Hsrc.
  clear Hdata Hsl Hrows. intros Hi Hd Hil (Hrow & Hrs & Hn) -> Hpx. pose proof (zlen_nonneg (seg_bytes s)).
  rewrite rest_next in Hd, Hil. unfold decoding. replace (h - 1 - (h - 1 - n)) with n by lia.
  split; [lia|]. split; [done|]. right. exists (ds ++ [s]), ss, rs. split_and!; try done.
  - split_and!; [by rewrite <-app_assoc|done|lia|lia].
  - rewrite zlen_row_pixels_app. f_equal. unfold row_pixels. simpl. by rewrite app_nil_r.
  - rewrite Z.add_assoc. by apply drop_more in Hd; [|lia].
  - rewrite zlen_app in Hil. lia.
Qed.

Lemma row_done i px n ds rs :
  0 ≤ i → drop (Z.to_nat (src + i)) data = rest [] rs → i = src_len - zlen (rest [] rs) + zlen post →
  at_row n ds [] rs → painted px n (zlen (row_pixels ds)) → decoding (i + 2, 0, h - 1 - n - 1, px).
Proof using Hsrc Hw Hrows Hwidth.
  clear Hdata Hsl. intros Hi Hd Hil (Hrow & Hrs & Hn) (Hl & Hpx). unfold decoding.
  replace (h - 1 - (h - 1 - n - 1)) with (n + 1) by lia. split; [lia|]. split.
  { split; [done|]. intros r x' Hr Hx' Hc. apply Hpx; [done|done|].
    rewrite app_nil_r in Hrow. destruct (row_facts n ds Hrow) as (-> & _). lia. }
  destruct rs as [|r1 rs].
  - left. split; [|done]. apply (f_equal length) in Hrs. rewrite length_drop in Hrs. simpl in Hrs. unfold zlen in *. lia.
  - right. exists [], r1, rs. apply (drop_more data [0; 0] (encode (r1 :: rs) ++ post)) in Hd; [|lia].
    assert (encode (r1 :: rs) ++ post = rest r1 rs) as He.
    { unfold rest, encode, row_bytes. simpl. by rewrite <-!app_assoc. }
    rewrite He in Hd. split_and!.
    + split_and!; [| |lia|].
      * rewrite <-(Nat.add_0_r (Z.to_nat (n + 1))), <-lookup_drop, Hrs. done.
      * replace (Z.to_nat (n + 1 + 1)) with (Z.to_nat (n + 1) + 1)%nat by lia. by rewrite <-drop_drop, Hrs.
      * apply (f_equal length) in Hrs. rewrite length_drop in Hrs. simpl in Hrs. unfold zlen in *. lia.
    + done.
    + by rewrite Z.add_assoc.
    + rewrite <-He. unfold rest in Hil. simpl in Hil. rewrite !zlen_cons in Hil. lia.
Qed.

Lemma run_step n0 c i x n px ds ss rs :
  at_row n ds (Run n0 c :: ss) rs → x = zlen (row_pixels ds) → painted px n x →
  1 ≤ n0 ≤ 255 → 0 ≤ c < 256 → x + n0 ≤ w →
  ∃ px', (color ← rle_colour (Some p) (Z.land c 255);
          '(x, px) ← for_each 0 n0 (λ k s, rle_put w h (h - 1 - n) (Ok color) s) (x, px);
          Ok (inl (i, x, h - 1 - n, px) : (Z * Z * Z * list Z) + list Z)) = Ok (inl (i, x + n0, h - 1 - n, px')) ∧
         painted px' n (x + n0).
Proof using Hw Hh Hp.
  clear Hdata Hsl Hrows. intros Hat -> Hpx Hn0 Hc Hxw. pose proof Hat as (_ & _ & Hn).
  change 255 with (2 ^ 8 - 1). rewrite land_ones_mod, (Z.mod_small c) by lia.
  destruct (zget_in p c ltac:(lia)) as (v & Hv). unfold rle_colour. rewrite (zget_ok p c v) by (done || lia).
  cbn [mbind outcome_bind].
  destruct (puts_ok (λ k s, rle_put w h (h - 1 - n) (Ok v) s) px n (zlen (row_pixels ds)) n0)
    as (px' & -> & Hpx'); [done|done|apply zlen_nonneg|lia|done| |by exists px'].
  intros k px' Hk _. exists v. split; [|done].
  destruct (want_in n ds (Run n0 c) ss rs k Hat) as (i' & Hi' & Hwant).
  { unfold zlen. simpl. rewrite length_replicate. lia. }
  apply lookup_replicate in Hi' as (-> & _). destruct (Hwant Hc) as (v' & Hv' & ->). congruence.
Qed.

Lemma absolute_step cs i x n px ds ss rs :
  at_row n ds (Absolute cs :: ss) rs → x = zlen (row_pixels ds) → painted px n x →
  bytes cs → 0 ≤ i → i + zlen cs ≤ src_len → x + zlen cs ≤ w →
  (∀ k, 0 ≤ k < zlen cs → zget data (src + (i + k)) = zget cs k) →
  ∃ px', for_each 0 (zlen cs) (λ k '(i, x, px),
           if i <? src_len then
             idx ← zget data (src + i);
             '(x, px) ← rle_put w h (h - 1 - n) (rle_colour (Some p) (Z.land idx 255)) (x, px);
             Ok (u64 (i + 1), x, px)
           else Ok (i, x, px)) (i, x, px) = Ok (i + zlen cs, x + zlen cs, px') ∧
         painted px' n (x + zlen cs).
Proof using Hw Hh Hp Hlen.
  clear Hdata Hsl Hrows. intros Hat -> Hpx Hcs Hi0 Hi Hxw Hget. pose proof Hat as (_ & _ & Hn).
  pose proof (zlen_nonneg cs). pose proof (zlen_nonneg (row_pixels ds)). set (x0 := zlen (row_pixels ds)) in *.
  match goal with |- ∃ px', ?m = _ ∧ _ =>
    assert (m ⇓ λ s, s.1.1 = i + zlen cs ∧ s.1.2 = x0 + zlen cs ∧ painted s.2 n (x0 + zlen cs)) as ([[i' x'] px'] & -> & Hs) end.
  { apply (wp_for_each (λ k s, s.1.1 = i + k ∧ s.1.2 = x0 + k ∧ painted s.2 n (x0 + k))); [done| | |done].
    - simpl. rewrite !Z.add_0_r. done.
    - intros k [[i' x'] px'] Hk (Hi' & Hx' & Hpx'). simpl in Hi', Hx', Hpx'. subst i' x'.
      rewrite (proj2 (Z.ltb_lt _ src_len)), Hget by lia.
      destruct (want_in n ds (Absolute cs) ss rs k Hat Hk) as (c & Hc & Hwant). simpl in Hc.
      pose proof (bytes_at _ _ _ Hcs Hc) as Hcr. destruct (Hwant Hcr) as (v & Hv & Hw').
      rewrite (zget_ok cs k c) by (done || lia). cbn [mbind outcome_bind].
      change 255 with (2 ^ 8 - 1). rewrite land_ones_mod, (Z.mod_small c) by lia.
      unfold rle_colour. rewrite (zget_ok p c v) by (done || lia).
      destruct (put_ok px' n (x0 + k) v) as (px'' & -> & Hpx''); [done|done|lia|done|].
      cbn [mbind outcome_bind]. apply wp_ok. simpl. rewrite u64_small by lia. rewrite !Z.add_assoc. done. }
  simpl in Hs. destruct Hs as (-> & -> & Hs). by exists px'.
Qed.

Lemma decode_step i x y px :
  decoding (i, x, y, px) →
  rle8_step data src src_len w h (Some p) (i, x, y, px) ⇓ λ r,
    match r with inl s => decoding s ∧ i < s.1.1.1 ∧ i < src_len | inr px' => painted px' h 0 end.
Proof using All.
  intros (Hi & Hpx & [(-> & ->)|(ds & ss & rs & Hat & Hx & Hd & Hil)]).
  { unfold rle8_step. rewrite andb_false_r. simpl. apply wp_ok. by replace (h - 1 - -1) with h in Hpx by lia. }
  pose proof (zlen_rest ss rs) as Hrl. remember (h - 1 - y) as n eqn:Hny. assert (y = h - 1 - n) as -> by lia.
  assert (∀ j, 0 ≤ j < zlen (rest ss rs) → zget data (src + (i + j)) = zget (rest ss rs) j) as Hget.
  { intros j Hj. rewrite Z.add_assoc. by apply drop_get; [lia| |]. }
  pose proof Hat as (Hrow & _ & Hn). destruct (row_facts n _ Hrow) as (Hwid & Hsegs).
  rewrite zlen_row_pixels_app in Hwid. pose proof (zlen_nonneg (row_pixels ss)). pose proof (zlen_nonneg post).
  unfold rle8_step. rewrite (proj2 (Z.ltb_lt i _)), (proj2 (Z.leb_le 0 _)) by lia. cbn [andb negb].
  rewrite <-(Z.add_0_r i) at 1. rewrite !(u64_small (i + 1)) by lia.
  rewrite (proj2 (Z.leb_gt _ (i + 1))) by lia.
  rewrite (u64_small (i + 1 + 1)) by lia. replace (i + 1 + 1) with (i + 2) by lia.
  rewrite !Hget by lia. destruct ss as [|[n0 c|cs] ss].
  - cbn. rewrite int_ok by lia. simpl. apply wp_ok. split; [|simpl; lia]. subst x. by apply (row_done i px n ds rs).
  - apply Forall_app in Hsegs as (_ & Hs%Forall_inv). destruct Hs as (Hn0 & Hc).
    assert (zget (rest (Run n0 c :: ss) rs) 0 = Ok n0) as -> by done.
    assert (zget (rest (Run n0 c :: ss) rs) 1 = Ok c) as -> by done.
    cbn [mbind outcome_bind]. rewrite (proj2 (Z.eqb_neq n0 0)) by lia.
    assert (zlen (seg_pixels (Run n0 c)) = n0) as Hsp by (unfold zlen; simpl; rewrite length_replicate; lia).
    assert (zlen (row_pixels (Run n0 c :: ss)) = n0 + zlen (row_pixels ss)) as Hrp.
    { unfold row_pixels. simpl. rewrite zlen_app. by rewrite <-Hsp at 2. }
    pose proof (zlen_nonneg (row_pixels ss)).
    destruct (run_step n0 c (i + 2) x n px ds ss rs) as (px' & E & Hpx'); try (done || lia).
    apply (f_equal (λ o, o ⇓ λ r, match r with inl s => decoding s ∧ i < s.1.1.1 ∧ i < src_len | inr px' => painted px' h 0 end)) in E.
    rewrite E. apply wp_ok. split; [|simpl; lia]. pose proof (piece_done i px' x n ds (Run n0 c) ss rs) as Hpd.
    rewrite Hsp in Hpd. by apply Hpd.
  - apply Forall_app in Hsegs as (_ & Hs%Forall_inv). destruct Hs as (Hn0 & Hcs).
    assert (zget (rest (Absolute cs :: ss) rs) 0 = Ok 0) as -> by done.
    assert (zget (rest (Absolute cs :: ss) rs) 1 = Ok (zlen cs)) as -> by done.
    cbn [mbind outcome_bind]. rewrite Z.eqb_refl, !(proj2 (Z.eqb_neq (zlen cs) _)) by lia.
    assert (zlen (row_pixels (Absolute cs :: ss)) = zlen cs + zlen (row_pixels ss)) as Hrp.
    { unfold row_pixels. simpl. by rewrite zlen_app. }
    pose proof (zlen_nonneg (row_pixels ss)). rewrite rest_next in Hget, Hil, Hrl.
    assert (zlen (seg_bytes (Absolute cs)) = 2 + zlen cs + zlen cs mod 2) as Hsb.
    { simpl. rewrite !zlen_cons, zlen_app. pose proof (Z.mod_pos_bound (zlen cs) 2 ltac:(lia)).
      destruct (Z.eqb_spec (zlen cs mod 2) 0); [change (zlen []) with 0|change (zlen [0]) with 1]; lia. }
    pose proof (Z.mod_pos_bound (zlen cs) 2 ltac:(lia)). pose proof (zlen_rest ss rs).
    destruct (absolute_step cs (i + 2) x n px ds ss rs) as (px' & E & Hpx'); try (done || lia).
    { rewrite zlen_app in Hil. lia. }
    { intros k Hk. rewrite <-Z.add_assoc, Hget by (rewrite zlen_app; lia).
      destruct (zget_in cs k Hk) as (c & Hc). rewrite (zget_ok cs k c) by (done || lia). apply zget_ok; [lia|].
      rewrite Z2Nat.inj_add by lia. simpl. rewrite lookup_app_l; [|apply lookup_lt_Some in Hc; rewrite length_app; lia].
      by rewrite lookup_app_l by (by apply lookup_lt_Some in Hc). }
    rewrite E. cbn [mbind outcome_bind]. apply wp_ok.
    assert ((if zlen cs `rem` 2 =? 0 then i + 2 + zlen cs else u64 (i + 2 + zlen cs + 1)) =
            i + zlen (seg_bytes (Absolute cs))) as ->.
    { rewrite Z.rem_mod_nonneg, Hsb by lia. rewrite zlen_app in Hil. destruct (Z.eqb_spec (zlen cs mod 2) 0); [lia|].
      rewrite u64_small by lia. lia. }
    split; [|cbn [fst]; rewrite Hsb; rewrite zlen_app in Hil; lia]. rewrite <-rest_next in Hil.
    by apply (piece_done i px' x n ds (Absolute cs) ss rs).
Qed.

End rle8.

(** decode_rle8 of the run-length encoding of rows of palette indices, by any mixture of encoded
    runs and literal segments, gives back the colours of exactly these rows, the last row first. *)
Theorem bmp_rle8_roundtrip data src rows post w h p px :
  1 ≤ w ≤ 16384 → 1 ≤ h ≤ 16384 → 256 ≤ zlen p → zlen px = w * h →
  0 ≤ src → drop (Z.to_nat src) data = encode rows ++ post → zlen (encode rows) < 2 ^ 32 →
  zlen rows = h → Forall (λ row, zlen (row_pixels row) = w ∧ Forall seg_ok row) rows →
  ∃ px', decode_rle8 data src (zlen (encode rows)) px w h (Some p) = Ok px' ∧ zlen px' = w * h ∧
    ∀ x y, 0 ≤ x < w → 0 ≤ y < h →
      px' !! Z.to_nat (y * w + x) =
      (row ← rows !! Z.to_nat (h - 1 - y); c ← row_pixels row !! Z.to_nat x; p !! Z.to_nat c).
Proof.
  intros Hw Hh Hp Hpx Hsrc Hdata Hlen Hrows Hwidth.
  assert (decode_rle8 data src (zlen (encode rows)) px w h (Some p) ⇓ λ px', painted w h p rows px' h 0) as (px' & -> & Hl & Hd).
  { unfold decode_rle8. rewrite int_ok by lia. cbn [mbind outcome_bind].
    apply (wp_loop (decoding data src (zlen (encode rows)) w h p rows post)
             (λ s, Z.to_nat (zlen (encode rows) - s.1.1.1))).
    - intros [[[i x] y] px'] Hs. eapply wp_mono.
      { apply (decode_step data src (zlen (encode rows)) w h p rows post); try done. split; [apply zlen_nonneg|done]. }
      intros [s|px'']; [|done]. intros (Hs' & Hi & Hlt). split; [done|]. cbn [fst] in *. lia.
    - split; [done|]. split; [split; [done|intros; lia]|]. right.
      destruct rows as [|row rs]; [unfold zlen in *; simpl in *; lia|].
      exists [], row, rs. replace (h - 1 - (h - 1)) with 0 by lia. rewrite Z.add_0_r. split_and!; try done.
      + split_and!; [done|done|lia|lia].
      + rewrite Hdata. unfold rest, encode, row_bytes. simpl. by rewrite <-!app_assoc.
      + unfold rest, encode, row_bytes. simpl. autorewrite with kernel_len. change (@zlen Z []) with 0. lia.
    - cbn [fst]. lia. }
  exists px'. split_and!; [done|done|]. intros x y Hx Hy. specialize (Hd (h - 1 - y) x ltac:(lia) Hx ltac:(lia)).
  by replace (h - 1 - (h - 1 - y)) with y in Hd by lia.
Qed.

Definition grey : list Z := map (λ i, Z.of_nat i * 0x010101) (seq 0 256).
Definition sample_rows : list (list seg) := [[Run 4 7]; [Absolute [1; 2; 3]; Run 1 9]].

Lemma bmp_rle8_roundtrip_witness :
  ∃ px', decode_rle8 (encode sample_rows) 0 (zlen (encode sample_rows)) (replicate 8 0) 4 2 (Some grey) = Ok px' ∧
    zlen px' = 4 * 2 ∧
    ∀ x y, 0 ≤ x < 4 → 0 ≤ y < 2 →
      px' !! Z.to_nat (y * 4 + x) =
      (row ← sample_rows !! Z.to_nat (2 - 1 - y); c ← row_pixels row !! Z.to_nat x; grey !! Z.to_nat c).
Proof.
  apply (bmp_rle8_roundtrip (encode sample_rows) 0 sample_rows [] 4 2 grey (replicate 8 0));
    [lia|lia|vm_compute; discriminate|reflexivity|lia|reflexivity|vm_compute; reflexivity|reflexivity|].
  unfold sample_rows. repeat constructor; vm_compute; discriminate || reflexivity.
Defined.

End ImageBmpRle.
