(* ===== verification/Libc.v ===== *)
(** The part of the C library of the user-space programs that the image
    decoders call (userland/libc/src/ctype.c, string.c, stdlib.c).

    A [const char *] is the list of bytes from the pointer to the end of its
    object. *)
From stdpp Require Import base list.
From S2P Require Import Prelude.
From S2P Require Import CLib.

Module Libc.

Definition isdigit (c : Z) : bool := (48 <=? c) && (c <=? 57).
Definition isspace (c : Z) : bool :=
  (c =? 32) || (c =? 9) || (c =? 10) || (c =? 13) || (c =? 12) || (c =? 11).

(** [long] arithmetic: a result outside of the type is undefined. *)
Definition long (x : Z) : outcome Z := if decide (- 2 ^ 63 ≤ x < 2 ^ 63) then Ok x else Undef.

Fixpoint strncmp (a b : list Z) (n : nat) {struct n} : outcome Z :=
  match n with
  | O => Ok 0
  | S n =>
      match a, b with
      | x :: a', y :: b' => if negb (x =? 0) && (x =? y) then strncmp a' b' n else Ok (u8 x - u8 y)
      | _, _ => Undef
      end
  end.

Fixpoint skip_blanks (s : list Z) : outcome (list Z) :=
  match s with
  | [] => Undef
  | c :: s' => if (c =? 32) || (c =? 9) then skip_blanks s' else Ok s
  end.

Definition strtol_digit (c : Z) : option Z :=
  if (48 <=? c) && (c <=? 57) then Some (c - 48)
  else if (97 <=? c) && (c <=? 122) then Some (c - 97 + 10)
  else if (65 <=? c) && (c <=? 90) then Some (c - 65 + 10)
  else None.

Fixpoint strtol_digits (base val : Z) (s : list Z) : outcome (Z * list Z) :=
  match s with
  | [] => Undef
  | c :: s' =>
      if c =? 0 then Ok (val, s)
      else
        match strtol_digit c with
        | None => Ok (val, s)
        | Some digit =>
            if base <=? digit then Ok (val, s)
            else m ← long (val * base); v ← long (m + digit); strtol_digits base v s'
        end
  end.

(** The base and the pointer behind the prefix. *)
Definition strtol_prefix (base : Z) (s : list Z) : outcome (Z * list Z) :=
  c ← zget s 0;
  if base =? 0 then
    if c =? 48 then
      d ← zget s 1;
      if (d =? 120) || (d =? 88) then Ok (16, drop 2 s) else Ok (8, drop 1 s)
    else Ok (10, s)
  else if (base =? 16) && (c =? 48) then
    d ← zget s 1;
    if (d =? 120) || (d =? 88) then Ok (base, drop 2 s) else Ok (base, s)
  else Ok (base, s).

(** The number and the pointer behind it. *)
Definition strtol (s : list Z) (base : Z) : outcome (Z * list Z) :=
  s ← skip_blanks s;
  c ← zget s 0;
  let neg := c =? 45 in
  let s := if (c =? 45) || (c =? 43) then drop 1 s else s in
  '(base, s) ← strtol_prefix base s;
  '(val, s) ← strtol_digits base 0 s;
  v ← (if neg then long (- val) else Ok val);
  Ok (v, s).

Definition atoi (s : list Z) : outcome Z := '(v, _) ← strtol s 10; Ok (i32 v).

End Libc.
