(* ===== verification/ImagePpm.v ===== *)
(** The PNM decoder of the image viewer (apps/image_viewer/decode_ppm.c).

    [data] is the file in memory, of [len] bytes; the requests to the allocator
    are numbered from [k] on. *)
From stdpp Require Import base list.
From S2P Require Import Prelude.
From S2P Require Import CLib.
From S2P Require Import Libc.
From S2P Require Import ImageBmp.
Import Libc.

Module ImagePpm.

Definition MAX_PPM_DIM : Z := 16384.

Inductive PpmFormat := PPM_FORMAT_PBM | PPM_FORMAT_PGM | PPM_FORMAT_PPM | PPM_FORMAT_PAM.
Record PpmImage := mkPpm { pixels : list Z; img_width : Z; img_height : Z; format : PpmFormat }.

(** * The reader *)
Record PpmReader := mkReader { data : list Z; len : Z; pos : Z }.
Definition set_pos (p : Z) (r : PpmReader) : PpmReader := mkReader (data r) (len r) p.
Definition advance (r : PpmReader) : PpmReader := set_pos (u64 (pos r + 1)) r.

Definition reader_eof (r : PpmReader) : bool := len r <=? pos r.

Definition reader_byte (r : PpmReader) : outcome (Z * PpmReader) :=
  if len r <=? pos r then Ok (0, r) else c ← zget (data r) (pos r); Ok (c, advance r).

(** [reader_eof(r) ? 0 : reader_byte(r)] *)
Definition next_byte (r : PpmReader) : outcome (Z * PpmReader) :=
  if reader_eof r then Ok (0, r) else reader_byte r.

(** [while (!reader_eof(r) && r->data[r->pos] != '\n') r->pos++] *)
Definition skip_line (r : PpmReader) : outcome PpmReader :=
  loop (S (Z.to_nat (len r)))
    (λ r, if reader_eof r then Ok (inr r)
          else c ← zget (data r) (pos r); if c =? 10 then Ok (inr r) else Ok (inl (advance r))) r.

Definition reader_skip_whitespace_and_comments (r : PpmReader) : outcome PpmReader :=
  loop (S (Z.to_nat (len r)))
    (λ r, if reader_eof r then Ok (inr r)
          else
            c ← zget (data r) (pos r);
            if c =? 35 then r ← skip_line r; Ok (inl r)
            else if isspace c then Ok (inl (advance r))
            else Ok (inr r)) r.

(** [None] is the result -1. *)
Definition reader_read_uint (r : PpmReader) : outcome (option Z * PpmReader) :=
  r ← reader_skip_whitespace_and_comments r;
  if reader_eof r then Ok (None, r)
  else
    c ← zget (data r) (pos r);
    if negb (isdigit c) then Ok (None, r)
    else
      '(val, r) ← loop (S (Z.to_nat (len r)))
        (λ '(val, r),
           if reader_eof r then Ok (inr (val, r))
           else
             c ← zget (data r) (pos r);
             if isdigit c then Ok (inl (u32 (u32 (val * 10) + (c - 48)), advance r))
             else Ok (inr (val, r))) (0, r);
      Ok (Some val, r).

(** The two characters and the reader behind them. *)
Definition reader_read_magic (r : PpmReader) : outcome (option (Z * Z) * PpmReader) :=
  if len r <? u64 (pos r + 2) then Ok (None, r)
  else
    a ← zget (data r) (pos r);
    let r := advance r in
    b ← zget (data r) (pos r);
    Ok (Some (i8 a, i8 b), advance r).

Definition scale_channel (val maxval : Z) : outcome Z :=
  if maxval =? 255 then Ok (u8 val)
  else if maxval =? 0 then Ok 0
  else q ← udiv (u32 (u32 (val * 255) + maxval / 2)) maxval; Ok (u8 q).

(** [0xFF000000 | (g << 16) | (g << 8) | g] *)
Definition grey_pixel (g : Z) : Z := ImageBmp.argb 255 g g g.

(** [if (reader_read_uint(r, &v) < 0) v = 0] *)
Definition uint_or_0 (r : PpmReader) : outcome (Z * PpmReader) :=
  '(v, r) ← reader_read_uint r; Ok (default 0 v, r).

(** Two bytes, the high one first, or one. *)
Definition binary_sample (is_16bit : bool) (r : PpmReader) : outcome (Z * PpmReader) :=
  if is_16bit then
    '(hi, r) ← next_byte r; '(lo, r) ← next_byte r;
    Ok (Z.lor (u32 (Z.shiftl hi 8)) lo, r)
  else next_byte r.

(** * Pixels *)

(** One pixel of each format: its colour and the reader behind it. *)
Definition p1_pixel (r : PpmReader) : outcome (Z * PpmReader) :=
  '(bit, r) ← uint_or_0 r; Ok (if bit =? 0 then 0xFFFFFFFF else 0xFF000000, r).

Definition p2_pixel (maxval : Z) (r : PpmReader) : outcome (Z * PpmReader) :=
  '(v, r) ← uint_or_0 r; g ← scale_channel v maxval; Ok (grey_pixel g, r).

Definition p3_pixel (maxval : Z) (r : PpmReader) : outcome (Z * PpmReader) :=
  '(rv, r) ← uint_or_0 r; '(gv, r) ← uint_or_0 r; '(bv, r) ← uint_or_0 r;
  r8 ← scale_channel rv maxval; g8 ← scale_channel gv maxval; b8 ← scale_channel bv maxval;
  Ok (ImageBmp.argb 255 r8 g8 b8, r).

Definition p5_pixel (maxval : Z) (r : PpmReader) : outcome (Z * PpmReader) :=
  '(v, r) ← binary_sample (255 <? maxval) r; g ← scale_channel v maxval; Ok (grey_pixel g, r).

Definition p6_pixel (maxval : Z) (r : PpmReader) : outcome (Z * PpmReader) :=
  let wide := 255 <? maxval in
  '(rv, r) ← binary_sample wide r; '(gv, r) ← binary_sample wide r; '(bv, r) ← binary_sample wide r;
  r8 ← scale_channel rv maxval; g8 ← scale_channel gv maxval; b8 ← scale_channel bv maxval;
  Ok (ImageBmp.argb 255 r8 g8 b8, r).

Definition p7_pixel (depth maxval : Z) (r : PpmReader) : outcome (Z * PpmReader) :=
  '(chans, r) ← for_each 0 (Z.min depth 4) (λ d '(chans, r),
    '(v, r) ← binary_sample (255 <? maxval) r;
    chans ← zset chans d v; Ok (chans, r)) ([0; 0; 0; 255], r);
  c0 ← zget chans 0; c1 ← zget chans 1; c2 ← zget chans 2; c3 ← zget chans 3;
  c ← (if depth =? 1 then g ← scale_channel c0 maxval; Ok (ImageBmp.argb 255 g g g)
       else if depth =? 2 then
         g ← scale_channel c0 maxval; a ← scale_channel c1 maxval; Ok (ImageBmp.argb a g g g)
       else if depth =? 3 then
         r8 ← scale_channel c0 maxval; g8 ← scale_channel c1 maxval; b8 ← scale_channel c2 maxval;
         Ok (ImageBmp.argb 255 r8 g8 b8)
       else
         r8 ← scale_channel c0 maxval; g8 ← scale_channel c1 maxval; b8 ← scale_channel c2 maxval;
         a8 ← scale_channel c3 maxval; Ok (ImageBmp.argb a8 r8 g8 b8));
  Ok (c, r).

Section decoder.
Context (A : allocator).

(** The common frame of the decoders: the array of pixels, filled one after the
    other, and the image. *)
Definition decode_pixels (k : nat) (fmt : PpmFormat) (width height : Z)
    (pixel : PpmReader → outcome (Z * PpmReader)) (r : PpmReader) : outcome (option PpmImage) :=
  if negb (avail A k (4 * width * height)) then Ok None
  else
    n ← int (width * height);
    '(px, _) ← for_each 0 n (λ i '(px, r),
      '(c, r) ← pixel r; px ← zset px i c; Ok (px, r)) (fresh A k n, r);
    if avail A (S k) 24 then Ok (Some (mkPpm px width height fmt)) else Ok None.

Definition decode_p1 (k : nat) (r : PpmReader) (width height : Z) : outcome (option PpmImage) :=
  decode_pixels k PPM_FORMAT_PBM width height p1_pixel r.
Definition decode_p2 (k : nat) (r : PpmReader) (width height maxval : Z) : outcome (option PpmImage) :=
  decode_pixels k PPM_FORMAT_PGM width height (p2_pixel maxval) r.
Definition decode_p3 (k : nat) (r : PpmReader) (width height maxval : Z) : outcome (option PpmImage) :=
  decode_pixels k PPM_FORMAT_PPM width height (p3_pixel maxval) r.
Definition decode_p5 (k : nat) (r : PpmReader) (width height maxval : Z) : outcome (option PpmImage) :=
  decode_pixels k PPM_FORMAT_PGM width height (p5_pixel maxval) r.
Definition decode_p6 (k : nat) (r : PpmReader) (width height maxval : Z) : outcome (option PpmImage) :=
  decode_pixels k PPM_FORMAT_PPM width height (p6_pixel maxval) r.

(** The bits of one byte, the highest first, at the columns from [bx * 8] on. *)
Definition p4_byte (width y bx byte : Z) (px : list Z) : outcome (list Z) :=
  r ← for_loop 0 8 (λ j px,
        let bit := 7 - j in
        let x := bx * 8 + (7 - bit) in
        if width <=? x then Ok (inr px)
        else
          let set := Z.land (Z.shiftr byte bit) 1 in
          px ← zset px (y * width + x) (if set =? 0 then 0xFFFFFFFF else 0xFF000000);
          Ok (inl px)) px;
  match r with inl px => Ok px | inr px => Ok px end.

Definition decode_p4 (k : nat) (r : PpmReader) (width height : Z) : outcome (option PpmImage) :=
  if negb (avail A k (4 * width * height)) then Ok None
  else
    let row_bytes := (width + 7) `quot` 8 in
    '(px, _) ← for_each 0 height (λ y s,
      for_each 0 row_bytes (λ bx '(px, r),
        '(byte, r) ← next_byte r;
        px ← p4_byte width y bx byte px; Ok (px, r)) s) (fresh A k (width * height), r);
    if avail A (S k) 24 then Ok (Some (mkPpm px width height PPM_FORMAT_PBM)) else Ok None.

(** * PAM *)
Record PamHeader := mkPam { width : Z; height : Z; depth : Z; maxval : Z }.

Definition ENDHDR : list Z := [69; 78; 68; 72; 68; 82; 0].
Definition WIDTH_ : list Z := [87; 73; 68; 84; 72; 32; 0].
Definition HEIGHT_ : list Z := [72; 69; 73; 71; 72; 84; 32; 0].
Definition DEPTH_ : list Z := [68; 69; 80; 84; 72; 32; 0].
Definition MAXVAL_ : list Z := [77; 65; 88; 86; 65; 76; 32; 0].

(** The next line, at most 127 characters of it, in a zeroed array of 128. *)
Definition read_line (r : PpmReader) : outcome (list Z * PpmReader) :=
  '(line, li, r) ← loop 128 (λ '(line, li, r),
    if reader_eof r || (127 <=? li) then Ok (inr (line, li, r))
    else
      '(c, r) ← reader_byte r;
      if i8 c =? 10 then Ok (inr (line, li, r))
      else line ← zset line li (i8 c); Ok (inl (line, li + 1, r)))
    (replicate 128 0, 0, r);
  line ← zset line li 0;
  Ok (line, r).

(** [if (strncmp(line, key, n) == 0) x = atoi(line + n)] *)
Definition header_field (line key : list Z) (n : nat) (x : Z) : outcome Z :=
  d ← strncmp line key n; if d =? 0 then atoi (drop n line) else Ok x.

(** The tuple type is stored but decides nothing. *)
Definition pam_header (r : PpmReader) : outcome (PamHeader * PpmReader) :=
  loop (S (Z.to_nat (len r))) (λ '(h, r),
    if reader_eof r then Ok (inr (h, r))
    else
      '(line, r) ← read_line r;
      e ← strncmp line ENDHDR 6;
      if e =? 0 then Ok (inr (h, r))
      else
        w ← header_field line WIDTH_ 6 (width h);
        ht ← header_field line HEIGHT_ 7 (height h);
        d ← header_field line DEPTH_ 6 (depth h);
        m ← header_field line MAXVAL_ 7 (maxval h);
        Ok (inl (mkPam w ht d (u32 m), r))) (mkPam 0 0 0 255, r).

Definition decode_p7 (k : nat) (r : PpmReader) : outcome (option PpmImage) :=
  '(h, r) ← pam_header r;
  if (width h <=? 0) || (height h <=? 0) || (depth h <=? 0) ||
     (MAX_PPM_DIM <? width h) || (MAX_PPM_DIM <? height h) then Ok None
  else decode_pixels k PPM_FORMAT_PAM (width h) (height h) (p7_pixel (depth h) (maxval h)) r.

(** * Public interface *)
Definition ppm_decode (k : nat) (file : option (list Z)) (data_len : Z) : outcome (option PpmImage) :=
  match file with
  | None => Ok None
  | Some file =>
      if data_len <? 3 then Ok None
      else
        '(magic, r) ← reader_read_magic (mkReader file data_len 0);
        match magic with
        | None => Ok None
        | Some (m0, m1) =>
            if negb (m0 =? 80) then Ok None
            else if m1 =? 55 then
              c ← zget file (pos r);
              r ← (if c =? 10 then Ok r else skip_line r);
              decode_p7 k (advance r)
            else
              '(width, r) ← reader_read_uint r;
              match width with None => Ok None | Some width =>
              '(height, r) ← reader_read_uint r;
              match height with None => Ok None | Some height =>
              let plain := (m1 =? 49) || (m1 =? 52) in
              '(maxval, r) ← (if plain then Ok (Some 1, r) else reader_read_uint r);
              match maxval with None => Ok None | Some maxval =>
              if negb plain && ((maxval =? 0) || (65535 <? maxval)) then Ok None
              else if (i32 width <=? 0) || (i32 height <=? 0) then Ok None
              else if (MAX_PPM_DIM <? i32 width) || (MAX_PPM_DIM <? i32 height) then Ok None
              else
                r ← (if plain then reader_skip_whitespace_and_comments r
                     else if reader_eof r then Ok r
                     else c ← zget (data r) (pos r); Ok (if isspace c then advance r else r));
                let w := i32 width in
                let h := i32 height in
                if m1 =? 49 then decode_p1 k r w h
                else if m1 =? 50 then decode_p2 k r w h maxval
                else if m1 =? 51 then decode_p3 k r w h maxval
                else if m1 =? 52 then decode_p4 k r w h
                else if m1 =? 53 then decode_p5 k r w h maxval
                else if m1 =? 54 then decode_p6 k r w h maxval
                else Ok None
              end end end
        end
  end.

(** [file] is what [fopen] finds: the size [ftell] reports and the bytes
    [fread] delivers. *)
Definition ppm_decode_file (k : nat) (path : bool) (file : option (Z * list Z))
  : outcome (option PpmImage) :=
  if negb path then Ok None
  else
    match file with
    | None => Ok None
    | Some (file_size, bytes) =>
        if (file_size <=? 0) || (256 * 1024 * 1024 <? file_size) then Ok None
        else if negb (avail A k file_size) then Ok None
        else
          let n := Z.min file_size (zlen bytes) in
          data ← c_memcpy (fresh A k file_size) 0 bytes n;
          if n =? file_size then ppm_decode (S k) (Some data) file_size else Ok None
    end.

End decoder.

Definition ppm_get_pixel (img : option PpmImage) (x y : Z) : outcome Z :=
  match img with
  | None => Ok 0
  | Some img =>
      if (x <? 0) || (y <? 0) || (img_width img <=? x) || (img_height img <=? y) then Ok 0
      else i ← int (y * img_width img); i ← int (i + x); zget (pixels img) i
  end.

End ImagePpm.
