(* ===== verification/ImagePpmClaims.v ===== *)
(** The PNM decoder on any file: the reader never leaves the file, and every
    image has as many pixels as its dimensions say. *)
From stdpp Require Import base list.
From S2P Require Import Prelude.
From S2P Require Import CLib.
From S2P Require Import ImageBmp.
From S2P Require Import ImageBmpRows.
From S2P Require Import ImageBmpFile.
From S2P Require Import Libc.
From S2P Require Import ImagePpm.
Import Libc ImageBmpSpec ImageBmpFile ImagePpm.

Module ImagePpmSafe.

(** * The reader *)
Section reader.
Context (f : list Z) (L : Z) (Hb : bytes f) (HL : 0 ≤ L ≤ zlen f) (Hmax : L < 2 ^ 63).

(** A reader of the file [f], at [p] or behind it. *)
Definition from (p : Z) (r : PpmReader) : Prop :=
  data r = f ∧ len r = L ∧ p ≤ pos r ∧ 0 ≤ pos r ≤ L + 1.

Lemma from_weaken p q r : p ≤ q → from q r → from p r.
Proof using. intros ? (? & ? & ? & ?). split_and!; (done || lia). Qed.

Lemma from_advance p r : from p r → pos r ≤ L → from (p + 1) (advance r) ∧ pos (advance r) = pos r + 1.
Proof using HL Hmax.
  intros (Hd & Hl & Hp & Hr) Hle. unfold advance, set_pos, from. simpl. rewrite u64_small by lia.
  split_and!; (done || lia).
Qed.

Lemma eof_false r p : from p r → reader_eof r = false → pos r < L.
Proof using. intros (_ & Hl & _) He. unfold reader_eof in He. apply Z.leb_gt in He. lia. Qed.

Lemma next_ok p r :
  from p r → next_byte r ⇓ λ s, 0 ≤ s.1 < 256 ∧ from p s.2.
Proof using All.
  intros Hr. unfold next_byte, reader_byte. destruct (reader_eof r) eqn:E; [by apply wp_ok|].
  pose proof (eof_false r p Hr E) as Hlt. unfold reader_eof in E. rewrite E.
  destruct Hr as (Hd & Hl & Hp & Hr). rewrite Hd. apply wp_bind, wp_zget; [lia|].
  intros c Hc. apply wp_ok. split; [by apply (bytes_at _ _ _ Hb Hc)|].
  apply (from_weaken p (p + 1)); [lia|]. by apply from_advance; [|lia].
Qed.

Lemma skip_line_ok p r :
  from p r → skip_line r ⇓ λ r', from p r' ∧ (pos r ≤ L → pos r' ≤ L) ∧
    (∀ c, pos r < L → f !! Z.to_nat (pos r) = Some c → c ≠ 10 → pos r < pos r').
Proof using All.
  intros Hr. unfold skip_line. pose proof Hr as (_ & Hl & _ & Hp0). rewrite Hl.
  apply (wp_loop (λ r', from p r' ∧ (pos r ≤ L → pos r' ≤ L) ∧ (pos r' = pos r ∨ pos r < pos r'))
           (λ r', Z.to_nat (L - pos r'))).
  - intros r' (Hr' & Hle & Hcase). destruct (reader_eof r') eqn:E.
    { apply wp_ok. split; [done|]. split; [done|]. intros c Hlt _ _. pose proof Hr' as (_ & Hl' & _).
      unfold reader_eof in E. apply Z.leb_le in E. lia. }
    pose proof (eof_false r' p Hr' E). destruct (from_advance p r' Hr') as (Ha & Hpa); [lia|].
    pose proof Hr' as (Hd' & _ & _ & Hp'). rewrite Hd'. apply wp_bind, wp_zget; [lia|]. intros c Hc.
    destruct (Z.eqb_spec c 10) as [->|]; apply wp_ok.
    + split; [done|]. split; [done|]. intros c Hlt Hc' Hne. destruct Hcase as [He|]; [|done].
      rewrite He in Hc. congruence.
    + split; [split_and!; [by apply (from_weaken p (p + 1)); [lia|]|lia|lia]|lia].
  - split_and!; [done|done|by left].
  - lia.
Qed.

Lemma skip_blank_ok p r :
  from p r → reader_skip_whitespace_and_comments r ⇓ from p.
Proof using All.
  intros Hr. unfold reader_skip_whitespace_and_comments. pose proof Hr as (_ & Hl & _ & Hp0). rewrite Hl.
  apply (wp_loop (from p) (λ r', Z.to_nat (L - pos r'))); [|done|lia].
  intros r' Hr'. destruct (reader_eof r') eqn:E; [by apply wp_ok|].
  pose proof (eof_false r' p Hr' E). destruct (from_advance p r' Hr') as (Ha & Hpa); [lia|].
  pose proof Hr' as (Hd' & _ & _ & Hp'). rewrite Hd'. apply wp_bind, wp_zget; [lia|]. intros c Hc.
  destruct (Z.eqb_spec c 35) as [->|].
  - apply wp_bind. eapply wp_mono; [by apply (skip_line_ok p)|]. intros r'' (Hr'' & _ & Hmore).
    apply wp_ok. split; [done|]. specialize (Hmore 35 ltac:(lia) Hc ltac:(lia)). lia.
  - destruct (isspace c); apply wp_ok; [|done]. split; [by apply (from_weaken p (p + 1)); [lia|]|lia].
Qed.

Lemma read_uint_ok p r :
  from p r → reader_read_uint r ⇓ λ s, from p s.2 ∧ (∀ v, s.1 = Some v → 0 ≤ v < 2 ^ 32).
Proof using All.
  intros Hr. unfold reader_read_uint. apply wp_bind. eapply wp_mono; [by apply skip_blank_ok|].
  intros r' Hr'. destruct (reader_eof r') eqn:E; [by apply wp_ok|].
  pose proof (eof_false r' p Hr' E). pose proof Hr' as (Hd' & Hl' & _ & Hp').
  rewrite Hd'. apply wp_bind, wp_zget; [lia|]. intros c Hc. destruct (isdigit c); [|by apply wp_ok]. cbn [negb].
  apply wp_bind. rewrite Hl'.
  apply (wp_loop (λ s, from p s.2 ∧ 0 ≤ s.1 < 2 ^ 32) (λ s, Z.to_nat (L - pos s.2))); [|split; [done|simpl; lia]|simpl; lia].
  intros [v r''] (Hr'' & Hv). simpl in Hr'', Hv. destruct (reader_eof r'') eqn:E'.
  { apply wp_ok, wp_ok. split; [done|]. intros x [= <-]. done. }
  pose proof (eof_false r'' p Hr'' E'). destruct (from_advance p r'' Hr'') as (Ha & Hpa); [lia|].
  pose proof Hr'' as (Hd'' & _ & _ & Hp''). rewrite Hd''. apply wp_bind, wp_zget; [lia|]. intros c' Hc'.
  destruct (isdigit c'); apply wp_ok; cbn [fst snd].
  - split; [split; [by apply (from_weaken p (p + 1)); [lia|]|apply u32_range]|lia].
  - apply wp_ok. split; [done|]. intros x [= <-]. done.
Qed.

(** A function that takes the reader on and answers a number below [n]. *)
Definition takes (n : Z) (get : PpmReader → outcome (Z * PpmReader)) : Prop :=
  ∀ p r, from p r → get r ⇓ λ s, 0 ≤ s.1 < n ∧ from p s.2.

Lemma uint_takes : takes (2 ^ 32) uint_or_0.
Proof using All.
  intros p r Hr. unfold uint_or_0. apply wp_bind. eapply wp_mono; [by apply (read_uint_ok p)|].
  intros [v r'] (Hr' & Hv). apply wp_ok. simpl in *. split; [|done].
  destruct v as [v|]; [by apply Hv|simpl; lia].
Qed.

Lemma sample_takes wide : takes (2 ^ 16) (binary_sample wide).
Proof using All.
  intros p r Hr. unfold binary_sample. destruct wide.
  - apply wp_bind. eapply wp_mono; [by apply (next_ok p)|]. intros [hi r1] (Hhi & Hr1).
    apply wp_bind. eapply wp_mono; [by apply (next_ok p)|]. intros [lo r2] (Hlo & Hr2). simpl in *.
    apply wp_ok. simpl. split; [|done]. rewrite Z.shiftl_mul_pow2, u32_small by lia.
    rewrite Z.lor_comm, <-Z.shiftl_mul_pow2, lor_shift by lia. lia.
  - eapply wp_mono; [by apply (next_ok p)|]. intros s (Hs & Hr'). split; [lia|done].
Qed.

Lemma scale_ok v m : 0 ≤ m → scale_channel v m ⇓ λ c, 0 ≤ c < 256.
Proof using.
  intros Hm. unfold scale_channel. destruct (Z.eqb_spec m 255); [apply wp_ok, u8_range|].
  destruct (Z.eqb_spec m 0); [apply wp_ok; lia|]. rewrite udiv_ok by done. apply wp_ok, u8_range.
Qed.

Lemma p1_takes : takes (2 ^ 32) p1_pixel.
Proof using All.
  intros p r Hr. unfold p1_pixel. apply wp_bind. eapply wp_mono; [by apply uint_takes|].
  intros [v r'] (_ & Hr'). apply wp_ok. split; [simpl; destruct (v =? 0); lia|done].
Qed.

Lemma grey_takes n get m :
  0 ≤ m → takes n get → takes (2 ^ 32) (λ r, '(v, r) ← get r; g ← scale_channel v m; Ok (grey_pixel g, r)).
Proof using.
  intros Hm Hget p r Hr. apply wp_bind. eapply wp_mono; [by apply Hget|].
  intros [v r'] (_ & Hr'). apply wp_bind. eapply wp_mono; [by apply scale_ok|]. intros g Hg.
  apply wp_ok. split; [|done]. cbv beta in *. cbn [fst]. unfold grey_pixel. apply argb_range; lia.
Qed.

Lemma rgb_takes n get m :
  0 ≤ m → takes n get →
  takes (2 ^ 32) (λ r, '(rv, r) ← get r; '(gv, r) ← get r; '(bv, r) ← get r;
    r8 ← scale_channel rv m; g8 ← scale_channel gv m; b8 ← scale_channel bv m;
    Ok (ImageBmp.argb 255 r8 g8 b8, r)).
Proof using.
  intros Hm Hget p r Hr. apply wp_bind. eapply wp_mono; [by apply Hget|]. intros [v1 r1] (_ & Hr1).
  apply wp_bind. eapply wp_mono; [by apply Hget|]. intros [v2 r2] (_ & Hr2).
  apply wp_bind. eapply wp_mono; [by apply Hget|]. intros [v3 r3] (_ & Hr3).
  apply wp_bind. eapply wp_mono; [by apply scale_ok|]. intros a Ha.
  apply wp_bind. eapply wp_mono; [by apply scale_ok|]. intros b Hb'.
  apply wp_bind. eapply wp_mono; [by apply scale_ok|]. intros c Hc.
  apply wp_ok. split; [|done]. cbv beta in *. cbn [fst]. apply argb_range; lia.
Qed.

Lemma p7_takes d m : 0 < d → 0 ≤ m → takes (2 ^ 32) (p7_pixel d m).
Proof using All.
  intros Hd Hm p r Hr. unfold p7_pixel. apply wp_bind.
  apply (wp_for_each (λ _ s, zlen s.1 = 4 ∧ from p s.2)); [lia|done| |].
  - intros i [ch r'] Hi (Hch & Hr'). simpl in Hch, Hr'. apply wp_bind.
    eapply wp_mono; [by apply (sample_takes _ p)|]. intros [v r''] (_ & Hr''). simpl in Hr''.
    rewrite zset_ok by lia. apply wp_ok. simpl. by rewrite zlen_insert.
  - intros [ch r'] (Hch & Hr'). simpl in Hch, Hr'.
    do 4 (apply wp_bind, wp_zget; [lia|]; intros ? _). apply wp_bind.
    apply wp_mono with (λ c, 0 ≤ c < 2 ^ 32); [|intros c Hc; by apply wp_ok].
    repeat match goal with |- context [if ?b then _ else _] => destruct b end.
    all: repeat (apply wp_bind; eapply wp_mono; [by apply scale_ok|]; intros ? ?).
    all: cbv beta in *; apply wp_ok, argb_range; lia.
Qed.

End reader.
End ImagePpmSafe.

(** Every file, plain or binary: the decoders of decode_ppm.c stay inside the
    file and their arrays. *)
Import Libc ImageBmpSpec ImageBmpFile ImagePpm ImagePpmSafe.

Module ImagePpmClaims.

Definition image_ok (img : PpmImage) : Prop :=
  1 ≤ img_width img ≤ MAX_PPM_DIM ∧ 1 ≤ img_height img ≤ MAX_PPM_DIM ∧
  zlen (pixels img) = img_width img * img_height img ∧ colours (pixels img).
Definition result_ok (o : option PpmImage) : Prop := match o with Some img => image_ok img | None => True end.

(** * Filling the pixels from left to right *)

(** The first [n] of [N] pixels are colours. *)
Definition begun (N n : Z) (px : list Z) : Prop := zlen px = N ∧ colours (take (Z.to_nat n) px).

Lemma begun_next N n px c :
  begun N n px → 0 ≤ n < N → 0 ≤ c < 2 ^ 32 → zset px n c ⇓ begun N (n + 1).
Proof.
  intros (Hl & Hc) Hn Hr. apply wp_zset; [lia|]. split; [by rewrite zlen_insert|].
  replace (Z.to_nat (n + 1)) with (S (Z.to_nat n)) by lia. unfold colours.
  rewrite (take_S_r _ _ c) by (apply list_lookup_insert_eq; unfold zlen in *; lia).
  rewrite take_insert_ge by lia. apply Forall_app. by split; [|constructor].
Qed.

Lemma begun_all N px : begun N N px → zlen px = N ∧ colours px.
Proof.
  intros (Hl & Hc). split; [done|]. rewrite take_ge in Hc; [done|]. unfold zlen in *. lia.
Qed.

Section decoders.
Context (A : allocator) (f : list Z) (L : Z) (Hb : bytes f) (HL : 0 ≤ L ≤ zlen f) (Hmax : L < 2 ^ 63).

Lemma decode_pixels_ok k fmt w h pixel p r :
  1 ≤ w ≤ MAX_PPM_DIM → 1 ≤ h ≤ MAX_PPM_DIM → takes f L (2 ^ 32) pixel → from f L p r →
  decode_pixels A k fmt w h pixel r ⇓ result_ok.
Proof using.
  unfold MAX_PPM_DIM. intros Hw Hh Hpix Hr. unfold decode_pixels.
  destruct (avail A k _); [|by apply wp_ok]. cbn [negb]. rewrite int_ok by nia. cbn [mbind outcome_bind].
  apply wp_bind, (wp_for_each (λ n s, begun (w * h) n s.1 ∧ from f L p s.2)); [nia| | |].
  - split; [|done]. split; [cbn [fst]; rewrite zlen_fresh; nia|constructor].
  - intros i [px r'] Hi (Hpx & Hr'). cbn [fst snd] in *. apply wp_bind.
    eapply wp_mono; [by apply Hpix|]. intros [c r''] (Hc & Hr''). cbn [fst snd] in *.
    apply wp_bind. eapply wp_mono; [by apply (begun_next (w * h))|]. intros px' Hpx'. by apply wp_ok.
  - intros [px r'] (Hpx & _). cbn [fst] in Hpx. apply begun_all in Hpx as (Hl & Hc).
    destruct (avail A (S k) 24); apply wp_ok; [|done]. exact (conj Hw (conj Hh (conj Hl Hc))).
Qed.

Lemma p4_byte_ok w h y bx byte px :
  1 ≤ w → 0 ≤ y < h → 0 ≤ bx → bx * 8 < w → begun (w * h) (y * w + bx * 8) px →
  p4_byte w y bx byte px ⇓ begun (w * h) (y * w + Z.min w (bx * 8 + 8)).
Proof using.
  intros Hw Hy Hbx Hlt Hpx. unfold p4_byte.
  apply wp_bind, (wp_for (λ j px, bx * 8 + j ≤ w ∧ begun (w * h) (y * w + (bx * 8 + j)) px)); [lia| | |].
  - rewrite !Z.add_0_r. split; [lia|done].
  - intros j px' Hj (Hle & Hpx'). replace (bx * 8 + (7 - (7 - j))) with (bx * 8 + j) by lia.
    destruct (Z.leb_spec w (bx * 8 + j)) as [Hge|Hgt].
    + apply wp_ok, wp_ok. by replace (Z.min w (bx * 8 + 8)) with (bx * 8 + j) by lia.
    + apply wp_bind. eapply wp_mono; [apply (begun_next (w * h)); [done|nia|destruct (_ =? 0); lia]|].
      intros px'' Hpx''. apply wp_ok. split; [lia|].
      by replace (y * w + (bx * 8 + (j + 1))) with (y * w + (bx * 8 + j) + 1) by lia.
  - intros px' (Hle & Hpx'). apply wp_ok. by rewrite Z.min_r by lia.
Qed.

Lemma decode_p4_ok k w h p r :
  1 ≤ w ≤ MAX_PPM_DIM → 1 ≤ h ≤ MAX_PPM_DIM → from f L p r → decode_p4 A k r w h ⇓ result_ok.
Proof using All.
  unfold MAX_PPM_DIM. intros Hw Hh Hr. unfold decode_p4. rewrite Z.quot_div_nonneg by lia.
  destruct (avail A k _); [|by apply wp_ok]. cbn [negb].
  apply wp_bind, (wp_for_each (λ y s, begun (w * h) (y * w) s.1 ∧ from f L p s.2)); [lia| | |].
  - split; [|done]. split; [cbn [fst]; rewrite zlen_fresh; nia|constructor].
  - intros y [px r'] Hy (Hpx & Hr'). cbn [fst snd] in *.
    apply (wp_for_each (λ bx s, begun (w * h) (y * w + Z.min w (bx * 8)) s.1 ∧ from f L p s.2)); [zlia| | |].
    + cbn [fst snd]. rewrite Z.min_r, Z.add_0_r by lia. done.
    + intros bx [px' r''] Hbx (Hpx' & Hr''). cbn [fst snd] in *. assert (bx * 8 < w) by zlia. apply wp_bind.
      eapply wp_mono; [by apply (next_ok f L Hb HL Hmax p)|]. intros [c r3] (_ & Hr3). cbn [fst snd] in *.
      rewrite Z.min_r in Hpx' by lia. apply wp_bind. eapply wp_mono; [apply (p4_byte_ok w h); (done || lia)|].
      intros px'' Hpx''. apply wp_ok. split; [|done]. cbn [fst]. by replace ((bx + 1) * 8) with (bx * 8 + 8) by lia.
    + intros [px' r''] (Hpx' & Hr''). cbn [fst snd] in *. split; [|done].
      rewrite Z.min_l in Hpx' by zlia. by replace ((y + 1) * w) with (y * w + w) by lia.
  - intros [px r'] (Hpx & _). cbn [fst] in Hpx. rewrite (Z.mul_comm h w) in Hpx. apply begun_all in Hpx as (Hl & Hc).
    destruct (avail A (S k) 24); apply wp_ok; [|done]. exact (conj Hw (conj Hh (conj Hl Hc))).
Qed.

End decoders.

(** * Numbers in a line *)
Fixpoint digit_run (l : list Z) : nat :=
  match l with c :: l' => if isdigit c then S (digit_run l') else O | [] => O end.

(** No number has more than 18 digits, so that it is a [long]. *)
Definition runs_ok (l : list Z) : Prop := ∀ i, (digit_run (drop i l) ≤ 18)%nat.

Lemma runs_drop l n : runs_ok l → runs_ok (drop n l).
Proof. intros Hr i. rewrite drop_drop. apply Hr. Qed.

Lemma digit_run_mono l l' :
  (∀ j c, l !! j = Some c → isdigit c = true → ∃ c', l' !! j = Some c' ∧ isdigit c' = true) →
  (digit_run l ≤ digit_run l')%nat.
Proof.
  revert l'. induction l as [|c l IH]; intros l' Hl; simpl; [lia|].
  destruct (isdigit c) eqn:E; [|lia]. destruct (Hl 0%nat c eq_refl E) as (c' & Hc' & E').
  destruct l' as [|d l']; [done|]. simplify_eq/=. rewrite E'. apply le_n_S, IH.
  intros j x Hx Ex. by apply (Hl (S j) x).
Qed.

Lemma long_ok x : - 2 ^ 63 ≤ x < 2 ^ 63 → long x = Ok x.
Proof. intros. unfold long. by rewrite decide_True. Qed.

Lemma strtol_digits_safe s v k :
  (digit_run s ≤ k ≤ 18)%nat → 0 ≤ v < 10 ^ (18 - Z.of_nat k) → 0 ∈ s →
  strtol_digits 10 v s ⇓ λ r, 0 ≤ r.1 < 10 ^ 18.
Proof.
  revert v k. induction s as [|c s IH]; intros v k Hk Hv Hz; [by apply elem_of_nil in Hz|].
  assert (0 ≤ v < 10 ^ 18) as Hv18.
  { split; [lia|]. pose proof (Z.pow_le_mono_r 10 (18 - Z.of_nat k) 18). lia. }
  simpl. destruct (Z.eqb_spec c 0) as [|Hc]; [by apply wp_ok|]. unfold strtol_digit.
  apply elem_of_cons in Hz as [Hz|Hz]; [congruence|]. simpl in Hk. unfold isdigit in Hk.
  destruct ((48 <=? c) && (c <=? 57)) eqn:E.
  - apply andb_prop in E as [?%Z.leb_le ?%Z.leb_le]. rewrite (proj2 (Z.leb_gt 10 _)) by lia.
    destruct k as [|k]; [lia|]. assert (10 ^ (18 - Z.of_nat k) = 10 * 10 ^ (18 - Z.of_nat (S k))) as Hp.
    { rewrite <-Z.pow_succ_r by lia. f_equal. lia. }
    pose proof (Z.pow_le_mono_r 10 (18 - Z.of_nat k) 18).
    rewrite (long_ok (v * 10)) by lia. cbn [mbind outcome_bind].
    rewrite (long_ok (v * 10 + _)) by lia. cbn [mbind outcome_bind]. apply (IH _ k); [lia|lia|done].
  - destruct ((97 <=? c) && (c <=? 122)) eqn:E1; [|destruct ((65 <=? c) && (c <=? 90)) eqn:E2; [|by apply wp_ok]].
    + apply andb_prop in E1 as [?%Z.leb_le ?%Z.leb_le]. rewrite (proj2 (Z.leb_le 10 _)) by lia. by apply wp_ok.
    + apply andb_prop in E2 as [?%Z.leb_le ?%Z.leb_le]. rewrite (proj2 (Z.leb_le 10 _)) by lia. by apply wp_ok.
Qed.

Lemma skip_blanks_ok s : 0 ∈ s → ∃ n c s', skip_blanks s = Ok (c :: s') ∧ drop n s = c :: s' ∧ 0 ∈ c :: s'.
Proof.
  induction s as [|c s IH]; intros Hz; [by apply elem_of_nil in Hz|]. simpl.
  destruct ((c =? 32) || (c =? 9)) eqn:E; [|by exists O, c, s].
  apply elem_of_cons in Hz as [<-|Hz]; [done|]. destruct (IH Hz) as (n & c' & s' & ? & ? & ?). by exists (S n), c', s'.
Qed.

Lemma atoi_safe s : 0 ∈ s → runs_ok s → atoi s ⇓ λ v, - 2 ^ 31 ≤ v < 2 ^ 31.
Proof.
  intros Hz Hr. unfold atoi, strtol. destruct (skip_blanks_ok s Hz) as (n & c & s' & -> & Hd & Hz').
  pose proof (runs_drop s n Hr) as Hr'. rewrite Hd in Hr'. cbn [mbind outcome_bind zget].
  assert (zget (c :: s') 0 = Ok c) as -> by done. cbn [mbind outcome_bind].
  assert (∃ t, (if (c =? 45) || (c =? 43) then drop 1 (c :: s') else c :: s') = t ∧ 0 ∈ t ∧ runs_ok t) as (t & -> & Ht & Hrt).
  { eexists. split; [done|]. destruct ((c =? 45) || (c =? 43)) eqn:E; [|done]. split; [|by apply runs_drop].
    simpl. apply elem_of_cons in Hz' as [<-|]; [done|done]. }
  unfold strtol_prefix. destruct t as [|d t]; [by apply elem_of_nil in Ht|].
  assert (zget (d :: t) 0 = Ok d) as -> by done. cbn [mbind outcome_bind Z.eqb Pos.eqb andb].
  destruct (strtol_digits_safe (d :: t) 0 18) as ([v e] & -> & Hv); [specialize (Hrt O); simpl in *; lia|simpl; lia|done|].
  cbn [mbind outcome_bind fst] in *. assert (∀ x, - 2 ^ 31 ≤ i32 x < 2 ^ 31) as Hi by (intros x; unfold i32, sint; zlia).
  destruct (c =? 45); [rewrite long_ok by lia|]; apply wp_ok, Hi.
Qed.

Lemma strncmp_safe n a b : (n ≤ length a)%nat → (n ≤ length b)%nat → ∃ d, strncmp a b n = Ok d.
Proof.
  revert a b. induction n as [|n IH]; intros a b Ha Hb; [by exists 0|].
  destruct a as [|x a], b as [|y b]; simpl in *; try lia. destruct (_ && _); [apply IH; lia|by eexists].
Qed.

Lemma isdigit_char c : 0 ≤ c < 256 → isdigit (i8 c) = true → isdigit c = true.
Proof.
  intros Hc. unfold isdigit, i8, sint. intros [?%Z.leb_le ?%Z.leb_le]%andb_prop.
  apply andb_true_intro. split; apply Z.leb_le; zlia.
Qed.

(** * The PAM header *)
Section pam.
Context (f : list Z) (L : Z) (Hb : bytes f) (HL : 0 ≤ L ≤ zlen f) (Hmax : L < 2 ^ 63) (Hruns : runs_ok f).

(** The array [line] holds [li] characters of the file from [p] on. *)
Definition copied (p li : Z) (line : list Z) : Prop :=
  zlen line = 128 ∧ 0 ≤ li ≤ 127 ∧
  ∀ j c, line !! j = Some c → c ≠ 0 →
    Z.of_nat j < li ∧ ∃ b, f !! (Z.to_nat p + j)%nat = Some b ∧ c = i8 b.

Lemma copied_line p li line :
  copied p li line → (∀ n, (n ≤ 127)%nat → 0 ∈ drop n line) ∧ runs_ok line ∧ length line = 128%nat.
Proof using Hb Hruns.
  intros (Hl & Hli & Hc). assert (length line = 128%nat) as Hlen by (unfold zlen in Hl; lia). split_and!; [| |done].
  - intros n Hn. destruct (lookup_lt_is_Some_2 line 127 ltac:(lia)) as (c & Hx).
    assert (c = 0) as -> by (destruct (decide (c = 0)) as [|Hne]; [done|]; destruct (Hc _ _ Hx Hne); lia).
    apply (list_elem_of_lookup_2 _ (127 - n)). rewrite lookup_drop. by replace (n + (127 - n))%nat with 127%nat by lia.
  - intros i. etrans; [|apply (Hruns (Z.to_nat p + i)%nat)]. apply digit_run_mono. intros j c Hj Hd.
    rewrite lookup_drop in Hj. destruct (decide (c = 0)) as [->|Hne]; [done|].
    destruct (Hc _ _ Hj Hne) as (_ & b & Hfb & ->). exists b. rewrite lookup_drop, <-Nat.add_assoc. split; [done|].
    apply isdigit_char; [by apply (bytes_at _ _ _ Hb Hfb)|done].
Qed.

Lemma read_line_ok p r :
  from f L p r → pos r < L → read_line r ⇓ λ s,
    (∃ q li, copied q li s.1) ∧ from f L p s.2 ∧ pos r < pos s.2.
Proof using All.
  intros Hr Hlt. unfold read_line. apply wp_bind.
  apply (wp_loop (λ '(line, li, r'), copied (pos r) li line ∧ from f L p r' ∧
           pos r' = pos r + li) (λ '(line, li, r'), Z.to_nat (127 - li))).
  - intros [[line li] r'] (Hc & Hr' & Hp'). pose proof Hc as (Hlen & Hli & Hcs).
    pose proof Hr' as (Hd' & Hl' & _ & Hrange).
    destruct (reader_eof r' || (127 <=? li)) eqn:E.
    { apply wp_ok. apply wp_bind. rewrite zset_ok by lia. apply wp_ok, wp_ok. cbn [fst snd]. split_and!; [|done|].
      - exists (pos r), li. split; [by rewrite zlen_insert|]. split; [done|]. intros j c Hj Hne.
        destruct (decide (j = Z.to_nat li)) as [->|]; [|rewrite list_lookup_insert_ne in Hj by done; by apply Hcs].
        rewrite list_lookup_insert_eq in Hj by (unfold zlen in *; lia). congruence.
      - apply orb_true_iff in E. unfold reader_eof in E. rewrite !Z.leb_le in E. lia. }
    apply orb_false_iff in E as (E1 & E2). pose proof (eof_false f L r' p Hr' E1) as Hlt'. apply Z.leb_gt in E2.
    unfold reader_byte. unfold reader_eof in E1. rewrite E1, Hd'. destruct (zget_in f (pos r') ltac:(lia)) as (b & Hfb).
    rewrite (zget_ok f (pos r') b) by (done || lia). cbn [mbind outcome_bind].
    destruct (from_advance f L HL Hmax p r' Hr') as (Ha & Hpa); [lia|].
    apply (from_weaken f L p (p + 1)) in Ha; [|lia]. destruct (Z.eqb_spec (i8 b) 10).
    + apply wp_ok. apply wp_bind. rewrite zset_ok by lia. apply wp_ok, wp_ok. cbn [fst snd]. split_and!; [|done|lia].
      exists (pos r), li. split; [by rewrite zlen_insert|]. split; [done|]. intros j c Hj Hne.
      destruct (decide (j = Z.to_nat li)) as [->|]; [|rewrite list_lookup_insert_ne in Hj by done; by apply Hcs].
      rewrite list_lookup_insert_eq in Hj by (unfold zlen in *; lia). congruence.
    + rewrite zset_ok by lia. apply wp_ok. split; [|lia]. split_and!; [|done|lia].
      split; [by rewrite zlen_insert|]. split; [lia|]. intros j c Hj Hne.
      destruct (decide (j = Z.to_nat li)) as [->|].
      * rewrite list_lookup_insert_eq in Hj by (unfold zlen in *; lia). split; [lia|]. exists b. split; [|congruence].
        rewrite <-Hfb. f_equal. rewrite Hp'. destruct Hr as (_ & _ & _ & ?). lia.
      * rewrite list_lookup_insert_ne in Hj by done. destruct (Hcs j c Hj Hne) as (? & ?). split; [lia|done].
  - split_and!; [|done|lia]. split; [done|]. split; [lia|]. intros j c Hj Hne.
    apply lookup_replicate in Hj as (-> & _). congruence.
  - lia.
Qed.

Lemma header_field_safe line key n x :
  (n ≤ 127)%nat → (n ≤ length key)%nat → (∃ q li, copied q li line) → ∃ v, header_field line key n x = Ok v.
Proof using Hb Hruns.
  intros Hn Hk (q & li & Hc). destruct (copied_line _ _ _ Hc) as (Hz & Hr & Hlen). unfold header_field.
  destruct (strncmp_safe n line key) as (d & ->); [lia|done|]. simpl. destruct (d =? 0); [|by eexists].
  destruct (atoi_safe (drop n line)) as (v & -> & _); [by apply Hz|by apply runs_drop|by eexists].
Qed.

Lemma pam_header_ok p r :
  from f L p r → pam_header r ⇓ λ s, 0 ≤ maxval s.1 ∧ from f L p s.2.
Proof using All.
  intros Hr. unfold pam_header. pose proof Hr as (_ & Hl & _ & Hp0). rewrite Hl.
  apply (wp_loop (λ s, 0 ≤ maxval s.1 ∧ from f L p s.2) (λ s, Z.to_nat (L - pos s.2))).
  - intros [h r'] (Hm & Hr'). cbn [fst snd] in *. destruct (reader_eof r') eqn:E; [by apply wp_ok|].
    pose proof (eof_false f L r' p Hr' E) as Hlt. apply wp_bind.
    eapply wp_mono; [by apply (read_line_ok p)|]. intros [line r''] (Hline & Hr'' & Hmore). cbn [fst snd] in *.
    pose proof Hline as (q & li & Hc). destruct (copied_line _ _ _ Hc) as (_ & _ & Hlen).
    destruct (strncmp_safe 6 line ENDHDR) as (e & ->); [lia|simpl; lia|]. cbn [mbind outcome_bind].
    destruct (e =? 0); [by apply wp_ok|].
    destruct (header_field_safe line WIDTH_ 6 (width h)) as (? & ->); [lia|simpl; lia|done|].
    destruct (header_field_safe line HEIGHT_ 7 (height h)) as (? & ->); [lia|simpl; lia|done|].
    destruct (header_field_safe line DEPTH_ 6 (depth h)) as (? & ->); [lia|simpl; lia|done|].
    destruct (header_field_safe line MAXVAL_ 7 (maxval h)) as (? & ->); [lia|simpl; lia|done|].
    cbn [mbind outcome_bind]. apply wp_ok. cbn [fst snd maxval]. split; [split; [apply u32_range|done]|lia].
  - done.
  - cbn [snd]. lia.
Qed.

End pam.

Lemma magic_ok f L :
  bytes f → 3 ≤ L ≤ zlen f → L < 2 ^ 63 →
  ∃ a b, f !! 0%nat = Some a ∧ f !! 1%nat = Some b ∧
    reader_read_magic (mkReader f L 0) = Ok (Some (i8 a, i8 b), mkReader f L 2).
Proof.
  intros Hb HL Hmax. destruct (zget_in f 0 ltac:(lia)) as (a & Ha). destruct (zget_in f 1 ltac:(lia)) as (b & Hb').
  exists a, b. split_and!; [done|done|]. unfold reader_read_magic. cbn [len pos data advance set_pos].
  rewrite (proj2 (Z.ltb_ge L _)) by (rewrite u64_small by lia; lia). rewrite (zget_ok f 0 a) by (done || lia). cbn [mbind outcome_bind].
  change (u64 (0 + 1)) with 1. by rewrite (zget_ok f 1 b).
Qed.

Lemma decode_p7_ok A f L k p r :
  bytes f → 0 ≤ L ≤ zlen f → L < 2 ^ 63 → runs_ok f → from f L p r → decode_p7 A k r ⇓ result_ok.
Proof.
  intros Hb HL Hmax Hruns Hr. unfold decode_p7. apply wp_bind.
  eapply wp_mono; [by apply (pam_header_ok f L Hb HL Hmax Hruns p)|]. intros [h r'] (Hm & Hr'). cbn [fst snd] in *.
  destruct (_ || _) eqn:E; [by apply wp_ok|]. rewrite !orb_false_iff, !Z.leb_gt, !Z.ltb_ge in E.
  apply (decode_pixels_ok A f L) with (p := p); [lia|lia| |done]. apply p7_takes; (done || lia).
Qed.

(** ppm_decode on any bytes (for the P7 format with lines of fewer digits than overflow a long)
    never reads outside the file or writes outside the pixels, terminates, and returns nothing
    or an image with one 32-bit pixel per position. *)
Theorem ppm_decode_safe A k f L :
  bytes f → 0 ≤ L ≤ zlen f → L < 2 ^ 63 → (f !! 1%nat = Some 55 → runs_ok f) →
  ppm_decode A k (Some f) L ⇓ result_ok.
Proof.
  intros Hb HL Hmax Hruns. unfold ppm_decode. destruct (Z.ltb_spec L 3); [by apply wp_ok|].
  destruct (magic_ok f L) as (a & b & Ha & Hb1 & ->); [done|lia|done|]. cbn [mbind outcome_bind].
  destruct (i8 a =? 80); [|by apply wp_ok]. cbn [negb].
  assert (from f L 0 (mkReader f L 2)) as Hr by (split_and!; simpl; (done || lia)).
  destruct (Z.eqb_spec (i8 b) 55) as [H7|H7].
  - assert (runs_ok f) as Hr7.
    { apply Hruns. rewrite Hb1. f_equal. pose proof (bytes_at _ _ _ Hb Hb1). unfold i8, sint in H7. zlia. }
    apply wp_bind, wp_zget; [simpl; lia|]. intros c _. apply wp_bind. apply wp_mono with (λ r, from f L 0 r ∧ pos r ≤ L).
    { destruct (c =? 10); [apply wp_ok; split; [done|simpl; lia]|].
      eapply wp_mono; [by apply (skip_line_ok f L Hb HL Hmax 0)|]. intros r' (Hr' & Hle & _). split; [done|]. apply Hle. simpl. lia. }
    intros r' (Hr' & Hle). apply (decode_p7_ok A f L k (0 + 1)); try done. by apply from_advance.
  - apply wp_bind. eapply wp_mono; [by apply (read_uint_ok f L Hb HL Hmax 0)|]. intros [ow r1] (Hr1 & Hw). cbn [fst snd] in *.
    destruct ow as [w|]; [|by apply wp_ok]. specialize (Hw w eq_refl).
    apply wp_bind. eapply wp_mono; [by apply (read_uint_ok f L Hb HL Hmax 0)|]. intros [oh r2] (Hr2 & Hh). cbn [fst snd] in *.
    destruct oh as [h|]; [|by apply wp_ok]. specialize (Hh h eq_refl). set (plain := (i8 b =? 49) || (i8 b =? 52)).
    apply wp_bind. apply wp_mono with (λ s, from f L 0 s.2 ∧ ∀ m, s.1 = Some m → 0 ≤ m).
    { destruct plain; [apply wp_ok; split; [done|intros m [= <-]; lia]|].
      eapply wp_mono; [by apply (read_uint_ok f L Hb HL Hmax 0)|]. intros s' (Hs' & Hm). split; [done|].
      intros m Hm'. specialize (Hm m Hm'). lia. }
    intros [om r3] (Hr3 & Hm). cbn [fst snd] in *. destruct om as [m|]; [|by apply wp_ok]. specialize (Hm m eq_refl).
    destruct (negb plain && _); [by apply wp_ok|].
    destruct ((i32 w <=? 0) || (i32 h <=? 0)) eqn:E1; [by apply wp_ok|].
    destruct ((MAX_PPM_DIM <? i32 w) || (MAX_PPM_DIM <? i32 h)) eqn:E2; [by apply wp_ok|].
    rewrite orb_false_iff, !Z.leb_gt in E1. rewrite orb_false_iff, !Z.ltb_ge in E2.
    apply wp_bind. apply wp_mono with (from f L 0).
    { destruct plain; [by apply skip_blank_ok|]. destruct (reader_eof r3) eqn:E; [by apply wp_ok|].
      pose proof (eof_false f L r3 0 Hr3 E). pose proof Hr3 as (Hd3 & _ & _ & Hp3). rewrite Hd3.
      apply wp_bind, wp_zget; [lia|]. intros c _. apply wp_ok. destruct (isspace c); [|done].
      apply (from_weaken f L 0 (0 + 1)); [lia|]. by apply from_advance; [..|lia]. }
    intros r4 Hr4. cbv zeta. unfold decode_p1, decode_p2, decode_p3, decode_p5, decode_p6.
    repeat match goal with |- context [if ?c then _ else _] => destruct c end; try (by apply wp_ok).
    all: try (apply (decode_p4_ok A f L Hb HL Hmax k) with (p := 0); (done || lia)).
    all: apply (decode_pixels_ok A f L) with (p := 0); [lia|lia| |done].
    + by apply p1_takes.
    + apply (grey_takes f L (2 ^ 32) uint_or_0); [done|by apply uint_takes].
    + apply (rgb_takes f L (2 ^ 32) uint_or_0); [done|by apply uint_takes].
    + apply (grey_takes f L (2 ^ 16) (binary_sample _)); [done|by apply sample_takes].
    + apply (rgb_takes f L (2 ^ 16) (binary_sample _)); [done|by apply sample_takes].
Qed.

Lemma runs_check l :
  forallb (λ i, (digit_run (drop i l) <=? 18)%nat) (seq 0 (length l)) = true → runs_ok l.
Proof.
  intros Hl i. destruct (decide (i < length l)%nat) as [Hi|]; [|rewrite drop_ge by lia; simpl; lia].
  rewrite forallb_forall in Hl. apply Nat.leb_le, Hl, in_seq. lia.
Qed.

Definition plenty : allocator := {| avail := λ _ _, true; junk := λ _ _, 0 |}.

(** A PAM file of one colour pixel. *)
Definition one_pixel : list Z :=
  [80; 55; 10; 87; 73; 68; 84; 72; 32; 49; 10; 72; 69; 73; 71; 72; 84; 32; 49; 10; 68; 69; 80; 84; 72; 32; 51; 10; 69; 78; 68; 72; 68; 82; 10; 1; 2; 3].

Lemma ppm_decode_safe_witness : ppm_decode plenty 0 (Some one_pixel) 38 ⇓ result_ok.
Proof.
  apply (ppm_decode_safe plenty 0 one_pixel).
  - apply Forall_forall. intros b Hb. unfold one_pixel in Hb.
    repeat (apply elem_of_cons in Hb as [->|Hb]; [lia|]). by apply elem_of_nil in Hb.
  - vm_compute. split; discriminate.
  - lia.
  - intros _. apply runs_check. vm_compute. reflexivity.
Defined.

Definition shown (r : outcome (option PpmImage)) : option (list Z) :=
  match r with Ok (Some img) => Some (pixels img) | _ => None end.

(** A header number of twenty digits overflows in [atoi]. *)
Lemma long_number_unsound :
  ppm_decode plenty 0 (Some ([80; 55; 10; 87; 73; 68; 84; 72; 32; 57; 57; 57; 57; 57; 57; 57; 57; 57; 57; 57; 57; 57; 57; 57; 57; 57; 57; 57; 57; 10])) 30 = Undef.
Proof. vm_compute. reflexivity. Qed.

(** The white space before the samples of a binary bitmap is skipped together
    with sample bytes that look like it: eight pixels in the byte 0x20, one of
    which is black, come out white. *)
Lemma p4_skips_samples :
  shown (ppm_decode plenty 0 (Some [80; 52; 32; 56; 32; 49; 10; 32]) 8) = Some (replicate 8 0xFFFFFFFF).
Proof. vm_compute. reflexivity. Qed.

(** The samples of a plain bitmap need not be separated; [101] is read as one
    number and the pixels that follow as white. *)
Lemma p1_needs_blanks :
  shown (ppm_decode plenty 0 (Some [80; 49; 32; 51; 32; 49; 10; 49; 48; 49]) 10) = Some [0xFF000000; 0xFFFFFFFF; 0xFFFFFFFF].
Proof. vm_compute. reflexivity. Qed.

(** Of five samples per pixel four are read, and the next pixel starts at the
    fifth. *)
Lemma pam_depth5_misreads :
  shown (ppm_decode plenty 0 (Some ([80; 55; 10; 87; 73; 68; 84; 72; 32; 50; 10; 72; 69; 73; 71; 72; 84; 32; 49; 10; 68; 69; 80; 84; 72; 32; 53; 10; 69; 78; 68; 72; 68; 82; 10] ++
    [1; 2; 3; 4; 99; 11; 12; 13; 14; 98])) 45) = Some [0x04010203; 0x0D630B0C].
Proof. vm_compute. reflexivity. Qed.

(** A width of 2^32 + 1 is taken as 1. *)
Lemma huge_width_wraps :
  shown (ppm_decode plenty 0 (Some [80; 53; 32; 52; 50; 57; 52; 57; 54; 55; 50; 57; 55; 32; 49; 32; 50; 53; 53; 10; 7]) 21) = Some [0xFF070707].
Proof. vm_compute. reflexivity. Qed.

End ImagePpmClaims.
