(* ===== verification/ImagePpmCodec.v ===== *)
(** Files in the PNM formats: header fields between blanks and comments, samples
    as numerals or as bytes.  The decoder reads the image such a file holds. *)
From stdpp Require Import base list.
From S2P Require Import Prelude.
From S2P Require Import CLib.
From S2P Require Import Libc.
From S2P Require Import ImageBmp.
From S2P Require Import ImageBmpRows.
From S2P Require Import ImagePpm.
Import Libc ImageBmpSpec ImagePpm.

Module ImagePpmCodec.

(** * The format *)

(** A white-space character, or a comment that ends with its line. *)
Inductive blank := Space (c : Z) | Comment (text : list Z).
Definition blank_ok (b : blank) : Prop :=
  match b with Space c => isspace c = true | Comment t => 10 ∉ t end.
Definition blank_bytes (b : blank) : list Z :=
  match b with Space c => [c] | Comment t => 35 :: t ++ [10] end.
Definition sep (bs : list blank) : list Z := concat (map blank_bytes bs).

(** [ds] is a decimal numeral of [v]. *)
Definition numeral_value (ds : list Z) : Z := foldl (λ v c, v * 10 + (c - 48)) 0 ds.
Definition numeral (ds : list Z) (v : Z) : Prop :=
  ds ≠ [] ∧ Forall (λ c, isdigit c = true) ds ∧ numeral_value ds = v.

(** The bytes of a sample: blanks and a numeral, or one or two bytes. *)
Definition sample_code (plain wide : bool) (v : Z) (e : list Z) : Prop :=
  if plain then ∃ bs ds, Forall blank_ok bs ∧ numeral ds v ∧ e = sep bs ++ ds
  else e = if wide then [v / 256; v mod 256] else [v].

(** A sample on the scale of 0 to [m] as one of 0 to 255, rounded. *)
Definition scale (v m : Z) : Z := (v * 255 + m / 2) / m.

(** A pixel is one grey sample or three colour samples. *)
Definition pixel_colour (m : Z) (p : list Z) : Z :=
  match p with
  | [g] => 255 * 2 ^ 24 + scale g m * 2 ^ 16 + scale g m * 2 ^ 8 + scale g m
  | [r; g; b] => 255 * 2 ^ 24 + scale r m * 2 ^ 16 + scale g m * 2 ^ 8 + scale b m
  | _ => 0
  end.

Definition magic (plain grey : bool) : Z :=
  match plain, grey with true, true => 50 | true, false => 51 | false, true => 53 | false, false => 54 end.

(** * Where the reader is *)
Section reading.
Context (f : list Z) (Hmax : zlen f < 2 ^ 63).

(** What is left to read. *)
Definition left (r : PpmReader) (s : list Z) : Prop :=
  data r = f ∧ len r = zlen f ∧ 0 ≤ pos r ≤ zlen f ∧ drop (Z.to_nat (pos r)) f = s.

Lemma left_len r s : left r s → zlen s = zlen f - pos r.
Proof using. intros (_ & _ & Hp & <-). unfold zlen in *. rewrite length_drop. lia. Qed.

Lemma left_nil r : left r [] → reader_eof r = true.
Proof using.
  intros Hr. pose proof (left_len _ _ Hr) as Hl. destruct Hr as (_ & Hlen & _).
  unfold reader_eof. apply Z.leb_le. change (zlen []) with 0 in Hl. lia.
Qed.

Lemma left_cons r c s :
  left r (c :: s) →
  reader_eof r = false ∧ zget (data r) (pos r) = Ok c ∧ left (advance r) s ∧ pos (advance r) = pos r + 1.
Proof using Hmax.
  intros Hr. pose proof (left_len _ _ Hr) as Hl. rewrite zlen_cons in Hl. pose proof (zlen_nonneg s).
  destruct Hr as (Hd & Hlen & Hp & Hs). split_and!.
  - unfold reader_eof. apply Z.leb_gt. lia.
  - rewrite Hd. apply zget_ok; [lia|]. rewrite <-(Nat.add_0_r (Z.to_nat (pos r))), <-lookup_drop, Hs. done.
  - unfold left, advance, set_pos. simpl. rewrite u64_small by lia. split_and!; [done|done|lia|lia|].
    rewrite Z2Nat.inj_add, <-drop_drop, Hs by lia. done.
  - simpl. rewrite u64_small by lia. done.
Qed.

(** What does not continue a number, a blank. *)
Definition no_digit (s : list Z) : Prop := match s with [] => True | c :: _ => isdigit c = false end.
Definition no_blank (s : list Z) : Prop := match s with [] => True | c :: _ => isspace c = false ∧ c ≠ 35 end.

Lemma skip_line_run r t s :
  left r (t ++ 10 :: s) → 10 ∉ t → skip_line r ⇓ λ r', left r' (10 :: s).
Proof using Hmax.
  intros Hr Ht. unfold skip_line. pose proof Hr as (_ & Hl & _). rewrite Hl.
  apply (wp_loop (λ r', ∃ t', left r' (t' ++ 10 :: s) ∧ 10 ∉ t') (λ r', Z.to_nat (zlen f - pos r'))).
  - intros r' (t' & Hr' & Ht'). destruct t' as [|c t'].
    { destruct (left_cons _ _ _ Hr') as (-> & -> & _). simpl. by apply wp_ok. }
    destruct (left_cons _ _ _ Hr') as (-> & -> & Ha & Hp). cbn [mbind outcome_bind].
    rewrite (proj2 (Z.eqb_neq c 10)) by (intros ->; apply Ht'; left). apply wp_ok. split.
    + exists t'. split; [done|]. intros Hin. apply Ht'. by right.
    + pose proof (left_len _ _ Hr') as Hll. simpl in Hll. rewrite zlen_cons in Hll. pose proof (zlen_nonneg (t' ++ 10 :: s)). lia.
  - by exists t.
  - destruct Hr as (_ & _ & Hp & _). lia.
Qed.

Lemma skip_blank_run r bs s :
  left r (sep bs ++ s) → Forall blank_ok bs → no_blank s →
  reader_skip_whitespace_and_comments r ⇓ λ r', left r' s.
Proof using Hmax.
  intros Hr Hbs Hs. unfold reader_skip_whitespace_and_comments. pose proof Hr as (_ & Hl & _). rewrite Hl.
  apply (wp_loop (λ r', ∃ bs', left r' (sep bs' ++ s) ∧ Forall blank_ok bs') (λ r', Z.to_nat (zlen f - pos r'))).
  - clear r Hr bs Hbs Hl. intros r (bs & Hr & Hbs). pose proof (left_len _ _ Hr) as Hll. destruct bs as [|[c|t] bs].
    + simpl in Hr. destruct s as [|c s].
      { rewrite (left_nil _ Hr). by apply wp_ok. }
      destruct (left_cons _ _ _ Hr) as (-> & -> & _). simpl in Hs. destruct Hs as (Hc & Hne).
      cbn [mbind outcome_bind]. rewrite (proj2 (Z.eqb_neq c 35)), Hc by done. by apply wp_ok.
    + destruct (left_cons r c (sep bs ++ s) Hr) as (-> & -> & Ha & Hp). cbn [mbind outcome_bind].
      apply Forall_cons in Hbs as (Hc & Hbs). simpl in Hc. rewrite Hc.
      assert (c ≠ 35) by (intros ->; done). rewrite (proj2 (Z.eqb_neq c 35)) by done. apply wp_ok.
      split; [by exists bs|]. pose proof (left_len _ _ Ha). pose proof (zlen_nonneg (sep bs ++ s)). lia.
    + assert (sep (Comment t :: bs) ++ s = 35 :: t ++ 10 :: sep bs ++ s) as Heq.
      { unfold sep. simpl. by rewrite <-!app_assoc. }
      rewrite Heq in Hr. destruct (left_cons _ _ _ Hr) as (-> & -> & Ha & Hp). cbn [mbind outcome_bind Z.eqb Pos.eqb].
      apply Forall_cons in Hbs as (Hc & Hbs). simpl in Hc. apply wp_bind.
      eapply wp_mono; [apply (skip_line_run r (35 :: t) (sep bs ++ s)); [done|]|].
      { intros [|]%elem_of_cons; done. }
      intros r' Hr'. apply wp_ok. split.
      * exists (Space 10 :: bs). split; [done|]. by constructor.
      * pose proof (left_len _ _ Hr') as H1. pose proof (left_len _ _ Hr) as H2. rewrite !zlen_cons in H1, H2.
        rewrite zlen_app, zlen_cons in H2. pose proof (zlen_nonneg t). pose proof (zlen_nonneg (sep bs ++ s)). lia.
  - by exists bs.
  - destruct Hr as (_ & _ & Hp & _). lia.
Qed.

Lemma digit_no_blank c : isdigit c = true → isspace c = false ∧ c ≠ 35.
Proof using.
  unfold isdigit, isspace. intros [?%Z.leb_le ?%Z.leb_le]%andb_prop.
  rewrite !(proj2 (Z.eqb_neq _ _)) by lia. split; [done|lia].
Qed.

Lemma blank_no_digit bs s : bs ≠ [] → Forall blank_ok bs → no_digit (sep bs ++ s).
Proof using.
  destruct bs as [|[c|t] bs]; intros Hne Hbs; [done| |done]. apply Forall_cons in Hbs as (Hc & _). simpl in Hc |- *.
  destruct (isdigit c) eqn:E; [|done]. apply digit_no_blank in E as (? & _). congruence.
Qed.

Lemma foldl_mono ds v :
  Forall (λ c, isdigit c = true) ds → 0 ≤ v → v ≤ foldl (λ v c, v * 10 + (c - 48)) v ds.
Proof using.
  revert v. induction ds as [|c ds IH]; intros v Hds Hv; simpl; [lia|].
  apply Forall_cons in Hds as (Hc & Hds). unfold isdigit in Hc. apply andb_prop in Hc as [?%Z.leb_le ?%Z.leb_le].
  etrans; [|apply IH; [done|lia]]. lia.
Qed.

Lemma read_uint_run r bs ds v s :
  left r (sep bs ++ ds ++ s) → Forall blank_ok bs → numeral ds v → v < 2 ^ 32 → no_digit s →
  reader_read_uint r ⇓ λ o, o.1 = Some v ∧ left o.2 s.
Proof using Hmax.
  intros Hr Hbs (Hne & Hds & Hv) Hmaxv Hs. unfold reader_read_uint. apply wp_bind.
  destruct ds as [|c ds]; [done|]. pose proof (Forall_inv Hds) as Hc.
  eapply wp_mono; [apply (skip_blank_run r bs ((c :: ds) ++ s)); [done|done|by apply digit_no_blank]|].
  intros r' Hr'. destruct (left_cons _ _ _ Hr') as (-> & -> & _). cbn [mbind outcome_bind]. rewrite Hc. cbn [negb].
  apply wp_bind. pose proof Hr' as (_ & -> & Hp' & _).
  apply (wp_loop (λ '(x, r'), ∃ ds', left r' (ds' ++ s) ∧ Forall (λ c, isdigit c = true) ds' ∧ 0 ≤ x ∧
           foldl (λ v c, v * 10 + (c - 48)) x ds' = v) (λ '(_, r'), Z.to_nat (zlen f - pos r'))).
  - clear r Hr r' Hr' Hp' Hne Hds Hv Hc c ds. intros [x r] (ds & Hr & Hds & Hx & Hv). destruct ds as [|c ds].
    + simpl in Hv, Hr. subst x. destruct s as [|c s].
      { rewrite (left_nil _ Hr). by apply wp_ok, wp_ok. }
      destruct (left_cons _ _ _ Hr) as (-> & -> & _). cbn [mbind outcome_bind]. simpl in Hs. rewrite Hs. by apply wp_ok, wp_ok.
    + destruct (left_cons _ _ _ Hr) as (-> & -> & Ha & Hp). cbn [mbind outcome_bind].
      apply Forall_cons in Hds as (Hc & Hds). rewrite Hc. simpl in Hv.
      unfold isdigit in Hc. apply andb_prop in Hc as [?%Z.leb_le ?%Z.leb_le].
      pose proof (foldl_mono ds (x * 10 + (c - 48)) Hds ltac:(lia)).
      rewrite (u32_small (x * 10)) by lia. rewrite u32_small by lia. apply wp_ok. split.
      * exists ds. split_and!; (done || lia).
      * destruct Ha as (_ & _ & Hpa & _).
        change (Z.to_nat (zlen f - pos (advance r)) < Z.to_nat (zlen f - pos r))%nat. lia.
  - exists (c :: ds). done.
  - lia.
Qed.

(** * Samples and pixels *)
Lemma next_byte_run r c s : left r (c :: s) → next_byte r ⇓ λ o, o.1 = c ∧ left o.2 s.
Proof using Hmax.
  intros Hr. destruct (left_cons _ _ _ Hr) as (He & Hg & Ha & _). unfold next_byte, reader_byte.
  rewrite He. unfold reader_eof in He. rewrite He, Hg. by apply wp_ok.
Qed.

Definition get (plain wide : bool) : PpmReader → outcome (Z * PpmReader) :=
  if plain then uint_or_0 else binary_sample wide.

Context (plain : bool) (m : Z) (Hm : 1 ≤ m ≤ 65535).
Definition wide : bool := 255 <? m.
Definition stops (s : list Z) : Prop := if plain then no_digit s else True.

Lemma sample_run r v e s :
  left r (e ++ s) → sample_code plain wide v e → 0 ≤ v ≤ m → stops s →
  get plain wide r ⇓ λ o, o.1 = v ∧ left o.2 s.
Proof using Hmax Hm.
  intros Hr He Hv Hs. unfold sample_code, stops, get in *. destruct plain.
  - destruct He as (bs & ds & Hbs & Hnum & ->). unfold uint_or_0. apply wp_bind.
    rewrite <-app_assoc in Hr. eapply wp_mono; [apply (read_uint_run r bs ds v s); (done || lia)|].
    intros [o r'] (Eo & Hr'). cbn [fst snd] in *. subst o. by apply wp_ok.
  - subst e. unfold binary_sample, wide in *. destruct (Z.ltb_spec 255 m).
    + apply wp_bind. eapply wp_mono; [by apply next_byte_run|]. intros [hi r1] (Ehi & Hr1). cbn [fst snd] in *. subst hi.
      apply wp_bind. eapply wp_mono; [by apply next_byte_run|]. intros [lo r2] (Elo & Hr2). cbn [fst snd] in *. subst lo.
      apply wp_ok. cbn [fst snd]. split; [|done]. rewrite Z.shiftl_mul_pow2, u32_small by zlia.
      rewrite Z.lor_comm, <-Z.shiftl_mul_pow2, lor_shift by zlia. zlia.
    + by apply next_byte_run.
Qed.

Lemma scale_range v : 0 ≤ v ≤ m → 0 ≤ scale v m < 256.
Proof using Hm. clear Hmax. intros Hv. unfold scale. split; [apply Z.div_pos; zlia|]. apply Z.div_lt_upper_bound; zlia. Qed.

Lemma scale_channel_ok v : 0 ≤ v ≤ m → scale_channel v m = Ok (scale v m).
Proof using Hm.
  clear Hmax. intros Hv. pose proof (scale_range v Hv) as Hr. unfold scale_channel. unfold scale in *.
  destruct (Z.eqb_spec m 255) as [->|].
  - rewrite u8_small by lia. f_equal. change (255 / 2) with 127.
    apply (Z.div_unique _ _ _ 127); lia.
  - rewrite (proj2 (Z.eqb_neq m 0)), udiv_ok by lia. cbn [mbind outcome_bind].
    rewrite (u32_small (v * 255)) by lia. rewrite u32_small by zlia. by rewrite u8_small.
Qed.

(** Numerals in a row are kept apart: each of the codes starts with a blank. *)
Definition apart (es : list (list Z)) : Prop := plain = true → Forall no_digit es.

Lemma codes_stop vs es s : Forall2 (sample_code plain wide) vs es → apart es → stops s → stops (concat es ++ s).
Proof using.
  intros Hc Ha Hs. destruct Hc as [|v e vs es He _]; [done|]. unfold stops, sample_code, apart in *. destruct plain; [|done].
  destruct He as (bs & ds & Hbs & (Hne & _) & ->). specialize (Ha eq_refl). apply Forall_cons in Ha as [Ha _]. simpl.
  destruct (sep bs ++ ds) as [|c e] eqn:E; [by apply app_eq_nil in E as [_ ->]|]. done.
Qed.

Lemma apart_app es es' : apart (es ++ es') ↔ apart es ∧ apart es'.
Proof using.
  unfold apart. rewrite Forall_app.
  split; [intros Ha; split; intros Hp; apply (Ha Hp)|intros [H1 H2] Hp; split; [by apply H1|by apply H2]].
Qed.

Lemma apart_tail es es' : apart (tail (es ++ es')) → apart (tail es) ∧ apart (tail es') ∧ (es ≠ [] → apart es').
Proof using.
  destruct es as [|e es]; simpl; [intros; split_and!; [by intros _; constructor|done|done]|]. rewrite apart_app. intros [H1 H2].
  split_and!; [done| |done]. intros Hp. specialize (H2 Hp). by destruct H2.
Qed.

Definition pixel_fn (grey : bool) : PpmReader → outcome (Z * PpmReader) :=
  if plain then (if grey then p2_pixel m else p3_pixel m)
  else (if grey then p5_pixel m else p6_pixel m).

Lemma pixel_fn_form grey r :
  pixel_fn grey r =
  if grey then '(v, r) ← get plain wide r; g ← scale_channel v m; Ok (grey_pixel g, r)
  else '(rv, r) ← get plain wide r; '(gv, r) ← get plain wide r; '(bv, r) ← get plain wide r;
       r8 ← scale_channel rv m; g8 ← scale_channel gv m; b8 ← scale_channel bv m;
       Ok (ImageBmp.argb 255 r8 g8 b8, r).
Proof using. unfold pixel_fn, get, wide. by destruct plain, grey. Qed.

Lemma pixel_run (grey : bool) r p es s :
  left r (concat es ++ s) → Forall2 (sample_code plain wide) p es →
  length p = (if grey then 1 else 3)%nat → Forall (λ v, 0 ≤ v ≤ m) p → apart (tail es) → stops s →
  pixel_fn grey r ⇓ λ o, o.1 = pixel_colour m p ∧ left o.2 s.
Proof using Hmax Hm.
  intros Hr Hc Hp Hv Hap Hs. rewrite pixel_fn_form. destruct grey.
  - destruct p as [|g [|]]; [done| |done]. apply Forall_cons in Hv as (Hg & _).
    apply Forall2_cons_inv_l in Hc as (e & es' & He & Hnil & ->). apply Forall2_nil_inv_l in Hnil as ->.
    cbn [concat] in Hr. rewrite app_nil_r in Hr. apply wp_bind.
    eapply wp_mono; [apply (sample_run r g e s); done|]. intros [v r'] (Ev & Hr'). cbn [fst snd] in *. subst v.
    rewrite scale_channel_ok by done. apply wp_ok. cbn [fst snd]. split; [|done].
    pose proof (scale_range g Hg). unfold grey_pixel. rewrite argb_val by lia. done.
  - destruct p as [|a [|b [|c [|]]]]; try done.
    apply Forall_cons in Hv as (Ha & Hv). apply Forall_cons in Hv as (Hb & Hv). apply Forall_cons in Hv as (Hcv & _).
    apply Forall2_cons_inv_l in Hc as (ea & es1 & Hea & Hc & ->). cbn [tail] in Hap. pose proof (codes_stop _ _ s Hc Hap Hs) as Hs1.
    apply Forall2_cons_inv_l in Hc as (eb & es2 & Heb & Hc & ->). apply (apart_app [eb]) in Hap as [_ Hap].
    pose proof (codes_stop _ _ s Hc Hap Hs) as Hs2.
    apply Forall2_cons_inv_l in Hc as (ec & es3 & Hec & Hnil & ->). apply Forall2_nil_inv_l in Hnil as ->.
    cbn [concat] in *. rewrite app_nil_r in *. rewrite <-!app_assoc in Hr. rewrite <-app_assoc in Hs1.
    apply wp_bind. eapply wp_mono; [by apply (sample_run r a ea (eb ++ ec ++ s))|]. intros [va r1] (Eva & Hr1). cbn [fst snd] in *. subst va.
    apply wp_bind. eapply wp_mono; [by apply (sample_run r1 b eb (ec ++ s))|]. intros [vb r2] (Evb & Hr2). cbn [fst snd] in *. subst vb.
    apply wp_bind. eapply wp_mono; [by apply (sample_run r2 c ec s)|]. intros [vc r3] (Evc & Hr3). cbn [fst snd] in *. subst vc.
    rewrite !scale_channel_ok by done. apply wp_ok. cbn [fst snd]. split; [|done].
    pose proof (scale_range a Ha). pose proof (scale_range b Hb). pose proof (scale_range c Hcv). by rewrite argb_val by lia.
Qed.

(** The samples of an image: pixel by pixel, each with the codes of its samples; in a plain file
    every sample but the first one starts with a blank. *)
Definition raster_ok (grey : bool) (pixs : list (list Z)) (ess : list (list (list Z))) : Prop :=
  Forall2 (Forall2 (sample_code plain wide)) pixs ess ∧ apart (tail (concat ess)) ∧
  Forall (λ p, length p = (if grey then 1 else 3)%nat ∧ Forall (λ v, 0 ≤ v ≤ m) p) pixs.

Lemma raster_stop pixs ess s :
  Forall2 (Forall2 (sample_code plain wide)) pixs ess → apart (concat ess) → stops s → stops (concat (concat ess) ++ s).
Proof using.
  intros Hc Ha Hs. induction Hc as [|p es pixs ess He _ IH]; [done|]. simpl in *. rewrite concat_app, <-app_assoc.
  apply apart_app in Ha as [Ha1 Ha2]. apply (codes_stop p); auto.
Qed.

Lemma decode_pixels_run A k fmt w h grey pixs ess tail r :
  (∀ k n, avail A k n = true) → 1 ≤ w ≤ MAX_PPM_DIM → 1 ≤ h ≤ MAX_PPM_DIM →
  left r (concat (concat ess) ++ tail) → raster_ok grey pixs ess → zlen pixs = w * h → stops tail →
  decode_pixels A k fmt w h (pixel_fn grey) r = Ok (Some (mkPpm (map (pixel_colour m) pixs) w h fmt)).
Proof using Hmax Hm.
  unfold MAX_PPM_DIM. intros HA Hw Hh Hr (Hc & Hap & Hp) Hn Htail. unfold decode_pixels. rewrite !HA. cbn [negb].
  rewrite int_ok by nia. cbn [mbind outcome_bind].
  match goal with |- ?m0 ≫= _ = _ => assert (m0 ⇓ λ o, o.1 = map (pixel_colour m) pixs) as ([px r'] & -> & Hpx) end.
  2: { cbn [fst] in Hpx. by subst px. }
  pose proof (Forall2_length _ _ _ Hc) as Hlen.
  apply (wp_for_each (λ i s, zlen s.1 = w * h ∧ take (Z.to_nat i) s.1 = map (pixel_colour m) (take (Z.to_nat i) pixs) ∧
    left s.2 (concat (concat (drop (Z.to_nat i) ess)) ++ tail))); [nia| | |].
  - cbn [fst snd]. split_and!; [rewrite zlen_fresh; nia|done|done].
  - intros i [px r'] Hi (Hl & Ht & Hr'). cbn [fst snd] in *.
    destruct (zget_in pixs i ltac:(lia)) as (p & Hpi). destruct (Forall2_lookup_l _ _ _ _ _ Hc Hpi) as (es & Hes & Hcode).
    rewrite (drop_S _ _ _ Hes) in Hr'. cbn [concat] in Hr'. rewrite concat_app, <-app_assoc in Hr'.
    destruct (Forall_lookup_1 _ _ _ _ Hp Hpi) as (Hplen & Hpr). apply wp_bind.
    rewrite <-(take_drop_middle _ _ _ Hes), concat_app in Hap. cbn [concat] in Hap. apply apart_tail in Hap as (_ & Hap & _).
    apply apart_tail in Hap as (Hap1 & _ & Hap2). assert (es ≠ []) as Hne.
    { intros ->. apply Forall2_nil_inv_r in Hcode as ->. by destruct grey. }
    eapply wp_mono; [apply (pixel_run grey r' p es); try done|].
    { apply (raster_stop (drop (S (Z.to_nat i)) pixs)); [by apply Forall2_drop|by apply Hap2|done]. }
    intros [c r''] (Ec & Hr''). cbn [fst snd] in *. subst c. rewrite zset_ok by lia. apply wp_ok. cbn [fst snd].
    replace (Z.to_nat (i + 1)) with (S (Z.to_nat i)) by lia. split_and!; [by rewrite zlen_insert| |done].
    rewrite (take_S_r _ _ (pixel_colour m p)) by (apply list_lookup_insert_eq; unfold zlen in *; lia).
    rewrite take_insert_ge, Ht, (take_S_r _ _ p Hpi), map_app by lia. done.
  - intros [px r'] (Hl & Ht & _). cbn [fst] in *. rewrite !take_ge in Ht by (unfold zlen in *; lia). done.
Qed.

End reading.
(** A file: the magic number, width, height and largest sample between blanks,
    one white-space character, the samples, and whatever follows. *)
Definition pnm_file (plain grey : bool) (bw dw bh dh bm dm : list Z) (ws : Z) (raster tail : list Z) : list Z :=
  80 :: magic plain grey :: bw ++ dw ++ bh ++ dh ++ bm ++ dm ++ ws :: raster ++ tail.

Lemma magic_read f plain grey s :
  zlen f < 2 ^ 63 → f = 80 :: magic plain grey :: s →
  reader_read_magic (mkReader f (zlen f) 0) = Ok (Some (80, magic plain grey), mkReader f (zlen f) 2) ∧
  left f (mkReader f (zlen f) 2) s.
Proof.
  intros Hmax ->. rewrite !zlen_cons in *. pose proof (zlen_nonneg s). split.
  - unfold reader_read_magic, advance, set_pos. cbn [len pos data].
    rewrite (proj2 (Z.ltb_ge _ _)) by (rewrite u64_small by lia; lia). change (u64 (0 + 1)) with 1.
    assert (zget (80 :: magic plain grey :: s) 0 = Ok 80) as -> by done.
    assert (zget (80 :: magic plain grey :: s) 1 = Ok (magic plain grey)) as -> by done.
    by destruct plain, grey.
  - unfold left. cbn [data len pos]. rewrite !zlen_cons. split_and!; (done || lia).
Qed.

(** C19: ppm_decode of a grey or colour PNM file, plain or binary, given the memory it asks for,
    gives the image with exactly the encoded pixels scaled from the maximum value to 0..255 and
    rounded. The sides are 1 to 16384 and the maximum value 1 to 65535; any blanks and comments
    stand between the numbers of the header and one white-space byte behind the last; binary
    samples have one byte, or two if the maximum is above 255; plain samples are decimal
    numbers, the first of which may follow directly and each other one follows blanks or
    comments; anything may follow the raster, but no digit directly behind a plain one. *)
Theorem ppm_roundtrip A k plain grey bw dw bh dh bm dm ws w h m pixs ess tail :
  let file := pnm_file plain grey (sep bw) dw (sep bh) dh (sep bm) dm ws (concat (concat ess)) tail in
  (∀ k n, avail A k n = true) → zlen file < 2 ^ 63 →
  Forall blank_ok (bw ++ bh ++ bm) → bh ≠ [] → bm ≠ [] → isspace ws = true →
  numeral dw w → numeral dh h → numeral dm m →
  1 ≤ w ≤ MAX_PPM_DIM → 1 ≤ h ≤ MAX_PPM_DIM → 1 ≤ m ≤ 65535 →
  raster_ok plain m grey pixs ess → zlen pixs = w * h → stops plain tail →
  ppm_decode A k (Some file) (zlen file) =
  Ok (Some (mkPpm (map (pixel_colour m) pixs) w h (if grey then PPM_FORMAT_PGM else PPM_FORMAT_PPM))).
Proof.
  intros file HA Hmax Hblank Hbh Hbm Hws Hdw Hdh Hdm Hw Hh Hm Hraster Hn Htail.
  apply Forall_app in Hblank as (Hbw & Hblank). apply Forall_app in Hblank as (Hbh' & Hbm').
  unfold ppm_decode. assert (3 ≤ zlen file) as H3.
  { unfold file, pnm_file. rewrite !zlen_cons, !zlen_app, zlen_cons.
    assert (∀ l : list Z, 0 ≤ zlen l) as Hz by apply zlen_nonneg.
    pose proof (Hz (sep bw)). pose proof (Hz dw). pose proof (Hz (sep bh)). pose proof (Hz dh).
    pose proof (Hz (sep bm)). pose proof (Hz dm). pose proof (Hz (concat (concat ess) ++ tail)). lia. }
  rewrite (proj2 (Z.ltb_ge _ 3)) by lia.
  destruct (magic_read file plain grey _ Hmax eq_refl) as (-> & Hr0). cbn [mbind outcome_bind].
  assert ((magic plain grey =? 55) = false ∧ (magic plain grey =? 49) = false ∧ (magic plain grey =? 52) = false) as (E7 & E1 & E4).
  { by destruct plain, grey. }
  rewrite Z.eqb_refl, E7, E1, E4. cbn [negb orb andb]. unfold MAX_PPM_DIM in *.
  destruct (read_uint_run file Hmax _ bw dw w _ Hr0 Hbw Hdw) as ([o1 r1] & -> & Ho1 & Hr1);
    [lia|by apply blank_no_digit|]. cbn [fst snd] in *. subst o1. cbn [mbind outcome_bind].
  destruct (read_uint_run file Hmax _ bh dh h _ Hr1 Hbh' Hdh) as ([o2 r2] & -> & Ho2 & Hr2);
    [lia|by apply blank_no_digit|]. cbn [fst snd] in *. subst o2. cbn [mbind outcome_bind].
  assert (isdigit ws = false) as Hwd by (destruct (isdigit ws) eqn:E; [apply digit_no_blank in E as (? & _); congruence|done]).
  destruct (read_uint_run file Hmax _ bm dm m _ Hr2 Hbm' Hdm) as ([o3 r3] & -> & Ho3 & Hr3); [lia|done|].
  cbn [fst snd] in *. subst o3. cbn [mbind outcome_bind].
  rewrite (proj2 (Z.eqb_neq m 0)), (proj2 (Z.ltb_ge 65535 m)), !i32_small by lia. cbn [orb].
  rewrite !(proj2 (Z.leb_gt _ 0)), !(proj2 (Z.ltb_ge 16384 _)) by lia. cbn [orb].
  destruct (left_cons file Hmax _ _ _ Hr3) as (-> & -> & Hr4 & _). cbn [mbind outcome_bind]. rewrite Hws.
  pose proof (decode_pixels_run file Hmax plain m Hm A k (if grey then PPM_FORMAT_PGM else PPM_FORMAT_PPM)
    w h grey pixs ess tail _ HA Hw Hh Hr4 Hraster Hn Htail) as Hrun.
  by destruct plain, grey.
Qed.

Definition plenty : allocator := {| avail := λ _ _, true; junk := λ _ _, 0 |}.

(** Two grey pixels in a plain file, the first one directly behind the newline after the largest sample. *)
Lemma ppm_roundtrip_witness :
  let file := pnm_file true true (sep [Space 10; Comment [99]]) [50] (sep [Space 32]) [49] (sep [Space 10])
                [50; 53; 53] 10 (concat (concat [[[55]]; [[32; 56]]])) [] in
  ppm_decode plenty 0 (Some file) (zlen file) =
  Ok (Some (mkPpm (map (pixel_colour 255) [[7]; [8]]) 2 1 PPM_FORMAT_PGM)).
Proof.
  apply (ppm_roundtrip plenty 0 true true [Space 10; Comment [99]] [50] [Space 32] [49] [Space 10] [50; 53; 53] 10
           2 1 255 [[7]; [8]] [[[55]]; [[32; 56]]] []); try done; try (unfold MAX_PPM_DIM; lia).
  - repeat constructor; try done. intros [|?%elem_of_nil]%elem_of_cons; done.
  - split_and!; [done|by repeat constructor|done].
  - split_and!; [done|by repeat constructor|done].
  - split_and!; [done|by repeat constructor|done].
  - split; [|split; [by repeat constructor|by repeat constructor]].
    repeat constructor; [exists [], [55]|exists [Space 32], [56]]; by (split_and!; repeat constructor).
Defined.

End ImagePpmCodec.
