(* ===== verification/Rects.v ===== *)
(** Rectangles of the graphics server: the damage tracker
    (graphics/server/damage.c) and the clip stack (graphics/draw/clip.c).

    All coordinates are [int]s; an overflow is undefined.  Pointer arguments
    are not NULL. *)
From stdpp Require Import base list.
From S2P Require Import Prelude.
From S2P Require Import CLib.

Record NvRect := mkRect { rx : Z; ry : Z; rw : Z; rh : Z }.

(** A point of a rectangle. *)
Definition inside (r : NvRect) (x y : Z) : Prop := rx r ≤ x < rx r + rw r ∧ ry r ≤ y < ry r + rh r.

Module Damage.

Definition DAMAGE_MAX_RECTS : Z := 64.

Record DamageTracker := mkDamage {
  rects : list NvRect; count : Z; full : bool; surface_w : Z; surface_h : Z }.

Definition set_rects (l : list NvRect) (c : Z) (dt : DamageTracker) : DamageTracker :=
  mkDamage l c (full dt) (surface_w dt) (surface_h dt).

Definition damage_init (sw sh : Z) : DamageTracker :=
  mkDamage (replicate (Z.to_nat DAMAGE_MAX_RECTS) (mkRect 0 0 0 0)) 0 false sw sh.

Definition damage_reset (dt : DamageTracker) : DamageTracker :=
  mkDamage (rects dt) 0 false (surface_w dt) (surface_h dt).

Definition clamp_rect (dt : DamageTracker) (r : NvRect) : outcome NvRect :=
  '(x, w) ← (if rx r <? 0 then w ← int (rw r + rx r); Ok (0, w) else Ok (rx r, rw r));
  '(y, h) ← (if ry r <? 0 then h ← int (rh r + ry r); Ok (0, h) else Ok (ry r, rh r));
  x2 ← int (x + w);
  w ← (if surface_w dt <? x2 then int (surface_w dt - x) else Ok w);
  y2 ← int (y + h);
  h ← (if surface_h dt <? y2 then int (surface_h dt - y) else Ok h);
  Ok (mkRect x y (if w <? 0 then 0 else w) (if h <? 0 then 0 else h)).

(** The conjunction is evaluated from left to right. *)
Definition rects_overlap (a b : NvRect) : outcome bool :=
  b2 ← int (rx b + rw b);
  if negb (rx a <? b2) then Ok false
  else
    a2 ← int (rx a + rw a);
    if negb (rx b <? a2) then Ok false
    else
      b2 ← int (ry b + rh b);
      if negb (ry a <? b2) then Ok false
      else a2 ← int (ry a + rh a); Ok (ry b <? a2).

Definition rect_union (a b : NvRect) : outcome NvRect :=
  let x1 := if rx a <? rx b then rx a else rx b in
  let y1 := if ry a <? ry b then ry a else ry b in
  ax2 ← int (rx a + rw a); bx2 ← int (rx b + rw b);
  ay2 ← int (ry a + rh a); by2 ← int (ry b + rh b);
  let x2 := if bx2 <? ax2 then ax2 else bx2 in
  let y2 := if by2 <? ay2 then ay2 else by2 in
  w ← int (x2 - x1); h ← int (y2 - y1);
  Ok (mkRect x1 y1 w h).

Definition rect_area (r : NvRect) : outcome Z := int (rw r * rh r).

(** [abs(a - b) < 8] *)
Definition near (a b : Z) : outcome bool := d ← int (a - b); d ← int (Z.abs d); Ok (d <? 8).

(** Whether an existing rectangle is one to merge with. *)
Definition touches (ex cl : NvRect) : outcome bool :=
  o ← rects_overlap ex cl;
  if o : bool then Ok true
  else n ← near (rx ex) (rx cl); if n : bool then near (ry ex) (ry cl) else Ok false.

Definition damage_add_rect (dt : DamageTracker) (r : NvRect) : outcome DamageTracker :=
  if full dt then Ok dt
  else
    cl ← clamp_rect dt r;
    if (rw cl <=? 0) || (rh cl <=? 0) then Ok dt
    else
      m ← for_loop 0 (count dt) (λ i (_ : unit),
            ex ← zget (rects dt) i;
            t ← touches ex cl;
            if t : bool then
              u ← rect_union ex cl;
              au ← rect_area u; ae ← rect_area ex; ac ← rect_area cl;
              c2 ← int (ac * 2); s ← int (ae + c2);
              if au <=? s then l ← zset (rects dt) i u; Ok (inr (set_rects l (count dt) dt))
              else Ok (inl tt)
            else Ok (inl tt)) tt;
      match m with
      | inr dt' => Ok dt'
      | inl _ =>
          if DAMAGE_MAX_RECTS <=? count dt
          then Ok (mkDamage (rects dt) 0 true (surface_w dt) (surface_h dt))
          else l ← zset (rects dt) (count dt) cl; Ok (set_rects l (count dt + 1) dt)
      end.

Definition damage_add (dt : DamageTracker) (x y w h : Z) : outcome DamageTracker :=
  damage_add_rect dt (mkRect x y w h).

Definition damage_add_full (dt : DamageTracker) : DamageTracker :=
  mkDamage (rects dt) 0 true (surface_w dt) (surface_h dt).

Definition damage_is_full (dt : DamageTracker) : bool := full dt.
Definition damage_is_empty (dt : DamageTracker) : bool := negb (full dt) && (count dt =? 0).
Definition damage_count (dt : DamageTracker) : Z := count dt.

Definition damage_get (dt : DamageTracker) (index : Z) : outcome (option NvRect) :=
  if (index <? 0) || (count dt <=? index) then Ok None
  else r ← zget (rects dt) index; Ok (Some r).

(** [dst] and [src] are distinct trackers. *)
Definition damage_merge (dst src : DamageTracker) : outcome DamageTracker :=
  if full src then Ok (damage_add_full dst)
  else for_each 0 (count src) (λ i dst, r ← zget (rects src) i; damage_add_rect dst r) dst.

(** [memmove(&rects[i], &rects[i+1], n * sizeof(NvRect))] *)
Definition move_rects (l : list NvRect) (i n : Z) : outcome (list NvRect) :=
  if decide (0 ≤ n ∧ 0 ≤ i ∧ i + 1 + n ≤ zlen l)
  then Ok (take (Z.to_nat i) l ++ take (Z.to_nat n) (drop (Z.to_nat (i + 1)) l) ++ drop (Z.to_nat (i + n)) l)
  else Undef.

Definition clip_step (s : Z * DamageTracker) : outcome ((Z * DamageTracker) + DamageTracker) :=
  let '(i, dt) := s in
  if negb (i <? count dt) then Ok (inr dt)
  else
    r ← zget (rects dt) i;
    r ← clamp_rect dt r;
    l ← zset (rects dt) i r;
    if (rw r <=? 0) || (rh r <=? 0) then
      l ← move_rects l i (count dt - i - 1);
      Ok (inl (i, set_rects l (count dt - 1) dt))
    else Ok (inl (i + 1, set_rects l (count dt) dt)).

Definition damage_clip_to (dt : DamageTracker) (w h : Z) : outcome DamageTracker :=
  let dt := mkDamage (rects dt) (count dt) (full dt) w h in
  loop (S (Z.to_nat (count dt))) clip_step (0, dt).

Definition damage_bounding_box (dt : DamageTracker) : outcome NvRect :=
  if count dt =? 0 then Ok (mkRect 0 0 0 0)
  else if full dt then Ok (mkRect 0 0 (surface_w dt) (surface_h dt))
  else
    box ← zget (rects dt) 0;
    for_each 1 (count dt) (λ i box, r ← zget (rects dt) i; rect_union box r) box.

End Damage.

Module Clip.

Definition CLIP_STACK_DEPTH : Z := 16.

Record ClipStack := mkClip {
  stack : list NvRect; depth : Z; active : NvRect; surface_w : Z; surface_h : Z }.

Definition clip_init (sw sh : Z) : ClipStack :=
  mkClip (replicate (Z.to_nat CLIP_STACK_DEPTH) (mkRect 0 0 0 0)) 0 (mkRect 0 0 sw sh) sw sh.

Definition recompute_active (cs : ClipStack) : outcome ClipStack :=
  if depth cs =? 0
  then Ok (mkClip (stack cs) (depth cs) (mkRect 0 0 (surface_w cs) (surface_h cs)) (surface_w cs) (surface_h cs))
  else r ← zget (stack cs) (depth cs - 1);
       Ok (mkClip (stack cs) (depth cs) r (surface_w cs) (surface_h cs)).

(** The part of [r] inside the active rectangle. *)
Definition push_clipped (cs : ClipStack) (r : NvRect) : outcome NvRect :=
  let cur := active cs in
  let x1 := if rx cur <? rx r then rx r else rx cur in
  let y1 := if ry cur <? ry r then ry r else ry cur in
  x2_r ← int (rx r + rw r); y2_r ← int (ry r + rh r);
  x2_cur ← int (rx cur + rw cur); y2_cur ← int (ry cur + rh cur);
  let x2 := if x2_r <? x2_cur then x2_r else x2_cur in
  let y2 := if y2_r <? y2_cur then y2_r else y2_cur in
  w ← int (x2 - x1); h ← int (y2 - y1);
  Ok (mkRect x1 y1 (if w <? 0 then 0 else w) (if h <? 0 then 0 else h)).

Definition to_surface (cs : ClipStack) (c : NvRect) : outcome NvRect :=
  '(x, w) ← (if rx c <? 0 then w ← int (rw c + rx c); Ok (0, if w <? 0 then 0 else w) else Ok (rx c, rw c));
  '(y, h) ← (if ry c <? 0 then h ← int (rh c + ry c); Ok (0, if h <? 0 then 0 else h) else Ok (ry c, rh c));
  x2 ← int (x + w);
  w ← (if surface_w cs <? x2 then int (surface_w cs - x) else Ok w);
  y2 ← int (y + h);
  h ← (if surface_h cs <? y2 then int (surface_h cs - y) else Ok h);
  Ok (mkRect x y (if w <? 0 then 0 else w) (if h <? 0 then 0 else h)).

Definition clip_push (cs : ClipStack) (r : NvRect) : outcome ClipStack :=
  clipped ← (if depth cs =? 0 then Ok r else push_clipped cs r);
  clipped ← to_surface cs clipped;
  cs ← (if depth cs <? CLIP_STACK_DEPTH
        then l ← zset (stack cs) (depth cs) clipped;
             Ok (mkClip l (depth cs + 1) (active cs) (surface_w cs) (surface_h cs))
        else Ok cs);
  recompute_active cs.

Definition clip_pop (cs : ClipStack) : outcome ClipStack :=
  if depth cs =? 0 then Ok cs
  else recompute_active (mkClip (stack cs) (depth cs - 1) (active cs) (surface_w cs) (surface_h cs)).

Definition clip_reset (cs : ClipStack) : ClipStack :=
  mkClip (stack cs) 0 (mkRect 0 0 (surface_w cs) (surface_h cs)) (surface_w cs) (surface_h cs).

Definition clip_active (cs : ClipStack) : NvRect := active cs.

Definition clip_contains (cs : ClipStack) (x y : Z) : outcome bool :=
  let a := active cs in
  if negb (rx a <=? x) then Ok false
  else
    x2 ← int (rx a + rw a);
    if negb (x <? x2) then Ok false
    else if negb (ry a <=? y) then Ok false
    else y2 ← int (ry a + rh a); Ok (y <? y2).

Definition clip_rect_visible (cs : ClipStack) (r : NvRect) : outcome bool :=
  let a := active cs in
  if (rw a <=? 0) || (rh a <=? 0) then Ok false
  else if (rw r <=? 0) || (rh r <=? 0) then Ok false
  else
    ax2 ← int (rx a + rw a);
    if negb (rx r <? ax2) then Ok false
    else
      rx2 ← int (rx r + rw r);
      if negb (rx a <? rx2) then Ok false
      else
        ay2 ← int (ry a + rh a);
        if negb (ry r <? ay2) then Ok false
        else ry2 ← int (ry r + rh r); Ok (ry a <? ry2).

Definition clip_pixel (cs : ClipStack) (x y : Z) : outcome bool := clip_contains cs x y.

(** The result and the new values of [*x], [*y] and [*w]. *)
Definition clip_line_h (cs : ClipStack) (x y w : Z) : outcome (bool * Z * Z * Z) :=
  let a := active cs in
  if w <=? 0 then Ok (false, x, y, w)
  else if y <? ry a then Ok (false, x, y, w)
  else
    y2 ← int (ry a + rh a);
    if y2 <=? y then Ok (false, x, y, w)
    else
      let x0 := rx a in
      x1 ← int (rx a + rw a);
      '(x, w) ← (if x <? x0 then d ← int (x0 - x); w ← int (w - d); Ok (x0, w) else Ok (x, w));
      e ← int (x + w);
      w ← (if x1 <? e then int (x1 - x) else Ok w);
      Ok (0 <? w, x, y, w).

Definition clip_line_v (cs : ClipStack) (x y h : Z) : outcome (bool * Z * Z * Z) :=
  let a := active cs in
  if h <=? 0 then Ok (false, x, y, h)
  else if x <? rx a then Ok (false, x, y, h)
  else
    x2 ← int (rx a + rw a);
    if x2 <=? x then Ok (false, x, y, h)
    else
      let y0 := ry a in
      y1 ← int (ry a + rh a);
      '(y, h) ← (if y <? y0 then d ← int (y0 - y); h ← int (h - d); Ok (y0, h) else Ok (y, h));
      e ← int (y + h);
      h ← (if y1 <? e then int (y1 - y) else Ok h);
      Ok (0 <? h, x, y, h).

(** The result and the new rectangle. *)
Definition clip_rect (cs : ClipStack) (r : NvRect) : outcome (bool * NvRect) :=
  if (rw r <=? 0) || (rh r <=? 0) then Ok (false, r)
  else
    let a := active cs in
    ax2 ← int (rx a + rw a); ay2 ← int (ry a + rh a);
    rx2 ← int (rx r + rw r); ry2 ← int (ry r + rh r);
    let nx := if rx a <? rx r then rx r else rx a in
    let ny := if ry a <? ry r then ry r else ry a in
    let nx2 := if rx2 <? ax2 then rx2 else ax2 in
    let ny2 := if ry2 <? ay2 then ry2 else ay2 in
    w ← int (nx2 - nx); h ← int (ny2 - ny);
    Ok ((0 <? w) && (0 <? h), mkRect nx ny w h).

End Clip.
