(* ===== verification/DamageClaims.v ===== *)
(** The damage tracker never loses a damaged pixel: what it reports covers the
    set of pixels that were damaged since the last reset, over any sequence of
    calls. *)
From stdpp Require Import base list.
From S2P Require Import Prelude.
From S2P Require Import CLib.
From S2P Require Import Rects.
Import Damage.

Module DamageClaims.

(** The largest side of a surface, and coordinates whose sums are [int]s. *)
Definition DIM : Z := 16384.
Definition small (r : NvRect) : Prop :=
  Z.abs (rx r) < 2 ^ 30 ∧ Z.abs (ry r) < 2 ^ 30 ∧ Z.abs (rw r) < 2 ^ 30 ∧ Z.abs (rh r) < 2 ^ 30.

(** A non-empty rectangle on a surface of [sw] by [sh]. *)
Definition placed (sw sh : Z) (r : NvRect) : Prop :=
  0 ≤ rx r ∧ 0 ≤ ry r ∧ 0 < rw r ∧ 0 < rh r ∧ rx r + rw r ≤ sw ∧ ry r + rh r ≤ sh.

Definition live (dt : DamageTracker) : list NvRect := take (Z.to_nat (count dt)) (rects dt).

Record wf (dt : DamageTracker) : Prop := mk_wf {
  wf_w : 0 ≤ surface_w dt ≤ DIM;
  wf_h : 0 ≤ surface_h dt ≤ DIM;
  wf_rects : zlen (rects dt) = DAMAGE_MAX_RECTS;
  wf_count : 0 ≤ count dt ≤ DAMAGE_MAX_RECTS;
  wf_live : Forall (placed (surface_w dt) (surface_h dt)) (live dt) }.

Definition on_surface (dt : DamageTracker) (x y : Z) : Prop := 0 ≤ x < surface_w dt ∧ 0 ≤ y < surface_h dt.
Definition in_some (l : list NvRect) (x y : Z) : Prop := Exists (λ r, inside r x y) l.

(** The pixels the tracker reports. *)
Definition covers (dt : DamageTracker) (x y : Z) : Prop :=
  on_surface dt x y ∧ (full dt = true ∨ in_some (live dt) x y).

Lemma live_len dt : wf dt → zlen (live dt) = count dt.
Proof.
  intros [_ _ Hr Hc _]. unfold live, zlen, DAMAGE_MAX_RECTS in *. rewrite length_take. lia.
Qed.

Lemma placed_inside sw sh r x y : placed sw sh r → inside r x y → 0 ≤ x < sw ∧ 0 ≤ y < sh.
Proof. unfold placed, inside. lia. Qed.

(** * Rectangles *)
Ltac ints := cbn [mbind outcome_bind]; repeat (rewrite int_ok by lia; cbn [mbind outcome_bind]).

Lemma clamp_ok dt r :
  small r → 0 ≤ surface_w dt ≤ DIM → 0 ≤ surface_h dt ≤ DIM →
  clamp_rect dt r ⇓ λ c, (∀ x y, inside c x y ↔ inside r x y ∧ on_surface dt x y) ∧
    (0 < rw c → 0 < rh c → placed (surface_w dt) (surface_h dt) c).
Proof.
  unfold small, DIM. intros Hs Hw Hh. unfold clamp_rect.
  repeat (match goal with |- wp (?m ≫= _) _ => 
            lazymatch m with context [if ?a <? ?b then _ else _] => destruct (Z.ltb_spec a b); ints | int _ => ints end
          end).
  all: apply wp_ok; unfold inside, placed, on_surface; cbn [rx ry rw rh]; split; [intros x y|];
    repeat (match goal with |- context [if ?a <? 0 then _ else _] => destruct (Z.ltb_spec a 0) end); lia.
Qed.

Lemma union_ok sw sh a b :
  sw ≤ DIM → sh ≤ DIM → placed sw sh a → placed sw sh b →
  rect_union a b ⇓ λ u, placed sw sh u ∧ ∀ x y, inside a x y ∨ inside b x y → inside u x y.
Proof.
  unfold DIM, placed. intros Hw Hh Ha Hb. unfold rect_union. cbv zeta. ints.
  repeat (match goal with |- context [if ?a <? ?b then _ else _] => destruct (Z.ltb_spec a b) end; ints).
  all: apply wp_ok; unfold inside; cbn [rx ry rw rh]; split; [lia|intros x y; lia].
Qed.

Lemma touches_ok sw sh a b :
  sw ≤ DIM → sh ≤ DIM → placed sw sh a → placed sw sh b → ∃ t, touches a b = Ok t.
Proof.
  unfold DIM, placed. intros Hw Hh Ha Hb. unfold touches, rects_overlap, near. ints.
  repeat (match goal with |- context [if negb (?a <? ?b) then _ else _] => destruct (Z.ltb_spec a b); cbn [negb]; ints end).
  all: repeat match goal with |- context [if ?c then _ else _] => destruct c end; by eexists.
Qed.

Lemma area_ok sw sh r : sw ≤ DIM → sh ≤ DIM → placed sw sh r → rect_area r ⇓ λ a, 0 ≤ a ≤ 2 ^ 28.
Proof.
  unfold DIM, placed. intros Hw Hh Hr. unfold rect_area. apply wp_int; nia.
Qed.

(** * Adding *)
Lemma in_some_insert l i r u x y :
  l !! i = Some r → (inside r x y → inside u x y) → in_some l x y → in_some (<[i := u]> l) x y.
Proof.
  intros Hi Hu (s & Hs & Hin)%Exists_exists. apply list_elem_of_lookup in Hs as (j & Hj). apply Exists_exists.
  destruct (decide (j = i)) as [->|Hne].
  - exists u. split; [|apply Hu; congruence]. apply (list_elem_of_lookup_2 _ i), list_lookup_insert_eq.
    by apply lookup_lt_Some in Hi.
  - exists s. split; [|done]. apply (list_elem_of_lookup_2 _ j). by rewrite list_lookup_insert_ne.
Qed.

(** The tracker [dt'] reports what [dt] does, on the same surface. *)
Definition grows (dt dt' : DamageTracker) : Prop :=
  wf dt' ∧ surface_w dt' = surface_w dt ∧ surface_h dt' = surface_h dt ∧
  ∀ x y, covers dt x y → covers dt' x y.

Lemma damage_grows_refl dt : wf dt → grows dt dt.
Proof. done. Qed.

Lemma damage_grows_trans d1 d2 d3 : grows d1 d2 → grows d2 d3 → grows d1 d3.
Proof.
  intros (_ & Hw & Hh & Hc) (Hwf & Hw' & Hh' & Hc'). split_and!; [done|congruence|congruence|auto].
Qed.

Lemma full_grows dt : wf dt → grows dt (damage_add_full dt).
Proof.
  intros [Hw Hh Hr Hc Hl]. split_and!; [|done|done|].
  - constructor; simpl; try done; try (unfold DAMAGE_MAX_RECTS; lia).
  - intros x y (Hs & _). split; [done|by left].
Qed.

Lemma replace_grows dt i r u :
  wf dt → full dt = false → live dt !! Z.to_nat i = Some r → 0 ≤ i →
  placed (surface_w dt) (surface_h dt) u → (∀ x y, inside r x y → inside u x y) →
  let dt' := set_rects (<[Z.to_nat i := u]> (rects dt)) (count dt) dt in
  grows dt dt' ∧ ∀ x y, inside u x y → covers dt' x y.
Proof.
  intros Hwf Hf Hi Hi0 Hu Hin dt'. assert (live dt' = <[Z.to_nat i := u]> (live dt)) as Hlive.
  { unfold live, dt'. simpl. rewrite take_insert_lt; [done|].
    apply lookup_lt_Some in Hi. unfold live in Hi. rewrite length_take in Hi. lia. }
  assert (wf dt') as Hwf'.
  { destruct Hwf as [Hw Hh Hr Hc Hl]. constructor; simpl; try done; [by rewrite zlen_insert|].
    rewrite Hlive. by apply Forall_insert. }
  split.
  - split_and!; [done|done|done|]. intros x y (Hs & [Hfull|Hsome]); split; try done; [by left|right].
    rewrite Hlive. apply (in_some_insert _ _ r); auto.
  - intros x y Hxy. split; [by apply (placed_inside _ _ u)|right]. rewrite Hlive. apply Exists_exists. exists u.
    split; [|done]. apply (list_elem_of_lookup_2 _ (Z.to_nat i)), list_lookup_insert_eq. by apply lookup_lt_Some in Hi.
Qed.

Lemma append_grows dt c :
  wf dt → full dt = false → count dt < DAMAGE_MAX_RECTS → placed (surface_w dt) (surface_h dt) c →
  let dt' := set_rects (<[Z.to_nat (count dt) := c]> (rects dt)) (count dt + 1) dt in
  grows dt dt' ∧ ∀ x y, inside c x y → covers dt' x y.
Proof.
  intros [Hw Hh Hr Hc Hl] Hf Hlt Hp dt'. assert (live dt' = live dt ++ [c]) as Hlive.
  { unfold live, dt'. simpl. replace (Z.to_nat (count dt + 1)) with (S (Z.to_nat (count dt))) by lia.
    rewrite (take_S_r _ _ c) by (apply list_lookup_insert_eq; unfold zlen in *; lia). by rewrite take_insert_ge by lia. }
  assert (wf dt') as Hwf'.
  { constructor; simpl; try done; [by rewrite zlen_insert|lia|]. rewrite Hlive. apply Forall_app. by split; [|constructor]. }
  split.
  - split_and!; [done|done|done|]. intros x y (Hs & [Hfull|Hsome]); split; try done; [by left|right].
    rewrite Hlive. apply Exists_app. by left.
  - intros x y Hxy. split; [by apply (placed_inside _ _ c)|right]. rewrite Hlive. apply Exists_app. right. by constructor.
Qed.

Lemma add_rect_ok dt r :
  wf dt → small r →
  damage_add_rect dt r ⇓ λ dt', grows dt dt' ∧ ∀ x y, inside r x y → on_surface dt x y → covers dt' x y.
Proof.
  intros Hwf Hs. unfold damage_add_rect. destruct (full dt) eqn:Hf.
  { apply wp_ok. split; [by apply damage_grows_refl|]. intros x y _ Ho. split; [done|by left]. }
  pose proof Hwf as [Hw Hh Hr Hc Hl]. apply wp_bind. eapply wp_mono; [by apply clamp_ok|].
  intros c (Hin & Hplaced). destruct ((rw c <=? 0) || (rh c <=? 0)) eqn:E.
  { apply wp_ok. split; [by apply damage_grows_refl|]. intros x y Hxy Ho. exfalso.
    assert (inside c x y) as Hic by (by apply Hin). unfold inside in Hic.
    apply orb_true_iff in E as [?%Z.leb_le|?%Z.leb_le]; lia. }
  apply orb_false_iff in E as [?%Z.leb_gt ?%Z.leb_gt]. specialize (Hplaced ltac:(lia) ltac:(lia)).
  set (Q := λ dt', grows dt dt' ∧ ∀ x y, inside r x y → on_surface dt x y → covers dt' x y).
  assert (∀ dt', grows dt dt' → (∀ x y, inside c x y → covers dt' x y) → Q dt') as HQ.
  { intros dt' Hg Hcov. split; [done|]. intros x y Hxy Ho. apply Hcov. by apply Hin. }
  apply wp_bind, (wp_for (λ _ _, True)); [lia|done| |].
  - intros i _ Hi _. destruct (zget_in (live dt) i) as (ex & Hex); [rewrite live_len; done|].
    pose proof (Forall_lookup_1 _ _ _ _ Hl Hex) as Hpe.
    assert (rects dt !! Z.to_nat i = Some ex) as Hrec by (unfold live in Hex; by apply lookup_take_Some in Hex as (? & _)).
    rewrite (zget_ok _ _ ex) by (done || lia). cbn [mbind outcome_bind].
    destruct (touches_ok _ _ ex c (proj2 Hw) (proj2 Hh) Hpe Hplaced) as ([] & ->); [|by apply wp_ok].
    cbn [mbind outcome_bind].
    destruct (union_ok _ _ ex c (proj2 Hw) (proj2 Hh) Hpe Hplaced) as (u & -> & Hpu & Hu). cbn [mbind outcome_bind].
    destruct (area_ok _ _ u (proj2 Hw) (proj2 Hh) Hpu) as (au & -> & Hau).
    destruct (area_ok _ _ ex (proj2 Hw) (proj2 Hh) Hpe) as (ae & -> & Hae).
    destruct (area_ok _ _ c (proj2 Hw) (proj2 Hh) Hplaced) as (ac & -> & Hac). cbn [mbind outcome_bind]. ints.
    destruct (au <=? _); [|by apply wp_ok]. rewrite zset_ok by (unfold DAMAGE_MAX_RECTS in *; lia). apply wp_ok, wp_ok.
    destruct (replace_grows dt i ex u) as (Hg & Hcov); try done; [lia|intros x y Hxy; apply Hu; by left|].
    apply HQ; [done|]. intros x y Hxy. apply Hcov, Hu. by right.
  - intros _ _. destruct (Z.leb_spec DAMAGE_MAX_RECTS (count dt)).
    + apply wp_ok. apply HQ; [by apply full_grows|]. intros x y Hxy. split; [by apply Hin|by left].
    + rewrite zset_ok by lia. apply wp_ok. destruct (append_grows dt c) as (Hg & Hcov); try done. by apply HQ.
Qed.

(** * Merging *)
Lemma placed_small sw sh r : sw ≤ DIM → sh ≤ DIM → placed sw sh r → small r.
Proof. unfold DIM, placed, small. lia. Qed.

Lemma merge_ok dst src :
  wf dst → wf src →
  damage_merge dst src ⇓ λ dst', grows dst dst' ∧ ∀ x y, covers src x y → on_surface dst x y → covers dst' x y.
Proof.
  intros Hd Hs. unfold damage_merge. pose proof Hs as [Hw Hh Hr Hc Hl]. destruct (full src) eqn:Hf.
  { apply wp_ok. split; [by apply full_grows|]. intros x y _ Ho. split; [done|by left]. }
  apply (wp_for_each (λ i d, grows dst d ∧
    ∀ j r x y, (j < Z.to_nat i)%nat → live src !! j = Some r → inside r x y → on_surface dst x y → covers d x y)); [lia| | |].
  - split; [by apply damage_grows_refl|]. intros. lia.
  - intros i d Hi (Hg & Hcov). destruct (zget_in (live src) i) as (r & Hri); [rewrite live_len; done|].
    assert (rects src !! Z.to_nat i = Some r) as Hrec by (unfold live in Hri; by apply lookup_take_Some in Hri as (? & _)).
    rewrite (zget_ok _ _ r) by (done || lia). cbn [mbind outcome_bind]. pose proof Hg as (Hwfd & Hdw & Hdh & _).
    eapply wp_mono; [apply add_rect_ok; [done|apply (placed_small _ _ _ (proj2 Hw) (proj2 Hh)), (Forall_lookup_1 _ _ _ _ Hl Hri)]|].
    intros d' (Hg' & Hin). split; [by apply (damage_grows_trans _ d)|]. intros k s x y Hk Hks Hxy Ho.
    destruct (decide (k = Z.to_nat i)) as [->|Hne].
    + simplify_eq. apply Hin; [done|]. unfold on_surface in *. by rewrite Hdw, Hdh.
    + destruct Hg' as (_ & _ & _ & Hg'). apply Hg', (Hcov k s); (done || lia).
  - intros d (Hg & Hcov). split; [done|]. intros x y (_ & [?|Hsome]) Ho; [congruence|].
    apply Exists_exists in Hsome as (r & (k & Hk)%list_elem_of_lookup & Hxy).
    apply (Hcov k r); try done. apply lookup_lt_Some in Hk. pose proof (live_len src Hs). unfold zlen in *. lia.
Qed.

(** * Another surface *)

(** The rectangles [done ++ todo] are live, the first ones fit the surface. *)
Definition clipping (s : Z * DamageTracker) (old : DamageTracker) (w h : Z) : Prop :=
  let '(i, dt) := s in
  surface_w dt = w ∧ surface_h dt = h ∧ full dt = full old ∧ zlen (rects dt) = DAMAGE_MAX_RECTS ∧
  0 ≤ i ≤ count dt ∧ count dt ≤ DAMAGE_MAX_RECTS ∧
  Forall (placed w h) (take (Z.to_nat i) (live dt)) ∧
  Forall (placed DIM DIM) (drop (Z.to_nat i) (live dt)) ∧
  ∀ x y, in_some (live old) x y → 0 ≤ x < w ∧ 0 ≤ y < h → in_some (live dt) x y.

Lemma move_live l i c :
  0 ≤ i < c → c ≤ zlen l →
  ∃ l', move_rects l i (c - i - 1) = Ok l' ∧ zlen l' = zlen l ∧
    take (Z.to_nat (c - 1)) l' = take (Z.to_nat i) l ++ drop (Z.to_nat (i + 1)) (take (Z.to_nat c) l).
Proof.
  intros Hi Hc. unfold move_rects. rewrite decide_True by lia. eexists. split; [done|].
  assert (length (take (Z.to_nat (c - i - 1)) (drop (Z.to_nat (i + 1)) l)) = Z.to_nat (c - i - 1)) as Hlen.
  { rewrite length_take, length_drop. unfold zlen in *. lia. }
  split.
  - unfold zlen in *. rewrite !length_app, Hlen, length_take, length_drop. lia.
  - rewrite app_assoc. rewrite take_app_le.
    2: { rewrite length_app, Hlen, length_take. unfold zlen in *. lia. }
    rewrite take_ge.
    2: { rewrite length_app, Hlen, length_take. unfold zlen in *. lia. }
    f_equal. rewrite skipn_firstn_comm || rewrite drop_take. f_equal. lia.
Qed.

Lemma clip_to_ok dt w h :
  wf dt → 0 ≤ w ≤ DIM → 0 ≤ h ≤ DIM →
  damage_clip_to dt w h ⇓ λ dt', wf dt' ∧ surface_w dt' = w ∧ surface_h dt' = h ∧
    ∀ x y, covers dt x y → on_surface dt' x y → covers dt' x y.
Proof.
  intros Hwf Hw Hh. pose proof Hwf as [Hsw Hsh Hr Hc Hl]. unfold damage_clip_to. simpl count.
  apply (wp_loop (λ s, clipping s dt w h) (λ s, Z.to_nat (count s.2 - s.1))).
  - intros [i d] (Hdw & Hdh & Hf & Hlen & Hi & Hcn & Hdone & Htodo & Hcov). unfold clip_step.
    assert (zlen (live d) = count d) as Hll by (unfold live, zlen, DAMAGE_MAX_RECTS in *; rewrite length_take; lia).
    destruct (Z.ltb_spec i (count d)) as [Hlt|Hge]; cbn [negb].
    2: { apply wp_ok. assert (i = count d) as -> by lia. split_and!; [|done|done|].
      - constructor; try (rewrite ?Hdw, ?Hdh; done); [lia|]. rewrite Hdw, Hdh.
        rewrite take_ge in Hdone by (unfold zlen in *; lia). done.
      - intros x y (_ & [Hfull|Hsome]) Ho; (split; [done|]); [left; congruence|right].
        apply Hcov; [done|]. unfold on_surface in Ho. by rewrite Hdw, Hdh in Ho. }
    destruct (zget_in (live d) i) as (r & Hri); [lia|].
    assert (rects d !! Z.to_nat i = Some r) as Hrec by (unfold live in Hri; by apply lookup_take_Some in Hri as (? & _)).
    rewrite (zget_ok _ _ r) by (done || lia). cbn [mbind outcome_bind].
    rewrite (drop_S _ _ _ Hri) in Htodo. apply Forall_cons in Htodo as (Hpr & Htodo).
    apply wp_bind. eapply wp_mono; [apply clamp_ok; [by apply (placed_small DIM DIM)|by rewrite Hdw|by rewrite Hdh]|].
    intros c (Hin & Hplaced). rewrite Hdw, Hdh in Hplaced. rewrite zset_ok by (unfold DAMAGE_MAX_RECTS in *; lia).
    cbn [mbind outcome_bind].
    assert (take (Z.to_nat (count d)) (<[Z.to_nat i:=c]> (rects d)) = <[Z.to_nat i:=c]> (live d)) as Hli.
    { unfold live. by rewrite take_insert_lt by lia. }
    assert (length (live d) = Z.to_nat (count d)) as Hlln by (unfold zlen in *; lia).
    destruct ((rw c <=? 0) || (rh c <=? 0)) eqn:E.
    + assert (∀ x y, ¬ inside c x y) as Hempty.
      { intros x y Hxy. unfold inside in Hxy. apply orb_true_iff in E as [?%Z.leb_le|?%Z.leb_le]; lia. }
      destruct (move_live (<[Z.to_nat i:=c]> (rects d)) i (count d)) as (l' & -> & Hl' & Htake);
        [lia|rewrite zlen_insert; lia|]. cbn [mbind outcome_bind]. apply wp_ok. rewrite Hli in Htake.
      rewrite take_insert_ge in Htake by lia. rewrite drop_insert_lt in Htake by lia. rewrite zlen_insert in Hl'.
      assert (take (Z.to_nat i) (rects d) = take (Z.to_nat i) (live d)) as Hti.
      { unfold live. by rewrite take_take, Nat.min_l by lia. }
      rewrite Hti in Htake. assert (length (take (Z.to_nat i) (live d)) = Z.to_nat i) as Hlt' by (rewrite length_take; lia).
      split; [|cbn [fst snd count set_rects]; lia]. unfold clipping, set_rects. cbn [surface_w surface_h full rects count].
      unfold live at 1 2 4. cbn [count rects]. rewrite Htake. rewrite take_app_le, take_ge, drop_app_ge by lia.
      rewrite Hlt', Nat.sub_diag, drop_0. replace (Z.to_nat (i + 1)) with (S (Z.to_nat i)) by lia.
      split_and!; try done; try lia. intros x y Hold Hs. specialize (Hcov x y Hold Hs).
      rewrite <-(take_drop (Z.to_nat i) (live d)), (drop_S _ _ _ Hri) in Hcov. apply Exists_app in Hcov as [Hcov|Hcov].
      { apply Exists_app. by left. }
      apply Exists_cons in Hcov as [Hrin|Hcov]; [|apply Exists_app; by right].
      exfalso. apply (Hempty x y), Hin. split; [done|]. unfold on_surface. by rewrite Hdw, Hdh.
    + apply wp_ok. apply orb_false_iff in E as [?%Z.leb_gt ?%Z.leb_gt]. specialize (Hplaced ltac:(lia) ltac:(lia)).
      split; [|cbn [fst snd count set_rects]; lia]. unfold clipping, set_rects. cbn [surface_w surface_h full rects count].
      unfold live at 1 2 4. cbn [count rects]. rewrite Hli. replace (Z.to_nat (i + 1)) with (S (Z.to_nat i)) by lia.
      rewrite (take_S_r _ _ c) by (apply list_lookup_insert_eq; lia). rewrite take_insert_ge, drop_insert_lt by lia.
      split_and!; try done; try lia; [by rewrite zlen_insert|apply Forall_app; by split; [|constructor]|].
      intros x y Hold Hs. specialize (Hcov x y Hold Hs). apply (in_some_insert _ _ r); [done| |done].
      intros Hxy. apply Hin. split; [done|]. unfold on_surface. by rewrite Hdw, Hdh.
  - unfold clipping. cbn [surface_w surface_h full rects count]. split_and!; try done; try lia.
    unfold live. cbn [count rects]. eapply Forall_impl; [exact Hl|]. intros r. unfold placed. lia.
  - cbn [fst snd count]. lia.
Qed.

(** * The bounding box *)
Lemma bounding_box_ok dt :
  wf dt → full dt = false → damage_bounding_box dt ⇓ λ box, ∀ x y, covers dt x y → inside box x y.
Proof.
  intros Hwf Hf. pose proof Hwf as [Hw Hh Hr Hc Hl]. pose proof (live_len dt Hwf) as Hll. unfold damage_bounding_box.
  assert (∀ i, 0 ≤ i < count dt → ∃ r, zget (rects dt) i = Ok r ∧ live dt !! Z.to_nat i = Some r) as Hget.
  { intros i Hi. destruct (zget_in (live dt) i) as (r & Hri); [lia|]. exists r. split; [|done].
    apply zget_ok; [lia|]. unfold live in Hri. by apply lookup_take_Some in Hri as (? & _). }
  destruct (Z.eqb_spec (count dt) 0) as [H0|H0].
  { apply wp_ok. intros x y (_ & [?|Hsome]); [congruence|]. unfold live in Hsome. rewrite H0 in Hsome. by apply Exists_nil in Hsome. }
  rewrite Hf. destruct (Hget 0) as (r0 & -> & Hr0); [lia|]. cbn [mbind outcome_bind].
  apply (wp_for_each (λ i box, placed (surface_w dt) (surface_h dt) box ∧
    ∀ k r x y, (k < Z.to_nat i)%nat → live dt !! k = Some r → inside r x y → inside box x y)); [lia| | |].
  - split; [by apply (Forall_lookup_1 _ _ _ _ Hl Hr0)|]. intros k r x y Hk Hkr. assert (k = 0%nat) as -> by lia. assert (Some r = Some r0) as [= ->] by (rewrite <-Hkr; exact Hr0). done.
  - intros i box Hi (Hp & Hin). destruct (Hget i) as (r & -> & Hri); [lia|]. cbn [mbind outcome_bind].
    eapply wp_mono; [apply (union_ok _ _ box r (proj2 Hw) (proj2 Hh) Hp), (Forall_lookup_1 _ _ _ _ Hl Hri)|].
    intros u (Hpu & Hu). split; [done|]. intros k s x y Hk Hks Hxy. apply Hu.
    destruct (decide (k = Z.to_nat i)) as [->|]; [right; by simplify_eq|left]. apply (Hin k s); (done || lia).
  - intros box (_ & Hin) x y (_ & [?|Hsome]); [congruence|].
    apply Exists_exists in Hsome as (r & (k & Hk)%list_elem_of_lookup & Hxy). apply (Hin k r); try done.
    apply lookup_lt_Some in Hk. unfold zlen in *. lia.
Qed.

(** * Sequences of calls *)
Inductive op := OReset | OAdd (r : NvRect) | OFull | OMerge (src : DamageTracker) | OClip (w h : Z).

Definition exec (o : op) (dt : DamageTracker) : outcome DamageTracker :=
  match o with
  | OReset => Ok (damage_reset dt)
  | OAdd r => damage_add dt (rx r) (ry r) (rw r) (rh r)
  | OFull => Ok (damage_add_full dt)
  | OMerge src => damage_merge dt src
  | OClip w h => damage_clip_to dt w h
  end.
Fixpoint run (os : list op) (dt : DamageTracker) : outcome DamageTracker :=
  match os with [] => Ok dt | o :: os => dt ← exec o dt; run os dt end.

Definition allowed (o : op) : Prop :=
  match o with
  | OAdd r => small r
  | OMerge src => wf src
  | OClip w h => 0 ≤ w ≤ DIM ∧ 0 ≤ h ≤ DIM
  | _ => True
  end.

(** The surface and the set of damaged pixels. *)
Record screen := mkScreen { sw : Z; sh : Z; damaged : Z → Z → Prop }.
Definition on (s : screen) (x y : Z) : Prop := 0 ≤ x < sw s ∧ 0 ≤ y < sh s.

Definition spec (o : op) (s : screen) : screen :=
  match o with
  | OReset => mkScreen (sw s) (sh s) (λ _ _, False)
  | OAdd r => mkScreen (sw s) (sh s) (λ x y, damaged s x y ∨ inside r x y ∧ on s x y)
  | OFull => mkScreen (sw s) (sh s) (on s)
  | OMerge src => mkScreen (sw s) (sh s) (λ x y, damaged s x y ∨ covers src x y ∧ on s x y)
  | OClip w h => mkScreen w h (λ x y, damaged s x y ∧ 0 ≤ x < w ∧ 0 ≤ y < h)
  end.

Definition tracks (s : screen) (dt : DamageTracker) : Prop :=
  wf dt ∧ surface_w dt = sw s ∧ surface_h dt = sh s ∧ ∀ x y, damaged s x y → covers dt x y.

Lemma exec_tracks o s dt : tracks s dt → allowed o → exec o dt ⇓ tracks (spec o s).
Proof.
  intros (Hwf & Hw & Hh & Hc) Ho. assert (∀ x y, on s x y → on_surface dt x y) as Hon.
  { unfold on, on_surface. by rewrite Hw, Hh. }
  destruct o as [|r| |src|w h]; cbn [exec].
  - apply wp_ok. split_and!; [|done|done|done]. destruct Hwf. constructor; simpl; try done; unfold DAMAGE_MAX_RECTS; lia.
  - unfold damage_add. replace (mkRect (rx r) (ry r) (rw r) (rh r)) with r by (by destruct r).
    eapply wp_mono; [by apply add_rect_ok|]. intros dt' ((Hwf' & Hw' & Hh' & Hg) & Hin). split_and!; simpl; [done|congruence|congruence|].
    intros x y [Hd|(Hr & Hs)]; auto.
  - apply wp_ok. destruct (full_grows dt Hwf) as (Hwf' & _). split_and!; [done|done|done|]. intros x y Hxy.
    split; [by apply Hon|by left].
  - eapply wp_mono; [by apply merge_ok|]. intros dt' ((Hwf' & Hw' & Hh' & Hg) & Hin). split_and!; simpl; [done|congruence|congruence|].
    intros x y [Hd|(Hr & Hs)]; auto.
  - destruct Ho as (Ho1 & Ho2). eapply wp_mono; [by apply clip_to_ok|]. intros dt' (Hwf' & Hw' & Hh' & Hg).
    split_and!; [done|done|done|]. intros x y (Hd & Hs). apply Hg; [by apply Hc|]. unfold on_surface. by rewrite Hw', Hh'.
Qed.

(** C28: After any sequence of additions, merges, resets, resizes and full-damage calls on a
    fresh damage tracker, every damaged pixel of the surface is in what the tracker reports, and
    in its bounding box unless everything is damaged; the rectangles reported lie on the
    surface. *)
Theorem damage_never_lost w h os :
  0 ≤ w ≤ DIM → 0 ≤ h ≤ DIM → Forall allowed os →
  run os (damage_init w h) ⇓ λ dt,
    let s := foldl (λ s o, spec o s) (mkScreen w h (λ _ _, False)) os in
    wf dt ∧ surface_w dt = sw s ∧ surface_h dt = sh s ∧
    (∀ x y, damaged s x y → covers dt x y) ∧
    (full dt = false → damage_bounding_box dt ⇓ λ box, ∀ x y, damaged s x y → inside box x y).
Proof.
  intros Hw Hh Hos. assert (tracks (mkScreen w h (λ _ _, False)) (damage_init w h)) as Ht.
  { split_and!; [|done|done|done]. constructor; simpl; try done; unfold DAMAGE_MAX_RECTS; lia. }
  revert Ht. generalize (mkScreen w h (λ _ _, False)) (damage_init w h).
  induction Hos as [|o os Ho _ IH]; intros s dt Ht; simpl.
  - apply wp_ok. pose proof Ht as (Hwf & ? & ? & Hc). split_and!; try done. intros Hf.
    eapply wp_mono; [by apply bounding_box_ok|]. intros box Hbox x y Hd. by apply Hbox, Hc.
  - apply wp_bind. eapply wp_mono; [by apply exec_tracks|]. intros dt' Ht'. by apply IH.
Qed.

Lemma damage_never_lost_witness :
  run [OAdd (mkRect (-5) 10 20 20); OAdd (mkRect 100 100 8 8); OClip 64 64] (damage_init 640 480) ⇓ (λ dt,
    let s := foldl (λ s o, spec o s) (mkScreen 640 480 (λ _ _, False))
               [OAdd (mkRect (-5) 10 20 20); OAdd (mkRect 100 100 8 8); OClip 64 64] in
    wf dt ∧ surface_w dt = sw s ∧ surface_h dt = sh s ∧
    (∀ x y, damaged s x y → covers dt x y) ∧
    (full dt = false → damage_bounding_box dt ⇓ λ box, ∀ x y, damaged s x y → inside box x y)).
Proof.
  apply (damage_never_lost 640 480 [OAdd (mkRect (-5) 10 20 20); OAdd (mkRect 100 100 8 8); OClip 64 64]).
  - unfold DIM. lia.
  - unfold DIM. lia.
  - repeat constructor; simpl; unfold DIM; lia.
Defined.

(** A fully damaged surface has an empty bounding box: the test for no
    rectangles comes first, and a full tracker has none. *)
Lemma full_box_empty dt : damage_bounding_box (damage_add_full dt) = Ok (mkRect 0 0 0 0).
Proof. done. Qed.

End DamageClaims.
