(* ===== verification/ClipClaims.v ===== *)
(** The clip stack: after any sequence of pushes and pops the visible pixels
    are those of the surface inside every rectangle on the stack, and the
    clipping functions cut pixels, lines and rectangles to exactly these. *)
From stdpp Require Import base list.
From S2P Require Import Prelude.
From S2P Require Import CLib.
From S2P Require Import Rects.
From S2P Require Import DamageClaims.
Import Clip.

Module ClipClaims.
Import DamageClaims.

(** Rectangles whose coordinates leave room for the sums and differences taken
    of them, and the clipped rectangles on the stack. *)
Definition modest (r : NvRect) : Prop :=
  Z.abs (rx r) < 2 ^ 29 ∧ Z.abs (ry r) < 2 ^ 29 ∧ Z.abs (rw r) < 2 ^ 29 ∧ Z.abs (rh r) < 2 ^ 29.
Definition fit (r : NvRect) : Prop := 0 ≤ rx r < 2 ^ 29 ∧ 0 ≤ ry r < 2 ^ 29 ∧ 0 ≤ rw r ≤ DIM ∧ 0 ≤ rh r ≤ DIM.

Definition visible (w h : Z) (ps : list NvRect) (x y : Z) : Prop :=
  (0 ≤ x < w ∧ 0 ≤ y < h) ∧ Forall (λ r, inside r x y) ps.

(** The rectangle [r] shows what is visible through [ps]. *)
Definition shows (w h : Z) (ps : list NvRect) (r : NvRect) : Prop :=
  fit r ∧ ∀ x y, inside r x y ↔ visible w h ps x y.

(** The stack [cs] holds the rectangles [ps], the oldest first. *)
Record repr (w h : Z) (cs : ClipStack) (ps : list NvRect) : Prop := mk_repr {
  r_w : surface_w cs = w;
  r_h : surface_h cs = h;
  r_len : zlen (stack cs) = CLIP_STACK_DEPTH;
  r_depth : depth cs = zlen ps ∧ depth cs ≤ CLIP_STACK_DEPTH;
  r_active : shows w h ps (active cs);
  r_stack : ∀ i r, (i < length ps)%nat → stack cs !! i = Some r → shows w h (take (S i) ps) r }.

(** Case analysis of every conditional, the innermost first. *)
Ltac cut_ifs :=
  repeat match goal with H : context [if _ then _ else _] |- _ => revert H end;
  repeat match goal with
  | |- context [if ?a <? ?b then _ else _] =>
      lazymatch a with context [if _ then _ else _] => fail | _ => idtac end;
      lazymatch b with context [if _ then _ else _] => fail | _ => destruct (Z.ltb_spec a b) end
  end; intros.
(** Symbolic execution of [int] arithmetic and comparisons. *)
Ltac int_step :=
  lazymatch goal with
  | |- wp (Ok _) _ => apply wp_ok; cbv beta iota
  | |- wp (_ ≫= _) _ => apply wp_bind
  | |- wp (int _) _ => apply wp_int; [cut_ifs; lia|cbv beta]
  | |- wp (if ?a <? ?b then _ else _) _ => destruct (Z.ltb_spec a b)
  | |- wp (if ?a <=? ?b then _ else _) _ => destruct (Z.leb_spec a b)
  | |- wp (if negb (?a <? ?b) then _ else _) _ => destruct (Z.ltb_spec a b); cbn [negb]
  | |- wp (if negb (?a <=? ?b) then _ else _) _ => destruct (Z.leb_spec a b); cbn [negb]
  | |- wp (if (?a <=? ?b) || (?c <=? ?d) then _ else _) _ => destruct (Z.leb_spec a b), (Z.leb_spec c d); cbn [orb]
  end.
Ltac ints := repeat int_step.

Lemma to_surface_ok cs r :
  modest r → 0 ≤ surface_w cs ≤ DIM → 0 ≤ surface_h cs ≤ DIM →
  to_surface cs r ⇓ λ c, fit c ∧
    ∀ x y, inside c x y ↔ inside r x y ∧ 0 ≤ x < surface_w cs ∧ 0 ≤ y < surface_h cs.
Proof.
  unfold modest, fit, DIM, inside. intros Hs Hw Hh. unfold to_surface. ints.
  all: cbn [rx ry rw rh]; cut_ifs; (split; [lia|intros; lia]).
Qed.

Lemma push_clipped_ok cs r :
  modest r → fit (active cs) →
  push_clipped cs r ⇓ λ c, modest c ∧ ∀ x y, inside c x y ↔ inside r x y ∧ inside (active cs) x y.
Proof.
  unfold modest, fit, DIM, inside. intros Hs Ha. unfold push_clipped. cbv zeta. ints.
  cbn [rx ry rw rh]. cut_ifs; (split; [lia|intros; lia]).
Qed.

(** * The stack *)
Lemma visible_app w h ps r x y : visible w h (ps ++ [r]) x y ↔ inside r x y ∧ visible w h ps x y.
Proof. unfold visible. rewrite Forall_app, Forall_singleton. tauto. Qed.

Lemma shows_surface w h : 0 ≤ w ≤ DIM → 0 ≤ h ≤ DIM → shows w h [] (mkRect 0 0 w h).
Proof.
  intros Hw Hh. split; [unfold fit; cbn [rx ry rw rh]; lia|].
  intros x y. unfold visible, inside. cbn [rx ry rw rh]. rewrite Forall_nil. lia.
Qed.

(** Once the entries of the stack are right, so is the active rectangle. *)
Lemma recompute_ok w h ps st a :
  0 ≤ w ≤ DIM → 0 ≤ h ≤ DIM → zlen st = CLIP_STACK_DEPTH → zlen ps ≤ CLIP_STACK_DEPTH →
  (∀ i r, (i < length ps)%nat → st !! i = Some r → shows w h (take (S i) ps) r) →
  recompute_active (mkClip st (zlen ps) a w h) ⇓ λ cs, repr w h cs ps.
Proof.
  intros Hw Hh Hl Hd Hs. unfold recompute_active. cbn [depth stack surface_w surface_h].
  destruct (Z.eqb_spec (zlen ps) 0) as [E|E].
  - apply wp_ok. split; cbn; auto.
    destruct ps; [by apply shows_surface|unfold zlen in E; cbn in E; lia].
  - pose proof (zlen_nonneg ps). apply wp_bind, wp_zget; [lia|]. intros r Hr. apply wp_ok.
    split; cbn; auto. unfold zlen in E, Hr.
    specialize (Hs (length ps - 1)%nat r ltac:(lia)).
    replace (S (length ps - 1)) with (length ps) in Hs by lia. rewrite firstn_all in Hs.
    apply Hs. rewrite <-Hr. f_equal. lia.
Qed.

Lemma push_shows w h cs ps r :
  0 ≤ w ≤ DIM → 0 ≤ h ≤ DIM → repr w h cs ps → modest r →
  (c ← (if depth cs =? 0 then Ok r else push_clipped cs r); to_surface cs c) ⇓ λ c, shows w h (ps ++ [r]) c.
Proof.
  intros Hw Hh [Ew Eh _ [Ed _] [Ha Hv] _] Hr. subst w h.
  apply wp_bind, (wp_mono _ (λ c, modest c ∧ ∀ x y, (0 ≤ x < surface_w cs ∧ 0 ≤ y < surface_h cs) →
    (inside c x y ↔ inside r x y ∧ inside (active cs) x y))).
  - destruct (Z.eqb_spec (depth cs) 0) as [E|E].
    + apply wp_ok. split; [done|]. intros x y Hxy. rewrite Hv. unfold visible.
      destruct ps; [rewrite Forall_nil; tauto|unfold zlen in Ed; cbn in Ed; lia].
    + eapply wp_mono; [by apply push_clipped_ok|]. intros c [? Hc]. split; [done|]. intros; apply Hc.
  - intros c [Hm Hc]. eapply wp_mono; [by apply to_surface_ok|].
    intros d [Hf Hd]. split; [done|]. intros x y. rewrite Hd, visible_app, <-Hv.
    specialize (Hc x y). specialize (Hv x y). unfold visible in Hv. tauto.
Qed.

Definition pushed (ps : list NvRect) (r : NvRect) : list NvRect :=
  if zlen ps <? CLIP_STACK_DEPTH then ps ++ [r] else ps.

Lemma clip_push_ok w h cs ps r :
  0 ≤ w ≤ DIM → 0 ≤ h ≤ DIM → repr w h cs ps → modest r →
  clip_push cs r ⇓ λ cs', repr w h cs' (pushed ps r).
Proof.
  intros Hw Hh HR Hr. pose proof (push_shows w h cs ps r Hw Hh HR Hr) as Hc.
  destruct HR as [Ew Eh El [Ed Hd] _ Hs]. unfold clip_push, pushed. rewrite <-Ed.
  destruct Hc as (c & Ec & Hc).
  destruct (if depth cs =? 0 then Ok r else push_clipped cs r) as [c0| |] eqn:E; [|done|done].
  cbn [mbind outcome_bind] in Ec |- *. rewrite Ec. cbn [mbind outcome_bind].
  destruct (Z.ltb_spec (depth cs) CLIP_STACK_DEPTH).
  - rewrite zset_ok by (pose proof (zlen_nonneg ps); lia). cbn [mbind outcome_bind].
    rewrite Ew, Eh, Ed. replace (zlen ps + 1) with (zlen (ps ++ [r])) by (rewrite zlen_app; done).
    apply recompute_ok; auto.
    + unfold zlen in *. by rewrite length_insert.
    + rewrite zlen_app. change (zlen [r]) with 1. lia.
    + intros i q. rewrite length_app; cbn [length]. intros Hi. unfold zlen in *.
      destruct (decide (i = length ps)) as [->|Hn].
      * rewrite Nat2Z.id, list_lookup_insert_eq by lia. intros [= <-].
        rewrite take_ge by (rewrite length_app; cbn; lia). done.
      * rewrite Nat2Z.id, list_lookup_insert_ne by lia. intros Hq.
        rewrite take_app_le by lia. apply Hs; [lia|done].
  - cbn [mbind outcome_bind]. destruct cs as [st d a sw sh]; cbn in *. subst.
    apply recompute_ok; auto.
Qed.

Lemma clip_pop_ok w h cs ps :
  0 ≤ w ≤ DIM → 0 ≤ h ≤ DIM → repr w h cs ps →
  clip_pop cs ⇓ λ cs', repr w h cs' (take (length ps - 1) ps).
Proof.
  intros Hw Hh HR. pose proof HR as [Ew Eh El [Ed Hd] _ Hs]. unfold clip_pop. unfold zlen in Ed.
  destruct (Z.eqb_spec (depth cs) 0) as [E|E].
  - apply wp_ok. replace (take _ ps) with ps; [done|]. destruct ps; [done|cbn in Ed; lia].
  - rewrite Ew, Eh. replace (depth cs - 1) with (zlen (take (length ps - 1) ps))
      by (unfold zlen; rewrite length_take; lia).
    apply recompute_ok; auto.
    + unfold zlen. rewrite length_take. lia.
    + intros i r Hi Hr. rewrite length_take in Hi. rewrite take_take.
      rewrite Nat.min_l by lia. apply Hs; [lia|done].
Qed.

Lemma clip_reset_ok w h cs ps :
  0 ≤ w ≤ DIM → 0 ≤ h ≤ DIM → repr w h cs ps → repr w h (clip_reset cs) [].
Proof.
  intros Hw Hh [<- <- El _ _ _].
  split; cbn; auto; [done|by apply shows_surface|]. intros; lia.
Qed.

Lemma clip_init_ok w h : 0 ≤ w ≤ DIM → 0 ≤ h ≤ DIM → repr w h (clip_init w h) [].
Proof. intros Hw Hh. split; cbn; auto; [done|by apply shows_surface|]. intros; lia. Qed.

(** * The queries *)
Definition bool_iff (b : bool) (P : Prop) : Prop := b = true ↔ P.

Lemma contains_ok a cs x y : active cs = a → fit a → clip_contains cs x y ⇓ λ b, bool_iff b (inside a x y).
Proof.
  intros <- Hf. unfold fit, DIM in Hf. unfold clip_contains, bool_iff, inside. cbv zeta. ints.
  all: try rewrite Z.ltb_lt; split; (done || lia).
Qed.

Lemma rect_visible_ok a cs r :
  active cs = a → fit a → modest r →
  clip_rect_visible cs r ⇓ λ b, bool_iff b (∃ x y, inside r x y ∧ inside a x y).
Proof.
  intros <- Hf Hr. unfold fit, modest, DIM in *. unfold clip_rect_visible, bool_iff, inside. cbv zeta. ints.
  all: split; [|intros (x & y & ? & ?); rewrite ?Z.ltb_lt; lia].
  all: rewrite ?Z.ltb_lt; try done; intros.
  exists (Z.max (rx r) (rx (active cs))), (Z.max (ry r) (ry (active cs))). lia.
Qed.

Lemma line_h_ok a cs x y w :
  active cs = a → fit a → Z.abs x < 2 ^ 29 → Z.abs w < 2 ^ 29 →
  clip_line_h cs x y w ⇓ λ '(b, x', y', w'), y' = y ∧ bool_iff b (∃ u, x ≤ u < x + w ∧ inside a u y) ∧
    (b = true → ∀ u, x' ≤ u < x' + w' ↔ x ≤ u < x + w ∧ inside a u y).
Proof.
  intros <- Hf Hx Hw. unfold fit, DIM in *. unfold clip_line_h, bool_iff, inside. cbv zeta. ints.
  all: split; [done|split; [|rewrite ?Z.ltb_lt; intros; (done || lia)]].
  all: split; [|intros (u & ? & ?); rewrite ?Z.ltb_lt; lia].
  all: rewrite ?Z.ltb_lt; try done; intros.
  all: exists (Z.max x (rx (active cs))); lia.
Qed.

Lemma line_v_ok a cs x y h :
  active cs = a → fit a → Z.abs y < 2 ^ 29 → Z.abs h < 2 ^ 29 →
  clip_line_v cs x y h ⇓ λ '(b, x', y', h'), x' = x ∧ bool_iff b (∃ u, y ≤ u < y + h ∧ inside a x u) ∧
    (b = true → ∀ u, y' ≤ u < y' + h' ↔ y ≤ u < y + h ∧ inside a x u).
Proof.
  intros <- Hf Hx Hw. unfold fit, DIM in *. unfold clip_line_v, bool_iff, inside. cbv zeta. ints.
  all: split; [done|split; [|rewrite ?Z.ltb_lt; intros; (done || lia)]].
  all: split; [|intros (u & ? & ?); rewrite ?Z.ltb_lt; lia].
  all: rewrite ?Z.ltb_lt; try done; intros.
  all: exists (Z.max y (ry (active cs))); lia.
Qed.

Lemma rect_ok a cs r :
  active cs = a → fit a → modest r →
  clip_rect cs r ⇓ λ '(b, r'), bool_iff b (∃ x y, inside r x y ∧ inside a x y) ∧
    (b = true → ∀ x y, inside r' x y ↔ inside r x y ∧ inside a x y).
Proof.
  intros <- Hf Hr. unfold fit, modest, DIM in *. unfold clip_rect, bool_iff, inside. cbv zeta. ints.
  all: cbn [rx ry rw rh]; rewrite ?andb_true_iff, ?Z.ltb_lt; cut_ifs.
  all: split; [split; [|intros (x & y & ? & ?); (done || lia)]|intros; (done || lia)].
  all: try done; intros.
  all: exists (Z.max (rx r) (rx (active cs))), (Z.max (ry r) (ry (active cs))); lia.
Qed.

(** * Any sequence of calls *)
Inductive op := Push (r : NvRect) | Pop | Reset.

Definition do_op (cs : ClipStack) (o : op) : outcome ClipStack :=
  match o with Push r => clip_push cs r | Pop => clip_pop cs | Reset => Ok (clip_reset cs) end.
Fixpoint do_ops (cs : ClipStack) (os : list op) : outcome ClipStack :=
  match os with [] => Ok cs | o :: os => cs ← do_op cs o; do_ops cs os end.

(** What the calls mean: a stack of rectangles, the oldest first, on which a
    push that finds sixteen is ignored. *)
Definition spec_op (ps : list NvRect) (o : op) : list NvRect :=
  match o with Push r => pushed ps r | Pop => take (length ps - 1) ps | Reset => [] end.
Definition ok_op (o : op) : Prop := match o with Push r => modest r | _ => True end.

Lemma do_ops_ok w h os : ∀ cs ps,
  0 ≤ w ≤ DIM → 0 ≤ h ≤ DIM → Forall ok_op os → repr w h cs ps →
  do_ops cs os ⇓ λ cs', repr w h cs' (fold_left spec_op os ps).
Proof.
  induction os as [|o os IH]; intros cs ps Hw Hh Ho HR; [by apply wp_ok|].
  apply Forall_cons in Ho as [Ho Hos]. cbn [do_ops fold_left].
  apply wp_bind, (wp_mono _ (λ cs', repr w h cs' (spec_op ps o))).
  - destruct o; [by apply clip_push_ok|by apply clip_pop_ok|]. apply wp_ok. by eapply clip_reset_ok.
  - intros cs' HR'. by apply IH.
Qed.

(** What the queries answer when [V] is the set of visible pixels. *)
Record answers (cs : ClipStack) (V : Z → Z → Prop) : Prop := mk_answers {
  a_pixel : ∀ x y, clip_contains cs x y ⇓ λ b, bool_iff b (V x y);
  a_visible : ∀ r, modest r → clip_rect_visible cs r ⇓ λ b, bool_iff b (∃ x y, inside r x y ∧ V x y);
  a_rect : ∀ r, modest r → clip_rect cs r ⇓ λ '(b, r'),
    bool_iff b (∃ x y, inside r x y ∧ V x y) ∧
    (b = true → ∀ x y, inside r' x y ↔ inside r x y ∧ V x y);
  a_line_h : ∀ x y w, Z.abs x < 2 ^ 29 → Z.abs w < 2 ^ 29 → clip_line_h cs x y w ⇓ λ '(b, x', y', w'),
    y' = y ∧ bool_iff b (∃ u, x ≤ u < x + w ∧ V u y) ∧
    (b = true → ∀ u, x' ≤ u < x' + w' ↔ x ≤ u < x + w ∧ V u y);
  a_line_v : ∀ x y h, Z.abs y < 2 ^ 29 → Z.abs h < 2 ^ 29 → clip_line_v cs x y h ⇓ λ '(b, x', y', h'),
    x' = x ∧ bool_iff b (∃ u, y ≤ u < y + h ∧ V x u) ∧
    (b = true → ∀ u, y' ≤ u < y' + h' ↔ y ≤ u < y + h ∧ V x u) }.

Lemma active_answers cs : fit (active cs) → answers cs (inside (active cs)).
Proof.
  intros Hf. split; intros;
    [by apply contains_ok|by apply rect_visible_ok|by apply rect_ok|by apply line_h_ok|by apply line_v_ok].
Qed.

(** The answers depend on the set of visible pixels only. *)
Lemma answers_proper cs V W : (∀ x y, V x y ↔ W x y) → answers cs V → answers cs W.
Proof.
  intros HVW [H1 H2 H3 H4 H5]. unfold bool_iff in *. split; unfold bool_iff; intros.
  - eapply wp_mono; [apply H1|]. cbv beta. intros b ->. apply HVW.
  - eapply wp_mono; [by apply H2|]. cbv beta. intros b ->. by setoid_rewrite HVW.
  - eapply wp_mono; [by apply H3|]. intros [b r']. by setoid_rewrite HVW.
  - eapply wp_mono; [by apply H4|]. intros [[[b x'] y'] w']. by setoid_rewrite HVW.
  - eapply wp_mono; [by apply H5|]. intros [[[b x'] y'] h']. by setoid_rewrite HVW.
Qed.

(** C12: After any sequence of pushes, pops and resets on a fresh clip stack, the queries and
    clipping functions answer for the set of pixels of the surface inside every rectangle on the
    stack (a push that finds sixteen is ignored): a pixel is contained exactly if it is in the
    set, and lines and rectangles are cut to exactly their part of it, with result false exactly
    when the part is empty. *)
Theorem clip_refines_intersection (w h : Z) (os : list op) :
  0 ≤ w ≤ DIM → 0 ≤ h ≤ DIM → Forall ok_op os →
  do_ops (clip_init w h) os ⇓ λ cs, answers cs (visible w h (fold_left spec_op os [])).
Proof.
  intros Hw Hh Hos. eapply wp_mono; [by apply do_ops_ok, clip_init_ok|].
  intros cs [_ _ _ _ [Hf Hv] _]. eapply answers_proper; [exact Hv|]. by apply active_answers.
Qed.

(** Two rectangles pushed and one popped on a surface of 640 by 480. *)
Definition demo : list op := [Push (mkRect (-10) 5 100 100); Push (mkRect 50 50 200 20); Push (mkRect 0 0 1 1); Pop].
Lemma clip_refines_intersection_witness :
  do_ops (clip_init 640 480) demo ⇓ λ cs, active cs = mkRect 50 50 40 20 ∧
    answers cs (visible 640 480 (fold_left spec_op demo [])).
Proof.
  destruct (clip_refines_intersection 640 480 demo) as (cs & E & H).
  - unfold DIM; lia.
  - unfold DIM; lia.
  - repeat constructor.
  - exists cs. split; [exact E|]. split; [|exact H]. vm_compute in E. injection E as <-. reflexivity.
Defined.

(** A push that finds the stack full is dropped, and the pop that belongs to it
    takes an older rectangle off the stack: pixels the client has excluded are
    drawn again. *)
Definition whole : op := Push (mkRect 0 0 640 480).
Lemma full_stack_widens :
  let os := replicate 15 whole ++ [Push (mkRect 0 0 10 10); Push (mkRect 0 0 5 5); Pop] in
  (cs ← do_ops (clip_init 640 480) os; clip_contains cs 100 100) = Ok true.
Proof. reflexivity. Qed.

End ClipClaims.
