(* ===== verification/ShellParser.v ===== *)
(** The tokenizer and the parser of the shell (userland/shell/parser.c,
    parser.h).

    The input is the list of its bytes, the terminator last.  An allocation may
    be refused; [reqs] counts the requests made so far.  A string the code has
    allocated is the list of its bytes without the terminator, NULL is [None].
    An array is the list of the elements stored so far; a store behind its end
    is undefined.  [ast_free] gives memory back and is not modelled. *)
From stdpp Require Import base list.
From S2P Require Import Prelude.
From S2P Require Import CLib.

Module ShellParser.

Definition MAX_ARGS : Z := 128.
Definition MAX_REDIRS : Z := 16.
Definition MAX_CMDS : Z := 64.
Definition BUF_SIZE : Z := 4096.

Inductive TokType :=
  | TOK_WORD | TOK_PIPE | TOK_AND | TOK_OR | TOK_SEMI | TOK_AMP | TOK_LPAREN | TOK_RPAREN
  | TOK_REDIR_IN | TOK_REDIR_OUT | TOK_REDIR_APPEND | TOK_REDIR_ERR | TOK_REDIR_ERR_APPEND
  | TOK_REDIR_ERR_OUT | TOK_NEWLINE | TOK_EOF.
#[global] Instance TokType_eq_dec : EqDecision TokType.
Proof. solve_decision. Defined.

Record Token := mkToken { type : TokType; str : option (list Z) }.
Record Lexer := mkLexer { src : list Z; pos : Z; cur : Token; reqs : nat }.

Definition set_pos (lex : Lexer) (p : Z) : Lexer := mkLexer (src lex) p (cur lex) (reqs lex).
Definition set_cur (lex : Lexer) (t : Token) : Lexer := mkLexer (src lex) (pos lex) t (reqs lex).
Definition set_reqs (lex : Lexer) (k : nat) : Lexer := mkLexer (src lex) (pos lex) (cur lex) k.

(** Whether the next request is granted, and the state after it. *)
Definition xmalloc (A : allocator) (n : Z) (lex : Lexer) : bool * Lexer :=
  (avail A (reqs lex) n, set_reqs lex (S (reqs lex))).

(** [s] is the array the pointer points to. *)
Definition xstrdup (A : allocator) (s : list Z) (lex : Lexer) : outcome (option (list Z) * Lexer) :=
  l ← c_strlen s;
  let '(ok, lex) := xmalloc A (l + 1) lex in
  Ok (if ok : bool then Some (take (Z.to_nat l) s) else None, lex).

(** Appends to an array of [cap] elements. *)
Definition push {T} (cap : Z) (l : list T) (x : T) : outcome (list T) :=
  if zlen l <? cap then Ok (l ++ [x]) else Undef.

(** * The tokenizer *)
Definition blank (c : Z) : bool := (c =? 32) || (c =? 9).
Definition delimiter (c : Z) : bool :=
  (c =? 0) || blank c || (c =? 10) || (c =? 124) || (c =? 38) || (c =? 59) || (c =? 40) || (c =? 41).

Definition blank_step (s : list Z) (i : Z) : outcome (Z + Z) :=
  c ← zget s i; if blank c then i ← int (i + 1); Ok (inl i) else Ok (inr i).
Definition skip_blanks (s : list Z) (i : Z) : outcome Z := loop (S (length s)) (blank_step s) i.

(** A string in double quotes, from behind the opening quote. *)
Definition double_step (s : list Z) (st : Z * list Z) : outcome ((Z * list Z) + (Z * list Z)) :=
  let '(i, buf) := st in
  c ← zget s i;
  if (c =? 0) || (c =? 34) || negb (zlen buf <? 4095) then Ok (inr (i, buf))
  else
    d ← (if c =? 92 then zget s (i + 1) else Ok 0);
    if negb (d =? 0)
    then i ← int (i + 1); buf ← push BUF_SIZE buf d; i ← int (i + 1); Ok (inl (i, buf))
    else buf ← push BUF_SIZE buf c; i ← int (i + 1); Ok (inl (i, buf)).
Definition lex_double (s : list Z) (i : Z) (buf : list Z) : outcome (Z * list Z) :=
  loop (S (length s)) (double_step s) (i, buf).

Definition single_step (s : list Z) (st : Z * list Z) : outcome ((Z * list Z) + (Z * list Z)) :=
  let '(i, buf) := st in
  c ← zget s i;
  if (c =? 0) || (c =? 39) || negb (zlen buf <? 4095) then Ok (inr (i, buf))
  else buf ← push BUF_SIZE buf c; i ← int (i + 1); Ok (inl (i, buf)).
Definition lex_single (s : list Z) (i : Z) (buf : list Z) : outcome (Z * list Z) :=
  loop (S (length s)) (single_step s) (i, buf).

(** Skips the closing quote [q] if it is there. *)
Definition close_quote (q : Z) (s : list Z) (r : Z * list Z) : outcome (Z * list Z) :=
  let '(i, buf) := r in
  c ← zget s i; if c =? q then i ← int (i + 1); Ok (i, buf) else Ok (i, buf).

Definition word_step (s : list Z) (st : Z * list Z) : outcome ((Z * list Z) + (Z * list Z)) :=
  let '(i, buf) := st in
  c ← zget s i;
  if delimiter c || negb (zlen buf <? 4095) then Ok (inr (i, buf))
  else
    d ← (if c =? 92 then zget s (i + 1) else Ok 0);
    if negb (d =? 0) then buf ← push BUF_SIZE buf d; i ← int (i + 2); Ok (inl (i, buf))
    else if c =? 34 then
      i ← int (i + 1); r ← lex_double s i buf; r ← close_quote 34 s r; Ok (inl r)
    else if c =? 39 then
      i ← int (i + 1); r ← lex_single s i buf; r ← close_quote 39 s r; Ok (inl r)
    else buf ← push BUF_SIZE buf c; i ← int (i + 1); Ok (inl (i, buf)).

Definition lex_word (A : allocator) (lex : Lexer) (i : Z) : outcome (Token * Lexer) :=
  '(i, buf) ← loop (S (length (src lex))) (word_step (src lex)) (i, []);
  buf ← push BUF_SIZE buf 0;
  '(w, lex) ← xstrdup A buf lex;
  Ok (mkToken TOK_WORD w, set_pos lex i).

(** A token without a string that ends before [i]. *)
Definition op_token (lex : Lexer) (t : TokType) (i : Z) : outcome (Token * Lexer) :=
  i ← int i; Ok (mkToken t None, set_pos lex i).

Definition lex_next (A : allocator) (lex : Lexer) : outcome (Token * Lexer) :=
  let s := src lex in
  i ← skip_blanks s (pos lex);
  c ← zget s i;
  if c =? 0 then op_token lex TOK_EOF i
  else if c =? 10 then op_token lex TOK_NEWLINE (i + 1)
  else if c =? 59 then op_token lex TOK_SEMI (i + 1)
  else if c =? 40 then op_token lex TOK_LPAREN (i + 1)
  else if c =? 41 then op_token lex TOK_RPAREN (i + 1)
  else if c =? 124 then
    d ← zget s (i + 1);
    if d =? 124 then op_token lex TOK_OR (i + 2) else op_token lex TOK_PIPE (i + 1)
  else if c =? 38 then
    d ← zget s (i + 1);
    if d =? 38 then op_token lex TOK_AND (i + 2) else op_token lex TOK_AMP (i + 1)
  else
    d ← (if (c =? 50) || (c =? 62) then zget s (i + 1) else Ok 0);
    if (c =? 50) && (d =? 62) then
      e ← zget s (i + 2);
      if e =? 62 then op_token lex TOK_REDIR_ERR_APPEND (i + 3)
      else
        f ← (if e =? 38 then zget s (i + 3) else Ok 0);
        if f =? 49 then op_token lex TOK_REDIR_ERR_OUT (i + 4)
        else op_token lex TOK_REDIR_ERR (i + 2)
    else if c =? 62 then
      if d =? 62 then op_token lex TOK_REDIR_APPEND (i + 2) else op_token lex TOK_REDIR_OUT (i + 1)
    else if c =? 60 then op_token lex TOK_REDIR_IN (i + 1)
    else lex_word A lex i.

Definition lex_consume (A : allocator) (lex : Lexer) : outcome (Token * Lexer) :=
  let t := cur lex in
  '(n, lex) ← lex_next A lex;
  Ok (t, set_cur lex n).

Definition lex_init (A : allocator) (s : list Z) : outcome Lexer :=
  '(t, lex) ← lex_next A (mkLexer s 0 (mkToken TOK_WORD None) 0);
  Ok (set_cur lex t).

Definition lex_peek (lex : Lexer) : Token := cur lex.

(** * The parser *)
Inductive RedirType :=
  | REDIR_IN | REDIR_OUT | REDIR_APPEND | REDIR_ERR | REDIR_ERR_APPEND | REDIR_ERR_OUT.
Record Redirect := mkRedirect { rtype : RedirType; file : option (list Z) }.
Record SimpleCmd := mkCmd { argv : list (option (list Z)); redirs : list Redirect }.
Record Pipeline := mkPipeline { cmds : list SimpleCmd; background : bool }.

Inductive NodeType := NODE_PIPELINE | NODE_AND | NODE_OR | NODE_SEQ | NODE_SUBSHELL.
Inductive ASTNode :=
  | NULL
  | Node (t : NodeType) (pipeline : Pipeline) (left right : ASTNode).

Definition no_pipeline : Pipeline := mkPipeline [] false.

(** [sizeof(ASTNode)] and [sizeof(SimpleCmd)] *)
Definition NODE_SIZE : Z := 40.
Definition CMD_SIZE : Z := 1296.

Definition node_new (A : allocator) (lex : Lexer) : bool * Lexer := xmalloc A NODE_SIZE lex.

(** The tokens at which a command ends, and those that redirect. *)
Definition ends_cmd (t : TokType) : bool :=
  match t with
  | TOK_EOF | TOK_NEWLINE | TOK_PIPE | TOK_AND | TOK_OR | TOK_SEMI | TOK_AMP | TOK_RPAREN => true
  | _ => false
  end.
Definition redir_type (t : TokType) : option RedirType :=
  match t with
  | TOK_REDIR_IN => Some REDIR_IN
  | TOK_REDIR_OUT => Some REDIR_OUT
  | TOK_REDIR_APPEND => Some REDIR_APPEND
  | TOK_REDIR_ERR => Some REDIR_ERR
  | TOK_REDIR_ERR_APPEND => Some REDIR_ERR_APPEND
  | TOK_REDIR_ERR_OUT => Some REDIR_ERR_OUT
  | _ => None
  end.

Definition parse_redirect (A : allocator) (rt : RedirType) (cmd : SimpleCmd) (lex : Lexer)
  : outcome (SimpleCmd * Lexer) :=
  '(_, lex) ← lex_consume A lex;
  if negb (zlen (redirs cmd) <? MAX_REDIRS) then Ok (cmd, lex)
  else
    match rt with
    | REDIR_ERR_OUT =>
        rs ← push MAX_REDIRS (redirs cmd) (mkRedirect REDIR_ERR_OUT None);
        Ok (mkCmd (argv cmd) rs, lex)
    | _ =>
        '(f, lex) ← lex_consume A lex;
        '(name, lex) ← (match str f with Some n => Ok (Some n, lex) | None => xstrdup A [0] lex end);
        rs ← push MAX_REDIRS (redirs cmd) (mkRedirect rt name);
        Ok (mkCmd (argv cmd) rs, lex)
    end.

Definition cmd_step (A : allocator) (st : SimpleCmd * Lexer)
  : outcome ((SimpleCmd * Lexer) + (SimpleCmd * Lexer)) :=
  let '(cmd, lex) := st in
  let t := lex_peek lex in
  if ends_cmd (type t) then Ok (inr st)
  else
    match redir_type (type t) with
    | Some rt => r ← parse_redirect A rt cmd lex; Ok (inl r)
    | None =>
        if bool_decide (type t = TOK_WORD) && (zlen (argv cmd) <? MAX_ARGS - 1) then
          '(_, lex) ← lex_consume A lex;
          av ← push (MAX_ARGS - 1) (argv cmd) (str t);
          Ok (inl (mkCmd av (redirs cmd), lex))
        else Ok (inr st)
    end.

Definition parse_simple_cmd (A : allocator) (lex : Lexer) : outcome (SimpleCmd * Lexer) :=
  loop (S (S (length (src lex)))) (cmd_step A) (mkCmd [] [], lex).

Definition pipe_step (A : allocator) (st : list SimpleCmd * Lexer)
  : outcome ((list SimpleCmd * Lexer) + (list SimpleCmd * Lexer)) :=
  let '(cs, lex) := st in
  if negb (bool_decide (type (lex_peek lex) = TOK_PIPE)) then Ok (inr st)
  else
    '(_, lex) ← lex_consume A lex;
    if zlen cs <? MAX_CMDS then
      '(c, lex) ← parse_simple_cmd A lex;
      cs ← push MAX_CMDS cs c;
      Ok (inl (cs, lex))
    else Ok (inl (cs, lex)).

Definition parse_pipeline (A : allocator) (lex : Lexer) : outcome (Pipeline * Lexer) :=
  let '(ok, lex) := xmalloc A (CMD_SIZE * MAX_CMDS) lex in
  if negb ok then Ok (no_pipeline, lex)
  else
    '(c, lex) ← parse_simple_cmd A lex;
    cs ← push MAX_CMDS [] c;
    '(cs, lex) ← loop (S (S (length (src lex)))) (pipe_step A) (cs, lex);
    if bool_decide (type (lex_peek lex) = TOK_AMP)
    then '(_, lex) ← lex_consume A lex; Ok (mkPipeline cs true, lex)
    else Ok (mkPipeline cs false, lex).

Definition node_op (t : TokType) : option NodeType :=
  match t with
  | TOK_AND => Some NODE_AND
  | TOK_OR => Some NODE_OR
  | TOK_SEMI | TOK_NEWLINE => Some NODE_SEQ
  | _ => None
  end.

Definition at_end (lex : Lexer) : bool :=
  bool_decide (type (lex_peek lex) = TOK_EOF) || bool_decide (type (lex_peek lex) = TOK_RPAREN).

Section Expr.
Context (A : allocator) (parse_expr : Lexer → outcome (ASTNode * Lexer)).

(** The first operand: a list in parentheses or a pipeline. *)
Definition parse_operand (lex : Lexer) : outcome (ASTNode * Lexer) :=
  if bool_decide (type (lex_peek lex) = TOK_LPAREN) then
    '(_, lex) ← lex_consume A lex;
    '(inner, lex) ← parse_expr lex;
    lex ← (if bool_decide (type (lex_peek lex) = TOK_RPAREN)
           then '(_, lex) ← lex_consume A lex; Ok lex else Ok lex);
    let '(ok, lex) := node_new A lex in
    Ok (if ok : bool then Node NODE_SUBSHELL no_pipeline inner NULL else NULL, lex)
  else
    let '(ok, lex) := node_new A lex in
    if ok : bool then '(p, lex) ← parse_pipeline A lex; Ok (Node NODE_PIPELINE p NULL NULL, lex)
    else Ok (NULL, lex).

Definition expr_step (st : ASTNode * Lexer) : outcome ((ASTNode * Lexer) + (ASTNode * Lexer)) :=
  let '(lhs, lex) := st in
  match node_op (type (lex_peek lex)) with
  | None => Ok (inr st)
  | Some op =>
      '(_, lex) ← lex_consume A lex;
      if at_end lex then Ok (inr (lhs, lex))
      else
        '(rhs, lex) ← parse_expr lex;
        let '(ok, lex) := node_new A lex in
        Ok (inl (if ok : bool then Node op no_pipeline lhs rhs else NULL, lex))
  end.

End Expr.

(** Every call consumes a token before the next one: the fuel is a bound on
    the depth. *)
Fixpoint parse_expr (fuel : nat) (A : allocator) (lex : Lexer) : outcome (ASTNode * Lexer) :=
  match fuel with
  | O => OutOfFuel
  | S n =>
      st ← parse_operand A (parse_expr n A) lex;
      loop (S (S (length (src lex)))) (expr_step A (parse_expr n A)) st
  end.

(** [input] is not NULL. *)
Definition parse (A : allocator) (input : list Z) : outcome ASTNode :=
  c ← zget input 0;
  if c =? 0 then Ok NULL
  else
    lex ← lex_init A input;
    '(ast, _) ← parse_expr (S (S (length input))) A lex;
    Ok ast.

End ShellParser.
