(* ===== verification/ShellSafe.v ===== *)
(** The shell's parser on any input: it ends, stays inside the input and its
    buffers, and builds a tree whose arrays are within their limits. *)
From stdpp Require Import base list.
From S2P Require Import Prelude.
From S2P Require Import CLib.
From S2P Require Import ShellParser.
Import ShellParser.

Module ShellSafe.

(** Bytes of a C string, and a word of a command. *)
Definition plain (c : Z) : Prop := c ≠ 0.
Definition word (w : list Z) : Prop := Forall plain w ∧ zlen w ≤ 4095.
Definition word_opt (w : option (list Z)) : Prop := match w with Some w => word w | None => True end.

(** The longest input whose positions are [int]s. *)
Definition MAX_INPUT : Z := 2147483640.

Lemma array_push_ok {T} cap (l : list T) x : zlen l < cap → push cap l x = Ok (l ++ [x]).
Proof. intros. unfold push. by rewrite (proj2 (Z.ltb_lt _ _)). Qed.

Section Text.
Context (body : list Z) (Hbody : Forall plain body) (Hlen : zlen body ≤ MAX_INPUT).
Local Abbreviation s := (body ++ [0]).
Local Abbreviation n := (zlen body).

Lemma at_char i : 0 ≤ i ≤ n → zget s i ⇓ λ c, c = 0 ↔ i = n.
Proof using Hbody.
  intros Hi. apply wp_zget; [rewrite zlen_app; change (zlen [0]) with 1; lia|].
  intros c Hc. destruct (decide (i = n)) as [->|Hn].
  - unfold zlen in Hc. rewrite Nat2Z.id, list_lookup_middle in Hc by done. by injection Hc as <-.
  - unfold zlen in Hn, Hi. rewrite lookup_app_l in Hc by lia.
    pose proof (proj1 (Forall_lookup _ _) Hbody _ _ Hc) as Hp. split; [by intros ->|unfold zlen; lia].
Qed.

(** A string being collected from [lo] on, and what one round of a loop does. *)
Definition collecting (lo : Z) (st : Z * list Z) : Prop :=
  0 ≤ lo ≤ st.1 ∧ st.1 ≤ n ∧ Forall plain st.2 ∧ zlen st.2 ≤ 4095.
Definition round (lo i : Z) (x : (Z * list Z) + (Z * list Z)) : Prop :=
  match x with
  | inl st => collecting lo st ∧ (Z.to_nat (n - st.1) < Z.to_nat (n - i))%nat
  | inr st => collecting lo st ∧ st.1 = i
  end.

Lemma push_char lo i buf c :
  collecting lo (i, buf) → zlen buf < 4095 → c ≠ 0 →
  push BUF_SIZE buf c = Ok (buf ++ [c]) ∧ ∀ j, i ≤ j ≤ n → collecting lo (j, buf ++ [c]).
Proof using.
  intros (Hi & Hn & Hp & Hl) Hb Hc. cbn [fst snd] in *.
  split; [apply array_push_ok; unfold BUF_SIZE; lia|]. intros j Hj.
  split_and!; cbn [fst snd]; [lia|lia|lia| |rewrite zlen_app; change (zlen [c]) with 1; lia].
  apply Forall_app. split; [done|by constructor].
Qed.

(** The byte behind a backslash. *)
Lemma escaped i c :
  0 ≤ i < n → (if c =? 92 then zget s (i + 1) else Ok 0) ⇓ λ d, d ≠ 0 → i + 1 < n.
Proof using Hbody.
  intros Hi. destruct (c =? 92); [|by apply wp_ok].
  eapply wp_mono; [apply at_char; lia|]. cbv beta. lia.
Qed.

Lemma small_int i : 0 ≤ i ≤ n + 4 → int i = Ok i.
Proof using Hlen. unfold MAX_INPUT in Hlen. intros. apply int_ok. lia. Qed.

Lemma fuel_ok lo st : collecting lo st → (Z.to_nat (n - st.1) < S (length s))%nat.
Proof using. intros (? & ? & _). rewrite length_app. unfold zlen. lia. Qed.

Lemma lex_single_ok lo i buf :
  collecting lo (i, buf) → lex_single s i buf ⇓ collecting lo.
Proof using Hbody Hlen.
  intros HC. unfold lex_single.
  apply (wp_loop (collecting lo) (λ st, Z.to_nat (n - st.1))); [|done|].
  - intros [j b] Hb. pose proof Hb as (H1 & H2 & _ & _). cbn [fst snd] in *.
    unfold single_step. apply wp_bind. eapply wp_mono; [apply at_char; lia|]. intros c Hc; cbv beta in Hc |- *.
    destruct (Z.eqb_spec c 0); cbn [orb]; [by apply wp_ok|].
    destruct (Z.eqb_spec c 39); cbn [orb]; [by apply wp_ok|].
    destruct (Z.ltb_spec (zlen b) 4095); cbn [negb]; [|by apply wp_ok].
    destruct (push_char lo j b c) as [-> Hj]; [done..|]. cbn [mbind outcome_bind].
    rewrite small_int by lia. apply wp_ok. split; [apply Hj; lia|cbn [fst]; lia].
  - by apply (fuel_ok lo).
Qed.

Lemma lex_double_ok lo i buf :
  collecting lo (i, buf) → lex_double s i buf ⇓ collecting lo.
Proof using Hbody Hlen.
  intros HC. unfold lex_double.
  apply (wp_loop (collecting lo) (λ st, Z.to_nat (n - st.1))); [|done|].
  - intros [j b] Hb. pose proof Hb as (H1 & H2 & _ & _). cbn [fst snd] in *.
    unfold double_step. apply wp_bind. eapply wp_mono; [apply at_char; lia|]. intros c Hc; cbv beta in Hc |- *.
    destruct (Z.eqb_spec c 0); cbn [orb]; [by apply wp_ok|].
    destruct (Z.eqb_spec c 34); cbn [orb]; [by apply wp_ok|].
    destruct (Z.ltb_spec (zlen b) 4095); cbn [negb]; [|by apply wp_ok].
    apply wp_bind. eapply wp_mono; [apply escaped; lia|]. intros d Hd; cbv beta in Hd.
    destruct (Z.eqb_spec d 0); cbn [negb].
    + destruct (push_char lo j b c) as [-> Hj]; [done..|]. cbn [mbind outcome_bind].
      rewrite small_int by lia. apply wp_ok. split; [apply Hj; lia|cbn [fst]; lia].
    + rewrite small_int by lia. cbn [mbind outcome_bind].
      destruct (push_char lo j b d) as [-> Hj]; [done..|]. cbn [mbind outcome_bind].
      rewrite small_int by lia. apply wp_ok. split; [apply Hj; lia|cbn [fst]; lia].
  - by apply (fuel_ok lo).
Qed.

Lemma close_quote_ok lo q st : q ≠ 0 → collecting lo st → close_quote q s st ⇓ collecting lo.
Proof using Hbody Hlen.
  intros Hq HC. destruct st as [i buf]. pose proof HC as (H1 & H2 & H3 & H4). cbn [fst snd] in *.
  unfold close_quote. apply wp_bind. eapply wp_mono; [apply at_char; lia|]. intros c Hc; cbv beta in Hc |- *.
  destruct (Z.eqb_spec c q); [|by apply wp_ok]. rewrite small_int by lia. apply wp_ok.
  split_and!; cbn [fst snd]; [lia|lia|lia|done|lia].
Qed.

(** A quoted part of a word, collected by [f]. *)
Lemma quoted lo i q buf (f : list Z → Z → list Z → outcome (Z * list Z)) :
  0 ≤ lo ≤ i → i < n → Forall plain buf → zlen buf ≤ 4095 → q ≠ 0 →
  (collecting (i + 1) (i + 1, buf) → f s (i + 1) buf ⇓ collecting (i + 1)) →
  (j ← int (i + 1); r ← f s j buf; r ← close_quote q s r; Ok (inl r)) ⇓ round lo i.
Proof using Hbody Hlen.
  intros Hlo Hi Hp Hl Hq Hf. rewrite small_int by lia. cbn [mbind outcome_bind]. apply wp_bind.
  eapply wp_mono; [apply Hf; split_and!; cbn [fst snd]; (done || lia)|]. intros r Hr.
  apply wp_bind. eapply wp_mono; [by apply close_quote_ok|]. intros [j b] (H1 & H2 & H3 & H4).
  cbn [fst snd] in *. apply wp_ok. split; [split_and!|]; cbn [fst snd]; (done || lia).
Qed.

Lemma word_step_ok lo st : collecting lo st → word_step s st ⇓ round lo st.1.
Proof using Hbody Hlen.
  destruct st as [i buf]. intros HC. pose proof HC as (H1 & H2 & H3 & H4). cbn [fst snd] in *.
  unfold word_step. apply wp_bind. eapply wp_mono; [apply at_char; lia|]. intros c Hc; cbv beta in Hc |- *.
  destruct (Z.ltb_spec (zlen buf) 4095); cbn [negb]; rewrite ?orb_true_r; [rewrite orb_false_r|by apply wp_ok; split].
  destruct (delimiter c) eqn:Hd; [by apply wp_ok; split|].
  assert (c ≠ 0) as Hz by (intros ->; done).
  apply wp_bind. eapply wp_mono; [apply escaped; lia|]. intros d Hesc; cbv beta in Hesc.
  destruct (Z.eqb_spec d 0); cbn [negb].
  - destruct (Z.eqb_spec c 34); [|destruct (Z.eqb_spec c 39)].
    + apply (quoted lo i 34); [lia|lia|done|lia|done|]. by apply lex_double_ok.
    + apply (quoted lo i 39); [lia|lia|done|lia|done|]. by apply lex_single_ok.
    + destruct (push_char lo i buf c) as [-> Hj]; [done..|]. cbn [mbind outcome_bind].
      rewrite small_int by lia. apply wp_ok. split; [apply Hj; lia|cbn [fst]; lia].
  - destruct (push_char lo i buf d) as [-> Hj]; [done..|]. cbn [mbind outcome_bind].
    rewrite small_int by lia. apply wp_ok. split; [apply Hj; lia|cbn [fst]; lia].
Qed.

(** * The tokenizer *)
Definition next_ok (lex : Lexer) (r : Token * Lexer) : Prop :=
  src r.2 = s ∧ cur r.2 = cur lex ∧ word_opt (str r.1) ∧ pos lex ≤ pos r.2 ≤ n ∧
  (type r.1 = TOK_EOF → pos r.2 = n) ∧ (type r.1 ≠ TOK_EOF → pos lex < pos r.2).

Lemma xstrdup_ok A w lex :
  word w → xstrdup A (w ++ [0]) lex ⇓ λ '(o, lex'), word_opt o ∧ (o = None ∨ o = Some w) ∧
    lex' = set_reqs lex (S (reqs lex)).
Proof using.
  intros [Hp Hl]. unfold xstrdup. rewrite c_strlen_app by done. cbn [mbind outcome_bind].
  destruct (xmalloc _ _ _) as [ok lex'] eqn:E. injection E as <- <-. apply wp_ok.
  unfold zlen. rewrite Nat2Z.id, take_app_length.
  destruct (avail _ _ _); cbn [word_opt]; split_and!; auto; done.
Qed.

Lemma lex_word_ok A lex i c :
  src lex = s → pos lex ≤ i → 0 ≤ i < n → zget s i = Ok c → delimiter c = false →
  lex_word A lex i ⇓ next_ok lex.
Proof using Hbody Hlen.
  intros Hs Hp Hi Hc Hd. unfold lex_word. rewrite Hs.
  assert (collecting i (i, [])) as H0 by (split_and!; cbn; (done || lia || constructor)).
  (* the first round always takes a byte *)
  apply wp_bind. cbn [loop]. apply wp_bind.
  eapply wp_mono; [apply (wp_det _ (round i i) (λ x, ∃ st, x = inl st)); [by apply (word_step_ok i (i, []))|]|].
  { destruct (word_step_ok i (i, []) H0) as (x & Ex & Hx). exists x. split; [done|].
    unfold word_step in Ex. rewrite Hc in Ex. cbn [mbind outcome_bind] in Ex. rewrite Hd in Ex.
    cbn [orb negb zlen length] in Ex. change (zlen [] <? 4095) with true in Ex. cbn [negb] in Ex.
    apply bind_inv in Ex as (d & _ & Ex). destruct x as [st|r]; [by eexists|exfalso].
    destruct (negb (d =? 0)); [|destruct (c =? 34); [|destruct (c =? 39)]];
      repeat (apply bind_inv in Ex as (? & _ & Ex)); done. }
  intros x [Hx [st ->]]. destruct Hx as [HC Hm]. cbn [fst] in Hm.
  assert (i < st.1) as Hadv by (destruct HC; lia).
  eapply wp_mono; [apply (wp_loop (λ st', collecting i st' ∧ i < st'.1) (λ st, Z.to_nat (n - st.1)) _
    (λ st', collecting i st' ∧ i < st'.1)); [|done|]|].
  - intros st' [HC' Hi']. eapply wp_mono; [by apply (word_step_ok i)|].
    intros [st''|st''] [H1 H2]; [|split; [done|lia]]. split; [split; [done|]|done].
    destruct HC' as (? & ? & _), H1 as (? & ? & _). lia.
  - destruct HC as (? & ? & _). rewrite length_app. unfold zlen in *. cbn [length]. lia.
  - intros [j buf] [(Hl & Hj & Hb1 & Hb2) Hij]. cbn [fst snd] in *.
    rewrite array_push_ok by (unfold BUF_SIZE; lia). cbn [mbind outcome_bind]. apply wp_bind.
    eapply wp_mono; [by apply xstrdup_ok|]. intros [o lex'] (Ho & _ & ->). apply wp_ok.
    split_and!; cbn; (done || lia).
Qed.

Lemma op_token_ok lex t i :
  src lex = s → t ≠ TOK_EOF → 0 ≤ pos lex → pos lex < i ≤ n → op_token lex t i ⇓ next_ok lex.
Proof using Hlen.
  intros Hs Ht Hp Hi. unfold op_token. rewrite small_int by lia.
  apply wp_ok. split_and!; cbn; intros; (done || lia).
Qed.

Lemma eof_ok lex : src lex = s → 0 ≤ pos lex ≤ n → op_token lex TOK_EOF n ⇓ next_ok lex.
Proof using Hlen.
  intros Hs Hp. unfold op_token. rewrite small_int by lia.
  apply wp_ok. split_and!; cbn; intros; (done || lia).
Qed.

(** [zget] behind a byte that is not the terminator. *)
Lemma next_char i : 0 ≤ i < n → zget s (i + 1) ⇓ λ d, d ≠ 0 → i + 1 < n.
Proof using Hbody. intros. eapply wp_mono; [apply at_char; lia|]. cbv beta. lia. Qed.

Lemma lex_blanks_ok i : 0 ≤ i ≤ n → skip_blanks s i ⇓ λ j, i ≤ j ≤ n ∧ ∀ c, zget s j = Ok c → blank c = false.
Proof using Hbody Hlen.
  intros Hi. unfold skip_blanks.
  apply (wp_loop (λ j, i ≤ j ≤ n) (λ j, Z.to_nat (n - j))); [|lia|rewrite length_app; unfold zlen; lia].
  intros j Hj. unfold blank_step. destruct (at_char j ltac:(lia)) as (c & Ec & Hc). rewrite Ec. cbn [mbind outcome_bind].
  destruct (blank c) eqn:Hb; [|apply wp_ok; split; [lia|congruence]].
  assert (c ≠ 0) by (intros ->; done). rewrite small_int by lia. apply wp_ok. split; lia.
Qed.
Lemma lex_next_ok A lex : src lex = s → 0 ≤ pos lex ≤ n → lex_next A lex ⇓ next_ok lex.
Proof using Hbody Hlen.
  intros Hs Hp. unfold lex_next. rewrite Hs.
  apply wp_bind. eapply wp_mono; [by apply lex_blanks_ok|]. intros i [Hi Hnb].
  assert (Hx : ∃ c, zget s i = Ok c ∧ (c = 0 ↔ i = n)) by (apply at_char; lia).
  destruct Hx as (c & Ec & Hc). specialize (Hnb c Ec). rewrite Ec. cbn [mbind outcome_bind].
  destruct (Z.eqb_spec c 0) as [->|Hz]; [replace i with n by lia; by apply eof_ok|].
  repeat match goal with |- wp (if c =? ?k then op_token _ _ _ else _) _ =>
    destruct (Z.eqb_spec c k); [apply op_token_ok; [done|done|lia|lia]|] end.
  destruct (Z.eqb_spec c 124); [|destruct (Z.eqb_spec c 38)].
  1-2: apply wp_bind; (eapply wp_mono; [apply next_char; lia|]); intros d Hd; cbv beta in Hd;
    match goal with |- wp (if d =? ?k then _ else _) _ => destruct (Z.eqb_spec d k) end;
    (apply op_token_ok; [done|done|lia|lia]).
  apply wp_bind.
  eapply wp_mono with (P := λ d, d ≠ 0 → i + 1 < zlen body);
    [destruct (_ || _); [apply next_char; lia|by apply wp_ok]|]. intros d Hd; cbv beta in Hd.
  destruct ((c =? 50) && (d =? 62)) eqn:E2.
  - apply andb_true_iff in E2 as [_ E2%Z.eqb_eq]. apply wp_bind.
    replace (i + 2) with (i + 1 + 1) by lia. eapply wp_mono; [apply next_char; lia|].
    intros e He; cbv beta in He. destruct (Z.eqb_spec e 62); [apply op_token_ok; [done|done|lia|lia]|].
    apply wp_bind. eapply wp_mono with (P := λ f, f ≠ 0 → i + 3 < zlen body).
    + destruct (Z.eqb_spec e 38); [|by apply wp_ok]. replace (i + 3) with (i + 1 + 1 + 1) by lia.
      apply next_char. lia.
    + intros f Hf; cbv beta in Hf. destruct (Z.eqb_spec f 49); (apply op_token_ok; [done|done|lia|lia]).
  - destruct (Z.eqb_spec c 62).
    { destruct (Z.eqb_spec d 62); (apply op_token_ok; [done|done|lia|lia]). }
    destruct (Z.eqb_spec c 60); [apply op_token_ok; [done|done|lia|lia]|].
    apply (lex_word_ok A lex i c); [done|lia|lia|done|].
    unfold delimiter. rewrite !orb_false_iff. split_and!; [apply Z.eqb_neq; done|done|apply Z.eqb_neq; done..].
Qed.
(** * The parser *)
Record good (lex : Lexer) : Prop := mk_good {
  g_src : src lex = s;
  g_pos : 0 ≤ pos lex ≤ n;
  g_tok : word_opt (str (cur lex));
  g_eof : type (cur lex) = TOK_EOF → pos lex = n }.

(** What is left of the input; every token but the last takes from it. *)
Definition rest (lex : Lexer) : nat :=
  (Z.to_nat (n - pos lex) + if bool_decide (type (cur lex) = TOK_EOF) then 0 else 1)%nat.

Lemma good_reqs lex k : good lex → good (set_reqs lex k).
Proof using. by intros []. Qed.

Lemma rest_bound lex : good lex → (rest lex < S (S (length (src lex))))%nat.
Proof using.
  intros [-> Hp _ _]. unfold rest. rewrite length_app. unfold zlen in *. cbn [length].
  case_bool_decide; lia.
Qed.

Lemma consume_ok A lex :
  good lex → lex_consume A lex ⇓ λ '(t, lex'), t = cur lex ∧ good lex' ∧ (rest lex' ≤ rest lex)%nat ∧
    (type (cur lex) ≠ TOK_EOF → rest lex' < rest lex)%nat.
Proof using Hbody Hlen.
  intros [Hs Hp Ht He]. unfold lex_consume. apply wp_bind. eapply wp_mono; [by apply lex_next_ok|].
  intros [t lex'] (H1 & H2 & H3 & H4 & H5 & H6). cbn [fst snd] in *. apply wp_ok.
  split; [done|]. unfold rest, set_cur; cbn [cur pos type].
  split; [split; cbn [src pos cur]; (done || lia)|].
  do 2 case_bool_decide; split; intros; try (specialize (H5 ltac:(done))); try (specialize (H6 ltac:(done))); try (specialize (He ltac:(done))); (done || lia).
Qed.

(** The arrays of a command and of a pipeline are within their limits. *)
Definition cmd_ok (c : SimpleCmd) : Prop :=
  (zlen (argv c) ≤ MAX_ARGS - 1 ∧ Forall word_opt (argv c)) ∧
  (zlen (redirs c) ≤ MAX_REDIRS ∧ Forall (λ r, word_opt (file r)) (redirs c)).
Definition pipeline_ok (p : Pipeline) : Prop := zlen (cmds p) ≤ MAX_CMDS ∧ Forall cmd_ok (cmds p).
Fixpoint tree_ok (t : ASTNode) : Prop :=
  match t with NULL => True | Node _ p l r => pipeline_ok p ∧ tree_ok l ∧ tree_ok r end.

Lemma push_within {T} (P : T → Prop) cap l x :
  zlen l < cap → Forall P l → P x → push cap l x ⇓ λ l', zlen l' ≤ cap ∧ Forall P l'.
Proof using.
  intros Hl HP Hx. rewrite array_push_ok by done. apply wp_ok. split.
  - rewrite zlen_app. change (zlen [x]) with 1. lia.
  - apply Forall_app. split; [done|by constructor].
Qed.

(** What a parsing function leaves: a result [P] and not more input than before. *)
Definition after {T} (P : T → Prop) (k : nat) (r : T * Lexer) : Prop := P r.1 ∧ good r.2 ∧ (rest r.2 ≤ k)%nat.

Lemma redirect_ok A rt cmd lex :
  cmd_ok cmd → good lex → type (cur lex) ≠ TOK_EOF →
  parse_redirect A rt cmd lex ⇓ λ r, after cmd_ok (rest lex) r ∧ (rest r.2 < rest lex)%nat.
Proof using Hbody Hlen.
  intros [[Ha1 Ha2] [Hr1 Hr2]] Hg Ht. unfold parse_redirect.
  apply wp_bind. eapply wp_mono; [by apply consume_ok|]. intros [t lex1] (-> & Hg1 & _ & Hm1).
  specialize (Hm1 Ht). destruct (Z.ltb_spec (zlen (redirs cmd)) MAX_REDIRS) as [Hl|]; cbn [negb];
    [|apply wp_ok; unfold after, cmd_ok; cbn [fst snd]; split_and!; (done || lia)].
  assert (∀ f lex2, word_opt f → good lex2 → (rest lex2 < rest lex)%nat →
    (rs ← push MAX_REDIRS (redirs cmd) (mkRedirect rt f); Ok (mkCmd (argv cmd) rs, lex2))
      ⇓ λ r, after cmd_ok (rest lex) r ∧ (rest r.2 < rest lex)%nat) as Hstore.
  { intros f lex2 Hf Hg2 Hm2. apply wp_bind.
    eapply wp_mono; [apply (push_within (λ r, word_opt (file r))); done|].
    intros rs [H1 H2]. apply wp_ok. unfold after, cmd_ok; cbn [fst snd argv redirs]. split_and!; (done || lia). }
  destruct rt; [..|by apply Hstore].
  all: apply wp_bind; (eapply wp_mono; [by apply consume_ok|]); intros [f lex2] (-> & Hg2 & Hm2 & _).
  all: apply wp_bind; destruct (str (cur lex1)) as [nm|] eqn:En;
    [apply wp_ok, Hstore; [rewrite <-En; apply Hg1|done|lia]|].
  all: (eapply wp_mono; [apply (xstrdup_ok A [] lex2); done|]); intros [o lex3] (Ho & _ & ->);
    apply Hstore; [done|by apply good_reqs|exact (Nat.le_lt_trans _ _ _ Hm2 Hm1)].
Qed.

Lemma cmd_step_ok A cmd lex :
  cmd_ok cmd → good lex →
  cmd_step A (cmd, lex) ⇓ λ x, match x with
    | inl r => after cmd_ok (rest lex) r ∧ (rest r.2 < rest lex)%nat
    | inr r => after cmd_ok (rest lex) r end.
Proof using Hbody Hlen.
  intros Hc Hg. unfold cmd_step, lex_peek. destruct (ends_cmd _) eqn:Ee; [by apply wp_ok|].
  assert (type (cur lex) ≠ TOK_EOF) as Ht by (intros E; by rewrite E in Ee).
  destruct (redir_type _) as [rt|].
  { apply wp_bind. eapply wp_mono; [by apply redirect_ok|]. intros r Hr. by apply wp_ok. }
  case_bool_decide; cbn [andb]; [|by apply wp_ok].
  destruct (Z.ltb_spec (zlen (argv cmd)) (MAX_ARGS - 1)); [|by apply wp_ok].
  apply wp_bind. eapply wp_mono; [by apply consume_ok|]. intros [t lex1] (_ & Hg1 & _ & Hm1).
  specialize (Hm1 Ht). destruct Hc as [[Ha1 Ha2] Hr]. apply wp_bind.
  eapply wp_mono; [apply (push_within word_opt); [done|done|apply Hg]|]. intros av [H1 H2].
  apply wp_ok. split; [|done]. split_and!; cbn [fst snd argv redirs]; [done..|lia].
Qed.

Lemma simple_ok A lex : good lex → parse_simple_cmd A lex ⇓ after cmd_ok (rest lex).
Proof using Hbody Hlen.
  intros Hg. unfold parse_simple_cmd.
  apply (wp_loop (after cmd_ok (rest lex)) (λ r, rest r.2)); [|split_and!; done|by apply rest_bound].
  intros [c lex'] (Hc & Hg' & Hm). cbn [fst snd] in *. eapply wp_mono; [by apply cmd_step_ok|].
  intros [r|r]; [intros [(H1 & H2 & H3) H4]|intros (H1 & H2 & H3)]; unfold after; split_and!; (done || lia).
Qed.

Lemma pipe_step_ok A cs lex :
  pipeline_ok (mkPipeline cs false) → good lex →
  pipe_step A (cs, lex) ⇓ λ x, match x with
    | inl r => after (λ cs, pipeline_ok (mkPipeline cs false)) (rest lex) r ∧ (rest r.2 < rest lex)%nat
    | inr r => after (λ cs, pipeline_ok (mkPipeline cs false)) (rest lex) r end.
Proof using Hbody Hlen.
  intros Hc Hg. unfold pipe_step, lex_peek. case_bool_decide as Ht; cbn [negb]; [|by apply wp_ok].
  apply wp_bind. eapply wp_mono; [by apply consume_ok|]. intros [t lex1] (_ & Hg1 & _ & Hm1).
  specialize (Hm1 ltac:(congruence)).
  destruct (Z.ltb_spec (zlen cs) MAX_CMDS); [|apply wp_ok; unfold after; cbn [fst snd]; split_and!; (done || lia)].
  apply wp_bind. eapply wp_mono; [by apply simple_ok|]. intros [c lex2] (Hc2 & Hg2 & Hm2). cbn [fst snd] in *.
  apply wp_bind. eapply wp_mono; [apply (push_within cmd_ok); [done|apply Hc|done]|].
  intros cs' Hcs'. apply wp_ok. unfold after; cbn [fst snd]; split_and!; (done || lia).
Qed.

Lemma parse_pipeline_ok A lex : good lex → parse_pipeline A lex ⇓ after pipeline_ok (rest lex).
Proof using Hbody Hlen.
  intros Hg. unfold parse_pipeline, xmalloc.
  assert (after pipeline_ok (rest lex) (no_pipeline, set_reqs lex (S (reqs lex)))) as H0.
  { unfold after; cbn [fst snd]. split_and!; [by split|by apply good_reqs|done]. }
  destruct (avail _ _ _); cbn [negb]; [|by apply wp_ok].
  apply wp_bind. eapply wp_mono; [apply simple_ok, good_reqs, Hg|].
  intros [c lex1] (Hc & Hg1 & Hm1). cbn [fst snd] in *. change (rest (set_reqs _ _)) with (rest lex) in Hm1.
  apply wp_bind. eapply wp_mono; [by apply (push_within cmd_ok MAX_CMDS [])|]. intros cs Hcs.
  apply wp_bind, (wp_mono _ (after (λ cs, pipeline_ok (mkPipeline cs false)) (rest lex))).
  - apply (wp_loop (after (λ cs, pipeline_ok (mkPipeline cs false)) (rest lex)) (λ r, rest r.2));
      [|done|by apply rest_bound].
    intros [cs' lex'] (Hc' & Hg' & Hm'). cbn [fst snd] in *. eapply wp_mono; [by apply pipe_step_ok|].
    intros [r|r]; [intros [(H1 & H2 & H3) H4]|intros (H1 & H2 & H3)]; unfold after; split_and!; (done || lia).
  - intros [cs' lex'] (Hc' & Hg' & Hm'). cbn [fst snd] in *. case_bool_decide; [|by apply wp_ok].
    apply wp_bind. eapply wp_mono; [by apply consume_ok|]. intros [t lex2] (_ & Hg2 & Hm2 & _).
    apply wp_ok. unfold after; cbn [fst snd]; split_and!; (done || lia).
Qed.

Section Expr.
Context (A : allocator) (sub : Lexer → outcome (ASTNode * Lexer)) (k : nat).
Hypothesis sub_ok : ∀ lex, good lex → (rest lex < k)%nat → sub lex ⇓ after tree_ok (rest lex).

Lemma operand_ok lex :
  good lex → (rest lex ≤ k)%nat → parse_operand A sub lex ⇓ after tree_ok (rest lex).
Proof using Hbody Hlen sub_ok.
  intros Hg Hk. unfold parse_operand, lex_peek, node_new, xmalloc. case_bool_decide as Ht.
  - apply wp_bind. eapply wp_mono; [by apply consume_ok|]. intros [t lex1] (_ & Hg1 & _ & Hm1).
    specialize (Hm1 ltac:(congruence)). apply wp_bind. eapply wp_mono; [apply sub_ok; [done|lia]|].
    intros [inner lex2] (Hi & Hg2 & Hm2). cbn [fst snd] in *.
    apply wp_bind, (wp_mono _ (λ lex', good lex' ∧ (rest lex' ≤ rest lex2)%nat)).
    { case_bool_decide; [|by apply wp_ok]. apply wp_bind. eapply wp_mono; [by apply consume_ok|].
      intros [t3 lex3] (_ & Hg3 & Hm3 & _). by apply wp_ok. }
    intros lex3 [Hg3 Hm3]. apply wp_ok. unfold after; cbn [fst snd].
    split_and!; [destruct (avail _ _ _)|by apply good_reqs|change (rest lex3 ≤ rest lex)%nat; lia]; [|done].
    cbn. split_and!; [by split|done|done].
  - destruct (avail _ _ _).
    + apply wp_bind. eapply wp_mono; [apply parse_pipeline_ok, good_reqs, Hg|].
      intros [p lex1] (Hp & Hg1 & Hm1). apply wp_ok. unfold after; cbn [fst snd]. split_and!; done.
    + apply wp_ok. unfold after; cbn [fst snd]. split_and!; [done|by apply good_reqs|done].
Qed.

Lemma expr_step_ok t lex :
  tree_ok t → good lex → (rest lex ≤ k)%nat →
  expr_step A sub (t, lex) ⇓ λ x, match x with
    | inl r => after tree_ok (rest lex) r ∧ (rest r.2 < rest lex)%nat
    | inr r => after tree_ok (rest lex) r end.
Proof using Hbody Hlen sub_ok.
  intros Ht Hg Hk. unfold expr_step, lex_peek, node_new, xmalloc.
  destruct (node_op _) as [op|] eqn:Eo; [|by apply wp_ok].
  assert (type (cur lex) ≠ TOK_EOF) as Hn by (intros E; by rewrite E in Eo).
  apply wp_bind. eapply wp_mono; [by apply consume_ok|]. intros [t1 lex1] (_ & Hg1 & _ & Hm1).
  specialize (Hm1 Hn). destruct (at_end lex1).
  { apply wp_ok. unfold after; cbn [fst snd]. split_and!; (done || lia). }
  apply wp_bind. eapply wp_mono; [apply sub_ok; [done|lia]|].
  intros [rhs lex2] (Hi & Hg2 & Hm2). cbn [fst snd] in *. apply wp_ok. unfold after; cbn [fst snd].
  assert (rest (set_reqs lex2 (S (reqs lex2))) < rest lex)%nat as Hm by (change (rest lex2 < rest lex)%nat; lia).
  split_and!; [|by apply good_reqs|lia|done].
  destruct (avail _ _ _); [|done]. cbn. split_and!; [by split|done|done].
Qed.

End Expr.

Lemma parse_expr_ok A fuel : ∀ lex,
  good lex → (rest lex < fuel)%nat → parse_expr fuel A lex ⇓ after tree_ok (rest lex).
Proof using Hbody Hlen.
  induction fuel as [|k IH]; intros lex Hg Hf; [lia|]. cbn [parse_expr].
  apply wp_bind. eapply wp_mono; [apply (operand_ok A _ k IH); [done|lia]|].
  intros st Hst. assert (src lex = src st.2) as -> by (destruct Hst as (_ & [-> _ _ _] & _); apply Hg).
  apply (wp_loop (after tree_ok (rest lex)) (λ r, rest r.2)); [|done|apply rest_bound, Hst].
  intros [t lex'] (Ht & Hg' & Hm'). cbn [fst snd] in *.
  eapply wp_mono; [apply (expr_step_ok A _ k IH); [done|done|lia]|].
  intros [r|r]; [intros [(H1 & H2 & H3) H4]|intros (H1 & H2 & H3)]; unfold after; split_and!; (done || lia).
Qed.

Lemma init_ok A : lex_init A s ⇓ good.
Proof using Hbody Hlen.
  unfold lex_init. apply wp_bind.
  eapply wp_mono; [apply lex_next_ok; cbn [src pos]; [done|]; unfold zlen; lia|].
  intros [t lex] (H1 & _ & H3 & H4 & H5 & _). cbn [fst snd pos] in *. apply wp_ok.
  split; cbn [src pos cur set_cur]; (done || lia).
Qed.

Lemma parse_ok A : parse A s ⇓ tree_ok.
Proof using Hbody Hlen.
  unfold parse. apply wp_bind. eapply wp_mono; [apply at_char; unfold zlen; lia|]. intros c _.
  destruct (c =? 0); [by apply wp_ok|].
  apply wp_bind. eapply wp_mono; [apply init_ok|]. intros lex Hg.
  apply wp_bind. eapply wp_mono; [apply parse_expr_ok; [done|]|].
  - destruct (g_src _ Hg). by apply rest_bound.
  - intros [t lex'] (Ht & _). by apply wp_ok.
Qed.

End Text.

(** C35: The parser of the shell ends on any input of up to 2^31-8 bytes, whatever requests the
    allocator refuses, without reading behind the input or writing behind its buffers, and every
    command of the tree has at most 127 arguments and 16 redirections, every pipeline at most 64
    commands, and every word at most 4095 bytes. *)
Theorem shell_parse_safe (A : allocator) (body : list Z) :
  Forall plain body → zlen body ≤ MAX_INPUT → parse A (body ++ [0]) ⇓ tree_ok.
Proof using. intros Hb Hl. by apply parse_ok. Qed.

(** An unclosed list whose third allocation is refused. *)
Definition demo_text : list Z := [40; 97; 32; 124; 59; 34; 98].
Definition third_refused : allocator := Build_allocator (λ k _, negb (k =? 2)%nat) (λ _ _, 0).
Lemma shell_parse_safe_witness :
  parse third_refused (demo_text ++ [0]) ⇓ tree_ok.
Proof using.
  apply shell_parse_safe; [|vm_compute; congruence].
  unfold demo_text, plain. repeat (apply Forall_cons; split; [lia|]). apply Forall_nil. exact I.
Defined.

End ShellSafe.
