(* ===== verification/ShellLex.v ===== *)
(** The language the shell's parser accepts: the spellings of words, tokens and
    commands, and the tree each of them stands for. *)
From stdpp Require Import base list.
From S2P Require Import Prelude.
From S2P Require Import CLib.
From S2P Require Import ShellParser.
From S2P Require Import ShellSafe.
Import ShellParser.

Module ShellGrammar.
Import ShellSafe.

(** * Words

    A word is spelled by bare bytes, bytes behind a backslash, and strings in
    double quotes (with backslashes) or single quotes. *)
Inductive piece := Bare (c : Z) | Esc (c : Z) | Dq (l : list (bool * Z)) | Sq (l : list Z).

Definition quoted_char (x : bool * Z) : list Z := if x.1 then [92; x.2] else [x.2].
Definition piece_src (p : piece) : list Z :=
  match p with
  | Bare c => [c]
  | Esc c => [92; c]
  | Dq l => 34 :: concat (map quoted_char l) ++ [34]
  | Sq l => 39 :: l ++ [39]
  end.
Definition piece_text (p : piece) : list Z :=
  match p with Bare c | Esc c => [c] | Dq l => map snd l | Sq l => l end.
Definition piece_ok (p : piece) : Prop :=
  match p with
  | Bare c => delimiter c = false ∧ c ≠ 92 ∧ c ≠ 34 ∧ c ≠ 39
  | Esc c => c ≠ 0
  | Dq l => Forall (λ x : bool * Z, x.2 ≠ 0 ∧ (x.1 = false → x.2 ≠ 34 ∧ x.2 ≠ 92)) l
  | Sq l => Forall (λ c, c ≠ 0 ∧ c ≠ 39) l
  end.

Definition word_src (w : list piece) : list Z := concat (map piece_src w).
Definition word_text (w : list piece) : list Z := concat (map piece_text w).

(** A word does not start like a redirection. *)
Definition word_start (s : list Z) : Prop :=
  match s with
  | [] => False
  | c :: s => c ≠ 60 ∧ c ≠ 62 ∧ (c = 50 → match s with 62 :: _ => False | _ => True end)
  end.
Definition word_ok (w : list piece) : Prop :=
  Forall piece_ok w ∧ zlen (word_text w) < 4095 ∧ word_start (word_src w).

(** * Tokens *)
Inductive tok := TWord (w : list piece) | TOp (t : TokType).

Definition op_src (t : TokType) : list Z :=
  match t with
  | TOK_PIPE => [124] | TOK_AND => [38; 38] | TOK_OR => [124; 124] | TOK_SEMI => [59] | TOK_AMP => [38]
  | TOK_LPAREN => [40] | TOK_RPAREN => [41] | TOK_REDIR_IN => [60] | TOK_REDIR_OUT => [62]
  | TOK_REDIR_APPEND => [62; 62] | TOK_REDIR_ERR => [50; 62] | TOK_REDIR_ERR_APPEND => [50; 62; 62]
  | TOK_REDIR_ERR_OUT => [50; 62; 38; 49] | TOK_NEWLINE => [10]
  | TOK_WORD | TOK_EOF => []
  end.
Definition tok_src (t : tok) : list Z := match t with TWord w => word_src w | TOp t => op_src t end.
Definition tok_val (t : tok) : Token :=
  match t with TWord w => mkToken TOK_WORD (Some (word_text w)) | TOp t => mkToken t None end.

(** What may follow a token directly. *)
Definition glue (t : tok) (r : list Z) : Prop :=
  match t, r with
  | _, [] => False
  | TWord _, c :: _ => delimiter c = true
  | TOp TOK_PIPE, c :: _ => c ≠ 124
  | TOp TOK_AMP, c :: _ => c ≠ 38
  | TOp TOK_REDIR_OUT, c :: _ => c ≠ 62
  | TOp TOK_REDIR_ERR, c :: r => c ≠ 62 ∧ (c = 38 → match r with d :: _ => d ≠ 49 | [] => False end)
  | TOp TOK_WORD, _ | TOp TOK_EOF, _ => False
  | TOp _, _ => True
  end.
Definition tok_ok (t : tok) : Prop := match t with TWord w => word_ok w | TOp _ => True end.

(** The texts that spell a list of tokens, blanks before any of them, and end
    with the terminator. *)
Inductive spelled : list tok → list Z → Prop :=
  | spelled_nil g : Forall (λ c, blank c = true) g → spelled [] (g ++ [0])
  | spelled_cons g t ts r :
      Forall (λ c, blank c = true) g → tok_ok t → glue t r → spelled ts r →
      spelled (t :: ts) (g ++ tok_src t ++ r).

(** * Commands *)
Inductive item := Arg (w : list piece) | Redir (rt : RedirType) (w : list piece) | ErrOut.

Definition redir_tok (rt : RedirType) : TokType :=
  match rt with
  | REDIR_IN => TOK_REDIR_IN | REDIR_OUT => TOK_REDIR_OUT | REDIR_APPEND => TOK_REDIR_APPEND
  | REDIR_ERR => TOK_REDIR_ERR | REDIR_ERR_APPEND => TOK_REDIR_ERR_APPEND | REDIR_ERR_OUT => TOK_REDIR_ERR_OUT
  end.
Definition item_toks (x : item) : list tok :=
  match x with
  | Arg w => [TWord w] | Redir rt w => [TOp (redir_tok rt); TWord w] | ErrOut => [TOp TOK_REDIR_ERR_OUT]
  end.
Definition add_item (c : SimpleCmd) (x : item) : SimpleCmd :=
  match x with
  | Arg w => mkCmd (argv c ++ [Some (word_text w)]) (redirs c)
  | Redir rt w => mkCmd (argv c) (redirs c ++ [mkRedirect rt (Some (word_text w))])
  | ErrOut => mkCmd (argv c) (redirs c ++ [mkRedirect REDIR_ERR_OUT None])
  end.
Definition cmd_toks (c : list item) : list tok := concat (map item_toks c).
Definition cmd_den (c : list item) : SimpleCmd := fold_left add_item c (mkCmd [] []).
Definition item_ok (x : item) : Prop := match x with Redir REDIR_ERR_OUT _ => False | _ => True end.
Definition cmd_wf (c : list item) : Prop :=
  c ≠ [] ∧ Forall item_ok c ∧ zlen (argv (cmd_den c)) < MAX_ARGS ∧ zlen (redirs (cmd_den c)) ≤ MAX_REDIRS.

(** Commands joined by pipes, possibly in the background. *)
Record pipe := mkPipe { first : list item; others : list (list item); bg : bool }.
Definition pipe_toks (p : pipe) : list tok :=
  cmd_toks (first p) ++ concat (map (λ c, TOp TOK_PIPE :: cmd_toks c) (others p)) ++
  (if bg p then [TOp TOK_AMP] else []).
Definition pipe_den (p : pipe) : Pipeline := mkPipeline (cmd_den (first p) :: map cmd_den (others p)) (bg p).
Definition pipe_wf (p : pipe) : Prop :=
  Forall cmd_wf (first p :: others p) ∧ zlen (others p) < MAX_CMDS.

(** * Lists of commands *)
Inductive joint := And | Or | Semi | Newline.
Definition joint_tok (j : joint) : TokType :=
  match j with And => TOK_AND | Or => TOK_OR | Semi => TOK_SEMI | Newline => TOK_NEWLINE end.
Definition joint_node (j : joint) : NodeType :=
  match j with And => NODE_AND | Or => NODE_OR | Semi | Newline => NODE_SEQ end.

Inductive expr := One (o : operand) | Join (o : operand) (j : joint) (e : expr)
with operand := Run (p : pipe) | Sub (e : expr).

Fixpoint toks (e : expr) : list tok :=
  match e with
  | One o => operand_toks o
  | Join o j e => operand_toks o ++ TOp (joint_tok j) :: toks e
  end
with operand_toks (o : operand) : list tok :=
  match o with
  | Run p => pipe_toks p
  | Sub e => TOp TOK_LPAREN :: toks e ++ [TOp TOK_RPAREN]
  end.

(** The tree: every joint takes all that follows as its right side. *)
Fixpoint tree (e : expr) : ASTNode :=
  match e with
  | One o => operand_tree o
  | Join o j e => Node (joint_node j) no_pipeline (operand_tree o) (tree e)
  end
with operand_tree (o : operand) : ASTNode :=
  match o with
  | Run p => Node NODE_PIPELINE (pipe_den p) NULL NULL
  | Sub e => Node NODE_SUBSHELL no_pipeline (tree e) NULL
  end.

Fixpoint expr_wf (e : expr) : Prop :=
  match e with One o => operand_wf o | Join o _ e => operand_wf o ∧ expr_wf e end
with operand_wf (o : operand) : Prop :=
  match o with Run p => pipe_wf p | Sub e => expr_wf e end.

End ShellGrammar.

(** The tokenizer reads back every spelling of a list of tokens. *)
Import ShellParser.

Module ShellLex.
Import ShellSafe ShellGrammar.

Lemma loop_step {St R} n (body : St → outcome (St + R)) st st' :
  body st = Ok (inl st') → loop (S n) body st = loop n body st'.
Proof. intros H. cbn [loop]. by rewrite H. Qed.
Lemma loop_stop {St R} n (body : St → outcome (St + R)) st r :
  body st = Ok (inr r) → loop (S n) body st = Ok r.
Proof. intros H. cbn [loop]. by rewrite H. Qed.

(** The bytes [l] are at position [i] of [s]. *)
Definition has (s : list Z) (i : Z) (l : list Z) : Prop := ∃ pre post, s = pre ++ l ++ post ∧ i = zlen pre.

Lemma has_app s i a b : has s i (a ++ b) → has s i a ∧ has s (i + zlen a) b.
Proof.
  intros (pre & post & -> & ->). split.
  - exists pre, (b ++ post). by rewrite <-app_assoc.
  - exists (pre ++ a), post. by rewrite <-!app_assoc, zlen_app.
Qed.

Lemma has_cons s i c l : has s i (c :: l) → zget s i = Ok c ∧ has s (i + 1) l ∧ 0 ≤ i < zlen s.
Proof.
  intros (pre & post & -> & ->). split_and!.
  - apply zget_ok; [apply zlen_nonneg|]. unfold zlen. rewrite Nat2Z.id. by apply list_lookup_middle.
  - exists (pre ++ [c]), post. rewrite zlen_app. by rewrite <-app_assoc.
  - apply zlen_nonneg.
  - rewrite !zlen_app, zlen_cons. pose proof (zlen_nonneg l). pose proof (zlen_nonneg post). lia.
Qed.

Lemma has_length s i l : has s i l → (length l ≤ length s)%nat.
Proof. intros (pre & post & -> & _). rewrite !length_app. lia. Qed.

Lemma push_here buf (c : Z) : zlen buf < 4095 → push BUF_SIZE buf c = Ok (buf ++ [c]).
Proof. intros. apply array_push_ok. unfold BUF_SIZE. lia. Qed.

Lemma quoted_length l : (length l ≤ length (concat (map quoted_char l)))%nat.
Proof. induction l as [|[[] c] l IH]; cbn in *; lia. Qed.

Lemma pieces_length w : (length w ≤ length (word_src w))%nat.
Proof. unfold word_src. induction w as [|[] w IH]; cbn in *; rewrite ?length_app; lia. Qed.

Section Source.
Context (s : list Z) (Hlen : zlen s ≤ MAX_INPUT).

Lemma int_at i c l : has s i (c :: l) → int (i + 1) = Ok (i + 1).
Proof using Hlen.
  intros (_ & _ & H)%has_cons. unfold MAX_INPUT in Hlen. apply int_ok. lia.
Qed.

(** ** One round of each loop *)
Ltac run := cbn [mbind outcome_bind orb andb negb].

Lemma blank_go i c r : has s i (c :: r) → blank c = true → blank_step s i = Ok (inl (i + 1)).
Proof using Hlen.
  intros Hs Hc. unfold blank_step. rewrite (proj1 (has_cons _ _ _ _ Hs)). run.
  by rewrite Hc, (int_at _ _ _ Hs).
Qed.

Lemma single_go i buf c r :
  has s i (c :: r) → c ≠ 0 → c ≠ 39 → zlen buf < 4095 → single_step s (i, buf) = Ok (inl (i + 1, buf ++ [c])).
Proof using Hlen.
  intros Hs H0 H1 Hb. unfold single_step. rewrite (proj1 (has_cons _ _ _ _ Hs)). run.
  rewrite (proj2 (Z.eqb_neq _ _) H0), (proj2 (Z.eqb_neq _ _) H1), (proj2 (Z.ltb_lt _ _) Hb). run.
  rewrite push_here by lia. run. by rewrite (int_at _ _ _ Hs).
Qed.

Lemma double_go i buf x r :
  has s i (quoted_char x ++ r) → piece_ok (Dq [x]) → zlen buf < 4095 →
  double_step s (i, buf) = Ok (inl (i + zlen (quoted_char x), buf ++ [x.2])).
Proof using Hlen.
  intros Hs Hok Hb. apply Forall_singleton in Hok as [H0 H1]. unfold double_step, quoted_char in *.
  destruct x as [[] c]; cbn [fst snd app] in *.
  - pose proof (has_cons _ _ _ _ Hs) as (Hz & Hs' & _). rewrite Hz. run.
    change (92 =? 0) with false. change (92 =? 34) with false. change (92 =? 92) with true.
    rewrite (proj2 (Z.ltb_lt _ _) Hb). run. rewrite (proj1 (has_cons _ _ _ _ Hs')). run.
    rewrite (proj2 (Z.eqb_neq _ _) H0), (int_at _ _ _ Hs). run. rewrite push_here by lia. run.
    rewrite (int_at _ _ _ Hs'). run. do 3 f_equal. change (zlen [92; c]) with 2. lia.
  - destruct (H1 eq_refl) as [H2 H3]. rewrite (proj1 (has_cons _ _ _ _ Hs)). run.
    rewrite (proj2 (Z.eqb_neq _ _) H0), (proj2 (Z.eqb_neq _ _) H2), (proj2 (Z.eqb_neq _ _) H3).
    rewrite (proj2 (Z.ltb_lt _ _) Hb). run. change (0 =? 0) with true. run. rewrite push_here by lia. run. by rewrite (int_at _ _ _ Hs).
Qed.

(** ** The loops *)
Lemma blanks_read g : ∀ fuel i c r,
  Forall (λ c, blank c = true) g → has s i (g ++ c :: r) → blank c = false → (length g < fuel)%nat →
  loop fuel (blank_step s) i = Ok (i + zlen g).
Proof using Hlen.
  induction g as [|b g IH]; intros [|fuel] i c r Hg Hs Hc Hf; cbn [length] in Hf; [lia| |lia|].
  - apply loop_stop. unfold blank_step. rewrite (proj1 (has_cons _ _ _ _ Hs)). run. rewrite Hc.
    do 2 f_equal. change (zlen []) with 0. lia.
  - apply Forall_cons in Hg as [Hb Hg]. rewrite (loop_step _ _ _ (i + 1)) by (eapply blank_go; [exact Hs|done]).
    apply has_cons in Hs as (_ & Hs & _). rewrite (IH fuel (i + 1) c r) by (done || lia).
    f_equal. rewrite zlen_cons. lia.
Qed.

Lemma single_read l : ∀ fuel i buf r,
  Forall (λ c, c ≠ 0 ∧ c ≠ 39) l → has s i (l ++ 39 :: r) → zlen buf + zlen l < 4095 → (length l < fuel)%nat →
  loop fuel (single_step s) (i, buf) = Ok (i + zlen l, buf ++ l).
Proof using Hlen.
  induction l as [|c l IH]; intros [|fuel] i buf r Hg Hs Hb Hf; cbn [length] in Hf; [lia| |lia|].
  - apply loop_stop. unfold single_step. rewrite (proj1 (has_cons _ _ _ _ Hs)). run.
    change (39 =? 0) with false. change (39 =? 39) with true. run. rewrite app_nil_r.
    do 3 f_equal. change (zlen []) with 0. lia.
  - apply Forall_cons in Hg as [[Hc1 Hc2] Hg]. rewrite zlen_cons in Hb. pose proof (zlen_nonneg l).
    rewrite (loop_step _ _ _ (i + 1, buf ++ [c])) by (eapply single_go; [exact Hs|done|done|lia]).
    apply has_cons in Hs as (_ & Hs & _).
    rewrite (IH fuel (i + 1) (buf ++ [c]) r); [|done|done|rewrite zlen_app; change (zlen [c]) with 1; lia|lia].
    rewrite zlen_cons, <-app_assoc. cbn [app]. do 2 f_equal. lia.
Qed.

Lemma double_read l : ∀ fuel i buf r,
  piece_ok (Dq l) → has s i (concat (map quoted_char l) ++ 34 :: r) → zlen buf + zlen l < 4095 → (length l < fuel)%nat →
  loop fuel (double_step s) (i, buf) = Ok (i + zlen (concat (map quoted_char l)), buf ++ map snd l).
Proof using Hlen.
  induction l as [|x l IH]; intros [|fuel] i buf r Hg Hs Hb Hf; cbn [length] in Hf; [lia| |lia|].
  - apply loop_stop. unfold double_step. rewrite (proj1 (has_cons _ _ _ _ Hs)). run.
    change (34 =? 0) with false. change (34 =? 34) with true. run. cbn [map concat]. rewrite app_nil_r.
    do 3 f_equal. change (zlen []) with 0. lia.
  - apply Forall_cons in Hg as [Hx Hg]. rewrite zlen_cons in Hb. pose proof (zlen_nonneg l).
    cbn [map concat] in Hs |- *. rewrite <-app_assoc in Hs.
    rewrite (loop_step _ _ _ (i + zlen (quoted_char x), buf ++ [x.2]))
      by (eapply double_go; [exact Hs|by apply Forall_singleton|lia]).
    apply has_app in Hs as [_ Hs].
    rewrite (IH fuel _ (buf ++ [x.2]) r); [|done|done|rewrite zlen_app; change (zlen [x.2]) with 1; lia|lia].
    rewrite zlen_app, <-app_assoc. cbn [app]. do 2 f_equal. lia.
Qed.

(** ** Words *)
Lemma close_go q i buf r : has s i (q :: r) → close_quote q s (i, buf) = Ok (i + 1, buf).
Proof using Hlen.
  intros Hs. unfold close_quote. rewrite (proj1 (has_cons _ _ _ _ Hs)). run.
  by rewrite Z.eqb_refl, (int_at _ _ _ Hs).
Qed.

Lemma piece_go i buf p r :
  has s i (piece_src p ++ r) → piece_ok p → zlen buf + zlen (piece_text p) < 4095 →
  word_step s (i, buf) = Ok (inl (i + zlen (piece_src p), buf ++ piece_text p)).
Proof using Hlen.
  intros Hs Hok Hb. pose proof (zlen_nonneg buf). pose proof (zlen_nonneg (piece_text p)).
  unfold word_step. destruct p as [c|c|l|l]; cbn [piece_src piece_text app] in *.
  - destruct Hok as (K0 & K1 & K2 & K3). rewrite (proj1 (has_cons _ _ _ _ Hs)). run.
    rewrite K0, (proj2 (Z.ltb_lt _ _)), (proj2 (Z.eqb_neq _ _) K1) by lia. run. change (0 =? 0) with true. run.
    rewrite (proj2 (Z.eqb_neq _ _) K2), (proj2 (Z.eqb_neq _ _) K3), push_here by lia. run.
    by rewrite (int_at _ _ _ Hs).
  - pose proof (has_cons _ _ _ _ Hs) as (Hz & Hs' & _). rewrite Hz. run.
    change (delimiter 92) with false. change (92 =? 92) with true.
    rewrite (proj2 (Z.ltb_lt _ _)) by lia. run. rewrite (proj1 (has_cons _ _ _ _ Hs')). run.
    rewrite (proj2 (Z.eqb_neq _ _) Hok). run. rewrite push_here by lia. run.
    replace (i + 2) with (i + 1 + 1) by lia. rewrite (int_at _ _ _ Hs'). run. do 3 f_equal.
    change (zlen [92; c]) with 2. lia.
  - pose proof (has_cons _ _ _ _ Hs) as (Hz & Hs' & _). rewrite Hz. run.
    change (delimiter 34) with false. change (34 =? 92) with false. change (34 =? 34) with true.
    change (0 =? 0) with true. unfold zlen in Hb at 2. rewrite length_map in Hb. fold (zlen l) in Hb.
    pose proof (zlen_nonneg l).
    rewrite (proj2 (Z.ltb_lt _ _)) by lia. run. rewrite (int_at _ _ _ Hs). run.
    rewrite <-app_assoc in Hs'. unfold lex_double.
    rewrite (double_read l _ _ _ r); [|done|done|done|].
    2:{ apply has_length in Hs'. rewrite length_app in Hs'. pose proof (quoted_length l). lia. }
    apply has_app in Hs' as [_ Hs']. run. rewrite (close_go _ _ _ _ Hs'). run. do 3 f_equal.
    rewrite zlen_cons, zlen_app. change (zlen [34]) with 1. lia.
  - pose proof (has_cons _ _ _ _ Hs) as (Hz & Hs' & _). rewrite Hz. run.
    change (delimiter 39) with false. change (39 =? 92) with false. change (39 =? 34) with false.
    change (39 =? 39) with true. change (0 =? 0) with true.
    rewrite (proj2 (Z.ltb_lt _ _)) by lia. run. rewrite (int_at _ _ _ Hs). run.
    rewrite <-app_assoc in Hs'. unfold lex_single.
    rewrite (single_read l _ _ _ r); [|done|done|done|].
    2:{ apply has_length in Hs'. rewrite length_app in Hs'. lia. }
    apply has_app in Hs' as [_ Hs']. run. rewrite (close_go _ _ _ _ Hs'). run. do 3 f_equal.
    rewrite zlen_cons, zlen_app. change (zlen [39]) with 1. lia.
Qed.

Lemma word_read w : ∀ fuel i buf c r,
  Forall piece_ok w → has s i (word_src w ++ c :: r) → delimiter c = true →
  zlen buf + zlen (word_text w) < 4095 → (length w < fuel)%nat →
  loop fuel (word_step s) (i, buf) = Ok (i + zlen (word_src w), buf ++ word_text w).
Proof using Hlen.
  unfold word_src, word_text.
  induction w as [|p w IH]; intros [|fuel] i buf c r Hg Hs Hc Hb Hf; cbn [length] in Hf; [lia| |lia|].
  - apply loop_stop. unfold word_step. rewrite (proj1 (has_cons _ _ _ _ Hs)). run. rewrite Hc. run.
    cbn [map concat]. rewrite app_nil_r. do 3 f_equal. change (zlen []) with 0. lia.
  - apply Forall_cons in Hg as [Hx Hg]. cbn [map concat] in *. rewrite zlen_app in Hb.
    rewrite <-app_assoc in Hs. pose proof (zlen_nonneg (concat (map piece_text w))).
    rewrite (loop_step _ _ _ (i + zlen (piece_src p), buf ++ piece_text p))
      by (eapply piece_go; [exact Hs|done|lia]).
    apply has_app in Hs as [_ Hs].
    rewrite (IH fuel _ (buf ++ piece_text p) c r); [|done|done|done|rewrite zlen_app; lia|lia].
    rewrite zlen_app, <-app_assoc. do 2 f_equal. lia.
Qed.

Lemma word_plain w : Forall piece_ok w → Forall plain (word_text w).
Proof using.
  unfold word_text. induction 1 as [|p w Hp _ IH]; cbn [map concat]; [constructor|].
  apply Forall_app. split; [|done]. clear IH. destruct p as [c|c|l|l]; cbn in *.
  - apply Forall_singleton. intros ->. by destruct Hp as [? _].
  - by apply Forall_singleton.
  - apply Forall_map. eapply Forall_impl; [exact Hp|]. by intros x [? _].
  - eapply Forall_impl; [exact Hp|]. by intros x [? _].
Qed.

(** ** Tokens *)
Context (A : allocator) (granted : ∀ k n, avail A k n = true).

(** The token [t] was read and [l] is what follows. *)
Definition read (t : tok) (l : list Z) (r : Token * Lexer) : Prop :=
  r.1 = tok_val t ∧ src r.2 = s ∧ has s (pos r.2) l.

Lemma op_read lex t i l :
  src lex = s → has s i l → 0 < i → l ≠ [] → op_token lex t i ⇓ read (TOp t) l.
Proof using Hlen.
  intros Hs Hl Hi Hn. destruct l as [|c l]; [done|]. pose proof (has_cons _ _ _ _ Hl) as (_ & _ & Hb).
  unfold op_token. unfold MAX_INPUT in Hlen. rewrite int_ok by lia. apply wp_ok. by split_and!.
Qed.

Lemma word_tok_read lex w i r :
  src lex = s → word_ok w → has s i (word_src w ++ r) → glue (TWord w) r → lex_word A lex i ⇓ read (TWord w) r.
Proof using Hlen granted.
  intros Hs (Hp & Hl & _) Hh Hg. destruct r as [|c r]; [done|]. unfold lex_word. rewrite Hs.
  rewrite (word_read w _ _ _ c r); [|done..|].
  2:{ apply has_length in Hh. rewrite length_app in Hh. pose proof (pieces_length w). lia. }
  run. rewrite push_here by done. run. unfold xstrdup. cbn [app].
  rewrite c_strlen_app by by apply word_plain. run. unfold xmalloc. rewrite granted. apply wp_ok.
  apply has_app in Hh as [_ Hh]. split_and!; [|done|done].
  cbn. unfold zlen. by rewrite Nat2Z.id, take_app_length.
Qed.

Lemma word_head w : word_ok w → ∃ c l, word_src w = c :: l ∧ delimiter c = false ∧ word_start (c :: l).
Proof using.
  intros (Hp & _ & Hs). destruct w as [|p w]; [done|]. apply Forall_cons in Hp as [Hp _].
  destruct (word_src (p :: w)) as [|c l] eqn:E; [done|]. exists c, l. split_and!; [done| |done].
  unfold word_src in E. destruct p; cbn in E; injection E as <- _; [apply Hp|done..].
Qed.

(** The first byte of a token is not a blank. *)
Lemma tok_head t r : tok_ok t → glue t r → ∃ c l, tok_src t ++ r = c :: l ∧ blank c = false.
Proof using.
  intros Ht Hg. destruct t as [w|t].
  - destruct (word_head w Ht) as (c & l & E & Hd & _). cbn [tok_src]. rewrite E. exists c, (l ++ r).
    split; [done|]. unfold delimiter in Hd. by rewrite !orb_false_iff in Hd; destruct Hd as [[[[[[[_ ?] _] _] _] _] _] _].
  - destruct t; cbn [tok_src op_src app]; try (by eexists _, _). all: by destruct r.
Qed.

(** A word is none of the other tokens. *)
Lemma word_next lex w i r :
  src lex = s → word_ok w → has s i (word_src w ++ r) → glue (TWord w) r →
  (c ← zget s i;
   d ← (if (c =? 50) || (c =? 62) then zget s (i + 1) else Ok 0);
   Ok ((c =? 50) && (d =? 62) || (c =? 62) || (c =? 60))) = Ok false.
Proof using.
  intros Hs Hw Hh Hg. destruct (word_head w Hw) as (c & l & E & Hd & (H1 & H2 & H3)). rewrite E in Hh. cbn [app] in Hh.
  pose proof (has_cons _ _ _ _ Hh) as (Hz & Hh' & _). rewrite Hz. run.
  rewrite (proj2 (Z.eqb_neq c 62) H2), (proj2 (Z.eqb_neq c 60) H1), !orb_false_r.
  destruct (Z.eqb_spec c 50) as [->|]; [|done]. run.
  assert (∃ d l', l ++ r = d :: l' ∧ d ≠ 62) as (d & l' & El & Hd2).
  { destruct l as [|d l]; cbn [app].
    - destruct r as [|d r]; [done|]. exists d, r. split; [done|]. by intros ->.
    - exists d, (l ++ r). split; [done|]. intros ->. by apply H3. }
  rewrite El in Hh'. rewrite (proj1 (has_cons _ _ _ _ Hh')). run.
  by rewrite (proj2 (Z.eqb_neq d 62) Hd2).
Qed.

Lemma tok_read lex g t r :
  src lex = s → Forall (λ c, blank c = true) g → tok_ok t → glue t r → has s (pos lex) (g ++ tok_src t ++ r) →
  lex_next A lex ⇓ read t r.
Proof using Hlen granted.
  intros Hs Hg Ht Hr Hh. unfold lex_next. rewrite Hs.
  destruct (tok_head t r Ht Hr) as (c & l & El & Hb).
  rewrite El in Hh. unfold skip_blanks. rewrite (blanks_read g _ _ c l); [|done..|].
  2:{ apply has_length in Hh. rewrite length_app in Hh. lia. }
  apply has_app in Hh as [_ Hh]. set (i := pos lex + zlen g) in *. clearbody i. rewrite <-El in Hh. run.
  destruct t as [w|t]; cbn [tok_src] in *.
  - pose proof (word_next lex w i r Hs Ht Hh Hr) as Hn. pose proof (word_tok_read lex w i r Hs Ht Hh Hr) as Hw.
    destruct (word_head w Ht) as (c' & l' & E & Hd & _). rewrite E in Hh. cbn [app] in Hh.
    destruct (has_cons _ _ _ _ Hh) as (Hz & _ & _). rewrite Hz in Hn |- *. cbn [mbind outcome_bind] in Hn |- *.
    unfold delimiter, blank in Hd. rewrite !orb_false_iff in Hd. destruct Hd as [[[[[[[D0 _] D1] D2] D3] D4] D5] D6].
    rewrite D0, D1, D2, D3, D4, D5, D6. apply bind_inv in Hn as (d & -> & Hn). injection Hn as Hn.
    apply orb_false_iff in Hn as [[Hn1 Hn2]%orb_false_iff Hn3]. run. by rewrite Hn1, Hn2, Hn3.
  - destruct r as [|d r]; [by destruct t|].
    destruct t; cbn [op_src app glue] in *; try done.
    all: pose proof (has_cons _ _ _ _ Hh) as (Hz & Hh1 & Hi); rewrite Hz; run.
    all: try (cbn [Z.eqb Pos.eqb]; apply op_read; [done|done|lia|done]).
    all: pose proof (has_cons _ _ _ _ Hh1) as (Hz1 & Hh2 & _); cbn [Z.eqb Pos.eqb orb]; rewrite Hz1; run;
      cbn [Z.eqb Pos.eqb andb].
    all: replace (i + 1 + 1) with (i + 2) in Hh2 by lia.
    all: try (rewrite (proj2 (Z.eqb_neq _ _) Hr)); try (apply op_read; [done|done|lia|done]).
    + destruct Hr as [Hr1 Hr2]. pose proof (has_cons _ _ _ _ Hh2) as (Hz2 & Hh3 & _). rewrite Hz2. run.
      rewrite (proj2 (Z.eqb_neq _ _) Hr1). destruct (Z.eqb_spec d 38) as [->|].
      * specialize (Hr2 eq_refl). destruct r as [|e r]; [done|].
        replace (i + 3) with (i + 2 + 1) by lia. rewrite (proj1 (has_cons _ _ _ _ Hh3)). run.
        rewrite (proj2 (Z.eqb_neq _ _) Hr2). apply op_read; [done|done|lia|done].
      * run. cbn [Z.eqb]. apply op_read; [done|done|lia|done].
    + pose proof (has_cons _ _ _ _ Hh2) as (Hz2 & Hh3 & _). rewrite Hz2. run. cbn [Z.eqb Pos.eqb].
      replace (i + 3) with (i + 2 + 1) by lia. apply op_read; [done|done|lia|done].
    + pose proof (has_cons _ _ _ _ Hh2) as (Hz2 & Hh3 & _). rewrite Hz2. run. cbn [Z.eqb Pos.eqb].
      replace (i + 3) with (i + 2 + 1) by lia. pose proof (has_cons _ _ _ _ Hh3) as (Hz3 & Hh4 & _). rewrite Hz3. run.
      cbn [Z.eqb Pos.eqb]. replace (i + 4) with (i + 2 + 1 + 1) by lia. apply op_read; [done|done|lia|done].
Qed.

Lemma eof_read lex g :
  src lex = s → Forall (λ c, blank c = true) g → has s (pos lex) (g ++ [0]) →
  lex_next A lex ⇓ λ r, r.1 = mkToken TOK_EOF None ∧ src r.2 = s ∧ has s (pos r.2) [0].
Proof using Hlen.
  intros Hs Hg Hh. unfold lex_next, skip_blanks. rewrite Hs, (blanks_read g _ _ 0 []); [|done..|].
  2:{ apply has_length in Hh. rewrite length_app in Hh. cbn in Hh. lia. }
  apply has_app in Hh as [_ Hh]. run. destruct (has_cons _ _ _ _ Hh) as (Hz & _ & Hi). rewrite Hz. run.
  change (0 =? 0) with true. unfold op_token. unfold MAX_INPUT in Hlen. rewrite int_ok by lia. by apply wp_ok.
Qed.

End Source.
End ShellLex.
