(* ===== verification/ShellClaims.v ===== *)
(** The shell's parser builds the tree of every well-formed command line, in
    whatever way it is spelled. *)
From stdpp Require Import base list.
From S2P Require Import Prelude.
From S2P Require Import CLib.
From S2P Require Import ShellParser.
From S2P Require Import ShellSafe.
From S2P Require Import ShellLex.
Import ShellParser.

Module ShellClaims.
Import ShellSafe ShellGrammar ShellLex.

Lemma wp_loop_step {St R} n (body : St → outcome (St + R)) st (Q : R → Prop) :
  body st ⇓ (λ x, match x with inl st' => loop n body st' ⇓ Q | inr r => Q r end) → loop (S n) body st ⇓ Q.
Proof.
  intros H. cbn [loop]. apply wp_bind. eapply wp_mono; [exact H|].
  intros [st'|r] Hx; [exact Hx|by apply wp_ok].
Qed.

Section Source.
Context (s : list Z) (Hlen : zlen s ≤ MAX_INPUT) (A : allocator) (granted : ∀ k n, avail A k n = true).

(** The tokens [ts] are what the lexer has still to give. *)
Definition ready (lex : Lexer) (ts : list tok) : Prop :=
  src lex = s ∧ ∃ r, has s (pos lex) r ∧
    match ts with
    | [] => cur lex = mkToken TOK_EOF None
    | t :: ts => cur lex = tok_val t ∧ spelled ts r
    end.

Lemma next_ready lex ts r :
  src lex = s → has s (pos lex) r → spelled ts r →
  lex_next A lex ⇓ λ '(t, lex'), ready (set_cur lex' t) ts.
Proof using Hlen granted.
  intros Hs Hh Hsp. destruct Hsp as [g Hg|g t ts r Hg Ht Hgl Hsp].
  - eapply wp_mono; [by apply (eof_read s Hlen A lex g)|]. intros [t lex'] (E & H1 & H2).
    cbn in E. subst t. split; [done|]. by eexists.
  - eapply wp_mono; [by eapply (tok_read s Hlen A granted lex g t r)|]. intros [t' lex'] (E & H1 & H2).
    cbn in E. subst t'. split; [done|]. by exists r.
Qed.

Lemma consume_ready lex t ts :
  ready lex (t :: ts) → lex_consume A lex ⇓ λ '(t', lex'), t' = tok_val t ∧ ready lex' ts.
Proof using Hlen granted.
  intros (Hs & r & Hh & Hc & Hsp). unfold lex_consume. apply wp_bind.
  eapply wp_mono; [by eapply next_ready|]. intros [n lex'] Hr. by apply wp_ok.
Qed.

Lemma ready_reqs lex k ts : ready lex ts → ready (set_reqs lex k) ts.
Proof using. done. Qed.

Lemma ready_cur lex t ts : ready lex (t :: ts) → cur lex = tok_val t.
Proof using. by intros (_ & r & _ & H & _). Qed.
Lemma ready_eof lex : ready lex [] → cur lex = mkToken TOK_EOF None.
Proof using. by intros (_ & r & _ & H). Qed.

Lemma spelled_length ts r : spelled ts r → (length ts < length r)%nat.
Proof using.
  induction 1 as [g|g t ts r Hg Ht Hgl Hsp IH]; rewrite ?length_app; cbn [length]; [lia|].
  destruct (tok_head t r Ht Hgl) as (c & l & E & _).
  assert (0 < length (tok_src t))%nat; [|lia].
  destruct t as [w|t]; cbn [tok_src].
  - destruct (word_head w Ht) as (c' & l' & E' & _). rewrite E'. cbn. lia.
  - destruct t; cbn; try lia; by destruct r.
Qed.

Lemma ready_length lex ts : ready lex ts → (length ts ≤ length (src lex))%nat.
Proof using.
  intros (-> & r & Hh & Hm). destruct ts as [|t ts]; [cbn; lia|].
  destruct Hm as [_ Hsp%spelled_length]. apply has_length in Hh. cbn [length]. lia.
Qed.

(** * Commands *)
Definition ends (ts : list tok) : Prop :=
  match ts with [] => True | t :: _ => ends_cmd (type (tok_val t)) = true end.

Lemma ready_ends lex ts : ready lex ts → ends ts → ends_cmd (type (cur lex)) = true.
Proof using.
  intros Hr He. destruct ts as [|t ts].
  - by rewrite (ready_eof lex Hr).
  - by rewrite (ready_cur lex t ts Hr).
Qed.

Lemma item_grow c x : zlen (argv c) ≤ zlen (argv (add_item c x)) ∧ zlen (redirs c) ≤ zlen (redirs (add_item c x)).
Proof using. clear. unfold zlen. destruct x; cbn [add_item argv redirs]; rewrite ?length_app; lia. Qed.

Lemma items_grow l : ∀ c, zlen (argv c) ≤ zlen (argv (fold_left add_item l c)) ∧
  zlen (redirs c) ≤ zlen (redirs (fold_left add_item l c)).
Proof using.
  clear. induction l as [|x l IH]; intros c; cbn [fold_left]; [lia|].
  pose proof (IH (add_item c x)). pose proof (item_grow c x). lia.
Qed.

Lemma redir_of_tok rt : redir_type (redir_tok rt) = Some rt.
Proof using. by destruct rt. Qed.

Lemma item_read x cmd lex ts :
  ready lex (item_toks x ++ ts) → item_ok x →
  zlen (argv (add_item cmd x)) < MAX_ARGS → zlen (redirs (add_item cmd x)) ≤ MAX_REDIRS →
  cmd_step A (cmd, lex) ⇓ λ y, ∃ lex', y = inl (add_item cmd x, lex') ∧ ready lex' ts.
Proof using Hlen granted.
  intros Hr Hok Ha Hrd. unfold cmd_step, lex_peek.
  destruct x as [w|rt w|]; cbn [item_toks app add_item argv redirs] in *;
    rewrite (ready_cur _ _ _ Hr); cbn [tok_val type str];
    unfold zlen in Ha, Hrd; rewrite ?length_app in Ha; rewrite ?length_app in Hrd; cbn [length] in Ha, Hrd.
  - cbn [ends_cmd redir_type]. rewrite bool_decide_eq_true_2, (proj2 (Z.ltb_lt _ _)) by (done || (unfold zlen; lia)). cbn [andb].
    apply wp_bind. eapply wp_mono; [by apply consume_ready|]. intros [t lex'] [_ Hr'].
    rewrite array_push_ok by (unfold zlen; lia). apply wp_ok. by eexists.
  - replace (ends_cmd (redir_tok rt)) with false by (by destruct rt). rewrite redir_of_tok.
    apply wp_bind. unfold parse_redirect. apply wp_bind. eapply wp_mono; [by apply consume_ready|].
    intros [t1 lex1] [_ Hr1]. rewrite (proj2 (Z.ltb_lt _ _)) by (unfold zlen; lia). cbn [negb].
    destruct rt; try done.
    all: apply wp_bind; (eapply wp_mono; [by apply consume_ready|]); intros [t2 lex2] [-> Hr2]; cbn [tok_val str];
      cbn [mbind outcome_bind]; rewrite array_push_ok by (unfold zlen; lia); cbn [mbind outcome_bind]; apply wp_ok, wp_ok; by eexists.
  - cbn [ends_cmd redir_type]. apply wp_bind. unfold parse_redirect. apply wp_bind.
    eapply wp_mono; [by apply consume_ready|]. intros [t1 lex1] [_ Hr1].
    rewrite (proj2 (Z.ltb_lt _ _)) by (unfold zlen; lia). cbn [negb]. rewrite array_push_ok by (unfold zlen; lia). cbn [mbind outcome_bind].
    apply wp_ok, wp_ok. by eexists.
Qed.

Lemma cmd_read l : ∀ fuel cmd lex ts,
  ready lex (cmd_toks l ++ ts) → Forall item_ok l → ends ts →
  zlen (argv (fold_left add_item l cmd)) < MAX_ARGS → zlen (redirs (fold_left add_item l cmd)) ≤ MAX_REDIRS →
  (length l < fuel)%nat →
  loop fuel (cmd_step A) (cmd, lex) ⇓ λ '(c, lex'), c = fold_left add_item l cmd ∧ ready lex' ts.
Proof using Hlen granted.
  induction l as [|x l IH]; intros [|fuel] cmd lex ts Hr Hok He Ha Hrd Hf; cbn [length] in Hf; [lia| |lia|];
    apply wp_loop_step.
  - cbn [cmd_toks map concat app fold_left] in *. unfold cmd_step, lex_peek.
    rewrite (ready_ends _ _ Hr He). by apply wp_ok.
  - apply Forall_cons in Hok as [Hx Hok]. unfold cmd_toks in Hr. cbn [map concat fold_left] in *.
    rewrite <-app_assoc in Hr. destruct (items_grow l (add_item cmd x)).
    eapply wp_mono; [apply (item_read x cmd lex _ Hr); [done|lia|lia]|].
    intros y (lex' & -> & Hr'). apply IH; (done || lia).
Qed.

Lemma items_length l : Forall item_ok l → (length l ≤ length (cmd_toks l))%nat.
Proof using.
  unfold cmd_toks. induction 1 as [|x l Hx _ IH]; cbn [map concat length]; [lia|].
  rewrite length_app. destruct x; cbn; lia.
Qed.

Lemma simple_read c lex ts :
  ready lex (cmd_toks c ++ ts) → cmd_wf c → ends ts →
  parse_simple_cmd A lex ⇓ λ '(d, lex'), d = cmd_den c ∧ ready lex' ts.
Proof using Hlen granted.
  intros Hr (_ & Hok & Ha & Hrd) He. unfold parse_simple_cmd. apply (cmd_read c); try done.
  pose proof (items_length c Hok). apply ready_length in Hr. rewrite length_app in Hr. lia.
Qed.

(** * Pipelines *)
Definition more (cs : list (list item)) : list tok := concat (map (λ c, TOp TOK_PIPE :: cmd_toks c) cs).

(** What may follow a pipeline. *)
Definition follows (ts : list tok) : Prop :=
  match ts with
  | [] => True
  | TOp (TOK_AND | TOK_OR | TOK_SEMI | TOK_NEWLINE | TOK_RPAREN) :: _ => True
  | _ => False
  end.

(** What may follow its commands: the same, or the sign of the background. *)
Definition ends_pipe (ts : list tok) : Prop :=
  match ts with TOp TOK_AMP :: ts => follows ts | _ => follows ts end.

Lemma ends_pipe_ends ts : ends_pipe ts → ends ts.
Proof using. destruct ts as [|[w|[]] ts]; done. Qed.

Lemma ends_pipe_cur lex ts : ready lex ts → ends_pipe ts → type (cur lex) ≠ TOK_PIPE.
Proof using.
  intros Hr He. destruct ts as [|t ts].
  - by rewrite (ready_eof lex Hr).
  - rewrite (ready_cur lex t ts Hr). destruct t as [w|[]]; done.
Qed.

Lemma more_read l : ∀ fuel cs lex ts,
  ready lex (more l ++ ts) → Forall cmd_wf l → ends_pipe ts → zlen cs + zlen l ≤ MAX_CMDS → (length l < fuel)%nat →
  loop fuel (pipe_step A) (cs, lex) ⇓ λ '(cs', lex'), cs' = cs ++ map cmd_den l ∧ ready lex' ts.
Proof using Hlen granted.
  induction l as [|c l IH]; intros [|fuel] cs lex ts Hr Hok He Hc Hf; cbn [length] in Hf; [lia| |lia|];
    apply wp_loop_step; unfold pipe_step, lex_peek.
  - cbn in Hr. rewrite bool_decide_eq_false_2 by (by eapply ends_pipe_cur). apply wp_ok. by rewrite app_nil_r.
  - apply Forall_cons in Hok as [Hx Hok]. unfold more in Hr. cbn [map concat app] in Hr. rewrite <-app_assoc in Hr.
    rewrite (ready_cur _ _ _ Hr). cbn [tok_val type negb]. rewrite bool_decide_eq_true_2 by done. cbn [negb].
    rewrite zlen_cons in Hc. pose proof (zlen_nonneg l).
    apply wp_bind. eapply wp_mono; [by apply consume_ready|]. intros [t lex1] [_ Hr1].
    rewrite (proj2 (Z.ltb_lt _ _)) by lia. apply wp_bind. eapply wp_mono; [apply (simple_read c _ _ Hr1); [done|]|].
    { destruct l as [|c' l]; [by apply ends_pipe_ends|done]. }
    intros [d lex2] [-> Hr2]. rewrite array_push_ok by lia. apply wp_ok.
    eapply wp_mono; [apply (IH fuel (cs ++ [cmd_den c]) lex2 ts); [done|done|done| |lia]|].
    { rewrite zlen_app. change (zlen [cmd_den c]) with 1. lia. }
    intros [cs' lex'] [-> Hr']. split; [by rewrite <-app_assoc|done].
Qed.

Lemma more_length l : (length l ≤ length (more l))%nat.
Proof using. clear. unfold more. induction l as [|c l IH]; cbn [map concat length app]; rewrite ?length_app; lia. Qed.

Lemma pipeline_read p lex ts :
  ready lex (pipe_toks p ++ ts) → pipe_wf p → follows ts →
  parse_pipeline A lex ⇓ λ '(q, lex'), q = pipe_den p ∧ ready lex' ts.
Proof using Hlen granted.
  destruct p as [f o b]. unfold pipe_toks, pipe_den, pipe_wf. cbn [first others bg].
  intros Hr [[Hf Ho]%Forall_cons Hn] Hfo. rewrite <-!app_assoc in Hr.
  unfold parse_pipeline, xmalloc. rewrite granted. cbn [negb]. apply wp_bind.
  assert (ends_pipe ((if b then [TOp TOK_AMP] else []) ++ ts)) as He.
  { destruct b; [done|]. cbn [app]. by destruct ts as [|[w|[]] ts]. }
  eapply wp_mono; [apply (simple_read f _ _ (ready_reqs _ _ _ Hr)); [done|]|].
  { destruct o as [|c o]; [by apply ends_pipe_ends|done]. }
  intros [d lex1] [-> Hr1]. rewrite array_push_ok by (unfold MAX_CMDS, zlen; cbn; lia). cbn [mbind outcome_bind app].
  apply wp_bind. eapply wp_mono; [apply (more_read o _ _ _ _ Hr1); [done|done| |]|].
  { rewrite zlen_cons. change (zlen []) with 0. lia. }
  { apply ready_length in Hr1. rewrite length_app in Hr1. fold (more o) in Hr1. pose proof (more_length o). lia. }
  intros [cs lex2] [-> Hr2]. destruct b; cbn [app] in Hr2.
  - unfold lex_peek. rewrite (ready_cur _ _ _ Hr2). cbn [tok_val type]. rewrite bool_decide_eq_true_2 by done.
    apply wp_bind. eapply wp_mono; [by apply consume_ready|]. intros [t lex3] [_ Hr3]. by apply wp_ok.
  - rewrite bool_decide_eq_false_2; [by apply wp_ok|]. unfold lex_peek. destruct ts as [|t ts].
    + by rewrite (ready_eof _ Hr2).
    + rewrite (ready_cur _ _ _ Hr2). by destruct t as [w|[]].
Qed.

(** * Lists of commands *)
Definition stops (ts : list tok) : Prop :=
  match ts with [] => True | TOp TOK_RPAREN :: _ => True | _ => False end.

Lemma pipe_head p : pipe_wf p → ∃ t ts, pipe_toks p = t :: ts ∧
  (type (tok_val t) ≠ TOK_LPAREN ∧ type (tok_val t) ≠ TOK_EOF ∧ type (tok_val t) ≠ TOK_RPAREN).
Proof using.
  intros [[(Hn & Hi & _) _]%Forall_cons _]. unfold pipe_toks. destruct (first p) as [|x c]; [done|].
  apply Forall_cons in Hi as [Hx _]. unfold cmd_toks. cbn [map concat].
  destruct x as [w|rt w|]; cbn [item_toks app]; eexists _, _; (split; [done|]); cbn; try done.
  by destruct rt.
Qed.

Lemma operand_head o : operand_wf o → ∃ t ts, operand_toks o = t :: ts ∧
  (type (tok_val t) ≠ TOK_EOF ∧ type (tok_val t) ≠ TOK_RPAREN).
Proof using.
  destruct o as [p|e]; cbn [operand_wf operand_toks]; intros Hw.
  - destruct (pipe_head p Hw) as (t & ts & -> & H). exists t, ts. tauto.
  - by eexists _, _.
Qed.

Lemma toks_head e : expr_wf e → ∃ t ts, toks e = t :: ts ∧
  (type (tok_val t) ≠ TOK_EOF ∧ type (tok_val t) ≠ TOK_RPAREN).
Proof using.
  destruct e as [o|o j e]; cbn [expr_wf toks]; intros Hw.
  - by apply operand_head.
  - destruct (operand_head o (proj1 Hw)) as (t & ts & -> & H). by eexists _, _.
Qed.

Section Expr.
Context (sub : Lexer → outcome (ASTNode * Lexer)) (k : nat).
Hypothesis sub_read : ∀ e lex ts, expr_wf e → stops ts → ready lex (toks e ++ ts) → (length (toks e) < k)%nat →
  sub lex ⇓ λ '(t, lex'), t = tree e ∧ ready lex' ts.

Lemma operand_read o lex ts :
  operand_wf o → follows ts → ready lex (operand_toks o ++ ts) → (length (operand_toks o) ≤ k)%nat →
  parse_operand A sub lex ⇓ λ '(t, lex'), t = operand_tree o ∧ ready lex' ts.
Proof using Hlen granted sub_read.
  intros Hw Hfo Hr Hk. unfold parse_operand, lex_peek, node_new, xmalloc. destruct o as [p|e];
    cbn [operand_toks operand_wf operand_tree] in *.
  - destruct (pipe_head p Hw) as (t & ts' & E & H & _).
    assert (cur lex = tok_val t) as -> by (rewrite E in Hr; by eapply ready_cur).
    rewrite bool_decide_eq_false_2, granted by done. apply wp_bind.
    eapply wp_mono; [by apply (pipeline_read p _ ts)|]. intros [q lex'] [-> Hr']. by apply wp_ok.
  - cbn [app] in Hr. rewrite <-app_assoc in Hr. rewrite (ready_cur _ _ _ Hr). cbn [tok_val type].
    rewrite bool_decide_eq_true_2 by done. apply wp_bind. eapply wp_mono; [by apply consume_ready|].
    intros [t lex1] [_ Hr1]. apply wp_bind. cbn [length] in Hk. rewrite length_app in Hk. cbn [length] in Hk.
    eapply wp_mono; [apply (sub_read e lex1 ([TOp TOK_RPAREN] ++ ts) Hw I Hr1); lia|]. intros [inner lex2] [-> Hr2].
    cbn [app] in Hr2. rewrite (ready_cur _ _ _ Hr2). cbn [tok_val type]. rewrite bool_decide_eq_true_2 by done.
    apply wp_bind, wp_bind. eapply wp_mono; [by apply consume_ready|]. intros [t3 lex3] [_ Hr3].
    apply wp_ok. rewrite granted. by apply wp_ok.
Qed.

Lemma stops_end lex ts t : ready lex ts → stops ts → expr_step A sub (t, lex) = Ok (inr (t, lex)).
Proof using.
  intros Hr Hs. unfold expr_step, lex_peek. destruct ts as [|t' ts].
  - by rewrite (ready_eof _ Hr).
  - rewrite (ready_cur _ _ _ Hr). by destruct t' as [w|[]].
Qed.

Lemma join_read j e lex ts lhs :
  expr_wf e → stops ts → ready lex (TOp (joint_tok j) :: toks e ++ ts) → (length (toks e) < k)%nat →
  expr_step A sub (lhs, lex) ⇓ λ x, ∃ lex', x = inl (Node (joint_node j) no_pipeline lhs (tree e), lex') ∧ ready lex' ts.
Proof using Hlen granted sub_read.
  intros Hw Hs Hr Hk. unfold expr_step, lex_peek, node_new, xmalloc. rewrite (ready_cur _ _ _ Hr). cbn [tok_val type].
  replace (node_op (joint_tok j)) with (Some (joint_node j)) by (by destruct j).
  apply wp_bind. eapply wp_mono; [by apply consume_ready|]. intros [t lex1] [_ Hr1].
  assert (at_end lex1 = false) as ->.
  { destruct (toks_head e Hw) as (t' & ts' & E & H1 & H2). rewrite E in Hr1. unfold at_end, lex_peek.
    rewrite (ready_cur _ _ _ Hr1). by rewrite !bool_decide_eq_false_2. }
  apply wp_bind. eapply wp_mono; [by apply (sub_read e _ ts)|]. intros [rhs lex2] [-> Hr2].
  rewrite granted. apply wp_ok. by eexists.
Qed.

End Expr.

Lemma expr_read fuel : ∀ e lex ts,
  expr_wf e → stops ts → ready lex (toks e ++ ts) → (length (toks e) < fuel)%nat →
  parse_expr fuel A lex ⇓ λ '(t, lex'), t = tree e ∧ ready lex' ts.
Proof using Hlen granted.
  induction fuel as [|k IH]; intros e lex ts Hw Hs Hr Hk; [lia|]. cbn [parse_expr]. apply wp_bind.
  destruct e as [o|o j e]; cbn [expr_wf toks tree] in *.
  - eapply wp_mono; [apply (operand_read _ k IH o lex ts); [done|by destruct ts as [|[w|[]] ts]|done|lia]|].
    intros [t lex1] [-> Hr1]. apply wp_loop_step. rewrite (stops_end _ _ _ _ Hr1 Hs). by apply wp_ok.
  - rewrite <-app_assoc in Hr. cbn [app] in Hr. rewrite length_app in Hk. cbn [length] in Hk.
    eapply wp_mono; [apply (operand_read _ k IH o lex (TOp (joint_tok j) :: toks e ++ ts) (proj1 Hw)); [by destruct j|exact Hr|lia]|].
    intros [t lex1] [-> Hr1]. apply wp_loop_step.
    eapply wp_mono; [apply (join_read _ k IH j e lex1 ts); [apply Hw|done|done|lia]|].
    intros x (lex2 & -> & Hr2). apply wp_loop_step. rewrite (stops_end _ _ _ _ Hr2 Hs). by apply wp_ok.
Qed.

End Source.

Lemma spelled_start t ts text : spelled (t :: ts) text → ∃ c l, text = c :: l ∧ c ≠ 0.
Proof.
  intros Hsp. inversion Hsp as [|g t' ts' r Hg Ht Hgl _]; subst.
  destruct g as [|c g].
  - destruct t as [w|t]; cbn [tok_src app].
    + destruct (word_head w Ht) as (c & l & E & Hd & _). rewrite E. eexists _, _. split; [done|]. by intros ->.
    + destruct t; cbn; try (by eexists _, _); by destruct r.
  - apply Forall_cons in Hg as [Hc _]. eexists _, _. split; [done|]. by intros ->.
Qed.

(** C5: The parser of the shell, given memory, returns for every well-formed command line
    (pipelines with redirections and background, subshells, and the joints &&, ||, ; and
    newline), in any spelling of its words by bare, escaped and quoted bytes and any blanks,
    exactly the tree of that command line. *)
Theorem shell_parse_roundtrip (A : allocator) (e : expr) (text : list Z) :
  (∀ k n, avail A k n = true) → expr_wf e → spelled (toks e) text → zlen text ≤ MAX_INPUT →
  parse A text = Ok (tree e).
Proof.
  intros HA Hw Hsp Hl. destruct (toks_head e Hw) as (t & ts & Et & _). pose proof Hsp as Hsp'. rewrite Et in Hsp'.
  destruct (spelled_start _ _ _ Hsp') as (c & l & -> & Hc). unfold parse.
  change (zget (c :: l) 0) with (Ok c). cbn [mbind outcome_bind]. rewrite (proj2 (Z.eqb_neq c 0) Hc).
  assert (has (c :: l) 0 (c :: l)) as Hh by (exists [], []; by rewrite app_nil_r).
  destruct (next_ready (c :: l) Hl A HA (mkLexer (c :: l) 0 (mkToken TOK_WORD None) 0) (toks e) (c :: l) eq_refl Hh Hsp)
    as ([t0 lex] & E0 & Hr). unfold lex_init. rewrite E0. cbn [mbind outcome_bind].
  pose proof (ready_length _ _ _ Hr) as Hlen. rewrite (proj1 Hr) in Hlen. rewrite <-(app_nil_r (toks e)) in Hr.
  destruct (expr_read (c :: l) Hl A HA (S (S (length (c :: l)))) e _ [] Hw I Hr ltac:(lia)) as ([t1 lex1] & -> & -> & _).
  done.
Qed.

(** [a 'b c' | d > f && (g)] *)
Definition always : allocator := Build_allocator (λ _ _, true) (λ _ _, 0).
Definition demo : expr :=
  Join (Run (mkPipe [Arg [Bare 97]; Arg [Sq [98; 32; 99]]] [[Arg [Bare 100]; Redir REDIR_OUT [Bare 102]]] false))
    And (One (Sub (One (Run (mkPipe [Arg [Bare 103]] [] false))))).
Definition demo_text : list Z :=
  [97; 32; 39; 98; 32; 99; 39; 124; 100; 32; 62; 102; 32; 38; 38; 40; 103; 41; 0].

Lemma demo_spelled : spelled (toks demo) demo_text.
Proof.
  assert (∀ w, Forall piece_ok w → (zlen (word_text w) <? 4095) = true → word_start (word_src w) → tok_ok (TWord w)) as Hw.
  { intros w H1 H2 H3. split_and!; [done|by apply Z.ltb_lt|done]. }
  assert (∀ c, delimiter c = false → c ≠ 92 → c ≠ 34 → c ≠ 39 → word_start [c] → tok_ok (TWord [Bare c])) as Hb.
  { intros c ? ? ? ? ?. apply Hw; [by apply Forall_singleton|done|done]. }
  apply (spelled_cons [] (TWord [Bare 97]) _ (skipn 1 demo_text)); [constructor|by apply Hb|done|].
  apply (spelled_cons [32] (TWord [Sq [98; 32; 99]]) _ (skipn 7 demo_text)); [by repeat constructor| |done|].
  { apply Hw; [|done|done]. apply Forall_singleton. by repeat constructor. }
  apply (spelled_cons [] (TOp TOK_PIPE) _ (skipn 8 demo_text)); [constructor|done|done|].
  apply (spelled_cons [] (TWord [Bare 100]) _ (skipn 9 demo_text)); [constructor|by apply Hb|done|].
  apply (spelled_cons [32] (TOp TOK_REDIR_OUT) _ (skipn 11 demo_text)); [by repeat constructor|done|done|].
  apply (spelled_cons [] (TWord [Bare 102]) _ (skipn 12 demo_text)); [constructor|by apply Hb|done|].
  apply (spelled_cons [32] (TOp TOK_AND) _ (skipn 15 demo_text)); [by repeat constructor|done|done|].
  apply (spelled_cons [] (TOp TOK_LPAREN) _ (skipn 16 demo_text)); [constructor|done|done|].
  apply (spelled_cons [] (TWord [Bare 103]) _ (skipn 17 demo_text)); [constructor|by apply Hb|done|].
  apply (spelled_cons [] (TOp TOK_RPAREN) _ (skipn 18 demo_text)); [constructor|done|done|].
  apply (spelled_nil []). constructor.
Qed.

Lemma shell_parse_roundtrip_witness : parse always demo_text = Ok (tree demo).
Proof.
  apply shell_parse_roundtrip.
  - reflexivity.
  - assert (∀ c, c ≠ [] → Forall item_ok c → (zlen (argv (cmd_den c)) <? MAX_ARGS) = true →
      (zlen (redirs (cmd_den c)) <=? MAX_REDIRS) = true → cmd_wf c) as Hc.
    { intros c H1 H2 H3 H4. repeat split; [done|done|by apply Z.ltb_lt|by apply Z.leb_le]. }
    repeat split; repeat (apply Forall_cons; split); try apply Forall_nil; try exact I;
      try (apply Hc; [done|repeat constructor|reflexivity|reflexivity]); reflexivity.
  - exact demo_spelled.
  - vm_compute. congruence.
Defined.

(** * What the parser gets wrong *)
Definition cmd (c : Z) : ASTNode := Node NODE_PIPELINE (mkPipeline [mkCmd [Some [c]] []] false) NULL NULL.

(** In [a && b ; c] the last command belongs to the right side of [&&]: it does
    not run when [a] fails. *)
Lemma and_takes_sequence :
  parse always [97; 38; 38; 98; 59; 99; 0] =
  Ok (Node NODE_AND no_pipeline (cmd 97) (Node NODE_SEQ no_pipeline (cmd 98) (cmd 99))).
Proof. reflexivity. Qed.

(** In [a & b] the second command is dropped. *)
Lemma background_drops_rest :
  parse always [97; 38; 98; 0] =
  Ok (Node NODE_PIPELINE (mkPipeline [mkCmd [Some [97]] []] true) NULL NULL).
Proof. reflexivity. Qed.

(** [a>b] is one word: a redirection is not recognised behind a word. *)
Lemma redirect_needs_blank : parse always [97; 62; 98; 0] =
  Ok (Node NODE_PIPELINE (mkPipeline [mkCmd [Some [97; 62; 98]] []] false) NULL NULL).
Proof. reflexivity. Qed.

End ShellClaims.
