(* ===== verification/Draw.v ===== *)
(** Drawing on surfaces (graphics/draw/color.h, graphics/draw/draw.c).

    A pixel is 32 bits, 0xAARRGGBB.  A surface has its own array of pixels: the
    two surfaces of a blit do not overlap.  Coordinates are [int]s, an overflow
    is undefined, and so is an access outside of the array.  Pointer arguments
    are not NULL.  The functions that use floating-point numbers
    (draw_line_thick, draw_fill_ellipse, draw_fill_triangle), the ellipse and
    the release of surfaces are not modelled. *)
From stdpp Require Import base list.
From S2P Require Import Prelude.
From S2P Require Import CLib.
From S2P Require Import KString.
From S2P Require Import Rects.
Import KString.

Module Color.

Definition COLOR_A (c : Z) : Z := Z.land (Z.shiftr c 24) 0xFF.
Definition COLOR_R (c : Z) : Z := Z.land (Z.shiftr c 16) 0xFF.
Definition COLOR_G (c : Z) : Z := Z.land (Z.shiftr c 8) 0xFF.
Definition COLOR_B (c : Z) : Z := Z.land c 0xFF.

Definition COLOR_ARGB (a r g b : Z) : Z :=
  Z.lor (Z.lor (Z.lor (u32 (Z.shiftl (u32 a) 24)) (u32 (Z.shiftl (u32 r) 16))) (u32 (Z.shiftl (u32 g) 8))) (u32 b).

Definition color_with_alpha (color alpha : Z) : Z := Z.lor (Z.land color 0x00FFFFFF) (u32 (Z.shiftl alpha 24)).

(** Division of [int]s rounds towards zero. *)
Definition lerp_channel (a b t : Z) : Z := u8 (a + Z.quot ((b - a) * t) 255).

Definition color_lerp (a b t : Z) : Z :=
  let r := lerp_channel (COLOR_R a) (COLOR_R b) t in
  let g := lerp_channel (COLOR_G a) (COLOR_G b) t in
  let bv := lerp_channel (COLOR_B a) (COLOR_B b) t in
  let av := lerp_channel (COLOR_A a) (COLOR_A b) t in
  COLOR_ARGB av r g bv.

Definition blend_channel (s d sa da : Z) : Z := u8 (u32 (u32 (s * sa) + u32 (d * da)) / 255).

Definition color_blend (dst src : Z) : Z :=
  let sa := COLOR_A src in
  if sa =? 0 then dst
  else if sa =? 255 then src
  else
    let da := u32 (255 - sa) in
    let r := blend_channel (COLOR_R src) (COLOR_R dst) sa da in
    let g := blend_channel (COLOR_G src) (COLOR_G dst) sa da in
    let b := blend_channel (COLOR_B src) (COLOR_B dst) sa da in
    let a := u8 (u32 (sa + u32 (COLOR_A dst * da) / 255)) in
    COLOR_ARGB a r g b.

End Color.

Module Draw.
Import Color.

Record NvSurface := mkSurface { pixels : list Z; width : Z; height : Z; pitch : Z; owns_pixels : bool }.

Definition set_pixels (s : NvSurface) (l : list Z) : NvSurface :=
  mkSurface l (width s) (height s) (pitch s) (owns_pixels s).

(** [sizeof(NvSurface)] *)
Definition SURFACE_SIZE : Z := 24.

(** The [k]-th and the next request of the program. *)
Definition surface_new (A : allocator) (k : nat) (w h : Z) : outcome (option NvSurface) :=
  if (w <=? 0) || (h <=? 0) then Ok None
  else if negb (avail A k SURFACE_SIZE) then Ok None
  else
    n ← int (w * h);
    if negb (avail A (S k) (n * 4)) then Ok None
    else Ok (Some (mkSurface (replicate (Z.to_nat n) 0) w h w true)).

Definition surface_from_pixels (A : allocator) (k : nat) (pixels : list Z) (w h pitch : Z) : option NvSurface :=
  if negb (avail A k SURFACE_SIZE) then None
  else Some (mkSurface pixels w h (if 0 <? pitch then pitch else w) false).

(** [s->pixels[i] = v] *)
Definition put (s : NvSurface) (i v : Z) : outcome NvSurface :=
  l ← zset (pixels s) i v; Ok (set_pixels s l).

Definition surface_clear (s : NvSurface) (color : Z) : outcome NvSurface :=
  total ← int (pitch s * height s);
  for_each 0 total (λ i s, put s i color) s.

(** [memcpy] of [n] pixels between the arrays of two surfaces. *)
Definition copy_row (dst : NvSurface) (d : Z) (src : NvSurface) (sp n : Z) : outcome NvSurface :=
  if decide (0 ≤ n ∧ 0 ≤ d ∧ 0 ≤ sp ∧ d + n ≤ zlen (pixels dst) ∧ sp + n ≤ zlen (pixels src))
  then Ok (set_pixels dst (splice (pixels dst) d (slice (pixels src) sp n))) else Undef.

(** The offset of a pixel in the array. *)
Definition offset (s : NvSurface) (x y : Z) : outcome Z := o ← int (y * pitch s); Ok (o + x).

Definition surface_clone (A : allocator) (k : nat) (s : NvSurface) : outcome (option NvSurface) :=
  c ← surface_new A k (width s) (height s);
  match c with
  | None => Ok None
  | Some c =>
      c ← for_each 0 (height s) (λ y c,
            d ← offset c 0 y; o ← offset s 0 y; copy_row c d s o (width s)) c;
      Ok (Some c)
  end.

(** Moves a start that is negative to 0, and the other start and the length with it. *)
Definition clip_low (a b w : Z) : outcome (Z * Z * Z) :=
  if a <? 0 then b ← int (b - a); w ← int (w + a); Ok (0, b, w) else Ok (a, b, w).
(** Shortens a length to end before [lim]. *)
Definition clip_high (a w lim : Z) : outcome Z :=
  e ← int (a + w); if lim <? e then int (lim - a) else Ok w.

Definition surface_blit (dst src : NvSurface) (dx dy sx sy w h : Z) : outcome NvSurface :=
  '(dx, sx, w) ← clip_low dx sx w;
  '(dy, sy, h) ← clip_low dy sy h;
  '(sx, dx, w) ← clip_low sx dx w;
  '(sy, dy, h) ← clip_low sy dy h;
  w ← clip_high dx w (width dst);
  h ← clip_high dy h (height dst);
  w ← clip_high sx w (width src);
  h ← clip_high sy h (height src);
  if (w <=? 0) || (h <=? 0) then Ok dst
  else
    for_each 0 h (λ row dst,
      yd ← int (dy + row); ys ← int (sy + row);
      d ← offset dst dx yd; o ← offset src sx ys; copy_row dst d src o w) dst.

Definition surface_blit_alpha (dst src : NvSurface) (dx dy sx sy w h : Z) : outcome NvSurface :=
  '(dx, sx, w) ← clip_low dx sx w;
  '(dy, sy, h) ← clip_low dy sy h;
  w ← clip_high dx w (width dst);
  h ← clip_high dy h (height dst);
  if (w <=? 0) || (h <=? 0) then Ok dst
  else
    for_each 0 h (λ row dst,
      for_each 0 w (λ col dst,
        ys ← int (sy + row); xs ← int (sx + col);
        o ← int (ys * pitch src); o ← int (o + xs); sp ← zget (pixels src) o;
        yd ← int (dy + row); xd ← int (dx + col);
        d ← int (yd * pitch dst); d ← int (d + xd); dp ← zget (pixels dst) d;
        put dst d (color_blend dp sp)) dst) dst.

(** * Pixels *)
Definition on_surface (s : NvSurface) (x y : Z) : bool :=
  negb ((x <? 0) || (y <? 0) || (width s <=? x) || (height s <=? y)).

Definition draw_pixel (s : NvSurface) (x y color : Z) : outcome NvSurface :=
  if negb (on_surface s x y) then Ok s
  else
    o ← int (y * pitch s); o ← int (o + x);
    if COLOR_A color =? 255 then put s o color
    else if COLOR_A color =? 0 then Ok s
    else p ← zget (pixels s) o; put s o (color_blend p color).

Definition draw_get_pixel (s : NvSurface) (x y : Z) : outcome Z :=
  if negb (on_surface s x y) then Ok 0
  else o ← int (y * pitch s); o ← int (o + x); zget (pixels s) o.

(** * Lines along an axis *)
Definition draw_hline (s : NvSurface) (x y w color : Z) : outcome NvSurface :=
  if (w <=? 0) || (y <? 0) || (height s <=? y) then Ok s
  else
    '(x, w) ← (if x <? 0 then w ← int (w + x); Ok (0, w) else Ok (x, w));
    w ← clip_high x w (width s);
    if w <=? 0 then Ok s
    else
      row ← offset s x y;
      if COLOR_A color =? 255 then for_each 0 w (λ i s, put s (row + i) color) s
      else for_each 0 w (λ i s, p ← zget (pixels s) (row + i); put s (row + i) (color_blend p color)) s.

Definition draw_vline (s : NvSurface) (x y h color : Z) : outcome NvSurface :=
  if (h <=? 0) || (x <? 0) || (width s <=? x) then Ok s
  else
    '(y, h) ← (if y <? 0 then h ← int (h + y); Ok (0, h) else Ok (y, h));
    h ← clip_high y h (height s);
    if h <=? 0 then Ok s
    else
      for_each 0 h (λ i s,
        yi ← int (y + i); o ← int (yi * pitch s); o ← int (o + x);
        if COLOR_A color =? 255 then put s o color
        else p ← zget (pixels s) o; put s o (color_blend p color)) s.

(** * Rectangles *)
Definition draw_fill_rect (s : NvSurface) (r : NvRect) (color : Z) : outcome NvSurface :=
  if (rw r <=? 0) || (rh r <=? 0) then Ok s
  else
    x1 ← int (rx r + rw r); y1 ← int (ry r + rh r);
    let x0 := if rx r <? 0 then 0 else rx r in
    let y0 := if ry r <? 0 then 0 else ry r in
    let x1 := if width s <? x1 then width s else x1 in
    let y1 := if height s <? y1 then height s else y1 in
    if (x1 <=? x0) || (y1 <=? y0) then Ok s
    else if COLOR_A color =? 255 then
      for_each y0 y1 (λ y s,
        row ← offset s x0 y; w ← int (x1 - x0);
        for_each 0 w (λ i s, put s (row + i) color) s) s
    else
      for_each y0 y1 (λ y s,
        for_each x0 x1 (λ x s,
          o ← int (y * pitch s); o ← int (o + x);
          p ← zget (pixels s) o; put s o (color_blend p color)) s) s.

Definition draw_fill_rect_alpha (s : NvSurface) (r : NvRect) (color : Z) : outcome NvSurface :=
  draw_fill_rect s r color.

Definition draw_rect (s : NvSurface) (r : NvRect) (color : Z) : outcome NvSurface :=
  s ← draw_hline s (rx r) (ry r) (rw r) color;
  y ← int (ry r + rh r); y ← int (y - 1); s ← draw_hline s (rx r) y (rw r) color;
  s ← draw_vline s (rx r) (ry r) (rh r) color;
  x ← int (rx r + rw r); x ← int (x - 1); draw_vline s x (ry r) (rh r) color.

Definition draw_rect_thick (s : NvSurface) (r : NvRect) (color t : Z) : outcome NvSurface :=
  if t <=? 0 then Ok s
  else
    for_each 0 t (λ i s,
      x ← int (rx r + i); y ← int (ry r + i);
      i2 ← int (i * 2); w ← int (rw r - i2); h ← int (rh r - i2);
      draw_rect s (mkRect x y w h) color) s.

Definition draw_fill_rounded_rect (s : NvSurface) (r : NvRect) (color radius : Z) : outcome NvSurface :=
  if radius <=? 0 then draw_fill_rect s r color
  else
    let max_r := Z.quot (if rw r <? rh r then rw r else rh r) 2 in
    let radius := if max_r <? radius then max_r else radius in
    y0 ← int (ry r + radius); r2 ← int (radius * 2); h ← int (rh r - r2);
    s ← draw_fill_rect s (mkRect (rx r) y0 (rw r) h) color;
    x0 ← int (rx r + radius); w ← int (rw r - r2);
    s ← draw_fill_rect s (mkRect x0 (ry r) w radius) color;
    yb ← int (ry r + rh r); yb ← int (yb - radius);
    s ← draw_fill_rect s (mkRect x0 yb w radius) color;
    xr ← int (rx r + rw r); xr ← int (xr - radius); xr ← int (xr - 1);
    yl ← int (yb - 1);
    for_each 0 (radius + 1) (λ dy s,
      for_each 0 (radius + 1) (λ dx s,
        dx2 ← int (dx * dx); dy2 ← int (dy * dy); q ← int (dx2 + dy2); rr ← int (radius * radius);
        if q <=? rr then
          xa ← int (x0 - dx); ya ← int (y0 - dy); s ← draw_pixel s xa ya color;
          xb ← int (xr + dx); s ← draw_pixel s xb ya color;
          yc ← int (yl + dy); s ← draw_pixel s xa yc color;
          draw_pixel s xb yc color
        else Ok s) s) s.

(** * Lines *)

(** One round of the loop of [draw_line]: where the pen is, and the error. *)
Definition line_step (x1 y1 dx dy sx sy color : Z) (st : NvSurface * Z * Z * Z)
  : outcome ((NvSurface * Z * Z * Z) + NvSurface) :=
  let '(s, x0, y0, err) := st in
  s ← draw_pixel s x0 y0 color;
  if (x0 =? x1) && (y0 =? y1) then Ok (inr s)
  else
    e2 ← int (2 * err);
    ndy ← int (- dy);
    '(err, x0) ← (if ndy <? e2 then err ← int (err - dy); x0 ← int (x0 + sx); Ok (err, x0) else Ok (err, x0));
    '(err, y0) ← (if e2 <? dx then err ← int (err + dx); y0 ← int (y0 + sy); Ok (err, y0) else Ok (err, y0));
    Ok (inl (s, x0, y0, err)).

(** No line has more points than the sum of its extents and one. *)
Definition draw_line (s : NvSurface) (x0 y0 x1 y1 color : Z) : outcome NvSurface :=
  dx ← int (x1 - x0); dx ← int (Z.abs dx);
  dy ← int (y1 - y0); dy ← int (Z.abs dy);
  let sx := if x0 <? x1 then 1 else -1 in
  let sy := if y0 <? y1 then 1 else -1 in
  err ← int (dx - dy);
  loop (S (S (Z.to_nat (dx + dy)))) (line_step x1 y1 dx dy sx sy color) (s, x0, y0, err).

Definition draw_triangle (s : NvSurface) (x0 y0 x1 y1 x2 y2 color : Z) : outcome NvSurface :=
  s ← draw_line s x0 y0 x1 y1 color;
  s ← draw_line s x1 y1 x2 y2 color;
  draw_line s x2 y2 x0 y0 color.

(** * Circles *)
Definition draw_pixels (s : NvSurface) (l : list (Z * Z)) (color : Z) : outcome NvSurface :=
  foldl (λ m '(x, y), s ← m; x ← int x; y ← int y; draw_pixel s x y color) (Ok s) l.

(** The decision variable: the next [d] and [y]. *)
Definition circle_next (x y d : Z) : outcome (Z * Z) :=
  if d <? 0 then q ← int (4 * x); q ← int (q + 6); d ← int (d + q); Ok (d, y)
  else
    xy ← int (x - y); q ← int (4 * xy); q ← int (q + 10); d ← int (d + q); y ← int (y - 1); Ok (d, y).

Definition circle_step (cx cy color : Z) (st : NvSurface * Z * Z * Z)
  : outcome ((NvSurface * Z * Z * Z) + NvSurface) :=
  let '(s, x, y, d) := st in
  if negb (x <=? y) then Ok (inr s)
  else
    s ← draw_pixels s [(cx + x, cy + y); (cx - x, cy + y); (cx + x, cy - y); (cx - x, cy - y);
                       (cx + y, cy + x); (cx - y, cy + x); (cx + y, cy - x); (cx - y, cy - x)] color;
    '(d, y) ← circle_next x y d;
    x ← int (x + 1);
    Ok (inl (s, x, y, d)).

(** The eight arcs of the corners of a rounded rectangle. *)
Definition round_step (xl yt xr yb color : Z) (st : NvSurface * Z * Z * Z)
  : outcome ((NvSurface * Z * Z * Z) + NvSurface) :=
  let '(s, x, y, d) := st in
  if negb (x <=? y) then Ok (inr s)
  else
    s ← draw_pixels s [(xl - x, yt - y); (xl - y, yt - x); (xr + x, yt - y); (xr + y, yt - x);
                       (xl - x, yb + y); (xl - y, yb + x); (xr + x, yb + y); (xr + y, yb + x)] color;
    '(d, y) ← circle_next x y d;
    x ← int (x + 1);
    Ok (inl (s, x, y, d)).

Definition draw_rounded_rect (s : NvSurface) (r : NvRect) (color radius : Z) : outcome NvSurface :=
  if radius <=? 0 then draw_rect s r color
  else
    let x0 := rx r in let y0 := ry r in
    x1 ← int (rx r + rw r); x1 ← int (x1 - 1); y1 ← int (ry r + rh r); y1 ← int (y1 - 1);
    xl ← int (x0 + radius); r2 ← int (2 * radius); w ← int (rw r - r2);
    s ← draw_hline s xl y0 w color;
    s ← draw_hline s xl y1 w color;
    yt ← int (y0 + radius); h ← int (rh r - r2);
    s ← draw_vline s x0 yt h color;
    s ← draw_vline s x1 yt h color;
    xr ← int (x1 - radius); yb ← int (y1 - radius);
    d ← int (3 - r2);
    loop (S (S (Z.to_nat radius))) (round_step xl yt xr yb color) (s, 0, radius, d).

Definition draw_circle (s : NvSurface) (cx cy r color : Z) : outcome NvSurface :=
  if r <=? 0 then Ok s
  else
    r2 ← int (2 * r); d ← int (3 - r2);
    loop (S (S (Z.to_nat r))) (circle_step cx cy color) (s, 0, r, d).

Definition fill_circle_step (cx cy color : Z) (st : NvSurface * Z * Z * Z)
  : outcome ((NvSurface * Z * Z * Z) + NvSurface) :=
  let '(s, x, y, d) := st in
  if negb (x <=? y) then Ok (inr s)
  else
    xl ← int (cx - x); yd ← int (cy + y); w ← int (2 * x); w ← int (w + 1);
    s ← draw_hline s xl yd w color;
    yu ← int (cy - y); s ← draw_hline s xl yu w color;
    xl ← int (cx - y); yd ← int (cy + x); w ← int (2 * y); w ← int (w + 1);
    s ← draw_hline s xl yd w color;
    yu ← int (cy - x); s ← draw_hline s xl yu w color;
    '(d, y) ← circle_next x y d;
    x ← int (x + 1);
    Ok (inl (s, x, y, d)).

Definition draw_fill_circle (s : NvSurface) (cx cy r color : Z) : outcome NvSurface :=
  if r <=? 0 then Ok s
  else
    r2 ← int (2 * r); d ← int (3 - r2);
    loop (S (S (Z.to_nat r))) (fill_circle_step cx cy color) (s, 0, r, d).

(** * Gradients, copies and images *)

(** Division of [int]s: by zero it is undefined. *)
Definition idiv (a b : Z) : outcome Z := if b =? 0 then Undef else int (Z.quot a b).

Definition draw_gradient_h (s : NvSurface) (r : NvRect) (l rt : Z) : outcome NvSurface :=
  y1 ← int (ry r + rh r);
  for_each (ry r) y1 (λ y s,
    for_each 0 (rw r) (λ x s,
      a ← int (x * 255); b ← int (rw r - 1); t ← idiv a b;
      px ← int (rx r + x); draw_pixel s px y (color_lerp l rt (u8 t))) s) s.

Definition draw_gradient_v (s : NvSurface) (r : NvRect) (top bottom : Z) : outcome NvSurface :=
  for_each 0 (rh r) (λ y s,
    a ← int (y * 255); b ← int (rh r - 1); t ← idiv a b;
    py ← int (ry r + y); draw_hline s (rx r) py (rw r) (color_lerp top bottom (u8 t))) s.

Definition move_row (s : NvSurface) (dx dy sx sy w row : Z) : outcome NvSurface :=
  yd ← int (dy + row); ys ← int (sy + row);
  d ← offset s dx yd; o ← offset s sx ys; l ← c_memmove (pixels s) d o w; Ok (set_pixels s l).

(** The rows from the last to the first, or from the first to the last. *)
Definition draw_copy_region (s : NvSurface) (dx dy sx sy w h : Z) : outcome NvSurface :=
  if sy <? dy then last ← int (h - 1); for_each 0 h (λ i s, move_row s dx dy sx sy w (last - i)) s
  else for_each 0 h (λ row s, move_row s dx dy sx sy w row) s.

(** The scaled coordinate [p * src / dst], inside the source. *)
Definition scale (p src dst : Z) : outcome Z :=
  a ← int (p * src); q ← idiv a dst; if src <=? q then int (src - 1) else Ok q.

Definition draw_image_scaled (dst : NvSurface) (src : list Z) (src_w src_h dst_x dst_y dst_w dst_h : Z)
  : outcome NvSurface :=
  if (dst_w <=? 0) || (dst_h <=? 0) then Ok dst
  else
    for_each 0 dst_h (λ py dst,
      sy ← scale py src_h dst_h;
      for_each 0 dst_w (λ px dst,
        sx ← scale px src_w dst_w;
        o ← int (sy * src_w); o ← int (o + sx); c ← zget src o;
        x ← int (dst_x + px); y ← int (dst_y + py); draw_pixel dst x y c) dst) dst.

Definition rect_contains (r : NvRect) (x y : Z) : outcome bool :=
  if negb (rx r <=? x) then Ok false
  else
    x2 ← int (rx r + rw r);
    if negb (x <? x2) then Ok false
    else if negb (ry r <=? y) then Ok false
    else y2 ← int (ry r + rh r); Ok (y <? y2).

Definition rect_empty (r : NvRect) : bool := (rw r <=? 0) || (rh r <=? 0).

End Draw.
