(* ===== verification/DrawPaint.v ===== *)
(** What a drawing function does to a surface: the pixels of a set are blended
    with the colour, all others stay as they are. *)
From stdpp Require Import base list.
From S2P Require Import Prelude.
From S2P Require Import KString.
From S2P Require Import CLib.
From S2P Require Import Rects.
From S2P Require Import Draw.
Import Color Draw.

Module DrawPaint.

(** * Surfaces *)
Definition DIM : Z := 16384.
Record wf (s : NvSurface) : Prop := mk_wf {
  wf_w : 0 ≤ width s ≤ pitch s;
  wf_p : pitch s ≤ DIM;
  wf_h : 0 ≤ height s ≤ DIM;
  wf_len : zlen (pixels s) = pitch s * height s }.

Definition same_size (s s' : NvSurface) : Prop :=
  width s' = width s ∧ height s' = height s ∧ pitch s' = pitch s.

(** The pixel in column [x] of row [y], the padding behind the rows included. *)
Definition px (s : NvSurface) (x y : Z) : option Z := pixels s !! Z.to_nat (y * pitch s + x).
Definition in_rows (s : NvSurface) (x y : Z) : Prop := 0 ≤ x < pitch s ∧ 0 ≤ y < height s.

(** [s'] is [s] with the pixels in [P] blended with [c]. *)
Definition painted (c : Z) (P : Z → Z → bool) (s s' : NvSurface) : Prop :=
  wf s' ∧ same_size s s' ∧
  ∀ x y, in_rows s x y → px s' x y = if P x y then (λ p, color_blend p c) <$> px s x y else px s x y.

Lemma pixel_index_range p h x y : 0 ≤ x < p → 0 ≤ y < h → 0 ≤ y * p + x < p * h.
Proof. intros. nia. Qed.
Lemma pixel_index_inj p x y x' y' : 0 ≤ x < p → 0 ≤ x' < p → y * p + x = y' * p + x' → x = x' ∧ y = y'.
Proof. intros. assert (y = y') by nia. subst. lia. Qed.

Lemma painted_wf c P s s' : painted c P s s' → wf s'.
Proof. by intros []. Qed.
Lemma painted_size c P s s' : painted c P s s' → same_size s s'.
Proof. by intros (_ & ? & _). Qed.
Lemma same_size_trans s1 s2 s3 : same_size s1 s2 → same_size s2 s3 → same_size s1 s3.
Proof. unfold same_size. intuition congruence. Qed.
Lemma in_rows_size s s' x y : same_size s s' → in_rows s x y → in_rows s' x y.
Proof. unfold same_size, in_rows. intros (_ & -> & ->). done. Qed.

Lemma painted_none c s : wf s → painted c (λ _ _, false) s s.
Proof. done. Qed.

Lemma painted_ext c P Q s s' :
  (∀ x y, in_rows s x y → P x y = Q x y) → painted c P s s' → painted c Q s s'.
Proof. intros HPQ (H1 & H2 & H3). split_and!; [done..|]. intros x y Hxy. rewrite <-HPQ by done. auto. Qed.

(** Disjoint sets painted one after the other. *)
Lemma painted_app c P Q s1 s2 s3 :
  (∀ x y, in_rows s1 x y → P x y = true → Q x y = false) →
  painted c P s1 s2 → painted c Q s2 s3 → painted c (λ x y, P x y || Q x y) s1 s3.
Proof.
  intros Hd (_ & H2 & H3) (K1 & K2 & K3). split_and!; [done|by eapply same_size_trans|].
  intros x y Hxy. rewrite K3 by (by eapply in_rows_size). rewrite H3 by done.
  specialize (Hd x y Hxy). destruct (P x y), (Q x y); try done. by specialize (Hd eq_refl).
Qed.

Definition here (x y : Z) (x' y' : Z) : bool := (x' =? x) && (y' =? y).

Lemma put_pixel_ok s x y v :
  wf s → in_rows s x y →
  put s (y * pitch s + x) v ⇓ λ s', wf s' ∧ same_size s s' ∧
    ∀ x' y', in_rows s x' y' → px s' x' y' = if here x y x' y' then Some v else px s x' y'.
Proof.
  intros [Hw Hp Hh Hl] [Hx Hy]. pose proof (pixel_index_range _ _ _ _ Hx Hy) as Hi. unfold put.
  rewrite zset_ok by lia. cbn [mbind outcome_bind]. apply wp_ok. split_and!.
  - split; cbn; [done..|]. unfold zlen. by rewrite length_insert.
  - done.
  - intros x' y' [Hx' Hy']. unfold px, here. cbn [pixels set_pixels pitch].
    pose proof (pixel_index_range _ _ _ _ Hx' Hy').
    destruct (Z.eqb_spec x' x) as [->|Hn]; cbn [andb]; [destruct (Z.eqb_spec y' y) as [->|Hn]|].
    + apply list_lookup_insert_eq. unfold zlen in Hl. lia.
    + apply list_lookup_insert_ne. intros E. apply Hn. eapply (pixel_index_inj (pitch s) x y' x y); lia.
    + apply list_lookup_insert_ne. intros E. apply Hn. eapply (pixel_index_inj (pitch s) x' y' x y); lia.
Qed.

Lemma px_some s x y : wf s → in_rows s x y → ∃ p, px s x y = Some p ∧ zget (pixels s) (y * pitch s + x) = Ok p.
Proof.
  intros [Hw Hp Hh Hl] [Hx Hy]. pose proof (pixel_index_range _ _ _ _ Hx Hy).
  destruct (zget_in (pixels s) (y * pitch s + x)) as [p E]; [lia|]. exists p. split; [done|].
  apply zget_ok; [lia|done].
Qed.

(** Storing the blended colour, or the colour itself when it is opaque. *)
Lemma blend_opaque p c : COLOR_A c = 255 → color_blend p c = c.
Proof. intros H. unfold color_blend. by rewrite H. Qed.
Lemma blend_clear p c : COLOR_A c = 0 → color_blend p c = p.
Proof. intros H. unfold color_blend. by rewrite H. Qed.

Lemma put_blend s x y c :
  wf s → in_rows s x y →
  (p ← zget (pixels s) (y * pitch s + x); put s (y * pitch s + x) (color_blend p c)) ⇓ painted c (here x y) s.
Proof.
  intros Hw Hxy. destruct (px_some s x y Hw Hxy) as (p & Hp & ->). cbn [mbind outcome_bind].
  eapply wp_mono; [by apply put_pixel_ok|]. intros s' (H1 & H2 & H3). split_and!; [done..|].
  intros x' y' H. rewrite H3 by done. unfold here.
  destruct (Z.eqb_spec x' x) as [->|]; [destruct (Z.eqb_spec y' y) as [->|]|]; cbn [andb]; [by rewrite Hp|done..].
Qed.

Lemma put_opaque s x y c :
  wf s → in_rows s x y → COLOR_A c = 255 → put s (y * pitch s + x) c ⇓ painted c (here x y) s.
Proof.
  intros Hw Hxy Hc. destruct (put_blend s x y c Hw Hxy) as (s' & E & H).
  destruct (px_some s x y Hw Hxy) as (p & Hp & Ez). rewrite Ez in E. cbn [mbind outcome_bind] in E.
  rewrite blend_opaque in E by done. by exists s'.
Qed.

(** Offsets of pixels are [int]s. *)
Lemma row_int s y : wf s → 0 ≤ y < height s → int (y * pitch s) = Ok (y * pitch s).
Proof. intros [Hw Hp Hh _] Hy. unfold DIM in *. apply int_ok. nia. Qed.
Lemma offset_int s x y : wf s → in_rows s x y → int (y * pitch s + x) = Ok (y * pitch s + x).
Proof. intros [Hw Hp Hh _] [Hx Hy]. unfold DIM in *. apply int_ok. nia. Qed.

(** * Loops *)
Lemma wp_paint c (Q : Z → Z → Z → bool) lo hi body s :
  lo ≤ hi → wf s → (∀ x y, in_rows s x y → Q lo x y = false) →
  (∀ i x y, lo ≤ i < hi → Q i x y = true → Q (i + 1) x y = true) →
  (∀ i s', lo ≤ i < hi → wf s' → same_size s s' →
     body i s' ⇓ painted c (λ x y, Q (i + 1) x y && negb (Q i x y)) s') →
  for_each lo hi body s ⇓ painted c (Q hi) s.
Proof.
  intros Hle Hw H0 Hmono Hbody. apply (wp_for_each (λ i, painted c (Q i) s)); [done| | |done].
  - apply (painted_ext c (λ _ _, false)); [intros; by rewrite H0|by apply painted_none].
  - intros i s1 Hi HP. eapply wp_mono; [apply Hbody; [done|by eapply painted_wf|by eapply painted_size]|].
    intros s2 HP2. eapply painted_ext; [|eapply painted_app; [|exact HP|exact HP2]].
    + intros x y _. cbv beta. pose proof (Hmono i x y Hi). destruct (Q i x y), (Q (i + 1) x y); try done. by symmetry; auto.
    + intros x y _ HQ. cbv beta. rewrite HQ. apply andb_false_r.
Qed.

End DrawPaint.

(** Pixels, lines along an axis and filled rectangles paint exactly the part of
    the shape that lies on the surface. *)
Import Color Draw.

Module DrawShapes.
Import DrawPaint.

(** Coordinates whose sums are [int]s. *)
Definition small (x : Z) : Prop := Z.abs x < 2 ^ 28.

Definition visible (s : NvSurface) (x y : Z) : bool := on_surface s x y.

Lemma visible_spec s x y : on_surface s x y = true ↔ (0 ≤ x < width s ∧ 0 ≤ y < height s).
Proof. unfold on_surface. rewrite negb_true_iff, !orb_false_iff, !Z.ltb_ge, !Z.leb_gt. lia. Qed.

Lemma visible_rows s x y : wf s → on_surface s x y = true → in_rows s x y.
Proof. intros [Hw _ _ _] H%visible_spec. unfold in_rows. lia. Qed.

Lemma visible_size s s' x y : same_size s s' → on_surface s' x y = on_surface s x y.
Proof. intros (H1 & H2 & _). unfold on_surface. by rewrite H1, H2. Qed.

(** Decides two boolean descriptions of a set of pixels equal. *)
Ltac sets := intros; cbv beta; apply eq_true_iff_eq; unfold here;
  rewrite ?andb_true_iff, ?orb_true_iff, ?negb_true_iff, ?andb_false_iff, ?visible_spec,
    ?Z.eqb_eq, ?Z.leb_le, ?Z.ltb_lt, ?Z.leb_gt, ?Z.ltb_ge in *; unfold in_rows in *; lia.

Lemma pixel_paint s x y c :
  wf s → draw_pixel s x y c ⇓ painted c (λ x' y', here x y x' y' && on_surface s x' y') s.
Proof.
  intros Hw. unfold draw_pixel. destruct (on_surface s x y) eqn:Ho; cbn [negb].
  - pose proof (visible_rows s x y Hw Ho) as Hr. rewrite row_int by (done || apply Hr). cbn [mbind outcome_bind].
    rewrite offset_int by done. cbn [mbind outcome_bind].
    assert (∀ m, m ⇓ painted c (here x y) s →
      m ⇓ painted c (λ x' y', here x y x' y' && on_surface s x' y') s) as Hm.
    { intros m Hm. eapply wp_mono; [exact Hm|]. intros s' Hs'. eapply painted_ext; [|exact Hs'].
      intros x' y' _. cbv beta. unfold here.
      destruct (Z.eqb_spec x' x) as [->|]; [destruct (Z.eqb_spec y' y) as [->|]|]; cbn [andb]; done. }
    apply Hm. destruct (Z.eqb_spec (COLOR_A c) 255); [by apply put_opaque|].
    destruct (Z.eqb_spec (COLOR_A c) 0); [|by apply put_blend].
    apply wp_ok. split_and!; [done..|]. intros x' y' _. destruct (here x y x' y'); [|done].
    destruct (px s x' y'); [|done]. cbn. by rewrite blend_clear.
  - apply wp_ok. eapply painted_ext; [|by apply painted_none]. intros x' y' _. cbv beta. unfold here.
    destruct (Z.eqb_spec x' x) as [->|]; [destruct (Z.eqb_spec y' y) as [->|]|]; cbn [andb]; done.
Qed.

(** A run of pixels of one row. *)
Definition run (x y n : Z) (x' y' : Z) : bool := (y' =? y) && (x <=? x') && (x' <? x + n).

Lemma row_paint s x y n c (body : Z → NvSurface → outcome NvSurface) :
  wf s → 0 ≤ y < height s → 0 ≤ x → 0 ≤ n → x + n ≤ pitch s →
  (∀ i s', 0 ≤ i < n → wf s' → same_size s s' → body i s' ⇓ painted c (here (x + i) y) s') →
  for_each 0 n body s ⇓ painted c (run x y n) s.
Proof.
  intros Hw Hy Hx Hn Hp Hbody. apply (wp_paint c (λ i, run x y i)); [done|done| | |].
  - unfold run. sets.
  - unfold run. intros i x' y' Hi. rewrite !andb_true_iff, !Z.ltb_lt, Z.leb_le. lia.
  - intros i s' Hi Hw' Hs. eapply wp_mono; [by apply Hbody|]. intros s2 H2.
    eapply painted_ext; [|exact H2]. unfold run. sets.
Qed.

(** Writing [row[i]] in one of the two ways of the source. *)
Lemma opaque_body s x y i c s' :
  COLOR_A c = 255 → wf s' → same_size s s' → in_rows s (x + i) y →
  put s' (y * pitch s + x + i) c ⇓ painted c (here (x + i) y) s'.
Proof.
  intros Hc Hw Hs Hr. destruct Hs as (H1 & H2 & H3). rewrite <-H3.
  replace (y * pitch s' + x + i) with (y * pitch s' + (x + i)) by lia.
  apply put_opaque; [done| |done]. unfold in_rows in *. by rewrite H2, H3.
Qed.
Lemma blend_body s x y i c s' :
  wf s' → same_size s s' → in_rows s (x + i) y →
  (p ← zget (pixels s') (y * pitch s + x + i); put s' (y * pitch s + x + i) (color_blend p c))
    ⇓ painted c (here (x + i) y) s'.
Proof.
  intros Hw Hs Hr. destruct Hs as (H1 & H2 & H3). rewrite <-H3.
  replace (y * pitch s' + x + i) with (y * pitch s' + (x + i)) by lia.
  apply put_blend; [done|]. unfold in_rows in *. by rewrite H2, H3.
Qed.

Definition hline (s : NvSurface) (x y w : Z) (x' y' : Z) : bool :=
  (y' =? y) && (x <=? x') && (x' <? x + w) && on_surface s x' y'.

Lemma nothing_painted c P s : wf s → (∀ x y, in_rows s x y → P x y = false) → Ok s ⇓ painted c P s.
Proof. intros Hw HP. apply wp_ok. eapply painted_ext; [|by apply painted_none]. intros; by rewrite HP. Qed.

Lemma clip_high_ok a w lim :
  small a → 0 ≤ lim ≤ DIM → small w →
  clip_high a w lim = Ok (Z.min w (lim - a)).
Proof.
  unfold small, DIM. intros Ha Hl Hw. unfold clip_high. rewrite (int_ok (a + w)) by lia. cbn [mbind outcome_bind].
  destruct (Z.ltb_spec lim (a + w)); [rewrite (int_ok (lim - a)) by lia|]; f_equal; lia.
Qed.

(** A start below 0 moved to 0. *)
Lemma clip_start a w :
  small a → small w →
  (if a <? 0 then w ← int (w + a); Ok (0, w) else Ok (a, w)) = Ok (Z.max 0 a, Z.min w (w + a)).
Proof.
  unfold small. intros Ha Hw. destruct (Z.ltb_spec a 0); [rewrite int_ok by lia; cbn [mbind outcome_bind]|];
    do 2 f_equal; lia.
Qed.

Lemma not_on s x y : on_surface s x y = false ↔ ¬ (0 ≤ x < width s ∧ 0 ≤ y < height s).
Proof. rewrite <-visible_spec. by destruct (on_surface s x y). Qed.

Lemma hline_paint s x y w c :
  wf s → small x → small y → small w → draw_hline s x y w c ⇓ painted c (hline s x y w) s.
Proof.
  intros Hw Hx Hy Hww. pose proof Hw as [W1 W2 W3 _]. unfold draw_hline, DIM in *.
  destruct ((w <=? 0) || (y <? 0) || (height s <=? y)) eqn:E.
  { apply nothing_painted; [done|]. intros x' y' _. unfold hline.
    rewrite !orb_true_iff, !Z.leb_le, Z.ltb_lt in E. apply not_true_iff_false.
    rewrite !andb_true_iff, Z.eqb_eq, Z.leb_le, Z.ltb_lt, visible_spec. lia. }
  rewrite !orb_false_iff, !Z.leb_gt, Z.ltb_ge in E. destruct E as [[E1 E2] E3].
  rewrite clip_start by done. cbn [mbind outcome_bind].
  rewrite clip_high_ok by (unfold small, DIM in *; lia). cbn [mbind outcome_bind].
  set (n := Z.min _ _). destruct (Z.leb_spec n 0).
  { apply nothing_painted; [done|]. intros x' y' _. unfold hline. apply not_true_iff_false.
    rewrite !andb_true_iff, Z.eqb_eq, Z.leb_le, Z.ltb_lt, visible_spec. lia. }
  unfold offset. rewrite row_int by (done || lia). cbn [mbind outcome_bind].
  assert (∀ m, m ⇓ painted c (run (Z.max 0 x) y n) s → m ⇓ painted c (hline s x y w) s) as Hm.
  { intros m Hm. eapply wp_mono; [exact Hm|]. intros s' Hs'. eapply painted_ext; [|exact Hs'].
    unfold run, hline. sets. }
  apply Hm. destruct (Z.eqb_spec (COLOR_A c) 255).
  - apply row_paint; [done|lia|lia|lia|lia|]. intros i s' Hi Hw' Hs. apply opaque_body; try done. unfold in_rows. lia.
  - apply row_paint; [done|lia|lia|lia|lia|]. intros i s' Hi Hw' Hs. apply blend_body; try done. unfold in_rows. lia.
Qed.

Definition vline (s : NvSurface) (x y h : Z) (x' y' : Z) : bool :=
  (x' =? x) && (y <=? y') && (y' <? y + h) && on_surface s x' y'.

Lemma vline_paint s x y h c :
  wf s → small x → small y → small h → draw_vline s x y h c ⇓ painted c (vline s x y h) s.
Proof.
  intros Hw Hx Hy Hww. pose proof Hw as [W1 W2 W3 _]. unfold draw_vline, DIM in *.
  destruct ((h <=? 0) || (x <? 0) || (width s <=? x)) eqn:E.
  { apply nothing_painted; [done|]. intros x' y' _. unfold vline.
    rewrite !orb_true_iff, !Z.leb_le, Z.ltb_lt in E. apply not_true_iff_false.
    rewrite !andb_true_iff, Z.eqb_eq, Z.leb_le, Z.ltb_lt, visible_spec. lia. }
  rewrite !orb_false_iff, !Z.leb_gt, Z.ltb_ge in E. destruct E as [[E1 E2] E3].
  rewrite clip_start by done. cbn [mbind outcome_bind].
  rewrite clip_high_ok by (unfold small, DIM in *; lia). cbn [mbind outcome_bind].
  set (n := Z.min _ _). destruct (Z.leb_spec n 0).
  { apply nothing_painted; [done|]. intros x' y' _. unfold vline. apply not_true_iff_false.
    rewrite !andb_true_iff, Z.eqb_eq, Z.leb_le, Z.ltb_lt, visible_spec. lia. }
  eapply wp_mono with (P := painted c (λ x' y', (x' =? x) && (Z.max 0 y <=? y') && (y' <? Z.max 0 y + n)) s).
  2:{ intros s' Hs'. eapply painted_ext; [|exact Hs']. unfold vline. sets. }
  apply (wp_paint c (λ i x' y', (x' =? x) && (Z.max 0 y <=? y') && (y' <? Z.max 0 y + i))); [lia|done|sets| |].
  { intros i x' y' Hi. rewrite !andb_true_iff, !Z.ltb_lt, Z.leb_le. lia. }
  intros i s' Hi Hw' Hs. assert (in_rows s' x (Z.max 0 y + i)) as Hr.
  { eapply in_rows_size; [done|]. unfold in_rows. lia. }
  rewrite int_ok by (unfold small in *; lia). cbn [mbind outcome_bind].
  rewrite row_int by (done || apply Hr). cbn [mbind outcome_bind]. rewrite offset_int by done. cbn [mbind outcome_bind].
  eapply wp_mono with (P := painted c (here x (Z.max 0 y + i)) s').
  - destruct (Z.eqb_spec (COLOR_A c) 255); [by apply put_opaque|by apply put_blend].
  - intros s2 H2. eapply painted_ext; [|exact H2]. sets.
Qed.

Definition small_rect (r : NvRect) : Prop := small (rx r) ∧ small (ry r) ∧ small (rw r) ∧ small (rh r).
Definition in_rect (s : NvSurface) (r : NvRect) (x y : Z) : bool :=
  (rx r <=? x) && (x <? rx r + rw r) && (ry r <=? y) && (y <? ry r + rh r) && on_surface s x y.
Definition block (x0 x1 y0 y1 : Z) (x y : Z) : bool := (x0 <=? x) && (x <? x1) && (y0 <=? y) && (y <? y1).

(** The rows of a block painted one by one. *)
Lemma block_paint s x0 x1 y0 y1 c (body : Z → NvSurface → outcome NvSurface) :
  wf s → 0 ≤ x0 ≤ x1 → x1 ≤ pitch s → 0 ≤ y0 ≤ y1 → y1 ≤ height s →
  (∀ y s', y0 ≤ y < y1 → wf s' → same_size s s' → body y s' ⇓ painted c (run x0 y (x1 - x0)) s') →
  for_each y0 y1 body s ⇓ painted c (block x0 x1 y0 y1) s.
Proof.
  intros Hw Hx Hp Hy Hh Hbody. apply (wp_paint c (block x0 x1 y0)); [lia|done| | |].
  - unfold block. sets.
  - unfold block. intros i x' y' Hi. rewrite !andb_true_iff, !Z.ltb_lt, !Z.leb_le. lia.
  - intros i s' Hi Hw' Hs. eapply wp_mono; [by apply Hbody|]. intros s2 H2.
    eapply painted_ext; [|exact H2]. unfold block, run. sets.
Qed.

Lemma fill_rect_paint s r c : wf s → small_rect r → draw_fill_rect s r c ⇓ painted c (in_rect s r) s.
Proof.
  intros Hw (Hx & Hy & Hrw & Hrh). pose proof Hw as [W1 W2 W3 _]. unfold draw_fill_rect, DIM, small in *.
  destruct ((rw r <=? 0) || (rh r <=? 0)) eqn:E.
  { apply nothing_painted; [done|]. intros x' y' _. unfold in_rect.
    rewrite orb_true_iff, !Z.leb_le in E. apply not_true_iff_false.
    rewrite !andb_true_iff, !Z.leb_le, !Z.ltb_lt. lia. }
  rewrite orb_false_iff, !Z.leb_gt in E. destruct E as [E1 E2].
  rewrite (int_ok (rx r + rw r)) by lia. cbn [mbind outcome_bind].
  rewrite (int_ok (ry r + rh r)) by lia. cbn [mbind outcome_bind]. cbv zeta.
  set (x0 := if rx r <? 0 then 0 else rx r). set (y0 := if ry r <? 0 then 0 else ry r).
  set (x1 := if width s <? _ then _ else _). set (y1 := if height s <? _ then _ else _).
  assert (x0 = Z.max 0 (rx r)) as X0 by (unfold x0; destruct (Z.ltb_spec (rx r) 0); lia).
  assert (y0 = Z.max 0 (ry r)) as Y0 by (unfold y0; destruct (Z.ltb_spec (ry r) 0); lia).
  assert (x1 = Z.min (width s) (rx r + rw r)) as X1
    by (unfold x1; destruct (Z.ltb_spec (width s) (rx r + rw r)); lia).
  assert (y1 = Z.min (height s) (ry r + rh r)) as Y1
    by (unfold y1; destruct (Z.ltb_spec (height s) (ry r + rh r)); lia).
  clearbody x0 y0 x1 y1. destruct ((x1 <=? x0) || (y1 <=? y0)) eqn:E.
  { apply nothing_painted; [done|]. intros x' y' _. unfold in_rect.
    rewrite orb_true_iff, !Z.leb_le in E. apply not_true_iff_false.
    rewrite !andb_true_iff, !Z.leb_le, !Z.ltb_lt, visible_spec. lia. }
  rewrite orb_false_iff, !Z.leb_gt in E. destruct E as [E3 E4].
  eapply wp_mono with (P := painted c (block x0 x1 y0 y1) s).
  2:{ intros s' Hs'. eapply painted_ext; [|exact Hs']. unfold block, in_rect. sets. }
  destruct (Z.eqb_spec (COLOR_A c) 255).
  - apply block_paint; [done|lia|lia|lia|lia|]. intros y s' Hy' Hw' Hs. pose proof Hs as (S1 & S2 & S3).
    unfold offset. rewrite row_int by (done || lia). cbn [mbind outcome_bind].
    rewrite (int_ok (x1 - x0)) by lia. cbn [mbind outcome_bind].
    apply row_paint; [done|lia|lia|lia|lia|]. intros i s2 Hi Hw2 Hs2. apply opaque_body; try done. unfold in_rows. lia.
  - apply block_paint; [done|lia|lia|lia|lia|]. intros y s' Hy' Hw' Hs. pose proof Hs as (S1 & S2 & S3).
    eapply wp_mono; [apply (wp_paint c (λ i, block x0 i y (y + 1))); [lia|done| | |]|].
    + unfold block. sets.
    + unfold block. intros i x' y' Hi. rewrite !andb_true_iff, !Z.ltb_lt, !Z.leb_le. lia.
    + intros i s2 Hi Hw2 Hs2. assert (in_rows s2 i y) as Hr by (eapply in_rows_size; [done|]; unfold in_rows; lia).
      rewrite row_int by (done || apply Hr). cbn [mbind outcome_bind].
      rewrite offset_int by done. cbn [mbind outcome_bind]. eapply wp_mono; [by apply put_blend|].
      intros s3 H3. eapply painted_ext; [|exact H3]. unfold block. sets.
    + intros s2 H2. eapply painted_ext; [|exact H2]. unfold block, run. sets.
Qed.

(** * What every drawing function keeps *)
Definition keeps (s : NvSurface) (m : outcome NvSurface) : Prop := m ⇓ λ s', wf s' ∧ same_size s s'.

Lemma keeps_ok s s' : wf s' → same_size s s' → keeps s (Ok s').
Proof. intros. by apply wp_ok. Qed.
Lemma keeps_bind s m f :
  keeps s m → (∀ s', wf s' → same_size s s' → keeps s' (f s')) → keeps s (m ≫= f).
Proof.
  intros Hm Hf. apply wp_bind. eapply wp_mono; [exact Hm|]. intros s' [H1 H2].
  eapply wp_mono; [by apply Hf|]. intros s2 [H3 H4]. split; [done|by eapply same_size_trans].
Qed.
Lemma surface_keeps_trans s s' m : same_size s s' → keeps s' m → keeps s m.
Proof. intros Hs Hm. eapply wp_mono; [exact Hm|]. intros s2 [H3 H4]. split; [done|by eapply same_size_trans]. Qed.
Lemma keeps_painted c P s m : m ⇓ painted c P s → keeps s m.
Proof. intros H. eapply wp_mono; [exact H|]. intros s' Hs'. split; [by eapply painted_wf|by eapply painted_size]. Qed.
Lemma keeps_for s lo hi body :
  wf s → (∀ i s', lo ≤ i < hi → wf s' → same_size s s' → keeps s' (body i s')) → keeps s (for_each lo hi body s).
Proof.
  intros Hw Hb. destruct (Z.le_gt_cases lo hi).
  - apply (wp_for_each (λ _ s', wf s' ∧ same_size s s')); [done|done| |done].
    intros i s' Hi [H1 H2]. eapply surface_keeps_trans; [exact H2|]. by apply Hb.
  - unfold for_each, for_loop. replace (Z.to_nat (hi - lo)) with 0%nat by lia. cbn. by apply wp_ok.
Qed.
Lemma keeps_int s x f : -2147483648 ≤ x < 2147483648 → keeps s (f x) → keeps s (int x ≫= f).
Proof. intros H Hf. rewrite int_ok by done. exact Hf. Qed.

Lemma pixel_keeps s x y c : wf s → keeps s (draw_pixel s x y c).
Proof. intros. by eapply keeps_painted, pixel_paint. Qed.
Lemma hline_keeps s x y w c : wf s → small x → small y → small w → keeps s (draw_hline s x y w c).
Proof. intros. by eapply keeps_painted, hline_paint. Qed.
Lemma vline_keeps s x y h c : wf s → small x → small y → small h → keeps s (draw_vline s x y h c).
Proof. intros. by eapply keeps_painted, vline_paint. Qed.
Lemma fill_rect_keeps s r c : wf s → small_rect r → keeps s (draw_fill_rect s r c).
Proof. intros. by eapply keeps_painted, fill_rect_paint. Qed.

End DrawShapes.

(** Blits: exactly the pixels that both surfaces have are copied. *)
Import KString Color Draw.

Module DrawBlit.
Import DrawPaint DrawShapes.

(** [d'] is [d] with the pixels in [P] taken from [src], shifted by [ox] and [oy]. *)
Definition copied (src : NvSurface) (ox oy : Z) (P : Z → Z → bool) (d d' : NvSurface) : Prop :=
  wf d' ∧ same_size d d' ∧
  ∀ x y, in_rows d x y → px d' x y = if P x y then px src (x + ox) (y + oy) else px d x y.

Lemma copied_none src ox oy d : wf d → copied src ox oy (λ _ _, false) d d.
Proof. done. Qed.
Lemma copied_ext src ox oy P Q d d' :
  (∀ x y, in_rows d x y → P x y = Q x y) → copied src ox oy P d d' → copied src ox oy Q d d'.
Proof. intros H (H1 & H2 & H3). split_and!; [done..|]. intros x y Hxy. rewrite <-H by done. auto. Qed.
Lemma copied_app src ox oy P Q d1 d2 d3 :
  copied src ox oy P d1 d2 → copied src ox oy Q d2 d3 → copied src ox oy (λ x y, P x y || Q x y) d1 d3.
Proof.
  intros (_ & H2 & H3) (K1 & K2 & K3). split_and!; [done|by eapply same_size_trans|]. intros x y Hxy.
  rewrite K3 by (by eapply in_rows_size). rewrite H3 by done. by destruct (P x y), (Q x y).
Qed.

Lemma copy_row_ok d src xd yd xs ys n :
  wf d → wf src → 0 ≤ n → 0 ≤ xd → xd + n ≤ pitch d → 0 ≤ yd < height d →
  0 ≤ xs → xs + n ≤ pitch src → 0 ≤ ys < height src →
  copy_row d (yd * pitch d + xd) src (ys * pitch src + xs) n ⇓
    copied src (xs - xd) (ys - yd) (run xd yd n) d.
Proof.
  intros [W1 W2 W3 W4] [S1 S2 S3 S4] Hn Hxd Hxn Hyd Hxs Hxsn Hys. unfold copy_row.
  assert (yd * pitch d + xd + n ≤ zlen (pixels d) ∧ 0 ≤ yd * pitch d + xd) as [Hd1 Hd2] by (rewrite W4; nia).
  assert (ys * pitch src + xs + n ≤ zlen (pixels src) ∧ 0 ≤ ys * pitch src + xs) as [Hs1 Hs2] by (rewrite S4; nia).
  rewrite decide_True by lia. apply wp_ok.
  assert (zlen (slice (pixels src) (ys * pitch src + xs) n) = n) as Hl by (apply zlen_slice; lia).
  split_and!.
  - split; cbn; [done..|]. by rewrite zlen_splice by lia.
  - done.
  - intros x y [Hx Hy]. unfold px, run. cbn [pixels set_pixels pitch].
    rewrite lookup_splice by lia. rewrite Hl.
    assert (0 ≤ y * pitch d + x) by nia. rewrite Z2Nat.id by done.
    assert (yd * pitch d + xd ≤ y * pitch d + x < yd * pitch d + xd + n ↔ y = yd ∧ xd ≤ x < xd + n) as Hiff.
    { split; [intros K; assert (y = yd) by nia; subst; lia|intros [-> K]; lia]. }
    case_decide as Hc.
    + apply Hiff in Hc as [-> Hc]. rewrite Z.eqb_refl, (proj2 (Z.leb_le _ _)), (proj2 (Z.ltb_lt _ _)) by lia. cbn [andb].
      rewrite lookup_slice by lia. f_equal.
      replace (yd + (ys - yd)) with ys by lia. replace (x + (xs - xd)) with (xs + (x - xd)) by lia. lia.
    + assert ((y =? yd) && (xd <=? x) && (x <? xd + n) = false) as ->; [|done].
      apply not_true_iff_false. rewrite !andb_true_iff, Z.eqb_eq, Z.leb_le, Z.ltb_lt. intros K. apply Hc, Hiff. lia.
Qed.

Lemma clip_low_ok a b w :
  small a → small b → small w →
  clip_low a b w = Ok (Z.max 0 a, b + Z.max 0 (- a), w - Z.max 0 (- a)).
Proof.
  unfold small, clip_low. intros. destruct (Z.ltb_spec a 0).
  - rewrite (int_ok (b - a)) by lia. cbn [mbind outcome_bind]. rewrite (int_ok (w + a)) by lia.
    cbn [mbind outcome_bind]. do 2 f_equal; [f_equal|]; lia.
  - do 2 f_equal; [f_equal|]; lia.
Qed.

(** One axis: the start in both surfaces and the length, all clipped. *)
Lemma clip_axis d s n ld ls :
  Z.abs d < 2 ^ 24 → Z.abs s < 2 ^ 24 → Z.abs n < 2 ^ 24 → 0 ≤ ld ≤ DIM → 0 ≤ ls ≤ DIM →
  let m := Z.max 0 (- Z.min d s) in
  let n' := Z.min (Z.min (n - m) (ld - (d + m))) (ls - (s + m)) in
  0 ≤ d + m ∧ 0 ≤ s + m ∧ Z.abs m < 2 ^ 24 ∧ d + m + n' ≤ ld ∧ s + m + n' ≤ ls ∧
  ∀ x, d + m ≤ x < d + m + n' ↔ d ≤ x < d + n ∧ 0 ≤ x < ld ∧ 0 ≤ x + (s - d) < ls.
Proof. intros Hd Hs Hn Hld Hls m n'. unfold DIM in *. split_and!; [lia..|]. intros x. lia. Qed.

Definition blit_set (dst src : NvSurface) (dx dy sx sy w h : Z) (x y : Z) : bool :=
  (dx <=? x) && (x <? dx + w) && (dy <=? y) && (y <? dy + h) &&
  on_surface dst x y && on_surface src (x + (sx - dx)) (y + (sy - dy)).

Section Blit.
Context (dst src : NvSurface) (dx dy sx sy w h : Z) (Hd : wf dst) (Hs : wf src).
Context (Bdx : Z.abs dx < 2 ^ 24) (Bdy : Z.abs dy < 2 ^ 24) (Bsx : Z.abs sx < 2 ^ 24) (Bsy : Z.abs sy < 2 ^ 24).
Context (Bw : Z.abs w < 2 ^ 24) (Bh : Z.abs h < 2 ^ 24).
Local Abbreviation mx := (Z.max 0 (- Z.min dx sx)).
Local Abbreviation my := (Z.max 0 (- Z.min dy sy)).
Local Abbreviation nw := (Z.min (Z.min (w - mx) (width dst - (dx + mx))) (width src - (sx + mx))).
Local Abbreviation nh := (Z.min (Z.min (h - my) (height dst - (dy + my))) (height src - (sy + my))).

(** The clipping in front of the copy. *)
Lemma blit_unfold :
  surface_blit dst src dx dy sx sy w h =
  if (nw <=? 0) || (nh <=? 0) then Ok dst
  else for_each 0 nh (λ row dst,
         yd ← int (dy + my + row); ys ← int (sy + my + row);
         d ← offset dst (dx + mx) yd; o ← offset src (sx + mx) ys; copy_row dst d src o nw) dst.
Proof using Hd Hs Bdx Bdy Bsx Bsy Bw Bh.
  pose proof Hd as [D1 D2 D3 _]. pose proof Hs as [S1 S2 S3 _]. unfold DIM in *. clear Hd Hs. unfold surface_blit.
  rewrite (clip_low_ok dx) by (unfold small; lia). cbn [mbind outcome_bind].
  rewrite (clip_low_ok dy) by (unfold small; lia). cbn [mbind outcome_bind].
  rewrite (clip_low_ok (sx + _)) by (unfold small; lia). cbn [mbind outcome_bind].
  rewrite (clip_low_ok (sy + _)) by (unfold small; lia). cbn [mbind outcome_bind].
  replace (Z.max 0 (sx + Z.max 0 (- dx))) with (sx + mx) by lia.
  replace (Z.max 0 dx + Z.max 0 (- (sx + Z.max 0 (- dx)))) with (dx + mx) by lia.
  replace (w - Z.max 0 (- dx) - Z.max 0 (- (sx + Z.max 0 (- dx)))) with (w - mx) by lia.
  replace (Z.max 0 (sy + Z.max 0 (- dy))) with (sy + my) by lia.
  replace (Z.max 0 dy + Z.max 0 (- (sy + Z.max 0 (- dy)))) with (dy + my) by lia.
  replace (h - Z.max 0 (- dy) - Z.max 0 (- (sy + Z.max 0 (- dy)))) with (h - my) by lia.
  rewrite (clip_high_ok (dx + mx)) by (unfold small, DIM; lia). cbn [mbind outcome_bind].
  rewrite (clip_high_ok (dy + my)) by (unfold small, DIM; lia). cbn [mbind outcome_bind].
  rewrite (clip_high_ok (sx + mx)) by (unfold small, DIM; lia). cbn [mbind outcome_bind].
  rewrite (clip_high_ok (sy + my)) by (unfold small, DIM; lia). cbn [mbind outcome_bind]. done.
Qed.

Lemma blit_ok :
  surface_blit dst src dx dy sx sy w h ⇓ copied src (sx - dx) (sy - dy) (blit_set dst src dx dy sx sy w h) dst.
Proof using Hd Hs Bdx Bdy Bsx Bsy Bw Bh.
  rewrite blit_unfold. pose proof Hd as [D1 D2 D3 _]. pose proof Hs as [S1 S2 S3 _]. unfold DIM in *.
  destruct (clip_axis dx sx w (width dst) (width src)) as (X1 & X2 & X3 & X4 & X5 & X6); [done|done|done|unfold DIM; lia..|].
  destruct (clip_axis dy sy h (height dst) (height src)) as (Y1 & Y2 & Y3 & Y4 & Y5 & Y6); [done|done|done|unfold DIM; lia..|].
  assert (∀ x y, blit_set dst src dx dy sx sy w h x y = block (dx + mx) (dx + mx + nw) (dy + my) (dy + my + nh) x y) as Hset.
  { intros x y. specialize (X6 x). specialize (Y6 y). apply eq_true_iff_eq. unfold blit_set, block.
    rewrite !andb_true_iff, !Z.leb_le, !Z.ltb_lt, !visible_spec. intuition lia. }
  set (n := nw) in *. set (m := nh) in *. clearbody n m. set (a := mx) in *. set (b := my) in *. clearbody a b.
  destruct ((n <=? 0) || (m <=? 0)) eqn:E.
  { rewrite orb_true_iff, !Z.leb_le in E. apply wp_ok. eapply copied_ext; [|by apply copied_none].
    intros x y _. symmetry. rewrite Hset. unfold block. apply not_true_iff_false.
    rewrite !andb_true_iff, !Z.leb_le, !Z.ltb_lt. lia. }
  rewrite orb_false_iff, !Z.leb_gt in E. destruct E as [E1 E2].
  eapply wp_mono with (P := copied src (sx - dx) (sy - dy) (block (dx + a) (dx + a + n) (dy + b) (dy + b + m)) dst).
  2:{ intros d' Hc. eapply copied_ext; [|exact Hc]. intros x y _. by rewrite Hset. }
  apply (wp_for_each (λ i, copied src (sx - dx) (sy - dy) (block (dx + a) (dx + a + n) (dy + b) (dy + b + i)) dst)); [lia| | |done].
  - eapply copied_ext; [|by apply copied_none]. intros x y _. symmetry. unfold block. apply not_true_iff_false.
    rewrite !andb_true_iff, !Z.leb_le, !Z.ltb_lt. lia.
  - intros i d1 Hi Hc. pose proof Hc as (Hw1 & (G1 & G2 & G3) & _).
    rewrite (int_ok (dy + b + i)) by lia. cbn [mbind outcome_bind].
    rewrite (int_ok (sy + b + i)) by lia. cbn [mbind outcome_bind]. unfold offset.
    rewrite (row_int d1) by (done || lia). cbn [mbind outcome_bind].
    rewrite (row_int src) by (done || lia). cbn [mbind outcome_bind].
    eapply wp_mono; [apply copy_row_ok; (done || lia)|]. intros d2 Hc2.
    replace (sx + a - (dx + a)) with (sx - dx) in Hc2 by lia.
    replace (sy + b + i - (dy + b + i)) with (sy - dy) in Hc2 by lia.
    eapply copied_ext; [|exact (copied_app _ _ _ _ _ _ _ _ Hc Hc2)].
    intros x y _. unfold block, run. apply eq_true_iff_eq.
    rewrite orb_true_iff, !andb_true_iff, Z.eqb_eq, !Z.leb_le, !Z.ltb_lt. lia.
Qed.

End Blit.

(** C29: surface_blit copies exactly the pixels of the block that both surfaces have, for any
    positions and sizes, negative ones and ones outside of both surfaces included, and changes
    no other pixel. *)
Theorem surface_blit_correct (dst src : NvSurface) (dx dy sx sy w h : Z) :
  wf dst → wf src →
  Z.abs dx < 2 ^ 24 → Z.abs dy < 2 ^ 24 → Z.abs sx < 2 ^ 24 → Z.abs sy < 2 ^ 24 → Z.abs w < 2 ^ 24 → Z.abs h < 2 ^ 24 →
  surface_blit dst src dx dy sx sy w h ⇓ copied src (sx - dx) (sy - dy) (blit_set dst src dx dy sx sy w h) dst.
Proof. intros. by apply blit_ok. Qed.

(** A block of two by two that sticks out on the left of both surfaces. *)
Definition sheet (n v : Z) : NvSurface := mkSurface (replicate (Z.to_nat (n * n)) v) n n n true.
Lemma surface_blit_correct_witness :
  surface_blit (sheet 3 7) (sheet 2 9) (-1) 1 0 (-1) 3 3 ⇓ λ d,
    copied (sheet 2 9) 1 (-2) (blit_set (sheet 3 7) (sheet 2 9) (-1) 1 0 (-1) 3 3) (sheet 3 7) d ∧
    pixels d = [7; 7; 7; 7; 7; 7; 9; 7; 7].
Proof.
  destruct (surface_blit_correct (sheet 3 7) (sheet 2 9) (-1) 1 0 (-1) 3 3) as (d & E & H);
    [split; cbn; unfold DIM; (lia || done)..|lia|lia|lia|lia|lia|lia|].
  exists d. split; [exact E|]. split; [exact H|]. vm_compute in E. injection E as <-. reflexivity.
Defined.

(** [surface_blit_alpha] does not clip against the source: a block that is
    larger than the source is read behind its end. *)
Lemma blit_alpha_unsound : surface_blit_alpha (sheet 3 7) (sheet 2 9) 0 0 0 0 3 3 = Undef.
Proof. reflexivity. Qed.

End DrawBlit.
