(* ===== verification/DrawLine.v ===== *)
(** Lines: [draw_line] ends, and paints the pixels of a connected path from one
    end to the other that is never more than half a pixel off the line. *)
From stdpp Require Import base list.
From S2P Require Import Prelude.
From S2P Require Import CLib.
From S2P Require Import Rects.
From S2P Require Import Draw.
From S2P Require Import DrawPaint.
Import Color Draw.

Module DrawLine.
Import DrawPaint DrawShapes.

(** * Paths *)

(** A step to one of the eight neighbours. *)
Definition neighbours (p q : Z * Z) : Prop :=
  p ≠ q ∧ Z.abs (q.1 - p.1) ≤ 1 ∧ Z.abs (q.2 - p.2) ≤ 1.

(** Twice the distance of [p] from the line, measured along the shorter
    extent and times the longer one. *)
Definition deviation (x0 y0 x1 y1 : Z) (p : Z * Z) : Z :=
  2 * Z.abs ((x1 - x0) * (p.2 - y0) - (y1 - y0) * (p.1 - x0)).

Record line_path (x0 y0 x1 y1 : Z) (l : list (Z * Z)) : Prop := mk_path {
  lp_first : l !! 0%nat = Some (x0, y0);
  lp_last : last l = Some (x1, y1);
  lp_steps : ∀ i p q, l !! i = Some p → l !! S i = Some q → neighbours p q;
  lp_close : Forall (λ p, deviation x0 y0 x1 y1 p ≤ Z.max (Z.abs (x1 - x0)) (Z.abs (y1 - y0))) l;
  lp_length : zlen l = Z.max (Z.abs (x1 - x0)) (Z.abs (y1 - y0)) + 1;
  lp_nodup : NoDup l }.

(** * One round: [a] and [b] are the steps made so far along each axis *)
Section Step.
Context (dx dy a b : Z) (Ha : 0 ≤ a ≤ dx) (Hb : 0 ≤ b ≤ dy) (Hend : ¬ (a = dx ∧ b = dy)).
Context (Hclose : 2 * Z.abs (dx * b - dy * a) ≤ Z.max dx dy).

Definition error : Z := dx * (1 + b) - dy * (1 + a).
Definition go_x : Z := if - dy <? 2 * error then 1 else 0.
Definition go_y : Z := if 2 * error <? dx then 1 else 0.

(** Along the longer axis every round makes a step. *)
Lemma step_wide : dy ≤ dx →
  go_x = 1 ∧ a + 1 ≤ dx ∧ b + go_y ≤ dy ∧ 2 * Z.abs (dx * (b + go_y) - dy * (a + 1)) ≤ dx.
Proof using Ha Hb Hend Hclose.
  intros Hle. rewrite Z.max_l in Hclose by done.
  assert (a < dx) as Hlt by nia.
  assert (- dx < 2 * (dx * b - dy * a) ∨ dy < dx) as Hs.
  { destruct (decide (dy < dx)); [by right|left]. assert (dy = dx) as E by lia. rewrite E in *.
    replace (dx * b - dx * a) with (dx * (b - a)) in * by lia.
    destruct (Z.le_gt_cases 0 (b - a)); nia. }
  assert (- dy < 2 * error) as Hx by (unfold error; lia).
  unfold go_x, go_y. rewrite (proj2 (Z.ltb_lt _ _) Hx).
  destruct (Z.ltb_spec (2 * error) dx) as [Hy|Hy]; unfold error in Hy.
  - assert (b < dy) as Hbl by nia. split_and!; lia.
  - split_and!; lia.
Qed.

Lemma step_tall : dx < dy →
  go_y = 1 ∧ b + 1 ≤ dy ∧ a + go_x ≤ dx ∧ 2 * Z.abs (dx * (b + 1) - dy * (a + go_x)) ≤ dy.
Proof using Ha Hb Hend Hclose.
  intros Hlt. rewrite Z.max_r in Hclose by lia.
  assert (b < dy) as Hbl by nia.
  assert (2 * error < dx) as Hy by (unfold error; lia).
  unfold go_x, go_y. rewrite (proj2 (Z.ltb_lt _ _) Hy).
  destruct (Z.ltb_spec (- dy) (2 * error)) as [Hx|Hx]; unfold error in Hx.
  - assert (a < dx) as Hal by nia. split_and!; lia.
  - split_and!; lia.
Qed.

Lemma error_bound : Z.abs error ≤ 2 * Z.max dx dy.
Proof using Ha Hb Hclose. clear Hend. unfold error. lia. Qed.

End Step.

(** * The path as it grows *)
Section Line.
Context (x0 y0 x1 y1 : Z).

Definition ext_x : Z := Z.abs (x1 - x0).
Definition ext_y : Z := Z.abs (y1 - y0).
Definition dir_x : Z := if x0 <? x1 then 1 else -1.
Definition dir_y : Z := if y0 <? y1 then 1 else -1.
Definition point (a b : Z) : Z * Z := (x0 + dir_x * a, y0 + dir_y * b).

Lemma dir_ext_x : dir_x * ext_x = x1 - x0.
Proof. unfold dir_x, ext_x. destruct (Z.ltb_spec x0 x1); lia. Qed.
Lemma dir_ext_y : dir_y * ext_y = y1 - y0.
Proof. unfold dir_y, ext_y. destruct (Z.ltb_spec y0 y1); lia. Qed.
Lemma dir_x_unit : dir_x = 1 ∨ dir_x = -1.
Proof. unfold dir_x. destruct (x0 <? x1); auto. Qed.
Lemma dir_y_unit : dir_y = 1 ∨ dir_y = -1.
Proof. unfold dir_y. destruct (y0 <? y1); auto. Qed.

Lemma point_inj a b a' b' : point a b = point a' b' → a = a' ∧ b = b'.
Proof. unfold point. intros [= H1 H2]. destruct dir_x_unit as [E|E], dir_y_unit as [F|F]; rewrite E, F in *; lia. Qed.

Lemma point_deviation a b : deviation x0 y0 x1 y1 (point a b) = 2 * Z.abs (ext_x * b - ext_y * a).
Proof.
  unfold deviation, point. cbn [fst snd]. rewrite <-dir_ext_x, <-dir_ext_y.
  replace (dir_x * ext_x * (y0 + dir_y * b - y0) - dir_y * ext_y * (x0 + dir_x * a - x0))
    with (dir_x * dir_y * (ext_x * b - ext_y * a)) by lia.
  destruct dir_x_unit as [->| ->], dir_y_unit as [->| ->]; lia.
Qed.

Lemma point_end a b : point a b = (x1, y1) ↔ a = ext_x ∧ b = ext_y.
Proof.
  pose proof dir_ext_x. pose proof dir_ext_y. unfold point.
  split; [|intros [-> ->]; f_equal; lia]. intros [= H1 H2].
  destruct dir_x_unit as [E|E], dir_y_unit as [F|F]; rewrite E, F in *; lia.
Qed.

(** A point visited before [point a b]. *)
Definition before (a b : Z) (p : Z * Z) : Prop :=
  ∃ a' b', p = point a' b' ∧ 0 ≤ a' ≤ a ∧ 0 ≤ b' ≤ b ∧ a' + b' < a + b ∧
    2 * Z.abs (ext_x * b' - ext_y * a') ≤ Z.max ext_x ext_y.

(** The pen is at [point a b] and has been at the points [v]. *)
Record going (a b : Z) (v : list (Z * Z)) : Prop := mk_going {
  go_a : 0 ≤ a ≤ ext_x;
  go_b : 0 ≤ b ≤ ext_y;
  go_close : 2 * Z.abs (ext_x * b - ext_y * a) ≤ Z.max ext_x ext_y;
  go_before : Forall (before a b) v;
  go_nodup : NoDup v;
  go_len : zlen v = if ext_y <=? ext_x then a else b;
  go_head : (v ++ [point a b]) !! 0%nat = Some (x0, y0);
  go_chain : ∀ i p q, (v ++ [point a b]) !! i = Some p → (v ++ [point a b]) !! S i = Some q → neighbours p q }.

Lemma going_start : going 0 0 [].
Proof.
  split; [unfold ext_x; lia|unfold ext_y; lia|unfold ext_x, ext_y; lia|constructor|constructor|by destruct (_ <=? _)| |].
  - cbn. unfold point. do 2 f_equal; lia.
  - intros [|i] p q; cbn; done.
Qed.

Lemma going_fresh a b v : going a b v → point a b ∉ v.
Proof.
  intros Hg Hin. destruct (proj1 (Forall_forall _ _) (go_before _ _ _ Hg) _ Hin) as (a' & b' & E & H1 & H2 & H3 & _).
  apply point_inj in E as [-> ->]. lia.
Qed.

Lemma before_mono a b a' b' p : a ≤ a' → b ≤ b' → before a b p → before a' b' p.
Proof. intros ? ? (u & w & H). exists u, w. intuition lia. Qed.

(** The next point of the path. *)
Lemma going_next a b v :
  going a b v → point a b ≠ (x1, y1) →
  going (a + go_x ext_x ext_y a b) (b + go_y ext_x ext_y a b) (v ++ [point a b]) ∧
  0 < go_x ext_x ext_y a b + go_y ext_x ext_y a b.
Proof.
  intros Hg Hn. pose proof Hg as [Ha Hb Hc Hbf Hnd Hl Hh Hch].
  assert (¬ (a = ext_x ∧ b = ext_y)) as Hend by (intros ?; by apply Hn, point_end).
  set (gx := go_x ext_x ext_y a b). set (gy := go_y ext_x ext_y a b).
  assert (0 ≤ gx ≤ 1 ∧ 0 ≤ gy ≤ 1) as [Hgx Hgy].
  { unfold gx, gy, go_x, go_y. destruct (_ <? _), (_ <? _); lia. }
  assert (a + gx ≤ ext_x ∧ b + gy ≤ ext_y ∧ 0 < gx + gy ∧
    2 * Z.abs (ext_x * (b + gy) - ext_y * (a + gx)) ≤ Z.max ext_x ext_y ∧
    (if ext_y <=? ext_x then gx = 1 else gy = 1)) as (H1 & H2 & H3 & H4 & H5).
  { destruct (Z.leb_spec ext_y ext_x) as [Hle|Hlt].
    - destruct (step_wide _ _ _ _ Ha Hb Hend Hc Hle) as (E & K1 & K2 & K3). fold gx gy in E, K1, K2, K3.
      rewrite E. rewrite Z.max_l by done. split_and!; (done || lia).
    - destruct (step_tall _ _ _ _ Ha Hb Hend Hc Hlt) as (E & K1 & K2 & K3). fold gx gy in E, K1, K2, K3.
      rewrite E. rewrite Z.max_r by lia. split_and!; (done || lia). }
  split; [|done]. split; [lia|lia|done| | | | |].
  - apply Forall_app. split.
    + eapply Forall_impl; [exact Hbf|]. intros p. apply before_mono; lia.
    + apply Forall_singleton. exists a, b. split_and!; (done || lia).
  - apply NoDup_app. split_and!; [done| |apply NoDup_singleton]. intros p Hp ->%list_elem_of_singleton.
    by apply (going_fresh a b v Hg).
  - rewrite zlen_app, Hl. change (zlen [point a b]) with 1. destruct (ext_y <=? ext_x); lia.
  - rewrite lookup_app_l; [done|]. rewrite length_app. cbn. lia.
  - intros i p q Hp Hq. destruct (decide (S i < length (v ++ [point a b]))%nat) as [Hi|Hi].
    + rewrite lookup_app_l in Hp, Hq by lia. eauto.
    + assert (S i = length (v ++ [point a b])) as Ei.
      { apply lookup_lt_Some in Hq. rewrite length_app in Hq. cbn in Hq. lia. }
      rewrite Ei, list_lookup_middle in Hq by done. injection Hq as <-.
      rewrite length_app in Ei. cbn in Ei. rewrite lookup_app_l in Hp by (rewrite length_app; cbn; lia).
      rewrite lookup_app_r in Hp by lia. replace (i - length v)%nat with 0%nat in Hp by lia. injection Hp as <-.
      split_and!.
      * intros E%point_inj. lia.
      * unfold point; cbn [fst snd]. destruct dir_x_unit as [->| ->]; lia.
      * unfold point; cbn [fst snd]. destruct dir_y_unit as [->| ->]; lia.
Qed.

Lemma going_end v : going ext_x ext_y v → line_path x0 y0 x1 y1 (v ++ [(x1, y1)]).
Proof.
  intros Hg. pose proof Hg as [Ha Hb Hc Hbf Hnd Hl Hh Hch].
  assert (point ext_x ext_y = (x1, y1)) as E by (by apply point_end). rewrite E in *.
  split.
  - exact Hh.
  - apply last_snoc.
  - exact Hch.
  - apply Forall_app. split.
    + eapply Forall_impl; [exact Hbf|]. intros p (a' & b' & -> & _ & _ & _ & H). by rewrite point_deviation.
    + apply Forall_singleton. rewrite <-E, point_deviation. unfold ext_x, ext_y in *. lia.
  - rewrite zlen_app, Hl. change (zlen [(x1, y1)]) with 1. unfold ext_x, ext_y.
    destruct (Z.leb_spec (Z.abs (y1 - y0)) (Z.abs (x1 - x0))); lia.
  - apply NoDup_app. split_and!; [done| |apply NoDup_singleton]. intros p Hp ->%list_elem_of_singleton.
    rewrite <-E in Hp. by apply (going_fresh _ _ _ Hg).
Qed.

End Line.

(** * The loop *)
Definition on_path (s : NvSurface) (v : list (Z * Z)) (x y : Z) : bool :=
  bool_decide ((x, y) ∈ v) && on_surface s x y.

Section Draw.
Context (s0 : NvSurface) (x0 y0 x1 y1 c : Z) (Hw : wf s0).
Context (Hx0 : Z.abs x0 < 2 ^ 26) (Hy0 : Z.abs y0 < 2 ^ 26) (Hx1 : Z.abs x1 < 2 ^ 26) (Hy1 : Z.abs y1 < 2 ^ 26).
Local Abbreviation dx := (ext_x x0 x1).
Local Abbreviation dy := (ext_y y0 y1).
Local Abbreviation sx := (dir_x x0 x1).
Local Abbreviation sy := (dir_y y0 y1).
Local Abbreviation pt := (point x0 y0 x1 y1).

Definition drawing (a b : Z) (v : list (Z * Z)) (st : NvSurface * Z * Z * Z) : Prop :=
  going x0 y0 x1 y1 a b v ∧ painted c (on_path s0 v) s0 st.1.1.1 ∧
  (st.1.1.2, st.1.2) = pt a b ∧ st.2 = error dx dy a b.

(** One more point painted. *)
Lemma paint_point s v x y :
  (x, y) ∉ v → painted c (on_path s0 v) s0 s →
  draw_pixel s x y c ⇓ painted c (on_path s0 (v ++ [(x, y)])) s0.
Proof using.
  intros Hn Hp. eapply wp_mono; [apply pixel_paint; by eapply painted_wf|]. intros s' Hs'.
  eapply painted_ext; [|eapply painted_app; [|exact Hp|exact Hs']].
  - intros x' y' _. cbv beta. rewrite (visible_size s0 s) by (by eapply painted_size). unfold on_path, here.
    destruct (on_surface s0 x' y'); rewrite ?andb_true_r, ?andb_false_r; [|done]. apply eq_true_iff_eq.
    rewrite orb_true_iff, andb_true_iff, !Z.eqb_eq, !bool_decide_eq_true, elem_of_app, list_elem_of_singleton.
    assert ((x', y') = (x, y) ↔ x' = x ∧ y' = y) as -> by (split; [by intros [= -> ->]|by intros [-> ->]]). done.
  - intros x' y' _. unfold on_path, here. rewrite andb_true_iff, bool_decide_eq_true. intros [Hin _].
    destruct (Z.eqb_spec x' x) as [->|]; [|done]. destruct (Z.eqb_spec y' y) as [->|]; done.
Qed.

Lemma point_bound a b : 0 ≤ a ≤ dx → 0 ≤ b ≤ dy → Z.abs (pt a b).1 < 2 ^ 28 ∧ Z.abs (pt a b).2 < 2 ^ 28.
Proof using Hx0 Hy0 Hx1 Hy1.
  clear Hw. intros Ha Hb. unfold point; cbn [fst snd]. unfold ext_x, ext_y in *.
  destruct (dir_x_unit x0 x1) as [->| ->], (dir_y_unit y0 y1) as [->| ->]; lia.
Qed.

Lemma error_step a b :
  error dx dy (a + go_x dx dy a b) (b + go_y dx dy a b) =
  error dx dy a b - dy * go_x dx dy a b + dx * go_y dx dy a b.
Proof using. clear. unfold error at 1 2. generalize (go_x dx dy a b) (go_y dx dy a b). intros. lia. Qed.

Lemma extents : 0 ≤ dx < 2 ^ 27 ∧ 0 ≤ dy < 2 ^ 27.
Proof using Hx0 Hy0 Hx1 Hy1. clear Hw. unfold ext_x, ext_y. lia. Qed.

(** The two conditional moves of a round. *)
Lemma move_x err x (t : bool) g :
  g = (if t then 1 else 0) → Z.abs err < 2 ^ 30 → Z.abs (x + sx * g) < 2 ^ 28 →
  (if t then e ← int (err - dy); x ← int (x + sx); Ok (e, x) else Ok (err, x)) = Ok (err - dy * g, x + sx * g).
Proof using Hx0 Hy0 Hx1 Hy1.
  intros -> He Hx. destruct extents as [_ X2]. clear - He Hx X2. destruct t.
  - rewrite int_ok by lia. cbn [mbind outcome_bind]. rewrite int_ok by lia. cbn [mbind outcome_bind]. do 2 f_equal; lia.
  - do 2 f_equal; lia.
Qed.
Lemma move_y err y (t : bool) g :
  g = (if t then 1 else 0) → Z.abs err < 2 ^ 30 → Z.abs (y + sy * g) < 2 ^ 28 →
  (if t then e ← int (err + dx); y ← int (y + sy); Ok (e, y) else Ok (err, y)) = Ok (err + dx * g, y + sy * g).
Proof using Hx0 Hy0 Hx1 Hy1.
  intros -> He Hy. destruct extents as [X1 _]. clear - He Hy X1. destruct t.
  - rewrite int_ok by lia. cbn [mbind outcome_bind]. rewrite int_ok by lia. cbn [mbind outcome_bind]. do 2 f_equal; lia.
  - do 2 f_equal; lia.
Qed.

Lemma line_step_ok a b v st :
  drawing a b v st →
  line_step x1 y1 dx dy sx sy c st ⇓ λ x, match x with
    | inl st' => ∃ a' b', a + b < a' + b' ∧ drawing a' b' (v ++ [pt a b]) st'
    | inr s' => line_path x0 y0 x1 y1 (v ++ [(x1, y1)]) ∧ painted c (on_path s0 (v ++ [(x1, y1)])) s0 s'
    end.
Proof using Hw Hx0 Hy0 Hx1 Hy1.
  destruct st as [[[s x] y] err]. unfold drawing; cbn [fst snd]. intros (Hg & Hp & Exy & ->).
  pose proof Hg as [Ha Hb Hc _ _ _ _ _]. pose proof (point_bound a b Ha Hb) as [B1 B2]. rewrite <-Exy in B1, B2.
  cbn [fst snd] in B1, B2. destruct extents as [X1 X2].
  pose proof (error_bound _ _ _ _ Ha Hb Hc) as Hbnd.
  unfold line_step. apply wp_bind. eapply wp_mono; [apply (paint_point s v x y); [|done]|].
  { rewrite Exy. by eapply going_fresh. }
  intros s' Hs'. destruct ((x =? x1) && (y =? y1)) eqn:E.
  - apply andb_true_iff in E as [->%Z.eqb_eq ->%Z.eqb_eq]. apply wp_ok. split; [|done].
    symmetry in Exy. apply point_end in Exy as [-> ->]. by apply going_end.
  - assert (pt a b ≠ (x1, y1)) as Hn.
    { rewrite <-Exy. intros [= -> ->]. by rewrite !Z.eqb_refl in E. }
    destruct (going_next _ _ _ _ a b v Hg Hn) as [Hg' Hadv]. pose proof Hg' as [Ha' Hb' Hc' _ _ _ _ _].
    pose proof (error_bound _ _ _ _ Ha' Hb' Hc') as Hbnd'. rewrite error_step in Hbnd'. clear Hc Hc'.
    destruct (point_bound _ _ Ha' Hb') as [B3 B4]. injection Exy as Ex Ey.
    rewrite (int_ok (2 * error dx dy a b)) by lia. cbn [mbind outcome_bind].
    rewrite (int_ok (- dy)) by lia. cbn [mbind outcome_bind].
    unfold point in B3, B4; cbn [fst snd] in B3, B4.
    set (gx := go_x dx dy a b) in *. set (gy := go_y dx dy a b) in *.
    rewrite (move_x (error dx dy a b) x (- dy <? 2 * error dx dy a b) gx); [|done|clear - Hbnd X1 X2; lia|].
    2:{ rewrite Ex. clear - B3. lia. }
    cbn [mbind outcome_bind].
    assert (0 ≤ dy * gx ≤ dy) as Hd by (unfold gx, go_x; destruct (_ <? _); lia).
    rewrite (move_y (error dx dy a b - dy * gx) y (2 * error dx dy a b <? dx) gy); [|done|clear - Hbnd Hd X1 X2; lia|].
    2:{ rewrite Ey. clear - B4. lia. }
    cbn [mbind outcome_bind].
    apply wp_ok. exists (a + gx), (b + gy). split; [clear - Hadv; lia|]. unfold drawing; cbn [fst snd].
    replace (pt a b) with (x, y) in * by (unfold point; rewrite Ex, Ey; done).
    split_and!; [done|done|rewrite Ex, Ey; unfold point; f_equal; clear; lia|symmetry; apply error_step].
Qed.

Lemma line_ok :
  draw_line s0 x0 y0 x1 y1 c ⇓ λ s', ∃ l, line_path x0 y0 x1 y1 l ∧ painted c (on_path s0 l) s0 s'.
Proof using Hw Hx0 Hy0 Hx1 Hy1.
  destruct extents as [X1 X2]. unfold draw_line.
  rewrite (int_ok (x1 - x0)) by lia. cbn [mbind outcome_bind].
  rewrite (int_ok (Z.abs (x1 - x0))) by lia. cbn [mbind outcome_bind].
  rewrite (int_ok (y1 - y0)) by lia. cbn [mbind outcome_bind].
  rewrite (int_ok (Z.abs (y1 - y0))) by lia. cbn [mbind outcome_bind]. fold dx dy. cbv zeta. fold sx sy.
  rewrite (int_ok (dx - dy)) by lia. cbn [mbind outcome_bind].
  apply (wp_loop_bound (λ k st, ∃ a b v, drawing a b v st ∧ k = Z.to_nat (dx + dy - a - b))) with (k := Z.to_nat (dx + dy)).
  - intros k st (a & b & v & Hd & ->). eapply wp_mono; [by apply line_step_ok|]. intros [st'|s'].
    + intros (a' & b' & Hlt & Hd'). eexists. split; [|by eexists _, _, _].
      destruct Hd as [[Ha Hb _ _ _ _ _ _] _], Hd' as [[Ha' Hb' _ _ _ _ _ _] _]. lia.
    + intros [H1 H2]. by eexists.
  - exists 0, 0, []. split; [|f_equal; lia]. split_and!; cbn [fst snd].
    + apply going_start.
    + eapply painted_ext; [|by apply painted_none]. intros x y _. unfold on_path. by rewrite bool_decide_eq_false_2 by by intros ?%not_elem_of_nil.
    + unfold point. f_equal; lia.
    + unfold error. lia.
  - lia.
Qed.

End Draw.

(** C10: draw_line ends and blends the colour once into exactly the pixels on the surface of a
    path of neighbouring points from one end to the other, with one point per step along the
    longer extent, each at most half a pixel off the ideal line. *)
Theorem draw_line_correct (s : NvSurface) (x0 y0 x1 y1 c : Z) :
  wf s → Z.abs x0 < 2 ^ 26 → Z.abs y0 < 2 ^ 26 → Z.abs x1 < 2 ^ 26 → Z.abs y1 < 2 ^ 26 →
  draw_line s x0 y0 x1 y1 c ⇓ λ s', ∃ l, line_path x0 y0 x1 y1 l ∧ painted c (on_path s l) s s'.
Proof. intros. by apply line_ok. Qed.

(** A line that leaves a surface of four by three pixels. *)
Definition canvas : NvSurface := mkSurface (replicate 12 0) 4 3 4 true.
Lemma canvas_wf : wf canvas.
Proof. split; cbn; unfold DIM; (lia || done). Qed.

Lemma draw_line_correct_witness :
  draw_line canvas 0 0 6 2 0xFF112233 ⇓ λ s', (∃ l, line_path 0 0 6 2 l ∧ painted 0xFF112233 (on_path canvas l) canvas s') ∧
    pixels s' = [0xFF112233; 0xFF112233; 0; 0; 0; 0; 0xFF112233; 0xFF112233; 0; 0; 0; 0].
Proof.
  destruct (draw_line_correct canvas 0 0 6 2 0xFF112233) as (s' & E & H); [exact canvas_wf|lia..|].
  exists s'. split; [exact E|]. split; [exact H|]. vm_compute in E. injection E as <-. reflexivity.
Defined.

End DrawLine.
