(* ===== verification/DrawClaims.v ===== *)
(** The drawing functions never leave the surface, whatever is drawn. *)
From stdpp Require Import base list.
From S2P Require Import Prelude.
From S2P Require Import CLib.
From S2P Require Import KString.
From S2P Require Import Rects.
From S2P Require Import Draw.
From S2P Require Import DrawPaint.
From S2P Require Import DrawLine.
Import KString Color Draw.

Module DrawClaims.
Import DrawPaint DrawShapes.

(** * Shapes *)

(** draw_pixel, draw_hline, draw_vline and draw_fill_rect blend the colour once into exactly the
    pixels of the shape that lie on the surface, and change no other pixel nor the padding of
    the rows. *)
Theorem draw_shapes_correct (s : NvSurface) (x y n c : Z) (r : NvRect) :
  wf s → small x → small y → small n → small_rect r →
  draw_pixel s x y c ⇓ painted c (λ x' y', here x y x' y' && on_surface s x' y') s ∧
  draw_hline s x y n c ⇓ painted c (hline s x y n) s ∧
  draw_vline s x y n c ⇓ painted c (vline s x y n) s ∧
  draw_fill_rect s r c ⇓ painted c (in_rect s r) s.
Proof.
  intros. split_and!; [by apply pixel_paint|by apply hline_paint|by apply vline_paint|by apply fill_rect_paint].
Qed.

Definition canvas : NvSurface := mkSurface (replicate 12 0) 3 3 4 true.
Lemma draw_shapes_correct_witness :
  draw_fill_rect canvas (mkRect 1 (-1) 5 3) 0xFF0000FF ⇓ λ s',
    painted 0xFF0000FF (in_rect canvas (mkRect 1 (-1) 5 3)) canvas s' ∧
    pixels s' = [0; 0xFF0000FF; 0xFF0000FF; 0; 0; 0xFF0000FF; 0xFF0000FF; 0; 0; 0; 0; 0].
Proof.
  destruct (draw_shapes_correct canvas 0 0 1 0xFF0000FF (mkRect 1 (-1) 5 3)) as (_ & _ & _ & s' & E & H);
    [split; cbn; unfold DIM; (lia || done)|unfold small; lia..|repeat split; unfold small; cbn; lia|].
  exists s'. split; [exact E|]. split; [exact H|]. vm_compute in E. injection E as <-. reflexivity.
Defined.

(** * Any sequence of drawing commands *)

(** A coordinate or an extent of a command. *)
Definition coord (x : Z) : Prop := Z.abs x ≤ DIM.
Definition coord_rect (r : NvRect) : Prop := coord (rx r) ∧ coord (ry r) ∧ coord (rw r) ∧ coord (rh r).

Ltac small_lia := unfold small, coord, DIM in *; lia.

Lemma rect_keeps s r c :
  wf s → Z.abs (rx r) < 2 ^ 20 → Z.abs (ry r) < 2 ^ 20 → Z.abs (rw r) < 2 ^ 20 → Z.abs (rh r) < 2 ^ 20 →
  keeps s (draw_rect s r c).
Proof.
  intros Hw H1 H2 H3 H4. unfold draw_rect. apply keeps_bind; [apply hline_keeps; (done || small_lia)|].
  intros s1 W1 _. apply keeps_int; [lia|]. apply keeps_int; [lia|].
  apply keeps_bind; [apply hline_keeps; (done || small_lia)|]. intros s2 W2 _.
  apply keeps_bind; [apply vline_keeps; (done || small_lia)|]. intros s3 W3 _.
  apply keeps_int; [lia|]. apply keeps_int; [lia|]. apply vline_keeps; (done || small_lia).
Qed.

Lemma rect_thick_keeps s r c t : wf s → coord_rect r → coord t → keeps s (draw_rect_thick s r c t).
Proof.
  intros Hw (H1 & H2 & H3 & H4) Ht. unfold draw_rect_thick, coord, DIM in *.
  destruct (t <=? 0); [by apply keeps_ok|]. apply keeps_for; [done|]. intros i s' Hi W' _.
  do 5 (apply keeps_int; [lia|]). apply rect_keeps; cbn [rx ry rw rh]; (done || lia).
Qed.

Lemma fill_rounded_keeps s r c rad :
  wf s → coord_rect r → coord rad → keeps s (draw_fill_rounded_rect s r c rad).
Proof.
  intros Hw (H1 & H2 & H3 & H4) Ht. unfold draw_fill_rounded_rect.
  destruct (rad <=? 0); [apply fill_rect_keeps; [done|]; repeat split; small_lia|]. cbv zeta.
  set (m := Z.quot _ 2). assert (Z.abs m ≤ DIM) as Hm.
  { unfold m, coord, DIM in *. clear - H3 H4. destruct (rw r <? rh r); Z.quot_rem_to_equations; lia. }
  set (d := if m <? rad then m else rad). assert (Z.abs d ≤ DIM) as Hd by (unfold d; destruct (m <? rad); done).
  clearbody d. clear m Hm. unfold coord, DIM in *.
  do 3 (apply keeps_int; [lia|]).
  apply keeps_bind; [apply fill_rect_keeps; [done|]; repeat split; cbn [rx ry rw rh]; small_lia|]. intros s1 W1 _.
  do 2 (apply keeps_int; [lia|]).
  apply keeps_bind; [apply fill_rect_keeps; [done|]; repeat split; cbn [rx ry rw rh]; small_lia|]. intros s2 W2 _.
  do 2 (apply keeps_int; [lia|]).
  apply keeps_bind; [apply fill_rect_keeps; [done|]; repeat split; cbn [rx ry rw rh]; small_lia|]. intros s3 W3 _.
  do 4 (apply keeps_int; [lia|]).
  apply keeps_for; [done|]. intros i s4 Hi W4 _. apply keeps_for; [done|]. intros j s5 Hj W5 _.
  do 4 (apply keeps_int; [nia|]). destruct (_ <=? _); [|by apply keeps_ok].
  do 2 (apply keeps_int; [lia|]). apply keeps_bind; [by apply pixel_keeps|]. intros s6 W6 _.
  apply keeps_int; [lia|]. apply keeps_bind; [by apply pixel_keeps|]. intros s7 W7 _.
  apply keeps_int; [lia|]. apply keeps_bind; [by apply pixel_keeps|]. intros s8 W8 _. by apply pixel_keeps.
Qed.

(** ** Arcs *)

(** The state of the three loops over an octant of radius [R]. *)
Definition arc (s : NvSurface) (R : Z) (st : NvSurface * Z * Z * Z) : Prop :=
  wf st.1.1.1 ∧ same_size s st.1.1.1 ∧ 0 ≤ st.1.1.2 ∧ st.1.1.2 ≤ st.1.2 + 2 ∧ st.1.2 ≤ R ∧
  - 4 * R - 10 ≤ st.2 ≤ 14 * R + 10 - 10 * st.1.2.

Lemma arc_loop s R body :
  wf s → 0 < R ≤ DIM →
  (∀ s' x y d, arc s R (s', x, y, d) → y < x → body (s', x, y, d) = Ok (inr s')) →
  (∀ s' x y d, arc s R (s', x, y, d) → x ≤ y →
     body (s', x, y, d) ⇓ λ r, ∃ s'' y' d', r = inl (s'', x + 1, y', d') ∧ arc s R (s'', x + 1, y', d') ∧ y' ≤ y) →
  keeps s (loop (S (S (Z.to_nat R))) body (s, 0, R, 3 - 2 * R)).
Proof.
  intros Hw HR Hend Hstep. unfold DIM in *.
  apply (wp_loop (arc s R) (λ st, Z.to_nat (st.1.2 - st.1.1.2 + 1))).
  - intros [[[s' x] y] d] Ha. destruct (Z.le_gt_cases x y) as [Hxy|Hxy].
    + eapply wp_mono; [by apply Hstep|]. intros r (s'' & y' & d' & -> & Ha' & Hy). cbn [fst snd].
      split; [done|]. destruct Ha as (_ & _ & ? & ? & ? & _). cbn [fst snd] in *. lia.
    + rewrite Hend by done. apply wp_ok. by destruct Ha as (? & ? & _).
  - unfold arc; cbn [fst snd]. split_and!; (done || lia).
  - cbn [fst snd]. lia.
Qed.

Lemma circle_next_ok s R x y d s' :
  arc s R (s', x, y, d) → x ≤ y → 0 < R ≤ DIM →
  circle_next x y d ⇓ λ '(d', y'), y - 1 ≤ y' ≤ y ∧ - 4 * R - 10 ≤ d' ≤ 14 * R + 10 - 10 * y'.
Proof.
  unfold DIM, arc. cbn [fst snd]. intros (_ & _ & Hx & Hxy & Hy & Hd) Hle HR. unfold circle_next.
  destruct (Z.ltb_spec d 0).
  - rewrite (int_ok (4 * x)) by lia. cbn [mbind outcome_bind]. rewrite (int_ok (4 * x + 6)) by lia. cbn [mbind outcome_bind].
    rewrite (int_ok (d + (4 * x + 6))) by lia. apply wp_ok. lia.
  - rewrite (int_ok (x - y)) by lia. cbn [mbind outcome_bind]. rewrite (int_ok (4 * (x - y))) by lia. cbn [mbind outcome_bind].
    rewrite (int_ok (4 * (x - y) + 10)) by lia. cbn [mbind outcome_bind].
    rewrite (int_ok (d + (4 * (x - y) + 10))) by lia. cbn [mbind outcome_bind].
    rewrite (int_ok (y - 1)) by lia. apply wp_ok. lia.
Qed.

(** The end of each round. *)
Lemma arc_next s R s' s'' x y d :
  arc s R (s', x, y, d) → x ≤ y → 0 < R ≤ DIM → wf s'' → same_size s' s'' →
  ('(d, y) ← circle_next x y d; x ← int (x + 1); Ok (inl (s'', x, y, d) : (NvSurface * Z * Z * Z) + NvSurface)) ⇓ λ r,
    ∃ s3 y' d', r = inl (s3, x + 1, y', d') ∧ arc s R (s3, x + 1, y', d') ∧ y' ≤ y.
Proof.
  intros Ha Hle HR Hw Hs. apply wp_bind. eapply wp_mono; [by eapply circle_next_ok|]. intros [d' y'] [Hy' Hd'].
  destruct Ha as (A1 & A2 & A3 & A4 & A5 & A6). cbn [fst snd] in *. unfold DIM in *.
  rewrite int_ok by lia. apply wp_ok. exists s'', y', d'. split; [done|]. split; [|lia].
  unfold arc; cbn [fst snd]. split_and!; (done || lia || by eapply same_size_trans).
Qed.

Lemma pixels_keeps l : ∀ s c,
  wf s → Forall (λ p : Z * Z, Z.abs p.1 < 2 ^ 30 ∧ Z.abs p.2 < 2 ^ 30) l → keeps s (draw_pixels s l c).
Proof.
  unfold draw_pixels.
  assert (∀ l s c, Forall (λ p : Z * Z, Z.abs p.1 < 2 ^ 30 ∧ Z.abs p.2 < 2 ^ 30) l → ∀ m, keeps s m →
    keeps s (foldl (λ m '(x, y), s ← m; x ← int x; y ← int y; draw_pixel s x y c) m l)) as H.
  { clear. induction 1 as [|[x y] l [H1 H2] _ IH]; intros m Hm; [done|]. cbn [fst snd foldl] in *. apply IH.
    apply keeps_bind; [done|]. intros s' W' _. do 2 (apply keeps_int; [lia|]). by apply pixel_keeps. }
  intros s c Hw Hl. apply H; [done|]. by apply keeps_ok.
Qed.

Lemma wp_draw {T} s (m : outcome NvSurface) (f : NvSurface → outcome T) Q :
  keeps s m → (∀ s', wf s' → same_size s s' → f s' ⇓ Q) → m ≫= f ⇓ Q.
Proof. intros Hm Hf. apply wp_bind. eapply wp_mono; [exact Hm|]. intros s' [H1 H2]. by apply Hf. Qed.

(** What is drawn in a round, followed by the end of the round. *)
Lemma arc_round s R s' x y d (m : outcome NvSurface) :
  arc s R (s', x, y, d) → x ≤ y → 0 < R ≤ DIM → keeps s' m →
  (s'' ← m; '(d, y) ← circle_next x y d; x ← int (x + 1); Ok (inl (s'', x, y, d) : (NvSurface * Z * Z * Z) + NvSurface)) ⇓ λ r,
    ∃ s3 y' d', r = inl (s3, x + 1, y', d') ∧ arc s R (s3, x + 1, y', d') ∧ y' ≤ y.
Proof.
  intros Ha Hle HR Hm. apply wp_bind. eapply wp_mono; [exact Hm|]. intros s'' [W2 S2]. by eapply arc_next.
Qed.

Lemma arc_done x y : y < x → negb (x <=? y) = true.
Proof. intros. rewrite negb_true_iff. by apply Z.leb_gt. Qed.
Lemma arc_goes x y : x ≤ y → negb (x <=? y) = false.
Proof. intros. rewrite negb_false_iff. by apply Z.leb_le. Qed.

Ltac coords := repeat (apply Forall_cons; split; [cbn [fst snd]; lia|]); apply Forall_nil; done.

Lemma circle_keeps s cx cy R c : wf s → coord cx → coord cy → coord R → keeps s (draw_circle s cx cy R c).
Proof.
  intros Hw Hx Hy HR. unfold draw_circle, coord, DIM in *. destruct (Z.leb_spec R 0); [by apply keeps_ok|].
  do 2 (apply keeps_int; [lia|]). apply arc_loop; [done|unfold DIM; lia| |].
  - intros s' x y d _ Hxy. unfold circle_step. by rewrite arc_done.
  - intros s' x y d Ha Hxy. unfold circle_step. rewrite arc_goes by done. apply (arc_round s R s'); [done|done|unfold DIM; lia|].
    pose proof Ha as (W' & _ & A1 & A2 & A3 & _). cbn [fst snd] in *. apply pixels_keeps; [done|]. coords.
Qed.

Lemma fill_circle_keeps s cx cy R c : wf s → coord cx → coord cy → coord R → keeps s (draw_fill_circle s cx cy R c).
Proof.
  intros Hw Hx Hy HR. unfold draw_fill_circle, coord, DIM in *. destruct (Z.leb_spec R 0); [by apply keeps_ok|].
  do 2 (apply keeps_int; [lia|]). apply arc_loop; [done|unfold DIM; lia| |].
  - intros s' x y d _ Hxy. unfold fill_circle_step. by rewrite arc_done.
  - intros s' x y d Ha Hxy. unfold fill_circle_step. rewrite arc_goes by done.
    pose proof Ha as (W' & _ & A1 & A2 & A3 & _). cbn [fst snd] in *.
    assert (∀ x y w s1, wf s1 → Z.abs x < 2 ^ 20 → Z.abs y < 2 ^ 20 → Z.abs w < 2 ^ 20 → keeps s1 (draw_hline s1 x y w c)) as Hh.
    { intros. apply hline_keeps; (done || small_lia). }
    do 4 (apply wp_bind, wp_int; [lia|]). apply (wp_draw s'); [apply Hh; (done || lia)|]. intros s1 W1 S1.
    apply wp_bind, wp_int; [lia|]. apply (wp_draw s1); [apply Hh; (done || lia)|]. intros s2 W2 S2.
    do 4 (apply wp_bind, wp_int; [lia|]). apply (wp_draw s2); [apply Hh; (done || lia)|]. intros s3 W3 S3.
    apply wp_bind, wp_int; [lia|]. apply (wp_draw s3); [apply Hh; (done || lia)|]. intros s4 W4 S4.
    apply (arc_next s R s'); [done|done|unfold DIM; lia|done|]. by repeat (eapply same_size_trans; [eassumption|]).
Qed.

Lemma rounded_keeps s r c rad : wf s → coord_rect r → coord rad → keeps s (draw_rounded_rect s r c rad).
Proof.
  intros Hw (H1 & H2 & H3 & H4) Ht. unfold draw_rounded_rect, coord, DIM in *. destruct (Z.leb_spec rad 0).
  { apply rect_keeps; (done || lia). }
  cbv zeta. assert (∀ x y w s1, wf s1 → Z.abs x < 2 ^ 20 → Z.abs y < 2 ^ 20 → Z.abs w < 2 ^ 20 →
    keeps s1 (draw_hline s1 x y w c) ∧ keeps s1 (draw_vline s1 x y w c)) as Hh.
  { intros. split; [apply hline_keeps|apply vline_keeps]; (done || small_lia). }
  do 7 (apply keeps_int; [lia|]). apply keeps_bind; [apply Hh; (done || lia)|]. intros s1 W1 _.
  apply keeps_bind; [apply Hh; (done || lia)|]. intros s2 W2 _.
  do 2 (apply keeps_int; [lia|]). apply keeps_bind; [apply Hh; (done || lia)|]. intros s3 W3 _.
  apply keeps_bind; [apply Hh; (done || lia)|]. intros s4 W4 _.
  do 3 (apply keeps_int; [lia|]). apply arc_loop; [done|unfold DIM; lia| |].
  - intros s' x y d _ Hxy. unfold round_step. by rewrite arc_done.
  - intros s' x y d Ha Hxy. unfold round_step. rewrite arc_goes by done.
    apply (arc_round s4 rad s'); [done|done|unfold DIM; lia|].
    pose proof Ha as (W' & _ & A1 & A2 & A3 & _). cbn [fst snd] in *. apply pixels_keeps; [done|]. coords.
Qed.

(** ** Gradients and images *)
(** The weight of a gradient is an [int]. *)
Lemma weight_int a b : Z.abs a < 2 ^ 31 → b ≠ 0 → -2147483648 ≤ Z.quot a b < 2147483648.
Proof.
  intros Ha Hb. assert (Z.abs (Z.quot a b) ≤ Z.abs a); [|lia].
  rewrite <-Z.quot_abs by done. apply Z.quot_le_upper_bound; [lia|]. nia.
Qed.

Lemma gradient_h_keeps s r l t :
  wf s → coord_rect r → (rw r ≠ 1 ∨ rh r ≤ 0) → keeps s (draw_gradient_h s r l t).
Proof.
  intros Hw (H1 & H2 & H3 & H4) Hn. unfold draw_gradient_h, coord, DIM in *. apply keeps_int; [lia|].
  apply keeps_for; [done|]. intros i s1 Hi W1 _. apply keeps_for; [done|]. intros j s2 Hj W2 _.
  do 2 (apply keeps_int; [lia|]). unfold idiv. rewrite (proj2 (Z.eqb_neq _ _)) by lia.
  apply keeps_int; [apply weight_int; lia|]. apply keeps_int; [lia|]. by apply pixel_keeps.
Qed.

Lemma gradient_v_keeps s r l t : wf s → coord_rect r → rh r ≠ 1 → keeps s (draw_gradient_v s r l t).
Proof.
  intros Hw (H1 & H2 & H3 & H4) Hn. unfold draw_gradient_v, coord, DIM in *.
  apply keeps_for; [done|]. intros j s2 Hj W2 _.
  do 2 (apply keeps_int; [lia|]). unfold idiv. rewrite (proj2 (Z.eqb_neq _ _)) by lia.
  apply keeps_int; [apply weight_int; lia|]. apply keeps_int; [lia|]. apply hline_keeps; (done || small_lia).
Qed.

Lemma scale_in_source p n m : 0 ≤ p < m → 0 < n → n ≤ DIM → m ≤ DIM → scale p n m ⇓ λ q, 0 ≤ q < n.
Proof.
  unfold DIM, scale, idiv. intros Hp Hn H1 H2. apply wp_bind, wp_int; [nia|]. rewrite (proj2 (Z.eqb_neq _ _)) by lia.
  apply wp_bind, wp_int; [Z.quot_rem_to_equations; nia|].
  destruct (Z.leb_spec n (Z.quot (p * n) m)); [apply wp_int; lia|apply wp_ok; Z.quot_rem_to_equations; nia].
Qed.

Lemma image_keeps s px w h x y dw dh :
  wf s → 0 < w ≤ DIM → 0 < h ≤ DIM → zlen px = w * h → coord x → coord y → coord dw → coord dh →
  keeps s (draw_image_scaled s px w h x y dw dh).
Proof.
  intros Hw H1 H2 Hl H3 H4 H5 H6. unfold draw_image_scaled. destruct (_ || _); [by apply keeps_ok|].
  apply keeps_for; [done|]. intros i s1 Hi W1 _. apply wp_bind.
  eapply wp_mono; [apply scale_in_source; small_lia|]. intros sy Hsy.
  apply keeps_for; [done|]. intros j s2 Hj W2 _. apply wp_bind.
  eapply wp_mono; [apply scale_in_source; small_lia|]. intros sx Hsx. unfold coord, DIM in *.
  do 2 (apply keeps_int; [nia|]). apply wp_bind, wp_zget; [nia|]. intros c _.
  do 2 (apply keeps_int; [lia|]). by apply pixel_keeps.
Qed.

Lemma clear_keeps s c : wf s → keeps s (surface_clear s c).
Proof.
  intros Hw. pose proof Hw as [W1 W2 W3 W4]. unfold surface_clear, DIM in *. apply keeps_int; [nia|].
  apply keeps_for; [done|]. intros i s1 Hi V1 (S1 & S2 & S3). unfold put.
  rewrite zset_ok by (rewrite (wf_len _ V1), S2, S3; lia). apply wp_ok. split; [|done].
  destruct V1 as [V1 V2 V3 V4]. split; cbn; [done..|]. by rewrite zlen_insert.
Qed.

Lemma line_keeps s x0 y0 x1 y1 c : wf s → coord x0 → coord y0 → coord x1 → coord y1 → keeps s (draw_line s x0 y0 x1 y1 c).
Proof.
  unfold coord, DIM. intros. eapply wp_mono; [apply DrawLine.line_ok; (done || lia)|].
  intros s' (l & _ & Hp). split; [by eapply painted_wf|by eapply painted_size].
Qed.

Lemma blit_keeps d s dx dy sx sy w h :
  wf d → wf s → coord dx → coord dy → coord sx → coord sy → coord w → coord h → keeps d (surface_blit d s dx dy sx sy w h).
Proof.
  unfold coord, DIM. intros. eapply wp_mono; [apply DrawBlit.blit_ok; (done || lia)|]. by intros s' (? & ? & _).
Qed.

(** Clipping against one surface: a start that is not negative, and a length that ends before the limit. *)
Lemma clip_low_coord a b w : coord a → coord b → coord w → clip_low a b w = Ok (Z.max 0 a, b + Z.max 0 (- a), w - Z.max 0 (- a)).
Proof.
  unfold coord, DIM. intros. unfold clip_low. destruct (Z.ltb_spec a 0); [rewrite !int_ok by lia; cbn [mbind outcome_bind]|]; do 3 f_equal; lia.
Qed.
Lemma clip_high_coord a w lim : 0 ≤ a < 2 ^ 20 → - 2 ^ 20 < w < 2 ^ 20 → 0 ≤ lim < 2 ^ 20 → clip_high a w lim = Ok (Z.min w (lim - a)).
Proof. intros. unfold clip_high. rewrite !int_ok by lia. cbn [mbind outcome_bind]. destruct (Z.ltb_spec lim (a + w)); f_equal; lia. Qed.

Lemma index_bounds x y p h : 0 ≤ x < p → 0 ≤ y < h → p ≤ 16384 → h ≤ 16384 →
  0 ≤ y * p ∧ 0 ≤ y * p + x < p * h ∧ p * h ≤ 268435456.
Proof. intros. nia. Qed.

Lemma blit_alpha_keeps d s dx dy sx sy w h :
  wf d → wf s → coord dx → coord dy → coord w → coord h → 0 ≤ sx → sx + w ≤ width s → 0 ≤ sy → sy + h ≤ height s →
  sx ≤ DIM → sy ≤ DIM → keeps d (surface_blit_alpha d s dx dy sx sy w h).
Proof.
  intros Hd Hs Cx Cy Cw Ch X0 X1 Y0 Y1 Bx By. pose proof Hd as [D1 D2 D3 D4]. pose proof Hs as [S1 S2 S3 S4]. unfold surface_blit_alpha.
  assert (coord sx ∧ coord sy) as [Csx Csy] by (unfold coord, DIM in *; lia). rewrite !clip_low_coord by done. cbn [mbind outcome_bind].
  unfold coord, DIM in *. rewrite clip_high_coord by lia. cbn [mbind outcome_bind]. rewrite clip_high_coord by lia. cbn [mbind outcome_bind].
  set (w' := Z.min _ _). set (h' := Z.min _ _). destruct (_ || _); [by apply keeps_ok|].
  apply keeps_for; [done|]. intros row d1 Hrow V1 (E1 & E2 & E3). apply keeps_for; [done|]. intros col d2 Hcol V2 (F1 & F2 & F3).
  do 2 (apply keeps_int; [lia|]). assert (0 ≤ sy + Z.max 0 (- dy) + row < height s) as Hys by lia.
  assert (0 ≤ sx + Z.max 0 (- dx) + col < width s) as Hxs by lia. set (ys := sy + _ + row) in *. set (xs := sx + _ + col) in *.
  destruct (index_bounds xs ys (pitch s) (height s)) as (I1 & I2 & I3); [lia..|]. clearbody xs ys.
  do 2 (apply keeps_int; [lia|]). apply wp_bind, wp_zget; [rewrite S4; lia|]. intros sp _.
  do 2 (apply keeps_int; [lia|]). assert (in_rows d2 (Z.max 0 dx + col) (Z.max 0 dy + row)) as Hin.
  { unfold in_rows. lia. }
  pose proof Hin as [Hin1 Hin2]. destruct (index_bounds (Z.max 0 dx + col) (Z.max 0 dy + row) (pitch d2) (height d2)) as (J1 & J2 & J3); [lia..|].
  do 2 (apply keeps_int; [lia|]). eapply keeps_painted, put_blend; [done|done].
Qed.

(** The region and its copy lie on the surface. *)
Definition region (s : NvSurface) (x y w h : Z) : Prop :=
  0 ≤ w ∧ 0 ≤ h ∧ 0 ≤ x ∧ x + w ≤ width s ∧ 0 ≤ y ∧ y + h ≤ height s.

Lemma move_row_keeps s dx dy sx sy w h i :
  wf s → region s dx dy w h → region s sx sy w h → 0 ≤ i < h → keeps s (move_row s dx dy sx sy w i).
Proof.
  intros Hw (D1 & D2 & D3 & D4 & D5 & D6) (E1 & E2 & E3 & E4 & E5 & E6) Hi. pose proof Hw as [W1 W2 W3 W4].
  unfold move_row, offset, DIM in *. do 2 (apply keeps_int; [lia|]).
  rewrite row_int by (done || lia). cbn [mbind outcome_bind]. rewrite row_int by (done || lia). cbn [mbind outcome_bind].
  rewrite c_memmove_ok by nia. apply wp_ok. split; [|done]. split; cbn; [done..|].
  rewrite zlen_splice; [done|nia|]. rewrite zlen_slice by nia. nia.
Qed.

Lemma copy_region_keeps s dx dy sx sy w h :
  wf s → region s dx dy w h → region s sx sy w h → keeps s (draw_copy_region s dx dy sx sy w h).
Proof.
  intros Hw Hd Hs. unfold draw_copy_region. pose proof Hw as [W1 W2 W3 W4]. unfold DIM in *.
  assert (∀ i s', 0 ≤ i < h → wf s' → same_size s s' → keeps s' (move_row s' dx dy sx sy w i)) as Hm.
  { intros i s' Hi W' (S1 & S2 & S3). apply (move_row_keeps s' dx dy sx sy w h); [done| | |done];
      unfold region in *; rewrite S1, S2; done. }
  destruct (sy <? dy).
  - apply keeps_int; [unfold region in *; lia|]. apply keeps_for; [done|]. intros i s' Hi. apply Hm. lia.
  - apply keeps_for; [done|]. intros i s' Hi. by apply Hm.
Qed.

(** ** The commands *)
Inductive cmd :=
  | Clear (c : Z) | Pixel (x y c : Z) | HLine (x y w c : Z) | VLine (x y h c : Z)
  | FillRect (r : NvRect) (c : Z) | Rect (r : NvRect) (c : Z) | RectThick (r : NvRect) (c t : Z)
  | FillRounded (r : NvRect) (c rad : Z) | Rounded (r : NvRect) (c rad : Z)
  | Line (x0 y0 x1 y1 c : Z) | Triangle (x0 y0 x1 y1 x2 y2 c : Z)
  | Circle (x y r c : Z) | FillCircle (x y r c : Z)
  | GradientH (r : NvRect) (a b : Z) | GradientV (r : NvRect) (a b : Z)
  | Image (px : list Z) (w h x y dw dh : Z) | Blit (src : NvSurface) (dx dy sx sy w h : Z) | BlitAlpha (src : NvSurface) (dx dy sx sy w h : Z)
  | Copy (dx dy sx sy w h : Z).

Definition draw (s : NvSurface) (k : cmd) : outcome NvSurface :=
  match k with
  | Clear c => surface_clear s c | Pixel x y c => draw_pixel s x y c
  | HLine x y w c => draw_hline s x y w c | VLine x y h c => draw_vline s x y h c
  | FillRect r c => draw_fill_rect s r c | Rect r c => draw_rect s r c | RectThick r c t => draw_rect_thick s r c t
  | FillRounded r c rad => draw_fill_rounded_rect s r c rad | Rounded r c rad => draw_rounded_rect s r c rad
  | Line x0 y0 x1 y1 c => draw_line s x0 y0 x1 y1 c
  | Triangle x0 y0 x1 y1 x2 y2 c => draw_triangle s x0 y0 x1 y1 x2 y2 c
  | Circle x y r c => draw_circle s x y r c | FillCircle x y r c => draw_fill_circle s x y r c
  | GradientH r a b => draw_gradient_h s r a b | GradientV r a b => draw_gradient_v s r a b
  | Image px w h x y dw dh => draw_image_scaled s px w h x y dw dh
  | Blit src dx dy sx sy w h => surface_blit s src dx dy sx sy w h
  | BlitAlpha src dx dy sx sy w h => surface_blit_alpha s src dx dy sx sy w h
  | Copy dx dy sx sy w h => draw_copy_region s dx dy sx sy w h
  end.

(** Coordinates are at most [DIM]; what the functions do not check is required:
    a gradient is not one pixel wide, a region lies on the surface, and what is
    blended from another surface lies on that one. *)
Definition cmd_ok (s : NvSurface) (k : cmd) : Prop :=
  match k with
  | Clear _ | Pixel _ _ _ => True
  | HLine x y w _ | VLine x y w _ | Circle x y w _ | FillCircle x y w _ => coord x ∧ coord y ∧ coord w
  | FillRect r _ | Rect r _ => coord_rect r
  | RectThick r _ t | FillRounded r _ t | Rounded r _ t => coord_rect r ∧ coord t
  | Line x0 y0 x1 y1 _ => coord x0 ∧ coord y0 ∧ coord x1 ∧ coord y1
  | Triangle x0 y0 x1 y1 x2 y2 _ => (coord x0 ∧ coord y0 ∧ coord x1 ∧ coord y1) ∧ coord x2 ∧ coord y2
  | GradientH r _ _ => coord_rect r ∧ (rw r ≠ 1 ∨ rh r ≤ 0)
  | GradientV r _ _ => coord_rect r ∧ rh r ≠ 1
  | Image px w h x y dw dh => 0 < w ≤ DIM ∧ 0 < h ≤ DIM ∧ zlen px = w * h ∧ coord x ∧ coord y ∧ coord dw ∧ coord dh
  | Blit src dx dy sx sy w h => wf src ∧ coord dx ∧ coord dy ∧ coord sx ∧ coord sy ∧ coord w ∧ coord h
  | BlitAlpha src dx dy sx sy w h => wf src ∧ coord dx ∧ coord dy ∧ coord w ∧ coord h ∧
      0 ≤ sx ≤ DIM ∧ sx + w ≤ width src ∧ 0 ≤ sy ≤ DIM ∧ sy + h ≤ height src
  | Copy dx dy sx sy w h => region s dx dy w h ∧ region s sx sy w h
  end.

Lemma draw_keeps s k : wf s → cmd_ok s k → keeps s (draw s k).
Proof.
  intros Hw Hk. destruct k; cbn [draw cmd_ok] in *; destruct_and?.
  - by apply clear_keeps.
  - by apply pixel_keeps.
  - apply hline_keeps; (done || small_lia).
  - apply vline_keeps; (done || small_lia).
  - apply fill_rect_keeps; [done|]. unfold coord_rect, small_rect in *. small_lia.
  - unfold coord_rect in *. apply rect_keeps; (done || small_lia).
  - by apply rect_thick_keeps.
  - by apply fill_rounded_keeps.
  - by apply rounded_keeps.
  - by apply line_keeps.
  - unfold draw_triangle. apply keeps_bind; [by apply line_keeps|]. intros s1 W1 _.
    apply keeps_bind; [by apply line_keeps|]. intros s2 W2 _. by apply line_keeps.
  - by apply circle_keeps.
  - by apply fill_circle_keeps.
  - by apply gradient_h_keeps.
  - by apply gradient_v_keeps.
  - by apply image_keeps.
  - by apply blit_keeps.
  - by apply blit_alpha_keeps.
  - by apply copy_region_keeps.
Qed.

Fixpoint draws (s : NvSurface) (ks : list cmd) : outcome NvSurface :=
  match ks with [] => Ok s | k :: ks => s ← draw s k; draws s ks end.

Lemma cmd_ok_size s s' k : same_size s s' → cmd_ok s k → cmd_ok s' k.
Proof. intros (S1 & S2 & S3). destruct k; cbn; try done. unfold region. by rewrite S1, S2. Qed.

Lemma draws_keeps ks : ∀ s, wf s → Forall (cmd_ok s) ks → keeps s (draws s ks).
Proof.
  induction ks as [|k ks IH]; intros s Hw Hk; [by apply keeps_ok|]. apply Forall_cons in Hk as [Hk Hks].
  cbn [draws]. apply keeps_bind; [by apply draw_keeps|]. intros s' W' S'. apply IH; [done|].
  eapply Forall_impl; [exact Hks|]. intros k'. by apply cmd_ok_size.
Qed.

(** C30: Any sequence of drawing commands (clear, pixels, lines, rectangles, rounded rectangles,
    circles, triangles, gradients, scaled images, plain and blended blits, and copies) on a
    surface of at most 16384 pixels each way that surface_new returns terminates without
    overflow or access outside of the pixels and keeps the size of the surface, if coordinates
    and sizes are at most 16384 in absolute value, a horizontal gradient is not one pixel wide
    (unless empty) and a vertical one not one pixel high, an image has width times height pixels
    and 1 to 16384 of them each way, both regions of a copy lie on the surface, and the block of
    a blended blit lies on its source. *)
Theorem draw_commands_safe (A : allocator) (n : nat) (w h : Z) (ks : list cmd) :
  w ≤ DIM → h ≤ DIM →
  (∀ s, surface_new A n w h = Ok (Some s) → Forall (cmd_ok s) ks) →
  surface_new A n w h ⇓ λ o, ∀ s, o = Some s →
    (width s = w ∧ height s = h) ∧ draws s ks ⇓ λ s', wf s' ∧ same_size s s'.
Proof.
  intros Hw Hh Hk. unfold surface_new in *. destruct (Z.leb_spec w 0); cbn [orb]; [by apply wp_ok|].
  destruct (Z.leb_spec h 0); [by apply wp_ok|]. destruct (avail A n _); cbn [negb] in *; [|by apply wp_ok].
  unfold DIM in *. rewrite int_ok in * by nia. cbn [mbind outcome_bind orb] in *.
  destruct (avail A (S n) _); cbn [negb] in *; [|by apply wp_ok]. apply wp_ok. intros s [= <-].
  split; [done|]. apply draws_keeps; [|by apply Hk].
  split; cbn; unfold DIM; [lia|lia|lia|]. unfold zlen. rewrite length_replicate. nia.
Qed.

Definition always : allocator := Build_allocator (λ _ _, true) (λ _ _, 0).
Definition demo : list cmd :=
  [Clear 0xFF000000; FillRect (mkRect (-3) 2 9 100) 0x80FFFFFF; Rounded (mkRect 0 0 20 20) 0xFFFF0000 30;
   Line (-50) 3 60 12 0xFF00FF00; FillCircle 5 5 7 0x40112233; GradientH (mkRect 3 3 40 2) 0 0xFFFFFFFF;
   Copy 1 1 0 0 5 5].
Lemma draw_commands_safe_witness :
  surface_new always 0 16 12 ⇓ λ o, ∀ s, o = Some s →
    (width s = 16 ∧ height s = 12) ∧ draws s demo ⇓ λ s', wf s' ∧ same_size s s'.
Proof.
  apply draw_commands_safe; [unfold DIM; lia..|]. intros s E. vm_compute in E. injection E as <-.
  repeat (apply Forall_cons; split); try apply Forall_nil; try exact I; unfold cmd_ok, coord_rect, coord, region, DIM; cbn; lia.
Defined.

(** A gradient one pixel wide divides by zero, and a region that does not lie on
    the surface is copied from outside of it. *)
Lemma gradient_one_unsound : draw_gradient_h canvas (mkRect 0 0 1 1) 0 1 = Undef ∧ draw_gradient_v canvas (mkRect 0 0 1 1) 0 1 = Undef.
Proof. split; reflexivity. Qed.
Lemma copy_region_unsound : draw_copy_region canvas 0 0 0 2 3 2 = Undef.
Proof. reflexivity. Qed.

End DrawClaims.
