(* ===== verification/LibcString.v ===== *)
(** The string functions of the C library of the user-space programs
    (userland/libc/src/string.c).

    A [const char *] is the list of bytes from the pointer to the end of its
    object, bytes being 0 to 255; a pointer that a function returns is an
    offset into its argument, [None] is NULL.  A function that writes takes
    the whole object and returns it. *)
From stdpp Require Import base list.
From Stdlib Require Import String Ascii.
From S2P Require Import Prelude.
From S2P Require Import KString.
From S2P Require Import CLib.
Import KString (slice, splice, is_cstr).

Module LibcString.

(** * Memory *)
Definition memcpy (dst : list Z) (d : Z) (src : list Z) (s n : Z) : outcome (list Z) :=
  for_each 0 n (λ i dst, b ← zget src (s + i); zset dst (d + i) b) dst.

(** [memmove(mem + d, mem + s, n)] inside one object. *)
Definition memmove (mem : list Z) (d s n : Z) : outcome (list Z) :=
  if d <? s then for_each 0 n (λ i mem, b ← zget mem (s + i); zset mem (d + i) b) mem
  else for_each 0 n (λ i mem, b ← zget mem (s + n - 1 - i); zset mem (d + n - 1 - i) b) mem.

Definition memset (mem : list Z) (s c n : Z) : outcome (list Z) :=
  for_each 0 n (λ i mem, zset mem (s + i) (u8 c)) mem.

Definition memcmp (a b : list Z) (n : Z) : outcome Z :=
  r ← for_loop 0 n
        (λ i (_ : unit), x ← zget a i; y ← zget b i; if x =? y then Ok (inl tt) else Ok (inr (x - y))) tt;
  match r with inl _ => Ok 0 | inr d => Ok d end.

Definition memchr (s : list Z) (c n : Z) : outcome (option Z) :=
  r ← for_loop 0 n (λ i (_ : unit), x ← zget s i; if x =? u8 c then Ok (inr i) else Ok (inl tt)) tt;
  match r with inl _ => Ok None | inr i => Ok (Some i) end.

(** * Length and copies *)
Fixpoint strlen (s : list Z) : outcome Z :=
  match s with
  | [] => Undef
  | c :: s' => if c =? 0 then Ok 0 else n ← strlen s'; Ok (n + 1)
  end.

Definition strnlen (s : list Z) (maxlen : Z) : outcome Z :=
  loop (S (length s))
    (λ n, if n <? maxlen then c ← zget s n; if c =? 0 then Ok (inr n) else Ok (inl (n + 1)) else Ok (inr n)) 0.

(** The loop that copies up to and with the zero byte, to offset [d]. *)
Definition copy_string (dst : list Z) (d : Z) (src : list Z) : outcome (list Z) :=
  loop (S (length src))
    (λ '(i, dst), c ← zget src i; dst ← zset dst (d + i) c;
                  if c =? 0 then Ok (inr dst) else Ok (inl (i + 1, dst))) (0, dst).

Definition strcpy (dst src : list Z) : outcome (list Z) := copy_string dst 0 src.

(** The first loop of [strncpy]: the position behind the last byte written, the
    rest of [n], and the object. *)
Definition strncpy_copy (src : list Z) (st : Z * Z * list Z) : outcome ((Z * Z * list Z) + (Z * Z * list Z)) :=
  let '(i, n, dst) := st in
  if n =? 0 then Ok (inr (i, n, dst))
  else
    c ← zget src i;
    dst ← zset dst i c;
    if c =? 0 then Ok (inr (i + 1, n, dst)) else Ok (inl (i + 1, n - 1, dst)).

Definition strncpy (dst src : list Z) (n : Z) : outcome (list Z) :=
  '(i, n, dst) ← loop (S (length src)) (strncpy_copy src) (0, n, dst);
  for_each 0 n (λ j dst, zset dst (i + j) 0) dst.

Definition strcat (dst src : list Z) : outcome (list Z) :=
  d ← strlen dst; copy_string dst d src.

(** The position behind the last byte written, and the object. *)
Definition strncat_copy (src : list Z) (d0 : Z) (st : Z * Z * list Z) : outcome ((Z * Z * list Z) + (Z * list Z)) :=
  let '(i, n, dst) := st in
  if n =? 0 then Ok (inr (d0 + i, dst))
  else
    c ← zget src i;
    dst ← zset dst (d0 + i) c;
    if c =? 0 then Ok (inr (d0 + i + 1, dst)) else Ok (inl (i + 1, n - 1, dst)).

Definition strncat (dst src : list Z) (n : Z) : outcome (list Z) :=
  d ← strlen dst;
  '(d, dst) ← loop (S (length src)) (strncat_copy src d) (0, n, dst);
  c ← zget dst (d - 1);
  if c =? 0 then Ok dst else zset dst d 0.

(** * Comparison *)
Fixpoint strcmp (a b : list Z) {struct a} : outcome Z :=
  match a, b with
  | x :: a', y :: b' => if negb (x =? 0) && (x =? y) then strcmp a' b' else Ok (u8 x - u8 y)
  | _, _ => Undef
  end.

Definition to_lower (c : Z) : Z := if (65 <=? c) && (c <=? 90) then c + 32 else c.

Fixpoint strcasecmp (a b : list Z) {struct a} : outcome Z :=
  match a, b with
  | x :: a', y :: b' =>
      if negb (x =? 0) && (to_lower x =? to_lower y) then strcasecmp a' b' else Ok (to_lower x - to_lower y)
  | _, _ => Undef
  end.

Fixpoint strncasecmp (a b : list Z) (n : nat) {struct n} : outcome Z :=
  match n with
  | O => Ok 0
  | S n =>
      match a, b with
      | x :: a', y :: b' =>
          if negb (x =? 0) && (to_lower x =? to_lower y) then strncasecmp a' b' n else Ok (to_lower x - to_lower y)
      | _, _ => Undef
      end
  end.

(** * Search *)
Fixpoint strchr (s : list Z) (c : Z) : outcome (option Z) :=
  match s with
  | [] => Undef
  | x :: s' =>
      if x =? 0 then Ok (if c =? 0 then Some 0 else None)
      else if x =? u8 c then Ok (Some 0)
      else r ← strchr s' c; Ok (fmap (M := option) Z.succ r)
  end.

(** [last] is the last match so far, [i] the position. *)
Fixpoint strrchr_from (s : list Z) (c i : Z) (last : option Z) : outcome (option Z) :=
  match s with
  | [] => Undef
  | x :: s' =>
      if x =? 0 then Ok (if c =? 0 then Some i else last)
      else strrchr_from s' c (i + 1) (if x =? u8 c then Some i else last)
  end.
Definition strrchr (s : list Z) (c : Z) : outcome (option Z) := strrchr_from s c 0 None.

Fixpoint strstr_from (needle : list Z) (nlen : Z) (haystack : list Z) : outcome (option Z) :=
  match haystack with
  | [] => Undef
  | x :: rest =>
      if x =? 0 then Ok None
      else
        y ← zget needle 0;
        d ← (if x =? y then memcmp haystack needle nlen else Ok 1);
        if d =? 0 then Ok (Some 0) else r ← strstr_from needle nlen rest; Ok (fmap (M := option) Z.succ r)
  end.
Definition strstr (haystack needle : list Z) : outcome (option Z) :=
  c ← zget needle 0;
  if c =? 0 then Ok (Some 0) else nlen ← strlen needle; strstr_from needle nlen haystack.

Fixpoint strspn (s accept : list Z) : outcome Z :=
  match s with
  | [] => Undef
  | c :: s' =>
      if c =? 0 then Ok 0
      else m ← strchr accept c; match m with Some _ => n ← strspn s' accept; Ok (n + 1) | None => Ok 0 end
  end.

Fixpoint strcspn (s reject : list Z) : outcome Z :=
  match s with
  | [] => Undef
  | c :: s' =>
      if c =? 0 then Ok 0
      else m ← strchr reject c; match m with None => n ← strcspn s' reject; Ok (n + 1) | Some _ => Ok 0 end
  end.

Fixpoint strpbrk (s accept : list Z) : outcome (option Z) :=
  match s with
  | [] => Undef
  | c :: s' =>
      if c =? 0 then Ok None
      else
        m ← strchr accept c;
        match m with Some _ => Ok (Some 0) | None => r ← strpbrk s' accept; Ok (fmap (M := option) Z.succ r) end
  end.

(** * Tokens

    [buf] is the object that the string and the saved pointer point into. *)
Definition strtok_r (buf : list Z) (s : option Z) (delim : list Z) (saveptr : option Z)
  : outcome (option Z * option Z * list Z) :=
  let saveptr := match s with Some p => Some p | None => saveptr end in
  match saveptr with
  | None => Ok (None, None, buf)
  | Some p =>
      n ← strspn (drop (Z.to_nat p) buf) delim;
      let s := p + n in
      c ← zget buf s;
      if c =? 0 then Ok (None, None, buf)
      else
        m ← strcspn (drop (Z.to_nat s) buf) delim;
        let end_ := s + m in
        e ← zget buf end_;
        if e =? 0 then Ok (Some s, None, buf)
        else buf ← zset buf end_ 0; Ok (Some s, Some (end_ + 1), buf)
  end.

(** * Copies on the heap: the [k]-th request *)
Definition strdup (A : allocator) (k : nat) (s : list Z) : outcome (option (list Z)) :=
  n ← strlen s;
  let len := n + 1 in
  if avail A k len then out ← memcpy (fresh A k len) 0 s 0 len; Ok (Some out) else Ok None.

Definition strndup (A : allocator) (k : nat) (s : list Z) (n : Z) : outcome (option (list Z)) :=
  len ← strnlen s n;
  if avail A k (len + 1)
  then out ← memcpy (fresh A k (len + 1)) 0 s 0 len; out ← zset out len 0; Ok (Some out)
  else Ok None.

(** * Messages *)
Definition bytes_of (s : string) : list Z := (λ a, Z.of_nat (nat_of_ascii a)) <$> list_ascii_of_string s.

Definition error_strings : list (list Z) := bytes_of <$>
  ["success"; "operation not permitted"; "no such file or directory"; "no such process";
   "interrupted system call"; "input/output error"; "no such device or address";
   "argument list too long"; "exec format error"; "bad file descriptor"; "no child processes";
   "resource temporarily unavailable"; "out of memory"; "permission denied"; "bad address";
   "block device required"; "device or resource busy"; "file exists"; "invalid cross-device link";
   "no such device"; "not a directory"; "is a directory"; "invalid argument";
   "too many open files in system"; "too many open files"; "inappropriate ioctl for device";
   "text file busy"; "file too large"; "no space left on device"; "illegal seek";
   "read-only file system"; "too many links"; "broken pipe"; "numerical argument out of domain";
   "numerical result out of range"; "resource deadlock avoided"; "file name too long";
   "no locks available"; "function not implemented"; "directory not empty";
   "too many levels of symbolic links"]%string.

(** The digits of [n], the last one first, in [tmp]. *)
Definition error_digits (n : Z) (tmp : list Z) : outcome (Z * list Z) :=
  loop 33
    (λ '(n, i, tmp),
       tmp ← zset tmp i (48 + Z.rem n 10);
       let n := Z.quot n 10 in
       if n =? 0 then Ok (inr (i + 1, tmp)) else Ok (inl (n, i + 1, tmp))) (n, 0, tmp).

(** [tmp] is the uninitialised local array and [buf] the static one; the result
    is the string and the static array. *)
Definition strerror (errnum : Z) (tmp buf : list Z) : outcome (list Z * list Z) :=
  let max := zlen error_strings in
  if (0 <=? errnum) && (errnum <? max) then s ← zget error_strings errnum; Ok (s ++ [0], buf)
  else
    n ← (if errnum <? 0 then int (- errnum) else Ok errnum);
    '(i, tmp) ← error_digits n tmp;
    buf ← memcpy buf 0 (bytes_of "unknown error ") 0 14;
    buf ← for_each 0 i (λ j buf, c ← zget tmp (i - 1 - j); zset buf (14 + j) c) buf;
    buf ← zset buf (14 + i) 0;
    Ok (buf, buf).

End LibcString.
