(* ===== verification/LibcStringClaims.v ===== *)
(** The string functions of the C library against reference functions on lists:
    search, tokens and bounded copies. *)
From stdpp Require Import base list.
From S2P Require Import Prelude.
From S2P Require Import KString.
From S2P Require Import CLib.
From S2P Require Import LibcString.
Import KString (slice, splice, is_cstr, cstr, splice_snoc, is_cstr_zget, is_cstr_length).
Import LibcString.

Module LibcStringClaims.

(** The bytes of a string: none is zero. *)
Definition text (t : list Z) : Prop := Forall (λ c, 0 < c < 256) t.

(** A maximal prefix with a property. *)
Lemma span {A} (P : A → Prop) `{∀ x, Decision (P x)} (l : list A) :
  ∃ a b, l = a ++ b ∧ Forall P a ∧ match b with [] => True | c :: _ => ¬ P c end.
Proof.
  induction l as [|x l (a & b & -> & Ha & Hb)]; [by exists [], []|].
  destruct (decide (P x)); [|by exists [], (x :: a ++ b)].
  exists (x :: a), b. split_and!; [done|by constructor|done].
Qed.

Lemma strlen_text t r : text t → strlen (t ++ 0 :: r) = Ok (zlen t).
Proof.
  induction 1 as [|c t Hc _ IH]; [done|]. simpl. rewrite (proj2 (Z.eqb_neq c 0)) by lia.
  rewrite IH. simpl. by rewrite zlen_cons.
Qed.

(** * Search *)
Lemma strchr_text t r c : text t → 0 < c < 256 →
  strchr (t ++ 0 :: r) c = Ok (fmap (M := option) (λ '(i, _), Z.of_nat i) (list_find (c =.) t)).
Proof.
  intros Ht Hc. induction Ht as [|x t Hx _ IH]; simpl; [by rewrite (proj2 (Z.eqb_neq c 0)) by lia|].
  rewrite (proj2 (Z.eqb_neq x 0)), u8_small by lia. destruct (Z.eqb_spec x c) as [->|Hn].
  - by rewrite decide_True.
  - rewrite decide_False, IH by congruence. simpl. f_equal.
    destruct (list_find (c =.) t) as [[i y]|]; [|done]. simpl. f_equal. lia.
Qed.

(** Membership in a set of delimiters. *)
Lemma strchr_in t r c : text t → 0 < c < 256 →
  ∃ m, strchr (t ++ 0 :: r) c = Ok m ∧ (is_Some m ↔ c ∈ t).
Proof.
  intros Ht Hc. rewrite strchr_text by done. eexists; split; [done|]. rewrite fmap_is_Some.
  split; [|intros Hi; by apply (list_find_elem_of _ _ c Hi)].
  intros [[i x] Hf]. apply list_find_Some in Hf as (Hl & -> & _). by eapply list_elem_of_lookup_2.
Qed.

Lemma strspn_text d dr a b r : text d → text a → text b → Forall (λ c, c ∈ d) a →
  match b with [] => True | c :: _ => c ∉ d end →
  strspn ((a ++ b) ++ 0 :: r) (d ++ 0 :: dr) = Ok (zlen a).
Proof.
  intros Hd Ha Hb Hin Hout. induction Ha as [|c a Hc _ IH]; simpl.
  - destruct Hb as [|c b Hc _]; [done|]. simpl. rewrite (proj2 (Z.eqb_neq c 0)) by lia.
    destruct (strchr_in d dr c Hd Hc) as ([i|] & -> & Hi); [|done]. by apply Hi in Hout || destruct Hout; apply Hi.
  - apply Forall_cons in Hin as [Hcd Hin]. rewrite (proj2 (Z.eqb_neq c 0)) by lia.
    destruct (strchr_in d dr c Hd Hc) as ([i|] & -> & Hi); simpl.
    + rewrite IH by done. simpl. by rewrite zlen_cons.
    + apply Hi in Hcd as [? ?]. done.
Qed.

Lemma strcspn_text d dr a b r : text d → text a → text b → Forall (λ c, c ∉ d) a →
  match b with [] => True | c :: _ => c ∈ d end →
  strcspn ((a ++ b) ++ 0 :: r) (d ++ 0 :: dr) = Ok (zlen a).
Proof.
  intros Hd Ha Hb Hin Hout. induction Ha as [|c a Hc _ IH]; simpl.
  - destruct Hb as [|c b Hc _]; [done|]. simpl. rewrite (proj2 (Z.eqb_neq c 0)) by lia.
    destruct (strchr_in d dr c Hd Hc) as ([i|] & -> & Hi); [done|]. by apply Hi in Hout as [? ?].
  - apply Forall_cons in Hin as [Hcd Hin]. rewrite (proj2 (Z.eqb_neq c 0)) by lia.
    destruct (strchr_in d dr c Hd Hc) as ([i|] & -> & Hi); simpl.
    + destruct Hcd. by apply Hi.
    + rewrite IH by done. simpl. by rewrite zlen_cons.
Qed.

(** The position of the first occurrence of [w]. *)
Fixpoint find_sub (w t : list Z) : option Z :=
  if decide (w `prefix_of` t) then Some 0
  else match t with [] => None | _ :: t' => Z.succ <$> find_sub w t' end.

Lemma zget_app_r {A} (a : list A) x b : zget (a ++ x :: b) (zlen a) = Ok x.
Proof. apply zget_ok; [unfold zlen; lia|]. unfold zlen. rewrite Nat2Z.id. by apply list_lookup_middle. Qed.

Lemma zset_app_r {A} (a : list A) x b v : zset (a ++ x :: b) (zlen a) v = Ok (a ++ v :: b).
Proof.
  rewrite zset_ok by (rewrite zlen_app, zlen_cons; unfold zlen; lia). unfold zlen.
  by rewrite Nat2Z.id, insert_app_r_alt, Nat.sub_diag by done.
Qed.

Lemma memcmp_prefix t r w wr : text t → text w →
  memcmp (t ++ 0 :: r) (w ++ 0 :: wr) (zlen w) ⇓ λ d, d = 0 ↔ w `prefix_of` t.
Proof.
  intros Ht Hw. unfold memcmp. apply wp_bind.
  apply (wp_for (λ i _, ∃ p a b, t = p ++ a ∧ w = p ++ b ∧ i = zlen p)).
  - apply zlen_nonneg.
  - by exists [], t, w.
  - intros i [] Hi (p & a & b & -> & -> & ->). rewrite zlen_app in Hi.
    destruct b as [|y b]; [change (zlen (@nil Z)) with 0 in Hi; lia|].
    apply Forall_app in Hw as [_ [Hy _]%Forall_cons].
    rewrite <-!app_assoc. cbn [app]. rewrite (zget_app_r p y). destruct a as [|x a]; cbn [app]; rewrite zget_app_r, !bind_ok.
    + rewrite (proj2 (Z.eqb_neq 0 y)) by lia. do 2 apply wp_ok. split; [lia|].
      rewrite app_nil_r. intros Hp%prefix_length. rewrite length_app in Hp. simpl in Hp. lia.
    + destruct (Z.eqb_spec x y) as [->|Hn].
      * apply wp_ok. exists (p ++ [y]), a, b. rewrite <-!app_assoc, zlen_app. done.
      * do 2 apply wp_ok. split; [lia|]. intros Hp%prefix_app_inv. by apply prefix_cons_inv_1 in Hp.
  - intros [] (p & a & b & -> & -> & Hl). rewrite zlen_app in Hl. apply wp_ok. split; [|done]. intros _.
    destruct b as [|y b]; [rewrite app_nil_r; by apply prefix_app_r|rewrite zlen_cons in Hl; unfold zlen in *; lia].
Qed.

Lemma strstr_text t r w wr : text t → text w → w ≠ [] →
  strstr_from (w ++ 0 :: wr) (zlen w) (t ++ 0 :: r) = Ok (find_sub w t).
Proof.
  intros Ht Hw Hne. destruct w as [|y w]; [done|]. clear Hne.
  induction Ht as [|x t Hx Ht IH]; [done|]. simpl. rewrite (proj2 (Z.eqb_neq x 0)) by lia.
  simpl in IH. rewrite IH.
  destruct (Z.eqb_spec x y) as [->|Hn].
  - destruct (memcmp_prefix (y :: t) r (y :: w) wr) as (d & Hd & Hp); [by constructor|done|].
    simpl in Hd. rewrite Hd, bind_ok. case_decide as Hc.
    + by rewrite (proj2 Hp Hc).
    + rewrite (proj2 (Z.eqb_neq d 0)) by tauto. done.
  - simpl. rewrite decide_False; [done|]. intros Hp. by apply prefix_cons_inv_1 in Hp.
Qed.

(** [find_sub] is the first occurrence. *)
Lemma find_sub_first w t :
  match find_sub w t with
  | Some i => 0 ≤ i ≤ zlen t ∧ w `prefix_of` drop (Z.to_nat i) t ∧
              ∀ j : nat, Z.of_nat j < i → ¬ w `prefix_of` drop j t
  | None => ∀ j : nat, (j ≤ length t)%nat → ¬ w `prefix_of` drop j t
  end.
Proof.
  induction t as [|x t IH]; simpl; case_decide as Hp.
  - split; [unfold zlen; simpl; lia|]. split; [done|lia].
  - intros j Hj. by replace j with 0%nat by lia.
  - split; [unfold zlen; simpl; lia|]. split; [done|lia].
  - destruct (find_sub w t) as [i|]; simpl.
    + destruct IH as (Hi & Hpre & Hlt). rewrite zlen_cons. split; [lia|].
      replace (Z.to_nat (Z.succ i)) with (S (Z.to_nat i)) by lia. split; [done|].
      intros [|j] Hj; [done|]. apply Hlt. lia.
    + intros [|j] Hj; [done|]. apply IH. lia.
Qed.

(** strstr returns the first position at which the needle occurs in the string, and nothing
    exactly when it does not occur. *)
Theorem strstr_finds t r w wr :
  text t → text w →
  strstr (t ++ 0 :: r) (w ++ 0 :: wr) ⇓ λ p,
    match p with
    | Some i => 0 ≤ i ≤ zlen t ∧ w `prefix_of` drop (Z.to_nat i) t ∧
                ∀ j : nat, Z.of_nat j < i → ¬ w `prefix_of` drop j t
    | None => ∀ j : nat, (j ≤ length t)%nat → ¬ w `prefix_of` drop j t
    end.
Proof.
  intros Ht Hw. assert (strstr (t ++ 0 :: r) (w ++ 0 :: wr) = Ok (find_sub w t)) as ->.
  { unfold strstr. destruct w as [|y w]; [simpl; by destruct t|].
    change (zget ((y :: w) ++ 0 :: wr) 0) with (Ok y). rewrite bind_ok.
    pose proof Hw as [Hy _]%Forall_cons. rewrite (proj2 (Z.eqb_neq y 0)) by lia.
    rewrite strlen_text, bind_ok by done. by apply strstr_text. }
  apply wp_ok, find_sub_first.
Qed.

Lemma strstr_finds_witness : strstr [97; 98; 97; 98; 99; 0] [98; 99; 0] ⇓ λ p, p = Some 3.
Proof.
  destruct (strstr_finds [97; 98; 97; 98; 99] [] [98; 99] []) as (p & E & _); [repeat constructor..|].
  exists p. split; [exact E|]. vm_compute in E. by injection E as <-.
Defined.

(** * Tokens *)

(** The non-empty fields between delimiters; [cur] is the field being read. *)
Fixpoint fields_from (d cur t : list Z) : list (list Z) :=
  let done := match cur with [] => [] | _ => [cur] end in
  match t with
  | [] => done
  | c :: t' => if decide (c ∈ d) then done ++ fields_from d [] t' else fields_from d (cur ++ [c]) t'
  end.
Definition fields (d t : list Z) : list (list Z) := fields_from d [] t.

Lemma fields_skip d a t : Forall (λ c, c ∈ d) a → fields d (a ++ t) = fields d t.
Proof. induction 1 as [|c a Hc _ IH]; [done|]. unfold fields in *. simpl. by rewrite decide_True. Qed.

Lemma fields_word d cur f t : Forall (λ c, c ∉ d) f → fields_from d cur (f ++ t) = fields_from d (cur ++ f) t.
Proof.
  intros Hf. revert cur. induction Hf as [|c f Hc _ IH]; intros cur; [by rewrite app_nil_r|].
  simpl. by rewrite decide_False, IH, <-app_assoc.
Qed.

(** A client that reads all tokens of the string at [s]: the pointers. *)
Fixpoint strtok_all (fuel : nat) (buf : list Z) (s : option Z) (delim : list Z) (saveptr : option Z)
  : outcome (list Z * list Z) :=
  match fuel with
  | O => OutOfFuel
  | S fuel =>
      '(p, saveptr, buf) ← strtok_r buf s delim saveptr;
      match p with
      | None => Ok ([], buf)
      | Some p => '(ps, buf) ← strtok_all fuel buf None delim saveptr; Ok (p :: ps, buf)
      end
  end.

Lemma strtok_all_S fuel buf s delim saveptr :
  strtok_all (S fuel) buf s delim saveptr =
    '(p, saveptr, buf) ← strtok_r buf s delim saveptr;
    match p with
    | None => Ok ([], buf)
    | Some p => '(ps, buf) ← strtok_all fuel buf None delim saveptr; Ok (p :: ps, buf)
    end.
Proof. done. Qed.

Lemma strtok_end fuel buf delim : strtok_all (S fuel) buf None delim None = Ok ([], buf).
Proof. done. Qed.

Lemma zget_prefix {A} (a b : list A) x c : zget (a ++ b ++ x :: c) (zlen a + zlen b) = Ok x.
Proof. rewrite app_assoc, <-zlen_app. apply zget_app_r. Qed.

Lemma drop_prefix {A} (a b : list A) : drop (Z.to_nat (zlen a)) (a ++ b) = b.
Proof. unfold zlen. rewrite Nat2Z.id. by rewrite drop_app_length. Qed.

Lemma take_prefix {A} (a b : list A) : take (Z.to_nat (zlen a)) (a ++ b) = a.
Proof. unfold zlen. rewrite Nat2Z.id. by rewrite take_app_length. Qed.

(** One call at the start of [t]: nothing left, the last field, or a field and the rest. *)
Lemma strtok_step pre t r d dr s saveptr :
  text t → text d → match s with Some p => Some p | None => saveptr end = Some (zlen pre) →
  (fields d t = [] ∧ strtok_r (pre ++ t ++ 0 :: r) s (d ++ 0 :: dr) saveptr = Ok (None, None, pre ++ t ++ 0 :: r)) ∨
  ∃ a f, text f ∧ f ≠ [] ∧
    ((t = a ++ f ∧ fields d t = [f] ∧
      strtok_r (pre ++ t ++ 0 :: r) s (d ++ 0 :: dr) saveptr = Ok (Some (zlen (pre ++ a)), None, pre ++ t ++ 0 :: r)) ∨
     ∃ c t', t = a ++ f ++ c :: t' ∧ fields d t = f :: fields d t' ∧
      strtok_r (pre ++ t ++ 0 :: r) s (d ++ 0 :: dr) saveptr =
        Ok (Some (zlen (pre ++ a)), Some (zlen (pre ++ a ++ f ++ [0])), (pre ++ a ++ f ++ [0]) ++ t' ++ 0 :: r)).
Proof.
  intros Ht Hd Hs. unfold strtok_r. rewrite Hs. clear Hs.
  destruct (span (λ c, c ∈ d) t) as (a & b & -> & Ha & Hb). apply Forall_app in Ht as [Hta Htb].
  rewrite drop_prefix, strspn_text, bind_ok, fields_skip by done.
  destruct b as [|x b]; [left|right].
  { rewrite app_nil_r, zget_prefix, bind_ok. done. }
  destruct (span (λ c, c ∉ d) (x :: b)) as (f & g & Hxb & Hf & Hg). exists a, f. rewrite Hxb in *.
  destruct f as [|y f].
  { simpl in Hxb. subst g. by destruct Hg. }
  apply Forall_app in Htb as [Htf Htg]. split; [done|]. split; [done|].
  pose proof Htf as [Hy _]%Forall_cons. unfold fields. rewrite fields_word by done. rewrite app_nil_l.
  replace (pre ++ (a ++ (y :: f) ++ g) ++ 0 :: r) with ((pre ++ a) ++ ((y :: f) ++ g) ++ 0 :: r)
    by (by rewrite <-!app_assoc). rewrite <-zlen_app.
  cbn [app]. rewrite zget_app_r, bind_ok, (proj2 (Z.eqb_neq y 0)), drop_prefix by lia.
  change (y :: (f ++ g) ++ 0 :: r) with (((y :: f) ++ g) ++ 0 :: r). rewrite strcspn_text, bind_ok; [|done..|].
  2: { destruct g; [done|]. by destruct (decide (z ∈ d)). }
  rewrite <-(app_assoc (y :: f)). destruct g as [|c t'].
  - left. rewrite !app_nil_l, zget_prefix, bind_ok. rewrite app_nil_r. done.
  - right. exists c, t'. pose proof Htg as [Hc _]%Forall_cons. split; [done|].
    assert (c ∈ d) by (destruct (decide (c ∈ d)); [done|by destruct Hg]).
    split; [simpl; by rewrite decide_True|].
    change ((c :: t') ++ 0 :: r) with (c :: t' ++ 0 :: r). rewrite zget_prefix, bind_ok, (proj2 (Z.eqb_neq c 0)) by lia.
    rewrite (app_assoc (pre ++ a)), <-zlen_app, zset_app_r, bind_ok.
    replace (zlen ((pre ++ a) ++ y :: f) + 1) with (zlen (pre ++ a ++ y :: f ++ [0]))
      by (unfold zlen; repeat (rewrite length_app || cbn [length]); lia).
    rewrite <-!app_assoc. cbn [app]. by rewrite <-!app_assoc.
Qed.

(** The bytes from a pointer hold the field. *)
Definition token_at (buf : list Z) (p : Z) (f : list Z) : Prop := 0 ≤ p ∧ is_cstr (drop (Z.to_nat p) buf) f.

Lemma token_here pre a f r : text f → token_at ((pre ++ a) ++ f ++ 0 :: r) (zlen (pre ++ a)) f.
Proof. intros Hf. split; [apply zlen_nonneg|]. rewrite drop_prefix. split; [done|by eexists]. Qed.

Lemma strtok_all_ok n d dr : text d → ∀ t pre r s saveptr,
  text t → match s with Some p => Some p | None => saveptr end = Some (zlen pre) → (length t < n)%nat →
  ∃ t' ps, length t' = length t ∧
    strtok_all (S n) (pre ++ t ++ 0 :: r) s (d ++ 0 :: dr) saveptr = Ok (ps, pre ++ t' ++ 0 :: r) ∧
    Forall2 (token_at (pre ++ t' ++ 0 :: r)) ps (fields d t).
Proof.
  intros Hd. induction n as [|n IH]; intros t pre r s saveptr Ht Hs Hn; [lia|]. rewrite strtok_all_S.
  destruct (strtok_step pre t r d dr s saveptr Ht Hd Hs)
    as [(-> & ->)|(a & f & Hf & Hne & [(-> & -> & ->)|(c & t' & -> & -> & ->)])]; rewrite bind_ok.
  - exists t, []. done.
  - rewrite strtok_end, bind_ok. exists (a ++ f), [zlen (pre ++ a)]. split; [done|]. split; [done|].
    rewrite <-app_assoc, app_assoc. constructor; [by apply token_here|constructor].
  - rewrite !length_app in Hn. cbn [length] in Hn. apply Forall_app in Ht as [_ [_ [_ Ht']%Forall_cons]%Forall_app].
    destruct (IH t' (pre ++ a ++ f ++ [0]) r None (Some (zlen (pre ++ a ++ f ++ [0]))) Ht' eq_refl ltac:(lia))
      as (t2 & ps & Hl & E & HF). rewrite E, bind_ok.
    exists (a ++ f ++ 0 :: t2), (zlen (pre ++ a) :: ps). rewrite !length_app. cbn [length]. split; [lia|].
    assert ((pre ++ a ++ f ++ [0]) ++ t2 ++ 0 :: r = pre ++ (a ++ f ++ 0 :: t2) ++ 0 :: r) as Eb by (by rewrite <-!app_assoc).
    rewrite <-Eb. split; [done|]. constructor; [|done].
    replace ((pre ++ a ++ f ++ [0]) ++ t2 ++ 0 :: r) with ((pre ++ a) ++ f ++ 0 :: t2 ++ 0 :: r)
      by (by rewrite <-!app_assoc). by apply token_here.
Qed.

(** Calling strtok_r until it returns NULL gives exactly the maximal runs of characters that are
    not delimiters, in order, each as a string in the buffer. *)
Theorem strtok_splits d dr t r :
  text d → text t →
  strtok_all (S (S (length t))) (t ++ 0 :: r) (Some 0) (d ++ 0 :: dr) None ⇓ λ '(ps, buf),
    Forall2 (token_at buf) ps (fields d t) ∧ ∃ t', length t' = length t ∧ buf = t' ++ 0 :: r.
Proof.
  intros Hd Ht. destruct (strtok_all_ok (S (length t)) d dr Hd t [] r (Some 0) None Ht eq_refl ltac:(lia))
    as (t' & ps & Hl & E & HF). eexists; split; [exact E|]. split; [exact HF|by exists t'].
Qed.

(** "/bin::/usr/bin" *)
Lemma strtok_splits_witness :
  strtok_all 16 [47; 98; 105; 110; 58; 58; 47; 117; 115; 114; 47; 98; 105; 110; 0] (Some 0) [58; 0] None ⇓ λ '(ps, buf),
    ps = [0; 6] ∧ Forall2 (token_at buf) ps [[47; 98; 105; 110]; [47; 117; 115; 114; 47; 98; 105; 110]].
Proof.
  destruct (strtok_splits [58] [] [47; 98; 105; 110; 58; 58; 47; 117; 115; 114; 47; 98; 105; 110] [])
    as ([ps buf] & E & HF & _); [repeat constructor..|].
  exists (ps, buf). split; [exact E|]. split; [|exact HF]. vm_compute in E. by injection E as <- _.
Defined.

(** * Copies *)
Lemma libc_memcpy_ok dst d src s n : 0 ≤ d → 0 ≤ s → 0 ≤ n → d + n ≤ zlen dst → s + n ≤ zlen src →
  memcpy dst d src s n = Ok (splice dst d (slice src s n)).
Proof. exact (KString.memcpy_ok dst d src s n). Qed.

(** The first [n] bytes of an object. *)
Lemma memcpy_start dst d t r : 0 ≤ d → d + zlen t ≤ zlen dst → memcpy dst d (t ++ r) 0 (zlen t) = Ok (splice dst d t).
Proof.
  intros Hd Hl. pose proof (zlen_nonneg t). pose proof (zlen_nonneg r). rewrite libc_memcpy_ok by (rewrite ?zlen_app; lia).
  unfold slice. rewrite drop_0. by rewrite take_prefix.
Qed.

Lemma strdup_ok A k t r : text t → avail A k (zlen t + 1) = true → strdup A k (t ++ 0 :: r) = Ok (Some (t ++ [0])).
Proof.
  intros Ht HA. pose proof (zlen_nonneg t). unfold strdup. rewrite strlen_text, bind_ok, HA by done.
  assert (zlen (t ++ [0]) = zlen t + 1) as E by (rewrite zlen_app; done).
  replace (t ++ 0 :: r) with ((t ++ [0]) ++ r) by (by rewrite <-app_assoc).
  rewrite <-E, memcpy_start by (rewrite ?zlen_fresh; lia). rewrite bind_ok. unfold splice. change (Z.to_nat 0) with O.
  rewrite take_0, app_nil_l, drop_ge, app_nil_r; [done|]. pose proof (zlen_fresh A k (zlen (t ++ [0]))). unfold zlen in *. lia.
Qed.

(** * Bounded copies *)
Lemma splice_nil l : splice l 0 [] = l.
Proof. done. Qed.

(** The first loop copies [n] bytes, or the string with its zero byte, which it does not count. *)
Lemma strncpy_copy_ok t r n dst : text t → 0 ≤ n → Z.min n (zlen t + 1) ≤ zlen dst →
  loop (S (length (t ++ 0 :: r))) (strncpy_copy (t ++ 0 :: r)) (0, n, dst) ⇓ λ st,
    st = if n <=? zlen t then (n, 0, splice dst 0 (take (Z.to_nat n) t))
         else (zlen t + 1, n - zlen t, splice dst 0 (t ++ [0])).
Proof.
  intros Ht Hn Hl.
  apply (wp_loop (λ '(i, m, d), ∃ p q, t = p ++ q ∧ i = zlen p ∧ m = n - zlen p ∧ 0 ≤ m ∧ d = splice dst 0 p)
                 (λ '(i, _, _), Z.to_nat (zlen t - i))).
  2: { exists [], t. rewrite splice_nil. change (zlen (@nil Z)) with 0. split_and!; (done || lia). }
  2: { rewrite length_app. unfold zlen. simpl. lia. }
  intros [[i m] d] (p & q & -> & -> & -> & Hm & ->). unfold strncpy_copy. rewrite zlen_app in Hl |- *.
  pose proof (zlen_nonneg p). pose proof (zlen_nonneg q). destruct (Z.eqb_spec (n - zlen p) 0) as [E|E].
  { apply wp_ok. rewrite (proj2 (Z.leb_le _ _)) by lia. replace n with (zlen p) by lia.
    by rewrite take_prefix, Z.sub_diag. }
  apply Forall_app in Ht as [_ Hq]. rewrite <-app_assoc. destruct q as [|c q].
  - change (zlen (@nil Z)) with 0 in *. rewrite app_nil_l, zget_app_r, bind_ok, app_nil_r.
    apply wp_bind, wp_zset; [rewrite zlen_splice; lia|]. apply wp_ok.
    rewrite (proj2 (Z.leb_gt _ _)), splice_snoc by lia. by rewrite !Z.add_0_r.
  - rewrite zlen_cons in *. pose proof Hq as [Hc _]%Forall_cons. cbn [app]. rewrite zget_app_r, bind_ok.
    apply wp_bind, wp_zset; [rewrite zlen_splice; lia|]. rewrite (proj2 (Z.eqb_neq c 0)) by lia. apply wp_ok.
    pose proof (zlen_nonneg q). split; [|lia]. exists (p ++ [c]), q. rewrite splice_snoc, zlen_app by lia. change (zlen [c]) with 1.
    rewrite <-app_assoc. split_and!; (done || lia).
Qed.

Lemma pad_ok dst bs n : 0 ≤ n → zlen bs + n ≤ zlen dst →
  for_each 0 n (λ j d, zset d (zlen bs + j) 0) (splice dst 0 bs) ⇓ λ d, d = splice dst 0 (bs ++ replicate (Z.to_nat n) 0).
Proof.
  intros Hn Hl. pose proof (zlen_nonneg bs).
  apply (wp_for_each (λ j d, d = splice dst 0 (bs ++ replicate (Z.to_nat j) 0))); [done|by rewrite app_nil_r| |done].
  intros j d Hj ->. assert (zlen (bs ++ replicate (Z.to_nat j) 0) = zlen bs + j) as E.
  { rewrite zlen_app. unfold zlen at 2. rewrite length_replicate. lia. }
  apply wp_zset; [rewrite zlen_splice; lia|]. rewrite splice_snoc by lia. rewrite <-app_assoc, <-replicate_S_end.
  do 3 f_equal. lia.
Qed.

Lemma pad_overruns dst i n : 0 ≤ i → 0 < n → zlen dst < i + n →
  for_each 0 n (λ j d, zset d (i + j) 0) dst = Undef.
Proof.
  intros Hi Hn Hl. unfold for_each, for_loop. rewrite Z.sub_0_r.
  assert (∀ k j d, (0 < k)%nat → 0 ≤ j → zlen d < i + j + Z.of_nat k →
    for_nat (R := Empty_set) k j (λ j d, d' ← zset d (i + j) 0; Ok (inl d')) d = Undef) as H; [|by rewrite H by lia].
  induction k as [|k IH]; intros j d Hk Hj Hd; [lia|]. cbn [for_nat].
  destruct (decide (0 ≤ i + j < zlen d)) as [Hd'|Hd'].
  - rewrite zset_ok, !bind_ok by done. apply IH; [lia|lia|]. rewrite zlen_insert. lia.
  - unfold zset. by rewrite decide_False.
Qed.

Lemma strncpy_cut t r n dst : text t → 0 ≤ n → n ≤ zlen t → n ≤ zlen dst →
  strncpy dst (t ++ 0 :: r) n = Ok (splice dst 0 (take (Z.to_nat n) t)).
Proof.
  intros Ht Hn H1 H2. unfold strncpy. destruct (strncpy_copy_ok t r n dst Ht Hn ltac:(lia)) as (st & -> & ->).
  by rewrite (proj2 (Z.leb_le _ _)).
Qed.

Lemma strncpy_padded t r n dst : text t → zlen t < n < zlen dst →
  strncpy dst (t ++ 0 :: r) n = Ok (splice dst 0 (t ++ replicate (Z.to_nat (n + 1 - zlen t)) 0)).
Proof.
  intros Ht [H1 H2]. pose proof (zlen_nonneg t). assert (zlen (t ++ [0]) = zlen t + 1) as E by (rewrite zlen_app; done).
  unfold strncpy. destruct (strncpy_copy_ok t r n dst Ht ltac:(lia) ltac:(lia)) as (st & -> & ->).
  rewrite (proj2 (Z.leb_gt _ _)), bind_ok, <-E by done.
  destruct (pad_ok dst (t ++ [0]) (n - zlen t)) as (d & -> & ->); [lia|lia|].
  rewrite <-app_assoc. change ([0] ++ replicate ?k 0) with (replicate (S k) 0). do 4 f_equal. lia.
Qed.

Lemma strncpy_overruns t r n dst : text t → zlen t < n → zlen dst = n → strncpy dst (t ++ 0 :: r) n = Undef.
Proof.
  intros Ht H1 H2. pose proof (zlen_nonneg t). assert (zlen (t ++ [0]) = zlen t + 1) as E by (rewrite zlen_app; done).
  unfold strncpy. destruct (strncpy_copy_ok t r n dst Ht ltac:(lia) ltac:(lia)) as (st & -> & ->).
  rewrite (proj2 (Z.leb_gt _ _)), bind_ok by done. apply pad_overruns; [lia|lia|]. rewrite zlen_splice; lia.
Qed.

(** strncpy copies at most n bytes of a string of n bytes or more, and writes n + 1 bytes when
    the string is shorter: one byte behind the array when n is its size. *)
Theorem strncpy_writes t r n dst :
  text t → 0 ≤ n →
  (n ≤ zlen t → n ≤ zlen dst → strncpy dst (t ++ 0 :: r) n = Ok (splice dst 0 (take (Z.to_nat n) t))) ∧
  (zlen t < n < zlen dst →
   strncpy dst (t ++ 0 :: r) n = Ok (splice dst 0 (t ++ replicate (Z.to_nat (n + 1 - zlen t)) 0))) ∧
  (zlen t < n → zlen dst = n → strncpy dst (t ++ 0 :: r) n = Undef).
Proof.
  intros Ht Hn. split; [by apply strncpy_cut|]. split; [by apply strncpy_padded|]. by apply strncpy_overruns.
Qed.

Lemma strncpy_writes_witness :
  strncpy [7; 7; 7; 7] [97; 98; 0] 2 = Ok [97; 98; 7; 7] ∧
  strncpy [7; 7; 7; 7] [97; 0] 2 = Ok [97; 0; 0; 7] ∧ strncpy [7; 7] [97; 0] 2 = Undef.
Proof.
  split_and!.
  - apply (strncpy_writes [97; 98] [] 2 [7; 7; 7; 7]); first [done | lia | repeat constructor].
  - apply (strncpy_writes [97] [] 2 [7; 7; 7; 7]); first [done | lia | repeat constructor].
  - apply (strncpy_writes [97] [] 2 [7; 7]); first [done | lia | repeat constructor].
Defined.

End LibcStringClaims.
