(* ===== verification/LibcPrintf.v ===== *)
(** Formatted output into memory: fmt_num, vsnprintf, snprintf, vsprintf and
    sprintf of the C library of the user-space programs
    (userland/libc/src/stdio.c).

    The variable arguments are a list of [arg].  The output is a position and
    the caller's buffer; [ints] holds the [int] objects of the caller that a
    [%n] conversion may store to. *)
From stdpp Require Import base list gmap.
From S2P Require Import Prelude.
From S2P Require Import KPrintf.
From S2P Require Import CLib.
From S2P Require Import LibcString.
Import KPrintf (digit_table).
Import LibcString (strlen).

Module LibcPrintf.

(** An argument slot: 64 bits read at the type the conversion names, a
    [const char *], or an [int *] (0 is NULL). *)
Inductive arg :=
  | AWord (w : Z)
  | AStr (text : option (list Z))
  | AInts (p : Z).

Definition va_word (args : list arg) : outcome (Z * list arg) :=
  match args with AWord w :: rest => Ok (w, rest) | _ => Undef end.
Definition va_str (args : list arg) : outcome (option (list Z) * list arg) :=
  match args with AStr t :: rest => Ok (t, rest) | _ => Undef end.
Definition va_ints (args : list arg) : outcome (Z * list arg) :=
  match args with AInts p :: rest => Ok (p, rest) | _ => Undef end.

(** A position and the array that is written. *)
Abbreviation out := (Z * list Z)%type.

(** [buf[( *pos)++] = c] *)
Definition append (st : out) (c : Z) : outcome out :=
  let '(pos, buf) := st in buf ← zset buf pos c; Ok (pos + 1, buf).

(** The digits of [val], last first, in the local array of [fmt_num]. *)
Definition fill_num (digits : list Z) (val base : Z) (tmp : list Z) : outcome out :=
  loop 65
    (λ '(val, st),
       if val =? 0 then Ok (inr st)
       else
         d ← umod val base; c ← zget digits d;
         st ← append st c;
         val ← udiv val base;
         Ok (inl (val, st))) (val, (0, tmp)).

(** [tmp] is the local array; [sign_char] is 0 for no sign. *)
Definition fmt_num (tmp : list Z) (st : out) (val base : Z) (upper : bool) (width : Z)
  (zero_pad left : bool) (sign_char : Z) : outcome out :=
  '(len, tmp) ← (if val =? 0 then append (0, tmp) 48 else fill_num (digit_table upper) val base tmp);
  '(len, tmp) ← (if sign_char =? 0 then Ok (len, tmp) else append (len, tmp) sign_char);
  let total := if width <? len then len else width in
  let pad := total - len in
  st ← (if left then Ok st else for_each 0 pad (λ _ st, append st (if zero_pad then 48 else 32)) st);
  st ← for_each 0 len (λ i st, c ← zget tmp (len - 1 - i); append st c) st;
  if left then for_each 0 pad (λ _ st, append st 32) st else Ok st.

(** The macro [PUT]. *)
Definition PUT (max : Z) (st : out) (c : Z) : outcome out :=
  let '(pos, buf) := st in
  buf ← (if pos <? max then zset buf pos c else Ok buf);
  pos ← int (pos + 1);
  Ok (pos, buf).

(** [for (i = 0; i < n; i++) PUT(tmp[i])] *)
Definition put_array (max n : Z) (tmp : list Z) (st : out) : outcome out :=
  for_each 0 n (λ i st, c ← zget tmp i; PUT max st c) st.

(** [for (i = lo; i < n; i++) PUT(' ')] *)
Definition put_spaces (max lo n : Z) (st : out) : outcome out :=
  for_each lo n (λ _ st, PUT max st 32) st.

Record flags := mkFlags { left : bool; zero_pad : bool; plus : bool; space : bool; alt : bool }.
Definition no_flags : flags := mkFlags false false false false false.

Fixpoint parse_flags (f : flags) (fmt : list Z) : outcome (flags * list Z) :=
  match fmt with
  | [] => Undef
  | c :: rest =>
      if c =? 45 then parse_flags (mkFlags true (zero_pad f) (plus f) (space f) (alt f)) rest
      else if c =? 48 then parse_flags (mkFlags (left f) true (plus f) (space f) (alt f)) rest
      else if c =? 43 then parse_flags (mkFlags (left f) (zero_pad f) true (space f) (alt f)) rest
      else if c =? 32 then parse_flags (mkFlags (left f) (zero_pad f) (plus f) true (alt f)) rest
      else if c =? 35 then parse_flags (mkFlags (left f) (zero_pad f) (plus f) (space f) true) rest
      else Ok (f, fmt)
  end.

Fixpoint parse_digits (n : Z) (fmt : list Z) : outcome (Z * list Z) :=
  match fmt with
  | [] => Undef
  | c :: rest =>
      if (48 <=? c) && (c <=? 57) then m ← int (n * 10); n ← int (m + (c - 48)); parse_digits n rest
      else Ok (n, fmt)
  end.

(** A star or a number. *)
Definition parse_amount (fmt : list Z) (args : list arg) : outcome (Z * list Z * list arg) :=
  c ← zget fmt 0;
  if c =? 42 then '(w, args) ← va_word args; Ok (i32 w, drop 1 fmt, args)
  else '(n, fmt) ← parse_digits 0 fmt; Ok (n, fmt, args).

Definition parse_prec (fmt : list Z) (args : list arg) : outcome (Z * list Z * list arg) :=
  c ← zget fmt 0;
  if c =? 46 then parse_amount (drop 1 fmt) args else Ok (-1, fmt, args).

Definition parse_length (fmt : list Z) : outcome (Z * list Z) :=
  c ← zget fmt 0;
  if c =? 108 then
    d ← zget fmt 1;
    if d =? 108 then Ok (2, drop 2 fmt) else Ok (1, drop 1 fmt)
  else if c =? 104 then Ok (0, drop 1 fmt)
  else if c =? 122 then Ok (1, drop 1 fmt)
  else Ok (0, fmt).

(** [va_arg] of a signed and of an unsigned type of the length. *)
Definition va_signed (lng : Z) (args : list arg) : outcome (Z * list arg) :=
  '(w, args) ← va_word args; Ok (if lng =? 0 then i32 w else i64 w, args).
Definition va_unsigned (lng : Z) (args : list arg) : outcome (Z * list arg) :=
  '(w, args) ← va_word args; Ok (if lng =? 0 then u32 w else u64 w, args).

(** What a conversion has parsed, and the arrays [tmp] of [vsnprintf] and [fmt_num]. *)
Section Conversions.
Context (max : Z) (f : flags) (width prec lng : Z).

(** [fmt_num] into the array of 64 bytes, and its bytes put. *)
Definition put_num (val base : Z) (upper : bool) (width : Z) (zero_pad left : bool) (sign : Z) (st : out) : outcome out :=
  '(tlen, tmp) ← fmt_num (replicate 64 0) (0, replicate 64 0) val base upper width zero_pad left sign;
  put_array max tlen tmp st.

Definition conv_decimal (args : list arg) (st : out) : outcome (out * list arg) :=
  '(v, args) ← va_signed lng args;
  '(sign, uv) ← (if v <? 0
                 then if v =? - 2 ^ 63 then Undef else Ok (45, - v)
                 else Ok (if plus f then 43 else if space f then 32 else 0, v));
  st ← put_num uv 10 false width (zero_pad f) (left f) sign st;
  Ok (st, args).

Definition conv_unsigned (args : list arg) (st : out) : outcome (out * list arg) :=
  '(v, args) ← va_unsigned lng args;
  st ← put_num v 10 false width (zero_pad f) (left f) 0 st;
  Ok (st, args).

Definition conv_hex (upper : bool) (args : list arg) (st : out) : outcome (out * list arg) :=
  '(v, args) ← va_unsigned lng args;
  st ← (if alt f && negb (v =? 0) then st ← PUT max st 48; PUT max st (if upper then 88 else 120) else Ok st);
  st ← put_num v 16 upper width (zero_pad f) (left f) 0 st;
  Ok (st, args).

(** [%llo] reads an [unsigned int]. *)
Definition conv_octal (args : list arg) (st : out) : outcome (out * list arg) :=
  '(v, args) ← va_unsigned (if lng =? 1 then 1 else 0) args;
  st ← put_num v 8 false width (zero_pad f) (left f) 0 st;
  Ok (st, args).

Definition conv_pointer (args : list arg) (st : out) : outcome (out * list arg) :=
  '(w, args) ← va_word args;
  st ← PUT max st 48; st ← PUT max st 120;
  st ← put_num (u64 w) 16 false 0 true false 0 st;
  Ok (st, args).

Definition conv_char (args : list arg) (st : out) : outcome (out * list arg) :=
  '(w, args) ← va_word args;
  st ← (if left f then Ok st else put_spaces max 1 width st);
  st ← PUT max st (u8 w);
  st ← (if left f then put_spaces max 1 width st else Ok st);
  Ok (st, args).

Definition null_text : list Z := [40; 110; 117; 108; 108; 41; 0].

Definition conv_string (args : list arg) (st : out) : outcome (out * list arg) :=
  '(t, args) ← va_str args;
  let s := default null_text t in
  n ← strlen s;
  let slen := i32 n in
  let slen := if (0 <=? prec) && (prec <? slen) then prec else slen in
  pad ← (if slen <? width then int (width - slen) else Ok 0);
  st ← (if left f then Ok st else put_spaces max 0 pad st);
  st ← put_array max slen s st;
  st ← (if left f then put_spaces max 0 pad st else Ok st);
  Ok (st, args).

(** One conversion: the output, the caller's integers and the remaining arguments. *)
Definition convert (spec : Z) (args : list arg) (ints : gmap Z Z) (st : out)
  : outcome (out * gmap Z Z * list arg) :=
  let keep r := '(st, args) ← r; Ok (st, ints, args) in
  if (spec =? 100) || (spec =? 105) then keep (conv_decimal args st)
  else if spec =? 117 then keep (conv_unsigned args st)
  else if (spec =? 120) || (spec =? 88) then keep (conv_hex (spec =? 88) args st)
  else if spec =? 111 then keep (conv_octal args st)
  else if spec =? 112 then keep (conv_pointer args st)
  else if spec =? 99 then keep (conv_char args st)
  else if spec =? 115 then keep (conv_string args st)
  else if spec =? 110 then
    '(p, args) ← va_ints args;
    if p =? 0 then Ok (st, ints, args)
    else match ints !! p with Some _ => Ok (st, <[p := fst st]> ints, args) | None => Undef end
  else if spec =? 37 then st ← PUT max st 37; Ok (st, ints, args)
  else st ← PUT max st 37; st ← PUT max st spec; Ok (st, ints, args).

End Conversions.

(** One turn of the loop of [vsnprintf]. *)
Definition vsnprintf_step (max : Z) (s : list Z * list arg * gmap Z Z * out)
  : outcome ((list Z * list arg * gmap Z Z * out) + (gmap Z Z * out)) :=
  let '(fmt, args, ints, st) := s in
  c ← zget fmt 0;
  if c =? 0 then Ok (inr (ints, st))
  else if negb (c =? 37) then st ← PUT max st c; Ok (inl (drop 1 fmt, args, ints, st))
  else
    '(f, fmt) ← parse_flags no_flags (drop 1 fmt);
    '(width, fmt, args) ← parse_amount fmt args;
    '(prec, fmt, args) ← parse_prec fmt args;
    '(lng, fmt) ← parse_length fmt;
    spec ← zget fmt 0;
    '(st, ints, args) ← convert max f width prec lng spec args ints st;
    Ok (inl (drop 1 fmt, args, ints, st)).

(** The result, the buffer and the caller's integers. *)
Definition vsnprintf (buf : list Z) (size : Z) (fmt : list Z) (args : list arg) (ints : gmap Z Z)
  : outcome (Z * list Z * gmap Z Z) :=
  max ← int (i32 size - 1);
  '(ints, (pos, buf)) ← loop (S (length fmt)) (vsnprintf_step max) (fmt, args, ints, (0, buf));
  buf ← (if 0 <? size then zset buf (if pos <? max then pos else max) 0 else Ok buf);
  Ok (pos, buf, ints).

Definition snprintf (buf : list Z) (size : Z) (fmt : list Z) (args : list arg) (ints : gmap Z Z)
  : outcome (Z * list Z * gmap Z Z) := vsnprintf buf size fmt args ints.

Definition vsprintf (buf : list Z) (fmt : list Z) (args : list arg) (ints : gmap Z Z)
  : outcome (Z * list Z * gmap Z Z) := vsnprintf buf 65536 fmt args ints.

Definition sprintf (buf : list Z) (fmt : list Z) (args : list arg) (ints : gmap Z Z)
  : outcome (Z * list Z * gmap Z Z) := vsprintf buf fmt args ints.

End LibcPrintf.
