(* ===== verification/LibcPrintfClaims.v ===== *)
(** vsnprintf against a reference rendering of formats given as data. *)
From stdpp Require Import base list gmap.
From S2P Require Import Prelude.
From S2P Require Import KString.
From S2P Require Import KPrintf.
From S2P Require Import CLib.
From S2P Require Import LibcString.
From S2P Require Import LibcStringClaims.
From S2P Require Import LibcPrintf.
Import KString (splice, splice_snoc, lookup_splice).
Import KPrintf (digit_table, unsigned_text, to_digits, digit_char, digit_table_lookup).
Import LibcString (strlen).
Import LibcStringClaims (text, strlen_text, splice_nil, take_prefix).
Import LibcPrintf.

Module LibcPrintfClaims.

(** * Writers

    [at_ t] is the output after [t] was written, [put] writes one more byte;
    there is room for [B] bytes. *)
Section Writer.
Context (put : out → Z → outcome out) (at_ : list Z → out) (B : Z).
Hypothesis put_at : ∀ t c, zlen t < B → put (at_ t) c = Ok (at_ (t ++ [c])).

(** The code appends exactly [s]. *)
Definition emits (g : out → outcome out) (s : list Z) : Prop :=
  ∀ t, zlen t + zlen s ≤ B → g (at_ t) = Ok (at_ (t ++ s)).

Lemma emits_put c : emits (λ st, put st c) [c].
Proof using put_at. intros t Ht. rewrite zlen_cons in Ht. change (zlen (@nil Z)) with 0 in Ht. apply put_at. lia. Qed.

Lemma emits_nil : emits Ok [].
Proof using. intros t _. by rewrite app_nil_r. Qed.

Lemma emits_bind g h a b : emits g a → emits h b → emits (λ st, g st ≫= h) (a ++ b).
Proof using.
  intros Hg Hh t Ht. rewrite zlen_app in Ht. pose proof (zlen_nonneg b).
  rewrite Hg, bind_ok, Hh, app_assoc; [done|rewrite zlen_app; lia|lia].
Qed.

Lemma emits_for lo hi (body : Z → out → outcome out) s :
  zlen s = Z.max 0 (hi - lo) →
  (∀ (i : nat) c, s !! i = Some c → emits (body (lo + Z.of_nat i)) [c]) → emits (for_each lo hi body) s.
Proof using.
  intros Hs Hb t Ht. destruct (decide (lo ≤ hi)) as [Hle|Hgt].
  2: { destruct s; [|rewrite zlen_cons in Hs; unfold zlen in Hs; lia]. unfold for_each, for_loop.
       replace (Z.to_nat (hi - lo)) with O by lia. simpl. by rewrite app_nil_r. }
  assert (for_each lo hi body (at_ t) ⇓ λ st, st = at_ (t ++ s)) as (st & -> & ->); [|done].
  apply (wp_for_each (λ i st, st = at_ (t ++ take (Z.to_nat (i - lo)) s))); [done| | |].
  - rewrite Z.sub_diag. by rewrite app_nil_r.
  - intros i st Hi ->. destruct (zget_in s (i - lo)) as [c Hc]; [lia|].
    replace (Z.to_nat (i + 1 - lo)) with (S (Z.to_nat (i - lo))) by lia. rewrite (take_S_r _ _ c Hc), app_assoc.
    specialize (Hb _ _ Hc). replace (lo + Z.of_nat (Z.to_nat (i - lo))) with i in Hb by lia.
    rewrite Hb; [by apply wp_ok|]. rewrite zlen_app, zlen_take by lia. change (zlen [c]) with 1. lia.
  - intros st ->. rewrite take_ge; [done|]. unfold zlen in Hs. lia.
Qed.

Lemma emits_repeat lo hi c : emits (for_each lo hi (λ _ st, put st c)) (replicate (Z.to_nat (hi - lo)) c).
Proof using put_at.
  apply emits_for; [unfold zlen; rewrite length_replicate; lia|].
  intros i x Hx. apply lookup_replicate in Hx as [-> _]. apply emits_put.
Qed.

(** Bytes read from an array on the way. *)
Lemma emits_array lo hi (src : Z → Z) (l s : list Z) :
  zlen s = Z.max 0 (hi - lo) → (∀ (i : nat) c, s !! i = Some c → zget l (src (lo + Z.of_nat i)) = Ok c) →
  emits (for_each lo hi (λ i st, c ← zget l (src i); put st c)) s.
Proof using put_at.
  intros Hs Hl. apply emits_for; [done|]. intros i c Hc t Ht. rewrite (Hl i c Hc), bind_ok. by apply emits_put.
Qed.

End Writer.

(** * The arrays of 64 bytes *)
Definition in_tmp (t : list Z) : out := (zlen t, splice (replicate 64 0) 0 t).

Lemma append_in_tmp t c : zlen t < 64 → append (in_tmp t) c = Ok (in_tmp (t ++ [c])).
Proof.
  intros Ht. pose proof (zlen_nonneg t). unfold append, in_tmp.
  change (zlen t < zlen (replicate 64 0)) in Ht. rewrite zset_ok by (rewrite zlen_splice; lia).
  rewrite bind_ok, splice_snoc, zlen_app by done. done.
Qed.

Lemma zget_in_tmp t (i : nat) c : zlen t ≤ 64 → t !! i = Some c → zget (splice (replicate 64 0) 0 t) (Z.of_nat i) = Ok c.
Proof.
  intros Ht Hc. apply zget_ok; [lia|]. rewrite Nat2Z.id. pose proof (lookup_lt_Some _ _ _ Hc).
  change (zlen t ≤ zlen (replicate 64 0)) in Ht. rewrite lookup_splice by lia.
  rewrite decide_True by (unfold zlen; lia). by rewrite Nat.sub_0_r.
Qed.

(** The digits, last first. *)
Lemma fill_num_ok up v base : 8 ≤ base ≤ 16 → 0 < v < 2 ^ 64 →
  fill_num (digit_table up) v base (replicate 64 0) ⇓ λ st,
    st = in_tmp (reverse (unsigned_text base up v)) ∧ zlen (unsigned_text base up v) ≤ 22.
Proof.
  intros Hb Hv. unfold unsigned_text. rewrite (proj2 (Z.eqb_neq v 0)) by lia. unfold fill_num.
  change (0, replicate 64 0) with (in_tmp []).
  apply (wp_loop_bound (λ k '(x, st), ∃ t, st = in_tmp t ∧ (length t + k = 64)%nat ∧ 0 ≤ x ∧
    x * 8 ^ zlen t < 2 ^ 64 ∧ zlen t ≤ 22 ∧
    digit_char up <$> to_digits 64 base v = (digit_char up <$> to_digits k base x) ++ reverse t)) with (k := 64%nat).
  - intros k [x st] (t & -> & Hk & Hx & Hp & Hl & E). destruct (Z.eqb_spec x 0) as [->|Hx0].
    { apply wp_ok. assert (digit_char up <$> to_digits k base 0 = []) as E0 by (by destruct k).
      rewrite E, E0, app_nil_l, reverse_involutive. split; [done|]. unfold zlen in *. rewrite length_reverse. lia. }
    assert (zlen t < 22) as Hl'.
    { destruct (decide (zlen t < 22)); [done|exfalso]. replace (zlen t) with 22 in Hp by lia. lia. }
    assert (0 ≤ x mod base < base) by (apply Z.mod_pos_bound; lia).
    rewrite umod_ok, bind_ok by lia.
    rewrite (zget_ok _ _ (digit_char up (x mod base))), bind_ok by (lia || (apply digit_table_lookup; lia)).
    rewrite append_in_tmp, bind_ok, udiv_ok, bind_ok by lia. apply wp_ok. exists (k - 1)%nat. split; [unfold zlen in *; lia|].
    exists (t ++ [digit_char up (x mod base)]). rewrite zlen_app, length_app, reverse_snoc. change (zlen [_]) with 1.
    split; [done|]. split; [unfold zlen in *; simpl; lia|]. split; [apply Z.div_pos; lia|]. split; [|split; [lia|]].
    + pose proof (zlen_nonneg t). rewrite Z.pow_add_r by lia. change (8 ^ 1) with 8.
      assert (x / base * 8 ≤ x).
      { pose proof (Z.mul_div_le x base). assert (0 ≤ x / base) by (apply Z.div_pos; lia). nia. }
      assert (0 < 8 ^ zlen t) by (apply Z.pow_pos_nonneg; lia). nia.
    + rewrite E. destruct k as [|k]; [unfold zlen in *; lia|]. cbn [to_digits]. rewrite (proj2 (Z.eqb_neq x 0)) by done.
      rewrite Nat.sub_1_r, fmap_app, <-app_assoc. done.
  - exists []. change (zlen (@nil Z)) with 0. rewrite Z.pow_0_r, Z.mul_1_r, reverse_nil, app_nil_r. split_and!; (done || lia).
  - lia.
Qed.

(** * What the library writes for a number *)
Definition sign_text (sign : Z) : list Z := if sign =? 0 then [] else [sign].

(** A number in its field: the sign comes directly before the digits, behind any padding, which
    is made of zeros or spaces. *)
Definition num_text (v base : Z) (up : bool) (width : Z) (zero left : bool) (sign : Z) : list Z :=
  let body := sign_text sign ++ unsigned_text base up v in
  let pad c := replicate (Z.to_nat (width - zlen body)) c in
  if left then body ++ pad 32 else pad (if zero then 48 else 32) ++ body.

Abbreviation writes := (emits in_tmp 64).

Lemma zlen_reverse {A} (l : list A) : zlen (reverse l) = zlen l.
Proof. unfold zlen. by rewrite length_reverse. Qed.

Lemma zlen_replicate {A} n (x : A) : zlen (replicate n x) = Z.of_nat n.
Proof. unfold zlen. by rewrite length_replicate. Qed.

Lemma num_digits v base up : 8 ≤ base ≤ 16 → 0 ≤ v < 2 ^ 64 →
  (if v =? 0 then append (0, replicate 64 0) 48 else fill_num (digit_table up) v base (replicate 64 0)) =
    Ok (in_tmp (reverse (unsigned_text base up v))) ∧ zlen (unsigned_text base up v) ≤ 22.
Proof.
  intros Hb Hv. destruct (Z.eqb_spec v 0) as [->|Hn]; [done|].
  destruct (fill_num_ok up v base) as (st & -> & -> & Hl); [lia|lia|done].
Qed.

(** The bytes of [body], read from behind. *)
Lemma writes_reversed body : zlen body ≤ 64 →
  writes (for_each 0 (zlen body) (λ i st, c ← zget (splice (replicate 64 0) 0 (reverse body)) (zlen body - 1 - i); append st c)) body.
Proof.
  intros Hl. apply (emits_array append in_tmp 64 append_in_tmp 0 (zlen body) (λ i, zlen body - 1 - i));
    [pose proof (zlen_nonneg body); lia|].
  intros i c Hc. pose proof (lookup_lt_Some _ _ _ Hc) as Hi.
  replace (zlen body - 1 - (0 + Z.of_nat i)) with (Z.of_nat (length body - 1 - i)) by (unfold zlen; lia).
  apply zget_in_tmp; [by rewrite zlen_reverse|]. rewrite reverse_lookup by lia. rewrite <-Hc. f_equal. lia.
Qed.

Lemma body_len v base up sign : 8 ≤ base ≤ 16 → 0 ≤ v < 2 ^ 64 → zlen (sign_text sign ++ unsigned_text base up v) ≤ 23.
Proof.
  intros Hb Hv. destruct (num_digits v base up Hb Hv) as [_ Hd]. unfold sign_text. rewrite zlen_app.
  destruct (sign =? 0); [change (zlen (@nil Z)) with 0|change (zlen [sign]) with 1]; lia.
Qed.

Lemma num_text_len v base up width zero left sign :
  8 ≤ base ≤ 16 → 0 ≤ v < 2 ^ 64 → width ≤ 64 → zlen (num_text v base up width zero left sign) ≤ 64.
Proof.
  intros Hb Hv Hw. pose proof (body_len v base up sign Hb Hv). pose proof (zlen_nonneg (sign_text sign ++ unsigned_text base up v)).
  unfold num_text. destruct left; rewrite (zlen_app _ (replicate _ _)) || rewrite (zlen_app (replicate _ _)); rewrite zlen_replicate; lia.
Qed.

Lemma fmt_num_ok v base up width zero left sign :
  8 ≤ base ≤ 16 → 0 ≤ v < 2 ^ 64 → width ≤ 64 →
  fmt_num (replicate 64 0) (0, replicate 64 0) v base up width zero left sign = Ok (in_tmp (num_text v base up width zero left sign)).
Proof.
  intros Hb Hv Hw. unfold fmt_num, num_text. destruct (num_digits v base up Hb Hv) as [-> Hd]. rewrite bind_ok.
  set (ds := unsigned_text base up v) in *. pose proof (zlen_nonneg ds). unfold in_tmp at 1.
  assert ((if sign =? 0 then Ok (zlen (reverse ds), splice (replicate 64 0) 0 (reverse ds))
           else append (zlen (reverse ds), splice (replicate 64 0) 0 (reverse ds)) sign) =
          Ok (in_tmp (reverse (sign_text sign ++ ds)))) as ->.
  { unfold sign_text. destruct (sign =? 0); [done|]. fold (in_tmp (reverse ds)).
    rewrite append_in_tmp by (rewrite zlen_reverse; lia). by rewrite <-reverse_cons. }
  rewrite bind_ok. set (body := sign_text sign ++ ds) in *.
  pose proof (body_len v base up sign Hb Hv) as Hbody. fold ds in Hbody. fold body in Hbody.
  unfold in_tmp at 1. rewrite zlen_reverse.
  assert ((if width <? zlen body then zlen body else width) - zlen body = Z.of_nat (Z.to_nat (width - zlen body))) as E
    by (destruct (Z.ltb_spec width (zlen body)); lia).
  assert (∀ c, writes (for_each 0 ((if width <? zlen body then zlen body else width) - zlen body) (λ _ st, append st c))
                 (replicate (Z.to_nat (width - zlen body)) c)) as Hpad.
  { intros c. rewrite E. pose proof (emits_repeat append in_tmp 64 append_in_tmp 0 (Z.of_nat (Z.to_nat (width - zlen body))) c) as H'.
    by rewrite Z.sub_0_r, Nat2Z.id in H'. }
  pose proof (writes_reversed body ltac:(lia)) as Hrev. change (0, replicate 64 0) with (in_tmp []).
  pose proof (zlen_nonneg body). destruct left.
  - rewrite bind_ok, Hrev, bind_ok, Hpad; [done|..]; rewrite ?zlen_replicate; change (zlen (@nil Z)) with 0; cbn [app]; lia.
  - rewrite Hpad, bind_ok, Hrev, bind_ok; [done|..]; rewrite ?zlen_app, ?zlen_replicate; change (zlen (@nil Z)) with 0; lia.
Qed.

(** * The caller's buffer *)
Section Buffer.
Context (max : Z) (buf : list Z).
Hypothesis Hmax : max ≤ zlen buf.

(** After [t] was put, of which the first [max] bytes are stored. *)
Definition shown (t : list Z) : out := (zlen t, splice buf 0 (take (Z.to_nat max) t)).

Lemma PUT_shown t c : zlen t < 2147483647 → PUT max (shown t) c = Ok (shown (t ++ [c])).
Proof using Hmax.
  intros Ht. pose proof (zlen_nonneg t). unfold PUT, shown. destruct (Z.ltb_spec (zlen t) max) as [Hl|Hl].
  - rewrite take_ge by (unfold zlen in *; lia). rewrite zset_ok by (rewrite zlen_splice; lia).
    rewrite bind_ok, int_ok, bind_ok, splice_snoc by lia. rewrite take_ge; [by rewrite zlen_app|].
    rewrite length_app. unfold zlen in *. simpl. lia.
  - rewrite bind_ok, int_ok, bind_ok by lia. rewrite take_app_le by (unfold zlen in *; lia). by rewrite zlen_app.
Qed.

Abbreviation puts := (emits shown 2147483647).

Lemma puts_byte c : puts (λ st, PUT max st c) [c].
Proof using Hmax. apply (emits_put (PUT max)), PUT_shown. Qed.

Lemma puts_array n l s : s = take (Z.to_nat n) l → n ≤ zlen l → puts (put_array max n l) s.
Proof using Hmax.
  intros -> Hn. unfold put_array. apply (emits_array (PUT max) shown _ PUT_shown 0 n (λ i, i)).
  - unfold zlen. rewrite length_take. unfold zlen in Hn. lia.
  - intros i c Hc. apply zget_ok; [lia|]. rewrite Z.add_0_l, Nat2Z.id. by apply lookup_take_Some in Hc as [? _].
Qed.

Lemma puts_spaces lo n : puts (put_spaces max lo n) (replicate (Z.to_nat (n - lo)) 32).
Proof using Hmax. apply (emits_repeat (PUT max)), PUT_shown. Qed.

Lemma puts_num v base up width zero left sign :
  8 ≤ base ≤ 16 → 0 ≤ v < 2 ^ 64 → width ≤ 64 →
  puts (put_num max v base up width zero left sign) (num_text v base up width zero left sign).
Proof using Hmax.
  intros Hb Hv Hw. pose proof (num_text_len v base up width zero left sign Hb Hv Hw) as Hl.
  intros t Ht. unfold put_num. rewrite fmt_num_ok by done. unfold in_tmp.
  set (s := num_text v base up width zero left sign) in *. rewrite bind_ok. apply puts_array; [|rewrite zlen_splice; change (zlen (replicate 64 0)) with 64; lia|done].
  unfold splice. change (Z.to_nat 0) with O. rewrite take_0, app_nil_l. symmetry. apply take_prefix.
Qed.

(** * Conversions *)

(** [s] in a field. *)
Definition pad_text (width : Z) (left : bool) (s : list Z) : list Z :=
  let pad := replicate (Z.to_nat (width - zlen s)) 32 in if left then s ++ pad else pad ++ s.

Definition signed_arg (lng w : Z) : Z := if lng =? 0 then i32 w else i64 w.
Definition unsigned_arg (lng w : Z) : Z := if lng =? 0 then u32 w else u64 w.

(** What the library prints for a conversion and the arguments it leaves; [None] when the argument has another
    type, the number is the least [long], the string has no end or the field of a number is wider
    than the array of 64 bytes. *)
Definition conv_text (f : flags) (width prec lng spec : Z) (args : list arg) : option (list Z * list arg) :=
  let num v base up sign := num_text v base up width (zero_pad f) (left f) sign in
  if (spec =? 100) || (spec =? 105) then
    match args with
    | AWord w :: args =>
        let v := signed_arg lng w in
        if (v =? - 2 ^ 63) || (64 <? width) then None
        else Some (num (Z.abs v) 10 false (if v <? 0 then 45 else if plus f then 43 else if space f then 32 else 0), args)
    | _ => None
    end
  else if spec =? 117 then
    match args with
    | AWord w :: args => if 64 <? width then None else Some (num (unsigned_arg lng w) 10 false 0, args)
    | _ => None
    end
  else if (spec =? 120) || (spec =? 88) then
    match args with
    | AWord w :: args =>
        let v := unsigned_arg lng w in
        if 64 <? width then None
        else Some ((if alt f && negb (v =? 0) then [48; spec] else []) ++ num v 16 (spec =? 88) 0, args)
    | _ => None
    end
  else if spec =? 111 then
    match args with
    | AWord w :: args => if 64 <? width then None else Some (num (unsigned_arg (if lng =? 1 then 1 else 0) w) 8 false 0, args)
    | _ => None
    end
  else if spec =? 112 then
    match args with
    | AWord w :: args => Some ([48; 120] ++ num_text (u64 w) 16 false 0 true false 0, args)
    | _ => None
    end
  else if spec =? 99 then
    match args with AWord w :: args => Some (pad_text width (left f) [u8 w], args) | _ => None end
  else if spec =? 115 then
    match args with
    | AStr t :: args =>
        match KPrintf.c_text (default null_text t) with
        | Some s => if zlen s <? 2 ^ 31
                    then Some (pad_text width (left f) (if 0 <=? prec then take (Z.to_nat prec) s else s), args) else None
        | None => None
        end
    | _ => None
    end
  else if spec =? 37 then Some ([37], args)
  else Some ([37; spec], args).

Lemma strlen_c_text buf' s : KPrintf.c_text buf' = Some s → strlen buf' = Ok (zlen s) ∧ s `prefix_of` buf'.
Proof using.
  revert s. induction buf' as [|c b IH]; intros s H; [done|]. simpl in *. destruct (c =? 0).
  - injection H as <-. split; [done|]. apply prefix_nil.
  - destruct (KPrintf.c_text b) as [s'|]; [|done]. injection H as <-. destruct (IH s' eq_refl) as [-> Hp].
    split; [simpl; by rewrite zlen_cons|by apply prefix_cons].
Qed.

Lemma arg_ranges lng w :
  - 2 ^ 63 ≤ signed_arg lng w < 2 ^ 63 ∧ 0 ≤ unsigned_arg lng w < 2 ^ 64 ∧ 0 ≤ u64 w < 2 ^ 64.
Proof using.
  unfold signed_arg, unsigned_arg, i32, i64, sint, u32, u64.
  pose proof (Z.mod_pos_bound (w + 2 ^ (32 - 1)) (2 ^ 32)). pose proof (Z.mod_pos_bound (w + 2 ^ (64 - 1)) (2 ^ 64)).
  pose proof (Z.mod_pos_bound w (2 ^ 32)). pose proof (Z.mod_pos_bound w (2 ^ 64)).
  destruct (lng =? 0); lia.
Qed.

(** A conversion that prints and stores nothing else. *)
Definition prints (g : out → outcome (out * list arg)) (s : list Z) (args : list arg) : Prop :=
  ∀ t, zlen t + zlen s ≤ 2147483647 → g (shown t) = Ok (shown (t ++ s), args).

Lemma prints_puts g s args : puts g s → prints (λ st, st ← g st; Ok (st, args)) s args.
Proof using. intros Hg t Ht. by rewrite Hg, bind_ok. Qed.

Lemma prints_pad width (lf : bool) g s lo n args :
  puts g s → Z.to_nat (n - lo) = Z.to_nat (width - zlen s) →
  prints (λ st, st ← (if lf then Ok st else put_spaces max lo n st); st ← g st;
                st ← (if lf then put_spaces max lo n st else Ok st); Ok (st, args)) (pad_text width lf s) args.
Proof using Hmax.
  intros Hg E t. unfold pad_text. rewrite <-E. pose proof (zlen_nonneg s).
  destruct lf; intros Ht; rewrite zlen_app in Ht; pose proof (zlen_nonneg (replicate (Z.to_nat (n - lo)) 32)).
  - rewrite bind_ok, Hg, bind_ok by lia. rewrite puts_spaces by (rewrite zlen_app; lia). by rewrite bind_ok, app_assoc.
  - rewrite puts_spaces, bind_ok by lia. rewrite Hg by (rewrite zlen_app; lia). by rewrite !bind_ok, app_assoc.
Qed.

Lemma decimal_prints f width lng w args :
  signed_arg lng w ≠ - 2 ^ 63 → width ≤ 64 →
  prints (conv_decimal max f width lng (AWord w :: args))
    (num_text (Z.abs (signed_arg lng w)) 10 false width (zero_pad f) (left f)
       (if signed_arg lng w <? 0 then 45 else if plus f then 43 else if space f then 32 else 0)) args.
Proof using Hmax.
  intros Hm Hw. destruct (arg_ranges lng w) as [Hr _]. unfold conv_decimal, va_signed, va_word. rewrite !bind_ok.
  fold (signed_arg lng w). set (v := signed_arg lng w) in *. intros t Ht. rewrite bind_ok.
  destruct (Z.ltb_spec v 0).
  - rewrite (proj2 (Z.eqb_neq v (- 2 ^ 63))) by done. rewrite bind_ok. rewrite <-Z.abs_neq in * by lia.
    rewrite puts_num by (done || lia). done.
  - rewrite bind_ok. rewrite Z.abs_eq in * by lia. rewrite puts_num by (done || lia). done.
Qed.

Lemma unsigned_prints f width lng w args : width ≤ 64 →
  prints (conv_unsigned max f width lng (AWord w :: args))
    (num_text (unsigned_arg lng w) 10 false width (zero_pad f) (left f) 0) args.
Proof using Hmax.
  intros Hw. destruct (arg_ranges lng w) as (_ & Hr & _). unfold conv_unsigned, va_unsigned, va_word. rewrite !bind_ok.
  fold (unsigned_arg lng w). apply prints_puts, puts_num; (done || lia).
Qed.

Lemma octal_prints f width lng w args : width ≤ 64 →
  prints (conv_octal max f width lng (AWord w :: args))
    (num_text (unsigned_arg (if lng =? 1 then 1 else 0) w) 8 false width (zero_pad f) (left f) 0) args.
Proof using Hmax.
  intros Hw. destruct (arg_ranges (if lng =? 1 then 1 else 0) w) as (_ & Hr & _). unfold conv_octal, va_unsigned, va_word.
  rewrite !bind_ok. fold (unsigned_arg (if lng =? 1 then 1 else 0) w). apply prints_puts, puts_num; (done || lia).
Qed.

Lemma hex_prints f width lng up w args : width ≤ 64 →
  prints (conv_hex max f width lng up (AWord w :: args))
    ((if alt f && negb (unsigned_arg lng w =? 0) then [48; if up then 88 else 120] else []) ++
     num_text (unsigned_arg lng w) 16 up width (zero_pad f) (left f) 0) args.
Proof using Hmax.
  intros Hw. destruct (arg_ranges lng w) as (_ & Hr & _). unfold conv_hex, va_unsigned, va_word. rewrite !bind_ok.
  fold (unsigned_arg lng w). set (v := unsigned_arg lng w) in *.
  set (pre := if alt f && negb (v =? 0) then [48; if up then 88 else 120] else []).
  assert (puts (λ st, if alt f && negb (v =? 0) then st ← PUT max st 48; PUT max st (if up then 88 else 120) else Ok st) pre) as Hp.
  { unfold pre. destruct (alt f && negb (v =? 0)); [|apply emits_nil]. apply (emits_bind _ _ _ _ [48] [_]); apply puts_byte. }
  intros t Ht. rewrite zlen_app in Ht. pose proof (zlen_nonneg (num_text v 16 up width (zero_pad f) (left f) 0)).
  specialize (Hp t ltac:(lia)). cbn beta in Hp. rewrite bind_ok, Hp, bind_ok, puts_num, bind_ok, app_assoc; [done|lia|lia|lia|rewrite zlen_app; lia].
Qed.

Lemma pointer_prints w args :
  prints (conv_pointer max (AWord w :: args)) ([48; 120] ++ num_text (u64 w) 16 false 0 true false 0) args.
Proof using Hmax.
  intros t Ht. unfold conv_pointer, va_word. rewrite bind_ok. destruct (arg_ranges 0 w) as (_ & _ & Hr).
  rewrite zlen_app in Ht. change (zlen [48; 120]) with 2 in Ht. pose proof (zlen_nonneg (num_text (u64 w) 16 false 0 true false 0)).
  rewrite PUT_shown, bind_ok by lia. rewrite PUT_shown, bind_ok by (rewrite zlen_app; change (zlen [48]) with 1; lia).
  rewrite puts_num, bind_ok; [|lia|lia|lia|rewrite !zlen_app; change (zlen [48]) with 1; change (zlen [120]) with 1; lia].
  by rewrite <-!app_assoc.
Qed.

Lemma char_prints f width w args : prints (conv_char max f width (AWord w :: args)) (pad_text width (left f) [u8 w]) args.
Proof using Hmax.
  intros t Ht. unfold conv_char, va_word. rewrite bind_ok.
  by apply (prints_pad width (left f) (λ st, PUT max st (u8 w)) [u8 w] 1 width args (puts_byte _)).
Qed.

Lemma string_prints f width prec b s args :
  KPrintf.c_text (default null_text b) = Some s → zlen s < 2 ^ 31 → width < 2 ^ 31 →
  prints (conv_string max f width prec (AStr b :: args))
    (pad_text width (left f) (if 0 <=? prec then take (Z.to_nat prec) s else s)) args.
Proof using Hmax.
  intros Hs Hl Hw t Ht. unfold conv_string, va_str. rewrite bind_ok. destruct (strlen_c_text _ _ Hs) as [-> Hpre].
  pose proof (zlen_nonneg s). rewrite bind_ok, i32_small by lia.
  set (s' := if 0 <=? prec then take (Z.to_nat prec) s else s) in *.
  set (slen := if (0 <=? prec) && (prec <? zlen s) then prec else zlen s).
  assert (slen = zlen s' ∧ s' = take (Z.to_nat slen) (default null_text b) ∧ slen ≤ zlen (default null_text b)) as (E1 & E2 & E3).
  { destruct Hpre as [r ->]. unfold s', slen. rewrite zlen_app. pose proof (zlen_nonneg r).
    destruct (Z.leb_spec 0 prec), (Z.ltb_spec prec (zlen s)); simpl;
      rewrite ?zlen_take, ?take_app_le by (unfold zlen in *; lia); (split; [lia|split; [|lia]]);
      rewrite ?(take_ge s) by (unfold zlen in *; lia); rewrite ?take_prefix; done. }
  assert (zlen s' ≤ zlen s) by (unfold s'; destruct (0 <=? prec); [unfold zlen; rewrite length_take|]; lia).
  pose proof (zlen_nonneg s').
  assert ((if slen <? width then int (width - slen) else Ok 0) = Ok (Z.max 0 (width - slen))) as ->.
  { destruct (Z.ltb_spec slen width); [rewrite int_ok by lia|]; f_equal; lia. }
  rewrite bind_ok. apply (prints_pad width (left f) (put_array max slen (default null_text b)) s'); [|lia|done].
  by apply puts_array.
Qed.

Lemma convert_prints f width prec lng spec args ints s args' t :
  conv_text f width prec lng spec args = Some (s, args') → spec ≠ 110 → width < 2 ^ 31 →
  zlen t + zlen s ≤ 2147483647 →
  convert max f width prec lng spec args ints (shown t) = Ok (shown (t ++ s), ints, args').
Proof using Hmax.
  intros Hc Hn Hw Ht. unfold conv_text in Hc. unfold convert.
  assert (∀ g, prints g s args' → ('(st, args) ← g (shown t); Ok (st, ints, args)) = Ok (shown (t ++ s), ints, args')) as Hkeep.
  { intros g Hg. by rewrite Hg. }
  destruct ((spec =? 100) || (spec =? 105)).
  { destruct args as [|[w| |] args]; try done. destruct (Z.eqb_spec (signed_arg lng w) (- 2 ^ 63)); [done|].
    destruct (Z.ltb_spec 64 width); [done|]. simpl in Hc. injection Hc as <- <-. by apply Hkeep, decimal_prints. }
  destruct (spec =? 117).
  { destruct args as [|[w| |] args]; try done. destruct (Z.ltb_spec 64 width); [done|]. injection Hc as <- <-.
    by apply Hkeep, unsigned_prints. }
  destruct ((spec =? 120) || (spec =? 88)) eqn:Ex.
  { destruct args as [|[w| |] args]; try done. destruct (Z.ltb_spec 64 width); [done|].
    assert ((if spec =? 88 then 88 else 120) = spec) as Es by (destruct (Z.eqb_spec spec 88), (Z.eqb_spec spec 120); done).
    pose proof (hex_prints f width lng (spec =? 88) w args ltac:(done)) as Hh. rewrite Es in Hh.
    injection Hc as <- <-. by apply Hkeep. }
  destruct (spec =? 111).
  { destruct args as [|[w| |] args]; try done. destruct (Z.ltb_spec 64 width); [done|]. injection Hc as <- <-.
    by apply Hkeep, octal_prints. }
  destruct (spec =? 112).
  { destruct args as [|[w| |] args]; try done. injection Hc as <- <-. by apply Hkeep, pointer_prints. }
  destruct (spec =? 99).
  { destruct args as [|[w| |] args]; try done. injection Hc as <- <-. by apply Hkeep, char_prints. }
  destruct (spec =? 115).
  { destruct args as [|[|b|] args]; try done. destruct (KPrintf.c_text (default null_text b)) as [s0|] eqn:Es; [|done].
    destruct (Z.ltb_spec (zlen s0) (2 ^ 31)); [|done]. injection Hc as <- <-. by apply Hkeep, string_prints. }
  rewrite (proj2 (Z.eqb_neq spec 110)) by done. destruct (spec =? 37); injection Hc as <- <-.
  { rewrite PUT_shown by (change (zlen [37]) with 1 in Ht; lia). done. }
  change (zlen [37; spec]) with 2 in Ht. rewrite PUT_shown, bind_ok by lia.
  rewrite PUT_shown by (rewrite zlen_app; change (zlen [37]) with 1; lia). by rewrite bind_ok, <-app_assoc.
Qed.

End Buffer.

(** * Formats as data *)
Inductive amount := Star | Num (ds : list Z).
Inductive item :=
  | Lit (c : Z)
  | Conv (fl : list Z) (wd : amount) (pr : option amount) (len : list Z) (spec : Z).

Definition amount_text (a : amount) : list Z := match a with Star => [42] | Num ds => ds end.
Definition prec_text (pr : option amount) : list Z := match pr with None => [] | Some a => 46 :: amount_text a end.
Definition item_text (it : item) : list Z :=
  match it with
  | Lit c => [c]
  | Conv fl wd pr len spec => 37 :: fl ++ amount_text wd ++ prec_text pr ++ len ++ [spec]
  end.
Definition fmt_text (items : list item) : list Z := concat (item_text <$> items).

Definition FLAGS : list Z := [45; 48; 43; 32; 35].
Definition LENGTHS : list (list Z) := [[]; [108]; [108; 108]; [104]; [122]].
Definition digit (c : Z) : Prop := 48 ≤ c ≤ 57.
Definition number (ds : list Z) : Z := foldl (λ n c, n * 10 + (c - 48)) 0 ds.

Definition amount_ok (a : amount) : Prop :=
  match a with Star => True | Num ds => Forall digit ds ∧ number ds < 2 ^ 31 end.
(** A character that ends the flags, the width, the precision and the length. *)
Definition ends (c : Z) : Prop := (c ∉ FLAGS) ∧ (¬ digit c) ∧ c ∉ [0; 42; 46; 104; 108; 122].

Definition item_ok (it : item) : Prop :=
  match it with
  | Lit c => c ≠ 0 ∧ c ≠ 37
  | Conv fl wd pr len spec =>
      Forall (λ c, c ∈ FLAGS) fl ∧ amount_ok wd ∧ head (amount_text wd) ≠ Some 48 ∧
      match pr with None => True | Some a => amount_ok a end ∧ len ∈ LENGTHS ∧ ends spec
  end.

Definition add_flag (f : flags) (c : Z) : flags :=
  if c =? 45 then mkFlags true (zero_pad f) (plus f) (space f) (alt f)
  else if c =? 48 then mkFlags (left f) true (plus f) (space f) (alt f)
  else if c =? 43 then mkFlags (left f) (zero_pad f) true (space f) (alt f)
  else if c =? 32 then mkFlags (left f) (zero_pad f) (plus f) true (alt f)
  else mkFlags (left f) (zero_pad f) (plus f) (space f) true.
Definition flags_of (fl : list Z) : flags := foldl add_flag no_flags fl.

Definition length_of (len : list Z) : Z :=
  match len with [108; 108] => 2 | [108] | [122] => 1 | _ => 0 end.

Definition amount_value (a : amount) (args : list arg) : option (Z * list arg) :=
  match a, args with
  | Star, AWord w :: args => Some (i32 w, args)
  | Star, _ => None
  | Num ds, _ => Some (number ds, args)
  end.
Definition prec_value (pr : option amount) (args : list arg) : option (Z * list arg) :=
  match pr with None => Some (-1, args) | Some a => amount_value a args end.

(** The text, the remaining arguments and the caller's integers after an item. *)
Definition render_item (it : item) (s : list Z * list arg * gmap Z Z) : option (list Z * list arg * gmap Z Z) :=
  let '(t, args, ints) := s in
  match it with
  | Lit c => Some (t ++ [c], args, ints)
  | Conv fl wd pr len spec =>
      '(w, args) ← amount_value wd args;
      '(p, args) ← prec_value pr args;
      if spec =? 110 then
        match args with
        | AInts p :: args =>
            if p =? 0 then Some (t, args, ints)
            else match ints !! p with Some _ => Some (t, args, <[p := zlen t]> ints) | None => None end
        | _ => None
        end
      else '(s, args) ← conv_text (flags_of fl) w p (length_of len) spec args; Some (t ++ s, args, ints)
  end.

Fixpoint render (items : list item) (s : list Z * list arg * gmap Z Z) : option (list Z * list arg * gmap Z Z) :=
  match items with [] => Some s | it :: items => s ← render_item it s; render items s end.

(** * Parsing *)
Lemma parse_flags_ok f fl c r : Forall (λ c, c ∈ FLAGS) fl → c ∉ FLAGS →
  parse_flags f (fl ++ c :: r) = Ok (foldl add_flag f fl, c :: r).
Proof.
  intros Hf Hc. revert f. induction Hf as [|x fl Hx _ IH]; intros f.
  - simpl. unfold FLAGS in Hc. rewrite !not_elem_of_cons in Hc. destruct Hc as (H1 & H2 & H3 & H4 & H5 & _).
    by rewrite (proj2 (Z.eqb_neq c 45)), (proj2 (Z.eqb_neq c 48)), (proj2 (Z.eqb_neq c 43)),
      (proj2 (Z.eqb_neq c 32)), (proj2 (Z.eqb_neq c 35)) by done.
  - simpl. unfold FLAGS in Hx. rewrite !elem_of_cons, elem_of_nil in Hx.
    destruct Hx as [->|[->|[->|[->|[->|[]]]]]]; simpl; apply IH.
Qed.

Lemma number_grows ds n : Forall digit ds → 0 ≤ n → n ≤ foldl (λ n c, n * 10 + (c - 48)) n ds.
Proof.
  intros Hd. revert n. induction Hd as [|c ds Hc _ IH]; intros n Hn; simpl; [done|].
  unfold digit in Hc. etrans; [|apply IH]; lia.
Qed.

Lemma parse_digits_ok n ds c r : Forall digit ds → ¬ digit c → 0 ≤ n →
  foldl (λ n c, n * 10 + (c - 48)) n ds < 2 ^ 31 →
  parse_digits n (ds ++ c :: r) = Ok (foldl (λ n c, n * 10 + (c - 48)) n ds, c :: r).
Proof.
  intros Hd Hc. revert n. induction Hd as [|x ds Hx Hd IH]; intros n Hn Hl.
  - simpl. unfold digit in Hc. destruct (Z.leb_spec 48 c), (Z.leb_spec c 57); (done || lia).
  - cbn [app parse_digits foldl] in *. pose proof (number_grows ds (n * 10 + (x - 48)) Hd) as Hg. unfold digit in Hx.
    rewrite (proj2 (Z.leb_le 48 x)), (proj2 (Z.leb_le x 57)) by lia. cbn [andb].
    rewrite int_ok, bind_ok, int_ok, bind_ok by lia. apply IH; lia.
Qed.

(** What follows a width or a precision. *)
Definition stops (c : Z) : Prop := (¬ digit c) ∧ c ≠ 42.

Lemma parse_amount_ok a c r args n args' : amount_ok a → stops c → amount_value a args = Some (n, args') →
  parse_amount (amount_text a ++ c :: r) args = Ok (n, c :: r, args').
Proof.
  intros Ha [Hc H42] Hv. unfold parse_amount. destruct a as [|ds]; simpl in *.
  - destruct args as [|[w| |] args]; try done. by injection Hv as <- <-.
  - injection Hv as <- <-. destruct Ha as [Hd Hn].
    assert (∃ x, zget (ds ++ c :: r) 0 = Ok x ∧ x ≠ 42) as (x & -> & Hx).
    { destruct Hd as [|x ds Hx Hd]; [by exists c|]. exists x. split; [done|]. unfold digit in Hx. lia. }
    rewrite bind_ok, (proj2 (Z.eqb_neq x 42)), (parse_digits_ok 0 ds) by (done || lia). done.
Qed.

Lemma parse_prec_ok pr c r args n args' : match pr with None => True | Some a => amount_ok a end → stops c → c ≠ 46 →
  prec_value pr args = Some (n, args') → parse_prec (prec_text pr ++ c :: r) args = Ok (n, c :: r, args').
Proof.
  intros Ha Hc H46 Hv. unfold parse_prec. destruct pr as [a|]; simpl in *.
  - by apply parse_amount_ok.
  - injection Hv as <- <-. by rewrite (proj2 (Z.eqb_neq c 46)).
Qed.

Lemma parse_length_ok len c r : len ∈ LENGTHS → c ∉ [104; 108; 122] →
  parse_length (len ++ c :: r) = Ok (length_of len, c :: r).
Proof.
  intros Hl Hc. rewrite !not_elem_of_cons in Hc. destruct Hc as (H1 & H2 & H3 & _). unfold LENGTHS in Hl.
  rewrite !elem_of_cons, elem_of_nil in Hl. unfold parse_length.
  destruct Hl as [->|[->|[->|[->|[->|[]]]]]]; simpl;
    rewrite ?(proj2 (Z.eqb_neq c 108)), ?(proj2 (Z.eqb_neq c 104)), ?(proj2 (Z.eqb_neq c 122)) by done; done.
Qed.

(** The first byte behind the precision, behind the width and behind the flags. *)
Lemma head_length len spec r : len ∈ LENGTHS → ends spec →
  ∃ c r', len ++ spec :: r = c :: r' ∧ stops c ∧ c ≠ 46 ∧ c ∉ FLAGS.
Proof.
  intros Hl (Hf & Hd & Hs). rewrite !not_elem_of_cons in Hs. unfold stops, digit in *.
  unfold LENGTHS in Hl. rewrite !elem_of_cons, elem_of_nil in Hl.
  destruct Hl as [->|[->|[->|[->|[->|[]]]]]]; simpl; (eexists _, _; split; [done|]);
    (split; [lia|]); (split; [lia|]); done || by apply (bool_decide_unpack _).
Qed.

Lemma head_prec pr c r : stops c → c ∉ FLAGS → ∃ c' r', prec_text pr ++ c :: r = c' :: r' ∧ stops c' ∧ c' ∉ FLAGS.
Proof.
  intros Hs Hf. destruct pr as [a|]; [|by exists c, r]. eexists _, _. split; [done|].
  split; [unfold stops, digit; lia|]. by apply (bool_decide_unpack _).
Qed.

Lemma head_width wd c r : amount_ok wd → head (amount_text wd) ≠ Some 48 → c ∉ FLAGS →
  ∃ c' r', amount_text wd ++ c :: r = c' :: r' ∧ c' ∉ FLAGS.
Proof.
  intros Ha Hh Hf. destruct wd as [|[|d ds]]; simpl.
  - eexists _, _. split; [done|]. by apply (bool_decide_unpack _).
  - by exists c, r.
  - eexists _, _. split; [done|]. destruct Ha as [[Hd _]%Forall_cons _]. unfold FLAGS, digit in *. simpl in Hh.
    rewrite !not_elem_of_cons. split_and!; [lia|congruence|lia..|apply not_elem_of_nil].
Qed.

Lemma amount_value_bound a args n args' : amount_ok a → amount_value a args = Some (n, args') → n < 2 ^ 31.
Proof.
  intros Ha Hv. destruct a as [|ds]; simpl in *; [|injection Hv as <- _; tauto].
  destruct args as [|[w| |] args]; try done. injection Hv as <- _. unfold i32, sint.
  pose proof (Z.mod_pos_bound (w + 2 ^ (32 - 1)) (2 ^ 32)). lia.
Qed.

Lemma vsnprintf_item max buf it rest args ints t t' args' ints' :
  max ≤ zlen buf → item_ok it → render_item it (t, args, ints) = Some (t', args', ints') → zlen t' ≤ 2147483647 →
  vsnprintf_step max (item_text it ++ rest, args, ints, shown max buf t) = Ok (inl (rest, args', ints', shown max buf t')).
Proof.
  intros Hm Hok Hr Ht. destruct it as [c|fl wd pr len spec].
  - destruct Hok as [H0 H37]. injection Hr as <- <- <-. rewrite zlen_app in Ht. change (zlen [c]) with 1 in Ht.
    unfold vsnprintf_step. change (zget (item_text (Lit c) ++ rest) 0) with (Ok c). rewrite bind_ok.
    rewrite (proj2 (Z.eqb_neq c 0)), (proj2 (Z.eqb_neq c 37)) by done. cbn [negb].
    rewrite PUT_shown by (done || lia). done.
  - destruct Hok as (Hfl & Hwd & Hh & Hpr & Hlen & Hspec). simpl in Hr.
    destruct (amount_value wd args) as [[w args1]|] eqn:Ew; [|done]. simpl in Hr.
    destruct (prec_value pr args1) as [[p args2]|] eqn:Ep; [|done]. simpl in Hr.
    destruct (head_length len spec rest Hlen Hspec) as (c1 & r1 & E1 & Hs1 & H46 & Hf1).
    destruct (head_prec pr c1 r1 Hs1 Hf1) as (c2 & r2 & E2 & Hs2 & Hf2).
    destruct (head_width wd c2 r2 Hwd Hh Hf2) as (c3 & r3 & E3 & Hf3).
    unfold vsnprintf_step. change (zget (item_text (Conv fl wd pr len spec) ++ rest) 0) with (Ok 37). rewrite bind_ok.
    change (37 =? 0) with false. change (negb (37 =? 37)) with false. cbv iota.
    replace (drop 1 (item_text (Conv fl wd pr len spec) ++ rest)) with (fl ++ c3 :: r3).
    2: { rewrite <-E3, <-E2, <-E1. simpl. rewrite drop_0, <-!app_assoc. done. }
    rewrite parse_flags_ok, bind_ok, <-E3 by done. rewrite (parse_amount_ok _ _ _ _ w args1), bind_ok, <-E2 by done.
    rewrite (parse_prec_ok _ _ _ _ p args2), bind_ok, <-E1 by done.
    rewrite parse_length_ok, bind_ok; [|done|destruct Hspec as (_ & _ & Hs); rewrite !not_elem_of_cons in *; tauto].
    change (zget (spec :: rest) 0) with (Ok spec). rewrite bind_ok. fold (flags_of fl).
    pose proof (amount_value_bound _ _ _ _ Hwd Ew) as Hw.
    destruct (Z.eqb_spec spec 110) as [->|Hn].
    + destruct args2 as [|[| |q] args2]; try done. unfold convert. simpl. destruct (q =? 0); [by injection Hr as <- <- <-|].
      destruct (ints !! q); [|done]. by injection Hr as <- <- <-.
    + destruct (conv_text (flags_of fl) w p (length_of len) spec args2) as [[s args3]|] eqn:Ec; [|done].
      injection Hr as <- <- <-. rewrite zlen_app in Ht. by rewrite (convert_prints max buf Hm _ _ _ _ _ _ _ s args3).
Qed.

Lemma render_grows items t args ints t' args' ints' :
  render items (t, args, ints) = Some (t', args', ints') → zlen t ≤ zlen t'.
Proof.
  revert t args ints. induction items as [|it items IH]; intros t args ints Hr; cbn [render] in Hr; [injection Hr as <- <- <-; lia|].
  destruct (render_item it (t, args, ints)) as [[[t1 args1] ints1]|] eqn:E; [|done]. etrans; [|by eapply IH].
  destruct it as [c|fl wd pr len spec]; simpl in E; [injection E as <- _ _; rewrite zlen_app; unfold zlen; lia|].
  destruct (amount_value wd args) as [[w args2]|]; [|done]. simpl in E.
  destruct (prec_value pr args2) as [[p args3]|]; [|done]. simpl in E. destruct (spec =? 110).
  - destruct args3 as [|[| |q] args3]; try done. destruct (q =? 0); [injection E as <- _ _; lia|].
    destruct (ints !! q); [|done]. injection E as <- _ _. lia.
  - destruct (conv_text _ _ _ _ _ _) as [[s args4]|]; [|done]. injection E as <- _ _. rewrite zlen_app. unfold zlen. lia.
Qed.

Lemma vsnprintf_loop max buf rest items : max ≤ zlen buf → Forall item_ok items → ∀ n t args ints t' args' ints',
  (length items < n)%nat → render items (t, args, ints) = Some (t', args', ints') → zlen t' ≤ 2147483647 →
  loop n (vsnprintf_step max) (fmt_text items ++ 0 :: rest, args, ints, shown max buf t) = Ok (ints', shown max buf t').
Proof.
  intros Hm. induction 1 as [|it items Hit _ IH]; intros n t args ints t' args' ints' Hn Hr Ht; (destruct n as [|n]; [simpl in Hn; lia|]).
  - injection Hr as <- <- <-. done.
  - cbn [render] in Hr. destruct (render_item it (t, args, ints)) as [[[t1 args1] ints1]|] eqn:E; [|done].
    pose proof (render_grows _ _ _ _ _ _ _ Hr) as Hg. cbn [loop].
    change (fmt_text (it :: items)) with (item_text it ++ fmt_text items). rewrite <-app_assoc.
    rewrite (vsnprintf_item max buf it _ args ints t t1 args1 ints1), bind_ok by (done || lia).
    apply (IH n t1 args1 ints1 t' args' ints'); [simpl in Hn; lia|done|done].
Qed.

Lemma libc_fmt_text_length items : Forall item_ok items → (length items ≤ length (fmt_text items))%nat.
Proof.
  induction 1 as [|it items _ _ IH]; [done|]. change (fmt_text (it :: items)) with (item_text it ++ fmt_text items).
  rewrite length_app. destruct it; simpl; lia.
Qed.

Lemma vsnprintf_ok buf size items rest args ints t args' ints' :
  0 ≤ size ≤ zlen buf → size < 2 ^ 31 → Forall item_ok items →
  render items ([], args, ints) = Some (t, args', ints') → zlen t < 2 ^ 31 →
  vsnprintf buf size (fmt_text items ++ 0 :: rest) args ints =
    Ok (zlen t, if 0 <? size then splice buf 0 (take (Z.to_nat (size - 1)) t ++ [0]) else buf, ints').
Proof.
  intros Hs Hmax Hi Hr Ht. pose proof (zlen_nonneg t). unfold vsnprintf. rewrite i32_small, int_ok, bind_ok by lia.
  change (0, buf) with (shown (size - 1) buf []) || replace (0, buf) with (shown (size - 1) buf []) by (unfold shown; by rewrite take_nil).
  rewrite (vsnprintf_loop (size - 1) buf rest items ltac:(lia) Hi _ [] args ints t args' ints'); [|..|done|lia].
  2: { rewrite length_app. pose proof (libc_fmt_text_length _ Hi). simpl. lia. }
  rewrite bind_ok. unfold shown. destruct (Z.ltb_spec 0 size) as [H0|H0].
  - assert (zlen (take (Z.to_nat (size - 1)) t) = if zlen t <? size - 1 then zlen t else size - 1) as E.
    { rewrite zlen_take by lia. destruct (Z.ltb_spec (zlen t) (size - 1)); lia. }
    pose proof (zlen_nonneg (take (Z.to_nat (size - 1)) t)). assert (zlen (take (Z.to_nat (size - 1)) t) ≤ size - 1).
    { rewrite zlen_take; lia. }
    rewrite <-E, zset_ok by (rewrite zlen_splice; lia). by rewrite bind_ok, splice_snoc by lia.
  - rewrite bind_ok. replace (Z.to_nat (size - 1)) with O by lia. done.
Qed.

(** * What the conversions mean

    The text that the C standard gives a conversion, for the flags, the width, the precision
    ([-1] when there is none) and the length modifier of the item. *)

(** A number: [prefix] is its sign or 0x, the precision the least number of digits; the field is
    filled with blanks on one side, or with zeros behind the prefix unless there is a precision. *)
Definition c_digits (base : Z) (up : bool) (prec v : Z) : list Z :=
  if (prec =? 0) && (v =? 0) then [] else
  let ds := unsigned_text base up v in replicate (Z.to_nat (prec - zlen ds)) 48 ++ ds.
Definition c_number (f : flags) (width prec : Z) (prefix ds : list Z) : list Z :=
  let fill := Z.to_nat (width - zlen prefix - zlen ds) in
  if left f then prefix ++ ds ++ replicate fill 32
  else if zero_pad f && (prec <? 0) then prefix ++ replicate fill 48 ++ ds
  else replicate fill 32 ++ prefix ++ ds.

(** A character or a string. *)
Definition c_field (f : flags) (width : Z) (t : list Z) : list Z :=
  let fill := replicate (Z.to_nat (width - zlen t)) 32 in if left f then t ++ fill else fill ++ t.

(** The sign of a number that is not negative can be asked for. *)
Definition c_sign (f : flags) (v : Z) : list Z :=
  if v <? 0 then [45] else if plus f then [43] else if space f then [32] else [].

(** The argument converted to the type the length modifier names. *)
Definition c_signed (len : list Z) (w : Z) : Z :=
  match len with [] => i32 w | [104] => sint 16 w | _ => i64 w end.
Definition c_unsigned (len : list Z) (w : Z) : Z :=
  match len with [] => u32 w | [104] => w mod 2 ^ 16 | _ => u64 w end.

(** A negative width given by an argument is a flag for the left side and a width. *)
Definition c_left (f : flags) (width : Z) : flags :=
  if width <? 0 then mkFlags true (zero_pad f) (plus f) (space f) (alt f) else f.

Definition c_conv (f : flags) (width prec : Z) (len : list Z) (spec : Z) (args : list arg) : option (list Z * list arg) :=
  let f := c_left f width in
  let width := Z.abs width in
  match args with
  | AWord w :: args' =>
      let u := c_unsigned len w in
      if (spec =? 100) || (spec =? 105) then
        let v := c_signed len w in Some (c_number f width prec (c_sign f v) (c_digits 10 false prec (Z.abs v)), args')
      else if spec =? 117 then Some (c_number f width prec [] (c_digits 10 false prec u), args')
      else if (spec =? 120) || (spec =? 88) then
        Some (c_number f width prec (if alt f && negb (u =? 0) then [48; spec] else []) (c_digits 16 (spec =? 88) prec u), args')
      else if spec =? 111 then
        let ds := c_digits 8 false prec u in
        Some (c_number f width prec [] (if alt f && negb (bool_decide (head ds = Some 48)) then 48 :: ds else ds), args')
      else if spec =? 112 then Some ([48; 120] ++ unsigned_text 16 false (u64 w), args')
      else if spec =? 99 then Some (c_field f width [u8 w], args')
      else if spec =? 37 then Some ([37], args) else None
  | AStr (Some b) :: args' =>
      if spec =? 115 then
        t ← KPrintf.c_text b; Some (c_field f width (if 0 <=? prec then take (Z.to_nat prec) t else t), args')
      else if spec =? 37 then Some ([37], args) else None
  | _ => if spec =? 37 then Some ([37], args) else None
  end.

(** The conversions in which the library does what the standard says. *)
Definition plain_flags (f : flags) : bool := negb (left f || zero_pad f || plus f || space f || alt f).
Definition supported (f : flags) (width prec : Z) (len : list Z) (spec : Z) (args : list arg) : bool :=
  let sized := bool_decide (len ∈ [[]; [108]; [108; 108]; [122]]) in
  let number := (0 <=? width) && (width <=? 64) && (prec <? 0) && sized in
  match args with
  | AWord w :: _ =>
      if (spec =? 100) || (spec =? 105) then
        let v := c_signed len w in
        number && negb (v =? - 2 ^ 63) && negb (alt f) && (negb (zero_pad f) || left f || bool_decide (c_sign f v = []))
      else if spec =? 117 then number && negb (alt f)
      else if (spec =? 120) || (spec =? 88) then number && (negb (alt f) || (width =? 0))
      else if spec =? 111 then number && negb (alt f) && bool_decide (len ≠ [108; 108])
      else if spec =? 112 then plain_flags f && (width =? 0) && (prec <? 0) && bool_decide (len = [])
      else if spec =? 99 then (0 <=? width) && negb (zero_pad f) && (prec <? 0) && bool_decide (len = [])
      else (spec =? 37) && plain_flags f && (width =? 0) && (prec <? 0) && bool_decide (len = [])
  | AStr (Some b) :: _ =>
      if spec =? 115 then (0 <=? width) && negb (zero_pad f) && bool_decide (len = []) &&
        match KPrintf.c_text b with Some t => zlen t <? 2 ^ 31 | None => false end
      else (spec =? 37) && plain_flags f && (width =? 0) && (prec <? 0) && bool_decide (len = [])
  | _ => (spec =? 37) && plain_flags f && (width =? 0) && (prec <? 0) && bool_decide (len = [])
  end.

Lemma c_digits_plain base up prec v : prec < 0 → c_digits base up prec v = unsigned_text base up v.
Proof.
  intros Hp. unfold c_digits. rewrite (proj2 (Z.eqb_neq prec 0)) by lia. cbn [andb]. pose proof (zlen_nonneg (unsigned_text base up v)).
  by replace (Z.to_nat (prec - _)) with O by lia.
Qed.

(** The library's number is the standard's, but for zeros before a sign. *)
Lemma num_text_number v base up f width prec sign :
  prec < 0 → negb (zero_pad f) || left f || bool_decide (sign_text sign = []) = true →
  num_text v base up width (zero_pad f) (left f) sign = c_number f width prec (sign_text sign) (c_digits base up prec v).
Proof.
  intros Hp Hz. rewrite c_digits_plain by done. unfold num_text, c_number. rewrite (proj2 (Z.ltb_lt prec 0)), andb_true_r by done.
  rewrite zlen_app, Z.sub_add_distr. destruct (left f); [by rewrite <-app_assoc|]. destruct (zero_pad f); [|done].
  rewrite orb_false_r in Hz. cbn [negb orb] in Hz. apply bool_decide_eq_true in Hz. by rewrite Hz.
Qed.

Lemma lengths_agree len w : len ∈ [[]; [108]; [108; 108]; [122]] →
  signed_arg (length_of len) w = c_signed len w ∧ unsigned_arg (length_of len) w = c_unsigned len w ∧
  (len ≠ [108; 108] → unsigned_arg (if length_of len =? 1 then 1 else 0) w = c_unsigned len w).
Proof.
  rewrite !elem_of_cons, elem_of_nil. intros [->|[->|[->|[->|[]]]]]; (split; [done|]); (split; [done|]); done.
Qed.

Lemma c_left_pos f width : 0 ≤ width → c_left f width = f ∧ Z.abs width = width.
Proof. intros. unfold c_left. rewrite (proj2 (Z.ltb_ge width 0)) by done. split; [done|lia]. Qed.

Lemma sign_text_c f v : sign_text (if v <? 0 then 45 else if plus f then 43 else if space f then 32 else 0) = c_sign f v.
Proof. unfold c_sign. repeat case_match; done. Qed.

Ltac bools := repeat match goal with
  | H : _ && _ = true |- _ => apply andb_true_iff in H as [? ?]
  | H : bool_decide _ = true |- _ => apply bool_decide_eq_true in H
  | H : (_ <=? _) = true |- _ => apply Z.leb_le in H
  | H : (_ <? _) = true |- _ => apply Z.ltb_lt in H
  | H : (_ =? _) = true |- _ => apply Z.eqb_eq in H
  | H : negb _ = true |- _ => apply negb_true_iff in H
  end.

(** In the supported conversions the library prints what the standard says. *)
Lemma number_agrees f width prec len spec w args : supported f width prec len spec (AWord w :: args) = true →
  spec ≠ 37 → conv_text f width prec (length_of len) spec (AWord w :: args) = c_conv f width prec len spec (AWord w :: args).
Proof.
  intros Hs H37. unfold supported, conv_text, c_conv in *. cbv zeta in *.
  destruct ((spec =? 100) || (spec =? 105)).
  { bools. destruct (lengths_agree len w) as (-> & _); [done|]. destruct (c_left_pos f width) as [-> ->]; [done|].
    rewrite (proj2 (Z.ltb_ge 64 width)) by done. match goal with H : (_ =? - 2 ^ 63) = false |- _ => rewrite H end. cbn [orb].
    rewrite <-sign_text_c. rewrite <-num_text_number; [done|done|by rewrite sign_text_c]. }
  destruct (spec =? 117).
  { bools. destruct (lengths_agree len w) as (_ & -> & _); [done|]. destruct (c_left_pos f width) as [-> ->]; [done|].
    rewrite (proj2 (Z.ltb_ge 64 width)) by done. rewrite (num_text_number _ _ _ _ _ prec 0) by (done || by rewrite orb_true_r). done. }
  destruct ((spec =? 120) || (spec =? 88)).
  { bools. destruct (lengths_agree len w) as (_ & -> & _); [done|]. destruct (c_left_pos f width) as [-> ->]; [done|].
    rewrite (proj2 (Z.ltb_ge 64 width)) by done. rewrite (num_text_number _ _ _ _ _ prec 0) by (done || by rewrite orb_true_r).
    destruct (alt f) eqn:Ea; cbn [andb negb orb] in *; [|done]. bools. subst width. destruct (negb (c_unsigned len w =? 0)); [|done].
    unfold c_number. change (sign_text 0) with (@nil Z). set (ds := c_digits _ _ _ _). pose proof (zlen_nonneg ds).
    change (zlen [48; spec]) with 2. change (zlen (@nil Z)) with 0. replace (Z.to_nat (0 - 0 - zlen ds)) with O by lia.
    replace (Z.to_nat (0 - 2 - zlen ds)) with O by lia. destruct (left f); [done|]. by destruct (zero_pad f && _). }
  destruct (spec =? 111).
  { bools. destruct (lengths_agree len w) as (_ & _ & Hl); [done|]. rewrite Hl by done. destruct (c_left_pos f width) as [-> ->]; [done|].
    rewrite (proj2 (Z.ltb_ge 64 width)) by done. rewrite (num_text_number _ _ _ _ _ prec 0) by (done || by rewrite orb_true_r).
    match goal with H : alt f = false |- _ => rewrite H end. done. }
  destruct (spec =? 112); [|].
  { unfold num_text. change (sign_text 0) with (@nil Z). cbn [app]. pose proof (zlen_nonneg (unsigned_text 16 false (u64 w))).
    by replace (Z.to_nat (0 - zlen (unsigned_text 16 false (u64 w)))) with O by lia. }
  destruct (spec =? 99).
  { bools. destruct (c_left_pos f width) as [-> ->]; [done|]. done. }
  bools. done.
Qed.

Lemma supported_percent f width prec len args : conv_text f width prec (length_of len) 37 args = c_conv f width prec len 37 args.
Proof. unfold conv_text, c_conv. cbn [Z.eqb Pos.eqb orb]. by destruct args as [|[|[]|] ?]. Qed.

Lemma conv_agrees f width prec len spec args : supported f width prec len spec args = true →
  conv_text f width prec (length_of len) spec args = c_conv f width prec len spec args.
Proof.
  intros Hs. destruct (decide (spec = 37)) as [->|H37]; [by apply supported_percent|].
  destruct args as [|[w|[b|]|p] args]; [|by apply number_agrees| | |]; unfold supported in Hs; cbv zeta in Hs;
    rewrite ?(proj2 (Z.eqb_neq spec 37)) in Hs by done; try done.
  destruct (Z.eqb_spec spec 115) as [->|]; [|done]. bools. unfold conv_text, c_conv. cbn [Z.eqb Pos.eqb orb default from_option id].
  destruct (c_left_pos f width) as [-> ->]; [done|]. destruct (KPrintf.c_text b) as [t|]; [|done]. bools. cbn [mbind option_bind].
  rewrite (proj2 (Z.ltb_lt _ _)) by done. done.
Qed.

(** The text that a format stands for; [None] at a conversion that is not supported. *)
Definition meant_item (it : item) (s : list Z * list arg * gmap Z Z) : option (list Z * list arg * gmap Z Z) :=
  let '(t, args, ints) := s in
  match it with
  | Lit c => Some (t ++ [c], args, ints)
  | Conv fl wd pr len spec =>
      '(w, args) ← amount_value wd args;
      '(p, args) ← prec_value pr args;
      if spec =? 110 then
        match fl, wd, pr, len, args with
        | [], Num [], None, [], AInts p :: args => if decide (is_Some (ints !! p) ∧ p ≠ 0) then Some (t, args, <[p := zlen t]> ints) else None
        | _, _, _, _, _ => None
        end
      else if supported (flags_of fl) w p len spec args
      then '(s, args) ← c_conv (flags_of fl) w p len spec args; Some (t ++ s, args, ints)
      else None
  end.
Fixpoint meant (items : list item) (s : list Z * list arg * gmap Z Z) : option (list Z * list arg * gmap Z Z) :=
  match items with [] => Some s | it :: items => s ← meant_item it s; meant items s end.

Lemma meant_item_render it s s' : meant_item it s = Some s' → render_item it s = Some s'.
Proof.
  destruct s as [[t args] ints]. destruct it as [c|fl wd pr len spec]; [done|]. simpl.
  destruct (amount_value wd args) as [[w args1]|]; [|done]. cbn [mbind option_bind]. destruct (prec_value pr args1) as [[q args2]|]; [|done].
  cbn [mbind option_bind]. destruct (spec =? 110).
  - destruct fl; [|done]. destruct wd as [|[]]; [done| |done]. destruct pr; [done|]. destruct len; [|done].
    destruct args2 as [|[| |p] args2]; try done. case_decide as Hd; [|done]. destruct Hd as [[x Hx] Hp].
    by rewrite (proj2 (Z.eqb_neq p 0)), Hx by done.
  - destruct (supported _ _ _ _ _ _) eqn:Es; [|done]. by rewrite conv_agrees.
Qed.

Lemma meant_render items s s' : meant items s = Some s' → render items s = Some s'.
Proof.
  revert s. induction items as [|it items IH]; intros s Hm; [done|]. cbn [meant render] in *.
  destruct (meant_item it s) as [s1|] eqn:E; [|done]. rewrite (meant_item_render it s s1 E). by apply IH.
Qed.

(** C15: vsnprintf, on any format of ordinary text and the conversions below with the arguments
    it needs, returns the length of the text that the C standard gives them, and leaves in the
    buffer as much of that text as fits and a zero byte behind it, and nothing else changed.
    Covered are: the number conversions d, i, u, o, x, X without precision, widths of 0 to 64,
    with the flags '-', '+', ' ' and '0' ('0' not together with a sign that is printed unless
    '-' overrides it, '#' only for x and X without width) and the lengths none, l, ll (not for
    o) and z, of any number but the least long; c and s with a width that is not negative and
    without '0', s also with a precision, strings shorter than 2^31 and not NULL; p (0x and
    hexadecimal digits), n and %% without flags, width and precision. The buffer size and the
    text are below 2^31. *)
Theorem vsnprintf_renders buf size items rest args ints t args' ints' :
  0 ≤ size ≤ zlen buf → size < 2 ^ 31 → Forall item_ok items →
  meant items ([], args, ints) = Some (t, args', ints') → zlen t < 2 ^ 31 →
  vsnprintf buf size (fmt_text items ++ 0 :: rest) args ints =
    Ok (zlen t, if 0 <? size then splice buf 0 (take (Z.to_nat (size - 1)) t ++ [0]) else buf, ints').
Proof. intros Hs Hmax Hi Hm Ht. apply (vsnprintf_ok buf size items rest args ints t args' ints'); try done. by apply meant_render. Qed.

(** "%-4s|%+3d%n" with "ab" and 7 in ten bytes *)
Lemma vsnprintf_renders_witness :
  vsnprintf (replicate 10 1) 8 [37; 45; 52; 115; 124; 37; 43; 51; 100; 37; 110; 0]
    [AStr (Some [97; 98; 0]); AWord 7; AInts 64] {[64 := 0]} =
  Ok (8, [97; 98; 32; 32; 124; 32; 43; 0; 1; 1], {[64 := 8]}).
Proof.
  apply (vsnprintf_renders (replicate 10 1) 8
    [Conv [45] (Num [52]) None [] 115; Lit 124; Conv [43] (Num [51]) None [] 100; Conv [] (Num []) None [] 110] []
    [AStr (Some [97; 98; 0]); AWord 7; AInts 64] {[64 := 0]} [97; 98; 32; 32; 124; 32; 43; 55] [] {[64 := 8]}).
  - by vm_compute.
  - lia.
  - assert (∀ (P : Prop) (H : Decision P), bool_decide P = true → P) as dec by (intros P H; apply bool_decide_eq_true).
    repeat constructor; unfold ends, FLAGS, LENGTHS, digit; by (apply (dec _ _); vm_compute) || (simpl; lia).
  - by vm_compute.
  - by vm_compute.
Defined.

(** * What the format can do wrong *)

(** A field of a number that is wider than 64 bytes is written behind the local array. *)
Lemma wide_number_unsound buf ints : vsnprintf buf 0 [37; 54; 53; 100; 0] [AWord 7] ints = Undef.
Proof. by vm_compute. Qed.

(** With zero padding the sign stands between the zeros and the digits. *)
Lemma zero_pad_splits_sign : vsnprintf (replicate 8 1) 8 [37; 48; 53; 100; 0] [AWord (-42)] ∅ = Ok (5, [48; 48; 45; 52; 50; 0; 1; 1], ∅).
Proof. by vm_compute. Qed.

Lemma zero_pad_meant : c_conv (flags_of [48]) 5 (-1) [] 100 [AWord (-42)] = Some ([45; 48; 48; 52; 50], []).
Proof. by vm_compute. Qed.

(** A format that ends in a percent sign is read behind its end. *)
Lemma lone_percent_unsound buf args ints : vsnprintf buf 0 [37; 0] args ints = Undef.
Proof. by vm_compute. Qed.

End LibcPrintfClaims.
