(* ===== verification/LibcEnv.v ===== *)
(** The environment of a user-space program (userland/libc/src/stdlib.c): getenv, setenv,
    unsetenv and putenv, and their refinement of a map of variables.

    [environ] is NULL or the array of its entries up to the NULL at its end; an entry is the
    list of bytes from its pointer.  [errno] is the variable of that name. *)
From stdpp Require Import base list gmap.
From S2P Require Import Prelude.
From S2P Require Import KString.
From S2P Require Import CLib.
From S2P Require Import Libc.
From S2P Require Import LibcString.
From S2P Require Import LibcStringClaims.
Import KString (is_cstr, splice).
Import Libc (strncmp).
Import LibcString (strlen, strchr, memcpy).
Import LibcStringClaims (text, strlen_text, strchr_text, strchr_in, memcpy_start, zget_app_r, zset_app_r).

Module LibcEnv.

Definition EINVAL : Z := 22.

Abbreviation environ_t := (option (list (list Z))).

(** [strncmp( *e, name, nlen) == 0 && ( *e)[nlen] == '='] *)
Definition entry_matches (e name : list Z) (nlen : Z) : outcome bool :=
  d ← strncmp e name (Z.to_nat nlen);
  if d =? 0 then c ← zget e nlen; Ok (c =? 61) else Ok false.

Fixpoint getenv_from (env : list (list Z)) (name : list Z) (nlen : Z) : outcome (option (list Z)) :=
  match env with
  | [] => Ok None
  | e :: env =>
      b ← entry_matches e name nlen;
      if (b : bool) then Ok (Some (drop (Z.to_nat (nlen + 1)) e)) else getenv_from env name nlen
  end.

Definition getenv (environ : environ_t) (name : option (list Z)) : outcome (option (list Z)) :=
  match environ, name with
  | Some env, Some name => nlen ← strlen name; getenv_from env name nlen
  | _, _ => Ok None
  end.

(** The first match is replaced; there is no entry behind the last one to add. *)
Fixpoint putenv_from (env : list (list Z)) (string : list Z) (nlen : Z) : outcome (list (list Z)) :=
  match env with
  | [] => Ok []
  | e :: env =>
      b ← entry_matches e string nlen;
      if (b : bool) then Ok (string :: env) else env ← putenv_from env string nlen; Ok (e :: env)
  end.

(** The result, [errno] and the environment. *)
Definition putenv (environ : environ_t) (errno : Z) (string : option (list Z)) : outcome (Z * Z * environ_t) :=
  match string with
  | None => Ok (-1, EINVAL, environ)
  | Some s =>
      eq ← strchr s 61;
      match eq with
      | None => Ok (-1, EINVAL, environ)
      | Some nlen =>
          match environ with
          | None => Ok (0, errno, None)
          | Some env => env ← putenv_from env s nlen; Ok (0, errno, Some env)
          end
      end
  end.

(** [malloc] is the [k]-th request. *)
Definition setenv (A : allocator) (k : nat) (environ : environ_t) (errno : Z) (name : option (list Z)) (value : list Z)
  (overwrite : bool) : outcome (Z * Z * environ_t) :=
  match name with
  | None => Ok (-1, EINVAL, environ)
  | Some n =>
      c ← zget n 0;
      eq ← (if c =? 0 then Ok None else strchr n 61);
      if (c =? 0) || bool_decide (is_Some eq) then Ok (-1, EINVAL, environ)
      else
        old ← (if overwrite then Ok None else getenv environ name);
        match old with
        | Some _ => Ok (0, errno, environ)
        | None =>
            nlen ← strlen n; vlen ← strlen value;
            if avail A k (nlen + vlen + 2) then
              entry ← memcpy (fresh A k (nlen + vlen + 2)) 0 n 0 nlen;
              entry ← zset entry nlen 61;
              entry ← memcpy entry (nlen + 1) value 0 (vlen + 1);
              putenv environ errno (Some entry)
            else Ok (-1, errno, environ)
        end
  end.

Fixpoint unsetenv_from (env : list (list Z)) (name : list Z) (nlen : Z) : outcome (list (list Z)) :=
  match env with
  | [] => Ok []
  | e :: env =>
      b ← entry_matches e name nlen;
      if (b : bool) then Ok env else env ← unsetenv_from env name nlen; Ok (e :: env)
  end.

Definition unsetenv (environ : environ_t) (name : option (list Z)) : outcome (Z * environ_t) :=
  match environ, name with
  | Some env, Some name => nlen ← strlen name; env ← unsetenv_from env name nlen; Ok (0, Some env)
  | _, _ => Ok (0, environ)
  end.

(** * Entries *)

(** The name of a variable. *)
Definition name_ok (n : list Z) : Prop := text n ∧ 61 ∉ n.

Definition binding : Type := list Z * list Z.
Definition entry_is (e : list Z) (b : binding) : Prop :=
  name_ok (fst b) ∧ text (snd b) ∧ ∃ r, e = fst b ++ 61 :: snd b ++ 0 :: r.

Lemma first_equals a b x y : 61 ∉ a → 61 ∉ b → a ++ 61 :: x = b ++ 61 :: y → a = b ∧ x = y.
Proof.
  revert b. induction a as [|c a IH]; intros [|d b] Ha Hb E; simpl in *.
  - by injection E as ->.
  - injection E as Ed _. destruct Hb. rewrite Ed. left.
  - injection E as Ed _. destruct Ha. rewrite Ed. left.
  - injection E as -> E. apply not_elem_of_cons in Ha as [_ Ha], Hb as [_ Hb]. by destruct (IH b Ha Hb E) as [-> ->].
Qed.

Lemma strncmp_prefix a r b rb : text a → text b →
  strncmp (a ++ 0 :: r) (b ++ rb) (length b) ⇓ λ d, d = 0 ↔ b `prefix_of` a.
Proof.
  intros Ha Hb. revert a Ha. induction Hb as [|y b Hy _ IH]; intros a Ha.
  { apply wp_ok. split; [intros _; apply prefix_nil|done]. }
  destruct Ha as [|x a Hx Ha]; cbn [app length strncmp].
  - rewrite (u8_small y) by lia. apply wp_ok. split; [change (u8 0) with 0; lia|]. by intros H%prefix_nil_inv.
  - rewrite (proj2 (Z.eqb_neq x 0)) by lia. simpl. destruct (Z.eqb_spec x y) as [->|Hn].
    + eapply wp_mono; [by apply IH|]. intros d ->. split; [by apply prefix_cons|by apply prefix_cons_inv_2].
    + rewrite !u8_small by lia. apply wp_ok. split; [lia|]. intros H. by apply prefix_cons_inv_1 in H.
Qed.

(** An entry is found by its name; [nr] is what follows the name in its object. *)
Lemma entry_matches_ok e b n nr : entry_is e b → name_ok n →
  entry_matches e (n ++ nr) (zlen n) = Ok (bool_decide (fst b = n)).
Proof.
  destruct b as [m v]. intros ([Hm Hm'] & Hv & r & ->) [Hn Hn']. cbn [fst snd] in *. unfold entry_matches.
  assert (text (m ++ 61 :: v)) as Ht by (apply Forall_app; split; [done|by constructor]).
  destruct (strncmp_prefix (m ++ 61 :: v) r n nr Ht Hn) as (d & Hd & Hp). rewrite <-app_assoc in Hd. simpl in Hd.
  replace (Z.to_nat (zlen n)) with (length n) by (unfold zlen; lia). rewrite Hd, bind_ok.
  destruct (Z.eqb_spec d 0) as [E|E].
  - destruct (proj1 Hp E) as [z Hz].
    replace (m ++ 61 :: v ++ 0 :: r) with (n ++ z ++ 0 :: r).
    2: { rewrite app_assoc, <-Hz, <-app_assoc. done. }
    destruct z as [|c z]; cbn [app]; rewrite zget_app_r, bind_ok.
    + simpl. rewrite bool_decide_eq_false_2; [done|]. intros ->. apply (f_equal length) in Hz.
      rewrite !length_app in Hz. simpl in Hz. lia.
    + destruct (Z.eqb_spec c 61) as [->|Hc].
      * destruct (first_equals m n v z) as [-> _]; [done..|]. by rewrite bool_decide_eq_true_2.
      * rewrite bool_decide_eq_false_2; [done|]. intros ->. apply app_inv_head in Hz. congruence.
  - rewrite bool_decide_eq_false_2; [done|]. intros ->. apply E, Hp. by apply prefix_app_r.
Qed.

(** * The map *)
Abbreviation vars := (gmap (list Z) (list Z)).
Definition vars_of (l : list binding) : vars := list_to_map l.

(** The entries are bindings of different names. *)
Definition repr (env : list (list Z)) (l : list binding) : Prop := Forall2 entry_is env l ∧ NoDup l.*1.

Lemma repr_cons e env m v l : repr (e :: env) ((m, v) :: l) ↔
  entry_is e (m, v) ∧ vars_of l !! m = None ∧ repr env l.
Proof.
  unfold repr, vars_of. rewrite Forall2_cons, fmap_cons, NoDup_cons. cbn [fst].
  rewrite <-not_elem_of_list_to_map. tauto.
Qed.

Lemma vars_cons m v l : vars_of ((m, v) :: l) = <[m := v]> (vars_of l).
Proof. done. Qed.

Lemma value_at e m v : entry_is e (m, v) → is_cstr (drop (Z.to_nat (zlen m + 1)) e) v.
Proof.
  intros (_ & Hv & r & ->). cbn [fst snd] in *. split; [done|]. exists r.
  replace (Z.to_nat (zlen m + 1)) with (length m + 1)%nat by (unfold zlen; lia).
  rewrite <-drop_drop, drop_app_length. done.
Qed.

Lemma getenv_ok env l n r : repr env l → name_ok n →
  getenv (Some env) (Some (n ++ 0 :: r)) ⇓ λ o,
    match vars_of l !! n with Some v => ∃ p, o = Some p ∧ is_cstr p v | None => o = None end.
Proof.
  intros Hr Hn. unfold getenv. rewrite strlen_text, bind_ok by apply Hn. revert env Hr.
  induction l as [|[m v] l IH]; intros env Hr.
  { destruct Hr as [->%Forall2_nil_inv_r _]. by apply wp_ok. }
  destruct env as [|e env]; [by destruct Hr as [?%Forall2_nil_inv_l _]|]. apply repr_cons in Hr as (He & Hm & Hr).
  cbn [getenv_from]. rewrite (entry_matches_ok e (m, v)), bind_ok, vars_cons by done. cbn [fst].
  case_bool_decide as E; [subst m|].
  - rewrite lookup_insert_eq. apply wp_ok. eexists; split; [done|]. by apply value_at.
  - rewrite lookup_insert_ne by done. by apply IH.
Qed.

Lemma putenv_from_ok env l n v r : repr env l → name_ok n → text v →
  putenv_from env (n ++ 61 :: v ++ 0 :: r) (zlen n) ⇓ λ env', ∃ l', repr env' l' ∧ l'.*1 = l.*1 ∧
    vars_of l' = if decide (is_Some (vars_of l !! n)) then <[n := v]> (vars_of l) else vars_of l.
Proof.
  intros Hr Hn Hv. revert env Hr. induction l as [|[m w] l IH]; intros env Hr.
  { destruct Hr as [->%Forall2_nil_inv_r _]. apply wp_ok. exists []. split; [by split; constructor|]. split; [done|].
    by rewrite decide_False by (by intros [? ?]). }
  destruct env as [|e env]; [by destruct Hr as [?%Forall2_nil_inv_l _]|]. apply repr_cons in Hr as (He & Hm & Hr).
  cbn [putenv_from]. rewrite (entry_matches_ok e (m, w)), bind_ok, vars_cons by done. cbn [fst].
  case_bool_decide as E; [subst m|].
  - apply wp_ok. exists ((n, v) :: l). split.
    + apply repr_cons. split; [|done]. split; [done|]. split; [done|]. by exists r.
    + split; [done|]. rewrite lookup_insert_eq, decide_True by (by eexists). by rewrite insert_insert_eq, vars_cons.
  - rewrite lookup_insert_ne by done. apply wp_bind. eapply wp_mono; [by apply IH|]. intros env' (l' & Hr' & Hk & Hm').
    apply wp_ok. exists ((m, w) :: l'). split; [|split; [by rewrite !fmap_cons, Hk|]].
    + apply repr_cons. split; [done|]. split; [|done]. rewrite Hm'. case_decide; [by rewrite lookup_insert_ne|done].
    + rewrite vars_cons, Hm'. case_decide; [|done]. by rewrite insert_insert_ne.
Qed.

Lemma unsetenv_ok env l n r : repr env l → name_ok n →
  unsetenv (Some env) (Some (n ++ 0 :: r)) ⇓ λ '(x, env'), x = 0 ∧ ∃ env1 l', env' = Some env1 ∧ repr env1 l' ∧
    vars_of l' = delete n (vars_of l).
Proof.
  intros Hr Hn. unfold unsetenv. rewrite strlen_text, bind_ok by apply Hn.
  assert (unsetenv_from env (n ++ 0 :: r) (zlen n) ⇓ λ env', ∃ l', repr env' l' ∧ vars_of l' = delete n (vars_of l)) as H.
  2: { apply wp_bind. eapply wp_mono; [exact H|]. intros env' (l' & ? & ?). apply wp_ok. by eauto 10. }
  revert env Hr. induction l as [|[m v] l IH]; intros env Hr.
  { destruct Hr as [->%Forall2_nil_inv_r _]. apply wp_ok. exists []. split; [by split; constructor|].
    change (vars_of []) with (∅ : vars). by rewrite delete_empty. }
  destruct env as [|e env]; [by destruct Hr as [?%Forall2_nil_inv_l _]|]. apply repr_cons in Hr as (He & Hm & Hr).
  cbn [unsetenv_from]. rewrite (entry_matches_ok e (m, v)), bind_ok, vars_cons by done. cbn [fst].
  case_bool_decide as E; [subst m|].
  - apply wp_ok. exists l. split; [done|]. by rewrite delete_insert_id.
  - apply wp_bind. eapply wp_mono; [by apply IH|]. intros env' (l' & Hr' & Hm'). apply wp_ok.
    exists ((m, v) :: l'). rewrite vars_cons, Hm', delete_insert_ne by done. split; [|done].
    apply repr_cons. split; [done|]. split; [|done]. by rewrite Hm', lookup_delete_ne.
Qed.

(** The entry that [setenv] builds. *)
Lemma setenv_entry F n nr v vr : text n → text v → zlen F = zlen n + zlen v + 2 →
  (entry ← memcpy F 0 (n ++ 0 :: nr) 0 (zlen n);
   entry ← zset entry (zlen n) 61;
   memcpy entry (zlen n + 1) (v ++ 0 :: vr) 0 (zlen v + 1)) = Ok (n ++ 61 :: v ++ [0]).
Proof.
  intros Hn Hv Hl. pose proof (zlen_nonneg n). pose proof (zlen_nonneg v). rewrite memcpy_start, bind_ok by lia.
  unfold splice. change (Z.to_nat 0) with O. rewrite take_0, app_nil_l, Nat.add_0_l.
  destruct (drop (length n) F) as [|x f] eqn:E; apply (f_equal length) in E; rewrite length_drop in E; simpl in E;
    [unfold zlen in *; lia|]. rewrite zset_app_r, bind_ok.
  replace (v ++ 0 :: vr) with ((v ++ [0]) ++ vr) by (by rewrite <-app_assoc).
  replace (zlen v + 1) with (zlen (v ++ [0])) by (by rewrite zlen_app).
  rewrite memcpy_start; [|lia|rewrite !zlen_app, !zlen_cons; unfold zlen in *; simpl; lia].
  unfold splice. replace (Z.to_nat (zlen n + 1)) with (length (n ++ [61])) by (rewrite length_app; unfold zlen; simpl; lia).
  replace (n ++ 61 :: f) with ((n ++ [61]) ++ f) by (by rewrite <-app_assoc).
  rewrite take_app_length, drop_ge; [by rewrite app_nil_r, <-!app_assoc|].
  rewrite !length_app. unfold zlen in *. simpl. lia.
Qed.

Lemma equals_at n x : name_ok n → strchr (n ++ 61 :: x) 61 = Ok (Some (zlen n)).
Proof.
  intros [Hn Hn']. induction Hn as [|c n Hc _ IH]; [done|]. simpl. apply not_elem_of_cons in Hn' as [Hc' Hn'].
  rewrite (proj2 (Z.eqb_neq c 0)), (proj2 (Z.eqb_neq c (u8 61))) by (done || lia). rewrite IH by done.
  by rewrite bind_ok, zlen_cons.
Qed.

Lemma putenv_ok env l errno n v r : repr env l → name_ok n → text v →
  putenv (Some env) errno (Some (n ++ 61 :: v ++ 0 :: r)) ⇓ λ '(x, errno', env'), x = 0 ∧ errno' = errno ∧
    ∃ env1 l', env' = Some env1 ∧ repr env1 l' ∧
      vars_of l' = if decide (is_Some (vars_of l !! n)) then <[n := v]> (vars_of l) else vars_of l.
Proof.
  intros Hr Hn Hv. unfold putenv. rewrite equals_at, bind_ok by done. apply wp_bind.
  eapply wp_mono; [by apply putenv_from_ok|]. intros env' (l' & Hr' & _ & Hm). apply wp_ok. by eauto 10.
Qed.

Lemma setenv_ok A k env l errno n nr v vr ow : (∀ z, avail A k z = true) →
  repr env l → name_ok n → n ≠ [] → text v →
  setenv A k (Some env) errno (Some (n ++ 0 :: nr)) (v ++ 0 :: vr) ow ⇓ λ '(x, errno', env'), x = 0 ∧ errno' = errno ∧
    ∃ env1 l', env' = Some env1 ∧ repr env1 l' ∧
      vars_of l' = if decide (ow = true ∧ is_Some (vars_of l !! n)) then <[n := v]> (vars_of l) else vars_of l.
Proof.
  intros HA Hr Hn Hne Hv. destruct Hn as [Htn Hn']. unfold setenv.
  assert (zget (n ++ 0 :: nr) 0 ⇓ λ c, 0 < c) as (c & -> & Hc).
  { destruct Htn as [|c n Hc _]; [done|]. apply wp_ok. lia. }
  rewrite bind_ok, (proj2 (Z.eqb_neq c 0)) by lia.
  destruct (strchr_in n nr 61 Htn ltac:(lia)) as (eq & -> & Heq). rewrite bind_ok.
  rewrite bool_decide_eq_false_2 by tauto. cbn [orb].
  pose proof (getenv_ok env l n nr Hr ltac:(done)) as (old & Hold & Hspec).
  assert (∀ o, (ow = true ∨ vars_of l !! n = None) → (if ow then Ok None else getenv (Some env) (Some (n ++ 0 :: nr))) = Ok o → o = None) as Hnone.
  { intros o [->|Hn0] E; [by injection E as <-|]. rewrite Hn0 in Hspec. subst old. rewrite Hold in E. destruct ow; by injection E as <-. }
  destruct (decide (ow = true ∨ vars_of l !! n = None)) as [Hd|Hd].
  - assert ((if ow then Ok None else getenv (Some env) (Some (n ++ 0 :: nr))) = Ok None) as ->.
    { destruct ow; [done|]. rewrite Hold in *. f_equal. by apply Hnone. }
    rewrite bind_ok, !strlen_text, !bind_ok, HA by done.
    pose proof (zlen_nonneg n). pose proof (zlen_nonneg v).
    pose proof (setenv_entry (fresh A k (zlen n + zlen v + 2)) n nr v vr Htn Hv ltac:(rewrite zlen_fresh; lia)) as He.
    apply bind_inv in He as (e1 & -> & He). apply bind_inv in He as (e2 & E2 & He). rewrite bind_ok, E2, bind_ok, He, bind_ok.
    eapply wp_mono; [by apply (putenv_ok env l errno n v [])|]. intros [[x errno'] env'] (-> & -> & env1 & l' & -> & Hr' & Hm).
    split; [done|]. split; [done|]. exists env1, l'. split; [done|]. split; [done|]. rewrite Hm.
    destruct (decide (is_Some (vars_of l !! n))) as [Hs|Hs].
    + rewrite decide_True; [done|]. split; [|done]. destruct Hd as [|Hd]; [done|]. rewrite Hd in Hs. by destruct Hs.
    + by rewrite decide_False by tauto.
  - assert (ow = false) as -> by (destruct ow; [tauto|done]). rewrite Hold, bind_ok.
    destruct (vars_of l !! n) as [w|] eqn:Ew; [|tauto]. destruct Hspec as (p & -> & _). apply wp_ok.
    split; [done|]. split; [done|]. exists env, l. rewrite decide_False by (by intros [? _]). done.
Qed.

(** * Sequences of calls *)
Inductive call :=
  | CGet (n : list Z)
  | CSet (n v : list Z) (overwrite : bool)
  | CPut (n v : list Z)
  | CUnset (n : list Z).

Definition call_ok (c : call) : Prop :=
  match c with
  | CGet n | CUnset n => name_ok n
  | CSet n v _ => name_ok n ∧ n ≠ [] ∧ text v
  | CPut n v => name_ok n ∧ text v
  end.

(** The pointer that getenv returns, or the result code of another call. *)
Inductive result := RValue (p : option (list Z)) | RCode (x : Z).

Definition env_call (A : allocator) (k : nat) (errno : Z) (env : environ_t) (c : call) : outcome (result * Z * environ_t) :=
  match c with
  | CGet n => p ← getenv env (Some (n ++ [0])); Ok (RValue p, errno, env)
  | CSet n v ow => '(x, errno, env) ← setenv A k env errno (Some (n ++ [0])) (v ++ [0]) ow; Ok (RCode x, errno, env)
  | CPut n v => '(x, errno, env) ← putenv env errno (Some (n ++ 61 :: v ++ [0])); Ok (RCode x, errno, env)
  | CUnset n => '(x, env) ← unsetenv env (Some (n ++ [0])); Ok (RCode x, errno, env)
  end.

Fixpoint env_calls (A : allocator) (k : nat) (errno : Z) (env : environ_t) (cs : list call)
  : outcome (list result * Z * environ_t) :=
  match cs with
  | [] => Ok ([], errno, env)
  | c :: cs =>
      '(r, errno, env) ← env_call A k errno env c;
      '(rs, errno, env) ← env_calls A (S k) errno env cs;
      Ok (r :: rs, errno, env)
  end.

(** The map: a variable that is not in it cannot be added. *)
Definition var_call (m : vars) (c : call) : vars :=
  match c with
  | CGet _ => m
  | CSet n v ow => if decide (ow = true ∧ is_Some (m !! n)) then <[n := v]> m else m
  | CPut n v => if decide (is_Some (m !! n)) then <[n := v]> m else m
  | CUnset n => delete n m
  end.

Definition result_ok (m : vars) (c : call) (r : result) : Prop :=
  match c, r with
  | CGet n, RValue p => match m !! n with Some v => ∃ q, p = Some q ∧ is_cstr q v | None => p = None end
  | CGet _, RCode _ => False
  | _, r => r = RCode 0
  end.

Fixpoint results_ok (m : vars) (cs : list call) (rs : list result) : Prop :=
  match cs, rs with
  | [], [] => True
  | c :: cs, r :: rs => result_ok m c r ∧ results_ok (var_call m c) cs rs
  | _, _ => False
  end.

Lemma env_call_ok A k errno env l c : (∀ z, avail A k z = true) → repr env l → call_ok c →
  env_call A k errno (Some env) c ⇓ λ '(r, errno', env'), result_ok (vars_of l) c r ∧ errno' = errno ∧
    ∃ env1 l', env' = Some env1 ∧ repr env1 l' ∧ vars_of l' = var_call (vars_of l) c.
Proof.
  intros HA Hr Hc. destruct c as [n|n v ow|n v|n]; simpl in Hc; cbn [env_call]; apply wp_bind.
  - eapply wp_mono; [by apply getenv_ok|]. intros p Hp. apply wp_ok. by eauto 10.
  - destruct Hc as (Hn & Hne & Hv). eapply wp_mono; [by apply setenv_ok|].
    intros [[x errno'] env'] (-> & -> & env1 & l' & -> & Hr' & Hm). apply wp_ok.
    split; [done|]. split; [done|]. by eauto 10.
  - destruct Hc as (Hn & Hv). eapply wp_mono; [by apply putenv_ok|].
    intros [[x errno'] env'] (-> & -> & env1 & l' & -> & Hr' & Hm). apply wp_ok.
    split; [done|]. split; [done|]. by eauto 10.
  - eapply wp_mono; [by apply unsetenv_ok|].
    intros [x env'] (-> & env1 & l' & -> & Hr' & Hm). apply wp_ok.
    split; [done|]. split; [done|]. by eauto 10.
Qed.

(** C25: Sequences of getenv, setenv, unsetenv and putenv on an environment of distinct names
    answer as a map from names to values does in which only names that are already bound can be
    set. *)
Theorem env_refines_map A errno env l cs :
  (∀ k z, avail A k z = true) → repr env l → Forall call_ok cs →
  env_calls A 0 errno (Some env) cs ⇓ λ '(rs, errno', env'),
    results_ok (vars_of l) cs rs ∧ errno' = errno ∧
    ∃ env1 l', env' = Some env1 ∧ repr env1 l' ∧ vars_of l' = foldl var_call (vars_of l) cs.
Proof.
  intros HA Hr Hc. generalize 0%nat. revert env l Hr. induction Hc as [|c cs Hc _ IH]; intros env l Hr k; cbn [env_calls].
  - apply wp_ok. split; [done|]. split; [done|]. by exists env, l.
  - apply wp_bind. eapply wp_mono; [by apply env_call_ok|].
    intros [[r errno1] env1] (Hres & -> & env2 & l2 & -> & Hr2 & Hm2). apply wp_bind.
    eapply wp_mono; [by apply (IH env2 l2)|]. intros [[rs errno3] env3] (Hrs & -> & env4 & l4 & -> & Hr4 & Hm4).
    apply wp_ok. rewrite Hm2 in *. split; [done|]. split; [done|]. by exists env4, l4.
Qed.

(** "A=1" and "B=22", with "B=3" set and "C" never there *)
Lemma env_refines_map_witness :
  env_calls {| avail := λ _ _, true; junk := λ _ _, 7 |} 0 0 (Some [[65; 61; 49; 0]; [66; 61; 50; 50; 0]])
    [CSet [66] [51] true; CSet [67] [52] true; CGet [66]; CGet [67]; CUnset [65]; CGet [65]] ⇓ λ '(rs, _, env),
    rs = [RCode 0; RCode 0; RValue (Some [51; 0]); RValue None; RCode 0; RValue None] ∧ env = Some [[66; 61; 51; 0]].
Proof.
  destruct (env_refines_map {| avail := λ _ _, true; junk := λ _ _, 7 |} 0 [[65; 61; 49; 0]; [66; 61; 50; 50; 0]]
    [([65], [49]); ([66], [50; 50])] [CSet [66] [51] true; CSet [67] [52] true; CGet [66]; CGet [67]; CUnset [65]; CGet [65]])
    as ([[rs errno] env] & E & _).
  - done.
  - assert (∀ c, c ≠ 61 → 61 ∉ [c]) as Hne by (intros c Hc Hi%list_elem_of_singleton; congruence).
    split; [|by apply (bool_decide_unpack _)].
    constructor; [|constructor; [|constructor]]; (split; [split; [repeat constructor|by apply Hne]|split; [repeat constructor|by exists []]]).
  - assert (∀ c, c ≠ 61 → 0 < c < 256 → name_ok [c]) as Hn.
    { intros c Hc Hr. split; [by apply Forall_singleton|]. intros Hi%list_elem_of_singleton. congruence. }
    do 2 (apply Forall_cons_2; [split; [by apply Hn|split; [done|by repeat constructor]]|]).
    do 4 (apply Forall_cons_2; [by apply Hn|]). constructor.
  - exists (rs, errno, env). split; [exact E|]. vm_compute in E. by injection E as <- _ <-.
Defined.

(** A variable that is not in the environment is not set, though the call returns 0. *)
Lemma setenv_new_lost A k env l errno n v : (∀ z, avail A k z = true) → repr env l → name_ok n → n ≠ [] → text v →
  vars_of l !! n = None →
  ('(x, _, env) ← setenv A k (Some env) errno (Some (n ++ [0])) (v ++ [0]) true;
   p ← getenv env (Some (n ++ [0])); Ok (x, p)) = Ok (0, None).
Proof.
  intros HA Hr Hn Hne Hv Hm.
  destruct (setenv_ok A k env l errno n [] v [] true HA Hr Hn Hne Hv) as ([[x e] env'] & -> & -> & -> & env1 & l' & -> & Hr' & Hm').
  rewrite bind_ok. destruct (getenv_ok env1 l' n [] Hr' Hn) as (p & -> & Hp). rewrite Hm' in Hp.
  rewrite decide_False in Hp by (rewrite Hm; by intros [_ [? ?]]). rewrite Hm in Hp. by subst p.
Qed.

End LibcEnv.
