(* ===== verification/ShellExpand.v ===== *)
(** Expansion of words in the shell (userland/shell/expand.c): the home directory, variables,
    patterns and the search of a command in PATH; and how a line is expanded and parsed
    (execute in userland/shell/main.c).

    The environment, the status of the last command and the number of the process are the
    shell's; requests for memory are numbered, and a local array that is not initialised starts
    with zeros that nothing reads.  A command that is searched for is tried with [access], which
    asks the kernel. *)
From stdpp Require Import base list gmap.
From S2P Require Import Prelude.
From S2P Require Import CLib.
From S2P Require Import LibcString.
From S2P Require Import LibcPrintf.
From S2P Require Import LibcEnv.
From S2P Require Import ShellParser.
Import LibcString (strlen, strdup, strchr, strncpy, strtok_r).
Import LibcPrintf (snprintf, AWord, AStr).
Import LibcEnv (getenv, environ_t).
Import ShellParser (push).

Module ShellExpand.

Definition EXPAND_BUF : Z := 8192.

Section Expand.
Context (A : allocator) (environ : environ_t) (g_last_status pid : Z).

(** [strdup] as the [k]-th request; the result and the number of the next one. *)
Definition copy (k : nat) (s : list Z) : outcome (option (list Z) * nat) :=
  r ← strdup A k s; Ok (r, S k).

(** "HOME" *)
Definition HOME : list Z := [72; 79; 77; 69; 0].

Definition expand_tilde (k : nat) (path : option (list Z)) : outcome (option (list Z) * nat) :=
  match path with
  | None => Undef
  | Some p =>
      c ← zget p 0;
      if negb (c =? 126) then copy k p
      else
        home ← getenv environ (Some HOME);
        match home with
        | None => copy k p
        | Some home =>
            '(_, buf, _) ← snprintf (replicate (Z.to_nat EXPAND_BUF) 0) EXPAND_BUF [37; 115; 37; 115; 0]
                             [AStr (Some home); AStr (Some (drop 1 p))] ∅;
            copy k buf
        end
  end.

(** * Variables: [out] holds the bytes written so far *)

(** [if (op + (int)vl < (int)sizeof(out) - 1) { memcpy(out + op, val, vl); op += vl; }] *)
Definition paste (out val : list Z) : outcome (list Z) :=
  vl ← strlen val;
  s ← int (zlen out + i32 vl);
  if s <? EXPAND_BUF - 1 then
    if decide (zlen out + vl ≤ EXPAND_BUF) then Ok (out ++ take (Z.to_nat vl) val) else Undef
  else Ok out.

Definition paste_var (out : list Z) (val : option (list Z)) : outcome (list Z) :=
  match val with None => Ok out | Some v => paste out v end.

(** [char buf[size]; snprintf(buf, sizeof(buf), "%d", v)] *)
Definition number_text (size v : Z) : outcome (list Z) :=
  '(_, buf, _) ← snprintf (replicate (Z.to_nat size) 0) size [37; 100; 0] [AWord v] ∅; Ok buf.

Fixpoint brace_name (p name : list Z) : outcome (list Z * list Z) :=
  match p with
  | [] => Undef
  | c :: p' =>
      if negb (c =? 0) && negb (c =? 125) && (zlen name <? 255)
      then name ← push 256 name c; brace_name p' name else Ok (name, p)
  end.

Definition name_start (c : Z) : bool := ((65 <=? c) && (c <=? 90)) || ((97 <=? c) && (c <=? 122)) || (c =? 95).
Definition name_char (c : Z) : bool := name_start c || ((48 <=? c) && (c <=? 57)).

Fixpoint plain_name (p name : list Z) : outcome (list Z * list Z) :=
  match p with
  | [] => Undef
  | c :: p' =>
      if name_char c then
        name ← push 256 name c;
        if 255 <=? zlen name then Ok (name, p') else plain_name p' name
      else Ok (name, p)
  end.

(** "0" and "nv0sh" *)
Definition ZERO : list Z := [48; 0].
Definition NV0SH : list Z := [110; 118; 48; 115; 104; 0].

(** Behind a dollar: the rest of the input and the output. *)
Definition dollar (p out : list Z) : outcome (list Z * list Z) :=
  c ← zget p 0;
  if c =? 123 then
    '(name, p) ← brace_name (drop 1 p) [];
    name ← push 256 name 0;
    d ← zget p 0;
    let p := if d =? 125 then drop 1 p else p in
    val ← getenv environ (Some name);
    out ← paste_var out val; Ok (p, out)
  else if c =? 63 then
    status ← number_text 8 g_last_status;
    out ← paste out status; Ok (drop 1 p, out)
  else if c =? 36 then
    num ← number_text 16 pid;
    out ← paste out num; Ok (drop 1 p, out)
  else if c =? 48 then
    name ← getenv environ (Some ZERO);
    out ← paste out (default NV0SH name); Ok (drop 1 p, out)
  else if c =? 35 then out ← push EXPAND_BUF out 48; Ok (drop 1 p, out)
  else if name_start c then
    '(name, p) ← plain_name p [];
    name ← push 256 name 0;
    val ← getenv environ (Some name);
    out ← paste_var out val; Ok (p, out)
  else out ← push EXPAND_BUF out 36; Ok (p, out).

Definition expand_step (st : list Z * list Z) : outcome ((list Z * list Z) + list Z) :=
  let '(p, out) := st in
  c ← zget p 0;
  if (c =? 0) || negb (zlen out <? EXPAND_BUF - 1) then Ok (inr out)
  else
    d ← (if c =? 92 then zget p 1 else Ok 0);
    if negb (d =? 0) then out ← push EXPAND_BUF out d; Ok (inl (drop 2 p, out))
    else if c =? 36 then st ← dollar (drop 1 p) out; Ok (inl st)
    else out ← push EXPAND_BUF out c; Ok (inl (drop 1 p, out)).

Definition expand_vars (k : nat) (input : option (list Z)) : outcome (option (list Z) * nat) :=
  match input with
  | None => Ok (None, k)
  | Some input =>
      out ← loop (S (length input)) expand_step (input, []);
      out ← push EXPAND_BUF out 0;
      copy k out
  end.

(** * Patterns *)
Fixpoint skip_stars (pat : list Z) : outcome (list Z) :=
  match pat with [] => Undef | c :: pat' => if c =? 42 then skip_stars pat' else Ok pat end.

(** [while ( *str) { if (glob_match(pat, str)) return 1; str++; } return 0;] *)
Fixpoint glob_star (matches : list Z → outcome bool) (str : list Z) : outcome bool :=
  match str with
  | [] => Undef
  | x :: str' =>
      if x =? 0 then Ok false
      else b ← matches str; if (b : bool) then Ok true else glob_star matches str'
  end.

Fixpoint glob_match (pat str : list Z) {struct pat} : outcome bool :=
  match pat, str with
  | c :: pat', d :: str' =>
      if (c =? 0) || (d =? 0) then
        rest ← skip_stars pat; e ← zget rest 0; Ok ((e =? 0) && (d =? 0))
      else if c =? 42 then
        n ← zget pat' 0;
        if n =? 0 then Ok true
        else glob_star (glob_match pat') str
      else if c =? 63 then glob_match pat' str'
      else if negb (c =? d) then Ok false
      else glob_match pat' str'
  | _, _ => Undef
  end.

(** * The search in PATH *)

(** "PATH", "/bin:/usr/bin" and "%s/%s" *)
Definition PATH : list Z := [80; 65; 84; 72; 0].
Definition DEFAULT_PATH : list Z := [47; 98; 105; 110; 58; 47; 117; 115; 114; 47; 98; 105; 110; 0].
Definition JOIN : list Z := [37; 115; 47; 37; 115; 0].

(** [access_x path]: access(path, X_OK) == 0. *)
Context (access_x : list Z → bool).

(** [dir] is the token, [saved] the pointer that strtok keeps and [result] the static array. *)
Fixpoint search (fuel : nat) (name paths : list Z) (dir saved : option Z) (result : list Z) : outcome (option (list Z)) :=
  match fuel with
  | O => OutOfFuel
  | S fuel =>
      match dir with
      | None => Ok None
      | Some dir =>
          '(_, result, _) ← snprintf result EXPAND_BUF JOIN [AStr (Some (drop (Z.to_nat dir) paths)); AStr (Some name)] ∅;
          if access_x result then Ok (Some result)
          else
            '(dir, saved, paths) ← strtok_r paths None [58; 0] saved;
            search fuel name paths dir saved result
      end
  end.

(** [junk_paths] and [junk_result] are the contents of the local and of the static array before
    the call. *)
Definition expand_path (k : nat) (junk_paths junk_result : list Z) (name : option (list Z)) : outcome (option (list Z)) :=
  match name with
  | None => Ok None
  | Some name =>
      slash ← strchr name 47;
      match slash with
      | Some _ => strdup A k name
      | None =>
          path ← getenv environ (Some PATH);
          paths ← strncpy junk_paths (default DEFAULT_PATH path) (EXPAND_BUF - 1);
          '(dir, saved, tokens) ← strtok_r paths (Some 0) [58; 0] None;
          search (S (length paths)) name tokens dir saved junk_result
      end
  end.

(** * A line of input, up to its tree *)

(** The allocator from request [k] on. *)
Definition later (k : nat) : allocator := {| avail := λ i, avail A (k + i); junk := λ i, junk A (k + i) |}.

(** [None] when execute returns before it parses. *)
Definition execute_parse (k : nat) (input : list Z) : outcome (option ShellParser.ASTNode) :=
  c ← zget input 0;
  if c =? 0 then Ok None
  else
    '(expanded, k) ← expand_vars k (Some input);
    ast ← ShellParser.parse (later k) (default input expanded);
    Ok (Some ast).

End Expand.
End ShellExpand.
