(* ===== verification/ShellExpandClaims.v ===== *)
(** Expansion in the shell against reference definitions: patterns, variables and the search
    in PATH. *)
From stdpp Require Import base list gmap.
From S2P Require Import Prelude.
From S2P Require Import KString.
From S2P Require Import KPrintf.
From S2P Require Import CLib.
From S2P Require Import ShellParser.
From S2P Require Import ShellSafe.
From S2P Require Import LibcString.
From S2P Require Import LibcStringClaims.
From S2P Require Import LibcPrintf.
From S2P Require Import LibcPrintfClaims.
From S2P Require Import LibcEnv.
From S2P Require Import ShellExpand.
Import KString (is_cstr, splice).
Import LibcStringClaims (text, strlen_text, fields, token_at).
Import LibcPrintf (snprintf, AWord, AStr).
Import LibcPrintfClaims (item, Lit, Conv, Num, render, item_ok, vsnprintf_ok, fmt_text).
Import LibcEnv (repr, vars_of, name_ok).
Import ShellParser (push).
Import ShellExpand.

Module ShellExpandClaims.

(** * Patterns *)

(** The pattern matches the string: a star any bytes, a question mark one byte, another byte
    itself. *)
Inductive matches : list Z → list Z → Prop :=
  | m_end : matches [] []
  | m_star p s1 s2 : matches p s2 → matches (42 :: p) (s1 ++ s2)
  | m_any p c s : matches p s → matches (63 :: p) (c :: s)
  | m_char p c s : c ≠ 42 → c ≠ 63 → matches p s → matches (c :: p) (c :: s).

Lemma matches_empty p : matches p [] ↔ Forall (eq 42) p.
Proof.
  split.
  - intros H. remember [] as s eqn:E. revert E.
    induction H as [|p s1 s2 _ IH|p c s _ _|p c s _ _ _ _]; intros E; [done| |done|done].
    apply app_nil in E as [-> ->]. constructor; [done|]. by apply IH.
  - induction 1 as [|c p <- _ IH]; [constructor|]. by apply (m_star p [] []).
Qed.

Lemma stars_match p s : Forall (eq 42) p → p ≠ [] → matches p s.
Proof.
  intros Hp Hne. destruct Hp as [|c p <- Hp]; [done|]. rewrite <-(app_nil_r s). apply m_star. by apply matches_empty.
Qed.

Lemma skip_stars_ok p r : text p → skip_stars (p ++ 0 :: r) ⇓ λ rest, ∃ e, zget rest 0 = Ok e ∧ (e = 0 ↔ Forall (eq 42) p).
Proof.
  induction 1 as [|c p Hc _ IH]; simpl.
  - apply wp_ok. by exists 0.
  - destruct (Z.eqb_spec c 42) as [->|Hn].
    + eapply wp_mono; [exact IH|]. intros rest (e & -> & He). exists e. split; [done|]. rewrite He, Forall_cons. tauto.
    + apply wp_ok. exists c. split; [done|]. rewrite Forall_cons. split; [lia|]. intros [? _]. congruence.
Qed.

Lemma glob_star_ok f p s r : text s → (∀ s, text s → f (s ++ 0 :: r) ⇓ λ b : bool, b = true ↔ matches p s) →
  glob_star f (s ++ 0 :: r) ⇓ λ b : bool, b = true ↔ ∃ s1 s2, s = s1 ++ s2 ∧ s2 ≠ [] ∧ matches p s2.
Proof.
  intros Hs Hf. induction Hs as [|x s Hx Hs IH]; simpl.
  - apply wp_ok. split; [done|]. intros (s1 & s2 & E & Hne & _). by symmetry in E; apply app_nil in E as [-> ->].
  - rewrite (proj2 (Z.eqb_neq x 0)) by lia. apply wp_bind.
    eapply wp_mono; [apply (Hf (x :: s)); by constructor|]. intros [|] Hb.
    + apply wp_ok. split; [|done]. intros _. exists [], (x :: s). split; [done|]. split; [done|]. by apply Hb.
    + eapply wp_mono; [exact IH|]. intros b ->. split.
      * intros (s1 & s2 & -> & Hne & Hm). by exists (x :: s1), s2.
      * intros ([|y s1] & s2 & E & Hne & Hm); simpl in E.
        -- subst s2. apply Hb in Hm. done.
        -- injection E as -> ->. by exists s1, s2.
Qed.

(** C23: glob_match ends and returns true exactly if the name can be cut into pieces that the
    characters, question marks and stars of the pattern stand for. *)
Theorem glob_match_correct p r s r' :
  text p → text s → glob_match (p ++ 0 :: r) (s ++ 0 :: r') ⇓ λ b : bool, b = true ↔ matches p s.
Proof.
  intros Hp. revert s. induction Hp as [|c p Hc Hp IH]; intros s Hs.
  { simpl. destruct Hs as [|d s Hd _]; simpl; apply wp_ok; [split; [constructor|done]|].
    rewrite (proj2 (Z.eqb_neq d 0)) by lia. split; [done|]. by inversion 1. }
  cbn [app glob_match]. destruct Hs as [|d s Hd Hs]; cbn [app].
  { rewrite orb_true_r. apply wp_bind. eapply wp_mono; [apply (skip_stars_ok (c :: p) r); by constructor|].
    intros rest (e & -> & He). rewrite bind_ok. apply wp_ok. rewrite andb_true_r, Z.eqb_eq, He. symmetry. apply matches_empty. }
  rewrite (proj2 (Z.eqb_neq c 0)), (proj2 (Z.eqb_neq d 0)) by lia. cbn [orb].
  destruct (Z.eqb_spec c 42) as [->|H42].
  - destruct Hp as [|x p Hx Hp].
    { apply wp_ok. split; [|done]. intros _. by apply stars_match; [by repeat constructor|]. }
    change (zget ((x :: p) ++ 0 :: r) 0) with (Ok x). rewrite bind_ok, (proj2 (Z.eqb_neq x 0)) by lia.
    eapply wp_mono; [apply (glob_star_ok _ (x :: p) (d :: s) r'); [by constructor|exact IH]|]. intros b ->. split.
    + intros (s1 & s2 & -> & _ & Hm). by constructor.
    + intros Hm. inversion Hm as [|p0 s1 s2 Hm'| |]; [subst|done].
      destruct s2 as [|y s2]; [|by exists s1, (y :: s2)]. exists [], (d :: s). split; [done|]. split; [done|].
      apply stars_match; [|done]. by apply matches_empty.
  - destruct (Z.eqb_spec c 63) as [->|H63].
    + eapply wp_mono; [by apply IH|]. intros b ->. split; [by constructor|]. by inversion 1.
    + destruct (Z.eqb_spec c d) as [->|Hn]; simpl.
      * eapply wp_mono; [by apply IH|]. intros b ->. split; [by constructor|]. by inversion 1.
      * apply wp_ok. split; [done|]. inversion 1; congruence.
Qed.

(** "*.c" matches "a.b.c" *)
Lemma glob_match_correct_witness : glob_match [42; 46; 99; 0] [97; 46; 98; 46; 99; 0] ⇓ λ b : bool, b = true ∧ matches [42; 46; 99] [97; 46; 98; 46; 99].
Proof.
  destruct (glob_match_correct [42; 46; 99] [] [97; 46; 98; 46; 99] []) as (b & E & Hb); [by repeat constructor..|].
  assert (b = true) as -> by (vm_compute in E; by injection E as <-). exists true. split; [exact E|]. split; [done|]. by apply Hb.
Defined.

(** * Variables *)
Definition int_text (v : Z) : list Z :=
  LibcPrintfClaims.sign_text (if v <? 0 then 45 else 0) ++ KPrintf.unsigned_text 10 false (Z.abs v).

Lemma decimal_digits v : Forall (λ c, 48 ≤ c ≤ 57) (KPrintf.unsigned_text 10 false v).
Proof.
  unfold KPrintf.unsigned_text. destruct (v =? 0); [by repeat constructor|]. apply Forall_fmap.
  eapply Forall_impl; [apply (KPrintf.to_digits_range 64 10 v); lia|]. intros d Hd. simpl in *.
  unfold KPrintf.digit_char. rewrite (proj2 (Z.ltb_lt d 10)) by lia. lia.
Qed.

Lemma to_digits_short n (k : nat) base v : 0 < base → 0 ≤ v < base ^ Z.of_nat k → (length (KPrintf.to_digits n base v) ≤ k)%nat.
Proof.
  intros Hb. revert k v. induction n as [|n IH]; intros k v Hv; simpl; [lia|].
  destruct (Z.eqb_spec v 0) as [->|Hn]; [simpl; lia|]. destruct k as [|k]; [simpl in Hv; lia|].
  rewrite length_app. simpl. rewrite Nat2Z.inj_succ, Z.pow_succ_r in Hv by lia.
  assert (length (KPrintf.to_digits n base (v / base)) ≤ k)%nat; [|lia].
  apply IH. split; [apply Z.div_pos; lia|]. apply Z.div_lt_upper_bound; lia.
Qed.

Lemma int_text_ok v : text (int_text v).
Proof.
  apply Forall_app. split.
  - unfold LibcPrintfClaims.sign_text. destruct (v <? 0); by repeat constructor.
  - eapply Forall_impl; [apply decimal_digits|]. intros c Hc. simpl in Hc. lia.
Qed.

Lemma is_cstr_splice buf t : text t → zlen t < zlen buf → is_cstr (splice buf 0 (t ++ [0])) t.
Proof. intros Ht Hl. split; [done|]. eexists. unfold splice. simpl. by rewrite <-app_assoc. Qed.

Lemma text_take n t : text t → text (take n t).
Proof. apply Forall_take. Qed.

Lemma number_text_ok size v : 0 < size < 2 ^ 31 → - 2 ^ 31 ≤ v < 2 ^ 31 →
  number_text size v ⇓ λ b, is_cstr b (take (Z.to_nat (size - 1)) (int_text v)).
Proof.
  intros Hs Hv. unfold number_text, snprintf.
  assert (zlen (int_text v) ≤ 23) as Hl by (apply LibcPrintfClaims.body_len; lia).
  pose proof (LibcPrintfClaims.zlen_replicate (Z.to_nat size) 0) as Hz. rewrite Z2Nat.id in Hz by lia.
  set (items := [Conv [] (Num []) None [] 100]).
  assert (render items ([], [AWord v], ∅) = Some (int_text v, [], ∅)) as Hr.
  { unfold items. cbn -[Z.pow LibcPrintfClaims.conv_text]. unfold LibcPrintfClaims.conv_text, LibcPrintfClaims.signed_arg.
    cbn -[Z.pow LibcPrintfClaims.num_text]. rewrite i32_small by lia. rewrite (proj2 (Z.eqb_neq v (- 2 ^ 63))) by lia.
    cbn -[Z.pow LibcPrintfClaims.num_text]. unfold LibcPrintfClaims.num_text. fold (int_text v).
    pose proof (zlen_nonneg (int_text v)). by replace (Z.to_nat (0 - zlen (int_text v))) with O by lia. }
  assert (Forall item_ok items) as Hi.
  { apply Forall_singleton. unfold item_ok, LibcPrintfClaims.ends. by apply (bool_decide_unpack _). }
  pose proof (vsnprintf_ok (replicate (Z.to_nat size) 0) size items [] _ ∅ _ _ _ ltac:(lia) ltac:(lia) Hi Hr ltac:(lia)) as E.
  change (fmt_text items ++ [0]) with [37; 100; 0] in E. rewrite E, bind_ok. apply wp_ok.
  rewrite (proj2 (Z.ltb_lt 0 size)) by lia. apply is_cstr_splice; [apply text_take, int_text_ok|].
  rewrite zlen_take by lia. lia.
Qed.

Lemma push_fits {T} cap (l : list T) x : zlen l < cap → push cap l x = Ok (l ++ [x]).
Proof. intros H. unfold push. by rewrite (proj2 (Z.ltb_lt _ _)). Qed.

Lemma paste_fits out val v : is_cstr val v → zlen out + zlen v < 8191 → paste out val = Ok (out ++ v).
Proof.
  intros [Hv [r ->]] Hl. pose proof (zlen_nonneg out). pose proof (zlen_nonneg v). unfold paste, EXPAND_BUF.
  rewrite strlen_text, bind_ok by done. rewrite i32_small, int_ok, bind_ok by lia.
  rewrite (proj2 (Z.ltb_lt _ _)), decide_True by lia. by rewrite LibcStringClaims.take_prefix.
Qed.

(** A command line in pieces. *)
Inductive piece :=
  | PChar (c : Z)            (* a byte that stands for itself *)
  | PEscape (c : Z)          (* a backslash and a byte *)
  | PBrace (n : list Z)      (* a dollar and a name in braces *)
  | PName (n : list Z)       (* a dollar and a name *)
  | PStatus | PPid | PZero | PCount   (* a dollar and ?, $, 0 or # *)
  | PDollar.                 (* a dollar that starts nothing *)

Definition starts_dollar (p : piece) : bool := match p with PChar _ | PEscape _ => false | _ => true end.

Definition piece_text (p : piece) : list Z :=
  match p with
  | PChar c => [c]
  | PEscape c => [92; c]
  | PBrace n => 36 :: 123 :: n ++ [125]
  | PName n => 36 :: n
  | PStatus => [36; 63] | PPid => [36; 36] | PZero => [36; 48] | PCount => [36; 35]
  | PDollar => [36]
  end.
Definition pieces_text (ps : list piece) : list Z := concat (piece_text <$> ps).

(** [next] is the byte behind the piece. *)
Definition piece_ok (p : piece) (next : Z) : Prop :=
  match p with
  | PChar c => 0 < c < 256 ∧ c ≠ 36 ∧ c ≠ 92
  | PEscape c => 0 < c < 256
  | PBrace n => name_ok n ∧ (125 ∉ n) ∧ zlen n < 255
  | PName n => Forall (λ c, name_char c = true) n ∧ zlen n < 255 ∧ name_char next = false ∧
               match n with [] => False | c :: _ => name_start c = true end
  | PStatus | PPid | PZero | PCount => True
  | PDollar => name_start next = false ∧ next ∉ [123; 63; 36; 48; 35]
  end.

Fixpoint pieces_ok (ps : list piece) : Prop :=
  match ps with
  | [] => True
  | p :: ps => piece_ok p (default 0 (head (pieces_text ps))) ∧ pieces_ok ps
  end.

Section Vars.
Context (A : allocator) (env : list (list Z)) (l : list LibcEnv.binding) (g_last_status pid : Z).
Hypothesis Henv : repr env l.
Hypothesis Hstatus : - 2 ^ 31 ≤ g_last_status < 2 ^ 31.
Hypothesis Hpid : - 2 ^ 31 ≤ pid < 2 ^ 31.

Abbreviation step := (expand_step (Some env) g_last_status pid).

(** What a piece stands for; the status is cut after seven characters. *)
Definition piece_value (p : piece) : list Z :=
  match p with
  | PChar c | PEscape c => [c]
  | PBrace n | PName n => default [] (vars_of l !! n)
  | PStatus => take 7 (int_text g_last_status)
  | PPid => int_text pid
  | PZero => default [110; 118; 48; 115; 104] (vars_of l !! [48])
  | PCount => [48]
  | PDollar => [36]
  end.
Definition pieces_value (ps : list piece) : list Z := concat (piece_value <$> ps).

(** A variable pasted behind the output. *)
Lemma paste_var_ok out n : name_ok n → zlen out + zlen (default [] (vars_of l !! n)) < 8191 →
  (val ← LibcEnv.getenv (Some env) (Some (n ++ [0])); paste_var out val) = Ok (out ++ default [] (vars_of l !! n)).
Proof using Henv.
  intros Hn Hl. destruct (LibcEnv.getenv_ok env l n [] Henv Hn) as (o & -> & Ho). rewrite bind_ok.
  destruct (vars_of l !! n) as [v|]; simpl in *; [|subst o; simpl; by rewrite app_nil_r].
  destruct Ho as (q & -> & Hq). by apply paste_fits.
Qed.

Lemma brace_name_ok n m c r : text n → 125 ∉ n → zlen m + zlen n < 255 →
  brace_name (n ++ 125 :: c :: r) m = Ok (m ++ n, 125 :: c :: r).
Proof using.
  intros Hn. revert m. induction Hn as [|x n Hx _ IH]; intros m Hb Hl; [by rewrite app_nil_r|].
  apply not_elem_of_cons in Hb as [Hx' Hb]. rewrite zlen_cons in Hl. pose proof (zlen_nonneg n). pose proof (zlen_nonneg m).
  simpl. rewrite (proj2 (Z.eqb_neq x 0)), (proj2 (Z.eqb_neq x 125)), (proj2 (Z.ltb_lt (zlen m) 255)) by (done || lia). simpl.
  rewrite push_fits, bind_ok, IH, <-app_assoc by (done || rewrite ?zlen_app; change (zlen [x]) with 1; lia). done.
Qed.

Lemma plain_name_ok n m c r : Forall (λ c, name_char c = true) n → name_char c = false → zlen m + zlen n < 255 →
  plain_name (n ++ c :: r) m = Ok (m ++ n, c :: r).
Proof using.
  intros Hn Hc. revert m. induction Hn as [|x n Hx _ IH]; intros m Hl; simpl; [by rewrite Hc, app_nil_r|].
  rewrite zlen_cons in Hl. pose proof (zlen_nonneg n). pose proof (zlen_nonneg m). rewrite Hx.
  assert (zlen (m ++ [x]) = zlen m + 1) as E by (rewrite zlen_app; done).
  rewrite push_fits, bind_ok, (proj2 (Z.leb_gt 255 _)), IH, <-app_assoc by lia. done.
Qed.

Lemma name_char_ok n : Forall (λ c, name_char c = true) n → name_ok n.
Proof using.
  intros Hn. assert (∀ c, name_char c = true → 0 < c < 256 ∧ c ≠ 61) as Hc.
  { intros c. unfold name_char, name_start. rewrite !orb_true_iff, !andb_true_iff, !Z.leb_le, Z.eqb_eq. lia. }
  split; [eapply Forall_impl; [exact Hn|]; intros c H; by apply Hc|].
  intros Hi. rewrite Forall_forall in Hn. apply Hn, Hc in Hi as [_ ?]. done.
Qed.

Lemma dollar_step p out : zlen out < 8191 →
  step (36 :: p, out) = (st ← dollar (Some env) g_last_status pid p out; Ok (inl st)).
Proof using.
  intros Hl. unfold expand_step. change (zget (36 :: p) 0) with (Ok 36). rewrite bind_ok.
  by rewrite (proj2 (Z.ltb_lt (zlen out) (EXPAND_BUF - 1))).
Qed.

Lemma number_fits size v out : 0 < size < 2 ^ 31 → - 2 ^ 31 ≤ v < 2 ^ 31 →
  zlen out + zlen (take (Z.to_nat (size - 1)) (int_text v)) < 8191 →
  (t ← number_text size v; paste out t) = Ok (out ++ take (Z.to_nat (size - 1)) (int_text v)).
Proof using. intros Hs Hv Hl. destruct (number_text_ok size v Hs Hv) as (b & -> & Hb). rewrite bind_ok. by apply paste_fits. Qed.

Lemma pid_text_short : take (Z.to_nat (16 - 1)) (int_text pid) = int_text pid.
Proof using Hpid.
  apply take_ge. unfold int_text, KPrintf.unsigned_text. rewrite length_app.
  assert (∀ c, length (LibcPrintfClaims.sign_text c) ≤ 1)%nat as Hs by (intros c; unfold LibcPrintfClaims.sign_text; destruct (c =? 0)%Z; simpl; lia).
  specialize (Hs (if pid <? 0 then 45 else 0)).
  pose proof (to_digits_short 64 10 10 (Z.abs pid) ltac:(lia) ltac:(lia)).
  destruct (Z.abs pid =? 0); [cbn [length]; lia|rewrite length_fmap; lia].
Qed.

Lemma start_tests c : name_start c = true →
  (c =? 123) = false ∧ (c =? 63) = false ∧ (c =? 36) = false ∧ (c =? 48) = false ∧ (c =? 35) = false.
Proof using.
  unfold name_start. rewrite !orb_true_iff, !andb_true_iff, !Z.leb_le, Z.eqb_eq, !Z.eqb_neq. lia.
Qed.

Lemma dollar_ok p next r out : piece_ok p next → zlen out + zlen (piece_value p) < 8191 →
  starts_dollar p = true →
  ∃ q, piece_text p = 36 :: q ∧ dollar (Some env) g_last_status pid (q ++ next :: r) out = Ok (next :: r, out ++ piece_value p).
Proof using Henv Hstatus Hpid.
  intros Hp Hl Hd. pose proof (zlen_nonneg out).
  destruct p as [c|c|n|n| | | | |]; try done; eexists; (split; [done|]); cbn [app piece_value] in *.
  - destruct Hp as (Hn & Hb & Hz). unfold dollar. change (zget (123 :: (n ++ [125]) ++ next :: r) 0) with (Ok 123). rewrite bind_ok.
    change (drop 1 (123 :: (n ++ [125]) ++ next :: r)) with ((n ++ [125]) ++ next :: r). cbn [Z.eqb Pos.eqb].
    rewrite <-app_assoc. cbn [app]. rewrite brace_name_ok, bind_ok; [|apply Hn|done|change (zlen (@nil Z)) with 0; lia].
    rewrite push_fits, bind_ok by (cbn [app]; lia). change (zget (125 :: next :: r) 0) with (Ok 125). rewrite bind_ok.
    pose proof (paste_var_ok out n Hn Hl) as Hv. cbn [app]. apply bind_inv in Hv as (o & -> & Hv). rewrite bind_ok, Hv. done.
  - destruct Hp as (Hn & Hz & Hnext & Hs). destruct n as [|c n]; [done|]. unfold dollar.
    change (zget ((c :: n) ++ next :: r) 0) with (Ok c). rewrite bind_ok, Hs.
    destruct (start_tests c Hs) as (-> & -> & -> & -> & ->).
    rewrite plain_name_ok, bind_ok by (done || change (zlen (@nil Z)) with 0; lia).
    rewrite push_fits, bind_ok by (cbn [app]; lia).
    pose proof (paste_var_ok out (c :: n) (name_char_ok _ Hn) Hl) as Hv. cbn [app] in *. apply bind_inv in Hv as (o & -> & Hv).
    rewrite bind_ok, Hv. done.
  - unfold dollar. change (zget (63 :: next :: r) 0) with (Ok 63). rewrite bind_ok. cbn [Z.eqb Pos.eqb].
    pose proof (number_fits 8 g_last_status out ltac:(lia) Hstatus Hl) as Hv. apply bind_inv in Hv as (o & -> & Hv).
    rewrite bind_ok, Hv. done.
  - unfold dollar. change (zget (36 :: next :: r) 0) with (Ok 36). rewrite bind_ok. cbn [Z.eqb Pos.eqb].
    pose proof (number_fits 16 pid out ltac:(lia) Hpid) as Hv. rewrite pid_text_short in Hv. specialize (Hv Hl).
    apply bind_inv in Hv as (o & -> & Hv). rewrite bind_ok, Hv. done.
  - unfold dollar. change (zget (48 :: next :: r) 0) with (Ok 48). rewrite bind_ok. cbn [Z.eqb Pos.eqb].
    destruct (LibcEnv.getenv_ok env l [48] [] Henv ltac:(by apply name_char_ok, Forall_singleton)) as (o & Ho & Hs).
    change ([48] ++ [0]) with ZERO in Ho. rewrite Ho, bind_ok.
    rewrite (paste_fits out (default NV0SH o) (default [110; 118; 48; 115; 104] (vars_of l !! [48]))); [done| |done].
    destruct (vars_of l !! [48]) as [v|]; [by destruct Hs as (q & -> & ?)|]. subst o.
    split; [by repeat constructor|by exists []].
  - unfold dollar. change (zget (35 :: next :: r) 0) with (Ok 35). rewrite bind_ok. cbn [Z.eqb Pos.eqb].
    change (zlen [48]) with 1 in Hl. unfold EXPAND_BUF. rewrite push_fits by lia. done.
  - destruct Hp as [Hs Hn]. rewrite !not_elem_of_cons in Hn. destruct Hn as (H1 & H2 & H3 & H4 & H5 & _).
    unfold dollar. change (zget (next :: r) 0) with (Ok next). rewrite bind_ok, Hs.
    rewrite (proj2 (Z.eqb_neq next 123)), (proj2 (Z.eqb_neq next 63)), (proj2 (Z.eqb_neq next 36)),
      (proj2 (Z.eqb_neq next 48)), (proj2 (Z.eqb_neq next 35)) by done.
    change (zlen [36]) with 1 in Hl. unfold EXPAND_BUF. rewrite push_fits by lia. done.
Qed.

(** A piece is one turn of the loop. *)
Lemma piece_step p next r out : piece_ok p next → zlen out + zlen (piece_value p) < 8191 →
  step (piece_text p ++ next :: r, out) = Ok (inl (next :: r, out ++ piece_value p)).
Proof using Henv Hstatus Hpid.
  intros Hp Hl. pose proof (zlen_nonneg (piece_value p)). destruct (starts_dollar p) eqn:Hd.
  { destruct (dollar_ok p next r out Hp Hl Hd) as (q & -> & Hq). cbn [app]. rewrite dollar_step by lia. by rewrite Hq. }
  unfold expand_step. destruct p as [c|c| | | | | | |]; try done; cbn [piece_value] in *; change (zlen [c]) with 1 in Hl.
  - destruct Hp as (Hc & H36 & H92). change (zget (piece_text (PChar c) ++ next :: r) 0) with (Ok c). rewrite bind_ok.
    rewrite (proj2 (Z.eqb_neq c 0)), (proj2 (Z.ltb_lt (zlen out) (EXPAND_BUF - 1))) by (unfold EXPAND_BUF; lia).
    rewrite (proj2 (Z.eqb_neq c 92)), (proj2 (Z.eqb_neq c 36)) by done. cbn [orb negb]. rewrite bind_ok. change (0 =? 0) with true. cbn [negb].
    unfold EXPAND_BUF. rewrite push_fits by lia. done.
  - change (zget (piece_text (PEscape c) ++ next :: r) 0) with (Ok 92). rewrite bind_ok.
    rewrite (proj2 (Z.ltb_lt (zlen out) (EXPAND_BUF - 1))) by (unfold EXPAND_BUF; lia). cbn [Z.eqb Pos.eqb orb negb].
    change (zget (piece_text (PEscape c) ++ next :: r) 1) with (Ok c). rewrite bind_ok.
    simpl in Hp. rewrite (proj2 (Z.eqb_neq c 0)) by lia. cbn [negb]. unfold EXPAND_BUF. rewrite push_fits by lia. done.
Qed.

Lemma pieces_loop r ps : ∀ n out, (length ps < n)%nat → pieces_ok ps → zlen out + zlen (pieces_value ps) < 8191 →
  loop n step (pieces_text ps ++ 0 :: r, out) = Ok (out ++ pieces_value ps).
Proof using Henv Hstatus Hpid.
  induction ps as [|p ps IH]; intros n out Hn Hp Hl; (destruct n as [|n]; [simpl in Hn; lia|]).
  - cbn [loop]. change (step (pieces_text [] ++ 0 :: r, out)) with (Ok (A := (list Z * list Z) + list Z) (inr out)).
    rewrite bind_ok. by rewrite app_nil_r.
  - destruct Hp as [Hp Hps]. change (pieces_value (p :: ps)) with (piece_value p ++ pieces_value ps) in *. rewrite zlen_app in Hl.
    change (pieces_text (p :: ps)) with (piece_text p ++ pieces_text ps). rewrite <-app_assoc.
    pose proof (zlen_nonneg (pieces_value ps)). cbn [loop].
    assert (∃ r', pieces_text ps ++ 0 :: r = default 0 (head (pieces_text ps)) :: r') as [r' E]
      by (destruct (pieces_text ps); by eexists).
    rewrite E, piece_step, bind_ok, <-E by (done || lia). rewrite IH, app_assoc; [done|simpl in Hn; lia|done|rewrite zlen_app; lia].
Qed.


Lemma piece_value_text p next : piece_ok p next → text (piece_value p).
Proof using Henv.
  assert (∀ n, text (default [] (vars_of l !! n))) as Hv.
  { intros n. destruct (vars_of l !! n) as [v|] eqn:E; [|constructor]. simpl.
    apply elem_of_list_to_map_2 in E. destruct Henv as [Hf _].
    apply list_elem_of_lookup in E as [i Hi]. destruct (Forall2_lookup_r _ _ _ _ _ Hf Hi) as (e & _ & He). apply He. }
  intros Hp. destruct p as [c|c|n|n| | | | |]; cbn [piece_value]; try apply Hv; try (by repeat constructor).
  - apply Forall_singleton. apply Hp.
  - by apply Forall_singleton.
  - apply text_take, int_text_ok.
  - apply int_text_ok.
  - specialize (Hv [48]). destruct (vars_of l !! [48]); [done|by repeat constructor].
Qed.

Lemma pieces_value_text ps : pieces_ok ps → text (pieces_value ps).
Proof using Henv.
  induction ps as [|p ps IH]; [constructor|]. intros [Hp Hps]. apply Forall_app. split; [by eapply piece_value_text|by apply IH].
Qed.

Lemma pieces_short ps : (length ps ≤ length (pieces_text ps))%nat.
Proof using.
  induction ps as [|p ps IH]; [done|]. change (pieces_text (p :: ps)) with (piece_text p ++ pieces_text ps).
  rewrite length_app. destruct p; simpl; lia.
Qed.

(** C24: expand_vars on a line whose expansion fits its array of 8192 bytes returns the text in
    which every reference to a variable, the status, the process id and the name of the shell is
    replaced by its value and every backslash takes the next character as it is. *)
Theorem expand_vars_correct k r ps :
  (∀ z, avail A k z = true) → pieces_ok ps → zlen (pieces_value ps) < 8191 →
  expand_vars A (Some env) g_last_status pid k (Some (pieces_text ps ++ 0 :: r)) ⇓ λ '(p, k'),
    k' = S k ∧ ∃ q, p = Some q ∧ q = pieces_value ps ++ [0].
Proof using Henv Hstatus Hpid.
  intros HA Hp Hl. unfold expand_vars. rewrite pieces_loop; [|rewrite length_app; pose proof (pieces_short ps); simpl; lia|done|done].
  rewrite bind_ok, push_fits, bind_ok by (unfold EXPAND_BUF; cbn [app]; lia). unfold copy.
  rewrite LibcStringClaims.strdup_ok, bind_ok by (done || by apply pieces_value_text).
  apply wp_ok. split; [done|]. by eexists.
Qed.

End Vars.

(** "a$X\\$$?" with X=bc and status 3 *)
Lemma expand_vars_correct_witness :
  expand_vars {| avail := λ _ _, true; junk := λ _ _, 7 |} (Some [[88; 61; 98; 99; 0]]) 3 5 0
    (Some [97; 36; 88; 92; 36; 36; 63; 0]) ⇓ λ '(p, k), k = 1%nat ∧ p = Some [97; 98; 99; 36; 51; 0].
Proof.
  destruct (expand_vars_correct {| avail := λ _ _, true; junk := λ _ _, 7 |} [[88; 61; 98; 99; 0]] [([88], [98; 99])] 3 5)
    with (k := 0%nat) (r := @nil Z) (ps := [PChar 97; PName [88]; PEscape 36; PStatus]) as ([p k] & E & Hk & q & -> & Hq).
  - split; [|by apply (bool_decide_unpack _)]. constructor; [|constructor].
    split; [apply (name_char_ok [88]); by repeat constructor|]. split; [by repeat constructor|by exists []].
  - lia.
  - lia.
  - done.
  - simpl. split_and!; try done; by repeat constructor.
  - by vm_compute.
  - exists (Some q, k). split; [exact E|]. split; [exact Hk|]. by rewrite Hq.
Defined.

(** * The search in PATH *)

(** The path that is tried for a directory, as much of it as the array holds. *)
Definition candidate (n f : list Z) : list Z := take (Z.to_nat (EXPAND_BUF - 1)) (f ++ 47 :: n).

(** The first directory with the command. *)
Fixpoint first_command (exec : list Z → bool) (n : list Z) (dirs : list (list Z)) : option (list Z) :=
  match dirs with
  | [] => None
  | f :: dirs => if exec (candidate n f) then Some (candidate n f) else first_command exec n dirs
  end.

Lemma join_ok result dir f name n : is_cstr dir f → is_cstr name n → zlen result = 8192 → zlen f + zlen n < 2 ^ 30 →
  ∃ x buf, snprintf result EXPAND_BUF JOIN [AStr (Some dir); AStr (Some name)] ∅ = Ok (x, buf, ∅) ∧
    is_cstr buf (candidate n f) ∧ zlen buf = 8192.
Proof.
  intros Hf Hn Hr Hl. pose proof (zlen_nonneg f). pose proof (zlen_nonneg n).
  set (items := [Conv [] (Num []) None [] 115; Lit 47; Conv [] (Num []) None [] 115]).
  assert (∀ t b s args (ints : gmap Z Z), is_cstr b s → zlen s < 2 ^ 31 →
    LibcPrintfClaims.render_item (Conv [] (Num []) None [] 115) (t, AStr (Some b) :: args, ints) = Some (t ++ s, args, ints)) as Hconv.
  { intros t b s args ints Hb Hs. cbn -[Z.pow LibcPrintfClaims.conv_text]. unfold LibcPrintfClaims.conv_text. cbn -[Z.pow LibcPrintfClaims.pad_text].
    rewrite (KPrintf.c_text_cstr b s Hb), (proj2 (Z.ltb_lt _ _)) by done. cbn -[Z.pow LibcPrintfClaims.pad_text].
    unfold LibcPrintfClaims.pad_text. pose proof (zlen_nonneg s). by replace (Z.to_nat (0 - zlen s)) with O by lia. }
  assert (render items ([], [AStr (Some dir); AStr (Some name)], ∅) = Some (f ++ 47 :: n, [], ∅)) as Hren.
  { unfold items. cbn [render]. rewrite (Hconv [] dir f) by (done || lia). cbn [mbind option_bind].
    change (LibcPrintfClaims.render_item (Lit 47) ([] ++ f, [AStr (Some name)], ∅)) with (Some (f ++ [47], [AStr (Some name)], (∅ : gmap Z Z))).
    cbn [mbind option_bind]. rewrite (Hconv _ name n) by (done || lia). cbn [mbind option_bind]. by rewrite <-app_assoc. }
  assert (Forall item_ok items) as Hi.
  { unfold items. repeat apply Forall_cons_2; [..|constructor]; unfold item_ok, LibcPrintfClaims.ends; [by apply (bool_decide_unpack _)|lia|by apply (bool_decide_unpack _)]. }
  pose proof (vsnprintf_ok result 8192 items [] _ ∅ _ _ _ ltac:(lia) ltac:(lia) Hi Hren ltac:(rewrite zlen_app, zlen_cons; lia)) as E.
  change (fmt_text items ++ [0]) with JOIN in E. eexists _, _. split; [exact E|]. change (0 <? 8192) with true. cbv iota.
  change (take (Z.to_nat (8192 - 1)) (f ++ 47 :: n)) with (candidate n f).
  assert (zlen (candidate n f) ≤ 8191) as Hc by (unfold candidate, EXPAND_BUF, zlen; rewrite length_take; lia).
  assert (zlen (candidate n f ++ [0]) = zlen (candidate n f) + 1) as E1 by (by rewrite zlen_app).
  split; [apply is_cstr_splice; [|lia]|rewrite zlen_splice; lia].
  apply text_take, Forall_app. split; [apply Hf|]. constructor; [lia|apply Hn].
Qed.

Section Search.
Context (access_x exec : list Z → bool) (name n : list Z).
Hypothesis Haccess : ∀ b s, is_cstr b s → access_x b = exec s.
Hypothesis Hname : is_cstr name n.
Hypothesis Hlen : zlen n < 2 ^ 29.

Definition found (o : option (list Z)) (dirs : list (list Z)) : Prop :=
  match first_command exec n dirs with Some c => ∃ b, o = Some b ∧ is_cstr b c | None => o = None end.

Lemma search_none fuel paths result : search access_x (S fuel) name paths None None result = Ok None.
Proof using. done. Qed.

(** The search goes on from the next call of strtok. *)
Lemma glob_search_ok fuel : ∀ t pre r s saveptr result,
  text t → match s with Some p => Some p | None => saveptr end = Some (zlen pre) → (length t < fuel)%nat →
  zlen t < 2 ^ 29 → zlen result = 8192 →
  ('(dir, saved, paths) ← LibcString.strtok_r (pre ++ t ++ 0 :: r) s [58; 0] saveptr;
   search access_x (S fuel) name paths dir saved result) ⇓ λ o, found o (fields [58] t).
Proof using Haccess Hname Hlen.
  induction fuel as [|fuel IH]; intros t pre r s saveptr result Ht Hs Hn Hl Hr; [lia|].
  destruct (LibcStringClaims.strtok_step pre t r [58] [] s saveptr Ht ltac:(by repeat constructor) Hs)
    as [(Ef & E)|(a & f & Hf & Hne & Hcase)].
  { change ([58] ++ [0]) with [58; 0] in E. rewrite E, bind_ok, Ef. by apply wp_ok. }
  assert (zlen f ≤ zlen t) as Hft.
  { unfold zlen. destruct Hcase as [(-> & _)|(c & t' & -> & _)]; rewrite !length_app; lia. }
  destruct Hcase as [(-> & Ef & E)|(c & t' & -> & Ef & E)]; change ([58] ++ [0]) with [58; 0] in E; rewrite E, bind_ok, Ef; clear E.
  - destruct (join_ok result (f ++ 0 :: r) f name n) as (x & buf & E & Hc & Hb); [split; [done|by eexists]|done|done|lia|].
    cbn [search]. rewrite <-app_assoc, app_assoc, LibcStringClaims.drop_prefix, E, bind_ok, (Haccess buf _ Hc).
    unfold found. cbn [first_command]. destruct (exec (candidate n f)); [apply wp_ok; by eexists|]. by apply wp_ok.
  - destruct (join_ok result (f ++ 0 :: t' ++ 0 :: r) f name n) as (x & buf & E & Hc & Hb); [split; [done|by eexists]|done|done|lia|].
    set (paths := (pre ++ a ++ f ++ [0]) ++ t' ++ 0 :: r).
    assert (drop (Z.to_nat (zlen (pre ++ a))) paths = f ++ 0 :: t' ++ 0 :: r) as Ed.
    { unfold paths. replace ((pre ++ a ++ f ++ [0]) ++ t' ++ 0 :: r) with ((pre ++ a) ++ f ++ 0 :: t' ++ 0 :: r)
        by (by rewrite <-!app_assoc). apply LibcStringClaims.drop_prefix. }
    change (search access_x (S (S fuel)) name paths (Some (zlen (pre ++ a))) (Some (zlen (pre ++ a ++ f ++ [0]))) result) with
      ('(_, result, _) ← snprintf result EXPAND_BUF JOIN [AStr (Some (drop (Z.to_nat (zlen (pre ++ a))) paths)); AStr (Some name)] ∅;
       if access_x result then Ok (Some result)
       else '(dir, saved, paths) ← LibcString.strtok_r paths None [58; 0] (Some (zlen (pre ++ a ++ f ++ [0])));
            search access_x (S fuel) name paths dir saved result).
    rewrite Ed, E, bind_ok, (Haccess buf _ Hc). unfold found. cbn [first_command].
    destruct (exec (candidate n f)); [apply wp_ok; by eexists|].
    apply Forall_app in Ht as [_ [_ [_ Ht']%Forall_cons]%Forall_app]. rewrite !length_app in Hn. cbn [length] in Hn.
    apply (IH t' (pre ++ a ++ f ++ [0]) r None (Some (zlen (pre ++ a ++ f ++ [0]))) buf Ht'); [done|lia| |done].
    rewrite !zlen_app, zlen_cons in Hl. unfold zlen in *. lia.
Qed.

End Search.

(** For a name without a slash expand_path returns the first directory of PATH, or of the
    default path, joined with the name that is executable, and nothing if there is none. *)
Theorem expand_path_finds A env l access_x exec k junk_paths junk_result name n :
  repr env l → (∀ b s, is_cstr b s → access_x b = exec s) →
  is_cstr name n → 47 ∉ n → zlen n < 2 ^ 29 →
  zlen junk_paths = EXPAND_BUF → zlen junk_result = EXPAND_BUF →
  zlen (default (removelast DEFAULT_PATH) (vars_of l !! removelast PATH)) < EXPAND_BUF - 1 →
  expand_path A (Some env) access_x k junk_paths junk_result (Some name) ⇓ λ o,
    match first_command exec n (fields [58] (default (removelast DEFAULT_PATH) (vars_of l !! removelast PATH))) with
    | Some c => ∃ b, o = Some b ∧ is_cstr b c
    | None => o = None
    end.
Proof.
  intros Henv Hacc Hname H47 Hlen Hj1 Hj2. unfold EXPAND_BUF in *.
  set (v := default (removelast DEFAULT_PATH) (vars_of l !! removelast PATH)). intros Hv.
  pose proof Hname as [Hn [nr En]]. unfold expand_path.
  destruct (LibcStringClaims.strchr_in n nr 47 Hn ltac:(lia)) as (m & Hm & Hm'). rewrite <-En in Hm. rewrite Hm, bind_ok.
  destruct m as [i|]; [destruct H47; by apply Hm'|].
  destruct (LibcEnv.getenv_ok env l (removelast PATH) [] Henv) as (o & Ho & Hs).
  { split; [by repeat constructor|]. by apply (bool_decide_unpack _). }
  change (removelast PATH ++ [0]) with PATH in Ho. rewrite Ho, bind_ok.
  assert (is_cstr (default DEFAULT_PATH o) v) as [Htv [r Er]].
  { unfold v. destruct (vars_of l !! removelast PATH) as [w|]; [by destruct Hs as (q & -> & ?)|]. subst o.
    split; [by repeat constructor|by exists []]. }
  rewrite Er, LibcStringClaims.strncpy_padded, bind_ok by (done || unfold EXPAND_BUF; lia).
  pose proof (zlen_nonneg v). unfold EXPAND_BUF.
  assert (∃ z, splice junk_paths 0 (v ++ replicate (Z.to_nat (8192 - 1 + 1 - zlen v)) 0) = [] ++ v ++ 0 :: z) as [z Ez].
  { unfold splice. change (Z.to_nat 0) with O. rewrite take_0, app_nil_l.
    destruct (Z.to_nat (8192 - 1 + 1 - zlen v)) as [|j] eqn:Ej; [lia|]. eexists. simpl. by rewrite <-app_assoc. }
  rewrite Ez. apply (glob_search_ok access_x exec name n Hacc Hname Hlen _ v [] z (Some 0) None junk_result Htv); [done| |lia|lia].
  rewrite !length_app. simpl. lia.
Qed.

(** PATH=":/a:/b", and /b/x can be executed *)
Lemma expand_path_finds_witness :
  expand_path {| avail := λ _ _, true; junk := λ _ _, 7 |} (Some [[80; 65; 84; 72; 61; 58; 47; 97; 58; 47; 98; 0]])
    (λ b, bool_decide (KPrintf.c_text b = Some [47; 98; 47; 120])) 0
    (replicate (Z.to_nat EXPAND_BUF) 1) (replicate (Z.to_nat EXPAND_BUF) 2) (Some [120; 0]) ⇓ λ o,
    ∃ b, o = Some b ∧ is_cstr b [47; 98; 47; 120].
Proof.
  assert (zlen (replicate (Z.to_nat EXPAND_BUF) 1) = EXPAND_BUF ∧ zlen (replicate (Z.to_nat EXPAND_BUF) 2) = EXPAND_BUF) as [H1 H2].
  { rewrite !LibcPrintfClaims.zlen_replicate. by rewrite Z2Nat.id. }
  destruct (expand_path_finds {| avail := λ _ _, true; junk := λ _ _, 7 |} [[80; 65; 84; 72; 61; 58; 47; 97; 58; 47; 98; 0]]
    [([80; 65; 84; 72], [58; 47; 97; 58; 47; 98])] (λ b, bool_decide (KPrintf.c_text b = Some [47; 98; 47; 120]))
    (λ s, bool_decide (s = [47; 98; 47; 120])) 0
    (replicate (Z.to_nat EXPAND_BUF) 1) (replicate (Z.to_nat EXPAND_BUF) 2) [120; 0] [120]) as (o & E & Ho).
  - split; [|by apply (bool_decide_unpack _)]. constructor; [|constructor].
    split; [apply (name_char_ok [80; 65; 84; 72]); by repeat constructor|]. split; [by repeat constructor|by exists []].
  - intros b s Hb. apply bool_decide_ext. rewrite (KPrintf.c_text_cstr b s Hb). split; congruence.
  - split; [by repeat constructor|by exists []].
  - by apply (bool_decide_unpack _).
  - by vm_compute.
  - done.
  - done.
  - by vm_compute.
  - exists o. split; [exact E|]. exact Ho.
Defined.

End ShellExpandClaims.

(** A line of input of the shell, from its bytes to its tree: expansion of variables and parsing
    (execute in userland/shell/main.c) are safe for every line and environment. *)
Import KString (is_cstr).
Import LibcStringClaims (text, strlen_text).
Import LibcEnv (getenv, environ_t, entry_matches).
Import ShellParser (push).
Import ShellExpand ShellExpandClaims.

Module ShellLine.

(** An environment of strings, of whatever form. *)
Definition entry_ok (e : list Z) : Prop := ∃ t, is_cstr e t ∧ zlen t < 2 ^ 30.
Definition environ_ok (environ : environ_t) : Prop := match environ with None => True | Some env => Forall entry_ok env end.

(** What getenv returns. *)
Definition value_ok (o : option (list Z)) : Prop := match o with None => True | Some p => ∃ v, is_cstr p v ∧ zlen v < 2 ^ 30 end.

Lemma entry_matches_safe e name nr : entry_ok e → text name →
  entry_matches e (name ++ nr) (zlen name) ⇓ λ b : bool, b = true → value_ok (Some (drop (Z.to_nat (zlen name + 1)) e)).
Proof.
  intros (t & [Ht [r ->]] & Hl) Hn. unfold entry_matches. replace (Z.to_nat (zlen name)) with (length name) by (unfold zlen; lia).
  destruct (LibcEnv.strncmp_prefix t r name nr Ht Hn) as (d & -> & Hd). rewrite bind_ok.
  destruct (Z.eqb_spec d 0) as [E|E]; [|by apply wp_ok]. destruct (proj1 Hd E) as [z ->].
  rewrite <-app_assoc. destruct z as [|c z]; cbn [app]; rewrite LibcStringClaims.zget_app_r, bind_ok; apply wp_ok; [done|].
  intros _. exists z. replace (Z.to_nat (zlen name + 1)) with (length name + 1)%nat by (unfold zlen; lia).
  rewrite <-drop_drop, drop_app_length. rewrite zlen_app, zlen_cons in Hl. pose proof (zlen_nonneg name).
  split; [|lia]. apply Forall_app in Ht as [_ [_ Hz]%Forall_cons]. split; [done|by exists r].
Qed.

Lemma getenv_safe environ name r : environ_ok environ → text name → getenv environ (Some (name ++ 0 :: r)) ⇓ value_ok.
Proof.
  intros He Hn. destruct environ as [env|]; [|by apply wp_ok]. unfold getenv. rewrite strlen_text, bind_ok by done.
  simpl in He. induction He as [|e env He _ IH]; [by apply wp_ok|]. cbn [LibcEnv.getenv_from]. apply wp_bind.
  eapply wp_mono; [by apply entry_matches_safe|]. intros [|] Hb; [apply wp_ok; by apply Hb|exact IH].
Qed.

(** The output so far. *)
Definition out_ok (out : list Z) : Prop := text out ∧ zlen out ≤ 8191.

Lemma push_out out c : out_ok out → zlen out < 8191 → 0 < c < 256 → push EXPAND_BUF out c ⇓ out_ok.
Proof.
  intros [Ht Hl] Hlt Hc. unfold EXPAND_BUF. rewrite push_fits by lia. apply wp_ok. split.
  - apply Forall_app. split; [done|by apply Forall_singleton].
  - rewrite zlen_app. change (zlen [c]) with 1. lia.
Qed.

Lemma paste_safe out val v : out_ok out → is_cstr val v → zlen v < 2 ^ 30 → paste out val ⇓ out_ok.
Proof.
  intros [Ht Hl] [Hv [r ->]] Hs. pose proof (zlen_nonneg out). pose proof (zlen_nonneg v). unfold paste, EXPAND_BUF.
  rewrite strlen_text, bind_ok by done. rewrite i32_small, int_ok, bind_ok by lia.
  destruct (Z.ltb_spec (zlen out + zlen v) (8192 - 1)); [|by apply wp_ok]. rewrite decide_True, LibcStringClaims.take_prefix by lia.
  apply wp_ok. split; [by apply Forall_app|]. rewrite zlen_app. lia.
Qed.

Lemma paste_var_safe out o : out_ok out → value_ok o → paste_var out o ⇓ out_ok.
Proof.
  intros Ho Hv. destruct o as [p|]; [|by apply wp_ok]. destruct Hv as (v & Hp & Hl). by eapply paste_safe.
Qed.

(** The rest of the input, no longer than [k] bytes. *)
Definition rest_ok (k : nat) (p : list Z) : Prop := ∃ q, p = q ++ [0] ∧ text q ∧ (length q ≤ k)%nat.

(** A name and the rest behind it. *)
Definition name_read (k : nat) (st : list Z * list Z) : Prop := text st.1 ∧ zlen st.1 ≤ 255 ∧ rest_ok k st.2.

Lemma brace_name_safe q m : text q → text m → zlen m ≤ 255 → brace_name (q ++ [0]) m ⇓ name_read (length q).
Proof.
  intros Hq. revert m. induction Hq as [|c q Hc Hq IH]; intros m Hm Hl; simpl.
  - apply wp_ok. split; [done|]. split; [done|]. exists []. split; [done|]. split; [constructor|simpl; lia].
  - destruct (negb (c =? 0) && negb (c =? 125) && (zlen m <? 255)) eqn:E.
    + apply andb_true_iff in E as [_ E%Z.ltb_lt]. rewrite push_fits, bind_ok by lia.
      eapply wp_mono; [apply IH|].
      * apply Forall_app. split; [done|]. by apply Forall_singleton.
      * rewrite zlen_app. change (zlen [c]) with 1. lia.
      * intros st (H1 & H2 & q' & H3 & H4 & H5). split; [done|]. split; [done|]. exists q'. split_and!; [done|done|lia].
    + apply wp_ok. split; [done|]. split; [done|]. exists (c :: q). split_and!; [done|by constructor|done].
Qed.

Lemma plain_name_safe q m : text q → text m → zlen m < 255 → plain_name (q ++ [0]) m ⇓ name_read (length q).
Proof.
  intros Hq. revert m. induction Hq as [|c q Hc Hq IH]; intros m Hm Hl; simpl.
  - apply wp_ok. split; [done|]. split; [simpl; lia|]. exists []. split; [done|]. split; [constructor|simpl; lia].
  - assert (text (m ++ [c])) as Hmc by (apply Forall_app; split; [done|by apply Forall_singleton]).
    assert (zlen (m ++ [c]) = zlen m + 1) as Ez by (rewrite zlen_app; done).
    destruct (name_char c) eqn:E.
    + rewrite push_fits, bind_ok by lia. destruct (Z.leb_spec 255 (zlen (m ++ [c]))).
      * apply wp_ok. split; [done|]. split; [simpl; lia|]. exists q. split_and!; [done|done|lia].
      * eapply wp_mono; [by apply IH|]. intros st (H1 & H2 & q' & H3 & H4 & H5). split; [done|]. split; [done|].
        exists q'. split_and!; [done|done|lia].
    + apply wp_ok. split; [done|]. split; [simpl; lia|]. exists (c :: q). split_and!; [done|by constructor|done].
Qed.

Section Line.
Context (environ : environ_t) (g_last_status pid : Z).
Hypothesis Henv : environ_ok environ.
Hypothesis Hstatus : - 2 ^ 31 ≤ g_last_status < 2 ^ 31.
Hypothesis Hpid : - 2 ^ 31 ≤ pid < 2 ^ 31.

Lemma number_safe size v out : 0 < size < 2 ^ 31 → - 2 ^ 31 ≤ v < 2 ^ 31 → out_ok out →
  (t ← number_text size v; paste out t) ⇓ out_ok.
Proof using.
  intros Hs Hv Ho. apply wp_bind. eapply wp_mono; [by apply number_text_ok|]. intros b Hb. eapply paste_safe; [done|exact Hb|].
  assert (zlen (int_text v) ≤ 23) by (apply LibcPrintfClaims.body_len; lia).
  unfold zlen in *. rewrite length_take. lia.
Qed.

Definition turn_ok (k : nat) (st : list Z * list Z) : Prop := rest_ok k st.1 ∧ out_ok st.2.

(** The value of a name that was read, behind the output. *)
Lemma var_safe name out : text name → out_ok out → (val ← getenv environ (Some (name ++ [0])); paste_var out val) ⇓ out_ok.
Proof using Henv.
  intros Hn Ho. apply wp_bind. eapply wp_mono; [by apply getenv_safe|]. intros o Hv. by apply paste_var_safe.
Qed.

(** A computation of the output that is followed by the rest of the input. *)
Lemma turn_then (m : outcome (list Z)) k p : m ⇓ out_ok → rest_ok k p → (out ← m; Ok (p, out)) ⇓ turn_ok k.
Proof using. intros (out & -> & Ho) Hp. by apply wp_ok. Qed.

Lemma turn_then_bind {X} (m : outcome X) (f : X → outcome (list Z)) k p :
  (x ← m; f x) ⇓ out_ok → rest_ok k p → (x ← m; out ← f x; Ok (p, out)) ⇓ turn_ok k.
Proof using. destruct m as [x| |]; [|by intros (? & ? & _)..]. apply turn_then. Qed.

Lemma dollar_safe q out : text q → out_ok out → zlen out < 8191 →
  dollar environ g_last_status pid (q ++ [0]) out ⇓ turn_ok (length q).
Proof using Henv Hstatus Hpid.
  intros Hq Ho Hl. unfold dollar. destruct Hq as [|c q Hc Hq].
  { apply turn_then; [by apply push_out|]. exists []. split; [done|]. split; [constructor|simpl; lia]. }
  assert (rest_ok (length (c :: q)) (drop 1 ((c :: q) ++ [0]))) as Hrest by (exists q; split_and!; [done|done|simpl; lia]).
  change (zget ((c :: q) ++ [0]) 0) with (Ok c). rewrite bind_ok.
  destruct (c =? 123).
  { apply wp_bind. eapply wp_mono; [apply (brace_name_safe q []); [done|constructor|done]|].
    intros [name p] (Hn & Hz & q' & Hp & Hq' & Hlen). simpl in Hn, Hz, Hp. rewrite push_fits, bind_ok by lia.
    assert (∃ d, zget p 0 = Ok d ∧ rest_ok (length (c :: q)) (if d =? 125 then drop 1 p else p)) as (d & -> & Hr).
    { subst p. destruct Hq' as [|d q' Hd Hq'].
      - exists 0. split; [done|]. exists []. split_and!; [done|constructor|simpl; lia].
      - exists d. split; [done|]. simpl in Hlen. destruct (d =? 125);
          [exists q'|exists (d :: q')]; (split; [done|]); (split; [done || (by constructor)|simpl; lia]). }
    rewrite bind_ok. apply turn_then_bind; [by apply var_safe|done]. }
  destruct (c =? 63); [apply turn_then_bind; [by apply number_safe|done]|].
  destruct (c =? 36); [apply turn_then_bind; [by apply number_safe|done]|].
  destruct (c =? 48).
  { apply turn_then_bind; [|done]. apply wp_bind. eapply wp_mono; [apply (getenv_safe environ [48] []); [done|by repeat constructor]|].
    intros o Hv. destruct o as [p|].
    - destruct Hv as (v & Hp & Hs). by eapply paste_safe.
    - eapply (paste_safe _ _ [110; 118; 48; 115; 104]); [done|split; [by repeat constructor|by exists []]|by vm_compute]. }
  destruct (c =? 35); [apply turn_then; [by apply push_out|done]|].
  destruct (name_start c).
  { apply wp_bind. eapply wp_mono; [apply (plain_name_safe (c :: q) []); [by constructor|constructor|done]|].
    intros [name p] (Hn & Hz & Hp). simpl in Hn, Hz, Hp. rewrite push_fits, bind_ok by lia.
    apply turn_then_bind; [by apply var_safe|done]. }
  apply turn_then; [by apply push_out|]. exists (c :: q). split_and!; [done|by constructor|done].
Qed.

Lemma expand_step_safe q out : text q → out_ok out →
  expand_step environ g_last_status pid (q ++ [0], out) ⇓ λ x,
    match x with
    | inl st => ∃ k, (k < length q)%nat ∧ turn_ok k st
    | inr out => out_ok out
    end.
Proof using Henv Hstatus Hpid.
  intros Hq Ho. unfold expand_step. destruct Hq as [|c q Hc Hq]; [by apply wp_ok|].
  change (zget ((c :: q) ++ [0]) 0) with (Ok c). rewrite bind_ok, (proj2 (Z.eqb_neq c 0)) by lia.
  destruct (Z.ltb_spec (zlen out) (EXPAND_BUF - 1)) as [Hl|Hl]; simpl; [|by apply wp_ok]. unfold EXPAND_BUF in Hl.
  assert (∃ d, (if c =? 92 then zget (c :: q ++ [0]) 1 else Ok 0) = Ok d ∧ (d ≠ 0 → ∃ q', q = d :: q')) as (d & -> & Hd).
  { destruct (c =? 92); [|by exists 0]. destruct q as [|d q]; [by exists 0|]. exists d. split; [done|]. by eexists. }
  rewrite bind_ok. destruct (Z.eqb_spec d 0) as [->|Hn]; simpl.
  - destruct (c =? 36).
    + apply wp_bind. eapply wp_mono; [apply dollar_safe; (done || lia)|]. intros st Hst. apply wp_ok. exists (length q). split; [lia|done].
    + apply wp_bind. eapply wp_mono; [apply push_out; (done || lia)|]. intros out' Ho'. apply wp_ok. exists (length q). split; [lia|].
      split; [|done]. exists q. by split_and!.
  - destruct (Hd Hn) as [q' ->]. apply Forall_cons in Hq as [Hdr Hq'].
    apply wp_bind. eapply wp_mono; [apply push_out; (done || lia)|]. intros out' Ho'. apply wp_ok. exists (length q'). split; [simpl; lia|].
    split; [|done]. exists q'. by split_and!.
Qed.

(** expand_vars of any line ends without undefined behaviour and returns NULL, when the
    allocator refuses, or a string of at most 8191 bytes. *)
Lemma expand_vars_safe A k q : text q →
  expand_vars A environ g_last_status pid k (Some (q ++ [0])) ⇓ λ '(p, _),
    match p with None => True | Some p => ∃ t, p = t ++ [0] ∧ text t ∧ zlen t ≤ 8191 end.
Proof using Henv Hstatus Hpid.
  intros Hq. unfold expand_vars. apply wp_bind.
  eapply wp_mono.
  { apply (wp_loop_bound (λ k '(p, out), ∃ q, p = q ++ [0] ∧ text q ∧ length q = k ∧ out_ok out) _ out_ok) with (k := length q).
    - intros j [p out] (q' & -> & Hq' & <- & Ho). eapply wp_mono; [by apply expand_step_safe|].
      intros [[p' out']|out'] H; [|done]. destruct H as (k' & Hk & (q2 & Ep & Hq2 & Hl2) & Ho'). simpl in Ep, Ho'. subst p'.
      exists (length q2). split; [lia|]. by exists q2.
    - exists q. split; [done|]. split; [done|]. split; [done|]. split; [constructor|done].
    - rewrite length_app. simpl. lia. }
  intros out [Ht Hl]. rewrite push_fits, bind_ok by (unfold EXPAND_BUF; lia). unfold copy.
  destruct (avail A k (zlen out + 1)) eqn:E.
  - rewrite LibcStringClaims.strdup_ok, bind_ok by done. apply wp_ok. by exists out.
  - unfold LibcString.strdup. rewrite strlen_text, bind_ok, E, bind_ok by done. by apply wp_ok.
Qed.

(** C17: For every line of input and every environment of the stated sizes, whatever requests
    the allocator refuses, expansion of the variables and parsing of the result end without
    reading or writing outside of any array, and every command of the tree keeps the bounds of
    the parser. *)
Theorem shell_line_safe A k line :
  text line → zlen line ≤ ShellSafe.MAX_INPUT →
  execute_parse A environ g_last_status pid k (line ++ [0]) ⇓ λ o,
    match o with None => line = [] | Some ast => ShellSafe.tree_ok ast end.
Proof using Henv Hstatus Hpid.
  intros Ht Hl. unfold execute_parse.
  assert (∀ t, text t → Forall ShellSafe.plain t) as Hplain.
  { intros t H. eapply Forall_impl; [exact H|]. intros c Hc. simpl in Hc. unfold ShellSafe.plain. lia. }
  destruct Ht as [|c line Hc Ht]; [by apply wp_ok|]. change (zget ((c :: line) ++ [0]) 0) with (Ok c).
  rewrite bind_ok, (proj2 (Z.eqb_neq c 0)) by lia. apply wp_bind.
  eapply wp_mono; [apply expand_vars_safe; by constructor|]. intros [p k'] Hp. apply wp_bind.
  assert (∃ t, default ((c :: line) ++ [0]) p = t ++ [0] ∧ text t ∧ zlen t ≤ ShellSafe.MAX_INPUT) as (t & -> & Htt & Htl).
  { destruct p as [p|]; [destruct Hp as (t & -> & H1 & H2); exists t; unfold ShellSafe.MAX_INPUT; by split_and!; [| |lia]|].
    exists (c :: line). split_and!; [done|by constructor|done]. }
  eapply wp_mono; [apply ShellSafe.parse_ok; [by apply Hplain|done]|]. intros ast Hast. by apply wp_ok.
Qed.

End Line.

(** The second request is refused. *)
Definition second_refused : allocator := {| avail := λ k _, negb (k =? 1)%nat; junk := λ _ _, 0 |}.

(** "a ${X" and one variable without a name *)
Lemma shell_line_safe_witness :
  execute_parse second_refused (Some [[88; 88; 0]]) 1 2 0 ([97; 32; 36; 123; 88] ++ [0]) ⇓ λ o,
    match o with None => [97; 32; 36; 123; 88] = [] | Some ast => ShellSafe.tree_ok ast end.
Proof.
  apply (shell_line_safe (Some [[88; 88; 0]]) 1 2).
  - apply Forall_singleton. exists [88; 88]. split; [|done]. split; [by repeat constructor|by exists []].
  - lia.
  - lia.
  - by repeat constructor.
  - by vm_compute.
Defined.

(** An escaped byte is not protected: the expansion takes the backslash away before the line is
    parsed, so that a\|b is the pipeline a|b, though the parser alone reads it as one word. *)
Lemma escapes_do_not_protect :
  let A := {| avail := λ _ _, true; junk := λ _ _, 0 |} in
  execute_parse A None 0 1 0 [97; 92; 124; 98; 0] = execute_parse A None 0 1 0 [97; 124; 98; 0] ∧
  ShellParser.parse A [97; 92; 124; 98; 0] ≠ ShellParser.parse A [97; 124; 98; 0].
Proof. split; [by vm_compute|]. vm_compute. discriminate. Qed.

End ShellLine.
