(* ===== verification/Compositor.v ===== *)
(** Insertion sort of an array of records by an integer field, as graphics/server/compositor.c
    and graphics/wm/wm.c have it, and the stable sort that it computes. *)
From stdpp Require Import base list sorting.
From S2P Require Import Prelude.
From S2P Require Import CLib.
From S2P Require Import Rects.
From S2P Require Import Draw.

Module ZSort.

Section Sort.
Context {T : Type} (key : T → Z).

(** [while (j >= 0 && a[j].z_order > tmp.z_order) { a[j+1] = a[j]; j--; }] *)
Definition shift_step (tmp : T) (st : Z * list T) : outcome ((Z * list T) + (Z * list T)) :=
  let '(j, l) := st in
  if 0 <=? j then
    a ← zget l j;
    if key tmp <? key a then l ← zset l (j + 1) a; Ok (inl (j - 1, l)) else Ok (inr (j, l))
  else Ok (inr (j, l)).

Definition sort_step (i : Z) (l : list T) : outcome (list T) :=
  tmp ← zget l i;
  '(j, l) ← loop (S (length l)) (shift_step tmp) (i - 1, l);
  zset l (j + 1) tmp.

Definition insertion_sort (l : list T) : outcome (list T) := for_each 1 (zlen l) sort_step l.

(** * The stable sort *)

(** [x] behind all elements that are not greater, in a sorted list. *)
Fixpoint place (x : T) (l : list T) : list T :=
  match l with
  | [] => [x]
  | y :: l' => if key x <? key y then x :: l else y :: place x l'
  end.
Definition zsort (l : list T) : list T := foldl (λ s x, place x s) [] l.

Definition ordered (l : list T) : Prop := Sorted (λ a b, key a ≤ key b) l.

Lemma place_perm x l : place x l ≡ₚ x :: l.
Proof.
  induction l as [|y l IH]; simpl; [done|]. destruct (key x <? key y); [done|]. rewrite IH. apply Permutation_swap.
Qed.

Lemma zsort_snoc l x : zsort (l ++ [x]) = place x (zsort l).
Proof. unfold zsort. by rewrite foldl_app. Qed.

Lemma zsort_perm l : zsort l ≡ₚ l.
Proof.
  induction l as [|x l IH] using rev_ind; [done|]. rewrite zsort_snoc, place_perm, IH. apply Permutation_cons_append.
Qed.

Lemma zsort_length l : length (zsort l) = length l.
Proof. apply Permutation_length, zsort_perm. Qed.

Lemma place_ordered x l : ordered l → ordered (place x l).
Proof.
  unfold ordered. induction l as [|y l IH]; intros Hl; simpl; [repeat constructor|].
  destruct (Z.ltb_spec (key x) (key y)); [constructor; [done|]; constructor; lia|].
  apply Sorted_inv in Hl as [Hl Hy]. constructor; [by apply IH|].
  destruct l as [|z l]; simpl; [constructor; lia|]. apply HdRel_inv in Hy.
  destruct (key x <? key z); constructor; lia.
Qed.

Lemma zsort_ordered l : ordered (zsort l).
Proof.
  induction l as [|x l IH] using rev_ind; [constructor|]. rewrite zsort_snoc. by apply place_ordered.
Qed.

(** The place of an element in an ordered list, from behind. *)
Lemma place_split x a b : Forall (λ y, key y ≤ key x) a → Forall (λ y, key x < key y) b → place x (a ++ b) = a ++ x :: b.
Proof.
  induction 1 as [|y a Hy _ IH]; intros Hb; simpl.
  - destruct Hb as [|y b Hy _]; simpl; [done|]. by rewrite (proj2 (Z.ltb_lt _ _)).
  - rewrite (proj2 (Z.ltb_ge _ _)) by done. f_equal. by apply IH.
Qed.

(** Nothing is moved when the list is in order. *)
Lemma zsort_sorted l : ordered l → zsort l = l.
Proof.
  induction l as [|x l IH] using rev_ind; intros Hl; [done|]. rewrite zsort_snoc.
  apply Sorted_StronglySorted in Hl; [|intros ???; lia]. apply StronglySorted_app in Hl as (Hx & Hl & _).
  rewrite IH by (by apply StronglySorted_Sorted). rewrite <-(app_nil_r l) at 1. apply place_split; [|constructor].
  apply Forall_forall. intros y Hy. apply Hx; [done|left].
Qed.

(** * The code *)

Lemma zsort_zlen_pos {X} (l : list X) : 0 ≤ zlen l.
Proof. unfold zlen. lia. Qed.
Lemma zlen_snoc {X} (l : list X) x : zlen (l ++ [x]) = zlen l + 1.
Proof. by rewrite zlen_app. Qed.
Lemma zget_middle {X} (a : list X) x b : zget (a ++ x :: b) (zlen a) = Ok x.
Proof. apply zget_ok; [apply zsort_zlen_pos|]. unfold zlen. rewrite Nat2Z.id. by apply list_lookup_middle. Qed.
Lemma zsort_zset_middle {X} (a : list X) x b v : zset (a ++ x :: b) (zlen a) v = Ok (a ++ v :: b).
Proof.
  rewrite zset_ok by (rewrite zlen_app, zlen_cons; pose proof (zsort_zlen_pos a); pose proof (zsort_zlen_pos b); lia). unfold zlen.
  by rewrite Nat2Z.id, insert_app_r_alt, Nat.sub_diag by done.
Qed.

Lemma shift_at tmp j l : 0 ≤ j → shift_step tmp (j, l) =
  (a ← zget l j; if key tmp <? key a then l ← zset l (j + 1) a; Ok (inl (j - 1, l)) else Ok (inr (j, l))).
Proof. intros Hj. unfold shift_step. by rewrite (proj2 (Z.leb_le _ _)). Qed.

(** The inner loop: behind [a] the elements [b] are greater and have been moved by one. *)
Lemma shift_ok tmp a b c r : Forall (λ y, key tmp < key y) b →
  ∀ n, (length a < n)%nat → ordered a →
  loop n (shift_step tmp) (zlen a - 1, a ++ c :: b ++ r) ⇓ λ '(j, l), ∃ a1 a2 c',
    a = a1 ++ a2 ∧ j = zlen a1 - 1 ∧ l = a1 ++ c' :: a2 ++ b ++ r ∧
    Forall (λ y, key tmp < key y) a2 ∧ Forall (λ y, key y ≤ key tmp) a1.
Proof.
  intros Hb n. revert n b c Hb. induction a as [|x a IH] using rev_ind; intros n b c Hb Hn Ho; (destruct n as [|n]; [lia|]); cbn [loop].
  { apply wp_bind, wp_ok, wp_ok. exists [], [], c. split_and!; (done || constructor). }
  rewrite zlen_snoc, length_app in *. cbn [length] in Hn. pose proof (zsort_zlen_pos a).
  rewrite shift_at by lia. replace (zlen a + 1 - 1) with (zlen a) by lia.
  rewrite <-app_assoc. cbn [app]. rewrite zget_middle, bind_ok.
  apply Sorted_StronglySorted in Ho; [|intros ???; lia]. apply StronglySorted_app in Ho as (Hx & Ho & _).
  apply StronglySorted_Sorted in Ho. destruct (Z.ltb_spec (key tmp) (key x)) as [Hlt|Hge].
  - replace (a ++ x :: c :: b ++ r) with ((a ++ [x]) ++ c :: b ++ r) by (by rewrite <-app_assoc).
    rewrite <-(zlen_snoc a x), zsort_zset_middle, !bind_ok, <-app_assoc. cbn [app].
    eapply wp_mono; [apply (IH n (x :: b) x); [by constructor|lia|done]|].
    intros [j l] (a1 & a2 & c' & -> & -> & -> & H2 & H1). exists a1, (a2 ++ [x]), c'.
    rewrite <-!app_assoc. split; [done|]. split; [done|]. split; [done|]. split; [|done]. apply Forall_app. split; [done|by repeat constructor].
  - rewrite bind_ok. apply wp_ok. exists (a ++ [x]), [], c. rewrite app_nil_r, zlen_snoc, <-app_assoc.
    split; [done|]. split; [lia|]. split; [done|]. split; [constructor|]. apply Forall_app. split; [|by repeat constructor].
    apply Forall_forall. intros y Hy. etrans; [|exact Hge]. apply Hx; [done|left].
Qed.

Lemma sort_step_ok a tmp r : ordered a → sort_step (zlen a) (a ++ tmp :: r) = Ok (place tmp a ++ r).
Proof.
  intros Ho. unfold sort_step. rewrite zget_middle, bind_ok.
  destruct (shift_ok tmp a [] tmp r ltac:(constructor) (S (length (a ++ tmp :: r)))) as ([j l] & E & a1 & a2 & c & -> & -> & -> & H2 & H1);
    [rewrite length_app; lia|done|]. cbn [app] in E. rewrite E, bind_ok.
  replace (zlen a1 - 1 + 1) with (zlen a1) by lia. rewrite zsort_zset_middle, place_split by done. by rewrite <-app_assoc.
Qed.

(** The array is sorted by the field, and records with equal fields keep their order. *)
Lemma insertion_sort_ok l : insertion_sort l = Ok (zsort l).
Proof.
  destruct l as [|x l]; [done|]. unfold insertion_sort.
  assert (for_each 1 (zlen (x :: l)) sort_step (x :: l) ⇓ λ l', l' = zsort (x :: l)) as (l' & -> & ->); [|done].
  apply (wp_for_each (λ i l', l' = zsort (take (Z.to_nat i) (x :: l)) ++ drop (Z.to_nat i) (x :: l))).
  - rewrite zlen_cons. pose proof (zsort_zlen_pos l). lia.
  - done.
  - intros i l' Hi ->. destruct (lookup_lt_is_Some_2 (x :: l) (Z.to_nat i)) as [y Hy]; [unfold zlen in Hi; lia|].
    rewrite (drop_S _ y) by done. replace (Z.to_nat (i + 1)) with (S (Z.to_nat i)) by lia.
    rewrite (take_S_r _ _ y), zsort_snoc by done.
    assert (i = zlen (zsort (take (Z.to_nat i) (x :: l)))) as Ei.
    { unfold zlen in *. rewrite zsort_length, length_take. lia. }
    rewrite Ei at 1. rewrite sort_step_ok by apply zsort_ordered. by apply wp_ok.
  - intros l' ->. unfold zlen. rewrite Nat2Z.id, take_ge, drop_ge by done. by rewrite app_nil_r.
Qed.

End Sort.
End ZSort.

(** The compositor of the display server (graphics/server/compositor.c): surfaces in layers,
    damaged regions, and the composition of the screen.

    [surfaces] and [damage] are the used parts of the two arrays, so that their lengths are
    [surface_count] and [damage_count].  A surface owns its buffer, which is [None] when there was
    no memory; [request] numbers the requests for memory.  The pointer to the compositor is not
    NULL.  Releasing memory is not modelled. *)
Import Color Draw ZSort.

Module Compositor.

Definition COMPOSITOR_MAX_SURFACES : Z := 64.
Definition COMPOSITOR_MAX_DAMAGE : Z := 32.

Inductive SurfaceLayer :=
  | SURFACE_NORMAL | SURFACE_OVERLAY | SURFACE_CURSOR | SURFACE_WALLPAPER | SURFACE_NOTIFICATION.
#[global] Instance SurfaceLayer_eq_dec : EqDecision SurfaceLayer.
Proof. solve_decision. Defined.

Record CompSurface := mkComp {
  id : Z; sx : Z; sy : Z; sw : Z; sh : Z; z_order : Z; visible : bool; alpha : Z;
  layer : SurfaceLayer; buffer : option NvSurface; dirty : bool }.

Record Compositor := mkCompositor {
  fb : NvSurface; back : NvSurface; surfaces : list CompSurface; next_id : Z;
  damage : list NvRect; full_redraw : bool; request : nat }.

Definition set_surfaces (l : list CompSurface) (c : Compositor) : Compositor :=
  mkCompositor (fb c) (back c) l (next_id c) (damage c) (full_redraw c) (request c).
Definition set_damage (l : list NvRect) (full : bool) (c : Compositor) : Compositor :=
  mkCompositor (fb c) (back c) (surfaces c) (next_id c) l full (request c).
Definition set_screen (f b : NvSurface) (c : Compositor) : Compositor :=
  mkCompositor f b (surfaces c) (next_id c) (damage c) (full_redraw c) (request c).
Definition set_request (k : nat) (c : Compositor) : Compositor :=
  mkCompositor (fb c) (back c) (surfaces c) (next_id c) (damage c) (full_redraw c) k.
Definition set_next (n : Z) (c : Compositor) : Compositor :=
  mkCompositor (fb c) (back c) (surfaces c) n (damage c) (full_redraw c) (request c).

Definition move_to (x y : Z) (s : CompSurface) : CompSurface :=
  mkComp (id s) x y (sw s) (sh s) (z_order s) (visible s) (alpha s) (layer s) (buffer s) true.
Definition set_buffer (b : option NvSurface) (s : CompSurface) : CompSurface :=
  mkComp (id s) (sx s) (sy s) (sw s) (sh s) (z_order s) (visible s) (alpha s) (layer s) b (dirty s).
Definition size_to (w h : Z) (s : CompSurface) : CompSurface :=
  mkComp (id s) (sx s) (sy s) w h (z_order s) (visible s) (alpha s) (layer s) (buffer s) true.
Definition with_alpha (a : Z) (s : CompSurface) : CompSurface :=
  mkComp (id s) (sx s) (sy s) (sw s) (sh s) (z_order s) (visible s) a (layer s) (buffer s) true.
Definition set_z (z : Z) (s : CompSurface) : CompSurface :=
  mkComp (id s) (sx s) (sy s) (sw s) (sh s) z (visible s) (alpha s) (layer s) (buffer s) (dirty s).
Definition set_dirty (d : bool) (s : CompSurface) : CompSurface :=
  mkComp (id s) (sx s) (sy s) (sw s) (sh s) (z_order s) (visible s) (alpha s) (layer s) (buffer s) d.
Definition shown (s : CompSurface) : CompSurface :=
  mkComp (id s) (sx s) (sy s) (sw s) (sh s) (z_order s) true (alpha s) (layer s) (buffer s) true.
Definition hidden (s : CompSurface) : CompSurface :=
  mkComp (id s) (sx s) (sy s) (sw s) (sh s) (z_order s) false (alpha s) (layer s) (buffer s) (dirty s).

(** * Lifecycle *)

(** [sizeof(Compositor)] *)
Definition COMPOSITOR_SIZE : Z := 4128.

Definition compositor_new (A : allocator) (k : nat) (framebuffer : list Z) (fb_w fb_h fb_pitch : Z) : outcome (option Compositor) :=
  if negb (avail A k COMPOSITOR_SIZE) then Ok None
  else
    let f := surface_from_pixels A (k + 1) framebuffer fb_w fb_h fb_pitch in
    b ← surface_new A (k + 2) fb_w fb_h;
    match f, b with
    | Some f, Some b => Ok (Some (mkCompositor f b [] 1 [] true (k + 4)))
    | _, _ => Ok None
    end.

(** * Surfaces *)
Fixpoint find_from (l : list CompSurface) (i : Z) (n : Z) : Z :=
  match l with [] => -1 | s :: l => if id s =? n then i else find_from l (i + 1) n end.
Definition find_surface (c : Compositor) (n : Z) : Z := find_from (surfaces c) 0 n.

Definition sort_by_z (c : Compositor) : outcome Compositor :=
  l ← insertion_sort z_order (surfaces c); Ok (set_surfaces l c).

Definition layer_z (l : SurfaceLayer) : Z :=
  match l with
  | SURFACE_WALLPAPER => 0 | SURFACE_NORMAL => 100 | SURFACE_OVERLAY => 200
  | SURFACE_NOTIFICATION => 300 | SURFACE_CURSOR => 400
  end.

(** The rectangle around [d] and the new one, if it is not much larger than both. *)
Definition merge_damage (d : NvRect) (x y w h : Z) : outcome (option NvRect) :=
  dx2 ← int (rx d + rw d); dy2 ← int (ry d + rh d);
  nx2 ← int (x + w); ny2 ← int (y + h);
  let ox := if x <? rx d then x else rx d in
  let oy := if y <? ry d then y else ry d in
  ow ← int ((if dx2 <? nx2 then nx2 else dx2) - ox);
  oh ← int ((if dy2 <? ny2 then ny2 else dy2) - oy);
  merged_area ← int (ow * oh);
  a ← int (w * h); b ← int (rw d * rh d); sum_area ← int (a + b);
  s3 ← int (sum_area * 3);
  Ok (if merged_area <=? Z.quot s3 2 then Some (mkRect ox oy ow oh) else None).

(** The list with the new rectangle merged into one of it, or behind it. *)
Fixpoint add_damage (l : list NvRect) (x y w h : Z) : outcome (list NvRect) :=
  match l with
  | [] => Ok [mkRect x y w h]
  | d :: l =>
      m ← merge_damage d x y w h;
      match m with
      | Some r => Ok (r :: l)
      | None => l ← add_damage l x y w h; Ok (d :: l)
      end
  end.

Definition compositor_damage (c : Compositor) (x y w h : Z) : outcome Compositor :=
  if (w <=? 0) || (h <=? 0) then Ok c
  else if COMPOSITOR_MAX_DAMAGE <=? zlen (damage c) then Ok (set_damage (damage c) true c)
  else l ← add_damage (damage c) x y w h; Ok (set_damage l (full_redraw c) c).

(** The damage of a surface in its present place. *)
Definition damage_at (c : Compositor) (idx : Z) : outcome Compositor :=
  s ← zget (surfaces c) idx; compositor_damage c (sx s) (sy s) (sw s) (sh s).

(** [c->surfaces[idx]] changed. *)
Definition change (f : CompSurface → CompSurface) (idx : Z) (c : Compositor) : outcome Compositor :=
  s ← zget (surfaces c) idx; l ← zset (surfaces c) idx (f s); Ok (set_surfaces l c).

(** The pointer [s] still points to the last used slot after the sort: the id
    returned is the one of the surface that is there then. *)
Definition compositor_create_surface (A : allocator) (c : Compositor) (x y w h : Z) (l : SurfaceLayer)
  : outcome (Z * Compositor) :=
  if COMPOSITOR_MAX_SURFACES <=? zlen (surfaces c) then Ok (-1, c)
  else if (w <=? 0) || (h <=? 0) then Ok (-1, c)
  else
    b ← surface_new A (request c) w h;
    let c := set_request (S (S (request c))) c in
    match b with
    | None => Ok (-1, c)
    | Some b =>
        let count := zlen (surfaces c) in
        let s := mkComp (next_id c) x y w h (layer_z l) true 255 l (Some b) true in
        n ← int (next_id c + 1);
        c ← sort_by_z (set_surfaces (surfaces c ++ [s]) (set_next n c));
        s ← zget (surfaces c) count;
        Ok (id s, set_damage (damage c) true c)
    end.

Definition compositor_destroy_surface (c : Compositor) (n : Z) : outcome Compositor :=
  let idx := find_surface c n in
  if idx <? 0 then Ok c
  else
    c ← damage_at c idx;
    Ok (set_surfaces (take (Z.to_nat idx) (surfaces c) ++ drop (S (Z.to_nat idx)) (surfaces c)) c).

Definition compositor_move_surface (c : Compositor) (n x y : Z) : outcome Compositor :=
  let idx := find_surface c n in
  if idx <? 0 then Ok c
  else
    c ← damage_at c idx;
    c ← change (move_to x y) idx c;
    s ← zget (surfaces c) idx;
    compositor_damage c x y (sw s) (sh s).

Definition compositor_resize_surface (A : allocator) (c : Compositor) (n w h : Z) : outcome Compositor :=
  if (w <=? 0) || (h <=? 0) then Ok c
  else
    let idx := find_surface c n in
    if idx <? 0 then Ok c
    else
      b ← surface_new A (request c) w h;
      c ← change (set_buffer b) idx (set_request (S (S (request c))) c);
      match b with
      | None => Ok c
      | Some _ =>
          c ← damage_at c idx;
          c ← change (size_to w h) idx c;
          s ← zget (surfaces c) idx;
          compositor_damage c (sx s) (sy s) w h
      end.

Definition compositor_set_alpha (c : Compositor) (n a : Z) : outcome Compositor :=
  let idx := find_surface c n in
  if idx <? 0 then Ok c
  else
    c ← change (with_alpha (if a <? 0 then 0 else if 255 <? a then 255 else a)) idx c;
    damage_at c idx.

Definition compositor_show_surface (c : Compositor) (n : Z) : outcome Compositor :=
  let idx := find_surface c n in
  if idx <? 0 then Ok c
  else
    s ← zget (surfaces c) idx;
    if visible s then Ok c else c ← change shown idx c; damage_at c idx.

Definition compositor_hide_surface (c : Compositor) (n : Z) : outcome Compositor :=
  let idx := find_surface c n in
  if idx <? 0 then Ok c
  else
    s ← zget (surfaces c) idx;
    if visible s then c ← change hidden idx c; damage_at c idx else Ok c.

(** The largest [z_order] of a layer, and 0. *)
Definition max_z (l : SurfaceLayer) (ss : list CompSurface) : Z :=
  foldl (λ m s, if bool_decide (layer s = l) && (m <? z_order s) then z_order s else m) 0 ss.

(** The damage is that of the surface that the sort has put into the old place. *)
Definition compositor_raise_surface (c : Compositor) (n : Z) : outcome Compositor :=
  let idx := find_surface c n in
  if idx <? 0 then Ok c
  else
    s ← zget (surfaces c) idx;
    z ← int (max_z (layer s) (surfaces c) + 1);
    c ← change (set_z z) idx c;
    c ← sort_by_z c;
    damage_at c idx.

Definition compositor_lower_surface (c : Compositor) (n : Z) : outcome Compositor :=
  let idx := find_surface c n in
  if idx <? 0 then Ok c
  else
    s ← zget (surfaces c) idx;
    if 0 <? z_order s then
      c ← change (set_z (z_order s - 1)) idx c;
      c ← sort_by_z c;
      damage_at c idx
    else Ok c.

Definition compositor_damage_surface (c : Compositor) (n : Z) : outcome Compositor :=
  let idx := find_surface c n in
  if idx <? 0 then Ok c
  else c ← change (set_dirty true) idx c; damage_at c idx.

Definition compositor_get_surface (c : Compositor) (n : Z) : outcome (option CompSurface) :=
  let idx := find_surface c n in
  if idx <? 0 then Ok None else s ← zget (surfaces c) idx; Ok (Some s).

Definition compositor_fb_width (c : Compositor) : Z := width (fb c).
Definition compositor_fb_height (c : Compositor) : Z := height (fb c).

(** The buffer of a surface, into which its owner draws. *)
Definition compositor_surface_buffer (c : Compositor) (n : Z) : outcome (option NvSurface) :=
  let idx := find_surface c n in
  if idx <? 0 then Ok None else s ← zget (surfaces c) idx; Ok (buffer s).

(** * Composition *)

(** [sp] with its alpha scaled by that of the surface. *)
Definition fade (sp a : Z) : Z := color_with_alpha sp (u8 (u32 (COLOR_A sp * a) / 255)).

(** One surface onto the back buffer, inside of the rectangle [r]. *)
Definition composite_surface (r : NvRect) (s : CompSurface) (back : NvSurface) : outcome (bool * NvSurface) :=
  match (if visible s then buffer s else None) with
  | None => Ok (false, back)
  | Some b =>
      sx2 ← int (sx s + sw s); sy2 ← int (sy s + sh s);
      let ox := if sx s <? rx r then rx r else sx s in
      let oy := if sy s <? ry r then ry r else sy s in
      rx2 ← int (rx r + rw r); ry2 ← int (ry r + rh r);
      let ox2 := if rx2 <? sx2 then rx2 else sx2 in
      let oy2 := if ry2 <? sy2 then ry2 else sy2 in
      ow ← int (ox2 - ox); oh ← int (oy2 - oy);
      if (ow <=? 0) || (oh <=? 0) then Ok (false, back)
      else
        src_x ← int (ox - sx s); src_y ← int (oy - sy s);
        back ← (if alpha s =? 255 then surface_blit back b ox oy src_x src_y ow oh
                else
                  for_each 0 oh (λ py back,
                    for_each 0 ow (λ px back,
                      ys ← int (src_y + py); o ← int (ys * pitch b); xs ← int (src_x + px); o ← int (o + xs);
                      sp ← zget (pixels b) o;
                      yd ← int (oy + py); d ← int (yd * pitch back); xd ← int (ox + px); d ← int (d + xd);
                      dp ← zget (pixels back) d;
                      put back d (color_blend dp (fade sp (alpha s)))) back) back);
        Ok (true, back)
  end.

Fixpoint composite_surfaces (r : NvRect) (l : list CompSurface) (back : NvSurface) : outcome (list CompSurface * NvSurface) :=
  match l with
  | [] => Ok ([], back)
  | s :: l =>
      '(drawn, back) ← composite_surface r s back;
      '(l, back) ← composite_surfaces r l back;
      Ok ((if (drawn : bool) then set_dirty false s else s) :: l, back)
  end.

Definition BACKGROUND : Z := 0x1A1A2EFF.

(** The part of a rectangle that is on the screen. *)
Definition clip_region (fb_w fb_h x y w h : Z) : outcome NvRect :=
  '(x, w) ← (if x <? 0 then w ← int (w + x); Ok (0, w) else Ok (x, w));
  '(y, h) ← (if y <? 0 then h ← int (h + y); Ok (0, h) else Ok (y, h));
  x2 ← int (x + w); w ← (if fb_w <? x2 then int (fb_w - x) else Ok w);
  y2 ← int (y + h); h ← (if fb_h <? y2 then int (fb_h - y) else Ok h);
  Ok (mkRect x y w h).

Definition composite_region (c : Compositor) (x y w h : Z) : outcome Compositor :=
  if (w <=? 0) || (h <=? 0) then Ok c
  else
    r ← clip_region (width (fb c)) (height (fb c)) x y w h;
    if (rw r <=? 0) || (rh r <=? 0) then Ok c
    else
      b ← draw_fill_rect (back c) r BACKGROUND;
      '(l, b) ← composite_surfaces r (surfaces c) b;
      f ← surface_blit (fb c) b (rx r) (ry r) (rx r) (ry r) (rw r) (rh r);
      Ok (set_screen f b (set_surfaces l c)).

Fixpoint composite_damage (l : list NvRect) (c : Compositor) : outcome Compositor :=
  match l with
  | [] => Ok c
  | d :: l => c ← composite_region c (rx d) (ry d) (rw d) (rh d); composite_damage l c
  end.

Definition compositor_composite (c : Compositor) : outcome Compositor :=
  if full_redraw c then
    c ← composite_region c 0 0 (width (fb c)) (height (fb c));
    Ok (set_damage [] false c)
  else
    c ← composite_damage (damage c) c;
    Ok (set_damage [] (full_redraw c) c).

End Compositor.
