(* ===== verification/CompositorPaint.v ===== *)
(** What the composition paints: every pixel of a region becomes the colours of the surfaces
    over it, laid on one another from the lowest to the highest. *)
From stdpp Require Import base list.
From S2P Require Import Prelude.
From S2P Require Import CLib.
From S2P Require Import Rects.
From S2P Require Import Draw.
From S2P Require Import DrawPaint.
From S2P Require Import Compositor.
Import Color Draw DrawPaint DrawShapes DrawBlit Compositor.

Module CompositorPaint.

(** * Reference *)

(** The surface lies over the pixel. *)
Definition covers (s : CompSurface) (x y : Z) : bool :=
  visible s && bool_decide (is_Some (buffer s)) &&
  (sx s <=? x) && (x <? sx s + sw s) && (sy s <=? y) && (y <? sy s + sh s).

(** The colour that the surface has there. *)
Definition colour (s : CompSurface) (x y : Z) : Z := default 0 (b ← buffer s; px b (x - sx s) (y - sy s)).

(** The surface laid on the colour [p]. *)
Definition over (s : CompSurface) (x y p : Z) : Z :=
  if covers s x y then
    if alpha s =? 255 then colour s x y else color_blend p (fade (colour s x y) (alpha s))
  else p.
Definition shade (l : list CompSurface) (x y p : Z) : Z := foldl (λ p s, over s x y p) p l.

(** Some surface hides what is below. *)
Definition opaque_at (l : list CompSurface) (x y : Z) : bool := existsb (λ s, covers s x y && (alpha s =? 255)) l.

Lemma shade_app l1 l2 x y p : shade (l1 ++ l2) x y p = shade l2 x y (shade l1 x y p).
Proof. unfold shade. apply foldl_app. Qed.

(** Behind an opaque surface the background does not show. *)
Lemma shade_opaque l x y p q : opaque_at l x y = true → shade l x y p = shade l x y q.
Proof.
  revert p q. induction l as [|s l IH]; intros p q H; [done|]. simpl in H. apply orb_true_iff in H as [H|H]; simpl.
  - apply andb_true_iff in H as [H1 H2]. unfold over. by rewrite H1, H2.
  - by apply IH.
Qed.

(** * Updates of a surface pixel by pixel *)

(** [d'] is [d] with [f] applied to the pixels in [P]. *)
Definition updated (f : Z → Z → Z → Z) (P : Z → Z → bool) (d d' : NvSurface) : Prop :=
  wf d' ∧ same_size d d' ∧ ∀ x y, in_rows d x y → px d' x y = if P x y then f x y <$> px d x y else px d x y.

Lemma updated_none f d : wf d → updated f (λ _ _, false) d d.
Proof. done. Qed.

Lemma updated_ext f P Q d d' : (∀ x y, in_rows d x y → P x y = Q x y) → updated f P d d' → updated f Q d d'.
Proof. intros H (H1 & H2 & H3). split; [done|]. split; [done|]. intros x y Hxy. rewrite <-H by done. auto. Qed.

(** Disjoint sets one after the other. *)
Lemma updated_app f P Q d1 d2 d3 : (∀ x y, in_rows d1 x y → P x y = true → Q x y = false) →
  updated f P d1 d2 → updated f Q d2 d3 → updated f (λ x y, P x y || Q x y) d1 d3.
Proof.
  intros Hd (_ & H2 & H3) (K1 & K2 & K3). split; [done|]. split; [by eapply same_size_trans|]. intros x y Hxy.
  rewrite K3, H3 by (done || by eapply in_rows_size). specialize (Hd x y Hxy).
  destruct (P x y), (Q x y); simpl; (done || by specialize (Hd eq_refl)).
Qed.

Lemma update_one f d x y v : wf d → in_rows d x y → (f x y <$> px d x y) = Some v →
  put d (y * pitch d + x) v ⇓ updated f (here x y) d.
Proof.
  intros Hw Hxy Hv. eapply wp_mono; [by apply put_pixel_ok|]. intros d' (H1 & H2 & H3). split; [done|]. split; [done|].
  intros x' y' Hxy'. rewrite H3 by done. unfold here. destruct (Z.eqb_spec x' x) as [->|]; [|done].
  destruct (Z.eqb_spec y' y) as [->|]; [|done]. simpl. by rewrite Hv.
Qed.

(** A loop whose turns update disjoint sets. *)
Lemma wp_update f (Q : Z → Z → Z → bool) lo hi body d :
  lo ≤ hi → wf d →
  (∀ i d', lo ≤ i < hi → wf d' → same_size d d' → body i d' ⇓ updated f (Q i) d') →
  (∀ i j x y, lo ≤ i < hi → lo ≤ j < hi → Q i x y = true → Q j x y = true → i = j) →
  for_each lo hi body d ⇓ updated f (λ x y, existsb (λ i, Q i x y) (seqZ lo (hi - lo))) d.
Proof.
  intros Hle Hw Hb Hdis.
  apply (wp_for_each (λ i d', updated f (λ x y, existsb (λ i, Q i x y) (seqZ lo (i - lo))) d d')); [done| | |done].
  - rewrite Z.sub_diag. by apply updated_none.
  - intros i d' Hi Hu. eapply wp_mono; [apply Hb; [done|apply Hu|apply Hu]|]. intros d'' Hu'.
    eapply updated_ext; [|eapply (updated_app _ _ _ _ _ _ _ Hu Hu')]. Unshelve.
    + intros x y _. replace (i + 1 - lo) with ((i - lo) + 1) by lia. rewrite seqZ_app, existsb_app by lia.
      replace (lo + (i - lo)) with i by lia. f_equal. simpl. by rewrite orb_false_r.
    + intros x y _ Hex. apply existsb_exists in Hex as (j & Hj & HQ). apply list_elem_of_In, elem_of_seqZ in Hj.
      apply not_true_iff_false. intros HQi. assert (i = j) by (eapply Hdis; (done || lia)). lia.
Qed.

(** Pixels that [f] does not change may be left out. *)
Lemma updated_skip f P Q d d' : (∀ x y p, in_rows d x y → P x y ≠ Q x y → f x y p = p) → updated f P d d' → updated f Q d d'.
Proof.
  intros H (H1 & H2 & H3). split; [done|]. split; [done|]. intros x y Hxy. rewrite H3 by done. specialize (λ p, H x y p Hxy).
  destruct (P x y), (Q x y), (px d x y); simpl; try done; by rewrite H.
Qed.

(** Both loops over a block. *)
Lemma block_update f d x0 w y0 h (body : Z → Z → NvSurface → outcome NvSurface) :
  wf d → 0 ≤ x0 → 0 ≤ w → x0 + w ≤ pitch d → 0 ≤ y0 → 0 ≤ h → y0 + h ≤ height d →
  (∀ i j d', 0 ≤ i < h → 0 ≤ j < w → wf d' → same_size d d' →
     body i j d' ⇓ updated f (here (x0 + j) (y0 + i)) d') →
  for_each 0 h (λ i d', for_each 0 w (body i) d') d ⇓ updated f (block x0 (x0 + w) y0 (y0 + h)) d.
Proof.
  intros Hw Hx0 Hx Hx1 Hy0 Hy Hy1 Hb.
  eapply wp_mono; [apply (wp_update f (λ i x y, existsb (λ j, here (x0 + j) (y0 + i) x y) (seqZ 0 (w - 0))))|].
  - lia.
  - done.
  - intros i d' Hi Hw' Hs. apply (wp_update f (λ j, here (x0 + j) (y0 + i))); [lia|done| |].
    + intros j d'' Hj Hw'' Hs'. apply Hb; (done || by eapply same_size_trans).
    + intros j k x y _ _. unfold here. rewrite !andb_true_iff, !Z.eqb_eq. lia.
  - intros i j x y _ _. rewrite !existsb_exists. unfold here.
    intros (? & _ & H1) (? & _ & H2). rewrite andb_true_iff, !Z.eqb_eq in H1, H2. lia.
  - intros d' Hu. eapply updated_ext; [|exact Hu]. intros x y _. apply eq_true_iff_eq. unfold block.
    rewrite existsb_exists, !andb_true_iff, !Z.leb_le, !Z.ltb_lt. split.
    + intros (i & Hi & Hj). apply existsb_exists in Hj as (j & Hj & Hxy).
      apply list_elem_of_In, elem_of_seqZ in Hi, Hj. unfold here in Hxy. rewrite andb_true_iff, !Z.eqb_eq in Hxy. lia.
    + intros Hxy. exists (y - y0). split; [apply list_elem_of_In, elem_of_seqZ; lia|]. apply existsb_exists. exists (x - x0).
      split; [apply list_elem_of_In, elem_of_seqZ; lia|]. unfold here. rewrite andb_true_iff, !Z.eqb_eq. lia.
Qed.

(** * One surface *)

(** Surfaces in the range of coordinates where no sum overflows. *)
Definition LIMIT : Z := 8192.
Record surface_ok (s : CompSurface) : Prop := mk_surface_ok {
  ok_x : - LIMIT ≤ sx s ≤ LIMIT; ok_y : - LIMIT ≤ sy s ≤ LIMIT; ok_w : 1 ≤ sw s ≤ LIMIT; ok_h : 1 ≤ sh s ≤ LIMIT;
  ok_buffer : ∀ b, buffer s = Some b → wf b ∧ width b = sw s ∧ height b = sh s }.

(** The region is not empty and lies on the surface. *)
Definition on_screen (d : NvSurface) (r : NvRect) : Prop :=
  0 ≤ rx r ∧ 0 < rw r ∧ rx r + rw r ≤ width d ∧ 0 ≤ ry r ∧ 0 < rh r ∧ ry r + rh r ≤ height d.
Definition area (r : NvRect) : Z → Z → bool := block (rx r) (rx r + rw r) (ry r) (ry r + rh r).

Lemma covers_spec s x y b : visible s = true → buffer s = Some b →
  covers s x y = true ↔ sx s ≤ x < sx s + sw s ∧ sy s ≤ y < sy s + sh s.
Proof.
  intros Hv Hb. unfold covers. rewrite Hv, Hb. rewrite bool_decide_true by eauto. simpl.
  rewrite !andb_true_iff, !Z.leb_le, !Z.ltb_lt. lia.
Qed.

Lemma over_uncovered s x y p : covers s x y = false → over s x y p = p.
Proof. intros H. unfold over. by rewrite H. Qed.

Lemma over_hidden s x y p : (if visible s then buffer s else None) = None → over s x y p = p.
Proof.
  intros H. apply over_uncovered. unfold covers. destruct (visible s); [|done]. rewrite H. rewrite bool_decide_false; [done|].
  by intros [].
Qed.

(** The copy of an opaque surface. *)
Lemma opaque_update s b d ox ow oy oh :
  surface_ok s → visible s = true → buffer s = Some b → alpha s = 255 → wf d →
  0 ≤ ox → 0 < ow → ox + ow ≤ width d → 0 ≤ oy → 0 < oh → oy + oh ≤ height d →
  sx s ≤ ox → ox + ow ≤ sx s + sw s → sy s ≤ oy → oy + oh ≤ sy s + sh s →
  surface_blit d b ox oy (ox - sx s) (oy - sy s) ow oh ⇓ updated (over s) (block ox (ox + ow) oy (oy + oh)) d.
Proof.
  intros [Kx Ky Kw Kh Kb] Hv Hb Ha Hd H1 H2 H3 H4 H5 H6 H7 H8 H9 H10. pose proof Hd as [D1 D2 D3 _].
  destruct (Kb b Hb) as (Wb & Eb1 & Eb2). unfold LIMIT, DIM in *.
  eapply wp_mono; [apply blit_ok; (done || lia)|]. intros d' (C1 & C2 & C3). split; [done|]. split; [done|].
  intros x y Hxy. rewrite C3 by done.
  assert (blit_set d b ox oy (ox - sx s) (oy - sy s) ow oh x y = block ox (ox + ow) oy (oy + oh) x y) as ->.
  { apply eq_true_iff_eq. unfold blit_set, block. rewrite !andb_true_iff, !Z.leb_le, !Z.ltb_lt, !visible_spec. lia. }
  destruct (block ox (ox + ow) oy (oy + oh) x y) eqn:Eb; [|done].
  unfold block in Eb. rewrite !andb_true_iff, !Z.leb_le, !Z.ltb_lt in Eb.
  destruct (px_some d x y Hd Hxy) as (p & -> & _). simpl. unfold over.
  rewrite (proj2 (covers_spec s x y b Hv Hb)), Ha by lia. simpl. unfold colour. rewrite Hb. simpl.
  replace (x + (ox - sx s - ox)) with (x - sx s) by lia. replace (y + (oy - sy s - oy)) with (y - sy s) by lia.
  destruct (px_some b (x - sx s) (y - sy s) Wb) as (q & -> & _); [|done].
  destruct Wb as [[? ?] _ _ _]. unfold in_rows. lia.
Qed.

(** The blend of a translucent one. *)
Lemma alpha_update s b d ox ow oy oh :
  surface_ok s → visible s = true → buffer s = Some b → alpha s ≠ 255 → wf d →
  0 ≤ ox → 0 < ow → ox + ow ≤ width d → 0 ≤ oy → 0 < oh → oy + oh ≤ height d →
  sx s ≤ ox → ox + ow ≤ sx s + sw s → sy s ≤ oy → oy + oh ≤ sy s + sh s →
  for_each 0 oh (λ py back, for_each 0 ow (λ px back,
    ys ← int (oy - sy s + py); o ← int (ys * pitch b); xs ← int (ox - sx s + px); o ← int (o + xs);
    sp ← zget (pixels b) o;
    yd ← int (oy + py); d ← int (yd * pitch back); xd ← int (ox + px); d ← int (d + xd);
    dp ← zget (pixels back) d;
    put back d (color_blend dp (fade sp (alpha s)))) back) d ⇓ updated (over s) (block ox (ox + ow) oy (oy + oh)) d.
Proof.
  intros [Kx Ky Kw Kh Kb] Hv Hb Ha Hd H1 H2 H3 H4 H5 H6 H7 H8 H9 H10. pose proof Hd as [D1 D2 D3 _].
  destruct (Kb b Hb) as (Wb & Eb1 & Eb2). unfold LIMIT, DIM in *.
  apply (block_update _ d ox ow oy oh); [done|lia..|]. intros i j d' Hi Hj Hw' (S1 & S2 & S3).
  assert (in_rows b (ox - sx s + j) (oy - sy s + i)) as Hrb by (destruct Wb as [[? ?] _ _ _]; unfold in_rows; lia).
  assert (in_rows d' (ox + j) (oy + i)) as Hrd by (unfold in_rows; lia).
  rewrite (int_ok (oy - sy s + i)) by lia. cbn [mbind outcome_bind]. rewrite row_int by (done || apply Hrb). cbn [mbind outcome_bind].
  rewrite (int_ok (ox - sx s + j)) by lia. cbn [mbind outcome_bind]. rewrite offset_int by done. cbn [mbind outcome_bind].
  destruct (px_some b _ _ Wb Hrb) as (q & Eq & ->). cbn [mbind outcome_bind].
  rewrite (int_ok (oy + i)) by lia. cbn [mbind outcome_bind]. rewrite row_int by (done || apply Hrd). cbn [mbind outcome_bind].
  rewrite (int_ok (ox + j)) by lia. cbn [mbind outcome_bind]. rewrite offset_int by done. cbn [mbind outcome_bind].
  destruct (px_some d' _ _ Hw' Hrd) as (p & Ep & ->). cbn [mbind outcome_bind].
  apply update_one; [done|done|]. rewrite Ep. simpl. f_equal. unfold over.
  rewrite (proj2 (covers_spec s _ _ b Hv Hb)) by lia. rewrite (proj2 (Z.eqb_neq _ _) Ha). unfold colour. rewrite Hb. simpl.
  replace (ox + j - sx s) with (ox - sx s + j) by lia. replace (oy + i - sy s) with (oy - sy s + i) by lia. by rewrite Eq.
Qed.

Lemma composite_surface_ok r s d : surface_ok s → wf d → on_screen d r →
  composite_surface r s d ⇓ λ '(_, d'), updated (over s) (area r) d d'.
Proof.
  intros Hs Hd Hr. pose proof Hs as [Kx Ky Kw Kh Kb]. pose proof Hd as [D1 D2 D3 _].
  destruct Hr as (R1 & R2 & R3 & R4 & R5 & R6). unfold composite_surface.
  destruct (if visible s then buffer s else None) as [b|] eqn:E.
  2:{ apply wp_ok. eapply updated_skip; [|by apply updated_none]. intros x y p _ _. by apply over_hidden. }
  assert (visible s = true ∧ buffer s = Some b) as [Hv Hb] by (by destruct (visible s)).
  unfold LIMIT, DIM in *.
  rewrite (int_ok (sx s + sw s)) by lia. cbn [mbind outcome_bind]. rewrite (int_ok (sy s + sh s)) by lia. cbn [mbind outcome_bind].
  rewrite (int_ok (rx r + rw r)) by lia. cbn [mbind outcome_bind]. rewrite (int_ok (ry r + rh r)) by lia. cbn [mbind outcome_bind].
  replace (if sx s <? rx r then rx r else sx s) with (Z.max (rx r) (sx s)) by (destruct (Z.ltb_spec (sx s) (rx r)); lia).
  replace (if sy s <? ry r then ry r else sy s) with (Z.max (ry r) (sy s)) by (destruct (Z.ltb_spec (sy s) (ry r)); lia).
  replace (if rx r + rw r <? sx s + sw s then rx r + rw r else sx s + sw s) with (Z.min (rx r + rw r) (sx s + sw s))
    by (destruct (Z.ltb_spec (rx r + rw r) (sx s + sw s)); lia).
  replace (if ry r + rh r <? sy s + sh s then ry r + rh r else sy s + sh s) with (Z.min (ry r + rh r) (sy s + sh s))
    by (destruct (Z.ltb_spec (ry r + rh r) (sy s + sh s)); lia).
  set (ox := Z.max (rx r) (sx s)). set (oy := Z.max (ry r) (sy s)).
  set (ow := Z.min (rx r + rw r) (sx s + sw s) - ox). set (oh := Z.min (ry r + rh r) (sy s + sh s) - oy).
  rewrite (int_ok ow) by lia. cbn [mbind outcome_bind]. rewrite (int_ok oh) by lia. cbn [mbind outcome_bind].
  assert (∀ x y, area r x y && covers s x y = block ox (ox + ow) oy (oy + oh) x y) as Hset.
  { intros x y. apply eq_true_iff_eq. rewrite andb_true_iff, (covers_spec s x y b Hv Hb). unfold area, block.
    rewrite !andb_true_iff, !Z.leb_le, !Z.ltb_lt. lia. }
  assert (∀ x y p, block ox (ox + ow) oy (oy + oh) x y ≠ area r x y → over s x y p = p) as Hskip.
  { intros x y p. rewrite <-Hset. intros Hne. apply over_uncovered. by destruct (area r x y), (covers s x y). }
  destruct ((ow <=? 0) || (oh <=? 0)) eqn:Ee.
  { rewrite orb_true_iff, !Z.leb_le in Ee. apply wp_ok. eapply (updated_skip _ (λ _ _, false)); [|by apply updated_none].
    intros x y p _ Hne. apply Hskip. intros Heq. apply Hne. rewrite <-Heq. symmetry. apply not_true_iff_false. unfold block.
    rewrite !andb_true_iff, !Z.leb_le, !Z.ltb_lt. lia. }
  rewrite orb_false_iff, !Z.leb_gt in Ee. destruct Ee as [E1 E2].
  rewrite (int_ok (ox - sx s)) by lia. cbn [mbind outcome_bind]. rewrite (int_ok (oy - sy s)) by lia. cbn [mbind outcome_bind].
  apply wp_bind. eapply wp_mono.
  - destruct (Z.eqb_spec (alpha s) 255) as [Ha|Ha].
    + apply (opaque_update s b d ox ow oy oh); (done || lia).
    + apply (alpha_update s b d ox ow oy oh); (done || lia).
  - intros d' Hu. apply wp_ok. eapply updated_skip; [|exact Hu]. intros x y p _. apply Hskip.
Qed.

(** * All surfaces *)

(** The surfaces without the marks that composition clears. *)
Definition clean : list CompSurface → list CompSurface := map (set_dirty false).

Lemma shade_clean l x y p : shade (clean l) x y p = shade l x y p.
Proof. revert p. induction l as [|s l IH]; intros p; [done|]. apply IH. Qed.
Lemma opaque_clean l x y : opaque_at (clean l) x y = opaque_at l x y.
Proof. induction l as [|s l IH]; [done|]. exact (f_equal2 orb eq_refl IH). Qed.
Lemma ok_dirty s d : surface_ok s ↔ surface_ok (set_dirty d s).
Proof. split; intros []; by constructor. Qed.
Lemma ok_clean l : Forall surface_ok (clean l) ↔ Forall surface_ok l.
Proof. unfold clean. rewrite Forall_map. apply Forall_iff. intros s. symmetry. apply ok_dirty. Qed.

Lemma updated_over f g P d1 d2 d3 : updated f P d1 d2 → updated g P d2 d3 → updated (λ x y p, g x y (f x y p)) P d1 d3.
Proof.
  intros (_ & H2 & H3) (K1 & K2 & K3). split; [done|]. split; [by eapply same_size_trans|]. intros x y Hxy.
  rewrite K3, H3 by (done || by eapply in_rows_size). destruct (P x y); [|done]. by destruct (px d1 x y).
Qed.

Lemma composite_surfaces_ok r l d : Forall surface_ok l → wf d → on_screen d r →
  composite_surfaces r l d ⇓ λ '(l', d'), clean l' = clean l ∧ updated (shade l) (area r) d d'.
Proof.
  intros Hl. revert d. induction Hl as [|s l Hs Hl IH]; intros d Hd Hr; simpl.
  { apply wp_ok. split; [done|]. eapply updated_skip; [|by apply updated_none]. done. }
  apply wp_bind. eapply wp_mono; [by apply composite_surface_ok|]. intros [drawn d1] Hu. apply wp_bind.
  eapply wp_mono; [apply IH; [apply Hu|]|].
  - destruct Hu as (_ & (G1 & G2 & G3) & _). unfold on_screen in *. by rewrite G1, G2.
  - intros [l' d2] [Hc Hu2]. apply wp_ok. split; [|exact (updated_over _ _ _ _ _ _ Hu Hu2)].
    simpl. rewrite Hc. by destruct drawn.
Qed.

(** * The damaged region *)

(** Rectangles of the range that the surfaces and the screen lie in. *)
Definition rect_ok (r : NvRect) : Prop :=
  - LIMIT ≤ rx r ∧ 0 < rw r ∧ rx r + rw r ≤ 2 * LIMIT ∧ - LIMIT ≤ ry r ∧ 0 < rh r ∧ ry r + rh r ≤ 2 * LIMIT.

Lemma clip_region_ok W H r : 0 ≤ W ≤ LIMIT → 0 ≤ H ≤ LIMIT → rect_ok r →
  ∃ r', clip_region W H (rx r) (ry r) (rw r) (rh r) = Ok r' ∧ small_rect r' ∧ 0 ≤ rx r' ∧ 0 ≤ ry r' ∧
    rx r' + rw r' ≤ W ∧ ry r' + rh r' ≤ H ∧
    ∀ x y, 0 ≤ x < W → 0 ≤ y < H → area r' x y = area r x y.
Proof.
  unfold LIMIT, rect_ok, LIMIT. intros HW HH (H1 & H2 & H3 & H4 & H5 & H6). unfold clip_region.
  rewrite clip_start by (unfold small; lia). cbn [mbind outcome_bind].
  rewrite clip_start by (unfold small; lia). cbn [mbind outcome_bind].
  match goal with |- context [int (?a + ?w) ≫= λ x2, (if W <? x2 then _ else _) ≫= ?k] =>
    replace (int (a + w) ≫= λ x2, (if W <? x2 then int (W - a) else Ok w) ≫= k) with (clip_high a w W ≫= k)
      by (unfold clip_high; rewrite (int_ok (a + w)) by lia; reflexivity) end.
  rewrite clip_high_ok by (unfold small, DIM; lia). cbn [mbind outcome_bind].
  match goal with |- context [int (?a + ?w) ≫= λ x2, (if H <? x2 then _ else _) ≫= ?k] =>
    replace (int (a + w) ≫= λ x2, (if H <? x2 then int (H - a) else Ok w) ≫= k) with (clip_high a w H ≫= k)
      by (unfold clip_high; rewrite (int_ok (a + w)) by lia; reflexivity) end.
  rewrite clip_high_ok by (unfold small, DIM; lia). cbn [mbind outcome_bind].
  eexists. split; [done|]. unfold small_rect, small. cbn [rx ry rw rh]. split_and!; try lia.
  intros x y Hx Hy. apply eq_true_iff_eq. unfold area, block. cbn [rx ry rw rh].
  rewrite !andb_true_iff, !Z.leb_le, !Z.ltb_lt. lia.
Qed.

(** The screen and the buffer behind it. *)
Record screen_ok (c : Compositor) : Prop := mk_screen_ok {
  ok_fb : wf (fb c); ok_back : wf (back c); ok_same_w : width (back c) = width (fb c); ok_same_h : height (back c) = height (fb c);
  ok_fbw : width (fb c) ≤ LIMIT; ok_fbh : height (fb c) ≤ LIMIT; ok_surfaces : Forall surface_ok (surfaces c) }.

(** The two states differ only in the screen, the buffer behind it and the marks. *)
Definition repaints (c c' : Compositor) : Prop :=
  screen_ok c' ∧ same_size (fb c) (fb c') ∧ clean (surfaces c') = clean (surfaces c) ∧ next_id c' = next_id c ∧
  damage c' = damage c ∧ full_redraw c' = full_redraw c ∧ request c' = request c.

Lemma repaints_refl c : screen_ok c → repaints c c.
Proof. done. Qed.
Lemma repaints_trans c1 c2 c3 : repaints c1 c2 → repaints c2 c3 → repaints c1 c3.
Proof.
  intros (A1 & A2 & A3 & A4 & A5 & A6 & A7) (B1 & B2 & B3 & B4 & B5 & B6 & B7).
  split; [done|]. split; [by eapply same_size_trans|]. split_and!; congruence.
Qed.

(** A pixel that shows the surfaces, over some colour. *)
Definition fresh (c : Compositor) (x y : Z) : Prop := ∃ q, px (fb c) x y = Some (shade (surfaces c) x y q).

Lemma fresh_repaints c c' x y : repaints c c' → px (fb c') x y = px (fb c) x y → fresh c x y → fresh c' x y.
Proof. intros (_ & _ & Hc & _) Hp [q Hq]. exists q. by rewrite Hp, Hq, <-(shade_clean (surfaces c')), Hc, shade_clean. Qed.

Lemma composite_region_ok c r : screen_ok c → rect_ok r →
  composite_region c (rx r) (ry r) (rw r) (rh r) ⇓ λ c', repaints c c' ∧
    ∀ x y, on_surface (fb c) x y = true → if area r x y then fresh c' x y else px (fb c') x y = px (fb c) x y.
Proof.
  intros Hc Hr. pose proof Hc as [F B Ew Eh Lw Lh Hl]. pose proof F as [F1 F2 F3 _]. pose proof B as [B1 B2 B3 _].
  pose proof Hr as (R1 & R2 & R3 & R4 & R5 & R6). unfold composite_region.
  assert ((rw r <=? 0) || (rh r <=? 0) = false) as -> by (apply orb_false_iff; rewrite !Z.leb_gt; lia).
  destruct (clip_region_ok (width (fb c)) (height (fb c)) r) as (r' & -> & Hsm & X1 & Y1 & X2 & Y2 & Ha); [lia|lia|done|].
  cbn [mbind outcome_bind]. destruct ((rw r' <=? 0) || (rh r' <=? 0)) eqn:E.
  { apply wp_ok. split; [by apply repaints_refl|]. intros x y Hxy%visible_spec. rewrite <-Ha by lia.
    assert (area r' x y = false) as ->; [|done]. apply not_true_iff_false. unfold area, block.
    rewrite !andb_true_iff, !Z.leb_le, !Z.ltb_lt. rewrite orb_true_iff, !Z.leb_le in E. lia. }
  rewrite orb_false_iff, !Z.leb_gt in E. unfold LIMIT, DIM in *.
  apply wp_bind. eapply wp_mono; [by apply fill_rect_paint|]. intros b1 (P1 & P2 & P3). destruct P2 as (G1 & G2 & G3).
  apply wp_bind. eapply wp_mono; [apply (composite_surfaces_ok r'); [done|done|unfold on_screen; lia]|].
  intros [l b2] [Hcl (U1 & (G4 & G5 & G6) & U3)]. apply wp_bind.
  eapply wp_mono; [apply blit_ok; (done || lia)|]. intros f (C1 & C2 & C3). apply wp_ok.
  assert (∀ s s', clean s = clean s' → Forall surface_ok s' → Forall surface_ok s) as Hok
    by (intros s s' Es; rewrite <-(ok_clean s), Es; apply ok_clean).
  assert (repaints c (set_screen f b2 (set_surfaces l c))) as Hrep.
  { split; [|done]. destruct C2 as (G7 & G8 & _). constructor; cbn; unfold LIMIT; (lia || done || by eapply Hok). }
  split; [done|]. intros x y Hxy. pose proof (visible_rows _ _ _ F Hxy) as Hin. apply visible_spec in Hxy.
  rewrite <-Ha by lia. cbn. rewrite C3 by done.
  assert (blit_set (fb c) b2 (rx r') (ry r') (rx r') (ry r') (rw r') (rh r') x y = area r' x y) as Eset.
  { apply eq_true_iff_eq. unfold blit_set, area, block. rewrite !andb_true_iff, !Z.leb_le, !Z.ltb_lt, !visible_spec. lia. }
  rewrite Eset. destruct (area r' x y) eqn:Ea; [|done]. unfold fresh. cbn. rewrite C3, Eset by done.
  rewrite !Z.sub_diag, !Z.add_0_r. assert (in_rows b1 x y) as Hin1 by (unfold in_rows; lia). rewrite U3, Ea by done.
  destruct (px_some b1 x y P1 Hin1) as (q & -> & _). exists q. simpl.
  change (Some (shade (surfaces c) x y q) = Some (shade l x y q)). by rewrite <-(shade_clean l), Hcl, shade_clean.
Qed.

Definition damaged (l : list NvRect) (x y : Z) : bool := existsb (λ r, area r x y) l.

Lemma composite_damage_ok l c : screen_ok c → Forall rect_ok l →
  composite_damage l c ⇓ λ c', repaints c c' ∧
    ∀ x y, on_surface (fb c) x y = true → damaged l x y = true ∨ fresh c x y → fresh c' x y.
Proof.
  intros Hc Hl. revert c Hc. induction Hl as [|r l Hr Hl IH]; intros c Hc; simpl.
  { apply wp_ok. split; [by apply repaints_refl|]. by intros x y _ [|]. }
  apply wp_bind. eapply wp_mono; [by apply composite_region_ok|]. intros c1 [R1 H1].
  eapply wp_mono; [apply IH, R1|]. intros c2 [R2 H2]. split; [by eapply repaints_trans|]. intros x y Hxy Hd.
  apply H2; [by rewrite (visible_size (fb c)) by apply R1|]. specialize (H1 x y Hxy).
  destruct (area r x y); simpl in Hd; [by right|]. destruct Hd as [?|?]; [by left|right]. by apply (fresh_repaints c).
Qed.

(** Composition brings every pixel up to date that was damaged, and keeps those that were up to date. *)
Lemma compositor_composite_ok c : screen_ok c → Forall rect_ok (damage c) → 0 < width (fb c) → 0 < height (fb c) →
  compositor_composite c ⇓ λ c', screen_ok c' ∧ same_size (fb c) (fb c') ∧ clean (surfaces c') = clean (surfaces c) ∧
    next_id c' = next_id c ∧ damage c' = [] ∧ full_redraw c' = false ∧ request c' = request c ∧
    ∀ x y, on_surface (fb c) x y = true → full_redraw c || damaged (damage c) x y = true ∨ fresh c x y → fresh c' x y.
Proof.
  intros Hc Hd Hw Hh. unfold compositor_composite. pose proof Hc as [_ _ _ _ Lw Lh _]. destruct (full_redraw c) eqn:Ef.
  - apply wp_bind. eapply wp_mono; [apply (composite_region_ok c (mkRect 0 0 (width (fb c)) (height (fb c))) Hc)|].
    { unfold rect_ok, LIMIT in *. cbn. lia. }
    intros c1 [R1 H1]. apply wp_ok. destruct R1 as (A1 & A2 & A3 & A4 & A5 & A6 & A7).
    split_and!; try done; [destruct A1; by constructor|]. intros x y Hxy _. specialize (H1 x y Hxy).
    assert (area (mkRect 0 0 (width (fb c)) (height (fb c))) x y = true) as Ea; [|by rewrite Ea in H1].
    apply visible_spec in Hxy. unfold area, block. cbn. rewrite !andb_true_iff, !Z.leb_le, !Z.ltb_lt. lia.
  - apply wp_bind. eapply wp_mono; [by apply composite_damage_ok|]. intros c1 [R1 H1]. apply wp_ok.
    destruct R1 as (A1 & A2 & A3 & A4 & A5 & A6 & A7). rewrite A6. split_and!; try done.
    destruct A1. by constructor.
Qed.

End CompositorPaint.
