(* ===== verification/CompositorOps.v ===== *)
(** The operations of the compositor keep the screen up to date: a pixel whose surfaces change is
    damaged, and one that is not damaged shows its surfaces. *)
From stdpp Require Import base list sorting.
From S2P Require Import Prelude.
From S2P Require Import CLib.
From S2P Require Import Rects.
From S2P Require Import Draw.
From S2P Require Import DrawPaint.
From S2P Require Import Compositor.
From S2P Require Import CompositorPaint.
Import Color Draw DrawPaint DrawShapes ZSort Compositor CompositorPaint.

Module CompositorOps.

(** * Damage *)

(** The pixel will be painted by the next composition. *)
Definition dirty_at (c : Compositor) (x y : Z) : bool := full_redraw c || damaged (damage c) x y.

Lemma area_spec r x y : area r x y = true ↔ rx r ≤ x < rx r + rw r ∧ ry r ≤ y < ry r + rh r.
Proof. unfold area, block. rewrite !andb_true_iff, !Z.leb_le, !Z.ltb_lt. lia. Qed.

(** A rectangle small enough to be that of a surface. *)
Definition small_ok (x y w h : Z) : Prop := rect_ok (mkRect x y w h) ∧ w ≤ LIMIT ∧ h ≤ LIMIT.

Lemma merge_damage_ok d x y w h : rect_ok d → small_ok x y w h →
  merge_damage d x y w h ⇓ λ m, ∀ r, m = Some r → rect_ok r ∧
    ∀ x' y', area d x' y' = true ∨ area (mkRect x y w h) x' y' = true → area r x' y' = true.
Proof.
  intros (D1 & D2 & D3 & D4 & D5 & D6) [(N1 & N2 & N3 & N4 & N5 & N6) [N7 N8]]. unfold LIMIT in *. cbn in N1, N2, N3, N4, N5, N6.
  unfold merge_damage.
  rewrite (int_ok (rx d + rw d)) by lia. cbn [mbind outcome_bind]. rewrite (int_ok (ry d + rh d)) by lia. cbn [mbind outcome_bind].
  rewrite (int_ok (x + w)) by lia. cbn [mbind outcome_bind]. rewrite (int_ok (y + h)) by lia. cbn [mbind outcome_bind].
  replace (if x <? rx d then x else rx d) with (Z.min x (rx d)) by (destruct (Z.ltb_spec x (rx d)); lia).
  replace (if y <? ry d then y else ry d) with (Z.min y (ry d)) by (destruct (Z.ltb_spec y (ry d)); lia).
  replace (if rx d + rw d <? x + w then x + w else rx d + rw d) with (Z.max (x + w) (rx d + rw d))
    by (destruct (Z.ltb_spec (rx d + rw d) (x + w)); lia).
  replace (if ry d + rh d <? y + h then y + h else ry d + rh d) with (Z.max (y + h) (ry d + rh d))
    by (destruct (Z.ltb_spec (ry d + rh d) (y + h)); lia).
  set (ox := Z.min x (rx d)). set (oy := Z.min y (ry d)).
  set (ow := Z.max (x + w) (rx d + rw d) - ox). set (oh := Z.max (y + h) (ry d + rh d) - oy).
  rewrite (int_ok ow) by lia. cbn [mbind outcome_bind]. rewrite (int_ok oh) by lia. cbn [mbind outcome_bind].
  assert (0 ≤ ow * oh ≤ 24576 * 24576) by (split; [apply Z.mul_nonneg_nonneg; lia|apply Z.mul_le_mono_nonneg; lia]).
  assert (0 ≤ w * h ≤ 8192 * 8192) by (split; [apply Z.mul_nonneg_nonneg; lia|apply Z.mul_le_mono_nonneg; lia]).
  assert (0 ≤ rw d * rh d ≤ 24576 * 24576) by (split; [apply Z.mul_nonneg_nonneg; lia|apply Z.mul_le_mono_nonneg; lia]).
  rewrite (int_ok (ow * oh)) by lia. cbn [mbind outcome_bind]. rewrite (int_ok (w * h)) by lia. cbn [mbind outcome_bind].
  rewrite (int_ok (rw d * rh d)) by lia. cbn [mbind outcome_bind]. rewrite (int_ok (_ + _)) by lia. cbn [mbind outcome_bind].
  rewrite (int_ok (_ * 3)) by lia. cbn [mbind outcome_bind]. apply wp_ok. intros r Hr.
  destruct (ow * oh <=? _); [|done]. injection Hr as <-. split; [unfold rect_ok, LIMIT; cbn; lia|].
  intros x' y'. rewrite !area_spec. cbn. lia.
Qed.

Lemma add_damage_ok l x y w h : Forall rect_ok l → small_ok x y w h →
  add_damage l x y w h ⇓ λ l', Forall rect_ok l' ∧ zlen l' ≤ zlen l + 1 ∧
    ∀ x' y', damaged l x' y' = true ∨ area (mkRect x y w h) x' y' = true → damaged l' x' y' = true.
Proof.
  intros Hl Hn. induction Hl as [|d l Hd Hl IH]; simpl.
  { apply wp_ok. split; [constructor; [apply Hn|done]|]. split; [done|]. intros x' y' [?|Ha]; [done|]. simpl. by rewrite Ha. }
  apply wp_bind. eapply wp_mono; [by apply merge_damage_ok|]. intros [r|] Hm.
  - destruct (Hm r eq_refl) as [Hr Ha]. apply wp_ok. split; [by constructor|]. rewrite !zlen_cons. split; [lia|].
    intros x' y' Hxy. specialize (Ha x' y'). simpl in *. rewrite orb_true_iff in *. tauto.
  - apply wp_bind. eapply wp_mono; [exact IH|]. intros l' (H1 & H2 & H3). apply wp_ok. split; [by constructor|].
    rewrite !zlen_cons. split; [lia|]. intros x' y' Hxy. specialize (H3 x' y'). simpl in *. rewrite orb_true_iff in *. tauto.
Qed.

(** Only damage was added. *)
Definition damages (c c' : Compositor) : Prop :=
  (∃ l full, c' = set_damage l full c) ∧ Forall rect_ok (damage c') ∧ zlen (damage c') ≤ COMPOSITOR_MAX_DAMAGE ∧
  ∀ x y, dirty_at c x y = true → dirty_at c' x y = true.

Lemma compositor_damage_ok c x y w h :
  Forall rect_ok (damage c) → zlen (damage c) ≤ COMPOSITOR_MAX_DAMAGE → small_ok x y w h →
  compositor_damage c x y w h ⇓ λ c', damages c c' ∧
    ∀ x' y', area (mkRect x y w h) x' y' = true → dirty_at c' x' y' = true.
Proof.
  intros Hd Hl Hn. unfold compositor_damage, damages, dirty_at.
  pose proof Hn as [(N1 & N2 & N3 & N4 & N5 & N6) _]. cbn in N1, N2, N3, N4, N5, N6.
  assert ((w <=? 0) || (h <=? 0) = false) as -> by (apply orb_false_iff; rewrite !Z.leb_gt; lia).
  destruct (Z.leb_spec COMPOSITOR_MAX_DAMAGE (zlen (damage c))).
  - apply wp_ok. cbn. split; [|done]. split; [by eauto|]. done.
  - apply wp_bind. eapply wp_mono; [by apply add_damage_ok|]. intros l (H1 & H2 & H3). apply wp_ok. cbn.
    split; [split; [by eauto|]; split; [done|]; split; [lia|]|];
      intros x' y' Hxy; specialize (H3 x' y'); rewrite orb_true_iff in *; tauto.
Qed.

(** * Change of one surface *)
Lemma shade_insert l i s s' x y p :
  l !! i = Some s → (∀ q, over s' x y q = over s x y q) → shade (<[i := s']> l) x y p = shade l x y p.
Proof.
  intros Hi Hs. rewrite insert_take_drop by (by eapply lookup_lt_Some). rewrite <-(take_drop_middle l i s Hi) at 3.
  rewrite !shade_app. simpl. by rewrite Hs.
Qed.

Lemma shade_delete l i s x y p :
  l !! i = Some s → (∀ q, over s x y q = q) → shade (take i l ++ drop (S i) l) x y p = shade l x y p.
Proof. intros Hi Hs. rewrite <-(take_drop_middle l i s Hi) at 3. rewrite !shade_app. simpl. by rewrite Hs. Qed.

Definition place_of (s : CompSurface) : NvRect := mkRect (sx s) (sy s) (sw s) (sh s).

Lemma uncovered s x y : area (place_of s) x y ≠ true → covers s x y = false.
Proof.
  intros H. apply not_true_iff_false. intros Hc. apply H, area_spec. unfold covers in Hc.
  rewrite !andb_true_iff, !Z.leb_le, !Z.ltb_lt in Hc. cbn. lia.
Qed.

Lemma ok_small s : surface_ok s → small_ok (sx s) (sy s) (sw s) (sh s).
Proof. intros [Hx Hy Hw Hh _]. unfold small_ok, rect_ok, LIMIT in *. cbn. lia. Qed.

Lemma find_from_spec l i n : find_from l i n = -1 ∨ ∃ k s, find_from l i n = i + Z.of_nat k ∧ l !! k = Some s ∧ id s = n.
Proof.
  revert i. induction l as [|s l IH]; intros i; simpl; [by left|]. destruct (Z.eqb_spec (id s) n).
  - right. exists 0%nat, s. split_and!; [lia|done|done].
  - destruct (IH (i + 1)) as [?|(k & s' & E & Hk & Hn)]; [by left|right]. exists (S k), s'. split_and!; [lia|done|done].
Qed.

(** The surface of a client, by its id. *)
Lemma find_surface_spec c n : find_surface c n = -1 ∨ ∃ i s, find_surface c n = Z.of_nat i ∧ surfaces c !! i = Some s.
Proof. destruct (find_from_spec (surfaces c) 0 n) as [?|(i & s & ? & ? & _)]; [by left|right; by exists i, s]. Qed.

Ltac on_surface_of c n i s Hs :=
  cbv zeta; destruct (find_surface_spec c n) as [->|(i & s & -> & Hs)];
  [by apply wp_ok|rewrite (proj2 (Z.ltb_ge _ _)) by lia].

Lemma wp_split {A} (m : outcome A) Q R : m ⇓ Q → m ⇓ R → m ⇓ λ a, Q a ∧ R a.
Proof. intros (a & E & HQ) (b & E' & HR). rewrite E in E'. injection E' as <-. exists a. done. Qed.
Lemma wp_unbind {A B} (m : outcome A) (f : A → outcome B) Q : (a ← m; f a) ⇓ Q → m ⇓ λ a, f a ⇓ Q.
Proof. intros (b & E & HQ). destruct m as [a| |]; try done. exists a. split; [done|]. by exists b. Qed.

Lemma zget_at {A} (l : list A) i a : l !! i = Some a → zget l (Z.of_nat i) = Ok a.
Proof. intros H. apply zget_ok; [lia|]. by rewrite Nat2Z.id. Qed.

Lemma change_ok f i s c : surfaces c !! i = Some s →
  change f (Z.of_nat i) c = Ok (set_surfaces (<[i := f s]> (surfaces c)) c).
Proof.
  intros H. unfold change. rewrite (zget_at _ _ _ H). cbn [mbind outcome_bind].
  rewrite zset_ok by (apply lookup_lt_Some in H; unfold zlen; lia). by rewrite Nat2Z.id.
Qed.

(** * The invariant *)

Section Screen.
Context (screen : NvSurface).

(** What holds after [k] operations. *)
Record inv (k : Z) (c : Compositor) : Prop := mk_inv {
  inv_screen : screen_ok c; inv_size : same_size screen (fb c); inv_w : 0 < width (fb c); inv_h : 0 < height (fb c);
  inv_damage : Forall rect_ok (damage c); inv_damage_count : zlen (damage c) ≤ COMPOSITOR_MAX_DAMAGE;
  inv_count : zlen (surfaces c) ≤ COMPOSITOR_MAX_SURFACES;
  inv_next : 1 ≤ next_id c ≤ k + 1; inv_ids : Forall (λ n, 1 ≤ n < next_id c) (id <$> surfaces c);
  inv_distinct : NoDup (id <$> surfaces c);
  inv_z : Forall (λ z, 0 ≤ z ≤ 400 + k) (z_order <$> surfaces c);
  inv_sorted : Sorted Z.le (z_order <$> surfaces c) }.

(** Every pixel of the screen is damaged or shows the surfaces. *)
Definition current (c : Compositor) : Prop :=
  ∀ x y, on_surface (fb c) x y = true → dirty_at c x y = true ∨ fresh c x y.

Lemma comp_inv_mono k k' c : k ≤ k' → inv k c → inv k' c.
Proof. intros Hk []. constructor; try done; [lia|]. eapply Forall_impl; [done|]. simpl. lia. Qed.

Lemma inv_surface k c i s : inv k c → surfaces c !! i = Some s → surface_ok s.
Proof. intros [[] _ _ _ _ _ _ _ _ _ _ _] Hi. by eapply Forall_lookup_1. Qed.

Lemma inv_damages k c c' : inv k c → damages c c' → inv k c'.
Proof. intros [S] [(l & full & ->) (H1 & H2 & _)]. constructor; try done. destruct S. by constructor. Qed.

Lemma current_damages c c' : damages c c' → current c → current c'.
Proof.
  intros [(l & full & E) (_ & _ & Hd)] Hc x y Hxy. assert (fb c' = fb c ∧ surfaces c' = surfaces c) as [E1 E2] by (by subst).
  unfold fresh. rewrite E1 in *. rewrite E2. destruct (Hc x y Hxy) as [?|?]; [left; auto|by right].
Qed.

Lemma damages_trans c1 c2 c3 : damages c1 c2 → damages c2 c3 → damages c1 c3.
Proof. intros [(l & full & ->) (A1 & A2 & A3)] [(l' & full' & ->) (B1 & B2 & B3)]. split; [by eauto|]. auto. Qed.

(** A surface replaced by one with the same id and place in the order. *)
Lemma inv_insert k c i s s' : inv k c → surfaces c !! i = Some s → surface_ok s' → id s' = id s → z_order s' = z_order s →
  inv k (set_surfaces (<[i := s']> (surfaces c)) c).
Proof.
  intros [[]] Hi Ho Hid Hz.
  assert (id <$> <[i := s']> (surfaces c) = id <$> surfaces c) as Eid
    by (rewrite list_fmap_insert, Hid; apply list_insert_id; by rewrite list_lookup_fmap, Hi).
  assert (z_order <$> <[i := s']> (surfaces c) = z_order <$> surfaces c) as Ez
    by (rewrite list_fmap_insert, Hz; apply list_insert_id; by rewrite list_lookup_fmap, Hi).
  constructor; try done; cbn; rewrite ?Eid, ?Ez, ?zlen_insert; try done.
  constructor; try done. cbn. by apply Forall_insert.
Qed.

Lemma wp_damage k c x y w h Q : inv k c → small_ok x y w h →
  (∀ c', damages c c' → (∀ x' y', area (mkRect x y w h) x' y' = true → dirty_at c' x' y' = true) → Q c') →
  compositor_damage c x y w h ⇓ Q.
Proof.
  intros Hi Hs HQ. eapply wp_mono; [apply compositor_damage_ok; (done || apply Hi)|]. intros c' [H1 H2]. by apply HQ.
Qed.

Lemma wp_damage_at k c i s Q : inv k c → surfaces c !! i = Some s →
  (∀ c', damages c c' → (∀ x y, area (place_of s) x y = true → dirty_at c' x y = true) → Q c') →
  damage_at c (Z.of_nat i) ⇓ Q.
Proof.
  intros Hi Hs HQ. unfold damage_at. rewrite (zget_at _ _ _ Hs). cbn [mbind outcome_bind].
  eapply wp_damage; [done|by eapply ok_small, inv_surface|done].
Qed.

(** The pixels whose surfaces change are damaged. *)
Lemma current_change c c' : fb c' = fb c → (∀ x y, dirty_at c x y = true → dirty_at c' x y = true) →
  (∀ x y, dirty_at c' x y = true ∨ ∀ p, shade (surfaces c') x y p = shade (surfaces c) x y p) → current c → current c'.
Proof.
  intros Hf Hd Hs Hc x y Hxy. rewrite Hf in Hxy. destruct (Hc x y Hxy) as [?|[q Hq]]; [left; auto|].
  destruct (Hs x y) as [?|E]; [by left|]. right. exists q. by rewrite Hf, Hq, E.
Qed.

(** * The operations *)

(** After the operation the invariant holds again, and a screen that was up to date still is. *)
Definition fine (k : Z) (c : Compositor) (m : outcome Compositor) : Prop :=
  m ⇓ λ c', inv k c' ∧ (current c → current c').

Lemma fine_skip k c : inv k c → fine k c (Ok c).
Proof. intros. by apply wp_ok. Qed.

(** A surface that changes where it is, and is damaged. *)
Lemma change_fine k c i s f : inv k c → surfaces c !! i = Some s → surface_ok (f s) → id (f s) = id s →
  z_order (f s) = z_order s → place_of (f s) = place_of s →
  fine k c (c ← change f (Z.of_nat i) c; damage_at c (Z.of_nat i)).
Proof.
  intros Hi Hs Ho Hid Hz Hp. unfold fine. rewrite (change_ok _ _ _ _ Hs). cbn [mbind outcome_bind].
  pose proof (inv_insert k c i s (f s) Hi Hs Ho Hid Hz) as Hi'.
  eapply (wp_damage_at k _ i (f s)); [done|apply list_lookup_insert_eq; by eapply lookup_lt_Some|].
  intros c' Hd Ha. split; [by eapply inv_damages|]. apply current_change.
  - by destruct Hd as [(l & full & ->) _].
  - intros x y Hxy. by apply Hd.
  - intros x y. destruct (area (place_of s) x y) eqn:E; [left; apply Ha; by rewrite Hp|right]. intros p.
    destruct Hd as [(l & full & ->) _]. cbn. apply (shade_insert _ _ s); [done|]. intros q.
    rewrite !over_uncovered; [done| |]; apply uncovered; rewrite ?Hp; congruence.
Qed.

Lemma set_alpha_fine k c n a : inv k c → fine k c (compositor_set_alpha c n a).
Proof.
  intros Hi. unfold compositor_set_alpha, fine. on_surface_of c n i s Hs.
  apply (change_fine k c i s); try done. destruct (inv_surface _ _ _ _ Hi Hs). by constructor.
Qed.

Lemma show_fine k c n : inv k c → fine k c (compositor_show_surface c n).
Proof.
  intros Hi. unfold compositor_show_surface, fine. on_surface_of c n i s Hs. rewrite (zget_at _ _ _ Hs).
  cbn [mbind outcome_bind]. destruct (visible s); [by apply wp_ok|]. apply (change_fine k c i s); try done.
  destruct (inv_surface _ _ _ _ Hi Hs). by constructor.
Qed.

Lemma hide_fine k c n : inv k c → fine k c (compositor_hide_surface c n).
Proof.
  intros Hi. unfold compositor_hide_surface, fine. on_surface_of c n i s Hs. rewrite (zget_at _ _ _ Hs).
  cbn [mbind outcome_bind]. destruct (visible s); [|by apply wp_ok]. apply (change_fine k c i s); try done.
  destruct (inv_surface _ _ _ _ Hi Hs). by constructor.
Qed.

Lemma damage_surface_fine k c n : inv k c → fine k c (compositor_damage_surface c n).
Proof.
  intros Hi. unfold compositor_damage_surface, fine. on_surface_of c n i s Hs.
  apply (change_fine k c i s); try done. by apply ok_dirty, (inv_surface k c i).
Qed.

(** A client writes into the buffer that [compositor_surface_buffer] handed out: the pixels are those of the surface. *)
Definition client_draws (f : NvSurface → outcome NvSurface) (c : Compositor) (n : Z) : outcome Compositor :=
  o ← compositor_surface_buffer c n;
  match o with
  | None => Ok c
  | Some b => b ← f b; change (set_buffer (Some b)) (find_surface c n) c
  end.

Lemma find_from_ids l l' k n : id <$> l = id <$> l' → find_from l k n = find_from l' k n.
Proof.
  revert l' k. induction l as [|s l IH]; intros [|s' l'] k H; try done. cbn in H. injection H as H1 H2. simpl.
  rewrite H1, (IH l') by done. done.
Qed.

(** The state after the drawing: the surface has another buffer of the same size, if it has one. *)
Lemma client_draws_ok k c n f : inv k c → (∀ b, wf b → keeps b (f b)) →
  client_draws f c n ⇓ λ c', inv k c' ∧ find_surface c' n = find_surface c n ∧
    (c' = c ∨ ∃ i s b, find_surface c n = Z.of_nat i ∧ surfaces c !! i = Some s ∧ surface_ok (set_buffer (Some b) s) ∧
      c' = set_surfaces (<[i := set_buffer (Some b) s]> (surfaces c)) c).
Proof.
  intros Hi Hf. unfold client_draws, compositor_surface_buffer.
  destruct (find_surface_spec c n) as [Hn|(i & s & Hn & Hs)]; cbv zeta; rewrite Hn.
  { cbn. apply wp_ok. auto. }
  rewrite (proj2 (Z.ltb_ge _ _)) by lia. rewrite (zget_at _ _ _ Hs). cbn [mbind outcome_bind].
  pose proof (inv_surface _ _ _ _ Hi Hs) as [Kx Ky Kw Kh Kb].
  destruct (buffer s) as [b|] eqn:Eb; [|apply wp_ok; auto]. destruct (Kb b eq_refl) as (Wb & E1 & E2).
  apply wp_bind. eapply wp_mono; [by apply Hf|]. intros b' (Wb' & (G1 & G2 & _)).
  assert (surface_ok (set_buffer (Some b') s)) as Ho.
  { constructor; try done. intros b'' [= <-]. split; [done|]. cbn. lia. }
  rewrite (change_ok _ _ _ _ Hs). apply wp_ok. split; [by apply (inv_insert k c i s)|]. split; [|right; by exists i, s, b'].
  rewrite <-Hn. apply find_from_ids. cbn. rewrite list_fmap_insert. apply list_insert_id. by rewrite list_lookup_fmap, Hs.
Qed.

Lemma draws_inv k c n f : inv k c → (∀ b, wf b → keeps b (f b)) → client_draws f c n ⇓ inv k.
Proof. intros Hi Hf. eapply wp_mono; [by apply (client_draws_ok k)|]. by intros c' []. Qed.

(** A client that draws and then reports it. *)
Lemma draw_fine k c n f : inv k c → (∀ b, wf b → keeps b (f b)) →
  fine k c (c ← client_draws f c n; compositor_damage_surface c n).
Proof.
  intros Hi Hf. unfold fine. apply wp_bind. eapply wp_mono; [by apply (client_draws_ok k)|].
  intros c1 (Hi1 & Hfind & [->|(i & s & b & Hn & Hs & Ho & ->)]); [by apply damage_surface_fine|].
  unfold compositor_damage_surface. cbv zeta. rewrite Hfind, Hn, (proj2 (Z.ltb_ge _ _)) by lia.
  assert (change (set_dirty true) (Z.of_nat i) (set_surfaces (<[i:=set_buffer (Some b) s]> (surfaces c)) c)
    = change (set_dirty true ∘ set_buffer (Some b)) (Z.of_nat i) c) as ->.
  { rewrite (change_ok _ i (set_buffer (Some b) s)) by (apply list_lookup_insert_eq; by eapply lookup_lt_Some).
    rewrite (change_ok _ _ _ _ Hs). cbn. by rewrite list_insert_insert_eq. }
  apply (change_fine k c i s); try done. by apply ok_dirty.
Qed.

(** A surface that moves or grows: the old and the new place are damaged. *)
Lemma replace_fine k c c1 i s s' : inv k c → inv k c1 → surfaces c !! i = Some s → surfaces c1 !! i = Some s →
  fb c1 = fb c → surfaces c1 = surfaces c → (∀ x y, dirty_at c x y = true → dirty_at c1 x y = true) →
  (∀ x y, area (place_of s) x y = true → dirty_at c1 x y = true) →
  surface_ok s' → id s' = id s → z_order s' = z_order s →
  compositor_damage (set_surfaces (<[i := s']> (surfaces c1)) c1) (sx s') (sy s') (sw s') (sh s') ⇓
    λ c', inv k c' ∧ (current c → current c').
Proof.
  intros Hi Hi1 Hs Hs1 Hf He Hd Ha Ho Hid Hz. pose proof (inv_insert k c1 i s s' Hi1 Hs1 Ho Hid Hz) as Hi'.
  eapply wp_damage; [done|by apply ok_small|]. intros c' Hd' Ha'. split; [by eapply inv_damages|]. apply current_change.
  - destruct Hd' as [(l & full & ->) _]. done.
  - intros x y Hxy. apply Hd'. by apply Hd.
  - intros x y. destruct (area (place_of s) x y) eqn:E; [left; by apply Hd', Ha|].
    destruct (area (place_of s') x y) eqn:E'; [left; by apply Ha'|right]. intros p.
    destruct Hd' as [(l & full & ->) _]. cbn. rewrite He. apply (shade_insert _ _ s); [done|]. intros q.
    rewrite !over_uncovered; [done| |]; apply uncovered; congruence.
Qed.

Lemma move_fine k c n x y : inv k c → - LIMIT ≤ x ≤ LIMIT → - LIMIT ≤ y ≤ LIMIT → fine k c (compositor_move_surface c n x y).
Proof.
  intros Hi Hx Hy. unfold compositor_move_surface, fine. on_surface_of c n i s Hs.
  apply wp_bind, (wp_damage_at k c i s); [done|done|]. intros c1 Hd Ha. pose proof (inv_damages _ _ _ Hi Hd) as Hi1.
  assert (surfaces c1 = surfaces c ∧ fb c1 = fb c) as [E1 E2] by (by destruct Hd as [(l & full & ->) _]).
  assert (surfaces c1 !! i = Some s) as Hs1 by (by rewrite E1).
  rewrite (change_ok _ _ _ _ Hs1). cbn [mbind outcome_bind].
  rewrite (zget_at _ _ (move_to x y s)) by (apply list_lookup_insert_eq; by eapply lookup_lt_Some). cbn [mbind outcome_bind].
  apply (replace_fine k c c1 i s (move_to x y s)); try done; [apply Hd|].
  destruct (inv_surface _ _ _ _ Hi Hs). by constructor.
Qed.

Definition grants (A : allocator) : Prop := ∀ k n, avail A k n = true.

(** A new surface, or none when there is no memory. *)
Lemma surface_new_ok A k w h : 1 ≤ w ≤ LIMIT → 1 ≤ h ≤ LIMIT →
  surface_new A k w h ⇓ λ o, match o with Some b => wf b ∧ width b = w ∧ height b = h | None => ¬ grants A end.
Proof.
  intros Hw Hh. unfold surface_new, LIMIT in *.
  assert ((w <=? 0) || (h <=? 0) = false) as -> by (apply orb_false_iff; rewrite !Z.leb_gt; lia).
  destruct (avail A k SURFACE_SIZE) eqn:E1; cbn [negb]; [|apply wp_ok; intros HA; by rewrite HA in E1].
  rewrite (int_ok (w * h)) by nia. cbn [mbind outcome_bind].
  destruct (avail A (S k) (w * h * 4)) eqn:E2; cbn [negb]; apply wp_ok; [|intros HA; by rewrite HA in E2].
  split; [|done]. constructor; cbn; unfold DIM; [lia..|]. unfold zlen. rewrite length_replicate. nia.
Qed.

Lemma inv_request k c j : inv k c → inv k (set_request j c).
Proof. intros [[]]. by constructor. Qed.

Lemma resize_fine A k c n w h : inv k c → w ≤ LIMIT → h ≤ LIMIT →
  compositor_resize_surface A c n w h ⇓ λ c', inv k c' ∧ (grants A → current c → current c').
Proof.
  intros Hi Hw Hh. unfold compositor_resize_surface.
  destruct ((w <=? 0) || (h <=? 0)) eqn:E; [by apply wp_ok|]. rewrite orb_false_iff, !Z.leb_gt in E.
  on_surface_of c n i s Hs.
  apply wp_bind. eapply wp_mono; [apply surface_new_ok; lia|]. intros o Hb.
  set (c0 := set_request (S (S (request c))) c). assert (inv k c0) as Hi0 by (by apply inv_request).
  rewrite (change_ok _ i s c0) by done. cbn [mbind outcome_bind]. destruct o as [b|].
  2:{ apply wp_ok. split; [|done]. apply (inv_insert k c0 i s); try done. destruct (inv_surface _ _ _ _ Hi Hs). by constructor. }
  destruct Hb as (Wb & Eb1 & Eb2).
  set (c2 := set_surfaces (<[i := set_buffer (Some b) s]> (surfaces c0)) c0). pose proof (lookup_lt_Some _ _ _ Hs) as Hlt.
  assert (surfaces c2 !! i = Some (set_buffer (Some b) s)) as Hs2 by (by apply list_lookup_insert_eq).
  destruct (inv_surface _ _ _ _ Hi Hs) as [Kx Ky Kw Kh Kb].
  unfold damage_at at 1. rewrite (zget_at _ _ _ Hs2). cbn [mbind outcome_bind].
  apply wp_bind. eapply wp_mono; [apply (compositor_damage_ok c2); [apply Hi|apply Hi|]|].
  { apply (ok_small s). by constructor. }
  intros c3 [Hd Ha]. assert (surfaces c3 = surfaces c2 ∧ fb c3 = fb c) as [E1 E2] by (by destruct Hd as [(l & full & ->) _]).
  assert (surfaces c3 !! i = Some (set_buffer (Some b) s)) as Hs3 by (by rewrite E1).
  rewrite (change_ok _ _ _ _ Hs3). cbn [mbind outcome_bind].
  rewrite (zget_at _ _ (size_to w h (set_buffer (Some b) s))) by (apply list_lookup_insert_eq; by eapply lookup_lt_Some).
  cbn [mbind outcome_bind].
  set (s' := size_to w h (set_buffer (Some b) s)).
  assert (surface_ok s') as Ho.
  { constructor; try done; cbn; try lia. intros b' [= <-]. done. }
  assert (inv k (set_surfaces (<[i := s']> (surfaces c3)) c3)) as Hi'.
  { destruct Hd as [(l & full & ->) (D1 & D2 & _)]. cbn. rewrite list_insert_insert_eq.
    pose proof (inv_insert k c0 i s s' Hi0 Hs Ho eq_refl eq_refl) as [[]]. by constructor. }
  eapply (wp_damage k); [done|by apply (ok_small s')|]. intros c' Hd' Ha'. split; [by eapply inv_damages|].
  intros _. apply current_change.
  - by destruct Hd' as [(l & full & ->) _].
  - intros x y Hxy. by apply Hd', Hd.
  - intros x y. destruct (area (place_of s) x y) eqn:Ea; [left; by apply Hd', Ha|].
    destruct (area (place_of s') x y) eqn:Ea'; [left; by apply Ha'|right]. intros p.
    destruct Hd' as [(l & full & ->) _]. cbn. rewrite E1. cbn. rewrite list_insert_insert_eq.
    apply (shade_insert _ _ s); [done|]. intros q. rewrite !over_uncovered; [done| |]; apply uncovered; congruence.
Qed.

(** A surface taken out of the list. *)
Lemma Forall_out {A} (P : A → Prop) i l : Forall P l → Forall P (take i l ++ drop (S i) l).
Proof. intros H. apply Forall_app; split; [by apply Forall_take|by apply Forall_drop]. Qed.

Lemma sorted_out i l : Sorted Z.le l → Sorted Z.le (take i l ++ drop (S i) l).
Proof.
  intros H. apply Sorted_StronglySorted in H; [|intros ???; lia]. apply StronglySorted_Sorted.
  destruct (l !! i) as [z|] eqn:E.
  - rewrite <-(take_drop_middle l i z E) in H. apply StronglySorted_app in H as (H1 & H2 & H3).
    apply StronglySorted_inv in H3 as [H3 _]. apply StronglySorted_app. split; [|done].
    intros a b Ha Hb. apply H1; [done|by right].
  - apply lookup_ge_None in E. by rewrite take_ge, drop_ge, app_nil_r by lia.
Qed.

Lemma nodup_out {A} i (l : list A) : NoDup l → NoDup (take i l ++ drop (S i) l).
Proof.
  intros H. destruct (l !! i) as [z|] eqn:E.
  - rewrite <-(take_drop_middle l i z E) in H. apply NoDup_app in H as (H1 & H2 & H3). apply NoDup_cons in H3 as [_ H3].
    apply NoDup_app. split_and!; [done| |done]. intros a Ha Hb. apply (H2 a Ha). by right.
  - apply lookup_ge_None in E. by rewrite take_ge, drop_ge, app_nil_r by lia.
Qed.

Lemma inv_out k c i : inv k c → inv k (set_surfaces (take i (surfaces c) ++ drop (S i) (surfaces c)) c).
Proof.
  intros [[]]. constructor; try done; cbn; rewrite ?fmap_app, ?fmap_take, ?fmap_drop.
  - constructor; try done. by apply Forall_out.
  - unfold zlen in *. rewrite length_app, length_take, length_drop. lia.
  - by apply Forall_out.
  - by apply nodup_out.
  - by apply Forall_out.
  - by apply sorted_out.
Qed.

Lemma destroy_fine k c n : inv k c → fine k c (compositor_destroy_surface c n).
Proof.
  intros Hi. unfold compositor_destroy_surface, fine. on_surface_of c n i s Hs.
  apply wp_bind, (wp_damage_at k c i s); [done|done|]. intros c1 Hd Ha. pose proof (inv_damages _ _ _ Hi Hd) as Hi1.
  assert (surfaces c1 = surfaces c ∧ fb c1 = fb c) as [E1 E2] by (by destruct Hd as [(l & full & ->) _]).
  apply wp_ok. rewrite Nat2Z.id. split; [by apply inv_out|]. apply current_change; [done|apply Hd|].
  intros x y. destruct (area (place_of s) x y) eqn:E; [left; by apply Ha|right]. intros p. cbn. rewrite E1.
  apply (shade_delete _ _ s); [done|]. intros q. apply over_uncovered, uncovered. congruence.
Qed.

(** * The order of the surfaces *)
Lemma sorted_fmap (l : list CompSurface) : ordered z_order l → Sorted Z.le (z_order <$> l).
Proof.
  unfold ordered. induction 1 as [|s l Hl IH Hs]; [constructor|]. constructor; [done|]. destruct Hs; constructor. done.
Qed.

(** The invariant without the order. *)
Lemma inv_sort k c : screen_ok c → same_size screen (fb c) → 0 < width (fb c) → 0 < height (fb c) → Forall rect_ok (damage c) →
  zlen (damage c) ≤ COMPOSITOR_MAX_DAMAGE → zlen (surfaces c) ≤ COMPOSITOR_MAX_SURFACES → 1 ≤ next_id c ≤ k + 1 →
  Forall (λ n, 1 ≤ n < next_id c) (id <$> surfaces c) → NoDup (id <$> surfaces c) →
  Forall (λ z, 0 ≤ z ≤ 400 + k) (z_order <$> surfaces c) →
  ∃ c', sort_by_z c = Ok c' ∧ c' = set_surfaces (zsort z_order (surfaces c)) c ∧ inv k c'.
Proof.
  intros [S1 S2 S3 S4 S5 S6 S7] Hsz Hw Hh Hd Hc Hn Hx Hid Hnd Hz. unfold sort_by_z. rewrite insertion_sort_ok. cbn [mbind outcome_bind].
  pose proof (zsort_perm z_order (surfaces c)) as Hp.
  eexists. split; [done|]. split; [done|]. constructor; try done; cbn.
  - constructor; try done. cbn. by rewrite Hp.
  - unfold zlen in *. by rewrite zsort_length.
  - by rewrite Hp.
  - by rewrite Hp.
  - by rewrite Hp.
  - apply sorted_fmap, zsort_ordered.
Qed.

Lemma layer_z_range l : 0 ≤ layer_z l ≤ 400.
Proof. destruct l; simpl; lia. Qed.

(** A new surface: the whole screen is painted again. *)
Lemma create_fine A k c x y w h l : 0 ≤ k → k < 2147483646 → inv k c → - LIMIT ≤ x ≤ LIMIT → - LIMIT ≤ y ≤ LIMIT →
  w ≤ LIMIT → h ≤ LIMIT →
  compositor_create_surface A c x y w h l ⇓ λ '(_, c'), inv (k + 1) c' ∧ (current c → current c').
Proof.
  intros Hk0 Hk Hi Hx Hy Hw Hh. unfold compositor_create_surface.
  destruct (Z.leb_spec COMPOSITOR_MAX_SURFACES (zlen (surfaces c))).
  { apply wp_ok. split; [apply (comp_inv_mono k); [lia|done]|done]. }
  destruct ((w <=? 0) || (h <=? 0)) eqn:E. { apply wp_ok. split; [apply (comp_inv_mono k); [lia|done]|done]. }
  rewrite orb_false_iff, !Z.leb_gt in E.
  apply wp_bind. eapply wp_mono; [apply surface_new_ok; lia|]. intros [b|] Hb.
  2:{ apply wp_ok. split; [apply inv_request, (comp_inv_mono k); [lia|done]|done]. }
  destruct Hb as (Wb & Eb1 & Eb2).
  destruct Hi as [[S1 S2 S3 S4 S5 S6 S7] Hsz Hpw Hph Hd Hc Hn Hx' Hid Hnd Hz Hso]. cbn [next_id set_request].
  rewrite (int_ok (next_id c + 1)) by lia. cbn [mbind outcome_bind].
  set (s := mkComp (next_id c) x y w h (layer_z l) true 255 l (Some b) true).
  set (c1 := set_surfaces (surfaces c ++ [s]) (set_next (next_id c + 1) (set_request (S (S (request c))) c))).
  change (sort_by_z _) with (sort_by_z c1). pose proof (layer_z_range l) as Hlz.
  destruct (inv_sort (k + 1) c1) as (c2 & -> & Ec2 & Hi2); try done; cbn.
  - constructor; try done. cbn. apply Forall_app. split; [done|]. apply Forall_singleton. constructor; try done; cbn; try lia.
    intros b' [= <-]. done.
  - rewrite zlen_snoc. lia.
  - lia.
  - rewrite fmap_app. apply Forall_app. split; [eapply Forall_impl; [done|]; simpl; lia|]. apply Forall_singleton. cbn. lia.
  - rewrite fmap_app. apply NoDup_app. split_and!; [done| |apply NoDup_singleton]. intros n Hn1 Hn2.
    apply list_elem_of_singleton in Hn2 as ->. rewrite Forall_forall in Hid. apply Hid in Hn1. cbn in Hn1. lia.
  - rewrite fmap_app. apply Forall_app. split; [eapply Forall_impl; [done|]; simpl; lia|]. apply Forall_singleton. cbn. lia.
  - cbn [mbind outcome_bind].
    destruct (zget_in (surfaces c2) (zlen (surfaces c))) as (s2 & Hs2).
    { rewrite Ec2. cbn [surfaces set_surfaces]. unfold zlen. rewrite zsort_length. unfold c1. cbn [surfaces set_surfaces]. rewrite length_app. simpl. lia. }
    rewrite (zget_ok _ _ s2) by (done || (unfold zlen; lia)). cbn [mbind outcome_bind]. apply wp_ok.
    split; [destruct Hi2 as [[]]; by constructor|]. intros _ x' y' _. by left.
Qed.

(** A surface with another place in the order. *)
Lemma restack_inv k c i s z : 0 ≤ k → inv k c → surfaces c !! i = Some s → 0 ≤ z ≤ 400 + (k + 1) →
  (c ← change (set_z z) (Z.of_nat i) c; c ← sort_by_z c; damage_at c (Z.of_nat i)) ⇓ inv (k + 1).
Proof.
  intros Hk Hi Hs Hz. rewrite (change_ok _ _ _ _ Hs). cbn [mbind outcome_bind].
  pose proof Hi as [[S1 S2 S3 S4 S5 S6 S7] Hsz Hpw Hph Hd Hc Hn Hx' Hid Hnd Hzs Hso].
  assert (id <$> <[i := set_z z s]> (surfaces c) = id <$> surfaces c) as Eid
    by (rewrite list_fmap_insert; apply list_insert_id; by rewrite list_lookup_fmap, Hs).
  destruct (inv_sort (k + 1) (set_surfaces (<[i := set_z z s]> (surfaces c)) c)) as (c2 & -> & Ec2 & Hi2);
    try done; cbn; rewrite ?Eid, ?zlen_insert; try done.
  - constructor; try done. cbn. apply Forall_insert; [done|]. destruct (Forall_lookup_1 _ _ _ _ S7 Hs). by constructor.
  - lia.
  - rewrite list_fmap_insert. apply Forall_insert; [|cbn; lia]. eapply Forall_impl; [exact Hzs|]. simpl. lia.
  - cbn [mbind outcome_bind]. destruct (zget_in (surfaces c2) (Z.of_nat i)) as (s2 & Hs2).
    { rewrite Ec2. cbn [surfaces set_surfaces]. unfold zlen. rewrite zsort_length, length_insert. apply lookup_lt_Some in Hs. lia. }
    rewrite Nat2Z.id in Hs2. eapply (wp_damage_at (k + 1) c2 i s2); [done|done|]. intros c' Hd' _. by eapply inv_damages.
Qed.

Lemma max_z_range l ss b : 0 ≤ b → Forall (λ z, 0 ≤ z ≤ b) (z_order <$> ss) → 0 ≤ max_z l ss ≤ b.
Proof.
  intros Hb Hs. unfold max_z. set (step := λ (m : Z) (s : CompSurface), _).
  assert (∀ m, 0 ≤ m ≤ b → 0 ≤ foldl step m ss ≤ b) as H; [|apply H; lia].
  rewrite Forall_fmap in Hs. induction Hs as [|s ss Hs1 _ IH]; intros m Hm; simpl; [done|].
  apply IH. unfold step. simpl in Hs1. destruct (bool_decide (layer s = l) && (m <? z_order s)); lia.
Qed.

Lemma raise_inv k c n : 0 ≤ k → k < 2147483200 → inv k c → compositor_raise_surface c n ⇓ inv (k + 1).
Proof.
  intros Hk Hk' Hi. assert (inv (k + 1) c) by (apply (comp_inv_mono k); [lia|done]).
  unfold compositor_raise_surface. on_surface_of c n i s Hs. rewrite (zget_at _ _ _ Hs). cbn [mbind outcome_bind].
  pose proof (max_z_range (layer s) (surfaces c) (400 + k) ltac:(lia) (inv_z _ _ Hi)).
  rewrite int_ok by lia. cbn [mbind outcome_bind]. apply (restack_inv k c i s); [done|done|done|lia].
Qed.

Lemma lower_inv k c n : 0 ≤ k → inv k c → compositor_lower_surface c n ⇓ inv (k + 1).
Proof.
  intros Hk Hi. assert (inv (k + 1) c) by (apply (comp_inv_mono k); [lia|done]).
  unfold compositor_lower_surface. on_surface_of c n i s Hs. rewrite (zget_at _ _ _ Hs). cbn [mbind outcome_bind].
  destruct (Z.ltb_spec 0 (z_order s)); [|by apply wp_ok].
  assert (0 ≤ z_order s ≤ 400 + k).
  { pose proof (inv_z _ _ Hi) as Hz. rewrite Forall_fmap in Hz. exact (Forall_lookup_1 _ _ _ _ Hz Hs). }
  apply (restack_inv k c i s); [done|done|done|lia].
Qed.

(** * Composition *)
Lemma composite_fine k c : inv k c → compositor_composite c ⇓ λ c', inv k c' ∧
  damage c' = [] ∧ full_redraw c' = false ∧ (current c → current c').
Proof.
  intros [S Hsz Hpw Hph Hd Hc Hn Hx Hid Hnd Hz Hso].
  eapply wp_mono; [by apply compositor_composite_ok|].
  intros c' (C1 & (G1 & G2 & G3) & C3 & C4 & C5 & C6 & C7 & C8).
  assert (∀ {B} (f : CompSurface → B), (∀ s, f (set_dirty false s) = f s) → f <$> surfaces c' = f <$> surfaces c) as Hmap.
  { intros B f Hf. assert (∀ l, f <$> l = f <$> clean l) as Hcl.
    { intros l. unfold clean. induction l as [|s l IH]; [done|]. exact (f_equal2 cons (eq_sym (Hf s)) IH). }
    by rewrite (Hcl (surfaces c')), C3, <-Hcl. }
  assert (length (surfaces c') = length (surfaces c)) as Hlen 
    by (rewrite <-(length_map (set_dirty false) (surfaces c')), <-(length_map (set_dirty false) (surfaces c)); exact (f_equal length C3)).
  split; [|split; [done|split; [done|]]].
  - constructor; try done; rewrite ?C4, ?C5, ?(Hmap _ id), ?(Hmap _ z_order) by done; try done; [by apply (same_size_trans _ (fb c))|by rewrite G1|by rewrite G2|].
    unfold zlen in *. by rewrite Hlen.
  - intros Hcur x y Hxy. right. apply C8; [by rewrite <-(visible_size (fb c) (fb c')) by done|].
    rewrite (visible_size (fb c) (fb c')) in Hxy by done. exact (Hcur x y Hxy).
Qed.

End Screen.

End CompositorOps.

(** The compositor as a whole: sequences of its operations, from the new compositor on. *)
Import Color Draw DrawPaint DrawShapes Compositor CompositorPaint CompositorOps.

Module CompositorClaims.

(** * Sequences of operations *)

(** What the display server and its clients do. *)
Inductive op :=
  | Create (x y w h : Z) (l : SurfaceLayer) | Destroy (n : Z) | Move (n x y : Z) | Resize (n w h : Z)
  | SetAlpha (n a : Z) | Show (n : Z) | Hide (n : Z) | Report (n : Z) | Draw (n : Z) (f : NvSurface → outcome NvSurface)
  | Raise (n : Z) | Lower (n : Z) | Composite.

Definition apply_op (A : allocator) (o : op) (c : Compositor) : outcome Compositor :=
  match o with
  | Create x y w h l => '(_, c) ← compositor_create_surface A c x y w h l; Ok c
  | Destroy n => compositor_destroy_surface c n
  | Move n x y => compositor_move_surface c n x y
  | Resize n w h => compositor_resize_surface A c n w h
  | SetAlpha n a => compositor_set_alpha c n a
  | Show n => compositor_show_surface c n
  | Hide n => compositor_hide_surface c n
  | Report n => compositor_damage_surface c n
  | Draw n f => client_draws f c n
  | Raise n => compositor_raise_surface c n
  | Lower n => compositor_lower_surface c n
  | Composite => compositor_composite c
  end.

Fixpoint run (A : allocator) (os : list op) (c : Compositor) : outcome Compositor :=
  match os with [] => Ok c | o :: os => c ← apply_op A o c; run A os c end.

(** Coordinates are at most 8192, and drawing stays inside of the buffer. *)
Definition op_ok (o : op) : Prop :=
  match o with
  | Create x y w h _ => - LIMIT ≤ x ≤ LIMIT ∧ - LIMIT ≤ y ≤ LIMIT ∧ w ≤ LIMIT ∧ h ≤ LIMIT
  | Move _ x y => - LIMIT ≤ x ≤ LIMIT ∧ - LIMIT ≤ y ≤ LIMIT
  | Resize _ w h => w ≤ LIMIT ∧ h ≤ LIMIT
  | Draw _ f => ∀ b, wf b → keeps b (f b)
  | _ => True
  end.

(** The operations that leave the order and the buffers of the surfaces alone, or damage what they change. *)
Definition self_reporting (o : op) : bool := match o with Raise _ | Lower _ | Draw _ _ => false | _ => true end.

(** No surface is raised or lowered, and a client that draws reports it next. *)
Fixpoint reported (os : list op) : bool :=
  match os with
  | [] => true
  | Draw n _ :: os => match os with Report m :: os => (m =? n) && reported os | _ => false end
  | o :: os => self_reporting o && reported os
  end.

Section Screen.
Context (screen : NvSurface).
Local Abbreviation inv := (inv screen).
Local Abbreviation fine := (fine screen).

Lemma fine_next k c m : inv k c → fine k c m → m ⇓ λ c', inv (k + 1) c' ∧ (current c → current c').
Proof. intros _ H. eapply wp_mono; [exact H|]. intros c' [H1 H2]. split; [apply (comp_inv_mono screen k); [lia|done]|done]. Qed.

Lemma apply_op_ok A o k c : 0 ≤ k → k < 2147483200 → inv k c → op_ok o →
  apply_op A o c ⇓ λ c', inv (k + 1) c' ∧ (grants A → self_reporting o = true → current c → current c').
Proof.
  intros Hk Hk' Hi Ho. destruct o; simpl in *.
  - apply wp_bind. eapply wp_mono; [apply (create_fine screen A k); (done || lia)|]. intros [id c'] [H1 H2]. apply wp_ok. auto.
  - eapply wp_mono; [by apply fine_next, destroy_fine|]. intros c' [H1 H2]; auto.
  - eapply wp_mono; [apply fine_next, move_fine; (done || lia)|]. intros c' [H1 H2]; auto.
  - eapply wp_mono; [apply (resize_fine screen A k); (done || lia)|]. intros c' [H1 H2]. split; [apply (comp_inv_mono screen k); [lia|done]|auto].
  - eapply wp_mono; [by apply fine_next, set_alpha_fine|]. intros c' [H1 H2]; auto.
  - eapply wp_mono; [by apply fine_next, show_fine|]. intros c' [H1 H2]; auto.
  - eapply wp_mono; [by apply fine_next, hide_fine|]. intros c' [H1 H2]; auto.
  - eapply wp_mono; [by apply fine_next, damage_surface_fine|]. intros c' [H1 H2]; auto.
  - eapply wp_mono; [by apply (draws_inv screen k)|]. intros c' H1. split; [apply (comp_inv_mono screen k); [lia|done]|done].
  - eapply wp_mono; [by apply (raise_inv screen k)|]. done.
  - eapply wp_mono; [by apply (lower_inv screen k)|]. done.
  - eapply wp_mono; [by apply (composite_fine screen k)|]. intros c' (H1 & _ & _ & H2). split; [apply (comp_inv_mono screen k); [lia|done]|auto].
Qed.

Lemma session_run_ok A os k c : 0 ≤ k → k + zlen os ≤ 2147483200 → inv k c → Forall op_ok os →
  run A os c ⇓ inv (k + zlen os).
Proof.
  intros Hk Hn Hi Hos. revert k c Hk Hn Hi. induction Hos as [|o os Ho Hos IH]; intros k c Hk Hn Hi; simpl.
  { apply wp_ok. change (zlen []) with 0. by rewrite Z.add_0_r. }
  rewrite zlen_cons in *. assert (0 ≤ zlen os) by (unfold zlen; lia).
  apply wp_bind. eapply wp_mono; [apply (apply_op_ok A o k); (done || lia)|]. intros c1 [H1 H2].
  replace (k + (zlen os + 1)) with (k + 1 + zlen os) by lia. apply (IH (k + 1)); (done || lia).
Qed.

(** The step of a sequence in which drawing is reported: one operation, or a drawing and its report. *)
Lemma reported_ind (P : list op → Prop) : P [] →
  (∀ n f os, reported os = true → P os → P (Draw n f :: Report n :: os)) →
  (∀ o os, self_reporting o = true → reported os = true → P os → P (o :: os)) →
  ∀ os, reported os = true → P os.
Proof.
  intros H0 H2 H1 os. remember (length os) as m eqn:Hm. revert os Hm.
  induction m as [m IH] using lt_wf_ind. intros [|o os] -> Hr; [done|].
  destruct (self_reporting o) eqn:Eo.
  - assert (reported os = true) as Hr' by (destruct o; done). apply H1; [done|done|]. eapply (IH (length os)); [simpl; lia|done|done].
  - destruct o; try done. destruct os as [|[] os]; try done. simpl in Hr. apply andb_true_iff in Hr as [->%Z.eqb_eq Hr].
    apply H2; [done|]. eapply (IH (length os)); [simpl; lia|done|done].
Qed.

Lemma session_current A os k c : grants A → reported os = true → 0 ≤ k → k + zlen os ≤ 2147483200 → inv k c →
  Forall op_ok os → current c → run A os c ⇓ current.
Proof.
  intros HA Hr. revert k c. revert os Hr.
  apply (reported_ind (λ os, ∀ k c, 0 ≤ k → k + zlen os ≤ 2147483200 → inv k c → Forall op_ok os → current c → run A os c ⇓ current));
    [intros k c Hk Hn Hi Hos Hc|intros n f os Hr IH k c Hk Hn Hi Hos Hc|intros o os Ho Hr IH k c Hk Hn Hi Hos Hc].
  - by apply wp_ok.
  - rewrite !zlen_cons in Hn. rewrite !Forall_cons in Hos. destruct Hos as (Hf & _ & Hos). assert (0 ≤ zlen os) by (unfold zlen; lia).
    cbn [run apply_op]. apply wp_bind. pose proof (draw_fine screen k c n f Hi Hf) as Hfine. unfold CompositorOps.fine in Hfine.
    apply wp_unbind in Hfine. eapply wp_mono; [exact Hfine|]. intros c1 H1. apply wp_bind. eapply wp_mono; [exact H1|].
    intros c2 [H2 H3]. apply (IH k); (done || lia || auto).
  - rewrite zlen_cons in Hn. rewrite Forall_cons in Hos. destruct Hos as (Hop & Hos). assert (0 ≤ zlen os) by (unfold zlen; lia).
    cbn [run]. apply wp_bind. eapply wp_mono; [apply (apply_op_ok A o k); (done || lia)|]. intros c1 [H1 H2].
    apply (IH (k + 1)); (done || lia || auto).
Qed.

End Screen.

Lemma run_app A os1 os2 c : run A (os1 ++ os2) c = (c ← run A os1 c; run A os2 c).
Proof.
  revert c. induction os1 as [|o os1 IH]; intros c; [done|]. simpl. destruct (apply_op A o c); try done.
  cbn [mbind outcome_bind]. apply IH.
Qed.

(** A frame buffer of at most 8192 by 8192 pixels. *)
Definition frame_ok (screen : NvSurface) : Prop :=
  wf screen ∧ 1 ≤ width screen ≤ LIMIT ∧ 1 ≤ height screen ≤ LIMIT.

Lemma compositor_new_ok A k screen : frame_ok screen →
  compositor_new A k (pixels screen) (width screen) (height screen) (pitch screen) ⇓ λ o,
    match o with Some c => inv screen 0 c ∧ current c | None => ¬ grants A end.
Proof.
  intros (Hs & Hw & Hh). unfold compositor_new, surface_from_pixels. pose proof Hs as [W1 W2 W3 W4].
  destruct (avail A k COMPOSITOR_SIZE) eqn:E1; cbn [negb]; [|apply wp_ok; intros HA; by rewrite HA in E1].
  apply wp_bind. eapply wp_mono; [by apply surface_new_ok|].
  destruct (avail A (k + 1) SURFACE_SIZE) eqn:E2; cbn [negb];
    [|intros b _; apply wp_ok; intros HA; by rewrite HA in E2].
  rewrite (proj2 (Z.ltb_lt _ _)) by lia.
  intros [b|] Hb; apply wp_ok; [|done]. destruct Hb as (Wb & G1 & G2). split; [|intros x y _; by left].
  constructor; cbn; try done; try lia; try constructor. all: cbn; (done || lia).
Qed.

(** The sequence on a new compositor, if there was memory for one. *)
Definition session (A : allocator) (k : nat) (screen : NvSurface) (os : list op) : outcome (option Compositor) :=
  o ← compositor_new A k (pixels screen) (width screen) (height screen) (pitch screen);
  match o with None => Ok None | Some c => c ← run A os c; Ok (Some c) end.

Lemma session_ok A k screen os : frame_ok screen → Forall op_ok os → zlen os ≤ 2147483200 →
  session A k screen os ⇓ λ o, match o with Some c => inv screen (zlen os) c | None => ¬ grants A end.
Proof.
  intros Hs Hos Hn. unfold session. apply wp_bind. eapply wp_mono; [by apply compositor_new_ok|].
  intros [c|] Hc; [|by apply wp_ok]. destruct Hc as [Hi Hc]. apply wp_bind.
  eapply wp_mono; [apply (session_run_ok screen A os 0); (done || lia)|]. intros c' H1. by apply wp_ok.
Qed.

(** Any sequence of the operations of the compositor, with coordinates up to 8192 and whatever
    requests the allocator refuses, ends without overflow or access outside of a buffer; there
    are at most 64 surfaces and 32 damaged rectangles, the ids are distinct, the surfaces are
    sorted by their order and every buffer has the size of its surface. *)
Theorem compositor_invariant A k screen os :
  frame_ok screen → Forall op_ok os → zlen os ≤ 2147483200 →
  session A k screen os ⇓ λ o, ∀ c, o = Some c →
    wf (fb c) ∧ same_size screen (fb c) ∧
    zlen (surfaces c) ≤ COMPOSITOR_MAX_SURFACES ∧ zlen (damage c) ≤ COMPOSITOR_MAX_DAMAGE ∧
    NoDup (id <$> surfaces c) ∧ Sorted Z.le (z_order <$> surfaces c) ∧
    Forall (λ s, ∀ b, buffer s = Some b → wf b ∧ width b = sw s ∧ height b = sh s) (surfaces c).
Proof.
  intros Hs Hos Hn. eapply wp_mono; [by apply session_ok|]. intros o Ho c ->. destruct Ho as [[F _ _ _ _ _ Hl]].
  split_and!; try done. eapply Forall_impl; [exact Hl|]. by intros s [].
Qed.

(** C9: After any sequence of the operations of the compositor other than raising and lowering
    (creation, destruction, moves, resizing, transparency, showing and hiding, drawing by
    clients into the buffers they are given, each drawing followed by its report with
    compositor_damage_surface, and compositions), with coordinates and sizes up to 8192, fewer
    than 2147483200 operations and memory granted, followed by a composition, the surfaces are
    sorted by their z_order and every pixel of the screen shows them laid on one another in that
    order, the lowest first; where one of them is opaque this is exactly one colour, whatever
    the screen showed before. *)
Theorem screen_shows_surfaces A k screen os :
  grants A → frame_ok screen → Forall op_ok os → zlen os < 2147483200 → reported os = true →
  session A k screen (os ++ [Composite]) ⇓ λ o, ∃ c, o = Some c ∧ same_size screen (fb c) ∧
    Sorted Z.le (z_order <$> surfaces c) ∧
    ∀ x y, on_surface screen x y = true →
      (∃ q, px (fb c) x y = Some (shade (surfaces c) x y q)) ∧
      (opaque_at (surfaces c) x y = true → ∀ q, px (fb c) x y = Some (shade (surfaces c) x y q)).
Proof.
  intros HA Hs Hos Hn Ho. unfold session. apply wp_bind. eapply wp_mono; [by apply compositor_new_ok|].
  intros [c|] Hc; [|done]. destruct Hc as [Hi Hc]. rewrite run_app. apply wp_bind, wp_bind.
  eapply wp_mono; [apply wp_split; [apply (session_run_ok screen A os 0)|apply (session_current screen A os 0 c HA Ho)]; (done || lia)|].
  intros c1 [H1 H2].
  simpl. apply wp_bind. eapply wp_mono; [by apply (composite_fine screen (0 + zlen os))|].
  intros c2 (I2 & D1 & D2 & Hcur). apply wp_ok, wp_ok. exists c2. split; [done|]. split_and!; [apply I2..|]. intros x y Hxy.
  destruct (Hcur H2 x y) as [Hd|[q Hq]].
  - rewrite (visible_size screen) by apply I2. done.
  - unfold dirty_at in Hd. by rewrite D1, D2 in Hd.
  - split; [by exists q|]. intros Hop q'. rewrite Hq. f_equal. by apply shade_opaque.
Qed.

(** * A session *)
Definition memory : allocator := Build_allocator (λ _ _, true) (λ _ _, 0).
Definition blank (w h : Z) : NvSurface := mkSurface (replicate (Z.to_nat (w * h)) 0) w h w false.
Definition flood (c : Z) : NvSurface → outcome NvSurface := λ b, draw_fill_rect b (mkRect 0 0 4 4) c.

Lemma flood_keeps c b : wf b → keeps b (flood c b).
Proof. intros Hb. apply fill_rect_keeps; [done|]. unfold small_rect, small. cbn. lia. Qed.
Lemma blank_ok w h : 1 ≤ w ≤ LIMIT → 1 ≤ h ≤ LIMIT → frame_ok (blank w h).
Proof.
  unfold LIMIT. intros. split; [|done]. constructor; cbn; unfold DIM; [lia..|]. unfold zlen. rewrite length_replicate. nia.
Qed.

Definition desktop : list op :=
  [Create 0 0 4 3 SURFACE_WALLPAPER; Draw 1 (flood 0xFF204060); Report 1; Create 1 1 2 2 SURFACE_NORMAL; Draw 2 (flood 0xFFFFFFFF); Report 2;
   Composite; Move 2 2 0; SetAlpha 2 128; Composite; Hide 1; Show 1; Resize 2 1 3; Destroy 2].

Lemma desktop_ok : Forall op_ok desktop.
Proof. unfold desktop, op_ok, LIMIT. rewrite !Forall_cons. split_and!; (lia || done || (intros b Hb; by apply flood_keeps)). Qed.

Lemma compositor_invariant_witness :
  session memory 0 (blank 4 3) desktop ⇓ λ o, ∀ c, o = Some c →
    wf (fb c) ∧ same_size (blank 4 3) (fb c) ∧
    zlen (surfaces c) ≤ COMPOSITOR_MAX_SURFACES ∧ zlen (damage c) ≤ COMPOSITOR_MAX_DAMAGE ∧
    NoDup (id <$> surfaces c) ∧ Sorted Z.le (z_order <$> surfaces c) ∧
    Forall (λ s, ∀ b, buffer s = Some b → wf b ∧ width b = sw s ∧ height b = sh s) (surfaces c).
Proof. apply compositor_invariant; [by apply blank_ok|apply desktop_ok|done]. Defined.

Lemma screen_shows_surfaces_witness :
  session memory 0 (blank 4 3) (desktop ++ [Composite]) ⇓ λ o, ∃ c, o = Some c ∧ same_size (blank 4 3) (fb c) ∧
    Sorted Z.le (z_order <$> surfaces c) ∧
    ∀ x y, on_surface (blank 4 3) x y = true →
      (∃ q, px (fb c) x y = Some (shade (surfaces c) x y q)) ∧
      (opaque_at (surfaces c) x y = true → ∀ q, px (fb c) x y = Some (shade (surfaces c) x y q)).
Proof. apply screen_shows_surfaces; [done|by apply blank_ok|apply desktop_ok|done|done]. Defined.

(** The screen after a session, pixel by pixel. *)
Definition shown_after (os : list op) : outcome (list Z) :=
  o ← session memory 0 (blank 4 3) os; Ok (default [] (pixels ∘ fb <$> o)).

(** A new surface below another one is created under an id that the caller is not told. *)
Lemma create_returns_other_id :
  (o ← session memory 0 (blank 4 3) [Create 0 0 2 2 SURFACE_OVERLAY];
   match o with
   | None => Ok None
   | Some c => '(n, c) ← compositor_create_surface memory c 0 0 2 2 SURFACE_NORMAL; Ok (Some (n, id <$> surfaces c))
   end) = Ok (Some (1, [2; 1])).
Proof. vm_compute. reflexivity. Qed.

(** The corner where the first and the third surface meet, before and after the first is raised. *)
Definition three : list op :=
  [Create 0 0 2 2 SURFACE_NORMAL; Create 3 2 1 1 SURFACE_NORMAL; Create 1 1 2 2 SURFACE_NORMAL;
   Draw 1 (flood 0xFF111111); Report 1; Draw 2 (flood 0xFF222222); Report 2; Draw 3 (flood 0xFF333333); Report 3; Composite].

Lemma raise_damages_other_surface :
  (l ← shown_after (three ++ [Raise 1; Composite]); Ok (l !! 5%nat)) = Ok (Some 0xFF333333) ∧
  (l ← shown_after (three ++ [Raise 1; Report 1; Composite]); Ok (l !! 5%nat)) = Ok (Some 0xFF111111).
Proof. vm_compute. done. Qed.

(** The region is not cleared: what a destroyed surface showed stays visible through the background. *)
Lemma background_is_translucent :
  COLOR_A BACKGROUND = 26 ∧
  (l ← shown_after [Create 0 0 2 2 SURFACE_NORMAL; Draw 1 (flood 0xFFFFFFFF); Report 1; Composite; Destroy 1; Composite]; Ok (l !! 0%nat)) ≠
  (l ← shown_after [Create 0 0 2 2 SURFACE_NORMAL; Draw 1 (flood 0xFF000000); Report 1; Composite; Destroy 1; Composite]; Ok (l !! 0%nat)).
Proof. vm_compute. done. Qed.

(** When there is no memory for the new size the surface loses its buffer, and the screen keeps showing it. *)
Lemma failed_resize_not_damaged :
  (o ← session (Build_allocator (λ k _, bool_decide (k < 6)%nat) (λ _ _, 0)) 0 (blank 4 3) [Create 0 0 2 2 SURFACE_NORMAL; Draw 1 (flood 0xFFFFFFFF); Report 1; Composite; Resize 1 3 3; Composite];
   Ok (match o with Some c => Some (pixels (fb c) !! 0%nat, map buffer (surfaces c)) | None => None end)) = Ok (Some (Some 0xFFFFFFFF, [None])).
Proof. vm_compute. reflexivity. Qed.

End CompositorClaims.
